(* ===== verification/_CoqProject ===== *)
-Q . S2P
Prelude.v
Slice.v
Coding.v
Crc32c.v
Comparator.v
Filename.v
Hash.v
Cache.v
DbFormat.v
WriteBatch.v
LogFormat.v
LogWriter.v
LogReader.v
Random.v
ReadSampling.v
Iterator.v
SkipList.v
Arena.v
MemTable.v
Entries.v
MemIter.v
View.v
Prune.v
BlockBuilder.v
Block.v
DbIter.v
Merger.v
TwoLevelIterator.v
Format.v
FilterBlock.v
TableBuilder.v
Table.v
BlockCache.v
VersionEdit.v
VersionFiles.v
VersionBuilder.v
FileRefs.v
DebugText.v
Compaction.v
VersionGet.v
CompactedVersion.v
FlushedVersion.v
VersionIter.v
TableCache.v
Env.v
PosixFiles.v
PosixEnv.v
PosixThreads.v
Snapshot.v
BuildTable.v
DbOptions.v
VersionSet.v
PerfCounters.v
DbState.v
DbImpl.v
DbClient.v
DbOpen.v
DbFiles.v
DbView.v
DbCompact.v
CompactionWork.v
DbWrite.v
DbFlush.v
DbRecover.v
Repair.v
RepairedDb.v
Dump.v
