(* ===== verification/Prelude.v ===== *)
(** * RocketDB: a verification library

    RocketDB (src/) is a persistent key-value store on log-structured merge
    trees.  This library models its C++ code, function by function, and proves
    that the store is a map from keys to values: what is written is read, by
    every reader that is entitled to see it, across flushes, compactions and
    crashes.

    ** The program and the files

    A write is a batch of operations ([WriteBatch]).  [DBImpl::Write] groups the
    batches of waiting writers, appends them as one record to a write-ahead log
    and inserts them into a memtable, a skip list in an arena.  A full memtable
    becomes immutable and is flushed to a table file; tables are organised in
    seven levels, described by a [Version]; compactions merge tables into the
    next level; edits of the version are logged in a manifest.  A read asks the
    memtable, the immutable memtable and the tables of the current version, in
    this order, for the newest entry of a user key at a sequence number.

    Base (src/util, src/include):
    - [Prelude]: notation, machine integers, tactics and lemmas of lists.
    - [Slice]: byte strings and [Status] (slice.h, status.h, status.cc).
    - [Coding], [Crc32c], [Hash], [Comparator], [Random], [Filename]: coding.cc,
      crc32c.cc, hash.cc and bloom.cc, comparator.cc, random.h, filename.cc and
      logging.cc.  [Comparator], [FilterPolicy], the checksum and the compression
      library are interfaces: records of operations with a class of laws.
    - [Cache]: the sharded LRU cache of cache.cc on a heap of handles, and the
      interface [CacheOps] with [CacheLaws] that it implements.
    - [Env]: the environment (env.h, env.cc, [SetCurrentFile]) as a record of
      operations on a world of files; [EnvLaws] is an environment whose calls do
      not fail, [MemEnv] an instance.
    - [PosixFiles], [PosixEnv], [PosixThreads]: env_posix.cc over the system calls
      as a record of operations with laws: its files, the environment with its
      file locks, and the threads that meet at the limiter and at the work queue.

    Log, keys and memtable (src/wal, src/db):
    - [DbFormat]: internal keys; [WriteBatch]: batches; [LogFormat], [LogWriter],
      [LogReader]: the log.
    - [Arena], [SkipList], [MemTable], [MemIter]: the memtable and its iterator.
    - [Entries], [View], [Prune]: the specification.  A database is a list of
      entries with distinct sequence numbers; [newest] is the entry that a read
      finds and [lookup_entry] its value; [View] is what an iterator shows, and
      [survivors] which entries of a key may be dropped at a snapshot.

    Tables (src/table):
    - [Iterator]: the iterator interface ([IteratorOps]) and its contract
      ([Cursor], [CursorOn]): an iterator is a position in a sorted list.
    - [BlockBuilder], [Block], [FilterBlock], [Format], [TableBuilder], [Table],
      [Merger], [TwoLevelIterator]: one file of src/table each.
    - [BlockCache]: [Table::BlockReader] and [Table::InternalGet] with the block
      cache, and the cleanup functions of iterators that give blocks back.

    Versions (src/db/version_edit.cc, version_set.cc, table_cache.cc):
    - [VersionEdit], [VersionFiles], [VersionBuilder], [DebugText], [Compaction],
      [VersionGet], [VersionIter], [TableCache], [VersionSet]: edits and their
      encoding, searches in a level, the builder, the choice of compactions,
      reads and iterators of a version, the cache of open tables, the set of live
      versions with its manifest.
    - [FileRefs]: versions and the records of their files as shared objects on a
      heap with reference counts; elsewhere a version is a value.
    - [CompactedVersion], [FlushedVersion]: what a compaction or a flush does to
      a version, as relations between the versions before and after.

    The database (src/db/db_impl.cc, db_iter.cc, builder.cc, snapshot.h):
    - [DbIter], [ReadSampling], [Snapshot], [BuildTable], [DbOptions],
      [PerfCounters]: the parts of it.
    - [DbState]: the fields of [DBImpl] and the monad of its operations, state
      passing with failure.  [DbImpl]: background work.  [DbClient]: writes,
      reads, snapshots, properties.  [DbOpen]: recovery, [Open], [DestroyDB].
    - [DbFiles], [DbView], [DbCompact], [CompactionWork], [DbWrite], [DbFlush],
      [DbRecover]: their proofs.
    - [Repair], [RepairedDb]: repair.cc and what it keeps.  [Dump]: dumpfile.cc.

    ** What is proved

    The claims are numbered C1, C2, ... in the order of importance.

    The store is a map: [DbView.db_get_newest] (a read returns the newest value
    at its sequence number), [DbView.db_iterator_shows_database] (an iterator
    shows exactly the live pairs, in order, in both directions),
    [DbWrite.write_applies_group] (a group of writes changes the map as its
    operations in queue order), [DbFlush.flush_preserves_reads] and
    [CompactionWork.compaction_preserves_reads] (background work changes no
    answer from the oldest snapshot on), [DbRecover.recovered_log_restores_writes]
    and [VersionSet.manifest_recovery] (what was logged is recovered, for the log
    from a file cut at any byte, whether or not memtables fill up on the way),
    [DbWrite.failed_sync_stops_writes] (an error of
    the log makes the database read-only), [DbFiles.obsolete_files_deleted]
    (deletion of files spares every file in use),
    [RepairedDb.repair_keeps_everything] (a database whose manifest is lost is
    rebuilt with every entry of its tables and logs).

    The invariant that these theorems share is [DbView.db_holds], with
    [CompactionWork.db_stored]: the memtables and the tables on the disk hold
    entries, newer entries come before older ones, levels above 0 are disjoint,
    and the table cache holds only what is on the disk.

    The components: round trips of log, tables, edits and file names;
    refinements of all iterators, of the skip list, the memtable, the version
    builder and the LRU cache; safety of the arena, of filters, of the choice of
    compactions and of the level of a flush; the invariant of the snapshot list;
    termination of the log reader on any file; and a state of the random
    generator from which an iterator never returns.  Versions and their files are
    never used after they are deleted and never leaked.  Dumping a log, a manifest
    or a table prints all of it.  The block cache changes no answer of a table and
    keeps a block while an iterator uses it.  A writable file of the operating
    system appends what it is given, in order, through partial and interrupted
    writes; locks exclude each other; the limiter's bound holds under every
    interleaving and scheduled work is run in order.

    Each component's theorem is stated against the interfaces it uses
    ([Comparator], [Env], [CacheOps], [IteratorOps], [TableIters], ...), and the
    implementation's theorems discharge the laws.

    ** Conventions

    Integers are [Z] with explicit wrap-around ([u32], [u64], [s32]); bytes are
    [list byte].  [None] in an operation is behaviour that the code must not
    reach: a failed assertion, a dereferenced null or dangling pointer, or a bound
    ([fuel]) that was too small.  So the assertions on file numbers and log
    numbers, sequence numbers, snapshots, the order of a level's files and the
    state of a database that is opened are part of the model, and the theorems
    assume or establish what they ask for.  Not part of it are the assertions that
    a mutex is held, that a background call was scheduled, and those of the block
    and table builders on the order of the keys they are given, which the theorems
    about them have as hypotheses.  Fuel stands for loops that are not structural;
    theorems either have no fuel, or hold for every fuel above a bound in their
    hypotheses (the number of entries of an iterator, or [record_fuel] of the
    records of a log), and conclude with a result, so that the loop ends.

    ** What is not modelled

    - Concurrency: the operations run one after the other; a condition variable's
      wait runs the scheduled background call ([DbClient.Wait]), and the writers
      that wait are a queue.  Memory orders of atomics are not modelled.
    - Memory: files have their reference counts only in [FileRefs], versions there
      and in [VersionSet]; reference counts of memtables, the info log and, in the
      database's own operations, the destruction of iterators are left out.  An
      iterator of the table cache carries its own copy of the open table.
    - The block cache in [Table]: there every block is read from the file, and the
      database's theorems are about that [Table].  [BlockCache] shows that the
      cache makes no difference to a table's reads.
    - Of env_posix.cc: the info log (posix_logger.h), [StartThread], sleeping, the
      test directory and the singleton; [PosixEnv] runs in one thread.
    - The mutexes of src/port, histogram.cc, the C bindings, benchmarks and tests.
      Compression, the accelerated checksum and the sizes of [new] are parameters.

    ** Assumptions worth knowing

    [compaction_preserves_reads] assumes that the inputs of a compaction respect
    the boundaries of user keys, because [AddBoundaryInputs] never adds a file
    ([VersionFiles.boundary_inputs_never_added]).  [repair_keeps_everything] assumes
    that tables have the .ldb name, because [ScanTable] loses the others
    ([RepairedDb.ScanTable_loses_sst]).  File numbers are positive.  Sizes are bounded as the
    formats need: tables below 4 GiB, keys and values below 4 GiB, sequence
    numbers below 2^56. *)

From Stdlib Require Export ZArith Lia List Bool String Btauto.
From stdpp Require Export base tactics list list_numbers option.
From coqutil Require Export Byte Word.LittleEndianList.

#[global] Open Scope Z_scope.

(** ** Notation of the development *)

Declare Scope rocket_scope.
Delimit Scope rocket_scope with rocket.
#[global] Open Scope rocket_scope.

(** A [std::string] or the bytes a [Slice] points to. *)
Abbreviation bytes := (list byte).

(** The length of a byte string as a machine-integer value. *)
Abbreviation zlen l := (Z.of_nat (length l)).

(** Unsigned machine integers are [Z] values; the wrap-around is explicit. *)
Definition u8 (z : Z) : Z := z mod 2 ^ 8.
Definition u32 (z : Z) : Z := z mod 2 ^ 32.
Definition u64 (z : Z) : Z := z mod 2 ^ 64.

(** Two's complement reading of the low 32 bits ([static_cast<int>]). *)
Definition s32 (z : Z) : Z := (z + 2 ^ 31) mod 2 ^ 32 - 2 ^ 31.
Definition s64 (z : Z) : Z := (z + 2 ^ 63) mod 2 ^ 64 - 2 ^ 63.

(** [static_cast<int>] of a [char] on a platform where [char] is signed. *)
Definition s8 (z : Z) : Z := (z + 2 ^ 7) mod 2 ^ 8 - 2 ^ 7.

(** The bytes of a string literal. *)
Definition lit (s : string) : bytes := list_byte_of_string s.
Notation "'str:' s" := (lit s%string) (at level 9, s at level 0) : rocket_scope.


Create HintDb rocket.

(** ** Tactics *)

(** Turn the boolean comparisons of the code into propositions. *)
Ltac boolprop :=
  repeat match goal with
  | H : (_ <? _)%Z = true |- _ => apply Z.ltb_lt in H
  | H : (_ <? _)%Z = false |- _ => apply Z.ltb_ge in H
  | H : (_ <=? _)%Z = true |- _ => apply Z.leb_le in H
  | H : (_ <=? _)%Z = false |- _ => apply Z.leb_gt in H
  | H : (_ =? _)%Z = true |- _ => apply Z.eqb_eq in H
  | H : (_ =? _)%Z = false |- _ => apply Z.eqb_neq in H
  | H : (_ <? _)%nat = true |- _ => apply Nat.ltb_lt in H
  | H : (_ <? _)%nat = false |- _ => apply Nat.ltb_ge in H
  | H : (_ <=? _)%nat = true |- _ => apply Nat.leb_le in H
  | H : (_ <=? _)%nat = false |- _ => apply Nat.leb_gt in H
  | H : (_ =? _)%nat = true |- _ => apply Nat.eqb_eq in H
  | H : (_ =? _)%nat = false |- _ => apply Nat.eqb_neq in H
  | H : (_ && _)%bool = true |- _ => apply andb_prop in H; destruct H
  | H : (_ || _)%bool = false |- _ => apply orb_false_elim in H; destruct H
  | H : negb _ = true |- _ => apply negb_true_iff in H
  | H : negb _ = false |- _ => apply negb_false_iff in H
  end.

(** Split on the first boolean test in the goal and read off the fact. *)
Ltac case_test :=
  match goal with
  | |- context [if ?b then _ else _] =>
      let E := fresh "E" in destruct b eqn:E; boolprop
  end.

(** Equality of two integer tests. *)
Ltac booleq :=
  apply eq_true_iff_eq;
  rewrite ?Z.ltb_lt, ?Z.leb_le, ?Z.gtb_lt, ?Z.geb_le, ?Z.eqb_eq; lia.

#[export] Hint Rewrite @length_app @length_cons @length_nil @length_take
  @length_drop @length_replicate : len.

Ltac lenlia := autorewrite with len in *; lia.

(** Linear arithmetic over lengths and the powers of two that bound machine
    integers. *)
Ltac zlia :=
  change (2 ^ 7) with 128 in *; change (2 ^ 8) with 256 in *;
  change (2 ^ 31) with 2147483648 in *; change (2 ^ 32) with 4294967296 in *;
  change (2 ^ 64) with 18446744073709551616 in *;
  autorewrite with len in *; lia.

(** Decimal digits of a number, as [%u], [%llu] and the like print it.  [n]
    has at most [n] digits beyond the first, so [S (Z.to_nat (Z.log2 n))] rounds
    are enough. *)
Fixpoint decimal_loop (fuel : nat) (n : Z) (acc : bytes) : bytes :=
  match fuel with
  | O => acc
  | S fuel' =>
      let acc := byte.of_Z (48 + n mod 10) :: acc in
      if n <? 10 then acc else decimal_loop fuel' (n / 10) acc
  end.

Definition decimal (n : Z) : bytes := decimal_loop (S (Z.to_nat (Z.log2 n))) n [].

Definition signed_decimal (n : Z) : bytes :=
  if n <? 0 then Byte.x2d :: decimal (- n) else decimal n.

Lemma gtb_le a b : a <= b -> (a >? b) = false.
Proof. intros H. rewrite Z.gtb_ltb. by apply Z.ltb_ge. Qed.

(** ** Machine integers *)

Lemma u8_small z : 0 <= z < 2 ^ 8 -> u8 z = z.
Proof. apply Z.mod_small. Qed.

Lemma u32_small z : 0 <= z < 2 ^ 32 -> u32 z = z.
Proof. apply Z.mod_small. Qed.

Lemma u64_small z : 0 <= z < 2 ^ 64 -> u64 z = z.
Proof. apply Z.mod_small. Qed.

Lemma u32_range z : 0 <= u32 z < 2 ^ 32.
Proof. apply Z.mod_pos_bound; lia. Qed.

Lemma u64_range z : 0 <= u64 z < 2 ^ 64.
Proof. apply Z.mod_pos_bound; lia. Qed.

Lemma s32_small z : - 2 ^ 31 <= z < 2 ^ 31 -> s32 z = z.
Proof. intros ?. unfold s32. rewrite Z.mod_small; lia. Qed.

Lemma s32_range z : - 2 ^ 31 <= s32 z < 2 ^ 31.
Proof. unfold s32. pose proof (Z.mod_pos_bound (z + 2 ^ 31) (2 ^ 32)). lia. Qed.

#[export] Hint Resolve u32_range u64_range : rocket.

(** Bits of a value below [2 ^ n] and bits shifted left by [n] do not meet. *)
Lemma lor_shiftl_add a b n :
  0 <= n -> 0 <= a < 2 ^ n -> Z.lor a (Z.shiftl b n) = a + b * 2 ^ n.
Proof.
  intros Hn Ha. rewrite <- Z.add_lor_land, Z.shiftl_mul_pow2 by lia.
  enough (Z.land a (b * 2 ^ n) = 0) by lia.
  apply Z.bits_inj'. intros i Hi. rewrite Z.land_spec, Z.bits_0.
  destruct (Z.lt_ge_cases i n).
  - rewrite (Z.mul_pow2_bits_low _ n) by lia. apply andb_false_r.
  - rewrite <- (Z.mod_small a (2 ^ n)) by lia.
    rewrite Z.mod_pow2_bits_high by lia. reflexivity.
Qed.

(** A value whose bits from [w] up are clear is below [2 ^ w]. *)
Lemma high_bits_range w a :
  0 <= w -> (forall i, w <= i -> Z.testbit a i = false) -> 0 <= a < 2 ^ w.
Proof.
  intros Hw H. replace a with (a mod 2 ^ w); [apply Z.mod_pos_bound; lia|].
  apply Z.bits_inj'. intros i Hi. destruct (Z.lt_ge_cases i w).
  - by rewrite Z.mod_pow2_bits_low.
  - by rewrite Z.mod_pow2_bits_high, H by lia.
Qed.

Lemma range_high_bits w a i : 0 <= a < 2 ^ w -> 0 <= w <= i -> Z.testbit a i = false.
Proof.
  intros Ha Hi. rewrite <- (Z.mod_small a (2 ^ w)) by lia.
  apply Z.mod_pow2_bits_high. lia.
Qed.

Lemma lxor_range w a b :
  0 <= w -> 0 <= a < 2 ^ w -> 0 <= b < 2 ^ w -> 0 <= Z.lxor a b < 2 ^ w.
Proof.
  intros Hw Ha Hb. apply high_bits_range; [done|]. intros i Hi.
  by rewrite Z.lxor_spec, !(range_high_bits w) by lia.
Qed.

Lemma lor_range w a b :
  0 <= w -> 0 <= a < 2 ^ w -> 0 <= b < 2 ^ w -> 0 <= Z.lor a b < 2 ^ w.
Proof.
  intros Hw Ha Hb. apply high_bits_range; [done|]. intros i Hi.
  by rewrite Z.lor_spec, !(range_high_bits w) by lia.
Qed.

Lemma shiftr_range w a n : 0 <= n -> 0 <= a < 2 ^ w -> 0 <= Z.shiftr a n < 2 ^ w.
Proof.
  intros Hn Ha. rewrite Z.shiftr_div_pow2 by lia.
  assert (0 < 2 ^ n) by lia.
  split; [apply Z.div_pos; lia|].
  apply Z.le_lt_trans with a; [|lia]. apply Z.div_le_upper_bound; nia.
Qed.

(** Identities between exclusive ors. *)
Ltac lxor_tauto :=
  apply Z.bits_inj'; intros ?i ?Hi; rewrite ?Z.lxor_spec, ?Z.bits_0;
  repeat match goal with
  | |- context [Z.testbit ?x ?j] =>
      let b := fresh "b" in set (b := Z.testbit x j); clearbody b
  end; btauto.

Lemma land_ones_mod a n : 0 <= n -> Z.land a (Z.ones n) = a mod 2 ^ n.
Proof. apply Z.land_ones. Qed.

Lemma land127 a : Z.land a 127 = a mod 128.
Proof. apply (Z.land_ones a 7). lia. Qed.

Lemma land255 a : Z.land a 255 = a mod 256.
Proof. apply (Z.land_ones a 8). lia. Qed.

(** The continuation bit of a byte. *)
Lemma land128 a : 0 <= a < 256 -> Z.land a 128 = if a <? 128 then 0 else 128.
Proof.
  intros Ha. destruct (a <? 128) eqn:E; boolprop.
  - apply Z.bits_inj'. intros i Hi. rewrite Z.land_spec, Z.bits_0.
    destruct (Z.eq_dec i 7) as [->|].
    + rewrite <- (Z.mod_small a (2 ^ 7)) by lia.
      rewrite Z.mod_pow2_bits_high by lia. reflexivity.
    + rewrite (Z.pow2_bits_false 7) by lia. apply andb_false_r.
  - replace a with (Z.lor (a - 128) (Z.shiftl 1 7)).
    2:{ rewrite lor_shiftl_add by zlia. zlia. }
    change 128 with (Z.shiftl 1 7) at 2. rewrite Z.land_lor_distr_l.
    replace (Z.land (a - 128) (Z.shiftl 1 7)) with 0; [reflexivity|].
    symmetry. apply Z.bits_inj'. intros i Hi. rewrite Z.land_spec, Z.bits_0.
    destruct (Z.eq_dec i 7) as [->|].
    + rewrite <- (Z.mod_small (a - 128) (2 ^ 7)) by zlia.
      rewrite Z.mod_pow2_bits_high by lia. reflexivity.
    + change (Z.shiftl 1 7) with (2 ^ 7). rewrite (Z.pow2_bits_false 7) by lia.
      apply andb_false_r.
Qed.

(** ** Bytes *)

Lemma unsigned_range b : 0 <= byte.unsigned b < 256.
Proof. apply byte.unsigned_range. Qed.
#[export] Hint Resolve unsigned_range : rocket.

Lemma unsigned_of_Z z : byte.unsigned (byte.of_Z z) = z mod 256.
Proof. apply byte.unsigned_of_Z. Qed.

Lemma of_Z_mod z : byte.of_Z (z mod 256) = byte.of_Z z.
Proof.
  apply byte.unsigned_inj. rewrite !unsigned_of_Z. apply Z.mod_mod. lia.
Qed.

#[global] Instance byte_eq_dec : EqDecision byte := Byte.byte_eq_dec.

(** ** Orders given by a three-way comparison

    [int Compare(a, b)] of the code is only used through its sign, which
    [comparison] holds.  A comparator is a total preorder: [Eq] need not be
    equality, because a user may supply a coarser order. *)

Class OrderLaws {A} (cmp : A -> A -> comparison) : Prop := {
  cmp_antisym : forall x y, cmp y x = CompOpp (cmp x y);
  cmp_le_trans : forall x y z, cmp x y <> Gt -> cmp y z <> Gt -> cmp x z <> Gt
}.
Arguments cmp_antisym {A} cmp {_} x y.
Arguments cmp_le_trans {A} cmp {_} x y z _ _.

Section Order.
Context {A} (cmp : A -> A -> comparison) `{!OrderLaws cmp}.

Lemma cmp_refl x : cmp x x = Eq.
Proof. pose proof (cmp_antisym cmp x x) as H. by destruct (cmp x x). Qed.

Lemma cmp_lt_gt x y : cmp x y = Lt <-> cmp y x = Gt.
Proof. rewrite (cmp_antisym cmp x y). destruct (cmp x y); naive_solver. Qed.

Lemma cmp_eq_sym x y : cmp x y = Eq -> cmp y x = Eq.
Proof. intros E. by rewrite (cmp_antisym cmp x y), E. Qed.

Lemma cmp_le_ge x y : cmp x y <> Gt <-> cmp y x <> Lt.
Proof. rewrite (cmp_antisym cmp x y). destruct (cmp x y); naive_solver. Qed.

Lemma cmp_lt_le_trans x y z : cmp x y = Lt -> cmp y z <> Gt -> cmp x z = Lt.
Proof.
  intros H1 H2. destruct (cmp x z) eqn:E; [|done|].
  - exfalso. assert (cmp z x <> Gt) as H3 by (by rewrite (cmp_antisym cmp x z), E).
    pose proof (cmp_le_trans cmp y z x H2 H3) as H4.
    by rewrite (cmp_antisym cmp x y), H1 in H4.
  - exfalso. apply (cmp_le_trans cmp x y z); [by rewrite H1|done|done].
Qed.

Lemma cmp_le_lt_trans x y z : cmp x y <> Gt -> cmp y z = Lt -> cmp x z = Lt.
Proof.
  intros H1 H2. apply cmp_lt_gt. apply cmp_lt_gt in H2.
  destruct (cmp z x) eqn:E; [| |done]; exfalso.
  - apply (cmp_le_trans cmp z x y) in H1; [by rewrite H2 in H1|by rewrite E].
  - apply (cmp_le_trans cmp z x y) in H1; [by rewrite H2 in H1|by rewrite E].
Qed.

Lemma cmp_lt_trans x y z : cmp x y = Lt -> cmp y z = Lt -> cmp x z = Lt.
Proof. intros H1 H2. eapply cmp_lt_le_trans; [done|by rewrite H2]. Qed.

Lemma cmp_eq_l x y z : cmp x y = Eq -> cmp x z = cmp y z.
Proof.
  intros E. pose proof (cmp_eq_sym _ _ E) as E'.
  destruct (cmp y z) eqn:F.
  - assert (cmp x z <> Gt) by (apply (cmp_le_trans cmp x y z); congruence).
    assert (cmp z x <> Gt).
    { apply (cmp_le_trans cmp z y x); [|congruence].
      rewrite (cmp_antisym cmp y z), F. done. }
    rewrite (cmp_antisym cmp x z) in *. by destruct (cmp x z).
  - apply (cmp_le_lt_trans x y z); congruence.
  - apply cmp_lt_gt. apply cmp_lt_gt in F.
    apply (cmp_lt_le_trans z y x); congruence.
Qed.

Lemma cmp_eq_r x y z : cmp x y = Eq -> cmp z x = cmp z y.
Proof.
  intros E. rewrite (cmp_antisym cmp x z), (cmp_antisym cmp y z). f_equal.
  by apply cmp_eq_l.
Qed.
End Order.
