(* ===== verification/Slice.v ===== *)
(** * Slices and statuses

    [Slice] (include/slice.h) is a view of a byte string: the model is the
    byte string itself.  [compare] is written as the code does, with [memcmp]
    on the common prefix and the lengths as tie-break, and shown to be the
    lexicographic order, a total order whose [Eq] is equality.

    [Status] (include/status.h, src/util/status.cc) keeps the code's own
    representation: a null [state_], or an array holding the length of the
    message, the code and the message. *)

From S2P Require Import Prelude.

(** ** Slice *)

(** [memcmp(a, b, n)]: the sign of the first difference of unsigned bytes. *)
Fixpoint memcmp (a b : bytes) (n : nat) : comparison :=
  match n, a, b with
  | S n', x :: a', y :: b' =>
      match byte.unsigned x ?= byte.unsigned y with
      | Eq => memcmp a' b' n'
      | c => c
      end
  | _, _, _ => Eq
  end.

(** [Slice::compare] *)
Definition Slice_compare (a b : bytes) : comparison :=
  let min_len := if zlen a <? zlen b then length a else length b in
  let r := memcmp a b min_len in
  match r with
  | Eq => if zlen a <? zlen b then Lt
          else if zlen a >? zlen b then Gt
          else r
  | _ => r
  end.

(** [operator==] *)
Definition Slice_eqb (x y : bytes) : bool :=
  (zlen x =? zlen y) &&
  match memcmp x y (length x) with Eq => true | _ => false end.

(** [Slice::starts_with] *)
Definition starts_with (s x : bytes) : bool :=
  (zlen s >=? zlen x) &&
  match memcmp s x (length x) with Eq => true | _ => false end.

(** [Slice::remove_prefix]: the assertion [n <= size()] is the guard. *)
Definition remove_prefix (n : nat) (s : bytes) : option bytes :=
  if (n <=? length s)%nat then Some (drop n s) else None.

(** Reference: the lexicographic order of unsigned bytes. *)
Fixpoint lex (a b : bytes) : comparison :=
  match a, b with
  | [], [] => Eq
  | [], _ :: _ => Lt
  | _ :: _, [] => Gt
  | x :: a', y :: b' =>
      match byte.unsigned x ?= byte.unsigned y with
      | Eq => lex a' b'
      | c => c
      end
  end.

Lemma Slice_compare_cons x y a b :
  Slice_compare (x :: a) (y :: b) =
  match byte.unsigned x ?= byte.unsigned y with
  | Eq => Slice_compare a b | c => c end.
Proof.
  unfold Slice_compare. cbn [length].
  replace (Z.of_nat (S (length a)) <? Z.of_nat (S (length b)))
    with (zlen a <? zlen b) by booleq.
  replace (Z.of_nat (S (length a)) >? Z.of_nat (S (length b)))
    with (zlen a >? zlen b) by booleq.
  destruct (zlen a <? zlen b); cbn [memcmp];
    by destruct (byte.unsigned x ?= byte.unsigned y).
Qed.

(** The code's comparison is the lexicographic order. *)
Lemma Slice_compare_lex a b : Slice_compare a b = lex a b.
Proof.
  revert b. induction a as [|x a IH]; intros [|y b]; try reflexivity.
  rewrite Slice_compare_cons, IH. reflexivity.
Qed.

Lemma lex_eq a b : lex a b = Eq <-> a = b.
Proof.
  split.
  - revert b. induction a as [|x a IH]; intros [|y b]; cbn; try done.
    destruct (byte.unsigned x ?= byte.unsigned y) eqn:E; try done.
    apply Z.compare_eq in E. apply byte.unsigned_inj in E as ->.
    intros H. f_equal. by apply IH.
  - intros <-. induction a as [|x a IH]; cbn; [done|].
    by rewrite Z.compare_refl.
Qed.

#[export] Instance lex_laws : OrderLaws lex.
Proof.
  split.
  - intros x. induction x as [|b x IH]; intros [|c y]; cbn; try done.
    rewrite (Z.compare_antisym (byte.unsigned b)).
    destruct (byte.unsigned b ?= byte.unsigned c); cbn; auto.
  - intros x. induction x as [|b x IH]; intros [|c y] [|d z]; cbn; try done.
    destruct (Z.compare_spec (byte.unsigned b) (byte.unsigned c)),
      (Z.compare_spec (byte.unsigned c) (byte.unsigned d)),
      (Z.compare_spec (byte.unsigned b) (byte.unsigned d)); try done;
      try lia; eauto.
Qed.

#[export] Instance Slice_compare_laws : OrderLaws Slice_compare.
Proof.
  split; intros; rewrite !Slice_compare_lex in *;
    [apply (cmp_antisym lex)|eapply (cmp_le_trans lex); eauto].
Qed.

Lemma Slice_compare_eq a b : Slice_compare a b = Eq <-> a = b.
Proof. rewrite Slice_compare_lex. apply lex_eq. Qed.

Lemma memcmp_eq a b n :
  length a = n -> length b = n -> memcmp a b n = Eq <-> a = b.
Proof.
  revert a b. induction n as [|n IH]; intros [|x a] [|y b] Ha Hb; try done.
  cbn. injection Ha as Ha. injection Hb as Hb.
  destruct (Z.compare_spec (byte.unsigned x) (byte.unsigned y)) as [E|E|E].
  - apply byte.unsigned_inj in E as ->. rewrite IH by done. naive_solver.
  - split; [done|]. injection 1 as -> ->. lia.
  - split; [done|]. injection 1 as -> ->. lia.
Qed.

Lemma Slice_eqb_eq x y : Slice_eqb x y = true <-> x = y.
Proof.
  unfold Slice_eqb. destruct (zlen x =? zlen y) eqn:E; boolprop; cbn [andb].
  - rewrite <- (memcmp_eq x y (length x)) by lia.
    by destruct (memcmp x y (length x)).
  - split; [done|]. intros ->. lia.
Qed.

Lemma Slice_eqb_reflect x y : reflect (x = y) (Slice_eqb x y).
Proof. apply iff_reflect. symmetry. apply Slice_eqb_eq. Qed.

Lemma memcmp_prefix s x : memcmp (x ++ s) x (length x) = Eq.
Proof.
  induction x as [|b x IH]; cbn; [by destruct s|]. by rewrite Z.compare_refl.
Qed.

Lemma memcmp_eq_take s x :
  (length x <= length s)%nat -> memcmp s x (length x) = Eq ->
  take (length x) s = x.
Proof.
  revert s. induction x as [|y x IH]; intros [|b s]; cbn; try done; try lia.
  intros Hlen. destruct (byte.unsigned b ?= byte.unsigned y) eqn:E; try done.
  apply Z.compare_eq, byte.unsigned_inj in E as ->.
  intros H. f_equal. apply IH; [lia|done].
Qed.

Lemma starts_with_spec s x :
  starts_with s x = true <-> exists t, s = x ++ t.
Proof.
  unfold starts_with. split.
  - intros H. apply andb_prop in H as [H1 H2].
    destruct (memcmp s x (length x)) eqn:E; try done.
    exists (drop (length x) s).
    rewrite <- (memcmp_eq_take s x) at 1 by (done || lia).
    by rewrite take_drop.
  - intros [t ->]. rewrite memcmp_prefix, andb_true_r, Z.geb_le. zlia.
Qed.

(** ** Status *)

Inductive Code :=
  | kOk | kNotFound | kCorruption | kNotSupported | kInvalidArgument | kIOError.

Definition code_to_Z (c : Code) : Z :=
  match c with
  | kOk => 0 | kNotFound => 1 | kCorruption => 2 | kNotSupported => 3
  | kInvalidArgument => 4 | kIOError => 5
  end.

(** [static_cast<Code>(state_[4])]; [None] for a value that is no enumerator. *)
Definition code_of_Z (z : Z) : option Code :=
  if z =? 0 then Some kOk else if z =? 1 then Some kNotFound
  else if z =? 2 then Some kCorruption else if z =? 3 then Some kNotSupported
  else if z =? 4 then Some kInvalidArgument else if z =? 5 then Some kIOError
  else None.

(** [state_]: a null pointer, or the array it points to. *)
Record Status := mkStatus { state_ : option bytes }.

Definition Status_OK : Status := mkStatus None.

(** [Status::Status(Code, msg1, msg2)]: the 32-bit length in host (little
    endian) order, the code, the message. *)
Definition Status_make (code : Code) (msg1 msg2 : bytes) : Status :=
  let len1 := u32 (zlen msg1) in
  let len2 := u32 (zlen msg2) in
  let size := u32 (len1 + (if len2 =? 0 then 0 else 2 + len2)) in
  mkStatus (Some (le_split 4 size ++ [byte.of_Z (code_to_Z code)]
    ++ take (Z.to_nat len1) msg1
    ++ (if len2 =? 0 then [] else str:": " ++ take (Z.to_nat len2) msg2))).

Definition NotFound (msg : bytes) : Status := Status_make kNotFound msg [].
Definition Corruption (msg : bytes) : Status := Status_make kCorruption msg [].
Definition Corruption2 (msg1 msg2 : bytes) : Status :=
  Status_make kCorruption msg1 msg2.
Definition InvalidArgument (msg : bytes) : Status :=
  Status_make kInvalidArgument msg [].

(** [Status::ok] *)
Definition ok (s : Status) : bool :=
  match state_ s with None => true | Some _ => false end.

(** [Status::code] *)
Definition code (s : Status) : option Code :=
  match state_ s with
  | None => Some kOk
  | Some st => code_of_Z (byte.unsigned (nth 4 st Byte.x00))
  end.

Definition IsNotFound (s : Status) : bool :=
  match code s with Some kNotFound => true | _ => false end.
Definition IsCorruption (s : Status) : bool :=
  match code s with Some kCorruption => true | _ => false end.

(** [Status::ToString]; an unknown code ([%d] of the [char]) cannot be built by
    the constructors. *)
Definition ToString (s : Status) : bytes :=
  match state_ s with
  | None => str:"OK"
  | Some st =>
      let type :=
        match code s with
        | Some kOk => str:"OK"
        | Some kNotFound => str:"NotFound: "
        | Some kCorruption => str:"Corruption: "
        | Some kNotSupported => str:"Not implemented: "
        | Some kInvalidArgument => str:"Invalid argument: "
        | Some kIOError => str:"IO error: "
        | None =>
            (str:"Unknown code(") ++
            signed_decimal (s8 (byte.unsigned (nth 4 st Byte.x00))) ++ str:"):"
        end in
      type ++ take (Z.to_nat (le_combine (take 4 st))) (drop 5 st)
  end.

(** [Status::CopyState]: the bytes of a state that a copy keeps. *)
Definition CopyState (st : bytes) : bytes :=
  take (Z.to_nat (le_combine (take 4 st) + 5)) st.

Lemma ok_make c m1 m2 : ok (Status_make c m1 m2) = false.
Proof. reflexivity. Qed.

Lemma code_make c m1 m2 : code (Status_make c m1 m2) = Some c.
Proof.
  unfold code, Status_make; cbn [state_].
  rewrite app_nth2; rewrite length_le_split; [|lia].
  by destruct c.
Qed.

Lemma IsNotFound_make c m1 m2 :
  IsNotFound (Status_make c m1 m2) =
  match c with kNotFound => true | _ => false end.
Proof. unfold IsNotFound. rewrite code_make. by destruct c. Qed.

#[export] Hint Rewrite ok_make code_make : rocket.
