(* ===== verification/Coding.v ===== *)
(** * Fixed and variable length integers, length-prefixed strings

    src/util/coding.h and src/util/coding.cc.  An encoder yields the bytes it
    appends to its destination.  A decoder [GetX(&input, &v)] is a function of
    the remaining input: [None] is the [false] (or null pointer) result, and
    [Some (v, rest)] the value with the advanced input.  A null result leaves
    callers with nothing to read, so the position of [input] on failure is
    not kept.

    The laws the other components use are stated once, as the class
    [PrefixCodec]: decoding what was encoded returns the value and leaves
    exactly the bytes that followed it. *)

From S2P Require Import Prelude Slice.

(** ** Definitions *)

(** [buffer[i]] of a pointer into a byte string. *)
Definition byte_at (p : bytes) (i : nat) : Z := byte.unsigned (nth i p Byte.x00).

Definition EncodeFixed32 (value : Z) : bytes :=
  [ byte.of_Z value;
    byte.of_Z (Z.shiftr value 8);
    byte.of_Z (Z.shiftr value 16);
    byte.of_Z (Z.shiftr value 24) ].

Definition EncodeFixed64 (value : Z) : bytes :=
  [ byte.of_Z value;
    byte.of_Z (Z.shiftr value 8);
    byte.of_Z (Z.shiftr value 16);
    byte.of_Z (Z.shiftr value 24);
    byte.of_Z (Z.shiftr value 32);
    byte.of_Z (Z.shiftr value 40);
    byte.of_Z (Z.shiftr value 48);
    byte.of_Z (Z.shiftr value 56) ].

Definition DecodeFixed32 (ptr : bytes) : Z :=
  Z.lor (Z.lor (Z.lor
    (byte_at ptr 0)
    (u32 (Z.shiftl (byte_at ptr 1) 8)))
    (u32 (Z.shiftl (byte_at ptr 2) 16)))
    (u32 (Z.shiftl (byte_at ptr 3) 24)).

Definition DecodeFixed64 (ptr : bytes) : Z :=
  Z.lor (Z.lor (Z.lor (Z.lor (Z.lor (Z.lor (Z.lor
    (byte_at ptr 0)
    (u64 (Z.shiftl (byte_at ptr 1) 8)))
    (u64 (Z.shiftl (byte_at ptr 2) 16)))
    (u64 (Z.shiftl (byte_at ptr 3) 24)))
    (u64 (Z.shiftl (byte_at ptr 4) 32)))
    (u64 (Z.shiftl (byte_at ptr 5) 40)))
    (u64 (Z.shiftl (byte_at ptr 6) 48)))
    (u64 (Z.shiftl (byte_at ptr 7) 56)).

Definition PutFixed32 (dst : bytes) (value : Z) : bytes :=
  dst ++ EncodeFixed32 value.

Definition PutFixed64 (dst : bytes) (value : Z) : bytes :=
  dst ++ EncodeFixed64 value.

(** Storing an integer expression in a [uint8_t] keeps its low eight bits. *)
Definition EncodeVarint32 (v : Z) : bytes :=
  let B := 128 in
  if v <? Z.shiftl 1 7 then
    [byte.of_Z v]
  else if v <? Z.shiftl 1 14 then
    [byte.of_Z (Z.lor v B); byte.of_Z (Z.shiftr v 7)]
  else if v <? Z.shiftl 1 21 then
    [byte.of_Z (Z.lor v B); byte.of_Z (Z.lor (Z.shiftr v 7) B);
     byte.of_Z (Z.shiftr v 14)]
  else if v <? Z.shiftl 1 28 then
    [byte.of_Z (Z.lor v B); byte.of_Z (Z.lor (Z.shiftr v 7) B);
     byte.of_Z (Z.lor (Z.shiftr v 14) B); byte.of_Z (Z.shiftr v 21)]
  else
    [byte.of_Z (Z.lor v B); byte.of_Z (Z.lor (Z.shiftr v 7) B);
     byte.of_Z (Z.lor (Z.shiftr v 14) B); byte.of_Z (Z.lor (Z.shiftr v 21) B);
     byte.of_Z (Z.shiftr v 28)].

Definition PutVarint32 (dst : bytes) (value : Z) : bytes :=
  dst ++ EncodeVarint32 (u32 value).

(** The [while (value >= B)] loop; ten rounds are enough for 64 bits
    ([varint_loop_fuel]). *)
Fixpoint EncodeVarint64_loop (fuel : nat) (value : Z) : bytes :=
  match fuel with
  | O => [byte.of_Z value]
  | S fuel' =>
      if value >=? 128 then
        byte.of_Z (Z.lor value 128) ::
          EncodeVarint64_loop fuel' (Z.shiftr value 7)
      else [byte.of_Z value]
  end.

Definition EncodeVarint64 (value : Z) : bytes := EncodeVarint64_loop 10 value.

Definition PutVarint64 (dst : bytes) (value : Z) : bytes :=
  dst ++ EncodeVarint64 (u64 value).

(** [PutVarint32(dst, value.size())] narrows the size to 32 bits. *)
Definition PutLengthPrefixedSlice (dst value : bytes) : bytes :=
  PutVarint32 dst (zlen value) ++ value.

(** The [while (v >= 128)] loop of [VartintLength]. *)
Fixpoint VartintLength_loop (fuel : nat) (v len : Z) : Z :=
  match fuel with
  | O => len
  | S fuel' =>
      if v >=? 128 then VartintLength_loop fuel' (Z.shiftr v 7) (len + 1)
      else len
  end.

Definition VartintLength (v : Z) : Z := VartintLength_loop 10 v 1.

(** The [for (shift = 0; shift <= max_shift && p < limit; shift += 7)] loop
    shared by the 32-bit and the 64-bit decoder; [w] is the width of the
    accumulator.  It recurses on the bytes left before [limit]. *)
Fixpoint GetVarint_loop (w max_shift : Z) (p : bytes) (shift result : Z)
    : option (Z * bytes) :=
  if shift <=? max_shift then
    match p with
    | [] => None
    | b :: p' =>
        let byte := byte.unsigned b in
        if Z.land byte 128 =? 0 then
          Some (Z.lor result (Z.shiftl byte shift mod 2 ^ w), p')
        else
          GetVarint_loop w max_shift p' (shift + 7)
            (Z.lor result (Z.shiftl (Z.land byte 127) shift mod 2 ^ w))
    end
  else None.

Definition GetVarint32PtrFallback (p : bytes) : option (Z * bytes) :=
  GetVarint_loop 32 28 p 0 0.

Definition GetVarint32Ptr (p : bytes) : option (Z * bytes) :=
  match p with
  | b :: p' =>
      let result := byte.unsigned b in
      if Z.land result 128 =? 0 then Some (result, p')
      else GetVarint32PtrFallback p
  | [] => GetVarint32PtrFallback p
  end.

Definition GetVarint32 (input : bytes) : option (Z * bytes) :=
  GetVarint32Ptr input.

Definition GetVarint64Ptr (p : bytes) : option (Z * bytes) :=
  GetVarint_loop 64 63 p 0 0.

Definition GetVarint64 (input : bytes) : option (Z * bytes) :=
  GetVarint64Ptr input.

Definition GetLengthPrefixedSlice (input : bytes) : option (bytes * bytes) :=
  '(len, input) ← GetVarint32 input;
  if zlen input >=? len then
    Some (take (Z.to_nat len) input, drop (Z.to_nat len) input)
  else None.

(** ** Fixed width *)

Lemma EncodeFixed32_split v : EncodeFixed32 v = le_split 4 v.
Proof. unfold le_split. rewrite !Z.shiftr_shiftr by lia. reflexivity. Qed.

Lemma EncodeFixed64_split v : EncodeFixed64 v = le_split 8 v.
Proof. unfold le_split. rewrite !Z.shiftr_shiftr by lia. reflexivity. Qed.

Lemma byte_shiftl_small w b n :
  0 <= n -> n + 8 <= w ->
  (Z.shiftl (byte.unsigned b) n) mod 2 ^ w = Z.shiftl (byte.unsigned b) n.
Proof.
  intros Hn Hw. apply Z.mod_small. rewrite Z.shiftl_mul_pow2 by lia.
  pose proof (unsigned_range b). pose proof (Z.pow_pos_nonneg 2 n ltac:(lia) Hn).
  split; [nia|]. apply Z.lt_le_trans with (2 ^ (n + 8)).
  - rewrite Z.pow_add_r by lia. change (2 ^ 8) with 256. nia.
  - apply Z.pow_le_mono_r; lia.
Qed.

Lemma le_combine_cons b l :
  le_combine (b :: l) = Z.lor (byte.unsigned b) (Z.shiftl (le_combine l) 8).
Proof. reflexivity. Qed.

Lemma DecodeFixed32_combine p :
  (4 <= length p)%nat -> DecodeFixed32 p = le_combine (take 4 p).
Proof.
  intros H. destruct p as [|b0 [|b1 [|b2 [|b3 p]]]]; cbn in H; try lia.
  unfold DecodeFixed32, byte_at, u32; cbn [nth]; rewrite ?firstn_cons, firstn_O.
  rewrite !byte_shiftl_small by lia. rewrite !le_combine_cons, le_combine_nil.
  rewrite !Z.shiftl_lor, !Z.shiftl_shiftl, Z.shiftl_0_l, Z.lor_0_r, !Z.lor_assoc
    by lia.
  reflexivity.
Qed.

Lemma DecodeFixed64_combine p :
  (8 <= length p)%nat -> DecodeFixed64 p = le_combine (take 8 p).
Proof.
  intros H.
  destruct p as [|b0 [|b1 [|b2 [|b3 [|b4 [|b5 [|b6 [|b7 p]]]]]]]];
    cbn in H; try lia.
  unfold DecodeFixed64, byte_at, u64; cbn [nth]; rewrite ?firstn_cons, firstn_O.
  rewrite !byte_shiftl_small by lia. rewrite !le_combine_cons, le_combine_nil.
  rewrite !Z.shiftl_lor, !Z.shiftl_shiftl, Z.shiftl_0_l, Z.lor_0_r, !Z.lor_assoc
    by lia.
  reflexivity.
Qed.

Lemma length_EncodeFixed32 v : length (EncodeFixed32 v) = 4%nat.
Proof. reflexivity. Qed.

Lemma length_EncodeFixed64 v : length (EncodeFixed64 v) = 8%nat.
Proof. reflexivity. Qed.

#[export] Hint Rewrite length_EncodeFixed32 length_EncodeFixed64 : len.

Lemma Fixed32_roundtrip v rest :
  0 <= v < 2 ^ 32 -> DecodeFixed32 (EncodeFixed32 v ++ rest) = v.
Proof.
  intros Hv. rewrite DecodeFixed32_combine by zlia.
  rewrite take_app_length' by done.
  rewrite EncodeFixed32_split, le_combine_split. by apply Z.mod_small.
Qed.

Lemma Fixed64_roundtrip v rest :
  0 <= v < 2 ^ 64 -> DecodeFixed64 (EncodeFixed64 v ++ rest) = v.
Proof.
  intros Hv. rewrite DecodeFixed64_combine by zlia.
  rewrite take_app_length' by done.
  rewrite EncodeFixed64_split, le_combine_split. by apply Z.mod_small.
Qed.

Lemma DecodeFixed32_range p :
  (4 <= length p)%nat -> 0 <= DecodeFixed32 p < 2 ^ 32.
Proof.
  intros H. rewrite DecodeFixed32_combine by done.
  pose proof (le_combine_bound (take 4 p)) as B.
  by rewrite length_take, Nat.min_l in B.
Qed.

Lemma DecodeFixed64_range p :
  (8 <= length p)%nat -> 0 <= DecodeFixed64 p < 2 ^ 64.
Proof.
  intros H. rewrite DecodeFixed64_combine by done.
  pose proof (le_combine_bound (take 8 p)) as B.
  by rewrite length_take, Nat.min_l in B.
Qed.

Lemma EncodeFixed64_Decode p :
  (8 <= length p)%nat -> EncodeFixed64 (DecodeFixed64 p) = take 8 p.
Proof.
  intros H. rewrite EncodeFixed64_split, DecodeFixed64_combine by done.
  apply split_le_combine'. rewrite length_take. lia.
Qed.

(** ** Variable width *)

(** The byte written for a group with its continuation bit. *)
Lemma lor128_byte v : (Z.lor v 128) mod 256 = v mod 128 + 128.
Proof.
  rewrite <- land255, Z.land_lor_distr_l, (land255 v).
  change (Z.land 128 255) with 128.
  pose proof (Z.mod_pos_bound v 256 ltac:(lia)) as B.
  rewrite <- (Z.mod_mod_divide v 256 128) by (exists 2; lia).
  set (a := v mod 256) in *. clearbody a.
  destruct (Z.lt_ge_cases a 128).
  - rewrite (Z.mod_small a 128) by lia. apply (lor_shiftl_add a 1 7); zlia.
  - replace (a mod 128) with (a - 128).
    2:{ apply (Z.mod_unique_pos _ _ 1); lia. }
    replace a with (Z.lor (a - 128) (Z.shiftl 1 7)) at 1.
    2:{ rewrite lor_shiftl_add by zlia. zlia. }
    change 128 with (Z.shiftl 1 7) at 2. rewrite <- Z.lor_assoc, Z.lor_diag.
    rewrite lor_shiftl_add; zlia.
Qed.

Lemma shiftr7 v : Z.shiftr v 7 = v / 128.
Proof. apply (Z.shiftr_div_pow2 v 7). lia. Qed.

Lemma shiftr7_pow v n :
  0 <= n -> 0 <= v < 2 ^ (7 + n) -> 0 <= Z.shiftr v 7 < 2 ^ n.
Proof.
  intros Hn [Hv1 Hv2]. rewrite shiftr7. split; [apply Z.div_pos; lia|].
  apply Z.div_lt_upper_bound; [lia|]. rewrite Z.pow_add_r in Hv2 by lia. lia.
Qed.

(** The loop bound does not matter once it covers the groups of [v]. *)
Lemma varint_loop_fuel n m v :
  (n <= m)%nat -> 0 <= v < 2 ^ (7 * (Z.of_nat n + 1)) ->
  EncodeVarint64_loop n v = EncodeVarint64_loop m v.
Proof.
  revert m v. induction n as [|n IH]; intros [|m] v Hnm Hv; cbn; try lia; try done.
  - assert (v >=? 128 = false) as -> by (rewrite Z.geb_leb; lia). done.
  - case_test; [|done]. f_equal. apply IH; [lia|].
    apply shiftr7_pow; [lia|]. replace (7 + _) with (7 * (Z.of_nat (S n) + 1)); lia.
Qed.

Lemma EncodeVarint64_loop_S n v :
  EncodeVarint64_loop (S n) v =
  if v >=? 128 then
    byte.of_Z (Z.lor v 128) :: EncodeVarint64_loop n (Z.shiftr v 7)
  else [byte.of_Z v].
Proof. reflexivity. Qed.

Lemma EncodeVarint64_unfold v :
  0 <= v < 2 ^ 64 ->
  EncodeVarint64 v =
  if v >=? 128 then byte.of_Z (Z.lor v 128) :: EncodeVarint64 (Z.shiftr v 7)
  else [byte.of_Z v].
Proof.
  intros Hv. unfold EncodeVarint64 at 1. rewrite EncodeVarint64_loop_S.
  case_test; [|done]. f_equal. apply varint_loop_fuel; [lia|].
  assert (0 <= Z.shiftr v 7 < 2 ^ 63) by (apply shiftr7_pow; zlia). zlia.
Qed.

(** One round of the decoding loop. *)
Lemma GetVarint_last w max v p s r :
  0 <= v < 128 -> s <= max ->
  GetVarint_loop w max (byte.of_Z v :: p) s r =
  Some (Z.lor r (Z.shiftl v s mod 2 ^ w), p).
Proof.
  intros Hv Hs. cbn [GetVarint_loop].
  rewrite (proj2 (Z.leb_le _ _) Hs), unsigned_of_Z, Z.mod_small, land128 by lia.
  by rewrite (proj2 (Z.ltb_lt v 128)) by lia.
Qed.

Lemma GetVarint_more w max v p s r :
  s <= max ->
  GetVarint_loop w max (byte.of_Z (Z.lor v 128) :: p) s r =
  GetVarint_loop w max p (s + 7) (Z.lor r (Z.shiftl (v mod 128) s mod 2 ^ w)).
Proof.
  intros Hs. pose proof (Z.mod_pos_bound v 128 ltac:(lia)).
  cbn [GetVarint_loop].
  rewrite (proj2 (Z.leb_le _ _) Hs), unsigned_of_Z, lor128_byte, land128, land127
    by lia.
  rewrite (proj2 (Z.ltb_ge _ 128)) by lia. cbn [Z.eqb].
  replace ((v mod 128 + 128) mod 128) with (v mod 128); [done|].
  apply (Z.mod_unique_pos _ _ 1); lia.
Qed.

(** Accumulating a group above the bits already read. *)
Lemma varint_acc w s r u :
  0 <= s -> 0 <= r < 2 ^ s -> 0 <= u -> u * 2 ^ s < 2 ^ w ->
  Z.lor r (Z.shiftl u s mod 2 ^ w) = r + u * 2 ^ s.
Proof.
  intros Hs Hr Hu Hw. rewrite Z.mod_small; [by apply lor_shiftl_add|].
  rewrite Z.shiftl_mul_pow2 by lia. nia.
Qed.

(** Decoding an encoded value from the middle of a number: [result] holds the
    [k] groups already read. *)
Lemma GetVarint_loop_encode w max (Hmax : forall j, 7 * j < w -> 7 * j <= max)
    n v k result rest :
  0 <= v < 2 ^ (7 * (Z.of_nat n + 1)) -> 0 <= k -> 7 * k < w ->
  v * 2 ^ (7 * k) < 2 ^ w -> 0 <= result < 2 ^ (7 * k) ->
  GetVarint_loop w max (EncodeVarint64_loop n v ++ rest) (7 * k) result =
  Some (result + v * 2 ^ (7 * k), rest).
Proof.
  revert v k result.
  induction n as [|n IH]; intros v k result Hv Hk Hkw Hvw Hr;
    cbn [EncodeVarint64_loop app].
  - rewrite GetVarint_last, varint_acc; auto; zlia.
  - destruct (v >=? 128) eqn:E; rewrite Z.geb_leb in E; boolprop; cbn [app].
    2:{ rewrite GetVarint_last, varint_acc; auto; zlia. }
    pose proof (Z.mod_pos_bound v 128 ltac:(lia)).
    pose proof (Z.div_mod v 128 ltac:(lia)) as Hdm.
    assert (0 < v / 128) by (apply Z.div_str_pos; lia).
    pose proof (Z.pow_pos_nonneg 2 (7 * k) ltac:(lia) ltac:(lia)) as Hp.
    assert (2 ^ (7 * (k + 1)) = 128 * 2 ^ (7 * k)) as Hp1.
    { replace (7 * (k + 1)) with (7 + 7 * k) by lia. rewrite Z.pow_add_r by lia.
      done. }
    rewrite GetVarint_more, varint_acc by (auto; nia).
    replace (7 * k + 7) with (7 * (k + 1)) by lia.
    rewrite IH, shiftr7, ?Hp1; [f_equal; f_equal; nia| | | |rewrite shiftr7|];
      try nia.
    + apply shiftr7_pow; [lia|].
      replace (7 + _) with (7 * (Z.of_nat (S n) + 1)); lia.
    + assert (2 ^ (7 * (k + 1)) < 2 ^ w) as Hlt by (rewrite Hp1; nia).
      apply Z.pow_lt_mono_r_iff in Hlt; lia.
Qed.

(** The unrolled 32-bit encoder writes what the 64-bit loop writes. *)
Lemma EncodeVarint32_64 v : 0 <= v < 2 ^ 32 -> EncodeVarint32 v = EncodeVarint64 v.
Proof.
  intros Hv.
  assert (forall k, 0 <= Z.shiftr v k) as Hk by (intros; apply Z.shiftr_nonneg; lia).
  assert (forall k j, 0 <= k -> 0 <= j -> Z.shiftr v k < 2 ^ j -> v < 2 ^ (k + j)) as Hup.
  { intros k j ? ? H. rewrite Z.shiftr_div_pow2, Z.pow_add_r in * by lia.
    pose proof (Z.mul_succ_div_gt v (2 ^ k) ltac:(lia)). nia. }
  assert (forall k j, 0 <= k -> 0 <= j -> 2 ^ j <= Z.shiftr v k -> 2 ^ (k + j) <= v) as Hlo.
  { intros k j ? ? H. rewrite Z.shiftr_div_pow2, Z.pow_add_r in * by lia.
    pose proof (Z.mul_div_le v (2 ^ k) ltac:(lia)). nia. }
  pose proof (Hup 7 7) as U7. pose proof (Hup 14 7) as U14.
  pose proof (Hup 21 7) as U21. pose proof (Hup 28 7) as U28.
  pose proof (Hlo 7 7) as L7. pose proof (Hlo 14 7) as L14.
  pose proof (Hlo 21 7) as L21. pose proof (Hlo 28 7) as L28.
  unfold EncodeVarint32, EncodeVarint64.
  rewrite !EncodeVarint64_loop_S, !Z.shiftr_shiftr by lia.
  change (7 + 7) with 14; change (14 + 7) with 21; change (21 + 7) with 28.
  change (Z.shiftl 1 7) with 128; change (Z.shiftl 1 14) with 16384;
  change (Z.shiftl 1 21) with 2097152; change (Z.shiftl 1 28) with 268435456.
  change (2 ^ (7 + 7)) with 16384 in *; change (2 ^ (14 + 7)) with 2097152 in *;
  change (2 ^ (21 + 7)) with 268435456 in *;
  change (2 ^ (28 + 7)) with 34359738368 in *; change (2 ^ 7) with 128 in *.
  change (2 ^ 32) with 4294967296 in *.
  rewrite !Z.geb_leb. clear Hup Hlo.
  repeat (case_test; try lia; try reflexivity).
Qed.

Lemma GetVarint64_encode v rest :
  0 <= v < 2 ^ 64 -> GetVarint64 (EncodeVarint64 v ++ rest) = Some (v, rest).
Proof.
  intros Hv. unfold GetVarint64, GetVarint64Ptr.
  pose proof (GetVarint_loop_encode 64 63 ltac:(lia) 10 v 0 0 rest) as H.
  rewrite Z.mul_0_r, Z.pow_0_r, Z.mul_1_r in H. apply H; zlia.
Qed.

Lemma GetVarint32PtrFallback_encode v rest :
  0 <= v < 2 ^ 32 ->
  GetVarint32PtrFallback (EncodeVarint32 v ++ rest) = Some (v, rest).
Proof.
  intros Hv. unfold GetVarint32PtrFallback.
  rewrite EncodeVarint32_64 by done. unfold EncodeVarint64.
  pose proof (GetVarint_loop_encode 32 28 ltac:(lia) 10 v 0 0 rest) as H.
  rewrite Z.mul_0_r, Z.pow_0_r, Z.mul_1_r in H. apply H; zlia.
Qed.

(** The one-byte fast path agrees with the loop it short-cuts. *)
Lemma GetVarint32Ptr_fallback p : GetVarint32Ptr p = GetVarint32PtrFallback p.
Proof.
  destruct p as [|b p]; [done|]. unfold GetVarint32Ptr.
  destruct (Z.land (byte.unsigned b) 128 =? 0) eqn:E; [|done].
  unfold GetVarint32PtrFallback. cbn [GetVarint_loop]. rewrite E.
  change (0 <=? 28) with true. cbn iota. rewrite Z.lor_0_l, Z.shiftl_0_r.
  pose proof (unsigned_range b). rewrite Z.mod_small by zlia. done.
Qed.

Lemma GetVarint32_encode v rest :
  0 <= v < 2 ^ 32 -> GetVarint32 (EncodeVarint32 v ++ rest) = Some (v, rest).
Proof.
  intros Hv. unfold GetVarint32. rewrite GetVarint32Ptr_fallback.
  by apply GetVarint32PtrFallback_encode.
Qed.

(** ** The codec interface *)

Class PrefixCodec {A} (put : A -> bytes) (get : bytes -> option (A * bytes))
    (dom : A -> Prop) : Prop :=
  get_put : forall x rest, dom x -> get (put x ++ rest) = Some (x, rest).

#[export] Instance varint32_codec :
  PrefixCodec (PutVarint32 []) GetVarint32 (fun v => 0 <= v < 2 ^ 32).
Proof.
  intros v rest Hv. unfold PutVarint32. rewrite u32_small by done.
  by apply GetVarint32_encode.
Qed.

#[export] Instance varint64_codec :
  PrefixCodec (PutVarint64 []) GetVarint64 (fun v => 0 <= v < 2 ^ 64).
Proof.
  intros v rest Hv. unfold PutVarint64. rewrite u64_small by done.
  by apply GetVarint64_encode.
Qed.

#[export] Instance length_prefixed_codec :
  PrefixCodec (PutLengthPrefixedSlice []) GetLengthPrefixedSlice
    (fun s => zlen s < 2 ^ 32).
Proof.
  intros s rest Hs. unfold PutLengthPrefixedSlice, GetLengthPrefixedSlice.
  rewrite <- app_assoc, (get_put (A:=Z)) by lia. cbn [mbind option_bind].
  rewrite (proj2 (Z.geb_le _ _)) by zlia. rewrite Nat2Z.id.
  by rewrite take_app_length, drop_app_length.
Qed.

(** A string that holds no more than its length prefix announces is refused. *)
Lemma PutVarint32_app dst v : PutVarint32 dst v = dst ++ PutVarint32 [] v.
Proof. reflexivity. Qed.

Lemma PutVarint64_app dst v : PutVarint64 dst v = dst ++ PutVarint64 [] v.
Proof. reflexivity. Qed.

Lemma PutLengthPrefixedSlice_app dst s :
  PutLengthPrefixedSlice dst s = dst ++ PutLengthPrefixedSlice [] s.
Proof. unfold PutLengthPrefixedSlice, PutVarint32. by rewrite <- app_assoc. Qed.

(** Decoders make progress and return what is left of their input. *)
Lemma GetVarint_loop_suffix w max p s r v rest :
  GetVarint_loop w max p s r = Some (v, rest) ->
  exists q, p = q ++ rest /\ (0 < length q)%nat.
Proof.
  revert s r. induction p as [|b p IH]; intros s r; cbn;
    (destruct (s <=? max); [|done]); [done|].
  destruct (Z.land _ 128 =? 0).
  - injection 1 as <- <-. exists [b]. cbn. split; [done|lia].
  - intros H. apply IH in H as (q & -> & Hq). exists (b :: q). cbn. split; [done|lia].
Qed.

Lemma GetVarint32_suffix p v rest :
  GetVarint32 p = Some (v, rest) -> exists q, p = q ++ rest /\ (0 < length q)%nat.
Proof.
  unfold GetVarint32. rewrite GetVarint32Ptr_fallback. apply GetVarint_loop_suffix.
Qed.

Lemma GetVarint64_suffix p v rest :
  GetVarint64 p = Some (v, rest) -> exists q, p = q ++ rest /\ (0 < length q)%nat.
Proof. apply GetVarint_loop_suffix. Qed.

Lemma GetLengthPrefixedSlice_suffix p s rest :
  GetLengthPrefixedSlice p = Some (s, rest) ->
  exists q, p = q ++ s ++ rest /\ (0 < length q)%nat.
Proof.
  unfold GetLengthPrefixedSlice. destruct (GetVarint32 p) as [[len p']|] eqn:E; [|done].
  cbn. destruct (zlen p' >=? len) eqn:F; [|done]. injection 1 as <- <-.
  apply GetVarint32_suffix in E as (q & -> & Hq).
  exists q. by rewrite take_drop.
Qed.

(** [result] never leaves the accumulator's width. *)
Lemma GetVarint_loop_range w max p s r v rest :
  0 <= w -> 0 <= r < 2 ^ w -> GetVarint_loop w max p s r = Some (v, rest) ->
  0 <= v < 2 ^ w.
Proof.
  intros Hw. assert (forall a b, 0 <= a < 2 ^ w -> 0 <= Z.lor a (b mod 2 ^ w) < 2 ^ w) as Hlor.
  { intros a b Ha. apply lor_range; [done..|apply Z.mod_pos_bound; lia]. }
  revert s r. induction p as [|b p IH]; intros s r Hr; cbn;
    (destruct (s <=? max); [|done]); [done|].
  destruct (Z.land _ 128 =? 0); [injection 1 as <- <-; by apply Hlor|].
  intros H. eapply IH; [|done]. by apply Hlor.
Qed.

Lemma GetVarint32_range p v rest :
  GetVarint32 p = Some (v, rest) -> 0 <= v < 2 ^ 32.
Proof.
  unfold GetVarint32. rewrite GetVarint32Ptr_fallback.
  intros H. eapply GetVarint_loop_range; [| |done]; lia.
Qed.

Lemma GetVarint64_range p v rest :
  GetVarint64 p = Some (v, rest) -> 0 <= v < 2 ^ 64.
Proof. intros H. eapply GetVarint_loop_range; [| |done]; lia. Qed.

(** [VartintLength] is the number of bytes the encoders write. *)
Lemma VartintLength_loop_spec n v len :
  VartintLength_loop n v len = len + zlen (EncodeVarint64_loop n v) - 1.
Proof.
  revert v len. induction n as [|n IH]; intros v len; cbn; [lia|].
  case_test; cbn [length]; [rewrite IH|]; lia.
Qed.

Lemma VartintLength_spec v : VartintLength v = zlen (EncodeVarint64 v).
Proof. unfold VartintLength. rewrite VartintLength_loop_spec. unfold EncodeVarint64. lia. Qed.

Lemma EncodeVarint64_loop_length n v : (1 <= length (EncodeVarint64_loop n v) <= n + 1)%nat.
Proof.
  revert v. induction n as [|n IH]; intros v; cbn; [lia|].
  case_test; cbn; [specialize (IH (Z.shiftr v 7))|]; lia.
Qed.

(** No encoding overruns the buffer the code gives it: [buf[5]], [buf[10]]. *)
Lemma EncodeVarint64_length v :
  0 <= v < 2 ^ 64 -> (1 <= length (EncodeVarint64 v) <= 10)%nat.
Proof.
  intros Hv. unfold EncodeVarint64.
  rewrite <- (varint_loop_fuel 9 10) by zlia. apply EncodeVarint64_loop_length.
Qed.

Lemma EncodeVarint32_length v : (1 <= length (EncodeVarint32 v) <= 5)%nat.
Proof. unfold EncodeVarint32. repeat case_test; cbn; lia. Qed.
