(* ===== verification/Comparator.v ===== *)
(** * Key comparators

    include/comparator.h declares the interface, src/util/comparator.cc its
    byte-wise implementation.  The interface is a [Record] of the virtual
    functions with its contract as the class [ComparatorLaws]; clients
    (internal keys, blocks, tables) are proved against the contract. *)

From S2P Require Import Prelude Slice.

(** [class Comparator] *)
Record Comparator := mkComparator {
  Compare : bytes -> bytes -> comparison;
  Comparator_Name : bytes;
  FindShortestSeparator : bytes -> bytes -> bytes;
  FindShortSuccessor : bytes -> bytes
}.

(** What the interface promises: a total preorder; a separator between [start]
    and [limit] that is not below [start] and stays strictly below [limit], and
    no change when [start] is not below [limit]; a successor that is not below
    its key. *)
Class ComparatorLaws (c : Comparator) : Prop := {
  Compare_order :: OrderLaws (Compare c);
  separator_ge : forall start limit,
    Compare c start limit = Lt ->
    Compare c start (FindShortestSeparator c start limit) <> Gt;
  separator_lt : forall start limit,
    Compare c start limit = Lt ->
    Compare c (FindShortestSeparator c start limit) limit = Lt;
  separator_id : forall start limit,
    Compare c start limit <> Lt -> FindShortestSeparator c start limit = start;
  successor_ge : forall key, Compare c key (FindShortSuccessor c key) <> Gt
}.

(** ** The byte-wise comparator *)

Module Bytewise.

(** The loop [while (i < min_length && a[i] == b[i]) i++]. *)
Fixpoint diff_index (a b : bytes) : nat :=
  match a, b with
  | x :: a', y :: b' =>
      if byte.unsigned x =? byte.unsigned y then S (diff_index a' b') else 0
  | _, _ => 0
  end.

(** [BytewiseComparatorImpl::FindShortestSeparator] *)
Definition FindShortestSeparator (start limit : bytes) : bytes :=
  let min_length := Nat.min (length start) (length limit) in
  let diff := diff_index start limit in
  if (min_length <=? diff)%nat then start
  else
    let diff_byte := byte.unsigned (nth diff start Byte.x00) in
    if (diff_byte <? 255) &&
       (diff_byte + 1 <? byte.unsigned (nth diff limit Byte.x00))
    then take diff start ++ [byte.of_Z (diff_byte + 1)]
    else start.

(** [BytewiseComparatorImpl::FindShortSuccessor]: the first byte that is not
    [0xff] is incremented and ends the key; a run of [0xff] is left alone. *)
Fixpoint FindShortSuccessor (key : bytes) : bytes :=
  match key with
  | [] => []
  | b :: key' =>
      if byte.unsigned b =? 255 then b :: FindShortSuccessor key'
      else [byte.of_Z (byte.unsigned b + 1)]
  end.

End Bytewise.

(** [BytewiseComparator()] *)
Definition BytewiseComparator : Comparator :=
  mkComparator Slice_compare (str:"rocketdb.BytewiseComparator")
    Bytewise.FindShortestSeparator Bytewise.FindShortSuccessor.

(** ** Proofs *)

Lemma diff_index_cons b a c :
  Bytewise.diff_index (b :: a) (b :: c) = S (Bytewise.diff_index a c).
Proof. cbn. by rewrite Z.eqb_refl. Qed.

Lemma separator_cons b s l :
  Bytewise.FindShortestSeparator (b :: s) (b :: l) =
  b :: Bytewise.FindShortestSeparator s l.
Proof.
  unfold Bytewise.FindShortestSeparator. rewrite diff_index_cons.
  cbn [length Nat.min nth take firstn app].
  change ((S ?a <=? S ?b)%nat) with ((a <=? b)%nat).
  repeat case_test; auto.
Qed.

(** Either both strings start with the same byte, or they differ at once. *)
Lemma separator_diff b c s l :
  byte.unsigned b <> byte.unsigned c ->
  Bytewise.FindShortestSeparator (b :: s) (c :: l) =
  if (byte.unsigned b <? 255) && (byte.unsigned b + 1 <? byte.unsigned c)
  then [byte.of_Z (byte.unsigned b + 1)] else b :: s.
Proof.
  intros Hne. unfold Bytewise.FindShortestSeparator. cbn.
  by rewrite (proj2 (Z.eqb_neq _ _) Hne).
Qed.

Lemma lex_cons_lt b c s l :
  byte.unsigned b < byte.unsigned c -> lex (b :: s) (c :: l) = Lt.
Proof. intros H. cbn. by rewrite (proj2 (Z.compare_lt_iff _ _) H). Qed.

Lemma lex_cons_same b s l : lex (b :: s) (b :: l) = lex s l.
Proof. cbn. by rewrite Z.compare_refl. Qed.

Lemma bytewise_separator start limit :
  lex start limit = Lt ->
  lex start (Bytewise.FindShortestSeparator start limit) <> Gt /\
  lex (Bytewise.FindShortestSeparator start limit) limit = Lt.
Proof.
  revert limit. induction start as [|b s IH]; intros [|c l] Hlt; try done.
  destruct (Z.eq_dec (byte.unsigned b) (byte.unsigned c)) as [E|E].
  - apply byte.unsigned_inj in E as <-. rewrite lex_cons_same in Hlt.
    rewrite separator_cons, !lex_cons_same. by apply IH.
  - rewrite separator_diff by done.
    destruct (_ && _) eqn:G; [boolprop|].
    + pose proof (unsigned_range b).
      assert (byte.unsigned (byte.of_Z (byte.unsigned b + 1)) = byte.unsigned b + 1)
        as Hb by (rewrite unsigned_of_Z, Z.mod_small; lia).
      rewrite !lex_cons_lt by lia. done.
    + rewrite (cmp_refl lex). done.
Qed.

Lemma bytewise_separator_id start limit :
  lex start limit <> Lt -> Bytewise.FindShortestSeparator start limit = start.
Proof.
  revert limit. induction start as [|b s IH]; intros [|c l] H; try done.
  destruct (Z.eq_dec (byte.unsigned b) (byte.unsigned c)) as [E|E].
  - apply byte.unsigned_inj in E as <-. rewrite lex_cons_same in H.
    rewrite separator_cons. f_equal. by apply IH.
  - rewrite separator_diff by done. case_test; [|done].
    destruct H. apply lex_cons_lt. lia.
Qed.

Lemma bytewise_successor key :
  lex key (Bytewise.FindShortSuccessor key) <> Gt.
Proof.
  induction key as [|b key IH]; cbn [Bytewise.FindShortSuccessor]; [done|].
  case_test; [by rewrite lex_cons_same|].
  pose proof (unsigned_range b).
  rewrite lex_cons_lt; [done|]. rewrite unsigned_of_Z, Z.mod_small; lia.
Qed.

#[export] Instance bytewise_laws : ComparatorLaws BytewiseComparator.
Proof.
  split; cbn [Compare Comparator.FindShortestSeparator Comparator.FindShortSuccessor
    BytewiseComparator].
  - apply _.
  - intros s l. rewrite !Slice_compare_lex. intros H%bytewise_separator. apply H.
  - intros s l. rewrite !Slice_compare_lex. intros H%bytewise_separator. apply H.
  - intros s l. rewrite Slice_compare_lex. apply bytewise_separator_id.
  - intros key. rewrite Slice_compare_lex. apply bytewise_successor.
Qed.

Lemma separator_length start limit :
  (length (Bytewise.FindShortestSeparator start limit) <= length start)%nat.
Proof.
  revert limit. induction start as [|b s IH]; intros [|c l];
    try (unfold Bytewise.FindShortestSeparator; cbn; lia).
  destruct (Z.eq_dec (byte.unsigned b) (byte.unsigned c)) as [E|E].
  - apply byte.unsigned_inj in E as <-. rewrite separator_cons. cbn.
    specialize (IH l). lia.
  - rewrite separator_diff by done. case_test; cbn; lia.
Qed.

Lemma successor_length key : (length (Bytewise.FindShortSuccessor key) <= length key)%nat.
Proof. induction key as [|b key IH]; cbn; [lia|]. case_test; cbn; lia. Qed.

(** Separators and successors do not grow: "changes start to a short string". *)
Class Shortening (c : Comparator) : Prop := {
  separator_shortens : forall start limit,
    (length (FindShortestSeparator c start limit) <= length start)%nat;
  successor_shortens : forall key, (length (FindShortSuccessor c key) <= length key)%nat
}.

#[export] Instance bytewise_shortening : Shortening BytewiseComparator.
Proof. split; [apply separator_length|apply successor_length]. Qed.
