(* ===== verification/Filename.v ===== *)
(** * Numbers in text and file names

    src/util/logging.cc and src/db/filename.cc.  The names of the files of a
    database carry their numbers in decimal, and [ParseFileName] reads them back
    when a directory is listed: a file whose name it misread would be deleted or
    recovered wrongly. *)

From stdpp Require Import sets.
From S2P Require Import Prelude Slice.

(** ** Logging *)

(** [AppendNumberTo], [NumberToString] *)
Definition AppendNumberTo (str : bytes) (num : Z) : bytes := str ++ decimal num.
Definition NumberToString (num : Z) : bytes := AppendNumberTo [] num.

(** The two lower-case hexadecimal digits of [%02x]. *)
Definition hex_digit (n : Z) : byte := byte.of_Z (if n <? 10 then 48 + n else 87 + n).
Definition hex2 (n : Z) : bytes := [hex_digit (n / 16); hex_digit (n mod 16)].

(** [AppendEscapedStringTo], [EscapeString]; [char] is signed. *)
Definition printable (c : byte) : bool := (32 <=? s8 (byte.unsigned c)) && (s8 (byte.unsigned c) <=? 126).
Definition escape_char (c : byte) : bytes :=
  if printable c then [c] else str:"\x" ++ hex2 (Z.land (byte.unsigned c) 255).
Definition AppendEscapedStringTo (str value : bytes) : bytes :=
  fold_left (fun r c => r ++ escape_char c) value str.
Definition EscapeString (value : bytes) : bytes := AppendEscapedStringTo [] value.

(** [ConsumeDecimalNumber]: the number and the rest of the input, or [None]
    when the call returns false. *)
Definition kMaxUint64 : Z := 2 ^ 64 - 1.
Definition is_digit (ch : byte) : bool := negb ((byte.unsigned ch <? 48) || (byte.unsigned ch >? 57)).

(** The loop: the value, the rest and the digits consumed, or an overflow. *)
Fixpoint consume_digits (current : bytes) (value : Z) (consumed : nat) : option (Z * bytes * nat) :=
  match current with
  | [] => Some (value, [], consumed)
  | ch :: rest =>
      if negb (is_digit ch) then Some (value, current, consumed)
      else if (value >? kMaxUint64 / 10) ||
              ((value =? kMaxUint64 / 10) && (byte.unsigned ch >? 48 + kMaxUint64 mod 10)) then None
      else consume_digits rest (u64 (value * 10 + (byte.unsigned ch - 48))) (S consumed)
  end.

Definition ConsumeDecimalNumber (input : bytes) : option (Z * bytes) :=
  match consume_digits input 0 0 with
  | Some (value, rest, consumed) => if (consumed =? 0)%nat then None else Some (value, rest)
  | None => None
  end.

(** ** File names *)

(** [enum FileType] *)
Inductive FileType := kLogFile | kDBLockFile | kTableFile | kDescriptorFile | kCurrentFile | kTempFile | kInfoLogFile.
#[export] Instance FileType_eq_dec : EqDecision FileType.
Proof. solve_decision. Defined.

(** The digits of [%06llu]. *)
Definition padded (number : Z) : bytes :=
  let d := decimal number in replicate (6 - length d) (byte.of_Z 48) ++ d.

(** What follows the directory in a name. *)
Definition file_base (number : Z) (suffix : bytes) : bytes := padded number ++ str:"." ++ suffix.

(** [MakeFileName] *)
Definition MakeFileName (dbname : bytes) (number : Z) (suffix : bytes) : bytes :=
  dbname ++ str:"/" ++ file_base number suffix.

(** The name of each kind of numbered file. *)
Definition log_name (dbname : bytes) (number : Z) : bytes := MakeFileName dbname number (str:"log").
Definition table_name (dbname : bytes) (number : Z) : bytes := MakeFileName dbname number (str:"ldb").
Definition sst_name (dbname : bytes) (number : Z) : bytes := MakeFileName dbname number (str:"sst").
Definition descriptor_base (number : Z) : bytes := str:"MANIFEST-" ++ padded number.
Definition descriptor_name (dbname : bytes) (number : Z) : bytes := dbname ++ str:"/" ++ descriptor_base number.
Definition temp_name (dbname : bytes) (number : Z) : bytes := MakeFileName dbname number (str:"dbtmp").

(** [LogFileName], [TableFileName], [SSTTableFileName], [DescriptorFileName] and
    [TempFileName], with [assert(number > 0)]. *)
Definition LogFileName (dbname : bytes) (number : Z) : option bytes :=
  if number >? 0 then Some (log_name dbname number) else None.
Definition TableFileName (dbname : bytes) (number : Z) : option bytes :=
  if number >? 0 then Some (table_name dbname number) else None.
Definition SSTTableFileName (dbname : bytes) (number : Z) : option bytes :=
  if number >? 0 then Some (sst_name dbname number) else None.
Definition DescriptorFileName (dbname : bytes) (number : Z) : option bytes :=
  if number >? 0 then Some (descriptor_name dbname number) else None.
Definition TempFileName (dbname : bytes) (number : Z) : option bytes :=
  if number >? 0 then Some (temp_name dbname number) else None.

Definition CurrentFileName (dbname : bytes) : bytes := dbname ++ str:"/CURRENT".
Definition LockFileName (dbname : bytes) : bytes := dbname ++ str:"/LOCK".
Definition InfoLogFileName (dbname : bytes) : bytes := dbname ++ str:"/LOG".
Definition OldInfoLogFileName (dbname : bytes) : bytes := dbname ++ str:"/LOG.old".

(** [ParseFileName] *)
Definition ParseFileName (filename : bytes) : option (Z * FileType) :=
  let rest := filename in
  if Slice_eqb rest (str:"CURRENT") then Some (0, kCurrentFile)
  else if Slice_eqb rest (str:"LOCK") then Some (0, kDBLockFile)
  else if Slice_eqb rest (str:"LOG") || Slice_eqb rest (str:"LOG.old") then Some (0, kInfoLogFile)
  else if starts_with rest (str:"MANIFEST-") then
    match ConsumeDecimalNumber (drop 9 rest) with
    | None => None
    | Some (num, rest) => match rest with [] => Some (num, kDescriptorFile) | _ => None end
    end
  else
    match ConsumeDecimalNumber rest with
    | None => None
    | Some (num, suffix) =>
        if Slice_eqb suffix (str:".log") then Some (num, kLogFile)
        else if Slice_eqb suffix (str:".sst") || Slice_eqb suffix (str:".ldb") then Some (num, kTableFile)
        else if Slice_eqb suffix (str:".dbtmp") then Some (num, kTempFile)
        else None
    end.

(** ** Proofs *)

(** The number that digits denote. *)
Definition dec_from (v : Z) (ds : bytes) : Z := fold_left (fun v c => v * 10 + (byte.unsigned c - 48)) ds v.
Abbreviation digits ds := (Forall (fun c => is_digit c = true) ds).

(** The input stops being a number. *)
Definition no_digit (rest : bytes) : Prop := match rest with ch :: _ => is_digit ch = false | [] => True end.

Lemma is_digit_spec c : is_digit c = true <-> 48 <= byte.unsigned c <= 57.
Proof. unfold is_digit. rewrite negb_true_iff, orb_false_iff, Z.ltb_ge, Z.gtb_ltb, Z.ltb_ge. lia. Qed.

Lemma dec_from_ge v ds : 0 <= v -> digits ds -> v <= dec_from v ds.
Proof.
  unfold dec_from. revert v. induction ds as [|c ds IH]; intros v Hv Hd; cbn [fold_left]; [done|].
  apply list.Forall_cons in Hd as [Hc%is_digit_spec Hd]. etransitivity; [|apply IH; [lia|done]]. lia.
Qed.

Lemma consume_digits_spec ds rest v n :
  0 <= v < 2 ^ 64 -> digits ds -> no_digit rest ->
  consume_digits (ds ++ rest) v n =
  if dec_from v ds <? 2 ^ 64 then Some (dec_from v ds, rest, (n + length ds)%nat) else None.
Proof.
  revert v n. induction ds as [|c ds IH]; intros v n Hv Hd Hr.
  - cbn [app length dec_from fold_left]. rewrite (proj2 (Z.ltb_lt _ _)) by lia. rewrite Nat.add_0_r.
    destruct rest as [|ch rest]; cbn; [done|]. by rewrite Hr.
  - apply list.Forall_cons in Hd as [Hc Hd]. cbn [app consume_digits]. rewrite Hc. cbn [negb].
    apply is_digit_spec in Hc. change (kMaxUint64 / 10) with 1844674407370955161.
    change (48 + kMaxUint64 mod 10) with 53. change (dec_from v (c :: ds)) with (dec_from (v * 10 + (byte.unsigned c - 48)) ds).
    pose proof (dec_from_ge (v * 10 + (byte.unsigned c - 48)) ds ltac:(lia) Hd) as Hge.
    change (2 ^ 64) with 18446744073709551616 in *.
    destruct ((v >? 1844674407370955161) || _) eqn:E.
    + rewrite (proj2 (Z.ltb_ge _ _)); [done|]. rewrite !Z.gtb_ltb in E.
      apply orb_true_iff in E as [E|E]; boolprop; lia.
    + rewrite !Z.gtb_ltb in E. boolprop. assert (v * 10 + (byte.unsigned c - 48) < 18446744073709551616) as Hlt.
      { apply andb_false_iff in H0 as [?|?]; boolprop; lia. }
      rewrite u64_small by (change (2 ^ 64) with 18446744073709551616; lia).
      rewrite IH by (done || lia). cbn [length]. by rewrite Nat.add_succ_r.
Qed.

(** The number is read when it fits 64 bits, and refused otherwise. *)
Lemma ConsumeDecimalNumber_spec ds rest :
  digits ds -> no_digit rest ->
  ConsumeDecimalNumber (ds ++ rest) =
  if (length ds =? 0)%nat then None else if dec_from 0 ds <? 2 ^ 64 then Some (dec_from 0 ds, rest) else None.
Proof.
  intros Hd Hr. unfold ConsumeDecimalNumber. rewrite consume_digits_spec by (done || lia).
  destruct (dec_from 0 ds <? 2 ^ 64); [|by destruct (_ =? 0)%nat]. by destruct ds.
Qed.

Lemma digit_byte n : 0 <= n < 10 -> byte.unsigned (byte.of_Z (48 + n)) = 48 + n.
Proof. intros H. rewrite byte.unsigned_of_Z. unfold byte.wrap. apply Z.mod_small. lia. Qed.

Lemma dec_from_app v ds1 ds2 : dec_from v (ds1 ++ ds2) = dec_from (dec_from v ds1) ds2.
Proof. apply fold_left_app. Qed.

Lemma decimal_loop_spec fuel n acc :
  0 <= n < 10 ^ Z.of_nat fuel -> (0 < fuel)%nat ->
  exists ds, decimal_loop fuel n acc = ds ++ acc /\ ds <> [] /\ digits ds /\ dec_from 0 ds = n.
Proof.
  revert n acc. induction fuel as [|fuel IH]; intros n acc Hn Hf; [lia|]. cbn [decimal_loop].
  pose proof (Z.mod_pos_bound n 10 ltac:(lia)) as Hm. pose proof (digit_byte (n mod 10) Hm) as Hb.
  assert (is_digit (byte.of_Z (48 + n mod 10)) = true) as Hd by (apply is_digit_spec; lia).
  destruct (n <? 10) eqn:E; boolprop.
  - exists [byte.of_Z (48 + n mod 10)]. split; [done|]. split; [done|]. split; [by repeat constructor|].
    cbn. rewrite Hb, Z.mod_small; lia.
  - destruct fuel as [|fuel]; [cbn in Hn; lia|].
    assert (10 ^ Z.of_nat (S (S fuel)) = 10 * 10 ^ Z.of_nat (S fuel)) as Hp by (rewrite Nat2Z.inj_succ, Z.pow_succ_r; lia).
    destruct (IH (n / 10) (byte.of_Z (48 + n mod 10) :: acc)) as (ds & -> & Hne & Hds & Hv); [|lia|].
    + split; [apply Z.div_pos; lia|]. apply Z.div_lt_upper_bound; lia.
    + exists (ds ++ [byte.of_Z (48 + n mod 10)]). rewrite <- app_assoc. split; [done|]. split; [by destruct ds|].
      split; [apply list.Forall_app; split; [done|by repeat constructor]|].
      rewrite dec_from_app, Hv. cbn. rewrite Hb. pose proof (Z.div_mod n 10 ltac:(lia)). lia.
Qed.

Lemma decimal_spec n : 0 <= n -> decimal n <> [] /\ digits (decimal n) /\ dec_from 0 (decimal n) = n.
Proof.
  intros Hn. unfold decimal. destruct (decimal_loop_spec (S (Z.to_nat (Z.log2 n))) n []) as (ds & -> & H); [|lia|].
  - split; [done|]. rewrite Nat2Z.inj_succ, Z2Nat.id by apply Z.log2_nonneg. pose proof (Z.log2_nonneg n).
    destruct (decide (n = 0)) as [->|Hne]; [cbn; lia|].
    eapply Z.lt_le_trans; [apply (Z.log2_spec n); lia|]. apply Z.pow_le_mono_l. lia.
  - by rewrite app_nil_r.
Qed.

Lemma padded_spec n : 0 <= n -> padded n <> [] /\ digits (padded n) /\ dec_from 0 (padded n) = n.
Proof.
  intros Hn. destruct (decimal_spec n Hn) as (Hne & Hd & Hv). unfold padded. cbn zeta.
  split; [by intros [_ ?]%app_nil|]. split.
  - apply list.Forall_app. split; [|done]. by apply Forall_replicate.
  - rewrite dec_from_app. replace (dec_from 0 (replicate _ _)) with 0; [done|].
    generalize (6 - length (decimal n))%nat. intros k. unfold dec_from. by induction k.
Qed.

(** A number that was printed is read back. *)
Lemma padded_consume n rest : 0 <= n < 2 ^ 64 -> no_digit rest -> ConsumeDecimalNumber (padded n ++ rest) = Some (n, rest).
Proof.
  intros Hn Hr. destruct (padded_spec n ltac:(lia)) as (Hne & Hd & Hv). rewrite ConsumeDecimalNumber_spec by done.
  rewrite Hv, (proj2 (Z.ltb_lt _ _)) by lia. by destruct (padded n).
Qed.

(** A name that starts with a digit is none of the fixed names. *)
Lemma ParseFileName_number n rest :
  0 <= n -> ParseFileName (padded n ++ rest) =
  match ConsumeDecimalNumber (padded n ++ rest) with
  | None => None
  | Some (num, suffix) =>
      if Slice_eqb suffix (str:".log") then Some (num, kLogFile)
      else if Slice_eqb suffix (str:".sst") || Slice_eqb suffix (str:".ldb") then Some (num, kTableFile)
      else if Slice_eqb suffix (str:".dbtmp") then Some (num, kTempFile)
      else None
  end.
Proof.
  intros Hn. destruct (padded_spec n Hn) as (Hne & Hd & _). destruct (padded n) as [|c ds]; [done|].
  apply list.Forall_cons in Hd as [Hc%is_digit_spec _]. unfold ParseFileName. cbn [app].
  assert (forall s, match s with [] => True | x :: _ => 57 < byte.unsigned x end -> Slice_eqb (c :: ds ++ rest) s = false) as Hs.
  { intros s Hx. apply not_true_iff_false. rewrite Slice_eqb_eq. intros <-. lia. }
  rewrite !Hs by (cbv; done). cbn [orb].
  assert (starts_with (c :: ds ++ rest) (str:"MANIFEST-") = false) as ->; [|done].
  apply not_true_iff_false. rewrite starts_with_spec. intros [r Hr].
  assert (c = Byte.x4d) as -> by (by injection Hr). cbv in Hc. by destruct Hc as [_ []].
Qed.

Lemma ParseFileName_base n suffix type :
  0 <= n < 2 ^ 64 ->
  (suffix, type) ∈ [(str:"log", kLogFile); (str:"ldb", kTableFile); (str:"sst", kTableFile); (str:"dbtmp", kTempFile)] ->
  ParseFileName (file_base n suffix) = Some (n, type).
Proof.
  intros Hn Hs. unfold file_base. rewrite ParseFileName_number by lia. rewrite padded_consume by done.
  repeat (apply elem_of_cons in Hs as [[= -> ->]|Hs]; [done|]). by apply not_elem_of_nil in Hs.
Qed.

Lemma file_base_inj dbname a b s t type :
  0 <= a < 2 ^ 64 -> 0 <= b < 2 ^ 64 ->
  (s, type) ∈ [(str:"log", kLogFile); (str:"ldb", kTableFile); (str:"sst", kTableFile); (str:"dbtmp", kTempFile)] ->
  (t, type) ∈ [(str:"log", kLogFile); (str:"ldb", kTableFile); (str:"sst", kTableFile); (str:"dbtmp", kTempFile)] ->
  dbname ++ str:"/" ++ file_base a s = dbname ++ str:"/" ++ file_base b t -> a = b.
Proof.
  intros Ha Hb Hs Ht Eq. apply app_inv_head, app_inv_head in Eq. pose proof (ParseFileName_base a s type Ha Hs) as Pa.
  rewrite Eq, (ParseFileName_base b t type Hb Ht) in Pa. by injection Pa.
Qed.

Lemma table_name_inj dbname a b : 0 <= a < 2 ^ 64 -> 0 <= b < 2 ^ 64 -> table_name dbname a = table_name dbname b -> a = b.
Proof. intros Ha Hb. apply (file_base_inj dbname a b _ _ kTableFile Ha Hb); set_solver. Qed.

Lemma sst_name_inj dbname a b : 0 <= a < 2 ^ 64 -> 0 <= b < 2 ^ 64 -> sst_name dbname a = table_name dbname b -> a = b.
Proof. intros Ha Hb. apply (file_base_inj dbname a b _ _ kTableFile Ha Hb); set_solver. Qed.

Lemma ParseFileName_descriptor n : 0 <= n < 2 ^ 64 -> ParseFileName (descriptor_base n) = Some (n, kDescriptorFile).
Proof.
  intros Hn. unfold descriptor_base.
  pose proof (padded_consume n [] Hn I) as E. rewrite app_nil_r in E. unfold ParseFileName.
  assert (starts_with (str:"MANIFEST-" ++ padded n) (str:"MANIFEST-") = true) as -> by (apply starts_with_spec; eauto).
  change (drop 9 (str:"MANIFEST-" ++ padded n)) with (padded n). rewrite E.
  assert (forall s, match s with x :: _ => byte.unsigned x <> 77 | [] => True end ->
    Slice_eqb (str:"MANIFEST-" ++ padded n) s = false) as Hs.
  { intros s Hx. apply not_true_iff_false. rewrite Slice_eqb_eq. intros <-. by apply Hx. }
  by rewrite !Hs by (cbv; done).
Qed.

(** A positive number passes the assertions. *)
Lemma file_names_some dbname n : 0 < n ->
  LogFileName dbname n = Some (log_name dbname n) /\ TableFileName dbname n = Some (table_name dbname n) /\
  SSTTableFileName dbname n = Some (sst_name dbname n) /\ DescriptorFileName dbname n = Some (descriptor_name dbname n) /\
  TempFileName dbname n = Some (temp_name dbname n).
Proof.
  intros Hn. unfold LogFileName, TableFileName, SSTTableFileName, DescriptorFileName, TempFileName.
  replace (n >? 0) with true; [done|]. symmetry. apply Z.gtb_lt. lia.
Qed.
Lemma LogFileName_pos dbname n : 0 < n -> LogFileName dbname n = Some (log_name dbname n).
Proof. apply file_names_some. Qed.
Lemma TableFileName_pos dbname n : 0 < n -> TableFileName dbname n = Some (table_name dbname n).
Proof. apply file_names_some. Qed.
Lemma SSTTableFileName_pos dbname n : 0 < n -> SSTTableFileName dbname n = Some (sst_name dbname n).
Proof. apply file_names_some. Qed.
Lemma DescriptorFileName_pos dbname n : 0 < n -> DescriptorFileName dbname n = Some (descriptor_name dbname n).
Proof. apply file_names_some. Qed.
Lemma TempFileName_pos dbname n : 0 < n -> TempFileName dbname n = Some (temp_name dbname n).
Proof. apply file_names_some. Qed.

(** ** Properties *)

(** C35: the name of every numbered file is read back.  For a file number, which
    is positive, each of the five functions gives a name in the directory, and
    [ParseFileName] applied to what follows the directory gives the number and
    the type of the file; the names without a number are read back too.  For the
    number 0, with which [ParseFileName] answers for the latter, the functions
    abort. *)
Theorem file_name_roundtrip (dbname : bytes) (number : Z) :
  0 < number < 2 ^ 64 ->
  let reads_back name number type := exists base, name = Some (dbname ++ str:"/" ++ base) /\ ParseFileName base = Some (number, type) in
  reads_back (LogFileName dbname number) number kLogFile /\
  reads_back (TableFileName dbname number) number kTableFile /\
  reads_back (SSTTableFileName dbname number) number kTableFile /\
  reads_back (TempFileName dbname number) number kTempFile /\
  reads_back (DescriptorFileName dbname number) number kDescriptorFile /\
  reads_back (Some (CurrentFileName dbname)) 0 kCurrentFile /\
  reads_back (Some (LockFileName dbname)) 0 kDBLockFile /\
  reads_back (Some (InfoLogFileName dbname)) 0 kInfoLogFile /\
  reads_back (Some (OldInfoLogFileName dbname)) 0 kInfoLogFile /\
  Forall (fun name => name dbname 0 = None) [LogFileName; TableFileName; SSTTableFileName; TempFileName; DescriptorFileName].
Proof.
  intros Hn reads_back. destruct (file_names_some dbname number) as (-> & -> & -> & -> & ->); [lia|].
  assert (forall suffix type,
    (suffix, type) ∈ [(str:"log", kLogFile); (str:"ldb", kTableFile); (str:"sst", kTableFile); (str:"dbtmp", kTempFile)] ->
    reads_back (Some (MakeFileName dbname number suffix)) number type) as Hb.
  { intros suffix type Hs. exists (file_base number suffix). split; [done|]. apply ParseFileName_base; [lia|done]. }
  do 4 (split; [apply Hb; set_solver|]).
  split; [exists (descriptor_base number); split; [done|apply ParseFileName_descriptor; lia]|].
  split; [by exists (str:"CURRENT")|]. split; [by exists (str:"LOCK")|]. split; [by exists (str:"LOG")|].
  split; [by exists (str:"LOG.old")|]. by repeat constructor.
Qed.

Lemma file_name_roundtrip_witness :
  (exists base, TableFileName (str:"/tmp/db") 1234567 = Some (str:"/tmp/db/" ++ base) /\ ParseFileName base = Some (1234567, kTableFile)) /\
  TableFileName (str:"/tmp/db") 7 = Some (str:"/tmp/db/000007.ldb").
Proof.
  split; [|reflexivity].
  destruct (file_name_roundtrip (str:"/tmp/db") 1234567) as (_ & H & _); [done|exact H].
Defined.
