(* ===== verification/Hash.v ===== *)
(** * Hashing and the Bloom filter

    src/util/hash.cc and src/util/bloom.cc, with the filter interface of
    include/filter_policy.h.  All arithmetic on the hash is 32-bit; sizes are
    64-bit.  The main fact is that a filter never rejects a key it was built
    from, which is the contract [FilterPolicyLaws] that the filter block and
    the table reader rely on. *)

From S2P Require Import Prelude Slice Coding.

(** ** Hash *)

Definition Hash_m : Z := 0xc6a4a793.
Definition Hash_r : Z := 24.

(** The [while (limit - data >= 4)] loop and the trailing [switch]. *)
Fixpoint Hash_loop (data : bytes) (h : Z) : Z :=
  match data with
  | _ :: _ :: _ :: _ :: rest =>
      let w := DecodeFixed32 data in
      let h := u32 (h + w) in
      let h := u32 (h * Hash_m) in
      let h := Z.lxor h (Z.shiftr h 16) in
      Hash_loop rest h
  | [b0; b1; b2] =>
      let h := u32 (h + Z.shiftl (byte.unsigned b2) 16) in
      let h := u32 (h + Z.shiftl (byte.unsigned b1) 8) in
      let h := u32 (h + byte.unsigned b0) in
      let h := u32 (h * Hash_m) in
      Z.lxor h (Z.shiftr h Hash_r)
  | [b0; b1] =>
      let h := u32 (h + Z.shiftl (byte.unsigned b1) 8) in
      let h := u32 (h + byte.unsigned b0) in
      let h := u32 (h * Hash_m) in
      Z.lxor h (Z.shiftr h Hash_r)
  | [b0] =>
      let h := u32 (h + byte.unsigned b0) in
      let h := u32 (h * Hash_m) in
      Z.lxor h (Z.shiftr h Hash_r)
  | [] => h
  end.

(** [Hash(data, n, seed)]; [n * m] is a 64-bit product. *)
Definition Hash (data : bytes) (seed : Z) : Z :=
  Hash_loop data (u32 (Z.lxor seed (u64 (zlen data * Hash_m)))).

Lemma lxor_shiftr_range w h n :
  0 <= w -> 0 <= n -> 0 <= h < 2 ^ w -> 0 <= Z.lxor h (Z.shiftr h n) < 2 ^ w.
Proof.
  intros Hw Hn Hh. apply lxor_range; auto using shiftr_range.
Qed.

Lemma Hash_loop_range data h : 0 <= h < 2 ^ 32 -> 0 <= Hash_loop data h < 2 ^ 32.
Proof.
  revert data h. fix IH 1. intros [|b0 [|b1 [|b2 [|b3 rest]]]] h Hh;
    [done|..]; cbn -[DecodeFixed32 Z.shiftr];
    try (apply lxor_shiftr_range; [lia|done|apply u32_range]).
  apply IH. apply lxor_shiftr_range; [lia|done|apply u32_range].
Qed.

Lemma Hash_range data seed : 0 <= Hash data seed < 2 ^ 32.
Proof. apply Hash_loop_range, u32_range. Qed.

(** ** Filter policies *)

(** [class FilterPolicy] *)
Record FilterPolicy := mkFilterPolicy {
  FilterPolicy_Name : bytes;
  CreateFilter : list bytes -> bytes -> bytes;  (* keys, dst *)
  KeyMayMatch : bytes -> bytes -> bool          (* key, filter *)
}.

(** "This method must return true if the key was in the list of keys passed to
    CreateFilter()": with [ok_keys] the key lists the code can pass (the count
    is an [int]). *)
Class FilterPolicyLaws (ok_keys : list bytes -> Prop) (p : FilterPolicy) : Prop := {
  CreateFilter_appends : forall keys dst,
    CreateFilter p keys dst = dst ++ CreateFilter p keys [];
  KeyMayMatch_complete : forall keys key,
    ok_keys keys -> In key keys ->
    KeyMayMatch p key (CreateFilter p keys []) = true
}.

(** ** Bloom filter *)

Definition BloomHash (key : bytes) : Z := Hash key 0xbc9f1d34.

Record BloomFilterPolicy := mkBloom { bit_per_key_ : Z; k_ : Z }.

(** [bits_per_key * 0.69] truncated.  For [0 <= bits_per_key < 44] the product
    is never within a rounding error of an integer, so the truncated double is
    [69 * bits_per_key / 100]; from 44 on the result is clamped to 30. *)
Definition BloomFilterPolicy_new (bits_per_key : Z) : BloomFilterPolicy :=
  let k := 69 * bits_per_key / 100 in
  let k := if k <? 1 then 1 else k in
  let k := if k >? 30 then 30 else k in
  mkBloom bits_per_key k.

(** [array[bitpos / 8] |= (1 << (bitpos % 8))] *)
Definition set_bit (array : bytes) (bitpos : Z) : bytes :=
  let i := Z.to_nat (bitpos / 8) in
  <[i := byte.of_Z (Z.lor (byte_at array i) (Z.shiftl 1 (bitpos mod 8)))]> array.

(** [(array[bitpos / 8] & (1 << (bitpos % 8))) == 0] *)
Definition bit_clear (array : bytes) (bitpos : Z) : bool :=
  Z.land (byte_at array (Z.to_nat (bitpos / 8))) (Z.shiftl 1 (bitpos mod 8)) =? 0.

(** [(h >> 17) | (h << 15)], a 32-bit rotation. *)
Definition bloom_delta (h : Z) : Z :=
  Z.lor (Z.shiftr h 17) (u32 (Z.shiftl h 15)).

(** The inner loop [for (j = 0; j < k_; j++)] of [CreateFilter]. *)
Fixpoint bloom_add (k : nat) (h delta bits : Z) (array : bytes) : bytes :=
  match k with
  | O => array
  | S k' =>
      let bitpos := u32 (h mod bits) in
      bloom_add k' (u32 (h + delta)) delta bits (set_bit array bitpos)
  end.

Definition bloom_add_key (k : Z) (bits : Z) (array key : bytes) : bytes :=
  let h := BloomHash key in
  bloom_add (Z.to_nat k) h (bloom_delta h) bits array.

Definition Bloom_bits (p : BloomFilterPolicy) (n : Z) : Z :=
  let bits := u64 (n * bit_per_key_ p) in
  if bits <? 64 then 64 else bits.

(** [BloomFilterPolicy::CreateFilter] *)
Definition Bloom_CreateFilter (p : BloomFilterPolicy) (keys : list bytes)
    (dst : bytes) : bytes :=
  let n := zlen keys in
  let bits := Bloom_bits p n in
  let bytes := u64 (bits + 7) / 8 in
  let bits := u64 (bytes * 8) in
  let array := replicate (Z.to_nat bytes) Byte.x00 ++ [byte.of_Z (k_ p)] in
  dst ++ fold_left (bloom_add_key (k_ p) bits) keys array.

(** The loop of [KeyMayMatch]. *)
Fixpoint bloom_probe (k : nat) (h delta bits : Z) (array : bytes) : bool :=
  match k with
  | O => true
  | S k' =>
      let bitpos := u32 (h mod bits) in
      if bit_clear array bitpos then false
      else bloom_probe k' (u32 (h + delta)) delta bits array
  end.

(** [BloomFilterPolicy::KeyMayMatch]; [array[len - 1]] is a signed [char]
    widened to [size_t]. *)
Definition Bloom_KeyMayMatch (key bloom_filter : bytes) : bool :=
  let len := zlen bloom_filter in
  if len <? 2 then false
  else
    let bits := (len - 1) * 8 in
    let k := u64 (s8 (byte_at bloom_filter (Z.to_nat (len - 1)))) in
    if k >? 30 then true
    else
      let h := BloomHash key in
      bloom_probe (Z.to_nat k) h (bloom_delta h) bits bloom_filter.

(** [NewBloomFilterPolicy]; the name is spelled as in the source. *)
Definition NewBloomFilterPolicy (bits_per_key : Z) : FilterPolicy :=
  let p := BloomFilterPolicy_new bits_per_key in
  mkFilterPolicy (str:"rockedb.BuiltinBloomFilter")
    (Bloom_CreateFilter p) Bloom_KeyMayMatch.

(** ** No false negatives *)

Lemma bit_clear_testbit a pos :
  bit_clear a pos = negb (Z.testbit (byte_at a (Z.to_nat (pos / 8))) (pos mod 8)).
Proof.
  unfold bit_clear. pose proof (Z.mod_pos_bound pos 8 ltac:(lia)) as Hm.
  set (x := byte_at _ _). rewrite Z.shiftl_1_l.
  destruct (Z.testbit x (pos mod 8)) eqn:E; cbn [negb].
  - apply Z.eqb_neq. intros H.
    apply (f_equal (fun z => Z.testbit z (pos mod 8))) in H.
    rewrite Z.land_spec, E, Z.pow2_bits_true, Z.bits_0 in H by lia. done.
  - apply Z.eqb_eq. apply Z.bits_inj'. intros i Hi. rewrite Z.land_spec, Z.bits_0.
    destruct (Z.eq_dec i (pos mod 8)) as [->|Hne]; [by rewrite E|].
    rewrite Z.pow2_bits_false by lia. apply andb_false_r.
Qed.

Lemma byte_at_insert a i j v :
  byte_at (<[i := v]> a) j =
  if (i =? j)%nat && (i <? length a)%nat then byte.unsigned v else byte_at a j.
Proof.
  unfold byte_at. rewrite !nth_lookup.
  destruct (i =? j)%nat eqn:E, (i <? length a)%nat eqn:F; boolprop; cbn [andb].
  - subst. rewrite list_lookup_insert_eq by done. done.
  - by rewrite list_insert_ge by lia.
  - by rewrite list_lookup_insert_ne by done.
  - by rewrite list_lookup_insert_ne by done.
Qed.

(** Setting a bit keeps the bits already set, and sets its own. *)
Lemma set_bit_mono a p q :
  0 <= p -> 0 <= q -> bit_clear a q = false -> bit_clear (set_bit a p) q = false.
Proof.
  intros Hp Hq. rewrite !bit_clear_testbit. rewrite !negb_false_iff. intros H.
  unfold set_bit. rewrite byte_at_insert. case_test; [|done].
  rewrite unsigned_of_Z. pose proof (Z.mod_pos_bound q 8 ltac:(lia)).
  change 256 with (2 ^ 8). rewrite Z.mod_pow2_bits_low, Z.lor_spec by lia.
  boolprop. assert (Z.to_nat (p / 8) = Z.to_nat (q / 8)) as -> by done.
  by rewrite H.
Qed.

Lemma set_bit_same a p :
  0 <= p < 8 * zlen a -> bit_clear (set_bit a p) p = false.
Proof.
  intros Hp. rewrite bit_clear_testbit, negb_false_iff. unfold set_bit.
  assert (p / 8 < zlen a) by (apply Z.div_lt_upper_bound; lia).
  assert (0 <= p / 8) by (apply Z.div_pos; lia).
  rewrite byte_at_insert, Nat.eqb_refl. cbn [andb].
  rewrite (proj2 (Nat.ltb_lt _ _)) by lia.
  rewrite unsigned_of_Z. pose proof (Z.mod_pos_bound p 8 ltac:(lia)).
  change 256 with (2 ^ 8). rewrite Z.mod_pow2_bits_low, Z.lor_spec by lia.
  rewrite Z.shiftl_1_l, Z.pow2_bits_true, orb_true_r by lia. done.
Qed.

Lemma length_set_bit a p : length (set_bit a p) = length a.
Proof. apply length_insert. Qed.

Lemma length_bloom_add k h d bits a : length (bloom_add k h d bits a) = length a.
Proof.
  revert h a. induction k as [|k IH]; intros h a; cbn; [done|].
  by rewrite IH, length_set_bit.
Qed.

Lemma bloom_pos h bits : 0 < bits -> 0 <= h < 2 ^ 32 -> 0 <= u32 (h mod bits) < bits.
Proof.
  intros Hb Hh. pose proof (Z.mod_pos_bound h bits Hb).
  pose proof (Z.mod_le h bits ltac:(lia) Hb). rewrite u32_small; lia.
Qed.

Lemma bloom_add_mono k h d bits a q :
  0 < bits -> 0 <= h < 2 ^ 32 -> 0 <= q ->
  bit_clear a q = false -> bit_clear (bloom_add k h d bits a) q = false.
Proof.
  intros Hb Hh Hq. revert h a Hh. induction k as [|k IH]; intros h a Hh H; cbn; [done|].
  apply IH; [apply u32_range|]. pose proof (bloom_pos h bits Hb Hh).
  apply set_bit_mono; try lia. done.
Qed.

Lemma bloom_probe_mono k h d bits a a' :
  0 < bits -> 0 <= h < 2 ^ 32 ->
  (forall q, 0 <= q -> bit_clear a q = false -> bit_clear a' q = false) ->
  bloom_probe k h d bits a = true -> bloom_probe k h d bits a' = true.
Proof.
  intros Hb Hh Hmono. revert h Hh. induction k as [|k IH]; intros h Hh; cbn; [done|].
  destruct (bit_clear a _) eqn:E; [done|]. intros H.
  pose proof (bloom_pos h bits Hb Hh).
  rewrite Hmono by (done || lia). apply IH; [apply u32_range|done].
Qed.

Lemma bloom_add_probe k h d bits a :
  0 < bits <= 8 * zlen a -> 0 <= h < 2 ^ 32 ->
  bloom_probe k h d bits (bloom_add k h d bits a) = true.
Proof.
  intros Hb Hh. revert h a Hb Hh. induction k as [|k IH]; intros h a Hb Hh; cbn; [done|].
  pose proof (bloom_pos h bits ltac:(lia) Hh).
  rewrite bloom_add_mono; [|lia|apply u32_range|lia|apply set_bit_same; lia].
  apply IH; [by rewrite length_set_bit|apply u32_range].
Qed.

Lemma bloom_fold_mono k bits keys a q :
  0 < bits -> 0 <= q -> bit_clear a q = false ->
  bit_clear (fold_left (bloom_add_key k bits) keys a) q = false.
Proof.
  intros Hb Hq. revert a. induction keys as [|key keys IH]; intros a H; cbn; [done|].
  apply IH. apply bloom_add_mono; auto. apply Hash_range.
Qed.

Lemma length_bloom_fold k bits keys a :
  length (fold_left (bloom_add_key k bits) keys a) = length a.
Proof.
  revert a. induction keys as [|key keys IH]; intros a; cbn; [done|].
  rewrite IH. apply length_bloom_add.
Qed.

Lemma bloom_fold_probe k bits keys key a :
  0 < bits <= 8 * zlen a -> In key keys ->
  bloom_probe (Z.to_nat k) (BloomHash key) (bloom_delta (BloomHash key)) bits
    (fold_left (bloom_add_key k bits) keys a) = true.
Proof.
  intros Hb. revert a Hb. induction keys as [|x keys IH]; intros a Hb; cbn; [done|].
  intros [->|Hin].
  - eapply bloom_probe_mono; [lia|apply Hash_range| |].
    + intros q Hq Hc. by apply bloom_fold_mono; [lia| |exact Hc].
    + apply bloom_add_probe; [lia|apply Hash_range].
  - apply IH; [|done]. unfold bloom_add_key. by rewrite length_bloom_add.
Qed.

(** The trailing byte, which holds [k_], is not touched by the bit settings. *)
Lemma bloom_add_last k h d bits a j :
  0 < bits -> 0 <= h < 2 ^ 32 -> (Z.to_nat (bits / 8) <= j)%nat -> bits mod 8 = 0 ->
  byte_at (bloom_add k h d bits a) j = byte_at a j.
Proof.
  intros Hb Hh Hj Hm. revert h a Hh. induction k as [|k IH]; intros h a Hh; cbn; [done|].
  rewrite IH by apply u32_range. pose proof (bloom_pos h bits Hb Hh) as Hp.
  unfold set_bit. rewrite byte_at_insert.
  assert (u32 (h mod bits) / 8 < bits / 8) as Hlt.
  { apply Z.div_lt_upper_bound; [lia|].
    pose proof (Z.div_mod bits 8 ltac:(lia)). lia. }
  assert (0 <= u32 (h mod bits) / 8) by (apply Z.div_pos; lia).
  rewrite (proj2 (Nat.eqb_neq _ _)) by lia. done.
Qed.

Lemma bloom_fold_last k bits keys a j :
  0 < bits -> (Z.to_nat (bits / 8) <= j)%nat -> bits mod 8 = 0 ->
  byte_at (fold_left (bloom_add_key k bits) keys a) j = byte_at a j.
Proof.
  intros Hb Hj Hm. revert a. induction keys as [|key keys IH]; intros a; cbn; [done|].
  rewrite IH. apply bloom_add_last; auto. apply Hash_range.
Qed.

Lemma Bloom_k_range bpk : 1 <= k_ (BloomFilterPolicy_new bpk) <= 30.
Proof. unfold BloomFilterPolicy_new. cbn. repeat case_test; lia. Qed.

(** The key counts and [bits_per_key] the code can have: both are [int]s. *)
Definition bloom_ok_keys (keys : list bytes) : Prop := zlen keys < 2 ^ 31.

Lemma Bloom_complete bpk keys key :
  0 <= bpk < 2 ^ 31 -> bloom_ok_keys keys -> In key keys ->
  Bloom_KeyMayMatch key
    (Bloom_CreateFilter (BloomFilterPolicy_new bpk) keys []) = true.
Proof.
  intros Hbpk Hn Hin. unfold bloom_ok_keys in Hn.
  pose proof (Bloom_k_range bpk) as Hk.
  set (p := BloomFilterPolicy_new bpk) in *.
  unfold Bloom_CreateFilter. cbn [app].
  set (bits0 := Bloom_bits p (zlen keys)).
  assert (64 <= bits0 < 2 ^ 63) as Hbits0.
  { unfold bits0, Bloom_bits. change (bit_per_key_ p) with bpk.
    rewrite u64_small by nia. case_test; nia. }
  clearbody bits0. rewrite (u64_small (bits0 + 7)) by lia.
  set (nb := (bits0 + 7) / 8).
  assert (8 <= nb < 2 ^ 61) as Hnb.
  { unfold nb. split; [apply Z.div_le_lower_bound; lia|].
    apply Z.div_lt_upper_bound; lia. }
  clearbody nb. rewrite u64_small by lia.
  unfold Bloom_KeyMayMatch. set (arr := fold_left _ _ _).
  assert (zlen arr = nb + 1) as Hlen.
  { unfold arr. rewrite length_bloom_fold. rewrite length_app, length_replicate. cbn. lia. }
  rewrite Hlen. rewrite (proj2 (Z.ltb_ge _ 2)) by lia.
  replace (nb + 1 - 1) with nb by lia.
  assert (byte_at arr (Z.to_nat nb) = k_ p) as ->.
  { unfold arr. rewrite bloom_fold_last; try lia.
    - unfold byte_at. rewrite app_nth2; rewrite length_replicate; [|lia].
      rewrite Nat.sub_diag. cbn [nth]. rewrite unsigned_of_Z, Z.mod_small; lia.
    - rewrite Z.div_mul; lia.
    - apply Z.mod_mul. lia. }
  assert (u64 (s8 (k_ p)) = k_ p) as ->.
  { unfold s8. rewrite Z.mod_small by lia. rewrite u64_small; lia. }
  destruct (k_ p >? 30); [done|].
  apply bloom_fold_probe; [|done].
  rewrite length_app, length_replicate. cbn. lia.
Qed.

#[export] Instance bloom_laws bpk :
  0 <= bpk < 2 ^ 31 -> FilterPolicyLaws bloom_ok_keys (NewBloomFilterPolicy bpk).
Proof.
  intros Hb. split; [reflexivity|]. intros keys key. by apply Bloom_complete.
Qed.
