(* ===== verification/Cache.v ===== *)
(** * The cache

    include/cache.h and src/util/cache.cc: the interface [Cache] that the table
    cache and the block cache use, the hash table of handles, one LRU shard and
    the cache of sixteen shards.

    Handles live in a heap; a pointer to a handle is its number.  A circular
    list of handles is the list of their numbers from the oldest to the newest,
    and a hash chain is the list of its handles.  The calls of the deleter are
    recorded in [deleted_].  The mutexes only serialise the operations. *)

From stdpp Require Import gmap sets sorting.
From S2P Require Import Prelude Slice Hash.

(** ** The interface *)

Record CacheOps (V : Type) := mkCacheOps {
  CState : Type;
  CHandle : Type;
  cache_Lookup : CState -> bytes -> CState * option CHandle;
  cache_Insert : CState -> bytes -> V -> Z -> CState * CHandle;
  cache_Value : CState -> CHandle -> option V;
  cache_Release : CState -> CHandle -> CState;
  cache_Erase : CState -> bytes -> CState
}.
Arguments CState {V}.
Arguments CHandle {V}.
Arguments cache_Lookup {V}.
Arguments cache_Insert {V}.
Arguments cache_Value {V}.
Arguments cache_Release {V}.
Arguments cache_Erase {V}.

(** What a cache promises.  [rep st m hs]: the cache maps the keys as [m], and
    the handles [hs] with their values are not yet released.  An insertion may
    evict other entries, and need not keep the new one; a handle keeps its value
    until it is released.  A cache serves fewer than [limit] handles at a time. *)
Class CacheLaws {V} (C : CacheOps V) (limit : Z)
    (rep : CState C -> (bytes -> option V) -> list (CHandle C * V) -> Prop) : Prop := {
  cache_lookup : forall st m hs k, rep st m hs ->
    match cache_Lookup C st k with
    | (st', Some h) => exists v, m k = Some v /\ rep st' m ((h, v) :: hs)
    | (st', None) => m k = None /\ rep st' m hs
    end;
  cache_insert : forall st m hs k v charge, rep st m hs -> 1 <= charge < 2 ^ 32 -> zlen hs < limit ->
    let '(st', h) := cache_Insert C st k v charge in
    exists m', rep st' m' ((h, v) :: hs) /\
      forall k' v', m' k' = Some v' -> (k' = k /\ v' = v) \/ (k' <> k /\ m k' = Some v');
  cache_value : forall st m hs h v, rep st m hs -> (h, v) ∈ hs -> cache_Value C st h = Some v;
  cache_release : forall st m hs hs' h v, rep st m hs -> hs ≡ₚ (h, v) :: hs' -> rep (cache_Release C st h) m hs';
  cache_erase : forall st m hs k, rep st m hs ->
    rep (cache_Erase C st k) (fun k' => if decide (k' = k) then None else m k') hs
}.

(** ** Handles and the hash table *)

Section LRU.
Context {V : Type}.

(** [struct LRUHandle] *)
Record LRUHandle := mkHandle {
  h_value : V; h_charge : Z; h_key : bytes; h_in_cache : bool; h_refs : Z; h_hash : Z }.

Abbreviation Heap := (gmap nat LRUHandle).

(** [class HandleTable] *)
Record HandleTable := mkHandleTable { length_ : Z; elems_ : Z; list_ : list (list nat) }.

Definition bucket (len hash : Z) : nat := Z.to_nat (Z.land hash (len - 1)).
Definition chain (t : HandleTable) (hash : Z) : list nat := default [] (list_ t !! bucket (length_ t) hash).

(** The test of [FindPointer]. *)
Definition points_to (heap : Heap) (key : bytes) (hash : Z) (id : nat) : bool :=
  match heap !! id with
  | Some h => (h_hash h =? hash) && Slice_eqb key (h_key h)
  | None => false
  end.

(** [FindPointer]: the handles in front of the pointer, and what it points to
    with the rest of the chain. *)
Fixpoint FindPointer (p : nat -> bool) (l : list nat) : list nat * option (nat * list nat) :=
  match l with
  | [] => ([], None)
  | id :: l => if p id then ([], Some (id, l)) else let '(pre, r) := FindPointer p l in (id :: pre, r)
  end.

(** [HandleTable::Lookup] *)
Definition HT_Lookup (heap : Heap) (t : HandleTable) (key : bytes) (hash : Z) : option nat :=
  fst <$> snd (FindPointer (points_to heap key hash) (chain t hash)).

(** [HandleTable::Resize]; [new_length] doubles at most 32 times. *)
Fixpoint new_length (fuel : nat) (len elems : Z) : Z :=
  match fuel with
  | O => len
  | S fuel => if len <? elems then new_length fuel (u32 (len * 2)) elems else len
  end.

Definition move (heap : Heap) (len : Z) (lists : list (list nat)) (id : nat) : list (list nat) :=
  match heap !! id with
  | Some h => alter (cons id) (bucket len (h_hash h)) lists
  | None => lists
  end.

Definition Resize (heap : Heap) (t : HandleTable) : HandleTable :=
  let len := new_length 32 4 (elems_ t) in
  mkHandleTable len (elems_ t)
    (fold_left (fun lists l => fold_left (move heap len) l lists) (list_ t) (replicate (Z.to_nat len) [])).

Definition HandleTable_new : HandleTable := Resize ∅ (mkHandleTable 0 0 []).

Definition set_chain (t : HandleTable) (hash : Z) (l : list nat) : list (list nat) :=
  <[bucket (length_ t) hash := l]> (list_ t).

(** [HandleTable::Insert] *)
Definition HT_Insert (heap : Heap) (t : HandleTable) (id : nat) (key : bytes) (hash : Z)
    : HandleTable * option nat :=
  match FindPointer (points_to heap key hash) (chain t hash) with
  | (pre, Some (old, rest)) => (mkHandleTable (length_ t) (elems_ t) (set_chain t hash (pre ++ id :: rest)), Some old)
  | (pre, None) =>
      let elems := u32 (elems_ t + 1) in
      let t := mkHandleTable (length_ t) elems (set_chain t hash (pre ++ [id])) in
      (if elems >? length_ t then Resize heap t else t, None)
  end.

(** [HandleTable::Remove] *)
Definition HT_Remove (heap : Heap) (t : HandleTable) (key : bytes) (hash : Z) : HandleTable * option nat :=
  match FindPointer (points_to heap key hash) (chain t hash) with
  | (pre, Some (old, rest)) => (mkHandleTable (length_ t) (u32 (elems_ t - 1)) (set_chain t hash (pre ++ rest)), Some old)
  | (_, None) => (t, None)
  end.

(** ** One shard *)

(** [class LRUCache] *)
Record LRUCache := mkLRU {
  capacity_ : Z; usage_ : Z; lru_ : list nat; in_use_ : list nat; table_ : HandleTable;
  heap_ : Heap; next_id : nat; deleted_ : list (bytes * V) }.

Definition LRUCache_new (capacity : Z) : LRUCache := mkLRU capacity 0 [] [] HandleTable_new ∅ 0 [].

Definition set_lists (c : LRUCache) (lru in_use : list nat) : LRUCache :=
  mkLRU (capacity_ c) (usage_ c) lru in_use (table_ c) (heap_ c) (next_id c) (deleted_ c).
Definition set_heap (c : LRUCache) (heap : Heap) : LRUCache :=
  mkLRU (capacity_ c) (usage_ c) (lru_ c) (in_use_ c) (table_ c) heap (next_id c) (deleted_ c).
Definition set_table (c : LRUCache) (t : HandleTable) : LRUCache :=
  mkLRU (capacity_ c) (usage_ c) (lru_ c) (in_use_ c) t (heap_ c) (next_id c) (deleted_ c).

(** [LRU_Remove] takes the handle out of the list it is in; [LRU_Append] makes
    it the newest of a list. *)
Definition without (id : nat) (l : list nat) : list nat := filter (fun x => x <> id) l.
Definition LRU_Remove (c : LRUCache) (id : nat) : LRUCache :=
  set_lists c (without id (lru_ c)) (without id (in_use_ c)).
Definition LRU_Append_lru (c : LRUCache) (id : nat) : LRUCache := set_lists c (lru_ c ++ [id]) (in_use_ c).
Definition LRU_Append_in_use (c : LRUCache) (id : nat) : LRUCache := set_lists c (lru_ c) (in_use_ c ++ [id]).

Definition with_refs (h : LRUHandle) (refs : Z) : LRUHandle :=
  mkHandle (h_value h) (h_charge h) (h_key h) (h_in_cache h) refs (h_hash h).
Definition out_of_cache (h : LRUHandle) : LRUHandle :=
  mkHandle (h_value h) (h_charge h) (h_key h) false (h_refs h) (h_hash h).

(** [LRUCache::Ref] *)
Definition Ref (c : LRUCache) (id : nat) : LRUCache :=
  match heap_ c !! id with
  | None => c
  | Some h =>
      let c := if (h_refs h =? 1) && h_in_cache h then LRU_Append_in_use (LRU_Remove c id) id else c in
      set_heap c (<[id := with_refs h (h_refs h + 1)]> (heap_ c))
  end.

(** [LRUCache::Unref] *)
Definition Unref (c : LRUCache) (id : nat) : LRUCache :=
  match heap_ c !! id with
  | None => c
  | Some h =>
      let refs := h_refs h - 1 in
      let c := set_heap c (<[id := with_refs h refs]> (heap_ c)) in
      if refs =? 0 then
        mkLRU (capacity_ c) (usage_ c) (lru_ c) (in_use_ c) (table_ c) (delete id (heap_ c)) (next_id c)
          (deleted_ c ++ [(h_key h, h_value h)])
      else if h_in_cache h && (refs =? 1) then LRU_Append_lru (LRU_Remove c id) id
      else c
  end.

(** [LRUCache::FinishErase] *)
Definition FinishErase (c : LRUCache) (e : option nat) : LRUCache :=
  match e with
  | None => c
  | Some id =>
      match heap_ c !! id with
      | None => c
      | Some h =>
          let c := LRU_Remove c id in
          Unref (mkLRU (capacity_ c) (u64 (usage_ c - h_charge h)) (lru_ c) (in_use_ c) (table_ c)
                   (<[id := out_of_cache h]> (heap_ c)) (next_id c) (deleted_ c)) id
      end
  end.

(** [LRUCache::Lookup] *)
Definition LRU_Lookup (c : LRUCache) (key : bytes) (hash : Z) : LRUCache * option nat :=
  match HT_Lookup (heap_ c) (table_ c) key hash with
  | Some id => (Ref c id, Some id)
  | None => (c, None)
  end.

(** [LRUCache::Relesse] *)
Definition LRU_Release (c : LRUCache) (id : nat) : LRUCache := Unref c id.

(** Removing the oldest handle that is not in use. *)
Definition evict_oldest (c : LRUCache) (id : nat) : LRUCache :=
  match heap_ c !! id with
  | None => c
  | Some h =>
      let '(t, e) := HT_Remove (heap_ c) (table_ c) (h_key h) (h_hash h) in
      FinishErase (set_table c t) e
  end.

(** The eviction loop of [Insert]: every round shortens [lru_]. *)
Fixpoint evict (fuel : nat) (c : LRUCache) : LRUCache :=
  match fuel with
  | O => c
  | S fuel =>
      if usage_ c >? capacity_ c then
        match lru_ c with
        | [] => c
        | old :: _ => evict fuel (evict_oldest c old)
        end
      else c
  end.

(** [LRUCache::Insert] *)
Definition LRU_Insert (c : LRUCache) (key : bytes) (hash : Z) (value : V) (charge : Z) : LRUCache * nat :=
  let id := next_id c in
  let c := mkLRU (capacity_ c) (usage_ c) (lru_ c) (in_use_ c) (table_ c)
    (<[id := mkHandle value charge key (0 <? capacity_ c) (if 0 <? capacity_ c then 2 else 1) hash]> (heap_ c))
    (S id) (deleted_ c) in
  let c :=
    if 0 <? capacity_ c then
      let c := LRU_Append_in_use c id in
      let c := mkLRU (capacity_ c) (u64 (usage_ c + charge)) (lru_ c) (in_use_ c) (table_ c) (heap_ c)
        (next_id c) (deleted_ c) in
      let '(t, old) := HT_Insert (heap_ c) (table_ c) id key hash in
      FinishErase (set_table c t) old
    else c in
  (evict (S (length (lru_ c))) c, id).

(** [LRUCache::Erase] *)
Definition LRU_Erase (c : LRUCache) (key : bytes) (hash : Z) : LRUCache :=
  let '(t, e) := HT_Remove (heap_ c) (table_ c) key hash in FinishErase (set_table c t) e.

(** [~LRUCache]: every handle that is not in use is deleted. *)
Definition LRUCache_delete (c : LRUCache) : LRUCache :=
  fold_left (fun c id =>
    match heap_ c !! id with
    | Some h => Unref (set_heap c (<[id := out_of_cache h]> (heap_ c))) id
    | None => c
    end) (lru_ c) c.

(** [LRUCache::Prune] *)
Fixpoint prune_loop (fuel : nat) (c : LRUCache) : LRUCache :=
  match fuel with
  | O => c
  | S fuel => match lru_ c with [] => c | old :: _ => prune_loop fuel (evict_oldest c old) end
  end.
Definition LRU_Prune (c : LRUCache) : LRUCache := prune_loop (S (length (lru_ c))) c.

(** ** The cache of sixteen shards *)

Definition kNumshardBits : Z := 4.
Definition kNumShards : Z := 16.

(** [class SharedLRUCache] *)
Record SharedLRUCache := mkShared { shard_ : list LRUCache; last_id_ : Z }.

Definition SharedLRUCache_new (capacity : Z) : SharedLRUCache :=
  let per_shard := u64 (capacity + (kNumShards - 1)) / kNumShards in
  mkShared (replicate (Z.to_nat kNumShards) (LRUCache_new per_shard)) 0.

Definition HashSlice (s : bytes) : Z := Hash s 0.
Definition Shard (hash : Z) : nat := Z.to_nat (Z.shiftr hash (32 - kNumshardBits)).

(** A handle of the cache: the heap of a shard and the handle's number there. *)
Definition handle_at (st : SharedLRUCache) (h : nat * nat) : option LRUHandle :=
  c ← shard_ st !! fst h; heap_ c !! snd h.

(** One operation on shard [i]. *)
Definition on_shard {B} (st : SharedLRUCache) (i : nat) (f : LRUCache -> LRUCache * B) (d : B) : SharedLRUCache * B :=
  match shard_ st !! i with
  | Some c => let '(c, b) := f c in (mkShared (<[i := c]> (shard_ st)) (last_id_ st), b)
  | None => (st, d)
  end.

Definition Shared_Insert (st : SharedLRUCache) (key : bytes) (value : V) (charge : Z) : SharedLRUCache * (nat * nat) :=
  let hash := HashSlice key in
  on_shard st (Shard hash) (fun c => let '(c, id) := LRU_Insert c key hash value charge in (c, (Shard hash, id))) (0, 0)%nat.

Definition Shared_Lookup (st : SharedLRUCache) (key : bytes) : SharedLRUCache * option (nat * nat) :=
  let hash := HashSlice key in
  on_shard st (Shard hash) (fun c => let '(c, id) := LRU_Lookup c key hash in (c, pair (Shard hash) <$> id)) None.

Definition Shared_Release (st : SharedLRUCache) (handle : nat * nat) : SharedLRUCache :=
  match handle_at st handle with
  | Some h => fst (on_shard st (Shard (h_hash h)) (fun c => (LRU_Release c (snd handle), tt)) tt)
  | None => st
  end.

Definition Shared_Erase (st : SharedLRUCache) (key : bytes) : SharedLRUCache :=
  let hash := HashSlice key in
  fst (on_shard st (Shard hash) (fun c => (LRU_Erase c key hash, tt)) tt).

Definition Shared_Value (st : SharedLRUCache) (handle : nat * nat) : option V := h_value <$> handle_at st handle.

Definition Shared_NewId (st : SharedLRUCache) : SharedLRUCache * Z :=
  let id := u64 (last_id_ st + 1) in (mkShared (shard_ st) id, id).

Definition Shared_Prune (st : SharedLRUCache) : SharedLRUCache := mkShared (map LRU_Prune (shard_ st)) (last_id_ st).

Definition Shared_TotalCharge (st : SharedLRUCache) : Z :=
  fold_left (fun total c => u64 (total + usage_ c)) (shard_ st) 0.

Definition NewLRUCache : CacheOps V :=
  {| CState := SharedLRUCache; CHandle := nat * nat; cache_Lookup := Shared_Lookup; cache_Insert := Shared_Insert;
     cache_Value := Shared_Value; cache_Release := Shared_Release; cache_Erase := Shared_Erase |}.

(** ** Counting hits and misses *)

(** [class StatisticsCache]: a decorator of another cache. *)
Record StatisticsCache (C : CacheOps V) := mkStat { target_ : CState C; hit_ : Z; miss_ : Z }.
#[local] Arguments mkStat {C}.
#[local] Arguments target_ {C}.
#[local] Arguments hit_ {C}.
#[local] Arguments miss_ {C}.

Definition Stat_Lookup {C} (st : StatisticsCache C) (key : bytes) : StatisticsCache C * option (CHandle C) :=
  let '(t, handle) := cache_Lookup C (target_ st) key in
  match handle with
  | None => (mkStat t (hit_ st) (u64 (miss_ st + 1)), None)
  | Some h => (mkStat t (u64 (hit_ st + 1)) (miss_ st), Some h)
  end.

Definition GetStats {C} (st : StatisticsCache C) : Z * Z := (hit_ st, miss_ st).

Definition with_target {C} (st : StatisticsCache C) (t : CState C) : StatisticsCache C := mkStat t (hit_ st) (miss_ st).

Definition NewStatisticsCache (C : CacheOps V) : CacheOps V :=
  {| CState := StatisticsCache C; CHandle := CHandle C;
     cache_Lookup := Stat_Lookup;
     cache_Insert st key value charge :=
       let '(t, h) := cache_Insert C (target_ st) key value charge in (with_target st t, h);
     cache_Value st h := cache_Value C (target_ st) h;
     cache_Release st h := with_target st (cache_Release C (target_ st) h);
     cache_Erase st key := with_target st (cache_Erase C (target_ st) key) |}.

Definition NewLRUCacheWithStatistics : CacheOps V := NewStatisticsCache NewLRUCache.
End LRU.
Arguments mkStat {V C}.
Arguments target_ {V C}.
Arguments hit_ {V C}.
Arguments miss_ {V C}.

(** ** Proofs: the hash table *)

Section Table.
Context {V : Type}.
Abbreviation Heap := (gmap nat (@LRUHandle V)).
Implicit Types (heap : Heap) (t : HandleTable) (id : nat).

(** The handles in a table. *)
Definition tids t : list nat := concat (list_ t).

Record table_ok heap t : Prop := {
  to_length : exists k, 2 <= k <= 31 /\ length_ t = 2 ^ k;
  to_buckets : length (list_ t) = Z.to_nat (length_ t);
  to_elems : elems_ t = zlen (tids t);
  to_nodup : NoDup (tids t);
  to_place : forall i b id, list_ t !! i = Some b -> id ∈ b ->
    exists h, heap !! id = Some h /\ i = bucket (length_ t) (h_hash h);
  to_unique : forall id1 id2 h1 h2, id1 ∈ tids t -> id2 ∈ tids t -> heap !! id1 = Some h1 -> heap !! id2 = Some h2 ->
    h_hash h1 = h_hash h2 -> h_key h1 = h_key h2 -> id1 = id2 }.

Lemma bucket_lt k hash : 0 <= k -> (bucket (2 ^ k) hash < Z.to_nat (2 ^ k))%nat.
Proof.
  intros Hk. unfold bucket. rewrite Z.sub_1_r, <- Z.ones_equiv, Z.land_ones by done.
  pose proof (Z.mod_pos_bound hash (2 ^ k) ltac:(lia)). lia.
Qed.

Lemma points_to_spec heap key hash id :
  points_to heap key hash id = true <-> exists h, heap !! id = Some h /\ h_hash h = hash /\ h_key h = key.
Proof.
  unfold points_to. destruct (heap !! id) as [h|]; [|naive_solver].
  rewrite andb_true_iff, Z.eqb_eq, Slice_eqb_eq. naive_solver.
Qed.

Lemma FindPointer_spec (p : nat -> bool) l :
  match FindPointer p l with
  | (pre, Some (x, rest)) => l = pre ++ x :: rest /\ p x = true
  | (pre, None) => pre = l /\ Forall (fun x => p x = false) l
  end.
Proof.
  induction l as [|x l IH]; cbn [FindPointer]; [by split|]. destruct (p x) eqn:E; [done|].
  destruct (FindPointer p l) as [pre [[y rest]|]]; destruct IH as [-> H]; [done|]. split; [done|]. by constructor.
Qed.

Lemma concat_insert {A} (L : list (list A)) i b :
  L !! i = Some b -> exists R, concat L ≡ₚ b ++ R /\ forall l, concat (<[i := l]> L) ≡ₚ l ++ R.
Proof.
  intros Hi. exists (concat (take i L) ++ concat (drop (S i) L)).
  pose proof (lookup_lt_Some _ _ _ Hi) as Hlt. split.
  - rewrite <- (take_drop_middle L i b Hi) at 1. rewrite List.concat_app. cbn [concat].
    rewrite Permutation_app_comm, <- app_assoc. apply Permutation_app_head, Permutation_app_comm.
  - intros l. rewrite insert_take_drop by done. rewrite List.concat_app. cbn [concat].
    rewrite Permutation_app_comm, <- app_assoc. apply Permutation_app_head, Permutation_app_comm.
Qed.

Lemma table_chain heap t hash : table_ok heap t -> list_ t !! bucket (length_ t) hash = Some (chain t hash).
Proof.
  intros [[k [Hk E]] Hb _ _ _ _]. unfold chain.
  destruct (lookup_lt_is_Some_2 (list_ t) (bucket (length_ t) hash)) as [b Hb']; [|by rewrite Hb'].
  rewrite Hb, E. apply bucket_lt. lia.
Qed.

Lemma tids_heap heap t id : table_ok heap t -> id ∈ tids t -> exists h, heap !! id = Some h.
Proof.
  intros Ht Hid. unfold tids in Hid. apply list_elem_of_In, in_concat in Hid as (b & Hb & Hid).
  apply list_elem_of_In, list_elem_of_lookup in Hb as [i Hi]. apply list_elem_of_In in Hid.
  destruct (to_place _ _ Ht i b id Hi Hid) as (h & Hh & _). eauto.
Qed.

(** What is not in the chain is not in the table. *)
Lemma chain_all heap t key hash id :
  table_ok heap t -> id ∈ tids t -> points_to heap key hash id = true -> id ∈ chain t hash.
Proof.
  intros Ht Hid (h & Hh & <- & <-)%points_to_spec. unfold tids in Hid.
  apply list_elem_of_In, in_concat in Hid as (b & Hb & Hid). apply list_elem_of_In, list_elem_of_lookup in Hb as [i Hi].
  apply list_elem_of_In in Hid. destruct (to_place _ _ Ht i b id Hi Hid) as (h' & Hh' & ->).
  assert (h' = h) as -> by congruence. rewrite (table_chain heap t (h_hash h) Ht) in Hi. by injection Hi as ->.
Qed.

Lemma chain_in heap t hash id : table_ok heap t -> id ∈ chain t hash -> id ∈ tids t.
Proof.
  intros Ht Hid. unfold tids. apply list_elem_of_In, in_concat. exists (chain t hash).
  split; [|by apply list_elem_of_In]. apply list_elem_of_In. eapply list_elem_of_lookup_2, (table_chain heap t hash Ht).
Qed.

Lemma HT_Lookup_spec heap t key hash :
  table_ok heap t ->
  match HT_Lookup heap t key hash with
  | Some id => id ∈ tids t /\ points_to heap key hash id = true
  | None => forall id, id ∈ tids t -> points_to heap key hash id = false
  end.
Proof.
  intros Ht. unfold HT_Lookup. pose proof (FindPointer_spec (points_to heap key hash) (chain t hash)) as H.
  destruct (FindPointer _ _) as [pre [[x rest]|]]; cbn [snd fmap option_fmap option_map fst].
  - destruct H as [E Hp]. split; [|done]. eapply (chain_in heap t hash); [done|]. rewrite E. set_solver.
  - destruct H as [_ Hno]. intros id Hid. apply not_true_iff_false. intros Hp.
    pose proof (chain_all heap t key hash id Ht Hid Hp) as Hc.
    rewrite (proj1 (list.Forall_forall _ _) Hno id Hc) in Hp. done.
Qed.

(** A table with other handles in one chain. *)
Lemma set_chain_ok heap t hash l R elems :
  table_ok heap t -> concat (set_chain t hash l) ≡ₚ l ++ R -> R ⊆ tids t ->
  (forall id, id ∈ l -> id ∈ chain t hash \/ exists h, heap !! id = Some h /\ h_hash h = hash) ->
  NoDup (l ++ R) -> elems = zlen (l ++ R) ->
  (forall id1 id2 h1 h2, id1 ∈ l ++ R -> id2 ∈ l ++ R -> heap !! id1 = Some h1 -> heap !! id2 = Some h2 ->
    h_hash h1 = h_hash h2 -> h_key h1 = h_key h2 -> id1 = id2) ->
  table_ok heap (mkHandleTable (length_ t) elems (set_chain t hash l)).
Proof.
  intros Ht Hc HR Hl Hnd He Hu.
  assert (tids (mkHandleTable (length_ t) elems (set_chain t hash l)) ≡ₚ l ++ R) as Hp by exact Hc.
  split; cbn [length_ elems_ list_].
  - apply Ht.
  - unfold set_chain. rewrite length_insert. apply Ht.
  - subst elems. by rewrite Hp.
  - by rewrite Hp.
  - intros i b id Hi Hid. unfold set_chain in Hi.
    apply list_lookup_insert_Some in Hi as [(<- & <- & _)|[_ Hi]].
    + destruct (Hl id Hid) as [Hc'|(h & Hh & <-)]; [|by exists h].
      by apply (to_place _ _ Ht _ (chain t hash)); [apply (table_chain heap)|].
    + by apply (to_place _ _ Ht _ b).
  - intros id1 id2 h1 h2 H1 H2. rewrite Hp in H1, H2. by apply Hu.
Qed.

Lemma HT_Remove_spec heap t key hash :
  table_ok heap t -> zlen (tids t) < 2 ^ 32 ->
  match HT_Remove heap t key hash with
  | (t', Some id) => points_to heap key hash id = true /\ tids t ≡ₚ id :: tids t' /\ table_ok heap t'
  | (t', None) => t' = t /\ forall id, id ∈ tids t -> points_to heap key hash id = false
  end.
Proof.
  intros Ht Hlen. unfold HT_Remove. pose proof (HT_Lookup_spec heap t key hash Ht) as HL. unfold HT_Lookup in HL.
  pose proof (FindPointer_spec (points_to heap key hash) (chain t hash)) as H.
  destruct (FindPointer _ _) as [pre [[x rest]|]]; cbn [snd fmap option_fmap option_map fst] in HL; [|done].
  destruct H as [E Hp]. destruct (concat_insert _ _ _ (table_chain heap t hash Ht)) as (R & HR & Hset).
  assert (tids t ≡ₚ x :: (pre ++ rest) ++ R) as Hperm.
  { unfold tids. rewrite HR, E, <- !app_assoc. cbn [app]. symmetry. apply Permutation_middle. }
  pose proof (to_nodup _ _ Ht) as Hnd. rewrite Hperm in Hnd. apply list.NoDup_cons in Hnd as [Hx Hnd].
  split; [done|]. split; [etrans; [exact Hperm|]; constructor; symmetry; apply Hset|].
  eapply set_chain_ok; [done|apply Hset| | |done| |].
  - intros y Hy. rewrite Hperm. set_solver.
  - intros id Hid. left. rewrite E. set_solver.
  - rewrite (to_elems _ _ Ht), Hperm. cbn [length]. rewrite u32_small; [lia|].
    rewrite Hperm in Hlen. cbn [length] in Hlen. lia.
  - intros id1 id2 h1 h2 H1 H2. apply (to_unique _ _ Ht); rewrite Hperm; by right.
Qed.
(** *** Resizing *)

Lemma new_length_pow fuel k elems :
  2 <= k <= 31 -> elems <= 2 ^ 31 -> exists k', 2 <= k' <= 31 /\ new_length fuel (2 ^ k) elems = 2 ^ k'.
Proof.
  intros Hk He. revert k Hk. induction fuel as [|fuel IH]; intros k Hk; cbn [new_length]; [by exists k|].
  destruct (2 ^ k <? elems) eqn:E; [|by exists k]. apply Z.ltb_lt in E.
  assert (k < 31) as Hk' by (apply (Z.pow_lt_mono_r_iff 2); lia).
  assert (2 ^ k * 2 = 2 ^ (k + 1)) as -> by (rewrite Z.pow_add_r by lia; lia).
  assert (2 ^ (k + 1) <= 2 ^ 31) by (apply Z.pow_le_mono_r; lia).
  rewrite u32_small by lia. apply IH. lia.
Qed.

Definition placed heap (len : Z) (lists : list (list nat)) : Prop :=
  forall i b id, lists !! i = Some b -> id ∈ b -> exists h, heap !! id = Some h /\ i = bucket len (h_hash h).

Lemma move_spec heap len lists id h :
  heap !! id = Some h -> (bucket len (h_hash h) < length lists)%nat -> placed heap len lists ->
  length (move heap len lists id) = length lists /\ concat (move heap len lists id) ≡ₚ id :: concat lists /\
  placed heap len (move heap len lists id).
Proof.
  intros Hh Hlt Hp. unfold move. rewrite Hh. split; [apply length_alter|].
  destruct (lookup_lt_is_Some_2 lists _ Hlt) as [b Hb].
  assert (alter (cons id) (bucket len (h_hash h)) lists = <[bucket len (h_hash h) := id :: b]> lists) as ->.
  { apply list_eq. intros j. destruct (decide (bucket len (h_hash h) = j)) as [<-|Hne].
    - by rewrite list_lookup_alter_eq, list_lookup_insert_eq, Hb.
    - by rewrite list_lookup_alter_ne, list_lookup_insert_ne. }
  destruct (concat_insert _ _ _ Hb) as (R & HR & Hset). split.
  - rewrite Hset, HR. done.
  - intros i b' id' Hi Hid. apply list_lookup_insert_Some in Hi as [(<- & <- & _)|[_ Hi]]; [|by apply (Hp i b')].
    apply elem_of_cons in Hid as [->|Hid]; [by exists h|by apply (Hp _ b)].
Qed.

Lemma move_all heap len ids lists :
  (forall id, id ∈ ids -> exists h, heap !! id = Some h /\ (bucket len (h_hash h) < length lists)%nat) ->
  placed heap len lists ->
  let lists' := fold_left (move heap len) ids lists in
  length lists' = length lists /\ concat lists' ≡ₚ ids ++ concat lists /\ placed heap len lists'.
Proof.
  cbn zeta. revert lists. induction ids as [|id ids IH]; intros lists Hid Hp; cbn [fold_left]; [done|].
  destruct (Hid id ltac:(left)) as (h & Hh & Hlt).
  destruct (move_spec heap len lists id h Hh Hlt Hp) as (El & Ec & Hp').
  destruct (IH (move heap len lists id)) as (El' & Ec' & Hp''); [|done|].
  { intros id' Hid'. rewrite El. apply Hid. by right. }
  split; [congruence|]. split; [|done]. rewrite Ec', Ec. cbn [app]. symmetry. apply Permutation_middle.
Qed.

Lemma fold_left_concat {A B} (f : A -> B -> A) (L : list (list B)) a :
  fold_left (fun a l => fold_left f l a) L a = fold_left f (concat L) a.
Proof. revert a. induction L as [|l L IH]; intros a; cbn [fold_left concat]; [done|]. by rewrite IH, fold_left_app. Qed.

Lemma concat_replicate_nil {A} n : concat (replicate n (@nil A)) = [].
Proof. by induction n. Qed.

Lemma Resize_spec heap t :
  (forall id, id ∈ tids t -> exists h, heap !! id = Some h) -> NoDup (tids t) -> elems_ t = zlen (tids t) ->
  zlen (tids t) <= 2 ^ 31 ->
  (forall id1 id2 h1 h2, id1 ∈ tids t -> id2 ∈ tids t -> heap !! id1 = Some h1 -> heap !! id2 = Some h2 ->
    h_hash h1 = h_hash h2 -> h_key h1 = h_key h2 -> id1 = id2) ->
  tids (Resize heap t) ≡ₚ tids t /\ table_ok heap (Resize heap t).
Proof.
  intros Hh Hnd He Hlen Hu. unfold Resize.
  destruct (new_length_pow 32 2 (elems_ t) ltac:(lia) ltac:(lia)) as (k & Hk & E).
  change (2 ^ 2) with 4 in E. rewrite E. rewrite fold_left_concat. fold (tids t).
  destruct (move_all heap (2 ^ k) (tids t) (replicate (Z.to_nat (2 ^ k)) [])) as (El & Ec & Hp).
  { intros id Hid. destruct (Hh id Hid) as [h Hid']. exists h. split; [done|].
    rewrite length_replicate. apply bucket_lt. lia. }
  { intros i b id Hi Hid. apply lookup_replicate in Hi as [-> _]. by apply not_elem_of_nil in Hid. }
  rewrite concat_replicate_nil, app_nil_r in Ec.
  set (lists := fold_left _ _ _) in *.
  assert (tids (mkHandleTable (2 ^ k) (elems_ t) lists) ≡ₚ tids t) as Hp' by exact Ec.
  split; [done|]. split; cbn [length_ elems_ list_]; rewrite ?Hp'; try done.
  - by exists k.
  - by rewrite El, length_replicate.
  - intros id1 id2 h1 h2 H1 H2. rewrite Hp' in H1, H2. by apply Hu.
Qed.

Lemma HandleTable_new_ok heap : table_ok heap (HandleTable_new (V:=V)) /\ tids (HandleTable_new (V:=V)) = [].
Proof.
  split; [|done]. split; [by exists 2|done|done|constructor| |].
  - intros i b id Hi Hid. change (list_ HandleTable_new) with (replicate 4 (@nil nat)) in Hi.
    apply lookup_replicate in Hi as [-> _]. by apply not_elem_of_nil in Hid.
  - intros id1 id2 h1 h2 H1. by apply not_elem_of_nil in H1.
Qed.

(** *** Inserting *)

Lemma HT_Insert_spec heap t id h :
  table_ok heap t -> heap !! id = Some h -> id ∉ tids t -> zlen (tids t) < 2 ^ 31 ->
  match HT_Insert heap t id (h_key h) (h_hash h) with
  | (t', Some old) => points_to heap (h_key h) (h_hash h) old = true /\ table_ok heap t' /\
      exists T, tids t ≡ₚ old :: T /\ tids t' ≡ₚ id :: T
  | (t', None) => (forall x, x ∈ tids t -> points_to heap (h_key h) (h_hash h) x = false) /\
      table_ok heap t' /\ tids t' ≡ₚ id :: tids t
  end.
Proof.
  intros Ht Hh Hnew Hlen. unfold HT_Insert. pose proof (HT_Lookup_spec heap t (h_key h) (h_hash h) Ht) as HL.
  unfold HT_Lookup in HL. pose proof (FindPointer_spec (points_to heap (h_key h) (h_hash h)) (chain t (h_hash h))) as H.
  destruct (concat_insert _ _ _ (table_chain heap t (h_hash h) Ht)) as (R & HR & Hset).
  pose proof (to_nodup _ _ Ht) as Hnd.
  destruct (FindPointer _ _) as [pre [[old rest]|]]; cbn [snd fmap option_fmap option_map fst] in HL.
  - destruct H as [E Hp]. split; [done|].
    assert (tids t ≡ₚ old :: (pre ++ rest) ++ R) as Hperm.
    { unfold tids. rewrite HR, E, <- !app_assoc. cbn [app]. symmetry. apply Permutation_middle. }
    assert ((pre ++ id :: rest) ++ R ≡ₚ id :: (pre ++ rest) ++ R) as Hperm'.
    { rewrite <- !app_assoc. cbn [app]. symmetry. apply Permutation_middle. }
    assert (forall x, x ∈ (pre ++ rest) ++ R -> x ∈ tids t /\ x <> old) as Hsub.
    { intros x Hx. rewrite Hperm. rewrite Hperm in Hnd. apply list.NoDup_cons in Hnd as [Ho _].
      split; [by right|]. by intros ->. }
    split; [|exists ((pre ++ rest) ++ R); split; [done|]; etrans; [apply Hset|done]].
    eapply set_chain_ok; [done|apply Hset| | | | |].
    + intros y Hy. rewrite Hperm. set_solver.
    + intros x [Hx|[->|Hx]%elem_of_cons]%elem_of_app; [left; rewrite E; set_solver|right; eauto|left; rewrite E; set_solver].
    + rewrite Hperm'. apply list.NoDup_cons. split; [intros Hx; by apply Hnew, Hsub|].
      rewrite Hperm in Hnd. by apply list.NoDup_cons in Hnd as [_ ?].
    + rewrite (to_elems _ _ Ht), Hperm, Hperm'. done.
    + apply points_to_spec in Hp as (ho & Hho & Eh & Ek). destruct HL as [Hold _].
      intros id1 id2 h1 h2 H1 H2. rewrite Hperm' in H1, H2.
      apply elem_of_cons in H1 as [->|H1], H2 as [->|H2]; intros Hh1 Hh2 Eh' Ek'; [done| | |].
      * destruct (Hsub _ H2) as [H2' Hne]. exfalso. apply Hne, (to_unique _ _ Ht id2 old h2 ho); congruence || done.
      * destruct (Hsub _ H1) as [H1' Hne]. exfalso. apply Hne, (to_unique _ _ Ht id1 old h1 ho); congruence || done.
      * apply (to_unique _ _ Ht id1 id2 h1 h2); [by apply Hsub|by apply Hsub|done..].
  - destruct H as [-> _]. split; [done|].
    assert ((chain t (h_hash h) ++ [id]) ++ R ≡ₚ id :: tids t) as Hperm'.
    { unfold tids. rewrite HR, <- app_assoc. cbn [app]. symmetry. apply Permutation_middle. }
    set (t1 := mkHandleTable _ _ _).
    assert (table_ok heap t1 /\ tids t1 ≡ₚ id :: tids t) as [Ht1 Hp1].
    { split; [|etrans; [apply Hset|done]]. eapply set_chain_ok; [done|apply Hset| | | | |].
      - intros y Hy. unfold tids. rewrite HR. set_solver.
      - intros x [Hx|Hx%list_elem_of_singleton]%elem_of_app; [by left|subst x; right; eauto].
      - rewrite Hperm'. by apply list.NoDup_cons.
      - rewrite (to_elems _ _ Ht), Hperm'. cbn [length]. rewrite u32_small; lia.
      - intros id1 id2 h1 h2 H1 H2. rewrite Hperm' in H1, H2.
        assert (forall x hx, x ∈ tids t -> heap !! x = Some hx -> h_hash h = h_hash hx -> h_key h = h_key hx -> False) as Hno.
        { intros x hx Hx Hhx E1 E2. pose proof (HL x Hx) as Hf. apply not_true_iff_false in Hf. apply Hf.
          apply points_to_spec. eauto. }
        apply elem_of_cons in H1 as [->|H1], H2 as [->|H2]; intros Hh1 Hh2 Eh' Ek'; [done| | |].
        + exfalso. eapply (Hno id2 h2); congruence || done.
        + exfalso. eapply (Hno id1 h1); congruence || done.
        + by apply (to_unique _ _ Ht id1 id2 h1 h2). }
    destruct (_ >? _); [|done].
    destruct (Resize_spec heap t1) as [HpR HtR].
    + intros x Hx. by apply (tids_heap heap t1).
    + apply Ht1.
    + apply Ht1.
    + rewrite Hp1. cbn [length]. lia.
    + apply (to_unique _ _ Ht1).
    + split; [done|]. by rewrite HpR.
Qed.
End Table.

(** ** Proofs: one shard *)

Section Shard.
Context {V : Type} (hashfn : bytes -> Z).
Abbreviation Heap := (gmap nat (@LRUHandle V)).
Abbreviation LRUCache := (@LRUCache V).
Implicit Types (heap : Heap) (c : LRUCache) (id : nat) (hs T : list nat).

(** How often a handle is held. *)
Definition held hs id : Z := zlen (filter (fun x => x = id) hs).

(** The charges of the handles in the cache. *)
Definition charge_of heap id : Z := default 0 (h_charge <$> heap !! id).
Definition charges heap T : Z := foldr (fun id n => charge_of heap id + n) 0 T.

(** The state of a shard whose cached handles are [T] and whose users hold
    [hs], apart from its hash table. *)
Record shard_ok c hs T : Prop := {
  so_lists : lru_ c ++ in_use_ c ≡ₚ T;
  so_nodup : NoDup T;
  so_cached : forall id, id ∈ T <-> exists h, heap_ c !! id = Some h /\ h_in_cache h = true;
  so_refs : forall id h, heap_ c !! id = Some h ->
    h_refs h = (if h_in_cache h then 1 else 0) + held hs id /\ 1 <= h_refs h;
  so_lru : forall id h, heap_ c !! id = Some h -> h_in_cache h = true -> (id ∈ lru_ c <-> h_refs h = 1);
  so_held : forall id, id ∈ hs -> is_Some (heap_ c !! id);
  so_ids : forall id h, heap_ c !! id = Some h -> (id < next_id c)%nat;
  so_charge : forall id h, heap_ c !! id = Some h -> 1 <= h_charge h < 2 ^ 32 /\ h_hash h = hashfn (h_key h);
  so_usage : usage_ c = charges (heap_ c) T }.

(** Two heaps with the same keys and values for some handles. *)
Definition same_info heap heap' T : Prop :=
  forall id h, id ∈ T -> heap !! id = Some h -> exists h', heap' !! id = Some h' /\
    h_key h' = h_key h /\ h_hash h' = h_hash h /\ h_value h' = h_value h /\ h_charge h' = h_charge h.

Lemma charges_perm heap T T' : T ≡ₚ T' -> charges heap T = charges heap T'.
Proof. intros H. unfold charges. induction H; cbn [foldr]; lia. Qed.

Lemma charges_info heap heap' T :
  same_info heap heap' T -> (forall id, id ∈ T -> is_Some (heap !! id)) -> charges heap' T = charges heap T.
Proof.
  unfold charges. induction T as [|id T IH]; intros Hs Hh; cbn [foldr]; [done|].
  rewrite IH; [|intros x h Hx; apply Hs; by right|intros x Hx; apply Hh; by right].
  destruct (Hh id ltac:(left)) as [h Hid]. destruct (Hs id h ltac:(left) Hid) as (h' & Hid' & _ & _ & _ & E).
  unfold charge_of. rewrite Hid, Hid'. cbn. by rewrite E.
Qed.

Lemma table_ok_info heap heap' t :
  table_ok heap t -> same_info heap heap' (tids t) -> table_ok heap' t.
Proof.
  intros Ht Hs. split; try apply Ht.
  - intros i b id Hi Hid. destruct (to_place _ _ Ht i b id Hi Hid) as (h & Hh & ->).
    assert (id ∈ tids t) as Hin.
    { apply list_elem_of_In, in_concat. exists b. split; apply list_elem_of_In; [by eapply list_elem_of_lookup_2|done]. }
    destruct (Hs id h Hin Hh) as (h' & Hh' & _ & E & _). exists h'. by rewrite E.
  - intros id1 id2 h1 h2 H1 H2 Hh1 Hh2 Eh Ek.
    destruct (tids_heap _ _ _ Ht H1) as [g1 Hg1]. destruct (tids_heap _ _ _ Ht H2) as [g2 Hg2].
    destruct (Hs id1 g1 H1 Hg1) as (h1' & Hh1' & K1 & E1 & _). destruct (Hs id2 g2 H2 Hg2) as (h2' & Hh2' & K2 & E2 & _).
    apply (to_unique _ _ Ht id1 id2 g1 g2); congruence || done.
Qed.

Lemma held_cons hs id x : held (x :: hs) id = (if decide (x = id) then 1 else 0) + held hs id.
Proof. unfold held. rewrite filter_cons. destruct (decide _); cbn [length]; lia. Qed.

Lemma held_pos hs id : id ∈ hs -> 1 <= held hs id.
Proof.
  intros H. unfold held. assert (id ∈ filter (fun x => x = id) hs) as H' by by apply list_elem_of_filter.
  destruct (filter _ hs); [by apply not_elem_of_nil in H'|]. cbn [length]. lia.
Qed.

Lemma held_nonneg hs id : 0 <= held hs id.
Proof. unfold held. lia. Qed.

Lemma held_none hs id : held hs id = 0 -> id ∉ hs.
Proof. intros E H%held_pos. lia. Qed.

Lemma without_elem id x l : x ∈ without id l <-> x <> id /\ x ∈ l.
Proof. unfold without. by rewrite list_elem_of_filter. Qed.

Lemma without_id id l : id ∉ l -> without id l = l.
Proof.
  intros H. unfold without. induction l as [|y l IH]; [done|]. rewrite filter_cons.
  destruct (decide _) as [_|Hy]; [f_equal; apply IH; set_solver|]. exfalso. apply H.
  assert (y = id) as -> by (destruct (decide (y = id)); [done|]; by destruct Hy). left.
Qed.

Lemma without_perm id l T : NoDup (id :: T) -> l ≡ₚ id :: T -> without id l ≡ₚ T.
Proof.
  intros [Hid _]%list.NoDup_cons Hp. rewrite <- (without_id id T Hid). unfold without. rewrite Hp, filter_cons.
  by destruct (decide _).
Qed.

Lemma without_app id l1 l2 : without id (l1 ++ l2) = without id l1 ++ without id l2.
Proof. apply list.filter_app. Qed.

(** One handle of the heap gets other references. *)
Lemma heap_insert_info heap id h h' T :
  heap !! id = Some h -> h_key h' = h_key h -> h_hash h' = h_hash h -> h_value h' = h_value h ->
  h_charge h' = h_charge h -> same_info heap (<[id := h']> heap) T.
Proof.
  intros Hh E1 E2 E3 E4 x hx Hx Hhx. destruct (decide (id = x)) as [<-|Hne].
  - rewrite lookup_insert_eq. exists h'. assert (hx = h) as -> by congruence. done.
  - rewrite lookup_insert_ne by done. by exists hx.
Qed.

Lemma cached_heap c hs T id : shard_ok c hs T -> id ∈ T -> is_Some (heap_ c !! id).
Proof. intros Hc Hid. apply (so_cached _ _ _ Hc) in Hid as (h & -> & _). done. Qed.
Lemma without_cons id T : NoDup T -> id ∈ T -> T ≡ₚ id :: without id T.
Proof.
  intros Hnd (T1 & T2 & ->)%list_elem_of_split.
  assert (NoDup (id :: T1 ++ T2)) as Hnd' by by rewrite Permutation_middle.
  rewrite (without_perm id (T1 ++ id :: T2) (T1 ++ T2)); [|done|]; symmetry; apply Permutation_middle.
Qed.

(** What an operation on references leaves alone. *)
Record refs_only c c' T : Prop := {
  ro_table : table_ c' = table_ c;
  ro_capacity : capacity_ c' = capacity_ c;
  ro_info : same_info (heap_ c) (heap_ c') T }.

Ltac heap_cases H := apply lookup_insert_Some in H as [[<- <-]|[?Hne H]].

Lemma Ref_spec c hs T id :
  shard_ok c hs T -> id ∈ T -> shard_ok (Ref c id) (id :: hs) T /\ refs_only c (Ref c id) (id :: T ++ hs).
Proof.
  intros Hc Hid. pose proof (proj1 (so_cached _ _ _ Hc id) Hid) as (h & Hh & Hin). unfold Ref. rewrite Hh, Hin.
  destruct (so_refs _ _ _ Hc id h Hh) as [Hr Hr1]. rewrite Hin in Hr. rewrite andb_true_r.
  set (h' := with_refs h (h_refs h + 1)).
  assert (forall T', same_info (heap_ c) (<[id := h']> (heap_ c)) T') as Hinfo
    by (intros T'; by apply (heap_insert_info (heap_ c) id h h')).
  assert (forall c', heap_ c' = heap_ c -> table_ c' = table_ c -> capacity_ c' = capacity_ c ->
    refs_only c (set_heap c' (<[id := h']> (heap_ c'))) (id :: T ++ hs)) as Hro.
  { intros c' -> Et Ec. by split. }
  assert (forall c', heap_ c' = heap_ c -> usage_ c' = usage_ c -> next_id c' = next_id c ->
    lru_ c' ++ in_use_ c' ≡ₚ T ->
    (forall x, x ∈ lru_ c' <-> x <> id /\ x ∈ lru_ c) -> shard_ok (set_heap c' (<[id := h']> (heap_ c'))) (id :: hs) T) as Hok.
  { intros c' Eh Eu En Hl Hlru. split; cbn [set_heap heap_ usage_ lru_ in_use_ next_id]; rewrite ?Eh, ?Eu, ?En.
    - exact Hl.
    - apply Hc.
    - intros x. rewrite (so_cached _ _ _ Hc x). destruct (decide (id = x)) as [<-|Hne].
      + rewrite lookup_insert_eq, Hh. split; intros _; eexists; (split; [done|done]).
      + by rewrite lookup_insert_ne.
    - intros x hx Hx. heap_cases Hx; rewrite held_cons.
      + destruct (decide (id = id)); [|done]. cbn [h' with_refs h_refs h_in_cache]. rewrite Hin. lia.
      + destruct (decide (id = x)); [done|]. apply (so_refs _ _ _ Hc) in Hx. lia.
    - intros x hx Hx Hxc. rewrite Hlru. heap_cases Hx.
      + cbn [h' with_refs h_refs]. split; [naive_solver|lia].
      + rewrite (so_lru _ _ _ Hc x hx Hx Hxc). naive_solver.
    - intros x [->|Hx]%elem_of_cons; [by rewrite lookup_insert_eq|].
      destruct (decide (id = x)) as [<-|Hne]; [by rewrite lookup_insert_eq|].
      rewrite lookup_insert_ne by done. by apply Hc.
    - intros x hx Hx. heap_cases Hx; [exact (so_ids _ _ _ Hc id h Hh)|exact (so_ids _ _ _ Hc x hx Hx)].
    - intros x hx Hx. heap_cases Hx; [exact (so_charge _ _ _ Hc id h Hh)|exact (so_charge _ _ _ Hc x hx Hx)].
    - rewrite (so_usage _ _ _ Hc). symmetry. apply charges_info; [apply Hinfo|]. intros x Hx. by apply (cached_heap c hs T). }
  destruct (h_refs h =? 1) eqn:E; boolprop.
  - split; [|by apply Hro]. apply Hok; try done; cbn [LRU_Append_in_use LRU_Remove set_lists lru_ in_use_].
    + pose proof (without_cons id T (so_nodup _ _ _ Hc) Hid) as HT.
      rewrite app_assoc, <- without_app, Permutation_app_comm. cbn [app].
      rewrite (without_perm id (lru_ c ++ in_use_ c) (without id T)); [by symmetry| |]; rewrite <- HT; apply Hc.
    + intros x. apply without_elem.
  - split; [|by apply Hro]. apply Hok; try done; [apply Hc|].
    intros x. split; [|naive_solver]. intros Hx. split; [|done]. intros ->.
    apply (so_lru _ _ _ Hc id h Hh Hin) in Hx. lia.
Qed.
Lemma Unref_spec c hs T id :
  shard_ok c (id :: hs) T -> shard_ok (Unref c id) hs T /\ refs_only c (Unref c id) (T ++ hs).
Proof.
  intros Hc. destruct (so_held _ _ _ Hc id ltac:(left)) as [h Hh]. unfold Unref. rewrite Hh.
  destruct (so_refs _ _ _ Hc id h Hh) as [Hr _]. rewrite held_cons in Hr.
  destruct (decide (id = id)) as [_|]; [|done]. pose proof (held_nonneg hs id) as Hnn.
  set (h' := with_refs h (h_refs h - 1)). cbn zeta.
  assert (forall T', same_info (heap_ c) (<[id := h']> (heap_ c)) T') as Hinfo
    by (intros T'; by apply (heap_insert_info (heap_ c) id h h')).
  assert (forall x hx, heap_ c !! x = Some hx -> x <> id ->
    h_refs hx = (if h_in_cache hx then 1 else 0) + held hs x /\ 1 <= h_refs hx) as Hother.
  { intros x hx Hx Hne. pose proof (so_refs _ _ _ Hc x hx Hx) as H. rewrite held_cons in H.
    destruct (decide (id = x)); [done|]. lia. }
  destruct (h_refs h - 1 =? 0) eqn:E0; boolprop.
  { (* the last reference *)
    assert (h_in_cache h = false /\ held hs id = 0) as [Hnc Hnh] by (destruct (h_in_cache h); lia).
    assert (id ∉ T) as HT by (intros (g & Hg & Hgc)%(so_cached _ _ _ Hc); congruence).
    pose proof (held_none hs id Hnh) as Hhs. cbn [set_heap heap_ capacity_ usage_ lru_ in_use_ table_ next_id deleted_].
    assert (forall x, x <> id -> delete id (<[id := h']> (heap_ c)) !! x = heap_ c !! x) as Hlk
      by (intros x Hx; by rewrite lookup_delete_ne, lookup_insert_ne by congruence).
    assert (forall x hx, delete id (<[id := h']> (heap_ c)) !! x = Some hx -> x <> id /\ heap_ c !! x = Some hx) as Hlk'.
    { intros x hx. destruct (decide (x = id)) as [->|Hne]; [by rewrite lookup_delete_eq|]. by rewrite Hlk. }
    split; [|split; [done|done|]]; [split; cbn [heap_ usage_ lru_ in_use_ next_id]|].
    - apply Hc.
    - apply Hc.
    - intros x. rewrite (so_cached _ _ _ Hc x). destruct (decide (x = id)) as [->|Hne]; [|by rewrite Hlk].
      rewrite lookup_delete_eq, Hh. split; [|by intros (g & ? & _)]. intros (g & [= <-] & Hg). congruence.
    - intros x hx [Hne Hx]%Hlk'. by apply Hother.
    - intros x hx [Hne Hx]%Hlk'. by apply Hc.
    - intros x Hx. rewrite Hlk by (by intros ->). apply Hc. by right.
    - intros x hx [Hne Hx]%Hlk'. exact (so_ids _ _ _ Hc x hx Hx).
    - intros x hx [Hne Hx]%Hlk'. exact (so_charge _ _ _ Hc x hx Hx).
    - rewrite (so_usage _ _ _ Hc). symmetry. apply charges_info; [|intros x Hx; by apply (cached_heap c (id :: hs) T)].
      intros x hx Hx Hhx. exists hx. by rewrite Hlk by (by intros ->).
    - intros x hx [Hx|Hx]%elem_of_app Hhx; exists hx; by rewrite Hlk by (by intros ->). }
  assert (forall c', heap_ c' = heap_ c -> usage_ c' = usage_ c -> next_id c' = next_id c ->
    lru_ c' ++ in_use_ c' ≡ₚ T ->
    (forall x hx, heap_ c !! x = Some hx -> h_in_cache hx = true ->
      (x ∈ lru_ c' <-> if decide (x = id) then h_refs h = 2 else h_refs hx = 1)) ->
    shard_ok (set_heap c' (<[id := h']> (heap_ c))) hs T) as Hok.
  { intros c' Eh Eu En Hl Hlru. split; cbn [set_heap heap_ usage_ lru_ in_use_ next_id]; rewrite ?Eh, ?Eu, ?En.
    - exact Hl.
    - apply Hc.
    - intros x. rewrite (so_cached _ _ _ Hc x). destruct (decide (id = x)) as [<-|Hne]; [|by rewrite lookup_insert_ne].
      rewrite lookup_insert_eq, Hh. split; intros (g & [= <-] & Hg); eexists; (split; [done|done]).
    - intros x hx Hx. heap_cases Hx; [|by apply Hother].
      cbn [h' with_refs h_refs h_in_cache]. clear -Hr E0 Hnn. destruct (h_in_cache h); lia.
    - intros x hx Hx Hxc. heap_cases Hx.
      + rewrite (Hlru id h Hh Hxc). destruct (decide _); [|done]. cbn [h' with_refs h_refs]. lia.
      + rewrite (Hlru x hx Hx Hxc). by destruct (decide (x = id)).
    - intros x Hx. destruct (decide (id = x)) as [<-|Hne]; [by rewrite lookup_insert_eq|].
      rewrite lookup_insert_ne by done. apply Hc. by right.
    - intros x hx Hx. heap_cases Hx; [exact (so_ids _ _ _ Hc id h Hh)|exact (so_ids _ _ _ Hc x hx Hx)].
    - intros x hx Hx. heap_cases Hx; [exact (so_charge _ _ _ Hc id h Hh)|exact (so_charge _ _ _ Hc x hx Hx)].
    - rewrite (so_usage _ _ _ Hc). symmetry. apply charges_info; [apply Hinfo|]. intros x Hx. by apply (cached_heap c (id :: hs) T). }
  destruct (h_in_cache h && (h_refs h - 1 =? 1)) eqn:E1; boolprop.
  - split; [|by split; [|done|apply Hinfo]].
    assert (id ∈ T) as Hid by (apply Hc; eauto).
    apply (Hok (LRU_Append_lru (LRU_Remove c id) id)); try done;
      cbn [LRU_Append_lru LRU_Remove set_lists lru_ in_use_].
    + pose proof (without_cons id T (so_nodup _ _ _ Hc) Hid) as HT.
      rewrite <- app_assoc. cbn [app]. rewrite <- Permutation_middle, <- without_app.
      rewrite (without_perm id (lru_ c ++ in_use_ c) (without id T)); [by symmetry| |]; rewrite <- HT; apply Hc.
    + intros x hx Hx Hxc. rewrite elem_of_app, without_elem, list_elem_of_singleton, (so_lru _ _ _ Hc x hx Hx Hxc).
      destruct (decide (x = id)) as [->|Hne]; [|naive_solver]. split; [lia|by right].
  - split; [|by split; [|done|apply Hinfo]]. apply (Hok c); try done; [apply Hc|].
    intros x hx Hx Hxc. rewrite (so_lru _ _ _ Hc x hx Hx Hxc). destruct (decide (x = id)) as [->|]; [|done].
    assert (hx = h) as -> by congruence. rewrite Hxc in Hr, E1. cbn [andb] in E1. boolprop. lia.
Qed.
(** *** Erasing *)

Lemma shard_ok_perm c hs T T' : T ≡ₚ T' -> shard_ok c hs T -> shard_ok c hs T'.
Proof.
  intros Hp Hc. split; try apply Hc.
  - rewrite <- Hp. apply Hc.
  - rewrite <- Hp. apply Hc.
  - intros id. rewrite <- Hp. apply Hc.
  - rewrite <- (charges_perm _ _ _ Hp). apply Hc.
Qed.

Lemma charges_bound c hs T :
  shard_ok c hs T -> forall T', T' ⊆ T -> zlen T' <= charges (heap_ c) T' <= zlen T' * 2 ^ 32.
Proof.
  intros Hc. induction T' as [|id T' IH]; intros Hsub; [cbn; lia|]. cbn [charges foldr length].
  fold (charges (heap_ c) T'). specialize (IH ltac:(set_solver)).
  destruct (cached_heap c hs T id Hc) as [h Hh]; [set_solver|]. unfold charge_of. rewrite Hh.
  change (default 0 (h_charge <$> Some h)) with (h_charge h). pose proof (proj1 (so_charge _ _ _ Hc id h Hh)).
  change (2 ^ 32) with 4294967296 in *. lia.
Qed.

(** The cache's own reference becomes one that is about to be dropped. *)
Lemma out_of_cache_ok c hs T id h :
  shard_ok c hs (id :: T) -> zlen (id :: T) < 2 ^ 31 -> heap_ c !! id = Some h ->
  let c1 := LRU_Remove c id in
  let c2 := mkLRU (capacity_ c1) (u64 (usage_ c1 - h_charge h)) (lru_ c1) (in_use_ c1) (table_ c1)
    (<[id := out_of_cache h]> (heap_ c1)) (next_id c1) (deleted_ c1) in
  shard_ok c2 (id :: hs) T.
Proof.
  intros Hc Hlen Hh. cbn zeta. cbn [LRU_Remove set_lists capacity_ usage_ lru_ in_use_ table_ heap_ next_id deleted_].
  pose proof (so_nodup _ _ _ Hc) as Hnd. pose proof Hnd as [Hid HndT]%list.NoDup_cons.
  assert (h_in_cache h = true) as Hin.
  { destruct (proj1 (so_cached _ _ _ Hc id) ltac:(left)) as (g & Hg & Hgc). congruence. }
  assert (forall T', same_info (heap_ c) (<[id := out_of_cache h]> (heap_ c)) T') as Hinfo
    by (intros T'; by apply (heap_insert_info (heap_ c) id h (out_of_cache h))).
  split; cbn [heap_ usage_ lru_ in_use_ next_id].
  - rewrite <- without_app. apply without_perm; [done|apply Hc].
  - done.
  - intros x. destruct (decide (id = x)) as [<-|Hne].
    + rewrite lookup_insert_eq. split; [done|]. by intros (g & [= <-] & Hg).
    + rewrite lookup_insert_ne by done. rewrite <- (so_cached _ _ _ Hc x). set_solver.
  - intros x hx Hx. rewrite held_cons. heap_cases Hx.
    + destruct (decide (id = id)); [|done]. cbn [out_of_cache h_refs h_in_cache].
      pose proof (so_refs _ _ _ Hc id h Hh) as H. rewrite Hin in H. lia.
    + destruct (decide (id = x)); [done|]. pose proof (so_refs _ _ _ Hc x hx Hx). lia.
  - intros x hx Hx Hxc. rewrite without_elem. heap_cases Hx; [done|]. rewrite (so_lru _ _ _ Hc x hx Hx Hxc). naive_solver.
  - intros x [->|Hx]%elem_of_cons; [by rewrite lookup_insert_eq|].
    destruct (decide (id = x)) as [<-|Hne]; [by rewrite lookup_insert_eq|]. rewrite lookup_insert_ne by done. by apply Hc.
  - intros x hx Hx. heap_cases Hx; [exact (so_ids _ _ _ Hc id h Hh)|exact (so_ids _ _ _ Hc x hx Hx)].
  - intros x hx Hx. heap_cases Hx; [exact (so_charge _ _ _ Hc id h Hh)|exact (so_charge _ _ _ Hc x hx Hx)].
  - rewrite charges_info with (heap := heap_ c); [|apply Hinfo|].
    2:{ intros x Hx. apply (cached_heap c hs (id :: T)); [done|by right]. }
    pose proof (charges_bound c hs (id :: T) Hc T ltac:(set_solver)) as Hb. cbn [length] in Hlen.
    rewrite (so_usage _ _ _ Hc). cbn [charges foldr]. fold (charges (heap_ c) T). unfold charge_of. rewrite Hh.
    change (default 0 (h_charge <$> Some h)) with (h_charge h).
    replace (h_charge h + charges (heap_ c) T - h_charge h) with (charges (heap_ c) T) by lia.
    apply u64_small. lia.
Qed.

Lemma Unref_lists c id h :
  heap_ c !! id = Some h -> h_in_cache h = false ->
  lru_ (Unref c id) = lru_ c /\ in_use_ (Unref c id) = in_use_ c.
Proof. intros Hh Hc. unfold Unref. rewrite Hh, Hc. cbn zeta. by destruct (_ =? 0). Qed.

Lemma FinishErase_spec c hs T id :
  shard_ok c hs (id :: T) -> zlen (id :: T) < 2 ^ 31 ->
  let c' := FinishErase c (Some id) in
  shard_ok c' hs T /\ refs_only c c' (T ++ hs) /\ lru_ c' = without id (lru_ c).
Proof.
  intros Hc Hlen. destruct (cached_heap c hs (id :: T) id Hc ltac:(left)) as [h Hh]. cbn zeta.
  unfold FinishErase. rewrite Hh. pose proof (out_of_cache_ok c hs T id h Hc Hlen Hh) as Hok. cbn zeta in Hok.
  cbv zeta. set (c2 := mkLRU _ _ _ _ _ _ _ _) in *.
  destruct (Unref_spec c2 hs T id Hok) as [H1 [Ht Hcap Hinfo]]. split; [done|]. split; [split|].
  - by rewrite Ht.
  - by rewrite Hcap.
  - intros x hx Hx Hhx.
    destruct (heap_insert_info (heap_ c) id h (out_of_cache h) (T ++ hs) Hh eq_refl eq_refl eq_refl eq_refl x hx Hx Hhx)
      as (h1 & E1 & K1). destruct (Hinfo x h1 Hx E1) as (h2 & E2 & K2). exists h2. split; [done|].
    destruct K1 as (A1 & A2 & A3 & A4), K2 as (B1 & B2 & B3 & B4). by rewrite B1, B2, B3, B4.
  - by apply (Unref_lists c2 id (out_of_cache h)); [apply lookup_insert_eq|].
Qed.
(** *** A shard with its table *)

Record lru_ok (n : Z) c hs : Prop := {
  lo_shard : shard_ok c hs (tids (table_ c));
  lo_table : table_ok (heap_ c) (table_ c);
  lo_count : zlen (tids (table_ c)) <= n }.

Lemma same_info_trans h1 h2 h3 T T' :
  same_info h1 h2 T -> same_info h2 h3 T' -> T' ⊆ T -> same_info h1 h3 T'.
Proof.
  intros H1 H2 Hsub id h Hid Hh. destruct (H1 id h (Hsub id Hid) Hh) as (g & Hg & A1 & A2 & A3 & A4).
  destruct (H2 id g Hid Hg) as (g' & Hg' & B1 & B2 & B3 & B4). exists g'. by rewrite B1, B2, B3, B4.
Qed.

Lemma same_info_refl h T : same_info h h T.
Proof. intros id g _ Hg. by exists g. Qed.

Lemma same_info_sub h1 h2 T T' : same_info h1 h2 T -> T' ⊆ T -> same_info h1 h2 T'.
Proof. intros H Hsub id h Hid. by apply H, Hsub. Qed.

(** Removing a handle that left the table. *)
Lemma drop_ok n c hs t id :
  shard_ok c hs (id :: tids t) -> table_ok (heap_ c) t -> zlen (id :: tids t) < 2 ^ 31 -> zlen (tids t) <= n ->
  let c' := FinishErase (set_table c t) (Some id) in
  lru_ok n c' hs /\ capacity_ c' = capacity_ c /\ table_ c' = t /\
  same_info (heap_ c) (heap_ c') (tids t ++ hs) /\ lru_ c' = without id (lru_ c).
Proof.
  intros Hc Ht Hlen Hn. assert (shard_ok (set_table c t) hs (id :: tids t)) as Hc' by (split; apply Hc).
  cbn zeta. destruct (FinishErase_spec (set_table c t) hs (tids t) id Hc' Hlen) as (Hok & [Et Ec Hi] & Hl).
  cbn [set_table table_ capacity_ heap_ lru_] in *. split; [|done].
  split; rewrite Et; [done| |done]. eapply table_ok_info; [done|]. eapply same_info_sub; [exact Hi|]. set_solver.
Qed.

Lemma erase_core n c hs key hash :
  n < 2 ^ 31 -> lru_ok n c hs ->
  let '(t, e) := HT_Remove (heap_ c) (table_ c) key hash in
  let c' := FinishErase (set_table c t) e in
  lru_ok n c' hs /\ capacity_ c' = capacity_ c /\ same_info (heap_ c) (heap_ c') (tids (table_ c') ++ hs) /\
  match e with
  | Some id => points_to (heap_ c) key hash id = true /\ tids (table_ c) ≡ₚ id :: tids (table_ c') /\
      lru_ c' = without id (lru_ c)
  | None => tids (table_ c') = tids (table_ c) /\ forall id, id ∈ tids (table_ c) -> points_to (heap_ c) key hash id = false
  end.
Proof.
  intros Hn [Hs Ht Hcount]. pose proof (HT_Remove_spec (heap_ c) (table_ c) key hash Ht ltac:(lia)) as H.
  destruct (HT_Remove _ _ _ _) as [t [id|]].
  - destruct H as (Hp & Hperm & Ht'). pose proof Hcount as Hcount'. rewrite Hperm in Hcount'. cbn [length] in Hcount'.
    destruct (drop_ok n c hs t id) as (H1 & H2 & E & H4 & H5).
    + by eapply shard_ok_perm.
    + done.
    + cbn [length]. lia.
    + lia.
    + cbn zeta. rewrite E in *. done.
  - destruct H as [-> Hno]. cbn [FinishErase]. split; [by split; [split; apply Hs|..]|]. split; [done|].
    split; [apply same_info_refl|done].
Qed.

Lemma evict_oldest_ok n c hs id :
  n < 2 ^ 31 -> lru_ok n c hs -> id ∈ lru_ c ->
  let c' := evict_oldest c id in
  lru_ok n c' hs /\ capacity_ c' = capacity_ c /\ same_info (heap_ c) (heap_ c') (tids (table_ c') ++ hs) /\
  tids (table_ c) ≡ₚ id :: tids (table_ c') /\ lru_ c' = without id (lru_ c).
Proof.
  intros Hn Hc Hid. pose proof Hc as [Hs Ht _].
  assert (id ∈ tids (table_ c)) as Hin by (rewrite <- (so_lists _ _ _ Hs); apply elem_of_app; by left).
  destruct (cached_heap _ _ _ _ Hs Hin) as [h Hh]. cbn zeta. unfold evict_oldest. rewrite Hh.
  pose proof (erase_core n c hs (h_key h) (h_hash h) Hn Hc) as H.
  destruct (HT_Remove _ _ _ _) as [t [x|]].
  - destruct H as (H1 & H2 & H3 & Hp & Hperm & Hl). apply points_to_spec in Hp as (hx & Hhx & E1 & E2).
    assert (x = id) as ->; [|done]. apply (to_unique _ _ Ht x id hx h); try done. rewrite Hperm. left.
  - destruct H as (_ & _ & _ & _ & Hno). exfalso. pose proof (Hno id Hin) as Hf. apply not_true_iff_false in Hf.
    apply Hf, points_to_spec. eauto.
Qed.

Lemma without_length id l : id ∈ l -> (length (without id l) < length l)%nat.
Proof.
  intros (l1 & l2 & ->)%list_elem_of_split. rewrite without_app, !length_app. unfold without at 2.
  rewrite filter_cons. destruct (decide _); [done|]. cbn [length].
  pose proof (length_filter (fun x => x <> id) l1). pose proof (length_filter (fun x => x <> id) l2).
  unfold without. lia.
Qed.

Lemma evict_ok n fuel c hs :
  n < 2 ^ 31 -> lru_ok n c hs -> (length (lru_ c) < fuel)%nat ->
  let c' := evict fuel c in
  lru_ok n c' hs /\ capacity_ c' = capacity_ c /\ same_info (heap_ c) (heap_ c') (tids (table_ c') ++ hs) /\
  tids (table_ c') ⊆ tids (table_ c) /\ (usage_ c' <= capacity_ c' \/ lru_ c' = []).
Proof.
  cbn zeta. intros Hn. revert c. induction fuel as [|fuel IH]; intros c Hc Hf; [lia|]. cbn [evict].
  destruct (usage_ c >? capacity_ c) eqn:E.
  2:{ rewrite Z.gtb_ltb in E. boolprop. split; [done|]. split; [done|]. split; [apply same_info_refl|]. by split; [|left]. }
  destruct (lru_ c) as [|old lru] eqn:El.
  { split; [done|]. split; [done|]. split; [apply same_info_refl|]. by split; [|right]. }
  destruct (evict_oldest_ok n c hs old Hn Hc) as (H1 & H2 & H3 & H4 & H5); [rewrite El; left|].
  destruct (IH (evict_oldest c old) H1) as (G1 & G2 & G3 & G4 & G5).
  { rewrite H5. pose proof (without_length old (lru_ c)) as Hw. rewrite El in Hw |- *. specialize (Hw ltac:(left)). lia. }
  split; [done|]. split; [congruence|]. split; [|split; [|done]].
  - eapply same_info_trans; [exact H3|exact G3|]. set_solver.
  - intros x Hx. rewrite H4. right. by apply G4.
Qed.
(** *** The meaning of a shard *)

(** The keys of the handles that are held satisfy [Q]. *)
Context (limit : Z) (Hlimit : limit < 2 ^ 31 - 1) (Q : bytes -> Prop).

Definition entry_at c (k : bytes) (v : V) : Prop :=
  exists id h, id ∈ tids (table_ c) /\ heap_ c !! id = Some h /\ h_key h = k /\ h_value h = v.

Definition has_value heap (p : nat * V) : Prop := 
  exists h, heap !! fst p = Some h /\ h_value h = snd p /\ Q (h_key h).

Record shard_rep c (m : bytes -> option V) (hv : list (nat * V)) : Prop := {
  sr_ok : lru_ok limit c (map fst hv);
  sr_map : forall k v, m k = Some v <-> entry_at c k v;
  sr_values : Forall (has_value (heap_ c)) hv;
  sr_capacity : 0 <= capacity_ c <= limit;
  sr_off : capacity_ c = 0 -> tids (table_ c) = [] }.

Lemma has_value_info heap heap' hv :
  same_info heap heap' (map fst hv) -> Forall (has_value heap) hv -> Forall (has_value heap') hv.
Proof.
  intros Hs. rewrite !list.Forall_forall. intros Hh p Hp. destruct (Hh p Hp) as (h & Hh' & E).
  destruct (Hs (fst p) h (list_elem_of_fmap_2 _ _ _ Hp) Hh') as (g & Hg & Ek & _ & Ev & _). exists g. by rewrite Ev, Ek.
Qed.

Lemma entry_at_sub c c' k v :
  tids (table_ c') ⊆ tids (table_ c) -> same_info (heap_ c) (heap_ c') (tids (table_ c')) ->
  (forall id, id ∈ tids (table_ c) -> is_Some (heap_ c !! id)) ->
  entry_at c' k v -> entry_at c k v.
Proof.
  intros Hsub Hs Hh (id & h & Hid & Hh' & <- & <-). destruct (Hh id (Hsub id Hid)) as [g Hg].
  destruct (Hs id g Hid Hg) as (h2 & Hh2 & E1 & _ & E3 & _). exists id, g.
  assert (h2 = h) as -> by congruence. by split; [apply Hsub|].
Qed.

Lemma entry_at_info c c' k v :
  tids (table_ c') = tids (table_ c) -> same_info (heap_ c) (heap_ c') (tids (table_ c)) ->
  (forall id, id ∈ tids (table_ c) -> is_Some (heap_ c !! id)) -> entry_at c' k v <-> entry_at c k v.
Proof.
  intros Et Hs Hh. split; [apply entry_at_sub; rewrite ?Et; done|].
  intros (id & g & Hid & Hg & <- & <-). destruct (Hs id g Hid Hg) as (h & Hh' & E1 & _ & E3 & _).
  exists id, h. rewrite Et. done.
Qed.

Lemma LRU_Lookup_rep c m hv k :
  shard_rep c m hv -> Q k ->
  match LRU_Lookup c k (hashfn k) with
  | (c', Some id) => exists v, m k = Some v /\ shard_rep c' m ((id, v) :: hv)
  | (c', None) => m k = None /\ shard_rep c' m hv
  end.
Proof.
  intros Hr HQ. pose proof (sr_ok _ _ _ Hr) as [Hs Ht Hn]. unfold LRU_Lookup.
  pose proof (HT_Lookup_spec (heap_ c) (table_ c) k (hashfn k) Ht) as H. destruct (HT_Lookup _ _ _ _) as [id|].
  - destruct H as [Hid (h & Hh & Eh & Ek)%points_to_spec]. exists (h_value h). split; [apply Hr; exists id, h; done|].
    destruct (Ref_spec c (map fst hv) (tids (table_ c)) id Hs Hid) as [Hok [Et Ec Hi]].
    assert (forall x, x ∈ tids (table_ c) -> is_Some (heap_ c !! x)) as Hsome by (intros x Hx; by eapply cached_heap).
    split.
    + split; rewrite ?Et; [exact Hok| |done]. eapply table_ok_info; [done|]. eapply same_info_sub; [exact Hi|set_solver].
    + intros k' v'. rewrite (sr_map _ _ _ Hr). symmetry. apply entry_at_info; [by rewrite Et| |done].
      eapply same_info_sub; [exact Hi|set_solver].
    + constructor.
      * destruct (Hi id h ltac:(left) Hh) as (g & Hg & Ek' & _ & Ev & _). exists g. by rewrite Ek', Ek.
      * eapply has_value_info; [|apply Hr]. eapply same_info_sub; [exact Hi|set_solver].
    + rewrite Ec. apply Hr.
    + rewrite Ec, Et. apply Hr.
  - split; [|done]. destruct (m k) as [v|] eqn:E; [|done]. exfalso.
    apply (sr_map _ _ _ Hr) in E as (id & h & Hid & Hh & Ek & _). pose proof (H id Hid) as Hf.
    apply not_true_iff_false in Hf. apply Hf, points_to_spec. exists h. split; [done|].
    rewrite <- Ek. split; [apply (so_charge _ _ _ Hs id h Hh)|done].
Qed.

Lemma held_perm hs hs' id : hs ≡ₚ hs' -> held hs id = held hs' id.
Proof. intros Hp. unfold held. by rewrite Hp. Qed.

Lemma shard_ok_held c hs hs' T : hs ≡ₚ hs' -> shard_ok c hs T -> shard_ok c hs' T.
Proof.
  intros Hp Hc. split; try apply Hc.
  - intros id h Hh. rewrite <- (held_perm _ _ id Hp). by apply Hc.
  - intros id Hid. apply Hc. by rewrite Hp.
Qed.

Lemma LRU_Release_rep c m hv hv' id v :
  shard_rep c m hv -> hv ≡ₚ (id, v) :: hv' -> shard_rep (LRU_Release c id) m hv'.
Proof.
  intros Hr Hp. pose proof (sr_ok _ _ _ Hr) as [Hs Ht Hn].
  assert (shard_ok c (id :: map fst hv') (tids (table_ c))) as Hs'.
  { eapply shard_ok_held; [|exact Hs]. change (id :: map fst hv') with (map fst ((id, v) :: hv')). by rewrite Hp. }
  destruct (Unref_spec c (map fst hv') (tids (table_ c)) id Hs') as [Hok [Et Ec Hi]]. unfold LRU_Release.
  split.
  - split; rewrite ?Et; [done| |done]. eapply table_ok_info; [done|]. eapply same_info_sub; [exact Hi|set_solver].
  - intros k' v'. rewrite (sr_map _ _ _ Hr). symmetry. apply entry_at_info; [by rewrite Et| |].
    + eapply same_info_sub; [exact Hi|set_solver].
    + intros x Hx. by eapply cached_heap.
  - eapply has_value_info; [eapply same_info_sub; [exact Hi|set_solver]|].
    pose proof (sr_values _ _ _ Hr) as Hv. rewrite Hp in Hv. by inversion Hv.
  - rewrite Ec. apply Hr.
  - rewrite Ec, Et. apply Hr.
Qed.

Lemma LRU_Erase_rep c m hv k :
  shard_rep c m hv ->
  shard_rep (LRU_Erase c k (hashfn k)) (fun k' => if decide (k' = k) then None else m k') hv.
Proof.
  intros Hr. pose proof (sr_ok _ _ _ Hr) as Hok. pose proof Hok as [Hs Ht Hn]. unfold LRU_Erase.
  pose proof (erase_core limit c (map fst hv) k (hashfn k) ltac:(lia) Hok) as H.
  destruct (HT_Remove _ _ _ _) as [t e]. destruct H as (H1 & H2 & H3 & H4). cbn zeta in *.
  set (c' := FinishErase (set_table c t) e) in *.
  assert (forall x, x ∈ tids (table_ c) -> is_Some (heap_ c !! x)) as Hsome by (intros x Hx; by eapply cached_heap).
  assert (tids (table_ c') ⊆ tids (table_ c)) as Hsub.
  { destruct e as [id|]; [|by destruct H4 as [-> _]]. destruct H4 as (_ & Hp & _). intros x Hx. rewrite Hp. by right. }
  split; [done| | |by rewrite H2; apply Hr|].
  3:{ rewrite H2. intros E0. apply list_nil_subseteq. by rewrite <- (sr_off _ _ _ Hr E0). }
  - intros k' v'. destruct (decide (k' = k)) as [->|Hne].
    + split; [done|]. intros (x & h & Hx & Hh & Ek & _). exfalso.
      destruct (Hsome x (Hsub x Hx)) as [g Hg].
      destruct (H3 x g ltac:(set_solver) Hg) as (h2 & Hh2 & E1 & _). assert (h2 = h) as -> by congruence.
      assert (points_to (heap_ c) k (hashfn k) x = true) as Hp.
      { apply points_to_spec. exists g. rewrite (proj2 (so_charge _ _ _ Hs x g Hg)). split; [done|]. by rewrite <- E1, Ek. }
      destruct e as [id|].
      * destruct H4 as (Hp' & Hperm & _). apply points_to_spec in Hp as (a & Ha & A1 & A2), Hp' as (b & Hb & B1 & B2).
        assert (x = id) as -> by (apply (to_unique _ _ Ht x id a b); try congruence; [by apply Hsub|rewrite Hperm; left]).
        pose proof (so_nodup _ _ _ Hs) as Hnd. rewrite Hperm in Hnd. by apply list.NoDup_cons in Hnd as [? _].
      * destruct H4 as [_ Hno]. rewrite Hno in Hp; [done|by apply Hsub].
    + rewrite (sr_map _ _ _ Hr). split.
      * intros (x & h & Hx & Hh & Ek & Ev). assert (x ∈ tids (table_ c')) as Hx'.
        { destruct e as [id|]; [|by destruct H4 as [-> _]]. destruct H4 as ((b & Hb & B1 & B2)%points_to_spec & Hperm & _).
          rewrite Hperm in Hx. apply elem_of_cons in Hx as [->|Hx]; [|done]. exfalso. apply Hne.
          rewrite <- Ek. assert (b = h) as <- by congruence. done. }
        destruct (H3 x h ltac:(set_solver) Hh) as (h2 & Hh2 & E1 & _ & E3 & _). exists x, h2.
        split; [done|]. split; [done|]. by rewrite E1, E3.
      * apply entry_at_sub; [done| |done]. eapply same_info_sub; [exact H3|set_solver].
  - eapply has_value_info; [|apply Hr]. eapply same_info_sub; [exact H3|set_solver].
Qed.
(** *** Inserting *)

(** The shard with the new handle, before anything is evicted. *)
Definition with_handle c (key : bytes) (value : V) (charge : Z) : LRUCache :=
  let id := next_id c in
  let c1 := mkLRU (capacity_ c) (usage_ c) (lru_ c) (in_use_ c) (table_ c)
    (<[id := mkHandle value charge key (0 <? capacity_ c) (if 0 <? capacity_ c then 2 else 1) (hashfn key)]> (heap_ c))
    (S id) (deleted_ c) in
  if 0 <? capacity_ c then
    let c1 := LRU_Append_in_use c1 id in
    mkLRU (capacity_ c1) (u64 (usage_ c1 + charge)) (lru_ c1) (in_use_ c1) (table_ c1) (heap_ c1) (next_id c1) (deleted_ c1)
  else c1.

Lemma fresh_id c hs T : shard_ok c hs T -> heap_ c !! next_id c = None /\ next_id c ∉ T /\ next_id c ∉ hs.
Proof.
  intros Hc. assert (heap_ c !! next_id c = None) as E.
  { destruct (heap_ c !! next_id c) as [h|] eqn:E; [|done]. apply (so_ids _ _ _ Hc) in E. lia. }
  split; [done|]. split; intros H.
  - destruct (cached_heap _ _ _ _ Hc H) as [h Hh]. congruence.
  - destruct (so_held _ _ _ Hc _ H) as [h Hh]. congruence.
Qed.

Lemma with_handle_ok c hs T key value charge :
  shard_ok c hs T -> zlen T < 2 ^ 31 -> 1 <= charge < 2 ^ 32 ->
  let c1 := with_handle c key value charge in
  shard_ok c1 (next_id c :: hs) (if 0 <? capacity_ c then next_id c :: T else T) /\
  table_ c1 = table_ c /\ capacity_ c1 = capacity_ c /\
  (forall x, x <> next_id c -> heap_ c1 !! x = heap_ c !! x).
Proof.
  intros Hc Hlen Hch. destruct (fresh_id c hs T Hc) as (Hnone & HT & Hhs). cbn zeta. unfold with_handle.
  set (id := next_id c) in *. set (cap := 0 <? capacity_ c).
  set (h0 := mkHandle value charge key cap (if cap then 2 else 1) (hashfn key)).
  assert (held hs id = 0) as Hh0.
  { unfold held. assert (filter (fun x => x = id) hs = []) as ->; [|done].
    clear - Hhs. induction hs as [|x hs IH]; [done|]. rewrite filter_cons. apply not_elem_of_cons in Hhs as [H1 H2].
    rewrite decide_False by done. by apply IH. }
  assert (forall x hx, <[id := h0]> (heap_ c) !! x = Some hx ->
    h_refs hx = (if h_in_cache hx then 1 else 0) + held (id :: hs) x /\ 1 <= h_refs hx) as Hrefs.
  { intros x hx Hx. rewrite held_cons. heap_cases Hx.
    - destruct (decide (id = id)); [|done]. cbn [h0 h_refs h_in_cache]. destruct cap; lia.
    - destruct (decide (id = x)); [done|]. pose proof (so_refs _ _ _ Hc x hx Hx). lia. }
  assert (forall x, x ∈ id :: hs -> is_Some (<[id := h0]> (heap_ c) !! x)) as Hheld.
  { intros x [->|Hx]%elem_of_cons; [by rewrite lookup_insert_eq|].
    rewrite lookup_insert_ne by (by intros <-). by apply Hc. }
  assert (forall x hx, <[id := h0]> (heap_ c) !! x = Some hx -> (x < S id)%nat) as Hids.
  { intros x hx Hx. heap_cases Hx; [lia|]. apply (so_ids _ _ _ Hc) in Hx. lia. }
  assert (forall x hx, <[id := h0]> (heap_ c) !! x = Some hx ->
    1 <= h_charge hx < 2 ^ 32 /\ h_hash hx = hashfn (h_key hx)) as Hchs.
  { intros x hx Hx. heap_cases Hx; [done|exact (so_charge _ _ _ Hc x hx Hx)]. }
  assert (charges (<[id := h0]> (heap_ c)) T = charges (heap_ c) T) as Hcharges.
  { apply charges_info; [|intros x Hx; by eapply cached_heap].
    intros x hx Hx Hhx. exists hx. rewrite lookup_insert_ne by (by intros <-). done. }
  assert (forall x, id <> x -> <[id := h0]> (heap_ c) !! x = heap_ c !! x) as Hlk by (intros x Hx; by apply lookup_insert_ne).
  destruct cap eqn:Ecap.
  - split; [|split; [done|split; [done|intros x Hx; by apply Hlk]]].
    split; cbn [LRU_Append_in_use set_lists lru_ in_use_ heap_ usage_ next_id]; try done.
    + rewrite app_assoc, Permutation_app_comm. cbn [app]. constructor. apply Hc.
    + apply list.NoDup_cons. split; [done|apply Hc].
    + intros x. destruct (decide (id = x)) as [<-|Hne].
      * rewrite lookup_insert_eq. split; [intros _; by exists h0|left].
      * rewrite Hlk by done. rewrite <- (so_cached _ _ _ Hc x). set_solver.
    + intros x hx Hx Hxc. heap_cases Hx; [|by apply Hc]. cbn [h0 h_refs]. split; [|lia].
      intros Hx. exfalso. apply HT. rewrite <- (so_lists _ _ _ Hc). apply elem_of_app. by left.
    + pose proof (charges_bound c hs T Hc T ltac:(done)) as Hb. rewrite (so_usage _ _ _ Hc). cbn [charges foldr].
      fold (charges (<[id := h0]> (heap_ c)) T). rewrite Hcharges. unfold charge_of. rewrite lookup_insert_eq.
      change (default 0 (h_charge <$> Some h0)) with charge. rewrite u64_small; [lia|].
      change (2 ^ 32) with 4294967296 in *. change (2 ^ 31) with 2147483648 in *.
      change (2 ^ 64) with 18446744073709551616. lia.
  - split; [|split; [done|split; [done|intros x Hx; by apply Hlk]]].
    split; cbn [lru_ in_use_ heap_ usage_ next_id]; try done; try apply Hc.
    + intros x. destruct (decide (id = x)) as [<-|Hne]; [|rewrite Hlk by done; apply Hc].
      rewrite lookup_insert_eq. split; [done|]. by intros (g & [= <-] & Hg).
    + intros x hx Hx Hxc. heap_cases Hx; [done|by apply Hc].
    + rewrite Hcharges. apply Hc.
Qed.

(** Entering the new handle into the table. *)
Definition enter c id (key : bytes) : LRUCache :=
  let '(t, old) := HT_Insert (heap_ c) (table_ c) id key (hashfn key) in FinishErase (set_table c t) old.

Lemma LRU_Insert_unfold c key value charge :
  LRU_Insert c key (hashfn key) value charge =
  (let c1 := with_handle c key value charge in
   let c2 := if 0 <? capacity_ c then enter c1 (next_id c) key else c1 in
   (evict (S (length (lru_ c2))) c2, next_id c)).
Proof. unfold LRU_Insert, with_handle, enter. cbn [capacity_]. by destruct (0 <? capacity_ c). Qed.

Lemma enter_ok c hs T id h :
  shard_ok c hs (id :: T) -> table_ok (heap_ c) (table_ c) -> tids (table_ c) ≡ₚ T -> zlen T < 2 ^ 31 - 1 ->
  heap_ c !! id = Some h ->
  let c' := enter c id (h_key h) in
  lru_ok (zlen T + 1) c' hs /\ capacity_ c' = capacity_ c /\
  same_info (heap_ c) (heap_ c') (tids (table_ c') ++ hs) /\ id ∈ tids (table_ c') /\ tids (table_ c') ⊆ id :: T.
Proof.
  intros Hc Ht HT Hlen Hh. cbn zeta. unfold enter.
  pose proof (so_nodup _ _ _ Hc) as Hnd. pose proof Hnd as [Hid _]%list.NoDup_cons.
  rewrite <- (proj2 (so_charge _ _ _ Hc id h Hh)).
  pose proof (HT_Insert_spec (heap_ c) (table_ c) id h Ht Hh) as H.
  destruct (HT_Insert _ _ _ _ _) as [t [old|]].
  - destruct H as (_ & Ht' & T0 & E1 & E2); [by rewrite HT|rewrite HT; lia|].
    assert (T ≡ₚ old :: T0) as E3 by by rewrite <- HT.
    assert (zlen T = zlen T0 + 1) as El by (rewrite E3; cbn [length]; lia).
    destruct (drop_ok (zlen T + 1) c hs t old) as (H1 & H2 & E & H4 & _).
    + eapply shard_ok_perm; [|exact Hc]. rewrite E2, E3. apply Permutation_swap.
    + done.
    + cbn [length]. rewrite E2. cbn [length]. lia.
    + rewrite E2. cbn [length]. lia.
    + cbn zeta in *. rewrite E in *. split; [done|]. split; [done|]. split; [done|].
      split; [rewrite E2; left|]. intros x Hx. rewrite E2 in Hx. rewrite E3. set_solver.
  - destruct H as (_ & Ht' & E); [by rewrite HT|rewrite HT; lia|]. cbn [FinishErase].
    assert (tids t ≡ₚ id :: T) as E' by by rewrite E, HT.
    split; [|split; [done|split; [apply same_info_refl|split; [rewrite E'; left|intros x Hx; by rewrite E' in Hx]]]].
    split; cbn [set_table table_ heap_].
    + eapply shard_ok_perm; [symmetry; exact E'|]. split; apply Hc.
    + done.
    + rewrite E'. cbn [length]. lia.
Qed.
(** What a shard maps a key to. *)
Definition shard_map c (k : bytes) : option V :=
  id ← HT_Lookup (heap_ c) (table_ c) k (hashfn k); h_value <$> heap_ c !! id.

Lemma shard_map_spec n c hs k v : lru_ok n c hs -> shard_map c k = Some v <-> entry_at c k v.
Proof.
  intros [Hs Ht _]. unfold shard_map. pose proof (HT_Lookup_spec (heap_ c) (table_ c) k (hashfn k) Ht) as H.
  destruct (HT_Lookup _ _ _ _) as [id|]; cbn [mbind option_bind].
  - destruct H as [Hid (h & Hh & Eh & Ek)%points_to_spec]. rewrite Hh. cbn. split.
    + intros [= <-]. by exists id, h.
    + intros (x & hx & Hx & Hhx & Kx & <-). assert (x = id) as ->; [|congruence].
      apply (to_unique _ _ Ht x id hx h); try done; [|congruence].
      rewrite (proj2 (so_charge _ _ _ Hs x hx Hhx)), Kx. done.
  - split; [done|]. intros (x & hx & Hx & Hhx & Kx & _). exfalso.
    pose proof (H x Hx) as Hf%not_true_iff_false. apply Hf, points_to_spec. exists hx.
    split; [done|]. split; [|done]. rewrite <- Kx. apply (so_charge _ _ _ Hs x hx Hhx).
Qed.

(** When nothing is left to evict, users hold every entry. *)
Lemma all_held n c hs : lru_ok n c hs -> lru_ c = [] -> tids (table_ c) ⊆ hs.
Proof.
  intros [Hs Ht Hn] He x Hx.
  pose proof (proj1 (so_cached _ _ _ Hs x) Hx) as (h & Hh & Hin).
  pose proof (so_refs _ _ _ Hs x h Hh) as [Hr1 Hr2]. pose proof (so_lru _ _ _ Hs x h Hh Hin) as Hlru.
  rewrite He in Hlru. rewrite Hin in Hr1. destruct (decide (held hs x = 0)) as [E0|E0].
  - exfalso. apply (not_elem_of_nil x), Hlru. lia.
  - assert (filter (fun y => y = x) hs <> []) as Hf by (intros E; apply E0; unfold held; by rewrite E).
    destruct (filter (fun y => y = x) hs) as [|y l] eqn:E; [done|].
    assert (y ∈ filter (fun y => y = x) hs) as [-> Hy]%list_elem_of_filter by (rewrite E; left). done.
Qed.

Lemma charges_in_use c hs T T' :
  shard_ok c hs T -> NoDup T -> T ⊆ T' -> charges (heap_ c) T <= charges (heap_ c) T'.
Proof.
  intros Hc Hnd Hsub. destruct (submseteq_Permutation T T' (NoDup_submseteq _ _ Hnd Hsub)) as [R HR].
  rewrite (charges_perm _ _ _ HR). unfold charges. rewrite foldr_app. fold (charges (heap_ c) R). assert (0 <= charges (heap_ c) R) as Hpos.
  { clear - Hc. unfold charges. induction R as [|x R IH]; cbn [foldr]; [done|]. unfold charge_of at 1.
    destruct (heap_ c !! x) as [h|] eqn:Hh; [|cbn; lia]. change (default 0 (h_charge <$> Some h)) with (h_charge h).
    pose proof (proj1 (so_charge _ _ _ Hc x h Hh)). lia. }
  clear - Hpos. induction T as [|x T IH]; cbn [foldr]; lia.
Qed.

(** A shard that has evicted what it can holds no more entries than its
    capacity and its users' handles together allow. *)
Lemma evicted_count n c hs :
  lru_ok n c hs -> usage_ c <= capacity_ c \/ lru_ c = [] -> capacity_ c <= limit -> zlen hs <= limit ->
  lru_ok limit c hs.
Proof.
  intros [Hs Ht Hn] He Hcap Hhs. split; [done|done|]. destruct He as [He|He].
  - pose proof (charges_bound c hs _ Hs (tids (table_ c)) ltac:(done)). rewrite (so_usage _ _ _ Hs) in He. lia.
  - assert (length (tids (table_ c)) <= length hs)%nat; [|lia].
    apply submseteq_length, NoDup_submseteq; [apply Hs|]. by eapply all_held.
Qed.

(** The new handle is in the shard, and the others are as before. *)
Lemma inserted_ok c m hv k v charge :
  shard_rep c m hv -> 1 <= charge < 2 ^ 32 ->
  let id := next_id c in
  let c1 := with_handle c k v charge in
  let c2 := if 0 <? capacity_ c then enter c1 id k else c1 in
  lru_ok (limit + 1) c2 (id :: map fst hv) /\ capacity_ c2 = capacity_ c /\
  same_info (heap_ c1) (heap_ c2) (tids (table_ c2) ++ id :: map fst hv) /\
  tids (table_ c2) ⊆ id :: tids (table_ c) /\
  (0 < capacity_ c /\ id ∈ tids (table_ c2) \/ tids (table_ c) = [] /\ capacity_ c = 0 /\ tids (table_ c2) = []).
Proof.
  intros Hr Hch. pose proof (sr_ok _ _ _ Hr) as [Hs Ht Hn].
  destruct (with_handle_ok c _ _ k v charge Hs ltac:(lia) Hch) as (Hok & Et & Ec & Hlk).
  destruct (fresh_id _ _ _ Hs) as (Hnone & HT & _). cbn zeta. set (c1 := with_handle c k v charge) in *.
  assert (table_ok (heap_ c1) (table_ c1)) as Ht1.
  { rewrite Et. eapply table_ok_info; [exact Ht|]. intros x h Hx Hh. exists h.
    rewrite Hlk; [done|]. intros ->. done. }
  destruct (0 <? capacity_ c) eqn:Ecap; boolprop.
  - assert (exists h, heap_ c1 !! next_id c = Some h /\ h_key h = k) as (h & Hh & Ek).
    { unfold c1, with_handle. rewrite (proj2 (Z.ltb_lt 0 (capacity_ c))) by done.
      cbn [LRU_Append_in_use set_lists heap_]. eexists. rewrite lookup_insert_eq. by split. }
    destruct (enter_ok c1 _ _ (next_id c) h Hok Ht1) as (H1 & H2 & H3 & H4 & H5); rewrite ?Et; try done; [lia|].
    rewrite Ek in *. split; [|split; [congruence|split; [done|split; [done|by left]]]].
    split; [apply H1|apply H1|]. pose proof (lo_count _ _ _ H1). lia.
  - pose proof (sr_capacity _ _ _ Hr). pose proof (sr_off _ _ _ Hr ltac:(lia)) as E0. rewrite Et, E0 in *.
    split; [split; rewrite ?Et, ?E0; try done; cbn; lia|]. split; [done|]. split; [apply same_info_refl|].
    split; [set_solver|]. right. split; [done|]. split; [lia|done].
Qed.

Lemma LRU_Insert_rep c m hv k v charge :
  shard_rep c m hv -> Q k -> 1 <= charge < 2 ^ 32 -> zlen hv < limit ->
  let '(c', id) := LRU_Insert c k (hashfn k) v charge in
  exists m', shard_rep c' m' ((id, v) :: hv) /\
    (forall k' v', m' k' = Some v' -> (k' = k /\ v' = v) \/ (k' <> k /\ m k' = Some v')) /\
    capacity_ c' = capacity_ c /\ (usage_ c' <= capacity_ c' \/ lru_ c' = []).
Proof.
  intros Hr HQ Hch Hlen. rewrite LRU_Insert_unfold. cbn zeta.
  destruct (inserted_ok c m hv k v charge Hr Hch) as (Hok & Ec & Hi & Hsub & Hnew). cbn zeta in *.
  set (c1 := with_handle c k v charge) in *. set (id := next_id c) in *.
  set (c2 := if 0 <? capacity_ c then enter c1 id k else c1) in *.
  pose proof (sr_ok _ _ _ Hr) as [Hs Ht Hn]. pose proof (sr_capacity _ _ _ Hr) as Hcap.
  destruct (with_handle_ok c _ _ k v charge Hs ltac:(lia) Hch) as (_ & _ & _ & Hlk). fold c1 id in Hlk.
  destruct (fresh_id _ _ _ Hs) as (_ & HT & Hfresh). fold id in HT, Hfresh.
  assert (exists h, heap_ c1 !! id = Some h /\ h_key h = k /\ h_value h = v) as (h & Hh & Ek & Ev).
  { unfold c1, with_handle. destruct (0 <? capacity_ c); cbn [LRU_Append_in_use set_lists heap_];
      eexists; rewrite lookup_insert_eq; by split. }
  destruct (evict_ok (limit + 1) (S (length (lru_ c2))) c2 _ ltac:(lia) Hok ltac:(lia)) as (G1 & G2 & G3 & G4 & G5).
  set (c3 := evict _ c2) in *.
  assert (same_info (heap_ c1) (heap_ c3) (tids (table_ c3) ++ id :: map fst hv)) as Hi3.
  { eapply same_info_trans; [exact Hi|exact G3|]. set_solver. }
  assert (lru_ok limit c3 (id :: map fst hv)) as Hok3.
  { eapply evicted_count; [exact G1|done|lia|]. cbn [length]. rewrite length_map. lia. }
  exists (shard_map c3). split; [|split; [|split; [congruence|done]]].
  - split; [exact Hok3|intros k' v'; by eapply shard_map_spec| |lia|].
    + constructor.
      * destruct (Hi3 id h ltac:(set_solver) Hh) as (g & Hg & E' & _ & E & _). exists g.
        cbn [fst snd]. by rewrite E, E', Ek.
      * eapply has_value_info; [eapply same_info_sub; [exact Hi3|set_solver]|].
        eapply has_value_info; [|apply Hr]. intros x hx Hx Hhx. exists hx. rewrite Hlk; [done|]. by intros ->.
    + intros E. destruct Hnew as [[Hpos _]|(_ & _ & E0)]; [lia|]. apply list_nil_subseteq. by rewrite <- E0.
  - intros k' v' (x & hx & Hx & Hhx & Kx & <-)%(shard_map_spec _ _ _ _ _ Hok3).
    pose proof (Hsub x (G4 x Hx)) as [->|HxT]%elem_of_cons.
    + left. destruct (Hi3 id h ltac:(set_solver) Hh) as (g & Hg & E1 & _ & E3 & _). split; congruence.
    + right. destruct (cached_heap _ _ _ _ Hs HxT) as [g Hg].
      assert (x <> id) as Hne by (by intros ->).
      assert (heap_ c1 !! x = Some g) as Hg1 by by rewrite Hlk.
      destruct (Hi3 x g ltac:(set_solver) Hg1) as (g3 & Hg3 & E1 & _ & E3 & _). assert (g3 = hx) as -> by congruence.
      split; [|apply Hr; exists x, g; split; [done|]; split; [done|]; split; congruence].
      intros ->. destruct Hnew as [[_ Hin]|(E0 & _)]; [|rewrite E0 in HxT; by apply not_elem_of_nil in HxT].
      destruct (Hi x g ltac:(set_solver) Hg1) as (a & Ha & A1 & A2 & _).
      destruct (Hi id h ltac:(set_solver) Hh) as (b & Hb & B1 & B2 & _).
      apply Hne. apply (to_unique _ _ (lo_table _ _ _ Hok) x id a b); try done; [by apply G4| |congruence].
      rewrite (proj2 (so_charge _ _ _ (lo_shard _ _ _ Hok) x a Ha)), (proj2 (so_charge _ _ _ (lo_shard _ _ _ Hok) id b Hb)).
      congruence.
Qed.
Lemma new_shard_rep capacity :
  0 <= capacity <= limit -> shard_rep (LRUCache_new (V:=V) capacity) (fun _ => None) [].
Proof.
  intros Hc. destruct (HandleTable_new_ok (V:=V) ∅) as [Ht E]. assert (0 <= limit) by lia.
  split; cbn [LRUCache_new table_ heap_ capacity_ map]; rewrite ?E; try done.
  - split; cbn [LRUCache_new table_ heap_]; rewrite ?E; [|done|done].
    split; cbn [LRUCache_new lru_ in_use_ heap_ next_id usage_]; try done; try (intros; by rewrite lookup_empty in *).
    + constructor.
    + intros id. rewrite lookup_empty. split; [by intros ?%not_elem_of_nil|naive_solver].
    + by intros id ?%not_elem_of_nil.
  - intros k v. split; [done|]. intros (id & h & Hid & _). cbn [LRUCache_new table_] in Hid. rewrite E in Hid.
    by apply not_elem_of_nil in Hid.
Qed.
End Shard.

(** ** Proofs: the sharded cache *)

Section Shared.
Context {V : Type} (limit : Z) (Hlimit : limit < 2 ^ 31 - 1).
Abbreviation SharedLRUCache := (@SharedLRUCache V).
Implicit Types (st : SharedLRUCache) (m : bytes -> option V) (hs : list (nat * nat * V)).

Definition shard_of (k : bytes) : nat := Shard (HashSlice k).
Definition shard_map_of m (i : nat) (k : bytes) : option V := if decide (shard_of k = i) then m k else None.
Definition shard_handles hs (i : nat) : list (nat * V) :=
  map (fun p => (snd (fst p), snd p)) (filter (fun p => fst (fst p) = i) hs).
Abbreviation rep_of i := (shard_rep HashSlice limit (fun k => shard_of k = i)).

(** Every shard holds the keys whose hash leads to it. *)
Record shared_rep st m hs : Prop := {
  sh_length : length (shard_ st) = 16%nat;
  sh_shards : forall i c, shard_ st !! i = Some c -> rep_of i c (shard_map_of m i) (shard_handles hs i);
  sh_handles : forall p, p ∈ hs -> (fst (fst p) < 16)%nat }.

Lemma shard_rep_ext i c m m' hv hv' :
  rep_of i c m hv -> (forall k, m k = m' k) -> hv ≡ₚ hv' -> rep_of i c m' hv'.
Proof.
  intros Hr Hm Hp. pose proof (sr_ok _ _ _ _ _ _ Hr) as [Hs Ht Hn]. split; try apply Hr.
  - split; [|done|done]. eapply shard_ok_held; [|exact Hs]. by rewrite Hp.
  - intros k v. rewrite <- Hm. apply Hr.
  - rewrite <- Hp. apply Hr.
Qed.

Lemma shard_of_lt k : (shard_of k < 16)%nat.
Proof.
  unfold shard_of, Shard, HashSlice. pose proof (Hash_range k 0) as H. rewrite Z.shiftr_div_pow2 by done.
  change (2 ^ (32 - kNumshardBits)) with 268435456. change (2 ^ 32) with 4294967296 in H.
  assert (Hash k 0 / 268435456 < 16) by (apply Z.div_lt_upper_bound; lia). lia.
Qed.

Lemma shared_shard st m hs i : shared_rep st m hs -> (i < 16)%nat -> exists c, shard_ st !! i = Some c.
Proof. intros Hr Hi. apply lookup_lt_is_Some. by rewrite (sh_length _ _ _ Hr). Qed.

(** A shard changes, and the rest of the cache stays as it is. *)
Lemma shared_update st m m' hs hs' i c' :
  shared_rep st m hs -> (i < 16)%nat ->
  rep_of i c' (shard_map_of m' i) (shard_handles hs' i) ->
  (forall k, shard_of k <> i -> m' k = m k) -> (forall j, j <> i -> shard_handles hs' j = shard_handles hs j) ->
  (forall p, p ∈ hs' -> p ∈ hs \/ fst (fst p) = i) ->
  shared_rep (mkShared (<[i := c']> (shard_ st)) (last_id_ st)) m' hs'.
Proof.
  intros Hr Hi Hc Hm Hh Hp. split; cbn [shard_].
  - rewrite length_insert. apply Hr.
  - intros j d Hj. apply list_lookup_insert_Some in Hj as [(<- & <- & _)|[Hne Hj]]; [done|].
    rewrite Hh by done. eapply shard_rep_ext; [by apply (sh_shards _ _ _ Hr)| |done].
    intros k. unfold shard_map_of. destruct (decide _); [|done]. symmetry. apply Hm. congruence.
  - intros p [H| ->]%Hp; [by apply Hr|done].
Qed.

Lemma shard_handles_cons i id v hs j :
  shard_handles ((i, id, v) :: hs) j = if decide (i = j) then (id, v) :: shard_handles hs j else shard_handles hs j.
Proof. unfold shard_handles. rewrite filter_cons. cbn [fst snd]. by destruct (decide _). Qed.

Lemma shard_handles_length hs i : zlen (shard_handles hs i) <= zlen hs.
Proof. unfold shard_handles. rewrite length_map. pose proof (length_filter (fun p => fst (fst p) = i) hs). lia. Qed.

Lemma shard_map_of_self m k : shard_map_of m (shard_of k) k = m k.
Proof. unfold shard_map_of. by destruct (decide _). Qed.

Lemma shared_handle st m hs s id v :
  shared_rep st m hs -> ((s, id), v) ∈ hs ->
  exists c h, shard_ st !! s = Some c /\ heap_ c !! id = Some h /\ h_value h = v /\ Shard (h_hash h) = s.
Proof.
  intros Hr Hin. destruct (shared_shard st m hs s Hr (sh_handles _ _ _ Hr _ Hin)) as [c Hc].
  pose proof (sh_shards _ _ _ Hr s c Hc) as Hs. assert ((id, v) ∈ shard_handles hs s) as Hp.
  { unfold shard_handles. apply list_elem_of_fmap. exists ((s, id), v). split; [done|]. by apply list_elem_of_filter. }
  destruct (proj1 (list.Forall_forall _ _) (sr_values _ _ _ _ _ _ Hs) _ Hp) as (h & Hh & Ev & HQ).
  exists c, h. split; [done|]. split; [done|]. split; [done|].
  rewrite (proj2 (so_charge _ _ _ _ (lo_shard _ _ _ _ (sr_ok _ _ _ _ _ _ Hs)) id h Hh)). exact HQ.
Qed.

#[export] Instance shared_cache_laws : CacheLaws (NewLRUCache (V:=V)) limit shared_rep.
Proof.
  split; cbn [NewLRUCache CState CHandle cache_Lookup cache_Insert cache_Value cache_Release cache_Erase].
  - intros st m hs k Hr. pose proof (shard_of_lt k) as Hi. destruct (shared_shard st m hs (shard_of k) Hr Hi) as [c Hc].
    unfold Shared_Lookup, on_shard. fold (shard_of k). rewrite Hc.
    pose proof (LRU_Lookup_rep HashSlice limit Hlimit _ c _ _ k (sh_shards _ _ _ Hr _ c Hc) eq_refl) as H.
    destruct (LRU_Lookup c k (HashSlice k)) as [c' [id|]]; cbn [fmap option_fmap option_map].
    + destruct H as (v & Hv & H). exists v. rewrite shard_map_of_self in Hv. split; [done|].
      eapply shared_update; [exact Hr|done| |done| |].
      * rewrite shard_handles_cons. by destruct (decide _).
      * intros j Hj. rewrite shard_handles_cons. by destruct (decide _).
      * intros p [->|Hp]%elem_of_cons; [by right|by left].
    + destruct H as [Hv H]. rewrite shard_map_of_self in Hv. split; [done|].
      eapply shared_update; [exact Hr|done|done|done|done|by left].
  - intros st m hs k v charge Hr Hch Hlen. pose proof (shard_of_lt k) as Hi.
    destruct (shared_shard st m hs (shard_of k) Hr Hi) as [c Hc].
    unfold Shared_Insert, on_shard. fold (shard_of k). rewrite Hc.
    pose proof (shard_handles_length hs (shard_of k)) as Hl.
    pose proof (LRU_Insert_rep HashSlice limit Hlimit _ c _ _ k v charge (sh_shards _ _ _ Hr _ c Hc) eq_refl Hch ltac:(lia)) as H.
    destruct (LRU_Insert c k (HashSlice k) v charge) as [c' id]. destruct H as (mi & H & Hmi & _).
    exists (fun k' => if decide (shard_of k' = shard_of k) then mi k' else m k'). split.
    + eapply shared_update; [exact Hr|done| | | |].
      * rewrite shard_handles_cons. destruct (decide (shard_of k = shard_of k)); [|done].
        eapply shard_rep_ext; [exact H| |done]. intros k'. unfold shard_map_of.
        destruct (decide (shard_of k' = shard_of k)) as [E|E]; [done|]. destruct (mi k') as [v'|] eqn:Em; [|done].
        apply Hmi in Em as [[-> _]|[_ Em]]; [done|]. unfold shard_map_of in Em. by destruct (decide _).
      * intros k' Hk'. by destruct (decide _).
      * intros j Hj. rewrite shard_handles_cons. by destruct (decide _).
      * intros p [->|Hp]%elem_of_cons; [by right|by left].
    + intros k' v'. destruct (decide _) as [E|E].
      * intros [?|[Hne Hm]]%Hmi; [by left|right]. split; [done|]. unfold shard_map_of in Hm. by destruct (decide _).
      * intros Hm. right. split; [congruence|done].
  - intros st m hs [s id] v Hr Hin. destruct (shared_handle st m hs s id v Hr Hin) as (c & h & Hc & Hh & Ev & _).
    unfold Shared_Value, handle_at. cbn [fst snd]. rewrite Hc. cbn [mbind option_bind]. rewrite Hh. cbn. by rewrite Ev.
  - intros st m hs hs' [s id] v Hr Hp. assert (((s, id), v) ∈ hs) as Hin by (rewrite Hp; left).
    destruct (shared_handle st m hs s id v Hr Hin) as (c & h & Hc & Hh & Ev & Es).
    unfold Shared_Release, handle_at, on_shard. cbn [fst snd]. rewrite Hc. cbn [mbind option_bind]. rewrite Hh, Es, Hc. cbn [fst].
    assert (forall j, shard_handles hs j ≡ₚ shard_handles ((s, id, v) :: hs') j) as Hpj.
    { intros j. unfold shard_handles. by rewrite Hp. }
    assert (shared_rep st m ((s, id, v) :: hs')) as Hr'.
    { split; [apply Hr| |]; [|intros p; rewrite <- Hp; apply Hr].
      intros j d Hd. eapply shard_rep_ext; [by apply (sh_shards _ _ _ Hr)|done|apply Hpj]. }
    eapply shared_update; [exact Hr'|by apply (sh_handles _ _ _ Hr _ Hin)| |done| |by intros p H; left; right].
    + eapply (LRU_Release_rep HashSlice limit Hlimit); [by apply (sh_shards _ _ _ Hr)|]. rewrite Hpj, shard_handles_cons. by destruct (decide _).
    + intros j Hj. rewrite shard_handles_cons. by destruct (decide _).
  - intros st m hs k Hr. pose proof (shard_of_lt k) as Hi. destruct (shared_shard st m hs (shard_of k) Hr Hi) as [c Hc].
    unfold Shared_Erase, on_shard. fold (shard_of k). rewrite Hc. cbn [fst].
    eapply shared_update; [exact Hr|done| | |done|by left].
    + eapply shard_rep_ext; [apply (LRU_Erase_rep HashSlice limit Hlimit), (sh_shards _ _ _ Hr _ c Hc)| |done].
      intros k'. unfold shard_map_of. by destruct (decide (k' = k)), (decide (shard_of k' = shard_of k)).
    + intros k' Hk'. by destruct (decide (k' = k)) as [->|].
Qed.

Lemma shared_new_rep capacity :
  0 <= capacity <= limit -> shared_rep (SharedLRUCache_new (V:=V) capacity) (fun _ => None) [].
Proof.
  intros Hc. unfold SharedLRUCache_new. change (kNumShards - 1) with 15. change kNumShards with 16.
  change (2 ^ 31) with 2147483648 in Hlimit.
  rewrite u64_small by (change (2 ^ 64) with 18446744073709551616; lia).
  split; cbn [shard_]; [by rewrite length_replicate| |by intros p ?%not_elem_of_nil].
  intros i c [-> _]%lookup_replicate. eapply shard_rep_ext; [apply new_shard_rep| |done].
  - assert (0 <= (capacity + 15) / 16) by (apply Z.div_pos; lia). split; [done|].
    destruct (decide (capacity = 0)) as [->|Hne]; [change ((0 + 15) / 16) with 0; lia|].
    assert ((capacity + 15) / 16 < capacity + 1) by (apply Z.div_lt_upper_bound; lia). lia.
  - intros k. unfold shard_map_of. by destruct (decide _).
Qed.
End Shared.

(** ** Proofs: the decorator *)

#[export] Instance statistics_cache_laws {V} (C : CacheOps V) limit rep `{!CacheLaws C limit rep} :
  CacheLaws (NewStatisticsCache C) limit (fun st => rep (target_ st)).
Proof.
  split; cbn [NewStatisticsCache CState CHandle cache_Lookup cache_Insert cache_Value cache_Release cache_Erase].
  - intros st m hs k Hr. unfold Stat_Lookup. pose proof (cache_lookup (target_ st) m hs k Hr) as H.
    by destruct (cache_Lookup C (target_ st) k) as [t [h|]].
  - intros st m hs k v charge Hr Hch Hl. pose proof (cache_insert (target_ st) m hs k v charge Hr Hch Hl) as H.
    by destruct (cache_Insert C (target_ st) k v charge) as [t h].
  - intros st m hs h v. apply cache_value.
  - intros st m hs hs' h v. apply cache_release.
  - intros st m hs k. apply cache_erase.
Qed.

(** ** A client of a cache *)

Section Client.
Context {V : Type} (C : CacheOps V) (limit : Z) (rep : CState C -> (bytes -> option V) -> list (CHandle C * V) -> Prop).
Context `{!CacheLaws C limit rep}.

(** What a client does: it keeps the handles it gets, and releases the [n]-th
    of them. *)
Inductive cache_op :=
  | OpInsert (k : bytes) (v : V) (charge : Z)
  | OpLookup (k : bytes)
  | OpRelease (n : nat)
  | OpErase (k : bytes).

Definition run_op (s : CState C * list (CHandle C)) (op : cache_op) : CState C * list (CHandle C) :=
  let '(st, held) := s in
  match op with
  | OpInsert k v charge => let '(st, h) := cache_Insert C st k v charge in (st, h :: held)
  | OpLookup k => let '(st, h) := cache_Lookup C st k in (st, option_list h ++ held)
  | OpRelease n =>
      match held !! n with
      | Some h => (cache_Release C st h, delete n held)
      | None => (st, held)
      end
  | OpErase k => (cache_Erase C st k, held)
  end.

Definition run_ops (st : CState C) (ops : list cache_op) : CState C * list (CHandle C) :=
  fold_left run_op ops (st, []).

(** The value a key was last given, unless it was erased since. *)
Definition spec_op (m : bytes -> option V) (op : cache_op) : bytes -> option V :=
  match op with
  | OpInsert k v _ => fun k' => if decide (k' = k) then Some v else m k'
  | OpErase k => fun k' => if decide (k' = k) then None else m k'
  | _ => m
  end.
Definition last_value (ops : list cache_op) : bytes -> option V := fold_left spec_op ops (fun _ => None).

Definition op_ok (op : cache_op) : Prop :=
  match op with OpInsert _ _ charge => 1 <= charge < 2 ^ 32 | _ => True end.

(** The cache knows no more than the specification, and every handle held has
    a value of its own. *)
Definition client_inv (s : CState C * list (CHandle C)) (spec : bytes -> option V) (n : Z) : Prop :=
  exists m hv, rep (fst s) m hv /\ map fst hv = snd s /\ zlen hv <= n /\
    forall k v, m k = Some v -> spec k = Some v.

Lemma run_op_inv s spec n op :
  client_inv s spec n -> n < limit -> op_ok op -> client_inv (run_op s op) (spec_op spec op) (n + 1).
Proof.
  destruct s as [st held]. intros (m & hv & Hr & Eh & Hn & Hm) Hlim Hok. cbn [fst snd] in *. subst held.
  destruct op as [k v charge|k|i|k]; cbn [run_op spec_op op_ok] in *.
  - assert (zlen hv < limit) as Hlt by lia.
    pose proof (cache_insert st m hv k v charge Hr Hok Hlt) as H. destruct (cache_Insert C st k v charge) as [st' h].
    destruct H as (m' & Hr' & Hm'). exists m', ((h, v) :: hv). split; [done|]. split; [done|].
    split; [cbn [length]; lia|]. intros k' v' [[-> ->]|[Hne Hk]]%Hm'; destruct (decide _); try done. by apply Hm.
  - pose proof (cache_lookup st m hv k Hr) as H. destruct (cache_Lookup C st k) as [st' [h|]].
    + destruct H as (v & Hk & Hr'). exists m, ((h, v) :: hv). split; [done|]. split; [done|]. split; [cbn [length]; lia|done].
    + destruct H as [Hk Hr']. exists m, hv. split; [done|]. split; [done|]. split; [lia|done].
  - change (map fst hv) with (fst <$> hv). rewrite list_lookup_fmap.
    destruct (hv !! i) as [[h v]|] eqn:Ei; cbn [fmap option_fmap option_map fst].
    + exists m, (delete i hv). split; [|split; [|split; [|done]]]; cbn [fst snd].
      * eapply cache_release; [exact Hr|]. by apply delete_Permutation.
      * change (map fst) with (fmap (M:=list) (@fst (CHandle C) V)). by rewrite <- list_fmap_delete.
      * pose proof (length_delete hv i ltac:(by rewrite Ei)). lia.
    + exists m, hv. split; [done|]. split; [done|]. split; [lia|done].
  - exists (fun k' => if decide (k' = k) then None else m k'), hv.
    split; [by apply cache_erase|]. split; [done|]. split; [lia|]. intros k' v'. destruct (decide _); [done|]. apply Hm.
Qed.

Lemma run_ops_inv ops s spec n :
  client_inv s spec n -> n + zlen ops <= limit -> Forall op_ok ops ->
  client_inv (fold_left run_op ops s) (fold_left spec_op ops spec) (n + zlen ops).
Proof.
  revert s spec n. induction ops as [|op ops IH]; intros s spec n Hi Hn Hok; cbn [fold_left length] in *.
  - by rewrite Z.add_0_r.
  - apply list.Forall_cons in Hok as [Ho Hok]. replace (n + Z.of_nat (S (length ops))) with (n + 1 + zlen ops) by lia.
    apply IH; [|lia|done]. apply run_op_inv; [done|lia|done].
Qed.

Lemma client_lookup s spec n k :
  client_inv s spec n ->
  match cache_Lookup C (fst s) k with
  | (st', Some h) => cache_Value C st' h = spec k /\ spec k <> None
  | (_, None) => True
  end.
Proof.
  intros (m & hv & Hr & _ & _ & Hm). pose proof (cache_lookup (fst s) m hv k Hr) as H.
  destruct (cache_Lookup C (fst s) k) as [st' [h|]]; [|done]. destruct H as (v & Hk & Hr').
  rewrite (cache_value st' m ((h, v) :: hv) h v Hr') by left. by rewrite (Hm k v Hk).
Qed.
End Client.

(** ** Properties *)

(** C33: the cache never answers with a stale value: after any sequence of
    insertions, lookups, releases and erasures, a lookup that finds a handle
    finds the value its key was last given, and finds none for a key erased
    since; for every capacity, and with the lookups counted or not. *)
Theorem lru_cache_never_stale (V : Type) (capacity : Z) (ops : list (cache_op (V:=V))) (k : bytes) :
  0 <= capacity < 2 ^ 31 - 2 -> Forall op_ok ops -> zlen ops < 2 ^ 31 - 2 ->
  let C := NewLRUCacheWithStatistics (V:=V) in
  match cache_Lookup C (fst (run_ops C (mkStat (C:=NewLRUCache) (SharedLRUCache_new capacity) 0 0) ops)) k with
  | (st, Some h) => cache_Value C st h = last_value ops k /\ last_value ops k <> None
  | (_, None) => True
  end.
Proof.
  intros Hc Hok Hn C. unfold run_ops, last_value.
  set (limit := 2 ^ 31 - 2) in *. assert (limit < 2 ^ 31 - 1) as Hl by (unfold limit; lia).
  pose proof (shared_cache_laws (V:=V) limit Hl) as HL.
  pose proof (statistics_cache_laws (V:=V) NewLRUCache limit _) as HS.
  apply (client_lookup C limit (fun st => shared_rep limit (target_ st)) _ _ (0 + zlen ops)).
  apply (run_ops_inv C limit (fun st => shared_rep limit (target_ st))); [|lia|done].
  exists (fun _ => None), []. split; [|done]. apply shared_new_rep; [done|lia].
Qed.

Lemma lru_cache_never_stale_witness :
  let ops := [OpInsert [Byte.x61; Byte.x62] 1%nat 10; OpInsert [Byte.x63] 2%nat 10; OpInsert [Byte.x61; Byte.x62] 3%nat 10; OpRelease 0; OpErase [Byte.x63]] in
  let C := NewLRUCacheWithStatistics (V:=nat) in
  (match cache_Lookup C (fst (run_ops C (mkStat (C:=NewLRUCache) (SharedLRUCache_new 1000) 0 0) ops)) [Byte.x61; Byte.x62] with
   | (st, Some h) => cache_Value C st h = last_value ops [Byte.x61; Byte.x62] /\ last_value ops [Byte.x61; Byte.x62] <> None
   | (_, None) => True
   end) /\ last_value ops [Byte.x61; Byte.x62] = Some 3%nat /\
  snd (cache_Lookup C (fst (run_ops C (mkStat (C:=NewLRUCache) (SharedLRUCache_new 1000) 0 0) ops)) [Byte.x61; Byte.x62]) <> None.
Proof.
  cbn zeta. split; [|split].
  - apply lru_cache_never_stale; [lia| |done]. repeat constructor; lia.
  - vm_compute. reflexivity.
  - vm_compute. discriminate.
Defined.

(** C39: what an insertion into a shard leaves charged fits the capacity,
    unless everything left is in use, and then it is at most the charge of the
    handles that users hold. *)
Theorem lru_insert_bounded (V : Type) (hashfn : bytes -> Z) (limit : Z) (c : LRUCache (V:=V)) m hv k v charge :
  limit < 2 ^ 31 - 1 -> shard_rep hashfn limit (fun _ => True) c m hv -> 1 <= charge < 2 ^ 32 -> zlen hv < limit ->
  let '(c', id) := LRU_Insert c k (hashfn k) v charge in
  usage_ c' <= Z.max (capacity_ c) (charges (heap_ c') (remove_dups (id :: map fst hv))).
Proof.
  intros Hl Hr Hch Hlen. pose proof (LRU_Insert_rep hashfn limit Hl _ c m hv k v charge Hr I Hch Hlen) as H.
  destruct (LRU_Insert c k (hashfn k) v charge) as [c' id]. destruct H as (m' & Hr' & _ & Hcap & He).
  pose proof (sr_ok _ _ _ _ _ _ Hr') as [Hs Ht Hn]. rewrite Hcap in He. destruct He as [He|He]; [lia|].
  etransitivity; [|apply Z.le_max_r]. rewrite (so_usage _ _ _ _ Hs). eapply charges_in_use; [exact Hs|apply Hs|].
  intros x Hx. apply elem_of_remove_dups. eapply (all_held hashfn); [apply Hr'|done|done].
Qed.

Lemma lru_insert_bounded_witness :
  let c := LRUCache_new (V:=nat) 100 in
  (let '(c', id) := LRU_Insert c [Byte.x61] (HashSlice [Byte.x61]) 7%nat 250 in
   usage_ c' <= Z.max (capacity_ c) (charges (heap_ c') (remove_dups (id :: map fst (@nil (nat * nat)))))) /\
  usage_ (fst (LRU_Insert c [Byte.x61] (HashSlice [Byte.x61]) 7%nat 250)) = 250.
Proof.
  cbn zeta. split.
  - apply (lru_insert_bounded nat HashSlice 1000 (LRUCache_new 100) (fun _ => None) [] [Byte.x61] 7%nat 250); [done| |lia|done].
    by apply new_shard_rep.
  - vm_compute. reflexivity.
Defined.
