(* ===== verification/DbFormat.v ===== *)
(** * Internal keys

    src/db/dbformat.h and src/db/dbformat.cc: a user key followed by an
    eight-byte tag holding a 56-bit sequence number and a value type.  The
    internal order is the user order with newer (larger) tags first. *)

From S2P Require Import Prelude Slice Coding Comparator Hash.

(** ** Constants ([namespace config]) *)

Definition kNumLevels : nat := 7.
Definition kL0_CompactionTrigger : Z := 4.
Definition kL0_SlowdownWritesTrigger : Z := 8.
Definition kL0_StopWritesTrigger : Z := 12.
Definition kMaxMemCompactLevel : nat := 2.
Definition kReadBytesPeriod : Z := 1048576.

Inductive ValueType := kTypeDeletion | kTypeValue.

#[global] Instance ValueType_eq_dec : EqDecision ValueType.
Proof. solve_decision. Defined.

Definition type_to_Z (t : ValueType) : Z :=
  match t with kTypeDeletion => 0 | kTypeValue => 1 end.

(** [static_cast<ValueType>(c)] where the code then checks the range. *)
Definition type_of_Z (c : Z) : option ValueType :=
  if c =? 0 then Some kTypeDeletion else if c =? 1 then Some kTypeValue else None.

Definition kValueTypeForSeek : ValueType := kTypeValue.
Definition kMaxSequenceNumber : Z := Z.shiftl 1 56 - 1.

(** ** Internal keys *)

Record ParsedInternalKey := mkParsed {
  user_key : bytes; sequence : Z; type : ValueType }.

(** [PackSequenceAndType] *)
Definition PackSequenceAndType (seq : Z) (t : ValueType) : Z :=
  Z.lor (u64 (Z.shiftl seq 8)) (type_to_Z t).

Definition InternalKeyEncodingLength (key : ParsedInternalKey) : Z :=
  zlen (user_key key) + 8.

Definition AppendInternalKey (result : bytes) (key : ParsedInternalKey) : bytes :=
  PutFixed64 (result ++ user_key key) (PackSequenceAndType (sequence key) (type key)).

(** [InternalKey(user_key, s, t)]: its [rep_]. *)
Definition InternalKey (u : bytes) (s : Z) (t : ValueType) : bytes :=
  AppendInternalKey [] (mkParsed u s t).

(** [InternalKey::DecodeFrom]: the copied [rep_] and the result. *)
Definition InternalKey_DecodeFrom (s : bytes) : bytes * bool :=
  (s, negb (match s with [] => true | _ => false end)).

(** [ExtractUserKey]; its assertion is [internal_key.size() >= 8]. *)
Definition ExtractUserKey (internal_key : bytes) : bytes :=
  take (length internal_key - 8) internal_key.

(** The tag at [data() + size() - 8]. *)
Definition ExtractTag (internal_key : bytes) : Z :=
  DecodeFixed64 (drop (length internal_key - 8) internal_key).

(** [ParseInternalKey]; [None] is the [false] result. *)
Definition ParseInternalKey (internal_key : bytes) : option ParsedInternalKey :=
  let n := zlen internal_key in
  if n <? 8 then None
  else
    let num := ExtractTag internal_key in
    let c := Z.land num 255 in
    match type_of_Z c with
    | Some t => Some (mkParsed (ExtractUserKey internal_key) (Z.shiftr num 8) t)
    | None => None
    end.

(** ** The internal key comparator *)

Module InternalKeyComparator.
Section WithUser.
Context (user_comparator_ : Comparator).

(** [InternalKeyComparator::Compare] *)
Definition Compare (akey bkey : bytes) : comparison :=
  match Comparator.Compare user_comparator_
          (ExtractUserKey akey) (ExtractUserKey bkey) with
  | Eq =>
      let anum := ExtractTag akey in
      let bnum := ExtractTag bkey in
      if anum >? bnum then Lt else if anum <? bnum then Gt else Eq
  | r => r
  end.

(** [InternalKeyComparator::FindShortestSeparator]: the second test is the
    truth value of [Compare], not a comparison with zero. *)
Definition FindShortestSeparator (start limit : bytes) : bytes :=
  let user_start := ExtractUserKey start in
  let user_limit := ExtractUserKey limit in
  let tmp := Comparator.FindShortestSeparator user_comparator_ user_start user_limit in
  if (zlen tmp <? zlen user_start) &&
     match Comparator.Compare user_comparator_ user_start tmp with
     | Eq => false | _ => true end
  then PutFixed64 tmp (PackSequenceAndType kMaxSequenceNumber kValueTypeForSeek)
  else start.

(** [InternalKeyComparator::FindShortSuccessor] *)
Definition FindShortSuccessor (key : bytes) : bytes :=
  let ukey := ExtractUserKey key in
  let tmp := Comparator.FindShortSuccessor user_comparator_ ukey in
  if (zlen tmp <? zlen ukey) &&
     match Comparator.Compare user_comparator_ ukey tmp with
     | Lt => true | _ => false end
  then PutFixed64 tmp (PackSequenceAndType kMaxSequenceNumber kValueTypeForSeek)
  else key.
End WithUser.

Definition make (ucmp : Comparator) : Comparator :=
  mkComparator (Compare ucmp) (str:"rocketdb.InternalKeyComparator")
    (FindShortestSeparator ucmp) (FindShortSuccessor ucmp).
End InternalKeyComparator.

(** ** Internal filter policy *)

(** [InternalFilterPolicy]: filters are built from and asked for user keys. *)
Definition InternalFilterPolicy (p : FilterPolicy) : FilterPolicy :=
  mkFilterPolicy (FilterPolicy_Name p)
    (fun keys dst => CreateFilter p (map ExtractUserKey keys) dst)
    (fun key f => KeyMayMatch p (ExtractUserKey key) f).

(** ** Lookup keys *)

(** The buffer of a [LookupKey] and the offset [kstart_ - start_]. *)
Record LookupKey := mkLookupKey { lk_space : bytes; lk_kstart : nat }.

(** [LookupKey::LookupKey] *)
Definition LookupKey_new (ukey : bytes) (s : Z) : LookupKey :=
  let usize := zlen ukey in
  let prefix := EncodeVarint32 (u32 (usize + 8)) in
  mkLookupKey
    (prefix ++ ukey ++ EncodeFixed64 (PackSequenceAndType s kValueTypeForSeek))
    (length prefix).

Definition memtable_key (k : LookupKey) : bytes := lk_space k.
Definition lk_internal_key (k : LookupKey) : bytes := drop (lk_kstart k) (lk_space k).
Definition lk_user_key (k : LookupKey) : bytes :=
  take (length (lk_space k) - lk_kstart k - 8) (drop (lk_kstart k) (lk_space k)).

(** ** Lemmas *)

Lemma type_to_of_Z t : type_of_Z (type_to_Z t) = Some t.
Proof. by destruct t. Qed.

Lemma Pack_value seq t :
  0 <= seq <= kMaxSequenceNumber -> PackSequenceAndType seq t = seq * 256 + type_to_Z t.
Proof.
  intros Hs. unfold PackSequenceAndType. change kMaxSequenceNumber with (2 ^ 56 - 1) in Hs.
  rewrite u64_small by (rewrite Z.shiftl_mul_pow2 by lia; lia).
  rewrite Z.lor_comm, lor_shiftl_add by (destruct t; cbn; lia).
  change (2 ^ 8) with 256. lia.
Qed.

Lemma Pack_range seq t :
  0 <= seq <= kMaxSequenceNumber -> 0 <= PackSequenceAndType seq t < 2 ^ 64.
Proof.
  intros Hs. rewrite Pack_value by done.
  change kMaxSequenceNumber with (2 ^ 56 - 1) in Hs. destruct t; cbn; lia.
Qed.

Lemma InternalKey_app u s t :
  InternalKey u s t = u ++ EncodeFixed64 (PackSequenceAndType s t).
Proof. reflexivity. Qed.

Lemma length_InternalKey u s t : length (InternalKey u s t) = (length u + 8)%nat.
Proof. rewrite InternalKey_app. by rewrite length_app. Qed.
#[export] Hint Rewrite length_InternalKey : len.

Lemma ExtractUserKey_app u tag :
  length tag = 8%nat -> ExtractUserKey (u ++ tag) = u.
Proof.
  intros H. unfold ExtractUserKey. rewrite length_app, H, Nat.add_sub.
  apply take_app_length.
Qed.

Lemma ExtractTag_app u tag :
  length tag = 8%nat -> ExtractTag (u ++ tag) = DecodeFixed64 tag.
Proof.
  intros H. unfold ExtractTag. rewrite length_app, H, Nat.add_sub.
  by rewrite drop_app_length.
Qed.

Lemma ExtractUserKey_InternalKey u s t : ExtractUserKey (InternalKey u s t) = u.
Proof. by apply ExtractUserKey_app. Qed.

Lemma ExtractTag_InternalKey u s t :
  0 <= s <= kMaxSequenceNumber ->
  ExtractTag (InternalKey u s t) = PackSequenceAndType s t.
Proof.
  intros Hs. rewrite InternalKey_app, ExtractTag_app by done.
  rewrite <- (app_nil_r (EncodeFixed64 _)).
  apply Fixed64_roundtrip. by apply Pack_range.
Qed.

Lemma Pack_land seq t :
  0 <= seq <= kMaxSequenceNumber ->
  Z.land (PackSequenceAndType seq t) 255 = type_to_Z t.
Proof.
  intros Hs. rewrite land255, Pack_value by done.
  rewrite Z.add_comm, Z.mod_add by lia. by destruct t.
Qed.

Lemma Pack_shiftr seq t :
  0 <= seq <= kMaxSequenceNumber -> Z.shiftr (PackSequenceAndType seq t) 8 = seq.
Proof.
  intros Hs. rewrite Z.shiftr_div_pow2, Pack_value by (done || lia).
  change (2 ^ 8) with 256. rewrite Z.add_comm, Z.div_add by lia.
  destruct t; reflexivity.
Qed.

(** An internal key and its parsed form. *)
Lemma ParseInternalKey_InternalKey u s t :
  0 <= s <= kMaxSequenceNumber ->
  ParseInternalKey (InternalKey u s t) = Some (mkParsed u s t).
Proof.
  intros Hs. unfold ParseInternalKey. rewrite length_InternalKey.
  rewrite (proj2 (Z.ltb_ge _ 8)) by lia.
  rewrite ExtractTag_InternalKey, ExtractUserKey_InternalKey by done.
  by rewrite Pack_land, Pack_shiftr, type_to_of_Z by done.
Qed.

Lemma type_of_Z_inv c t : type_of_Z c = Some t -> c = type_to_Z t.
Proof. unfold type_of_Z. repeat case_test; naive_solver. Qed.

Lemma split_internal_key k :
  (8 <= length k)%nat -> k = ExtractUserKey k ++ EncodeFixed64 (ExtractTag k).
Proof.
  intros H. unfold ExtractUserKey, ExtractTag.
  rewrite EncodeFixed64_Decode by lenlia.
  rewrite (take_ge (drop _ _)) by lenlia. by rewrite take_drop.
Qed.

(** Parsing accepts exactly the encodings of keys with a 56-bit sequence. *)
Lemma ParseInternalKey_inv k p :
  ParseInternalKey k = Some p ->
  0 <= sequence p <= kMaxSequenceNumber /\
  k = InternalKey (user_key p) (sequence p) (type p).
Proof.
  unfold ParseInternalKey. case_test; [done|].
  destruct (type_of_Z _) as [t|] eqn:T; [|done]. injection 1 as <-. cbn [user_key sequence type].
  apply type_of_Z_inv in T. rewrite land255 in T.
  assert (0 <= ExtractTag k < 2 ^ 64) as Hr
    by (apply DecodeFixed64_range; lenlia).
  assert (0 <= Z.shiftr (ExtractTag k) 8 <= kMaxSequenceNumber) as Hs.
  { change kMaxSequenceNumber with (2 ^ 56 - 1). rewrite Z.shiftr_div_pow2 by lia.
    split; [apply Z.div_pos; lia|]. apply Z.lt_le_pred.
    apply Z.div_lt_upper_bound; lia. }
  split; [done|]. rewrite InternalKey_app, Pack_value, <- T by done.
  rewrite Z.shiftr_div_pow2 by lia. change (2 ^ 8) with 256.
  rewrite (Z.mul_comm _ 256), <- Z.div_mod by lia. apply split_internal_key. lia.
Qed.

(** ** The internal order *)

Definition tag_compare (a b : Z) : comparison := b ?= a.

Lemma tag_compare_code anum bnum :
  (if anum >? bnum then Lt else if anum <? bnum then Gt else Eq) =
  tag_compare anum bnum.
Proof.
  unfold tag_compare. destruct (Z.compare_spec bnum anum);
    rewrite ?(proj2 (Z.gtb_lt _ _)) by lia; try done;
    rewrite Z.gtb_ltb; repeat case_test; lia || done.
Qed.

Lemma icmp_unfold ucmp a b :
  InternalKeyComparator.Compare ucmp a b =
  match Compare ucmp (ExtractUserKey a) (ExtractUserKey b) with
  | Eq => tag_compare (ExtractTag a) (ExtractTag b) | r => r end.
Proof.
  unfold InternalKeyComparator.Compare. cbn zeta. by rewrite tag_compare_code.
Qed.

Section Laws.
Context (ucmp : Comparator) `{!ComparatorLaws ucmp}.
Abbreviation icmp := (InternalKeyComparator.Compare ucmp).
Abbreviation cmp := (Compare ucmp).

#[export] Instance icmp_laws : OrderLaws icmp.
Proof.
  split.
  - intros x y. rewrite !icmp_unfold, (cmp_antisym cmp (ExtractUserKey x)).
    destruct (cmp _ _); cbn; try done. unfold tag_compare.
    apply Z.compare_antisym.
  - intros x y z. rewrite !icmp_unfold. intros Hxy Hyz.
    destruct (cmp (ExtractUserKey x) (ExtractUserKey y)) eqn:E1; [| |done].
    + rewrite (cmp_eq_l cmp _ _ _ E1).
      destruct (cmp (ExtractUserKey y) (ExtractUserKey z)); try done.
      unfold tag_compare in *. rewrite !Z.compare_ngt_iff in *. lia.
    + rewrite (cmp_lt_le_trans cmp _ (ExtractUserKey y)); [done|done|].
      by destruct (cmp (ExtractUserKey y) (ExtractUserKey z)).
Qed.

(** User order first. *)
Lemma icmp_user_lt a b :
  cmp (ExtractUserKey a) (ExtractUserKey b) = Lt -> icmp a b = Lt.
Proof. intros H. by rewrite icmp_unfold, H. Qed.

Lemma icmp_lt_user a b :
  icmp a b = Lt -> cmp (ExtractUserKey a) (ExtractUserKey b) <> Gt.
Proof. rewrite icmp_unfold. by destruct (cmp _ _). Qed.

Lemma icmp_le_user a b :
  icmp a b <> Gt -> cmp (ExtractUserKey a) (ExtractUserKey b) <> Gt.
Proof. rewrite icmp_unfold. by destruct (cmp _ _). Qed.

(** For one user key, a newer entry sorts first. *)
Lemma icmp_same_user u s1 t1 s2 t2 :
  0 <= s1 <= kMaxSequenceNumber -> 0 <= s2 <= kMaxSequenceNumber ->
  icmp (InternalKey u s1 t1) (InternalKey u s2 t2) =
  (s2 * 256 + type_to_Z t2 ?= s1 * 256 + type_to_Z t1).
Proof.
  intros H1 H2. rewrite icmp_unfold, !ExtractUserKey_InternalKey, (cmp_refl cmp).
  rewrite !ExtractTag_InternalKey, !Pack_value by done. done.
Qed.

Lemma PutFixed64_InternalKey tmp :
  PutFixed64 tmp (PackSequenceAndType kMaxSequenceNumber kValueTypeForSeek) =
  InternalKey tmp kMaxSequenceNumber kValueTypeForSeek.
Proof. reflexivity. Qed.

(** The separator of internal keys stays between [start] and [limit]: when
    the user separator is shorter it is strictly above [start]'s user key. *)
Lemma icmp_separator start limit :
  icmp start limit = Lt ->
  icmp start (InternalKeyComparator.FindShortestSeparator ucmp start limit) <> Gt /\
  icmp (InternalKeyComparator.FindShortestSeparator ucmp start limit) limit = Lt.
Proof.
  intros Hlt. unfold InternalKeyComparator.FindShortestSeparator.
  set (tmp := FindShortestSeparator _ _ _).
  destruct (zlen tmp <? zlen (ExtractUserKey start)) eqn:L; boolprop; cbn [andb].
  2:{ by rewrite (cmp_refl icmp). }
  destruct (cmp (ExtractUserKey start) (ExtractUserKey limit)) eqn:E.
  - exfalso. subst tmp. rewrite separator_id in L; [lia|by rewrite E].
  - pose proof (separator_ge _ _ E) as G1. pose proof (separator_lt _ _ E) as G2.
    fold tmp in G1, G2.
    destruct (cmp (ExtractUserKey start) tmp) eqn:F; cbn; [|..];
      [by rewrite (cmp_refl icmp)| |done].
    rewrite PutFixed64_InternalKey. split.
    + rewrite icmp_user_lt; [done|]. by rewrite ExtractUserKey_InternalKey.
    + apply icmp_user_lt. by rewrite ExtractUserKey_InternalKey.
  - exfalso. apply icmp_lt_user in Hlt. by rewrite E in Hlt.
Qed.

Lemma icmp_separator_id start limit :
  icmp start limit <> Lt ->
  InternalKeyComparator.FindShortestSeparator ucmp start limit = start.
Proof.
  intros H. unfold InternalKeyComparator.FindShortestSeparator.
  rewrite separator_id; [by rewrite Z.ltb_irrefl|].
  intros E. apply H. by apply icmp_user_lt.
Qed.

Lemma icmp_successor key :
  icmp key (InternalKeyComparator.FindShortSuccessor ucmp key) <> Gt.
Proof.
  unfold InternalKeyComparator.FindShortSuccessor.
  set (tmp := FindShortSuccessor _ _).
  destruct (zlen tmp <? _); cbn [andb]; [|by rewrite (cmp_refl icmp)].
  destruct (cmp (ExtractUserKey key) tmp) eqn:F; cbn;
    [by rewrite (cmp_refl icmp)| |by rewrite (cmp_refl icmp)].
  rewrite PutFixed64_InternalKey, icmp_user_lt; [done|].
  by rewrite ExtractUserKey_InternalKey.
Qed.

(** The internal comparator implements the comparator contract whenever its
    user comparator does. *)
#[export] Instance internal_comparator_laws :
  ComparatorLaws (InternalKeyComparator.make ucmp).
Proof.
  split.
  - apply icmp_laws.
  - intros s l H. by apply icmp_separator in H as [H _].
  - intros s l H. by apply icmp_separator in H as [_ H].
  - intros s l. apply icmp_separator_id.
  - apply icmp_successor.
Qed.

(** [DBImpl::Get] and friends seek to [(user_key, snapshot, kValueTypeForSeek)]:
    the entries of [user_key] at or after that position are exactly those
    with a sequence number within the snapshot. *)
Lemma icmp_lookup u s s' t :
  0 <= s <= kMaxSequenceNumber -> 0 <= s' <= kMaxSequenceNumber ->
  icmp (InternalKey u s kValueTypeForSeek) (InternalKey u s' t) <> Gt <-> s' <= s.
Proof.
  intros Hs Hs'. rewrite icmp_same_user, Z.compare_ngt_iff by done.
  destruct t; cbn; lia.
Qed.
End Laws.

(** The filter contract carries over to internal keys. *)
#[export] Instance internal_filter_laws okk p :
  FilterPolicyLaws okk p ->
  FilterPolicyLaws (fun keys => okk (map ExtractUserKey keys)) (InternalFilterPolicy p).
Proof.
  intros [Happ Hc]. split; cbn.
  - intros keys dst. apply Happ.
  - intros keys key Hok Hin. apply Hc; [done|]. by apply in_map.
Qed.

(** ** Lookup keys *)

Lemma lk_internal_key_new u s :
  lk_internal_key (LookupKey_new u s) = InternalKey u s kValueTypeForSeek.
Proof.
  unfold lk_internal_key, LookupKey_new; cbn [lk_space lk_kstart].
  by rewrite drop_app_length.
Qed.

Lemma lk_user_key_new u s : lk_user_key (LookupKey_new u s) = u.
Proof.
  unfold lk_user_key, LookupKey_new; cbn [lk_space lk_kstart].
  rewrite drop_app_length, !length_app, length_EncodeFixed64.
  apply take_app_length'. lia.
Qed.

Lemma memtable_key_new u s :
  zlen u + 8 < 2 ^ 32 ->
  memtable_key (LookupKey_new u s) =
  PutLengthPrefixedSlice [] (InternalKey u s kValueTypeForSeek).
Proof.
  intros H. unfold memtable_key, LookupKey_new, PutLengthPrefixedSlice, PutVarint32.
  cbn [lk_space app]. rewrite length_InternalKey.
  by replace (Z.of_nat (length u + 8)) with (zlen u + 8) by lia.
Qed.

(** ** Internal separators *)

Lemma length_ExtractUserKey k : length (ExtractUserKey k) = (length k - 8)%nat.
Proof. unfold ExtractUserKey. rewrite length_take. lia. Qed.

#[export] Instance internal_shortening ucmp : Shortening (InternalKeyComparator.make ucmp).
Proof.
  split; cbn.
  - intros start limit. unfold InternalKeyComparator.FindShortestSeparator. case_test; [|done].
    unfold PutFixed64. rewrite length_app, length_EncodeFixed64.
    pose proof (length_ExtractUserKey start). lia.
  - intros key. unfold InternalKeyComparator.FindShortSuccessor. case_test; [|done].
    unfold PutFixed64. rewrite length_app, length_EncodeFixed64.
    pose proof (length_ExtractUserKey key). lia.
Qed.

(** A key that falls behind a block but not behind its separator has another
    user key than the keys of the next block. *)
Lemma internal_separator_gap ucmp `{!ComparatorLaws ucmp} s l k :
  let c := InternalKeyComparator.make ucmp in
  Comparator.Compare c s l = Lt -> Comparator.Compare c s k = Lt ->
  Comparator.Compare c k (Comparator.FindShortestSeparator c s l) <> Gt ->
  Comparator.Compare ucmp (ExtractUserKey k) (ExtractUserKey l) <> Eq.
Proof.
  cbn. unfold InternalKeyComparator.FindShortestSeparator. intros Hsl Hsk Hk.
  set (us := ExtractUserKey s) in *. set (ul := ExtractUserKey l) in *.
  set (tmp := Comparator.FindShortestSeparator ucmp us ul) in *.
  destruct (_ && _) eqn:E; boolprop.
  - assert (Comparator.Compare ucmp us ul = Lt) as Hul.
    { destruct (Comparator.Compare ucmp us ul) eqn:Eu; [|done|];
        assert (tmp = us) as Et by (apply separator_id; congruence); rewrite Et in *; lia. }
    pose proof (separator_lt us ul Hul) as Hlt. fold tmp in Hlt.
    rewrite PutFixed64_InternalKey in Hk. apply icmp_le_user in Hk.
    rewrite ExtractUserKey_InternalKey in Hk.
    pose proof (cmp_le_lt_trans (Comparator.Compare ucmp) _ _ _ Hk Hlt) as Hx. congruence.
  - apply (cmp_le_ge (InternalKeyComparator.Compare ucmp)) in Hk. congruence.
Qed.
