(* ===== verification/WriteBatch.v ===== *)
(** * Write batches

    src/db/write_batch.cc, with include/write_batch.h and
    src/db/write_batch_internal.h.  A batch is its [rep_] string: an eight
    byte sequence number, a four byte count and the records.  [Iterate] is the
    sequence of handler calls it makes, in order, and its status: a corrupt
    batch still delivers the records before the corruption.

    [batch_rep] is the abstraction: a sequence number and a list of
    operations.  Every operation of the class is a refinement of the obvious
    one on that pair. *)

From S2P Require Import Prelude Slice Coding DbFormat.

(** ** Definitions *)

Definition kHeader : nat := 12.

(** A call of [WriteBatch::Handler]. *)
Inductive BatchOp :=
  | OpPut (key value : bytes)
  | OpDelete (key : bytes).

(** [EncodeFixedNN(&rep_[off], v)] overwrites bytes in place. *)
Definition poke (rep : bytes) (off : nat) (bs : bytes) : bytes :=
  take off rep ++ bs ++ drop (off + length bs) rep.

(** [WriteBatch::Clear] *)
Definition WriteBatch_Clear : bytes := replicate kHeader Byte.x00.

(** [WriteBatchInternal::Count]: a [uint32_t] returned as [int]. *)
Definition Count (rep : bytes) : Z := s32 (DecodeFixed32 (drop 8 rep)).

Definition SetCount (rep : bytes) (n : Z) : bytes := poke rep 8 (EncodeFixed32 (u32 n)).

Definition Sequence (rep : bytes) : Z := DecodeFixed64 rep.

Definition SetSequence (rep : bytes) (seq : Z) : bytes := poke rep 0 (EncodeFixed64 seq).

(** [WriteBatch::Put] *)
Definition WriteBatch_Put (rep key value : bytes) : bytes :=
  let rep := SetCount rep (Count rep + 1) in
  let rep := rep ++ [byte.of_Z (type_to_Z kTypeValue)] in
  let rep := PutLengthPrefixedSlice rep key in
  PutLengthPrefixedSlice rep value.

(** [WriteBatch::Delete] *)
Definition WriteBatch_Delete (rep key : bytes) : bytes :=
  let rep := SetCount rep (Count rep + 1) in
  let rep := rep ++ [byte.of_Z (type_to_Z kTypeDeletion)] in
  PutLengthPrefixedSlice rep key.

(** [WriteBatchInternal::Append]; its assertion is [src] at least a header. *)
Definition WriteBatch_Append (dst src : bytes) : bytes :=
  SetCount dst (Count dst + Count src) ++ drop kHeader src.

(** [WriteBatchInternal::SetContents]; [None] is the failed assertion. *)
Definition SetContents (contents : bytes) : option bytes :=
  if (kHeader <=? length contents)%nat then Some contents else None.

(** The [while (!input.empty())] loop of [Iterate]: the handler calls, the
    error that stopped it if any, and [found].  Every round consumes at least
    the tag byte, so the input length bounds the rounds. *)
Fixpoint Iterate_loop (fuel : nat) (input : bytes) (found : Z)
    : list BatchOp * option Status * Z :=
  match fuel, input with
  | S fuel', tag :: input' =>
      let found := found + 1 in
      if byte.unsigned tag =? type_to_Z kTypeValue then
        match GetLengthPrefixedSlice input' with
        | Some (key, input'') =>
            match GetLengthPrefixedSlice input'' with
            | Some (value, rest) =>
                let '(calls, err, n) := Iterate_loop fuel' rest found in
                (OpPut key value :: calls, err, n)
            | None => ([], Some (Corruption (str:"bad WriteBatch Put")), found)
            end
        | None => ([], Some (Corruption (str:"bad WriteBatch Put")), found)
        end
      else if byte.unsigned tag =? type_to_Z kTypeDeletion then
        match GetLengthPrefixedSlice input' with
        | Some (key, rest) =>
            let '(calls, err, n) := Iterate_loop fuel' rest found in
            (OpDelete key :: calls, err, n)
        | None => ([], Some (Corruption (str:"bad WriteBatch Delete")), found)
        end
      else ([], Some (Corruption (str:"unknow WriteBatch tag")), found)
  | _, _ => ([], None, found)
  end.

(** [WriteBatch::Iterate] *)
Definition Iterate (rep : bytes) : list BatchOp * Status :=
  if (length rep <? kHeader)%nat then
    ([], Corruption (str:"malformed WriteBatch (too small)"))
  else
    let input := drop kHeader rep in
    let '(calls, err, found) := Iterate_loop (length input) input 0 in
    match err with
    | Some s => (calls, s)
    | None =>
        if found =? Count rep then (calls, Status_OK)
        else (calls, Corruption (str:"WriteBatch has woring count"))
    end.

Section InsertInto.
(** The memory table: [MemTable::Add]. *)
Context {MemTable : Type}.
Context (Add : Z -> ValueType -> bytes -> bytes -> MemTable -> MemTable).

(** [MemTableInserter]: the table and [sequence_], a [uint64_t]. *)
Definition MemTableInserter (st : Z * MemTable) (op : BatchOp) : Z * MemTable :=
  let '(sequence_, mem) := st in
  match op with
  | OpPut key value => (u64 (sequence_ + 1), Add sequence_ kTypeValue key value mem)
  | OpDelete key => (u64 (sequence_ + 1), Add sequence_ kTypeDeletion key [] mem)
  end.

(** [WriteBatchInternal::InsertInto] *)
Definition InsertInto (rep : bytes) (mem : MemTable) : MemTable * Status :=
  let '(calls, s) := Iterate rep in
  (snd (fold_left MemTableInserter calls (Sequence rep, mem)), s).
End InsertInto.

(** ** The abstraction *)

(** The record format in the comment at the top of the source file. *)
Definition op_bytes (op : BatchOp) : bytes :=
  match op with
  | OpPut key value =>
      byte.of_Z (type_to_Z kTypeValue) ::
        PutLengthPrefixedSlice [] key ++ PutLengthPrefixedSlice [] value
  | OpDelete key =>
      byte.of_Z (type_to_Z kTypeDeletion) :: PutLengthPrefixedSlice [] key
  end.

Definition ops_bytes (ops : list BatchOp) : bytes := concat (map op_bytes ops).

(** Keys and values whose size fits the 32-bit length prefix. *)
Definition op_ok (op : BatchOp) : Prop :=
  match op with
  | OpPut key value => zlen key < 2 ^ 32 /\ zlen value < 2 ^ 32
  | OpDelete key => zlen key < 2 ^ 32
  end.

Definition batch_rep (seq : Z) (ops : list BatchOp) : bytes :=
  EncodeFixed64 seq ++ EncodeFixed32 (zlen ops) ++ ops_bytes ops.

(** ** Lemmas *)

Lemma ops_bytes_app a b : ops_bytes (a ++ b) = ops_bytes a ++ ops_bytes b.
Proof. unfold ops_bytes. by rewrite map_app, concat_app. Qed.

Lemma ops_bytes_one op : ops_bytes [op] = op_bytes op.
Proof. apply app_nil_r. Qed.

Lemma length_op_bytes op : (0 < length (op_bytes op))%nat.
Proof. destruct op; cbn; lia. Qed.

Lemma Clear_rep : WriteBatch_Clear = batch_rep 0 [].
Proof. reflexivity. Qed.

Lemma poke_count seq n n' rest :
  poke (EncodeFixed64 seq ++ EncodeFixed32 n ++ rest) 8 (EncodeFixed32 n') =
  EncodeFixed64 seq ++ EncodeFixed32 n' ++ rest.
Proof. reflexivity. Qed.

Lemma poke_sequence seq seq' rest :
  poke (EncodeFixed64 seq ++ rest) 0 (EncodeFixed64 seq') = EncodeFixed64 seq' ++ rest.
Proof. reflexivity. Qed.

Lemma Count_rep seq ops : zlen ops < 2 ^ 31 -> Count (batch_rep seq ops) = zlen ops.
Proof.
  intros H. unfold Count, batch_rep.
  rewrite (drop_app_length' (EncodeFixed64 seq)) by done.
  rewrite Fixed32_roundtrip by lia. apply s32_small. lia.
Qed.

Lemma Sequence_rep seq ops : 0 <= seq < 2 ^ 64 -> Sequence (batch_rep seq ops) = seq.
Proof. intros H. by apply Fixed64_roundtrip. Qed.

Lemma SetSequence_rep seq seq' ops :
  SetSequence (batch_rep seq ops) seq' = batch_rep seq' ops.
Proof. apply poke_sequence. Qed.

Lemma length_batch_rep seq ops :
  length (batch_rep seq ops) = (12 + length (ops_bytes ops))%nat.
Proof. unfold batch_rep. lenlia. Qed.

(** Adding a record at the end, through the count update the code makes. *)
Lemma SetCount_snoc seq ops op :
  zlen ops + 1 < 2 ^ 31 ->
  SetCount (batch_rep seq ops) (Count (batch_rep seq ops) + 1) ++ op_bytes op =
  batch_rep seq (ops ++ [op]).
Proof.
  intros H. rewrite Count_rep by lia. unfold SetCount. rewrite u32_small by lia.
  unfold batch_rep. rewrite poke_count, <- !app_assoc, ops_bytes_app, ops_bytes_one.
  do 3 f_equal. rewrite length_app. cbn. lia.
Qed.

Lemma Put_rep seq ops key value :
  zlen ops + 1 < 2 ^ 31 ->
  WriteBatch_Put (batch_rep seq ops) key value = batch_rep seq (ops ++ [OpPut key value]).
Proof.
  intros H. unfold WriteBatch_Put.
  rewrite <- SetCount_snoc by done.
  rewrite PutLengthPrefixedSlice_app, (PutLengthPrefixedSlice_app (_ ++ _) key).
  by rewrite <- !app_assoc.
Qed.

Lemma Delete_rep seq ops key :
  zlen ops + 1 < 2 ^ 31 ->
  WriteBatch_Delete (batch_rep seq ops) key = batch_rep seq (ops ++ [OpDelete key]).
Proof.
  intros H. unfold WriteBatch_Delete. rewrite <- SetCount_snoc by done.
  rewrite PutLengthPrefixedSlice_app. by rewrite <- app_assoc.
Qed.

Lemma Append_rep seq1 ops1 seq2 ops2 :
  zlen ops1 + zlen ops2 < 2 ^ 31 ->
  WriteBatch_Append (batch_rep seq1 ops1) (batch_rep seq2 ops2) =
  batch_rep seq1 (ops1 ++ ops2).
Proof.
  intros H. unfold WriteBatch_Append. rewrite !Count_rep by lia.
  unfold SetCount. rewrite u32_small by lia. unfold batch_rep at 1. rewrite poke_count.
  assert (drop kHeader (batch_rep seq2 ops2) = ops_bytes ops2) as ->.
  { unfold batch_rep. rewrite app_assoc. by rewrite drop_app_length'. }
  unfold batch_rep. rewrite ops_bytes_app, <- !app_assoc. do 3 f_equal.
  rewrite length_app. lia.
Qed.

(** The loop reads back the records of a well-formed batch, whatever follows
    being left for it to continue with. *)
Lemma Iterate_loop_ops ops fuel found :
  Forall op_ok ops -> (length (ops_bytes ops) <= fuel)%nat ->
  Iterate_loop fuel (ops_bytes ops) found = (ops, None, found + zlen ops).
Proof.
  intros Hok. revert fuel found. induction Hok as [|op ops Hop Hops IH]; intros fuel found Hf.
  - destruct fuel; cbn; f_equal; lia.
  - change (ops_bytes (op :: ops)) with (op_bytes op ++ ops_bytes ops) in *.
    rewrite length_app in Hf. pose proof (length_op_bytes op).
    destruct fuel as [|fuel]; [lia|].
    destruct op as [key value|key]; cbn [op_bytes app Iterate_loop];
      rewrite unsigned_of_Z; cbn [type_to_Z]; change (1 mod 256 =? 1) with true;
      change (0 mod 256 =? 1) with false; change (0 mod 256 =? 0) with true; cbn iota.
    + destruct Hop as [Hk Hv]. rewrite <- app_assoc.
      rewrite (get_put (A:=bytes)) by done. rewrite (get_put (A:=bytes)) by done.
      rewrite IH by (cbn [op_bytes length] in *; rewrite length_app in *; lia).
      f_equal. cbn [length]. lia.
    + rewrite (get_put (A:=bytes)) by done.
      rewrite IH by (cbn [op_bytes length] in *; lia).
      f_equal. cbn [length]. lia.
Qed.

Lemma Iterate_rep seq ops :
  Forall op_ok ops -> zlen ops < 2 ^ 31 ->
  Iterate (batch_rep seq ops) = (ops, Status_OK).
Proof.
  intros Hok Hn. unfold Iterate.
  rewrite (proj2 (Nat.ltb_ge _ _)) by (rewrite length_batch_rep; unfold kHeader; lia).
  assert (drop kHeader (batch_rep seq ops) = ops_bytes ops) as ->.
  { unfold batch_rep. rewrite app_assoc. by rewrite drop_app_length'. }
  rewrite Iterate_loop_ops by done. rewrite Count_rep, Z.add_0_l, Z.eqb_refl by done.
  done.
Qed.

(** The [i]-th operation of a batch gets the [i]-th sequence number. *)
Definition op_add {M} (Add : Z -> ValueType -> bytes -> bytes -> M -> M)
    (s : Z) (op : BatchOp) (m : M) : M :=
  match op with
  | OpPut key value => Add s kTypeValue key value m
  | OpDelete key => Add s kTypeDeletion key [] m
  end.

Fixpoint add_all {M} (Add : Z -> ValueType -> bytes -> bytes -> M -> M)
    (s : Z) (ops : list BatchOp) (m : M) : M :=
  match ops with
  | [] => m
  | op :: ops' => add_all Add (s + 1) ops' (op_add Add s op m)
  end.

Lemma inserter_add_all {M} (Add : Z -> ValueType -> bytes -> bytes -> M -> M) s ops m :
  0 <= s -> s + zlen ops < 2 ^ 64 ->
  fold_left (MemTableInserter Add) ops (s, m) = (s + zlen ops, add_all Add s ops m).
Proof.
  revert s m. induction ops as [|op ops IH]; intros s m Hs Hn.
  - cbn. f_equal. lia.
  - cbn [length] in *.
    destruct op; cbn [fold_left MemTableInserter add_all op_add];
      rewrite u64_small, IH by lia; f_equal; lia.
Qed.

Lemma InsertInto_rep {M} (Add : Z -> ValueType -> bytes -> bytes -> M -> M) seq ops m :
  Forall op_ok ops -> zlen ops < 2 ^ 31 -> 0 <= seq -> seq + zlen ops < 2 ^ 64 ->
  InsertInto Add (batch_rep seq ops) m = (add_all Add seq ops m, Status_OK).
Proof.
  intros Hok Hn Hs Hsn. unfold InsertInto.
  rewrite Iterate_rep, Sequence_rep by (done || lia).
  by rewrite inserter_add_all by done.
Qed.
