(* ===== verification/LogFormat.v ===== *)
(** * The log format and files

    src/wal/log_format.h, and the parts of include/env.h the log uses: a
    [WritableFile] that takes bytes and a [SequentialFile] that yields them.
    Both are interfaces in the code; here they are records of operations with
    the behaviour of a file on which no call fails as classes of laws. *)

From S2P Require Import Prelude Slice.

Inductive RecordType := kZeroType | kFullType | kFirstType | kMiddleType | kLastType.

Definition RecordType_Z (t : RecordType) : Z :=
  match t with
  | kZeroType => 0 | kFullType => 1 | kFirstType => 2 | kMiddleType => 3 | kLastType => 4
  end.

Definition kMaxRecordType : Z := RecordType_Z kLastType.
Definition kBlockSize : Z := 32768.
Definition kHeaderSize : Z := 4 + 2 + 1.

(** [class WritableFile]: [Append] and [Flush]. *)
Record WritableFile := mkWritableFile {
  WFile : Type;
  Append : WFile -> bytes -> WFile * Status;
  Flush : WFile -> WFile * Status
}.

(** [class SequentialFile]: [Read(n)] and [Skip(n)]. *)
Record SequentialFile := mkSequentialFile {
  SFile : Type;
  Read : SFile -> Z -> SFile * bytes * Status;
  Skip : SFile -> Z -> SFile * Status
}.

(** A file on which writing does not fail: it holds what was appended. *)
Class ReliableWrites (W : WritableFile) (contents : WFile W -> bytes) : Prop := {
  Append_ok : forall f b, snd (Append W f b) = Status_OK;
  Append_contents : forall f b, contents (fst (Append W f b)) = contents f ++ b;
  Flush_ok : forall f, snd (Flush W f) = Status_OK;
  Flush_contents : forall f, contents (fst (Flush W f)) = contents f
}.

(** A file on which reading does not fail: a read returns the next [n] bytes,
    fewer only at the end of the file, and skipping drops them. *)
Class ReliableReads (S : SequentialFile) (rest : SFile S -> bytes) : Prop := {
  Read_spec : forall f n, 0 <= n ->
    exists f', Read S f n = (f', take (Z.to_nat n) (rest f), Status_OK) /\
      rest f' = drop (Z.to_nat n) (rest f);
  Skip_spec : forall f n, 0 <= n ->
    exists f', Skip S f n = (f', Status_OK) /\ rest f' = drop (Z.to_nat n) (rest f)
}.

(** A file held in memory implements both. *)
Definition MemWritable : WritableFile :=
  mkWritableFile bytes (fun f b => (f ++ b, Status_OK)) (fun f => (f, Status_OK)).

Definition MemSequential : SequentialFile :=
  mkSequentialFile bytes
    (fun f n => (drop (Z.to_nat n) f, take (Z.to_nat n) f, Status_OK))
    (fun f n => (drop (Z.to_nat n) f, Status_OK)).

#[export] Instance mem_writes : ReliableWrites MemWritable (fun f => f).
Proof. by split. Qed.

#[export] Instance mem_reads : ReliableReads MemSequential (fun f => f).
Proof. split; intros f n _; by eexists. Qed.
