(* ===== verification/LogWriter.v ===== *)
(** * The log writer

    src/wal/log_writer.h and src/wal/log_writer.cc.  A record is cut into
    fragments that fit the 32 KiB blocks; a block tail too short for a header
    is filled with zeros.  [AddRecord] is the code's [do ... while] loop over
    a file that may fail; [log_bytes] is what it writes when the file does
    not. *)

From S2P Require Import Prelude Slice Coding Crc32c LogFormat.

Section Writer.
(** [crc32c::Extend] *)
Context (extend : Z -> bytes -> Z).
Context (W : WritableFile).

(** [class Writer]; [type_crc_] is filled by [InitTypeCrc]. *)
Record Writer := mkWriter {
  dest_ : WFile W; block_offset_ : Z; type_crc_ : list Z }.

Definition InitTypeCrc : list Z :=
  map (fun i => extend 0 [byte.of_Z i])
    (map Z.of_nat (List.seq 0 (Z.to_nat (kMaxRecordType + 1)))).

(** [Writer::Writer(dest)] and [Writer::Writer(dest, dest_length)] *)
Definition Writer_new (dest : WFile W) : Writer := mkWriter dest 0 InitTypeCrc.

Definition Writer_new_at (dest : WFile W) (dest_length : Z) : Writer :=
  mkWriter dest (dest_length mod kBlockSize) InitTypeCrc.

(** [Writer::EmitPhysicalRecord]: the offset advances even on failure. *)
Definition EmitPhysicalRecord (w : Writer) (t : RecordType) (frag : bytes)
    : Writer * Status :=
  let length := zlen frag in
  let crc := extend (nth (Z.to_nat (RecordType_Z t)) (type_crc_ w) 0) frag in
  let crc := Mask crc in
  let buf := EncodeFixed32 crc ++
    [byte.of_Z (Z.land length 255); byte.of_Z (Z.shiftr length 8);
     byte.of_Z (RecordType_Z t)] in
  let '(f, s) := Append W (dest_ w) buf in
  let '(f, s) :=
    if ok s then
      let '(f, s) := Append W f frag in
      if ok s then Flush W f else (f, s)
    else (f, s) in
  (mkWriter f (block_offset_ w + kHeaderSize + length) (type_crc_ w), s).

(** The choice of the record type. *)
Definition record_type (begin_ end_ : bool) : RecordType :=
  if begin_ && end_ then kFullType
  else if begin_ then kFirstType
  else if end_ then kLastType
  else kMiddleType.

(** Switching to a new block: the tail is filled with zeros (the result of
    that [Append] is not looked at). *)
Definition switch_block (w : Writer) : Writer :=
  let leftover := kBlockSize - block_offset_ w in
  if leftover <? kHeaderSize then
    let f := if leftover >? 0
             then fst (Append W (dest_ w) (replicate (Z.to_nat leftover) Byte.x00))
             else dest_ w in
    mkWriter f 0 (type_crc_ w)
  else w.

(** The [do { ... } while (s.ok() && left > 0)] loop of [AddRecord].  The
    first round may emit an empty fragment at the end of a block; every
    later round emits at least one byte. *)
Fixpoint AddRecord_loop (fuel : nat) (w : Writer) (left : bytes) (begin_ : bool)
    : Writer * Status :=
  match fuel with
  | O => (w, Status_OK)
  | S fuel' =>
      let w := switch_block w in
      let avail := kBlockSize - block_offset_ w - kHeaderSize in
      let fragment_length := if zlen left <? avail then zlen left else avail in
      let end_ := zlen left =? fragment_length in
      let n := Z.to_nat fragment_length in
      let '(w, s) := EmitPhysicalRecord w (record_type begin_ end_) (take n left) in
      let left := drop n left in
      if ok s && (zlen left >? 0) then AddRecord_loop fuel' w left false
      else (w, s)
  end.

(** [Writer::AddRecord] *)
Definition AddRecord (w : Writer) (slice : bytes) : Writer * Status :=
  AddRecord_loop (S (S (length slice))) w slice true.

(** Adding the records of a list, stopping at the first failure. *)
Fixpoint AddRecords (w : Writer) (slices : list bytes) : Writer * Status :=
  match slices with
  | [] => (w, Status_OK)
  | s :: slices' =>
      let '(w, st) := AddRecord w s in
      if ok st then AddRecords w slices' else (w, st)
  end.
End Writer.

Arguments dest_ {W} _.
Arguments block_offset_ {W} _.
Arguments type_crc_ {W} _.
Arguments mkWriter {W} _ _ _.
Arguments AddRecord extend {W} w slice.
Arguments AddRecords extend {W} w slices.
Arguments AddRecord_loop extend {W} fuel w left begin_.
Arguments EmitPhysicalRecord extend {W} w t frag.
Arguments Writer_new extend {W} dest.
Arguments Writer_new_at extend {W} dest dest_length.
Arguments switch_block {W} w.

(** ** What is written *)

Section Image.
Context (extend : Z -> bytes -> Z) `{!CrcLaws extend}.

(** A physical record: header and payload. *)
Definition phys (t : RecordType) (frag : bytes) : bytes :=
  EncodeFixed32 (Mask (extend 0 (byte.of_Z (RecordType_Z t) :: frag))) ++
  [byte.of_Z (Z.land (zlen frag) 255); byte.of_Z (Z.shiftr (zlen frag) 8);
   byte.of_Z (RecordType_Z t)] ++ frag.

Lemma length_phys t frag : zlen (phys t frag) = kHeaderSize + zlen frag.
Proof. unfold phys, kHeaderSize. rewrite !length_app. cbn. lia. Qed.

(** The filler before a record that starts at block offset [o], and the
    offset the record then has. *)
Definition filler (o : Z) : bytes :=
  if kBlockSize - o <? kHeaderSize
  then replicate (Z.to_nat (kBlockSize - o)) Byte.x00 else [].

Definition start_offset (o : Z) : Z :=
  if kBlockSize - o <? kHeaderSize then 0 else o.

(** The bytes of one record from block offset [o], and the offset after it. *)
Fixpoint log_bytes (fuel : nat) (o : Z) (left : bytes) (begin_ : bool) : bytes * Z :=
  match fuel with
  | O => ([], o)
  | S fuel' =>
      let o' := start_offset o in
      let avail := kBlockSize - o' - kHeaderSize in
      let n := Z.to_nat (Z.min (zlen left) avail) in
      let frag := take n left in
      let rest := drop n left in
      let end_ := match rest with [] => true | _ => false end in
      let here := filler o ++ phys (record_type begin_ end_) frag in
      let o'' := o' + kHeaderSize + zlen frag in
      if end_ then (here, o'')
      else let '(more, o3) := log_bytes fuel' o'' rest false in (here ++ more, o3)
  end.

Definition record_bytes (o : Z) (slice : bytes) : bytes * Z :=
  log_bytes (S (S (length slice))) o slice true.

Fixpoint records_bytes (o : Z) (slices : list bytes) : bytes * Z :=
  match slices with
  | [] => ([], o)
  | s :: slices' =>
      let '(b, o) := record_bytes o s in
      let '(bs, o) := records_bytes o slices' in (b ++ bs, o)
  end.

Lemma start_offset_range o :
  0 <= o <= kBlockSize -> 0 <= start_offset o <= kBlockSize - kHeaderSize.
Proof. intros H. unfold start_offset, kHeaderSize. case_test; unfold kBlockSize in *; lia. Qed.
End Image.

(** ** The writer on a file that does not fail *)

Section Correct.
Context (extend : Z -> bytes -> Z) `{!CrcLaws extend}.
Context (W : WritableFile) (contents : WFile W -> bytes) `{!ReliableWrites W contents}.

(** The writer's own fields. *)
Definition writer_ok (w : Writer W) : Prop :=
  0 <= block_offset_ w <= kBlockSize /\ type_crc_ w = InitTypeCrc extend.

Lemma type_crc_nth t :
  nth (Z.to_nat (RecordType_Z t)) (InitTypeCrc extend) 0 =
  extend 0 [byte.of_Z (RecordType_Z t)].
Proof. by destruct t. Qed.

Lemma Append_eq f b :
  exists f', Append W f b = (f', Status_OK) /\ contents f' = contents f ++ b.
Proof.
  exists (fst (Append W f b)). split; [|apply Append_contents].
  rewrite <- (Append_ok (contents:=contents) f b). by destruct (Append W f b).
Qed.

Lemma Flush_eq f :
  exists f', Flush W f = (f', Status_OK) /\ contents f' = contents f.
Proof.
  exists (fst (Flush W f)). split; [|apply Flush_contents].
  rewrite <- (Flush_ok (contents:=contents) f). by destruct (Flush W f).
Qed.

Lemma Emit_spec w t frag :
  writer_ok w -> block_offset_ w + kHeaderSize + zlen frag <= kBlockSize ->
  exists w', EmitPhysicalRecord extend w t frag = (w', Status_OK) /\
    writer_ok w' /\ contents (dest_ w') = contents (dest_ w) ++ phys extend t frag /\
    block_offset_ w' = block_offset_ w + kHeaderSize + zlen frag.
Proof.
  intros [Ho Hc] Hfit. unfold EmitPhysicalRecord. rewrite Hc, type_crc_nth.
  rewrite extend_app by lia. cbn zeta. set (buf := EncodeFixed32 _ ++ _).
  destruct (Append_eq (dest_ w) buf) as (f1 & -> & E1). cbn [ok state_ Status_OK].
  destruct (Append_eq f1 frag) as (f2 & -> & E2). cbn [ok state_ Status_OK].
  destruct (Flush_eq f2) as (f3 & -> & E3).
  eexists; split; [done|]. unfold writer_ok; cbn [block_offset_ type_crc_ dest_].
  repeat split; [unfold kHeaderSize in *; lia|lia|..]; try done.
  by rewrite E3, E2, E1, <- app_assoc.
Qed.

Lemma switch_spec w :
  writer_ok w ->
  writer_ok (switch_block w) /\
  contents (dest_ (switch_block w)) = contents (dest_ w) ++ filler (block_offset_ w) /\
  block_offset_ (switch_block w) = start_offset (block_offset_ w).
Proof.
  intros [Ho Hc]. unfold switch_block, filler, start_offset, writer_ok.
  case_test; cbn [block_offset_ type_crc_ dest_]; [|by rewrite app_nil_r].
  split; [split; [unfold kBlockSize; lia|done]|]. split; [|done].
  destruct (kBlockSize - block_offset_ w >? 0) eqn:G.
  - by rewrite Append_contents.
  - rewrite Z.gtb_ltb in G. boolprop.
    replace (Z.to_nat (kBlockSize - block_offset_ w)) with 0%nat by lia.
    by rewrite app_nil_r.
Qed.

Lemma AddRecord_loop_spec fuel (w : Writer W) (left : bytes) (begin_ : bool) :
  writer_ok w -> (length left + (if begin_ then 2 else 1) <= fuel)%nat ->
  (begin_ = false -> left <> [] /\
     start_offset (block_offset_ w) < kBlockSize - kHeaderSize) ->
  exists w', AddRecord_loop extend fuel w left begin_ = (w', Status_OK) /\
    writer_ok w' /\
    contents (dest_ w') =
      contents (dest_ w) ++ fst (log_bytes extend fuel (block_offset_ w) left begin_) /\
    block_offset_ w' = snd (log_bytes extend fuel (block_offset_ w) left begin_).
Proof.
  revert w left begin_. induction fuel as [|fuel IH]; intros w left begin_ Hw Hf Hb;
    [destruct begin_; lia|].
  cbn [AddRecord_loop log_bytes].
  destruct (switch_spec w Hw) as (Hw1 & E1 & O1).
  pose proof (start_offset_range (block_offset_ w) (proj1 Hw)) as Hr.
  rewrite O1. set (o' := start_offset (block_offset_ w)) in *.
  set (avail := kBlockSize - o' - kHeaderSize) in *.
  replace (if zlen left <? avail then zlen left else avail) with (Z.min (zlen left) avail)
    by (case_test; lia).
  set (n := Z.to_nat (Z.min (zlen left) avail)).
  assert (Z.of_nat n = Z.min (zlen left) avail) as Hn by lia.
  assert (zlen (take n left) = Z.of_nat n) as Ht by (rewrite length_take; lia).
  assert ((zlen left =? Z.min (zlen left) avail) =
          match drop n left with [] => true | _ => false end) as ->.
  { destruct (drop n left) eqn:D.
    - apply (f_equal length) in D. rewrite length_drop in D. cbn in D. lia.
    - apply (f_equal length) in D. rewrite length_drop in D. cbn in D. lia. }
  destruct (Emit_spec (switch_block w)
    (record_type begin_ match drop n left with [] => true | _ => false end)
    (take n left)) as (w2 & -> & Hw2 & E2 & O2); [done|lia|].
  cbn [ok state_ Status_OK andb]. rewrite O1 in O2.
  destruct (drop n left) as [|b rest] eqn:D.
  - cbn [length Z.of_nat Z.gtb Z.compare]. exists w2. cbn [fst snd].
    rewrite E2, E1, <- app_assoc. done.
  - assert (length left = n + S (length rest))%nat as Hl.
    { apply (f_equal length) in D. rewrite length_drop in D. cbn in D. lia. }
    rewrite (proj2 (Z.gtb_lt _ _)) by (cbn [length]; lia).
    assert (Z.of_nat n = avail) as Hav by lia.
    destruct (IH w2 (b :: rest) false) as (w3 & -> & Hw3 & E3 & O3); [done| | |].
    + cbn [length]. destruct begin_; [lia|].
      destruct (Hb eq_refl) as [_ Hlt]. fold o' in Hlt. lia.
    + intros _. split; [done|]. rewrite O2, Ht.
      unfold start_offset, kHeaderSize in *. case_test; unfold kBlockSize in *; lia.
    + exists w3. rewrite O2 in E3, O3. fold o' in E3, O3.
      destruct (log_bytes extend fuel _ (b :: rest) false) as [more o3].
      cbn [fst snd] in *. rewrite E3, E2, E1, <- !app_assoc. done.
Qed.

(** [AddRecord] succeeds and appends exactly the bytes of the record. *)
Lemma AddRecord_spec (w : Writer W) (slice : bytes) :
  writer_ok w ->
  exists w', AddRecord extend w slice = (w', Status_OK) /\ writer_ok w' /\
    contents (dest_ w') =
      contents (dest_ w) ++ fst (record_bytes extend (block_offset_ w) slice) /\
    block_offset_ w' = snd (record_bytes extend (block_offset_ w) slice).
Proof. intros Hw. apply AddRecord_loop_spec; [done|lia|done]. Qed.

(** What appending and flushing leave alone, [AddRecord] leaves alone. *)
Lemma AddRecord_keeps {A} (name : WFile W -> A) (w : Writer W) (slice : bytes) :
  (forall f b, name (fst (Append W f b)) = name f) -> (forall f, name (fst (Flush W f)) = name f) ->
  name (dest_ (fst (AddRecord extend w slice))) = name (dest_ w).
Proof using Type.
  intros Ha Hf. unfold AddRecord. generalize (S (S (length slice))) as fuel, true as begin_. intros fuel.
  revert w slice. induction fuel as [|fuel IH]; intros w left begin_; cbn [AddRecord_loop]; [done|].
  assert (name (dest_ (switch_block w)) = name (dest_ w)) as Es.
  { unfold switch_block. destruct (_ <? _); [|done]. cbn [dest_]. destruct (_ >? 0); [apply Ha|done]. }
  assert (forall v t frag, name (dest_ (fst (EmitPhysicalRecord extend (W:=W) v t frag))) = name (dest_ v)) as Ee.
  { intros v t frag. unfold EmitPhysicalRecord. cbn zeta. set (hd := EncodeFixed32 _ ++ _).
    pose proof (Ha (dest_ v) hd) as H1. destruct (Append W (dest_ v) hd) as [f1 s1]. cbn [fst] in *.
    destruct (ok s1); cbn [fst dest_]; [|done]. pose proof (Ha f1 frag) as H2. destruct (Append W f1 frag) as [f2 s2]. cbn [fst] in *.
    destruct (ok s2); cbn [fst dest_]; [|congruence]. pose proof (Hf f2) as H3. destruct (Flush W f2) as [f3 s3]. cbn [fst dest_] in *.
    congruence. }
  set (t := record_type _ _). set (n := Z.to_nat _). specialize (Ee (switch_block w) t (take n left)).
  destruct (EmitPhysicalRecord extend (switch_block w) t (take n left)) as [v s]. cbn [fst] in Ee.
  destruct (ok s && _); [rewrite IH|cbn [fst]]; congruence.
Qed.

Lemma AddRecords_spec (w : Writer W) (slices : list bytes) :
  writer_ok w ->
  exists w', AddRecords extend w slices = (w', Status_OK) /\ writer_ok w' /\
    contents (dest_ w') =
      contents (dest_ w) ++ fst (records_bytes extend (block_offset_ w) slices) /\
    block_offset_ w' = snd (records_bytes extend (block_offset_ w) slices).
Proof.
  revert w. induction slices as [|s slices IH]; intros w Hw.
  - exists w. cbn. by rewrite app_nil_r.
  - destruct (AddRecord_spec w s Hw) as (w1 & E1 & Hw1 & C1 & O1).
    cbn [AddRecords records_bytes]. rewrite E1. cbn [ok state_ Status_OK].
    destruct (IH w1 Hw1) as (w2 & E2 & Hw2 & C2 & O2). exists w2.
    destruct (record_bytes extend (block_offset_ w) s) as [b o]. cbn [fst snd] in *.
    subst o. destruct (records_bytes extend (block_offset_ w1) slices) as [bs o2].
    cbn [fst snd] in *. rewrite C2, C1, <- app_assoc. done.
Qed.
End Correct.
