(* ===== verification/LogReader.v ===== *)
(** * The log reader

    src/wal/log_reader.h and src/wal/log_reader.cc.  The reader keeps one
    block, takes physical records from it, and assembles logical records from
    their fragments, reporting what it drops.  [reports] is the sequence of
    [Reporter::Corruption] calls.

    The theorems relate it to the writer: reading back what was written gives
    the records in order and reports nothing, also when the file was cut at an
    arbitrary byte, where a prefix of the records comes back. *)

From S2P Require Import Prelude Slice Coding Crc32c LogFormat LogWriter.

(** The two extra results of [ReadPhysicalRecord]. *)
Definition kEof : Z := kMaxRecordType + 1.
Definition kBadRecord : Z := kMaxRecordType + 2.

Section Reader.
Context (extend : Z -> bytes -> Z).
Context (F : SequentialFile).

(** [class Reader] *)
Record Reader := mkReader {
  file_ : SFile F;
  has_reporter : bool;               (* reporter_ != nullptr *)
  checksum_ : bool;
  buffer_ : bytes;
  eof_ : bool;
  last_record_offset_ : Z;
  end_of_buffer_offset_ : Z;
  initial_offset_ : Z;
  resyncing_ : bool;
  reports : list (Z * Status)
}.

(** [Reader::Reader] *)
Definition Reader_new (file : SFile F) (reporter checksum : bool) (initial_offset : Z)
    : Reader :=
  mkReader file reporter checksum [] false 0 0 initial_offset (initial_offset >? 0) [].

Definition set_buffer (r : Reader) (b : bytes) : Reader :=
  mkReader (file_ r) (has_reporter r) (checksum_ r) b (eof_ r) (last_record_offset_ r)
    (end_of_buffer_offset_ r) (initial_offset_ r) (resyncing_ r) (reports r).
Definition set_eof (r : Reader) (e : bool) : Reader :=
  mkReader (file_ r) (has_reporter r) (checksum_ r) (buffer_ r) e (last_record_offset_ r)
    (end_of_buffer_offset_ r) (initial_offset_ r) (resyncing_ r) (reports r).
Definition set_file (r : Reader) (f : SFile F) : Reader :=
  mkReader f (has_reporter r) (checksum_ r) (buffer_ r) (eof_ r) (last_record_offset_ r)
    (end_of_buffer_offset_ r) (initial_offset_ r) (resyncing_ r) (reports r).
Definition set_last (r : Reader) (o : Z) : Reader :=
  mkReader (file_ r) (has_reporter r) (checksum_ r) (buffer_ r) (eof_ r) o
    (end_of_buffer_offset_ r) (initial_offset_ r) (resyncing_ r) (reports r).
Definition set_end (r : Reader) (o : Z) : Reader :=
  mkReader (file_ r) (has_reporter r) (checksum_ r) (buffer_ r) (eof_ r)
    (last_record_offset_ r) o (initial_offset_ r) (resyncing_ r) (reports r).
Definition set_resyncing (r : Reader) (b : bool) : Reader :=
  mkReader (file_ r) (has_reporter r) (checksum_ r) (buffer_ r) (eof_ r)
    (last_record_offset_ r) (end_of_buffer_offset_ r) (initial_offset_ r) b (reports r).
Definition add_report (r : Reader) (n : Z) (s : Status) : Reader :=
  mkReader (file_ r) (has_reporter r) (checksum_ r) (buffer_ r) (eof_ r)
    (last_record_offset_ r) (end_of_buffer_offset_ r) (initial_offset_ r) (resyncing_ r)
    (reports r ++ [(n, s)]).

(** [Reader::ReportDrop]; the offset arithmetic is on [uint64_t]. *)
Definition ReportDrop (r : Reader) (n : Z) (reason : Status) : Reader :=
  if has_reporter r &&
     (u64 (end_of_buffer_offset_ r - zlen (buffer_ r) - n) >=? initial_offset_ r)
  then add_report r n reason else r.

(** [Reader::ReportCorruption] *)
Definition ReportCorruption (r : Reader) (n : Z) (reason : bytes) : Reader :=
  ReportDrop r n (Corruption reason).

(** [Reader::SkipToInitialBlock] *)
Definition SkipToInitialBlock (r : Reader) : Reader * bool :=
  let offset_in_block := initial_offset_ r mod kBlockSize in
  let block_start_location := initial_offset_ r - offset_in_block in
  let block_start_location :=
    if offset_in_block >? kBlockSize - 6 then u64 (block_start_location + kBlockSize)
    else block_start_location in
  let r := set_end r block_start_location in
  if block_start_location >? 0 then
    let '(f, skip_status) := Skip F (file_ r) block_start_location in
    let r := set_file r f in
    if ok skip_status then (r, true)
    else (ReportDrop r block_start_location skip_status, false)
  else (r, true).

(** The part of [ReadPhysicalRecord] after the refill: a header is there. *)
Definition parse_physical (r : Reader) : Reader * Z * bytes :=
  let header := buffer_ r in
  let a := byte_at header 4 in
  let b := byte_at header 5 in
  let type := u32 (s8 (byte_at header 6)) in
  let length := Z.lor a (Z.shiftl b 8) in
  if kHeaderSize + length >? zlen header then
    let drop_size := zlen header in
    let r := set_buffer r [] in
    if eof_ r then (r, kEof, [])
    else (ReportCorruption r drop_size (str:"bad record length"), kBadRecord, [])
  else if (type =? RecordType_Z kZeroType) && (length =? 0) then
    (set_buffer r [], kBadRecord, [])
  else
    let expected_crc := Unmask (DecodeFixed32 header) in
    let actual_crc := extend 0 (take (Z.to_nat (1 + length)) (drop 6 header)) in
    if checksum_ r && negb (actual_crc =? expected_crc) then
      let drop_size := zlen header in
      let r := set_buffer r [] in
      (ReportCorruption r drop_size (str:"checksum mismatch"), kBadRecord, [])
    else
      let r := set_buffer r (drop (Z.to_nat (kHeaderSize + length)) header) in
      if u64 (end_of_buffer_offset_ r - zlen (buffer_ r) - kHeaderSize - length)
           <? initial_offset_ r
      then (r, kBadRecord, [])
      else (r, type, take (Z.to_nat length) (drop (Z.to_nat kHeaderSize) header)).

(** [Reader::ReadPhysicalRecord].  The [while (true)] repeats only to refill
    the buffer: a refill that leaves less than a header has seen the end of
    the file, so three rounds are enough ([physical_returns]).  [None] is a loop
    that needs more of them. *)
Fixpoint ReadPhysicalRecord_loop (fuel : nat) (r : Reader) : option (Reader * Z * bytes) :=
  match fuel with
  | O => None
  | S fuel' =>
      if zlen (buffer_ r) <? kHeaderSize then
        if eof_ r then Some (set_buffer r [], kEof, [])
        else
          let r := set_buffer r [] in
          let '(f, buf, status) := Read F (file_ r) kBlockSize in
          let r := set_buffer (set_file r f) buf in
          let r := set_end r (u64 (end_of_buffer_offset_ r + zlen buf)) in
          if negb (ok status) then
            let r := set_buffer r [] in
            let r := ReportDrop r kBlockSize status in
            Some (set_eof r true, kEof, [])
          else
            let r := if zlen buf <? kBlockSize then set_eof r true else r in
            ReadPhysicalRecord_loop fuel' r
      else Some (parse_physical r)
  end.

Definition ReadPhysicalRecord (r : Reader) : option (Reader * Z * bytes) :=
  ReadPhysicalRecord_loop 3 r.

(** The [while (true)] of [ReadRecord]: [in_fragmented_record], [scratch] and
    [prospective_record_offset] are its variables.  The result is the record
    ([None] for [false]).  [None] of the outer option is a loop that needs
    more rounds than [fuel]. *)
Fixpoint ReadRecord_loop (fuel : nat) (r : Reader) (in_fragmented_record : bool)
    (scratch : bytes) (prospective : Z) : option (Reader * option bytes) :=
  match fuel with
  | O => None
  | S fuel' =>
      '(r, record_type, fragment) ← ReadPhysicalRecord r;
      let physical_record_offset :=
        u64 (end_of_buffer_offset_ r - zlen (buffer_ r) - kHeaderSize - zlen fragment) in
      if resyncing_ r && (record_type =? RecordType_Z kMiddleType) then
        ReadRecord_loop fuel' r in_fragmented_record scratch prospective
      else if resyncing_ r && (record_type =? RecordType_Z kLastType) then
        ReadRecord_loop fuel' (set_resyncing r false) in_fragmented_record scratch
          prospective
      else
        let r := if resyncing_ r then set_resyncing r false else r in
        if record_type =? RecordType_Z kFullType then
          let r :=
            if in_fragmented_record && negb (zlen scratch =? 0)
            then ReportCorruption r (zlen scratch) (str:"partial record without end(1)")
            else r in
          Some (set_last r physical_record_offset, Some fragment)
        else if record_type =? RecordType_Z kFirstType then
          let r :=
            if in_fragmented_record && negb (zlen scratch =? 0)
            then ReportCorruption r (zlen scratch) (str:"partial record without end(2)")
            else r in
          ReadRecord_loop fuel' r true fragment physical_record_offset
        else if record_type =? RecordType_Z kMiddleType then
          if in_fragmented_record then
            ReadRecord_loop fuel' r in_fragmented_record (scratch ++ fragment) prospective
          else
            ReadRecord_loop fuel'
              (ReportCorruption r (zlen fragment)
                 (str:"missing start of fragmented record(1)"))
              in_fragmented_record scratch prospective
        else if record_type =? RecordType_Z kLastType then
          if in_fragmented_record then
            Some (set_last r prospective, Some (scratch ++ fragment))
          else
            ReadRecord_loop fuel'
              (ReportCorruption r (zlen fragment)
                 (str:"missing start of fragmented record(2)"))
              in_fragmented_record scratch prospective
        else if record_type =? kEof then Some (r, None)
        else if record_type =? kBadRecord then
          if in_fragmented_record then
            ReadRecord_loop fuel'
              (ReportCorruption r (zlen scratch) (str:"error in middle of record"))
              false [] prospective
          else ReadRecord_loop fuel' r in_fragmented_record scratch prospective
        else
          ReadRecord_loop fuel'
            (ReportCorruption r
               (zlen fragment + (if in_fragmented_record then zlen scratch else 0))
               ((str:"unknow record type ") ++ decimal record_type))
            false [] prospective
  end.

(** [Reader::ReadRecord] *)
Definition ReadRecord (fuel : nat) (r : Reader) : option (Reader * option bytes) :=
  if last_record_offset_ r <? initial_offset_ r then
    let '(r, skipped) := SkipToInitialBlock r in
    if skipped then ReadRecord_loop fuel r false [] 0 else Some (r, None)
  else ReadRecord_loop fuel r false [] 0.

(** Reading until [ReadRecord] returns [false]: the records and the reader
    afterwards.  [None]: one of the bounds was too small. *)
Fixpoint read_all (n fuel : nat) (r : Reader) : option (list bytes * Reader) :=
  match n with
  | O => None
  | S n' =>
      match ReadRecord fuel r with
      | None => None
      | Some (r, None) => Some ([], r)
      | Some (r, Some rec) =>
          match read_all n' fuel r with
          | Some (recs, r) => Some (rec :: recs, r)
          | None => None
          end
      end
  end.

(** The loop of a client, [while (reader.ReadRecord(&record, &scratch)) { ... }]:
    [report] is the client's [Reporter::Corruption], called for each report, and
    [body] its loop body, which may leave the loop. *)
Fixpoint read_loop {A} (report : A -> Status -> A) (body : A -> bytes -> option (A * bool)) (n fuel : nat) (r : Reader) (a : A)
    : option (Reader * A) :=
  match n with
  | O => None
  | S n =>
      '(r', record) ← ReadRecord fuel r;
      let a := fold_left report (map snd (drop (length (reports r)) (reports r'))) a in
      match record with
      | None => Some (r', a)
      | Some record =>
          '(a, go_on) ← body a record;
          if (go_on : bool) then read_loop report body n fuel r' a else Some (r', a)
      end
  end.
End Reader.

Arguments file_ {F} _.
Arguments has_reporter {F} _.
Arguments checksum_ {F} _.
Arguments buffer_ {F} _.
Arguments eof_ {F} _.
Arguments last_record_offset_ {F} _.
Arguments end_of_buffer_offset_ {F} _.
Arguments initial_offset_ {F} _.
Arguments resyncing_ {F} _.
Arguments reports {F} _.
Arguments Reader_new {F} file reporter checksum initial_offset.
Arguments ReadPhysicalRecord extend {F} r.
Arguments ReadPhysicalRecord_loop extend {F} fuel r.
Arguments ReadRecord_loop extend {F} fuel r in_fragmented_record scratch prospective.
Arguments ReadRecord extend {F} fuel r.
Arguments read_all extend {F} n fuel r.
Arguments read_loop extend {F A} report body n fuel r a.
Arguments parse_physical extend {F} r.

(** ** The reader on a file that does not fail *)

Section Correct.
Context (extend : Z -> bytes -> Z) `{!CrcLaws extend}.
Context (F : SequentialFile) (rest : SFile F -> bytes) `{!ReliableReads F rest}.

(** The reader is at block offset [o] with [data] still to be read: the
    buffer holds what the block has left, the file the remainder. *)
Record at_offset (r : Reader F) (o : Z) (data : bytes) : Prop := {
  ao_range : 0 <= o <= kBlockSize;
  ao_buffer : buffer_ r = take (Z.to_nat (kBlockSize - o)) data;
  ao_file : rest (file_ r) = drop (Z.to_nat (kBlockSize - o)) data;
  ao_eof : eof_ r = (zlen data <? kBlockSize - o);
  ao_initial : initial_offset_ r = 0;
  ao_last : 0 <= last_record_offset_ r;
  ao_resyncing : resyncing_ r = false
}.

Lemma Reader_new_at file reporter checksum :
  at_offset (Reader_new file reporter checksum 0) kBlockSize (rest file).
Proof.
  split; try done; cbn [Reader_new buffer_ file_ eof_ last_record_offset_];
    rewrite ?Z.sub_diag; try done. symmetry. booleq; lia.
Qed.

Lemma u32_s8_type t : u32 (s8 (byte.unsigned (byte.of_Z (RecordType_Z t)))) = RecordType_Z t.
Proof. by destruct t. Qed.

(** Refilling when the rest of the block is too short for a header. *)
Lemma refill r o data fuel :
  at_offset r o data -> kBlockSize - o < kHeaderSize -> kBlockSize - o <= zlen data ->
  exists r', at_offset r' 0 (drop (Z.to_nat (kBlockSize - o)) data) /\
    reports r' = reports r /\
    ReadPhysicalRecord_loop extend (S fuel) r = ReadPhysicalRecord_loop extend fuel r'.
Proof.
  intros [Hr Hb Hf He Hi Hl Hs] Ho Hlen. cbn [ReadPhysicalRecord_loop].
  rewrite Hb, He. rewrite (proj2 (Z.ltb_lt (zlen (take _ _)) _)) by (rewrite length_take; lia).
  rewrite (proj2 (Z.ltb_ge (zlen data) _)) by lia. cbn [set_buffer file_].
  destruct (Read_spec (rest:=rest) (file_ r) kBlockSize) as (f & -> & Ef);
    [unfold kBlockSize; lia|].
  rewrite Hf in *. set (data' := drop _ data) in *.
  cbn [ok state_ Status_OK negb]. eexists. split; [|split; [|reflexivity]].
  - assert (zlen (take (Z.to_nat kBlockSize) data') <? kBlockSize =
            (zlen data' <? kBlockSize)) as ->.
    { rewrite length_take. unfold kBlockSize. booleq; lia. }
    split; try rewrite Z.sub_0_r; destruct (zlen data' <? kBlockSize); try done;
      try (unfold kBlockSize; lia).
    all: cbn; rewrite He; booleq; lia.
  - match goal with |- context [if ?b then _ else _] => by destruct b end.
Qed.

(** The seven header bytes of a physical record and what the reader decodes
    from them. *)
Definition header_of (t : RecordType) (frag : bytes) : bytes :=
  EncodeFixed32 (Mask (extend 0 (byte.of_Z (RecordType_Z t) :: frag))) ++
  [byte.of_Z (Z.land (zlen frag) 255); byte.of_Z (Z.shiftr (zlen frag) 8);
   byte.of_Z (RecordType_Z t)].

Lemma phys_header t frag : phys extend t frag = header_of t frag ++ frag.
Proof. unfold phys, header_of. by rewrite <- app_assoc. Qed.

Lemma header_length t frag x :
  0 <= zlen frag < 2 ^ 16 ->
  Z.lor (byte_at (header_of t frag ++ x) 4) (Z.shiftl (byte_at (header_of t frag ++ x) 5) 8)
  = zlen frag.
Proof.
  intros H. unfold header_of, byte_at. cbn [EncodeFixed32 app nth].
  rewrite !unsigned_of_Z, land255, Z.mod_mod, Z.shiftr_div_pow2 by lia.
  change (2 ^ 8) with 256. change (2 ^ 16) with 65536 in H.
  rewrite (Z.mod_small (zlen frag / _))
    by (split; [apply Z.div_pos|apply Z.div_lt_upper_bound]; lia).
  rewrite lor_shiftl_add by (try lia; apply Z.mod_pos_bound; lia).
  pose proof (Z.div_mod (zlen frag) 256). lia.
Qed.

(** A whole record in the buffer is parsed, whatever follows it. *)
Lemma parse_whole r t (frag x : bytes) :
  buffer_ r = header_of t frag ++ frag ++ x -> zlen frag < 2 ^ 16 -> t <> kZeroType ->
  initial_offset_ r = 0 ->
  parse_physical extend r = (set_buffer F r x, RecordType_Z t, frag).
Proof.
  intros Hb Hlen Ht Hi. unfold parse_physical. rewrite Hb, header_length by (split; [lia|apply Hlen]).
  assert (byte_at (header_of t frag ++ frag ++ x) 6 =
          byte.unsigned (byte.of_Z (RecordType_Z t))) as -> by done.
  rewrite u32_s8_type. cbn [set_buffer eof_ checksum_ buffer_ end_of_buffer_offset_ initial_offset_].
  assert (zlen (header_of t frag ++ frag ++ x) = kHeaderSize + zlen frag + zlen x) as El.
  { rewrite !length_app. change (length (header_of t frag)) with 7%nat.
    unfold kHeaderSize. lia. }
  rewrite El. rewrite gtb_le by lia.
  rewrite (proj2 (Z.eqb_neq (RecordType_Z t) _)) by (by destruct t). cbn [andb].
  rewrite Hi, (proj2 (Z.ltb_ge (u64 _) 0)) by apply u64_range.
  assert (DecodeFixed32 (header_of t frag ++ frag ++ x) =
    Mask (extend 0 (byte.of_Z (RecordType_Z t) :: frag))) as ->.
  { unfold header_of. rewrite <- app_assoc. apply Fixed32_roundtrip, Mask_range. }
  rewrite Unmask_Mask by (apply extend_range; lia).
  assert (take (Z.to_nat (1 + zlen frag)) (drop 6 (header_of t frag ++ frag ++ x)) =
    byte.of_Z (RecordType_Z t) :: frag) as ->.
  { replace (Z.to_nat (1 + zlen frag)) with (S (length frag)) by lia.
    change (drop 6 _) with (byte.of_Z (RecordType_Z t) :: frag ++ x).
    by rewrite firstn_cons, take_app_length. }
  rewrite Z.eqb_refl, andb_false_r.
  replace (Z.to_nat (kHeaderSize + zlen frag)) with (7 + length frag)%nat
    by (unfold kHeaderSize; lia).
  rewrite <- drop_drop. change (drop 7 _) with (frag ++ x).
  change (drop (Z.to_nat kHeaderSize) _) with (frag ++ x).
  by rewrite drop_app_length, Nat2Z.id, take_app_length.
Qed.

(** A record of which less than all is there, at the end of the file. *)
Lemma parse_cut r t (frag x : bytes) :
  buffer_ r = header_of t frag ++ x -> zlen x < zlen frag < 2 ^ 16 -> eof_ r = true ->
  parse_physical extend r = (set_buffer F r [], kEof, []).
Proof.
  intros Hb Hlen He. unfold parse_physical. rewrite Hb, header_length by (split; [lia|apply Hlen]).
  rewrite (proj2 (Z.gtb_lt _ _)); [cbn [set_buffer eof_]; by rewrite He|].
  rewrite length_app. change (length (header_of t frag)) with 7%nat.
  unfold kHeaderSize. lia.
Qed.

(** Reaching the block offset the next record starts at. *)
Lemma seek_record r o (d : bytes) :
  at_offset r o (filler o ++ d) ->
  exists r' k, at_offset r' (start_offset o) d /\ reports r' = reports r /\
    ReadPhysicalRecord extend r = ReadPhysicalRecord_loop extend (S (S k)) r'.
Proof.
  intros H. pose proof (ao_range _ _ _ H) as Hr. unfold filler, start_offset in *.
  destruct (kBlockSize - o <? kHeaderSize) eqn:E; boolprop.
  - destruct (refill r o _ 2 H) as (r' & H' & Hrep & Hstep); [lia|lenlia|].
    rewrite drop_app_length' in H' by (rewrite length_replicate; lia).
    exists r', 0%nat. done.
  - exists r, 1%nat. done.
Qed.

(** Consuming a whole record keeps the reader in step. *)
Lemma at_offset_advance r o t (frag d : bytes) :
  at_offset r o (phys extend t frag ++ d) ->
  o + kHeaderSize + zlen frag <= kBlockSize ->
  exists x, buffer_ r = header_of t frag ++ frag ++ x /\
    at_offset (set_buffer F r x) (o + kHeaderSize + zlen frag) d.
Proof.
  intros [Hr Hb Hf He Hi Hl Hs] Hfit. pose proof (length_phys extend t frag) as Lp.
  set (n := Z.to_nat (kBlockSize - (o + kHeaderSize + zlen frag))).
  assert (Z.to_nat (kBlockSize - o) = length (phys extend t frag) + n)%nat as En.
  { unfold kHeaderSize in *; lia. }
  rewrite En in *. exists (take n d). split.
  - by rewrite Hb, take_app_add, phys_header, <- app_assoc.
  - split; try done; cbn [set_buffer file_ eof_].
    + unfold kHeaderSize in *; lia.
    + by rewrite Hf, drop_app_add.
    + rewrite He, length_app. booleq.
Qed.

Lemma read_whole r o t (frag d : bytes) :
  at_offset r o (filler o ++ phys extend t frag ++ d) -> t <> kZeroType ->
  start_offset o + kHeaderSize + zlen frag <= kBlockSize ->
  exists r', ReadPhysicalRecord extend r = Some (r', RecordType_Z t, frag) /\
    at_offset r' (start_offset o + kHeaderSize + zlen frag) d /\ reports r' = reports r.
Proof.
  intros H Ht Hfit. destruct (seek_record _ _ _ H) as (r1 & k & H1 & Hrep & ->).
  destruct (at_offset_advance _ _ _ _ _ H1 Hfit) as (x & Hb & H2).
  exists (set_buffer F r1 x). split; [|done].
  cbn [ReadPhysicalRecord_loop]. rewrite (proj2 (Z.ltb_ge _ _)).
  - pose proof (ao_range _ _ _ H1). f_equal. apply parse_whole; try done; [|apply H1].
    unfold kHeaderSize, kBlockSize in *. change (2 ^ 16) with 65536. lia.
  - rewrite Hb, length_app. change (length (header_of t frag)) with 7%nat.
    unfold kHeaderSize. lia.
Qed.

Lemma loop_eof r o (d : bytes) k :
  at_offset r o d -> zlen d < kHeaderSize -> zlen d < kBlockSize - o ->
  ReadPhysicalRecord_loop extend (S k) r = Some (set_buffer F r [], kEof, []).
Proof.
  intros [Hr Hb Hf He Hi Hl Hs] H1 H2. cbn [ReadPhysicalRecord_loop].
  rewrite (proj2 (Z.ltb_lt _ _)) by (rewrite Hb, length_take; lia).
  by rewrite He, (proj2 (Z.ltb_lt _ _)).
Qed.

(** A file that ends before the next record does gives [kEof] and no report. *)
Lemma read_cut r o t (frag d : bytes) n :
  at_offset r o d -> d = take n (filler o ++ phys extend t frag) ->
  (n < length (filler o ++ phys extend t frag))%nat ->
  start_offset o + kHeaderSize + zlen frag <= kBlockSize ->
  exists r', ReadPhysicalRecord extend r = Some (r', kEof, []) /\
    reports r' = reports r /\ resyncing_ r' = false.
Proof.
  intros H -> Hn Hfit. pose proof (ao_range _ _ _ H) as Hr.
  pose proof (start_offset_range _ Hr) as Hso.
  destruct (decide (n < length (filler o))%nat) as [Hlt|Hge].
  - unfold ReadPhysicalRecord. erewrite loop_eof; [eexists; split; [done|]; split; [done|]; apply H|exact H|..].
    all: revert Hlt; unfold filler; case_test; cbn [length]; try lia; rewrite !length_replicate.
    all: intros; rewrite length_take, length_app, length_replicate; lia.
  - rewrite take_app_ge in H by lia. set (m := (n - length (filler o))%nat) in *.
    assert (m < length (phys extend t frag))%nat as Hm by (rewrite length_app in Hn; lia).
    pose proof (length_phys extend t frag) as Lp.
    destruct (seek_record _ _ _ H) as (r1 & k & H1 & Hrep & ->).
    assert (zlen (take m (phys extend t frag)) = Z.of_nat m) as El by (rewrite length_take; lia).
    destruct (decide (Z.of_nat m < kHeaderSize)) as [Hs|Hs].
    + erewrite loop_eof; [eexists; split; [done|]; split; [done|]; apply H1|exact H1|..];
        rewrite El; unfold kHeaderSize in *; lia.
    + exists (set_buffer F r1 []); split; [|split; [exact Hrep|apply H1]].
      assert (buffer_ r1 = header_of t frag ++ take (m - 7) frag) as Hb.
      { rewrite (ao_buffer _ _ _ H1), take_ge by (unfold kHeaderSize in *; lia).
        rewrite phys_header, take_app_ge; [done|]. cbn. unfold kHeaderSize in Hs. lia. }
      cbn [ReadPhysicalRecord_loop]. rewrite (proj2 (Z.ltb_ge _ _)).
      * f_equal. apply (parse_cut _ t frag (take (m - 7) frag)); [done| |].
        -- rewrite length_take. unfold kHeaderSize, kBlockSize in *.
           change (2 ^ 16) with 65536. lia.
        -- rewrite (ao_eof _ _ _ H1), El. apply Z.ltb_lt. unfold kHeaderSize in *. lia.
      * rewrite Hb, length_app. change (length (header_of t frag)) with 7%nat.
        unfold kHeaderSize. lia.
Qed.

(** The fields a record keeps once it is assembled. *)
Lemma at_offset_set_last r o d n : at_offset r o d -> 0 <= n -> at_offset (set_last F r n) o d.
Proof. intros [] Hn. by split. Qed.

(** *** Positions in the file *)

(** The reader knows how much of a file of [total] bytes it has read. *)
Definition in_file (total : Z) (r : Reader F) : Prop :=
  zlen (buffer_ r) <= end_of_buffer_offset_ r /\ end_of_buffer_offset_ r + zlen (rest (file_ r)) = total /\ total < 2 ^ 64.

Lemma in_file_ReportDrop total r n s : in_file total (ReportDrop F r n s) <-> in_file total r.
Proof. unfold ReportDrop. by case_test. Qed.

Lemma parse_in_file total (r r' : Reader F) t (frag : bytes) :
  parse_physical extend r = (r', t, frag) -> in_file total r -> in_file total r'.
Proof.
  unfold parse_physical, ReportCorruption. repeat case_test; intros [= <- <- <-]; rewrite ?in_file_ReportDrop; unfold in_file;
    cbn [set_buffer end_of_buffer_offset_ buffer_ file_ length]; rewrite ?length_drop; lia.
Qed.

Lemma physical_in_file total (r r' : Reader F) t (frag : bytes) :
  ReadPhysicalRecord extend r = Some (r', t, frag) -> in_file total r -> in_file total r'.
Proof.
  unfold ReadPhysicalRecord. generalize 3%nat as n. intros n. revert r.
  induction n as [|n IH]; intros r; cbn [ReadPhysicalRecord_loop]; [done|].
  case_test; [|intros Ep%(inj Some); by apply (parse_in_file _ _ _ _ _ Ep)]. case_test; [intros [= <- <- <-]; unfold in_file; cbn [set_buffer end_of_buffer_offset_ buffer_ file_ length]; lia|]. cbn [set_buffer file_].
  destruct (Read_spec (rest:=rest) (file_ r) kBlockSize) as (f & -> & Ef); [unfold kBlockSize; lia|].
  cbn [ok state_ Status_OK negb]. intros H Hr. apply IH in H; [done|]. clear IH H. destruct Hr as (H0 & Ht & Hm).
  set (tk := take _ _). assert (zlen tk + zlen (rest f) = zlen (rest (file_ r))) as El
    by (unfold tk; rewrite Ef, length_take, length_drop; lia).
  assert (u64 (end_of_buffer_offset_ r + zlen tk) = end_of_buffer_offset_ r + zlen tk) as Eu by (apply u64_small; lia).
  match goal with |- context [if ?b then _ else _] => destruct b end; unfold in_file;
    cbn [set_buffer set_file set_end set_eof end_of_buffer_offset_ buffer_ file_]; rewrite Eu; lia.
Qed.

Lemma in_file_data total r o d : at_offset r o d -> in_file total r -> zlen d <= total.
Proof.
  intros [Hr Hb Hf He Hi Hl Hs] (H0 & Ht & Hm).
  assert (zlen (buffer_ r) + zlen (rest (file_ r)) = zlen d) as Ed by (rewrite Hb, Hf, length_take, length_drop; lia). lia.
Qed.

(** The position of a record that was just read. *)
Lemma record_position total r o' t (frag d : bytes) o :
  at_offset r o' d -> in_file total r -> zlen (filler o ++ phys extend t frag ++ d) <= total ->
  u64 (end_of_buffer_offset_ r - zlen (buffer_ r) - kHeaderSize - zlen frag) = total - zlen (filler o ++ phys extend t frag ++ d) + zlen (filler o).
Proof.
  intros [Hr Hb Hf He Hi Hl Hs] (H0 & Ht & Hm) Hle. pose proof (length_phys extend t frag) as Lp.
  assert (zlen (buffer_ r) + zlen (rest (file_ r)) = zlen d) as Ed by (rewrite Hb, Hf, length_take, length_drop; lia).
  rewrite !length_app in *. unfold kHeaderSize in *. rewrite u64_small; lia.
Qed.

(** What one round of [ReadRecord] does on each result it meets in a
    well-formed log. *)
Lemma ReadRecord_round fuel (r r' : Reader F) t (frag scratch : bytes) (in_frag : bool) p :
  ReadPhysicalRecord extend r = Some (r', RecordType_Z t, frag) -> resyncing_ r' = false ->
  (in_frag = false -> scratch = [] /\ (t = kFullType \/ t = kFirstType)) ->
  (in_frag = true -> t = kMiddleType \/ t = kLastType) ->
  exists p', (0 <= p -> 0 <= p') /\
  p' = (if in_frag then p else u64 (end_of_buffer_offset_ r' - zlen (buffer_ r') - kHeaderSize - zlen frag)) /\
  ReadRecord_loop extend (S fuel) r in_frag scratch p =
  match t with
  | kFullType | kLastType => Some (set_last F r' p', Some (scratch ++ frag))
  | _ => ReadRecord_loop extend fuel r' true (scratch ++ frag) p'
  end.
Proof.
  intros E Hs H0 H1. cbn [ReadRecord_loop]. rewrite E. cbn [mbind option_bind]. rewrite Hs. cbn [andb].
  destruct in_frag.
  - exists p. split; [done|]. split; [done|]. by destruct (H1 eq_refl) as [->| ->].
  - destruct (H0 eq_refl) as [-> [->| ->]].
    all: eexists; split; [intros _; apply u64_range|]; split; [reflexivity|]; cbn; reflexivity.
Qed.

Lemma ReadRecord_eof fuel (r r' : Reader F) (scratch : bytes) (in_frag : bool) p :
  ReadPhysicalRecord extend r = Some (r', kEof, []) -> resyncing_ r' = false ->
  ReadRecord_loop extend (S fuel) r in_frag scratch p = Some (r', None).
Proof. intros E Hs. cbn [ReadRecord_loop]. rewrite E. cbn [mbind option_bind]. by rewrite Hs. Qed.

Lemma record_type_cases b e :
  record_type b e <> kZeroType /\
  (b = true -> record_type b e = kFullType \/ record_type b e = kFirstType) /\
  (b = false -> record_type b e = kMiddleType \/ record_type b e = kLastType).
Proof. destruct b, e; cbn; naive_solver. Qed.

(** The condition under which [log_bytes] has enough rounds. *)
Definition rounds_ok (n : nat) (o : Z) (left : bytes) (begin_ : bool) : Prop :=
  0 <= o <= kBlockSize /\
  (length left + (if begin_ then 2 else 1) <= n)%nat /\
  (begin_ = false -> left <> [] /\ start_offset o < kBlockSize - kHeaderSize).

(** One round of [log_bytes]: a fragment, the last one or not. *)
Lemma log_bytes_round n o (left : bytes) (begin_ : bool) :
  rounds_ok (S n) o left begin_ ->
  exists frag rest' : bytes, left = frag ++ rest' /\
    let o'' := start_offset o + kHeaderSize + zlen frag in
    o'' <= kBlockSize /\
    ((rest' = [] /\ log_bytes extend (S n) o left begin_ =
        (filler o ++ phys extend (record_type begin_ true) frag, o'')) \/
     (rounds_ok n o'' rest' false /\ log_bytes extend (S n) o left begin_ =
        (filler o ++ phys extend (record_type begin_ false) frag ++
           fst (log_bytes extend n o'' rest' false),
         snd (log_bytes extend n o'' rest' false)))).
Proof.
  intros (Ho & Hn & Hb). pose proof (start_offset_range o Ho) as Hso.
  cbn [log_bytes]. set (avail := kBlockSize - start_offset o - kHeaderSize).
  set (m := Z.to_nat (Z.min (zlen left) avail)).
  exists (take m left), (drop m left). split; [by rewrite take_drop|].
  assert (zlen (take m left) = Z.min (zlen left) avail) as El by (rewrite length_take; lia).
  cbn zeta. split; [lia|]. destruct (drop m left) as [|b rest'] eqn:D; [by left|right].
  assert (length (drop m left) = S (length rest')) as Ld by by rewrite D.
  rewrite length_drop in Ld. assert (Z.min (zlen left) avail = avail) as Em by lia.
  split.
  - split; [unfold kHeaderSize in *; lia|]. split.
    + cbn [length]. destruct begin_; [lia|]. destruct (Hb eq_refl). lia.
    + intros _. split; [done|]. unfold start_offset at 1. rewrite El, Em.
      unfold kHeaderSize in *. case_test; unfold kBlockSize in *; lia.
  - destruct (log_bytes extend n _ (b :: rest') false) as [more o3].
    by rewrite <- !app_assoc.
Qed.

Lemma read_record n k o (left : bytes) (begin_ : bool) r (scratch d : bytes) p :
  rounds_ok n o left begin_ -> (n <= k)%nat -> (begin_ = true -> scratch = []) -> 0 <= p ->
  at_offset r o (fst (log_bytes extend n o left begin_) ++ d) ->
  exists r', ReadRecord_loop extend k r (negb begin_) scratch p =
      Some (r', Some (scratch ++ left)) /\
    at_offset r' (snd (log_bytes extend n o left begin_)) d /\ reports r' = reports r /\
    forall total, in_file total r -> in_file total r' /\
      last_record_offset_ r' = if begin_ then total - zlen (fst (log_bytes extend n o left begin_) ++ d) + zlen (filler o) else p.
Proof.
  revert k o left begin_ r scratch p.
  induction n as [|n IH]; intros k o left begin_ r scratch p Hok Hk Hscr Hp H;
    [destruct Hok as (_ & ? & _), begin_; lia|].
  destruct k as [|k]; [lia|].
  destruct (log_bytes_round _ _ _ _ Hok) as (frag & rest' & -> & Hfit & Hcase).
  destruct Hcase as [[-> E]|[Hok' E]]; rewrite E in *; cbn [fst snd] in *;
    rewrite <- !app_assoc in H.
  all: destruct (record_type_cases begin_ true) as (Z1 & T1 & F1).
  all: destruct (record_type_cases begin_ false) as (Z2 & T2 & F2).
  all: destruct (read_whole _ _ _ _ _ H) as (r1 & E1 & H1 & Hrep); [done|done|].
  all: edestruct (ReadRecord_round k r r1 _ frag scratch (negb begin_) p E1)
    as (p' & Hp' & Ep' & ->); [apply H1|destruct begin_; naive_solver|
                         destruct begin_; naive_solver|].
  - exists (set_last F r1 p'). rewrite !app_nil_r.
    split; [by destruct begin_|]. split; [apply at_offset_set_last; auto|]. split; [done|].
    intros total Ht. pose proof (physical_in_file _ _ _ _ _ E1 Ht) as Ht1. split; [done|]. cbn [set_last last_record_offset_].
    rewrite Ep'. destruct begin_; [|done]. cbn [negb]. rewrite <- app_assoc. by apply (record_position total r1 _ _ _ _ o H1 Ht1 (in_file_data _ _ _ _ H Ht)).
  - destruct (IH k _ _ _ r1 (scratch ++ frag) p' Hok') as (r2 & E2 & H2 & Hr2 & Ho2);
      [lia|done|auto|done|].
    exists r2. rewrite app_assoc, Hr2, <- E2. split; [by destruct begin_|]. split; [done|]. split; [done|].
    intros total Ht. pose proof (physical_in_file _ _ _ _ _ E1 Ht) as Ht1. destruct (Ho2 total Ht1) as [Ht2 El]. split; [done|].
    rewrite El, Ep'. destruct begin_; [|done]. cbn [negb]. rewrite <- !app_assoc. by apply (record_position total r1 _ _ _ _ o H1 Ht1 (in_file_data _ _ _ _ H Ht)).
Qed.

(** A record of which the file has less than all is not returned. *)
Lemma read_record_cut n k o (left : bytes) (begin_ : bool) r (scratch : bytes) p m :
  rounds_ok n o left begin_ -> (n <= k)%nat -> (begin_ = true -> scratch = []) -> 0 <= p ->
  (m < length (fst (log_bytes extend n o left begin_)))%nat ->
  at_offset r o (take m (fst (log_bytes extend n o left begin_))) ->
  exists r', ReadRecord_loop extend k r (negb begin_) scratch p = Some (r', None) /\
    reports r' = reports r.
Proof.
  revert k o left begin_ r scratch p m.
  induction n as [|n IH]; intros k o left begin_ r scratch p m Hok Hk Hscr Hp Hm H;
    [destruct Hok as (_ & ? & _), begin_; lia|].
  destruct k as [|k]; [lia|].
  destruct (log_bytes_round _ _ _ _ Hok) as (frag & rest' & -> & Hfit & Hcase).
  destruct Hcase as [[-> E]|[Hok' E]]; rewrite E in *; cbn [fst snd] in *; clear E.
  - destruct (read_cut _ _ _ _ _ _ H eq_refl Hm Hfit) as (r1 & E1 & Hrep & Hs).
    exists r1. by rewrite (ReadRecord_eof k r r1).
  - rewrite app_assoc in H, Hm. set (here := filler o ++ _) in *.
    destruct (decide (m < length here)%nat) as [Hlt|Hge].
    + rewrite take_app_le in H by lia.
      destruct (read_cut _ _ _ _ _ _ H eq_refl Hlt Hfit) as (r1 & E1 & Hrep & Hs).
      exists r1. by rewrite (ReadRecord_eof k r r1).
    + rewrite take_app_ge in H by lia. unfold here in H. rewrite <- app_assoc in H.
      destruct (record_type_cases begin_ false) as (Z2 & T2 & F2).
      destruct (read_whole _ _ _ _ _ H) as (r1 & E1 & H1 & Hrep); [done|done|].
      edestruct (ReadRecord_round k r r1 _ frag scratch (negb begin_) p E1)
        as (p' & Hp' & _ & ->); [apply H1|destruct begin_; naive_solver|
                             destruct begin_; naive_solver|].
      destruct (IH k _ _ _ r1 (scratch ++ frag) p' (m - length here)%nat Hok')
        as (r2 & E2 & Hr2); [lia|done|auto|rewrite length_app in Hm; lia|done|].
      exists r2. rewrite Hr2, <- E2. by destruct begin_.
Qed.

Lemma ReadRecord_at fuel r o d :
  at_offset r o d -> ReadRecord extend fuel r = ReadRecord_loop extend fuel r false [] 0.
Proof.
  intros H. unfold ReadRecord. rewrite (ao_initial _ _ _ H), (proj2 (Z.ltb_ge _ _)); [done|].
  apply H.
Qed.

Lemma record_rounds o (s : bytes) :
  0 <= o <= kBlockSize -> rounds_ok (S (S (length s))) o s true.
Proof. intros H. split; [done|]. split; [lia|done]. Qed.

(** The bound on the rounds of [ReadRecord] that every record here meets. *)
Definition record_fuel (slices : list bytes) : nat := S (S (list_max (map length slices))).

Lemma record_fuel_cons s slices :
  (S (S (length s)) <= record_fuel (s :: slices))%nat /\
  (record_fuel slices <= record_fuel (s :: slices))%nat.
Proof. unfold record_fuel, list_max. cbn [map fold_right]. lia. Qed.

(** The records whose last byte is among the first [m] bytes of the log. *)
Fixpoint complete_records (o : Z) (m : nat) (slices : list bytes) : list bytes :=
  match slices with
  | [] => []
  | s :: slices' =>
      let b := record_bytes extend o s in
      if (length (fst b) <=? m)%nat
      then s :: complete_records (snd b) (m - length (fst b)) slices' else []
  end.

Lemma record_bytes_range o (s : bytes) :
  0 <= o <= kBlockSize -> 0 <= snd (record_bytes extend o s) <= kBlockSize.
Proof.
  intros Ho. unfold record_bytes. generalize (record_rounds o s Ho).
  generalize (S (S (length s))) as n, true as b. clear Ho. intros n. revert o s.
  induction n as [|n IH]; intros o s b Hok; [destruct Hok as (? & ? & ?); destruct b; lia|].
  destruct (log_bytes_round _ _ _ _ Hok) as (frag & rest' & -> & Hfit & [[-> ->]|[Hok' ->]]);
    cbn [snd]; [|by apply IH].
  destruct Hok as (Ho & _). pose proof (start_offset_range o Ho).
  unfold kHeaderSize in *; lia.
Qed.

Lemma records_bytes_cons o s slices :
  records_bytes extend o (s :: slices) =
  (fst (record_bytes extend o s) ++
     fst (records_bytes extend (snd (record_bytes extend o s)) slices),
   snd (records_bytes extend (snd (record_bytes extend o s)) slices)).
Proof.
  cbn [records_bytes]. destruct (record_bytes extend o s) as [b o1]. cbn [fst snd].
  by destruct (records_bytes extend o1 slices).
Qed.

(** Reading the first [m] bytes of a log gives the records that lie wholly
    in them, and no report. *)
Lemma read_all_prefix slices o r m fuel n :
  at_offset r o (take m (fst (records_bytes extend o slices))) ->
  (record_fuel slices <= fuel)%nat -> (length slices < n)%nat ->
  exists r', read_all extend n fuel r = Some (complete_records o m slices, r') /\
    reports r' = reports r.
Proof.
  revert o r m n. induction slices as [|s slices IH]; intros o r m n H Hf Hn;
    (destruct n as [|n]; [cbn in Hn; lia|]); cbn [read_all];
    erewrite ReadRecord_at by exact H; pose proof (ao_range _ _ _ H) as Hr.
  - cbn [records_bytes fst] in H. rewrite take_nil in H.
    destruct (read_cut r o kFullType [] [] 0 H) as (r1 & E1 & Hrep & Hs); [done| | |].
    + pose proof (length_phys extend kFullType []). rewrite length_app.
      unfold kHeaderSize in *; lia.
    + pose proof (start_offset_range o Hr). cbn [length Z.of_nat]. lia.
    + destruct fuel as [|fuel]; [unfold record_fuel in Hf; lia|].
      exists r1. by rewrite (ReadRecord_eof fuel r r1).
  - rewrite records_bytes_cons in H. cbn [fst complete_records] in *.
    pose proof (record_rounds o s Hr) as Hok.
    destruct (record_fuel_cons s slices) as [Hf1 Hf2]. cbn [length] in Hn.
    destruct (length (fst (record_bytes extend o s)) <=? m)%nat eqn:E.
    + apply Nat.leb_le in E. rewrite take_app_ge in H by done.
      destruct (read_record _ fuel _ _ _ r [] _ 0 Hok ltac:(lia) (fun _ => eq_refl)
        ltac:(lia) H) as (r1 & E1 & H1 & Hrep & _).
      cbn [negb app] in E1. rewrite E1.
      destruct (IH _ r1 _ n H1) as (r2 & E2 & Hr2); [lia..|].
      rewrite E2. exists r2. by rewrite Hr2.
    + apply Nat.leb_gt in E. rewrite take_app_le in H by lia.
      destruct (read_record_cut _ fuel _ _ _ r [] 0 m Hok) as (r1 & E1 & Hrep);
        [lia|done|lia|exact E|exact H|].
      cbn [negb] in E1. rewrite E1. by exists r1.
Qed.

(** What a client's loop body computes over a list of records. *)
Fixpoint feed {A} (body : A -> bytes -> option (A * bool)) (a : A) (slices : list bytes) : option A :=
  match slices with
  | [] => Some a
  | s :: slices => '(a, go_on) ← body a s; if (go_on : bool) then feed body a slices else Some a
  end.

(** A client that reads the first [m] bytes of a log sees the records that lie
    wholly in them, in order, and no report. *)
Lemma read_loop_prefix {A} (report : A -> Status -> A) (body : A -> bytes -> option (A * bool)) slices o r m fuel n a a' :
  at_offset r o (take m (fst (records_bytes extend o slices))) ->
  (record_fuel slices <= fuel)%nat -> (length slices < n)%nat -> feed body a (complete_records o m slices) = Some a' ->
  exists r', read_loop extend report body n fuel r a = Some (r', a').
Proof.
  revert o r m n a. induction slices as [|s slices IH]; intros o r m n a H Hf Hn Hfeed;
    (destruct n as [|n]; [cbn in Hn; lia|]); cbn [read_loop];
    erewrite ReadRecord_at by exact H; pose proof (ao_range _ _ _ H) as Hr.
  - cbn [records_bytes fst] in H. rewrite take_nil in H.
    destruct (read_cut r o kFullType [] [] 0 H) as (r1 & E1 & Hrep & Hs); [done| | |].
    + pose proof (length_phys extend kFullType []). rewrite length_app. unfold kHeaderSize in *; lia.
    + pose proof (start_offset_range o Hr). cbn [length Z.of_nat]. lia.
    + destruct fuel as [|fuel]; [unfold record_fuel in Hf; lia|].
      rewrite (ReadRecord_eof fuel r r1) by done. cbn [mbind option_bind]. rewrite Hrep, drop_all. cbn [map fold_left].
      injection Hfeed as ->. by exists r1.
  - rewrite records_bytes_cons in H. cbn [fst complete_records] in *. pose proof (record_rounds o s Hr) as Hok.
    destruct (record_fuel_cons s slices) as [Hf1 Hf2]. cbn [length] in Hn.
    destruct (length (fst (record_bytes extend o s)) <=? m)%nat eqn:E.
    + apply Nat.leb_le in E. rewrite take_app_ge in H by done.
      destruct (read_record _ fuel _ _ _ r [] _ 0 Hok ltac:(lia) (fun _ => eq_refl) ltac:(lia) H) as (r1 & E1 & H1 & Hrep & _).
      cbn [negb app] in E1. rewrite E1. cbn [mbind option_bind]. rewrite Hrep, drop_all. cbn [map fold_left feed] in Hfeed |- *.
      destruct (body a s) as [[a1 [|]]|]; cbn [mbind option_bind] in Hfeed |- *; [|injection Hfeed as ->; by exists r1|done].
      by apply (IH _ r1 _ n a1 H1 ltac:(lia) ltac:(lia)).
    + apply Nat.leb_gt in E. rewrite take_app_le in H by lia.
      destruct (read_record_cut _ fuel _ _ _ r [] 0 m Hok) as (r1 & E1 & Hrep); [lia|done|lia|exact E|exact H|].
      cbn [negb] in E1. rewrite E1. cbn [mbind option_bind]. rewrite Hrep, drop_all. injection Hfeed as ->. by exists r1.
Qed.

Lemma complete_records_all o slices m :
  (length (fst (records_bytes extend o slices)) <= m)%nat ->
  complete_records o m slices = slices.
Proof.
  revert o m. induction slices as [|s slices IH]; intros o m Hm; [done|].
  rewrite records_bytes_cons in Hm. cbn [fst complete_records] in *.
  rewrite length_app in Hm. rewrite (proj2 (Nat.leb_le _ _)) by lia.
  f_equal. apply IH. lia.
Qed.

Lemma complete_records_prefix o slices m : complete_records o m slices `prefix_of` slices.
Proof.
  revert o m. induction slices as [|s slices IH]; intros o m; cbn [complete_records].
  - done.
  - destruct (_ <=? m)%nat; [by apply prefix_cons|apply prefix_nil].
Qed.

(** *** Any file at all *)

(** What is still to be consumed. *)
Definition remaining (r : Reader F) : nat := (length (buffer_ r) + length (rest (file_ r)))%nat.

Lemma remaining_ReportDrop r n s : remaining (ReportDrop F r n s) = remaining r.
Proof. unfold ReportDrop. by case_test. Qed.

Lemma parse_progress (r r' : Reader F) t (frag : bytes) :
  kHeaderSize <= zlen (buffer_ r) -> parse_physical extend r = (r', t, frag) ->
  (remaining r' < remaining r)%nat.
Proof.
  intros Hb. unfold parse_physical. set (len := Z.lor _ _).
  assert (0 <= len) as Hlen.
  { apply Z.lor_nonneg. split; [|apply Z.shiftl_nonneg]; apply unsigned_range. }
  unfold kHeaderSize, ReportCorruption in *.
  repeat case_test; intros [= <- <- <-]; rewrite ?remaining_ReportDrop; unfold remaining;
    cbn [set_buffer buffer_ file_ length]; rewrite ?length_drop; lia.
Qed.

(** Every physical record but the end of the file consumes input. *)
Lemma physical_progress (r r' : Reader F) t (frag : bytes) :
  ReadPhysicalRecord extend r = Some (r', t, frag) ->
  t = kEof \/ (remaining r' < remaining r)%nat.
Proof.
  unfold ReadPhysicalRecord. generalize 3%nat as n. intros n. revert r.
  induction n as [|n IH]; intros r; cbn [ReadPhysicalRecord_loop]; [done|].
  case_test; [|intros Ep%(inj Some); right; by eapply parse_progress].
  case_test; [intros [= <- <- <-]; by left|]. cbn [set_buffer file_].
  destruct (Read_spec (rest:=rest) (file_ r) kBlockSize) as (f & -> & Ef);
    [unfold kBlockSize; lia|].
  cbn [ok state_ Status_OK negb]. intros H. apply IH in H as [H|H]; [by left|right].
  eapply Nat.lt_le_trans; [exact H|]. clear H IH.
  assert (length (take (Z.to_nat kBlockSize) (rest (file_ r))) + length (rest f) =
          length (rest (file_ r)))%nat as El.
  { rewrite Ef, length_take, length_drop. lia. }
  revert El. set (tk := take _ _). intros El.
  match goal with |- context [if ?b then _ else _] => destruct b end; unfold remaining;
    cbn [set_buffer set_file set_end set_eof buffer_ file_]; lia.
Qed.

(** Three rounds are enough: a refill that leaves less than a header was short,
    and then the next round sees the end of the file. *)
Lemma physical_returns (r : Reader F) : exists r' t frag, ReadPhysicalRecord extend r = Some (r', t, frag).
Proof.
  assert (forall k (r : Reader F), (0 < k)%nat -> (zlen (buffer_ r) < kHeaderSize -> eof_ r = true) ->
    exists r' t frag, ReadPhysicalRecord_loop extend k r = Some (r', t, frag)) as Hlast.
  { intros [|k] r0 Hk He; [lia|]. cbn [ReadPhysicalRecord_loop]. case_test; [rewrite He by done; eauto|].
    destruct (parse_physical extend r0) as [[r' t] frag]. eauto. }
  unfold ReadPhysicalRecord. generalize (Nat.lt_0_succ 1). generalize 2%nat as k. intros k Hk. destruct (decide (zlen (buffer_ r) < kHeaderSize /\ eof_ r = false)) as [[Hb He]|Hn].
  - cbn [ReadPhysicalRecord_loop]. rewrite (proj2 (Z.ltb_lt _ _)), He by done. cbn [set_buffer file_].
    destruct (Read_spec (rest:=rest) (file_ r) kBlockSize) as (f & -> & Ef); [unfold kBlockSize; lia|].
    cbn [ok state_ Status_OK negb]. set (tk := take _ _). apply Hlast; [done|]. case_test; [done|].
    cbn [set_buffer set_file set_end buffer_]. unfold kHeaderSize, kBlockSize in *. lia.
  - apply Hlast; [lia|]. intros Hb. destruct (eof_ r); [done|]. by destruct Hn.
Qed.

Lemma remaining_if_resync (b : bool) r :
  remaining (if b then set_resyncing F r false else r) = remaining r.
Proof. by destruct b. Qed.

Lemma remaining_ReportCorruption r n s : remaining (ReportCorruption F r n s) = remaining r.
Proof. apply remaining_ReportDrop. Qed.

Lemma remaining_if_report (b : bool) r n s :
  remaining (if b then ReportCorruption F r n s else r) = remaining r.
Proof. destruct b; [apply remaining_ReportDrop|done]. Qed.

Lemma ReadRecord_loop_returns fuel (r : Reader F) (in_frag : bool) (scratch : bytes) p :
  (remaining r < fuel)%nat ->
  exists r' o, ReadRecord_loop extend fuel r in_frag scratch p = Some (r', o) /\
    (o = None \/ (remaining r' < remaining r)%nat).
Proof.
  revert r in_frag scratch p. induction fuel as [|fuel IH]; intros r in_frag scratch p Hf; [lia|].
  assert (forall r1 i s q, (remaining r1 < remaining r)%nat ->
    exists r' o, ReadRecord_loop extend fuel r1 i s q = Some (r', o) /\
      (o = None \/ (remaining r' < remaining r)%nat)) as IH'.
  { intros r1 i s q H1. destruct (IH r1 i s q) as (r' & o & E & H); [lia|].
    exists r', o. split; [done|]. destruct H; [by left|right; lia]. }
  clear IH. cbn [ReadRecord_loop].
  destruct (physical_returns r) as (r1 & t & frag & E). rewrite E. cbn [mbind option_bind].
  apply physical_progress in E as [->|Hlt].
  { rewrite !andb_false_r. do 2 eexists. split; [reflexivity|by left]. }
  destruct (resyncing_ r1 && (t =? RecordType_Z kMiddleType)); [auto|].
  destruct (resyncing_ r1 && (t =? RecordType_Z kLastType)); [auto|].
  set (r2 := if resyncing_ r1 then _ else r1).
  assert (remaining r2 < remaining r)%nat as H2 by (unfold r2; by rewrite remaining_if_resync).
  clearbody r2. clear Hlt.
  repeat match goal with
  | |- context [if ?b then ReadRecord_loop _ _ _ _ _ _ else _] => destruct b
  | |- context [if ?b then Some _ else _] => destruct b
  | |- context [if ?b =? ?c then _ else _] => destruct (b =? c)
  end.
  all: try (apply IH'; rewrite ?remaining_if_report, ?remaining_ReportCorruption; done).
  all: do 2 eexists; split; [reflexivity|right].
  all: change (remaining (set_last F ?a ?b)) with (remaining a).
  all: rewrite ?remaining_if_report; done.
Qed.

Lemma Skip_remaining (r r' : Reader F) b :
  SkipToInitialBlock F r = (r', b) -> (remaining r' <= remaining r)%nat.
Proof.
  unfold SkipToInitialBlock.
  match goal with |- context [set_end F r ?l] => set (loc := l) end. case_test; [|by intros [= <- <-]].
  destruct (Skip_spec (rest:=rest) (file_ r) loc) as (f & Es & Ef); [lia|].
  cbn [set_end file_]. rewrite Es. cbn [ok state_ Status_OK]. intros [= <- <-].
  unfold remaining. cbn [set_file set_end buffer_ file_]. rewrite Ef, length_drop. lia.
Qed.

Lemma ReadRecord_returns fuel (r : Reader F) :
  (remaining r < fuel)%nat ->
  exists r' o, ReadRecord extend fuel r = Some (r', o) /\
    (o = None \/ (remaining r' < remaining r)%nat).
Proof.
  intros Hf. unfold ReadRecord. case_test; [|by apply ReadRecord_loop_returns].
  destruct (SkipToInitialBlock F r) as [r1 b] eqn:Es. apply Skip_remaining in Es.
  destruct b; [|do 2 eexists; split; [done|by left]].
  destruct (ReadRecord_loop_returns fuel r1 false [] 0) as (r' & o & E' & H); [lia|].
  exists r', o. split; [done|]. destruct H; [by left|right; lia].
Qed.

Lemma read_all_returns n m (r : Reader F) :
  (remaining r < n)%nat -> (remaining r < m)%nat ->
  exists recs r', read_all extend n m r = Some (recs, r').
Proof.
  revert r. induction n as [|n IH]; intros r Hn Hm; [lia|]. cbn [read_all].
  destruct (ReadRecord_returns m r Hm) as (r1 & [rec|] & -> & H); [|by do 2 eexists].
  destruct H as [|H]; [done|]. destruct (IH r1) as (recs & r' & ->); [lia..|].
  by do 2 eexists.
Qed.
End Correct.

(** ** The whole log *)

Section Log.
Context (extend : Z -> bytes -> Z) `{!CrcLaws extend}.
Context (W : WritableFile) (contents : WFile W -> bytes) `{!ReliableWrites W contents}.
Context (F : SequentialFile) (rest : SFile F -> bytes) `{!ReliableReads F rest}.

Lemma written_image (f : WFile W) slices :
  exists w, AddRecords extend (Writer_new extend f) slices = (w, Status_OK) /\
    contents (dest_ w) = contents f ++ fst (records_bytes extend 0 slices) /\
    block_offset_ w = snd (records_bytes extend 0 slices).
Proof.
  destruct (AddRecords_spec extend W contents (Writer_new extend f) slices)
    as (w & E & _ & C & O); [split; [unfold kBlockSize; cbn; lia|done]|].
  by exists w.
Qed.

(** At a block boundary the offset may be written as [0] or as the size. *)
Lemma log_bytes_boundary n (s : bytes) b :
  log_bytes extend (S n) kBlockSize s b = log_bytes extend (S n) 0 s b.
Proof. done. Qed.

Lemma records_bytes_boundary slices :
  fst (records_bytes extend kBlockSize slices) = fst (records_bytes extend 0 slices).
Proof.
  destruct slices as [|s slices]; [done|]. rewrite !records_bytes_cons.
  unfold record_bytes. by rewrite log_bytes_boundary.
Qed.

Lemma log_bytes_offset n o (s : bytes) b :
  rounds_ok n o s b ->
  (snd (log_bytes extend n o s b) - zlen (fst (log_bytes extend n o s b)) - o) mod kBlockSize
  = 0.
Proof.
  revert o s b. induction n as [|n IH]; intros o s b Hok;
    [destruct Hok as (? & ? & ?); destruct b; lia|].
  assert (zlen (filler o) + o = start_offset o \/
          zlen (filler o) + o = start_offset o + kBlockSize) as Hfill.
  { destruct Hok as (? & _). unfold filler, start_offset. case_test; [right|left; cbn; lia].
    rewrite length_replicate. lia. }
  destruct (log_bytes_round extend _ _ _ _ Hok) as (frag & rest' & -> & Hfit & Hcase).
  destruct Hcase as [[-> ->]|[Hok' ->]]; cbn [fst snd]; rewrite !length_app.
  - pose proof (length_phys extend (record_type b true) frag).
    destruct Hfill; [|rewrite <- (Z_mod_plus_full _ 1)];
      match goal with |- ?a mod _ = 0 => replace a with 0 by lia end; done.
  - pose proof (length_phys extend (record_type b false) frag).
    specialize (IH _ _ _ Hok'). destruct (log_bytes extend n _ rest' false) as [more o3].
    cbn [fst snd] in *. rewrite <- IH.
    destruct Hfill; [f_equal; lia|]. rewrite <- (Z_mod_plus_full _ 1). f_equal. lia.
Qed.

Lemma records_bytes_offset o slices :
  0 <= o <= kBlockSize ->
  0 <= snd (records_bytes extend o slices) <= kBlockSize /\
  (snd (records_bytes extend o slices) - zlen (fst (records_bytes extend o slices)) - o)
    mod kBlockSize = 0.
Proof.
  revert o. induction slices as [|s slices IH]; intros o Ho.
  { cbn [records_bytes fst snd length Z.of_nat].
    split; [done|]. by rewrite Z.sub_0_r, Z.sub_diag. }
  rewrite records_bytes_cons. cbn [fst snd].
  pose proof (record_bytes_range extend o s Ho) as Hr.
  destruct (IH _ Hr) as [Hr' Hm]. split; [done|].
  pose proof (log_bytes_offset _ _ _ _ (record_rounds o s Ho)) as Hs.
  fold (record_bytes extend o s) in Hs. revert Hm Hs. rewrite length_app.
  generalize (snd (records_bytes extend (snd (record_bytes extend o s)) slices)).
  generalize (snd (record_bytes extend o s)). intros a c Hm Hs.
  match type of Hm with ?x mod _ = _ => match type of Hs with ?y mod _ = _ =>
    match goal with |- ?z mod _ = _ => replace z with (x + y) by lia;
      rewrite Z.add_mod, Hm, Hs by (unfold kBlockSize; lia); done end end end.
Qed.

Lemma records_bytes_app o s1 s2 :
  fst (records_bytes extend o (s1 ++ s2)) =
  fst (records_bytes extend o s1) ++
  fst (records_bytes extend (snd (records_bytes extend o s1)) s2).
Proof.
  revert o. induction s1 as [|s s1 IH]; intros o; [done|].
  cbn [app]. rewrite !records_bytes_cons. cbn [fst snd]. by rewrite IH, app_assoc.
Qed.

Lemma records_bytes_snoc o s1 s :
  records_bytes extend o (s1 ++ [s]) =
  (fst (records_bytes extend o s1) ++ fst (record_bytes extend (snd (records_bytes extend o s1)) s),
   snd (record_bytes extend (snd (records_bytes extend o s1)) s)).
Proof using Type.
  revert o. induction s1 as [|a s1 IH]; intros o; cbn [app records_bytes].
  - cbn [fst snd]. destruct (record_bytes extend o s) as [b o']. cbn [fst snd app]. by rewrite app_nil_r.
  - destruct (record_bytes extend o a) as [b o']. rewrite IH.
    destruct (records_bytes extend o' s1) as [b2 o2]. cbn [fst snd]. by rewrite app_assoc.
Qed.

(** A client that reads a log from its start, cut at [m]. *)
Lemma read_cut_log {A} (report : A -> Status -> A) (body : A -> bytes -> option (A * bool)) (g : SFile F) reporter checksum slices m fuel n a a' :
  rest g = take m (fst (records_bytes extend 0 slices)) ->
  (record_fuel slices <= fuel)%nat -> (length slices < n)%nat -> feed body a (complete_records extend 0 m slices) = Some a' ->
  exists r', read_loop extend report body n fuel (Reader_new g reporter checksum 0) a = Some (r', a').
Proof.
  intros Hg Hf Hn Hfeed. pose proof (Reader_new_at F rest g reporter checksum) as H.
  rewrite Hg, <- records_bytes_boundary in H. 
  apply (read_loop_prefix extend F rest report body slices _ _ m fuel n a a' H Hf Hn). by destruct slices.
Qed.

Lemma read_log {A} (report : A -> Status -> A) (body : A -> bytes -> option (A * bool)) (g : SFile F) reporter slices fuel n a a' :
  rest g = fst (records_bytes extend 0 slices) ->
  (record_fuel slices <= fuel)%nat -> (length slices < n)%nat -> feed body a slices = Some a' ->
  exists r', read_loop extend report body n fuel (Reader_new g reporter true 0) a = Some (r', a').
Proof.
  intros Hg Hf Hn Hfeed. apply (read_cut_log report body g reporter true slices (length (rest g)) fuel n); [by rewrite Hg, firstn_all|done|done|].
  by rewrite complete_records_all by (by rewrite Hg).
Qed.

(** A reader at the start of a file with the first [m] bytes of a log. *)
Lemma read_from_start (g : SFile F) reporter slices m fuel n :
  rest g = take m (fst (records_bytes extend 0 slices)) ->
  (record_fuel slices <= fuel)%nat -> (length slices < n)%nat ->
  exists r, read_all extend n fuel (Reader_new g reporter true 0) =
      Some (complete_records extend 0 m slices, r) /\ reports r = [].
Proof.
  intros Hg Hf Hn. pose proof (Reader_new_at F rest g reporter true) as H.
  rewrite Hg, <- records_bytes_boundary in H.
  destruct (read_all_prefix extend F rest slices _ _ _ fuel n H Hf Hn) as (r & E & Hrep).
  exists r. rewrite E, Hrep. split; [|done]. do 2 f_equal.
  by destruct slices.
Qed.
End Log.

(** ** Properties *)

(** C9: The write-ahead log loses nothing and invents nothing.  Writing any
    list of records through [AddRecord] to an empty file succeeds, and a
    checksumming reader that is given the file returns exactly those records,
    in order, and reports no corruption.  The bounds on the reader's loops are
    met by any [fuel] and [n] at least as large as stated. *)
Theorem log_roundtrip extend `{!CrcLaws extend}
    W contents `{!ReliableWrites W contents} F rest `{!ReliableReads F rest}
    (f : WFile W) (g : SFile F) (slices : list bytes) (reporter : bool) fuel n :
  contents f = [] ->
  rest g = contents (dest_ (fst (AddRecords extend (Writer_new extend f) slices))) ->
  (record_fuel slices <= fuel)%nat -> (length slices < n)%nat ->
  snd (AddRecords extend (Writer_new extend f) slices) = Status_OK /\
  exists r, read_all extend n fuel (Reader_new g reporter true 0) = Some (slices, r) /\
    reports r = [].
Proof.
  intros Hf Hg H1 H2. destruct (written_image extend W contents f slices) as (w & E & C & _).
  rewrite E in *. cbn [fst snd] in *. split; [done|]. rewrite Hf, app_nil_l in C.
  destruct (read_from_start extend F rest g reporter slices
    (length (fst (records_bytes extend 0 slices))) fuel n) as (r & Er & Hr);
    [by rewrite Hg, C, firstn_all|done|done|].
  exists r. by rewrite Er, complete_records_all.
Qed.

(** Two records, one of them empty. *)
Definition sample_records : list bytes := [str:"hello"; []; str:"world"].

Definition sample_log : bytes :=
  dest_ (fst (AddRecords (W:=MemWritable) Extend_ref (Writer_new (W:=MemWritable) Extend_ref [])
    sample_records)).

Lemma log_roundtrip_witness :
  exists r, read_all Extend_ref 4 7 (Reader_new (F:=MemSequential) sample_log true true 0) =
    Some (sample_records, r) /\ reports r = [].
Proof.
  exact (proj2 (log_roundtrip Extend_ref MemWritable (fun f => f) MemSequential (fun f => f)
    [] sample_log sample_records true 7 4 eq_refl eq_refl ltac:(vm_compute; lia) ltac:(vm_compute; lia))).
Defined.


(** C10: Recovery after a crash that cut the log at an arbitrary byte.  A file
    that holds the first [m] bytes of a log reads back as exactly the records
    whose last byte survived, which is a prefix of what was written, and the
    cut itself is never reported as corruption. *)
Theorem log_truncation extend `{!CrcLaws extend}
    W contents `{!ReliableWrites W contents} F rest `{!ReliableReads F rest}
    (f : WFile W) (g : SFile F) (slices : list bytes) (reporter : bool) (m fuel n : nat) :
  contents f = [] ->
  rest g = take m (contents (dest_ (fst (AddRecords extend (Writer_new extend f) slices)))) ->
  (record_fuel slices <= fuel)%nat -> (length slices < n)%nat ->
  complete_records extend 0 m slices `prefix_of` slices /\
  exists r, read_all extend n fuel (Reader_new g reporter true 0) =
      Some (complete_records extend 0 m slices, r) /\ reports r = [].
Proof.
  intros Hf Hg H1 H2. destruct (written_image extend W contents f slices) as (w & E & C & _).
  rewrite E in *. cbn [fst snd] in *. rewrite Hf, app_nil_l in C.
  split; [apply complete_records_prefix|].
  apply (read_from_start extend F rest); try done. by rewrite Hg, C.
Qed.

(** The sample log cut in the middle of its second record. *)
Lemma log_truncation_witness :
  exists r, read_all Extend_ref 4 7
      (Reader_new (F:=MemSequential) (take 15 sample_log) true true 0) =
    Some (complete_records Extend_ref 0 15 sample_records, r) /\ reports r = [].
Proof.
  exact (proj2 (log_truncation Extend_ref MemWritable (fun f => f) MemSequential (fun f => f)
    [] (take 15 sample_log) sample_records true 15 7 4 eq_refl eq_refl
    ltac:(vm_compute; lia) ltac:(vm_compute; lia))).
Defined.


(** Continuing an existing log.  A writer opened at the length of a log
    file ([Writer(dest, dest_length)]) appends records so that a reader of the
    whole file sees the records of both writers in order. *)
Theorem log_reopen extend `{!CrcLaws extend}
    W contents `{!ReliableWrites W contents} F rest `{!ReliableReads F rest}
    (f : WFile W) (g : SFile F) (s1 s2 : list bytes) (reporter : bool) (fuel n : nat) :
  contents f = [] ->
  (let f1 := dest_ (fst (AddRecords extend (Writer_new extend f) s1)) in
   rest g = contents (dest_ (fst (AddRecords extend
     (Writer_new_at extend f1 (zlen (contents f1))) s2)))) ->
  (record_fuel (s1 ++ s2) <= fuel)%nat -> (length (s1 ++ s2) < n)%nat ->
  exists r, read_all extend n fuel (Reader_new g reporter true 0) = Some (s1 ++ s2, r) /\
    reports r = [].
Proof.
  intros Hf Hg H1 H2. destruct (written_image extend W contents f s1) as (w & E & C & O).
  rewrite E, Hf, app_nil_l in *. cbn [fst] in *.
  destruct (records_bytes_offset extend 0 s1) as [Hr Hm]; [unfold kBlockSize; lia|].
  set (o := zlen (contents (dest_ w)) mod kBlockSize).
  assert (0 <= o < kBlockSize) as Ho by (apply Z.mod_pos_bound; unfold kBlockSize; lia).
  destruct (AddRecords_spec extend W contents
    (Writer_new_at extend (dest_ w) (zlen (contents (dest_ w)))) s2) as (w2 & E2 & _ & C2 & _).
  { split; [cbn [Writer_new_at block_offset_]; fold o; lia|done]. }
  rewrite E2 in Hg. cbn [fst Writer_new_at dest_ block_offset_] in *. fold o in C2.
  assert (contents (dest_ w2) = fst (records_bytes extend 0 (s1 ++ s2))) as C3.
  { rewrite C2, records_bytes_app, C. f_equal. rewrite <- O in *.
    enough (block_offset_ w = o \/ (block_offset_ w = kBlockSize /\ o = 0)) as [->|[-> ->]];
      [done|symmetry; apply records_bytes_boundary|].
    rewrite Z.sub_0_r in Hm. apply Z.mod_divide in Hm as [q Hq]; [|unfold kBlockSize; lia].
    pose proof (Z.div_mod (zlen (contents (dest_ w))) kBlockSize) as D. fold o in D.
    rewrite C in D. unfold kBlockSize in *. lia. }
  destruct (read_from_start extend F rest g reporter (s1 ++ s2)
    (length (fst (records_bytes extend 0 (s1 ++ s2)))) fuel n) as (r & Er & Hrr);
    [by rewrite Hg, C3, firstn_all|done|done|].
  exists r. by rewrite Er, complete_records_all.
Qed.

Lemma log_reopen_witness :
  exists r, read_all Extend_ref 5 7
      (Reader_new (F:=MemSequential)
        (dest_ (fst (AddRecords (W:=MemWritable) Extend_ref
          (Writer_new_at (W:=MemWritable) Extend_ref sample_log (zlen sample_log))
          [str:"again"]))) true true 0) =
    Some (sample_records ++ [str:"again"], r) /\ reports r = [].
Proof.
  exact (log_reopen Extend_ref MemWritable (fun f => f) MemSequential (fun f => f)
    [] _ sample_records [str:"again"] true 7 5 eq_refl eq_refl
    ltac:(vm_compute; lia) ltac:(vm_compute; lia)).
Defined.


(** C32: The reader returns on every file.  Whatever the bytes are, reading
    until [ReadRecord] gives [false] ends after at most one round more than
    there are bytes, in both loops, and each call of [ReadPhysicalRecord] within
    its three rounds: no corruption makes it spin. *)
Theorem log_reader_terminates extend F rest `{!ReliableReads F rest}
    (g : SFile F) (reporter checksum : bool) (initial_offset : Z) (n : nat) :
  (length (rest g) < n)%nat ->
  exists recs r, read_all extend n n (Reader_new g reporter checksum initial_offset) =
    Some (recs, r).
Proof. intros Hn. apply (read_all_returns extend F rest); cbn; lia. Qed.

(** Seven bytes that are no header. *)
Lemma log_reader_terminates_witness :
  exists recs r, read_all Extend_ref 8 8
      (Reader_new (F:=MemSequential) (str:"garbage") true true 0) = Some (recs, r).
Proof.
  exact (log_reader_terminates Extend_ref MemSequential (fun f => f) (str:"garbage")
    true true 0 8 ltac:(vm_compute; lia)).
Defined.

