(* ===== verification/Random.v ===== *)
(** * The pseudo-random generator

    src/util/random.h.  The state is a 32-bit seed. *)

From S2P Require Import Prelude.

Definition Random_M : Z := 2147483647.
Definition Random_A : Z := 16807.

(** [Random::Random(s)] *)
Definition Random_new (s : Z) : Z :=
  let seed := Z.land s 2147483647 in
  if (seed =? 0) || (seed =? 2147483647) then 1 else seed.

(** [Random::Next].  [seed_] and [A] are both [uint32_t], so the product is
    reduced to 32 bits before it is widened to [product]. *)
Definition Next (seed : Z) : Z :=
  let product := u32 (seed * Random_A) in
  let seed := u32 (Z.shiftr product 31 + Z.land product Random_M) in
  if seed >? Random_M then seed - Random_M else seed.

(** [Random::Uniform(n)]: the new state and the number. *)
Definition Uniform (seed n : Z) : Z * Z :=
  let seed := Next seed in (seed, seed mod u32 n).

(** [Random::OneIn(n)] *)
Definition OneIn (seed n : Z) : Z * bool :=
  let seed := Next seed in (seed, seed mod u32 n =? 0).

(** [Random::Skewed(max_log)] *)
Definition Skewed (seed max_log : Z) : Z * Z :=
  let '(seed, k) := Uniform seed (max_log + 1) in
  Uniform seed (s32 (Z.shiftl 1 k)).

(** A state the generator can be in. *)
Definition seed_ok (seed : Z) : Prop := 1 <= seed <= Random_M.

Lemma Random_new_ok s : seed_ok (Random_new s).
Proof.
  unfold Random_new, seed_ok, Random_M.
  assert (0 <= Z.land s 2147483647 < 2 ^ 31) as H.
  { change 2147483647 with (Z.ones 31). rewrite Z.land_ones by lia.
    apply Z.mod_pos_bound. lia. }
  change (2 ^ 31) with 2147483648 in H.
  case_test; lia.
Qed.

(** The seed never becomes zero: [A] is odd, so multiplying by it loses no
    seed modulo [2 ^ 32]. *)
Lemma product_nonzero seed : seed_ok seed -> 1 <= u32 (seed * Random_A) < 2 ^ 32.
Proof.
  intros H. unfold seed_ok, Random_M in H.
  pose proof (u32_range (seed * Random_A)) as R.
  assert (u32 (seed * Random_A) <> 0); [|lia]. unfold u32. intros E.
  apply Z.mod_divide in E; [|done]. unfold Random_A in E. rewrite Z.mul_comm in E.
  apply Z.gauss in E; [|done]. apply Z.divide_pos_le in E; [|lia].
  change (2 ^ 32) with 4294967296 in E. lia.
Qed.

Lemma Next_ok seed : seed_ok seed -> seed_ok (Next seed).
Proof.
  intros H. pose proof (product_nonzero seed H) as P. unfold Next.
  set (p := u32 (seed * Random_A)) in *. clearbody p.
  assert (Z.land p Random_M = p mod 2 ^ 31) as ->.
  { change Random_M with (Z.ones 31). by apply Z.land_ones. }
  rewrite Z.shiftr_div_pow2 by lia.
  unfold seed_ok, Random_M. change (2 ^ 31) with 2147483648. change (2 ^ 32) with 4294967296 in P.
  pose proof (Z.div_mod p 2147483648 ltac:(done)) as D.
  pose proof (Z.mod_pos_bound p 2147483648 ltac:(done)) as M.
  set (q := p / 2147483648) in *. set (r := p mod 2147483648) in *. clearbody q r.
  rewrite u32_small by (change (2 ^ 32) with 4294967296; lia).
  case_test; lia.
Qed.

#[export] Hint Resolve Next_ok Random_new_ok : rocket.
