(* ===== verification/ReadSampling.v ===== *)
(** * Sampling reads

    src/db/db_iter.cc: [DBIter::ParseKey] samples about one read in every
    [2 * kReadBytesPeriod] bytes.  The loop draws random periods until they
    cover the bytes that were read.  [Random::Next] multiplies in 32 bits, and
    from four of its states every period it draws is zero; the loop ends from
    every other orbit, and never from these. *)

From stdpp Require Import sets.
From S2P Require Import Prelude Random.

Definition kReadBytesPeriod : Z := 1048576.

(** [DBIter::RandomCompactionPeriod] *)
Definition RandomCompactionPeriod (rnd : Z) : Z * Z := Uniform rnd (2 * kReadBytesPeriod).

(** The sampling state of an iterator; [samples] are the keys it has given to
    [DBImpl::RecordReadSample]. *)
Record Sampling := mkSampling { rnd_ : Z; bytes_until_read_sampling_ : Z; samples : list bytes }.

(** The loop of [ParseKey]. *)
Fixpoint sample_loop (fuel : nat) (st : Sampling) (k : bytes) (bytes_read : Z) : option Sampling :=
  if bytes_until_read_sampling_ st <? bytes_read then
    match fuel with
    | O => None
    | S fuel =>
        let '(rnd, period) := RandomCompactionPeriod (rnd_ st) in
        sample_loop fuel (mkSampling rnd (u64 (bytes_until_read_sampling_ st + period)) (samples st ++ [k])) k bytes_read
    end
  else Some st.

(** Twelve draws gain at least one byte. *)
Definition sample_fuel (bytes_read : Z) : nat := 12 * Z.to_nat bytes_read.

Definition sample_read (st : Sampling) (k : bytes) (bytes_read : Z) : option Sampling :=
  st ← sample_loop (sample_fuel bytes_read) st k bytes_read;
  Some (mkSampling (rnd_ st) (bytes_until_read_sampling_ st - bytes_read) (samples st)).

Definition Sampling_new (seed : Z) : Sampling :=
  let '(rnd, period) := RandomCompactionPeriod (Random_new seed) in mkSampling rnd period [].

(** ** The states that draw nothing but zeros *)

Definition trap : list Z := [268435456; 805306368; 1342177280; 1879048192].

(** The generator never gets into such a state. *)
Definition free_seed (rnd : Z) : Prop := seed_ok rnd /\ forall n, Nat.iter n Next rnd ∉ trap.

Lemma iter_Next n rnd : Nat.iter n Next (Next rnd) = Nat.iter (S n) Next rnd.
Proof. by rewrite Nat.iter_succ_r. Qed.

Lemma free_seed_Next rnd : free_seed rnd -> free_seed (Next rnd).
Proof. intros [Hs Ht]. split; [by apply Next_ok|]. intros n. rewrite iter_Next. apply Ht. Qed.

Lemma free_seed_iter n rnd : free_seed rnd -> free_seed (Nat.iter n Next rnd).
Proof. intros H. induction n as [|n IH]; [done|]. cbn. by apply free_seed_Next. Qed.

Lemma period_draw rnd : RandomCompactionPeriod rnd = (Next rnd, Next rnd mod 2097152).
Proof. reflexivity. Qed.

(** Outside the trap a multiple of [2 ^ 21] is left within ten steps. *)
Definition leaves (rnd : Z) : bool :=
  existsb (fun n => negb (Nat.iter n Next rnd mod 2097152 =? 0)) (seq 0 11).

Lemma multiples_leave : forallb (fun k => bool_decide (k * 2097152 ∈ trap) || leaves (k * 2097152))
  (map Z.of_nat (seq 1 1023)) = true.
Proof. vm_compute. reflexivity. Qed.

Lemma free_seed_leaves rnd : free_seed rnd -> exists n, (n <= 10)%nat /\ 0 < Nat.iter n Next rnd mod 2097152.
Proof.
  intros [Hs Ht]. pose proof (Z.mod_pos_bound rnd 2097152 ltac:(done)) as Hm.
  destruct (decide (rnd mod 2097152 = 0)) as [E|E]; [|exists 0%nat; cbn; lia].
  unfold seed_ok, Random_M in Hs. pose proof (Z.div_mod rnd 2097152 ltac:(done)) as Hd. rewrite E in Hd.
  assert (exists k, rnd = k * 2097152) as [k ->] by (exists (rnd / 2097152); lia). clear Hd.
  pose proof (proj1 (forallb_forall _ _) multiples_leave k) as H.
  assert (In k (map Z.of_nat (seq 1 1023))) as Hk.
  { apply in_map_iff. exists (Z.to_nat k). split; [lia|]. apply in_seq. lia. }
  specialize (H Hk). apply orb_true_iff in H as [H|H].
  - apply bool_decide_eq_true in H. by destruct (Ht 0%nat).
  - unfold leaves in H. apply existsb_exists in H as (n & [_ Hn]%in_seq & Hn').
    exists n. split; [lia|]. apply negb_true_iff, Z.eqb_neq in Hn'.
    pose proof (Z.mod_pos_bound (Nat.iter n Next (k * 2097152)) 2097152 ltac:(done)). lia.
Qed.

Lemma sample_loop_total k bytes_read fuel : forall n rnd b ss,
  bytes_read < 2 ^ 62 - 2 ^ 21 -> free_seed rnd -> 0 <= b < 2 ^ 62 -> (n <= 10)%nat ->
  0 < Nat.iter n Next (Next rnd) mod 2097152 ->
  (bytes_read <= b \/ 12 * (bytes_read - b - 1) + Z.of_nat n + 1 <= Z.of_nat fuel) ->
  exists st, sample_loop fuel (mkSampling rnd b ss) k bytes_read = Some st /\ free_seed (rnd_ st) /\
    bytes_read <= bytes_until_read_sampling_ st <= Z.max b (bytes_read + 2097151).
Proof.
  change (2 ^ 62) with 4611686018427387904. change (2 ^ 21) with 2097152.
  induction fuel as [|fuel IH]; intros n rnd b ss Hr Hf Hb Hn Hp Hfuel; cbn [sample_loop bytes_until_read_sampling_];
    (destruct (b <? bytes_read) eqn:E; boolprop; [|eexists; split; [done|split; [done|cbn; lia]]]).
  { lia. }
  rewrite period_draw. cbn [rnd_ samples]. pose proof (free_seed_Next rnd Hf) as Hf'.
  pose proof (Z.mod_pos_bound (Next rnd) 2097152 ltac:(done)) as Hm.
  rewrite u64_small by (change (2 ^ 64) with 18446744073709551616; lia). set (p := Next rnd mod 2097152) in *.
  destruct n as [|n].
  - cbn in Hp. fold p in Hp. destruct (free_seed_leaves (Next (Next rnd)) (free_seed_Next _ Hf')) as (n' & Hn' & Hp').
    destruct (IH n' (Next rnd) (b + p) (ss ++ [k])) as (st & E1 & E2 & E3); try done; [lia|lia|].
    exists st. split; [done|]. split; [done|lia].
  - rewrite <- iter_Next in Hp.
    destruct (IH n (Next rnd) (b + p) (ss ++ [k])) as (st & E1 & E2 & E3); try done; [lia|lia|lia|].
    exists st. split; [done|]. split; [done|lia].
Qed.

(** The sampling state between two reads. *)
Definition sampling_ok (st : Sampling) : Prop := free_seed (rnd_ st) /\ 0 <= bytes_until_read_sampling_ st < 2097152.

Lemma sample_read_total st k bytes_read :
  sampling_ok st -> 0 <= bytes_read < 2 ^ 62 - 2 ^ 21 ->
  exists st', sample_read st k bytes_read = Some st' /\ sampling_ok st'.
Proof.
  intros [Hf Hb] Hr. destruct st as [rnd b ss]. cbn [rnd_ bytes_until_read_sampling_] in *.
  destruct (free_seed_leaves (Next rnd) (free_seed_Next _ Hf)) as (n & Hn & Hp).
  destruct (sample_loop_total k bytes_read (sample_fuel bytes_read) n rnd b ss) as (st & E & Hf' & Hb'); try done.
  - lia.
  - change (2 ^ 62) with 4611686018427387904. lia.
  - unfold sample_fuel. lia.
  - unfold sample_read. rewrite E. cbn [mbind option_bind]. eexists. split; [done|]. split; [done|].
    cbn [bytes_until_read_sampling_]. lia.
Qed.

Lemma Sampling_new_ok seed : free_seed (Random_new seed) -> sampling_ok (Sampling_new seed).
Proof.
  intros Hf. unfold Sampling_new. rewrite period_draw. split; [by apply free_seed_Next|].
  cbn [bytes_until_read_sampling_]. by apply Z.mod_pos_bound.
Qed.

(** A seed whose orbit closes outside the trap is free of it. *)
Fixpoint orbit_free (fuel : nat) (rnd last : Z) : bool :=
  if bool_decide (rnd ∈ trap) then false
  else match fuel with O => rnd =? last | S fuel => orbit_free fuel (Next rnd) last end.

Lemma orbit_free_prefix fuel rnd last n :
  orbit_free fuel rnd last = true -> (n <= fuel)%nat -> Nat.iter n Next rnd ∉ trap.
Proof.
  revert rnd n. induction fuel as [|fuel IH]; intros rnd n H Hn; cbn [orbit_free] in H; case_bool_decide as Ht; try done.
  - by assert (n = 0)%nat as -> by lia.
  - destruct n as [|n]; [done|]. rewrite <- iter_Next. apply IH; [done|lia].
Qed.

Lemma orbit_free_last fuel rnd last : orbit_free fuel rnd last = true -> Nat.iter fuel Next rnd = last.
Proof.
  revert rnd. induction fuel as [|fuel IH]; intros rnd H; cbn [orbit_free] in H; case_bool_decide; try done.
  - by apply Z.eqb_eq in H.
  - rewrite <- iter_Next. by apply IH.
Qed.

Lemma free_seed_check rnd mu lambda :
  seed_ok rnd -> (0 < lambda)%nat -> orbit_free (mu + lambda) rnd (Nat.iter mu Next rnd) = true -> free_seed rnd.
Proof.
  intros Hs Hl H. split; [done|]. pose proof (orbit_free_last _ _ _ H) as Hlast.
  intros n. induction n as [n IH] using lt_wf_ind. destruct (decide (n <= mu + lambda)%nat) as [Hn|Hn].
  - by apply (orbit_free_prefix (mu + lambda) rnd (Nat.iter mu Next rnd)).
  - assert (forall m, Nat.iter (m + (mu + lambda)) Next rnd = Nat.iter (m + mu) Next rnd) as Hc.
    { intros m. rewrite (Nat.iter_add m (mu + lambda)), (Nat.iter_add m mu). by rewrite Hlast. }
    specialize (Hc (n - (mu + lambda))%nat). replace (n - (mu + lambda) + (mu + lambda))%nat with n in Hc by lia.
    rewrite Hc. apply IH. lia.
Qed.

(** ** Properties *)

(** The sampling loop of [ParseKey] ends, for any number of bytes read,
    whenever the generator's orbit stays out of the four states from which it
    draws only zeros: [12] draws for every byte are enough. *)
Theorem read_sampling_terminates (seed : Z) (reads : list (bytes * Z)) :
  free_seed (Random_new seed) -> Forall (fun r => 0 <= snd r < 2 ^ 62 - 2 ^ 21) reads ->
  exists st, foldl (fun st r => st ← st; sample_read st (fst r) (snd r)) (Some (Sampling_new seed)) reads = Some st /\
    sampling_ok st.
Proof.
  intros Hf Hr. apply Sampling_new_ok in Hf. revert Hf. generalize (Sampling_new seed).
  induction Hr as [|[k n] reads Hn Hr IH]; intros st Hok; cbn [foldl]; [by exists st|].
  cbn [mbind option_bind fst snd] in *. destruct (sample_read_total st k n Hok Hn) as (st' & -> & Hok'). by apply IH.
Qed.

Lemma seed_7_free : free_seed (Random_new 7).
Proof.
  apply (free_seed_check _ (Z.to_nat 3604) (Z.to_nat 11330)); [apply Random_new_ok|lia|]. vm_compute. reflexivity.
Qed.

Lemma read_sampling_terminates_witness :
  exists st, foldl (fun st r => st ← st; sample_read st (fst r) (snd r)) (Some (Sampling_new 7))
    [(str:"k1", 5000000); (str:"k2", 100); (str:"k3", 3000000)] = Some st /\ sampling_ok st.
Proof. apply read_sampling_terminates; [apply seed_7_free|]. repeat constructor; cbn; lia. Defined.

(** The trap is closed, and no period drawn there is positive. *)
Lemma trap_closed rnd : rnd ∈ trap -> Next rnd ∈ trap /\ Next rnd mod 2097152 = 0.
Proof.
  assert (forallb (fun rnd => bool_decide (Next rnd ∈ trap) && (Next rnd mod 2097152 =? 0)) trap = true) as H by done.
  rewrite forallb_forall in H. intros Hr%list_elem_of_In. specialize (H rnd Hr). boolprop.
  by apply bool_decide_eq_true in H.
Qed.

(** C40: From four states of the generator the sampling loop never ends: every
    period is zero, so a read that is due for sampling spins forever. *)
Theorem read_sampling_diverges (rnd b bytes_read : Z) (ss : list bytes) (k : bytes) (fuel : nat) :
  rnd ∈ trap -> 0 <= b < bytes_read -> b < 2 ^ 64 -> sample_loop fuel (mkSampling rnd b ss) k bytes_read = None.
Proof.
  intros Ht Hb H64. revert rnd ss Ht. induction fuel as [|fuel IH]; intros rnd ss Ht;
    cbn [sample_loop bytes_until_read_sampling_]; rewrite (proj2 (Z.ltb_lt _ _)) by lia; [done|].
  rewrite period_draw. cbn [rnd_ samples]. destruct (trap_closed rnd Ht) as [Ht' ->].
  rewrite Z.add_0_r, u64_small by lia. by apply IH.
Qed.

(** The trap is reached from the seed of an iterator. *)
Lemma read_sampling_diverges_witness :
  (exists n, Nat.iter n Next (Random_new 57673202) ∈ trap) /\
  sample_loop 1000 (mkSampling 268435456 10 []) (str:"key") 11 = None.
Proof.
  split.
  - exists (Z.to_nat 5). apply (bool_decide_unpack _). vm_compute. reflexivity.
  - apply read_sampling_diverges; [left|lia|lia].
Defined.
