(* ===== verification/Iterator.v ===== *)
(** * Iterators

    include/iterator.h: the interface through which every sorted source of
    key/value pairs is read (memtables, blocks, tables, merged sources), and
    src/table/iterator.cc: the empty and the error iterator, and the list of
    cleanup functions that an iterator runs when it is deleted.

    [IteratorOps] is the interface as a record of operations on a state; a
    moving operation is partial because an implementation may fault or exhaust
    the bound on its rounds.  [Cursor] is what an iterator promises: it is a
    position in a sorted list of pairs, the position after the last one being
    "not valid".  The clients are proved against [Cursor] and each
    implementation is shown to be one. *)

From stdpp Require Import sets sorting.
From S2P Require Import Prelude Slice.

Record IteratorOps := mkIteratorOps {
  IState : Type;
  it_Valid : IState -> bool;
  it_key : IState -> bytes;
  it_value : IState -> bytes;
  it_status : IState -> Status;
  it_SeekToFirst : IState -> option IState;
  it_SeekToLast : IState -> option IState;
  it_Seek : IState -> bytes -> option IState;
  it_Next : IState -> option IState;
  it_Prev : IState -> option IState
}.

(** [EmptyIterator]: its status is its state; [Next], [Prev] and reading are
    not allowed. *)
Definition EmptyIterator : IteratorOps :=
  mkIteratorOps Status (fun _ => false) (fun _ => []) (fun _ => []) (fun s => s)
    Some Some (fun s _ => Some s) (fun _ => None) (fun _ => None).

(** [NewEmptyIterator] and [NewErrorIterator] *)
Definition NewEmptyIterator : IState EmptyIterator := Status_OK.
Definition NewErrorIterator (s : Status) : IState EmptyIterator := s.

(** ** Cleanup functions *)

Section Cleanup.
Context {A S : Type}.

(** [Iterator::RegisterCleanup]: the first function is in the head node, each
    later one comes right after the head. *)
Definition RegisterCleanup (cleanups : list A) (c : A) : list A :=
  match cleanups with [] => [c] | head :: next => head :: c :: next end.

(** [Iterator::~Iterator]: the functions are run in the order of the nodes. *)
Definition Iterator_delete (run : S -> A -> S) (s : S) (cleanups : list A) : S := fold_left run cleanups s.

(** Every registered function is there once. *)
Lemma RegisterCleanup_all (cs cleanups : list A) : fold_left RegisterCleanup cs cleanups ≡ₚ cs ++ cleanups.
Proof.
  revert cleanups. induction cs as [|c cs IH]; intros cleanups; cbn [fold_left app]; [done|]. rewrite IH.
  assert (RegisterCleanup cleanups c ≡ₚ c :: cleanups) as ->; [|by rewrite Permutation_middle].
  destruct cleanups as [|h t]; cbn [RegisterCleanup]; [done|]. apply Permutation_swap.
Qed.
End Cleanup.

(** ** Positions in a sorted list *)

Section Position.
Context {K : Type} (cmp : K -> K -> comparison).

(** The position of the first key that is not smaller than [k]. *)
Fixpoint seek_pos (k : K) (ks : list K) : nat :=
  match ks with
  | [] => O
  | x :: ks' => match cmp x k with Lt => S (seek_pos k ks') | _ => O end
  end.

Lemma seek_pos_le k ks : (seek_pos k ks <= length ks)%nat.
Proof. induction ks as [|x ks IH]; cbn; [lia|]. destruct (cmp x k); lia. Qed.

Lemma seek_pos_before k ks i x :
  (i < seek_pos k ks)%nat -> ks !! i = Some x -> cmp x k = Lt.
Proof.
  revert i. induction ks as [|y ks IH]; intros i Hi Hx; [done|]. cbn [seek_pos] in Hi.
  destruct (cmp y k) eqn:E; try lia. destruct i as [|i]; cbn in Hx; [congruence|].
  apply (IH i); [lia|done].
Qed.

Lemma seek_pos_at k ks x : ks !! seek_pos k ks = Some x -> cmp x k <> Lt.
Proof.
  induction ks as [|y ks IH]; [done|]. cbn [seek_pos]. destruct (cmp y k) eqn:E; cbn; auto;
    intros [= <-]; congruence.
Qed.

Lemma seek_pos_eq k ks i :
  (i <= length ks)%nat ->
  (forall j x, (j < i)%nat -> ks !! j = Some x -> cmp x k = Lt) ->
  (forall x, ks !! i = Some x -> cmp x k <> Lt) -> seek_pos k ks = i.
Proof.
  revert i. induction ks as [|x ks IH]; intros i Hi Hbef Hat; [cbn in *; lia|].
  destruct i as [|i]; cbn [seek_pos].
  - specialize (Hat x eq_refl). by destruct (cmp x k).
  - rewrite (Hbef 0%nat x ltac:(lia) eq_refl). f_equal. apply IH; [cbn in Hi; lia| |done].
    intros j y Hj Hy. apply (Hbef (S j)); [lia|done].
Qed.

(** Keys below [k] in front and keys not below it at the end. *)
Lemma seek_pos_app_below k ks1 ks2 :
  Forall (fun x => cmp x k = Lt) ks1 -> seek_pos k (ks1 ++ ks2) = (length ks1 + seek_pos k ks2)%nat.
Proof. induction 1 as [|x ks1 Hx _ IH]; cbn; [done|]. by rewrite Hx, IH. Qed.

Lemma seek_pos_app_above k ks1 ks2 :
  Forall (fun x => cmp x k <> Lt) ks2 -> seek_pos k (ks1 ++ ks2) = seek_pos k ks1.
Proof.
  intros H. induction ks1 as [|x ks1 IH]; cbn; [|by rewrite IH].
  destruct H as [|x ks2 Hx _]; cbn; [done|]. by destruct (cmp x k).
Qed.

(** The key at that position is the least that is not smaller. *)
Lemma seek_first k (ks : list K) :
  StronglySorted (fun x y => cmp x y = Lt) ks ->
  match ks !! seek_pos k ks with
  | Some x => x ∈ ks /\ cmp x k <> Lt /\
      forall y, y ∈ ks -> cmp y k <> Lt -> y = x \/ cmp x y = Lt
  | None => forall y, y ∈ ks -> cmp y k = Lt
  end.
Proof.
  induction 1 as [|x ks Hs IH Hx]; [set_solver|]. cbn [seek_pos]. destruct (cmp x k) eqn:E.
  2:{ cbn. destruct (ks !! seek_pos k ks) as [z|].
      - destruct IH as (H1 & H2 & H3). split; [set_solver|]. split; [done|].
        intros y [->|Hy]%elem_of_cons Hyk; [done|auto].
      - intros y [->|Hy]%elem_of_cons; auto. }
  all: cbn; split; [set_solver|]; split; [congruence|]; intros y [->|Hy]%elem_of_cons _; [by left|right].
  all: rewrite list.Forall_forall in Hx; auto.
Qed.
End Position.

(** Elements of a sorted list are ordered by their positions. *)
Lemma sorted_lookup {A} (R : A -> A -> Prop) (l : list A) i j x y :
  StronglySorted R l -> l !! i = Some x -> l !! j = Some y -> (i < j)%nat -> R x y.
Proof.
  intros Hs. revert i j. induction Hs as [|a l Hs IH Ha]; intros i j Hi Hj Hij; [done|].
  destruct j as [|j]; [lia|]. destruct i as [|i]; cbn in *.
  - injection Hi as ->. rewrite Forall_lookup in Ha. eauto.
  - eapply IH; eauto. lia.
Qed.

(** Keys in strictly increasing order. *)
Definition sorted_keys (cmp : bytes -> bytes -> comparison) (ks : list bytes) : Prop :=
  StronglySorted (fun a b => cmp a b = Lt) ks.

(** ** The contract *)

(** [pos s i]: in state [s] the iterator stands at position [i] of [kvs].  A
    seek is promised for the targets in [okt]: a memtable prefixes a target with
    its length in 32 bits, and so cannot seek to a longer one. *)
Class CursorOn (okt : bytes -> Prop) (cmp : bytes -> bytes -> comparison) (I : IteratorOps)
    (kvs : list (bytes * bytes)) (pos : IState I -> nat -> Prop) : Prop := {
  cur_bound : forall s i, pos s i -> (i <= length kvs)%nat;
  cur_valid : forall s i, pos s i -> it_Valid I s = (i <? length kvs)%nat;
  cur_entry : forall s i kv, pos s i -> kvs !! i = Some kv ->
    it_key I s = fst kv /\ it_value I s = snd kv;
  cur_status : forall s i, pos s i -> it_status I s = Status_OK;
  cur_first : forall s i, pos s i -> exists s', it_SeekToFirst I s = Some s' /\ pos s' 0%nat;
  cur_last : forall s i, pos s i ->
    exists s', it_SeekToLast I s = Some s' /\ pos s' (length kvs - 1)%nat;
  cur_seek_on : forall s i t, pos s i -> okt t ->
    exists s', it_Seek I s t = Some s' /\ pos s' (seek_pos cmp t (map fst kvs));
  cur_next : forall s i, pos s i -> (i < length kvs)%nat ->
    exists s', it_Next I s = Some s' /\ pos s' (S i);
  cur_prev : forall s i, pos s i -> (i < length kvs)%nat ->
    exists s', it_Prev I s = Some s' /\
      pos s' (match i with O => length kvs | S i' => i' end)
}.

(** A cursor that can seek to every target. *)
Abbreviation Cursor := (CursorOn (fun _ => True)).

Lemma cur_seek {cmp I kvs pos} `{C : !Cursor cmp I kvs pos} s i t :
  pos s i -> exists s', it_Seek I s t = Some s' /\ pos s' (seek_pos cmp t (map fst kvs)).
Proof. intros H. by apply (cur_seek_on s i t H). Qed.

Lemma cursor_weaken okt cmp I kvs pos : Cursor cmp I kvs pos -> CursorOn okt cmp I kvs pos.
Proof. intros [H1 H2 H3 H4 H5 H6 H7 H8 H9]. split; try done. intros s i t Hp _. by apply (H7 s i t). Qed.

Lemma cursor_on_mono (P Q : bytes -> Prop) cmp I kvs pos : (forall t, Q t -> P t) -> CursorOn P cmp I kvs pos -> CursorOn Q cmp I kvs pos.
Proof. intros HQ [H1 H2 H3 H4 H5 H6 H7 H8 H9]. split; try done. intros s i t Hp Ht. apply (H7 s i t); [done|by apply HQ]. Qed.

(** The iterator stands at position [i] in some way. *)
Definition cursor_at okt cmp (I : IteratorOps) (kvs : list (bytes * bytes)) (s : IState I) (i : nat) : Prop :=
  exists pos, CursorOn okt cmp I kvs pos /\ pos s i.

#[export] Instance cursor_at_cursor okt cmp I kvs : CursorOn okt cmp I kvs (cursor_at okt cmp I kvs).
Proof.
  unfold cursor_at. split.
  - intros s i (pos & C & H). by eapply cur_bound.
  - intros s i (pos & C & H). by eapply cur_valid.
  - intros s i kv (pos & C & H). by eapply cur_entry.
  - intros s i (pos & C & H). by eapply cur_status.
  - intros s i (pos & C & H). destruct (cur_first s i H) as (s' & E & H'). eauto.
  - intros s i (pos & C & H). destruct (cur_last s i H) as (s' & E & H'). eauto.
  - intros s i t (pos & C & H) Ht. destruct (cur_seek_on s i t H Ht) as (s' & E & H'). eauto.
  - intros s i (pos & C & H) Hi. destruct (cur_next s i H Hi) as (s' & E & H'). eauto.
  - intros s i (pos & C & H) Hi. destruct (cur_prev s i H Hi) as (s' & E & H'). eauto 6.
Qed.

(** The empty iterator is a cursor over nothing. *)
#[export] Instance empty_cursor cmp :
  Cursor cmp EmptyIterator [] (fun s i => s = Status_OK /\ i = O).
Proof.
  split; try (intros s i [-> ->]; cbn; eauto; lia).
  all: try (intros s i x [-> ->]; cbn; eauto; done).
Qed.

(** ** Dynamic dispatch *)

(** A client holds an [Iterator*]: a state together with which iterator of a
    family it belongs to.  The operations are those of that iterator. *)
Section Dispatch.
Context {X : Type} (ops : X -> IteratorOps).

Definition dispatch_move (f : forall x, IState (ops x) -> option (IState (ops x)))
    (s : {x & IState (ops x)}) : option {x & IState (ops x)} :=
  existT (projT1 s) <$> f (projT1 s) (projT2 s).

Definition Dispatch : IteratorOps :=
  mkIteratorOps {x & IState (ops x)}
    (fun s => it_Valid (ops (projT1 s)) (projT2 s))
    (fun s => it_key (ops (projT1 s)) (projT2 s))
    (fun s => it_value (ops (projT1 s)) (projT2 s))
    (fun s => it_status (ops (projT1 s)) (projT2 s))
    (dispatch_move (fun x => it_SeekToFirst (ops x)))
    (dispatch_move (fun x => it_SeekToLast (ops x)))
    (fun s t => dispatch_move (fun x s => it_Seek (ops x) s t) s)
    (dispatch_move (fun x => it_Next (ops x)))
    (dispatch_move (fun x => it_Prev (ops x))).

Definition dispatch_pos (x : X) (pos : IState (ops x) -> nat -> Prop) (s : IState Dispatch) (i : nat)
    : Prop := exists s0, s = existT x s0 /\ pos s0 i.

#[export] Instance dispatch_cursor okt cmp x kvs pos :
  CursorOn okt cmp (ops x) kvs pos -> CursorOn okt cmp Dispatch kvs (dispatch_pos x pos).
Proof.
  intros C. unfold dispatch_pos. split; cbn; unfold dispatch_move.
  - intros s i (s0 & -> & H). by eapply cur_bound.
  - intros s i (s0 & -> & H). by eapply cur_valid.
  - intros s i kv (s0 & -> & H). by eapply cur_entry.
  - intros s i (s0 & -> & H). by eapply cur_status.
  - intros s i (s0 & -> & H). destruct (cur_first s0 i H) as (s' & E & H'). cbn. rewrite E. eauto.
  - intros s i (s0 & -> & H). destruct (cur_last s0 i H) as (s' & E & H'). cbn. rewrite E. eauto.
  - intros s i t (s0 & -> & H) Ht. destruct (cur_seek_on s0 i t H Ht) as (s' & E & H'). cbn. rewrite E. eauto.
  - intros s i (s0 & -> & H) Hi. destruct (cur_next s0 i H Hi) as (s' & E & H'). cbn. rewrite E. eauto.
  - intros s i (s0 & -> & H) Hi. destruct (cur_prev s0 i H Hi) as (s' & E & H'). cbn. rewrite E. eauto.
Qed.
End Dispatch.
