(* ===== verification/SkipList.v ===== *)
(** * The skip list

    src/db/skiplist.h.  Nodes live in an arena and are never freed, so the
    heap is the list of the nodes in allocation order and a [Node*] is an index
    into it; the head is node [0].  A node of height [h] has [h] next pointers.
    Reading or writing a pointer a node does not have is a fault ([None]), and
    so is running out of rounds; the theorems show that neither happens.

    The abstract value of a list is the sequence of its keys in order.  The
    invariant says that at every level the chain of pointers from the head
    visits exactly the nodes of that height, in that order. *)

From stdpp Require Import sets sorting.
From S2P Require Import Prelude Slice Random Iterator.

Definition kMaxHeight : nat := 12.

(** [struct Node] and its pointers; [None] in [next_] is [nullptr]. *)
Record Node (K : Type) := mkNode { key : K; next_ : list (option nat) }.
Arguments mkNode {K} _ _.
Arguments key {K} _.
Arguments next_ {K} _.

(** [class SkipList]: the arena's nodes, [max_height_] and [rnd_]. *)
Record SkipList (K : Type) := mkSkipList {
  nodes : list (Node K); max_height_ : nat; rnd_ : Z }.
Arguments mkSkipList {K} _ _ _.
Arguments nodes {K} _.
Arguments max_height_ {K} _.
Arguments rnd_ {K} _.

Section Operations.
Context {K : Type} (compare_ : K -> K -> comparison).

(** [Node::Next(n)] *)
Definition Node_Next (m : list (Node K)) (x : nat) (n : nat) : option (option nat) :=
  nd ← m !! x; next_ nd !! n.

(** [Node::SetNext(n, x)] *)
Definition SetNext (m : list (Node K)) (a n : nat) (x : option nat) : option (list (Node K)) :=
  nd ← m !! a;
  _ ← next_ nd !! n;
  Some (<[a := mkNode (key nd) (<[n := x]> (next_ nd))]> m).

(** [NewNode(key, height)]: the node goes to the end of the arena.  Its
    pointers are not initialised by the code; they are null here. *)
Definition NewNode (m : list (Node K)) (k : K) (height : nat) : list (Node K) * nat :=
  (m ++ [mkNode k (replicate height None)], length m).

(** [SkipList::SkipList]; the head's key (a null pointer) is never looked at. *)
Definition SkipList_new (null : K) : SkipList K :=
  mkSkipList (fst (NewNode [] null kMaxHeight)) 1 (Random_new 3735928559).

(** [RandomHeight]: the [while] runs at most [kMaxHeight - 1] times. *)
Fixpoint RandomHeight_loop (fuel : nat) (rnd : Z) (height : nat) : Z * nat :=
  match fuel with
  | O => (rnd, height)
  | S fuel' =>
      if (height <? kMaxHeight)%nat then
        let '(rnd, one) := OneIn rnd 4 in
        if one then RandomHeight_loop fuel' rnd (S height) else (rnd, height)
      else (rnd, height)
  end.

Definition RandomHeight (rnd : Z) : Z * nat := RandomHeight_loop kMaxHeight rnd 1.

(** [KeyIsAfterNode] *)
Definition KeyIsAfterNode (m : list (Node K)) (k : K) (n : option nat) : option bool :=
  match n with
  | None => Some false
  | Some a => nd ← m !! a; Some (match compare_ k (key nd) with Gt => true | _ => false end)
  end.

(** The [while (true)] loop of [FindGreaterOrEqual]; [prev] is the array
    [Node* prev[kMaxHeight]], uninitialised entries being [None]. *)
Fixpoint FindGE_loop (fuel : nat) (m : list (Node K)) (k : K) (x level : nat)
    (prev : list (option nat)) : option (option nat * list (option nat)) :=
  match fuel with
  | O => None
  | S fuel' =>
      next ← Node_Next m x level;
      after ← KeyIsAfterNode m k next;
      match after, next with
      | true, Some y => FindGE_loop fuel' m k y level prev
      | _, _ =>
          let prev := <[level := Some x]> prev in
          match level with
          | O => Some (next, prev)
          | S level' => FindGE_loop fuel' m k x level' prev
          end
      end
  end.

Definition loop_fuel (l : SkipList K) : nat := (length (nodes l) + max_height_ l)%nat.

(** [FindGreaterOrEqual(key, prev)]: the node ([None] for [nullptr]) and [prev]. *)
Definition FindGreaterOrEqual (l : SkipList K) (k : K)
    : option (option nat * list (option nat)) :=
  FindGE_loop (loop_fuel l) (nodes l) k 0 (max_height_ l - 1) (replicate kMaxHeight None).

(** [FindLessThan(key)] *)
Fixpoint FindLT_loop (fuel : nat) (m : list (Node K)) (k : K) (x level : nat) : option nat :=
  match fuel with
  | O => None
  | S fuel' =>
      next ← Node_Next m x level;
      stop ← match next with
             | None => Some true
             | Some y =>
                 nd ← m !! y;
                 Some (match compare_ (key nd) k with Lt => false | _ => true end)
             end;
      match stop, next with
      | false, Some y => FindLT_loop fuel' m k y level
      | _, _ =>
          match level with
          | O => Some x
          | S level' => FindLT_loop fuel' m k x level'
          end
      end
  end.

Definition FindLessThan (l : SkipList K) (k : K) : option nat :=
  FindLT_loop (loop_fuel l) (nodes l) k 0 (max_height_ l - 1).

(** [FindLast()] *)
Fixpoint FindLast_loop (fuel : nat) (m : list (Node K)) (x level : nat) : option nat :=
  match fuel with
  | O => None
  | S fuel' =>
      next ← Node_Next m x level;
      match next with
      | None =>
          match level with
          | O => Some x
          | S level' => FindLast_loop fuel' m x level'
          end
      | Some y => FindLast_loop fuel' m y level
      end
  end.

Definition FindLast (l : SkipList K) : option nat :=
  FindLast_loop (loop_fuel l) (nodes l) 0 (max_height_ l - 1).

(** The linking loop of [Insert], from level [i] up. *)
Fixpoint link_loop (n : nat) (m : list (Node K)) (x i : nat) (prev : list (option nat))
    : option (list (Node K)) :=
  match n with
  | O => Some m
  | S n' =>
      p ← mjoin (prev !! i);
      next ← Node_Next m p i;
      m ← SetNext m x i next;
      m ← SetNext m p i (Some x);
      link_loop n' m x (S i) prev
  end.

(** [Insert(key)] *)
Definition Insert (l : SkipList K) (k : K) : option (SkipList K) :=
  '(_, prev) ← FindGreaterOrEqual l k;
  let '(rnd, height) := RandomHeight (rnd_ l) in
  let mh := max_height_ l in
  let prev :=
    if (mh <? height)%nat
    then take mh prev ++ replicate (height - mh) (Some 0%nat) ++ drop height prev
    else prev in
  let mh := if (mh <? height)%nat then height else mh in
  let '(m, x) := NewNode (nodes l) k height in
  m ← link_loop height m x 0 prev;
  Some (mkSkipList m mh rnd).

(** [Contains(key)] *)
Definition Contains (l : SkipList K) (k : K) : option bool :=
  '(x, _) ← FindGreaterOrEqual l k;
  match x with
  | None => Some false
  | Some a => nd ← nodes l !! a; Some (match compare_ k (key nd) with Eq => true | _ => false end)
  end.

(** [SkipList::Iterator]: [node_] is its state. *)
Definition Iter_key (l : SkipList K) (node : option nat) : option K :=
  a ← node; nd ← nodes l !! a; Some (key nd).

Definition Iter_Next (l : SkipList K) (node : option nat) : option (option nat) :=
  a ← node; Node_Next (nodes l) a 0.

(** The head stands for "no node". *)
Definition not_head (x : nat) : option nat :=
  match x with O => None | S _ => Some x end.

Definition Iter_Prev (l : SkipList K) (node : option nat) : option (option nat) :=
  k ← Iter_key l node; x ← FindLessThan l k; Some (not_head x).

Definition Iter_Seek (l : SkipList K) (target : K) : option (option nat) :=
  '(x, _) ← FindGreaterOrEqual l target; Some x.

Definition Iter_SeekToFirst (l : SkipList K) : option (option nat) := Node_Next (nodes l) 0 0.

Definition Iter_SeekToLast (l : SkipList K) : option (option nat) :=
  x ← FindLast l; Some (not_head x).
End Operations.

(** ** The chains of a level *)

Section Chains.
Context {K : Type}.
Implicit Types (m : list (Node K)) (l : list nat) (L : list (nat * K)).

Definition height m (a : nat) : nat :=
  match m !! a with Some nd => length (next_ nd) | None => O end.

Definition key_of m (a : nat) : option K := nd ← m !! a; Some (key nd).

(** From node [x], the pointers of level [j] visit the nodes [l] and end. *)
Fixpoint chain m (j x : nat) l : Prop :=
  match l with
  | [] => Node_Next m x j = Some None
  | a :: l' => Node_Next m x j = Some (Some a) /\ chain m j a l'
  end.

(** The nodes of [L] that are part of level [j]. *)
Definition level_nodes m (j : nat) L : list nat :=
  filter (fun a => (j < height m a)%nat) L.*1.

Lemma Node_Next_height m a j : is_Some (Node_Next m a j) <-> (j < height m a)%nat.
Proof.
  unfold Node_Next, height. destruct (m !! a) as [nd|]; cbn; [apply lookup_lt_is_Some|].
  split; [intros []; done|lia].
Qed.

Lemma chain_split m j x l1 a l2 : chain m j x (l1 ++ a :: l2) -> chain m j a l2.
Proof. revert x. induction l1 as [|b l1 IH]; intros x; cbn; [by intros []|intros []; eauto]. Qed.

Lemma level_nodes_app m j L1 L2 :
  level_nodes m j (L1 ++ L2) = level_nodes m j L1 ++ level_nodes m j L2.
Proof. unfold level_nodes. by rewrite fmap_app, list.filter_app. Qed.

Lemma level_nodes_cons m j p L :
  level_nodes m j (p :: L) =
  if decide (j < height m (fst p))%nat then fst p :: level_nodes m j L else level_nodes m j L.
Proof. done. Qed.

Lemma level_nodes_sub m j L a : a ∈ level_nodes m j L -> a ∈ L.*1 /\ (j < height m a)%nat.
Proof. unfold level_nodes. rewrite list_elem_of_filter. tauto. Qed.

(** The first node of a level splits the list. *)
Lemma level_nodes_first m j L a l :
  level_nodes m j L = a :: l ->
  exists C k L', L = C ++ (a, k) :: L' /\ level_nodes m j C = [] /\ l = level_nodes m j L' /\
    (j < height m a)%nat.
Proof.
  induction L as [|[b kb] L IH]; [done|]. rewrite level_nodes_cons. cbn [fst].
  case_decide as Hd.
  - intros [= -> <-]. exists [], kb, L. done.
  - intros H. destruct (IH H) as (C & k & L' & -> & HC & -> & Ha).
    exists ((b, kb) :: C), k, L'. rewrite level_nodes_cons. cbn [fst].
    by rewrite decide_False.
Qed.

(** Level [0] links all nodes. *)
Lemma level0 m L :
  Forall (fun p => (0 < height m (fst p))%nat) L -> level_nodes m 0 L = L.*1.
Proof.
  induction L as [|p L IH]; [done|]. intros H. inversion H; subst.
  rewrite level_nodes_cons, decide_True by done. cbn [fmap list_fmap]. f_equal; auto.
Qed.

(** The last node of level [j] among [A], or [x]. *)
Definition last_at m (x j : nat) L : nat := default x (list.last (level_nodes m j L)).

Lemma last_at_split m x j C a k L :
  (j < height m a)%nat -> last_at m x j (C ++ (a, k) :: L) = last_at m a j L.
Proof.
  intros Ha. unfold last_at. rewrite level_nodes_app, level_nodes_cons. cbn [fst].
  rewrite decide_True by done. rewrite list.last_app, list.last_cons.
  by destruct (list.last (level_nodes m j L)).
Qed.

Lemma last_at_nil m x j L : level_nodes m j L = [] -> last_at m x j L = x.
Proof. intros H. unfold last_at. by rewrite H. Qed.

(** ** The search loops *)

(** The loops of [FindGreaterOrEqual], [FindLessThan] and [FindLast] differ
    only in when they advance on a level and in what they return. *)
Fixpoint scan (fuel : nat) m (adv : nat -> option bool) (x level : nat)
    (prev : list (option nat)) : option (nat * option nat * list (option nat)) :=
  match fuel with
  | O => None
  | S fuel' =>
      next ← Node_Next m x level;
      go ← match next with None => Some false | Some y => adv y end;
      match go, next with
      | true, Some y => scan fuel' m adv y level prev
      | _, _ =>
          let prev := <[level := Some x]> prev in
          match level with
          | O => Some (x, next, prev)
          | S level' => scan fuel' m adv x level' prev
          end
      end
  end.

Lemma FindGE_scan cmp fuel m k x level prev :
  FindGE_loop cmp fuel m k x level prev =
  '(_, next, prev) ← scan fuel m (fun y => KeyIsAfterNode cmp m k (Some y)) x level prev;
  Some (next, prev).
Proof.
  revert x level prev. induction fuel as [|fuel IH]; intros x level prev; [done|].
  cbn [FindGE_loop scan]. destruct (Node_Next m x level) as [[y|]|]; cbn [mbind option_bind].
  - destruct (KeyIsAfterNode cmp m k (Some y)) as [[]|]; cbn [mbind option_bind]; auto.
    destruct level; auto.
  - cbn [KeyIsAfterNode mbind option_bind]. destruct level; auto.
  - done.
Qed.

Lemma FindLT_scan cmp fuel m k x level prev :
  FindLT_loop cmp fuel m k x level =
  '(x, _, _) ← scan fuel m
    (fun y => nd ← m !! y; Some (match cmp (key nd) k with Lt => true | _ => false end))
    x level prev; Some x.
Proof.
  revert x level prev. induction fuel as [|fuel IH]; intros x level prev; [done|].
  cbn [FindLT_loop scan]. destruct (Node_Next m x level) as [[y|]|]; cbn [mbind option_bind].
  - destruct (m !! y) as [nd|]; cbn [mbind option_bind]; [|done].
    destruct (cmp (key nd) k); auto; destruct level; auto.
  - destruct level; auto.
  - done.
Qed.

Lemma FindLast_scan fuel m x level prev :
  FindLast_loop fuel m x level =
  '(x, _, _) ← scan fuel m (fun _ => Some true) x level prev; Some x.
Proof.
  revert x level prev. induction fuel as [|fuel IH]; intros x level prev; [done|].
  cbn [FindLast_loop scan]. destruct (Node_Next m x level) as [[y|]|]; cbn [mbind option_bind];
    auto. destruct level; auto.
Qed.

(** A scan that advances on the nodes of [A] and not on those of [B] ends at
    the border, with the last node before it on every level in [prev]. *)
Lemma scan_spec m adv (A B : list (nat * K)) fuel x level prev :
  (length A + level < fuel)%nat ->
  Forall (fun p => adv (fst p) = Some true) A ->
  Forall (fun p => adv (fst p) = Some false) B ->
  Forall (fun p => (0 < height m (fst p))%nat) (A ++ B) ->
  (forall j, (j <= level)%nat -> chain m j x (level_nodes m j (A ++ B))) ->
  exists prev', scan fuel m adv x level prev = Some (last_at m x 0 A, head B.*1, prev') /\
    length prev' = length prev /\
    forall j, (j < length prev)%nat -> prev' !! j =
      if decide (j <= level)%nat then Some (Some (last_at m x j A)) else prev !! j.
Proof.
  revert A x level prev. induction fuel as [|fuel IH];
    intros A x level prev Hfuel HA HB Hh Hchain; [lia|].
  cbn [scan]. pose proof (Hchain level ltac:(lia)) as Hc. rewrite level_nodes_app in Hc.
  destruct (level_nodes m level A) as [|a l] eqn:El.
  - assert (forall next, Node_Next m x level = Some next ->
      match next with None => Some false | Some y => adv y end = Some false) as Hstop.
    { intros [y|] E; [|done]. destruct (level_nodes m level B) as [|b l] eqn:Eb;
        cbn [app chain] in Hc; [congruence|]. destruct Hc as [Hc _].
      assert (y = b) as -> by congruence. assert (b ∈ level_nodes m level B) as Hin
        by (rewrite Eb; left). apply level_nodes_sub in Hin as [Hin _].
      apply list_elem_of_fmap in Hin as ([b' kb] & -> & Hin).
      rewrite list.Forall_forall in HB. by apply HB in Hin. }
    destruct (Node_Next m x level) as [next|] eqn:En; cbn [mbind option_bind];
      [|destruct (level_nodes m level B); cbn in Hc; naive_solver].
    rewrite (Hstop next eq_refl). cbn [mbind option_bind].
    destruct level as [|level].
    + apply Forall_app in Hh as [Hh1 Hh2]. rewrite (level0 m A Hh1) in El. cbn [app] in Hc.
      rewrite (level0 m B Hh2) in Hc. destruct A; [|done].
      eexists. split.
      { replace next with (head B.*1); [done|].
        destruct B.*1; cbn in Hc |- *; [|destruct Hc]; congruence. }
      rewrite length_insert. split; [done|]. intros j Hj. destruct j as [|j].
      * rewrite list_lookup_insert_eq by lia. done.
      * rewrite list_lookup_insert_ne by lia. by rewrite decide_False by lia.
    + destruct (IH A x level (<[S level := Some x]> prev)) as (prev' & E & Hl & Hp);
        [lia|done|done|done| |].
      { intros j Hj. apply Hchain. lia. }
      exists prev'. rewrite length_insert in Hl, Hp. split; [by destruct next|]. split; [done|].
      intros j Hj. rewrite Hp by done. destruct (decide (j = S level)) as [->|Hne].
      * rewrite decide_False, decide_True, list_lookup_insert_eq by lia.
        by rewrite last_at_nil.
      * rewrite list_lookup_insert_ne by lia.
        destruct (decide (j <= level)%nat); [rewrite decide_True by lia|rewrite decide_False by lia];
          done.
  - destruct (level_nodes_first _ _ _ _ _ El) as (C & k & A' & -> & HC & -> & Ha).
    cbn [app chain] in Hc. destruct Hc as [Hn _]. rewrite Hn. cbn [mbind option_bind].
    apply Forall_app in HA as [HA1 HA2]. inversion HA2 as [|? ? Hadv HA3]; subst.
    cbn [fst] in Hadv. rewrite Hadv. cbn [mbind option_bind].
    rewrite length_app in Hfuel. cbn [length] in Hfuel.
    destruct (IH A' a level prev) as (prev' & E & Hl & Hp); [lia|done|done| | |].
    { rewrite <- app_assoc in Hh. apply Forall_app in Hh as [_ Hh]. by inversion Hh. }
    { intros j Hj. specialize (Hchain j Hj). rewrite <- app_assoc, level_nodes_app in Hchain.
      cbn [app] in Hchain. rewrite level_nodes_cons in Hchain. cbn [fst] in Hchain.
      rewrite decide_True in Hchain by lia. by apply chain_split in Hchain. }
    exists prev'. rewrite E, last_at_split by lia. split; [done|]. split; [done|].
    intros j Hj. rewrite Hp by done. case_decide; [|done]. by rewrite last_at_split by lia.
Qed.
End Chains.

(** ** Linking a node *)

Section Link.
Context {K : Type}.
Implicit Types (m : list (Node K)).

(** Two heaps with the same nodes up to their pointers. *)
Definition same_shape m m' : Prop :=
  length m' = length m /\ (forall a, key_of m' a = key_of m a) /\
  (forall a, height m' a = height m a).

#[export] Instance same_shape_preorder : PreOrder same_shape.
Proof.
  split.
  - by intros m.
  - intros m1 m2 m3 (L1 & K1 & H1) (L2 & K2 & H2). split; [congruence|].
    split; intros a; [by rewrite K2|by rewrite H2].
Qed.

Lemma SetNext_spec m a n x :
  is_Some (Node_Next m a n) ->
  exists m', SetNext m a n x = Some m' /\ same_shape m m' /\
    forall b j, Node_Next m' b j =
      if decide (b = a /\ j = n) then Some x else Node_Next m b j.
Proof.
  intros [v Hv]. unfold SetNext, Node_Next in *.
  destruct (m !! a) as [nd|] eqn:Ea; cbn [mbind option_bind] in *; [|done].
  rewrite Hv. cbn [mbind option_bind]. eexists. split; [done|].
  pose proof (lookup_lt_Some _ _ _ Ea) as Hlt. pose proof (lookup_lt_Some _ _ _ Hv) as Hn.
  split; [split; [by rewrite length_insert|split; intros b]|intros b j].
  - unfold key_of. destruct (decide (b = a)) as [->|Hne].
    + by rewrite list_lookup_insert_eq, Ea.
    + by rewrite list_lookup_insert_ne.
  - unfold height. destruct (decide (b = a)) as [->|Hne].
    + rewrite list_lookup_insert_eq, Ea by done. cbn [next_]. by rewrite length_insert.
    + by rewrite list_lookup_insert_ne.
  - destruct (decide (b = a)) as [->|Hne].
    + rewrite list_lookup_insert_eq, Ea by done. cbn [mbind option_bind next_].
      destruct (decide (j = n)) as [->|Hj].
      * rewrite decide_True, list_lookup_insert_eq by done. done.
      * rewrite decide_False, list_lookup_insert_ne by naive_solver. done.
    + rewrite list_lookup_insert_ne by done. by rewrite decide_False by naive_solver.
Qed.

Lemma link_loop_spec n m (x i : nat) prev (p : nat -> nat) :
  (forall j, (i <= j < i + n)%nat ->
    prev !! j = Some (Some (p j)) /\ p j <> x /\
    is_Some (Node_Next m (p j) j) /\ is_Some (Node_Next m x j)) ->
  exists m', link_loop n m x i prev = Some m' /\ same_shape m m' /\
    forall b j, Node_Next m' b j =
      if decide (i <= j < i + n)%nat then
        if decide (b = x) then Node_Next m (p j) j
        else if decide (b = p j) then Some (Some x) else Node_Next m b j
      else Node_Next m b j.
Proof.
  revert m i. induction n as [|n IH]; intros m i H.
  { exists m. split; [done|]. split; [done|]. intros b j. by rewrite decide_False by lia. }
  destruct (H i ltac:(lia)) as (Hp & Hne & [v Hv] & Hx).
  cbn [link_loop]. rewrite Hp. cbn [mjoin option_join mbind option_bind]. rewrite Hv.
  cbn [mbind option_bind].
  destruct (SetNext_spec m x i v Hx) as (m1 & E1 & S1 & N1). rewrite E1. cbn [mbind option_bind].
  destruct (SetNext_spec m1 (p i) i (Some x)) as (m2 & E2 & S2 & N2).
  { rewrite N1. case_decide; [done|]. by eexists. }
  rewrite E2. cbn [mbind option_bind].
  destruct (IH m2 (S i)) as (m3 & E3 & S3 & N3).
  { intros j Hj. destruct (H j ltac:(lia)) as (Hpj & Hnej & Hvj & Hxj).
    rewrite !N2, !N1, !(decide_False (P := (_ /\ j = i))) by (intros []; lia). done. }
  exists m3. split; [done|]. split; [by etrans; [|etrans; [|done]]|].
  intros b j. rewrite N3. destruct (decide (j = i)) as [->|Hji].
  - rewrite decide_False, decide_True by lia. rewrite N2, N1.
    destruct (decide (b = x)) as [->|Hbx].
    + rewrite decide_False by naive_solver. rewrite decide_True by done. done.
    + destruct (decide (b = p i)) as [->|Hbp]; [by rewrite decide_True|].
      rewrite !decide_False by naive_solver. done.
  - rewrite !N2, !N1, !(decide_False (P := (_ /\ j = i))) by (intros []; lia).
    destruct (decide (S i <= j < S i + n)%nat);
      [rewrite (decide_True (P := (i <= j < i + S n)%nat)) by lia
      |rewrite (decide_False (P := (i <= j < i + S n)%nat)) by lia]; done.
Qed.

(** Splicing [x] into a chain after its prefix [l1]. *)
Lemma chain_insert m m' j (y x : nat) (l1 l2 : list nat) :
  chain m j y (l1 ++ l2) -> NoDup (y :: l1 ++ l2) -> x ∉ (y :: l1 ++ l2) ->
  Node_Next m' x j = Node_Next m (default y (list.last l1)) j ->
  Node_Next m' (default y (list.last l1)) j = Some (Some x) ->
  (forall b, b <> x -> b <> default y (list.last l1) -> Node_Next m' b j = Node_Next m b j) ->
  chain m' j y (l1 ++ x :: l2).
Proof.
  revert y. induction l1 as [|a l1 IH]; intros y Hc Hnd Hx Hgx Hgp Hf; cbn [app] in *.
  - cbn [list.last default] in *. split; [done|].
    assert (forall b l, chain m j b l -> Forall (fun c => c <> x /\ c <> y) (b :: l) ->
      chain m' j b l) as Hframe.
    { clear -Hf. intros b l. revert b. induction l as [|c l IH]; intros b Hc HF; cbn [chain] in *.
      - inversion HF as [|? ? [? ?] ?]; subst. by rewrite Hf.
      - inversion HF as [|? ? [? ?] ?]; subst. destruct Hc. split; [by rewrite Hf|auto]. }
    destruct l2 as [|c l2]; cbn [chain] in *; [congruence|]. destruct Hc as [Hn Hc].
    split; [congruence|]. apply Hframe; [done|]. apply list.Forall_forall. intros d Hd.
    split; [intros ->; set_solver|intros ->; inversion Hnd; done].
  - destruct Hc as [Hn Hc]. rewrite list.last_cons in *. inversion Hnd as [|? ? Hy Hnd']; subst.
    assert (default y (match list.last l1 with Some z => Some z | None => Some a end) =
            default a (list.last l1)) as Ed by (by destruct (list.last l1)).
    rewrite Ed in *. split.
    + rewrite Hf; [done|set_solver|]. intros Heq.
      apply Hy. rewrite Heq. destruct (list.last l1) as [z|] eqn:El; cbn [default]; [|set_solver].
      apply last_Some_elem_of in El. set_solver.
    + apply IH; auto. set_solver.
Qed.

Lemma chain_ext m m' j y (l : list nat) :
  (forall b, b ∈ (y :: l) -> Node_Next m' b j = Node_Next m b j) -> chain m j y l -> chain m' j y l.
Proof.
  revert y. induction l as [|a l IH]; intros y H Hc; cbn [chain] in *.
  - rewrite H; [done|left].
  - destruct Hc. split; [rewrite H; [done|left]|]. apply IH; [|done].
    intros b Hb. apply H. by right.
Qed.
End Link.

(** ** The invariant *)

Section Correct.
Context {K : Type} (cmp : K -> K -> comparison) `{!OrderLaws cmp}.
Implicit Types (l : SkipList K) (L A B : list (nat * K)).

(** [L] lists the nodes of [l] with their keys, in order. *)
Record sl_inv l L : Prop := {
  si_nodup : NoDup (0%nat :: L.*1);
  si_keys : Forall (fun p => key_of (nodes l) (fst p) = Some (snd p)) L;
  si_height : Forall (fun p => (0 < height (nodes l) (fst p) <= max_height_ l)%nat) L;
  si_head : height (nodes l) 0 = kMaxHeight;
  si_max : (1 <= max_height_ l <= kMaxHeight)%nat;
  si_chain : forall j, (j < kMaxHeight)%nat -> chain (nodes l) j 0 (level_nodes (nodes l) j L);
  si_sorted : StronglySorted (fun p q => cmp (snd p) (snd q) = Lt) L;
  si_length : length (nodes l) = S (length L);
  si_seed : seed_ok (rnd_ l)
}.

Lemma SkipList_new_inv null : sl_inv (SkipList_new null) [].
Proof.
  split; [apply NoDup_singleton|constructor|constructor|done|..].
  - unfold kMaxHeight; cbn; lia.
  - intros j Hj. cbn -[kMaxHeight]. unfold Node_Next. cbn -[kMaxHeight].
    by apply lookup_replicate_2.
  - constructor.
  - done.
  - apply Random_new_ok.
Qed.

(** The border of a target in a sorted list. *)
Lemma sorted_border L k :
  StronglySorted (fun p q => cmp (snd p) (snd q) = Lt) L ->
  exists A B, L = A ++ B /\ Forall (fun p => cmp (snd p) k = Lt) A /\
    Forall (fun p => cmp (snd p) k <> Lt) B.
Proof.
  induction L as [|p L IH]; intros H; [by exists [], []|].
  inversion H as [|? ? Hs Hp]; subst. destruct (cmp (snd p) k) eqn:E.
  2:{ destruct (IH Hs) as (A & B & -> & HA & HB). exists (p :: A), B. by repeat constructor. }
  all: exists [], (p :: L); split; [done|]; split; [done|]; constructor; [congruence|].
  all: eapply list.Forall_impl; [exact Hp|]; cbn; intros q Hq Hlt.
  all: assert (cmp (snd p) k = Lt) by (eapply cmp_lt_trans; eauto); congruence.
Qed.

Lemma after_lookup l L p k :
  sl_inv l L -> p ∈ L ->
  KeyIsAfterNode cmp (nodes l) k (Some (fst p)) =
  Some (match cmp (snd p) k with Lt => true | _ => false end).
Proof.
  intros H Hp. pose proof (si_keys _ _ H) as Hk. rewrite list.Forall_forall in Hk.
  specialize (Hk p Hp). unfold KeyIsAfterNode, key_of in *.
  destruct (nodes l !! fst p) as [nd|]; cbn [mbind option_bind] in *; [|done].
  injection Hk as ->. f_equal. rewrite (cmp_antisym cmp (snd p) k).
  by destruct (cmp (snd p) k).
Qed.

Lemma Forall_border {A : Type} (P Q : A -> Prop) (l : list A) :
  Forall P l -> (forall x, x ∈ l -> P x -> Q x) -> Forall Q l.
Proof. rewrite !list.Forall_forall. auto. Qed.

Lemma sl_heights l L :
  sl_inv l L -> Forall (fun p => (0 < height (nodes l) (fst p))%nat) L.
Proof. intros H. eapply list.Forall_impl; [apply (si_height _ _ H)|]. intros p [Hp _]. exact Hp. Qed.

(** Every search of the list is a scan to a border. *)
Lemma scan_border l A B adv prev :
  sl_inv l (A ++ B) ->
  Forall (fun p => adv (fst p) = Some true) A -> Forall (fun p => adv (fst p) = Some false) B ->
  length prev = kMaxHeight ->
  exists prev', scan (loop_fuel l) (nodes l) adv 0 (max_height_ l - 1) prev =
      Some (last_at (nodes l) 0 0 A, head B.*1, prev') /\ length prev' = kMaxHeight /\
    forall j, (j < max_height_ l)%nat ->
      prev' !! j = Some (Some (last_at (nodes l) 0 j A)).
Proof.
  intros H HA HB Hlen. pose proof (si_max _ _ H) as Hm. pose proof (si_length _ _ H) as Hl.
  rewrite length_app in Hl.
  destruct (scan_spec (nodes l) adv A B (loop_fuel l) 0 (max_height_ l - 1) prev)
    as (prev' & E & Hl' & Hp); try done.
  - unfold loop_fuel. lia.
  - by apply sl_heights.
  - intros j Hj. apply H. lia.
  - exists prev'. split; [done|]. split; [congruence|]. intros j Hj.
    rewrite Hp by lia. by rewrite decide_True by lia.
Qed.

Lemma FindGE_spec l A B k :
  sl_inv l (A ++ B) -> Forall (fun p => cmp (snd p) k = Lt) A ->
  Forall (fun p => cmp (snd p) k <> Lt) B ->
  exists prev, FindGreaterOrEqual cmp l k = Some (head B.*1, prev) /\
    length prev = kMaxHeight /\
    forall j, (j < max_height_ l)%nat ->
      prev !! j = Some (Some (last_at (nodes l) 0 j A)).
Proof.
  intros H HA HB. unfold FindGreaterOrEqual. rewrite FindGE_scan.
  edestruct (scan_border l A B) as (prev & E & Hl & Hp); [done|..].
  4:{ erewrite E. exists prev. cbn [mbind option_bind]. done. }
  - eapply Forall_border; [exact HA|]. intros p Hin Hp.
    rewrite (after_lookup l (A ++ B)), Hp by (done || set_solver). done.
  - eapply Forall_border; [exact HB|]. intros p Hin Hp.
    rewrite (after_lookup l (A ++ B)) by (done || set_solver).
    destruct (cmp (snd p) k) eqn:E; congruence.
  - apply length_replicate.
Qed.
Lemma RandomHeight_loop_range n rnd h :
  (1 <= h <= kMaxHeight)%nat ->
  (1 <= snd (RandomHeight_loop n rnd h) <= kMaxHeight)%nat /\
  (seed_ok rnd -> seed_ok (fst (RandomHeight_loop n rnd h))).
Proof.
  revert rnd h. induction n as [|n IH]; intros rnd h H; [done|].
  cbn [RandomHeight_loop]. destruct (h <? kMaxHeight)%nat eqn:E; [|done].
  apply Nat.ltb_lt in E. unfold OneIn.
  destruct (Random.Next rnd mod u32 4 =? 0).
  - destruct (IH (Random.Next rnd) (S h)) as [IH1 IH2]; [lia|]. split; [done|].
    intros Hs. apply IH2. by apply Next_ok.
  - split; [done|]. cbn [fst]. apply Next_ok.
Qed.

Lemma RandomHeight_range rnd :
  (1 <= snd (RandomHeight rnd) <= kMaxHeight)%nat /\
  (seed_ok rnd -> seed_ok (fst (RandomHeight rnd))).
Proof. apply RandomHeight_loop_range. unfold kMaxHeight; lia. Qed.

(** A node appended to the arena, and the nodes before it. *)
Lemma NewNode_lookup (m : list (Node K)) k h a :
  fst (NewNode m k h) !! a =
  if decide (a = length m) then Some (mkNode k (replicate h None)) else m !! a.
Proof.
  unfold NewNode. cbn [fst]. case_decide as Ha.
  - subst a. by rewrite lookup_app_r, Nat.sub_diag by lia.
  - destruct (decide (a < length m)%nat); [by rewrite lookup_app_l|].
    rewrite !(proj2 (lookup_ge_None _ _)); [done|lia|]. rewrite length_app. cbn. lia.
Qed.

Lemma NewNode_Next (m : list (Node K)) k h a j :
  Node_Next (fst (NewNode m k h)) a j =
  if decide (a = length m) then if decide (j < h)%nat then Some None else None
  else Node_Next m a j.
Proof.
  unfold Node_Next. rewrite NewNode_lookup. case_decide as Ha; [|done]. cbn [mbind option_bind next_].
  case_decide; [by apply lookup_replicate_2|apply lookup_ge_None; rewrite length_replicate; lia].
Qed.

Lemma NewNode_height (m : list (Node K)) k h a :
  height (fst (NewNode m k h)) a = if decide (a = length m) then h else height m a.
Proof.
  unfold height. rewrite NewNode_lookup. case_decide; [|done]. cbn [next_]. apply length_replicate.
Qed.

Lemma NewNode_key (m : list (Node K)) k h a :
  key_of (fst (NewNode m k h)) a = if decide (a = length m) then Some k else key_of m a.
Proof. unfold key_of. rewrite NewNode_lookup. by case_decide. Qed.

(** Addresses of the list are nodes of the arena. *)
Lemma sl_inv_bound l L a : sl_inv l L -> a ∈ (0%nat :: L.*1) -> (a < length (nodes l))%nat.
Proof.
  intros H Ha. apply elem_of_cons in Ha as [->|Ha].
  - rewrite (si_length _ _ H). lia.
  - apply list_elem_of_fmap in Ha as (p & -> & Hp). pose proof (si_keys _ _ H) as Hk.
    rewrite list.Forall_forall in Hk. specialize (Hk p Hp). unfold key_of in Hk.
    destruct (nodes l !! fst p) eqn:E; [|done]. by apply lookup_lt_Some in E.
Qed.

Lemma level_nodes_ext (m m' : list (Node K)) j L :
  (forall a, a ∈ L.*1 -> height m' a = height m a) -> level_nodes m' j L = level_nodes m j L.
Proof.
  intros H. induction L as [|p L IH]; [done|]. rewrite !level_nodes_cons.
  rewrite (H (fst p)) by left. rewrite IH; [done|]. intros a Ha. apply H. by right.
Qed.

Lemma level_nodes_high l L A B j :
  sl_inv l L -> L = A ++ B -> (max_height_ l <= j)%nat -> level_nodes (nodes l) j A = [].
Proof.
  intros H -> Hj. pose proof (si_height _ _ H) as Hh. clear H. apply Forall_app in Hh as [Hh _].
  induction A as [|p A IH]; [done|]. inversion Hh; subst. rewrite level_nodes_cons.
  rewrite decide_False by lia. auto.
Qed.

Lemma last_at_in (m : list (Node K)) j L : last_at m 0 j L ∈ (0%nat :: level_nodes m j L).
Proof.
  unfold last_at. destruct (list.last _) as [z|] eqn:E; cbn [default]; [right|left].
  by apply last_Some_elem_of in E.
Qed.
(** [prev] of [Insert], with the levels above the old height added. *)
Lemma prev_levels l A B prev h j :
  sl_inv l (A ++ B) -> length prev = kMaxHeight ->
  (forall j, (j < max_height_ l)%nat -> prev !! j = Some (Some (last_at (nodes l) 0 j A))) ->
  (j < h)%nat ->
  (if (max_height_ l <? h)%nat
   then take (max_height_ l) prev ++ replicate (h - max_height_ l) (Some 0%nat) ++ drop h prev
   else prev) !! j = Some (Some (last_at (nodes l) 0 j A)).
Proof.
  intros H Hlen Hp Hj. pose proof (si_max _ _ H) as Hm.
  destruct (max_height_ l <? h)%nat eqn:E; [apply Nat.ltb_lt in E|apply Nat.ltb_ge in E; apply Hp; lia].
  assert (length (take (max_height_ l) prev) = max_height_ l) as Ht by (rewrite length_take; lia).
  destruct (decide (j < max_height_ l)%nat) as [Hlt|Hge].
  - rewrite lookup_app_l, lookup_take_lt by lia. by apply Hp.
  - rewrite lookup_app_r, Ht by lia. rewrite lookup_app_l by (rewrite length_replicate; lia).
    rewrite lookup_replicate_2 by lia. rewrite last_at_nil; [done|].
    eapply level_nodes_high; [done|done|lia].
Qed.

(** Sortedness with a key at the border. *)
Lemma sorted_insert A B (x : nat) k :
  StronglySorted (fun p q => cmp (snd p) (snd q) = Lt) (A ++ B) ->
  Forall (fun p => cmp (snd p) k = Lt) A -> Forall (fun p => cmp (snd p) k = Gt) B ->
  StronglySorted (fun p q => cmp (snd p) (snd q) = Lt) (A ++ (x, k) :: B).
Proof.
  rewrite !StronglySorted_app, !list.Forall_forall. intros (HAB & HA & HB) HAk HBk.
  split; [|split; [done|constructor; [done|]]].
  - intros p q Hp [->|Hq]%elem_of_cons; cbn [snd]; auto.
  - rewrite list.Forall_forall. intros q Hq. cbn [snd]. by apply cmp_lt_gt, HBk.
Qed.

(** The linked heap has the new node on its levels and nothing else changed. *)
Lemma linked_chain l A B k h m2 (x := length (nodes l)) j :
  sl_inv l (A ++ B) -> (j < kMaxHeight)%nat -> (1 <= h <= kMaxHeight)%nat ->
  same_shape (fst (NewNode (nodes l) k h)) m2 ->
  (forall b j, Node_Next m2 b j =
    if decide (0 <= j < 0 + h)%nat then
      if decide (b = x) then Node_Next (fst (NewNode (nodes l) k h)) (last_at (nodes l) 0 j A) j
      else if decide (b = last_at (nodes l) 0 j A) then Some (Some x)
      else Node_Next (fst (NewNode (nodes l) k h)) b j
    else Node_Next (fst (NewNode (nodes l) k h)) b j) ->
  chain m2 j 0 (level_nodes m2 j (A ++ (x, k) :: B)).
Proof.
  intros H Hj Hh (_ & _ & Hs) HN.
  assert (forall a, a ∈ (0%nat :: (A ++ B).*1) -> a <> x) as Hx.
  { intros a Ha ->. apply (sl_inv_bound _ _ _ H) in Ha. unfold x in Ha. lia. }
  assert (forall L, L ⊆ A ++ B -> level_nodes m2 j L = level_nodes (nodes l) j L) as Hlv.
  { intros L HL. apply level_nodes_ext. intros a Ha. rewrite Hs, NewNode_height.
    apply list_elem_of_fmap in Ha as (p & -> & Hp). rewrite decide_False; [done|].
    apply Hx. right. apply list_elem_of_fmap. exists p. set_solver. }
  rewrite level_nodes_app, level_nodes_cons. cbn [fst]. rewrite Hs, NewNode_height.
  rewrite (Hlv A), (Hlv B) by set_solver. fold x. rewrite (decide_True (P := x = x)) by done.
  pose proof (si_chain _ _ H j Hj) as Hc. rewrite level_nodes_app in Hc.
  assert (0%nat :: level_nodes (nodes l) j A ++ level_nodes (nodes l) j B ⊆
          0%nat :: (A ++ B).*1) as Hsub.
  { rewrite <- level_nodes_app. intros a [->|Ha]%elem_of_cons; [left|right].
    by apply level_nodes_sub in Ha as [? _]. }
  assert (forall b, b ∈ (0%nat :: level_nodes (nodes l) j A ++ level_nodes (nodes l) j B) ->
    b <> x) as Hbx by (intros b Hb; apply Hx; set_solver).
  assert (last_at (nodes l) 0 j A ∈ (0%nat :: (A ++ B).*1)) as Hpin.
  { pose proof (last_at_in (nodes l) j A). set_solver. }
  case_decide as Hjh.
  - apply (chain_insert (nodes l)); fold (last_at (nodes l) 0 j A); try done.
    + pose proof (si_nodup _ _ H) as Hnd. rewrite <- level_nodes_app.
      inversion Hnd; subst. constructor; [|by apply list.NoDup_filter].
      intros Hin. by apply level_nodes_sub in Hin as [? _].
    + intros Hin. by apply (Hbx x).
    + rewrite HN, decide_True, decide_True by (done || lia).
      rewrite NewNode_Next, decide_False; [done|]. by apply Hx.
    + rewrite HN, (decide_True (P := (0 <= j < 0 + h)%nat)) by lia.
      rewrite decide_False by (by apply Hx). by rewrite decide_True.
    + intros b Hb1 Hb2. rewrite HN, (decide_True (P := (0 <= j < 0 + h)%nat)) by lia.
      rewrite !decide_False by done. rewrite NewNode_Next. by rewrite decide_False.
  - eapply chain_ext; [|exact Hc]. intros b Hb.
    rewrite HN, (decide_False (P := (0 <= j < 0 + h)%nat)) by lia.
    rewrite NewNode_Next. rewrite decide_False; [done|]. by apply Hbx.
Qed.
(** The linked heap satisfies the invariant. *)
Lemma insert_inv l A B k h m2 rnd (x := length (nodes l)) :
  sl_inv l (A ++ B) -> Forall (fun p => cmp (snd p) k = Lt) A ->
  Forall (fun p => cmp (snd p) k = Gt) B -> (1 <= h <= kMaxHeight)%nat -> seed_ok rnd ->
  same_shape (fst (NewNode (nodes l) k h)) m2 ->
  (forall j, (j < kMaxHeight)%nat -> chain m2 j 0 (level_nodes m2 j (A ++ (x, k) :: B))) ->
  sl_inv (mkSkipList m2 (if (max_height_ l <? h)%nat then h else max_height_ l) rnd)
    (A ++ (x, k) :: B).
Proof.
  intros H HA HB Hh Hseed Hs Hchain. pose proof (si_max _ _ H) as Hm.
  pose proof Hs as (Hsl & Hsk & Hsh).
  assert (forall p, p ∈ A ++ B -> fst p <> x) as Hnx.
  { intros p Hp E. assert (fst p ∈ (0%nat :: (A ++ B).*1)) as Hin
      by (right; apply list_elem_of_fmap; eauto).
    apply (sl_inv_bound _ _ _ H) in Hin. unfold x in E. lia. }
  assert (forall P : nat * K -> Prop, P (x, k) -> (forall p, p ∈ A ++ B -> P p) ->
    Forall P (A ++ (x, k) :: B)) as Hall.
  { intros P H1 H2. apply list.Forall_forall. intros p. rewrite elem_of_app, elem_of_cons.
    set_solver. }
  pose proof (si_keys _ _ H) as Hk. pose proof (si_height _ _ H) as Hhh.
  rewrite list.Forall_forall in Hk, Hhh.
  split; cbn [nodes max_height_ rnd_].
  - pose proof (si_nodup _ _ H) as Hnd. rewrite fmap_app. cbn [fmap list_fmap].
    rewrite fmap_app in Hnd. rewrite list.NoDup_cons in *. rewrite elem_of_app, elem_of_cons in *.
    destruct Hnd as [Hn0 Hnd]. split.
    { intros [?|[E|?]]; [tauto| |tauto]. cbn [fst] in E. unfold x in E. rewrite (si_length _ _ H) in E. lia. }
    rewrite <- Permutation_middle. apply list.NoDup_cons. split; [|done].
    rewrite <- fmap_app. intros Hin. apply list_elem_of_fmap in Hin as (p & E & Hp).
    by apply (Hnx p Hp).
  - apply Hall; cbn [fst snd].
    + rewrite Hsk, NewNode_key. by rewrite decide_True.
    + intros p Hp. rewrite Hsk, NewNode_key, decide_False by (by apply Hnx). auto.
  - apply Hall; cbn [fst snd].
    + rewrite Hsh, NewNode_height, decide_True by done. destruct (_ <? _)%nat eqn:E;
        [lia|apply Nat.ltb_ge in E; lia].
    + intros p Hp. rewrite Hsh, NewNode_height, decide_False by (by apply Hnx).
      specialize (Hhh p Hp). destruct (_ <? _)%nat eqn:E; [apply Nat.ltb_lt in E; lia|lia].
  - rewrite Hsh, NewNode_height, decide_False; [apply H|].
    unfold x. rewrite (si_length _ _ H). lia.
  - destruct (_ <? _)%nat; lia.
  - done.
  - apply sorted_insert; [apply H|done|done].
  - rewrite Hsl. unfold NewNode. cbn [fst]. rewrite !length_app, (si_length _ _ H), length_app.
    cbn. lia.
  - done.
Qed.

Lemma Insert_spec l A B k :
  sl_inv l (A ++ B) -> Forall (fun p => cmp (snd p) k = Lt) A ->
  Forall (fun p => cmp (snd p) k = Gt) B ->
  exists l' x, Insert cmp l k = Some l' /\ sl_inv l' (A ++ (x, k) :: B).
Proof.
  intros H HA HB. unfold Insert.
  destruct (FindGE_spec l A B k H HA) as (prev & -> & Hlen & Hprev).
  { eapply list.Forall_impl; [exact HB|]. cbn. congruence. }
  cbn [mbind option_bind]. destruct (RandomHeight_range (rnd_ l)) as [Hh Hseed].
  destruct (RandomHeight (rnd_ l)) as [rnd h]. cbn [fst snd] in *.
  set (x := length (nodes l)). change (NewNode (nodes l) k h) with
    (fst (NewNode (nodes l) k h), x).
  cbn match. pose proof (si_max _ _ H) as Hm.
  assert (forall j, last_at (nodes l) 0 j A ∈ (0%nat :: (A ++ B).*1)) as Hpin.
  { intros j. pose proof (last_at_in (nodes l) j A) as Hin. rewrite fmap_app.
    apply elem_of_cons in Hin as [->|Hin]; [left|].
    right. apply level_nodes_sub in Hin as [Hin _]. set_solver. }
  assert (forall j, last_at (nodes l) 0 j A <> x) as Hpx.
  { intros j E. pose proof (sl_inv_bound _ _ _ H (Hpin j)). unfold x in E. lia. }
  destruct (link_loop_spec h (fst (NewNode (nodes l) k h)) x 0
    (if (max_height_ l <? h)%nat
     then take (max_height_ l) prev ++ replicate (h - max_height_ l) (Some 0%nat) ++ drop h prev
     else prev) (fun j => last_at (nodes l) 0 j A)) as (m2 & -> & Hs & HN).
  { intros j Hj. split; [by eapply prev_levels; [| | |lia]|]. split; [done|].
    rewrite !NewNode_Next. rewrite (decide_False (P := last_at _ _ _ _ = _)) by apply Hpx.
    rewrite (decide_True (P := x = _)), decide_True by (done || lia).
    split; [|done]. apply Node_Next_height.
    pose proof (last_at_in (nodes l) j A) as Hin. apply elem_of_cons in Hin as [->|Hin].
    - rewrite (si_head _ _ H). lia.
    - by apply level_nodes_sub in Hin as [_ ?]. }
  cbn [mbind option_bind]. eexists _, x. split; [done|].
  apply insert_inv; auto.
  - apply Hseed, H.
  - intros j Hj. apply (linked_chain l A B k h m2 j H Hj Hh Hs HN).
Qed.
(** *** The cursor *)

Lemma chain_lookup (m : list (Node K)) j y (ns : list nat) i a :
  chain m j y ns -> ns !! i = Some a -> Node_Next m a j = Some (ns !! S i).
Proof.
  revert y i. induction ns as [|b ns IH]; intros y i Hc Hi; [done|].
  destruct Hc as [_ Hc]. destruct i as [|i]; cbn in Hi |- *.
  - injection Hi as <-. destruct ns; cbn in *; [done|]. by destruct Hc.
  - by eapply IH.
Qed.

(** The node of a position; the position after the last is [nullptr]. *)
Definition node_at L (i : nat) : option nat := L.*1 !! i.

Lemma Iter_key_at l L i : sl_inv l L -> Iter_key l (node_at L i) = L.*2 !! i.
Proof.
  intros H. unfold Iter_key, node_at. rewrite !list_lookup_fmap.
  destruct (L !! i) as [p|] eqn:E; cbn; [|done]. pose proof (si_keys _ _ H) as Hk.
  rewrite Forall_lookup in Hk. by apply Hk in E.
Qed.

Lemma Iter_Next_at l L i :
  sl_inv l L -> (i < length L)%nat -> Iter_Next l (node_at L i) = Some (node_at L (S i)).
Proof.
  intros H Hi. unfold Iter_Next, node_at.
  destruct (L.*1 !! i) as [a|] eqn:E.
  - cbn [mbind option_bind]. pose proof (si_chain _ _ H 0 ltac:(unfold kMaxHeight; lia)) as Hc.
    rewrite (level0 _ L (sl_heights _ _ H)) in Hc. by eapply chain_lookup.
  - apply lookup_ge_None in E. rewrite length_fmap in E. lia.
Qed.

Lemma Iter_SeekToFirst_at l L : sl_inv l L -> Iter_SeekToFirst l = Some (node_at L 0).
Proof.
  intros H. unfold Iter_SeekToFirst, node_at.
  pose proof (si_chain _ _ H 0 ltac:(unfold kMaxHeight; lia)) as Hc.
  rewrite (level0 _ L (sl_heights _ _ H)) in Hc. destruct L.*1; cbn in *; [done|by destruct Hc].
Qed.

(** The last node before a border, as the code finds it. *)
Lemma last_not_head l A B :
  sl_inv l (A ++ B) ->
  not_head (last_at (nodes l) 0 0 A) =
  match A with [] => None | _ => node_at (A ++ B) (length A - 1) end.
Proof.
  intros H. pose proof (si_nodup _ _ H) as Hnd.
  assert (level_nodes (nodes l) 0 A = A.*1) as H0.
  { pose proof (sl_heights _ _ H) as Hh. apply Forall_app in Hh as [Hh _]. by apply level0. }
  unfold last_at, node_at. rewrite H0. destruct A as [|p A _] using rev_ind; [done|].
  rewrite !fmap_app. cbn [fmap list_fmap]. rewrite list.last_snoc. cbn [default].
  rewrite length_app. cbn [length]. rewrite Nat.add_sub, <- app_assoc.
  rewrite lookup_app_r by (rewrite length_fmap; lia). rewrite length_fmap, Nat.sub_diag. cbn.
  assert (fst p <> 0%nat) as Hne.
  { intros E. rewrite list.NoDup_cons in Hnd. destruct Hnd as [Hnd _]. apply Hnd.
    rewrite !fmap_app. cbn. set_solver. }
  destruct (fst p); [done|]. by destruct A.
Qed.

Lemma Iter_SeekToLast_at l L :
  sl_inv l L ->
  Iter_SeekToLast l = Some (match L with [] => None | _ => node_at L (length L - 1) end).
Proof.
  intros H. unfold Iter_SeekToLast, FindLast.
  rewrite (FindLast_scan _ _ _ _ (replicate kMaxHeight None)).
  rewrite <- (app_nil_r L) in H.
  destruct (scan_border l L [] (fun _ => Some true) (replicate kMaxHeight None) H)
    as (prev & -> & _); [by apply Forall_true|done|apply length_replicate|].
  cbn [mbind option_bind]. rewrite (last_not_head _ _ _ H). by rewrite app_nil_r.
Qed.

(** The keys before a position are smaller, the others are not. *)
Lemma sorted_position L i p :
  StronglySorted (fun p q => cmp (snd p) (snd q) = Lt) L -> L !! i = Some p ->
  Forall (fun q => cmp (snd q) (snd p) = Lt) (take i L) /\
  Forall (fun q => cmp (snd q) (snd p) <> Lt) (drop i L).
Proof.
  intros Hs Hi. pose proof (drop_S _ _ _ Hi) as Hd.
  rewrite <- (take_drop i L), StronglySorted_app in Hs. destruct Hs as (H1 & _ & H2).
  rewrite Hd in *. inversion H2 as [|? ? _ H3]; subst. split.
  - apply list.Forall_forall. intros q Hq. apply H1; [done|left].
  - constructor; [by rewrite (cmp_refl cmp)|]. eapply list.Forall_impl; [exact H3|].
    cbn. intros q Hq. apply (cmp_lt_gt cmp) in Hq. congruence.
Qed.

Lemma Iter_Prev_at l L i :
  sl_inv l L -> (i < length L)%nat ->
  Iter_Prev cmp l (node_at L i) = Some (match i with O => None | S i' => node_at L i' end).
Proof.
  intros H Hi. destruct (lookup_lt_is_Some_2 L i Hi) as [p Ep].
  unfold Iter_Prev. rewrite (Iter_key_at _ _ _ H), list_lookup_fmap, Ep. cbn [fmap option_fmap option_map mbind option_bind].
  unfold FindLessThan. rewrite (FindLT_scan _ _ _ _ _ _ (replicate kMaxHeight None)).
  destruct (sorted_position L i p (si_sorted _ _ H) Ep) as [H1 H2].
  pose proof H as H'. rewrite <- (take_drop i L) in H'.
  pose proof (si_keys _ _ H) as Hk. rewrite list.Forall_forall in Hk. unfold key_of in Hk.
  edestruct (scan_border l (take i L) (drop i L)) as (prev & E & _); [done|..].
  4:{ erewrite E. cbn [mbind option_bind]. rewrite (last_not_head _ _ _ H'), take_drop.
      rewrite length_take, Nat.min_l by lia. destruct i; [done|]. cbn [Nat.sub].
      rewrite Nat.sub_0_r. by destruct L. }
  - eapply Forall_border; [exact H1|]. intros q Hq Hc.
    specialize (Hk q ltac:(rewrite <- (take_drop i L); set_solver)).
    destruct (nodes l !! fst q); cbn in *; [|done]. injection Hk as ->. by rewrite Hc.
  - eapply Forall_border; [exact H2|]. intros q Hq Hc.
    specialize (Hk q ltac:(rewrite <- (take_drop i L); set_solver)).
    destruct (nodes l !! fst q); cbn in *; [|done]. injection Hk as ->.
    destruct (cmp (snd q) (snd p)) eqn:E'; congruence.
  - apply length_replicate.
Qed.
(** *** The list of keys *)

(** The list holds exactly the keys [ks], in this order. *)
Definition sl_rep l (ks : list K) : Prop := exists L, sl_inv l L /\ L.*2 = ks.

Fixpoint insert_key (k : K) (ks : list K) : list K :=
  match ks with
  | [] => [k]
  | x :: ks' => match cmp x k with Lt => x :: insert_key k ks' | _ => k :: ks end
  end.

Lemma border_keys k A B :
  Forall (fun p => cmp (snd p) k = Lt) A -> Forall (fun p => cmp (snd p) k <> Lt) B ->
  insert_key k (A ++ B).*2 = A.*2 ++ k :: B.*2 /\ seek_pos cmp k (A ++ B).*2 = length A.
Proof.
  intros HA HB. induction HA as [|p A Hp _ IH].
  - cbn [app]. destruct B as [|q B]; [done|]. inversion HB; subst. cbn.
    destruct (cmp (snd q) k); done.
  - destruct IH as [IH1 IH2]. cbn. rewrite Hp. cbn in IH1, IH2. by rewrite IH1, IH2.
Qed.

Lemma Insert_rep l ks k :
  sl_rep l ks -> Forall (fun x => cmp x k <> Eq) ks ->
  exists l', Insert cmp l k = Some l' /\ sl_rep l' (insert_key k ks).
Proof.
  intros (L & H & <-) Hne. destruct (sorted_border L k (si_sorted _ _ H)) as (A & B & -> & HA & HB).
  destruct (border_keys k A B HA HB) as [-> _].
  destruct (Insert_spec l A B k H HA) as (l' & x & E & H').
  - rewrite fmap_app, Forall_app, !Forall_fmap in Hne. destruct Hne as [_ Hne].
    rewrite list.Forall_forall in *. intros p Hp. specialize (HB p Hp). specialize (Hne p Hp).
    cbn in Hne. destruct (cmp (snd p) k); done.
  - exists l'. split; [done|]. eexists. split; [exact H'|]. by rewrite fmap_app.
Qed.

Lemma Iter_Seek_at l L k :
  sl_inv l L -> Iter_Seek cmp l k = Some (node_at L (seek_pos cmp k L.*2)).
Proof.
  intros H. destruct (sorted_border L k (si_sorted _ _ H)) as (A & B & -> & HA & HB).
  destruct (border_keys k A B HA HB) as [_ ->]. unfold Iter_Seek.
  destruct (FindGE_spec l A B k H HA HB) as (prev & -> & _). cbn [mbind option_bind].
  unfold node_at. rewrite fmap_app, lookup_app_r by (rewrite length_fmap; lia).
  rewrite length_fmap, Nat.sub_diag. by destruct B.
Qed.

Lemma sl_rep_sorted l ks :
  sl_rep l ks -> StronglySorted (fun x y => cmp x y = Lt) ks.
Proof.
  intros (L & H & <-). pose proof (si_sorted _ _ H) as Hs. clear H.
  induction Hs as [|p L Hs IH Hp]; cbn; [constructor|]. constructor; [done|].
  by apply Forall_fmap.
Qed.
Lemma Contains_spec l L k :
  sl_inv l L ->
  Contains cmp l k =
  Some (existsb (fun x => match cmp k x with Eq => true | _ => false end) L.*2).
Proof.
  intros H. destruct (sorted_border L k (si_sorted _ _ H)) as (A & B & -> & HA & HB).
  unfold Contains. destruct (FindGE_spec l A B k H HA HB) as (prev & -> & _).
  cbn [mbind option_bind]. rewrite fmap_app, existsb_app.
  assert (existsb (fun x => match cmp k x with Eq => true | _ => false end) A.*2 = false) as ->.
  { clear H HB. induction HA as [|p A Hp _ IH]; [done|]. cbn.
    rewrite (cmp_antisym cmp (snd p) k), Hp. exact IH. }
  destruct B as [|q B]; [done|]. cbn [orb fmap list_fmap head hd_error existsb].
  pose proof (si_keys _ _ H) as Hk. apply Forall_app in Hk as [_ Hk]. inversion Hk as [|? ? Hq _]; subst.
  unfold key_of in Hq. destruct (nodes l !! fst q) as [nd|]; cbn [mbind option_bind] in *; [|done].
  injection Hq as ->. inversion HB as [|? ? Hqk _]; subst.
  destruct (cmp k (snd q)) eqn:E; [done| |].
  - pose proof (si_sorted _ _ H) as Hs. apply StronglySorted_app in Hs as (_ & _ & Hs).
    inversion Hs as [|? ? _ HqB]; subst. cbn [orb]. f_equal. symmetry.
    clear -HqB E OrderLaws0. induction HqB as [|p B Hp _ IH]; [done|]. cbn.
    rewrite (cmp_lt_trans cmp _ _ _ E Hp). exact IH.
  - apply (cmp_lt_gt cmp) in E. done.
Qed.
End Correct.

Arguments sl_rep {K} cmp l ks.
Arguments sl_inv {K} cmp l L.

(** ** Properties *)

(** C22: [Insert] implements insertion into a sorted sequence.  On a list that
    holds the keys [ks], inserting a key that is not there succeeds: every
    pointer it follows or writes exists, its search ends, and the result holds
    [ks] with the key added in order, whatever height the generator draws. *)
Theorem skiplist_insert_refines {K} (cmp : K -> K -> comparison) `{!OrderLaws cmp}
    (l : SkipList K) (ks : list K) (k : K) :
  sl_rep cmp l ks -> Forall (fun x => cmp x k <> Eq) ks ->
  exists l', Insert cmp l k = Some l' /\ sl_rep cmp l' (insert_key cmp k ks) /\
    StronglySorted (fun x y => cmp x y = Lt) (insert_key cmp k ks).
Proof.
  intros H Hne. destruct (Insert_rep cmp l ks k H Hne) as (l' & E & H').
  exists l'. repeat split; try done. by eapply sl_rep_sorted.
Qed.

#[export] Instance Zcompare_laws : OrderLaws Z.compare.
Proof.
  split.
  - intros x y. apply Z.compare_antisym.
  - intros x y z H1 H2. rewrite Z.compare_le_iff in *. lia.
Qed.

(** A list of integers built by the code's own operations. *)
Definition sample_list : SkipList Z :=
  default (SkipList_new 0)
    (l ← Insert Z.compare (SkipList_new 0) 30;
     l ← Insert Z.compare l 10;
     Insert Z.compare l 20).

Lemma sample_list_rep : sl_rep Z.compare sample_list [10; 20; 30].
Proof.
  destruct (Insert_rep Z.compare (SkipList_new 0) [] 30) as (l1 & E1 & H1);
    [by exists []; split; [apply SkipList_new_inv|]|done|].
  destruct (Insert_rep Z.compare l1 [30] 10) as (l2 & E2 & H2);
    [done|by repeat constructor|].
  destruct (Insert_rep Z.compare l2 [10; 30] 20) as (l3 & E3 & H3);
    [done|by repeat constructor|].
  unfold sample_list. rewrite E1. cbn [mbind option_bind]. rewrite E2. cbn [mbind option_bind].
  by rewrite E3.
Qed.

Lemma skiplist_insert_refines_witness :
  exists l', Insert Z.compare sample_list 15 = Some l' /\
    sl_rep Z.compare l' [10; 15; 20; 30].
Proof.
  destruct (skiplist_insert_refines Z.compare sample_list [10; 20; 30] 15 sample_list_rep
    ltac:(repeat constructor; done)) as (l' & E & H & _).
  exists l'. split; [exact E|exact H].
Defined.

(** C23: The iterator is a cursor over the sorted keys.  There is one node per
    position; [SeekToFirst], [SeekToLast], [Seek], [Next] and [Prev] never
    fault, move to the first, the last, the first not smaller, the following
    and the preceding position, and [key] reads the key of the position;
    [Contains] decides membership. *)
Theorem skiplist_iterator_refines {K} (cmp : K -> K -> comparison) `{!OrderLaws cmp}
    (l : SkipList K) (ks : list K) :
  sl_rep cmp l ks ->
  exists at_ : nat -> option nat,
    (forall i, Iter_key l (at_ i) = ks !! i) /\
    (forall i, (length ks <= i)%nat <-> at_ i = None) /\
    Iter_SeekToFirst l = Some (at_ O) /\
    Iter_SeekToLast l = Some (match ks with [] => None | _ => at_ (length ks - 1)%nat end) /\
    (forall k, Iter_Seek cmp l k = Some (at_ (seek_pos cmp k ks))) /\
    (forall i, (i < length ks)%nat -> Iter_Next l (at_ i) = Some (at_ (S i))) /\
    (forall i, (i < length ks)%nat ->
       Iter_Prev cmp l (at_ i) = Some (match i with O => None | S i' => at_ i' end)) /\
    (forall k, Contains cmp l k = Some (existsb (fun x => match cmp k x with Eq => true | _ => false end) ks)).
Proof.
  intros (L & H & <-). exists (node_at L). rewrite !length_fmap. repeat split; intros.
  - by apply Iter_key_at with cmp.
  - unfold node_at. apply lookup_ge_None. by rewrite length_fmap.
  - apply lookup_ge_None in H0. by rewrite length_fmap in H0.
  - by apply Iter_SeekToFirst_at with cmp.
  - rewrite (Iter_SeekToLast_at cmp l L H). by destruct L.
  - by apply Iter_Seek_at.
  - by apply Iter_Next_at with cmp.
  - by apply Iter_Prev_at.
  - by apply Contains_spec.
Qed.

Lemma skiplist_iterator_refines_witness :
  exists at_ : nat -> option nat, Iter_Seek Z.compare sample_list 11 = Some (at_ 1%nat) /\
    Iter_key sample_list (at_ 1%nat) = Some 20.
Proof.
  destruct (skiplist_iterator_refines Z.compare sample_list [10; 20; 30] sample_list_rep)
    as (at_ & Hk & _ & _ & _ & Hs & _).
  exists at_. split; [exact (Hs 11)|exact (Hk 1%nat)].
Defined.
