(* ===== verification/Arena.v ===== *)
(** * The arena

    src/util/arena.h and src/util/arena.cc: a bump allocator over blocks taken
    from [new char[]].  Addresses are integers; [new char[]] is a parameter
    with the guarantees the language gives ([Allocator]): it returns memory
    that is aligned and does not overlap what it returned before. *)

From S2P Require Import Prelude.

Definition Arena_kBlockSize : Z := 4096.

(** An address and a length. *)
Abbreviation region := (Z * Z)%type.

(** [class Arena]; [blocks_] is kept with the sizes asked for. *)
Record Arena := mkArena {
  alloc_ptr_ : Z; alloc_bytes_remaining_ : Z; blocks_ : list region; memory_usage_ : Z }.

Definition disjoint_regions (r1 r2 : region) : Prop :=
  fst r1 + snd r1 <= fst r2 \/ fst r2 + snd r2 <= fst r1.

Definition inside (r b : region) : Prop :=
  fst b <= fst r /\ fst r + snd r <= fst b + snd b.

(** What [operator new[]] promises, given the live blocks. *)
Class Allocator (new_chars : list region -> Z -> Z) : Prop := {
  new_aligned : forall bs n, 0 < n -> Z.divide 8 (new_chars bs n);
  new_disjoint : forall bs n, 0 < n -> Forall (disjoint_regions (new_chars bs n, n)) bs
}.

Section Operations.
Context (new_chars : list region -> Z -> Z).

(** [Arena::Arena] *)
Definition Arena_new : Arena := mkArena 0 0 [] 0.

(** [AllocateNewBlock(block_bytes)]; a pointer takes 8 bytes. *)
Definition AllocateNewBlock (a : Arena) (block_bytes : Z) : Arena * Z :=
  let result := new_chars (blocks_ a) block_bytes in
  (mkArena (alloc_ptr_ a) (alloc_bytes_remaining_ a) (blocks_ a ++ [(result, block_bytes)])
     (u64 (memory_usage_ a + (block_bytes + 8))), result).

(** [AllocateFallback(bytes)] *)
Definition AllocateFallback (a : Arena) (bytes : Z) : Arena * Z :=
  if bytes >? Arena_kBlockSize / 4 then AllocateNewBlock a bytes
  else
    let '(a, p) := AllocateNewBlock a Arena_kBlockSize in
    (mkArena (p + bytes) (Arena_kBlockSize - bytes) (blocks_ a) (memory_usage_ a), p).

(** [Allocate(bytes)] *)
Definition Allocate (a : Arena) (bytes : Z) : Arena * Z :=
  if bytes <=? alloc_bytes_remaining_ a then
    (mkArena (alloc_ptr_ a + bytes) (alloc_bytes_remaining_ a - bytes) (blocks_ a)
       (memory_usage_ a), alloc_ptr_ a)
  else AllocateFallback a bytes.

(** [AllocateAligned(bytes)] with [align = 8] *)
Definition AllocateAligned (a : Arena) (bytes : Z) : Arena * Z :=
  let current_mod := Z.land (alloc_ptr_ a) (8 - 1) in
  let slop := if current_mod =? 0 then 0 else 8 - current_mod in
  let needed := u64 (bytes + slop) in
  if needed <=? alloc_bytes_remaining_ a then
    (mkArena (alloc_ptr_ a + needed) (alloc_bytes_remaining_ a - needed) (blocks_ a)
       (memory_usage_ a), alloc_ptr_ a + slop)
  else AllocateFallback a bytes.

(** [MemoryUsage()] *)
Definition MemoryUsage (a : Arena) : Z := memory_usage_ a.
End Operations.

Section Correct.
Context (new_chars : list region -> Z -> Z) `{!Allocator new_chars}.

(** The regions handed out so far lie in the blocks, do not overlap each other
    and do not overlap what is left of the current block. *)
Record arena_inv (a : Arena) (given : list region) : Prop := {
  ai_inside : Forall (fun r => Exists (inside r) (blocks_ a)) given;
  ai_disjoint : ForallOrdPairs disjoint_regions given;
  ai_free : 0 <= alloc_bytes_remaining_ a;
  ai_free_inside : 0 < alloc_bytes_remaining_ a ->
    Exists (inside (alloc_ptr_ a, alloc_bytes_remaining_ a)) (blocks_ a);
  ai_free_disjoint : 0 < alloc_bytes_remaining_ a ->
    Forall (disjoint_regions (alloc_ptr_ a, alloc_bytes_remaining_ a)) given;
  ai_usage : memory_usage_ a = u64 (foldr (fun b s => snd b + 8 + s) 0 (blocks_ a))
}.

Lemma Arena_new_inv : arena_inv Arena_new [].
Proof. split; cbn; try done; constructor. Qed.

Lemma new_disjoint_inside bs n r :
  0 < n -> Exists (inside r) bs -> disjoint_regions (new_chars bs n, n) r.
Proof.
  intros Hn He. pose proof (new_disjoint bs n Hn) as Hd. revert Hd.
  generalize (new_chars bs n) as p. intros p Hd.
  induction He as [b bs' Hi|b bs' _ IH] in Hd |- *; inversion Hd as [|? ? H1 H2]; subst.
  - unfold disjoint_regions, inside in *. cbn [fst snd] in *. lia.
  - by apply IH.
Qed.

Lemma usage_snoc bs (b : region) s :
  foldr (fun b s => snd b + 8 + s) s (bs ++ [b]) =
  snd b + 8 + foldr (fun b s => snd b + 8 + s) s bs.
Proof. induction bs as [|c bs IH]; cbn; [done|]. rewrite IH. lia. Qed.

(** Taking a block, whatever part of it becomes the new free region. *)
Lemma new_block_inv a given n k :
  arena_inv a given -> 0 < n -> 0 < k <= n ->
  let p := new_chars (blocks_ a) n in
  let bs := blocks_ a ++ [(p, n)] in
  let usage := u64 (memory_usage_ a + (n + 8)) in
  arena_inv (mkArena (alloc_ptr_ a) (alloc_bytes_remaining_ a) bs usage) ((p, k) :: given) /\
  arena_inv (mkArena (p + k) (n - k) bs usage) ((p, k) :: given).
Proof.
  intros [Hi Hd Hf Hfi Hfd Hu] Hn Hk p bs usage.
  assert (Forall (fun r => Exists (inside r) bs) ((p, k) :: given)) as Hin.
  { constructor.
    - apply Exists_app. right. constructor. unfold inside. cbn. lia.
    - eapply list.Forall_impl; [exact Hi|]. cbn. intros r Hr. apply Exists_app. by left. }
  assert (Forall (disjoint_regions (p, n)) given) as Hpn.
  { eapply list.Forall_impl; [exact Hi|]. cbn. intros r Hr. by apply new_disjoint_inside. }
  assert (ForallOrdPairs disjoint_regions ((p, k) :: given)) as Hpk.
  { constructor; [|done]. eapply list.Forall_impl; [exact Hpn|].
    unfold disjoint_regions. cbn [fst snd]. intros r. lia. }
  assert (usage = u64 (foldr (fun b s => snd b + 8 + s) 0 bs)) as Hus.
  { unfold usage, bs. rewrite usage_snoc, Hu. unfold u64. rewrite Zplus_mod_idemp_l.
    f_equal. cbn [snd]. lia. }
  split; split; cbn [alloc_ptr_ alloc_bytes_remaining_ blocks_ memory_usage_]; try done.
  - intros H. apply Exists_app. left. auto.
  - intros H. constructor; [|auto]. specialize (Hfi H).
    pose proof (new_disjoint_inside (blocks_ a) n _ Hn Hfi) as D. fold p in D.
    unfold disjoint_regions in *. cbn [fst snd] in *. lia.
  - lia.
  - intros H. apply Exists_app. right. constructor. unfold inside. cbn. lia.
  - intros H. constructor; [unfold disjoint_regions; cbn; lia|].
    eapply list.Forall_impl; [exact Hpn|]. unfold disjoint_regions. cbn [fst snd]. intros r. lia.
Qed.

(** Taking [k] bytes at distance [s] from the start of the free region. *)
Lemma bump_inv a given s k :
  arena_inv a given -> 0 < k -> 0 <= s -> s + k <= alloc_bytes_remaining_ a ->
  arena_inv (mkArena (alloc_ptr_ a + (s + k)) (alloc_bytes_remaining_ a - (s + k)) (blocks_ a)
    (memory_usage_ a)) ((alloc_ptr_ a + s, k) :: given).
Proof.
  intros [Hi Hd Hf Hfi Hfd Hu] Hk Hs Hr.
  specialize (Hfi ltac:(lia)). specialize (Hfd ltac:(lia)).
  split; cbn [alloc_ptr_ alloc_bytes_remaining_ blocks_ memory_usage_]; try done; try lia.
  - constructor; [|done]. eapply list.Exists_impl; [exact Hfi|]. unfold inside. cbn. intros; lia.
  - constructor; [|done]. eapply list.Forall_impl; [exact Hfd|].
    unfold disjoint_regions. cbn [fst snd]. intros r. lia.
  - intros H. eapply list.Exists_impl; [exact Hfi|]. unfold inside. cbn. intros; lia.
  - intros H. constructor; [unfold disjoint_regions; cbn; lia|].
    eapply list.Forall_impl; [exact Hfd|].
    unfold disjoint_regions. cbn [fst snd]. intros r. lia.
Qed.

Lemma AllocateFallback_inv a given n :
  arena_inv a given -> 0 < n ->
  let '(a', p) := AllocateFallback new_chars a n in
  arena_inv a' ((p, n) :: given) /\ Z.divide 8 p.
Proof.
  intros H Hn. unfold AllocateFallback, AllocateNewBlock, Arena_kBlockSize.
  change (4096 / 4) with 1024. case_test.
  - split; [|by apply new_aligned]. apply new_block_inv; [done|lia|lia].
  - cbn [blocks_ memory_usage_]. split; [|apply new_aligned; lia].
    apply new_block_inv; [done|lia|lia].
Qed.

Lemma Allocate_inv a given n :
  arena_inv a given -> 0 < n ->
  let '(a', p) := Allocate new_chars a n in arena_inv a' ((p, n) :: given).
Proof.
  intros H Hn. unfold Allocate. case_test.
  - pose proof (bump_inv a given 0 n H) as B. rewrite Z.add_0_l, Z.add_0_r in B. apply B; lia.
  - pose proof (AllocateFallback_inv a given n H Hn) as F.
    destruct (AllocateFallback new_chars a n). apply F.
Qed.

(** The padding is what the next multiple of eight needs. *)
Lemma slop_spec p :
  let slop := if Z.land p 7 =? 0 then 0 else 8 - Z.land p 7 in
  0 <= slop < 8 /\ Z.divide 8 (p + slop).
Proof.
  change 7 with (Z.ones 3). rewrite Z.land_ones by lia. change (2 ^ 3) with 8.
  pose proof (Z.mod_pos_bound p 8 ltac:(lia)) as B. pose proof (Z.div_mod p 8 ltac:(lia)) as D.
  cbn zeta. case_test; (split; [lia|]).
  - exists (p / 8). lia.
  - exists (p / 8 + 1). lia.
Qed.

Lemma AllocateAligned_inv a given n :
  arena_inv a given -> 0 < n < 2 ^ 63 ->
  let '(a', p) := AllocateAligned new_chars a n in
  arena_inv a' ((p, n) :: given) /\ Z.divide 8 p.
Proof.
  intros H Hn. unfold AllocateAligned. change (8 - 1) with 7.
  destruct (slop_spec (alloc_ptr_ a)) as [Hs Hd].
  set (slop := if Z.land (alloc_ptr_ a) 7 =? 0 then 0 else _) in *. clearbody slop.
  change (2 ^ 63) with 9223372036854775808 in Hn.
  rewrite u64_small by (change (2 ^ 64) with 18446744073709551616; lia).
  case_test; [|apply AllocateFallback_inv; [done|lia]]. split; [|done].
  rewrite (Z.add_comm n slop). apply bump_inv; (done || lia).
Qed.
End Correct.

(** ** Properties *)

(** A sequence of requests: [Allocate(n)] ([false]) or [AllocateAligned(n)]
    ([true]); the regions are listed with the latest first. *)
Definition serve_one (new_chars : list region -> Z -> Z) (st : Arena * list region)
    (req : bool * Z) : Arena * list region :=
  let '(a, given) := st in
  let '(a, p) :=
    if fst req then AllocateAligned new_chars a (snd req) else Allocate new_chars a (snd req) in
  (a, (p, snd req) :: given).

Definition serve (new_chars : list region -> Z -> Z) (reqs : list (bool * Z))
    : Arena * list region :=
  fold_left (serve_one new_chars) reqs (Arena_new, []).

(** What a request gets: its size, and alignment if it asked for it. *)
Definition served (req : bool * Z) (r : region) : Prop :=
  snd r = snd req /\ (fst req = true -> Z.divide 8 (fst r)).

Lemma serve_inv new_chars `{!Allocator new_chars} reqs done st :
  Forall (fun req => 0 < snd req < 2 ^ 63) reqs -> arena_inv (fst st) (snd st) ->
  Forall2 served done (snd st) ->
  arena_inv (fst (fold_left (serve_one new_chars) reqs st))
    (snd (fold_left (serve_one new_chars) reqs st)) /\
  Forall2 served (rev reqs ++ done) (snd (fold_left (serve_one new_chars) reqs st)).
Proof.
  intros Hr. revert done st.
  induction Hr as [|[al n] reqs Hn _ IH]; intros dn [a given] H Hd; [done|].
  cbn [fold_left rev]. rewrite <- app_assoc. cbn [serve_one fst snd app] in *. destruct al.
  - pose proof (AllocateAligned_inv new_chars a given n H Hn) as F.
    destruct (AllocateAligned new_chars a n). destruct F as [F1 F2].
    by apply IH; [|constructor].
  - pose proof (Allocate_inv new_chars a given n H ltac:(lia)) as F.
    destruct (Allocate new_chars a n). by apply IH; [|constructor].
Qed.

(** C28: Memory safety of the arena.  Whatever sequence of requests it serves,
    the regions it returns have the sizes asked for, are aligned where that was
    asked for, lie inside blocks it got from [new char[]] and do not overlap,
    and [MemoryUsage()] is what the blocks and their table entries take. *)
Theorem arena_regions_disjoint new_chars `{!Allocator new_chars} (reqs : list (bool * Z)) :
  Forall (fun req => 0 < snd req < 2 ^ 63) reqs ->
  let '(a, given) := serve new_chars reqs in
  ForallOrdPairs disjoint_regions given /\
  Forall2 served (rev reqs) given /\
  Forall (fun r => Exists (inside r) (blocks_ a)) given /\
  MemoryUsage a = u64 (foldr (fun b s => snd b + 8 + s) 0 (blocks_ a)).
Proof.
  intros Hr. unfold serve.
  destruct (serve_inv new_chars reqs [] (Arena_new, []) Hr Arena_new_inv) as [H F]; [done|].
  rewrite app_nil_r in F. destruct (fold_left _ reqs _) as [a given]. cbn [fst snd] in *.
  destruct H. done.
Qed.

(** An allocator: the next multiple of eight above all blocks. *)
Definition next_fit (bs : list region) (n : Z) : Z :=
  8 * (1 + foldr (fun b m => Z.max m (fst b + snd b)) 0 bs).

#[export] Instance next_fit_allocator : Allocator next_fit.
Proof.
  split; intros bs n Hn; unfold next_fit.
  - by exists (1 + foldr (fun b m => Z.max m (fst b + snd b)) 0 bs); lia.
  - assert (Forall (fun b => fst b + snd b <= foldr (fun b m => Z.max m (fst b + snd b)) 0 bs) bs)
      as H.
    { induction bs as [|b bs IH]; cbn; constructor; [lia|].
      eapply list.Forall_impl; [exact IH|]. cbn. intros; lia. }
    assert (0 <= foldr (fun b m => Z.max m (fst b + snd b)) 0 bs) as H0
      by (clear H; induction bs; cbn; lia).
    eapply list.Forall_impl; [exact H|]. unfold disjoint_regions. cbn. intros; lia.
Qed.

Lemma arena_regions_disjoint_witness :
  ForallOrdPairs disjoint_regions
    (snd (serve next_fit [(false, 13); (true, 40); (false, 5000); (true, 16)])).
Proof.
  exact (proj1 (arena_regions_disjoint next_fit
    [(false, 13); (true, 40); (false, 5000); (true, 16)]
    ltac:(repeat constructor; vm_compute; reflexivity))).
Defined.
