(* ===== verification/MemTable.v ===== *)
(** * The memtable

    src/db/memtable.h and src/db/memtable.cc over the skip list and the arena.
    The skip list's key is a [const char*] to an entry in the arena; here it is
    the bytes of that entry.

    The abstract value of a memtable is the list of the entries added to it.
    [Get] at a sequence number finds the newest entry of the user key that is
    not newer than it. *)

From stdpp Require Import sets sorting.
From S2P Require Import Prelude Slice Coding Comparator DbFormat WriteBatch Random Arena Iterator SkipList.

(** [GetLengthPrefixedSlice(const char* data)]: the prefix is looked for in the
    next five bytes; it is always there. *)
Definition entry_slice (data : bytes) : bytes :=
  match GetVarint32Ptr (take 5 data) with
  | Some (len, rest) =>
      take (Z.to_nat len) (drop (length (take 5 data) - length rest) data)
  | None => []
  end.

(** The bytes behind that slice. *)
Definition after_slice (data : bytes) : bytes :=
  match GetVarint32Ptr (take 5 data) with
  | Some (len, rest) =>
      drop (Z.to_nat len) (drop (length (take 5 data) - length rest) data)
  | None => []
  end.

(** The result of [MemTable::Get]: [false]; [true] with a value; [true] with
    the status set to [NotFound]. *)
Inductive GetResult := GetAbsent | GetValue (value : bytes) | GetDeleted (s : Status).

Record MemTable := mkMemTable { table_ : SkipList bytes; arena_ : Arena; refs_ : Z }.

Section Operations.
Context (new_chars : list region -> Z -> Z).
Context (ucmp : Comparator).

(** [MemTable::KeyComparator::operator()] *)
Definition KeyComparator (aptr bptr : bytes) : comparison :=
  InternalKeyComparator.Compare ucmp (entry_slice aptr) (entry_slice bptr).

(** What [NewNode] asks the arena for: a key pointer and [height] links. *)
Definition node_bytes (height : nat) : Z := 16 + 8 * (Z.of_nat height - 1).

(** [MemTable::MemTable] *)
Definition MemTable_new : MemTable :=
  mkMemTable (SkipList_new []) (fst (AllocateAligned new_chars Arena_new (node_bytes kMaxHeight))) 0.

(** [Ref] and [Unref]; [None] is the deleted object. *)
Definition MemTable_Ref (m : MemTable) : MemTable :=
  mkMemTable (table_ m) (arena_ m) (refs_ m + 1).
Definition MemTable_Unref (m : MemTable) : option MemTable :=
  let refs := refs_ m - 1 in
  if refs <=? 0 then None else Some (mkMemTable (table_ m) (arena_ m) refs).

(** [ApproximateMemoeyUsage] *)
Definition ApproximateMemoeyUsage (m : MemTable) : Z := MemoryUsage (arena_ m).

(** [EncodeKey] *)
Definition EncodeKey (target : bytes) : bytes := PutVarint32 [] (zlen target) ++ target.

(** The entry [Add] writes. *)
Definition encode_entry (s : Z) (t : ValueType) (key value : bytes) : bytes :=
  EncodeVarint32 (u32 (zlen key + 8)) ++ key ++
  EncodeFixed64 (Z.lor (u64 (Z.shiftl s 8)) (type_to_Z t)) ++
  EncodeVarint32 (u32 (zlen value)) ++ value.

(** [MemTable::Add] *)
Definition MemTable_Add (s : Z) (t : ValueType) (key value : bytes) (m : MemTable)
    : option MemTable :=
  let internal_key_size := zlen key + 8 in
  let encoded_len := VartintLength internal_key_size + internal_key_size +
                     VartintLength (zlen value) + zlen value in
  let '(arena, _) := Allocate new_chars (arena_ m) encoded_len in
  let height := snd (RandomHeight (rnd_ (table_ m))) in
  let '(arena, _) := AllocateAligned new_chars arena (node_bytes height) in
  table ← Insert KeyComparator (table_ m) (encode_entry s t key value);
  Some (mkMemTable table arena (refs_ m)).

(** [MemTable::Get] *)
Definition MemTable_Get (m : MemTable) (key : LookupKey) : option GetResult :=
  node ← Iter_Seek KeyComparator (table_ m) (memtable_key key);
  match Iter_key (table_ m) node with
  | None => Some GetAbsent
  | Some entry =>
      let ikey := entry_slice entry in
      match Comparator.Compare ucmp (ExtractUserKey ikey) (lk_user_key key) with
      | Eq =>
          match type_of_Z (Z.land (ExtractTag ikey) 255) with
          | Some kTypeValue => Some (GetValue (entry_slice (after_slice entry)))
          | Some kTypeDeletion => Some (GetDeleted (NotFound []))
          | None => Some GetAbsent
          end
      | _ => Some GetAbsent
      end
  end.

(** [MemTableIterator]: [Seek], [key] and [value]; the other operations are
    those of the skip list's iterator. *)
Definition MemTableIterator_Seek (m : MemTable) (k : bytes) : option (option nat) :=
  Iter_Seek KeyComparator (table_ m) (EncodeKey k).
Definition MemTableIterator_key (m : MemTable) (node : option nat) : option bytes :=
  e ← Iter_key (table_ m) node; Some (entry_slice e).
Definition MemTableIterator_value (m : MemTable) (node : option nat) : option bytes :=
  e ← Iter_key (table_ m) node; Some (entry_slice (after_slice e)).
End Operations.

(** ** Entries *)

(** What one [Add] puts into the table. *)
Record Entry := mkEntry { e_seq : Z; e_type : ValueType; e_key : bytes; e_value : bytes }.

Definition entry_bytes (e : Entry) : bytes :=
  encode_entry (e_seq e) (e_type e) (e_key e) (e_value e).

(** Entries the format can hold. *)
Definition entry_ok (e : Entry) : Prop :=
  0 <= e_seq e <= kMaxSequenceNumber /\ zlen (e_key e) + 8 < 2 ^ 32 /\ zlen (e_value e) < 2 ^ 32.

Definition entry_ikey (e : Entry) : bytes := InternalKey (e_key e) (e_seq e) (e_type e).

Lemma entry_slice_app (k rest : bytes) :
  zlen k < 2 ^ 32 ->
  entry_slice (EncodeVarint32 (zlen k) ++ k ++ rest) = k /\
  after_slice (EncodeVarint32 (zlen k) ++ k ++ rest) = rest.
Proof.
  intros Hk. unfold entry_slice, after_slice.
  pose proof (EncodeVarint32_length (zlen k)) as Hl.
  set (pre := EncodeVarint32 (zlen k)) in *.
  rewrite (take_app_ge pre) by lia.
  pose proof (GetVarint32_encode (zlen k) (take (5 - length pre) (k ++ rest)) ltac:(lia)) as G.
  fold pre in G. unfold GetVarint32 in G. rewrite G. rewrite length_app, Nat.add_sub.
  rewrite drop_app_length, Nat2Z.id. by rewrite take_app_length, drop_app_length.
Qed.

Lemma encode_entry_split (e : Entry) :
  entry_ok e ->
  entry_bytes e = EncodeVarint32 (zlen (entry_ikey e)) ++ entry_ikey e ++
    EncodeVarint32 (zlen (e_value e)) ++ e_value e.
Proof.
  intros (Hs & Hk & Hv). unfold entry_bytes, encode_entry, entry_ikey.
  rewrite length_InternalKey, InternalKey_app, Nat2Z.inj_add, !u32_small by lia.
  by rewrite <- !app_assoc.
Qed.

Lemma entry_decode e :
  entry_ok e -> entry_slice (entry_bytes e) = entry_ikey e /\
    entry_slice (after_slice (entry_bytes e)) = e_value e.
Proof.
  intros He. rewrite (encode_entry_split e He). destruct He as (Hs & Hk & Hv).
  destruct (entry_slice_app (entry_ikey e) (EncodeVarint32 (zlen (e_value e)) ++ e_value e))
    as [E1 E2]; [unfold entry_ikey; rewrite length_InternalKey; lia|].
  rewrite E1, E2. split; [done|].
  rewrite <- (app_nil_r (e_value e)) at 2. by apply entry_slice_app.
Qed.

Lemma memtable_key_slice u s :
  zlen u + 8 < 2 ^ 32 ->
  entry_slice (memtable_key (LookupKey_new u s)) = InternalKey u s kValueTypeForSeek.
Proof.
  intros Hu. rewrite memtable_key_new by done. unfold PutLengthPrefixedSlice, PutVarint32.
  rewrite u32_small by (rewrite length_InternalKey; lia). cbn [app].
  rewrite <- (app_nil_r (InternalKey u s kValueTypeForSeek)) at 2.
  apply entry_slice_app. rewrite length_InternalKey. lia.
Qed.

(** ** The contents *)

Section Correct.
Context (new_chars : list region -> Z -> Z).
Context (ucmp : Comparator) `{!ComparatorLaws ucmp}.
Implicit Types (es : list Entry) (e : Entry).

#[export] Instance KeyComparator_laws : OrderLaws (KeyComparator ucmp).
Proof.
  split; unfold KeyComparator.
  - intros x y. apply (cmp_antisym (InternalKeyComparator.Compare ucmp)).
  - intros x y z. apply (cmp_le_trans (InternalKeyComparator.Compare ucmp)).
Qed.

(** The table holds the entries [es], each with its own sequence number. *)
Definition mem_rep (m : MemTable) es : Prop :=
  Forall entry_ok es /\ NoDup (map e_seq es) /\
  exists es', es' ≡ₚ es /\ sl_rep (KeyComparator ucmp) (table_ m) (map entry_bytes es').

Lemma MemTable_new_rep : mem_rep (MemTable_new new_chars) [].
Proof.
  split; [done|]. split; [constructor|]. exists []. split; [done|].
  exists []. split; [apply SkipList_new_inv|done].
Qed.

Lemma KeyComparator_entries e1 e2 :
  entry_ok e1 -> entry_ok e2 ->
  KeyComparator ucmp (entry_bytes e1) (entry_bytes e2) =
  InternalKeyComparator.Compare ucmp (entry_ikey e1) (entry_ikey e2).
Proof.
  intros H1 H2. unfold KeyComparator.
  by rewrite (proj1 (entry_decode e1 H1)), (proj1 (entry_decode e2 H2)).
Qed.

(** Internal keys whose user keys compare equal are ordered by sequence number,
    newest first. *)
Lemma icmp_equal_user u1 s1 t1 u2 s2 t2 :
  Comparator.Compare ucmp u1 u2 = Eq -> 0 <= s1 <= kMaxSequenceNumber ->
  0 <= s2 <= kMaxSequenceNumber ->
  InternalKeyComparator.Compare ucmp (InternalKey u1 s1 t1) (InternalKey u2 s2 t2) =
  (s2 * 256 + type_to_Z t2 ?= s1 * 256 + type_to_Z t1).
Proof.
  intros Hu H1 H2. rewrite icmp_unfold, !ExtractUserKey_InternalKey, Hu.
  rewrite !ExtractTag_InternalKey, !Pack_value by done. done.
Qed.

Lemma MemTable_Add_rep s t key value m es :
  mem_rep m es -> entry_ok (mkEntry s t key value) -> s ∉ map e_seq es ->
  exists m', MemTable_Add new_chars ucmp s t key value m = Some m' /\
    mem_rep m' (mkEntry s t key value :: es) /\ refs_ m' = refs_ m.
Proof.
  intros (Hok & Hnd & es' & Hp & Hrep) He Hs. unfold MemTable_Add.
  destruct (Allocate _ _ _) as [a1 p1]. destruct (AllocateAligned _ _ _) as [a2 p2].
  change (encode_entry s t key value) with (entry_bytes (mkEntry s t key value)).
  set (e := mkEntry s t key value) in *.
  destruct (Insert_rep (KeyComparator ucmp) (table_ m) (map entry_bytes es') (entry_bytes e))
    as (tb & E & H').
  - done.
  - apply list.Forall_forall. intros x Hx. apply list_elem_of_fmap in Hx as (e' & -> & Hin).
    rewrite Hp in Hin. rewrite list.Forall_forall in Hok.
    rewrite KeyComparator_entries by auto. unfold entry_ikey. intros Eq.
    destruct (Comparator.Compare ucmp (e_key e') (e_key e)) eqn:Eu.
    2,3: by rewrite icmp_unfold, !ExtractUserKey_InternalKey, Eu in Eq.
    rewrite icmp_equal_user in Eq; [|done|apply (Hok e' Hin)|apply He].
    apply Z.compare_eq in Eq. apply Hs. apply list_elem_of_fmap. exists e'. split; [|done].
    change (e_seq e) with s in Eq. destruct (e_type e'), (e_type e); cbn in Eq; lia.
  - rewrite E. cbn [mbind option_bind]. eexists. split; [done|]. split; [|done].
    split; [by constructor|]. split; [by constructor|]. cbn [table_].
    assert (exists es2, es2 ≡ₚ e :: es' /\
      insert_key (KeyComparator ucmp) (entry_bytes e) (map entry_bytes es') = map entry_bytes es2)
      as (es2 & Hp2 & Ei).
    { clear. induction es' as [|e' es' IH]; [by exists [e]|]. cbn.
      destruct (KeyComparator ucmp (entry_bytes e') (entry_bytes e));
        [by exists (e :: e' :: es')| |by exists (e :: e' :: es')].
      destruct IH as (es2 & Hp & ->). exists (e' :: es2). split; [|done].
      rewrite Hp. apply Permutation_swap. }
    exists es2. split; [by rewrite Hp2, Hp|]. by rewrite <- Ei.
Qed.

(** ** Lookup *)

(** The entries of user key [u] a reader at sequence number [s] sees. *)
Definition visible (u : bytes) (s : Z) e : bool :=
  match Comparator.Compare ucmp (e_key e) u with Eq => e_seq e <=? s | _ => false end.

(** The newest of them. *)
Fixpoint newest es (u : bytes) (s : Z) : option Entry :=
  match es with
  | [] => None
  | e :: es' =>
      match newest es' u s with
      | None => if visible u s e then Some e else None
      | Some e' => if visible u s e && (e_seq e' <? e_seq e) then Some e else Some e'
      end
  end.

Lemma newest_none es u s : newest es u s = None <-> Forall (fun e => visible u s e = false) es.
Proof.
  induction es as [|e es IH]; cbn [newest]; [by split|].
  rewrite list.Forall_cons, <- IH. destruct (newest es u s) as [e'|].
  - destruct (visible u s e && _); naive_solver.
  - destruct (visible u s e); naive_solver.
Qed.

Lemma newest_some es u s e :
  newest es u s = Some e ->
  e ∈ es /\ visible u s e = true /\
  forall e', e' ∈ es -> visible u s e' = true -> e_seq e' <= e_seq e.
Proof.
  revert e. induction es as [|x es IH]; intros e; cbn [newest]; [done|].
  destruct (newest es u s) as [y|] eqn:E.
  - destruct (IH y eq_refl) as (H1 & H2 & H3).
    destruct (visible u s x) eqn:Ex; cbn [andb].
    + case_test; intros [= <-]; (split; [set_solver|]); (split; [done|]);
        intros e' [->|He']%elem_of_cons Hv; try lia; specialize (H3 e' He' Hv); lia.
    + intros [= <-]. split; [set_solver|]. split; [done|].
      intros e' [->|He']%elem_of_cons Hv; [congruence|auto].
  - destruct (visible u s x) eqn:Ex; [|done]. intros [= <-].
    split; [set_solver|]. split; [done|].
    intros e' [->|He']%elem_of_cons Hv; [lia|]. apply newest_none in E.
    rewrite list.Forall_forall in E. by rewrite (E e' He') in Hv.
Qed.

Lemma newest_unique es u s e :
  NoDup (map e_seq es) -> e ∈ es -> visible u s e = true ->
  (forall e', e' ∈ es -> visible u s e' = true -> e_seq e' <= e_seq e) ->
  newest es u s = Some e.
Proof.
  intros Hnd He Hv Hmax. destruct (newest es u s) as [y|] eqn:E.
  - apply newest_some in E as (H1 & H2 & H3). f_equal.
    specialize (H3 e He Hv). specialize (Hmax y H1 H2).
    assert (e_seq y = e_seq e) as Es by lia. clear -Hnd H1 He Es.
    induction es as [|x es IH]; [set_solver|]. cbn in Hnd. inversion Hnd as [|? ? Hx Hnd']; subst.
    apply elem_of_cons in H1 as [->|H1], He as [->|He]; auto; exfalso; apply Hx.
    + rewrite Es. apply list_elem_of_fmap. eauto.
    + rewrite <- Es. apply list_elem_of_fmap. eauto.
  - apply newest_none in E. rewrite list.Forall_forall in E. by rewrite (E e He) in Hv.
Qed.
(** What [Seek] finds, in terms of entries. *)
Lemma seek_entry es' k :
  Forall entry_ok es' ->
  StronglySorted (fun x y => KeyComparator ucmp x y = Lt) (map entry_bytes es') ->
  match map entry_bytes es' !! seek_pos (KeyComparator ucmp) k (map entry_bytes es') with
  | Some x => exists e, x = entry_bytes e /\ e ∈ es' /\
      KeyComparator ucmp (entry_bytes e) k <> Lt /\
      forall e', e' ∈ es' -> KeyComparator ucmp (entry_bytes e') k <> Lt ->
        InternalKeyComparator.Compare ucmp (entry_ikey e) (entry_ikey e') <> Gt
  | None => forall e, e ∈ es' -> KeyComparator ucmp (entry_bytes e) k = Lt
  end.
Proof.
  intros Hok Hs. pose proof (seek_first (KeyComparator ucmp) k _ Hs) as H.
  rewrite list.Forall_forall in Hok.
  destruct (map entry_bytes es' !! _) as [x|].
  - destruct H as (Hx & Hk & Hmin). apply list_elem_of_fmap in Hx as (e & -> & He).
    exists e. split; [done|]. split; [done|]. split; [done|]. intros e' He' Hk'.
    destruct (Hmin (entry_bytes e')) as [E|E].
    + apply list_elem_of_fmap. eauto.
    + done.
    + apply (f_equal entry_slice) in E.
      rewrite (proj1 (entry_decode e (Hok e He))), (proj1 (entry_decode e' (Hok e' He'))) in E.
      rewrite E, (cmp_refl (InternalKeyComparator.Compare ucmp)). done.
    + rewrite KeyComparator_entries in E by auto. by rewrite E.
  - intros e He. apply H. apply list_elem_of_fmap. eauto.
Qed.

(** An entry of user key [u] is not before the lookup key exactly when its
    sequence number is not larger. *)
Lemma visible_lookup u s e :
  entry_ok e -> 0 <= s <= kMaxSequenceNumber -> zlen u + 8 < 2 ^ 32 ->
  Comparator.Compare ucmp (e_key e) u = Eq ->
  visible u s e = true <->
  KeyComparator ucmp (entry_bytes e) (memtable_key (LookupKey_new u s)) <> Lt.
Proof.
  intros He Hs Hu Heq. unfold visible, KeyComparator. rewrite Heq.
  rewrite (proj1 (entry_decode e He)), memtable_key_slice by done. unfold entry_ikey.
  rewrite icmp_equal_user by (done || apply He). cbn [kValueTypeForSeek type_to_Z].
  rewrite Z.leb_le, Z.compare_lt_iff. destruct (e_type e); cbn; lia.
Qed.

Lemma MemTable_Get_rep m es u s :
  mem_rep m es -> 0 <= s <= kMaxSequenceNumber -> zlen u + 8 < 2 ^ 32 ->
  MemTable_Get ucmp m (LookupKey_new u s) =
  Some match newest es u s with
       | None => GetAbsent
       | Some e => match e_type e with
                   | kTypeValue => GetValue (e_value e)
                   | kTypeDeletion => GetDeleted (NotFound [])
                   end
       end.
Proof.
  intros (Hok & Hnd & es' & Hp & Hrep) Hs Hu. unfold MemTable_Get.
  pose proof (sl_rep_sorted _ _ _ Hrep) as Hsort. destruct Hrep as (L & Hinv & HL).
  rewrite (Iter_Seek_at _ _ _ _ Hinv). cbn [mbind option_bind].
  rewrite (Iter_key_at _ _ _ _ Hinv), HL.
  assert (Forall entry_ok es') as Hok' by by rewrite Hp.
  assert (forall e, e ∈ es' <-> e ∈ es) as Hin by (intros e; by rewrite Hp).
  set (k := memtable_key (LookupKey_new u s)).
  pose proof (seek_entry es' k Hok' Hsort) as Hseek. rewrite list.Forall_forall in Hok'.
  assert (forall e', e' ∈ es -> visible u s e' = true ->
    e' ∈ es' /\ Comparator.Compare ucmp (e_key e') u = Eq /\
    KeyComparator ucmp (entry_bytes e') k <> Lt) as Hvis.
  { intros e' He' Hv. apply Hin in He'. split; [done|].
    assert (Comparator.Compare ucmp (e_key e') u = Eq) as Eu
      by (unfold visible in Hv; by destruct (Comparator.Compare ucmp (e_key e') u)).
    split; [done|]. by apply visible_lookup; auto. }
  destruct (map entry_bytes es' !! _) as [x|].
  2:{ replace (newest es u s) with (@None Entry); [done|]. symmetry. apply newest_none.
      apply list.Forall_forall. intros e He. destruct (visible u s e) eqn:E; [|done].
      destruct (Hvis e He E) as (He' & _ & Hk). by specialize (Hseek e He'). }
  destruct Hseek as (e & -> & He & Hk & Hmin).
  destruct (entry_decode e (Hok' e He)) as [-> ->]. rewrite lk_user_key_new.
  unfold entry_ikey at 1. rewrite ExtractUserKey_InternalKey.
  destruct (Comparator.Compare ucmp (e_key e) u) eqn:Eu.
  - assert (newest es u s = Some e) as ->.
    { apply newest_unique; [done|by apply Hin|by apply visible_lookup; auto|].
      intros e' He' Hv. destruct (Hvis e' He' Hv) as (He2 & Eu' & Hk').
      specialize (Hmin e' He2 Hk'). unfold entry_ikey in Hmin.
      rewrite icmp_equal_user in Hmin; [|by rewrite (cmp_eq_l _ _ _ _ Eu), (cmp_eq_sym _ _ _ Eu')
        |apply (Hok' e He)|apply (Hok' e' He2)].
      rewrite Z.compare_gt_iff in Hmin. destruct (e_type e), (e_type e'); cbn in Hmin; lia. }
    unfold entry_ikey. rewrite ExtractTag_InternalKey, Pack_land by apply (Hok' e He).
    by destruct (e_type e).
  - exfalso. apply Hk. unfold KeyComparator. rewrite (proj1 (entry_decode e (Hok' e He))).
    unfold k. rewrite memtable_key_slice by done. apply icmp_user_lt.
    unfold entry_ikey. by rewrite !ExtractUserKey_InternalKey.
  - replace (newest es u s) with (@None Entry); [done|]. symmetry. apply newest_none.
    apply list.Forall_forall. intros e' He'. destruct (visible u s e') eqn:E; [|done].
    destruct (Hvis e' He' E) as (He2 & Eu' & Hk'). specialize (Hmin e' He2 Hk').
    apply icmp_le_user in Hmin. unfold entry_ikey in Hmin.
    rewrite !ExtractUserKey_InternalKey in Hmin. rewrite (cmp_eq_r _ _ _ _ Eu'), Eu in Hmin. done.
Qed.
(** ** Batches *)

(** [MemTable::Add] as the inserter calls it, on a table that may have failed. *)
Definition add_to (s : Z) (t : ValueType) (key value : bytes) (m : option MemTable)
    : option MemTable := m ≫= MemTable_Add new_chars ucmp s t key value.

(** The entries a batch adds, the latest first. *)
Fixpoint batch_entries (s : Z) (ops : list BatchOp) : list Entry :=
  match ops with
  | [] => []
  | op :: ops' =>
      batch_entries (s + 1) ops' ++
      [match op with
       | OpPut key value => mkEntry s kTypeValue key value
       | OpDelete key => mkEntry s kTypeDeletion key []
       end]
  end.

(** An operation whose keys and values the format can hold. *)
Definition op_fits (op : BatchOp) : Prop :=
  match op with
  | OpPut key value => zlen key + 8 < 2 ^ 32 /\ zlen value < 2 ^ 32
  | OpDelete key => zlen key + 8 < 2 ^ 32
  end.

Lemma op_fits_ok op : op_fits op -> op_ok op.
Proof. destruct op; cbn; lia. Qed.

Lemma add_all_rep ops s m es :
  mem_rep m es -> Forall op_fits ops -> 0 <= s -> s + zlen ops <= kMaxSequenceNumber + 1 ->
  Forall (fun e => e_seq e < s) es ->
  exists m', add_all add_to s ops (Some m) = Some m' /\ mem_rep m' (batch_entries s ops ++ es) /\
    refs_ m' = refs_ m.
Proof.
  revert s m es. induction ops as [|op ops IH]; intros s m es Hm Hops Hs Hn Hes; [by exists m|].
  inversion Hops as [|? ? Hop Hops']; subst. cbn [length] in Hn.
  set (e := match op with
       | OpPut key value => mkEntry s kTypeValue key value
       | OpDelete key => mkEntry s kTypeDeletion key []
       end).
  assert (entry_ok e) as He by (unfold e; destruct op; cbn in *; repeat split; cbn; lia).
  assert (s ∉ map e_seq es) as Hfresh.
  { intros Hin. apply list_elem_of_fmap in Hin as (e' & E & Hin).
    rewrite list.Forall_forall in Hes. specialize (Hes e' Hin). lia. }
  destruct (MemTable_Add_rep (e_seq e) (e_type e) (e_key e) (e_value e) m es) as (m1 & E1 & H1 & R1);
    [done|by destruct e|by unfold e; destruct op|].
  destruct (IH (s + 1) m1 (e :: es)) as (m2 & E2 & H2 & R2); [by destruct e|done|lia|lia| |].
  { constructor; [unfold e; destruct op; cbn; lia|]. eapply list.Forall_impl; [exact Hes|].
    cbn. intros; lia. }
  exists m2. split; [|split; [|congruence]].
  - rewrite <- E2, <- E1. unfold e. by destruct op.
  - cbn [batch_entries]. fold e. by rewrite <- app_assoc.
Qed.

(** Inserting a well-formed batch adds its operations under consecutive
    sequence numbers. *)
Lemma InsertInto_mem m es seq ops :
  mem_rep m es -> Forall op_fits ops -> zlen ops < 2 ^ 31 -> 0 <= seq ->
  seq + zlen ops <= kMaxSequenceNumber + 1 -> Forall (fun e => e_seq e < seq) es ->
  exists m', InsertInto add_to (batch_rep seq ops) (Some m) = (Some m', Status_OK) /\
    mem_rep m' (batch_entries seq ops ++ es).
Proof.
  intros Hm Hops Hl Hs Hn Hes. rewrite InsertInto_rep; [|..].
  - destruct (add_all_rep ops seq m es) as (m' & -> & H' & _); eauto.
  - eapply list.Forall_impl; [exact Hops|]. apply op_fits_ok.
  - done.
  - done.
  - assert (kMaxSequenceNumber + 1 = 2 ^ 56) as E by done. rewrite E in Hn. zlia.
Qed.
End Correct.

(** ** Properties *)

(** Reads see the newest visible write.  A table that holds the entries
    [es] accepts a further entry with a sequence number of its own, and then
    [Get] for any user key and sequence number finds exactly the newest entry
    of that key that is not newer than the number: its value, or [NotFound]
    when it is a deletion, or nothing when there is none. *)
Theorem memtable_get_after_add new_chars ucmp `{!ComparatorLaws ucmp}
    (m : MemTable) (es : list Entry) (e : Entry) :
  mem_rep ucmp m es -> entry_ok e -> e_seq e ∉ map e_seq es ->
  exists m', MemTable_Add new_chars ucmp (e_seq e) (e_type e) (e_key e) (e_value e) m = Some m' /\
    mem_rep ucmp m' (e :: es) /\
    forall u s, 0 <= s <= kMaxSequenceNumber -> zlen u + 8 < 2 ^ 32 ->
      MemTable_Get ucmp m' (LookupKey_new u s) =
      Some match newest ucmp (e :: es) u s with
           | None => GetAbsent
           | Some e' => match e_type e' with
                        | kTypeValue => GetValue (e_value e')
                        | kTypeDeletion => GetDeleted (NotFound [])
                        end
           end.
Proof.
  intros Hm He Hs.
  destruct (MemTable_Add_rep new_chars ucmp (e_seq e) (e_type e) (e_key e) (e_value e) m es)
    as (m' & E & H' & _); [done|by destruct e|done|].
  exists m'. split; [done|]. assert (mem_rep ucmp m' (e :: es)) as H2 by by destruct e.
  split; [done|]. intros u s Hs' Hu. by apply MemTable_Get_rep.
Qed.

Lemma memtable_get_after_add_witness :
  exists m', MemTable_Add next_fit BytewiseComparator 7 kTypeValue (str:"key") (str:"value")
      (MemTable_new next_fit) = Some m' /\
    MemTable_Get BytewiseComparator m' (LookupKey_new (str:"key") 9) =
      Some (GetValue (str:"value")).
Proof.
  destruct (memtable_get_after_add next_fit BytewiseComparator (MemTable_new next_fit) []
    (mkEntry 7 kTypeValue (str:"key") (str:"value"))
    (MemTable_new_rep next_fit BytewiseComparator)
    ltac:(repeat split; vm_compute; congruence) ltac:(apply not_elem_of_nil))
    as (m' & E & _ & G).
  exists m'. split; [exact E|]. refine (eq_trans (G _ _ _ _) _); vm_compute; repeat split; congruence.
Defined.

(** A write batch is applied to the memtable as a whole and in order.
    Inserting a batch built by [Put] and [Delete] into a table whose entries
    are older reports no error and adds its operations under consecutive
    sequence numbers, so that a later [Get] sees the last operation of a key,
    and a [Get] at a number before the batch sees none of it. *)
Theorem batch_insert_then_get new_chars ucmp `{!ComparatorLaws ucmp}
    (m : MemTable) (es : list Entry) (seq : Z) (ops : list BatchOp) :
  mem_rep ucmp m es -> Forall op_fits ops -> zlen ops < 2 ^ 31 -> 0 <= seq ->
  seq + zlen ops <= kMaxSequenceNumber + 1 -> Forall (fun e => e_seq e < seq) es ->
  exists m', InsertInto (add_to new_chars ucmp) (batch_rep seq ops) (Some m) = (Some m', Status_OK) /\
    mem_rep ucmp m' (batch_entries seq ops ++ es) /\
    forall u s, 0 <= s <= kMaxSequenceNumber -> zlen u + 8 < 2 ^ 32 ->
      MemTable_Get ucmp m' (LookupKey_new u s) =
      Some match newest ucmp (batch_entries seq ops ++ es) u s with
           | None => GetAbsent
           | Some e => match e_type e with
                       | kTypeValue => GetValue (e_value e)
                       | kTypeDeletion => GetDeleted (NotFound [])
                       end
           end.
Proof.
  intros Hm Hops Hl Hs Hn Hes.
  destruct (InsertInto_mem new_chars ucmp m es seq ops) as (m' & E & H'); try done.
  exists m'. repeat split; [done|apply H'..|]. intros u s Hs' Hu. by apply MemTable_Get_rep.
Qed.

Lemma batch_insert_then_get_witness :
  exists m', InsertInto (add_to next_fit BytewiseComparator)
      (batch_rep 5 [OpPut (str:"a") (str:"1"); OpDelete (str:"a")])
      (Some (MemTable_new next_fit)) = (Some m', Status_OK) /\
    MemTable_Get BytewiseComparator m' (LookupKey_new (str:"a") 5) = Some (GetValue (str:"1")) /\
    MemTable_Get BytewiseComparator m' (LookupKey_new (str:"a") 6) =
      Some (GetDeleted (NotFound [])).
Proof.
  destruct (batch_insert_then_get next_fit BytewiseComparator (MemTable_new next_fit) [] 5
    [OpPut (str:"a") (str:"1"); OpDelete (str:"a")]
    (MemTable_new_rep next_fit BytewiseComparator)
    ltac:(repeat constructor; vm_compute; congruence) ltac:(vm_compute; congruence)
    ltac:(vm_compute; congruence) ltac:(vm_compute; congruence) ltac:(constructor))
    as (m' & E & _ & G).
  exists m'. split; [exact E|].
  split; (refine (eq_trans (G _ _ _ _) _); vm_compute; repeat split; congruence).
Defined.
