(* ===== verification/Entries.v ===== *)
(** * Sorted lists of entries

    What the sources of a read have in common.  A memtable, a table file and a
    level hold entries ordered by internal key; a read of a user key at a
    sequence number looks for the first entry that is not before the lookup
    key.  This file relates that position to [newest], the meaning of a read,
    and combines sources of which the first is newer. *)

From stdpp Require Import sets sorting.
From S2P Require Import Prelude Slice Coding Comparator DbFormat WriteBatch Iterator SkipList MemTable.

(** The pair an iterator shows for an entry. *)
Definition entry_kv (e : Entry) : bytes * bytes := (entry_ikey e, e_value e).

Lemma entry_kv_keys es : map fst (map entry_kv es) = map entry_ikey es.
Proof. by rewrite map_map. Qed.

Lemma ExtractUserKey_entry e : ExtractUserKey (entry_ikey e) = e_key e.
Proof. apply ExtractUserKey_InternalKey. Qed.

Lemma ParseInternalKey_entry e :
  0 <= e_seq e <= kMaxSequenceNumber ->
  ParseInternalKey (entry_ikey e) = Some (mkParsed (e_key e) (e_seq e) (e_type e)).
Proof. apply ParseInternalKey_InternalKey. Qed.

Section Entries.
Context (ucmp : Comparator) `{!ComparatorLaws ucmp}.
Abbreviation ucompare := (Compare ucmp).
Abbreviation icompare := (InternalKeyComparator.Compare ucmp).
Abbreviation newest := (newest ucmp).
Abbreviation visible := (visible ucmp).

(** The key a read seeks. *)
Definition seek_key (u : bytes) (s : Z) : bytes := InternalKey u s kValueTypeForSeek.

Definition es_sorted : list Entry -> Prop :=
  StronglySorted (fun a b => icompare (entry_ikey a) (entry_ikey b) = Lt).

Lemma es_sorted_keys es : es_sorted es <-> sorted_keys icompare (map entry_ikey es).
Proof.
  unfold es_sorted, sorted_keys. induction es as [|e es IH]; cbn [map]; [split; constructor|].
  split; inversion_clear 1; constructor; try by apply IH.
  - by apply list.Forall_fmap.
  - by apply list.Forall_fmap in H1.
Qed.

Lemma visible_spec u s e :
  visible u s e = true <-> ucompare (e_key e) u = Eq /\ e_seq e <= s.
Proof. unfold MemTable.visible. destruct (ucompare _ _); rewrite ?Z.leb_le; naive_solver. Qed.

(** A visible entry is not before the lookup key, and nor is one of a later
    user key. *)
Lemma seek_key_le u s e :
  0 <= s <= kMaxSequenceNumber -> 0 <= e_seq e <= kMaxSequenceNumber -> ucompare (e_key e) u = Eq ->
  icompare (entry_ikey e) (seek_key u s) <> Lt <-> e_seq e <= s.
Proof.
  intros Hs He Hu. unfold entry_ikey, seek_key. rewrite icmp_equal_user by done.
  rewrite Z.compare_lt_iff. destruct (e_type e); cbn; lia.
Qed.

Lemma icmp_entry_user u s e : icompare (entry_ikey e) (seek_key u s) <> Lt -> ucompare (e_key e) u <> Lt.
Proof.
  rewrite icmp_unfold. unfold seek_key. rewrite ExtractUserKey_entry, ExtractUserKey_InternalKey.
  by destruct (ucompare _ _).
Qed.

(** The first entry that is not before the lookup key. *)
Definition seek_entry_pos (es : list Entry) (u : bytes) (s : Z) : option Entry :=
  es !! seek_pos icompare (seek_key u s) (map entry_ikey es).

Lemma source_lookup es u s :
  es_sorted es -> Forall entry_ok es -> NoDup (map e_seq es) -> 0 <= s <= kMaxSequenceNumber ->
  newest es u s =
  match seek_entry_pos es u s with
  | Some e => match ucompare (e_key e) u with Eq => Some e | _ => None end
  | None => None
  end.
Proof.
  intros Hs Hok Hnd Hseq. rewrite list.Forall_forall in Hok.
  pose proof (seek_first icompare (seek_key u s) _ (proj1 (es_sorted_keys es) Hs)) as H.
  rewrite list_lookup_fmap in H. fold (seek_entry_pos es u s) in H.
  assert (forall e, e ∈ es -> visible u s e = true -> icompare (entry_ikey e) (seek_key u s) <> Lt) as Hv.
  { intros e He [Hu Hle]%visible_spec. apply seek_key_le; [done|by apply Hok|done|done]. }
  destruct (seek_entry_pos es u s) as [e|] eqn:E; cbn [fmap option_fmap option_map] in H.
  2:{ apply (newest_none ucmp), list.Forall_forall. intros e He. apply not_true_iff_false. intros Hvis.
      apply (Hv e He Hvis), H. by apply list_elem_of_fmap_2. }
  assert (e ∈ es) as He by (by eapply list_elem_of_lookup_2). destruct H as (_ & Hge & Hmin).
  assert (forall e', e' ∈ es -> visible u s e' = true -> icompare (entry_ikey e) (entry_ikey e') <> Gt) as Hfirst.
  { intros e' He' Hv'. destruct (Hmin (entry_ikey e')) as [<-|Hlt]; [by apply list_elem_of_fmap_2|by apply Hv| |].
    - by rewrite (cmp_refl icompare).
    - by rewrite Hlt. }
  destruct (ucompare (e_key e) u) eqn:Eu.
  - apply (newest_unique ucmp); [done|done| |].
    + apply visible_spec. split; [done|]. apply (seek_key_le u s e); [done|by apply Hok|done|done].
    + intros e' He' Hv'. pose proof (Hfirst e' He' Hv') as Hle. apply visible_spec in Hv' as [Hu' _].
      unfold entry_ikey in Hle.
      rewrite (icmp_equal_user ucmp) in Hle; [|by rewrite (cmp_eq_l ucompare _ _ _ Eu), (cmp_eq_sym ucompare _ _ Hu')
        |apply (Hok e He)|apply (Hok e' He')].
      rewrite Z.compare_gt_iff in Hle. destruct (e_type e), (e_type e'); cbn in Hle; lia.
  - by apply icmp_entry_user in Hge.
  - apply (newest_none ucmp), list.Forall_forall. intros e' He'. apply not_true_iff_false. intros Hv'.
    pose proof (Hfirst e' He' Hv') as Hle%(icmp_le_user ucmp). apply visible_spec in Hv' as [Hu' _].
    rewrite !ExtractUserKey_entry, (cmp_eq_r ucompare _ _ _ Hu') in Hle. congruence.
Qed.

(** *** Combining sources *)

(** Entries of the first source are newer than those of the second for the same
    user key. *)
Definition newer (es1 es2 : list Entry) : Prop :=
  forall e1 e2, e1 ∈ es1 -> e2 ∈ es2 -> ucompare (e_key e1) (e_key e2) = Eq -> e_seq e2 < e_seq e1.

Lemma newest_app es1 es2 u s :
  NoDup (map e_seq (es1 ++ es2)) -> newer es1 es2 ->
  newest (es1 ++ es2) u s = match newest es1 u s with Some e => Some e | None => newest es2 u s end.
Proof.
  intros Hnd Hn. destruct (newest es1 u s) as [e|] eqn:E1.
  - apply (newest_some ucmp) in E1 as (He & Hv & Hmax). apply (newest_unique ucmp); [done|set_solver|done|].
    intros e' [He'|He']%elem_of_app Hv'; [by apply Hmax|].
    apply visible_spec in Hv as [Hu _]. apply visible_spec in Hv' as [Hu' _].
    enough (e_seq e' < e_seq e) by lia. apply Hn; [done|done|].
    by rewrite (cmp_eq_l ucompare _ _ _ Hu), (cmp_eq_sym ucompare _ _ Hu').
  - apply newest_none in E1. rewrite list.Forall_forall in E1.
    destruct (newest es2 u s) as [e|] eqn:E2.
    + apply (newest_some ucmp) in E2 as (He & Hv & Hmax). apply (newest_unique ucmp); [done|set_solver|done|].
      intros e' [He'|He']%elem_of_app Hv'; [by rewrite (E1 e' He') in Hv'|by apply Hmax].
    + apply newest_none. apply newest_none in E2. rewrite list.Forall_forall in E2 |- *.
      intros e [He|He]%elem_of_app; auto.
Qed.

(** Only the entries of the user key matter. *)
Lemma newest_permutation es es' u s : NoDup (map e_seq es) -> es ≡ₚ es' -> newest es u s = newest es' u s.
Proof.
  intros Hnd Hp. destruct (newest es' u s) as [e|] eqn:E.
  - apply (newest_some ucmp) in E as (He & Hv & Hmax). apply (newest_unique ucmp); [done|by rewrite Hp|done|].
    intros e' He'. apply Hmax. by rewrite <- Hp.
  - apply newest_none in E. apply newest_none. by rewrite Hp.
Qed.
(** The answer of several sources, asked in order. *)
Fixpoint read_sources (srcs : list (list Entry)) (u : bytes) (s : Z) : option Entry :=
  match srcs with
  | [] => None
  | es :: srcs => match newest es u s with Some e => Some e | None => read_sources srcs u s end
  end.

Lemma read_sources_app srcs1 srcs2 u s :
  read_sources (srcs1 ++ srcs2) u s =
  match read_sources srcs1 u s with Some e => Some e | None => read_sources srcs2 u s end.
Proof. induction srcs1 as [|es srcs1 IH]; cbn; [done|]. by destruct (newest es u s). Qed.

(** Sources ordered from newest to oldest. *)
Definition sources_ordered (srcs : list (list Entry)) : Prop :=
  NoDup (map e_seq (concat srcs)) /\ StronglySorted newer srcs.

Lemma read_sources_newest srcs u s :
  sources_ordered srcs -> read_sources srcs u s = newest (concat srcs) u s.
Proof.
  intros [Hnd Hs]. induction Hs as [|es srcs Hs IH Hes]; cbn [read_sources concat] in *; [done|].
  rewrite newest_app; [|done|].
  - rewrite IH; [done|]. rewrite map_app in Hnd. by apply list.NoDup_app in Hnd as (_ & _ & ?).
  - intros e1 e2 H1 (es2 & H2 & H2')%list_elem_of_In%in_concat.
    apply (proj1 (list.Forall_forall _ _) Hes es2); [by apply list_elem_of_In|done|by apply list_elem_of_In].
Qed.

(** *** Sorting *)

Definition ikey_le (a b : Entry) : Prop := icompare (entry_ikey a) (entry_ikey b) <> Gt.
#[export] Instance ikey_le_dec : RelDecision ikey_le.
Proof. intros a b. unfold ikey_le. destruct (icompare _ _); (by left; congruence) || (right; congruence). Defined.

(** Entries with different sequence numbers have different keys. *)
Lemma icmp_entry_eq a b : entry_ok a -> entry_ok b -> icompare (entry_ikey a) (entry_ikey b) = Eq -> e_seq a = e_seq b.
Proof.
  intros Ha Hb H. assert (ucompare (e_key a) (e_key b) = Eq) as Eu.
  { rewrite (icmp_unfold ucmp), !ExtractUserKey_entry in H. by destruct (ucompare (e_key a) (e_key b)). }
  unfold entry_ikey in H. rewrite icmp_equal_user in H by (done || apply Ha || apply Hb). apply Z.compare_eq in H.
  destruct (e_type a), (e_type b); cbn in H; lia.
Qed.

Lemma sort_entries es :
  Forall entry_ok es -> NoDup (map e_seq es) -> exists es', es' ≡ₚ es /\ es_sorted es'.
Proof.
  intros Hok Hnd. exists (merge_sort ikey_le es). split; [apply merge_sort_Permutation|].
  assert (StronglySorted ikey_le (merge_sort ikey_le es)) as Hs.
  { apply StronglySorted_merge_sort.
    - intros a b c. unfold ikey_le. apply (cmp_le_trans icompare).
    - intros a b. unfold ikey_le. rewrite (cmp_antisym icompare (entry_ikey a) (entry_ikey b)).
      destruct (icompare (entry_ikey a) (entry_ikey b)); cbn; (by left) || (by right). }
  assert (Forall entry_ok (merge_sort ikey_le es)) as Hok' by by rewrite merge_sort_Permutation.
  assert (NoDup (map e_seq (merge_sort ikey_le es))) as Hnd' by by rewrite merge_sort_Permutation.
  unfold es_sorted. induction Hs as [|e l Hs IH He]; constructor.
  - apply IH; [by apply list.Forall_cons in Hok' as [_ ?]|]. cbn [map] in Hnd'. by apply list.NoDup_cons in Hnd' as [_ ?].
  - rewrite list.Forall_forall in He, Hok' |- *. intros x Hx. specialize (He x Hx). unfold ikey_le in He.
    destruct (icompare (entry_ikey e) (entry_ikey x)) eqn:E; [|done|done]. exfalso.
    cbn [map] in Hnd'. apply list.NoDup_cons in Hnd' as [Hn _]. apply Hn.
    rewrite (icmp_entry_eq e x); [by apply list_elem_of_fmap_2|apply Hok'; by left|apply Hok'; by right|done].
Qed.
End Entries.

(** The answer to a read at sequence number [s]. *)
Definition lookup_entry ucmp (es : list Entry) (u : bytes) (s : Z) : option bytes :=
  match newest ucmp es u s with
  | Some e => match e_type e with kTypeValue => Some (e_value e) | kTypeDeletion => None end
  | None => None
  end.

(** The newest of two sources that need not be ordered. *)
Definition pick_newest (a b : option Entry) : option Entry :=
  match a, b with
  | Some x, Some y => if e_seq x <? e_seq y then b else a
  | None, _ => b
  | _, None => a
  end.

Lemma newest_merge ucmp `{!ComparatorLaws ucmp} es1 es2 u s :
  NoDup (map e_seq (es1 ++ es2)) -> newest ucmp (es1 ++ es2) u s = pick_newest (newest ucmp es1 u s) (newest ucmp es2 u s).
Proof.
  intros Hnd. destruct (newest ucmp es1 u s) as [x|] eqn:E1, (newest ucmp es2 u s) as [y|] eqn:E2; cbn [pick_newest].
  - apply (newest_some ucmp) in E1 as (H1 & V1 & M1). apply (newest_some ucmp) in E2 as (H2 & V2 & M2).
    destruct (e_seq x <? e_seq y) eqn:Exy; boolprop; (apply (newest_unique ucmp); [done|set_solver|done|]);
      intros e [He|He]%elem_of_app Hv; try (specialize (M1 e He Hv)); try (specialize (M2 e He Hv)); lia.
  - apply (newest_some ucmp) in E1 as (H1 & V1 & M1). apply newest_none in E2. rewrite list.Forall_forall in E2.
    apply (newest_unique ucmp); [done|set_solver|done|]. intros e [He|He]%elem_of_app Hv; [by apply M1|]. by rewrite (E2 e He) in Hv.
  - apply (newest_some ucmp) in E2 as (H2 & V2 & M2). apply newest_none in E1. rewrite list.Forall_forall in E1.
    apply (newest_unique ucmp); [done|set_solver|done|]. intros e [He|He]%elem_of_app Hv; [by rewrite (E1 e He) in Hv|by apply M2].
  - apply newest_none. apply newest_none in E1. apply newest_none in E2. by apply Forall_app_2.
Qed.
