(* ===== verification/MemIter.v ===== *)
(** * The memtable's iterator

    src/db/memtable.cc ([MemTableIterator]): the iterator of a memtable, the
    skip list's iterator over decoded entries.  It is a cursor over the entries
    of the table in the order of internal keys, for targets whose length fits
    the 32 bits of a length prefix. *)

From stdpp Require Import sets sorting.
From S2P Require Import Prelude Slice Coding Comparator DbFormat WriteBatch Random Arena Iterator SkipList MemTable Entries.

(** [class MemTableIterator]; reading or moving an iterator that is not valid
    is a null dereference. *)
Definition MemTableIterator (ucmp : Comparator) (m : MemTable) : IteratorOps :=
  mkIteratorOps (option nat)
    (fun node => bool_decide (node <> None))
    (fun node => default [] (MemTableIterator_key m node))
    (fun node => default [] (MemTableIterator_value m node))
    (fun _ => Status_OK)
    (fun _ => Iter_SeekToFirst (table_ m))
    (fun _ => Iter_SeekToLast (table_ m))
    (fun _ k => MemTableIterator_Seek ucmp m k)
    (Iter_Next (table_ m))
    (Iter_Prev (KeyComparator ucmp) (table_ m)).

(** [MemTable::NewIterator] *)
Definition MemTable_NewIterator (ucmp : Comparator) (m : MemTable) : IState (MemTableIterator ucmp m) := None.

Section Correct.
Context (ucmp : Comparator) `{!ComparatorLaws ucmp}.
Abbreviation icompare := (InternalKeyComparator.Compare ucmp).
Implicit Types (m : MemTable) (es : list Entry).

(** The entries of a table in the order of the list. *)
Definition mem_list m es : Prop :=
  Forall entry_ok es /\ es_sorted ucmp es /\ sl_rep (KeyComparator ucmp) (table_ m) (map entry_bytes es).

Lemma mem_rep_list m es : mem_rep ucmp m es -> exists es', es' ≡ₚ es /\ mem_list m es'.
Proof using All.
  intros (Hok & _ & es' & Hp & Hr). exists es'. split; [done|].
  assert (Forall entry_ok es') as Hok' by by rewrite Hp. split; [done|]. split; [|done].
  apply (sl_rep_sorted (KeyComparator ucmp)) in Hr. unfold es_sorted. clear Hp.
  induction Hok' as [|e es' He Hok' IH]; [constructor|]. cbn [map] in Hr. apply StronglySorted_inv in Hr as [Hr Hl].
  constructor; [by apply IH|]. rewrite list.Forall_forall in Hok' |- *. rewrite list.Forall_fmap, list.Forall_forall in Hl.
  intros x Hx. specialize (Hl x Hx). cbn in Hl. by rewrite KeyComparator_entries in Hl by auto.
Qed.

(** A target that a length prefix can hold. *)
Definition fits (t : bytes) : Prop := zlen t < 2 ^ 32.

Lemma entry_slice_EncodeKey t : fits t -> entry_slice (EncodeKey t) = t.
Proof.
  intros Ht. unfold EncodeKey, PutVarint32. rewrite u32_small by (unfold fits in Ht; lia). cbn [app].
  rewrite <- (app_nil_r t) at 2. by apply entry_slice_app.
Qed.

Lemma seek_pos_entries es t :
  Forall entry_ok es -> fits t ->
  seek_pos (KeyComparator ucmp) (EncodeKey t) (map entry_bytes es) = seek_pos icompare t (map entry_ikey es).
Proof using All.
  intros Hok Ht. induction Hok as [|e es He Hok IH]; [done|]. cbn [map seek_pos]. rewrite IH.
  unfold KeyComparator at 1. by rewrite (proj1 (entry_decode e He)), entry_slice_EncodeKey.
Qed.

Lemma mem_cursor m es :
  mem_list m es ->
  exists pos, CursorOn fits icompare (MemTableIterator ucmp m) (map entry_kv es) pos /\
    pos (MemTable_NewIterator ucmp m) (length es).
Proof using All.
  intros (Hok & Hs & L & HL & HK).
  assert (length L = length es) as El by (rewrite <- (length_fmap snd), HK; apply length_map).
  exists (fun node i => (i <= length es)%nat /\ node = node_at L i).
  assert (forall i e, es !! i = Some e -> Iter_key (table_ m) (node_at L i) = Some (entry_bytes e)) as Hkey.
  { intros i e He. rewrite (Iter_key_at (KeyComparator ucmp)) by done. rewrite HK.
    change (map entry_bytes es) with (entry_bytes <$> es). by rewrite list_lookup_fmap, He. }
  assert (forall i, (length es <= i)%nat -> node_at L i = None) as Hend.
  { intros i Hi. apply lookup_ge_None. rewrite length_fmap. lia. }
  split; [|split; [done|by rewrite Hend]].
  split; cbn [MemTableIterator IState it_Valid it_key it_value it_status it_SeekToFirst it_SeekToLast it_Seek it_Next it_Prev];
    try rewrite length_map.
  - by intros node i [Hi _].
  - intros node i [Hi ->]. destruct (i <? length es)%nat eqn:E; boolprop.
    + apply bool_decide_eq_true. destruct (lookup_lt_is_Some_2 es i E) as [e He]. specialize (Hkey i e He).
      by destruct (node_at L i).
    + apply bool_decide_eq_false. rewrite Hend by lia. by intros [].
  - intros node i kv [Hi ->] Hkv. change (map entry_kv es) with (entry_kv <$> es) in Hkv. apply list_lookup_fmap_Some in Hkv as (e & -> & He).
    unfold MemTableIterator_key, MemTableIterator_value. rewrite (Hkey i e He). cbn [mbind option_bind default fst snd entry_kv].
    assert (entry_ok e) as Hoe by by eapply Forall_lookup. by destruct (entry_decode e Hoe) as [-> ->].
  - done.
  - intros node i [Hi ->]. rewrite (Iter_SeekToFirst_at (KeyComparator ucmp) _ L) by done. eexists. split; [done|]. split; [lia|done].
  - intros node i [Hi ->]. rewrite (Iter_SeekToLast_at (KeyComparator ucmp) _ L) by done. eexists. split; [done|].
    split; [lia|]. rewrite <- El. by destruct L.
  - intros node i t [Hi ->] Ht. unfold MemTableIterator_Seek. rewrite (Iter_Seek_at (KeyComparator ucmp) _ L) by done.
    eexists. split; [done|]. rewrite entry_kv_keys, HK, seek_pos_entries by done. split; [|done].
    etrans; [apply seek_pos_le|]. by rewrite length_map.
  - intros node i [Hi ->] Hlt. rewrite (Iter_Next_at (KeyComparator ucmp) _ L) by (done || lia). eexists. split; [done|]. split; [lia|done].
  - intros node i [Hi ->] Hlt. rewrite (Iter_Prev_at (KeyComparator ucmp) _ L) by (done || lia). eexists. split; [done|].
    destruct i as [|i]; [|split; [lia|done]]. split; [done|]. by rewrite Hend.
Qed.
End Correct.
