(* ===== verification/View.v ===== *)
(** * What a snapshot shows

    The specification of the user's iterator: the user keys and values that a
    sequence number may see in a sorted list of internal entries.  [view_from]
    reads the list once; a newer visible entry of a user key hides the older
    ones.  [view_newest] relates it to [newest], the meaning of a point read. *)

From stdpp Require Import sets sorting.
From S2P Require Import Prelude Slice Coding Comparator DbFormat WriteBatch Iterator SkipList MemTable Entries.

Section View.
Context (ucmp : Comparator) `{!ComparatorLaws ucmp} (s : Z).
Abbreviation ucompare := (Compare ucmp).
Abbreviation icompare := (InternalKeyComparator.Compare ucmp).
Implicit Types (e x y : Entry) (es A B L : list Entry) (h : option bytes).

Definition hidden h (k : bytes) : bool :=
  match h with Some u => match ucompare k u with Gt => false | _ => true end | None => false end.

Fixpoint view_from h es : list (bytes * bytes) :=
  match es with
  | [] => []
  | e :: es =>
      if e_seq e <=? s then
        match e_type e with
        | kTypeDeletion => view_from (Some (e_key e)) es
        | kTypeValue =>
            if hidden h (e_key e) then view_from h es else (e_key e, e_value e) :: view_from (Some (e_key e)) es
        end
      else view_from h es
  end.

(** The pairs a user sees at sequence number [s]. *)
Definition view es : list (bytes * bytes) := view_from None es.

Definition invisible e : Prop := s < e_seq e.

Lemma view_invisible e h es : invisible e -> view_from h (e :: es) = view_from h es.
Proof. unfold invisible. intros He. cbn [view_from]. by rewrite (proj2 (Z.leb_gt _ _)) by lia. Qed.

Lemma view_visible e h es :
  e_seq e <= s -> view_from h (e :: es) =
  match e_type e with
  | kTypeDeletion => view_from (Some (e_key e)) es
  | kTypeValue => if hidden h (e_key e) then view_from h es else (e_key e, e_value e) :: view_from (Some (e_key e)) es
  end.
Proof. intros He. cbn [view_from]. by rewrite (proj2 (Z.leb_le _ _)) by lia. Qed.

Lemma view_skip_invisible h A B : Forall invisible A -> view_from h (A ++ B) = view_from h B.
Proof. induction 1 as [|e A He _ IH]; [done|]. cbn [app]. by rewrite view_invisible. Qed.

Lemma visible_dec e : e_seq e <= s \/ invisible e.
Proof. unfold invisible. lia. Qed.

(** Only what the hiding key compares to matters. *)
Lemma view_eq_hide u u' L : ucompare u u' = Eq -> view_from (Some u) L = view_from (Some u') L.
Proof.
  intros E. induction L as [|e L IH]; [done|]. cbn [view_from hidden]. rewrite IH, (cmp_eq_r ucompare _ _ _ E). done.
Qed.

(** Entries of the hidden user key change nothing. *)
Lemma view_skip_hidden u A B :
  Forall (fun x => e_seq x <= s -> ucompare (e_key x) u = Eq) A -> view_from (Some u) (A ++ B) = view_from (Some u) B.
Proof.
  induction 1 as [|e A He _ IH]; [done|]. cbn [app]. destruct (visible_dec e) as [Hv|Hv]; [|by rewrite view_invisible].
  rewrite view_visible by done. specialize (He Hv). destruct (e_type e).
  - rewrite (view_eq_hide _ _ _ He). exact IH.
  - unfold hidden. rewrite He. exact IH.
Qed.

(** Hiding the least user key takes away at most the first pair. *)
Lemma view_hide_least u L :
  Forall (fun x => e_seq x <= s -> ucompare u (e_key x) <> Gt) L ->
  view_from None L = view_from (Some u) L \/
  exists k v, view_from None L = (k, v) :: view_from (Some u) L /\ ucompare k u = Eq.
Proof.
  induction 1 as [|e L He _ IH]; [by left|]. destruct (visible_dec e) as [Hv|Hv]; [|by rewrite !view_invisible].
  rewrite !view_visible by done. specialize (He Hv). destruct (e_type e); [by left|]. cbn [hidden].
  destruct (ucompare (e_key e) u) eqn:E.
  - right. exists (e_key e), (e_value e). split; [|done]. by rewrite (view_eq_hide _ _ _ E).
  - by apply (cmp_lt_gt ucompare) in E.
  - by left.
Qed.

(** A hiding key below every entry hides nothing. *)
Definition below h B : Prop :=
  match h with Some u => Forall (fun y => ucompare u (e_key y) = Lt) B | None => True end.

Lemma view_below h B : below h B -> view_from h B = view_from None B.
Proof.
  destruct h as [u|]; [|done]. cbn [below]. induction 1 as [|e B He _ IH]; [done|].
  destruct (visible_dec e) as [Hv|Hv]; [|by rewrite !view_invisible]. rewrite !view_visible by done.
  destruct (e_type e); [done|]. cbn [hidden]. by rewrite (proj1 (cmp_lt_gt ucompare _ _) He).
Qed.

(** A list splits where the user key changes. *)
Lemma view_app h A B :
  below h B -> Forall (fun x => below (Some (e_key x)) B) A -> view_from h (A ++ B) = view_from h A ++ view_from None B.
Proof.
  intros Hh HA. revert h Hh. induction HA as [|e A He _ IH]; intros h Hh; cbn [app]; [by apply view_below|].
  destruct (visible_dec e) as [Hv|Hv]; [|rewrite !view_invisible by done; by apply IH].
  rewrite !view_visible by done. destruct (e_type e); [by apply IH|]. destruct (hidden h (e_key e)); [by apply IH|].
  cbn [app]. f_equal. by apply IH.
Qed.

Lemma view_elem h L kv :
  kv ∈ view_from h L -> exists e, e ∈ L /\ e_seq e <= s /\ e_type e = kTypeValue /\ kv = (e_key e, e_value e).
Proof.
  revert h. induction L as [|e L IH]; intros h H; [by apply not_elem_of_nil in H|].
  assert (forall h', kv ∈ view_from h' L ->
    exists x, x ∈ e :: L /\ e_seq x <= s /\ e_type x = kTypeValue /\ kv = (e_key x, e_value x)) as Hrec.
  { intros h' (x & Hx & H')%IH. exists x. split; [by right|done]. }
  destruct (visible_dec e) as [Hv|Hv]; [|rewrite view_invisible in H by done; by eapply Hrec].
  rewrite view_visible in H by done. destruct (e_type e) eqn:Et; [by eapply Hrec|].
  destruct (hidden h (e_key e)); [by eapply Hrec|]. apply elem_of_cons in H as [->|H]; [|by eapply Hrec].
  exists e. by split; [left|].
Qed.

(** *** Sorted lists *)

Definition key_sorted es : Prop := StronglySorted (fun x y => ucompare (e_key x) (e_key y) <> Gt) es.

Lemma es_sorted_key_sorted es : es_sorted ucmp es -> key_sorted es.
Proof.
  unfold es_sorted, key_sorted. induction 1 as [|e es Hs IH He]; constructor; [done|].
  eapply list.Forall_impl; [exact He|]. intros x Hx%(icmp_lt_user ucmp). by rewrite !ExtractUserKey_entry in Hx.
Qed.

(** Entries of one user key stand from the newest to the oldest. *)
Definition seq_sorted es : Prop :=
  StronglySorted (fun x y => ucompare (e_key x) (e_key y) = Eq -> e_seq y < e_seq x) es.

Lemma es_sorted_seq es : Forall entry_ok es -> es_sorted ucmp es ->
  StronglySorted (fun x y => ucompare (e_key x) (e_key y) = Eq -> e_seq y <= e_seq x) es.
Proof.
  intros Hok. unfold es_sorted. induction 1 as [|e es Hs IH He]; constructor.
  - apply IH. by apply list.Forall_cons in Hok as [_ ?].
  - rewrite list.Forall_forall in He, Hok |- *. intros x Hx Eu. specialize (He x Hx). unfold entry_ikey in He.
    rewrite (icmp_equal_user ucmp) in He; [|done|apply Hok; left|apply Hok; by right].
    rewrite Z.compare_lt_iff in He. destruct (e_type e), (e_type x); cbn in He; lia.
Qed.

Lemma es_sorted_seq_sorted es :
  Forall entry_ok es -> NoDup (map e_seq es) -> es_sorted ucmp es -> seq_sorted es.
Proof.
  intros Hok Hnd Hs. pose proof (es_sorted_seq es Hok Hs) as H. clear Hok Hs. unfold seq_sorted.
  induction H as [|e es Hs IH He]; constructor; cbn [map] in Hnd; apply list.NoDup_cons in Hnd as [Hn Hnd]; [by apply IH|].
  rewrite list.Forall_forall in He |- *. intros x Hx Eu. specialize (He x Hx Eu).
  enough (e_seq x <> e_seq e) by lia. intros E. apply Hn. rewrite <- E. by apply list_elem_of_fmap_2.
Qed.

Lemma newest_cons e L u :
  seq_sorted (e :: L) -> newest ucmp (e :: L) u s = if visible ucmp u s e then Some e else newest ucmp L u s.
Proof.
  intros [_ He]%StronglySorted_inv. cbn [MemTable.newest]. destruct (visible ucmp u s e) eqn:Ev; cbn [andb].
  - destruct (newest ucmp L u s) as [e'|] eqn:E; [|done]. apply (newest_some ucmp) in E as (Hin & Hv & _).
    rewrite list.Forall_forall in He. apply (visible_spec ucmp) in Ev as [Eu _], Hv as [Eu' _].
    specialize (He e' Hin ltac:(by rewrite (cmp_eq_l ucompare _ _ _ Eu), (cmp_eq_sym ucompare _ _ Eu'))).
    by rewrite (proj2 (Z.ltb_lt _ _)).
  - by destruct (newest ucmp L u s).
Qed.

(** The newest visible entry of a user key, when it is a value. *)
Definition shows L (u v : bytes) : Prop := exists e, newest ucmp L u s = Some e /\ e_type e = kTypeValue /\ e_value e = v.

Lemma shows_other e L u v :
  seq_sorted (e :: L) -> visible ucmp u s e = false -> shows (e :: L) u v <-> shows L u v.
Proof. intros Hs Hv. unfold shows. by rewrite newest_cons, Hv. Qed.

Lemma shows_above e L u v :
  Forall (fun y => ucompare (e_key e) (e_key y) <> Gt) L -> ucompare (e_key e) u <> Eq -> shows L u v ->
  ucompare u (e_key e) = Gt.
Proof.
  intros He Hne (x & Hx & _). apply (newest_some ucmp) in Hx as (Hx & Eu & _). apply (visible_spec ucmp) in Eu as [Eu _].
  rewrite list.Forall_forall in He. specialize (He x Hx). rewrite (cmp_eq_r ucompare _ _ _ Eu) in He.
  apply (cmp_lt_gt ucompare). by destruct (ucompare (e_key e) u).
Qed.

Lemma hidden_trans h (k u : bytes) :
  match h with Some w => ucompare w k <> Gt | None => True end -> ucompare u k = Gt -> hidden h u = false.
Proof.
  destruct h as [w|]; [|done]. cbn [hidden]. intros Hw Hu.
  apply (cmp_lt_gt ucompare) in Hu. pose proof (cmp_le_lt_trans ucompare _ _ _ Hw Hu) as H.
  apply (cmp_lt_gt ucompare) in H. by rewrite H.
Qed.

(** A visible entry of another user key. *)
Lemma view_shows_ne h e L u v :
  (forall h', match h' with Some w => Forall (fun y => ucompare w (e_key y) <> Gt) L | None => True end ->
     (exists k, (k, v) ∈ view_from h' L /\ ucompare k u = Eq) <-> hidden h' u = false /\ shows L u v) ->
  seq_sorted (e :: L) -> Forall (fun y => ucompare (e_key e) (e_key y) <> Gt) L -> e_seq e <= s ->
  match h with Some w => ucompare w (e_key e) <> Gt | None => True end ->
  match h with Some w => Forall (fun y => ucompare w (e_key y) <> Gt) L | None => True end ->
  ucompare (e_key e) u <> Eq ->
  (exists k, (k, v) ∈ view_from h (e :: L) /\ ucompare k u = Eq) <-> hidden h u = false /\ shows (e :: L) u v.
Proof.
  intros IH Hs Hke Hv Hhe Hh' Hne.
  assert (visible ucmp u s e = false) as Hvis by (apply not_true_iff_false; rewrite (visible_spec ucmp); naive_solver).
  rewrite (shows_other e L u v Hs Hvis).
  assert (hidden h u = false /\ shows L u v <-> hidden (Some (e_key e)) u = false /\ shows L u v) as Hiff.
  { split; intros [_ Hsh]; (split; [|done]); pose proof (shows_above e L u v Hke Hne Hsh) as Hgt.
    - cbn [hidden]. by rewrite Hgt.
    - by apply (hidden_trans h (e_key e)). }
  rewrite view_visible by done. destruct (e_type e); [by rewrite Hiff, IH|].
  destruct (hidden h (e_key e)); [by rewrite IH|]. rewrite Hiff, <- IH by done. split.
  - intros (k & [[= -> ->]|Hin]%elem_of_cons & Ek); [done|eauto].
  - intros (k & Hin & Ek). exists k. split; [by right|done].
Qed.

Lemma view_shows_from h L u v :
  key_sorted L -> seq_sorted L ->
  match h with Some w => Forall (fun y => ucompare w (e_key y) <> Gt) L | None => True end ->
  (exists k, (k, v) ∈ view_from h L /\ ucompare k u = Eq) <-> hidden h u = false /\ shows L u v.
Proof.
  intros Hk Hs. revert h. induction L as [|e L IH]; intros h Hh.
  { split; [by intros (k & []%not_elem_of_nil & _)|]. by intros (_ & x & [=] & _). }
  pose proof (StronglySorted_inv Hk) as [Hk' Hke]. pose proof (StronglySorted_inv Hs) as [Hs' _].
  assert (match h with Some w => ucompare w (e_key e) <> Gt | None => True end) as Hhe
    by (destruct h; [by apply list.Forall_cons in Hh as [? _]|done]).
  assert (match h with Some w => Forall (fun y => ucompare w (e_key y) <> Gt) L | None => True end) as Hh'
    by (destruct h; [by apply list.Forall_cons in Hh as [_ ?]|done]).
  specialize (IH Hk' Hs'). destruct (visible_dec e) as [Hv|Hv].
  2:{ rewrite view_invisible, IH, shows_other; [done|done| |done|done].
      apply not_true_iff_false. rewrite (visible_spec ucmp). unfold invisible in Hv. lia. }
  destruct (ucompare (e_key e) u) eqn:Eu.
  - assert (visible ucmp u s e = true) as Hvis by by apply visible_spec.
    assert (shows (e :: L) u v <-> e_type e = kTypeValue /\ e_value e = v) as ->.
    { unfold shows. rewrite newest_cons, Hvis by done. naive_solver. }
    assert (hidden (Some (e_key e)) u = true) as Hh1 by (cbn [hidden]; by rewrite (cmp_eq_sym ucompare _ _ Eu)).
    assert (hidden h (e_key e) = hidden h u) as Ehid by (destruct h; cbn [hidden]; [by rewrite (cmp_eq_l ucompare _ _ _ Eu)|done]).
    rewrite view_visible by done. destruct (e_type e).
    + rewrite (IH (Some (e_key e)) Hke), Hh1. naive_solver.
    + rewrite Ehid. destruct (hidden h u) eqn:Eh; [rewrite IH by done; rewrite Eh; naive_solver|]. split.
      * intros (k & [[= -> ->]|Hin]%elem_of_cons & Ek); [done|]. exfalso.
        assert (exists k, (k, v) ∈ view_from (Some (e_key e)) L /\ ucompare k u = Eq) as H by eauto.
        apply (IH (Some (e_key e)) Hke) in H as [H _]. congruence.
      * intros (_ & _ & <-). exists (e_key e). split; [left|done].
  - apply (view_shows_ne h e L u v); try done; congruence.
  - apply (view_shows_ne h e L u v); try done; congruence.
Qed.
(** A user sees exactly the newest values. *)
Lemma view_shows es u v :
  Forall entry_ok es -> NoDup (map e_seq es) -> es_sorted ucmp es ->
  (exists k, (k, v) ∈ view es /\ ucompare k u = Eq) <-> shows es u v.
Proof.
  intros Hok Hnd Hs. unfold view. rewrite view_shows_from; [naive_solver| | |done].
  - by apply es_sorted_key_sorted.
  - by apply es_sorted_seq_sorted.
Qed.

(** The user keys of a view are in strictly increasing order. *)
Lemma view_from_above h L u kv :
  key_sorted L -> Forall (fun y => ucompare u (e_key y) <> Gt) L -> (exists w, h = Some w /\ ucompare u w <> Gt) ->
  kv ∈ view_from h L -> ucompare u (fst kv) = Lt.
Proof.
  revert h. induction L as [|e L IH]; intros h Hk Hu (w & -> & Hw) Hin; [by apply not_elem_of_nil in Hin|].
  apply StronglySorted_inv in Hk as [Hk He]. apply list.Forall_cons in Hu as [Hue Hu].
  assert (forall w', ucompare u w' <> Gt -> kv ∈ view_from (Some w') L -> ucompare u (fst kv) = Lt) as Hrec
    by (intros w' Hw'; apply IH; eauto).
  destruct (visible_dec e) as [Hv|Hv]; [|rewrite view_invisible in Hin by done; by apply (Hrec w)].
  rewrite view_visible in Hin by done. destruct (e_type e); [by apply (Hrec (e_key e))|].
  cbn [hidden] in Hin. destruct (ucompare (e_key e) w) eqn:E; [by apply (Hrec w)..|].
  apply elem_of_cons in Hin as [->|Hin]; [|by apply (Hrec (e_key e))]. cbn [fst].
  apply (cmp_lt_gt ucompare) in E. by eapply (cmp_le_lt_trans ucompare).
Qed.

Lemma view_from_sorted h L : key_sorted L -> sorted_keys ucompare (map fst (view_from h L)).
Proof.
  revert h. unfold sorted_keys. induction L as [|e L IH]; intros h Hk; [constructor|].
  apply StronglySorted_inv in Hk as [Hk He].
  destruct (visible_dec e) as [Hv|Hv]; [|rewrite view_invisible by done; by apply IH].
  rewrite view_visible by done. destruct (e_type e); [by apply IH|]. destruct (hidden h (e_key e)); [by apply IH|].
  cbn [map fst]. constructor; [by apply IH|]. apply list.Forall_forall. intros k (kv & -> & Hin)%list_elem_of_fmap.
  eapply view_from_above; [exact Hk|exact He| |exact Hin]. exists (e_key e). split; [done|]. by rewrite (cmp_refl ucompare).
Qed.
End View.
