(* ===== verification/Prune.v ===== *)
(** * Dropping entries that no reader can see

    The rule that flushes (src/db/builder.cc) and compactions (src/db/db_impl.cc,
    [DoCompactionWork]) implement, as a specification: an entry is [covered]
    when the entry before it has the same user key and is not newer than the
    oldest snapshot, and a deletion is [obsolete] when it is not newer than the
    oldest snapshot and no deeper level can hold its user key.  [survivors] are
    the others.  [survivors_newest] is why the rule is safe. *)

From stdpp Require Import sets sorting.
From S2P Require Import Prelude Slice Coding Comparator DbFormat WriteBatch Iterator SkipList MemTable Entries View.

Section Prune.
Context (ucmp : Comparator) `{!ComparatorLaws ucmp}.
Abbreviation ucompare := (Compare ucmp).
Context (snap : Z) (base : bytes -> bool).
Implicit Types (e x : Entry) (es : list Entry) (prev : option Entry).

Definition covered prev e : bool :=
  match prev with
  | Some x => match ucompare (e_key e) (e_key x) with Eq => e_seq x <=? snap | _ => false end
  | None => false
  end.

Definition obsolete e : bool :=
  match e_type e with kTypeDeletion => (e_seq e <=? snap) && base (e_key e) | kTypeValue => false end.

Fixpoint survivors prev es : list Entry :=
  match es with
  | [] => []
  | e :: es => if covered prev e || obsolete e then survivors (Some e) es else e :: survivors (Some e) es
  end.

Lemma survivors_sublist prev es : survivors prev es `sublist_of` es.
Proof using Type.
  revert prev. induction es as [|e es IH]; intros prev; cbn [survivors]; [done|].
  destruct (_ || _); [by apply sublist_cons|by apply sublist_skip].
Qed.

Lemma sublist_StronglySorted {A} (R : A -> A -> Prop) (l1 l2 : list A) :
  l1 `sublist_of` l2 -> StronglySorted R l2 -> StronglySorted R l1.
Proof using Type.
  induction 1 as [|x l1 l2 Hs IH|x l1 l2 Hs IH]; intros H; [constructor| |].
  - apply StronglySorted_inv in H as [H Hx]. constructor; [by apply IH|]. rewrite list.Forall_forall in Hx |- *.
    intros y Hy. apply Hx. by eapply elem_of_submseteq; [|apply sublist_submseteq].
  - apply IH. by apply StronglySorted_inv in H as [H _].
Qed.

Lemma sublist_map {A B} (f : A -> B) (l1 l2 : list A) : l1 `sublist_of` l2 -> map f l1 `sublist_of` map f l2.
Proof using Type. induction 1; cbn [map]; by constructor. Qed.

Lemma survivors_elem prev es e : e ∈ survivors prev es -> e ∈ es.
Proof using Type. intros H. by eapply elem_of_submseteq; [|apply sublist_submseteq, survivors_sublist]. Qed.

Lemma survivors_sorted prev es : es_sorted ucmp es -> es_sorted ucmp (survivors prev es).
Proof using Type. apply sublist_StronglySorted, survivors_sublist. Qed.

Lemma survivors_seq_sorted prev es : seq_sorted ucmp es -> seq_sorted ucmp (survivors prev es).
Proof using Type. apply sublist_StronglySorted, survivors_sublist. Qed.

Lemma survivors_Forall (P : Entry -> Prop) prev es : Forall P es -> Forall P (survivors prev es).
Proof using Type. rewrite !list.Forall_forall. intros H e He. by eapply H, survivors_elem. Qed.

Lemma survivors_NoDup prev es : NoDup (map e_seq es) -> NoDup (map e_seq (survivors prev es)).
Proof using Type. intros H. eapply sublist_NoDup; [exact H|]. apply sublist_map, survivors_sublist. Qed.

(** A user key that does not occur. *)
Lemma newest_absent es u s : Forall (fun e => ucompare (e_key e) u <> Eq) es -> newest ucmp es u s = None.
Proof using Type.
  intros H. apply newest_none. eapply list.Forall_impl; [exact H|]. intros e He. cbn in He. unfold visible.
  by destruct (ucompare (e_key e) u).
Qed.

(** Behind a covering entry of [u], every entry of [u] is dropped. *)
Lemma survivors_covered x es u s :
  seq_sorted ucmp (x :: es) -> key_sorted ucmp (x :: es) -> ucompare (e_key x) u = Eq -> e_seq x <= snap ->
  newest ucmp (survivors (Some x) es) u s = None.
Proof using All.
  revert x. induction es as [|e es IH]; intros x Hq Hk Hx Hs; [done|]. cbn [survivors].
  apply StronglySorted_inv in Hq as [Hq Hqx]. apply StronglySorted_inv in Hk as [Hk Hkx].
  apply list.Forall_cons in Hqx as [Hqe _]. apply list.Forall_cons in Hkx as [Hke Hkx].
  destruct (ucompare (e_key e) (e_key x)) eqn:Ee.
  - unfold covered at 1. rewrite Ee, (proj2 (Z.leb_le _ _)) by done. cbn [orb]. apply IH; [done|done| |].
    + by rewrite (cmp_eq_l ucompare _ _ _ Ee).
    + specialize (Hqe (cmp_eq_sym ucompare _ _ Ee)). lia.
  - apply (cmp_lt_gt ucompare) in Ee. done.
  - assert (forall y, y ∈ e :: es -> ucompare (e_key y) u <> Eq) as Habs.
    { intros y Hy Ey. assert (ucompare (e_key e) (e_key y) <> Gt) as Hle.
      { apply elem_of_cons in Hy as [->|Hy]; [by rewrite (cmp_refl ucompare)|].
        apply StronglySorted_inv in Hk as [_ Hk]. rewrite list.Forall_forall in Hk. by apply Hk. }
      rewrite (cmp_eq_r ucompare _ _ (e_key e) Ey), <- (cmp_eq_r ucompare _ _ (e_key e) Hx) in Hle. done. }
    apply newest_absent, list.Forall_forall. intros y Hy. apply Habs.
    destruct (covered (Some x) e || obsolete e); [right; by eapply survivors_elem|].
    apply elem_of_cons in Hy as [->|Hy]; [by left|right; by eapply survivors_elem].
Qed.

(** What a reader at [s] finds among the survivors: the same entry as before,
    or nothing where it found a deletion of a key that deeper levels do not
    have. *)
Definition same_answer (before after : option Entry) : Prop :=
  after = before \/ exists e, before = Some e /\ e_type e = kTypeDeletion /\ base (e_key e) = true /\ after = None.

Lemma survivors_newest_from prev es u s :
  snap <= s -> seq_sorted ucmp es -> key_sorted ucmp es ->
  match prev with Some x => ucompare (e_key x) u = Eq -> snap < e_seq x | None => True end ->
  same_answer (newest ucmp es u s) (newest ucmp (survivors prev es) u s).
Proof using All.
  intros Hs. revert prev. induction es as [|e es IH]; intros prev Hq Hk Hp; [by left|]. cbn [survivors].
  rewrite (newest_cons ucmp) by done. pose proof Hq as Hq'. pose proof Hk as Hk'.
  apply StronglySorted_inv in Hq' as [Hq' _]. apply StronglySorted_inv in Hk' as [Hk' _].
  assert (forall p, seq_sorted ucmp (e :: survivors p es)) as HsR.
  { intros p. eapply sublist_StronglySorted; [|exact Hq]. apply sublist_skip, survivors_sublist. }
  destruct (ucompare (e_key e) u) eqn:Eu.
  2,3: assert (visible ucmp u s e = false) as Ev by (unfold visible; by rewrite Eu);
    rewrite Ev; destruct (covered prev e || obsolete e); rewrite ?(newest_cons ucmp) by done; rewrite ?Ev;
    apply IH; try done; congruence.
  assert (covered prev e = false) as ->.
  { destruct prev as [x|]; [|done]. cbn [covered]. destruct (ucompare (e_key e) (e_key x)) eqn:Ex; [|done|done].
    apply Z.leb_gt, Hp. by rewrite <- (cmp_eq_l ucompare _ _ _ Ex). }
  cbn [orb]. unfold visible. rewrite Eu. destruct (e_seq e <=? s) eqn:Es; boolprop.
  - destruct (obsolete e) eqn:Eo.
    + right. unfold obsolete in Eo. destruct (e_type e) eqn:Et; [|done]. boolprop.
      exists e. repeat split; try done. by apply survivors_covered.
    + left. rewrite (newest_cons ucmp) by done. unfold visible. by rewrite Eu, (proj2 (Z.leb_le _ _)).
  - assert (obsolete e = false) as ->.
    { unfold obsolete. destruct (e_type e); [|done]. by rewrite (proj2 (Z.leb_gt _ _)) by lia. }
    rewrite (newest_cons ucmp) by done. unfold visible. rewrite Eu, (proj2 (Z.leb_gt _ _)) by lia.
    apply IH; try done. lia.
Qed.

Lemma survivors_newest es u s :
  snap <= s -> es_sorted ucmp es -> Forall entry_ok es -> NoDup (map e_seq es) ->
  same_answer (newest ucmp es u s) (newest ucmp (survivors None es) u s).
Proof using All.
  intros Hs Hes Hok Hnd. apply survivors_newest_from; [done|by apply es_sorted_seq_sorted|by apply es_sorted_key_sorted|done].
Qed.
End Prune.

(** Without obsolete deletions nothing changes for a reader. *)
Lemma covered_newest ucmp `{!ComparatorLaws ucmp} snap es u s :
  snap <= s -> es_sorted ucmp es -> Forall entry_ok es -> NoDup (map e_seq es) ->
  newest ucmp (survivors ucmp snap (fun _ => false) None es) u s = newest ucmp es u s.
Proof.
  intros Hs Hes Hok Hnd. destruct (survivors_newest ucmp snap (fun _ => false) es u s Hs Hes Hok Hnd) as [H|(e & _ & _ & H & _)]; done.
Qed.

(** Dropping entries beside others: a reader from the oldest snapshot on finds the
    same values, if every other entry of a key is newer than the entries looked at
    or the key is not dropped with its deletion. *)
Lemma survivors_reads ucmp `{!ComparatorLaws ucmp} snap base es others u s :
  snap <= s -> es_sorted ucmp es -> Forall entry_ok es -> NoDup (map e_seq (es ++ others)) ->
  (forall e r, e ∈ es -> r ∈ others -> Compare ucmp (e_key r) (e_key e) = Eq -> e_seq e < e_seq r \/ base (e_key e) = false) ->
  lookup_entry ucmp (survivors ucmp snap base None es ++ others) u s = lookup_entry ucmp (es ++ others) u s.
Proof.
  intros Hs Hes Hok Hnd Hothers. pose proof Hnd as Hnd'. rewrite map_app in Hnd'. apply list.NoDup_app in Hnd' as (Hnd1 & Hx & Hnd2).
  assert (NoDup (map e_seq (survivors ucmp snap base None es ++ others))) as Hnds.
  { rewrite map_app. apply list.NoDup_app. split; [by apply survivors_NoDup|]. split; [|done].
    intros q (e & -> & He)%list_elem_of_fmap. apply Hx, list_elem_of_fmap_2. by eapply survivors_elem. }
  unfold lookup_entry. rewrite !newest_merge by done.
  destruct (survivors_newest ucmp snap base es u s Hs Hes Hok Hnd1) as [-> |(e & E & Ht & Hb & ->)]; [done|].
  rewrite E. cbn [pick_newest]. destruct (newest ucmp others u s) as [r|] eqn:Er; [|by rewrite Ht].
  apply (newest_some ucmp) in E as (He & Hv & _). apply (newest_some ucmp) in Er as (Hr & Hvr & _).
  apply (visible_spec ucmp) in Hv as [Hu _]. apply (visible_spec ucmp) in Hvr as [Hur _].
  destruct (Hothers e r He Hr) as [Hlt|Hf]; [|by rewrite (proj2 (Z.ltb_lt _ _))|congruence].
  by rewrite (cmp_eq_l (Compare ucmp) _ _ _ Hur), (cmp_eq_sym (Compare ucmp) _ _ Hu).
Qed.
