(* ===== verification/BlockBuilder.v ===== *)
(** * Blocks: the builder

    src/table/block_builder.h and src/table/block_builder.cc: key/value pairs
    with prefix compression, and an array of restart points where a key is
    stored whole.  [interval] is [options->block_restart_interval].

    [Layout] describes the bytes of a block; the builder produces one. *)

From stdpp Require Import sets sorting.
From S2P Require Import Prelude Slice Coding.

(** [class BlockBuilder] *)
Record BlockBuilder := mkBuilder {
  buffer_ : bytes; restarts_ : list Z; counter_ : Z; finished_ : bool; last_key_ : bytes }.

(** [BlockBuilder::BlockBuilder] *)
Definition BlockBuilder_new : BlockBuilder := mkBuilder [] [0] 0 false [].

(** [BlockBuilder::Reset] *)
Definition BlockBuilder_Reset (b : BlockBuilder) : BlockBuilder :=
  mkBuilder [] [0] 0 false [].

(** [BlockBuilder::CurrentSizeEstimate] *)
Definition CurrentSizeEstimate (b : BlockBuilder) : Z :=
  zlen (buffer_ b) + zlen (restarts_ b) * 4 + 4.

(** [BlockBuilder::empty] *)
Definition BlockBuilder_empty (b : BlockBuilder) : bool :=
  match buffer_ b with [] => true | _ => false end.

(** [BlockBuilder::Finish]: the builder and the contents. *)
Definition BlockBuilder_Finish (b : BlockBuilder) : BlockBuilder * bytes :=
  let buffer := fold_left PutFixed32 (restarts_ b) (buffer_ b) in
  let buffer := PutFixed32 buffer (u32 (zlen (restarts_ b))) in
  (mkBuilder buffer (restarts_ b) (counter_ b) true (last_key_ b), buffer).

(** The [while] loop of [Add]: how much of the previous key is shared. *)
Fixpoint shared_prefix (last key : bytes) : nat :=
  match last, key with
  | a :: last', b :: key' => if Byte.eqb a b then S (shared_prefix last' key') else O
  | _, _ => O
  end.

(** [BlockBuilder::Add] *)
Definition BlockBuilder_Add (interval : Z) (b : BlockBuilder) (key value : bytes) : BlockBuilder :=
  let '(shared, restarts, counter) :=
    if counter_ b <? interval
    then (shared_prefix (last_key_ b) key, restarts_ b, counter_ b)
    else (O, restarts_ b ++ [u32 (zlen (buffer_ b))], 0) in
  let non_shared := zlen key - Z.of_nat shared in
  let buffer := PutVarint64 (buffer_ b) (Z.of_nat shared) in
  let buffer := PutVarint64 buffer non_shared in
  let buffer := PutVarint64 buffer (zlen value) in
  let buffer := (buffer ++ drop shared key) ++ value in
  mkBuilder buffer restarts (counter + 1) (finished_ b)
    (take shared (last_key_ b) ++ drop shared key).

(** ** Layouts *)

(** An entry: how many bytes of the previous key it shares, key and value. *)
Record BEntry := mkBEntry { be_shared : nat; be_key : bytes; be_value : bytes }.

Definition be_bytes (e : BEntry) : bytes :=
  EncodeVarint64 (Z.of_nat (be_shared e)) ++
  EncodeVarint64 (zlen (be_key e) - Z.of_nat (be_shared e)) ++
  EncodeVarint64 (zlen (be_value e)) ++ drop (be_shared e) (be_key e) ++ be_value e.

Definition bes_bytes (es : list BEntry) : bytes := concat (map be_bytes es).

(** The offset of the [i]-th entry. *)
Definition off (es : list BEntry) (i : nat) : Z := zlen (bes_bytes (take i es)).

Definition layout_bytes (es : list BEntry) (rs : list nat) : bytes :=
  bes_bytes es ++ concat (map (fun r => EncodeFixed32 (off es r)) rs) ++
  EncodeFixed32 (zlen rs).

(** The key before the [i]-th entry. *)
Definition prev_key (es : list BEntry) (i : nat) : bytes :=
  match i with O => [] | S j => match es !! j with Some e => be_key e | None => [] end end.

(** A block whose entries decode and whose restart points [rs] are entries that
    share nothing. *)
Record layout_ok (es : list BEntry) (rs : list nat) : Prop := {
  lo_shared : forall i e, es !! i = Some e ->
    (be_shared e <= length (be_key e))%nat /\ (be_shared e <= length (prev_key es i))%nat /\
    take (be_shared e) (prev_key es i) = take (be_shared e) (be_key e);
  lo_size : zlen (layout_bytes es rs) < 2 ^ 32;
  lo_first : rs !! 0%nat = Some 0%nat;
  lo_sorted : StronglySorted Nat.lt rs;
  lo_restart : forall r i e, rs !! r = Some i -> es !! i = Some e -> be_shared e = O;
  lo_in : forall r i, rs !! S r = Some i -> (i < length es)%nat
}.

Lemma bes_bytes_app es1 es2 : bes_bytes (es1 ++ es2) = bes_bytes es1 ++ bes_bytes es2.
Proof. unfold bes_bytes. by rewrite map_app, concat_app. Qed.

Lemma bes_bytes_split i es : bes_bytes es = bes_bytes (take i es) ++ bes_bytes (drop i es).
Proof. rewrite <- bes_bytes_app. by rewrite take_drop. Qed.

Lemma be_bytes_length e : (3 <= length (be_bytes e))%nat.
Proof.
  unfold be_bytes. rewrite !length_app.
  pose proof (EncodeVarint64_loop_length 10 (Z.of_nat (be_shared e))).
  pose proof (EncodeVarint64_loop_length 10 (zlen (be_key e) - Z.of_nat (be_shared e))).
  pose proof (EncodeVarint64_loop_length 10 (zlen (be_value e))). unfold EncodeVarint64. lia.
Qed.

Lemma off_0 es : off es 0 = 0.
Proof. done. Qed.

Lemma off_S es i e : es !! i = Some e -> off es (S i) = off es i + zlen (be_bytes e).
Proof.
  intros H. unfold off. rewrite (take_S_r _ _ _ H), bes_bytes_app.
  rewrite length_app. unfold bes_bytes at 2. cbn. rewrite app_nil_r. lia.
Qed.

Lemma off_end es : off es (length es) = zlen (bes_bytes es).
Proof. unfold off. by rewrite firstn_all. Qed.

Lemma off_mono es i j : (i <= j)%nat -> (j <= length es)%nat ->
  off es i + 3 * (Z.of_nat j - Z.of_nat i) <= off es j.
Proof.
  intros Hij. induction Hij as [|j Hij IH]; intros Hj; [lia|].
  destruct (lookup_lt_is_Some_2 es j ltac:(lia)) as [e He].
  rewrite (off_S _ _ _ He). pose proof (be_bytes_length e). specialize (IH ltac:(lia)). lia.
Qed.

Lemma off_lt es i j : (i <= length es)%nat -> (j <= length es)%nat ->
  off es i < off es j <-> (i < j)%nat.
Proof.
  intros Hi Hj. destruct (decide (i < j)%nat) as [Hlt|Hge].
  - pose proof (off_mono es i j ltac:(lia) Hj). lia.
  - pose proof (off_mono es j i ltac:(lia) Hi). lia.
Qed.

Lemma layout_size es rs : zlen (layout_bytes es rs) = off es (length es) + 4 * zlen rs + 4.
Proof.
  unfold layout_bytes. rewrite off_end, !length_app.
  assert (length (concat (map (fun r => EncodeFixed32 (off es r)) rs)) = 4 * length rs)%nat as ->.
  { induction rs as [|r rs IH]; [done|]. cbn [map concat]. rewrite length_app, IH.
    cbn [length EncodeFixed32]. lia. }
  cbn [length EncodeFixed32]. lia.
Qed.

(** ** The builder produces layouts *)

Lemma shared_prefix_spec last key :
  (shared_prefix last key <= length last)%nat /\ (shared_prefix last key <= length key)%nat /\
  take (shared_prefix last key) last = take (shared_prefix last key) key.
Proof.
  revert key. induction last as [|a last IH]; intros [|b key]; cbn [shared_prefix length];
    try (repeat split; try lia; done).
  destruct (Byte.eqb a b) eqn:E; [|repeat split; try lia; done].
  apply Byte.byte_dec_bl in E as ->. destruct (IH key) as (H1 & H2 & H3).
  split; [lia|]. split; [lia|]. rewrite !firstn_cons. by rewrite H3.
Qed.

Record builder_inv (b : BlockBuilder) (es : list BEntry) (rs : list nat) : Prop := {
  bi_buffer : buffer_ b = bes_bytes es;
  bi_restarts : restarts_ b = map (off es) rs;
  bi_last : last_key_ b = prev_key es (length es);
  bi_counter : exists rs' r, rs = rs' ++ [r] /\ counter_ b = Z.of_nat (length es) - Z.of_nat r;
  bi_shared : forall i e, es !! i = Some e ->
    (be_shared e <= length (be_key e))%nat /\ (be_shared e <= length (prev_key es i))%nat /\
    take (be_shared e) (prev_key es i) = take (be_shared e) (be_key e);
  bi_first : rs !! 0%nat = Some 0%nat;
  bi_sorted : StronglySorted Nat.lt rs;
  bi_restart : forall r i e, rs !! r = Some i -> es !! i = Some e -> be_shared e = O;
  bi_in : forall r i, rs !! r = Some i -> (i <= length es)%nat /\ (r <> O -> (i < length es)%nat)
}.

Lemma BlockBuilder_new_inv : builder_inv BlockBuilder_new [] [0%nat].
Proof.
  split; try done.
  - by exists [], 0%nat.
  - repeat constructor.
  - intros [|r] i; cbn; [|done]. intros [= <-]. done.
Qed.

Lemma prev_key_app es e i :
  (i <= length es)%nat -> prev_key (es ++ [e]) i = prev_key es i.
Proof. intros H. destruct i as [|i]; [done|]. cbn. by rewrite lookup_app_l by lia. Qed.

Lemma off_app es e i : (i <= length es)%nat -> off (es ++ [e]) i = off es i.
Proof. intros H. unfold off. by rewrite take_app_le. Qed.

Lemma be_bytes_put (buf : bytes) (sh : nat) key value :
  (sh <= length key)%nat -> zlen key < 2 ^ 64 -> zlen value < 2 ^ 64 ->
  (PutVarint64 (PutVarint64 (PutVarint64 buf (Z.of_nat sh)) (zlen key - Z.of_nat sh))
     (zlen value) ++ drop sh key) ++ value = buf ++ be_bytes (mkBEntry sh key value).
Proof.
  intros H1 H2 H3. unfold PutVarint64, be_bytes. cbn [be_shared be_key be_value].
  rewrite !u64_small by lia. by rewrite <- !app_assoc.
Qed.

(** Appending an entry that shares [sh] bytes, starting a restart point or not. *)
Lemma builder_step b es rs (sh : nat) key value (fresh : bool) cnt fin :
  builder_inv b es rs ->
  (sh <= length key)%nat -> (sh <= length (last_key_ b))%nat ->
  take sh (last_key_ b) = take sh key ->
  (fresh = true -> sh = O /\ 0 < counter_ b) ->
  cnt = (if fresh then 0 else counter_ b) -> zlen key < 2 ^ 64 -> zlen value < 2 ^ 64 ->
  builder_inv
    (mkBuilder ((PutVarint64 (PutVarint64 (PutVarint64 (buffer_ b) (Z.of_nat sh))
        (zlen key - Z.of_nat sh)) (zlen value) ++ drop sh key) ++ value)
      (if fresh then restarts_ b ++ [off es (length es)] else restarts_ b) (cnt + 1) fin
      (take sh (last_key_ b) ++ drop sh key))
    (es ++ [mkBEntry sh key value]) (if fresh then rs ++ [length es] else rs).
Proof.
  intros [Hb Hr Hl (rs' & r0 & Ers & Hc) Hsh Hf Hs Hre Hin] H1 H2 H3 Hfresh Hcnt Hk Hv.
  rewrite be_bytes_put by done. set (e := mkBEntry sh key value).
  assert (forall r i, rs !! r = Some i -> (i <= length es)%nat) as Hle by (intros; by eapply Hin).
  split; cbn [buffer_ restarts_ last_key_ counter_].
  - rewrite Hb, bes_bytes_app. unfold bes_bytes at 3. cbn. by rewrite app_nil_r.
  - assert (map (off (es ++ [e])) rs = map (off es) rs) as Hm.
    { apply map_ext_in. intros i Hi. apply off_app.
      apply list_elem_of_In, list_elem_of_lookup in Hi as [r Hi]. eauto. }
    destruct fresh; [|by rewrite Hm]. rewrite map_app, Hm, Hr. cbn. by rewrite off_app by lia.
  - rewrite length_app, Nat.add_1_r. cbn [prev_key].
    rewrite lookup_app_r, Nat.sub_diag by lia. cbn. by rewrite H3, take_drop.
  - rewrite length_app. cbn [length]. destruct fresh.
    + exists rs, (length es). split; [done|]. lia.
    + exists rs', r0. split; [done|]. lia.
  - intros i e' He'. rewrite lookup_app in He'. destruct (es !! i) as [x|] eqn:Ei.
    + injection He' as <-. pose proof (lookup_lt_Some _ _ _ Ei).
      rewrite prev_key_app by lia. auto.
    + apply lookup_ge_None in Ei. apply list_lookup_singleton_Some in He' as [Hi <-].
      replace i with (length es) by lia. rewrite prev_key_app, <- Hl by lia.
      cbn [be_shared be_key]. auto.
  - destruct fresh; [|done]. by apply lookup_app_l_Some.
  - destruct fresh; [|done]. apply StronglySorted_app. split; [|by repeat constructor].
    intros x1 x2 Hx1 Hx2. apply list_elem_of_singleton in Hx2 as ->. destruct (Hfresh eq_refl) as [_ Hp].
    apply list_elem_of_lookup in Hx1 as [r Hx1]. unfold Nat.lt.
    destruct r as [|r]; [|by apply (Hin (S r) x1)].
    assert (x1 = 0%nat) as -> by congruence. destruct es; [|cbn; lia].
    cbn [length] in Hc. lia.
  - intros r i e' Hri He'. rewrite lookup_app in He'.
    assert (rs !! r = Some i \/ (fresh = true /\ i = length es)) as Hcase.
    { destruct fresh; [|by left]. rewrite lookup_app in Hri. destruct (rs !! r); [by left|].
      right. apply list_lookup_singleton_Some in Hri as [_ <-]. done. }
    destruct (es !! i) as [x|] eqn:Ei.
    + injection He' as <-. destruct Hcase as [Hcase|[_ ->]]; [by eapply Hre|].
      apply lookup_lt_Some in Ei. lia.
    + apply lookup_ge_None in Ei. apply list_lookup_singleton_Some in He' as [_ <-].
      change (be_shared e) with sh.
      destruct Hcase as [Hcase|[Hcase _]]; [|by apply Hfresh].
      destruct (Hin r i Hcase) as [H4 H5]. assert (i = length es) as -> by lia.
      destruct r as [|r]; [|specialize (H5 ltac:(done)); lia].
      assert (length es = 0%nat) as El by congruence. destruct es; [|done].
      rewrite Hl in H2. cbn in H2. lia.
  - intros r i Hri. rewrite length_app. cbn [length].
    assert (i <= length es)%nat; [|split; [lia|intros _; lia]]. destruct fresh; [|by eapply Hle].
    rewrite lookup_app in Hri. destruct (rs !! r) eqn:E; [injection Hri as ->; by eapply Hle|].
    apply list_lookup_singleton_Some in Hri as [_ <-]. lia.
Qed.

Lemma BlockBuilder_Add_inv interval b es rs key value :
  builder_inv b es rs -> 1 <= interval -> zlen (buffer_ b) < 2 ^ 32 ->
  zlen key < 2 ^ 64 -> zlen value < 2 ^ 64 ->
  exists e rs', be_key e = key /\ be_value e = value /\
    builder_inv (BlockBuilder_Add interval b key value) (es ++ [e]) rs'.
Proof.
  intros H Hi Hb Hk Hv. unfold BlockBuilder_Add.
  destruct (counter_ b <? interval) eqn:E; boolprop.
  - destruct (shared_prefix_spec (last_key_ b) key) as (H1 & H2 & H3).
    do 2 eexists. split; [|split; [|eapply (builder_step b es rs _ key value false); eauto; done]]; done.
  - do 2 eexists. split; [|split].
    3:{ replace (u32 (zlen (buffer_ b))) with (off es (length es)).
        - eapply (builder_step b es rs 0 key value true); eauto; try lia; try done.
        - rewrite u32_small by lia. by rewrite off_end, (bi_buffer _ _ _ H). }
    all: done.
Qed.

(** Feeding a list of pairs. *)
Definition BlockBuilder_AddAll (interval : Z) (b : BlockBuilder) (kvs : list (bytes * bytes))
    : BlockBuilder :=
  fold_left (fun b kv => BlockBuilder_Add interval b (fst kv) (snd kv)) kvs b.

Lemma BlockBuilder_Add_grows interval b key value :
  zlen (buffer_ b) <= zlen (buffer_ (BlockBuilder_Add interval b key value)).
Proof.
  unfold BlockBuilder_Add, PutVarint64. case_test; cbn [buffer_]; rewrite !length_app; lia.
Qed.

Lemma BlockBuilder_AddAll_grows interval b kvs :
  zlen (buffer_ b) <= zlen (buffer_ (BlockBuilder_AddAll interval b kvs)).
Proof.
  unfold BlockBuilder_AddAll. revert b. induction kvs as [|kv kvs IH]; intros b; cbn; [lia|].
  etrans; [|apply IH]. apply BlockBuilder_Add_grows.
Qed.

Definition be_pair (e : BEntry) : bytes * bytes := (be_key e, be_value e).

Lemma BlockBuilder_AddAll_inv interval b es rs kvs :
  builder_inv b es rs -> 1 <= interval ->
  zlen (buffer_ (BlockBuilder_AddAll interval b kvs)) < 2 ^ 32 ->
  Forall (fun kv => zlen (fst kv) < 2 ^ 64 /\ zlen (snd kv) < 2 ^ 64) kvs ->
  exists es' rs', map be_pair es' = kvs /\
    builder_inv (BlockBuilder_AddAll interval b kvs) (es ++ es') rs'.
Proof.
  intros H Hi Hsz Hkv. revert b es rs H Hsz.
  induction Hkv as [|[k v] kvs [Hk Hv] _ IH]; intros b es rs H Hsz.
  - exists [], rs. by rewrite app_nil_r.
  - cbn [BlockBuilder_AddAll fold_left fst snd] in *.
    fold (BlockBuilder_AddAll interval (BlockBuilder_Add interval b k v) kvs) in *.
    pose proof (BlockBuilder_Add_grows interval b k v).
    pose proof (BlockBuilder_AddAll_grows interval (BlockBuilder_Add interval b k v) kvs).
    destruct (BlockBuilder_Add_inv interval b es rs k v) as (e & rs1 & <- & <- & Hb1); auto; [lia|].
    destruct (IH _ _ _ Hb1 Hsz) as (es' & rs' & E & H2).
    exists (e :: es'), rs'. split; [by rewrite <- E|]. by rewrite <- app_assoc in H2.
Qed.

Lemma fold_PutFixed32 xs buf :
  fold_left PutFixed32 xs buf = buf ++ concat (map EncodeFixed32 xs).
Proof.
  revert buf. induction xs as [|x xs IH]; intros buf; cbn; [by rewrite app_nil_r|].
  rewrite IH. unfold PutFixed32. by rewrite <- app_assoc.
Qed.

Lemma BlockBuilder_Finish_layout b es rs :
  builder_inv b es rs -> CurrentSizeEstimate b < 2 ^ 32 ->
  snd (BlockBuilder_Finish b) = layout_bytes es rs /\ layout_ok es rs.
Proof.
  intros H Hsz. unfold CurrentSizeEstimate in Hsz.
  rewrite (bi_buffer _ _ _ H), (bi_restarts _ _ _ H), length_map in Hsz.
  assert (snd (BlockBuilder_Finish b) = layout_bytes es rs) as E.
  { unfold BlockBuilder_Finish. cbn [snd]. rewrite (bi_buffer _ _ _ H), (bi_restarts _ _ _ H).
    unfold layout_bytes. rewrite length_map, u32_small by lia. unfold PutFixed32 at 1.
    rewrite fold_PutFixed32, <- app_assoc, map_map. done. }
  split; [done|]. rewrite <- off_end in Hsz. split; try apply H.
  - rewrite layout_size. lia.
  - intros r i Hr. destruct (bi_in _ _ _ H (S r) i Hr) as [_ Hlt]. auto.
Qed.

(** *** Sizes *)

(** An upper bound on the bytes that pairs take in a block: three numbers, a
    restart point, key and value. *)
Definition pairs_size (kvs : list (bytes * bytes)) : Z :=
  foldr (fun kv n => zlen (fst kv) + zlen (snd kv) + 34 + n) 0 kvs.

Lemma pairs_size_app kvs1 kvs2 : pairs_size (kvs1 ++ kvs2) = pairs_size kvs1 + pairs_size kvs2.
Proof. induction kvs1 as [|kv kvs1 IH]; cbn; [done|]. unfold pairs_size in *. lia. Qed.

Lemma pairs_size_nonneg kvs : 0 <= pairs_size kvs.
Proof. induction kvs as [|kv kvs IH]; cbn; [lia|]. unfold pairs_size in *. lia. Qed.

Lemma Add_size interval b k v :
  CurrentSizeEstimate (BlockBuilder_Add interval b k v) <=
  CurrentSizeEstimate b + zlen k + zlen v + 34.
Proof.
  unfold BlockBuilder_Add, CurrentSizeEstimate, PutVarint64.
  assert (forall x, (length (EncodeVarint64 (u64 x)) <= 10)%nat) as H.
  { intros x. by apply EncodeVarint64_length, u64_range. }
  case_test; cbn [buffer_ restarts_]; rewrite !length_app, length_drop; cbn [length];
    repeat match goal with |- context [EncodeVarint64 (u64 ?x)] =>
      pose proof (H x); generalize dependent (length (EncodeVarint64 (u64 x))); intros end; lia.
Qed.

Lemma AddAll_size interval b kvs :
  CurrentSizeEstimate (BlockBuilder_AddAll interval b kvs) <= CurrentSizeEstimate b + pairs_size kvs.
Proof.
  revert b. induction kvs as [|[k v] kvs IH]; intros b; cbn; [lia|].
  etrans; [apply IH|]. pose proof (Add_size interval b k v). unfold pairs_size. lia.
Qed.

Lemma pairs_size_member kvs kv : kv ∈ kvs -> zlen (fst kv) + zlen (snd kv) <= pairs_size kvs.
Proof.
  induction kvs as [|x kvs IH]; [by intros ?%elem_of_nil|]. pose proof (pairs_size_nonneg kvs).
  cbn. intros [->|Hin]%elem_of_cons; [unfold pairs_size in *; lia|]. specialize (IH Hin).
  unfold pairs_size in *. lia.
Qed.
