(* ===== verification/Block.v ===== *)
(** * Blocks: the reader

    src/table/block.h and src/table/block.cc: [Block], [DecodeEntry] and
    [Block::Iter].  A [value_] slice is an offset and a length in the block.
    Loops have a bound on their rounds ([None] when it is reached); on blocks
    the builder made, the theorems show that it is not. *)

From stdpp Require Import sets sorting.
From S2P Require Import Prelude Slice Coding Iterator BlockBuilder.

(** [class Block]: the contents; [size_] is [0] for a block that is too short
    for its restart array. *)
Record Block := mkBlock { block_data : bytes; block_size : Z; restart_offset_ : Z }.

(** [Block::NumRestarts] *)
Definition NumRestarts (data : bytes) : Z := DecodeFixed32 (drop (length data - 4) data).

(** [Block::Block] *)
Definition Block_new (contents : bytes) : Block :=
  let size := zlen contents in
  if size <? 4 then mkBlock contents 0 0
  else
    let max_restarts_allowed := (size - 4) / 4 in
    if NumRestarts contents >? max_restarts_allowed then mkBlock contents 0 0
    else mkBlock contents size (u32 (size - (1 + NumRestarts contents) * 4)).

(** [DecodeEntry(p, limit, ...)]: [p] is the bytes up to [limit]; the result is
    [shared], [non_shared], [value_length] and the bytes behind the header.
    The sum of the lengths is taken modulo [2 ^ 32]. *)
Definition DecodeEntry (p : bytes) : option (Z * Z * Z * bytes) :=
  if zlen p <? 3 then None
  else
    let shared := byte_at p 0 in
    let non_shared := byte_at p 1 in
    let value_length := byte_at p 2 in
    let header :=
      if Z.lor (Z.lor shared non_shared) value_length <? 128
      then Some (shared, non_shared, value_length, drop 3 p)
      else
        match GetVarint32Ptr p with
        | None => None
        | Some (shared, p) =>
            match GetVarint32Ptr p with
            | None => None
            | Some (non_shared, p) =>
                match GetVarint32Ptr p with
                | None => None
                | Some (value_length, p) => Some (shared, non_shared, value_length, p)
                end
            end
        end in
    match header with
    | None => None
    | Some (shared, non_shared, value_length, p) =>
        if u32 (zlen p) <? u32 (non_shared + value_length) then None
        else Some (shared, non_shared, value_length, p)
    end.

(** The variable fields of [class Block::Iter]. *)
Record BlockIter := mkBlockIter {
  current_ : Z; restart_index_ : Z; key_ : bytes; value_off : Z; value_len : Z;
  bi_status : Status }.

Section Iter.
Context (cmp : bytes -> bytes -> comparison).
(** [data_], [restarts_] and [num_restarts_] *)
Context (data : bytes) (restarts num_restarts : Z).

(** [Iter::Iter]; the default [value_] is empty and points nowhere. *)
Definition Iter_new : BlockIter := mkBlockIter restarts num_restarts [] 0 0 Status_OK.

Definition Block_Valid (it : BlockIter) : bool := current_ it <? restarts.

Definition Block_key (it : BlockIter) : bytes := key_ it.
Definition Block_value (it : BlockIter) : bytes :=
  take (Z.to_nat (value_len it)) (drop (Z.to_nat (value_off it)) data).

(** [NextEntryOffset] *)
Definition NextEntryOffset (it : BlockIter) : Z := u32 (value_off it + value_len it).

(** [GetRestartPoint(index)] *)
Definition GetRestartPoint (index : Z) : Z :=
  DecodeFixed32 (drop (Z.to_nat (restarts + index * 4)) data).

(** [SeekToRestartPoint(index)] *)
Definition SeekToRestartPoint (it : BlockIter) (index : Z) : BlockIter :=
  mkBlockIter (current_ it) index [] (GetRestartPoint index) 0 (bi_status it).

(** [CorruptionError()] *)
Definition CorruptionError (it : BlockIter) : BlockIter :=
  mkBlockIter restarts num_restarts [] 0 0 (Corruption (str:"bad entry in block")).

(** The [while] loop at the end of [ParseNextKey]. *)
Fixpoint advance_restart (fuel : nat) (index current : Z) : Z :=
  match fuel with
  | O => index
  | S fuel' =>
      if (u32 (index + 1) <? num_restarts) && (GetRestartPoint (index + 1) <? current)
      then advance_restart fuel' (index + 1) current
      else index
  end.

(** [ParseNextKey()] *)
Definition ParseNextKey (it : BlockIter) : BlockIter * bool :=
  let current := NextEntryOffset it in
  if current >=? restarts then
    (mkBlockIter restarts num_restarts (key_ it) (value_off it) (value_len it) (bi_status it), false)
  else
    match DecodeEntry (take (Z.to_nat (restarts - current)) (drop (Z.to_nat current) data)) with
    | None => (CorruptionError it, false)
    | Some (shared, non_shared, value_length, p) =>
        if zlen (key_ it) <? shared then (CorruptionError it, false)
        else
          (mkBlockIter current
             (advance_restart (Z.to_nat num_restarts) (restart_index_ it) current)
             (take (Z.to_nat shared) (key_ it) ++ take (Z.to_nat non_shared) p)
             (restarts - zlen p + non_shared) value_length (bi_status it), true)
    end.

(** [Next()] *)
Definition Block_Next (it : BlockIter) : BlockIter := fst (ParseNextKey it).

(** The first loop of [Prev()]: [None] when there is no restart point before
    [original]. *)
Fixpoint prev_restart (fuel : nat) (index original : Z) : option Z :=
  match fuel with
  | O => None
  | S fuel' =>
      if GetRestartPoint index >=? original then
        if index =? 0 then None else prev_restart fuel' (index - 1) original
      else Some index
  end.

(** [do {} while (ParseNextKey() && NextEntryOffset() < bound)] *)
Fixpoint scan_before (fuel : nat) (it : BlockIter) (bound : Z) : option BlockIter :=
  match fuel with
  | O => None
  | S fuel' =>
      let '(it, more) := ParseNextKey it in
      if more && (NextEntryOffset it <? bound) then scan_before fuel' it bound else Some it
  end.

(** The rounds a scan of the block needs. *)
Definition scan_fuel : nat := S (length data).

(** [Prev()] *)
Definition Block_Prev (it : BlockIter) : option BlockIter :=
  let original := current_ it in
  match prev_restart (S (Z.to_nat (restart_index_ it))) (restart_index_ it) original with
  | None =>
      Some (mkBlockIter restarts num_restarts (key_ it) (value_off it) (value_len it) (bi_status it))
  | Some index => scan_before scan_fuel (SeekToRestartPoint it index) original
  end.

(** The binary search of [Seek] over the restart points from [lo] to [hi]:
    [Some None] for a corrupt restart entry. *)
Fixpoint bsearch (fuel : nat) (target : bytes) (lo hi : Z) : option (option Z) :=
  match fuel with
  | O => None
  | S fuel' =>
      if lo <? hi then
        let mid := u32 (lo + hi + 1) / 2 in
        let region_offset := GetRestartPoint mid in
        match DecodeEntry (take (Z.to_nat (restarts - region_offset))
                (drop (Z.to_nat region_offset) data)) with
        | Some (shared, non_shared, _, p) =>
            if negb (shared =? 0) then Some None
            else
              match cmp (take (Z.to_nat non_shared) p) target with
              | Lt => bsearch fuel' target mid hi
              | _ => bsearch fuel' target lo (mid - 1)
              end
        | None => Some None
        end
      else Some (Some lo)
  end.

(** The linear search at the end of [Seek]. *)
Fixpoint scan_until (fuel : nat) (it : BlockIter) (target : bytes) : option BlockIter :=
  match fuel with
  | O => None
  | S fuel' =>
      let '(it, more) := ParseNextKey it in
      if negb more then Some it
      else match cmp (key_ it) target with
           | Lt => scan_until fuel' it target
           | _ => Some it
           end
  end.

(** [Seek(target)] *)
Definition Block_Seek (it : BlockIter) (target : bytes) : option BlockIter :=
  let '(lo, hi, c) :=
    if Block_Valid it then
      match cmp (key_ it) target with
      | Lt => (restart_index_ it, num_restarts - 1, Lt)
      | Gt => (0, restart_index_ it, Gt)
      | Eq => (0, num_restarts - 1, Eq)
      end
    else (0, num_restarts - 1, Eq) in
  if Block_Valid it && match c with Eq => true | _ => false end then Some it
  else
    index ← bsearch (S (Z.to_nat num_restarts)) target lo hi;
    match index with
    | None => Some (CorruptionError it)
    | Some index =>
        let skip_seek :=
          (index =? restart_index_ it) && match c with Lt => true | _ => false end in
        let it := if skip_seek then it else SeekToRestartPoint it index in
        scan_until scan_fuel it target
    end.

(** [SeekToFirst()] *)
Definition Block_SeekToFirst (it : BlockIter) : BlockIter :=
  fst (ParseNextKey (SeekToRestartPoint it 0)).

(** [SeekToLast()] *)
Definition Block_SeekToLast (it : BlockIter) : option BlockIter :=
  scan_before scan_fuel (SeekToRestartPoint it (num_restarts - 1)) restarts.
End Iter.

(** [Block::NewIterator]: an error or empty iterator, or an [Iter]. *)
Inductive BlockIterator :=
  | NoData (s : IState EmptyIterator) | DataIterator (it : BlockIter).

Definition Block_NewIterator (b : Block) : BlockIterator :=
  if block_size b <? 4
  then NoData (NewErrorIterator (Corruption (str:"bad clock contents")))
  else
    let num_restarts := NumRestarts (block_data b) in
    if num_restarts =? 0 then NoData NewEmptyIterator
    else DataIterator (Iter_new (restart_offset_ b) num_restarts).

(** The operations of an iterator over block [b]. *)
Definition Block_Iterator (cmp : bytes -> bytes -> comparison) (b : Block) : IteratorOps :=
  let data := block_data b in
  let restarts := restart_offset_ b in
  let num := NumRestarts (block_data b) in
  let on {A} (f : BlockIter -> A) (g : IState EmptyIterator -> A) (s : BlockIterator) : A :=
    match s with NoData e => g e | DataIterator it => f it end in
  let move (f : BlockIter -> option BlockIter)
           (g : IState EmptyIterator -> option (IState EmptyIterator))
           (s : BlockIterator) : option BlockIterator :=
    match s with
    | NoData e => e ← g e; Some (NoData e)
    | DataIterator it => it ← f it; Some (DataIterator it)
    end in
  mkIteratorOps BlockIterator
    (on (Block_Valid restarts) (it_Valid EmptyIterator))
    (on Block_key (it_key EmptyIterator))
    (on (Block_value data) (it_value EmptyIterator))
    (on bi_status (it_status EmptyIterator))
    (move (fun it => Some (Block_SeekToFirst data restarts num it)) (it_SeekToFirst EmptyIterator))
    (move (Block_SeekToLast data restarts num) (it_SeekToLast EmptyIterator))
    (fun s t => move (fun it => Block_Seek cmp data restarts num it t)
                     (fun e => it_Seek EmptyIterator e t) s)
    (move (fun it => Some (Block_Next data restarts num it)) (it_Next EmptyIterator))
    (move (Block_Prev data restarts num) (it_Prev EmptyIterator)).

(** ** Decoding an entry *)

(** The header read by three varint decoders. *)
Definition slow_header (p : bytes) : option (Z * Z * Z * bytes) :=
  match GetVarint32Ptr p with
  | None => None
  | Some (shared, p) =>
      match GetVarint32Ptr p with
      | None => None
      | Some (non_shared, p) =>
          match GetVarint32Ptr p with
          | None => None
          | Some (value_length, p) => Some (shared, non_shared, value_length, p)
          end
      end
  end.

Lemma lor_small a b n : 0 <= n -> 0 <= a -> 0 <= b -> Z.lor a b < 2 ^ n -> a < 2 ^ n /\ b < 2 ^ n.
Proof.
  intros Hn Ha Hb H.
  assert (0 <= Z.lor a b < 2 ^ n) as R by (split; [apply Z.lor_nonneg; lia|done]).
  assert (forall i, n <= i -> Z.testbit a i = false /\ Z.testbit b i = false) as Hbits.
  { intros i Hi. pose proof (range_high_bits n (Z.lor a b) i R ltac:(lia)) as E.
    rewrite Z.lor_spec in E. by apply orb_false_iff in E. }
  split; apply high_bits_range; try done; intros i Hi; by apply Hbits.
Qed.

(** The fast path of [DecodeEntry] reads what the varint decoders would. *)
Lemma DecodeEntry_slow p :
  (3 <= length p)%nat ->
  DecodeEntry p =
  match slow_header p with
  | None => None
  | Some (shared, non_shared, value_length, p) =>
      if u32 (zlen p) <? u32 (non_shared + value_length) then None
      else Some (shared, non_shared, value_length, p)
  end.
Proof.
  intros Hp. unfold DecodeEntry. rewrite (proj2 (Z.ltb_ge _ _)) by lia.
  fold (slow_header p). case_test; [|done].
  destruct p as [|b0 [|b1 [|b2 p]]]; cbn in Hp; try lia. cbn [drop].
  unfold byte_at in E. cbn [nth] in E. change 128 with (2 ^ 7) in E.
  pose proof (unsigned_range b0). pose proof (unsigned_range b1). pose proof (unsigned_range b2).
  apply lor_small in E as [E E2]; [|lia|apply Z.lor_nonneg; lia|lia].
  apply lor_small in E as [E0 E1]; [|lia|lia|lia]. change (2 ^ 7) with 128 in *.
  assert (forall b q, byte.unsigned b < 128 -> GetVarint32Ptr (b :: q) = Some (byte.unsigned b, q))
    as Hone.
  { intros b q Hb. unfold GetVarint32Ptr. rewrite land128 by apply unsigned_range.
    by rewrite (proj2 (Z.ltb_lt _ _)) by lia. }
  unfold slow_header. by rewrite !Hone by done.
Qed.

Lemma GetVarint32Ptr_encode64 v rest :
  0 <= v < 2 ^ 32 -> GetVarint32Ptr (EncodeVarint64 v ++ rest) = Some (v, rest).
Proof. intros Hv. rewrite <- EncodeVarint32_64 by done. by apply GetVarint32_encode. Qed.

Lemma DecodeEntry_be e (tl : bytes) :
  (be_shared e <= length (be_key e))%nat -> Z.of_nat (be_shared e) < 2 ^ 32 ->
  zlen (be_bytes e ++ tl) < 2 ^ 32 ->
  DecodeEntry (be_bytes e ++ tl) =
  Some (Z.of_nat (be_shared e), zlen (be_key e) - Z.of_nat (be_shared e), zlen (be_value e),
        drop (be_shared e) (be_key e) ++ be_value e ++ tl).
Proof.
  intros Hs Hs2 Hlen. pose proof (be_bytes_length e) as H3.
  rewrite DecodeEntry_slow by (rewrite length_app; lia).
  assert (zlen (drop (be_shared e) (be_key e) ++ be_value e ++ tl) =
    zlen (be_key e) - Z.of_nat (be_shared e) + zlen (be_value e) + zlen tl) as El.
  { rewrite !length_app, length_drop. lia. }
  assert (zlen (be_key e) - Z.of_nat (be_shared e) + zlen (be_value e) + zlen tl <=
          zlen (be_bytes e ++ tl)) as Hsum.
  { unfold be_bytes. rewrite !length_app, length_drop. lia. }
  unfold slow_header, be_bytes. rewrite <- !app_assoc.
  rewrite !GetVarint32Ptr_encode64 by lia. rewrite El, !u32_small by lia.
  by rewrite (proj2 (Z.ltb_ge _ _)) by lia.
Qed.

(** ** Blocks with a layout *)

Section Layout.
Context (es : list BEntry) (rs : list nat) (Hlo : layout_ok es rs).
Abbreviation n := (length es).
Abbreviation data := (layout_bytes es rs).
Abbreviation restarts := (off es (length es)).
Abbreviation num := (zlen rs).

Lemma restarts_bound : 0 <= restarts /\ restarts + 4 * num + 4 < 2 ^ 32.
Proof.
  pose proof (lo_size _ _ Hlo) as H. rewrite layout_size in H. unfold off in *. lia.
Qed.

Lemma num_pos : 0 < num.
Proof. pose proof (lo_first _ _ Hlo) as H. apply lookup_lt_Some in H. lia. Qed.

Lemma key_length_off i e : es !! i = Some e -> zlen (be_key e) <= off es (S i).
Proof.
  revert e. induction i as [|i IH]; intros e He;
    destruct (lo_shared _ _ Hlo _ _ He) as (H1 & H2 & _); rewrite (off_S _ _ _ He);
    assert (length (be_key e) - be_shared e <= length (be_bytes e))%nat
      by (unfold be_bytes; rewrite !length_app, length_drop; lia).
  - cbn in H2. unfold off. lia.
  - cbn [prev_key] in H2. pose proof (lookup_lt_Some _ _ _ He).
    destruct (lookup_lt_is_Some_2 es i ltac:(lia)) as [e' He']. rewrite He' in H2.
    specialize (IH e' He'). lia.
Qed.

Lemma off_le i : (i <= n)%nat -> off es i <= restarts.
Proof. intros Hi. pose proof (off_mono es i n Hi ltac:(lia)). lia. Qed.

Lemma off_nonneg i : 0 <= off es i.
Proof. unfold off. lia. Qed.

(** The bytes from an entry up to the restart array. *)
Lemma region_bytes i :
  (i <= n)%nat ->
  take (Z.to_nat (restarts - off es i)) (drop (Z.to_nat (off es i)) data) = bes_bytes (drop i es).
Proof.
  intros Hi. unfold layout_bytes.
  rewrite off_end, (bes_bytes_split i es), <- !app_assoc. unfold off. rewrite Nat2Z.id, drop_app_length.
  replace (Z.to_nat _) with (length (bes_bytes (drop i es))); [by rewrite take_app_length|].
  rewrite length_app. lia.
Qed.

Lemma decode_at i e :
  es !! i = Some e ->
  exists tl, bes_bytes (drop i es) = be_bytes e ++ tl /\ zlen tl = restarts - off es (S i) /\
  DecodeEntry (take (Z.to_nat (restarts - off es i)) (drop (Z.to_nat (off es i)) data)) =
  Some (Z.of_nat (be_shared e), zlen (be_key e) - Z.of_nat (be_shared e), zlen (be_value e),
        drop (be_shared e) (be_key e) ++ be_value e ++ tl).
Proof.
  intros He. pose proof (lookup_lt_Some _ _ _ He) as Hi.
  rewrite region_bytes by lia. rewrite (drop_S _ _ _ He).
  exists (bes_bytes (drop (S i) es)). split; [done|].
  pose proof restarts_bound as Hb. pose proof (off_le (S i) ltac:(lia)) as Ho.
  assert (zlen (bes_bytes (drop (S i) es)) = restarts - off es (S i)) as El.
  { unfold off. rewrite firstn_all. rewrite <- (take_drop (S i) es) at 2.
    rewrite bes_bytes_app, length_app. lia. }
  split; [done|]. apply DecodeEntry_be.
  - by apply (lo_shared _ _ Hlo i e).
  - pose proof (key_length_off i e He). destruct (lo_shared _ _ Hlo i e He). lia.
  - rewrite length_app, Nat2Z.inj_add, El, (off_S _ _ _ He). pose proof (off_nonneg i). lia.
Qed.

Lemma restart_le r i : rs !! r = Some i -> (i <= n)%nat.
Proof.
  intros Hr. destruct r as [|r]; [pose proof (lo_first _ _ Hlo); assert (i = 0%nat) as -> by congruence; lia|].
  pose proof (lo_in _ _ Hlo r i Hr). lia.
Qed.
(** The restart array. *)
Lemma GetRestartPoint_spec r i :
  rs !! r = Some i -> GetRestartPoint data restarts (Z.of_nat r) = off es i.
Proof.
  intros Hr. unfold GetRestartPoint, layout_bytes. rewrite off_end.
  replace (Z.to_nat (zlen (bes_bytes es) + Z.of_nat r * 4))
    with (length (bes_bytes es) + 4 * r)%nat by lia.
  rewrite drop_app_add.
  assert (forall (xs : list nat) r i (tl : bytes), xs !! r = Some i ->
    exists tl', drop (4 * r) (concat (map (fun r => EncodeFixed32 (off es r)) xs) ++ tl) =
      EncodeFixed32 (off es i) ++ tl') as Hdrop.
  { clear. induction xs as [|x xs IH]; intros r i tl Hr; [done|]. destruct r as [|r].
    - injection Hr as <-. cbn [map concat]. rewrite <- app_assoc. by eexists.
    - destruct (IH r i tl Hr) as [tl' E]. exists tl'. rewrite <- E.
      replace (4 * S r)%nat with (4 + 4 * r)%nat by lia. rewrite <- drop_drop. done. }
  destruct (Hdrop rs r i (EncodeFixed32 (zlen rs)) Hr) as [tl' ->].
  apply Fixed32_roundtrip. split; [apply off_nonneg|].
  pose proof (restart_le r i Hr) as Hi.
  pose proof (off_le i Hi). pose proof restarts_bound. lia.
Qed.

(** The value of an entry lies at its end. *)
Lemma value_at i e :
  es !! i = Some e ->
  take (length (be_value e)) (drop (Z.to_nat (off es (S i) - zlen (be_value e))) data) = be_value e.
Proof.
  intros He. assert (exists hdr, be_bytes e = hdr ++ be_value e) as [hdr Eh].
  { unfold be_bytes. eexists. by rewrite !app_assoc. }
  assert (exists tl, data = (bes_bytes (take i es) ++ hdr) ++ be_value e ++ tl) as [tl ->].
  { unfold layout_bytes. rewrite (bes_bytes_split i es), (drop_S _ _ _ He).
    unfold bes_bytes at 2. cbn [map concat]. rewrite Eh. eexists. by rewrite <- !app_assoc. }
  rewrite (off_S _ _ _ He), Eh. rewrite drop_app_length'.
  - by rewrite take_app_length.
  - unfold off. rewrite !length_app. lia.
Qed.

(** *** The position of the iterator *)

(** Restart point [r] is not behind entry [i]. *)
Definition restart_before (index : Z) (i : nat) : Prop :=
  exists r j, index = Z.of_nat r /\ rs !! r = Some j /\ (j <= i)%nat.

(** The iterator is at entry [i]. *)
Record at_entry (it : BlockIter) (i : nat) : Prop := {
  ae_current : current_ it = off es i;
  ae_entry : exists e, es !! i = Some e /\ key_ it = be_key e /\
    Block_value data it = be_value e;
  ae_next : value_off it + value_len it = off es (S i);
  ae_restart : restart_before (restart_index_ it) i;
  ae_status : bi_status it = Status_OK
}.

(** The next entry to be parsed is [i]. *)
Record ready (it : BlockIter) (i : nat) : Prop := {
  rd_bound : (i <= n)%nat;
  rd_next : NextEntryOffset it = off es i;
  rd_shared : forall e, es !! i = Some e ->
    (be_shared e <= length (key_ it))%nat /\ take (be_shared e) (key_ it) = take (be_shared e) (be_key e);
  rd_restart : restart_before (restart_index_ it) i;
  rd_status : bi_status it = Status_OK
}.

(** The iterator is past the last entry. *)
Definition ended (it : BlockIter) : Prop :=
  current_ it = restarts /\ restart_index_ it = num /\ bi_status it = Status_OK.

Lemma off_small i : (i <= n)%nat -> u32 (off es i) = off es i.
Proof.
  intros Hi. apply u32_small. pose proof (off_le i Hi). pose proof (off_nonneg i).
  pose proof restarts_bound. lia.
Qed.

Lemma at_entry_ready it i : at_entry it i -> ready it (S i).
Proof.
  intros [Hc (e & He & Hk & _) Hn (r & j & Hr & Hj & Hji) Hs].
  pose proof (lookup_lt_Some _ _ _ He). split; try done.
  - unfold NextEntryOffset. rewrite Hn. apply off_small. lia.
  - intros e' He'. destruct (lo_shared _ _ Hlo _ _ He') as (_ & H1 & H2).
    cbn [prev_key] in *. rewrite He in *. by rewrite Hk.
  - exists r, j. repeat split; try done. lia.
Qed.

Lemma SeekToRestartPoint_ready it r i :
  rs !! r = Some i -> bi_status it = Status_OK ->
  ready (SeekToRestartPoint data restarts it (Z.of_nat r)) i.
Proof.
  intros Hr Hs. pose proof (restart_le r i Hr) as Hi. split; try done.
  - unfold NextEntryOffset. cbn [SeekToRestartPoint value_off value_len].
    rewrite (GetRestartPoint_spec r i Hr), Z.add_0_r. by apply off_small.
  - intros e He. rewrite (lo_restart _ _ Hlo r i e Hr He). split; [lia|done].
  - exists r, i. done.
Qed.

Lemma advance_restart_before fuel index i :
  restart_before index i -> (i <= n)%nat ->
  restart_before (advance_restart data restarts num fuel index (off es i)) i.
Proof.
  intros H Hi. revert index H. induction fuel as [|fuel IH]; intros index H; [done|].
  cbn [advance_restart]. destruct H as (r & j & -> & Hr & Hj).
  pose proof (lookup_lt_Some _ _ _ Hr) as Hrn. pose proof restarts_bound as Hb.
  rewrite u32_small by (pose proof (off_nonneg (length es)); lia).
  case_test; [|exists r, j; done].
  destruct (lookup_lt_is_Some_2 rs (S r) ltac:(lia)) as [j' Hj'].
  replace (Z.of_nat r + 1) with (Z.of_nat (S r)) in * by lia.
  rewrite (GetRestartPoint_spec (S r) j' Hj') in *.
  apply IH. exists (S r), j'. repeat split; try done.
  pose proof (restart_le _ _ Hj'). enough (j' < i)%nat by lia. apply (off_lt es); lia.
Qed.

Lemma ParseNextKey_ready it i :
  ready it i -> (i < n)%nat ->
  exists it', ParseNextKey data restarts num it = (it', true) /\ at_entry it' i.
Proof.
  intros [_ Hn Hsh Hr Hs] Hi. destruct (lookup_lt_is_Some_2 es i Hi) as [e He].
  unfold ParseNextKey. rewrite Hn.
  pose proof (off_S _ _ _ He) as HS. pose proof (be_bytes_length e).
  pose proof (off_le (S i) ltac:(lia)). rewrite Z.geb_leb, (proj2 (Z.leb_gt _ _)) by lia.
  destruct (decode_at i e He) as (tl & Etl & Ltl & ->).
  destruct (Hsh e He) as [Hs1 Hs2]. destruct (lo_shared _ _ Hlo i e He) as (Hs3 & _).
  rewrite (proj2 (Z.ltb_ge _ _)) by lia. eexists. split; [done|].
  set (p := drop (be_shared e) (be_key e) ++ be_value e ++ tl).
  assert (zlen p = zlen (be_key e) - Z.of_nat (be_shared e) + zlen (be_value e) + zlen tl) as Lp.
  { unfold p. rewrite !length_app, length_drop. lia. }
  split; cbn [current_ key_ value_off value_len restart_index_ bi_status]; try done.
  - exists e. split; [done|]. split.
    + rewrite Nat2Z.id, Hs2. unfold p. rewrite take_app_length'.
      * by rewrite take_drop.
      * rewrite length_drop. lia.
    + unfold Block_value. cbn [value_off value_len]. rewrite Nat2Z.id, Lp.
      etrans; [|apply (value_at i e He)]. do 3 f_equal. lia.
  - rewrite Lp, HS. lia.
  - apply advance_restart_before; [done|lia].
Qed.
Lemma ParseNextKey_end it :
  ready it n ->
  exists it', ParseNextKey data restarts num it = (it', false) /\ ended it'.
Proof.
  intros [_ Hn _ _ Hs]. unfold ParseNextKey. rewrite Hn.
  rewrite (proj2 (Z.geb_le _ _)) by lia. eexists. split; [done|]. done.
Qed.

(** The rounds the loops may need are bounded by the size of the block. *)
Lemma scan_fuel_bound : (n < scan_fuel data)%nat.
Proof.
  unfold scan_fuel. pose proof (layout_size es rs) as Hl.
  pose proof (off_mono es 0 n ltac:(lia) ltac:(lia)) as Hm. rewrite off_0 in Hm. lia.
Qed.

Lemma scan_before_spec fuel it j i :
  ready it j -> (j < i <= n)%nat -> (i - j <= fuel)%nat ->
  exists it', scan_before data restarts num fuel it (off es i) = Some it' /\ at_entry it' (i - 1).
Proof.
  revert it j. induction fuel as [|fuel IH]; intros it j H Hj Hf; [lia|].
  cbn [scan_before]. destruct (ParseNextKey_ready it j H ltac:(lia)) as (it1 & -> & H1).
  pose proof (at_entry_ready _ _ H1) as H2. rewrite (rd_next _ _ H2). cbn [andb].
  case_test.
  - apply (off_lt es) in E; [|lia|lia]. apply IH with (S j); [done|lia|lia].
  - exists it1. split; [done|]. assert (~ (S j < i)%nat) as Hn.
    { intros Hlt. apply (off_lt es) in Hlt; lia. }
    by replace (i - 1)%nat with j by lia.
Qed.

(** At position [i]; position [n] is past the end. *)
Definition iter_at (it : BlockIter) (i : nat) : Prop :=
  ((i < n)%nat /\ at_entry it i) \/ (i = n /\ ended it).

Lemma iter_at_status it i : iter_at it i -> bi_status it = Status_OK.
Proof. intros [[_ H]|[_ H]]; apply H. Qed.

Lemma iter_at_valid it i : iter_at it i -> Block_Valid restarts it = true <-> (i < n)%nat.
Proof.
  unfold Block_Valid. rewrite Z.ltb_lt. intros [[Hi H]|[-> [H _]]]; [|lia].
  rewrite (ae_current _ _ H). pose proof (off_lt es i n ltac:(lia) ltac:(lia)). tauto.
Qed.

Lemma ParseNextKey_any it i :
  ready it i ->
  exists it', ParseNextKey data restarts num it = (it', (i <? n)%nat) /\ iter_at it' i.
Proof.
  intros H. pose proof (rd_bound _ _ H). destruct (i <? n)%nat eqn:E.
  - apply Nat.ltb_lt in E. destruct (ParseNextKey_ready it i H E) as (it' & E' & H').
    exists it'. split; [done|]. by left.
  - apply Nat.ltb_ge in E. assert (i = n) as -> by lia.
    destruct (ParseNextKey_end it H) as (it' & E' & H'). exists it'. split; [done|]. by right.
Qed.

Lemma Block_Next_at it i :
  iter_at it i -> (i < n)%nat -> iter_at (Block_Next data restarts num it) (S i).
Proof.
  intros [[Hi H]|[-> _]] Hlt; [|lia]. apply at_entry_ready in H.
  destruct (ParseNextKey_any _ _ H) as (it' & E & H'). unfold Block_Next. by rewrite E.
Qed.

Lemma Block_SeekToFirst_at it :
  bi_status it = Status_OK -> iter_at (Block_SeekToFirst data restarts num it) 0.
Proof.
  intros Hs. pose proof (SeekToRestartPoint_ready it 0 0 (lo_first _ _ Hlo) Hs) as H.
  destruct (ParseNextKey_any _ _ H) as (it' & E & H'). unfold Block_SeekToFirst.
  change 0 with (Z.of_nat 0). by rewrite E.
Qed.

Lemma restart_lt r i : rs !! r = Some i -> (0 < n)%nat -> (i < n)%nat.
Proof.
  intros Hr Hn. destruct r as [|r]; [|by eapply lo_in].
  pose proof (lo_first _ _ Hlo). assert (i = 0%nat) as -> by congruence. lia.
Qed.

Lemma Block_SeekToLast_at it :
  bi_status it = Status_OK ->
  exists it', Block_SeekToLast data restarts num it = Some it' /\ iter_at it' (n - 1).
Proof.
  intros Hs. pose proof num_pos. unfold Block_SeekToLast.
  destruct (lookup_lt_is_Some_2 rs (length rs - 1) ltac:(lia)) as [j Hj].
  replace (num - 1) with (Z.of_nat (length rs - 1)) by lia.
  pose proof (SeekToRestartPoint_ready it _ _ Hj Hs) as H1.
  pose proof scan_fuel_bound as Hf.
  destruct (decide (n = 0%nat)) as [E0|Hn0].
  - replace (n - 1)%nat with 0%nat by lia. pose proof (restart_le _ _ Hj).
    assert (j = 0%nat) as -> by lia.
    destruct (ParseNextKey_any _ _ H1) as (it' & E & H').
    exists it'. split; [|done]. unfold scan_fuel. cbn [scan_before]. rewrite E.
    by rewrite (proj2 (Nat.ltb_ge _ _)) by lia.
  - pose proof (restart_lt _ _ Hj ltac:(lia)).
    destruct (scan_before_spec (scan_fuel data) _ j n H1) as (it' & -> & H'); [lia|lia|].
    exists it'. split; [done|]. left. split; [lia|done].
Qed.

Lemma prev_restart_spec fuel r i j :
  rs !! r = Some j -> (j <= i < n)%nat -> (r < fuel)%nat ->
  match prev_restart data restarts fuel (Z.of_nat r) (off es i) with
  | None => i = 0%nat
  | Some index => exists r' j', index = Z.of_nat r' /\ rs !! r' = Some j' /\ (j' < i)%nat
  end.
Proof.
  revert r j. induction fuel as [|fuel IH]; intros r j Hr Hj Hf; [lia|].
  cbn [prev_restart]. rewrite (GetRestartPoint_spec r j Hr). case_test.
  - rewrite Z.geb_le in E.
    assert (~ (j < i)%nat) as Hnlt by (intros Hlt; apply (off_lt es) in Hlt; lia).
    destruct r as [|r].
    + change (Z.of_nat 0 =? 0) with true. cbn iota. pose proof (lo_first _ _ Hlo).
      assert (j = 0%nat) as -> by congruence. lia.
    + rewrite (proj2 (Z.eqb_neq _ _)) by lia.
      replace (Z.of_nat (S r) - 1) with (Z.of_nat r) by lia.
      destruct (lookup_lt_is_Some_2 rs r) as [j' Hj'].
      { apply lookup_lt_Some in Hr. lia. }
      apply IH with j'; [done| |lia]. pose proof (lo_sorted _ _ Hlo) as Hs.
      assert (j' < j)%nat; [|lia]. eapply sorted_lookup; [exact Hs|exact Hj'|exact Hr|lia].
  - exists r, j. repeat split; try done. apply (off_lt es); [lia|lia|]. lia.
Qed.

Lemma Block_Prev_at it i :
  iter_at it i -> (i < n)%nat ->
  exists it', Block_Prev data restarts num it = Some it' /\
    iter_at it' (match i with O => n | S i' => i' end).
Proof.
  intros [[_ H]|[-> _]] Hlt; [|lia]. unfold Block_Prev.
  rewrite (ae_current _ _ H). destruct (ae_restart _ _ H) as (r & j & Hri & Hr & Hj). rewrite Hri.
  pose proof (prev_restart_spec (S (Z.to_nat (Z.of_nat r))) r i j Hr ltac:(lia) ltac:(lia)) as Hp.
  destruct (prev_restart _ _ _ _ _) as [index|].
  - destruct Hp as (r' & j' & -> & Hr' & Hj').
    pose proof (SeekToRestartPoint_ready it r' j' Hr' (ae_status _ _ H)) as Hrd.
    pose proof scan_fuel_bound as Hf.
    destruct (scan_before_spec (scan_fuel data) _ j' i Hrd) as (it' & -> & H'); [lia|lia|].
    exists it'. split; [done|]. left. destruct i as [|i]; [lia|].
    replace (S i - 1)%nat with i in H' by lia. split; [lia|done].
  - subst i. eexists. split; [done|]. right. split; [done|]. repeat split. apply H.
Qed.
(** *** Seeking *)

Section Seek.
Context (cmp : bytes -> bytes -> comparison) `{!OrderLaws cmp}.
Context (Hsorted : StronglySorted (fun e1 e2 => cmp (be_key e1) (be_key e2) = Lt) es).

Definition key_lt (target : bytes) (i : nat) : Prop :=
  exists e, es !! i = Some e /\ cmp (be_key e) target = Lt.

(** The first entry whose key is not smaller. *)
Definition entry_pos (target : bytes) : nat := seek_pos cmp target (map be_key es).

Lemma entry_pos_eq target i :
  (i <= n)%nat ->
  (forall k e, (k < i)%nat -> es !! k = Some e -> cmp (be_key e) target = Lt) ->
  (forall e, es !! i = Some e -> cmp (be_key e) target <> Lt) -> entry_pos target = i.
Proof.
  intros Hi Hbef Hat. apply seek_pos_eq; [by rewrite length_map|..].
  - intros j x Hj Hx. rewrite list_lookup_fmap in Hx. destruct (es !! j) as [e|] eqn:E; [|done].
    injection Hx as <-. eauto.
  - intros x Hx. rewrite list_lookup_fmap in Hx. destruct (es !! i) as [e|] eqn:E; [|done].
    injection Hx as <-. eauto.
Qed.

Lemma sorted_entries k i ek ei :
  es !! k = Some ek -> es !! i = Some ei -> (k < i)%nat -> cmp (be_key ek) (be_key ei) = Lt.
Proof. apply (sorted_lookup (fun e1 e2 => cmp (be_key e1) (be_key e2) = Lt) _ _ _ _ _ Hsorted). Qed.

Lemma key_lt_before target i k e :
  key_lt target i -> (k <= i)%nat -> es !! k = Some e -> cmp (be_key e) target = Lt.
Proof.
  intros (e' & He' & Hlt) Hk He. destruct (decide (k = i)) as [->|Hne]; [congruence|].
  eapply (cmp_lt_trans cmp); [|exact Hlt].
  eapply sorted_entries; [done|done|lia].
Qed.

Lemma scan_until_spec fuel it j target :
  ready it j -> (n - j < fuel)%nat ->
  (forall k e, (k < j)%nat -> es !! k = Some e -> cmp (be_key e) target = Lt) ->
  exists it', scan_until cmp data restarts num fuel it target = Some it' /\
    iter_at it' (entry_pos target).
Proof.
  revert it j. induction fuel as [|fuel IH]; intros it j H Hf Hbef; [lia|].
  cbn [scan_until]. destruct (ParseNextKey_any it j H) as (it1 & -> & H1).
  pose proof (rd_bound _ _ H) as Hb. destruct (j <? n)%nat eqn:E; cbn [negb].
  - apply Nat.ltb_lt in E. destruct H1 as [[_ H1]|[-> _]]; [|lia].
    destruct (ae_entry _ _ H1) as (e & He & Hk & _). rewrite Hk.
    destruct (cmp (be_key e) target) eqn:Ec.
    2:{ apply IH with (S j); [by apply at_entry_ready|lia|].
        intros k e' Hk' He'. destruct (decide (k = j)) as [->|]; [congruence|].
        apply (Hbef k); [lia|done]. }
    all: exists it1; split; [done|]; rewrite (entry_pos_eq target j); [by left|lia|done|].
    all: intros e' He'; congruence.
  - apply Nat.ltb_ge in E. exists it1. split; [done|].
    rewrite (entry_pos_eq target j); [done|lia|done|].
    intros e He. apply lookup_lt_Some in He. lia.
Qed.

(** The result of the binary search is a restart point the scan may start from. *)
Lemma bsearch_spec fuel target (lo hi : nat) :
  (lo <= hi < length rs)%nat -> (hi - lo < fuel)%nat ->
  (lo = O \/ exists i, rs !! lo = Some i /\ key_lt target i) ->
  exists r, bsearch cmp data restarts fuel target (Z.of_nat lo) (Z.of_nat hi) =
      Some (Some (Z.of_nat r)) /\ (r < length rs)%nat /\
    (r = O \/ exists i, rs !! r = Some i /\ key_lt target i).
Proof.
  revert lo hi. induction fuel as [|fuel IH]; intros lo hi Hr Hf Hlt; [lia|].
  cbn [bsearch]. case_test.
  2:{ exists lo. split; [done|]. split; [lia|done]. }
  pose proof restarts_bound as Hb. pose proof (off_nonneg n) as Hn0.
  rewrite u32_small by lia.
  set (mid := Nat.div2 (lo + hi + 1)).
  replace ((Z.of_nat lo + Z.of_nat hi + 1) / 2) with (Z.of_nat mid).
  2:{ unfold mid. rewrite Nat.div2_div, Nat2Z.inj_div. f_equal. lia. }
  assert (lo < mid <= hi)%nat as Hmid.
  { unfold mid. rewrite Nat.div2_div. split.
    - apply Nat.div_le_lower_bound; lia.
    - apply Nat.div_le_upper_bound; lia. }
  destruct (lookup_lt_is_Some_2 rs mid ltac:(lia)) as [i Hi].
  rewrite (GetRestartPoint_spec mid i Hi).
  assert (i < n)%nat as Hin by (destruct mid as [|m]; [lia|by eapply lo_in]).
  destruct (lookup_lt_is_Some_2 es i Hin) as [e He].
  destruct (decode_at i e He) as (tl & _ & _ & ->).
  rewrite (lo_restart _ _ Hlo mid i e Hi He), Z.sub_0_r, Nat2Z.id. cbn [Z.of_nat Z.eqb negb].
  change (drop 0 (be_key e)) with (be_key e). rewrite take_app_length.
  destruct (cmp (be_key e) target) eqn:Ec.
  2:{ apply IH; [lia|lia|]. right. exists i. split; [done|]. by exists e. }
  all: replace (Z.of_nat mid - 1) with (Z.of_nat (mid - 1)) by lia; apply IH; [lia|lia|done].
Qed.

(** From a restart point that is the first or smaller than the target. *)
Lemma seek_from_restart it r target :
  bi_status it = Status_OK -> (r < length rs)%nat ->
  (r = O \/ exists i, rs !! r = Some i /\ key_lt target i) ->
  exists it', scan_until cmp data restarts num (scan_fuel data)
      (SeekToRestartPoint data restarts it (Z.of_nat r)) target = Some it' /\
    iter_at it' (entry_pos target).
Proof.
  intros Hs Hr Hor. destruct (lookup_lt_is_Some_2 rs r Hr) as [i Hi].
  pose proof (SeekToRestartPoint_ready it r i Hi Hs) as Hrd.
  eapply scan_until_spec; [exact Hrd|pose proof scan_fuel_bound; lia|].
  intros k e Hk He. destruct Hor as [->|(i' & Hi' & Hlt)].
  - pose proof (lo_first _ _ Hlo). assert (i = 0%nat) as -> by congruence. lia.
  - assert (i' = i) as -> by congruence. eapply key_lt_before; [exact Hlt| |exact He]. lia.
Qed.

Lemma Block_Seek_at it i target :
  iter_at it i ->
  exists it', Block_Seek cmp data restarts num it target = Some it' /\
    iter_at it' (entry_pos target).
Proof.
  intros H. pose proof num_pos as Hnum. pose proof (iter_at_status it i H) as Hst.
  unfold Block_Seek. destruct (Block_Valid restarts it) eqn:Ev.
  - apply (iter_at_valid it i H) in Ev. destruct H as [[_ H]|[-> _]]; [|lia].
    destruct (ae_entry _ _ H) as (e & He & Hk & _). rewrite Hk.
    destruct (ae_restart _ _ H) as (r & j & Hri & Hr & Hj). rewrite Hri.
    pose proof (lookup_lt_Some _ _ _ Hr) as Hrlt.
    destruct (cmp (be_key e) target) eqn:Ec; cbn [andb].
    + exists it. split; [done|]. left. rewrite (entry_pos_eq target i); [done|lia| |].
      * intros k e' Hk' He'. rewrite <- (cmp_eq_r cmp _ _ (be_key e') Ec).
        eapply sorted_entries; [done|done|lia].
      * intros e' He'. congruence.
    + assert (key_lt target j) as Hjlt.
      { destruct (lookup_lt_is_Some_2 es j ltac:(lia)) as [ej Hej]. exists ej. split; [done|].
        eapply key_lt_before; [by exists e|exact Hj|done]. }
      replace (num - 1) with (Z.of_nat (length rs - 1)) by lia.
      destruct (bsearch_spec (S (Z.to_nat num)) target r (length rs - 1))
        as (r' & -> & Hr' & Hor); [lia|lia|right; eauto|].
      cbn [mbind option_bind]. rewrite andb_true_r. case_test.
      * eapply scan_until_spec; [by apply at_entry_ready|pose proof scan_fuel_bound; lia|].
        intros k e' Hk' He'. eapply (key_lt_before target i k); [by exists e|lia|done].
      * by apply seek_from_restart.
    + destruct (bsearch_spec (S (Z.to_nat num)) target 0 r) as (r' & Eb & Hr' & Hor);
        [lia|lia|by left|].
      change (Z.of_nat 0) with 0 in Eb. rewrite Eb. cbn [mbind option_bind].
      rewrite andb_false_r. by apply seek_from_restart.
  - cbn [andb]. replace (num - 1) with (Z.of_nat (length rs - 1)) by lia.
    destruct (bsearch_spec (S (Z.to_nat num)) target 0 (length rs - 1)) as (r' & Eb & Hr' & Hor);
      [lia|lia|by left|].
    change (Z.of_nat 0) with 0 in Eb. rewrite Eb. cbn [mbind option_bind].
    rewrite andb_false_r. by apply seek_from_restart.
Qed.
End Seek.
End Layout.

(** ** The block iterator is a cursor *)

Lemma layout_Block es rs :
  layout_ok es rs ->
  Block_new (layout_bytes es rs) =
    mkBlock (layout_bytes es rs) (zlen (layout_bytes es rs)) (off es (length es)) /\
  NumRestarts (layout_bytes es rs) = zlen rs.
Proof.
  intros Hlo. pose proof (layout_size es rs) as Hs. pose proof (restarts_bound es rs Hlo) as Hb.
  assert (NumRestarts (layout_bytes es rs) = zlen rs) as En.
  { unfold NumRestarts, layout_bytes. rewrite !app_assoc. set (x := _ ++ concat _).
    rewrite length_app, length_EncodeFixed32, Nat.add_sub, drop_app_length.
    rewrite <- (app_nil_r (EncodeFixed32 _)). apply Fixed32_roundtrip. lia. }
  split; [|done]. unfold Block_new. rewrite En, Hs.
  rewrite (proj2 (Z.ltb_ge _ _)) by lia. rewrite gtb_le.
  - f_equal. rewrite u32_small by lia. lia.
  - apply Z.div_le_lower_bound; lia.
Qed.

(** Standing at position [i] of a block with entries [es]. *)
Definition block_pos (es : list BEntry) (rs : list nat) (s : BlockIterator) (i : nat) : Prop :=
  exists it, s = DataIterator it /\ iter_at es rs it i.

Lemma block_cursor cmp `{!OrderLaws cmp} es rs :
  layout_ok es rs -> sorted_keys cmp (map be_key es) ->
  Cursor cmp (Block_Iterator cmp (Block_new (layout_bytes es rs))) (map be_pair es)
    (block_pos es rs).
Proof.
  intros Hlo Hs. destruct (layout_Block es rs Hlo) as [EB EN].
  assert (StronglySorted (fun e1 e2 => cmp (be_key e1) (be_key e2) = Lt) es) as Hs'.
  { unfold sorted_keys in Hs. clear -Hs. induction es as [|e es IH]; [constructor|].
    inversion Hs as [|? ? Hs1 Hs2]; subst. constructor; [auto|].
    by rewrite Forall_map in Hs2 || (apply Forall_fmap in Hs2). }
  assert (map fst (map be_pair es) = map be_key es) as Ek by by rewrite map_map.
  split; rewrite ?EB, ?length_map; unfold Block_Iterator;
    cbn [block_data restart_offset_ it_Valid it_key it_value it_status it_SeekToFirst
         it_SeekToLast it_Seek it_Next it_Prev IState]; rewrite ?EN.
  - intros s i (it & -> & H). destruct H as [[? _]|[? _]]; lia.
  - intros s i (it & -> & H). pose proof (iter_at_valid es rs it i H) as Hv.
    destruct (Block_Valid _ it), (i <? length es)%nat eqn:E; try done;
      [apply Nat.ltb_ge in E|apply Nat.ltb_lt in E]; intuition (lia || congruence).
  - intros s i kv (it & -> & H) Hkv. rewrite list_lookup_fmap in Hkv.
    destruct (es !! i) as [e|] eqn:E; [|done]. injection Hkv as <-.
    pose proof (lookup_lt_Some _ _ _ E). destruct H as [[_ H]|[-> _]]; [|lia].
    destruct (ae_entry _ _ _ _ H) as (e' & He' & Hk & Hv). assert (e' = e) as -> by congruence.
    cbn [be_pair fst snd]. unfold Block_key. rewrite Hk. done.
  - intros s i (it & -> & H). by apply iter_at_status in H.
  - intros s i (it & -> & H). eexists. split; [done|]. eexists. split; [done|].
    apply Block_SeekToFirst_at; [done|]. by apply iter_at_status in H.
  - intros s i (it & -> & H).
    destruct (Block_SeekToLast_at es rs Hlo it) as (it' & E & H'); [by apply iter_at_status in H|].
    rewrite E. eexists. split; [done|]. by exists it'.
  - intros s i t (it & -> & H).
    destruct (Block_Seek_at es rs Hlo cmp Hs' it i t H) as (it' & E & H').
    rewrite E. eexists. split; [done|]. exists it'. split; [done|]. by rewrite Ek.
  - intros s i (it & -> & H) Hi. eexists. split; [done|]. eexists. split; [done|].
    by apply Block_Next_at.
  - intros s i (it & -> & H) Hi.
    destruct (Block_Prev_at es rs Hlo it i H Hi) as (it' & E & H').
    rewrite E. eexists. split; [done|]. by exists it'.
Qed.

(** ** Properties *)

(** A block of the pairs [kvs]. *)
Definition build_block (interval : Z) (kvs : list (bytes * bytes)) : bytes :=
  snd (BlockBuilder_Finish (BlockBuilder_AddAll interval BlockBuilder_new kvs)).

(** What the builder makes of sorted pairs: a block with a layout. *)
Lemma build_block_layout interval kvs :
  1 <= interval ->
  CurrentSizeEstimate (BlockBuilder_AddAll interval BlockBuilder_new kvs) < 2 ^ 32 ->
  Forall (fun kv => zlen (fst kv) < 2 ^ 64 /\ zlen (snd kv) < 2 ^ 64) kvs ->
  exists es rs, build_block interval kvs = layout_bytes es rs /\ layout_ok es rs /\
    map be_pair es = kvs.
Proof.
  intros Hi Hsz Hkv.
  destruct (BlockBuilder_AddAll_inv interval BlockBuilder_new [] [0%nat] kvs)
    as (es & rs & E & H); [apply BlockBuilder_new_inv|done| |done|].
  { unfold CurrentSizeEstimate in Hsz. lia. }
  destruct (BlockBuilder_Finish_layout _ _ _ H Hsz) as [E' Hlo].
  exists es, rs. done.
Qed.

(** A fresh iterator is past the end. *)
Lemma block_new_pos es rs :
  layout_ok es rs -> block_pos es rs (Block_NewIterator (Block_new (layout_bytes es rs))) (length es).
Proof.
  intros Hlo. destruct (layout_Block es rs Hlo) as [-> EN].
  unfold Block_NewIterator. cbn [block_size block_data restart_offset_]. rewrite EN.
  pose proof (num_pos es rs Hlo). pose proof (restarts_bound es rs Hlo).
  rewrite layout_size. rewrite (proj2 (Z.ltb_ge _ _)) by lia.
  rewrite (proj2 (Z.eqb_neq _ _)) by lia.
  eexists. split; [done|]. right. done.
Qed.

(** The block of sorted pairs opens as a cursor over them. *)
Lemma build_block_cursor cmp `{!OrderLaws cmp} (interval : Z) (kvs : list (bytes * bytes)) :
  1 <= interval -> sorted_keys cmp (map fst kvs) ->
  CurrentSizeEstimate (BlockBuilder_AddAll interval BlockBuilder_new kvs) < 2 ^ 32 ->
  Forall (fun kv => zlen (fst kv) < 2 ^ 64 /\ zlen (snd kv) < 2 ^ 64) kvs ->
  let b := Block_new (build_block interval kvs) in
  exists pos, Cursor cmp (Block_Iterator cmp b) kvs pos /\ pos (Block_NewIterator b) (length kvs).
Proof.
  intros Hi Hs Hsz Hkv b.
  destruct (build_block_layout interval kvs Hi Hsz Hkv) as (es & rs & E & Hlo & <-).
  exists (block_pos es rs). unfold b. rewrite E. rewrite map_map in Hs.
  split; [by apply block_cursor|]. rewrite length_map. by apply block_new_pos.
Qed.

(** The same with the position as a relation that depends on the pairs alone,
    and a bound on their sizes. *)
Definition built_pos (interval : Z) (kvs : list (bytes * bytes)) (s : BlockIterator) (i : nat) : Prop :=
  exists es rs, (build_block interval kvs = layout_bytes es rs /\ layout_ok es rs /\
    map be_pair es = kvs) /\ block_pos es rs s i.

Lemma built_cursor cmp `{!OrderLaws cmp} interval kvs :
  1 <= interval -> sorted_keys cmp (map fst kvs) -> pairs_size kvs + 8 < 2 ^ 32 ->
  let b := Block_new (build_block interval kvs) in
  Cursor cmp (Block_Iterator cmp b) kvs (built_pos interval kvs) /\
  built_pos interval kvs (Block_NewIterator b) (length kvs).
Proof.
  intros Hi Hs Hsz b. split.
  - assert (forall es rs, build_block interval kvs = layout_bytes es rs -> layout_ok es rs ->
      map be_pair es = kvs -> Cursor cmp (Block_Iterator cmp b) kvs (block_pos es rs)) as HC.
    { intros es rs E Hlo Ep. unfold b. rewrite E. rewrite <- Ep in Hs |- *. rewrite map_map in Hs.
      by apply block_cursor. }
    split.
    + intros s i (es & rs & (E & Hlo & Ep) & H). eapply (cur_bound (CursorOn:=HC es rs E Hlo Ep)), H.
    + intros s i (es & rs & (E & Hlo & Ep) & H). eapply (cur_valid (CursorOn:=HC es rs E Hlo Ep)), H.
    + intros s i kv (es & rs & (E & Hlo & Ep) & H). eapply (cur_entry (CursorOn:=HC es rs E Hlo Ep)), H.
    + intros s i (es & rs & (E & Hlo & Ep) & H). eapply (cur_status (CursorOn:=HC es rs E Hlo Ep)), H.
    + intros s i (es & rs & (E & Hlo & Ep) & H).
      destruct (cur_first (CursorOn:=HC es rs E Hlo Ep) s i H) as (s' & Es & H'). exists s'. split; [done|]. by exists es, rs.
    + intros s i (es & rs & (E & Hlo & Ep) & H).
      destruct (cur_last (CursorOn:=HC es rs E Hlo Ep) s i H) as (s' & Es & H'). exists s'. split; [done|]. by exists es, rs.
    + intros s i t (es & rs & (E & Hlo & Ep) & H).
      destruct (cur_seek (C:=HC es rs E Hlo Ep) s i t H) as (s' & Es & H'). exists s'. split; [done|]. by exists es, rs.
    + intros s i (es & rs & (E & Hlo & Ep) & H) Hlt.
      destruct (cur_next (CursorOn:=HC es rs E Hlo Ep) s i H Hlt) as (s' & Es & H'). exists s'. split; [done|]. by exists es, rs.
    + intros s i (es & rs & (E & Hlo & Ep) & H) Hlt.
      destruct (cur_prev (CursorOn:=HC es rs E Hlo Ep) s i H Hlt) as (s' & Es & H'). exists s'. split; [done|]. by exists es, rs.
  - pose proof (AddAll_size interval BlockBuilder_new kvs) as Hsize.
    change (CurrentSizeEstimate BlockBuilder_new) with 8 in Hsize.
    destruct (build_block_layout interval kvs Hi ltac:(lia)) as (es & rs & E & Hlo & Ep).
    { apply list.Forall_forall. intros kv Hkv. pose proof (pairs_size_member kvs kv Hkv). lia. }
    exists es, rs. split; [done|]. unfold b. rewrite E, <- Ep, length_map. by apply block_new_pos.
Qed.

(** A block that was built is charged with its length. *)
Lemma built_block_size interval kvs : 1 <= interval -> pairs_size kvs + 8 < 2 ^ 32 -> 1 <= block_size (Block_new (build_block interval kvs)) < 2 ^ 32.
Proof.
  intros Hi Hsz. pose proof (AddAll_size interval BlockBuilder_new kvs) as Hsize. change (CurrentSizeEstimate BlockBuilder_new) with 8 in Hsize.
  destruct (build_block_layout interval kvs Hi ltac:(lia)) as (es & rs & E & Hlo & Ep).
  { apply list.Forall_forall. intros kv Hkv. pose proof (pairs_size_member kvs kv Hkv). lia. }
  rewrite E. destruct (layout_Block es rs Hlo) as [-> _]. cbn [block_size]. pose proof (lo_size _ _ Hlo). pose proof (layout_size es rs). pose proof (restarts_bound es rs Hlo). lia.
Qed.

(** C24: A block returns what was put into it, however its iterator is moved.
    For pairs in increasing key order and any restart interval, the block the
    builder finishes opens without error, and its iterator is a cursor over
    exactly these pairs: [SeekToFirst], [SeekToLast], [Seek], [Next] and [Prev]
    never report corruption, their loops end, and they stand where the order of
    the keys says, with the original key and value. *)
Theorem block_iterator_refines cmp `{!OrderLaws cmp} (interval : Z) (kvs : list (bytes * bytes)) :
  1 <= interval -> sorted_keys cmp (map fst kvs) ->
  CurrentSizeEstimate (BlockBuilder_AddAll interval BlockBuilder_new kvs) < 2 ^ 32 ->
  Forall (fun kv => zlen (fst kv) < 2 ^ 64 /\ zlen (snd kv) < 2 ^ 64) kvs ->
  let b := Block_new (build_block interval kvs) in
  exists pos, Cursor cmp (Block_Iterator cmp b) kvs pos /\ pos (Block_NewIterator b) (length kvs).
Proof. by apply build_block_cursor. Qed.

(** Five pairs with shared prefixes and two restart points. *)
Definition sample_pairs : list (bytes * bytes) :=
  [(str:"app", str:"1"); (str:"apple", str:"2"); (str:"applet", []); (str:"b", str:"3");
   (str:"ba", str:"4")].

Lemma block_iterator_refines_witness :
  let b := Block_new (build_block 3 sample_pairs) in
  exists s1 s2, it_Seek (Block_Iterator Slice_compare b) (Block_NewIterator b) (str:"applf") = Some s1 /\
    it_key (Block_Iterator Slice_compare b) s1 = str:"b" /\
    it_Prev (Block_Iterator Slice_compare b) s1 = Some s2 /\
    it_key (Block_Iterator Slice_compare b) s2 = str:"applet".
Proof.
  destruct (block_iterator_refines Slice_compare 3 sample_pairs ltac:(lia)
    ltac:(repeat constructor) ltac:(vm_compute; reflexivity)
    ltac:(repeat constructor; vm_compute; reflexivity)) as (pos & C & H).
  destruct (cur_seek (C:=C) _ _ (str:"applf") H) as (s1 & E1 & H1).
  destruct (cur_prev (CursorOn:=C) _ _ H1) as (s2 & E2 & H2);
    [vm_compute; lia|].
  exists s1, s2. split; [exact E1|].
  split; [exact (proj1 (cur_entry (CursorOn:=C) _ _ _ H1 eq_refl))|].
  split; [exact E2|exact (proj1 (cur_entry (CursorOn:=C) _ _ _ H2 eq_refl))].
Defined.

(** The lengths of a corrupt entry are added modulo [2 ^ 32] before they are
    compared with what is left of the block: an entry that claims a key of
    4294967295 bytes is accepted at the very end of a block. *)
Lemma DecodeEntry_length_wraps :
  DecodeEntry [Byte.x00; Byte.xff; Byte.xff; Byte.xff; Byte.xff; Byte.x0f; Byte.x01] =
  Some (0, 4294967295, 1, []).
Proof. vm_compute. reflexivity. Qed.
