(* ===== verification/DbIter.v ===== *)
(** * The user's iterator

    src/db/db_iter.cc: [DBIter] turns an iterator over internal keys, which
    shows every version of every user key, into one over the user keys that are
    visible at a sequence number.  It skips what is too new, hidden by a newer
    entry or deleted; when it has skipped [max_sequential_skip] entries of one
    user key it seeks past the rest instead.

    The internal iterator is a parameter.  The main theorem: over a cursor on
    the internal entries, [DBIter] is a cursor on their visible part, in both
    directions and for every value of [max_sequential_skip]. *)

From stdpp Require Import sets sorting.
From S2P Require Import Prelude Slice Coding Comparator DbFormat WriteBatch Random ReadSampling Iterator SkipList MemTable Entries View BlockBuilder Block.

Inductive Direction := kForward | kReverse.

Section Operations.
Context (I : IteratorOps) (user_comparator_ : Comparator) (sequence_ max_sequential_skip_ : Z).

(** A bound on the rounds of the loops: the number of internal entries. *)
Context (rounds : nat).

(** [class DBIter]: the fields that change. *)
Record DBIter := mkDBIter {
  iter_ : IState I; status_ : Status; saved_key_ : bytes; saved_value_ : bytes;
  direction_ : Direction; valid_ : bool; sampling_ : Sampling }.

Definition with_iter (s : DBIter) (iter : IState I) : DBIter :=
  mkDBIter iter (status_ s) (saved_key_ s) (saved_value_ s) (direction_ s) (valid_ s) (sampling_ s).
Definition with_status (s : DBIter) (st : Status) : DBIter :=
  mkDBIter (iter_ s) st (saved_key_ s) (saved_value_ s) (direction_ s) (valid_ s) (sampling_ s).
Definition with_saved (s : DBIter) (k v : bytes) : DBIter :=
  mkDBIter (iter_ s) (status_ s) k v (direction_ s) (valid_ s) (sampling_ s).
Definition with_direction (s : DBIter) (d : Direction) : DBIter :=
  mkDBIter (iter_ s) (status_ s) (saved_key_ s) (saved_value_ s) d (valid_ s) (sampling_ s).
Definition with_valid (s : DBIter) (b : bool) : DBIter :=
  mkDBIter (iter_ s) (status_ s) (saved_key_ s) (saved_value_ s) (direction_ s) b (sampling_ s).
Definition with_sampling (s : DBIter) (sp : Sampling) : DBIter :=
  mkDBIter (iter_ s) (status_ s) (saved_key_ s) (saved_value_ s) (direction_ s) (valid_ s) sp.

(** [SaveKey] and [ClearSaveValue] *)
Definition SaveKey (s : DBIter) (k : bytes) : DBIter := with_saved s k (saved_value_ s).
Definition ClearSaveValue (s : DBIter) : DBIter := with_saved s (saved_key_ s) [].

Definition ucmp_le (a b : bytes) : bool := match Compare user_comparator_ a b with Gt => false | _ => true end.
Definition ucmp_lt (a b : bytes) : bool := match Compare user_comparator_ a b with Lt => true | _ => false end.
Definition ucmp_eq (a b : bytes) : bool := match Compare user_comparator_ a b with Eq => true | _ => false end.

(** [DBIter::status] *)
Definition DBIter_status (s : DBIter) : Status := if ok (status_ s) then it_status I (iter_ s) else status_ s.

(** [DBIter::ParseKey] *)
Definition ParseKey (s : DBIter) : option (DBIter * option ParsedInternalKey) :=
  let k := it_key I (iter_ s) in
  sp ← sample_read (sampling_ s) k (zlen k + zlen (it_value I (iter_ s)));
  let s := with_sampling s sp in
  match ParseInternalKey k with
  | None => Some (with_status s (Corruption (str:"corrupted internal key in DBIter")), None)
  | Some ikey => Some (s, Some ikey)
  end.

(** ** Forward *)

(** The local variables of [FindNextUserEntry]. *)
Record NextLocals := mkNextLocals {
  skipping : bool; counted_key : bytes; skipped : Z; has_counted_key : bool;
  sought_snapshot : bool; sought_past_key : bool }.

(** A new user key starts a new count. *)
Definition count_key (l : NextLocals) (ukey : bytes) : NextLocals :=
  if negb (max_sequential_skip_ =? 0) && (negb (has_counted_key l) || negb (ucmp_eq ukey (counted_key l)))
  then mkNextLocals (skipping l) ukey 0 true false false else l.

(** The [switch] over a visible entry: the entry is yielded, or skipped. *)
Definition next_switch (s : DBIter) (l : NextLocals) (ikey : ParsedInternalKey) : DBIter * NextLocals * bool :=
  if sequence ikey <=? sequence_ then
    match type ikey with
    | kTypeDeletion =>
        (SaveKey s (user_key ikey),
         mkNextLocals true (counted_key l) (skipped l) (has_counted_key l) (sought_snapshot l) (sought_past_key l), false)
    | kTypeValue => (s, l, negb (skipping l && ucmp_le (user_key ikey) (saved_key_ s)))
    end
  else (s, l, false).

(** Whether to seek instead of stepping, and where to. *)
Definition next_seek (s : DBIter) (l : NextLocals) (ikey : ParsedInternalKey) : NextLocals * option bytes :=
  if max_sequential_skip_ =? 0 then (l, None)
  else
    let skipped := if skipped l <? max_sequential_skip_ then skipped l + 1 else skipped l in
    let skip_current_key := skipping l && ucmp_le (user_key ikey) (saved_key_ s) in
    let sought := if skip_current_key then sought_past_key l else sought_snapshot l in
    if (skipped >=? max_sequential_skip_) && negb sought then
      let l' skipped :=
        if skip_current_key
        then mkNextLocals (skipping l) (counted_key l) skipped (has_counted_key l) (sought_snapshot l) true
        else mkNextLocals (skipping l) (counted_key l) skipped (has_counted_key l) true (sought_past_key l) in
      let seek_target := AppendInternalKey [] (mkParsed (counted_key l) (if skip_current_key then 0 else sequence_)
        (if skip_current_key then kTypeDeletion else kValueTypeForSeek)) in
      match InternalKeyComparator.Compare user_comparator_ (it_key I (iter_ s)) seek_target with
      | Lt => (l' 0, Some seek_target)
      | _ => (l' skipped, None)
      end
    else (mkNextLocals (skipping l) (counted_key l) skipped (has_counted_key l) (sought_snapshot l) (sought_past_key l), None).

(** The loop of [FindNextUserEntry]; [skip] is [saved_key_]. *)
Fixpoint find_next (fuel : nat) (s : DBIter) (l : NextLocals) : option DBIter :=
  match fuel with
  | O => None
  | S fuel =>
      '(s, parsed) ← ParseKey s;
      let '(s, l, found, target) :=
        match parsed with
        | Some ikey =>
            let '(s, l, found) := next_switch s (count_key l (user_key ikey)) ikey in
            let '(l, target) := next_seek s l ikey in (s, l, found, target)
        | None => (s, mkNextLocals (skipping l) (counted_key l) (skipped l) false (sought_snapshot l) (sought_past_key l),
                   false, None)
        end in
      if found then Some (with_valid (SaveKey s []) true)
      else
        iter ← (match target with Some t => it_Seek I (iter_ s) t | None => it_Next I (iter_ s) end);
        let s := with_iter s iter in
        if it_Valid I iter then find_next fuel s l else Some (with_valid (SaveKey s []) false)
  end.

(** [DBIter::FindNextUserEntry] *)
Definition FindNextUserEntry (s : DBIter) (skipping : bool) : option DBIter :=
  find_next rounds s (mkNextLocals skipping [] 0 false false false).

(** [DBIter::Next] *)
Definition DBIter_Next (s : DBIter) : option DBIter :=
  if negb (valid_ s) then None
  else
    s ← (match direction_ s with
         | kReverse =>
             let s := with_direction s kForward in
             iter ← (if negb (it_Valid I (iter_ s)) then it_SeekToFirst I (iter_ s) else it_Next I (iter_ s));
             Some (with_iter s iter)
         | kForward =>
             let s := SaveKey s (ExtractUserKey (it_key I (iter_ s))) in
             iter ← it_Next I (iter_ s); Some (with_iter s iter)
         end);
    if negb (it_Valid I (iter_ s)) then Some (SaveKey (with_valid s false) [])
    else FindNextUserEntry s true.

(** ** Backward *)

(** [DBIter::SeekBeforeUserKey] *)
Definition SeekBeforeUserKey (s : DBIter) (ukey : bytes) : option DBIter :=
  let target := AppendInternalKey [] (mkParsed ukey kMaxSequenceNumber kValueTypeForSeek) in
  iter ← it_Seek I (iter_ s) target;
  iter ← (if it_Valid I iter then it_Prev I iter
          else if ok (it_status I iter) then it_SeekToLast I iter else Some iter);
  Some (with_iter s iter).

(** [DBIter::FindValueForCurrentKeyUsingSeek] *)
Definition FindValueForCurrentKeyUsingSeek (s : DBIter) (ukey : bytes) : option (DBIter * bool) :=
  let target := AppendInternalKey [] (mkParsed ukey sequence_ kValueTypeForSeek) in
  iter ← it_Seek I (iter_ s) target;
  let s := with_iter s iter in
  '(s, found) ←
    (if it_Valid I iter then
       '(s, parsed) ← ParseKey s;
       Some match parsed with
            | Some ikey =>
                if (sequence ikey <=? sequence_) && ucmp_eq (user_key ikey) ukey &&
                   match type ikey with kTypeValue => true | kTypeDeletion => false end
                then (with_saved s (user_key ikey) (it_value I (iter_ s)), true) else (s, false)
            | None => (s, false)
            end
     else Some (s, false));
  let s := if negb (ok (it_status I (iter_ s))) && ok (status_ s) then with_status s (it_status I (iter_ s)) else s in
  if negb (ok (status_ s)) then Some (s, false)
  else
    let s := if negb found then with_saved s [] [] else s in
    s ← SeekBeforeUserKey s ukey; Some (s, found).

(** The local variables of [FindPrevUserEntry]. *)
Record PrevLocals := mkPrevLocals {
  value_type : ValueType; p_counted_key : bytes; p_skipped : Z; p_has_counted_key : bool }.

Definition is_value (t : ValueType) : bool := match t with kTypeValue => true | kTypeDeletion => false end.

(** The entry is of an earlier user key than the value saved. *)
Definition before_saved (s : DBIter) (vt : ValueType) (ukey : bytes) : bool := is_value vt && ucmp_lt ukey (saved_key_ s).

(** A visible entry replaces what was saved; [None] leaves the loop. *)
Definition prev_visible (s : DBIter) (l : PrevLocals) (ikey : ParsedInternalKey) : option (DBIter * PrevLocals) :=
  if sequence ikey <=? sequence_ then
    if before_saved s (value_type l) (user_key ikey) then None
    else
      let l := mkPrevLocals (type ikey) (p_counted_key l) (p_skipped l) (p_has_counted_key l) in
      match type ikey with
      | kTypeDeletion => Some (with_saved s [] [], l)
      | kTypeValue => Some (with_saved s (ExtractUserKey (it_key I (iter_ s))) (it_value I (iter_ s)), l)
      end
  else Some (s, l).

Definition p_count_key (l : PrevLocals) (ukey : bytes) : PrevLocals :=
  let l := if negb (p_has_counted_key l) || negb (ucmp_eq ukey (p_counted_key l))
           then mkPrevLocals (value_type l) ukey 0 true else l in
  mkPrevLocals (value_type l) (p_counted_key l)
    (if p_skipped l <? max_sequential_skip_ then p_skipped l + 1 else p_skipped l) (p_has_counted_key l).

(** The loop of [FindPrevUserEntry]: the final [value_type]. *)
Fixpoint find_prev (fuel : nat) (s : DBIter) (l : PrevLocals) : option (DBIter * ValueType) :=
  match fuel with
  | O => None
  | S fuel =>
      let step_back (s : DBIter) (l : PrevLocals) : option (DBIter * ValueType) :=
        iter ← it_Prev I (iter_ s);
        let s := with_iter s iter in
        if it_Valid I iter then find_prev fuel s l else Some (s, value_type l) in
      let visible (s : DBIter) (l : PrevLocals) (ikey : ParsedInternalKey) :=
        match prev_visible s l ikey with
        | None => Some (s, value_type l)
        | Some (s, l) => step_back s l
        end in
      '(s, parsed) ← ParseKey s;
      match parsed with
      | None => step_back s (mkPrevLocals (value_type l) (p_counted_key l) (p_skipped l) false)
      | Some ikey =>
          if max_sequential_skip_ =? 0 then visible s l ikey
          else if before_saved s (value_type l) (user_key ikey) then Some (s, value_type l)
          else
            let l := p_count_key l (user_key ikey) in
            if p_skipped l >=? max_sequential_skip_ then
              r ← FindValueForCurrentKeyUsingSeek s (p_counted_key l);
              let '(s, found) := (r : DBIter * bool) in
              if negb (ok (DBIter_status s)) then Some (s, kTypeDeletion)
              else if found then Some (s, kTypeValue)
              else if it_Valid I (iter_ s)
                   then find_prev fuel s (mkPrevLocals kTypeDeletion (p_counted_key l) (p_skipped l) false)
                   else Some (s, kTypeDeletion)
            else visible s l ikey
      end
  end.

(** [DBIter::FindPrevUserEntry] *)
Definition FindPrevUserEntry (s : DBIter) : option DBIter :=
  '(s, vt) ← (if it_Valid I (iter_ s) then find_prev rounds s (mkPrevLocals kTypeDeletion [] 0 false)
              else Some (s, kTypeDeletion));
  Some match vt with
       | kTypeDeletion => with_direction (with_saved (with_valid s false) [] []) kForward
       | kTypeValue => with_valid s true
       end.

(** The loop of [DBIter::Prev] that leaves the entries of the current user key;
    [false] when the call returns there. *)
Definition prev_at_start (s : DBIter) : DBIter := with_saved (with_valid s false) [] [].
Fixpoint leave_key (fuel : nat) (s : DBIter) (skipped : Z) : option (DBIter * bool) :=
  match fuel with
  | O => None
  | S fuel =>
      iter ← it_Prev I (iter_ s);
      let s := with_iter s iter in
      if negb (it_Valid I iter) then Some (prev_at_start s, false)
      else if ucmp_lt (ExtractUserKey (it_key I iter)) (saved_key_ s) then Some (s, true)
      else if negb (max_sequential_skip_ =? 0) && (skipped + 1 >=? max_sequential_skip_) then
        s ← SeekBeforeUserKey s (saved_key_ s);
        if negb (it_Valid I (iter_ s)) then Some (prev_at_start s, false) else Some (s, true)
      else leave_key fuel s (skipped + 1)
  end.

(** [DBIter::Prev] *)
Definition DBIter_Prev (s : DBIter) : option DBIter :=
  if negb (valid_ s) then None
  else
    match direction_ s with
    | kReverse => FindPrevUserEntry s
    | kForward =>
        r ← leave_key rounds (SaveKey s (ExtractUserKey (it_key I (iter_ s)))) 0;
        let '(s, go) := (r : DBIter * bool) in
        if go then FindPrevUserEntry (with_direction s kReverse) else Some s
    end.

(** ** Seeking *)

(** [DBIter::Seek] *)
Definition DBIter_Seek (s : DBIter) (target : bytes) : option DBIter :=
  let s := ClearSaveValue (with_direction s kForward) in
  let s := SaveKey s (AppendInternalKey [] (mkParsed target sequence_ kValueTypeForSeek)) in
  iter ← it_Seek I (iter_ s) (saved_key_ s);
  let s := with_iter s iter in
  if it_Valid I iter then FindNextUserEntry s false else Some (with_valid s false).

(** [DBIter::SeekToFirst] *)
Definition DBIter_SeekToFirst (s : DBIter) : option DBIter :=
  let s := ClearSaveValue (with_direction s kForward) in
  iter ← it_SeekToFirst I (iter_ s);
  let s := with_iter s iter in
  if it_Valid I iter then FindNextUserEntry s false else Some (with_valid s false).

(** [DBIter::SeekToLast] *)
Definition DBIter_SeekToLast (s : DBIter) : option DBIter :=
  let s := ClearSaveValue (with_direction s kReverse) in
  iter ← it_SeekToLast I (iter_ s);
  FindPrevUserEntry (with_iter s iter).

(** [DBIter::key] and [DBIter::value] *)
Definition DBIter_key (s : DBIter) : bytes :=
  match direction_ s with kForward => ExtractUserKey (it_key I (iter_ s)) | kReverse => saved_key_ s end.
Definition DBIter_value (s : DBIter) : bytes :=
  match direction_ s with kForward => it_value I (iter_ s) | kReverse => saved_value_ s end.

(** [NewDBIterator] *)
Definition NewDBIterator (internal_iter : IState I) (seed : Z) : DBIter :=
  mkDBIter internal_iter Status_OK [] [] kForward false (Sampling_new seed).

Definition DBIterOps : IteratorOps :=
  mkIteratorOps DBIter valid_ DBIter_key DBIter_value DBIter_status DBIter_SeekToFirst DBIter_SeekToLast DBIter_Seek
    DBIter_Next DBIter_Prev.
End Operations.

(** ** Proofs *)

Section Correct.
Context (ucmp : Comparator) `{!ComparatorLaws ucmp} (s max_skip : Z).
Abbreviation ucompare := (Compare ucmp).
Abbreviation icompare := (InternalKeyComparator.Compare ucmp).
Context (Hs : 0 <= s <= kMaxSequenceNumber) (Hmax : 0 <= max_skip).
Context (es : list Entry) (Hsorted : es_sorted ucmp es) (Hok : Forall entry_ok es).
Context (okt : bytes -> Prop).
Context (I : IteratorOps) (ipos : IState I -> nat -> Prop) `{!CursorOn okt icompare I (map entry_kv es) ipos}.
(** The internal iterator can seek to the keys that stand in it. *)
Definition stored_key (u : bytes) : Prop := exists e, e ∈ es /\ ucompare u (e_key e) = Eq.
Context (Hokt : forall u q t, stored_key u -> okt (InternalKey u q t)).
Context (rounds : nat) (Hrounds : (length es < rounds)%nat).

Abbreviation n := (length es).
Abbreviation DBIter := (DBIter I).
Abbreviation ParseKey := (ParseKey I).
Abbreviation view_from := (view_from ucmp s).
Abbreviation invisible := (invisible s).
Abbreviation keys := (map entry_ikey es).
Implicit Types (st : DBIter) (e : Entry) (i p q b g : nat).

(** *** The internal cursor *)

Lemma ipos_valid it i : ipos it i -> it_Valid I it = (i <? n)%nat.
Proof. intros H. rewrite (cur_valid it i H). by rewrite length_map. Qed.

Lemma ipos_entry it i e : ipos it i -> es !! i = Some e -> it_key I it = entry_ikey e /\ it_value I it = e_value e.
Proof. intros H E. apply (cur_entry it i (entry_kv e) H). change (map entry_kv es) with (entry_kv <$> es). by rewrite list_lookup_fmap, E. Qed.

Lemma ipos_next it i : ipos it i -> (i < n)%nat -> exists it', it_Next I it = Some it' /\ ipos it' (S i).
Proof. intros H Hi. apply cur_next; [done|]. by rewrite length_map. Qed.

Lemma ipos_prev it i : ipos it i -> (i < n)%nat ->
  exists it', it_Prev I it = Some it' /\ ipos it' (match i with O => n | S i' => i' end).
Proof. intros H Hi. destruct (cur_prev it i H) as (it' & E & H'); [by rewrite length_map|]. exists it'. by rewrite length_map in H'. Qed.

Lemma stored_at i e u : es !! i = Some e -> ucompare (e_key e) u = Eq -> stored_key u.
Proof. intros H E. exists e. split; [by eapply list_elem_of_lookup_2|by apply (cmp_eq_sym ucompare)]. Qed.

Lemma ipos_seek it i t : ipos it i -> okt t -> exists it', it_Seek I it t = Some it' /\ ipos it' (seek_pos icompare t keys).
Proof. intros H Ht. destruct (cur_seek_on it i t H Ht) as (it' & E & H'). exists it'. by rewrite entry_kv_keys in H'. Qed.

Lemma ipos_last it i : ipos it i -> exists it', it_SeekToLast I it = Some it' /\ ipos it' (n - 1).
Proof. intros H. destruct (cur_last it i H) as (it' & E & H'). exists it'. by rewrite length_map in H'. Qed.

(** *** Entries in order *)

Lemma entry_at_ok i e : es !! i = Some e -> entry_ok e.
Proof. intros E. apply (proj1 (list.Forall_forall _ _) Hok). by eapply list_elem_of_lookup_2. Qed.

Lemma sorted_at i j x y : es !! i = Some x -> es !! j = Some y -> (i < j)%nat -> icompare (entry_ikey x) (entry_ikey y) = Lt.
Proof. intros Hi Hj Hij. by apply (sorted_lookup _ es i j x y Hsorted). Qed.

Lemma key_at i j x y : es !! i = Some x -> es !! j = Some y -> (i <= j)%nat -> ucompare (e_key x) (e_key y) <> Gt.
Proof.
  intros Hi Hj Hij. destruct (decide (i = j)) as [->|Hne].
  - assert (x = y) as -> by congruence. by rewrite (cmp_refl ucompare).
  - pose proof (sorted_at i j x y Hi Hj ltac:(lia)) as H%(icmp_lt_user ucmp). by rewrite !ExtractUserKey_entry in H.
Qed.

Lemma keys_lookup i x : es !! i = Some x -> keys !! i = Some (entry_ikey x).
Proof. intros E. change keys with (entry_ikey <$> es). by rewrite list_lookup_fmap, E. Qed.

Lemma seek_bound t : (seek_pos icompare t keys <= n)%nat.
Proof. etransitivity; [apply seek_pos_le|]. by rewrite length_map. Qed.

Lemma seek_before t i x : (i < seek_pos icompare t keys)%nat -> es !! i = Some x -> icompare (entry_ikey x) t = Lt.
Proof. intros Hi Hx. eapply seek_pos_before; [exact Hi|]. by apply keys_lookup. Qed.

Lemma seek_after t i x : (seek_pos icompare t keys <= i)%nat -> es !! i = Some x -> icompare (entry_ikey x) t <> Lt.
Proof.
  intros Hi Hx Hlt. pose proof (lookup_lt_Some _ _ _ Hx) as Hin.
  destruct (lookup_lt_is_Some_2 es (seek_pos icompare t keys)) as [y Hy]; [lia|].
  apply (seek_pos_at icompare t keys (entry_ikey y)); [by apply keys_lookup|].
  destruct (decide (seek_pos icompare t keys = i)) as [E|Hne].
  - rewrite E in Hy. congruence.
  - eapply (cmp_lt_trans icompare); [|exact Hlt]. apply (sorted_at (seek_pos icompare t keys) i); [done|done|lia].
Qed.

(** *** Parsing *)

Definition good st : Prop := status_ I st = Status_OK /\ sampling_ok (sampling_ I st).

Lemma ParseKey_spec st i e :
  good st -> ipos (iter_ I st) i -> es !! i = Some e ->
  exists sp, ParseKey st = Some (with_sampling I st sp, Some (mkParsed (e_key e) (e_seq e) (e_type e))) /\ sampling_ok sp.
Proof.
  intros [Hst Hsp] Hi He. destruct (ipos_entry _ _ _ Hi He) as [Ek Ev]. pose proof (entry_at_ok i e He) as (Hseq & Hk & Hv).
  unfold DbIter.ParseKey. rewrite Ek, Ev.
  destruct (sample_read_total (sampling_ I st) (entry_ikey e) (zlen (entry_ikey e) + zlen (e_value e)) Hsp) as (sp & E & Hsp').
  { unfold entry_ikey. rewrite length_InternalKey. change (2 ^ 32) with 4294967296 in *.
    change (2 ^ 62 - 2 ^ 21) with 4611686018425290752. lia. }
  rewrite E. cbn [mbind option_bind]. rewrite (ParseInternalKey_entry e Hseq). by exists sp.
Qed.
(** *** Forward *)

Definition hide_of st (l : NextLocals) : option bytes := if skipping l then Some (saved_key_ I st) else None.

(** The visible entries from position [i] on are not below the hiding key ... *)
Definition vis_ge (h : option bytes) i : Prop :=
  match h with
  | Some u => forall j y, (i <= j)%nat -> es !! j = Some y -> e_seq y <= s -> ucompare u (e_key y) <> Gt
  | None => True
  end.

(** ... and those before it are hidden, or of smaller user keys. *)
Definition past (h : option bytes) i : Prop :=
  forall j x, (j < i)%nat -> es !! j = Some x -> e_seq x <= s ->
    match h with
    | Some u => ucompare (e_key x) u <> Gt
    | None => forall k y, (i <= k)%nat -> es !! k = Some y -> ucompare (e_key x) (e_key y) = Lt
    end.

(** The iterator stands at entry [e], which is shown. *)
Definition stands_at st i e : Prop :=
  ipos (iter_ I st) i /\ es !! i = Some e /\ e_seq e <= s /\ e_type e = kTypeValue /\
  forall j x, (j < i)%nat -> es !! j = Some x -> e_seq x <= s -> ucompare (e_key x) (e_key e) = Lt.

Definition next_post st (v : list (bytes * bytes)) : Prop :=
  match v with
  | [] => valid_ I st = false /\ exists i, ipos (iter_ I st) i
  | kv :: rest => valid_ I st = true /\ exists i e, stands_at st i e /\ kv = (e_key e, e_value e) /\
      rest = view_from (Some (e_key e)) (drop (S i) es)
  end.

Abbreviation count_key := (count_key ucmp max_skip).
Abbreviation next_switch := (next_switch I ucmp s).
Abbreviation next_seek := (next_seek I ucmp s max_skip).

Lemma count_key_spec l u :
  skipping (count_key l u) = skipping l /\ (max_skip <> 0 -> ucompare u (counted_key (count_key l u)) = Eq).
Proof.
  unfold DbIter.count_key. destruct (max_skip =? 0) eqn:E; boolprop; cbn [negb andb]; [by split|].
  destruct (negb (has_counted_key l) || _) eqn:E1; cbn [skipping counted_key].
  - split; [done|]. by rewrite (cmp_refl ucompare).
  - boolprop. unfold ucmp_eq in *. by destruct (ucompare u (counted_key l)).
Qed.

(** One entry: yielded, or without effect on what follows but for the hiding key. *)
Lemma next_switch_spec st l i e :
  es !! i = Some e -> past (hide_of st l) i -> vis_ge (hide_of st l) i ->
  let '(st', l', found) := next_switch st l (mkParsed (e_key e) (e_seq e) (e_type e)) in
  iter_ I st' = iter_ I st /\ (good st -> good st') /\ direction_ I st' = direction_ I st /\ counted_key l' = counted_key l /\
  if found then
    st' = st /\ e_seq e <= s /\ e_type e = kTypeValue /\ view_from (hide_of st l) (drop i es) = (e_key e, e_value e) :: view_from (Some (e_key e)) (drop (S i) es) /\
    forall j x, (j < i)%nat -> es !! j = Some x -> e_seq x <= s -> ucompare (e_key x) (e_key e) = Lt
  else
    view_from (hide_of st l) (drop i es) = view_from (hide_of st' l') (drop (S i) es) /\
    past (hide_of st' l') (S i) /\ vis_ge (hide_of st' l') (S i) /\
    (e_seq e <= s -> exists u, hide_of st' l' = Some u /\ ucompare (e_key e) u <> Gt).
Proof.
  intros He Hp Hv. rewrite (drop_S es e i He). unfold DbIter.next_switch. cbn [sequence type user_key].
  assert (forall h, vis_ge h i -> vis_ge h (S i)) as Hv1.
  { intros [u|] H; [|done]. intros j y Hj. apply H. lia. }
  destruct (e_seq e <=? s) eqn:Es; boolprop.
  2:{ repeat (split; [done|]). split; [by rewrite view_invisible|]. split; [|split; [by apply Hv1|lia]].
      intros j x Hj Hx Hxs. assert (j < i)%nat as Hji by (destruct (decide (j = i)) as [->|]; [|lia]; assert (x = e) as -> by congruence; lia).
      specialize (Hp j x Hji Hx Hxs). destruct (hide_of st l); [done|]. intros k y Hk. apply Hp. lia. }
  rewrite view_visible by done. destruct (e_type e) eqn:Et.
  - assert (hide_of (SaveKey I st (e_key e)) (mkNextLocals true (counted_key l) (skipped l) (has_counted_key l) (sought_snapshot l)
      (sought_past_key l)) = Some (e_key e)) as -> by done.
    repeat (split; [done|]). split; [|split].
    + intros j x Hj Hx _. apply (key_at j i x e Hx He). lia.
    + intros j y Hj Hy _. apply (key_at i j e y He Hy). lia.
    + intros _. exists (e_key e). by rewrite (cmp_refl ucompare).
  - destruct (negb _) eqn:Ef.
    + assert (hidden ucmp (hide_of st l) (e_key e) = false) as Hh.
      { unfold hide_of, hidden. destruct (skipping l); [|done]. apply negb_true_iff in Ef. unfold ucmp_le in Ef. by destruct (ucompare _ _). }
      rewrite Hh. repeat (split; [done|]). intros j x Hj Hx Hxs. specialize (Hp j x Hj Hx Hxs).
      destruct (hide_of st l) as [u|]; cbn [hidden] in Hh; [|by apply (Hp i)].
      eapply (cmp_le_lt_trans ucompare); [exact Hp|]. apply (cmp_lt_gt ucompare). by destruct (ucompare (e_key e) u).
    + apply negb_false_iff in Ef. boolprop. unfold hide_of in *. rewrite H in *.
      assert (ucompare (e_key e) (saved_key_ I st) <> Gt) as Hle by (unfold ucmp_le in *; by destruct (ucompare _ _)).
      assert (hidden ucmp (Some (saved_key_ I st)) (e_key e) = true) as -> by (cbn [hidden]; by destruct (ucompare _ _)).
      repeat (split; [done|]). split; [|split; [by apply Hv1|eauto]].
      intros j x Hj Hx Hxs. destruct (decide (j = i)) as [->|]; [by assert (x = e) as -> by congruence|]. apply (Hp j); [lia|done|done].
Qed.
(** A block of entries that changes nothing. *)
Definition idle_block (h : option bytes) i i' : Prop :=
  forall j x, (i <= j < i')%nat -> es !! j = Some x ->
    (e_seq x <= s -> match h with Some u => ucompare (e_key x) u <> Gt | None => False end).

Lemma idle_block_skip h i i' :
  (i <= i' <= n)%nat -> past h i -> vis_ge h i -> idle_block h i i' ->
  view_from h (drop i es) = view_from h (drop i' es) /\ past h i' /\ vis_ge h i'.
Proof.
  intros Hi Hp Hv Hb. split; [|split].
  - replace (drop i es) with (take (i' - i) (drop i es) ++ drop i' es).
    2:{ rewrite <- (take_drop (i' - i) (drop i es)) at 2. rewrite drop_drop. do 2 f_equal. lia. }
    assert (forall x, x ∈ take (i' - i) (drop i es) -> exists j, (i <= j < i')%nat /\ es !! j = Some x) as Hx.
    { intros x (j & Hj)%list_elem_of_lookup. apply lookup_take_Some in Hj as [Hj Hlt]. rewrite lookup_drop in Hj.
      exists (i + j)%nat. split; [lia|done]. }
    destruct h as [u|].
    + apply view_skip_hidden; [done|]. apply list.Forall_forall. intros x (j & Hj & Ej)%Hx Hs'.
      specialize (Hb j x Hj Ej Hs'). cbn in Hb. specialize (Hv j x ltac:(lia) Ej Hs').
      apply (cmp_le_ge ucompare) in Hv. destruct (ucompare (e_key x) u); congruence.
    + apply view_skip_invisible. apply list.Forall_forall. intros x (j & Hj & Ej)%Hx. unfold View.invisible.
      destruct (decide (e_seq x <= s)) as [Hs'|]; [|lia]. by destruct (Hb j x Hj Ej Hs').
  - intros j x Hj Hx Hxs. destruct (decide (j < i)%nat) as [Hlt|Hge].
    + specialize (Hp j x Hlt Hx Hxs). destruct h; [done|]. intros k y Hk. apply Hp. lia.
    + specialize (Hb j x ltac:(lia) Hx Hxs). by destruct h.
  - destruct h as [u|]; [|done]. intros j y Hj. apply Hv. lia.
Qed.

(** The entries a seek passes over are of the current user key, and hidden or
    too new. *)
Lemma next_seek_spec st l i e :
  ipos (iter_ I st) i -> es !! i = Some e -> (max_skip <> 0 -> ucompare (e_key e) (counted_key l) = Eq) ->
  (e_seq e <= s -> exists u, hide_of st l = Some u /\ ucompare (e_key e) u <> Gt) ->
  let '(l', target) := next_seek st l (mkParsed (e_key e) (e_seq e) (e_type e)) in
  skipping l' = skipping l /\
  match target with
  | None => True
  | Some t => okt t /\ (i < seek_pos icompare t keys)%nat /\ idle_block (hide_of st l) (S i) (seek_pos icompare t keys)
  end.
Proof.
  intros Hi He Hc Hh. unfold DbIter.next_seek. destruct (max_skip =? 0) eqn:Em; boolprop; [done|]. specialize (Hc Em).
  cbn [user_key]. set (sk := if _ <? _ then _ else _).
  destruct ((sk >=? max_skip) && _) eqn:E1; [|done].
  set (cur := skipping l && ucmp_le ucmp (e_key e) (saved_key_ I st)).
  set (t := AppendInternalKey [] _). destruct (ipos_entry _ _ _ Hi He) as [-> _].
  destruct (icompare (entry_ikey e) t) eqn:Et; [by destruct cur|split; [by destruct cur|]|by destruct cur].
  assert (i < seek_pos icompare t keys)%nat as Hlt.
  { destruct (decide (i < seek_pos icompare t keys)%nat) as [|Hge]; [done|].
    by destruct (seek_after t i e ltac:(lia) He). }
  split; [apply Hokt; by eapply stored_at|]. split; [done|]. intros j x Hj Hx Hxs.
  pose proof (seek_before t j x ltac:(lia) Hx) as Hxt. pose proof (key_at i j e x He Hx ltac:(lia)) as Hex.
  assert (ExtractUserKey t = counted_key l) as Eu by apply ExtractUserKey_InternalKey.
  pose proof (icmp_lt_user ucmp _ _ Hxt) as Hxc. rewrite Eu, ExtractUserKey_entry in Hxc.
  assert (ucompare (e_key x) (e_key e) <> Gt) as Hxe.
  { rewrite <- (cmp_eq_r ucompare _ _ _ (cmp_eq_sym ucompare _ _ Hc)). done. }
  destruct cur eqn:Ec.
  - unfold cur in Ec. apply andb_true_iff in Ec as [Ec1 Ec2]. unfold hide_of. rewrite Ec1. unfold ucmp_le in Ec2.
    intros Hgt. apply (cmp_lt_gt ucompare) in Hgt.
    assert (ucompare (saved_key_ I st) (e_key e) = Lt) as H3 by by eapply (cmp_lt_le_trans ucompare).
    apply (cmp_lt_gt ucompare) in H3. by rewrite H3 in Ec2.
  - exfalso. unfold t in Hxt. change (AppendInternalKey [] (mkParsed (counted_key l) s kValueTypeForSeek)) with (seek_key (counted_key l) s) in Hxt.
    assert (ucompare (e_key x) (counted_key l) = Eq) as Exc.
    { apply (cmp_le_ge ucompare) in Hex. rewrite (cmp_eq_r ucompare _ _ _ Hc) in Hex. by destruct (ucompare (e_key x) (counted_key l)). }
    apply (seek_key_le ucmp (counted_key l) s x Hs) in Hxs; [done|apply (entry_at_ok j x Hx)|done].
Qed.

Lemma find_next_spec fuel : forall st l i,
  good st -> ipos (iter_ I st) i -> (i < n)%nat -> (n - i < fuel)%nat -> past (hide_of st l) i -> vis_ge (hide_of st l) i ->
  exists st', find_next I ucmp s max_skip fuel st l = Some st' /\ good st' /\ direction_ I st' = direction_ I st /\
    next_post st' (view_from (hide_of st l) (drop i es)).
Proof.
  induction fuel as [|fuel IH]; intros st l i Hg Hi Hin Hf Hp Hv; [lia|]. cbn [find_next].
  destruct (lookup_lt_is_Some_2 es i Hin) as [e He].
  destruct (ParseKey_spec st i e Hg Hi He) as (sp & -> & Hsp). cbn [mbind option_bind user_key].
  set (st0 := with_sampling I st sp). set (l0 := count_key l (e_key e)).
  destruct (count_key_spec l (e_key e)) as [Esk Hcount]. fold l0 in Esk, Hcount.
  assert (hide_of st0 l0 = hide_of st l) as Eh by (unfold hide_of; by rewrite Esk).
  pose proof (next_switch_spec st0 l0 i e He ltac:(by rewrite Eh) ltac:(by rewrite Eh)) as Hsw.
  destruct (next_switch st0 l0 _) as [[st1 l1] found]. destruct Hsw as (Eit & Hg1 & Ed & Eck & Hsw).
  assert (good st0) as Hg0 by (split; [apply Hg|done]). specialize (Hg1 Hg0).
  assert (ipos (iter_ I st1) i) as Hi1 by (rewrite Eit; exact Hi).
  destruct found.
  { destruct Hsw as (-> & Hvis & Hty & Eview & Hbef). destruct (next_seek st0 l1 _) as [l2 t].
    eexists. split; [done|]. split; [exact Hg0|]. split; [done|]. rewrite <- Eh, Eview. split; [done|].
    exists i, e. by split. }
  destruct Hsw as (Eview & Hp1 & Hv1 & Hhid). rewrite <- Eh, Eview.
  pose proof (next_seek_spec st1 l1 i e Hi1 He ltac:(by rewrite Eck) Hhid) as Hsk.
  destruct (next_seek st1 l1 _) as [l2 target]. destruct Hsk as [Esk2 Htgt].
  assert (exists it i', (match target with Some t => it_Seek I (iter_ I st1) t | None => it_Next I (iter_ I st1) end) = Some it /\
    ipos it i' /\ (i < i' <= n)%nat /\ view_from (hide_of st1 l1) (drop (S i) es) = view_from (hide_of st1 l1) (drop i' es) /\
    past (hide_of st1 l1) i' /\ vis_ge (hide_of st1 l1) i') as (it & i' & -> & Hit & Hi' & Ev & Hp2 & Hv2).
  { destruct target as [t|].
    - destruct Htgt as (Ht & Hlt & Hidle). destruct (ipos_seek (iter_ I st1) i t Hi1 Ht) as (it & E & Hit).
      exists it, (seek_pos icompare t keys). pose proof (seek_bound t). split; [done|]. split; [done|]. split; [lia|].
      apply idle_block_skip; [lia|done|done|done].
    - destruct (ipos_next (iter_ I st1) i Hi1 Hin) as (it & E & Hit). exists it, (S i). split; [done|]. split; [done|].
      split; [lia|done]. }
  cbn [mbind option_bind]. rewrite Ev, (ipos_valid _ _ Hit). set (st2 := with_iter I st1 it).
  assert (good st2) as Hg2 by (split; apply Hg1).
  assert (hide_of st2 l2 = hide_of st1 l1) as Eh2 by (unfold hide_of; by rewrite Esk2).
  destruct (i' <? n)%nat eqn:En; boolprop.
  - destruct (IH st2 l2 i') as (st' & E & Hg' & Ed' & Hpost); try done; [lia|by rewrite Eh2|by rewrite Eh2|].
    exists st'. split; [done|]. split; [done|]. split; [by rewrite Ed'|]. by rewrite <- Eh2.
  - eexists. split; [done|]. split; [exact Hg2|]. split; [done|]. rewrite drop_ge by lia. split; [done|]. by exists i'.
Qed.
(** *** Backward *)

(** The user key changes at position [b]. *)
Definition cut b : Prop :=
  forall i j x y, (i < b)%nat -> (b <= j)%nat -> es !! i = Some x -> es !! j = Some y -> ucompare (e_key x) (e_key y) = Lt.

(** The internal iterator stands in front of position [b]. *)
Definition back_pos (it : IState I) b : Prop := match b with O => ipos it n | S p => ipos it p end.

Lemma back_pos_valid it b : (b <= n)%nat -> back_pos it b -> it_Valid I it = negb (b =? 0)%nat.
Proof.
  intros Hb H. destruct b as [|p]; cbn [back_pos] in H; rewrite (ipos_valid _ _ H); cbn.
  - apply Nat.ltb_irrefl.
  - by apply Nat.ltb_lt.
Qed.

(** The position of the first entry that is not below a user key. *)
Definition lower (u : bytes) : nat := seek_pos icompare (InternalKey u kMaxSequenceNumber kValueTypeForSeek) keys.

Lemma lower_before u i x : (i < lower u)%nat -> es !! i = Some x -> ucompare (e_key x) u = Lt.
Proof.
  intros Hi Hx. pose proof (seek_before _ i x Hi Hx) as H. pose proof (icmp_lt_user ucmp _ _ H) as Hle.
  rewrite ExtractUserKey_entry, ExtractUserKey_InternalKey in Hle. pose proof (entry_at_ok i x Hx) as (Hseq & _).
  destruct (ucompare (e_key x) u) eqn:E; [|done|done]. exfalso.
  apply (proj2 (seek_key_le ucmp u kMaxSequenceNumber x ltac:(done) Hseq E)); [lia|exact H].
Qed.

Lemma lower_after u i x : (lower u <= i)%nat -> es !! i = Some x -> ucompare u (e_key x) <> Gt.
Proof.
  intros Hi Hx. pose proof (seek_after _ i x Hi Hx) as H%(icmp_entry_user ucmp). by apply (cmp_le_ge ucompare).
Qed.

Lemma cut_lower u : cut (lower u).
Proof.
  intros i j x y Hi Hj Hx Hy. eapply (cmp_lt_le_trans ucompare); [by eapply lower_before|by eapply lower_after].
Qed.

Lemma SeekBeforeUserKey_spec st u i :
  ipos (iter_ I st) i -> stored_key u -> exists it, SeekBeforeUserKey I st u = Some (with_iter I st it) /\ back_pos it (lower u).
Proof.
  intros Hi Hu. unfold SeekBeforeUserKey. fold (InternalKey u kMaxSequenceNumber kValueTypeForSeek).
  destruct (ipos_seek _ _ (InternalKey u kMaxSequenceNumber kValueTypeForSeek) Hi ltac:(by apply Hokt)) as (it & -> & Hit). fold (lower u) in Hit.
  cbn [mbind option_bind]. rewrite (ipos_valid _ _ Hit). pose proof (seek_bound (InternalKey u kMaxSequenceNumber kValueTypeForSeek)) as Hb.
  fold (lower u) in Hb. destruct (lower u <? n)%nat eqn:E; boolprop.
  - destruct (ipos_prev _ _ Hit E) as (it' & -> & Hit'). exists it'. split; [done|]. by destruct (lower u).
  - rewrite (cur_status _ _ Hit). cbn [ok Status_OK state_]. destruct (ipos_last _ _ Hit) as (it' & -> & Hit').
    exists it'. split; [done|]. assert (lower u = n) as -> by lia. destruct n as [|k] eqn:En; cbn [back_pos].
    + by rewrite En.
    + by replace (S k - 1)%nat with k in Hit' by lia.
Qed.

(** Which entries of a user key are visible. *)
Lemma seek_visible u i x :
  es !! i = Some x -> ucompare (e_key x) u = Eq -> (i < seek_pos icompare (seek_key u s) keys)%nat <-> invisible x.
Proof.
  intros Hx Eu. pose proof (entry_at_ok i x Hx) as (Hseq & _).
  pose proof (seek_key_le ucmp u s x Hs Hseq Eu) as Hiff. unfold View.invisible. split; intros H.
  - pose proof (seek_before _ i x H Hx) as Hlt. destruct (decide (e_seq x <= s)) as [Hle|]; [|lia]. by apply Hiff in Hle.
  - destruct (decide (i < seek_pos icompare (seek_key u s) keys)%nat) as [|Hge]; [done|].
    pose proof (seek_after (seek_key u s) i x ltac:(lia) Hx) as Hge'%Hiff. lia.
Qed.

Lemma FindValue_spec st u i :
  good st -> ipos (iter_ I st) i -> stored_key u ->
  let T := seek_pos icompare (seek_key u s) keys in
  exists st' (found : bool), FindValueForCurrentKeyUsingSeek I ucmp s st u = Some (st', found) /\ good st' /\
    direction_ I st' = direction_ I st /\ back_pos (iter_ I st') (lower u) /\
    if found then exists m, es !! T = Some m /\ ucompare (e_key m) u = Eq /\ e_type m = kTypeValue /\
      saved_key_ I st' = e_key m /\ saved_value_ I st' = e_value m
    else forall m, es !! T = Some m -> ucompare (e_key m) u = Eq -> e_type m = kTypeDeletion.
Proof.
  intros Hg Hi Hu T. unfold FindValueForCurrentKeyUsingSeek. fold (InternalKey u s kValueTypeForSeek). fold (seek_key u s).
  destruct (ipos_seek _ _ (seek_key u s) Hi ltac:(by apply Hokt)) as (it & -> & Hit). fold T in Hit. cbn [mbind option_bind].
  set (st1 := with_iter I st it). assert (good st1) as Hg1 by exact Hg. rewrite (ipos_valid _ _ Hit).
  assert (exists (st2 : DBIter) (found : bool), (if (T <? n)%nat then
      ParseKey st1 ≫= fun r : DBIter * option ParsedInternalKey => let '(s0, parsed) := r in
      Some match parsed with
           | Some ikey => if (sequence ikey <=? s) && ucmp_eq ucmp (user_key ikey) u &&
                match type ikey with kTypeValue => true | kTypeDeletion => false end
              then (with_saved I s0 (user_key ikey) (it_value I (iter_ I s0)), true) else (s0, false)
           | None => (s0, false)
           end else Some (st1, false)) = Some (st2, found) /\ good st2 /\ direction_ I st2 = direction_ I st /\
    iter_ I st2 = it /\
    if found then exists m, es !! T = Some m /\ ucompare (e_key m) u = Eq /\ e_type m = kTypeValue /\
      saved_key_ I st2 = e_key m /\ saved_value_ I st2 = e_value m
    else forall m, es !! T = Some m -> ucompare (e_key m) u = Eq -> e_type m = kTypeDeletion)
    as (st2 & found & -> & Hg2 & Ed2 & Eit & Hres).
  { destruct (T <? n)%nat eqn:ET; boolprop.
    2:{ exists st1, false. repeat (split; [done|]). intros m Hm%lookup_lt_Some. lia. }
    destruct (lookup_lt_is_Some_2 es T ET) as [m Hm].
    destruct (ParseKey_spec st1 T m Hg1 Hit Hm) as (sp & -> & Hsp). cbn [mbind option_bind sequence user_key type].
    assert (good (with_sampling I st1 sp)) as Hg1' by (split; [apply Hg|done]).
    destruct (ipos_entry _ _ _ Hit Hm) as [_ Ev].
    destruct ((e_seq m <=? s) && _ && _) eqn:Ec.
    - boolprop. eexists _, true. split; [done|]. split; [exact Hg1'|]. split; [done|]. split; [done|]. exists m.
      unfold ucmp_eq in *. destruct (e_type m); [done|]. destruct (ucompare (e_key m) u); try done.
    - exists (with_sampling I st1 sp), false. split; [done|]. split; [done|]. split; [done|]. split; [done|].
      intros m' Hm' Eu. assert (m' = m) as -> by congruence. destruct (e_type m); [done|]. exfalso.
      rewrite andb_true_r in Ec. unfold ucmp_eq in Ec. rewrite Eu, andb_true_r in Ec. boolprop.
      apply (proj2 (seek_visible u T m Hm Eu)) in Ec. unfold T in Ec. lia. }
  cbn [mbind option_bind]. rewrite Eit, (cur_status _ _ Hit). cbn [ok Status_OK state_ negb andb].
  rewrite (proj1 Hg2). cbn [ok Status_OK state_ negb].
  assert (forall st3, iter_ I st3 = it -> exists it', SeekBeforeUserKey I st3 u = Some (with_iter I st3 it') /\ back_pos it' (lower u)) as Hsb.
  { intros st3 E3. apply (SeekBeforeUserKey_spec st3 u T); [by rewrite E3|done]. }
  destruct found; cbn [negb].
  - destruct (Hsb st2 Eit) as (it' & -> & Hb). cbn [mbind option_bind]. eexists _, true. split; [done|].
    split; [exact Hg2|]. split; [done|]. by split.
  - destruct (Hsb (with_saved I st2 [] []) Eit) as (it' & -> & Hb). cbn [mbind option_bind]. eexists _, false. split; [done|].
    split; [exact Hg2|]. split; [done|]. by split.
Qed.
Lemma lower_le u p e : es !! p = Some e -> ucompare u (e_key e) = Eq -> (lower u <= p)%nat.
Proof.
  intros He Eu. destruct (decide (lower u <= p)%nat) as [|Hlt]; [done|].
  pose proof (lower_before u p e ltac:(lia) He) as H. rewrite (cmp_eq_sym ucompare _ _ Eu) in H. done.
Qed.

(** The entries between the first of a user key and another of it are all of it. *)
Lemma same_key_between u j c x y :
  es !! j = Some x -> es !! c = Some y -> (lower u <= j <= c)%nat -> ucompare (e_key y) u = Eq -> ucompare (e_key x) u = Eq.
Proof.
  intros Hx Hy Hj Eu. pose proof (lower_after u j x ltac:(lia) Hx) as H1. pose proof (key_at j c x y Hx Hy ltac:(lia)) as H2.
  rewrite (cmp_eq_r ucompare _ _ _ Eu) in H2. apply (cmp_le_ge ucompare) in H1. destruct (ucompare (e_key x) u); congruence.
Qed.

Section Prev.
Context (b0 : nat) (Hb0 : (b0 <= n)%nat) (Hcut0 : cut b0).
Abbreviation Es0 := (take b0 es).

Lemma Es0_elem q x : x ∈ drop q Es0 -> exists j, (q <= j < b0)%nat /\ es !! j = Some x.
Proof.
  intros (j & Hj)%list_elem_of_lookup. rewrite lookup_drop in Hj. apply lookup_take_Some in Hj as [Hj Hlt].
  exists (q + j)%nat. split; [lia|done].
Qed.

Lemma Es0_drop p e : (p < b0)%nat -> es !! p = Some e -> drop p Es0 = e :: drop (S p) Es0.
Proof. intros Hp He. apply drop_S. by rewrite lookup_take_lt. Qed.

(** The value saved is the newest visible entry of its user key among the
    entries from [q] on, and nothing behind it is shown. *)
Definition saved_at st q : Prop :=
  exists A m B, drop q Es0 = A ++ m :: B /\ Forall invisible A /\ e_seq m <= s /\ e_type m = kTypeValue /\
    saved_key_ I st = e_key m /\ saved_value_ I st = e_value m /\ view_from (Some (e_key m)) B = [] /\
    (max_skip <> 0 -> Forall (fun x => ucompare (e_key x) (e_key m) = Eq) A).

Definition prev_inv st (vt : ValueType) q : Prop :=
  match vt with kTypeDeletion => view_from None (drop q Es0) = [] | kTypeValue => saved_at st q end.

Definition prev_post st (vt : ValueType) : Prop :=
  match vt with
  | kTypeDeletion => view_from None Es0 = [] /\ exists i, ipos (iter_ I st) i
  | kTypeValue => exists b, (b <= b0)%nat /\ cut b /\ back_pos (iter_ I st) b /\ saved_at st b
  end.

Lemma saved_key_above st p e q :
  saved_at st q -> (p < q)%nat -> es !! p = Some e -> ucompare (e_key e) (saved_key_ I st) <> Gt.
Proof.
  intros (A & m & B & E & _ & _ & _ & -> & _) Hp He.
  destruct (Es0_elem q m) as (j & Hj & Ej); [rewrite E; set_solver|]. apply (key_at p j e m He Ej). lia.
Qed.

(** Hiding the current user key leaves nothing of what was scanned. *)
Lemma hide_rest st vt p e k :
  prev_inv st vt (S p) -> es !! p = Some e -> ucompare k (e_key e) = Eq -> before_saved I ucmp st vt (e_key e) = false ->
  view_from (Some k) (drop (S p) Es0) = [].
Proof.
  intros Hinv He Ek Hb. destruct vt; cbn [prev_inv] in Hinv.
  - destruct (view_hide_least ucmp s k (drop (S p) Es0)) as [E|(k' & v & E & _)].
    + apply list.Forall_forall. intros x (j & Hj & Ej)%Es0_elem _. rewrite (cmp_eq_l ucompare _ _ _ Ek).
      apply (key_at p j e x He Ej). lia.
    + congruence.
    + by rewrite E in Hinv.
  - pose proof (saved_key_above st p e (S p) Hinv ltac:(lia) He) as Hle.
    destruct Hinv as (A & m & B & -> & HA & Hm & Ht & Ekm & _ & HB & _). rewrite view_skip_invisible by done.
    unfold before_saved, ucmp_lt in Hb. cbn [is_value andb] in Hb. rewrite Ekm in *.
    assert (ucompare (e_key m) k = Eq) as Emk.
    { rewrite (cmp_eq_r ucompare _ _ _ Ek). apply (cmp_eq_sym ucompare). by destruct (ucompare (e_key e) (e_key m)). }
    rewrite view_visible, Ht by done. cbn [hidden]. rewrite Emk. by rewrite <- (view_eq_hide ucmp s _ _ B Emk).
Qed.

Lemma step_invisible st vt p e :
  (p < b0)%nat -> es !! p = Some e -> invisible e -> prev_inv st vt (S p) ->
  (max_skip <> 0 -> before_saved I ucmp st vt (e_key e) = false) -> prev_inv st vt p.
Proof.
  intros Hp He Hi Hinv Hb. destruct vt; cbn [prev_inv] in *; [by rewrite (Es0_drop p e), view_invisible|].
  pose proof (saved_key_above st p e (S p) Hinv ltac:(lia) He) as Hle.
  destruct Hinv as (A & m & B & E & HA & Hm & Ht & Ekm & Evm & HB & Heq). exists (e :: A), m, B.
  rewrite (Es0_drop p e Hp He), E. split; [done|]. split; [by constructor|]. repeat (split; [done|]).
  intros Hmax'. constructor; [|by apply Heq]. specialize (Hb Hmax'). unfold before_saved, ucmp_lt in Hb. cbn [is_value andb] in Hb.
  rewrite Ekm in *. by destruct (ucompare (e_key e) (e_key m)).
Qed.

Lemma step_visible st st' vt p e :
  (p < b0)%nat -> es !! p = Some e -> e_seq e <= s -> prev_inv st vt (S p) ->
  before_saved I ucmp st vt (e_key e) = false ->
  (e_type e = kTypeValue -> saved_key_ I st' = e_key e /\ saved_value_ I st' = e_value e) -> prev_inv st' (e_type e) p.
Proof.
  intros Hp He Hv Hinv Hb Hsaved.
  pose proof (hide_rest st vt p e (e_key e) Hinv He (cmp_refl ucompare _) Hb) as Hrest.
  destruct (e_type e) eqn:Et; cbn [prev_inv].
  - by rewrite (Es0_drop p e Hp He), view_visible, Et.
  - destruct (Hsaved eq_refl) as [E1 E2]. exists [], e, (drop (S p) Es0). rewrite (Es0_drop p e Hp He).
    split; [done|]. split; [constructor|]. repeat (split; [done|]). intros _. constructor.
Qed.

(** Leaving the loop at an entry of an earlier user key. *)
Lemma break_post st vt p e :
  (p < b0)%nat -> es !! p = Some e -> ipos (iter_ I st) p -> prev_inv st vt (S p) ->
  before_saved I ucmp st vt (e_key e) = true -> max_skip <> 0 \/ e_seq e <= s -> prev_post st vt.
Proof.
  intros Hp He Hi Hinv Hb Hor. destruct vt; [done|]. cbn [prev_inv prev_post] in *. exists (S p).
  split; [lia|]. split; [|by split].
  unfold before_saved, ucmp_lt in Hb. cbn [is_value andb] in Hb.
  destruct Hinv as (A & m & B & E & HA & Hm & Ht & Ekm & _ & _ & Heq). rewrite Ekm in Hb.
  assert (ucompare (e_key e) (e_key m) = Lt) as Hlt by by destruct (ucompare (e_key e) (e_key m)).
  assert (forall y, es !! S p = Some y -> ucompare (e_key e) (e_key y) = Lt) as Hnext.
  { intros y Hy. destruct (Es0_elem (S p) m) as (jm & Hjm & Ejm); [rewrite E; set_solver|].
    assert (drop (S p) Es0 = y :: drop (S (S p)) Es0) as Ey by (apply Es0_drop; [lia|done]).
    rewrite Ey in E. destruct A as [|a A]; injection E as -> E'; [done|].
    apply list.Forall_cons in HA as [Ha _]. destruct Hor as [Hmax'|Hvis].
    - specialize (Heq Hmax'). apply list.Forall_cons in Heq as [Heq _]. by rewrite (cmp_eq_r ucompare _ _ _ Heq).
    - pose proof (key_at p (S p) e a He Hy ltac:(lia)) as Hle. destruct (ucompare (e_key e) (e_key a)) eqn:Eea; [|done|done].
      exfalso. pose proof (es_sorted_seq ucmp es Hok Hsorted) as Hseq.
      pose proof (sorted_lookup _ es p (S p) e a Hseq He Hy ltac:(lia) Eea). unfold View.invisible in Ha. lia. }
  intros i j x y Hi' Hj Hx Hy. eapply (cmp_le_lt_trans ucompare); [apply (key_at i p x e Hx He); lia|].
  destruct (lookup_lt_is_Some_2 es (S p)) as [w Hw]; [apply lookup_lt_Some in Hy; lia|].
  eapply (cmp_lt_le_trans ucompare); [by apply Hnext|]. apply (key_at (S p) j w y Hw Hy). lia.
Qed.

Lemma start_post st vt i : ipos (iter_ I st) i -> (vt = kTypeValue -> i = n) -> prev_inv st vt 0 -> prev_post st vt.
Proof.
  intros Hi Hn Hinv. destruct vt; cbn [prev_inv prev_post] in *; [by split; [|exists i]|].
  rewrite Hn in Hi by done. exists 0%nat. split; [lia|]. split; [|by split]. intros i' j x y Hi'. lia.
Qed.
(** *** Seeking past the entries of a user key *)

Lemma Es0_split a c : (a <= c)%nat -> drop a Es0 = take (c - a) (drop a Es0) ++ drop c Es0.
Proof. intros H. rewrite <- (take_drop (c - a) (drop a Es0)) at 1. rewrite drop_drop. do 2 f_equal. lia. Qed.

Lemma Es0_block a c x : x ∈ take (c - a) (drop a Es0) -> exists j, (a <= j < c)%nat /\ es !! j = Some x.
Proof.
  intros (j & Hj)%list_elem_of_lookup. apply lookup_take_Some in Hj as [Hj Hlt]. rewrite lookup_drop in Hj.
  apply lookup_take_Some in Hj as [Hj _]. exists (a + j)%nat. split; [lia|done].
Qed.

Lemma hide_group st vt p e u :
  (p < b0)%nat -> es !! p = Some e -> ucompare u (e_key e) = Eq -> prev_inv st vt (S p) ->
  before_saved I ucmp st vt (e_key e) = false -> view_from (Some u) (drop (lower u) Es0) = [].
Proof.
  intros Hp He Eu Hinv Hb. pose proof (lower_le u p e He Eu) as Hl. rewrite (Es0_split (lower u) (S p)) by lia.
  rewrite view_skip_hidden; [by eapply hide_rest|done|]. apply list.Forall_forall. intros x (j & Hj & Ej)%Es0_block _.
  apply (same_key_between u j p x e); [done|done|lia|by apply (cmp_eq_sym ucompare)].
Qed.

Lemma seek_split u p e m :
  let T := seek_pos icompare (seek_key u s) keys in
  (p < b0)%nat -> es !! p = Some e -> ucompare u (e_key e) = Eq -> es !! T = Some m -> ucompare (e_key m) u = Eq ->
  (T < b0)%nat /\ e_seq m <= s /\ drop (lower u) Es0 = take (T - lower u) (drop (lower u) Es0) ++ m :: drop (S T) Es0 /\
  Forall invisible (take (T - lower u) (drop (lower u) Es0)) /\
  Forall (fun x => ucompare (e_key x) u = Eq) (take (T - lower u) (drop (lower u) Es0)).
Proof.
  intros T Hp He Eu Hm Em. pose proof (lower_le u T m Hm (cmp_eq_sym ucompare _ _ Em)) as Hl.
  assert (T < b0)%nat as HT.
  { destruct (decide (T < b0)%nat) as [|Hge]; [done|]. pose proof (Hcut0 p T e m Hp ltac:(lia) He Hm) as H.
    rewrite (cmp_eq_r ucompare _ _ _ Em), (cmp_eq_sym ucompare _ _ Eu) in H. done. }
  split; [done|]. split.
  { destruct (visible_dec s m) as [|Hi]; [done|]. apply (proj2 (seek_visible u T m Hm Em)) in Hi. unfold T in Hi. lia. }
  split; [|split].
  - rewrite (Es0_split (lower u) T) at 1 by lia. f_equal. by apply Es0_drop.
  - apply list.Forall_forall. intros x (j & Hj & Ej)%Es0_block. apply (seek_visible u j x Ej); [|unfold T in Hj; lia].
    apply (same_key_between u j T x m); [done|done|lia|done].
  - apply list.Forall_forall. intros x (j & Hj & Ej)%Es0_block. apply (same_key_between u j T x m); [done|done|lia|done].
Qed.

Lemma seek_found_post st st' vt p e u m :
  let T := seek_pos icompare (seek_key u s) keys in
  (p < b0)%nat -> es !! p = Some e -> ucompare u (e_key e) = Eq -> prev_inv st vt (S p) ->
  before_saved I ucmp st vt (e_key e) = false -> back_pos (iter_ I st') (lower u) ->
  es !! T = Some m -> ucompare (e_key m) u = Eq -> e_type m = kTypeValue ->
  saved_key_ I st' = e_key m -> saved_value_ I st' = e_value m -> prev_post st' kTypeValue.
Proof.
  intros T Hp He Eu Hinv Hb Hback Hm Em Ht Ek Ev.
  destruct (seek_split u p e m Hp He Eu Hm Em) as (HT & Hvis & Esplit & HA & Heq). fold T in HT, Esplit, HA, Heq.
  pose proof (hide_group st vt p e u Hp He Eu Hinv Hb) as Hh. pose proof (lower_le u p e He Eu) as Hl.
  exists (lower u). split; [lia|]. split; [apply cut_lower|]. split; [done|].
  exists (take (T - lower u) (drop (lower u) Es0)), m, (drop (S T) Es0). repeat (split; [done|]). split.
  - rewrite Esplit, view_skip_hidden in Hh.
    + rewrite view_visible, Ht in Hh by done. cbn [hidden] in Hh. rewrite Em in Hh.
      by rewrite (view_eq_hide ucmp s _ _ _ Em).
    + done.
    + eapply list.Forall_impl; [exact Heq|]. by intros x Hx _.
  - intros _. eapply list.Forall_impl; [exact Heq|]. intros x Hx. cbn beta in *.
    rewrite (cmp_eq_r ucompare _ _ _ Em). done.
Qed.

Lemma seek_missed_inv st st' vt p e u :
  let T := seek_pos icompare (seek_key u s) keys in
  (p < b0)%nat -> es !! p = Some e -> ucompare u (e_key e) = Eq -> prev_inv st vt (S p) ->
  before_saved I ucmp st vt (e_key e) = false ->
  (forall m, es !! T = Some m -> ucompare (e_key m) u = Eq -> e_type m = kTypeDeletion) -> prev_inv st' kTypeDeletion (lower u).
Proof.
  intros T Hp He Eu Hinv Hb Hmiss. cbn [prev_inv]. pose proof (hide_group st vt p e u Hp He Eu Hinv Hb) as Hh.
  assert ((exists m, es !! T = Some m /\ ucompare (e_key m) u = Eq) \/
    forall j x, es !! j = Some x -> ucompare (e_key x) u = Eq -> invisible x) as [(m & Hm & Em)|Hall].
  { destruct (es !! T) as [m|] eqn:Hm.
    - destruct (ucompare (e_key m) u) eqn:Em; [left; eauto|right..]; intros j x Hx Ex;
        apply (seek_visible u j x Hx Ex); fold T;
        (destruct (decide (j < T)%nat) as [|Hge]; [done|exfalso]);
        pose proof (key_at T j m x Hm Hx ltac:(lia)) as H1; rewrite (cmp_eq_r ucompare _ _ _ Ex), Em in H1; [|done].
      pose proof (seek_after (seek_key u s) T m ltac:(unfold T; lia) Hm) as H2%(icmp_entry_user ucmp). congruence.
    - right. intros j x Hx Ex. apply (seek_visible u j x Hx Ex). fold T. apply lookup_ge_None in Hm. apply lookup_lt_Some in Hx. lia. }
  - destruct (seek_split u p e m Hp He Eu Hm Em) as (HT & Hvis & Esplit & HA & Heq). fold T in HT, Esplit, HA, Heq.
    rewrite Esplit in Hh |- *. rewrite view_skip_invisible, view_visible, (Hmiss m Hm Em) by done.
    rewrite view_skip_invisible, view_visible, (Hmiss m Hm Em) in Hh by done. done.
  - pose proof (lower_le u p e He Eu) as Hl. rewrite (Es0_split (lower u) (S p)) by lia. rewrite view_skip_invisible.
    + destruct vt; [done|]. exfalso. pose proof (saved_key_above st p e (S p) Hinv ltac:(lia) He) as Hle.
      destruct Hinv as (A & m & B & E & _ & Hm & _ & Ek & _). destruct (Es0_elem (S p) m) as (j & Hj & Ej); [rewrite E; set_solver|].
      unfold before_saved, ucmp_lt in Hb. cbn [is_value andb] in Hb. rewrite Ek in *.
      assert (invisible m) as Hi; [|unfold View.invisible in Hi; lia]. apply (Hall j m Ej).
      rewrite (cmp_eq_r ucompare _ _ _ Eu). apply (cmp_eq_sym ucompare). by destruct (ucompare (e_key e) (e_key m)).
    + apply list.Forall_forall. intros x (j & Hj & Ej)%Es0_block. apply (Hall j x Ej).
      apply (same_key_between u j p x e); [done|done|lia|by apply (cmp_eq_sym ucompare)].
Qed.
(** *** The loop *)

Lemma prev_inv_saved st st' vt q :
  saved_key_ I st' = saved_key_ I st -> saved_value_ I st' = saved_value_ I st -> prev_inv st vt q -> prev_inv st' vt q.
Proof.
  intros E1 E2. destruct vt; [done|]. cbn [prev_inv]. unfold saved_at. by rewrite E1, E2.
Qed.

Lemma p_count_key_spec l u :
  value_type (p_count_key ucmp max_skip l u) = value_type l /\ ucompare (p_counted_key (p_count_key ucmp max_skip l u)) u = Eq.
Proof.
  unfold p_count_key. destruct (negb (p_has_counted_key l) || _) eqn:E1; cbn [value_type p_counted_key].
  - split; [done|]. by rewrite (cmp_refl ucompare).
  - boolprop. split; [done|]. unfold ucmp_eq in *. apply (cmp_eq_sym ucompare). by destruct (ucompare u (p_counted_key l)).
Qed.

Lemma prev_visible_spec st l p e :
  (p < b0)%nat -> es !! p = Some e -> ipos (iter_ I st) p -> good st -> prev_inv st (value_type l) (S p) ->
  (max_skip <> 0 -> before_saved I ucmp st (value_type l) (e_key e) = false) ->
  match prev_visible I ucmp s st l (mkParsed (e_key e) (e_seq e) (e_type e)) with
  | None => prev_post st (value_type l)
  | Some (st', l') => iter_ I st' = iter_ I st /\ good st' /\ direction_ I st' = direction_ I st /\
      prev_inv st' (value_type l') p
  end.
Proof.
  intros Hp He Hi Hg Hinv Hb. unfold prev_visible. cbn [sequence type user_key].
  destruct (e_seq e <=? s) eqn:Es; boolprop.
  2:{ repeat (split; [done|]). by eapply step_invisible. }
  destruct (before_saved I ucmp st (value_type l) (e_key e)) eqn:Ebs; [by eapply break_post; eauto|].
  destruct (ipos_entry _ _ _ Hi He) as [Ek Ev].
  destruct (e_type e) eqn:Et; cbn [value_type]; (split; [done|]; split; [exact Hg|]; split; [done|]); rewrite <- Et.
  - eapply step_visible; eauto. congruence.
  - eapply step_visible; eauto. intros _. cbn [with_saved saved_key_ saved_value_]. by rewrite Ek, Ev, ExtractUserKey_entry.
Qed.

Lemma find_prev_spec fuel : forall st l p,
  good st -> ipos (iter_ I st) p -> (p < b0)%nat -> (p < fuel)%nat -> prev_inv st (value_type l) (S p) ->
  exists st' vt, find_prev I ucmp s max_skip fuel st l = Some (st', vt) /\ good st' /\ direction_ I st' = direction_ I st /\
    prev_post st' vt.
Proof.
  induction fuel as [|fuel IH]; intros st l p Hg Hi Hp Hf Hinv; [lia|]. cbn [find_prev].
  destruct (lookup_lt_is_Some_2 es p ltac:(lia)) as [e He].
  destruct (ParseKey_spec st p e Hg Hi He) as (sp & -> & Hsp). cbn [mbind option_bind user_key].
  set (st0 := with_sampling I st sp). assert (good st0) as Hg0 by (split; [apply Hg|done]).
  assert (prev_inv st0 (value_type l) (S p)) as Hinv0 by (by eapply prev_inv_saved; [..|exact Hinv]).
  assert (ipos (iter_ I st0) p) as Hi0 by exact Hi.
  (* stepping back *)
  assert (forall st1 l1, iter_ I st1 = iter_ I st0 -> good st1 -> direction_ I st1 = direction_ I st -> prev_inv st1 (value_type l1) p ->
    exists st' vt, (iter ← it_Prev I (iter_ I st1);
       if it_Valid I iter then find_prev I ucmp s max_skip fuel (with_iter I st1 iter) l1
       else Some (with_iter I st1 iter, value_type l1)) = Some (st', vt) /\ good st' /\ direction_ I st' = direction_ I st /\
      prev_post st' vt) as Hback.
  { intros st1 l1 E1 Hg1 Ed1 Hinv1. rewrite E1. destruct (ipos_prev _ p Hi0 ltac:(lia)) as (it & -> & Hit).
    cbn [mbind option_bind]. rewrite (ipos_valid _ _ Hit). destruct p as [|p'].
    - rewrite Nat.ltb_irrefl. exists (with_iter I st1 it), (value_type l1). split; [done|]. split; [exact Hg1|]. split; [done|].
      eapply start_post; [exact Hit|done|]. by eapply prev_inv_saved; [..|exact Hinv1].
    - rewrite (proj2 (Nat.ltb_lt _ _)) by lia.
      destruct (IH (with_iter I st1 it) l1 p') as (st' & vt & E & Hg' & Ed' & Hpost); try done; [lia|lia|].
      exists st', vt. split; [done|]. split; [done|]. split; [by rewrite Ed'|done]. }
  assert (forall l1, value_type l1 = value_type l -> (max_skip <> 0 -> before_saved I ucmp st0 (value_type l1) (e_key e) = false) ->
    exists st' vt, match prev_visible I ucmp s st0 l1 (mkParsed (e_key e) (e_seq e) (e_type e)) with
      | None => Some (st0, value_type l1)
      | Some (st1, l2) => iter ← it_Prev I (iter_ I st1);
         if it_Valid I iter then find_prev I ucmp s max_skip fuel (with_iter I st1 iter) l2
         else Some (with_iter I st1 iter, value_type l2)
      end = Some (st', vt) /\ good st' /\ direction_ I st' = direction_ I st /\ prev_post st' vt) as Hvis.
  { intros l1 El Hb. pose proof (prev_visible_spec st0 l1 p e Hp He Hi0 Hg0 ltac:(by rewrite El) Hb) as H.
    destruct (prev_visible I ucmp s st0 l1 _) as [[st1 l2]|].
    - destruct H as (E1 & Hg1 & Ed1 & Hinv1). by apply Hback.
    - exists st0, (value_type l1). by split. }
  destruct (max_skip =? 0) eqn:Em; boolprop; [by apply Hvis|].
  destruct (before_saved I ucmp st0 (value_type l) (e_key e)) eqn:Eb.
  { exists st0, (value_type l). split; [done|]. split; [done|]. split; [done|]. eapply break_post; eauto. }
  destruct (p_count_key_spec l (e_key e)) as [El Ec]. set (l1 := p_count_key ucmp max_skip l (e_key e)) in *.
  destruct (p_skipped l1 >=? max_skip); [|apply Hvis; [done|]; by rewrite El].
  destruct (FindValue_spec st0 (p_counted_key l1) p Hg0 Hi0 (stored_at p e _ He (cmp_eq_sym ucompare _ _ Ec))) as (st1 & found & -> & Hg1 & Ed1 & Hbp & Hres).
  cbn [mbind option_bind]. assert (DBIter_status I st1 = Status_OK) as ->.
  { unfold DBIter_status. rewrite (proj1 Hg1). cbn [ok Status_OK state_]. unfold back_pos in Hbp.
    destruct (lower _); by eapply cur_status. }
  cbn [ok Status_OK state_ negb]. destruct found.
  - destruct Hres as (m & Hm & Em' & Ht & Ek & Ev). exists st1, kTypeValue. split; [done|]. split; [done|]. split; [by rewrite Ed1|].
    eapply (seek_found_post st0 st1 (value_type l) p e (p_counted_key l1) m); eauto.
  - pose proof (seek_missed_inv st0 st1 (value_type l) p e (p_counted_key l1) Hp He Ec Hinv0 Eb Hres) as Hinv1.
    pose proof (lower_le _ p e He Ec) as Hl. rewrite (back_pos_valid _ (lower (p_counted_key l1)) ltac:(lia) Hbp).
    destruct (lower (p_counted_key l1)) as [|p'] eqn:Elow; cbn [Nat.eqb negb].
    + exists st1, kTypeDeletion. split; [done|]. split; [done|]. split; [by rewrite Ed1|]. eapply start_post; [exact Hbp|done|done].
    + destruct (IH st1 (mkPrevLocals kTypeDeletion (p_counted_key l1) (p_skipped l1) false) p') as (st' & vt & E & Hg' & Ed' & Hpost);
        try done; [lia|lia|].
      exists st', vt. split; [done|]. split; [done|]. split; [by rewrite Ed', Ed1|done].
Qed.
End Prev.

(** *** Positions in the view *)

Abbreviation V := (view ucmp s es).

Lemma view_cut b : cut b -> V = view_from None (take b es) ++ view_from None (drop b es).
Proof.
  intros Hc. unfold view. rewrite <- (take_drop b es) at 1. apply view_app; [done|done|].
  apply list.Forall_forall. intros x (i & Hi)%list_elem_of_lookup. apply lookup_take_Some in Hi as [Hi Hlt].
  apply list.Forall_forall. intros y (j & Hj)%list_elem_of_lookup. rewrite lookup_drop in Hj.
  apply (Hc i (b + j)%nat x y); [done|lia|done|done].
Qed.

Lemma view_before_cut b j : cut b -> view_from None (drop b es) = drop j V -> view_from None (take b es) = take j V.
Proof.
  intros Hc E. pose proof (view_cut b Hc) as H. rewrite E in H. rewrite <- (take_drop j V) in H at 1.
  by apply app_inv_tail in H.
Qed.

(** Standing at an entry that is shown, going forward. *)
Definition fwd st j : Prop :=
  valid_ I st = true /\ direction_ I st = kForward /\
  exists i e, stands_at st i e /\ drop j V = (e_key e, e_value e) :: view_from (Some (e_key e)) (drop (S i) es).

(** Standing in front of the entries of the saved user key, going backward. *)
Definition rev st j : Prop :=
  valid_ I st = true /\ direction_ I st = kReverse /\
  exists b jm m, (b <= jm)%nat /\ es !! jm = Some m /\ saved_key_ I st = e_key m /\ cut b /\ back_pos (iter_ I st) b /\
    (forall j' x, (b <= j' < jm)%nat -> es !! j' = Some x -> invisible x) /\
    view_from None (drop b es) = drop j V /\
    drop j V = (saved_key_ I st, saved_value_ I st) :: view_from (Some (saved_key_ I st)) (drop b es).

Definition dpos st j : Prop :=
  good st /\ (exists i, ipos (iter_ I st) i) /\ (fwd st j \/ rev st j \/ (valid_ I st = false /\ j = length V)).

Lemma drop_cons_lt {A} (l : list A) j x r : drop j l = x :: r -> (j < length l)%nat /\ l !! j = Some x /\ drop (S j) l = r.
Proof.
  intros E. assert (l !! j = Some x) as H by (rewrite <- (Nat.add_0_r j), <- lookup_drop, E; done).
  split; [by eapply lookup_lt_Some|]. split; [done|]. rewrite (drop_S l x j H) in E. congruence.
Qed.

Lemma take_nil_inv {A} (l : list A) j : take j l = [] -> (j <= length l)%nat -> j = 0%nat.
Proof. destruct j, l; cbn; [done|done|lia|done]. Qed.

Lemma next_post_dpos st j :
  good st -> direction_ I st = kForward -> (j <= length V)%nat -> next_post st (drop j V) -> dpos st j.
Proof.
  intros Hg Hd Hj Hp. destruct (drop j V) as [|kv rest] eqn:E; cbn [next_post] in Hp.
  - destruct Hp as [Hv Hi]. split; [done|]. split; [done|]. right; right. split; [done|].
    assert (length (drop j V) = 0)%nat as H by by rewrite E. rewrite length_drop in H. lia.
  - destruct Hp as (Hv & i & e & Hst & -> & ->). split; [done|]. split; [exists i; apply Hst|]. left.
    split; [done|]. split; [done|]. by exists i, e.
Qed.

Lemma FindNext_dpos st sk i j :
  good st -> direction_ I st = kForward -> ipos (iter_ I st) i -> (i < n)%nat -> (j <= length V)%nat ->
  let h := if sk : bool then Some (saved_key_ I st) else None in
  past h i -> vis_ge h i -> view_from h (drop i es) = drop j V ->
  exists st', FindNextUserEntry I ucmp s max_skip rounds st sk = Some st' /\ dpos st' j.
Proof.
  intros Hg Hd Hi Hin Hj h Hp Hv E. unfold FindNextUserEntry.
  destruct (find_next_spec rounds st (mkNextLocals sk [] 0 false false false) i Hg Hi Hin ltac:(lia) Hp Hv)
    as (st' & Est & Hg' & Hd' & Hpost).
  exists st'. split; [done|]. apply next_post_dpos; [done|by rewrite Hd'|done|]. by rewrite <- E.
Qed.

(** *** Leaving the entries of the current key *)

Lemma leave_key_spec fuel : forall st sk p x,
  good st -> ipos (iter_ I st) p -> es !! p = Some x -> ucompare (e_key x) (saved_key_ I st) = Eq -> (p < fuel)%nat ->
  exists st' (go : bool), leave_key I ucmp max_skip fuel st sk = Some (st', go) /\ good st' /\
    if go then (lower (saved_key_ I st) <> 0)%nat /\ back_pos (iter_ I st') (lower (saved_key_ I st))
    else (lower (saved_key_ I st) = 0)%nat /\ valid_ I st' = false /\ exists i, ipos (iter_ I st') i.
Proof.
  induction fuel as [|fuel IH]; intros st sk p x Hg Hi Hx Ex Hf; [lia|]. cbn [leave_key]. set (k := saved_key_ I st) in *.
  pose proof (lower_le k p x Hx (cmp_eq_sym ucompare _ _ Ex)) as Hl. pose proof (lookup_lt_Some _ _ _ Hx) as Hp.
  destruct (ipos_prev _ _ Hi Hp) as (it & -> & Hit). cbn [mbind option_bind]. rewrite (ipos_valid _ _ Hit).
  destruct p as [|p'].
  { rewrite Nat.ltb_irrefl. cbn [negb]. eexists _, false. split; [done|]. split; [exact Hg|]. split; [lia|]. split; [done|]. by exists n. }
  rewrite (proj2 (Nat.ltb_lt _ _)) by lia. cbn [negb]. destruct (lookup_lt_is_Some_2 es p' ltac:(lia)) as [x' Hx'].
  destruct (ipos_entry _ _ _ Hit Hx') as [-> _]. rewrite ExtractUserKey_entry. cbn [with_iter saved_key_]. fold k.
  unfold ucmp_lt. destruct (ucompare (e_key x') k) eqn:Ex'.
  2:{ eexists _, true. split; [done|]. split; [exact Hg|]. assert (lower k = S p') as ->; [|by split].
      destruct (decide (lower k <= p')%nat) as [Hle|]; [|lia]. exfalso.
      pose proof (lower_after k p' x' Hle Hx') as H. apply (cmp_lt_gt ucompare) in Ex'. done. }
  2:{ exfalso. pose proof (key_at p' (S p') x' x Hx' Hx ltac:(lia)) as H. rewrite (cmp_eq_r ucompare _ _ _ Ex) in H. done. }
  destruct (negb (max_skip =? 0) && _).
  - destruct (SeekBeforeUserKey_spec (with_iter I st it) k p' Hit (stored_at _ x _ Hx Ex)) as (it' & -> & Hb). cbn [mbind option_bind with_iter iter_].
    rewrite (back_pos_valid it' (lower k) ltac:(lia) Hb). destruct (lower k) as [|q] eqn:El; cbn [Nat.eqb negb].
    + eexists _, false. split; [done|]. split; [exact Hg|]. split; [done|]. split; [done|]. by exists n.
    + eexists _, true. split; [done|]. split; [exact Hg|]. by split.
  - destruct (IH (with_iter I st it) (sk + 1) p' x') as (st' & go & E & Hg' & H); try done; [lia|]. exists st', go. by split.
Qed.
(** *** Backward in the view *)

Lemma saved_at_rev st b0 b j :
  (b0 <= n)%nat -> cut b0 -> (b <= b0)%nat -> cut b -> back_pos (iter_ I st) b -> saved_at b0 st b ->
  view_from None (take b0 es) = take j V -> (j <= length V)%nat ->
  valid_ I st = true -> direction_ I st = kReverse -> (0 < j)%nat /\ rev st (j - 1).
Proof.
  intros Hb0 Hc0 Hb Hc Hback (A & m & B & E & HA & Hm & Ht & Ek & Ev & HB & _) Hj Hjl Hval Hdir.
  assert (view_from None (drop b (take b0 es)) = [(e_key m, e_value m)]) as Hone.
  { rewrite E, view_skip_invisible, view_visible, Ht by done. cbn [hidden]. by rewrite HB. }
  assert (take b0 es = take b es ++ drop b (take b0 es)) as Esp.
  { rewrite <- (take_drop b (take b0 es)) at 1. f_equal. rewrite take_take. f_equal. lia. }
  assert (forall x y, x ∈ take b es -> y ∈ drop b es -> ucompare (e_key x) (e_key y) = Lt) as Hcut.
  { intros x y (i & Hi)%list_elem_of_lookup (k & Hk)%list_elem_of_lookup. apply lookup_take_Some in Hi as [Hi Hlt].
    rewrite lookup_drop in Hk. apply (Hc i (b + k)%nat x y); [done|lia|done|done]. }
  assert (drop b es = drop b (take b0 es) ++ drop b0 es) as Edb.
  { rewrite <- (take_drop b0 es) at 1. rewrite drop_app_le; [done|]. rewrite length_take. lia. }
  assert (view_from None (take b0 es) = view_from None (take b es) ++ [(e_key m, e_value m)]) as Ev0.
  { rewrite Esp, view_app, Hone; [done|done|done|]. apply list.Forall_forall. intros x Hx. apply list.Forall_forall.
    intros y Hy. apply Hcut; [done|]. rewrite Edb. apply elem_of_app. by left. }
  assert (forall h, (h = None \/ h = Some (e_key m)) ->
    view_from h (drop b es) = view_from h (drop b (take b0 es)) ++ view_from None (drop b0 es)) as Hsplit.
  { intros h Hh. rewrite Edb. apply view_app; [done| |].
    - destruct Hh as [-> | ->]; [done|]. apply list.Forall_forall. intros y (k & Hk)%list_elem_of_lookup. rewrite lookup_drop in Hk.
      destruct (Es0_elem b0 Hb0 b m) as (jm & Hjm & Ejm); [rewrite E; set_solver|].
      apply (Hc0 jm (b0 + k)%nat m y); [lia|lia|done|done].
    - apply list.Forall_forall. intros x Hx. destruct (Es0_elem b0 Hb0 b x Hx) as (jx & Hjx & Ejx). apply list.Forall_forall.
      intros y (k & Hk)%list_elem_of_lookup. rewrite lookup_drop in Hk. apply (Hc0 jx (b0 + k)%nat x y); [lia|lia|done|done]. }
  pose proof (view_cut b0 Hc0) as HV. rewrite Hj in HV.
  assert (view_from None (drop b0 es) = drop j V) as Hdj.
  { pose proof (take_drop j V) as H. rewrite HV in H at 3. by apply app_inv_head in H. }
  assert (0 < j)%nat as Hpos.
  { destruct j; [|lia]. rewrite Ev0 in Hj. cbn in Hj. by apply app_eq_nil in Hj as [_ ?]. }
  assert (view_from None (drop b es) = drop (j - 1) V) as Hdj1.
  { rewrite (Hsplit None), Hone, Hdj by tauto. rewrite Ev0 in Hj.
    assert (length (take j V) = j) as Hlj by (rewrite length_take; lia). rewrite <- Hj, length_app in Hlj. cbn [length] in Hlj.
    rewrite HV at 2. rewrite <- Hj, <- app_assoc. rewrite drop_app_length' by lia. by rewrite Hdj. }
  split; [done|]. split; [done|]. split; [done|].
  destruct (Es0_elem b0 Hb0 b m) as (jm0 & _); [rewrite E; set_solver|].
  exists b, (b + length A)%nat, m. split; [lia|]. split.
  { rewrite <- lookup_drop, Edb, E, <- app_assoc. cbn [app]. by apply list_lookup_middle. }
  split; [done|]. split; [done|]. split; [done|]. split.
  { intros j' x Hj' Hx. replace j' with (b + (j' - b))%nat in Hx by lia. rewrite <- lookup_drop, Edb, E, <- app_assoc in Hx.
    rewrite lookup_app_l in Hx by lia. apply (proj1 (list.Forall_forall _ _) HA). by eapply list_elem_of_lookup_2. }
  split; [done|]. rewrite <- Hdj1, Ek, Ev, (Hsplit None), (Hsplit (Some (e_key m))), Hone by tauto. cbn [app]. do 2 f_equal.
  rewrite E, view_skip_invisible, view_visible, Ht by done. cbn [hidden]. rewrite (cmp_refl ucompare). by rewrite HB.
Qed.

Lemma FindPrev_dpos st b0 j :
  good st -> direction_ I st = kReverse -> (b0 <= n)%nat -> cut b0 -> back_pos (iter_ I st) b0 ->
  view_from None (take b0 es) = take j V -> (j <= length V)%nat ->
  exists st', FindPrevUserEntry I ucmp s max_skip rounds st = Some st' /\
    dpos st' (match j with O => length V | S j' => j' end).
Proof.
  intros Hg Hd Hb0 Hc0 Hback Hj Hjl. unfold FindPrevUserEntry. rewrite (back_pos_valid _ _ Hb0 Hback).
  assert (forall st1 vt, good st1 -> direction_ I st1 = kReverse -> prev_post b0 st1 vt ->
    dpos (match vt with
          | kTypeDeletion => with_direction I (with_saved I (with_valid I st1 false) [] []) kForward
          | kTypeValue => with_valid I st1 true
          end) (match j with O => length V | S j' => j' end)) as Hend.
  { intros st1 vt Hg1 Hd1 Hpost. destruct vt; cbn [prev_post] in Hpost.
    - destruct Hpost as [Hnil Hi]. rewrite Hnil in Hj. split; [exact Hg1|]. split; [exact Hi|]. right; right. split; [done|].
      by rewrite (take_nil_inv V j (eq_sym Hj) Hjl).
    - destruct Hpost as (b & Hb & Hc & Hbk & Hsv).
      destruct (saved_at_rev (with_valid I st1 true) b0 b j) as [Hpos Hrev]; try done.
      split; [exact Hg1|]. split; [destruct b; eexists; exact Hbk|]. right; left. destruct j as [|j']; [lia|].
      by replace (S j' - 1)%nat with j' in Hrev by lia. }
  destruct b0 as [|p]; cbn [Nat.eqb negb].
  - cbn [mbind option_bind]. eexists. split; [done|]. apply (Hend st kTypeDeletion Hg Hd). split; [done|]. by exists n.
  - destruct (find_prev_spec (S p) Hb0 Hc0 rounds st (mkPrevLocals kTypeDeletion [] 0 false) p) as (st1 & vt & -> & Hg1 & Hd1 & Hpost).
    + done.
    + exact Hback.
    + lia.
    + lia.
    + cbn [value_type prev_inv]. rewrite drop_ge; [done|]. rewrite length_take. lia.
    + cbn [mbind option_bind]. eexists. split; [done|]. apply Hend; [done|by rewrite Hd1|done].
Qed.

(** *** The operations *)

Lemma dpos_next st j :
  dpos st j -> (j < length V)%nat -> exists st', DBIter_Next I ucmp s max_skip rounds st = Some st' /\ dpos st' (S j).
Proof.
  intros (Hg & _ & [Hf|[Hr|[_ ->]]]) Hj; [| |lia]; unfold DBIter_Next.
  - destruct Hf as (-> & Hd & i & e & (Hi & He & Hvis & Ht & Hbef) & E). rewrite Hd. cbn [negb].
    destruct (drop_cons_lt V j _ _ E) as (_ & _ & E').
    destruct (ipos_entry _ _ _ Hi He) as [Ek _]. pose proof (lookup_lt_Some _ _ _ He) as Hin.
    destruct (ipos_next _ _ Hi Hin) as (it & Eit & Hit). cbn [SaveKey with_saved iter_]. rewrite Eit, Ek, ExtractUserKey_entry.
    cbn [mbind option_bind with_iter iter_]. rewrite (ipos_valid _ _ Hit). set (st1 := with_iter I _ it).
    destruct (S i <? n)%nat eqn:En; boolprop; cbn [negb].
    + apply (FindNext_dpos st1 true (S i) (S j)); try done.
      * intros k x Hk Hx Hxs. cbn [st1 with_iter with_saved saved_key_ SaveKey].
        destruct (decide (k = i)) as [->|]; [assert (x = e) as -> by congruence; by rewrite (cmp_refl ucompare)|].
        by rewrite (Hbef k x ltac:(lia) Hx Hxs).
      * intros k y Hk Hy _. cbn [st1 with_iter with_saved saved_key_ SaveKey]. apply (key_at i k e y He Hy). lia.
    + eexists. split; [done|]. split; [exact Hg|]. split; [by exists (S i)|]. right; right. split; [done|].
      rewrite (drop_ge es) in E' by lia. apply (f_equal length) in E'. rewrite length_drop in E'. cbn [length View.view_from] in E'. lia.
  - destruct Hr as (-> & -> & b & jm & m & Hb & Hm & Ek & Hc & Hback & Hinv & Hdrop & E). cbn [negb with_direction iter_].
    destruct (drop_cons_lt V j _ _ E) as (_ & _ & E'). pose proof (lookup_lt_Some _ _ _ Hm) as Hmn.
    assert (exists it, (if negb (it_Valid I (iter_ I st)) then it_SeekToFirst I (iter_ I st) else it_Next I (iter_ I st)) = Some it /\
      ipos it b) as (it & -> & Hit).
    { rewrite (back_pos_valid _ b ltac:(lia) Hback). destruct b as [|p]; cbn [Nat.eqb negb back_pos] in *.
      - destruct (cur_first _ _ Hback) as (it & E1 & H1). by exists it.
      - destruct (ipos_next _ _ Hback ltac:(lia)) as (it & E1 & H1). by exists it. }
    cbn [mbind option_bind with_iter iter_]. rewrite (ipos_valid _ _ Hit), (proj2 (Nat.ltb_lt _ _)) by lia. cbn [negb].
    set (st1 := with_iter I _ it). apply (FindNext_dpos st1 true b (S j)); try done; [lia| |].
    + intros k x Hk Hx _. cbn [st1 with_iter with_direction saved_key_]. rewrite Ek. by rewrite (Hc k jm x m Hk Hb Hx Hm).
    + intros k y Hk Hy Hys. cbn [st1 with_iter with_direction saved_key_]. rewrite Ek.
      destruct (decide (k < jm)%nat) as [Hlt|]; [|apply (key_at jm k m y Hm Hy); lia].
      specialize (Hinv k y ltac:(lia) Hy). unfold View.invisible in Hinv. lia.
Qed.

Lemma stands_at_lower st i e j :
  stands_at st i e -> drop j V = (e_key e, e_value e) :: view_from (Some (e_key e)) (drop (S i) es) ->
  view_from None (drop (lower (e_key e)) es) = drop j V.
Proof.
  intros (_ & He & Hvis & Ht & Hbef) E. pose proof (lower_le (e_key e) i e He (cmp_refl ucompare _)) as Hl.
  pose proof (lookup_lt_Some _ _ _ He) as Hin.
  destruct (idle_block_skip None (lower (e_key e)) i) as [-> _].
  - lia.
  - intros k x Hk Hx _ k' y Hk' Hy. by apply (cut_lower (e_key e) k k' x y).
  - done.
  - intros k x Hk Hx Hxs. pose proof (Hbef k x ltac:(lia) Hx Hxs) as Hlt.
    pose proof (lower_after (e_key e) k x ltac:(lia) Hx) as Hge. apply (cmp_lt_gt ucompare) in Hlt. done.
  - rewrite (drop_S es e i He), view_visible, Ht by done. cbn [hidden]. done.
Qed.

Lemma dpos_prev st j :
  dpos st j -> (j < length V)%nat ->
  exists st', DBIter_Prev I ucmp s max_skip rounds st = Some st' /\ dpos st' (match j with O => length V | S j' => j' end).
Proof.
  intros (Hg & _ & [Hf|[Hr|[_ ->]]]) Hj; [| |lia]; unfold DBIter_Prev.
  - destruct Hf as (-> & -> & i & e & Hst & E). cbn [negb]. pose proof (stands_at_lower st i e j Hst E) as Hlow.
    pose proof Hst as (Hi & He & _). destruct (ipos_entry _ _ _ Hi He) as [Ek _]. rewrite Ek, ExtractUserKey_entry.
    pose proof (lookup_lt_Some _ _ _ He) as Hin.
    destruct (leave_key_spec rounds (SaveKey I st (e_key e)) 0 i e Hg Hi He (cmp_refl ucompare _) ltac:(lia))
      as (st1 & go & -> & Hg1 & Hgo). cbn [mbind option_bind]. cbn [SaveKey with_saved saved_key_] in Hgo.
    pose proof (view_before_cut _ j (cut_lower (e_key e)) Hlow) as Htake. destruct go.
    + destruct Hgo as [Hne Hback]. apply (FindPrev_dpos (with_direction I st1 kReverse) (lower (e_key e)) j); try done; [|apply cut_lower|lia].
      apply seek_bound.
    + destruct Hgo as (E0 & Hv1 & Hi1). exists st1. split; [done|]. split; [done|]. split; [done|]. right; right. split; [done|].
      rewrite E0 in Htake. by rewrite (take_nil_inv V j (eq_sym Htake) ltac:(lia)).
  - destruct Hr as (-> & Hd & b & jm & m & Hb & Hm & Ek & Hc & Hback & Hinv & Hdrop & E). rewrite Hd. cbn [negb].
    pose proof (lookup_lt_Some _ _ _ Hm) as Hmn.
    apply (FindPrev_dpos st b j); try done; [lia|by apply view_before_cut|lia].
Qed.
Lemma dpos_first st j :
  dpos st j -> exists st', DBIter_SeekToFirst I ucmp s max_skip rounds st = Some st' /\ dpos st' 0.
Proof.
  intros (Hg & (i & Hi) & _). unfold DBIter_SeekToFirst. cbn [ClearSaveValue with_direction with_saved iter_].
  destruct (cur_first _ _ Hi) as (it & -> & Hit). cbn [mbind option_bind]. rewrite (ipos_valid _ _ Hit).
  destruct (0 <? n)%nat eqn:En; boolprop.
  - eapply (FindNext_dpos _ false 0 0); try done; [lia|]. intros k x Hk. lia.
  - eexists. split; [done|]. split; [exact Hg|]. split; [by exists 0%nat|]. right; right. split; [done|].
    assert (es = []) as -> by (destruct es; [done|cbn in En; lia]). done.
Qed.

Lemma dpos_last st j :
  dpos st j -> exists st', DBIter_SeekToLast I ucmp s max_skip rounds st = Some st' /\ dpos st' (length V - 1).
Proof.
  intros (Hg & (i & Hi) & _). unfold DBIter_SeekToLast. cbn [ClearSaveValue with_direction with_saved iter_].
  destruct (ipos_last _ _ Hi) as (it & -> & Hit). cbn [mbind option_bind].
  destruct (FindPrev_dpos (with_iter I (ClearSaveValue I (with_direction I st kReverse)) it) n (length V)) as (st' & E & Hp); try done.
  - intros a b x y Ha Hb Hx Hy. apply lookup_lt_Some in Hy. lia.
  - cbn [with_iter iter_]. destruct n as [|k] eqn:En; cbn [back_pos]; [by rewrite En|].
    by replace (S k - 1)%nat with k in Hit by lia.
  - by rewrite !take_ge by lia.
  - exists st'. split; [done|]. destruct (length V) as [|k]; [done|]. by replace (S k - 1)%nat with k by lia.
Qed.

(** The view from the position of a seek. *)
Lemma seek_view target :
  let i := seek_pos icompare (seek_key target s) keys in
  past None i /\ view_from None (drop i es) = drop (seek_pos ucompare target (map fst V)) V.
Proof.
  intros i. assert (forall k x, (lower target <= k < i)%nat -> es !! k = Some x -> invisible x) as Hinv.
  { intros k x Hk Hx. pose proof (seek_before (seek_key target s) k x ltac:(unfold i in Hk; lia) Hx) as H%(icmp_lt_user ucmp).
    unfold seek_key in H. rewrite ExtractUserKey_entry, ExtractUserKey_InternalKey in H.
    pose proof (lower_after target k x ltac:(lia) Hx) as H'. apply (cmp_le_ge ucompare) in H'.
    apply (seek_visible target k x Hx); [destruct (ucompare (e_key x) target); congruence|unfold i in Hk; lia]. }
  assert (lower target <= i)%nat as Hl.
  { destruct (decide (lower target <= i)%nat) as [|Hlt]; [done|]. pose proof (seek_bound (InternalKey target kMaxSequenceNumber kValueTypeForSeek)) as Hb.
    fold (lower target) in Hb. destruct (lookup_lt_is_Some_2 es i ltac:(lia)) as [x Hx].
    pose proof (lower_before target i x ltac:(lia) Hx) as H1.
    pose proof (seek_after (seek_key target s) i x ltac:(unfold i; lia) Hx) as H2%(icmp_entry_user ucmp). congruence. }
  assert (past None (lower target)) as Hp0.
  { intros k x Hk Hx _ k' y Hk' Hy. by apply (cut_lower target k k' x y). }
  assert (idle_block None (lower target) i) as Hidle.
  { intros k x Hk Hx Hxs. specialize (Hinv k x Hk Hx). unfold View.invisible in Hinv. lia. }
  destruct (idle_block_skip None (lower target) i) as (Ev & Hp & _); [pose proof (seek_bound (seek_key target s)); unfold i in *; lia|done|done|done|].
  split; [done|]. rewrite <- Ev. pose proof (view_cut _ (cut_lower target)) as HV.
  assert (seek_pos ucompare target (map fst V) = length (view_from None (take (lower target) es))) as ->.
  { rewrite HV at 1. rewrite map_app, seek_pos_app_below.
    - rewrite length_map. rewrite <- (app_nil_l (map fst (view_from None (drop _ es)))), seek_pos_app_above; [cbn; lia|].
      apply list.Forall_forall. intros k (kv & -> & Hkv)%list_elem_of_fmap.
      apply view_elem in Hkv as (x & (q & Hq)%list_elem_of_lookup & _ & _ & ->). rewrite lookup_drop in Hq. cbn [fst].
      apply (cmp_le_ge ucompare). apply (lower_after target (lower target + q)); [lia|done].
    - apply list.Forall_forall. intros k (kv & -> & Hkv)%list_elem_of_fmap.
      apply view_elem in Hkv as (x & (q & Hq)%list_elem_of_lookup & _ & _ & ->). apply lookup_take_Some in Hq as [Hq Hlt]. cbn [fst].
      by apply (lower_before target q). }
  rewrite HV. by rewrite drop_app_length.
Qed.

Lemma dpos_seek st j target :
  dpos st j -> okt (seek_key target s) -> exists st', DBIter_Seek I ucmp s max_skip rounds st target = Some st' /\
    dpos st' (seek_pos ucompare target (map fst V)).
Proof.
  intros (Hg & (i & Hi) & _) Ht. unfold DBIter_Seek. fold (InternalKey target s kValueTypeForSeek). fold (seek_key target s).
  cbn [SaveKey ClearSaveValue with_direction with_saved iter_ saved_key_].
  destruct (ipos_seek _ _ (seek_key target s) Hi Ht) as (it & -> & Hit). cbn [mbind option_bind]. rewrite (ipos_valid _ _ Hit).
  destruct (seek_view target) as [Hp Ev]. set (T := seek_pos icompare (seek_key target s) keys) in *.
  assert (seek_pos ucompare target (map fst V) <= length V)%nat as Hle by (etransitivity; [apply seek_pos_le|]; by rewrite length_map).
  destruct (T <? n)%nat eqn:ET; boolprop.
  - by eapply (FindNext_dpos _ false T).
  - eexists. split; [done|]. split; [exact Hg|]. split; [by exists T|]. right; right. split; [done|].
    rewrite (drop_ge es) in Ev by lia. apply (f_equal length) in Ev. rewrite length_drop in Ev. cbn [length View.view_from] in Ev. lia.
Qed.

#[export] Instance db_iter_cursor : CursorOn (fun t => okt (seek_key t s)) ucompare (DBIterOps I ucmp s max_skip rounds) V dpos.
Proof.
  split; cbn [DBIterOps IState it_Valid it_key it_value it_status it_SeekToFirst it_SeekToLast it_Seek it_Next it_Prev].
  - intros st j (_ & _ & [(_ & _ & i & e & _ & E)|[(_ & _ & b & jm & m & _ & _ & _ & _ & _ & _ & _ & E)|[_ ->]]]); [| |done];
      apply drop_cons_lt in E as [E _]; lia.
  - intros st j (_ & _ & [(-> & _ & i & e & _ & E)|[(-> & _ & b & jm & m & _ & _ & _ & _ & _ & _ & _ & E)|[-> ->]]]);
      [apply drop_cons_lt in E as [E _]; symmetry; by apply Nat.ltb_lt..|]. by rewrite Nat.ltb_irrefl.
  - intros st j kv (_ & _ & Hd) Hkv. unfold DBIter_key, DBIter_value.
    destruct Hd as [(_ & -> & i & e & (Hi & He & _) & E)|[(_ & -> & b & jm & m & _ & _ & _ & _ & _ & _ & _ & E)|[_ ->]]].
    + apply drop_cons_lt in E as (_ & E & _). rewrite E in Hkv. injection Hkv as <-. cbn [fst snd].
      destruct (ipos_entry _ _ _ Hi He) as [-> ->]. by rewrite ExtractUserKey_entry.
    + apply drop_cons_lt in E as (_ & E & _). rewrite E in Hkv. by injection Hkv as <-.
    + apply lookup_lt_Some in Hkv. lia.
  - intros st j (Hg & (i & Hi) & _). unfold DBIter_status. rewrite (proj1 Hg). cbn [ok Status_OK state_]. by eapply cur_status.
  - intros st j. apply dpos_first.
  - intros st j. apply dpos_last.
  - intros st j t. apply dpos_seek.
  - intros st j. apply dpos_next.
  - intros st j. apply dpos_prev.
Qed.

Lemma NewDBIterator_dpos it i seed :
  ipos it i -> free_seed (Random_new seed) -> dpos (NewDBIterator I it seed) (length V).
Proof.
  intros Hi Hf. split; [split; [done|by apply Sampling_new_ok]|]. split; [by exists i|]. by right; right.
Qed.
End Correct.

(** ** Properties *)

(** C14: the user's iterator shows exactly the database at its sequence number.
    Over any internal iterator that is a cursor over sorted entries, [DBIter] is
    a cursor over the visible pairs: seeking and stepping, forward, backward and
    in turns, for every [max_sequential_skip].  The visible pairs are in
    increasing order of user keys, and a user key has value [v] among them
    exactly when [v] is the value of its newest entry that is not newer than the
    sequence number. *)
Theorem db_iterator_refines (ucmp : Comparator) (s max_skip seed : Z) (es : list Entry) (I : IteratorOps)
    (ipos : IState I -> nat -> Prop) (it : IState I) (i rounds : nat) :
  ComparatorLaws ucmp -> 0 <= s <= kMaxSequenceNumber -> 0 <= max_skip ->
  es_sorted ucmp es -> Forall entry_ok es -> NoDup (map e_seq es) ->
  Cursor (InternalKeyComparator.Compare ucmp) I (map entry_kv es) ipos -> ipos it i ->
  (length es < rounds)%nat -> free_seed (Random_new seed) ->
  (exists pos, Cursor (Compare ucmp) (DBIterOps I ucmp s max_skip rounds) (view ucmp s es) pos /\
     pos (NewDBIterator I it seed) (length (view ucmp s es))) /\
  sorted_keys (Compare ucmp) (map fst (view ucmp s es)) /\
  forall u v, (exists k, (k, v) ∈ view ucmp s es /\ Compare ucmp k u = Eq) <->
    exists e, newest ucmp es u s = Some e /\ e_type e = kTypeValue /\ e_value e = v.
Proof.
  intros Hl Hs Hmax Hsort Hok Hnd HC Hi Hr Hf. split; [|split].
  - exists (dpos ucmp s es I ipos). split; [apply (db_iter_cursor ucmp s max_skip Hs Hmax es Hsort Hok (fun _ => True)); done|]. by eapply NewDBIterator_dpos.
  - by apply view_from_sorted, es_sorted_key_sorted.
  - intros u v. by apply view_shows.
Qed.

(** A block of five internal entries: key [a] has three versions, [b] is deleted
    at 6. *)
Definition sample_entries : list Entry :=
  [mkEntry 9 kTypeValue (str:"a") (str:"a9"); mkEntry 5 kTypeValue (str:"a") (str:"a5"); mkEntry 2 kTypeValue (str:"a") (str:"a2");
   mkEntry 6 kTypeDeletion (str:"b") []; mkEntry 3 kTypeValue (str:"b") (str:"b3"); mkEntry 4 kTypeValue (str:"c") (str:"c4")].
Definition sample_internal_block : Block := Block_new (build_block 2 (map entry_kv sample_entries)).
Abbreviation sample_internal := (Block_Iterator (InternalKeyComparator.Compare BytewiseComparator) sample_internal_block).

Lemma db_iterator_refines_witness :
  let D := DBIterOps sample_internal BytewiseComparator 7 1 10 in
  exists s1 s2 s3, it_SeekToLast D (NewDBIterator sample_internal (Block_NewIterator sample_internal_block) 7) = Some s1 /\
    it_key D s1 = str:"c" /\ it_Prev D s1 = Some s2 /\ it_key D s2 = str:"a" /\ it_value D s2 = str:"a5" /\
    it_Next D s2 = Some s3 /\ it_key D s3 = str:"c".
Proof.
  destruct (build_block_cursor (InternalKeyComparator.Compare BytewiseComparator) 2 (map entry_kv sample_entries)) as (ipos & HC & Hi).
  { lia. } { repeat constructor. } { vm_compute. reflexivity. } { repeat constructor; vm_compute; reflexivity. }
  destruct (db_iterator_refines BytewiseComparator 7 1 7 sample_entries sample_internal ipos
    (Block_NewIterator sample_internal_block) 6 10 _ ltac:(done) ltac:(done) ltac:(repeat constructor)
    ltac:(repeat constructor; cbv; congruence) ltac:(by apply (bool_decide_unpack _)) HC Hi ltac:(cbn; lia) seed_7_free)
    as ((pos & CD & H0) & _).
  destruct (cur_last (CursorOn:=CD) _ _ H0) as (s1 & E1 & H1).
  destruct (cur_prev (CursorOn:=CD) _ _ H1) as (s2 & E2 & H2); [vm_compute; lia|].
  destruct (cur_next (CursorOn:=CD) _ _ H2) as (s3 & E3 & H3); [vm_compute; lia|].
  exists s1, s2, s3. split; [exact E1|]. split; [exact (proj1 (cur_entry (CursorOn:=CD) _ _ _ H1 eq_refl))|].
  split; [exact E2|]. destruct (cur_entry (CursorOn:=CD) _ _ _ H2 eq_refl) as [K2 V2]. split; [exact K2|]. split; [exact V2|].
  split; [exact E3|exact (proj1 (cur_entry (CursorOn:=CD) _ _ _ H3 eq_refl))].
Defined.
