(* ===== verification/Merger.v ===== *)
(** * The merging iterator

    src/table/merger.cc, with src/table/iterator_wrapper.h: an iterator over
    the union of several iterators.  [IteratorWrapper] caches the key and the
    validity of a child after every move, which reading the child gives as
    well.

    The theorem: if the children are cursors over sorted lists without common
    keys, the merging iterator is a cursor over the sorted union, in both
    directions and across changes of direction. *)

From stdpp Require Import sets sorting.
From S2P Require Import Prelude Slice Iterator Comparator BlockBuilder Block.

Inductive Direction := kForward | kReverse.

#[global] Instance Direction_eq_dec : EqDecision Direction.
Proof. solve_decision. Defined.

Section Operations.
Context (cmp : bytes -> bytes -> comparison) (I : IteratorOps).

(** [class MergingIterator]: [children_], [current_] as an index and
    [direction_]. *)
Record MergingIterator := mkMerging {
  children_ : list (IState I); current_ : option nat; direction_ : Direction }.

(** [MergingIterator::MergingIterator] *)
Definition MergingIterator_new (children : list (IState I)) : MergingIterator :=
  mkMerging children None kForward.

(** The loop of [FindSmallest] from child [i] on. *)
Fixpoint FindSmallest_loop (children : list (IState I)) (i : nat)
    (smallest : option (nat * IState I)) : option (nat * IState I) :=
  match children with
  | [] => smallest
  | child :: rest =>
      let smallest :=
        if it_Valid I child then
          match smallest with
          | None => Some (i, child)
          | Some (_, s) =>
              match cmp (it_key I child) (it_key I s) with
              | Lt => Some (i, child)
              | _ => smallest
              end
          end
        else smallest in
      FindSmallest_loop rest (S i) smallest
  end.

Definition FindSmallest (children : list (IState I)) : option nat :=
  fst <$> FindSmallest_loop children 0 None.

(** The loop of [FindLargest], from the last child down to the first. *)
Fixpoint FindLargest_loop (children : list (IState I)) (i : nat) : option (nat * IState I) :=
  match children with
  | [] => None
  | child :: rest =>
      let largest := FindLargest_loop rest (S i) in
      if it_Valid I child then
        match largest with
        | None => Some (i, child)
        | Some (_, l) =>
            match cmp (it_key I child) (it_key I l) with
            | Gt => Some (i, child)
            | _ => largest
            end
        end
      else largest
  end.

Definition FindLargest (children : list (IState I)) : option nat :=
  fst <$> FindLargest_loop children 0.

(** A move of every child. *)
Definition each (f : IState I -> option (IState I)) (l : list (IState I))
    : option (list (IState I)) := mapM f l.

Definition Merging_Valid (m : MergingIterator) : bool :=
  match current_ m with Some _ => true | None => false end.

Definition current_child (m : MergingIterator) : option (IState I) :=
  c ← current_ m; children_ m !! c.

Definition Merging_key (m : MergingIterator) : bytes :=
  match current_child m with Some s => it_key I s | None => [] end.
Definition Merging_value (m : MergingIterator) : bytes :=
  match current_child m with Some s => it_value I s | None => [] end.

(** [status()]: the first status that is not OK. *)
Fixpoint Merging_status_loop (l : list (IState I)) : Status :=
  match l with
  | [] => Status_OK
  | s :: rest => if ok (it_status I s) then Merging_status_loop rest else it_status I s
  end.
Definition Merging_status (m : MergingIterator) : Status := Merging_status_loop (children_ m).

(** [SeekToFirst()], [SeekToLast()] and [Seek(target)] *)
Definition Merging_SeekToFirst (m : MergingIterator) : option MergingIterator :=
  l ← each (it_SeekToFirst I) (children_ m);
  Some (mkMerging l (FindSmallest l) kForward).

Definition Merging_SeekToLast (m : MergingIterator) : option MergingIterator :=
  l ← each (it_SeekToLast I) (children_ m);
  Some (mkMerging l (FindLargest l) kReverse).

Definition Merging_Seek (m : MergingIterator) (target : bytes) : option MergingIterator :=
  l ← each (fun s => it_Seek I s target) (children_ m);
  Some (mkMerging l (FindSmallest l) kForward).

(** The loops of [Next] and [Prev] over the children other than [current_]. *)
Fixpoint turn (f : IState I -> option (IState I)) (c i : nat) (l : list (IState I))
    : option (list (IState I)) :=
  match l with
  | [] => Some []
  | s :: rest =>
      s ← (if decide (i = c) then Some s else f s);
      rest ← turn f c (S i) rest;
      Some (s :: rest)
  end.

Definition turn_forward (key : bytes) (s : IState I) : option (IState I) :=
  s ← it_Seek I s key;
  if it_Valid I s && match cmp key (it_key I s) with Eq => true | _ => false end
  then it_Next I s else Some s.

Definition turn_backward (key : bytes) (s : IState I) : option (IState I) :=
  s ← it_Seek I s key;
  if it_Valid I s then it_Prev I s else it_SeekToLast I s.

(** [Next()] *)
Definition Merging_Next (m : MergingIterator) : option MergingIterator :=
  c ← current_ m;
  l ← (match direction_ m with
       | kForward => Some (children_ m)
       | kReverse => turn (turn_forward (Merging_key m)) c 0 (children_ m)
       end);
  s ← l !! c;
  s ← it_Next I s;
  let l := <[c := s]> l in
  Some (mkMerging l (FindSmallest l) kForward).

(** [Prev()] *)
Definition Merging_Prev (m : MergingIterator) : option MergingIterator :=
  c ← current_ m;
  l ← (match direction_ m with
       | kReverse => Some (children_ m)
       | kForward => turn (turn_backward (Merging_key m)) c 0 (children_ m)
       end);
  s ← l !! c;
  s ← it_Prev I s;
  let l := <[c := s]> l in
  Some (mkMerging l (FindLargest l) kReverse).

Definition Merging : IteratorOps :=
  mkIteratorOps MergingIterator Merging_Valid Merging_key Merging_value Merging_status
    Merging_SeekToFirst Merging_SeekToLast Merging_Seek Merging_Next Merging_Prev.
End Operations.

Arguments mkMerging {I} _ _ _.
Arguments children_ {I} _.
Arguments current_ {I} _.
Arguments direction_ {I} _.

(** [NewMergingIterator]: no child, one child, or a merger. *)
Inductive MergedKind := MergedNone | MergedOne | MergedMany.

Definition merged_ops (cmp : bytes -> bytes -> comparison) (I : IteratorOps) (k : MergedKind) : IteratorOps :=
  match k with MergedNone => EmptyIterator | MergedOne => I | MergedMany => Merging cmp I end.
Definition MergedOps (cmp : bytes -> bytes -> comparison) (I : IteratorOps) : IteratorOps := Dispatch (merged_ops cmp I).

Definition NewMergingIterator (cmp : bytes -> bytes -> comparison) (I : IteratorOps) (children : list (IState I))
    : IState (MergedOps cmp I) :=
  match children with
  | [] => existT MergedNone NewEmptyIterator
  | [s] => existT MergedOne s
  | _ => existT MergedMany (MergingIterator_new I children)
  end.

(** ** Selecting a child *)

Section Select.
Context (cmp : bytes -> bytes -> comparison) `{!OrderLaws cmp} (I : IteratorOps).
Implicit Types (l : list (IState I)) (s a : IState I).

Lemma FindSmallest_keep l i c a :
  (forall s, s ∈ l -> it_Valid I s = true -> cmp (it_key I a) (it_key I s) = Lt) ->
  FindSmallest_loop cmp I l i (Some (c, a)) = Some (c, a).
Proof.
  revert i. induction l as [|s l IH]; intros i H; [done|]. cbn [FindSmallest_loop].
  destruct (it_Valid I s) eqn:Ev.
  - specialize (H s ltac:(left) Ev) as Hs. apply (cmp_lt_gt cmp) in Hs. rewrite Hs.
    apply IH. intros s' Hs'. apply H. by right.
  - apply IH. intros s' Hs'. apply H. by right.
Qed.

Lemma FindSmallest_loop_spec l i acc k s :
  l !! k = Some s -> it_Valid I s = true ->
  (forall k' s', l !! k' = Some s' -> k' <> k -> it_Valid I s' = true ->
     cmp (it_key I s) (it_key I s') = Lt) ->
  match acc with None => True | Some (_, a) => cmp (it_key I s) (it_key I a) = Lt end ->
  FindSmallest_loop cmp I l i acc = Some ((i + k)%nat, s).
Proof.
  revert i k acc. induction l as [|x l IH]; intros i k acc Hk Hv Hmin Hacc; [done|].
  cbn [FindSmallest_loop]. destruct k as [|k]; cbn in Hk.
  - injection Hk as ->. rewrite Hv, Nat.add_0_r.
    assert (FindSmallest_loop cmp I l (S i) (Some (i, s)) = Some (i, s)) as E.
    { apply FindSmallest_keep. intros s' Hs' Hv'.
      apply list_elem_of_lookup in Hs' as [k' Hk']. by apply (Hmin (S k') s'). }
    destruct acc as [[c a]|]; [|done]. by rewrite Hacc.
  - replace (i + S k)%nat with (S i + k)%nat by lia. apply IH; [done|done| |].
    + intros k' s' Hk' Hne Hv'. apply (Hmin (S k') s'); [done|lia|done].
    + destruct (it_Valid I x) eqn:Ex; [|done].
      assert (cmp (it_key I s) (it_key I x) = Lt) as Hx by (by apply (Hmin 0%nat x)).
      destruct acc as [[c a]|]; [|done]. by destruct (cmp (it_key I x) (it_key I a)).
Qed.

Lemma FindSmallest_spec l k s :
  l !! k = Some s -> it_Valid I s = true ->
  (forall k' s', l !! k' = Some s' -> k' <> k -> it_Valid I s' = true ->
     cmp (it_key I s) (it_key I s') = Lt) ->
  FindSmallest cmp I l = Some k.
Proof. intros H1 H2 H3. unfold FindSmallest. by rewrite (FindSmallest_loop_spec l 0 None k s). Qed.

Lemma FindSmallest_none l :
  (forall s, s ∈ l -> it_Valid I s = false) -> FindSmallest cmp I l = None.
Proof.
  intros H. unfold FindSmallest. generalize 0%nat.
  induction l as [|s l IH]; intros i; [done|]. cbn [FindSmallest_loop].
  rewrite (H s) by left. apply IH. intros s' Hs'. apply H. by right.
Qed.

Lemma FindLargest_member l i c a :
  FindLargest_loop cmp I l i = Some (c, a) -> a ∈ l /\ it_Valid I a = true.
Proof.
  revert i c a. induction l as [|s l IH]; intros i c a; [done|]. cbn [FindLargest_loop].
  destruct (FindLargest_loop cmp I l (S i)) as [[c' a']|] eqn:E.
  - apply IH in E as [E1 E2]. destruct (it_Valid I s) eqn:Ev.
    + destruct (cmp _ _); intros [= <- <-]; (split; [|done]); set_solver.
    + intros [= <- <-]. split; [set_solver|done].
  - destruct (it_Valid I s) eqn:Ev; [|done]. intros [= <- <-]. split; [left|done].
Qed.

Lemma FindLargest_loop_spec l i k s :
  l !! k = Some s -> it_Valid I s = true ->
  (forall k' s', l !! k' = Some s' -> k' <> k -> it_Valid I s' = true ->
     cmp (it_key I s') (it_key I s) = Lt) ->
  FindLargest_loop cmp I l i = Some ((i + k)%nat, s).
Proof.
  revert i k. induction l as [|x l IH]; intros i k Hk Hv Hmax; [done|].
  cbn [FindLargest_loop]. destruct k as [|k]; cbn in Hk.
  - injection Hk as ->. rewrite Hv, Nat.add_0_r.
    destruct (FindLargest_loop cmp I l (S i)) as [[c a]|] eqn:E; [|done].
    apply FindLargest_member in E as [E1 E2]. apply list_elem_of_lookup in E1 as [k' Hk'].
    assert (cmp (it_key I a) (it_key I s) = Lt) as H by (by apply (Hmax (S k') a)).
    apply (cmp_lt_gt cmp) in H. by rewrite H.
  - rewrite (IH (S i) k); [|done|done|].
    + replace (S i + k)%nat with (i + S k)%nat by lia. destruct (it_Valid I x) eqn:Ex; [|done].
      by rewrite (Hmax 0%nat x).
    + intros k' s' Hk' Hne Hv'. apply (Hmax (S k') s'); [done|lia|done].
Qed.

Lemma FindLargest_spec l k s :
  l !! k = Some s -> it_Valid I s = true ->
  (forall k' s', l !! k' = Some s' -> k' <> k -> it_Valid I s' = true ->
     cmp (it_key I s') (it_key I s) = Lt) ->
  FindLargest cmp I l = Some k.
Proof. intros H1 H2 H3. unfold FindLargest. by rewrite (FindLargest_loop_spec l 0 k s). Qed.

Lemma FindLargest_none l :
  (forall s, s ∈ l -> it_Valid I s = false) -> FindLargest cmp I l = None.
Proof.
  intros H. unfold FindLargest. generalize 0%nat.
  induction l as [|s l IH]; intros i; [done|]. cbn [FindLargest_loop].
  rewrite (H s) by left. apply IH. intros s' Hs'. apply H. by right.
Qed.
End Select.

(** ** Merged positions *)

Abbreviation pairs := (list (bytes * bytes)).

Section Positions.
Context (cmp : bytes -> bytes -> comparison) `{!OrderLaws cmp}.
(** The children's lists and the merged list. *)
Context (kvss : list pairs) (M : pairs).
Context (HM : sorted_keys cmp (map fst M)).
Context (Hsort : forall c kvs, kvss !! c = Some kvs -> sorted_keys cmp (map fst kvs)).
Context (Hin : forall c kvs kv, kvss !! c = Some kvs -> kv ∈ kvs -> kv ∈ M).
Context (Hcover : forall kv, kv ∈ M -> exists c kvs, kvss !! c = Some kvs /\ kv ∈ kvs).
Context (Hdisj : forall c1 c2 kvs1 kvs2 kv, kvss !! c1 = Some kvs1 -> kvss !! c2 = Some kvs2 ->
  kv ∈ kvs1 -> kv ∈ kvs2 -> c1 = c2).

(** How many pairs of a child come before merged position [p]. *)
Definition lo (p : nat) (kvs : pairs) : nat :=
  match M !! p with
  | Some kv => seek_pos cmp (fst kv) (map fst kvs)
  | None => length kvs
  end.

(** A key is before merged position [p]. *)
Definition below (p : nat) (k : bytes) : Prop :=
  match M !! p with Some kv => cmp k (fst kv) = Lt | None => True end.

Lemma sorted_pairs (l : pairs) i j x y :
  sorted_keys cmp (map fst l) -> l !! i = Some x -> l !! j = Some y -> (i < j)%nat ->
  cmp (fst x) (fst y) = Lt.
Proof.
  intros Hs Hi Hj Hij. eapply (sorted_lookup _ _ i j _ _ Hs); [| |done];
    by rewrite list_lookup_fmap, ?Hi, ?Hj.
Qed.

Lemma sorted_pairs_inv (l : pairs) i j x y :
  sorted_keys cmp (map fst l) -> l !! i = Some x -> l !! j = Some y ->
  cmp (fst x) (fst y) = Lt -> (i < j)%nat.
Proof.
  intros Hs Hi Hj Hlt. destruct (Nat.lt_total i j) as [?|[->|Hgt]]; [done| |].
  - assert (x = y) as -> by congruence. by rewrite (cmp_refl cmp) in Hlt.
  - pose proof (sorted_pairs l j i y x Hs Hj Hi Hgt) as H.
    apply (cmp_lt_gt cmp) in H. congruence.
Qed.

(** Positions in the merged list decide the order. *)
Lemma below_iff p q kv : (p <= length M)%nat -> M !! q = Some kv -> below p (fst kv) <-> (q < p)%nat.
Proof.
  intros Hp Hq. unfold below. destruct (M !! p) as [kv'|] eqn:E.
  - split; [apply (sorted_pairs_inv M q p _ _ HM Hq E)|apply (sorted_pairs M q p _ _ HM Hq E)].
  - apply lookup_ge_None in E. apply lookup_lt_Some in Hq. split; [lia|done].
Qed.

Lemma lo_le p kvs : (lo p kvs <= length kvs)%nat.
Proof.
  unfold lo. destruct (M !! p); [|lia]. etrans; [apply seek_pos_le|]. by rewrite length_map.
Qed.

Lemma lo_before p kvs j kv : (j < lo p kvs)%nat -> kvs !! j = Some kv -> below p (fst kv).
Proof.
  unfold lo, below. intros Hj Hkv. destruct (M !! p); [|done].
  eapply seek_pos_before; [exact Hj|]. by rewrite list_lookup_fmap, Hkv.
Qed.

Lemma lo_at p kvs kv : kvs !! lo p kvs = Some kv -> ~ below p (fst kv).
Proof.
  unfold lo, below. destruct (M !! p).
  - intros H. apply (seek_pos_at cmp _ (map fst kvs)). by rewrite list_lookup_fmap, H.
  - intros H. apply lookup_lt_Some in H. lia.
Qed.

Lemma lo_eq p kvs q :
  (q <= length kvs)%nat ->
  (forall j kv, (j < q)%nat -> kvs !! j = Some kv -> below p (fst kv)) ->
  (forall kv, kvs !! q = Some kv -> ~ below p (fst kv)) -> lo p kvs = q.
Proof.
  unfold lo, below. intros Hq Hb Ha. destruct (M !! p) as [m|].
  - apply seek_pos_eq; [by rewrite length_map|..].
    + intros j x Hj Hx. rewrite list_lookup_fmap in Hx.
      destruct (kvs !! j) as [kv|] eqn:E; [|done]. injection Hx as <-. eauto.
    + intros x Hx. rewrite list_lookup_fmap in Hx.
      destruct (kvs !! q) as [kv|] eqn:E; [|done]. injection Hx as <-. eauto.
  - destruct (kvs !! q) as [kv|] eqn:E; [by destruct (Ha kv eq_refl)|].
    apply lookup_ge_None in E. lia.
Qed.

(** Every merged pair stands where its child is. *)
Lemma owner p kv :
  M !! p = Some kv -> exists c kvs, kvss !! c = Some kvs /\ kvs !! lo p kvs = Some kv.
Proof.
  intros Hp. destruct (Hcover kv) as (c & kvs & Hc & Hkv); [by eapply list_elem_of_lookup_2|].
  exists c, kvs. split; [done|]. apply list_elem_of_lookup in Hkv as [j Hj].
  assert (lo p kvs = j) as ->; [|done]. apply lo_eq.
  - apply lookup_lt_Some in Hj. lia.
  - intros j' kv' Hj' Hkv'. unfold below. rewrite Hp.
    eapply sorted_pairs; [by eapply Hsort|exact Hkv'|exact Hj|done].
  - intros kv' Hkv'. assert (kv' = kv) as -> by congruence. unfold below. rewrite Hp.
    by rewrite (cmp_refl cmp).
Qed.

Lemma lo_S_owner p c kvs kv :
  M !! p = Some kv -> kvss !! c = Some kvs -> kvs !! lo p kvs = Some kv ->
  lo (S p) kvs = S (lo p kvs).
Proof.
  intros Hp Hc Hkv. pose proof (lookup_lt_Some _ _ _ Hp) as Hlen. apply lo_eq.
  - apply lookup_lt_Some in Hkv. lia.
  - intros j kv' Hj Hkv'.
    destruct (list_elem_of_lookup_1 M kv') as [q Hq]; [eapply Hin; [done|by eapply list_elem_of_lookup_2]|].
    apply (below_iff (S p) q); [lia|done|]. destruct (decide (j = lo p kvs)) as [->|Hne].
    + assert (kv' = kv) as -> by congruence.
      destruct (Nat.lt_total q p) as [?|[?|Hgt]]; [lia|lia|].
      pose proof (sorted_pairs M p q _ _ HM Hp Hq Hgt) as H. by rewrite (cmp_refl cmp) in H.
    + assert (below p (fst kv')) as Hb by (eapply lo_before; [|exact Hkv']; lia).
      apply (below_iff p q) in Hb; [lia|lia|done].
  - intros kv' Hkv' Hb.
    destruct (list_elem_of_lookup_1 M kv') as [q Hq]; [eapply Hin; [done|by eapply list_elem_of_lookup_2]|].
    apply (below_iff (S p) q) in Hb; [|lia|done].
    pose proof (sorted_pairs kvs _ _ _ _ (Hsort c kvs Hc) Hkv Hkv' ltac:(lia)) as Hlt.
    pose proof (sorted_pairs_inv M p q _ _ HM Hp Hq Hlt). lia.
Qed.

Lemma lo_S_other p c kvs c' kvs' kv :
  M !! p = Some kv -> kvss !! c = Some kvs -> kvs !! lo p kvs = Some kv ->
  kvss !! c' = Some kvs' -> c' <> c -> lo (S p) kvs' = lo p kvs'.
Proof.
  intros Hp Hc Hkv Hc' Hne. pose proof (lookup_lt_Some _ _ _ Hp) as Hlen. apply lo_eq.
  - apply lo_le.
  - intros j kv' Hj Hkv'.
    destruct (list_elem_of_lookup_1 M kv') as [q Hq]; [eapply Hin; [exact Hc'|by eapply list_elem_of_lookup_2]|].
    assert (below p (fst kv')) as Hb by by eapply lo_before.
    apply (below_iff p q) in Hb; [|lia|done]. apply (below_iff (S p) q); [lia|done|lia].
  - intros kv' Hkv' Hb.
    destruct (list_elem_of_lookup_1 M kv') as [q Hq]; [eapply Hin; [exact Hc'|by eapply list_elem_of_lookup_2]|].
    apply (below_iff (S p) q) in Hb; [|lia|done]. pose proof (lo_at _ _ _ Hkv') as Hn.
    destruct (decide (q = p)) as [->|Hqp].
    + assert (kv' = kv) as -> by congruence. apply Hne.
      eapply Hdisj; [exact Hc'|exact Hc| |]; by eapply list_elem_of_lookup_2.
    + apply Hn. apply (below_iff p q); [lia|done|lia].
Qed.
Lemma child_position c kvs j kv :
  kvss !! c = Some kvs -> kvs !! j = Some kv -> exists q, M !! q = Some kv.
Proof.
  intros Hc Hj. apply list_elem_of_lookup_1. eapply Hin; [exact Hc|by eapply list_elem_of_lookup_2].
Qed.

Lemma lo_0 c kvs : kvss !! c = Some kvs -> lo 0 kvs = O.
Proof.
  intros Hc. apply lo_eq; [lia|lia|]. intros kv Hkv Hb.
  destruct (child_position c kvs _ kv Hc Hkv) as [q Hq]. apply (below_iff 0 q) in Hb; [lia|lia|done].
Qed.

Lemma lo_seek c kvs t :
  kvss !! c = Some kvs ->
  lo (seek_pos cmp t (map fst M)) kvs = seek_pos cmp t (map fst kvs).
Proof.
  intros Hc. set (p := seek_pos cmp t (map fst M)).
  assert (p <= length M)%nat as Hp
    by (unfold p; etrans; [apply seek_pos_le|]; by rewrite length_map).
  assert (forall q kv, M !! q = Some kv -> (q < p)%nat <-> cmp (fst kv) t = Lt) as Hpos.
  { intros q kv Hq. split.
    - intros Hlt. eapply seek_pos_before; [exact Hlt|]. by rewrite list_lookup_fmap, Hq.
    - intros Hlt. destruct (decide (q < p)%nat) as [|Hge]; [done|exfalso].
      destruct (lookup_lt_is_Some_2 M p) as [m Hm]; [apply lookup_lt_Some in Hq; lia|].
      assert (cmp (fst m) t <> Lt) as Hn.
      { apply (seek_pos_at cmp t (map fst M)). fold p. by rewrite list_lookup_fmap, Hm. }
      destruct (decide (q = p)) as [->|Hqp]; [congruence|].
      pose proof (sorted_pairs M p q _ _ HM Hm Hq ltac:(lia)) as H.
      apply Hn. by eapply (cmp_lt_trans cmp). }
  apply lo_eq.
  - etrans; [apply seek_pos_le|]. by rewrite length_map.
  - intros j kv Hj Hkv. destruct (child_position c kvs j kv Hc Hkv) as [q Hq].
    apply (below_iff p q); [done|done|]. apply (Hpos q kv Hq).
    eapply seek_pos_before; [exact Hj|]. by rewrite list_lookup_fmap, Hkv.
  - intros kv Hkv Hb. destruct (child_position c kvs _ kv Hc Hkv) as [q Hq].
    apply (below_iff p q) in Hb; [|done|done]. apply (Hpos q kv Hq) in Hb.
    eapply (seek_pos_at cmp t (map fst kvs)); [|exact Hb]. by rewrite list_lookup_fmap, Hkv.
Qed.

(** Where a child stands in the reverse direction: on the last pair before
    merged position [p], or off its front. *)
Definition rev_lo (p : nat) (kvs : pairs) : nat :=
  match lo p kvs with O => length kvs | S q => q end.
End Positions.

(** ** The merging iterator is a cursor *)

Section Correct.
Context (cmp : bytes -> bytes -> comparison) `{!OrderLaws cmp} (I : IteratorOps).
(** The children: their lists and what it means for them to be at a position. *)
Context (kvss : list pairs) (poss : list (IState I -> nat -> Prop)) (M : pairs).
Context (HM : sorted_keys cmp (map fst M)).
Context (Hsort : forall c kvs, kvss !! c = Some kvs -> sorted_keys cmp (map fst kvs)).
Context (Hin : forall c kvs kv, kvss !! c = Some kvs -> kv ∈ kvs -> kv ∈ M).
Context (Hcover : forall kv, kv ∈ M -> exists c kvs, kvss !! c = Some kvs /\ kv ∈ kvs).
Context (Hdisj : forall c1 c2 kvs1 kvs2 kv, kvss !! c1 = Some kvs1 -> kvss !! c2 = Some kvs2 ->
  kv ∈ kvs1 -> kv ∈ kvs2 -> c1 = c2).
(** The children can seek to the keys that stand in them. *)
Context (okt : bytes -> Prop) (Hokt : forall kv, kv ∈ M -> okt (fst kv)).
Context (Hcur : forall c kvs pos, kvss !! c = Some kvs -> poss !! c = Some pos ->
  CursorOn okt cmp I kvs pos).
Abbreviation lo := (lo cmp M).
Abbreviation rev_lo := (rev_lo cmp M).

(** Child [c] of [l] stands at position [P c kvs] of its list. *)
Definition all_at (l : list (IState I)) (P : nat -> pairs -> nat) : Prop :=
  length l = length kvss /\ length l = length poss /\
  forall c s kvs pos, l !! c = Some s -> kvss !! c = Some kvs -> poss !! c = Some pos ->
    pos s (P c kvs).

Lemma all_at_child l P c s :
  all_at l P -> l !! c = Some s ->
  exists kvs pos, kvss !! c = Some kvs /\ poss !! c = Some pos /\ CursorOn okt cmp I kvs pos /\
    pos s (P c kvs).
Proof.
  intros (L1 & L2 & H) Hs. pose proof (lookup_lt_Some _ _ _ Hs) as Hc.
  destruct (lookup_lt_is_Some_2 kvss c ltac:(lia)) as [kvs Hk].
  destruct (lookup_lt_is_Some_2 poss c ltac:(lia)) as [pos Hp].
  exists kvs, pos. split; [done|]. split; [done|]. split; [by eapply Hcur|by eapply H].
Qed.

(** The pair a child reads. *)
Lemma child_entry l P c s kvs :
  all_at l P -> l !! c = Some s -> kvss !! c = Some kvs ->
  it_Valid I s = (P c kvs <? length kvs)%nat /\
  forall kv, kvs !! P c kvs = Some kv -> it_Valid I s = true /\ it_key I s = fst kv /\ it_value I s = snd kv.
Proof.
  intros H Hs Hk. destruct (all_at_child l P c s H Hs) as (kvs' & pos & Hk' & Hp & C & Hpos).
  assert (kvs' = kvs) as -> by congruence. pose proof (cur_valid _ _ Hpos) as Hv.
  split; [done|]. intros kv Hkv. destruct (cur_entry _ _ _ Hpos Hkv). repeat split; try done.
  rewrite Hv. apply Nat.ltb_lt. by apply lookup_lt_Some in Hkv.
Qed.

(** A move of the children, all of them or all but one. *)
Lemma turn_all f c0 l P P' :
  all_at l P ->
  (forall c s kvs pos, c <> c0 -> l !! c = Some s -> kvss !! c = Some kvs -> CursorOn okt cmp I kvs pos ->
     pos s (P c kvs) -> exists s', f s = Some s' /\ pos s' (P' c kvs)) ->
  exists l', turn I f c0 0 l = Some l' /\
    all_at l' (fun c kvs => if decide (c = c0) then P c kvs else P' c kvs).
Proof.
  intros (L1 & L2 & H) Hf.
  assert (forall k l1, (forall c s, l1 !! c = Some s -> l !! (k + c)%nat = Some s) ->
    exists l2, turn I f c0 k l1 = Some l2 /\ length l2 = length l1 /\
      forall c s, l2 !! c = Some s -> forall kvs pos, kvss !! (k + c)%nat = Some kvs ->
        poss !! (k + c)%nat = Some pos ->
        pos s (if decide ((k + c)%nat = c0) then P (k + c)%nat kvs else P' (k + c)%nat kvs)) as Hgen.
  { intros k l1. revert k. induction l1 as [|s l1 IH]; intros k Hl1; [by exists []|].
    cbn [turn]. pose proof (Hl1 0%nat s eq_refl) as Hs. rewrite Nat.add_0_r in Hs.
    destruct (IH (S k)) as (l2 & E2 & Hl2 & H2).
    { intros c s' Hc. replace (S k + c)%nat with (k + S c)%nat by lia. by apply Hl1. }
    assert (exists s', (if decide (k = c0) then Some s else f s) = Some s' /\
      forall kvs pos, kvss !! k = Some kvs -> poss !! k = Some pos ->
        pos s' (if decide (k = c0) then P k kvs else P' k kvs)) as (s' & Es & Hs').
    { case_decide as Hk; [exists s; split; [done|]; intros; by eapply H|].
      destruct (lookup_lt_is_Some_2 kvss k) as [kvs Hkv]; [apply lookup_lt_Some in Hs; lia|].
      destruct (lookup_lt_is_Some_2 poss k) as [pos Hpo]; [apply lookup_lt_Some in Hs; lia|].
      destruct (Hf k s kvs pos Hk Hs Hkv) as (s' & E & Hp); [by eapply Hcur|by eapply H|].
      exists s'. split; [done|]. intros kvs' pos' E1' E2'. by simplify_eq. }
    rewrite Es. cbn [mbind option_bind]. rewrite E2. cbn [mbind option_bind].
    eexists. split; [done|]. split; [cbn; lia|].
    intros c s2 Hc kvs pos. destruct c as [|c]; cbn in Hc.
    - injection Hc as <-. rewrite Nat.add_0_r. apply Hs'.
    - replace (k + S c)%nat with (S k + c)%nat by lia. by apply H2. }
  destruct (Hgen 0%nat l) as (l' & E & Hl & H'); [done|].
  exists l'. split; [done|]. split; [lia|]. split; [lia|].
  intros c s kvs pos Hc. by apply H'.
Qed.

Lemma each_turn f l : each I f l = turn I f (length l) 0 l.
Proof.
  assert (forall k l1 n, (k + length l1 <= n)%nat -> turn I f n k l1 = mapM f l1) as H.
  { intros k l1. revert k. induction l1 as [|s l1 IH]; intros k n Hn; [done|].
    cbn [turn]. cbn [length] in Hn. rewrite decide_False by lia. rewrite IH by lia.
    done. }
  unfold each. symmetry. apply H. lia.
Qed.

Lemma each_all f l P P' :
  all_at l P ->
  (forall c s kvs pos, l !! c = Some s -> kvss !! c = Some kvs -> CursorOn okt cmp I kvs pos ->
     pos s (P c kvs) -> exists s', f s = Some s' /\ pos s' (P' c kvs)) ->
  exists l', each I f l = Some l' /\ all_at l' P'.
Proof.
  intros H Hf. rewrite each_turn.
  destruct (turn_all f (length l) l P P' H) as (l' & E & H').
  { intros c s kvs pos _. apply Hf. }
  exists l'. split; [done|]. destruct H as (L1 & L2 & _). destruct H' as (L1' & L2' & H').
  split; [done|]. split; [done|]. intros c s kvs pos Hc Hk Hp.
  specialize (H' c s kvs pos Hc Hk Hp). rewrite decide_False in H'; [done|].
  apply lookup_lt_Some in Hc. lia.
Qed.
(** The pair at merged position [p] is what child [c] stands on. *)
Definition owns (p c : nat) : Prop :=
  exists kvs kv, kvss !! c = Some kvs /\ M !! p = Some kv /\ kvs !! lo p kvs = Some kv.

Lemma owner_exists p : (p < length M)%nat -> exists c, owns p c.
Proof.
  intros Hp. destruct (lookup_lt_is_Some_2 M p Hp) as [kv Hkv].
  destruct (owner cmp kvss M Hsort Hcover p kv Hkv) as (c & kvs & Hc & H).
  exists c, kvs, kv. done.
Qed.

Lemma smallest_at l p c :
  all_at l (fun _ kvs => lo p kvs) -> owns p c -> FindSmallest cmp I l = Some c.
Proof.
  intros H (kvs & kv & Hc & Hp & Hkv). pose proof (lookup_lt_Some _ _ _ Hc) as Hlt.
  destruct (lookup_lt_is_Some_2 l c) as [s Hs]; [destruct H; lia|].
  destruct (child_entry l _ c s kvs H Hs Hc) as [_ He]. destruct (He kv Hkv) as (Hv & Hk & _).
  eapply FindSmallest_spec; [done|exact Hs|done|].
  intros c' s' Hs' Hne Hv'. destruct (all_at_child l _ c' s' H Hs') as (kvs' & _ & Hk' & _).
  destruct (child_entry l _ c' s' kvs' H Hs' Hk') as [Ev He']. rewrite Hv' in Ev. symmetry in Ev.
  apply Nat.ltb_lt in Ev. destruct (lookup_lt_is_Some_2 kvs' _ Ev) as [kv' Hkv'].
  destruct (He' kv' Hkv') as (_ & -> & _). rewrite Hk.
  pose proof (lo_at cmp M p kvs' kv' Hkv') as Hn.
  destruct (child_position kvss M Hin c' kvs' _ kv' Hk' Hkv') as [q Hq].
  assert (p <= length M)%nat as Hpl by (apply lookup_lt_Some in Hp; lia).
  rewrite (below_iff cmp M HM p q kv' Hpl Hq) in Hn.
  eapply (sorted_pairs cmp M p q); [done|done|done|].
  assert (q <> p); [|lia]. intros ->. apply Hne. assert (kv' = kv) as -> by congruence.
  eapply Hdisj; [exact Hk'|exact Hc| |]; by eapply list_elem_of_lookup_2.
Qed.

Lemma none_valid l P :
  all_at l P -> (forall c kvs, kvss !! c = Some kvs -> P c kvs = length kvs) ->
  forall s, s ∈ l -> it_Valid I s = false.
Proof.
  intros H HP s Hs. apply list_elem_of_lookup in Hs as [c Hs].
  destruct (all_at_child l P c s H Hs) as (kvs & _ & Hk & _).
  destruct (child_entry l P c s kvs H Hs Hk) as [-> _]. rewrite (HP c kvs Hk).
  apply Nat.ltb_irrefl.
Qed.

Lemma owns_S p c c' kvs' :
  owns p c -> kvss !! c' = Some kvs' ->
  lo (S p) kvs' = if decide (c' = c) then S (lo p kvs') else lo p kvs'.
Proof.
  intros (kvs & kv & Hc & Hp & Hkv) Hc'. case_decide as E.
  - subst c'. assert (kvs' = kvs) as -> by congruence. eapply lo_S_owner; eauto.
  - exact (lo_S_other cmp kvss M HM Hin Hdisj p c kvs c' kvs' kv Hp Hc Hkv Hc' E).
Qed.

Lemma largest_at l p c :
  all_at l (fun _ kvs => rev_lo (S p) kvs) -> owns p c -> FindLargest cmp I l = Some c.
Proof.
  intros H Ho. pose proof Ho as (kvs & kv & Hc & Hp & Hkv).
  pose proof (lookup_lt_Some _ _ _ Hc) as Hlt.
  destruct (lookup_lt_is_Some_2 l c) as [s Hs]; [destruct H; lia|].
  destruct (child_entry l _ c s kvs H Hs Hc) as [_ He].
  assert (rev_lo (S p) kvs = lo p kvs) as Er.
  { unfold Merger.rev_lo. by rewrite (owns_S p c c kvs Ho Hc), decide_True. }
  rewrite Er in He. destruct (He kv Hkv) as (Hv & Hk & _).
  eapply FindLargest_spec; [done|exact Hs|done|].
  intros c' s' Hs' Hne Hv'. destruct (all_at_child l _ c' s' H Hs') as (kvs' & _ & Hk' & _).
  destruct (child_entry l _ c' s' kvs' H Hs' Hk') as [Ev He']. rewrite Hv' in Ev. symmetry in Ev.
  apply Nat.ltb_lt in Ev. destruct (lookup_lt_is_Some_2 kvs' _ Ev) as [kv' Hkv'].
  destruct (He' kv' Hkv') as (_ & -> & _). rewrite Hk.
  assert (below cmp M p (fst kv')) as Hb.
  { unfold Merger.rev_lo in Ev, Hkv'. rewrite (owns_S p c c' kvs' Ho Hk'), decide_False in Ev, Hkv' by done.
    destruct (lo p kvs') as [|q] eqn:Eq; [lia|]. eapply lo_before; [|exact Hkv']. lia. }
  unfold below in Hb. by rewrite Hp in Hb.
Qed.

(** *** The position of the merger *)

Definition child_target (m : MergingIterator I) (p c : nat) (kvs : pairs) : nat :=
  match direction_ m, current_ m with
  | kReverse, Some c0 => if decide (c = c0) then lo p kvs else rev_lo p kvs
  | _, _ => lo p kvs
  end.

Record merge_pos (m : MergingIterator I) (p : nat) : Prop := {
  mp_bound : (p <= length M)%nat;
  mp_children : all_at (children_ m) (child_target m p);
  mp_current : match current_ m with Some c => owns p c | None => p = length M end
}.

Lemma all_at_ext l P P' :
  all_at l P -> (forall c kvs, kvss !! c = Some kvs -> P c kvs = P' c kvs) -> all_at l P'.
Proof.
  intros (L1 & L2 & H) HP. split; [done|]. split; [done|]. intros c s kvs pos Hc Hk Hp.
  rewrite <- HP by done. by eapply H.
Qed.

Lemma lo_end p kvs : (length M <= p)%nat -> lo p kvs = length kvs.
Proof. intros Hp. unfold Merger.lo. by rewrite (proj2 (lookup_ge_None _ _)). Qed.

(** Ending a forward move. *)
Lemma forward_pos l p :
  all_at l (fun _ kvs => lo p kvs) -> (p <= length M)%nat ->
  merge_pos (mkMerging l (FindSmallest cmp I l) kForward) p.
Proof.
  intros H Hp. split; [done|done|]. cbn [current_].
  destruct (decide (p < length M)%nat) as [Hlt|Hge].
  - destruct (owner_exists p Hlt) as [c Ho]. by rewrite (smallest_at l p c H Ho).
  - rewrite FindSmallest_none; [lia|]. eapply none_valid; [exact H|].
    intros c kvs _. apply lo_end. lia.
Qed.

(** Ending a backward move: the children stand before merged position [p]. *)
Lemma backward_pos l p :
  all_at l (fun _ kvs => rev_lo p kvs) -> (p <= length M)%nat ->
  merge_pos (mkMerging l (FindLargest cmp I l) kReverse)
    (match p with O => length M | S p' => p' end).
Proof.
  intros H Hp. destruct p as [|p].
  - assert (forall c kvs, kvss !! c = Some kvs -> rev_lo 0 kvs = length kvs) as H0.
    { intros c kvs Hc. unfold Merger.rev_lo.
      by rewrite (lo_0 cmp kvss M HM Hin c kvs Hc). }
    rewrite FindLargest_none by (eapply none_valid; [exact H|exact H0]).
    split; [lia| |done]. cbn [children_ child_target direction_ current_].
    eapply all_at_ext; [exact H|]. intros c kvs Hc. cbn. rewrite (H0 c kvs Hc), lo_end by lia. done.
  - destruct (owner_exists p ltac:(lia)) as [c Ho]. rewrite (largest_at l p c H Ho).
    split; [lia| |done]. cbn [children_ child_target direction_ current_].
    eapply all_at_ext; [exact H|]. intros c' kvs Hc. cbn. unfold Merger.rev_lo.
    rewrite (owns_S p c c' kvs Ho Hc). by case_decide.
Qed.

Lemma Merging_entry m p kv :
  merge_pos m p -> M !! p = Some kv -> Merging_key I m = fst kv /\ Merging_value I m = snd kv.
Proof.
  intros [Hp Hch Hc] Hkv. unfold Merging_key, Merging_value, current_child.
  destruct (current_ m) as [c|] eqn:Ec; [|apply lookup_lt_Some in Hkv; lia].
  destruct Hc as (kvs & kv' & Hc & Hp' & Hkv'). assert (kv' = kv) as -> by congruence.
  cbn [mbind option_bind]. destruct (lookup_lt_is_Some_2 (children_ m) c) as [s Hs].
  { apply lookup_lt_Some in Hc. destruct Hch. lia. }
  rewrite Hs. destruct (child_entry _ _ c s kvs Hch Hs Hc) as [_ He].
  assert (child_target m p c kvs = lo p kvs) as Et.
  { unfold child_target. rewrite Ec. destruct (direction_ m); [done|]. by rewrite decide_True. }
  rewrite Et in He. by destruct (He kv Hkv').
Qed.
(** *** Changing the direction *)

(** A child away from the current one, sought to the key of merged position
    [p], stands at [lo p]. *)
Lemma child_seek c s kvs pos p kv q :
  kvss !! c = Some kvs -> CursorOn okt cmp I kvs pos -> pos s q -> M !! p = Some kv ->
  exists s', it_Seek I s (fst kv) = Some s' /\ pos s' (lo p kvs).
Proof.
  intros Hc C Hs Hp. destruct (cur_seek_on s q (fst kv) Hs (Hokt kv ltac:(by eapply list_elem_of_lookup_2))) as (s' & E & H).
  exists s'. split; [done|]. unfold Merger.lo. by rewrite Hp.
Qed.

Lemma turn_forward_other p c c' s kvs pos kv q :
  owns p c -> c' <> c -> M !! p = Some kv -> kvss !! c' = Some kvs -> CursorOn okt cmp I kvs pos ->
  pos s q -> exists s', turn_forward cmp I (fst kv) s = Some s' /\ pos s' (lo p kvs).
Proof.
  intros Ho Hne Hp Hc C Hs. destruct (child_seek c' s kvs pos p kv q Hc C Hs Hp) as (s1 & E & H1).
  unfold turn_forward. rewrite E. cbn [mbind option_bind].
  destruct (it_Valid I s1) eqn:Ev; cbn [andb]; [|by exists s1].
  assert (cmp (fst kv) (it_key I s1) <> Eq) as Hn.
  { rewrite (cur_valid s1 _ H1) in Ev. apply Nat.ltb_lt in Ev.
    destruct (lookup_lt_is_Some_2 kvs _ Ev) as [kv' Hkv']. destruct (cur_entry _ _ _ H1 Hkv') as [-> _].
    destruct (child_position kvss M Hin c' kvs _ kv' Hc Hkv') as [q' Hq'].
    intros Heq. assert (q' = p) as ->.
    { destruct (Nat.lt_total q' p) as [Hl|[?|Hl]]; [|done|].
      - pose proof (sorted_pairs cmp M q' p _ _ HM Hq' Hp Hl) as X.
        apply (cmp_lt_gt cmp) in X. congruence.
      - pose proof (sorted_pairs cmp M p q' _ _ HM Hp Hq' Hl) as X. congruence. }
    assert (kv' = kv) as -> by congruence. destruct Ho as (kvs0 & kv0 & Hc0 & Hp0 & Hkv0).
    assert (kv0 = kv) as -> by congruence. apply Hne.
    eapply Hdisj; [exact Hc|exact Hc0| |]; by eapply list_elem_of_lookup_2. }
  destruct (cmp (fst kv) (it_key I s1)); [done| |]; by exists s1.
Qed.

Lemma turn_backward_other p c s kvs pos kv q :
  M !! p = Some kv -> kvss !! c = Some kvs -> CursorOn okt cmp I kvs pos ->
  pos s q -> exists s', turn_backward I (fst kv) s = Some s' /\ pos s' (rev_lo p kvs).
Proof.
  intros Hp Hc C Hs. destruct (child_seek c s kvs pos p kv q Hc C Hs Hp) as (s1 & E & H1).
  unfold turn_backward. rewrite E. cbn [mbind option_bind].
  rewrite (cur_valid s1 _ H1). unfold Merger.rev_lo.
  destruct (lo p kvs <? length kvs)%nat eqn:Ev.
  - apply Nat.ltb_lt in Ev. destruct (cur_prev s1 _ H1 Ev) as (s2 & E2 & H2). by exists s2.
  - apply Nat.ltb_ge in Ev. pose proof (lo_le cmp M p kvs) as Hle.
    destruct (cur_last s1 _ H1) as (s2 & E2 & H2). exists s2. split; [done|].
    assert (lo p kvs = length kvs) as -> by lia. destruct (length kvs) as [|n]; [done|].
    by replace n with (S n - 1)%nat by lia.
Qed.

(** Replacing the current child. *)
Lemma all_at_insert l P c s kvs pos n :
  all_at l P -> kvss !! c = Some kvs -> poss !! c = Some pos -> pos s n ->
  all_at (<[c := s]> l) (fun c' kvs' => if decide (c' = c) then n else P c' kvs').
Proof.
  intros (L1 & L2 & H) Hc Hp Hs. split; [by rewrite length_insert|].
  split; [by rewrite length_insert|]. intros c' s' kvs' pos' Hl Hk Hp'. case_decide as E.
  - subst c'. rewrite list_lookup_insert_eq in Hl by (apply lookup_lt_Some in Hc; lia).
    by simplify_eq.
  - rewrite list_lookup_insert_ne in Hl by done. by eapply H.
Qed.

Lemma current_at m p c :
  merge_pos m p -> current_ m = Some c ->
  exists kvs kv, owns p c /\ kvss !! c = Some kvs /\ M !! p = Some kv /\
    kvs !! lo p kvs = Some kv /\ child_target m p c kvs = lo p kvs /\ Merging_key I m = fst kv.
Proof.
  intros H Ec. pose proof H as [Hb Hch Hc]. rewrite Ec in Hc. pose proof Hc as (kvs & kv & Hk & Hp & Hkv).
  exists kvs, kv. repeat (split; [done|]). split.
  - unfold child_target. rewrite Ec. destruct (direction_ m); [done|]. by rewrite decide_True.
  - by destruct (Merging_entry m p kv H Hp).
Qed.

(** The children after the loop of [Next] (of [Prev]) that prepares the move. *)
Lemma Next_children m p c :
  merge_pos m p -> current_ m = Some c ->
  exists l, match direction_ m with
            | kForward => Some (children_ m)
            | kReverse => turn I (turn_forward cmp I (Merging_key I m)) c 0 (children_ m)
            end = Some l /\ all_at l (fun _ kvs => lo p kvs).
Proof.
  intros H Ec. destruct (current_at m p c H Ec) as (kvs & kv & Ho & Hc & Hp & Hkv & Et & ->).
  pose proof (mp_children _ _ H) as Hch. destruct (direction_ m) eqn:Ed.
  - exists (children_ m). split; [done|]. eapply all_at_ext; [exact Hch|].
    intros c' kvs' _. unfold child_target. by rewrite Ed.
  - destruct (turn_all (turn_forward cmp I (fst kv)) c _ _ (fun _ kvs => lo p kvs) Hch) as (l & E & Hl).
    { intros c' s kvs' pos Hne _ Hk' C Hs. eapply turn_forward_other; eauto. }
    exists l. split; [done|]. eapply all_at_ext; [exact Hl|]. intros c' kvs' Hc'. cbn.
    case_decide as E'; [|done]. subst. assert (kvs' = kvs) as -> by congruence. done.
Qed.

Lemma Prev_children m p c :
  merge_pos m p -> current_ m = Some c ->
  exists l, match direction_ m with
            | kReverse => Some (children_ m)
            | kForward => turn I (turn_backward I (Merging_key I m)) c 0 (children_ m)
            end = Some l /\
    all_at l (fun c' kvs => if decide (c' = c) then lo p kvs else rev_lo p kvs).
Proof.
  intros H Ec. destruct (current_at m p c H Ec) as (kvs & kv & Ho & Hc & Hp & Hkv & Et & ->).
  pose proof (mp_children _ _ H) as Hch. destruct (direction_ m) eqn:Ed.
  - destruct (turn_all (turn_backward I (fst kv)) c _ _ (fun _ kvs => rev_lo p kvs) Hch) as (l & E & Hl).
    { intros c' s kvs' pos Hne _ Hk' C Hs. eapply turn_backward_other; eauto. }
    exists l. split; [done|]. eapply all_at_ext; [exact Hl|]. intros c' kvs' Hc'. cbn.
    case_decide as E'; [|done]. subst. assert (kvs' = kvs) as -> by congruence. done.
  - exists (children_ m). split; [done|]. eapply all_at_ext; [exact Hch|].
    intros c' kvs' _. unfold child_target. by rewrite Ed, Ec.
Qed.

Lemma current_moves l P c kvs kv :
  all_at l P -> kvss !! c = Some kvs -> kvs !! P c kvs = Some kv ->
  exists s pos, l !! c = Some s /\ poss !! c = Some pos /\ CursorOn okt cmp I kvs pos /\
    pos s (P c kvs) /\ (P c kvs < length kvs)%nat.
Proof.
  intros H Hc Hkv. destruct (lookup_lt_is_Some_2 l c) as [s Hs].
  { apply lookup_lt_Some in Hc. destruct H. lia. }
  destruct (all_at_child l P c s H Hs) as (kvs' & pos & Hk & Hp & C & Hpos).
  assert (kvs' = kvs) as -> by congruence. exists s, pos. repeat (split; [done|]).
  by apply lookup_lt_Some in Hkv.
Qed.

Lemma Merging_Next_pos m p :
  merge_pos m p -> (p < length M)%nat ->
  exists m', Merging_Next cmp I m = Some m' /\ merge_pos m' (S p).
Proof.
  intros H Hlt. unfold Merging_Next. destruct (current_ m) as [c|] eqn:Ec.
  2:{ pose proof (mp_current _ _ H) as Hc. rewrite Ec in Hc. lia. }
  cbn [mbind option_bind]. destruct (Next_children m p c H Ec) as (l & -> & Hl).
  cbn [mbind option_bind]. destruct (current_at m p c H Ec) as (kvs & kv & Ho & Hc & Hp & Hkv & _).
  destruct (current_moves l _ c kvs kv Hl Hc Hkv) as (s & pos & -> & Hpo & C & Hs & Hb).
  cbn [mbind option_bind]. destruct (cur_next s _ Hs Hb) as (s' & -> & Hs').
  cbn [mbind option_bind]. eexists. split; [done|]. apply forward_pos; [|lia].
  eapply all_at_ext; [exact (all_at_insert _ _ _ _ _ _ _ Hl Hc Hpo Hs')|].
  intros c' kvs' Hc'. cbn. rewrite (owns_S p c c' kvs' Ho Hc'). case_decide; [|done].
  subst. assert (kvs' = kvs) as -> by congruence. done.
Qed.

Lemma Merging_Prev_pos m p :
  merge_pos m p -> (p < length M)%nat ->
  exists m', Merging_Prev cmp I m = Some m' /\
    merge_pos m' (match p with O => length M | S p' => p' end).
Proof.
  intros H Hlt. unfold Merging_Prev. destruct (current_ m) as [c|] eqn:Ec.
  2:{ pose proof (mp_current _ _ H) as Hc. rewrite Ec in Hc. lia. }
  cbn [mbind option_bind]. destruct (Prev_children m p c H Ec) as (l & -> & Hl).
  cbn [mbind option_bind]. destruct (current_at m p c H Ec) as (kvs & kv & Ho & Hc & Hp & Hkv & _).
  destruct (current_moves l _ c kvs kv Hl Hc) as (s & pos & -> & Hpo & C & Hs & Hb).
  { by rewrite decide_True. }
  rewrite decide_True in Hs, Hb by done.
  cbn [mbind option_bind]. destruct (cur_prev s _ Hs Hb) as (s' & -> & Hs').
  cbn [mbind option_bind]. eexists. split; [done|]. apply backward_pos; [|lia].
  eapply all_at_ext; [exact (all_at_insert _ _ _ _ _ _ _ Hl Hc Hpo Hs')|].
  intros c' kvs' Hc'. cbn. case_decide; [|done].
  subst. assert (kvs' = kvs) as -> by congruence. done.
Qed.

Lemma Merging_status_ok l P : all_at l P -> Merging_status_loop I l = Status_OK.
Proof.
  intros H. assert (forall s, s ∈ l -> it_status I s = Status_OK) as Hs.
  { intros s Hs. apply list_elem_of_lookup in Hs as [c Hs].
    destruct (all_at_child l P c s H Hs) as (kvs & pos & _ & _ & C & Hp). by eapply cur_status. }
  clear H. induction l as [|s l IH]; [done|]. cbn [Merging_status_loop].
  rewrite (Hs s) by left. apply IH. intros s' Hs'. apply Hs. by right.
Qed.

Lemma merging_cursor : CursorOn okt cmp (Merging cmp I) M merge_pos.
Proof.
  split.
  - intros m p H. apply H.
  - intros m p H. cbn. unfold Merging_Valid. pose proof (mp_current _ _ H) as Hc.
    destruct (current_ m) as [c|].
    + destruct Hc as (? & ? & _ & Hp & _). symmetry. apply Nat.ltb_lt. by apply lookup_lt_Some in Hp.
    + subst. symmetry. apply Nat.ltb_irrefl.
  - intros m p kv H. by apply Merging_entry.
  - intros m p H. cbn. eapply Merging_status_ok, H.
  - intros m p H. cbn. unfold Merging_SeekToFirst.
    destruct (each_all (it_SeekToFirst I) (children_ m) _ (fun _ kvs => lo 0 kvs) (mp_children _ _ H))
      as (l & -> & Hl).
    { intros c s kvs pos _ Hc C Hs. destruct (cur_first s _ Hs) as (s' & E & Hs').
      exists s'. split; [done|]. by rewrite (lo_0 cmp kvss M HM Hin c kvs Hc). }
    eexists. split; [done|]. apply forward_pos; [done|lia].
  - intros m p H. cbn. unfold Merging_SeekToLast.
    destruct (each_all (it_SeekToLast I) (children_ m) _ (fun _ kvs => rev_lo (length M) kvs)
      (mp_children _ _ H)) as (l & -> & Hl).
    { intros c s kvs pos _ Hc C Hs. destruct (cur_last s _ Hs) as (s' & E & Hs').
      exists s'. split; [done|]. unfold Merger.rev_lo. rewrite lo_end by lia.
      destruct (length kvs) as [|n]; [done|]. by replace n with (S n - 1)%nat by lia. }
    eexists. split; [done|]. pose proof (backward_pos l (length M) Hl ltac:(lia)) as HB.
    destruct (length M) as [|n]; [done|]. by replace (S n - 1)%nat with n by lia.
  - intros m p t H Ht. cbn. unfold Merging_Seek.
    destruct (each_all (fun s => it_Seek I s t) (children_ m) _
      (fun _ kvs => lo (seek_pos cmp t (map fst M)) kvs) (mp_children _ _ H)) as (l & -> & Hl).
    { intros c s kvs pos _ Hc C Hs. destruct (cur_seek_on s _ t Hs Ht) as (s' & E & Hs').
      exists s'. split; [done|]. by rewrite (lo_seek cmp kvss M HM Hin c kvs t Hc). }
    eexists. split; [done|]. apply forward_pos; [done|].
    etrans; [apply seek_pos_le|]. by rewrite length_map.
  - intros m p H Hlt. by apply Merging_Next_pos.
  - intros m p H Hlt. by apply Merging_Prev_pos.
Qed.

(** A new merger over children that are not valid stands past the end. *)
Lemma Merging_new_pos l :
  all_at l (fun _ kvs => length kvs) -> merge_pos (MergingIterator_new I l) (length M).
Proof.
  intros H. split; [done| |done]. cbn [children_ MergingIterator_new].
  eapply all_at_ext; [exact H|]. intros c kvs _. unfold child_target. cbn. by rewrite lo_end.
Qed.
End Correct.

(** ** Properties *)

Lemma concat_elem {A} (ls : list (list A)) x :
  x ∈ concat ls <-> exists c l, ls !! c = Some l /\ x ∈ l.
Proof.
  induction ls as [|l ls IH]; cbn; [split; [by intros ?%elem_of_nil|by intros (? & ? & ? & _)]|].
  rewrite elem_of_app, IH. split.
  - intros [H|(c & l' & Hc & H)]; [by exists 0%nat, l|by exists (S c), l'].
  - intros ([|c] & l' & Hc & H); cbn in Hc; [injection Hc as ->; by left|right; eauto].
Qed.

Lemma concat_disjoint {A} (ls : list (list A)) c1 c2 l1 l2 x :
  NoDup (concat ls) -> ls !! c1 = Some l1 -> ls !! c2 = Some l2 -> x ∈ l1 -> x ∈ l2 -> c1 = c2.
Proof.
  revert c1 c2. induction ls as [|l ls IH]; intros c1 c2 Hnd H1 H2 Hx1 Hx2; [done|].
  cbn in Hnd. apply list.NoDup_app in Hnd as (_ & Hd & Hnd).
  destruct c1 as [|c1], c2 as [|c2]; cbn in H1, H2; [done| | |f_equal; eauto].
  - injection H1 as ->. destruct (Hd x Hx1). apply concat_elem. eauto.
  - injection H2 as ->. destruct (Hd x Hx2). apply concat_elem. eauto.
Qed.

Lemma sorted_keys_NoDup cmp `{!OrderLaws cmp} (l : pairs) : sorted_keys cmp (map fst l) -> NoDup l.
Proof.
  intros Hs. apply NoDup_alt. intros i j x Hi Hj.
  destruct (Nat.lt_total i j) as [H|[?|H]]; [|done|].
  - pose proof (sorted_pairs cmp l i j x x Hs Hi Hj H) as X. by rewrite (cmp_refl cmp) in X.
  - pose proof (sorted_pairs cmp l j i x x Hs Hj Hi H) as X. by rewrite (cmp_refl cmp) in X.
Qed.

Lemma merging_correct (okt : bytes -> Prop) cmp `{!OrderLaws cmp} (I : IteratorOps)
    (children : list (IState I)) (kvss : list pairs) (poss : list (IState I -> nat -> Prop)) (M : pairs) :
  Forall3 (fun s kvs pos => CursorOn okt cmp I kvs pos /\ pos s (length kvs)) children kvss poss ->
  Forall (fun kvs => sorted_keys cmp (map fst kvs)) kvss ->
  sorted_keys cmp (map fst M) -> M ≡ₚ concat kvss -> Forall (fun kv => okt (fst kv)) M ->
  exists pos, CursorOn okt cmp (Merging cmp I) M pos /\
    pos (MergingIterator_new I children) (length M).
Proof.
  intros HF Hs HM HP Hk. exists (merge_pos cmp I kvss poss M).
  assert (forall c kvs, kvss !! c = Some kvs -> sorted_keys cmp (map fst kvs)) as Hsort
    by (by rewrite Forall_lookup in Hs).
  assert (forall c kvs kv, kvss !! c = Some kvs -> kv ∈ kvs -> kv ∈ M) as Hin
    by (intros c kvs kv Hc Hkv; rewrite HP; apply concat_elem; eauto).
  assert (forall kv, kv ∈ M -> exists c kvs, kvss !! c = Some kvs /\ kv ∈ kvs) as Hcover
    by (intros kv Hkv; rewrite HP in Hkv; by apply concat_elem).
  assert (NoDup (concat kvss)) as Hnd by (rewrite <- HP; by eapply sorted_keys_NoDup).
  split.
  - apply merging_cursor; auto.
    + intros c1 c2 kvs1 kvs2 kv. by apply concat_disjoint.
    + by apply list.Forall_forall.
    + intros c kvs pos Hc Hp. destruct (Forall3_lookup_m _ _ _ _ c kvs HF Hc) as (s & pos' & _ & Hp' & C & _).
      assert (pos' = pos) as -> by congruence. done.
  - apply Merging_new_pos. split; [by eapply Forall3_length_lm|]. split; [by eapply Forall3_length_lr|].
    intros c s kvs pos Hc Hkc Hp. destruct (Forall3_lookup_l _ _ _ _ c s HF Hc) as (kvs' & pos' & Hk' & Hp' & _ & H).
    assert (kvs' = kvs) as -> by congruence.
    assert (pos' = pos) as -> by congruence. done.
Qed.

(** A sorted list is determined by its elements. *)
Lemma sorted_perm_eq cmp `{!OrderLaws cmp} (l1 l2 : pairs) :
  sorted_keys cmp (map fst l1) -> sorted_keys cmp (map fst l2) -> l1 ≡ₚ l2 -> l1 = l2.
Proof.
  unfold sorted_keys. intros H1 H2 HP.
  assert (forall l : pairs, StronglySorted (fun a b => cmp a b = Lt) (map fst l) ->
    StronglySorted (fun a b => cmp (fst a) (fst b) = Lt) l) as Hs.
  { induction l as [|x l IH]; intros Hl; [constructor|]. cbn [map] in Hl. apply StronglySorted_inv in Hl as [Hl Hx].
    constructor; [by apply IH|]. by rewrite list.Forall_fmap in Hx. }
  eapply (StronglySorted_unique_strong (fun a b => cmp (fst a) (fst b) = Lt)); [|by apply Hs|by apply Hs|done].
  intros x y _ _ E1 E2. apply (cmp_lt_gt cmp) in E1. congruence.
Qed.

(** What [NewMergingIterator] returns is a cursor over the sorted union of the
    children, however many there are. *)
Lemma merged_correct (okt : bytes -> Prop) cmp `{!OrderLaws cmp} (I : IteratorOps)
    (children : list (IState I)) (kvss : list pairs) (poss : list (IState I -> nat -> Prop)) (M : pairs) :
  Forall3 (fun s kvs pos => CursorOn okt cmp I kvs pos /\ pos s (length kvs)) children kvss poss ->
  Forall (fun kvs => sorted_keys cmp (map fst kvs)) kvss ->
  sorted_keys cmp (map fst M) -> M ≡ₚ concat kvss -> Forall (fun kv => okt (fst kv)) M ->
  exists pos, CursorOn okt cmp (MergedOps cmp I) M pos /\ pos (NewMergingIterator cmp I children) (length M).
Proof.
  intros HF Hs HM HP Hk. destruct (merging_correct okt cmp I children kvss poss M HF Hs HM HP Hk) as (mpos & HC & Hp).
  destruct HF as [|s kvs pos children kvss poss [Hc Hpos] HF].
  - apply Permutation_nil_r in HP as ->.
    exists (dispatch_pos (merged_ops cmp I) MergedNone (fun s i => s = Status_OK /\ i = 0%nat)).
    split; [|by exists Status_OK]. apply dispatch_cursor, cursor_weaken, empty_cursor.
  - destruct HF as [|s2 kvs2 pos2 children kvss poss HF].
    + cbn [concat] in HP. rewrite app_nil_r in HP. apply list.Forall_cons in Hs as [Hs _].
      assert (M = kvs) as -> by by apply (sorted_perm_eq cmp).
      exists (dispatch_pos (merged_ops cmp I) MergedOne pos). split; [by apply dispatch_cursor|by exists s].
    + exists (dispatch_pos (merged_ops cmp I) MergedMany mpos). split; [by apply dispatch_cursor|]. by eexists.
Qed.

(** C15: The merging iterator is a cursor over the sorted union of its
    children, in both directions and across every change of direction: if each
    child is a cursor over a sorted list of pairs, all keys being different,
    then the merger visits every pair of every child exactly once, in key
    order, [Seek] finds the first key that is not smaller over all children,
    and [Next] and [Prev] stay correct when they alternate.  [okt] are the
    targets the children can seek to; their own keys are among them. *)
Theorem merging_iterator_refines (okt : bytes -> Prop) cmp `{!OrderLaws cmp} (I : IteratorOps)
    (children : list (IState I)) (kvss : list pairs) (poss : list (IState I -> nat -> Prop)) (M : pairs) :
  Forall3 (fun s kvs pos => CursorOn okt cmp I kvs pos /\ pos s (length kvs)) children kvss poss ->
  Forall (fun kvs => sorted_keys cmp (map fst kvs)) kvss ->
  sorted_keys cmp (map fst M) -> M ≡ₚ concat kvss -> Forall (fun kv => okt (fst kv)) M ->
  exists pos, CursorOn okt cmp (Merging cmp I) M pos /\
    pos (MergingIterator_new I children) (length M).
Proof. apply merging_correct. apply _. Qed.

(** Two data blocks whose keys alternate. *)
Definition sample_left : pairs := [(str:"a", str:"1"); (str:"d", str:"4"); (str:"e", str:"5")].
Definition sample_right : pairs := [(str:"b", str:"2"); (str:"c", str:"3"); (str:"f", str:"6")].
Definition sample_blocks : list Block :=
  [Block_new (build_block 2 sample_left); Block_new (build_block 2 sample_right)].
Definition sample_merge : IteratorOps :=
  Merging Slice_compare (Dispatch (Block_Iterator Slice_compare)).
Definition sample_merger : IState sample_merge :=
  MergingIterator_new (Dispatch (Block_Iterator Slice_compare))
    (map (fun b => existT b (Block_NewIterator b)) sample_blocks).

Lemma merging_iterator_refines_witness :
  exists s1 s2 s3, it_Seek sample_merge sample_merger (str:"bb") = Some s1 /\
    it_key sample_merge s1 = str:"c" /\
    it_Prev sample_merge s1 = Some s2 /\ it_key sample_merge s2 = str:"b" /\
    it_Next sample_merge s2 = Some s3 /\ it_value sample_merge s3 = str:"3".
Proof.
  destruct (build_block_cursor Slice_compare 2 sample_left ltac:(lia) ltac:(repeat constructor)
    ltac:(vm_compute; reflexivity) ltac:(repeat constructor; vm_compute; reflexivity)) as (p1 & C1 & H1).
  destruct (build_block_cursor Slice_compare 2 sample_right ltac:(lia) ltac:(repeat constructor)
    ltac:(vm_compute; reflexivity) ltac:(repeat constructor; vm_compute; reflexivity)) as (p2 & C2 & H2).
  set (ops := Block_Iterator Slice_compare).
  set (M := [(str:"a", str:"1"); (str:"b", str:"2"); (str:"c", str:"3"); (str:"d", str:"4");
             (str:"e", str:"5"); (str:"f", str:"6")] : pairs).
  destruct (merging_iterator_refines (fun _ => True) Slice_compare (Dispatch ops) (children_ sample_merger)
    [sample_left; sample_right]
    [dispatch_pos ops _ p1; dispatch_pos ops _ p2] M) as (pos & C & H).
  { constructor; [split; [by apply dispatch_cursor|by eexists]|].
    constructor; [split; [by apply dispatch_cursor|by eexists]|constructor]. }
  { repeat constructor. } { repeat constructor. }
  { apply (bool_decide_unpack _). vm_compute. exact I. }
  { by apply list.Forall_forall. }
  destruct (cur_seek (C:=C) _ _ (str:"bb") H) as (s1 & E1 & K1).
  destruct (cur_prev (CursorOn:=C) _ _ K1) as (s2 & E2 & K2); [vm_compute; lia|].
  destruct (cur_next (CursorOn:=C) _ _ K2) as (s3 & E3 & K3); [vm_compute; lia|].
  exists s1, s2, s3. split; [exact E1|].
  split; [exact (proj1 (cur_entry (CursorOn:=C) _ _ _ K1 eq_refl))|].
  split; [exact E2|]. split; [exact (proj1 (cur_entry (CursorOn:=C) _ _ _ K2 eq_refl))|].
  split; [exact E3|exact (proj2 (cur_entry (CursorOn:=C) _ _ _ K3 eq_refl))].
Defined.
