(* ===== verification/TwoLevelIterator.v ===== *)
(** * The two-level iterator

    src/table/two_level_iterator.cc: an iterator over the concatenation of the
    blocks an index points to.  A table's iterator is one (index block, data
    blocks), and so is the iterator over a sorted level (file list, tables).

    The theorem: if the index is a cursor over separators that divide the
    blocks' keys, and the block function opens each block as a cursor, the
    two-level iterator is a cursor over the concatenation of the blocks.
    Empty blocks are skipped in both directions. *)

From stdpp Require Import sets sorting.
From S2P Require Import Prelude Slice Iterator Comparator BlockBuilder Block.

Section Operations.
(** The index iterator, the data iterators and [block_function_] with its
    [arg_] and [options_]. *)
Context (II DI : IteratorOps) (block_function_ : bytes -> IState DI).
(** A bound on the rounds of the skipping loops. *)
Context (fuel : nat).

(** [class TwoLevelIterator] *)
Record TwoLevelIterator := mkTwoLevel {
  status_ : Status; index_iter_ : IState II; data_iter_ : option (IState DI);
  data_block_handle_ : bytes }.

(** [TwoLevelIterator::TwoLevelIterator], [NewTwoLevelIterator] *)
Definition NewTwoLevelIterator (index_iter : IState II) : TwoLevelIterator :=
  mkTwoLevel Status_OK index_iter None [].

(** [Valid()], [key()], [value()]: the cached validity of a null iterator is
    false. *)
Definition TwoLevel_Valid (t : TwoLevelIterator) : bool :=
  match data_iter_ t with Some d => it_Valid DI d | None => false end.
Definition TwoLevel_key (t : TwoLevelIterator) : bytes :=
  match data_iter_ t with Some d => it_key DI d | None => [] end.
Definition TwoLevel_value (t : TwoLevelIterator) : bytes :=
  match data_iter_ t with Some d => it_value DI d | None => [] end.

Definition TwoLevel_status (t : TwoLevelIterator) : Status :=
  if negb (ok (it_status II (index_iter_ t))) then it_status II (index_iter_ t)
  else match data_iter_ t with
       | Some d => if negb (ok (it_status DI d)) then it_status DI d else status_ t
       | None => status_ t
       end.

(** [SaveError(s)]: the first error stays. *)
Definition SaveError (t : TwoLevelIterator) (s : Status) : TwoLevelIterator :=
  if ok (status_ t) && negb (ok s)
  then mkTwoLevel s (index_iter_ t) (data_iter_ t) (data_block_handle_ t) else t.

(** [SetDataIterator(data_iter)] *)
Definition SetDataIterator (t : TwoLevelIterator) (data_iter : option (IState DI)) : TwoLevelIterator :=
  let t := match data_iter_ t with Some d => SaveError t (it_status DI d) | None => t end in
  mkTwoLevel (status_ t) (index_iter_ t) data_iter (data_block_handle_ t).

(** [InitDataBlock()]: the data iterator of the block the index stands on is
    kept, another one is opened. *)
Definition InitDataBlock (t : TwoLevelIterator) : TwoLevelIterator :=
  if negb (it_Valid II (index_iter_ t)) then SetDataIterator t None
  else
    let handle := it_value II (index_iter_ t) in
    if (match data_iter_ t with Some _ => true | None => false end) &&
       (match Slice_compare handle (data_block_handle_ t) with Eq => true | _ => false end)
    then t
    else
      let iter := block_function_ handle in
      SetDataIterator (mkTwoLevel (status_ t) (index_iter_ t) (data_iter_ t) handle) (Some iter).

Definition with_index (t : TwoLevelIterator) (i : IState II) : TwoLevelIterator :=
  mkTwoLevel (status_ t) i (data_iter_ t) (data_block_handle_ t).
Definition with_data (t : TwoLevelIterator) (d : IState DI) : TwoLevelIterator :=
  mkTwoLevel (status_ t) (index_iter_ t) (Some d) (data_block_handle_ t).

(** [if (data_iter_.iter() != nullptr) data_iter_.f()] *)
Definition move_data (f : IState DI -> option (IState DI)) (t : TwoLevelIterator)
    : option TwoLevelIterator :=
  match data_iter_ t with
  | Some d => d ← f d; Some (with_data t d)
  | None => Some t
  end.

(** [SkipEmptyDataBlocksForward()] and [SkipEmptyDataBlocksBackward()] *)
Fixpoint SkipEmptyDataBlocksForward (n : nat) (t : TwoLevelIterator) : option TwoLevelIterator :=
  match n with
  | O => None
  | S n =>
      if TwoLevel_Valid t then Some t
      else if negb (it_Valid II (index_iter_ t)) then Some (SetDataIterator t None)
      else
        i ← it_Next II (index_iter_ t);
        t ← move_data (it_SeekToFirst DI) (InitDataBlock (with_index t i));
        SkipEmptyDataBlocksForward n t
  end.

Fixpoint SkipEmptyDataBlocksBackward (n : nat) (t : TwoLevelIterator) : option TwoLevelIterator :=
  match n with
  | O => None
  | S n =>
      if TwoLevel_Valid t then Some t
      else if negb (it_Valid II (index_iter_ t)) then Some (SetDataIterator t None)
      else
        i ← it_Prev II (index_iter_ t);
        t ← move_data (it_SeekToLast DI) (InitDataBlock (with_index t i));
        SkipEmptyDataBlocksBackward n t
  end.

(** [Seek(target)], [SeekToFirst()], [SeekToLast()], [Next()], [Prev()] *)
Definition TwoLevel_Seek (t : TwoLevelIterator) (target : bytes) : option TwoLevelIterator :=
  i ← it_Seek II (index_iter_ t) target;
  t ← move_data (fun d => it_Seek DI d target) (InitDataBlock (with_index t i));
  SkipEmptyDataBlocksForward fuel t.

Definition TwoLevel_SeekToFirst (t : TwoLevelIterator) : option TwoLevelIterator :=
  i ← it_SeekToFirst II (index_iter_ t);
  t ← move_data (it_SeekToFirst DI) (InitDataBlock (with_index t i));
  SkipEmptyDataBlocksForward fuel t.

Definition TwoLevel_SeekToLast (t : TwoLevelIterator) : option TwoLevelIterator :=
  i ← it_SeekToLast II (index_iter_ t);
  t ← move_data (it_SeekToLast DI) (InitDataBlock (with_index t i));
  SkipEmptyDataBlocksBackward fuel t.

Definition TwoLevel_Next (t : TwoLevelIterator) : option TwoLevelIterator :=
  d ← data_iter_ t; d ← it_Next DI d;
  SkipEmptyDataBlocksForward fuel (with_data t d).

Definition TwoLevel_Prev (t : TwoLevelIterator) : option TwoLevelIterator :=
  d ← data_iter_ t; d ← it_Prev DI d;
  SkipEmptyDataBlocksBackward fuel (with_data t d).

Definition TwoLevel : IteratorOps :=
  mkIteratorOps TwoLevelIterator TwoLevel_Valid TwoLevel_key TwoLevel_value TwoLevel_status
    TwoLevel_SeekToFirst TwoLevel_SeekToLast TwoLevel_Seek TwoLevel_Next TwoLevel_Prev.
End Operations.

Arguments mkTwoLevel {II DI} _ _ _ _.
Arguments status_ {II DI} _.
Arguments index_iter_ {II DI} _.
Arguments data_iter_ {II DI} _.
Arguments data_block_handle_ {II DI} _.
Arguments NewTwoLevelIterator {II DI} _.

(** ** Proofs *)

Section Correct.
Context (cmp : bytes -> bytes -> comparison) `{!OrderLaws cmp}.
Context (II DI : IteratorOps) (block_function_ : bytes -> IState DI) (fuel : nat).
(** What the index lists, separators with handles, and the blocks behind the
    handles. *)
Context (idx : list (bytes * bytes)) (ipos : IState II -> nat -> Prop).
Context (contents : bytes -> list (bytes * bytes)) (dpos : bytes -> IState DI -> nat -> Prop).
Context (Hidx : Cursor cmp II idx ipos).
Context (Hdata : forall sep h, (sep, h) ∈ idx ->
  Cursor cmp DI (contents h) (dpos h) /\ dpos h (block_function_ h) (length (contents h))).
(** The separators divide the keys. *)
Context (Hupper : forall j sep h kv, idx !! j = Some (sep, h) -> kv ∈ contents h ->
  cmp sep (fst kv) <> Lt).
Context (Hlower : forall i j sep h sep' h' kv, idx !! i = Some (sep, h) -> idx !! j = Some (sep', h') ->
  (i < j)%nat -> kv ∈ contents h' -> cmp sep (fst kv) = Lt).
Context (Hfuel : (length idx < fuel)%nat).

Abbreviation TL := (TwoLevelIterator II DI).

Definition blocks (l : list (bytes * bytes)) : list (bytes * bytes) :=
  concat (map (fun e => contents (snd e)) l).
Definition K : list (bytes * bytes) := blocks idx.
(** Where block [j] starts in the concatenation. *)
Definition offset (j : nat) : nat := length (blocks (take j idx)).

Lemma blocks_app l1 l2 : blocks (l1 ++ l2) = blocks l1 ++ blocks l2.
Proof. unfold blocks. by rewrite map_app, concat_app. Qed.

Lemma K_split j sep h :
  idx !! j = Some (sep, h) -> K = blocks (take j idx) ++ contents h ++ blocks (drop (S j) idx).
Proof.
  intros Hj. unfold K. rewrite <- (take_drop_middle _ _ _ Hj) at 1.
  rewrite blocks_app. f_equal. 
Qed.

Lemma offset_S j sep h :
  idx !! j = Some (sep, h) -> offset (S j) = (offset j + length (contents h))%nat.
Proof.
  intros Hj. unfold offset. rewrite (take_S_r _ _ _ Hj), blocks_app, length_app. f_equal.
  unfold blocks. cbn. by rewrite app_nil_r.
Qed.

Lemma offset_end j : (length idx <= j)%nat -> offset j = length K.
Proof. intros Hj. unfold offset. by rewrite take_ge. Qed.

Lemma K_lookup j sep h q :
  idx !! j = Some (sep, h) -> (q < length (contents h))%nat -> K !! (offset j + q)%nat = contents h !! q.
Proof.
  intros Hj Hq. rewrite (K_split j sep h Hj). unfold offset.
  rewrite lookup_app_r by lia. replace (_ + q - _)%nat with q by lia.
  by rewrite lookup_app_l.
Qed.

Lemma offset_le j sep h : idx !! j = Some (sep, h) -> (offset j + length (contents h) <= length K)%nat.
Proof. intros Hj. rewrite (K_split j sep h Hj). unfold offset. rewrite !length_app. lia. Qed.

(** The data iterator belongs to its handle. *)
Definition data_ok (t : TL) : Prop :=
  status_ t = Status_OK /\
  forall d, data_iter_ t = Some d ->
    exists sep q, (sep, data_block_handle_ t) ∈ idx /\ dpos (data_block_handle_ t) d q.

(** The index stands at [j]; the data iterator at position [q] of its block,
    or it is absent because the index is off the list. *)
Definition at_block (t : TL) (j q : nat) : Prop :=
  status_ t = Status_OK /\ ipos (index_iter_ t) j /\
  match data_iter_ t with
  | Some d => exists sep, idx !! j = Some (sep, data_block_handle_ t) /\ dpos (data_block_handle_ t) d q /\
      (q <= length (contents (data_block_handle_ t)))%nat
  | None => (length idx <= j)%nat /\ q = O
  end.

(** The position of the iterator. *)
Definition two_pos (t : TL) (p : nat) : Prop :=
  exists j q, at_block t j q /\ p = (offset j + q)%nat /\
    (data_iter_ t = None \/ TwoLevel_Valid II DI t = true).
(** *** Opening blocks *)

Lemma at_block_data_ok t j q : at_block t j q -> data_ok t.
Proof.
  intros (Hs & Hi & Hd). split; [done|]. intros d E. rewrite E in Hd.
  destruct Hd as (sep & Hj & Hp & _). exists sep, q. split; [by eapply list_elem_of_lookup_2|done].
Qed.

Lemma data_cursor t d :
  data_ok t -> data_iter_ t = Some d ->
  exists q, Cursor cmp DI (contents (data_block_handle_ t)) (dpos (data_block_handle_ t)) /\
    dpos (data_block_handle_ t) d q.
Proof.
  intros [_ H] E. destruct (H d E) as (sep & q & Hin & Hp).
  exists q. split; [by apply (Hdata sep)|done].
Qed.

Lemma SetDataIterator_eq t x :
  data_ok t -> SetDataIterator II DI t x = mkTwoLevel Status_OK (index_iter_ t) x (data_block_handle_ t).
Proof.
  intros H. unfold SetDataIterator, SaveError. destruct (data_iter_ t) as [d|] eqn:E.
  - destruct (data_cursor t d H E) as (q & C & Hp). rewrite (cur_status d q Hp), andb_false_r.
    destruct H as [-> _]. done.
  - destruct H as [-> _]. done.
Qed.

Lemma InitDataBlock_open t j sep h :
  data_ok t -> ipos (index_iter_ t) j -> idx !! j = Some (sep, h) ->
  exists d q, InitDataBlock II DI block_function_ t = mkTwoLevel Status_OK (index_iter_ t) (Some d) h /\
    dpos h d q.
Proof.
  intros H Hi Hj. unfold InitDataBlock. rewrite (cur_valid _ _ Hi).
  rewrite (proj2 (Nat.ltb_lt _ _)) by by apply lookup_lt_Some in Hj. cbn [negb].
  destruct (cur_entry _ _ _ Hi Hj) as [_ Hv]. cbn in Hv. rewrite Hv.
  assert (SetDataIterator II DI (mkTwoLevel (status_ t) (index_iter_ t) (data_iter_ t) h)
    (Some (block_function_ h)) = mkTwoLevel Status_OK (index_iter_ t) (Some (block_function_ h)) h) as Enew.
  { unfold SetDataIterator, SaveError. cbn. destruct (data_iter_ t) as [d|] eqn:E.
    - destruct (data_cursor t d H E) as (q & C & Hp). rewrite (cur_status d q Hp), andb_false_r.
      destruct H as [-> _]. done.
    - destruct H as [-> _]. done. }
  destruct (data_iter_ t) as [d|] eqn:E; cbn [andb].
  - destruct (Slice_compare h (data_block_handle_ t)) eqn:Ec.
    + apply Slice_compare_eq in Ec as ->. destruct (data_cursor t d H E) as (q & C & Hp).
      exists d, q. split; [|done]. destruct H as [H0 _]. destruct t; cbn in *. by subst.
    + rewrite Enew. eexists _, _. split; [done|]. apply (Hdata sep). by eapply list_elem_of_lookup_2.
    + rewrite Enew. eexists _, _. split; [done|]. apply (Hdata sep). by eapply list_elem_of_lookup_2.
  - rewrite Enew. eexists _, _. split; [done|]. apply (Hdata sep). by eapply list_elem_of_lookup_2.
Qed.

(** Opening the block at the index and moving within it. *)
Lemma open_and_move t j f (r : bytes -> nat) :
  data_ok t -> ipos (index_iter_ t) j ->
  (forall h d q, Cursor cmp DI (contents h) (dpos h) -> dpos h d q ->
     exists d', f d = Some d' /\ dpos h d' (r h)) ->
  exists t', move_data II DI f (InitDataBlock II DI block_function_ t) = Some t' /\
    at_block t' j (match idx !! j with Some (_, h) => r h | None => 0%nat end).
Proof.
  intros H Hi Hf. destruct (idx !! j) as [[sep h]|] eqn:Hj.
  - destruct (InitDataBlock_open t j sep h H Hi Hj) as (d & q & -> & Hd).
    assert (Cursor cmp DI (contents h) (dpos h)) as C.
    { apply (Hdata sep). by eapply list_elem_of_lookup_2. }
    unfold move_data. cbn [data_iter_]. destruct (Hf h d q C Hd) as (d' & -> & Hd').
    cbn [mbind option_bind]. eexists. split; [done|]. split; [done|]. split; [done|].
    cbn. exists sep. split; [done|]. split; [done|]. by eapply cur_bound.
  - apply lookup_ge_None in Hj. unfold InitDataBlock. rewrite (cur_valid _ _ Hi).
    rewrite (proj2 (Nat.ltb_ge _ _)) by done. cbn [negb]. rewrite SetDataIterator_eq by done.
    eexists. split; [done|]. split; [done|]. split; [done|]. done.
Qed.

Lemma block_Valid t j q :
  at_block t j q ->
  TwoLevel_Valid II DI t =
    match data_iter_ t with Some _ => (q <? length (contents (data_block_handle_ t)))%nat | None => false end.
Proof.
  intros H. unfold TwoLevel_Valid. pose proof H as (_ & _ & Hd). destruct (data_iter_ t) as [d|] eqn:E; [|done].
  destruct Hd as (sep & Hj & Hp & _).
  assert (Cursor cmp DI (contents (data_block_handle_ t)) (dpos (data_block_handle_ t))) as C.
  { apply (Hdata sep). by eapply list_elem_of_lookup_2. }
  by apply cur_valid.
Qed.

(** An iterator that is not valid with the index off the list gives up its data
    iterator. *)
Lemma block_end t j q :
  at_block t j q -> (length idx <= j)%nat -> two_pos (SetDataIterator II DI t None) (length K).
Proof.
  intros H Hj. rewrite SetDataIterator_eq by by eapply at_block_data_ok.
  destruct H as (Hs & Hi & _). exists j, 0%nat. split; [|split; [by rewrite offset_end, Nat.add_0_r|by left]].
  split; [done|]. split; [done|]. done.
Qed.

(** *** Skipping *)

Lemma SkipForward_pos n t j q :
  at_block t j q -> (length idx - j < n)%nat ->
  exists t', SkipEmptyDataBlocksForward II DI block_function_ n t = Some t' /\
    two_pos t' (offset j + q)%nat.
Proof.
  revert t j q. induction n as [|n IH]; intros t j q H Hn; [lia|].
  cbn [SkipEmptyDataBlocksForward]. destruct (TwoLevel_Valid II DI t) eqn:Ev.
  { exists t. split; [done|]. exists j, q. auto. }
  pose proof H as (Hs & Hi & Hd). rewrite (cur_valid _ _ Hi).
  destruct (j <? length idx)%nat eqn:Ej; cbn [negb].
  - apply Nat.ltb_lt in Ej. destruct (cur_next _ _ Hi Ej) as (i' & -> & Hi'). cbn [mbind option_bind].
    destruct (open_and_move (with_index II DI t i') (S j) (it_SeekToFirst DI) (fun _ => 0%nat))
      as (t' & -> & H').
    { apply at_block_data_ok in H as [H1 H2]. by split. } { done. }
    { intros h d q' C Hq. by eapply cur_first. }
    cbn [mbind option_bind]. destruct (IH t' (S j) _ H') as (t2 & E2 & H2); [lia|].
    exists t2. split; [done|].
    assert (offset (S j) + match idx !! S j with Some (_, _) => 0 | None => 0 end = offset j + q)%nat as <-;
      [|by destruct (idx !! S j) as [[? ?]|]].
    rewrite (block_Valid t j q H) in Ev. destruct (data_iter_ t) as [d|]; [|lia].
    destruct Hd as (sep & Hj & Hp & Hq). apply Nat.ltb_ge in Ev.
    rewrite (offset_S j _ _ Hj). destruct (idx !! S j) as [[? ?]|]; lia.
  - apply Nat.ltb_ge in Ej. eexists. split; [done|].
    assert (offset j + q = length K)%nat as ->; [|by eapply block_end].
    rewrite offset_end by done. destruct (data_iter_ t) as [d|]; [|lia].
    destruct Hd as (sep & Hj & _). apply lookup_lt_Some in Hj. lia.
Qed.

(** The position before [p], the end standing for "before the first". *)
Definition before (p : nat) : nat := match p with O => length K | S p => p end.


Lemma SkipBackward_pos n t j q :
  at_block t j q -> (j <= length idx)%nat ->
  ((if decide (j < length idx) then S j else 0) < n)%nat ->
  exists t', SkipEmptyDataBlocksBackward II DI block_function_ n t = Some t' /\
    two_pos t' (if TwoLevel_Valid II DI t then offset j + q
                else if decide (j < length idx) then before (offset j) else length K)%nat.
Proof.
  revert t j q. induction n as [|n IH]; intros t j q H Hj0 Hn; [lia|].
  cbn [SkipEmptyDataBlocksBackward]. destruct (TwoLevel_Valid II DI t) eqn:Ev.
  { exists t. split; [done|]. exists j, q. auto. }
  pose proof H as (Hs & Hi & Hd). rewrite (cur_valid _ _ Hi).
  destruct (j <? length idx)%nat eqn:Ej; cbn [negb].
  2:{ apply Nat.ltb_ge in Ej. eexists. split; [done|]. rewrite decide_False by lia. by eapply block_end. }
  apply Nat.ltb_lt in Ej. rewrite decide_True in Hn by done. rewrite decide_True by done.
  destruct (cur_prev _ _ Hi Ej) as (i' & -> & Hi'). cbn [mbind option_bind].
  set (j' := match j with O => length idx | S j' => j' end) in *.
  destruct (open_and_move (with_index II DI t i') j' (it_SeekToLast DI)
    (fun h => length (contents h) - 1)%nat) as (t' & -> & H').
  { apply at_block_data_ok in H as [H1 H2]. by split. } { done. }
  { intros h d q' C Hq. by eapply cur_last. }
  cbn [mbind option_bind]. destruct (IH t' j' _ H') as (t2 & E2 & H2).
  { destruct j; lia. } { destruct j; cbn in *; [rewrite decide_False by lia|rewrite decide_True by lia]; lia. }
  exists t2. split; [done|]. revert H2. rewrite (block_Valid t' j' _ H').
  destruct H' as (_ & _ & Hd'). destruct j as [|j]; unfold j' in *; cbn beta iota in *.
  - destruct (data_iter_ t') as [d|].
    { destruct Hd' as (sep & Hx & _). apply lookup_lt_Some in Hx. lia. }
    rewrite decide_False by lia. done.
  - destruct (data_iter_ t') as [d|]; [|lia]. destruct Hd' as (sep & Hx & _). rewrite Hx.
    rewrite decide_True by lia. rewrite (offset_S j _ _ Hx).
    set (len := length (contents (data_block_handle_ t'))).
    destruct (len - 1 <? len)%nat eqn:El; [apply Nat.ltb_lt in El|apply Nat.ltb_ge in El].
    + unfold before. destruct (offset j + len)%nat as [|m] eqn:Em; [lia|].
      by replace (offset j + (len - 1))%nat with m by lia.
    + by replace (offset j + len)%nat with (offset j) by lia.
Qed.
(** *** Seeking *)

Lemma blocks_elem l kv : kv ∈ blocks l -> exists j sep h, l !! j = Some (sep, h) /\ kv ∈ contents h.
Proof.
  induction l as [|[sep h] l IH]; cbn; [by intros ?%elem_of_nil|].
  intros [H|H]%elem_of_app; [by exists 0%nat, sep, h|].
  destruct (IH H) as (j & sep' & h' & Hj & Hkv). by exists (S j), sep', h'.
Qed.

Lemma seek_K t :
  let j := seek_pos cmp t (map fst idx) in
  seek_pos cmp t (map fst K) =
  (offset j + match idx !! j with Some (_, h) => seek_pos cmp t (map fst (contents h)) | None => 0 end)%nat.
Proof.
  intros j. assert (j <= length idx)%nat as Hj.
  { unfold j. etrans; [apply seek_pos_le|]. by rewrite length_map. }
  assert (Forall (fun x => cmp x t = Lt) (map fst (blocks (take j idx)))) as Hbef.
  { apply list.Forall_forall. intros x (kv & -> & Hkv)%list_elem_of_fmap.
    destruct (blocks_elem _ _ Hkv) as (i & sep & h & Hi & Hin).
    apply lookup_take_Some in Hi as [Hi Hlt].
    assert (cmp sep t = Lt) as H1.
    { eapply (seek_pos_before cmp t (map fst idx)); [exact Hlt|]. by rewrite list_lookup_fmap, Hi. }
    pose proof (Hupper i sep h kv Hi Hin) as H2. 
    eapply (cmp_le_lt_trans cmp); [|exact H1]. by apply (cmp_le_ge cmp). }
  destruct (idx !! j) as [[sep h]|] eqn:E.
  - rewrite (K_split j sep h E), !map_app, seek_pos_app_below by done.
    rewrite length_map. f_equal. apply seek_pos_app_above.
    apply list.Forall_forall. intros x (kv & -> & Hkv)%list_elem_of_fmap.
    destruct (blocks_elem _ _ Hkv) as (i & sep' & h' & Hi & Hin).
    rewrite lookup_drop in Hi. pose proof (Hlower j (S j + i) _ _ _ _ kv E Hi ltac:(lia) Hin) as H1.
    assert (cmp sep t <> Lt) as H2.
    { apply (seek_pos_at cmp t (map fst idx)). fold j. by rewrite list_lookup_fmap, E. }
    intros H3. apply H2. by eapply (cmp_lt_trans cmp).
  - apply lookup_ge_None in E. rewrite offset_end, Nat.add_0_r by done. unfold K.
    rewrite take_ge in Hbef by done. rewrite <- (app_nil_r (map fst (blocks idx))).
    rewrite seek_pos_app_below by done. by rewrite length_map, Nat.add_0_r.
Qed.

(** *** The contract *)

Lemma two_pos_data t p :
  two_pos t p -> (p < length K)%nat ->
  exists j q d sep, at_block t j q /\ p = (offset j + q)%nat /\ data_iter_ t = Some d /\
    idx !! j = Some (sep, data_block_handle_ t) /\ dpos (data_block_handle_ t) d q /\
    (q < length (contents (data_block_handle_ t)))%nat /\
    Cursor cmp DI (contents (data_block_handle_ t)) (dpos (data_block_handle_ t)).
Proof.
  intros (j & q & H & -> & Hv) Hp. pose proof H as (_ & _ & Hd).
  destruct (data_iter_ t) as [d|] eqn:E.
  - destruct Hd as (sep & Hj & Hq & _). destruct Hv as [?|Hv]; [done|].
    rewrite (block_Valid t j q H), E in Hv. apply Nat.ltb_lt in Hv.
    exists j, q, d, sep. repeat (split; [done|]). apply (Hdata sep). by eapply list_elem_of_lookup_2.
  - destruct Hd as [Hj ->]. rewrite offset_end in Hp by done. lia.
Qed.

Lemma two_pos_bound t p : two_pos t p -> (p <= length K)%nat.
Proof.
  intros (j & q & (Hs & Hi & Hd) & -> & _). destruct (data_iter_ t) as [d|].
  - destruct Hd as (sep & Hj & _ & Hq). pose proof (offset_le _ _ _ Hj). lia.
  - destruct Hd as [Hj ->]. rewrite offset_end by done. lia.
Qed.

Lemma two_pos_valid t p : two_pos t p -> TwoLevel_Valid II DI t = (p <? length K)%nat.
Proof.
  intros H. destruct (p <? length K)%nat eqn:E; [apply Nat.ltb_lt in E|apply Nat.ltb_ge in E].
  - destruct (two_pos_data t p H E) as (j & q & d & sep & Hb & -> & Ed & _ & _ & Hq & _).
    rewrite (block_Valid t j q Hb), Ed. by apply Nat.ltb_lt.
  - destruct H as (j & q & Hb & -> & Hv). rewrite (block_Valid t j q Hb).
    destruct Hb as (_ & _ & Hd). destruct (data_iter_ t) as [d|]; [|done].
    destruct Hd as (sep & Hj & _ & Hq). pose proof (offset_le _ _ _ Hj). apply Nat.ltb_ge. lia.
Qed.

Lemma two_pos_data_ok t p : two_pos t p -> data_ok t /\ exists j, ipos (index_iter_ t) j.
Proof.
  intros (j & q & H & _). split; [by eapply at_block_data_ok|]. exists j. apply H.
Qed.

Lemma with_index_ok t i : data_ok t -> data_ok (with_index II DI t i).
Proof. intros [H1 H2]. by split. Qed.

Lemma two_pos_Next t p :
  two_pos t p -> (p < length K)%nat ->
  exists t', TwoLevel_Next II DI block_function_ fuel t = Some t' /\ two_pos t' (S p).
Proof.
  intros H Hp. destruct (two_pos_data t p H Hp) as (j & q & d & sep & Hb & -> & Ed & Hj & Hd & Hq & C).
  unfold TwoLevel_Next. rewrite Ed. cbn [mbind option_bind].
  destruct (cur_next d q Hd Hq) as (d' & -> & Hd'). cbn [mbind option_bind].
  destruct (SkipForward_pos fuel (with_data II DI t d') j (S q)) as (t' & E & H').
  - destruct Hb as (Hs & Hi & _). split; [done|]. split; [done|]. cbn. exists sep.
    split; [done|]. split; [done|lia].
  - lia.
  - exists t'. split; [done|]. by rewrite <- plus_n_Sm in H'.
Qed.

Lemma two_pos_Prev t p :
  two_pos t p -> (p < length K)%nat ->
  exists t', TwoLevel_Prev II DI block_function_ fuel t = Some t' /\ two_pos t' (before p).
Proof.
  intros H Hp. destruct (two_pos_data t p H Hp) as (j & q & d & sep & Hb & -> & Ed & Hj & Hd & Hq & C).
  unfold TwoLevel_Prev. rewrite Ed. cbn [mbind option_bind].
  destruct (cur_prev d q Hd Hq) as (d' & -> & Hd'). cbn [mbind option_bind].
  pose proof (lookup_lt_Some _ _ _ Hj) as Hlt.
  assert (at_block (with_data II DI t d') j
    (match q with O => length (contents (data_block_handle_ t)) | S q' => q' end)) as Hb'.
  { destruct Hb as (Hs & Hi & _). split; [done|]. split; [done|]. cbn. exists sep.
    split; [done|]. split; [done|destruct q; lia]. }
  destruct (SkipBackward_pos fuel _ j _ Hb') as (t' & E & H'); [lia|rewrite decide_True by lia; lia|].
  exists t'. split; [done|]. revert H'. rewrite (block_Valid _ _ _ Hb'). cbn [with_data data_iter_ data_block_handle_].
  rewrite decide_True by done. destruct q as [|q].
  - rewrite Nat.ltb_irrefl, Nat.add_0_r. done.
  - rewrite (proj2 (Nat.ltb_lt _ _)) by lia. by rewrite <- plus_n_Sm.
Qed.

Lemma two_level_cursor : Cursor cmp (TwoLevel II DI block_function_ fuel) K two_pos.
Proof.
  split.
  - apply two_pos_bound.
  - apply two_pos_valid.
  - intros t p kv H Hkv. pose proof (lookup_lt_Some _ _ _ Hkv) as Hp.
    destruct (two_pos_data t p H Hp) as (j & q & d & sep & Hb & -> & Ed & Hj & Hd & Hq & C).
    rewrite (K_lookup j _ _ _ Hj Hq) in Hkv. cbn. unfold TwoLevel_key, TwoLevel_value. rewrite Ed.
    by eapply cur_entry.
  - intros t p H. destruct (two_pos_data_ok t p H) as [Hok [j Hi]]. cbn. unfold TwoLevel_status.
    rewrite (cur_status _ _ Hi). cbn. destruct (data_iter_ t) as [d|] eqn:Ed; [|apply Hok].
    destruct (data_cursor t d Hok Ed) as (q & C & Hq). rewrite (cur_status d q Hq). apply Hok.
  - intros t p H. destruct (two_pos_data_ok t p H) as [Hok [j Hi]]. cbn. unfold TwoLevel_SeekToFirst.
    destruct (cur_first _ _ Hi) as (i' & -> & Hi'). cbn [mbind option_bind].
    destruct (open_and_move (with_index II DI t i') 0 (it_SeekToFirst DI) (fun _ => 0%nat))
      as (t' & -> & Ht'); [by apply with_index_ok|done|intros h d q C Hq; by eapply cur_first|].
    cbn [mbind option_bind]. destruct (SkipForward_pos fuel t' _ _ Ht') as (t2 & -> & H2); [lia|].
    exists t2. split; [done|]. by destruct (idx !! 0%nat) as [[? ?]|].
  - intros t p H. destruct (two_pos_data_ok t p H) as [Hok [j Hi]]. cbn. unfold TwoLevel_SeekToLast.
    destruct (cur_last _ _ Hi) as (i' & -> & Hi'). cbn [mbind option_bind].
    destruct (open_and_move (with_index II DI t i') (length idx - 1) (it_SeekToLast DI)
      (fun h => length (contents h) - 1)%nat) as (t' & -> & Ht');
      [by apply with_index_ok|done|intros h d q C Hq; by eapply cur_last|].
    cbn [mbind option_bind].
    destruct (SkipBackward_pos fuel t' _ _ Ht') as (t2 & -> & H2); [lia|case_decide; lia|].
    exists t2. split; [done|]. revert H2. rewrite (block_Valid t' _ _ Ht').
    destruct Ht' as (_ & _ & Hd'). destruct (data_iter_ t') as [d|].
    + destruct Hd' as (sep & Hx & _). rewrite Hx. pose proof (lookup_lt_Some _ _ _ Hx) as Hlt.
      rewrite decide_True by done. set (len := length (contents (data_block_handle_ t'))).
      assert (length K = offset (length idx - 1) + len)%nat as HK.
      { rewrite <- (offset_end (length idx)) by lia.
        replace (length idx) with (S (length idx - 1)) at 1 by lia. by rewrite (offset_S _ _ _ Hx). }
      destruct (len - 1 <? len)%nat eqn:El; [apply Nat.ltb_lt in El|apply Nat.ltb_ge in El].
      * by replace (length K - 1)%nat with (offset (length idx - 1) + (len - 1))%nat by lia.
      * unfold before. replace (offset (length idx - 1)) with (length K) by lia.
        destruct (length K) as [|m]; [done|]. by replace (S m - 1)%nat with m by lia.
    + destruct Hd' as [Hj _]. rewrite decide_False by lia.
      assert (length K = 0%nat) as ->; [|done]. unfold K.
      destruct idx; [done|cbn in Hj; lia].
  - intros t p x H. destruct (two_pos_data_ok t p H) as [Hok [j Hi]]. cbn. unfold TwoLevel_Seek.
    destruct (cur_seek _ _ x Hi) as (i' & -> & Hi'). cbn [mbind option_bind].
    destruct (open_and_move (with_index II DI t i') _ (fun d => it_Seek DI d x)
      (fun h => seek_pos cmp x (map fst (contents h))) (with_index_ok _ _ Hok) Hi')
      as (t' & -> & Ht'); [intros h d q C Hq; by eapply cur_seek|].
    cbn [mbind option_bind]. destruct (SkipForward_pos fuel t' _ _ Ht') as (t2 & -> & H2); [lia|].
    exists t2. split; [done|]. by rewrite seek_K.
  - apply two_pos_Next.
  - apply two_pos_Prev.
Qed.

Lemma NewTwoLevelIterator_pos i :
  ipos i (length idx) -> two_pos (NewTwoLevelIterator i) (length K).
Proof.
  intros Hi. exists (length idx), 0%nat. split; [split; [done|split; [done|by cbn]]|].
  split; [by rewrite offset_end, Nat.add_0_r|by left].
Qed.
End Correct.

(** ** Properties *)

(** The separators of an index divide the keys of its blocks: a block's keys
    are not above its separator and above the separators before it. *)
Definition separates (cmp : bytes -> bytes -> comparison) (contents : bytes -> list (bytes * bytes))
    (idx : list (bytes * bytes)) : Prop :=
  forall j sep h kv, idx !! j = Some (sep, h) -> kv ∈ contents h ->
    cmp (fst kv) sep <> Gt /\
    forall i sep' h', (i < j)%nat -> idx !! i = Some (sep', h') -> cmp sep' (fst kv) = Lt.

(** A two-level iterator over well-separated blocks. *)
Lemma two_level_correct cmp `{!OrderLaws cmp} (II DI : IteratorOps)
    (block_function : bytes -> IState DI) (fuel : nat) (idx : list (bytes * bytes))
    (ipos : IState II -> nat -> Prop) (contents : bytes -> list (bytes * bytes))
    (dpos : bytes -> IState DI -> nat -> Prop) :
  Cursor cmp II idx ipos ->
  (forall sep h, (sep, h) ∈ idx ->
     Cursor cmp DI (contents h) (dpos h) /\ dpos h (block_function h) (length (contents h))) ->
  separates cmp contents idx -> (length idx < fuel)%nat ->
  let kvs := concat (map (fun e => contents (snd e)) idx) in
  exists pos, Cursor cmp (TwoLevel II DI block_function fuel) kvs pos /\
    forall i, ipos i (length idx) -> pos (NewTwoLevelIterator i) (length kvs).
Proof.
  intros Hidx Hdata Hsep Hfuel kvs. exists (two_pos II DI idx ipos contents dpos). split.
  - apply (two_level_cursor cmp); [done|done| | |done].
    + intros j sep h kv Hj Hkv. apply (cmp_le_ge cmp). by eapply Hsep.
    + intros i j sep h sep' h' kv Hi Hj Hlt Hkv. by eapply (Hsep j sep' h').
  - intros i. apply NewTwoLevelIterator_pos.
Qed.

(** C25: A two-level iterator is a cursor over the concatenation of its blocks:
    if the index is a cursor over separators that divide the keys of the blocks
    and the block function opens every block as a cursor, then every move ends
    within one round of the skipping loops per index entry, empty blocks are
    passed over in both directions, [Seek] finds the first key that is not
    smaller, and no key is lost or repeated at a block boundary. *)
Theorem two_level_iterator_refines cmp `{!OrderLaws cmp} (II DI : IteratorOps)
    (block_function : bytes -> IState DI) (fuel : nat) (idx : list (bytes * bytes))
    (ipos : IState II -> nat -> Prop) (contents : bytes -> list (bytes * bytes))
    (dpos : bytes -> IState DI -> nat -> Prop) :
  Cursor cmp II idx ipos ->
  (forall sep h, (sep, h) ∈ idx ->
     Cursor cmp DI (contents h) (dpos h) /\ dpos h (block_function h) (length (contents h))) ->
  separates cmp contents idx -> (length idx < fuel)%nat ->
  let kvs := concat (map (fun e => contents (snd e)) idx) in
  exists pos, Cursor cmp (TwoLevel II DI block_function fuel) kvs pos /\
    forall i, ipos i (length idx) -> pos (NewTwoLevelIterator i) (length kvs).
Proof. apply two_level_correct. done. Qed.

(** An index of three blocks, the second one empty. *)
Definition sample_contents (h : bytes) : list (bytes * bytes) :=
  if decide (h = str:"x") then [(str:"a", str:"1"); (str:"b", str:"2")]
  else if decide (h = str:"z") then [(str:"e", str:"3"); (str:"f", str:"4")] else [].
Definition sample_index : list (bytes * bytes) :=
  [(str:"b", str:"x"); (str:"d", str:"y"); (str:"f", str:"z")].

Definition sample_data_block (h : bytes) : Block := Block_new (build_block 16 (sample_contents h)).
Definition sample_index_block : Block := Block_new (build_block 1 sample_index).
Definition sample_two_level : IteratorOps :=
  TwoLevel (Block_Iterator Slice_compare sample_index_block) (Dispatch (Block_Iterator Slice_compare))
    (fun h => existT (sample_data_block h) (Block_NewIterator (sample_data_block h))) 4.
Definition sample_two_state : IState sample_two_level :=
  NewTwoLevelIterator (II:=Block_Iterator Slice_compare sample_index_block)
    (Block_NewIterator sample_index_block).

Lemma two_level_iterator_refines_witness :
  exists s1 s2, it_Seek sample_two_level sample_two_state (str:"c") = Some s1 /\
    it_key sample_two_level s1 = str:"e" /\
    it_Prev sample_two_level s1 = Some s2 /\ it_value sample_two_level s2 = str:"2".
Proof.
  destruct (build_block_cursor Slice_compare 1 sample_index ltac:(lia) ltac:(repeat constructor)
    ltac:(vm_compute; reflexivity) ltac:(repeat constructor; vm_compute; reflexivity)) as (ipos & CI & HI).
  assert (forall h, h ∈ [str:"x"; str:"y"; str:"z"] ->
    exists pos, Cursor Slice_compare (Block_Iterator Slice_compare (sample_data_block h)) (sample_contents h) pos /\
      pos (Block_NewIterator (sample_data_block h)) (length (sample_contents h))) as Hb.
  { intros h Hh. apply build_block_cursor; [apply _|lia|..].
    all: repeat (apply elem_of_cons in Hh as [->|Hh]); try (by apply elem_of_nil in Hh);
      repeat constructor; vm_compute; reflexivity. }
  set (ops := Block_Iterator Slice_compare).
  destruct (Hb (str:"x") ltac:(set_solver)) as (p1 & C1 & H1).
  destruct (Hb (str:"y") ltac:(set_solver)) as (p2 & C2 & H2).
  destruct (Hb (str:"z") ltac:(set_solver)) as (p3 & C3 & H3).
  set (dpos h := if decide (h = str:"x") then dispatch_pos ops _ p1
                 else if decide (h = str:"z") then dispatch_pos ops _ p3 else dispatch_pos ops _ p2).
  destruct (two_level_iterator_refines Slice_compare (Block_Iterator Slice_compare sample_index_block)
    (Dispatch ops) (fun h => existT (sample_data_block h) (Block_NewIterator (sample_data_block h))) 4
    sample_index ipos sample_contents dpos CI) as (pos & C & H).
  { intros sep h Hin. repeat (apply elem_of_cons in Hin as [[= -> ->]|Hin]); [..|by apply elem_of_nil in Hin];
      cbn [dpos]; (split; [by apply dispatch_cursor|by eexists]). }
  { intros j sep h kv Hj Hkv.
    destruct j as [|[|[|j]]]; cbn in Hj; try done; injection Hj as <- <-;
      repeat (apply elem_of_cons in Hkv as [->|Hkv]); try (by apply elem_of_nil in Hkv);
      (split; [vm_compute; congruence|]); intros [|[|i]] sep' h' Hi Hs; try lia;
      cbn in Hs; injection Hs as <- <-; reflexivity. }
  { cbn. lia. }
  destruct (cur_seek (C:=C) _ _ (str:"c") (H _ HI)) as (s1 & E1 & K1).
  destruct (cur_prev (CursorOn:=C) _ _ K1) as (s2 & E2 & K2); [vm_compute; lia|].
  exists s1, s2. split; [exact E1|].
  split; [exact (proj1 (cur_entry (CursorOn:=C) _ _ _ K1 eq_refl))|].
  split; [exact E2|exact (proj2 (cur_entry (CursorOn:=C) _ _ _ K2 eq_refl))].
Defined.
