(* ===== verification/Format.v ===== *)
(** * The table format

    src/table/format.h and src/table/format.cc: block handles, the footer of a
    table file, and reading a block with its trailer (a type byte and a masked
    checksum).  [assert]s are preconditions and are not part of the model.

    [RandomAccessFile] (include/env.h) and the compression functions of
    src/port/port_stdcxx.h, thin wrappers of the snappy and zstd libraries, are
    records of functions; what the libraries document is the class
    [CompressionLaws]. *)

From S2P Require Import Prelude Slice Coding Crc32c.

(** [enum CompressionType] *)
Inductive CompressionType := kNoCompression | kSnappyCompression | kZstdCompression.

Definition CompressionType_Z (t : CompressionType) : Z :=
  match t with kNoCompression => 0 | kSnappyCompression => 1 | kZstdCompression => 2 end.

(** The compression functions of [port]; [None] is the result [false]. *)
Record Compression := mkCompression {
  Snappy_Compress : bytes -> option bytes;
  Snappy_GetUncompressedLength : bytes -> option Z;
  Snappy_Uncompress : bytes -> option bytes;
  Zstd_Compress : Z -> bytes -> option bytes;  (* level, input *)
  Zstd_GetUncompressedLength : bytes -> option Z;
  Zstd_Uncompress : bytes -> option bytes
}.

(** Uncompressing what was compressed gives the input. *)
Class CompressionLaws (z : Compression) : Prop := {
  snappy_roundtrip : forall raw c, Snappy_Compress z raw = Some c ->
    Snappy_GetUncompressedLength z c = Some (zlen raw) /\ Snappy_Uncompress z c = Some raw;
  zstd_roundtrip : forall level raw c, Zstd_Compress z level raw = Some c ->
    Zstd_GetUncompressedLength z c = Some (zlen raw) /\ Zstd_Uncompress z c = Some raw
}.

(** A build without the libraries. *)
Definition no_compression : Compression :=
  mkCompression (fun _ => None) (fun _ => None) (fun _ => None)
    (fun _ _ => None) (fun _ => None) (fun _ => None).

#[export] Instance no_compression_laws : CompressionLaws no_compression.
Proof. by split. Qed.

(** [class RandomAccessFile]: [Read(offset, n)] returns a status, the bytes and
    whether they lie in the caller's buffer. *)
Record RandomAccessFile := mkRandomAccessFile {
  raf_Read : Z -> Z -> Status * bytes * bool
}.

(** A file on which reading inside the file does not fail. *)
Class ReliableRandomReads (f : RandomAccessFile) (contents : bytes) : Prop := {
  raf_read_ok : forall offset n, 0 <= offset -> 0 <= n -> offset + n <= zlen contents -> exists in_buf,
    raf_Read f offset n =
      (Status_OK, take (Z.to_nat n) (drop (Z.to_nat offset) contents), in_buf)
}.

Definition MemRandomAccess (contents : bytes) : RandomAccessFile :=
  mkRandomAccessFile (fun offset n =>
    (Status_OK, take (Z.to_nat n) (drop (Z.to_nat offset) contents), true)).

#[export] Instance mem_random_reads contents : ReliableRandomReads (MemRandomAccess contents) contents.
Proof. split. intros. by exists true. Qed.

(** ** Block handles *)

(** [class BlockHandle] *)
Record BlockHandle := mkHandle { offset_ : Z; size_ : Z }.

Definition kMaxEncodedLength : Z := 10 + 10.

(** [BlockHandle::BlockHandle]: [~0] for both. *)
Definition BlockHandle_new : BlockHandle := mkHandle (2 ^ 64 - 1) (2 ^ 64 - 1).

(** [BlockHandle::EncodeTo] *)
Definition BlockHandle_EncodeTo (h : BlockHandle) (dst : bytes) : bytes :=
  PutVarint64 (PutVarint64 dst (offset_ h)) (size_ h).

(** [BlockHandle::DecodeFrom]: the handle, what is left of the input and the
    status; a handle whose second number is missing keeps the first. *)
Definition BlockHandle_DecodeFrom (h : BlockHandle) (input : bytes) : BlockHandle * bytes * Status :=
  match GetVarint64 input with
  | Some (o, input) =>
      match GetVarint64 input with
      | Some (n, input) => (mkHandle o n, input, Status_OK)
      | None => (mkHandle o (size_ h), input, Corruption (str:"bad block handle"))
      end
  | None => (h, input, Corruption (str:"bad block handle"))
  end.

(** ** The footer *)

(** [class Footer] *)
Record Footer := mkFooter { metaindex_handle_ : BlockHandle; index_handle_ : BlockHandle }.

Definition Footer_new : Footer := mkFooter BlockHandle_new BlockHandle_new.

Definition kEncodedLength : Z := 2 * kMaxEncodedLength + 8.
Definition kTableMagicNumber : Z := 0xdb4775248b08fb57.
Definition kBlockTrailerSize : Z := 5.

(** [std::string::resize(n)] *)
Definition resize (s : bytes) (n : nat) : bytes := take n s ++ replicate (n - length s) Byte.x00.

(** [Footer::EncodeTo] *)
Definition Footer_EncodeTo (f : Footer) (dst : bytes) : bytes :=
  let dst := BlockHandle_EncodeTo (metaindex_handle_ f) dst in
  let dst := BlockHandle_EncodeTo (index_handle_ f) dst in
  let dst := resize dst (Z.to_nat (2 * kMaxEncodedLength)) in
  let dst := PutFixed32 dst (u32 (Z.land kTableMagicNumber 0xffffffff)) in
  PutFixed32 dst (u32 (Z.shiftr kTableMagicNumber 32)).

(** [Footer::DecodeFrom]: the footer, what is left of the input and the status. *)
Definition Footer_DecodeFrom (f : Footer) (input : bytes) : Footer * bytes * Status :=
  if zlen input <? kEncodedLength
  then (f, input, Corruption (str:"not an sstable (footer too short)"))
  else
    let magic_ptr := drop (Z.to_nat (kEncodedLength - 8)) input in
    let magic_lo := DecodeFixed32 magic_ptr in
    let magic_hi := DecodeFixed32 (drop 4 magic_ptr) in
    let magic := Z.lor (u64 (Z.shiftl magic_hi 32)) magic_lo in
    if negb (magic =? kTableMagicNumber)
    then (f, input, Corruption (str:"not an sstable (bad magic number)"))
    else
      let '(m, input', result) := BlockHandle_DecodeFrom (metaindex_handle_ f) input in
      if negb (ok result) then (mkFooter m (index_handle_ f), input', result)
      else
        let '(i, input', result) := BlockHandle_DecodeFrom (index_handle_ f) input' in
        if negb (ok result) then (mkFooter m i, input', result)
        else (mkFooter m i, drop 8 magic_ptr, result).

(** ** Reading a block *)

(** [struct BlockContents] *)
Record BlockContents := mkContents {
  bc_data : bytes; cachable : bool; heap_allocated : bool }.

Definition BlockContents_empty : BlockContents := mkContents [] false false.

Section ReadBlock.
(** [crc32c::Extend] and the compression functions *)
Context (extend : Z -> bytes -> Z) (z : Compression).

(** A decompressed block: [Slice(ubuf, ulength)] with what was uncompressed
    into a buffer of that length. *)
Definition uncompressed (ulength : option Z) (contents : option bytes) (bad_length bad_contents : Status)
    : BlockContents * Status :=
  match ulength with
  | None => (BlockContents_empty, bad_length)
  | Some _ =>
      match contents with
      | None => (BlockContents_empty, bad_contents)
      | Some data => (mkContents data true true, Status_OK)
      end
  end.

(** [ReadBlock(file, options, handle, result)]; [verify_checksums] is the
    option the function reads.  [size_t] has 64 bits. *)
Definition ReadBlock (file : RandomAccessFile) (verify_checksums : bool) (handle : BlockHandle)
    : BlockContents * Status :=
  let n := size_ handle in
  let '(s, contents, in_buf) := raf_Read file (offset_ handle) (u64 (n + kBlockTrailerSize)) in
  if negb (ok s) then (BlockContents_empty, s)
  else if negb (zlen contents =? u64 (n + kBlockTrailerSize))
  then (BlockContents_empty, Corruption (str:"truncated block read"))
  else
    let data := take (Z.to_nat n) contents in
    let crc := Unmask (DecodeFixed32 (drop (Z.to_nat (n + 1)) contents)) in
    let actual := extend 0 (take (Z.to_nat (n + 1)) contents) in
    if verify_checksums && negb (actual =? crc)
    then (BlockContents_empty, Corruption (str:"block checksum mismatch"))
    else
      let type := byte_at contents (Z.to_nat n) in
      if type =? CompressionType_Z kNoCompression then (mkContents data in_buf in_buf, Status_OK)
      else if type =? CompressionType_Z kSnappyCompression then
        uncompressed (Snappy_GetUncompressedLength z data) (Snappy_Uncompress z data)
          (Corruption (str:"corrupted snappy compressed block length"))
          (Corruption (str:"corrupted snappy compressed block contents"))
      else if type =? CompressionType_Z kZstdCompression then
        uncompressed (Zstd_GetUncompressedLength z data) (Zstd_Uncompress z data)
          (Corruption (str:"corrupted zstd compressed block length"))
          (Corruption (str:"corrupted zstd compressed block contents"))
      else (BlockContents_empty, Corruption (str:"bad block type")).
End ReadBlock.

(** ** Proofs *)

(** Handles as the code makes them. *)
Definition handle_ok (h : BlockHandle) : Prop := 0 <= offset_ h < 2 ^ 64 /\ 0 <= size_ h < 2 ^ 64.

Lemma BlockHandle_EncodeTo_app h dst :
  BlockHandle_EncodeTo h dst = dst ++ BlockHandle_EncodeTo h [].
Proof. unfold BlockHandle_EncodeTo, PutVarint64. by rewrite <- !app_assoc. Qed.

Lemma BlockHandle_encoding h :
  handle_ok h ->
  BlockHandle_EncodeTo h [] = EncodeVarint64 (offset_ h) ++ EncodeVarint64 (size_ h).
Proof. intros [Ho Hs]. unfold BlockHandle_EncodeTo, PutVarint64. by rewrite !u64_small. Qed.

Lemma BlockHandle_length h : handle_ok h -> (length (BlockHandle_EncodeTo h []) <= 20)%nat.
Proof.
  intros H. rewrite BlockHandle_encoding, length_app by done. destruct H as [Ho Hs].
  pose proof (EncodeVarint64_length _ Ho). pose proof (EncodeVarint64_length _ Hs). lia.
Qed.

Lemma BlockHandle_decode h0 h rest :
  handle_ok h ->
  BlockHandle_DecodeFrom h0 (BlockHandle_EncodeTo h [] ++ rest) = (h, rest, Status_OK).
Proof.
  intros H. rewrite BlockHandle_encoding, <- app_assoc by done. destruct H as [Ho Hs].
  unfold BlockHandle_DecodeFrom. rewrite !GetVarint64_encode by done. by destruct h.
Qed.

Lemma resize_long s n : (length s <= n)%nat -> resize s n = s ++ replicate (n - length s) Byte.x00.
Proof. intros H. unfold resize. by rewrite take_ge. Qed.

(** The footer of [f], zero bytes after the handles up to the magic number. *)
Lemma Footer_EncodeTo_eq f :
  handle_ok (metaindex_handle_ f) -> handle_ok (index_handle_ f) ->
  exists pad, Footer_EncodeTo f [] =
    (BlockHandle_EncodeTo (metaindex_handle_ f) [] ++ BlockHandle_EncodeTo (index_handle_ f) [] ++ pad)
    ++ EncodeFixed64 kTableMagicNumber /\
    length (BlockHandle_EncodeTo (metaindex_handle_ f) [] ++
            BlockHandle_EncodeTo (index_handle_ f) [] ++ pad) = 40%nat.
Proof.
  intros Hm Hi. unfold Footer_EncodeTo. rewrite (BlockHandle_EncodeTo_app (index_handle_ f)).
  pose proof (BlockHandle_length _ Hm). pose proof (BlockHandle_length _ Hi).
  change (Z.to_nat (2 * kMaxEncodedLength)) with 40%nat.
  rewrite resize_long by (rewrite length_app; lia).
  assert (forall dst, PutFixed32 (PutFixed32 dst (u32 (Z.land kTableMagicNumber 0xffffffff)))
    (u32 (Z.shiftr kTableMagicNumber 32)) = dst ++ EncodeFixed64 kTableMagicNumber) as ->
    by (intros dst; unfold PutFixed32; by rewrite <- app_assoc).
  eexists. split.
  - f_equal. by rewrite <- app_assoc.
  - rewrite !length_app, length_replicate. lia.
Qed.

Lemma Footer_decode f f0 rest :
  handle_ok (metaindex_handle_ f) -> handle_ok (index_handle_ f) ->
  Footer_DecodeFrom f0 (Footer_EncodeTo f [] ++ rest) = (f, rest, Status_OK) /\
  zlen (Footer_EncodeTo f []) = kEncodedLength.
Proof.
  intros Hm Hi. destruct (Footer_EncodeTo_eq f Hm Hi) as (pad & -> & Hl). split.
  - unfold Footer_DecodeFrom.
    change (Z.to_nat (kEncodedLength - 8)) with 40%nat. rewrite <- app_assoc.
    rewrite drop_app_length' by done. rewrite !length_app, length_EncodeFixed64 in *.
    rewrite (proj2 (Z.ltb_ge _ _)) by (unfold kEncodedLength, kMaxEncodedLength; lia).
    set (magic := EncodeFixed64 kTableMagicNumber ++ rest).
    assert ((Z.lor (u64 (Z.shiftl (DecodeFixed32 (drop 4 magic)) 32)) (DecodeFixed32 magic) =?
      kTableMagicNumber) = true) as -> by reflexivity. cbn [negb].
    rewrite <- app_assoc, BlockHandle_decode by done. change (ok Status_OK) with true. cbn [negb].
    rewrite <- app_assoc, BlockHandle_decode by done. change (ok Status_OK) with true. cbn [negb].
    unfold magic. rewrite drop_app_length' by done. by destruct f.
  - rewrite length_app, Hl, length_EncodeFixed64. reflexivity.
Qed.

(** *** Stored blocks *)

Section Stored.
Context (extend : Z -> bytes -> Z) `{!CrcLaws extend} (z : Compression) `{!CompressionLaws z}.

(** A block as it lies in a file: its bytes and the trailer. *)
Definition stored (data : bytes) (t : CompressionType) : bytes :=
  data ++ byte.of_Z (CompressionType_Z t) ::
  EncodeFixed32 (Mask (extend 0 (data ++ [byte.of_Z (CompressionType_Z t)]))).

(** The bytes and type under which [raw] may be stored. *)
Inductive stores (raw : bytes) : bytes -> CompressionType -> Prop :=
  | stores_raw : stores raw raw kNoCompression
  | stores_snappy c : Snappy_Compress z raw = Some c -> stores raw c kSnappyCompression
  | stores_zstd level c : Zstd_Compress z level raw = Some c -> stores raw c kZstdCompression.

Lemma stored_length data t : zlen (stored data t) = zlen data + kBlockTrailerSize.
Proof. unfold stored. rewrite length_app. cbn [length EncodeFixed32]. unfold kBlockTrailerSize. lia. Qed.

Lemma stored_type t :
  byte.unsigned (byte.of_Z (CompressionType_Z t)) = CompressionType_Z t.
Proof. by destruct t. Qed.

(** What lies in a file at a handle is read back, checksum and all. *)
Lemma ReadBlock_stored file contents verify raw data t pre post :
  ReliableRandomReads file contents -> contents = pre ++ stored data t ++ post ->
  stores raw data t -> zlen data + kBlockTrailerSize < 2 ^ 64 ->
  exists c h, ReadBlock extend z file verify (mkHandle (zlen pre) (zlen data)) =
    (mkContents raw c h, Status_OK).
Proof.
  intros HR -> Hst Hlen. unfold ReadBlock. cbn [size_ offset_].
  rewrite u64_small by (unfold kBlockTrailerSize in *; lia).
  destruct (raf_read_ok (f:=file) (zlen pre) (zlen data + kBlockTrailerSize)) as (in_buf & ->);
    [lia|unfold kBlockTrailerSize; lia|pose proof (stored_length data t); rewrite !length_app; lia|].
  rewrite Nat2Z.id, drop_app_length.
  assert (take (Z.to_nat (zlen data + kBlockTrailerSize)) (stored data t ++ post) = stored data t) as ->.
  { apply take_app_length'. pose proof (stored_length data t). lia. }
  change (ok Status_OK) with true. cbn [negb].
  rewrite stored_length, Z.eqb_refl. cbn [negb].
  set (ty := byte.of_Z (CompressionType_Z t)).
  assert (take (Z.to_nat (zlen data)) (stored data t) = data) as ->.
  { rewrite Nat2Z.id. unfold stored. by rewrite take_app_length. }
  assert (stored data t = (data ++ [ty]) ++ EncodeFixed32 (Mask (extend 0 (data ++ [ty])))) as Es
    by (unfold stored; by rewrite <- app_assoc).
  assert (length (data ++ [ty]) = Z.to_nat (zlen data + 1)) as Hl
    by (rewrite length_app; cbn; lia).
  assert (byte_at (stored data t) (Z.to_nat (zlen data)) = CompressionType_Z t) as ->.
  { unfold byte_at, stored. rewrite Nat2Z.id, app_nth2, Nat.sub_diag by lia. apply stored_type. }
  rewrite Es, <- Hl, take_app_length, drop_app_length.
  rewrite <- (app_nil_r (EncodeFixed32 _)), Fixed32_roundtrip by apply Mask_range.
  rewrite Unmask_Mask by (by apply extend_range). rewrite Z.eqb_refl. cbn [negb]. rewrite andb_false_r.
  destruct Hst as [|c Hc|level c Hc]; cbn [CompressionType_Z Z.eqb].
  - by eexists _, _.
  - destruct (snappy_roundtrip _ _ Hc) as [-> ->]. by eexists _, _.
  - destruct (zstd_roundtrip _ _ _ Hc) as [-> ->]. by eexists _, _.
Qed.
End Stored.
