(* ===== verification/FilterBlock.v ===== *)
(** * Filter blocks

    src/table/filter_block.h and src/table/filter_block.cc: one filter for
    every 2 KB of data block offsets, behind them an array of their offsets.

    The builder's keys form groups, group [i] holding the keys of the blocks
    that start at offsets [i * 2048 .. i * 2048 + 2047]; the reader never
    rejects a key of the group of its block. *)

From stdpp Require Import sets sorting.
From S2P Require Import Prelude Slice Coding Hash.

Definition kFilterBaseLg : Z := 11.
Definition kFilterBase : Z := Z.shiftl 1 kFilterBaseLg.

Section Operations.
Context (policy_ : FilterPolicy).

(** [class FilterBlockBuilder]; [tmp_keys_] is empty between calls. *)
Record FilterBlockBuilder := mkFilterBuilder {
  keys_ : bytes; start_ : list Z; result_ : bytes; filter_offsets_ : list Z }.

Definition FilterBlockBuilder_new : FilterBlockBuilder := mkFilterBuilder [] [] [] [].

(** [tmp_keys_[i]] for [i < num_keys], from the starts with the end pushed. *)
Fixpoint slices (keys : bytes) (starts : list Z) : list bytes :=
  match starts with
  | s :: (e :: _) as rest =>
      take (Z.to_nat (e - s)) (drop (Z.to_nat s) keys) :: slices keys rest
  | _ => []
  end.

(** [GenerateFilter()] *)
Definition GenerateFilter (b : FilterBlockBuilder) : FilterBlockBuilder :=
  match start_ b with
  | [] => mkFilterBuilder (keys_ b) (start_ b) (result_ b)
            (filter_offsets_ b ++ [u32 (zlen (result_ b))])
  | _ =>
      let start := start_ b ++ [zlen (keys_ b)] in
      let tmp_keys := slices (keys_ b) start in
      mkFilterBuilder [] [] (CreateFilter policy_ tmp_keys (result_ b))
        (filter_offsets_ b ++ [u32 (zlen (result_ b))])
  end.

(** [StartBlock(block_offset)]: every round of the loop adds an offset. *)
Fixpoint StartBlock_loop (fuel : nat) (filter_index : Z) (b : FilterBlockBuilder) : FilterBlockBuilder :=
  match fuel with
  | O => b
  | S fuel =>
      if filter_index >? zlen (filter_offsets_ b)
      then StartBlock_loop fuel filter_index (GenerateFilter b) else b
  end.

Definition StartBlock (b : FilterBlockBuilder) (block_offset : Z) : FilterBlockBuilder :=
  let filter_index := block_offset / kFilterBase in
  StartBlock_loop (Z.to_nat filter_index) filter_index b.

(** [AddKey(key)] *)
Definition AddKey (b : FilterBlockBuilder) (key : bytes) : FilterBlockBuilder :=
  mkFilterBuilder (keys_ b ++ key) (start_ b ++ [zlen (keys_ b)]) (result_ b) (filter_offsets_ b).

(** [Finish()]: the builder and the contents. *)
Definition FilterBlock_Finish (b : FilterBlockBuilder) : FilterBlockBuilder * bytes :=
  let b := match start_ b with [] => b | _ => GenerateFilter b end in
  let array_offset := u32 (zlen (result_ b)) in
  let result := fold_left PutFixed32 (filter_offsets_ b) (result_ b) in
  let result := PutFixed32 result array_offset ++ [byte.of_Z kFilterBaseLg] in
  (mkFilterBuilder (keys_ b) (start_ b) result (filter_offsets_ b), result).

(** [class FilterBlockReader]: [data_] with the position of [offset_] in it. *)
Record FilterBlockReader := mkFilterReader {
  data_ : bytes; offset_pos : Z; num_ : Z; base_lg_ : Z }.

(** [FilterBlockReader::FilterBlockReader]; a [char] is signed and widens to
    [size_t]. *)
Definition FilterBlockReader_new (contents : bytes) : FilterBlockReader :=
  let n := zlen contents in
  if n <? 5 then mkFilterReader [] 0 0 0
  else
    let base_lg := u64 (s8 (byte_at contents (Z.to_nat (n - 1)))) in
    let last_word := DecodeFixed32 (drop (Z.to_nat (n - 5)) contents) in
    if last_word >? n - 5 then mkFilterReader [] 0 0 base_lg
    else mkFilterReader contents last_word ((n - 5 - last_word) / 4) base_lg.

(** [FilterBlockReader::KeyMayMatch]; a shift by 64 or more is undefined. *)
Definition FilterBlock_KeyMayMatch (r : FilterBlockReader) (block_offset : Z) (key : bytes) : option bool :=
  if base_lg_ r >=? 64 then None
  else
    let index := Z.shiftr block_offset (base_lg_ r) in
    if index <? num_ r then
      let start := DecodeFixed32 (drop (Z.to_nat (offset_pos r + index * 4)) (data_ r)) in
      let limit := DecodeFixed32 (drop (Z.to_nat (offset_pos r + index * 4 + 4)) (data_ r)) in
      if (start <=? limit) && (limit <=? offset_pos r)
      then Some (KeyMayMatch policy_ key
             (take (Z.to_nat (limit - start)) (drop (Z.to_nat start) (data_ r))))
      else Some false
    else Some true.
End Operations.

(** ** Proofs *)

Section Correct.
Context (policy_ : FilterPolicy) (ok_keys : list bytes -> Prop) `{!FilterPolicyLaws ok_keys policy_}.

(** The filter of a group; an empty group has none. *)
Definition filter_of (ks : list bytes) : bytes :=
  match ks with [] => [] | _ => CreateFilter policy_ ks [] end.
Definition filters (gs : list (list bytes)) : bytes := concat (map filter_of gs).

(** Where the keys of a group start. *)
Definition starts (ks : list bytes) : list Z :=
  map (fun i => zlen (concat (take i ks))) (seq 0 (length ks)).
Definition offsets (gs : list (list bytes)) : list Z :=
  map (fun i => u32 (zlen (filters (take i gs)))) (seq 0 (length gs)).

(** The builder with the groups [gs] behind it and [ks] in hand. *)
Record filter_inv (b : FilterBlockBuilder) (gs : list (list bytes)) (ks : list bytes) : Prop := {
  fi_keys : keys_ b = concat ks;
  fi_start : start_ b = starts ks;
  fi_result : result_ b = filters gs;
  fi_offsets : filter_offsets_ b = offsets gs
}.

Lemma filter_new_inv : filter_inv FilterBlockBuilder_new [] [].
Proof. done. Qed.

Lemma filters_app g1 g2 : filters (g1 ++ g2) = filters g1 ++ filters g2.
Proof. unfold filters. by rewrite map_app, concat_app. Qed.

Lemma seq_snoc n : seq 0 (S n) = seq 0 n ++ [n].
Proof. by rewrite seq_S. Qed.

Lemma starts_snoc ks k : starts (ks ++ [k]) = starts ks ++ [zlen (concat ks)].
Proof.
  unfold starts. rewrite length_app, Nat.add_1_r, seq_snoc, map_app. f_equal.
  - apply map_ext_in. intros i [_ Hi]%in_seq. by rewrite take_app_le by lia.
  - cbn. by rewrite take_app_length.
Qed.

Lemma offsets_snoc gs g : offsets (gs ++ [g]) = offsets gs ++ [u32 (zlen (filters gs))].
Proof.
  unfold offsets. rewrite length_app, Nat.add_1_r, seq_snoc, map_app. f_equal.
  - apply map_ext_in. intros i [_ Hi]%in_seq. by rewrite take_app_le by lia.
  - cbn. by rewrite take_app_length.
Qed.

Lemma length_offsets gs : length (offsets gs) = length gs.
Proof. unfold offsets. by rewrite length_map, length_seq. Qed.

Lemma starts_nil ks : starts ks = [] <-> ks = [].
Proof. split; [|by intros ->]. by destruct ks. Qed.

(** Cutting the flattened keys at the starts gives the keys back. *)
Lemma slices_starts ks :
  slices (concat ks) (starts ks ++ [zlen (concat ks)]) = ks.
Proof.
  assert (forall pre ks,
    slices (concat (pre ++ ks))
      (map (fun i => zlen (concat (take i (pre ++ ks)))) (seq (length pre) (S (length ks)))) = ks) as H.
  { intros pre l. revert pre. induction l as [|k l IH]; intros pre; [done|].
    specialize (IH (pre ++ [k])). rewrite <- app_assoc in IH. cbn [app] in IH.
    rewrite length_app, Nat.add_1_r in IH. cbn [length seq map slices]. cbn [seq map length] in IH.
    f_equal; [|exact IH]. rewrite take_app_length.
    replace (take (S (length pre)) (pre ++ k :: l)) with (pre ++ [k]).
    2:{ change (pre ++ k :: l) with (pre ++ [k] ++ l). rewrite app_assoc.
        symmetry. apply take_app_length'. rewrite length_app. cbn. lia. }
    rewrite !concat_app, length_app, Nat2Z.id, drop_app_length.
    replace (Z.to_nat _) with (length k) by (cbn; rewrite app_nil_r; lia).
    cbn [concat]. apply take_app_length. }
  specialize (H [] ks). cbn [app length] in H. rewrite <- H at 4. f_equal.
  rewrite seq_S, map_app. cbn. by rewrite firstn_all.
Qed.

Lemma GenerateFilter_inv b gs ks :
  filter_inv b gs ks -> filter_inv (GenerateFilter policy_ b) (gs ++ [ks]) [].
Proof.
  intros [Hk Hs Hr Ho]. unfold GenerateFilter. rewrite Hs, Hk, Hr, Ho.
  destruct ks as [|k ks]; [|destruct (starts (k :: ks)) as [|s l] eqn:E; [by apply starts_nil in E|]].
  - split; cbn; [done|done| |by rewrite offsets_snoc].
    rewrite filters_app. cbn. by rewrite app_nil_r.
  - rewrite <- E, slices_starts. split; cbn [keys_ start_ result_ filter_offsets_]; [done|done| |by rewrite offsets_snoc].
    rewrite filters_app, (CreateFilter_appends (ok_keys:=ok_keys)). f_equal. unfold filters. cbn. by rewrite app_nil_r.
Qed.

Lemma AddKey_inv b gs ks k : filter_inv b gs ks -> filter_inv (AddKey b k) gs (ks ++ [k]).
Proof.
  intros [Hk Hs Hr Ho]. split; cbn; [|by rewrite Hs, starts_snoc, Hk|done|done].
  by rewrite Hk, concat_app; cbn; rewrite app_nil_r.
Qed.

(** Keys a client gave for the block at [off] are in the group of [off]. *)
Definition grouped (gs : list (list bytes)) (ks : list bytes) (off : Z) (keys : list bytes) : Prop :=
  exists g, (gs ++ [ks]) !! Z.to_nat (off / kFilterBase) = Some g /\ keys ⊆ g.

Lemma StartBlock_loop_inv fuel idx b gs ks :
  filter_inv b gs ks -> idx - zlen gs <= Z.of_nat fuel -> zlen gs <= idx ->
  exists gs' ks', filter_inv (StartBlock_loop policy_ fuel idx b) gs' ks' /\ zlen gs' = idx /\
    concat (gs' ++ [ks']) = concat (gs ++ [ks]) /\
    forall off keys, 0 <= off -> grouped gs ks off keys -> grouped gs' ks' off keys.
Proof.
  revert b gs ks. induction fuel as [|fuel IH]; intros b gs ks H Hf Hle; cbn [StartBlock_loop].
  - exists gs, ks. split; [done|]. split; [lia|]. done.
  - rewrite (fi_offsets _ _ _ H), length_offsets. destruct (idx >? zlen gs) eqn:E.
    + apply Z.gtb_lt in E. destruct (IH _ _ _ (GenerateFilter_inv _ _ _ H)) as (gs' & ks' & H' & Hl & Hc & Hg).
      { rewrite length_app. cbn. lia. } { rewrite length_app. cbn. lia. }
      exists gs', ks'. split; [done|]. split; [done|].
      split; [rewrite Hc, concat_app; cbn; by rewrite app_nil_r|]. intros off keys Hoff (g & Hg1 & Hg2).
      apply Hg; [done|]. exists g. split; [|done]. by apply lookup_app_l_Some.
    + exists gs, ks. split; [done|]. split; [|done].
      assert (~ idx > zlen gs) by (intros ?%Z.gt_lt%Z.gtb_lt; congruence). lia.
Qed.

Lemma StartBlock_inv b gs ks off :
  filter_inv b gs ks -> zlen gs <= off / kFilterBase ->
  exists gs' ks', filter_inv (StartBlock policy_ b off) gs' ks' /\ zlen gs' = off / kFilterBase /\
    concat (gs' ++ [ks']) = concat (gs ++ [ks]) /\
    forall off keys, 0 <= off -> grouped gs ks off keys -> grouped gs' ks' off keys.
Proof. intros H Hle. apply (StartBlock_loop_inv _ _ b gs ks); [done|lia|done]. Qed.

(** Adding keys after a block was started at [off]. *)
Lemma AddKeys_inv b gs ks keys :
  filter_inv b gs ks -> filter_inv (fold_left AddKey keys b) gs (ks ++ keys).
Proof.
  revert b ks. induction keys as [|k keys IH]; intros b ks H; cbn; [by rewrite app_nil_r|].
  replace (ks ++ k :: keys) with ((ks ++ [k]) ++ keys) by by rewrite <- app_assoc.
  apply IH. by apply AddKey_inv.
Qed.

(** *** Reading *)

Lemma fixed32_array xs i x rest :
  xs !! i = Some x -> 0 <= x < 2 ^ 32 ->
  DecodeFixed32 (drop (4 * i) (concat (map EncodeFixed32 xs) ++ rest)) = x.
Proof.
  revert i. induction xs as [|y xs IH]; intros i Hi Hx; [done|]. destruct i as [|i]; cbn in Hi.
  - injection Hi as ->. cbn [map concat]. rewrite <- app_assoc. by apply Fixed32_roundtrip.
  - cbn [map concat]. rewrite <- app_assoc.
    replace (4 * S i)%nat with (length (EncodeFixed32 y) + 4 * i)%nat
      by (rewrite length_EncodeFixed32; lia).
    rewrite <- drop_drop, drop_app_length. by apply IH.
Qed.

Lemma length_fixed32s xs : length (concat (map EncodeFixed32 xs)) = (4 * length xs)%nat.
Proof.
  induction xs as [|x xs IH]; [done|]. cbn [map concat].
  rewrite length_app, length_EncodeFixed32, IH. cbn [length]. lia.
Qed.

(** The groups a finished block holds filters for. *)
Definition final_groups (gs : list (list bytes)) (ks : list bytes) : list (list bytes) :=
  match ks with [] => gs | _ => gs ++ [ks] end.

(** The bytes of a filter block. *)
Definition filter_block (gs : list (list bytes)) : bytes :=
  filters gs ++ concat (map EncodeFixed32
    (map (fun i => u32 (zlen (filters (take i gs)))) (seq 0 (S (length gs))))) ++ [byte.of_Z kFilterBaseLg].

Lemma Finish_block b gs ks :
  filter_inv b gs ks -> snd (FilterBlock_Finish policy_ b) = filter_block (final_groups gs ks).
Proof.
  intros H. unfold FilterBlock_Finish.
  assert (filter_inv (match start_ b with [] => b | _ => GenerateFilter policy_ b end)
    (final_groups gs ks) []) as [_ _ Hr Ho].
  { rewrite (fi_start _ _ _ H). destruct ks as [|k ks]; [done|].
    destruct (starts (k :: ks)) eqn:E; [by apply starts_nil in E|]. by apply GenerateFilter_inv. }
  cbn [snd]. rewrite Hr, Ho. set (gs' := final_groups gs ks). unfold filter_block, PutFixed32 at 1.
  assert (forall xs buf, fold_left PutFixed32 xs buf = buf ++ concat (map EncodeFixed32 xs)) as Hfold.
  { induction xs as [|x xs IH]; intros buf; cbn; [by rewrite app_nil_r|].
    rewrite IH. unfold PutFixed32. by rewrite <- app_assoc. }
  rewrite Hfold, seq_snoc, !map_app, concat_app. cbn [map concat].
  rewrite firstn_all, app_nil_r, <- !app_assoc. done.
Qed.

Lemma filters_take_le gs i : zlen (filters (take i gs)) <= zlen (filters gs).
Proof. rewrite <- (take_drop i gs) at 2. rewrite filters_app, length_app. lia. Qed.

(** The filter of group [i] in the block. *)
Lemma filters_slice gs i g rest :
  gs !! i = Some g ->
  take (Z.to_nat (zlen (filters (take (S i) gs)) - zlen (filters (take i gs))))
    (drop (Z.to_nat (zlen (filters (take i gs)))) (filters gs ++ rest)) = filter_of g.
Proof.
  intros Hi. set (pre := filters (take i gs)).
  assert (filters gs = pre ++ filter_of g ++ filters (drop (S i) gs)) as ->.
  { rewrite <- (take_drop_middle _ _ _ Hi) at 1. by rewrite filters_app. }
  assert (filters (take (S i) gs) = pre ++ filter_of g) as ->.
  { rewrite (take_S_r _ _ _ Hi), filters_app. unfold filters at 2. cbn. by rewrite app_nil_r. }
  rewrite length_app, Nat2Z.id, <- app_assoc, drop_app_length, <- app_assoc.
  apply take_app_length'. lia.
Qed.

Lemma KeyMayMatch_group gs i g off key :
  zlen (filter_block gs) < 2 ^ 32 -> gs !! i = Some g -> 0 <= off -> off / kFilterBase = Z.of_nat i ->
  FilterBlock_KeyMayMatch policy_ (FilterBlockReader_new (filter_block gs)) off key =
  Some (KeyMayMatch policy_ key (filter_of g)).
Proof.
  intros Hlen Hi Hoff Hdiv. set (blk := filter_block gs) in *.
  set (R := filters gs). set (xs := map (fun i => u32 (zlen (filters (take i gs)))) (seq 0 (S (length gs)))).
  assert (blk = R ++ concat (map EncodeFixed32 xs) ++ [byte.of_Z kFilterBaseLg]) as Eblk by done.
  assert (length xs = S (length gs)) as Lxs by (unfold xs; by rewrite length_map, length_seq).
  assert (zlen blk = zlen R + 4 * zlen gs + 5) as Lblk.
  { rewrite Eblk, !length_app, length_fixed32s, Lxs. cbn [length]. lia. }
  assert (forall j, (j <= length gs)%nat -> xs !! j = Some (zlen (filters (take j gs))) /\
    zlen (filters (take j gs)) <= zlen R) as Hxs.
  { intros j Hj. pose proof (filters_take_le gs j). split; [|done]. unfold xs.
    rewrite list_lookup_fmap, lookup_seq_lt by lia. cbn. f_equal. apply u32_small. unfold R in *. lia. }
  assert (forall j, (j <= length gs)%nat ->
    DecodeFixed32 (drop (length R + 4 * j) blk) = zlen (filters (take j gs))) as Hdec.
  { intros j Hj. destruct (Hxs j Hj) as [H1 H2]. rewrite Eblk, <- drop_drop, drop_app_length.
    apply fixed32_array; [done|]. lia. }
  assert (FilterBlockReader_new blk = mkFilterReader blk (zlen R) (zlen gs) 11) as ->.
  { unfold FilterBlockReader_new. rewrite (proj2 (Z.ltb_ge _ _)) by lia.
    replace (Z.to_nat (zlen blk - 5)) with (length R + 4 * length gs)%nat by lia.
    rewrite Hdec, firstn_all by lia. fold R.
    assert (byte_at blk (Z.to_nat (zlen blk - 1)) = 11) as ->.
    { unfold byte_at. rewrite Eblk, app_assoc. rewrite app_nth2.
      - replace (_ - _)%nat with O; [done|]. rewrite <- app_assoc, <- Eblk, length_app, length_fixed32s, Lxs. lia.
      - rewrite <- app_assoc, <- Eblk, length_app, length_fixed32s, Lxs. lia. }
    rewrite gtb_le by lia. change (u64 (s8 11)) with 11. f_equal.
    replace (zlen blk - 5 - zlen R) with (zlen gs * 4) by lia. by rewrite Z.div_mul. }
  unfold FilterBlock_KeyMayMatch. cbn [base_lg_ num_ offset_pos data_].
  change (11 >=? 64) with false. cbn iota.
  assert (Z.shiftr off 11 = Z.of_nat i) as ->.
  { rewrite Z.shiftr_div_pow2 by lia. exact Hdiv. }
  pose proof (lookup_lt_Some _ _ _ Hi) as Hlt.
  rewrite (proj2 (Z.ltb_lt _ _)) by lia.
  replace (Z.to_nat (zlen R + Z.of_nat i * 4)) with (length R + 4 * i)%nat by lia.
  replace (Z.to_nat (zlen R + Z.of_nat i * 4 + 4)) with (length R + 4 * S i)%nat by lia.
  rewrite !Hdec by lia. destruct (Hxs (S i) ltac:(lia)) as [_ Hle].
  assert (zlen (filters (take i gs)) <= zlen (filters (take (S i) gs))).
  { rewrite (take_S_r _ _ _ Hi), filters_app, length_app. lia. }
  rewrite !(proj2 (Z.leb_le _ _)) by lia. cbn [andb]. do 2 f_equal.
  rewrite Eblk. by apply filters_slice.
Qed.

(** A key is never rejected by the filter of its block. *)
Lemma filter_no_false_negative b gs ks off keys key :
  filter_inv b gs ks -> zlen (snd (FilterBlock_Finish policy_ b)) < 2 ^ 32 ->
  Forall ok_keys (gs ++ [ks]) -> 0 <= off -> grouped gs ks off keys -> key ∈ keys ->
  FilterBlock_KeyMayMatch policy_ (FilterBlockReader_new (snd (FilterBlock_Finish policy_ b))) off key
  = Some true.
Proof.
  intros H Hlen Hok Hoff (g & Hg & Hsub) Hkey. rewrite (Finish_block b gs ks H) in *.
  assert (key ∈ g) as Hin by by apply Hsub. 
  assert (final_groups gs ks !! Z.to_nat (off / kFilterBase) = Some g) as Hg'.
  { unfold final_groups. destruct ks as [|k ks]; [|done]. rewrite lookup_app in Hg.
    destruct (gs !! _); [done|]. apply list_lookup_singleton_Some in Hg as [_ <-]. by apply elem_of_nil in Hin. }
  rewrite (KeyMayMatch_group _ _ g off key Hlen Hg' Hoff).
  - rewrite Forall_lookup in Hok. specialize (Hok _ _ Hg). destruct g as [|k g]; [by apply elem_of_nil in Hin|].
    f_equal. apply (KeyMayMatch_complete (ok_keys:=ok_keys)); [done|]. by apply list_elem_of_In.
  - rewrite Z2Nat.id; [done|]. apply Z.div_pos; [done|]. reflexivity.
Qed.
End Correct.

(** ** Properties *)

(** Feeding the keys of a sequence of data blocks with their offsets. *)
Definition FilterBlock_run (policy : FilterPolicy) (b : FilterBlockBuilder)
    (blocks : list (Z * list bytes)) : FilterBlockBuilder :=
  fold_left (fun b e => fold_left AddKey (snd e) (StartBlock policy b (fst e))) blocks b.

Lemma concat_member_length {A} (ls : list (list A)) l : l ∈ ls -> (length l <= length (concat ls))%nat.
Proof.
  induction ls as [|x ls IH]; [by intros ?%elem_of_nil|].
  cbn. rewrite length_app. intros [->|H]%elem_of_cons; [lia|]. specialize (IH H). lia.
Qed.

Lemma grouped_here gs ks keys off :
  0 <= off -> zlen gs = off / kFilterBase -> grouped gs (ks ++ keys) off keys.
Proof.
  intros Hoff Hl. exists (ks ++ keys). split; [|set_solver]. rewrite lookup_app_r by lia.
  replace (_ - _)%nat with O by lia. done.
Qed.

Lemma grouped_extend gs ks ks' off keys : grouped gs ks off keys -> grouped gs (ks ++ ks') off keys.
Proof.
  intros (g & Hg & Hk). unfold grouped. rewrite lookup_app in Hg |- *.
  destruct (gs !! _); [eauto|]. apply list_lookup_singleton_Some in Hg as [-> <-].
  cbn. eexists. split; [done|]. set_solver.
Qed.

Lemma FilterBlock_run_inv policy ok_keys `{!FilterPolicyLaws ok_keys policy} b gs ks blocks :
  filter_inv policy b gs ks ->
  StronglySorted Z.le (zlen gs * kFilterBase :: map fst blocks) ->
  exists gs' ks', filter_inv policy (FilterBlock_run policy b blocks) gs' ks' /\
    concat (gs' ++ [ks']) = concat (gs ++ [ks]) ++ concat (map snd blocks) /\
    (forall off keys, (off, keys) ∈ blocks -> grouped gs' ks' off keys) /\
    (forall off keys, 0 <= off -> grouped gs ks off keys -> grouped gs' ks' off keys).
Proof.
  revert b gs ks. induction blocks as [|[off0 keys0] blocks IH]; intros b gs ks H Hs.
  - exists gs, ks. split; [done|]. split; [by rewrite app_nil_r|].
    split; [by intros ? ? ?%elem_of_nil|done].
  - cbn [FilterBlock_run fold_left fst snd] in *. cbn [map fst] in Hs.
    inversion Hs as [|? ? Hs1 Hs2]; subst. inversion Hs2 as [|? ? Hle Hs3]; subst.
    inversion Hs1 as [|? ? Hs4 Hs5]; subst.
    assert (0 < kFilterBase) as Hb by reflexivity.
    assert (0 <= off0) as Hoff0 by lia.
    destruct (StartBlock_inv policy ok_keys b gs ks off0 H) as (gs1 & ks1 & H1 & Hl1 & Hc1 & Hg1).
    { apply Z.div_le_lower_bound; lia. }
    pose proof (AddKeys_inv policy _ _ _ keys0 H1) as H2.
    destruct (IH _ _ _ H2) as (gs' & ks' & H3 & Hc3 & Hb3 & Hg3).
    { rewrite Hl1. pose proof (Z.mul_div_le off0 kFilterBase Hb) as Hm. constructor; [done|].
      eapply list.Forall_impl; [exact Hs5|]. cbn. intros x Hx. lia. }
    exists gs', ks'. split; [done|]. split; [|split].
    + rewrite Hc3, concat_app. cbn. rewrite app_nil_r, !app_assoc. f_equal.
      rewrite <- Hc1, concat_app. cbn. by rewrite app_nil_r, <- !app_assoc.
    + intros off keys [[= -> ->]|Hin]%elem_of_cons; [|by apply Hb3].
      apply Hg3; [done|]. by apply grouped_here.
    + intros off keys Hoff Hg. apply Hg3; [done|]. apply grouped_extend. by apply Hg1.
Qed.

(** C27: Filters never hide a key: feed the builder the keys of any sequence of
    data blocks at increasing file offsets and finish it; the reader of the
    result answers "may match" for every key at the offset of its block, however
    many blocks share a filter and however many filters are empty. *)
Theorem filter_block_complete (policy : FilterPolicy) (ok_keys : list bytes -> Prop)
    `{!FilterPolicyLaws ok_keys policy} (blocks : list (Z * list bytes)) off keys key :
  StronglySorted Z.le (0 :: map fst blocks) ->
  (forall ks, (length ks <= length (concat (map snd blocks)))%nat -> ok_keys ks) ->
  let b := FilterBlock_run policy FilterBlockBuilder_new blocks in
  zlen (snd (FilterBlock_Finish policy b)) < 2 ^ 32 ->
  (off, keys) ∈ blocks -> key ∈ keys ->
  FilterBlock_KeyMayMatch policy
    (FilterBlockReader_new (snd (FilterBlock_Finish policy b))) off key = Some true.
Proof.
  intros Hs Hok b Hlen Hin Hkey.
  destruct (FilterBlock_run_inv policy ok_keys FilterBlockBuilder_new [] [] blocks) as
    (gs & ks & H & Hc & Hg & _); [done|done|].
  eapply (filter_no_false_negative policy ok_keys); [exact H|done| | |by apply Hg|done].
  - apply list.Forall_forall. intros g Hgin. apply Hok. cbn in Hc. rewrite <- Hc.
    by apply concat_member_length.
  - inversion Hs as [|? ? _ Hf]; subst. rewrite list.Forall_forall in Hf. apply Hf.
    apply list_elem_of_fmap. by exists (off, keys).
Qed.

(** Blocks at 0, 1500 (the same filter) and 9000 (after three empty ones). *)
Definition sample_filter_blocks : list (Z * list bytes) :=
  [(0, [str:"a"; str:"b"]); (1500, [str:"c"]); (9000, [str:"d"; str:"e"])].

Lemma filter_block_complete_witness :
  FilterBlock_KeyMayMatch (NewBloomFilterPolicy 10)
    (FilterBlockReader_new (snd (FilterBlock_Finish (NewBloomFilterPolicy 10)
      (FilterBlock_run (NewBloomFilterPolicy 10) FilterBlockBuilder_new sample_filter_blocks)))) 9000
    (str:"e") = Some true.
Proof.
  pose proof (bloom_laws 10 ltac:(lia)) as Hlaws.
  apply (filter_block_complete (NewBloomFilterPolicy 10) bloom_ok_keys sample_filter_blocks 9000
    [str:"d"; str:"e"]).
  - cbn. repeat (apply SSorted_nil || apply SSorted_cons || apply Forall_nil_2 || apply Forall_cons_2 || lia).
  - intros ks Hks. unfold bloom_ok_keys. cbn in Hks. lia.
  - vm_compute. reflexivity.
  - apply list_elem_of_lookup. by exists 2%nat.
  - apply list_elem_of_lookup. by exists 1%nat.
Defined.
