(* ===== verification/TableBuilder.v ===== *)
(** * Building tables

    include/options.h (the options the table code reads), and
    src/table/table_builder.cc: data blocks one after the other, then the
    filter block, the metaindex block, the index block and the footer.  The
    index entry of a block is written when the first key of the next one is
    known, so that it can be a short key between the two.

    The invariant [building] says what the file, the index, the filter and the
    open data block hold after any number of [Add]s; [Finish_table] what a
    finished file looks like. *)

From stdpp Require Import sets sorting.
From S2P Require Import Prelude Slice Coding Crc32c Comparator Hash LogFormat.
From S2P Require Import Iterator BlockBuilder Block Format FilterBlock TwoLevelIterator.

(** [struct Options]: what the table code reads. *)
Record Options := mkOptions {
  comparator : Comparator;
  paranoid_checks : bool;
  block_size : Z;
  block_restart_interval : Z;
  compression : CompressionType;
  zstd_compression_level : Z;
  filter_policy : option FilterPolicy
}.

(** [Options::Options] *)
Definition Options_default : Options :=
  mkOptions BytewiseComparator false (4 * 1024) 16 kSnappyCompression 1 None.

Section Operations.
Context (extend : Z -> bytes -> Z) (z : Compression) (W : WritableFile).

(** [struct TableBuilder::Rep]; [compressed_output] is empty between calls and
    [index_block_options] are the options with a restart interval of 1.  The
    filter block builder keeps the policy it was made with. *)
Record Rep := mkRep {
  options : Options; file : WFile W; offset : Z; status : Status;
  data_block : BlockBuilder; index_block : BlockBuilder; last_key : bytes; num_entries : Z;
  closed : bool; fblock : option (FilterPolicy * FilterBlockBuilder); pending_index_entry : bool;
  pending_handle : BlockHandle }.

(** [TableBuilder::TableBuilder] *)
Definition TableBuilder_new (options : Options) (file : WFile W) : Rep :=
  mkRep options file 0 Status_OK BlockBuilder_new BlockBuilder_new [] 0 false
    (p ← filter_policy options; Some (p, StartBlock p FilterBlockBuilder_new 0)) false BlockHandle_new.

(** [TableBuilder::ChangeOptions].  The comparators are compared by address, which
    values do not have: [same_comparator] says whether the two pointers are equal. *)
Definition ChangeOptions (same_comparator : bool) (r : Rep) (o : Options) : Rep * Status :=
  if same_comparator then
    (mkRep o (file r) (offset r) (status r) (data_block r) (index_block r) (last_key r)
       (num_entries r) (closed r) (fblock r) (pending_index_entry r) (pending_handle r), Status_OK)
  else (r, InvalidArgument (str:"changing comparator while building table")).

Definition set_file (r : Rep) (f : WFile W) (s : Status) (o : Z) : Rep :=
  mkRep (options r) f o s (data_block r) (index_block r) (last_key r) (num_entries r) (closed r)
    (fblock r) (pending_index_entry r) (pending_handle r).

(** [TableBuilder::WriteRawBlock] *)
Definition WriteRawBlock (r : Rep) (block_contents : bytes) (type : CompressionType)
    : Rep * BlockHandle :=
  let handle := mkHandle (offset r) (zlen block_contents) in
  let '(f, s) := Append W (file r) block_contents in
  if negb (ok s) then (set_file r f s (offset r), handle)
  else
    let trailer0 := byte.of_Z (CompressionType_Z type) in
    let crc := extend (extend 0 block_contents) [trailer0] in
    let trailer := trailer0 :: EncodeFixed32 (Mask crc) in
    let '(f, s) := Append W f trailer in
    if negb (ok s) then (set_file r f s (offset r), handle)
    else (set_file r f s (u64 (offset r + (zlen block_contents + kBlockTrailerSize))), handle).

(** The compressed form is used when it saves an eighth. *)
Definition choose (raw : bytes) (compressed : option bytes) (type : CompressionType)
    : bytes * CompressionType :=
  match compressed with
  | Some c => if zlen c <? zlen raw - zlen raw / 8 then (c, type) else (raw, kNoCompression)
  | None => (raw, kNoCompression)
  end.

(** [TableBuilder::WriteBlock]: the builder, the block after [Reset] and the
    handle. *)
Definition WriteBlock (r : Rep) (block : BlockBuilder) : Rep * BlockBuilder * BlockHandle :=
  let '(block, raw) := BlockBuilder_Finish block in
  let '(block_contents, type) :=
    match compression (options r) with
    | kNoCompression => (raw, kNoCompression)
    | kSnappyCompression => choose raw (Snappy_Compress z raw) kSnappyCompression
    | kZstdCompression =>
        choose raw (Zstd_Compress z (zstd_compression_level (options r)) raw) kZstdCompression
    end in
  let '(r, handle) := WriteRawBlock r block_contents type in
  (r, BlockBuilder_Reset block, handle).

Definition set_data (r : Rep) (b : BlockBuilder) (h : BlockHandle) : Rep :=
  mkRep (options r) (file r) (offset r) (status r) b (index_block r) (last_key r) (num_entries r)
    (closed r) (fblock r) (pending_index_entry r) h.

Definition set_fblock (r : Rep) (fb : option (FilterPolicy * FilterBlockBuilder)) : Rep :=
  mkRep (options r) (file r) (offset r) (status r) (data_block r) (index_block r) (last_key r)
    (num_entries r) (closed r) fb (pending_index_entry r) (pending_handle r).

(** The filter block after an operation of the policy's builder. *)
Definition on_filter (r : Rep) (f : FilterPolicy -> FilterBlockBuilder -> FilterBlockBuilder) : Rep :=
  set_fblock r (pfb ← fblock r; Some (fst pfb, f (fst pfb) (snd pfb))).

(** [TableBuilder::Flush] *)
Definition TableBuilder_Flush (r : Rep) : Rep :=
  if negb (ok (status r)) then r
  else if BlockBuilder_empty (data_block r) then r
  else
    let '(r, block, handle) := WriteBlock r (data_block r) in
    let r := set_data r block handle in
    let r :=
      if ok (status r) then
        let '(f, s) := Flush W (file r) in
        mkRep (options r) f (offset r) s (data_block r) (index_block r) (last_key r) (num_entries r)
          (closed r) (fblock r) true (pending_handle r)
      else r in
    on_filter r (fun p fb => StartBlock p fb (offset r)).

(** Writing the index entry of the last block under [key]. *)
Definition add_index_entry (r : Rep) (key : bytes) : Rep :=
  mkRep (options r) (file r) (offset r) (status r) (data_block r)
    (BlockBuilder_Add 1 (index_block r) key (BlockHandle_EncodeTo (pending_handle r) []))
    key (num_entries r) (closed r) (fblock r) false (pending_handle r).

(** [TableBuilder::Add] *)
Definition TableBuilder_Add (r : Rep) (key value : bytes) : Rep :=
  if negb (ok (status r)) then r
  else
    let r :=
      if pending_index_entry r
      then add_index_entry r (FindShortestSeparator (comparator (options r)) (last_key r) key)
      else r in
    let r := on_filter r (fun _ fb => AddKey fb key) in
    let r :=
      mkRep (options r) (file r) (offset r) (status r)
        (BlockBuilder_Add (block_restart_interval (options r)) (data_block r) key value)
        (index_block r) key (num_entries r + 1) (closed r) (fblock r)
        (pending_index_entry r) (pending_handle r) in
    if CurrentSizeEstimate (data_block r) >=? block_size (options r) then TableBuilder_Flush r else r.

Definition with_closed (r : Rep) : Rep :=
  mkRep (options r) (file r) (offset r) (status r) (data_block r) (index_block r) (last_key r)
    (num_entries r) true (fblock r) (pending_index_entry r) (pending_handle r).

(** The parts of [TableBuilder::Finish]: the filter block, *)
Definition Finish_filter (r : Rep) : Rep * BlockHandle :=
  match ok (status r), fblock r with
  | true, Some (p, fb) =>
      let '(fb, contents) := FilterBlock_Finish p fb in
      WriteRawBlock (set_fblock r (Some (p, fb))) contents kNoCompression
  | _, _ => (r, BlockHandle_new)
  end.

(** the metaindex block (a null [filter_policy] with a filter block, which
    [ChangeOptions] could leave, is undefined), *)
Definition meta_key (p : FilterPolicy) : bytes := str:"filter." ++ FilterPolicy_Name p.

Definition Finish_meta (r : Rep) (filter_block_handle : BlockHandle) : Rep * BlockHandle :=
  if negb (ok (status r)) then (r, BlockHandle_new)
  else
    let meta_index_block :=
      match filter_policy (options r), fblock r with
      | Some p, Some _ =>
          BlockBuilder_Add (block_restart_interval (options r)) BlockBuilder_new (meta_key p)
            (BlockHandle_EncodeTo filter_block_handle [])
      | _, _ => BlockBuilder_new
      end in
    let '(r, _, h) := WriteBlock r meta_index_block in (r, h).

(** the index block, *)
Definition Finish_index (r : Rep) : Rep * BlockHandle :=
  if negb (ok (status r)) then (r, BlockHandle_new)
  else
    let r :=
      if pending_index_entry r
      then add_index_entry r (FindShortSuccessor (comparator (options r)) (last_key r)) else r in
    let '(r, block, h) := WriteBlock r (index_block r) in
    (mkRep (options r) (file r) (offset r) (status r) (data_block r) block (last_key r)
       (num_entries r) (closed r) (fblock r) (pending_index_entry r) (pending_handle r), h).

(** and the footer. *)
Definition Finish_footer (r : Rep) (metaindex_block_handle index_block_handle : BlockHandle) : Rep :=
  if negb (ok (status r)) then r
  else
    let footer_encoding := Footer_EncodeTo (mkFooter metaindex_block_handle index_block_handle) [] in
    let '(f, s) := Append W (file r) footer_encoding in
    set_file r f s (if ok s then u64 (offset r + zlen footer_encoding) else offset r).

(** [TableBuilder::Finish] *)
Definition TableBuilder_Finish (r : Rep) : Rep * Status :=
  let r := with_closed (TableBuilder_Flush r) in
  let '(r, filter_block_handle) := Finish_filter r in
  let '(r, metaindex_block_handle) := Finish_meta r filter_block_handle in
  let '(r, index_block_handle) := Finish_index r in
  let r := Finish_footer r metaindex_block_handle index_block_handle in
  (r, status r).

(** [TableBuilder::Abandon], [NumEntries], [FileSize] *)
Definition TableBuilder_Abandon (r : Rep) : Rep := with_closed r.
Definition NumEntries (r : Rep) : Z := num_entries r.
Definition FileSize (r : Rep) : Z := offset r.

(** Adding a list of pairs. *)
Definition TableBuilder_AddAll (r : Rep) (kvs : list (bytes * bytes)) : Rep :=
  fold_left (fun r kv => TableBuilder_Add r (fst kv) (snd kv)) kvs r.
End Operations.

Arguments options {W} _.
Arguments file {W} _.
Arguments offset {W} _.
Arguments status {W} _.
Arguments data_block {W} _.
Arguments index_block {W} _.
Arguments last_key {W} _.
Arguments num_entries {W} _.
Arguments closed {W} _.
Arguments fblock {W} _.
Arguments pending_index_entry {W} _.
Arguments pending_handle {W} _.
Arguments mkRep {W} _ _ _ _ _ _ _ _ _ _ _ _.
Arguments TableBuilder_new {W} _ _.
Arguments set_file {W} _ _ _ _.
Arguments set_data {W} _ _ _.
Arguments set_fblock {W} _ _.
Arguments on_filter {W} _ _.
Arguments add_index_entry {W} _ _.
Arguments with_closed {W} _.
Arguments WriteRawBlock extend {W} _ _ _.
Arguments WriteBlock extend z {W} _ _.
Arguments TableBuilder_Flush extend z {W} _.
Arguments TableBuilder_Add extend z {W} _ _ _.
Arguments TableBuilder_AddAll extend z {W} _ _.
Arguments TableBuilder_Finish extend z {W} _.
Arguments Finish_filter extend {W} _.
Arguments Finish_meta extend z {W} _ _.
Arguments Finish_index extend z {W} _.
Arguments Finish_footer {W} _ _ _.

(** ** Proofs *)

(** A data block in the file: its pairs and how it is stored. *)
Record DoneBlock := mkDone { db_kvs : list (bytes * bytes); db_data : bytes; db_type : CompressionType }.

(** The last key of a list of pairs. *)
Definition end_key (kvs : list (bytes * bytes)) : bytes :=
  match list.last kvs with Some kv => fst kv | None => [] end.

Section Correct.
Context (extend : Z -> bytes -> Z) `{!CrcLaws extend} (z : Compression) `{!CompressionLaws z}.
Context (W : WritableFile) (contents : WFile W -> bytes) `{!ReliableWrites W contents}.
Context (o : Options).
Abbreviation c := (comparator o).
Abbreviation interval := (block_restart_interval o).
Implicit Types (r : Rep W) (ds : list DoneBlock) (cur kvs : list (bytes * bytes)).

Definition done_bytes ds : bytes := concat (map (fun d => stored extend (db_data d) (db_type d)) ds).
Definition done_kvs ds : list (bytes * bytes) := concat (map db_kvs ds).
Definition done_offset ds (j : nat) : Z := zlen (done_bytes (take j ds)).
Definition done_handle ds (j : nat) (d : DoneBlock) : BlockHandle :=
  mkHandle (done_offset ds j) (zlen (db_data d)).

Definition block_ok (d : DoneBlock) : Prop :=
  db_kvs d <> [] /\ stores z (build_block interval (db_kvs d)) (db_data d) (db_type d).

(** The pairs behind block [j]. *)
Definition later ds cur (j : nat) : list (bytes * bytes) := done_kvs (drop (S j) ds) ++ cur.

(** The index entry of block [j]: a separator from the next key, or a successor
    of the last key of the table, and the handle of the block. *)
Definition index_entry ds cur (j : nat) (e : bytes * bytes) : Prop :=
  exists d, ds !! j = Some d /\ snd e = BlockHandle_EncodeTo (done_handle ds j d) [] /\
    fst e = match later ds cur j with
            | kv :: _ => FindShortestSeparator c (end_key (db_kvs d)) (fst kv)
            | [] => FindShortSuccessor c (end_key (db_kvs d))
            end.

Definition filter_state r ds cur : Prop :=
  match filter_policy o with
  | None => fblock r = None
  | Some p => exists fb gs ks, fblock r = Some (p, fb) /\ filter_inv p fb gs ks /\
      zlen gs = zlen (done_bytes ds) / kFilterBase /\
      concat (gs ++ [ks]) = map fst (done_kvs ds ++ cur) /\
      (forall j d, ds !! j = Some d -> grouped gs ks (done_offset ds j) (map fst (db_kvs d))) /\
      exists ks0, ks = ks0 ++ map fst cur
  end.

Record building r ds cur : Prop := {
  b_options : options r = o;
  b_status : status r = Status_OK;
  b_file : contents (file r) = done_bytes ds;
  b_offset : offset r = zlen (done_bytes ds);
  b_blocks : Forall block_ok ds;
  b_data : data_block r = BlockBuilder_AddAll interval BlockBuilder_new cur;
  b_index : exists idx, index_block r = BlockBuilder_AddAll 1 BlockBuilder_new idx /\
    length idx = (if pending_index_entry r then length ds - 1 else length ds)%nat /\
    forall j e, idx !! j = Some e -> index_entry ds cur j e;
  b_pending : pending_index_entry r = true ->
    cur = [] /\ exists ds0 d, ds = ds0 ++ [d] /\ pending_handle r = done_handle ds (length ds0) d;
  b_open : pending_index_entry r = false -> cur <> [] \/ ds = [];
  b_last : done_kvs ds ++ cur <> [] -> last_key r = end_key (done_kvs ds ++ cur);
  b_filter : filter_state r ds cur
}.

Lemma done_bytes_app ds1 ds2 : done_bytes (ds1 ++ ds2) = done_bytes ds1 ++ done_bytes ds2.
Proof. unfold done_bytes. by rewrite map_app, concat_app. Qed.

Lemma done_kvs_app ds1 ds2 : done_kvs (ds1 ++ ds2) = done_kvs ds1 ++ done_kvs ds2.
Proof. unfold done_kvs. by rewrite map_app, concat_app. Qed.

Lemma done_kvs_one d : done_kvs [d] = db_kvs d.
Proof. unfold done_kvs. cbn. by rewrite app_nil_r. Qed.

Lemma done_offset_app ds d j : (j <= length ds)%nat -> done_offset (ds ++ [d]) j = done_offset ds j.
Proof. intros H. unfold done_offset. by rewrite take_app_le. Qed.

Lemma done_offset_end ds : done_offset ds (length ds) = zlen (done_bytes ds).
Proof. unfold done_offset. by rewrite firstn_all. Qed.

(** *** Writing blocks *)

Lemma ok_OK : ok Status_OK = true.
Proof. done. Qed.

Lemma WriteRawBlock_eq r data t :
  exists f, WriteRawBlock extend r data t =
    (set_file r f Status_OK (u64 (offset r + (zlen data + kBlockTrailerSize))),
     mkHandle (offset r) (zlen data)) /\
    contents f = contents (file r) ++ stored extend data t.
Proof.
  unfold WriteRawBlock. rewrite extend_app by lia.
  pose proof (Append_ok (contents:=contents) (file r) data) as H1.
  pose proof (Append_contents (file r) data) as H2.
  destruct (Append W (file r) data) as [f1 s1]. cbn in H1, H2. subst s1. cbn [ok negb Status_OK state_].
  set (tr := _ :: EncodeFixed32 _).
  pose proof (Append_ok (contents:=contents) f1 tr) as H3.
  pose proof (Append_contents f1 tr) as H4.
  destruct (Append W f1 tr) as [f2 s2]. cbn in H3, H4. subst s2. cbn [ok negb Status_OK state_].
  exists f2. split; [done|]. rewrite H4, H2, <- app_assoc. done.
Qed.

Lemma choose_stores raw co t :
  (forall comp, co = Some comp -> stores z raw comp t) ->
  stores z raw (fst (choose raw co t)) (snd (choose raw co t)).
Proof.
  intros H. unfold choose. destruct co as [comp|]; [|constructor].
  case_test; cbn; [by apply H|constructor].
Qed.

Lemma WriteBlock_eq r b :
  exists f data t, WriteBlock extend z r b =
    (set_file r f Status_OK (u64 (offset r + (zlen data + kBlockTrailerSize))), BlockBuilder_new,
     mkHandle (offset r) (zlen data)) /\
    stores z (snd (BlockBuilder_Finish b)) data t /\
    contents f = contents (file r) ++ stored extend data t.
Proof.
  unfold WriteBlock. destruct (BlockBuilder_Finish b) as [b' raw]. cbn [snd].
  set (ct := match compression (options r) with kNoCompression => _ | _ => _ end).
  assert (stores z raw (fst ct) (snd ct)) as Hst.
  { unfold ct. destruct (compression (options r)).
    - constructor.
    - apply choose_stores. intros comp. by constructor.
    - apply choose_stores. intros comp. by econstructor. }
  destruct ct as [data t]. destruct (WriteRawBlock_eq r data t) as (f & -> & Hf).
  exists f, data, t. done.
Qed.

Lemma Flush_grows r : zlen (contents (file r)) <= zlen (contents (file (TableBuilder_Flush extend z r))).
Proof.
  unfold TableBuilder_Flush. destruct (negb _); [lia|]. destruct (BlockBuilder_empty _); [lia|].
  destruct (WriteBlock_eq r (data_block r)) as (f & data & t & -> & _ & Hf).
  cbn [set_data set_file status file ok Status_OK state_].
  pose proof (Flush_contents (contents:=contents) f) as Hc.
  destruct (Flush W f) as [f' s]. cbn in Hc |- *. rewrite Hc, Hf, length_app. lia.
Qed.

Lemma Add_grows r k v : zlen (contents (file r)) <= zlen (contents (file (TableBuilder_Add extend z r k v))).
Proof.
  unfold TableBuilder_Add. destruct (negb _); [lia|]. cbn zeta.
  match goal with |- context [if ?b then TableBuilder_Flush _ _ ?x else _] =>
    assert (file x = file r) as Hx by (cbn; by destruct (pending_index_entry r)); destruct b end.
  - rewrite <- Hx at 1. apply Flush_grows.
  - rewrite <- Hx at 1. lia.
Qed.

Lemma AddAll_grows r kvs :
  zlen (contents (file r)) <= zlen (contents (file (TableBuilder_AddAll extend z r kvs))).
Proof.
  revert r. induction kvs as [|[k v] kvs IH]; intros r; cbn; [lia|].
  etrans; [apply (Add_grows r k v)|apply IH].
Qed.
(** *** The invariant *)

Lemma building_new f : contents f = [] -> building (TableBuilder_new o f) [] [].
Proof.
  intros Hf. split; cbn; try done.
  - exists []. done.
  - by right.
  - unfold filter_state, TableBuilder_new. cbn. destruct (filter_policy o) as [p|]; [|done].
    eexists _, [], []. split; [done|]. split; [done|]. split; [done|]. split; [done|].
    split; [done|]. by exists [].
Qed.

Lemma AddAll_snoc i b kvs k v :
  BlockBuilder_AddAll i b (kvs ++ [(k, v)]) = BlockBuilder_Add i (BlockBuilder_AddAll i b kvs) k v.
Proof. unfold BlockBuilder_AddAll. by rewrite fold_left_app. Qed.

Lemma Add_nonempty i b k v : buffer_ (BlockBuilder_Add i b k v) <> [].
Proof.
  unfold BlockBuilder_Add, PutVarint64. intros H. apply (f_equal length) in H. revert H.
  case_test; cbn [buffer_]; rewrite !length_app; cbn [length];
    match goal with |- context [EncodeVarint64 ?x] =>
      pose proof (EncodeVarint64_loop_length 10 x); unfold EncodeVarint64 end; lia.
Qed.

Lemma AddAll_empty i kvs :
  BlockBuilder_empty (BlockBuilder_AddAll i BlockBuilder_new kvs) = true <-> kvs = [].
Proof.
  destruct kvs as [|[k v] kvs _] using rev_ind; [done|]. rewrite AddAll_snoc. unfold BlockBuilder_empty.
  pose proof (Add_nonempty i (BlockBuilder_AddAll i BlockBuilder_new kvs) k v).
  destruct (buffer_ _); [done|]. split; [done|]. intros [_ ?]%app_eq_nil. done.
Qed.

Lemma later_flush ds cur d j :
  (j < length ds)%nat -> db_kvs d = cur -> later (ds ++ [d]) [] j = later ds cur j.
Proof.
  intros Hj <-. unfold later. rewrite drop_app_le, done_kvs_app, done_kvs_one by lia. by rewrite app_nil_r.
Qed.

Lemma index_entry_flush ds cur d j e :
  db_kvs d = cur -> index_entry ds cur j e -> index_entry (ds ++ [d]) [] j e.
Proof.
  intros Hd (d' & Hj & He & Hk). pose proof (lookup_lt_Some _ _ _ Hj) as Hlt.
  exists d'. split; [by apply lookup_app_l_Some|]. rewrite (later_flush ds cur) by done.
  split; [|done]. rewrite He. unfold done_handle. by rewrite done_offset_app by lia.
Qed.

Context (ok_keys : list bytes -> Prop).
Context (Hpolicy : forall p, filter_policy o = Some p -> FilterPolicyLaws ok_keys p).

Lemma filter_flush r ds cur d :
  filter_state r ds cur -> db_kvs d = cur ->
  filter_state (on_filter r (fun p fb => StartBlock p fb (zlen (done_bytes (ds ++ [d]))))) (ds ++ [d]) [].
Proof.
  unfold filter_state. destruct (filter_policy o) as [p|] eqn:Ep; cbn; [|by intros ->].
  pose proof (Hpolicy p eq_refl) as Hlaws.
  intros (fb & gs & ks & -> & Hfb & Hl & Hc & Hg & ks0 & Hks) Hd. cbn.
  assert (0 < kFilterBase) as Hb by reflexivity.
  assert (zlen (done_bytes ds) <= zlen (done_bytes (ds ++ [d]))) as Hle
    by (rewrite done_bytes_app, length_app; lia).
  destruct (StartBlock_inv p ok_keys fb gs ks (zlen (done_bytes (ds ++ [d]))) Hfb)
    as (gs' & ks' & H1 & H2 & H3 & H4).
  { rewrite Hl. by apply Z.div_le_mono. }
  eexists _, gs', ks'. split; [done|]. split; [done|]. split; [done|].
  split; [by rewrite H3, Hc, done_kvs_app, done_kvs_one, Hd, app_nil_r|].
  split; [|exists ks'; cbn; by rewrite app_nil_r].
  intros j d' Hj. apply H4; [unfold done_offset; lia|]. rewrite lookup_app in Hj.
  destruct (ds !! j) as [x|] eqn:Ej.
  - injection Hj as ->. rewrite done_offset_app by (apply lookup_lt_Some in Ej; lia). by apply Hg.
  - apply list_lookup_singleton_Some in Hj as [Hj <-]. apply lookup_ge_None in Ej.
    replace j with (length ds) by lia. rewrite done_offset_app, done_offset_end by lia.
    rewrite Hd, Hks. apply grouped_here; [lia|done].
Qed.
(** Closing the open data block. *)
Lemma Flush_building r ds cur :
  building r ds cur -> pending_index_entry r = false -> cur <> [] ->
  zlen (contents (file (TableBuilder_Flush extend z r))) < 2 ^ 64 ->
  exists d, db_kvs d = cur /\ pending_index_entry (TableBuilder_Flush extend z r) = true /\
    building (TableBuilder_Flush extend z r) (ds ++ [d]) [].
Proof.
  intros H Hp Hne. pose proof H as [Ho Hs Hf Hoff Hbl Hd (idx & Hi & Hil & He) _ _ Hl Hfi].
  unfold TableBuilder_Flush. rewrite Hs. cbn [ok Status_OK state_ negb].
  destruct (BlockBuilder_empty (data_block r)) eqn:Ee; [rewrite Hd in Ee; by apply AddAll_empty in Ee|].
  destruct (WriteBlock_eq r (data_block r)) as (f & data & t & -> & Hst & Hc).
  cbn [set_data set_file status file offset options fblock index_block last_key num_entries closed
       pending_index_entry pending_handle ok Status_OK state_ data_block].
  pose proof (Flush_contents (contents:=contents) f) as Hfc.
  pose proof (Flush_ok (contents:=contents) f) as Hfo.
  destruct (Flush W f) as [f' s']. cbn in Hfc, Hfo. subst s'.
  cbn [on_filter set_fblock file offset]. rewrite Hfc, Hc, Hf, Hoff. intros Hbound.
  set (d := mkDone cur data t).
  assert (done_bytes (ds ++ [d]) = done_bytes ds ++ stored extend data t) as Edb
    by (rewrite done_bytes_app; f_equal; unfold done_bytes; cbn; by rewrite app_nil_r).
  rewrite length_app in Hbound. rewrite Nat2Z.inj_add, stored_length in Hbound.
  assert (u64 (zlen (done_bytes ds) + (zlen data + kBlockTrailerSize)) = zlen (done_bytes (ds ++ [d]))) as Eu.
  { rewrite u64_small by (unfold kBlockTrailerSize in *; lia). rewrite Edb, length_app, Nat2Z.inj_add.
    by rewrite stored_length. }
  rewrite Eu. exists d. split; [done|]. split; [done|].
  pose proof (filter_flush r ds cur d Hfi eq_refl) as Hff.
  split; cbn [on_filter set_fblock options status file offset data_block index_block last_key
              pending_index_entry pending_handle fblock]; try done.
  - by rewrite Edb, Hfc, Hc, Hf.
  - apply Forall_app. split; [done|]. repeat constructor; [done|]. rewrite Hd in Hst. exact Hst.
  - exists idx. split; [done|]. rewrite Hp in Hil. rewrite length_app. split; [cbn; lia|].
    intros j e Hj. by apply (index_entry_flush ds cur), He.
  - intros _. split; [done|]. exists ds, d. split; [done|]. unfold done_handle.
    by rewrite done_offset_app, done_offset_end by lia.
  - rewrite app_nil_r, done_kvs_app, done_kvs_one. done.
Qed.

Lemma end_key_snoc kvs kv : end_key (kvs ++ [kv]) = fst kv.
Proof. unfold end_key. by rewrite last_snoc. Qed.

Lemma end_key_app kvs1 kvs2 : kvs2 <> [] -> end_key (kvs1 ++ kvs2) = end_key kvs2.
Proof.
  intros H. destruct kvs2 as [|kv kvs2 _] using rev_ind; [done|].
  by rewrite app_assoc, !end_key_snoc.
Qed.

Lemma later_add ds cur kv j : later ds (cur ++ [kv]) j = later ds cur j ++ [kv].
Proof. unfold later. by rewrite app_assoc. Qed.

(** A pair behind a separated block does not change its entry. *)
Lemma index_entry_add ds cur kv j e :
  later ds cur j <> [] -> index_entry ds cur j e -> index_entry ds (cur ++ [kv]) j e.
Proof.
  intros Hne (d & Hj & He & Hk). exists d. split; [done|]. split; [done|].
  rewrite Hk, later_add. by destruct (later ds cur j).
Qed.

Lemma later_nonempty ds cur j :
  Forall block_ok ds -> (S j < length ds)%nat \/ cur <> [] -> later ds cur j <> [].
Proof.
  intros Hok [Hj|Hc] E; unfold later in E; apply app_eq_nil in E as [E1 E2]; [|done].
  destruct (lookup_lt_is_Some_2 ds (S j) Hj) as [d Hd]. rewrite (drop_S _ _ _ Hd) in E1.
  unfold done_kvs in E1. cbn in E1. apply app_eq_nil in E1 as [E1 _].
  rewrite Forall_lookup in Hok. by destruct (Hok _ _ Hd).
Qed.

(** Writing the pending index entry. *)
Lemma pending_entry ds0 d key r :
  building r (ds0 ++ [d]) [] -> pending_index_entry r = true ->
  exists idx, index_block (add_index_entry r key) =
      BlockBuilder_AddAll 1 BlockBuilder_new
        (idx ++ [(key, BlockHandle_EncodeTo (done_handle (ds0 ++ [d]) (length ds0) d) [])]) /\
    length idx = length ds0 /\
    (forall j e, idx !! j = Some e -> index_entry (ds0 ++ [d]) [] j e /\ (j < length ds0)%nat) /\
    last_key r = end_key (db_kvs d).
Proof.
  intros H Hp. destruct (b_index _ _ _ H) as (idx & Hi & Hl & He). rewrite Hp in Hl.
  destruct (b_pending _ _ _ H Hp) as (_ & ds1 & d1 & Eds & Eh).
  apply app_inj_tail in Eds as [<- <-]. rewrite length_app in Hl. cbn in Hl.
  assert (block_ok d) as [Hne _].
  { pose proof (b_blocks _ _ _ H) as Hb. apply Forall_app in Hb as [_ Hb].
    by inversion Hb. }
  exists idx. split; [by rewrite AddAll_snoc, <- Hi, <- Eh|]. split; [lia|]. split.
  - intros j e Hj. split; [by apply He|]. apply lookup_lt_Some in Hj. lia.
  - rewrite (b_last _ _ _ H); rewrite app_nil_r, done_kvs_app, done_kvs_one; [by apply end_key_app|].
    by intros [_ ?]%app_eq_nil.
Qed.

(** The first half of [Add]: the pending entry is written. *)
Definition open_block r (key : bytes) : Rep W :=
  if pending_index_entry r
  then add_index_entry r (FindShortestSeparator c (last_key r) key) else r.

Lemma open_index r ds cur k v :
  building r ds cur ->
  exists idx, index_block (open_block r k) = BlockBuilder_AddAll 1 BlockBuilder_new idx /\
    length idx = length ds /\
    forall j e, idx !! j = Some e -> index_entry ds (cur ++ [(k, v)]) j e.
Proof.
  intros H. unfold open_block. destruct (pending_index_entry r) eqn:Hp.
  - destruct (b_pending _ _ _ H Hp) as (-> & ds0 & d & -> & _).
    destruct (pending_entry ds0 d (FindShortestSeparator c (last_key r) k) r H Hp) as (idx & Hi & Hl & He & Hlast).
    rewrite Hlast in *. eexists. split; [exact Hi|]. rewrite !length_app. split; [cbn; lia|].
    intros j e Hj. rewrite lookup_app in Hj. destruct (idx !! j) as [x|] eqn:Ej.
    + injection Hj as ->. destruct (He j e Ej) as [He1 Hlt]. apply index_entry_add; [|done].
      apply later_nonempty; [apply H|]. left. rewrite length_app. cbn. lia.
    + apply list_lookup_singleton_Some in Hj as [Hj <-]. apply lookup_ge_None in Ej.
      replace j with (length ds0) by lia. exists d.
      split; [by rewrite lookup_app_r, Nat.sub_diag by lia|]. split; [done|].
      unfold later. rewrite drop_ge by (rewrite length_app; cbn; lia). done.
  - destruct (b_index _ _ _ H) as (idx & Hi & Hl & He). rewrite Hp in Hl.
    exists idx. split; [done|]. split; [done|]. intros j e Hj. apply index_entry_add; [|by apply He].
    apply later_nonempty; [apply H|]. destruct (b_open _ _ _ H Hp) as [?| ->]; [by right|].
    apply lookup_lt_Some in Hj. cbn in Hl. lia.
Qed.

Lemma filter_add r ds cur k v :
  filter_state r ds cur ->
  filter_state (on_filter r (fun _ fb => AddKey fb k)) ds (cur ++ [(k, v)]).
Proof.
  unfold filter_state. destruct (filter_policy o) as [p|]; cbn; [|by intros ->].
  intros (fb & gs & ks & -> & Hfb & Hl & Hc & Hg & ks0 & Hks). cbn.
  eexists _, gs, (ks ++ [k]). split; [done|]. split; [by apply AddKey_inv|]. split; [done|]. split.
  - rewrite concat_app in Hc |- *. cbn in Hc |- *. rewrite app_nil_r in Hc |- *.
    rewrite app_assoc, Hc, !map_app, <- app_assoc. done.
  - split; [intros j d Hj; by apply grouped_extend, Hg|].
    exists ks0. rewrite Hks, map_app, app_assoc. done.
Qed.

Lemma Add_building r ds cur k v :
  building r ds cur -> zlen (contents (file (TableBuilder_Add extend z r k v))) < 2 ^ 64 ->
  exists ds' cur', building (TableBuilder_Add extend z r k v) ds' cur' /\
    done_kvs ds' ++ cur' = (done_kvs ds ++ cur) ++ [(k, v)].
Proof.
  intros H. unfold TableBuilder_Add. rewrite (b_status _ _ _ H). cbn [ok Status_OK state_ negb].
  rewrite (b_options _ _ _ H). fold (open_block r k).
  destruct (open_index r ds cur k v H) as (idx & Hi & Hl & He).
  cbn zeta. set (r1 := mkRep _ _ _ _ _ _ _ _ _ _ _ _).
  assert (building r1 ds (cur ++ [(k, v)]) /\ pending_index_entry r1 = false) as [H1 Hp1].
  { assert (pending_index_entry (open_block r k) = false /\ options (open_block r k) = o /\
      status (open_block r k) = Status_OK /\ file (open_block r k) = file r /\
      offset (open_block r k) = offset r /\ data_block (open_block r k) = data_block r /\
      fblock (open_block r k) = fblock r) as (E1 & E2 & E3 & E4 & E5 & E6 & E7).
    { unfold open_block. destruct (pending_index_entry r) eqn:Ep; cbn;
        repeat split; try done; apply H. }
    pose proof (filter_add (open_block r k) ds cur k v) as Hfil. split; [|exact E1].
    split; unfold r1; cbn [options status file offset data_block index_block last_key
      pending_index_entry pending_handle fblock on_filter set_fblock]; rewrite ?E1, ?E2, ?E3, ?E4, ?E5, ?E6; try apply H; try done.
    - by rewrite (b_data _ _ _ H), AddAll_snoc.
    - exists idx. split; [exact Hi|]. split; [exact Hl|exact He].
    - intros _. left. by intros [_ ?]%app_eq_nil.
    - intros _. by rewrite app_assoc, end_key_snoc.
    - assert (filter_state (open_block r k) ds cur) as Hfs.
      { pose proof (b_filter _ _ _ H) as Hb. unfold filter_state in Hb |- *. by rewrite E7. }
      exact (Hfil Hfs). }
  destruct (_ >=? _); intros Hb.
  - destruct (Flush_building r1 ds (cur ++ [(k, v)]) H1 Hp1) as (d & Hd & _ & H2); [by intros [_ ?]%app_eq_nil|done|].
    exists (ds ++ [d]), []. split; [done|]. by rewrite done_kvs_app, done_kvs_one, Hd, app_nil_r, app_assoc.
  - exists ds, (cur ++ [(k, v)]). split; [done|]. by rewrite app_assoc.
Qed.

Lemma AddAll_building r ds cur kvs :
  building r ds cur -> zlen (contents (file (TableBuilder_AddAll extend z r kvs))) < 2 ^ 64 ->
  exists ds' cur', building (TableBuilder_AddAll extend z r kvs) ds' cur' /\
    done_kvs ds' ++ cur' = (done_kvs ds ++ cur) ++ kvs.
Proof.
  revert r ds cur. induction kvs as [|[k v] kvs IH]; intros r ds cur H Hb.
  - exists ds, cur. split; [done|]. by rewrite app_nil_r.
  - cbn in Hb. pose proof (AddAll_grows (TableBuilder_Add extend z r k v) kvs) as Hg.
    unfold TableBuilder_AddAll in Hg. cbn in Hg.
    destruct (Add_building r ds cur k v H) as (ds1 & cur1 & H1 & E1); [lia|].
    destruct (IH _ _ _ H1 Hb) as (ds2 & cur2 & H2 & E2). exists ds2, cur2. split; [done|].
    by rewrite E2, E1, <- app_assoc.
Qed.
(** *** Finished tables *)

(** What a table file holds: the data blocks [ds], perhaps a filter block, the
    metaindex block, the index block and the footer. *)
Record table_layout (kvs : list (bytes * bytes)) (tbl : bytes) (ds : list DoneBlock)
    (idx : list (bytes * bytes)) : Prop := {
  tl_kvs : done_kvs ds = kvs;
  tl_blocks : Forall block_ok ds;
  tl_length : length idx = length ds;
  tl_index : forall j e, idx !! j = Some e -> index_entry ds [] j e;
  tl_file : exists FB meta metaD metaT idxD idxT,
    let mh := mkHandle (zlen (done_bytes ds ++ FB)) (zlen metaD) in
    let ih := mkHandle (zlen (done_bytes ds ++ FB ++ stored extend metaD metaT)) (zlen idxD) in
    tbl = done_bytes ds ++ FB ++ stored extend metaD metaT ++ stored extend idxD idxT ++
      Footer_EncodeTo (mkFooter mh ih) [] /\
    stores z (build_block interval meta) metaD metaT /\
    stores z (build_block 1 idx) idxD idxT /\
    match filter_policy o with
    | None => FB = [] /\ meta = []
    | Some p => exists fb gs ks,
        let fc := snd (FilterBlock_Finish p fb) in
        filter_inv p fb gs ks /\ concat (gs ++ [ks]) = map fst kvs /\
        (forall j d, ds !! j = Some d -> grouped gs ks (done_offset ds j) (map fst (db_kvs d))) /\
        FB = stored extend fc kNoCompression /\
        meta = [(meta_key p, BlockHandle_EncodeTo (mkHandle (zlen (done_bytes ds)) (zlen fc)) [])]
    end
}.

(** The index entry that is still pending when the table ends. *)
Lemma final_index r ds :
  building r ds [] -> 
  exists idx, (if pending_index_entry r
               then index_block (add_index_entry r (FindShortSuccessor c (last_key r)))
               else index_block r) = BlockBuilder_AddAll 1 BlockBuilder_new idx /\
    length idx = length ds /\ forall j e, idx !! j = Some e -> index_entry ds [] j e.
Proof.
  intros H. destruct (pending_index_entry r) eqn:Hp.
  - destruct (b_pending _ _ _ H Hp) as (_ & ds0 & d & -> & _).
    destruct (pending_entry ds0 d (FindShortSuccessor c (last_key r)) r H Hp) as (idx & Hi & Hl & He & Hlast).
    rewrite Hlast in *. eexists. split; [exact Hi|]. rewrite !length_app. split; [cbn; lia|].
    intros j e Hj. rewrite lookup_app in Hj. destruct (idx !! j) as [x|] eqn:Ej.
    + injection Hj as ->. by apply He.
    + apply list_lookup_singleton_Some in Hj as [Hj <-]. apply lookup_ge_None in Ej.
      replace j with (length ds0) by lia. exists d.
      split; [by rewrite lookup_app_r, Nat.sub_diag by lia|]. split; [done|].
      unfold later. rewrite drop_ge by (rewrite length_app; cbn; lia). done.
  - destruct (b_index _ _ _ H) as (idx & Hi & Hl & He). rewrite Hp in Hl. eauto.
Qed.

(** The final [Flush]. *)
Lemma Flush_final r ds cur :
  building r ds cur -> zlen (contents (file (TableBuilder_Flush extend z r))) < 2 ^ 64 ->
  exists ds', building (TableBuilder_Flush extend z r) ds' [] /\ done_kvs ds' = done_kvs ds ++ cur.
Proof.
  intros H Hb. destruct cur as [|kv cur].
  - exists ds. rewrite app_nil_r. split; [|done].
    assert (TableBuilder_Flush extend z r = r) as ->; [|done]. unfold TableBuilder_Flush.
    rewrite (b_status _ _ _ H), (b_data _ _ _ H). done.
  - destruct (pending_index_entry r) eqn:Hp.
    { by destruct (b_pending _ _ _ H Hp). }
    destruct (Flush_building r ds (kv :: cur) H Hp ltac:(done) Hb) as (d & Hd & _ & H').
    exists (ds ++ [d]). split; [done|]. by rewrite done_kvs_app, done_kvs_one, Hd.
Qed.

(** The metaindex block's one pair. *)
Definition meta_pairs (p : option FilterPolicy) (h : BlockHandle) : list (bytes * bytes) :=
  match p with Some p => [(meta_key p, BlockHandle_EncodeTo h [])] | None => [] end.

Lemma Finish_filter_eq r ds :
  building r ds [] ->
  exists f FB off hd fbo, Finish_filter extend r = (set_fblock (set_file r f Status_OK off) fbo, hd) /\
    contents f = done_bytes ds ++ FB /\ (fbo = None <-> filter_policy o = None) /\
    (zlen (done_bytes ds ++ FB) < 2 ^ 64 -> off = zlen (done_bytes ds ++ FB)) /\
    match filter_policy o with
    | None => FB = []
    | Some p => exists fb gs ks,
        let fc := snd (FilterBlock_Finish p fb) in
        filter_inv p fb gs ks /\ concat (gs ++ [ks]) = map fst (done_kvs ds) /\
        (forall j d, ds !! j = Some d -> grouped gs ks (done_offset ds j) (map fst (db_kvs d))) /\
        FB = stored extend fc kNoCompression /\
        hd = mkHandle (zlen (done_bytes ds)) (zlen fc)
    end.
Proof.
  intros H. unfold Finish_filter. rewrite (b_status _ _ _ H). cbn [ok Status_OK state_].
  pose proof (b_filter _ _ _ H) as Hf. unfold filter_state in Hf.
  destruct (filter_policy o) as [p|].
  - destruct Hf as (fb & gs & ks & -> & Hfb & Hl & Hc & Hg & _).
    destruct (FilterBlock_Finish p fb) as [fb' fc] eqn:Efb.
    destruct (WriteRawBlock_eq (set_fblock r (Some (p, fb'))) fc kNoCompression) as (f & -> & Hfc).
    cbn [set_fblock set_file file offset] in Hfc |- *. rewrite (b_file _ _ _ H) in Hfc.
    rewrite (b_offset _ _ _ H).
    exists f, (stored extend fc kNoCompression). do 2 eexists. exists (Some (p, fb')).
    split; [reflexivity|]. split; [done|]. split; [done|]. split.
    + rewrite length_app, Nat2Z.inj_add, stored_length. intros Hb. apply u64_small.
      unfold kBlockTrailerSize in *. lia.
    + exists fb, gs, ks. cbn zeta. rewrite Efb. cbn [snd]. rewrite app_nil_r in Hc. done.
  - rewrite Hf. exists (file r), [], (offset r), BlockHandle_new, None.
    rewrite !app_nil_r. split; [|split; [apply H|]].
    { f_equal. pose proof (b_status _ _ _ H) as Hs. destruct r; cbn in *; by subst. }
    split; [done|]. split; [|done]. intros _. apply H.
Qed.

(** Files only grow. *)
Abbreviation size r := (zlen (contents (file r))).

Lemma Finish_filter_grows r : size r <= size (fst (Finish_filter extend r)).
Proof.
  unfold Finish_filter. destruct (ok (status r)); [|cbn; lia]. destruct (fblock r) as [[p fb]|]; [|cbn; lia].
  destruct (FilterBlock_Finish p fb) as [fb' fc].
  destruct (WriteRawBlock_eq (set_fblock r (Some (p, fb'))) fc kNoCompression) as (f & -> & Hf).
  cbn in *. rewrite Hf, length_app. lia.
Qed.

Lemma Finish_meta_grows r h : size r <= size (fst (Finish_meta extend z r h)).
Proof.
  unfold Finish_meta. destruct (negb _); [cbn; lia|].
  match goal with |- context [WriteBlock _ _ r ?b] =>
    destruct (WriteBlock_eq r b) as (f & data & t & -> & _ & Hf) end.
  cbn. rewrite Hf, length_app. lia.
Qed.

Lemma Finish_index_grows r : size r <= size (fst (Finish_index extend z r)).
Proof.
  unfold Finish_index. destruct (negb _); [cbn; lia|].
  match goal with |- context [WriteBlock _ _ ?x ?b] =>
    assert (file x = file r) as Hx by (by destruct (pending_index_entry r));
    destruct (WriteBlock_eq x b) as (f & data & t & -> & _ & Hf) end.
  cbn. rewrite Hf, length_app, Hx. lia.
Qed.

Lemma Finish_footer_grows r mh ih : size r <= size (Finish_footer r mh ih).
Proof.
  unfold Finish_footer. destruct (negb _); [lia|].
  set (fe := Footer_EncodeTo _ _). pose proof (Append_contents (contents:=contents) (file r) fe) as H.
  destruct (Append W (file r) fe) as [f s]. cbn in *. rewrite H, length_app. lia.
Qed.

Lemma Finish_grows r :
  size (TableBuilder_Flush extend z r) <= size (fst (TableBuilder_Finish extend z r)).
Proof.
  unfold TableBuilder_Finish. set (r0 := with_closed _).
  pose proof (Finish_filter_grows r0) as H1. destruct (Finish_filter extend r0) as [r1 fh].
  pose proof (Finish_meta_grows r1 fh) as H2. destruct (Finish_meta extend z r1 fh) as [r2 mh].
  pose proof (Finish_index_grows r2) as H3. destruct (Finish_index extend z r2) as [r3 ih].
  pose proof (Finish_footer_grows r3 mh ih) as H4. cbn [fst] in *.
  change (size r0) with (size (TableBuilder_Flush extend z r)) in H1. lia.
Qed.

Lemma building_closed r ds cur : building r ds cur -> building (with_closed r) ds cur.
Proof. intros []. by split. Qed.

Lemma Finish_meta_eq r hd :
  options r = o -> status r = Status_OK -> (fblock r = None <-> filter_policy o = None) ->
  exists f data t, Finish_meta extend z r hd =
      (set_file r f Status_OK (u64 (offset r + (zlen data + kBlockTrailerSize))),
       mkHandle (offset r) (zlen data)) /\
    stores z (build_block interval (meta_pairs (filter_policy o) hd)) data t /\
    contents f = contents (file r) ++ stored extend data t.
Proof.
  intros Ho Hs Hf. unfold Finish_meta. rewrite Hs, Ho. cbn [ok Status_OK state_ negb].
  match goal with |- context [WriteBlock _ _ r ?b] =>
    assert (b = BlockBuilder_AddAll interval BlockBuilder_new (meta_pairs (filter_policy o) hd)) as ->;
    [|destruct (WriteBlock_eq r (BlockBuilder_AddAll interval BlockBuilder_new
        (meta_pairs (filter_policy o) hd))) as (f & data & t & -> & Hst & Hc)] end.
  - destruct (filter_policy o); [|done]. destruct (fblock r); [done|]. by destruct Hf as [Hf _]; specialize (Hf eq_refl).
  - exists f, data, t. done.
Qed.

Lemma Finish_index_eq r idx :
  options r = o -> status r = Status_OK ->
  (if pending_index_entry r
   then index_block (add_index_entry r (FindShortSuccessor c (last_key r)))
   else index_block r) = BlockBuilder_AddAll 1 BlockBuilder_new idx ->
  exists r' data t, Finish_index extend z r = (r', mkHandle (offset r) (zlen data)) /\
    stores z (build_block 1 idx) data t /\ status r' = Status_OK /\
    offset r' = u64 (offset r + (zlen data + kBlockTrailerSize)) /\
    contents (file r') = contents (file r) ++ stored extend data t.
Proof.
  intros Ho Hs Hi. unfold Finish_index. rewrite Hs, Ho. cbn [ok Status_OK state_ negb].
  match goal with |- context [WriteBlock _ _ ?x ?b] =>
    assert (file x = file r /\ offset x = offset r /\ b = BlockBuilder_AddAll 1 BlockBuilder_new idx)
      as (E1 & E2 & E3) by (by destruct (pending_index_entry r)); 
    destruct (WriteBlock_eq x b) as (f & data & t & -> & Hst & Hc) end.
  rewrite E3 in Hst. rewrite E1 in Hc. rewrite E2. eexists _, data, t. split; [reflexivity|].
  cbn. split; [exact Hst|]. done.
Qed.

Lemma Finish_footer_eq r mh ih :
  status r = Status_OK ->
  status (Finish_footer r mh ih) = Status_OK /\
  contents (file (Finish_footer r mh ih)) = contents (file r) ++ Footer_EncodeTo (mkFooter mh ih) [].
Proof.
  intros Hs. unfold Finish_footer. rewrite Hs. cbn [ok Status_OK state_ negb].
  set (fe := Footer_EncodeTo _ _). pose proof (Append_contents (contents:=contents) (file r) fe) as H.
  pose proof (Append_ok (contents:=contents) (file r) fe) as H'.
  destruct (Append W (file r) fe) as [f s]. cbn in *. by subst.
Qed.

(** The table [Finish] leaves in the file. *)
Lemma Finish_table r ds0 cur :
  building r ds0 cur ->
  let r' := fst (TableBuilder_Finish extend z r) in
  size r' < 2 ^ 64 ->
  snd (TableBuilder_Finish extend z r) = Status_OK /\
  exists ds idx, table_layout (done_kvs ds0 ++ cur) (contents (file r')) ds idx.
Proof.
  intros H r' Hb. unfold r' in Hb |- *. clear r'. pose proof (Finish_grows r) as Hg.
  destruct (Flush_final r ds0 cur H) as (ds & Hds & Ek); [lia|]. clear H Hg. rewrite <- Ek. clear Ek.
  apply building_closed in Hds. unfold TableBuilder_Finish in Hb |- *.
  set (r0 := with_closed _) in *. clearbody r0.
  destruct (Finish_filter_eq r0 ds Hds) as (f1 & FB & off1 & hd & fbo & E1 & Hc1 & Hfbo & Hoff1 & Hfil).
  destruct (final_index r0 ds Hds) as (idx & Hidx & Hli & Hie).
  rewrite E1 in *. set (r1 := set_fblock _ fbo) in *.
  destruct (Finish_meta_eq r1 hd) as (f2 & metaD & metaT & E2 & Hst2 & Hc2);
    [apply Hds|done|done|].
  rewrite E2 in *. set (r2 := set_file r1 f2 _ _) in *.
  destruct (Finish_index_eq r2 idx) as (r3 & idxD & idxT & E3 & Hst3 & Hs3 & Ho3 & Hc3);
    [apply Hds|done|exact Hidx|].
  rewrite E3 in *. set (mh := mkHandle (offset r1) _) in *. set (ih := mkHandle (offset r2) _) in *.
  destruct (Finish_footer_eq r3 mh ih Hs3) as [Hs4 Hc4]. cbn [fst snd] in *. split; [done|].
  rewrite Hc4, Hc3 in Hb |- *. cbn [r2 r1 set_file set_fblock file] in Hb, Hc2 |- *.
  rewrite Hc2, Hc1 in Hb |- *. rewrite !length_app in Hb.
  pose proof (stored_length extend metaD metaT) as Hlm. pose proof (stored_length extend idxD idxT) as Hlx.
  unfold kBlockTrailerSize in *.
  assert (off1 = zlen (done_bytes ds ++ FB)) as Eoff by (apply Hoff1; rewrite length_app; lia).
  assert (offset r2 = zlen (done_bytes ds ++ FB ++ stored extend metaD metaT)) as Eoff2.
  { cbn [r2 set_file offset r1 set_fblock]. rewrite Eoff, app_assoc, (length_app (_ ++ FB)).
    rewrite u64_small by (rewrite length_app in *; unfold kBlockTrailerSize; lia).
    unfold kBlockTrailerSize. lia. }
  exists ds, idx. split; [done|apply Hds|done|done|].
  exists FB, (meta_pairs (filter_policy o) hd), metaD, metaT, idxD, idxT.
  cbn zeta. rewrite <- Eoff2. change (offset r1) with off1 in mh. rewrite <- Eoff.
  split; [by rewrite <- !app_assoc|]. split; [done|]. split; [done|].
  destruct (filter_policy o) as [p|]; [|done].
  destruct Hfil as (fb & gs & ks & F1 & F2 & F3 & F4 & F5). exists fb, gs, ks. cbn zeta.
  rewrite <- F5. done.
Qed.
End Correct.

(** ** What a builder keeps track of *)

(** On a file whose writes do not fail the builder never has an error, its
    offset is the length of the file, and it stays with its file. *)
Section Tracks.
Context (extend : Z -> bytes -> Z) (z : Compression).
Context (W : WritableFile) (contents : WFile W -> bytes) `{!ReliableWrites W contents}.
Context (fname : WFile W -> bytes) (Happend : forall f b, fname (fst (Append W f b)) = fname f)
  (Hflush : forall f, fname (fst (Flush W f)) = fname f).
Implicit Types (r : Rep W).

Record tracks (n : bytes) r : Prop := {
  tr_status : status r = Status_OK;
  tr_offset : offset r = u64 (zlen (contents (file r)));
  tr_name : fname (file r) = n }.

Lemma u64_add_l a b : u64 (u64 a + b) = u64 (a + b).
Proof using Type. unfold u64. by rewrite Z.add_mod_idemp_l. Qed.

Lemma append_tracks n r data :
  tracks n r -> exists f, Append W (file r) data = (f, Status_OK) /\ fname f = n /\
    u64 (offset r + zlen data) = u64 (zlen (contents f)).
Proof using All.
  intros [Hs Ho Hn]. pose proof (Append_ok (contents:=contents) (file r) data) as H1.
  pose proof (Append_contents (file r) data) as H2. pose proof (Happend (file r) data) as H3.
  destruct (Append W (file r) data) as [f s]. cbn in *. subst s. exists f. split; [done|]. split; [congruence|].
  rewrite Ho, u64_add_l, H2, length_app. f_equal. lia.
Qed.

Lemma WriteRawBlock_tracks n r data t :
  tracks n r -> tracks n (fst (WriteRawBlock extend r data t)) /\
    num_entries (fst (WriteRawBlock extend r data t)) = num_entries r.
Proof using All.
  intros H. unfold WriteRawBlock. destruct (append_tracks n r data H) as (f & -> & Hn & Ho). cbn [ok Status_OK state_ negb].
  set (tr := _ :: EncodeFixed32 _). pose proof (Append_ok (contents:=contents) f tr) as H1.
  pose proof (Append_contents f tr) as H2. pose proof (Happend f tr) as H3.
  destruct (Append W f tr) as [f2 s2]. cbn in H1, H2, H3. subst s2. cbn [ok Status_OK state_ negb].
  split; [|done]. split; cbn [fst set_file status offset file]; [done| |congruence].
  rewrite H2, length_app. replace (zlen tr) with kBlockTrailerSize by (unfold tr; cbn [length]; by rewrite length_EncodeFixed32).
  rewrite Z.add_assoc, <- u64_add_l, Ho, u64_add_l. f_equal. unfold tr. cbn [length]. rewrite length_EncodeFixed32. 
  unfold kBlockTrailerSize. lia.
Qed.

Lemma WriteBlock_tracks n r b :
  tracks n r -> tracks n (fst (fst (WriteBlock extend z r b))) /\
    num_entries (fst (fst (WriteBlock extend z r b))) = num_entries r.
Proof using All.
  intros H. unfold WriteBlock. destruct (BlockBuilder_Finish b) as [b' raw].
  match goal with |- context [let '(_, _) := ?x in _] => destruct x as [data t] end.
  pose proof (WriteRawBlock_tracks n r data t H) as Hw. by destruct (WriteRawBlock extend r data t) as [r' h].
Qed.

Lemma Flush_tracks n r : tracks n r -> tracks n (TableBuilder_Flush extend z r) /\
  num_entries (TableBuilder_Flush extend z r) = num_entries r.
Proof using All.
  intros H. unfold TableBuilder_Flush. rewrite (tr_status _ _ H). cbn [ok Status_OK state_ negb].
  destruct (BlockBuilder_empty _); [done|]. pose proof (WriteBlock_tracks n r (data_block r) H) as Hw.
  destruct (WriteBlock extend z r (data_block r)) as [[r1 b] h]. cbn [fst] in Hw. destruct Hw as [[Hs Ho Hn] He].
  cbn [set_data status file]. rewrite Hs. cbn [ok Status_OK state_].
  pose proof (Flush_ok (contents:=contents) (file r1)) as H1. pose proof (Flush_contents (file r1)) as H2.
  pose proof (Hflush (file r1)) as H3. destruct (Flush W (file r1)) as [f s]. cbn in H1, H2, H3. subst s.
  split; [|done]. split; cbn; [done|congruence|congruence].
Qed.

Lemma Add_tracks n r k v : tracks n r -> tracks n (TableBuilder_Add extend z r k v) /\
  num_entries (TableBuilder_Add extend z r k v) = num_entries r + 1.
Proof using All.
  intros H. unfold TableBuilder_Add. rewrite (tr_status _ _ H). cbn [ok Status_OK state_ negb]. cbn zeta.
  match goal with |- context [if ?b then TableBuilder_Flush _ _ ?x else _] =>
    assert (tracks n x /\ num_entries x = num_entries r + 1) as [Hx He]
      by (destruct H as [Hs Ho Hn]; destruct (pending_index_entry r); by repeat split); destruct b end; [|done].
  rewrite <- He. by apply Flush_tracks.
Qed.

Lemma AddAll_tracks n r kvs : tracks n r -> tracks n (TableBuilder_AddAll extend z r kvs) /\
  num_entries (TableBuilder_AddAll extend z r kvs) = num_entries r + zlen kvs.
Proof using All.
  revert r. induction kvs as [|[k v] kvs IH]; intros r H; cbn [TableBuilder_AddAll fold_left fst snd length].
  - split; [done|]. lia.
  - destruct (Add_tracks n r k v H) as [H1 E1]. destruct (IH _ H1) as [H2 E2]. split; [done|].
    unfold TableBuilder_AddAll in E2. rewrite E2, E1. lia.
Qed.

Lemma TableBuilder_new_tracks o f : contents f = [] -> tracks (fname f) (TableBuilder_new o f).
Proof using Type. intros Hf. split; cbn; [done|by rewrite Hf|done]. Qed.

Lemma Finish_tracks n r : tracks n r -> tracks n (fst (TableBuilder_Finish extend z r)).
Proof using All.
  intros H. unfold TableBuilder_Finish. apply Flush_tracks in H as [H _].
  set (r0 := with_closed _). assert (tracks n r0) as H0 by (destruct H; by split). clearbody r0. clear H.
  assert (tracks n (fst (Finish_filter extend r0))) as H1.
  { unfold Finish_filter. rewrite (tr_status _ _ H0). cbn [ok Status_OK state_]. destruct (fblock r0) as [[p fb]|]; [|done].
    destruct (FilterBlock_Finish p fb) as [fb' fc]. apply WriteRawBlock_tracks. destruct H0; by split. }
  destruct (Finish_filter extend r0) as [r1 fh]. cbn [fst] in H1.
  assert (tracks n (fst (Finish_meta extend z r1 fh))) as H2.
  { unfold Finish_meta. rewrite (tr_status _ _ H1). cbn [ok Status_OK state_ negb].
    match goal with |- context [WriteBlock _ _ r1 ?b] => pose proof (WriteBlock_tracks n r1 b H1) as Hw;
      destruct (WriteBlock extend z r1 b) as [[r' b'] h] end. apply Hw. }
  destruct (Finish_meta extend z r1 fh) as [r2 mh]. cbn [fst] in H2.
  assert (tracks n (fst (Finish_index extend z r2))) as H3.
  { unfold Finish_index. rewrite (tr_status _ _ H2). cbn [ok Status_OK state_ negb].
    match goal with |- context [WriteBlock _ _ ?x ?b] =>
      assert (tracks n x) as Hx by (destruct H2; destruct (pending_index_entry r2); by split);
      pose proof (WriteBlock_tracks n x b Hx) as [Hw _]; destruct (WriteBlock extend z x b) as [[r' b'] h] end.
    cbn [fst] in Hw |- *. destruct Hw; by split. }
  destruct (Finish_index extend z r2) as [r3 ih]. cbn [fst] in H3 |- *.
  unfold Finish_footer. rewrite (tr_status _ _ H3). cbn [ok Status_OK state_ negb].
  destruct (append_tracks n r3 (Footer_EncodeTo (mkFooter mh ih) []) H3) as (f & -> & Hn & Ho).
  by split.
Qed.
End Tracks.
