(* ===== verification/Table.v ===== *)
(** * Tables

    src/table/table.cc: opening a table file (footer, index block, metaindex
    and filter), reading a data block, iterating, looking a key up and
    estimating its offset.  Blocks are read from the file; BlockCache.v has the
    block cache.

    The theorem [table_roundtrip]: what was added to a [TableBuilder] is what
    the opened table yields. *)

From stdpp Require Import sets sorting.
From S2P Require Import Prelude Slice Coding Crc32c Comparator Hash LogFormat DbFormat.
From S2P Require Import Iterator BlockBuilder Block Format FilterBlock TwoLevelIterator TableBuilder.

Section Operations.
Context (extend : Z -> bytes -> Z) (z : Compression).

(** [struct Table::Rep]; the filter reader keeps its policy.  [status] is
    never set and [filter_data] only owns memory. *)
Record Table := mkTable {
  t_options : Options; t_file : RandomAccessFile; t_cache_id : Z;
  t_filter : option (FilterPolicy * FilterBlockReader);
  t_metaindex_handle : BlockHandle; t_index_block : Block }.

Definition t_compare (t : Table) : bytes -> bytes -> comparison := Compare (comparator (t_options t)).

Definition with_filter (t : Table) (f : option (FilterPolicy * FilterBlockReader)) : Table :=
  mkTable (t_options t) (t_file t) (t_cache_id t) f (t_metaindex_handle t) (t_index_block t).

(** [Table::ReadFilter] *)
Definition ReadFilter (t : Table) (p : FilterPolicy) (filter_handle_value : bytes) : Table :=
  let '(filter_handle, _, s) := BlockHandle_DecodeFrom BlockHandle_new filter_handle_value in
  if negb (ok s) then t
  else
    let '(block, s) := ReadBlock extend z (t_file t) (paranoid_checks (t_options t)) filter_handle in
    if negb (ok s) then t
    else with_filter t (Some (p, FilterBlockReader_new (bc_data block))).

(** [Table::ReadMeta]: errors are ignored, the filter is optional. *)
Definition ReadMeta (t : Table) (footer : Footer) : option Table :=
  match filter_policy (t_options t) with
  | None => Some t
  | Some p =>
      let '(contents, s) :=
        ReadBlock extend z (t_file t) (paranoid_checks (t_options t)) (metaindex_handle_ footer) in
      if negb (ok s) then Some t
      else
        let meta := Block_new (bc_data contents) in
        let I := Block_Iterator (Compare BytewiseComparator) meta in
        let key := meta_key p in
        iter ← it_Seek I (Block_NewIterator meta) key;
        if it_Valid I iter && bool_decide (it_key I iter = key)
        then Some (ReadFilter t p (it_value I iter)) else Some t
  end.

(** [Table::Open]; [cache_id] is the block cache's [NewId()]. *)
Definition Table_Open (options : Options) (file : RandomAccessFile) (size cache_id : Z)
    : option (Status * option Table) :=
  if size <? kEncodedLength
  then Some (Corruption (str:"file is too short to be an sstable"), None)
  else
    let '(s, footer_input, _) := raf_Read file (size - kEncodedLength) kEncodedLength in
    if negb (ok s) then Some (s, None)
    else
      let '(footer, _, s) := Footer_DecodeFrom Footer_new footer_input in
      if negb (ok s) then Some (s, None)
      else
        let '(index_block_contents, s) :=
          ReadBlock extend z file (paranoid_checks options) (index_handle_ footer) in
        if negb (ok s) then Some (s, None)
        else
          let t := mkTable options file cache_id None (metaindex_handle_ footer)
                     (Block_new (bc_data index_block_contents)) in
          t ← ReadMeta t footer; Some (s, Some t).

(** The iterators over data blocks. *)
Definition DataOps (t : Table) : IteratorOps := Dispatch (Block_Iterator (t_compare t)).

Definition data_iterator (t : Table) (b : Block) : IState (DataOps t) :=
  existT b (Block_NewIterator b).
Definition error_iterator (t : Table) (s : Status) : IState (DataOps t) :=
  existT (Block_new []) (NoData (NewErrorIterator s)).

(** [Table::BlockReader] without a block cache; [verify_checksums] is the read
    option. *)
Definition BlockReader (t : Table) (verify_checksums : bool) (index_value : bytes) : IState (DataOps t) :=
  let '(handle, _, s) := BlockHandle_DecodeFrom BlockHandle_new index_value in
  if negb (ok s) then error_iterator t s
  else
    let '(contents, s) := ReadBlock extend z (t_file t) verify_checksums handle in
    if ok s then data_iterator t (Block_new (bc_data contents)) else error_iterator t s.

(** [Table::NewIterator]: every index entry takes at least three bytes, so the
    length of the index bounds the rounds over its entries. *)
Definition IndexOps (t : Table) : IteratorOps := Block_Iterator (t_compare t) (t_index_block t).

Definition Table_Iterator (t : Table) (verify_checksums : bool) : IteratorOps :=
  TwoLevel (IndexOps t) (DataOps t) (BlockReader t verify_checksums)
    (S (length (block_data (t_index_block t)))).

Definition Table_NewIterator (t : Table) (verify_checksums : bool)
    : IState (Table_Iterator t verify_checksums) :=
  NewTwoLevelIterator (II:=IndexOps t) (DI:=DataOps t) (Block_NewIterator (t_index_block t)).

(** [Table::InternalGet]: the status and the pair given to [handle_result]. *)
Definition InternalGet (t : Table) (verify_checksums : bool) (k : bytes)
    : option (Status * option (bytes * bytes)) :=
  iiter ← it_Seek (IndexOps t) (Block_NewIterator (t_index_block t)) k;
  '(s, result) ←
    (if it_Valid (IndexOps t) iiter then
       let handle_value := it_value (IndexOps t) iiter in
       may_match ← (match t_filter t with
         | None => Some true
         | Some (p, reader) =>
             let '(handle, _, s) := BlockHandle_DecodeFrom BlockHandle_new handle_value in
             if ok s then FilterBlock_KeyMayMatch p reader (offset_ handle) k else Some true
         end);
       if negb may_match then Some (Status_OK, None)
       else
         block_iter ← it_Seek (DataOps t) (BlockReader t verify_checksums handle_value) k;
         Some (it_status (DataOps t) block_iter,
               if it_Valid (DataOps t) block_iter
               then Some (it_key (DataOps t) block_iter, it_value (DataOps t) block_iter) else None)
     else Some (Status_OK, None));
  Some (if ok s then it_status (IndexOps t) iiter else s, result).

(** [Table::ApproximateOffsetOf] *)
Definition ApproximateOffsetOf (t : Table) (key : bytes) : option Z :=
  index_iter ← it_Seek (IndexOps t) (Block_NewIterator (t_index_block t)) key;
  Some (if it_Valid (IndexOps t) index_iter then
          let '(handle, _, s) := BlockHandle_DecodeFrom BlockHandle_new (it_value (IndexOps t) index_iter) in
          if ok s then offset_ handle else offset_ (t_metaindex_handle t)
        else offset_ (t_metaindex_handle t)).
End Operations.

(** ** Proofs *)

Section Correct.
Context (extend : Z -> bytes -> Z) `{!CrcLaws extend} (z : Compression) `{!CompressionLaws z}.
Context (o : Options) `{!ComparatorLaws (comparator o)} `{!Shortening (comparator o)}.
Abbreviation c := (comparator o).
Abbreviation cmp := (Compare (comparator o)).
Abbreviation interval := (block_restart_interval o).
Context (Hinterval : 1 <= interval).
(** The finished table. *)
Context (kvs : list (bytes * bytes)) (tbl : bytes) (ds : list DoneBlock) (idx : list (bytes * bytes)).
Context (Hlayout : table_layout extend z o kvs tbl ds idx).
Context (Hsorted : sorted_keys cmp (map fst kvs)).
Context (Hkvs : pairs_size kvs + 20 * zlen kvs + 8 < 2 ^ 32).
Context (Htbl : zlen tbl < 2 ^ 32).

Abbreviation done_bytes := (done_bytes extend).
Abbreviation done_offset := (done_offset extend).
Abbreviation done_handle := (done_handle extend).
Abbreviation index_entry := (index_entry extend o).

(** *** Blocks and their keys *)

Lemma split_ds j d : ds !! j = Some d -> kvs = done_kvs (take j ds) ++ db_kvs d ++ done_kvs (drop (S j) ds).
Proof.
  intros Hj. rewrite <- (tl_kvs _ _ _ _ _ _ _ Hlayout). rewrite <- (take_drop_middle _ _ _ Hj) at 1.
  rewrite done_kvs_app. f_equal. 
Qed.

Lemma sorted_app_lt (l1 l2 : list bytes) x y :
  sorted_keys cmp (l1 ++ l2) -> x ∈ l1 -> y ∈ l2 -> cmp x y = Lt.
Proof.
  intros Hs Hx Hy. apply StronglySorted_app in Hs as [H _]. by apply H.
Qed.

Lemma keys_before_later j d kv kv' :
  ds !! j = Some d -> kv ∈ db_kvs d -> kv' ∈ done_kvs (drop (S j) ds) -> cmp (fst kv) (fst kv') = Lt.
Proof.
  intros Hj Hkv Hkv'. pose proof Hsorted as Hs. rewrite (split_ds j d Hj), !map_app, app_assoc in Hs.
  eapply sorted_app_lt; [exact Hs| |].
  - apply elem_of_app. right. apply list_elem_of_fmap. by exists kv.
  - apply list_elem_of_fmap. by exists kv'.
Qed.

Lemma block_sorted j d : ds !! j = Some d -> sorted_keys cmp (map fst (db_kvs d)).
Proof.
  intros Hj. pose proof Hsorted as Hs. rewrite (split_ds j d Hj), !map_app in Hs.
  apply StronglySorted_app_1_r, StronglySorted_app_1_l in Hs. done.
Qed.

Lemma block_nonempty j d : ds !! j = Some d -> db_kvs d <> [].
Proof.
  intros Hj. pose proof (tl_blocks _ _ _ _ _ _ _ Hlayout) as Hb. rewrite Forall_lookup in Hb.
  by destruct (Hb _ _ Hj).
Qed.

(** The end key is the largest of its block. *)
Lemma end_key_max (l : list (bytes * bytes)) kv :
  sorted_keys cmp (map fst l) -> kv ∈ l -> cmp (fst kv) (end_key l) <> Gt.
Proof.
  destruct l as [|e l _] using rev_ind; [by intros _ ?%elem_of_nil|]. intros Hs Hin.
  rewrite end_key_snoc. apply elem_of_app in Hin as [Hin|Hin].
  - rewrite map_app in Hs. rewrite (sorted_app_lt _ _ (fst kv) (fst e) Hs); [done| |by left].
    apply list_elem_of_fmap. by exists kv.
  - apply list_elem_of_singleton in Hin as ->. by rewrite (cmp_refl cmp).
Qed.

Lemma end_key_in (l : list (bytes * bytes)) : l <> [] -> exists kv, kv ∈ l /\ end_key l = fst kv.
Proof.
  destruct l as [|e l _] using rev_ind; [done|]. intros _. exists e. rewrite end_key_snoc.
  split; [apply elem_of_app; right; by left|done].
Qed.

(** *** Separators *)

Lemma entry_block j sep h : idx !! j = Some (sep, h) -> exists d, ds !! j = Some d /\
  h = BlockHandle_EncodeTo (done_handle ds j d) [] /\
  sep = match done_kvs (drop (S j) ds) with
        | kv :: _ => FindShortestSeparator c (end_key (db_kvs d)) (fst kv)
        | [] => FindShortSuccessor c (end_key (db_kvs d))
        end.
Proof.
  intros Hj. destruct (tl_index _ _ _ _ _ _ _ Hlayout _ _ Hj) as (d & Hd & He & Hs).
  exists d. split; [done|]. split; [done|]. unfold later in Hs. by rewrite app_nil_r in Hs.
Qed.

Lemma end_below_next j d kv rest :
  ds !! j = Some d -> done_kvs (drop (S j) ds) = kv :: rest -> cmp (end_key (db_kvs d)) (fst kv) = Lt.
Proof.
  intros Hj E. destruct (end_key_in (db_kvs d) (block_nonempty j d Hj)) as (e & He & ->).
  eapply keys_before_later; [done|done|]. rewrite E. left.
Qed.

Lemma sep_upper j sep h d kv :
  idx !! j = Some (sep, h) -> ds !! j = Some d -> kv ∈ db_kvs d -> cmp (fst kv) sep <> Gt.
Proof.
  intros Hj Hd Hkv. destruct (entry_block j sep h Hj) as (d' & Hd' & _ & ->).
  assert (d' = d) as -> by congruence.
  pose proof (end_key_max _ _ (block_sorted j d Hd) Hkv) as H1.
  eapply (cmp_le_trans cmp); [exact H1|].
  destruct (done_kvs (drop (S j) ds)) as [|kv' rest] eqn:E.
  - apply successor_ge.
  - apply separator_ge. by eapply end_below_next.
Qed.

Lemma sep_lower j sep h kv :
  idx !! j = Some (sep, h) -> kv ∈ done_kvs (drop (S j) ds) -> cmp sep (fst kv) = Lt.
Proof.
  intros Hj Hkv. destruct (entry_block j sep h Hj) as (d & Hd & _ & ->).
  destruct (done_kvs (drop (S j) ds)) as [|kv' rest] eqn:E; [by apply elem_of_nil in Hkv|].
  assert (cmp (fst kv') (fst kv) <> Gt) as Hle.
  { apply elem_of_cons in Hkv as [->|Hkv]; [by rewrite (cmp_refl cmp)|].
    pose proof Hsorted as Hs. rewrite (split_ds j d Hd), E, !map_app, app_assoc in Hs.
    apply StronglySorted_app_1_r in Hs. cbn in Hs. inversion Hs as [|? ? _ Hf]; subst.
    rewrite list.Forall_forall in Hf. rewrite Hf; [done|]. apply list_elem_of_fmap. by exists kv. }
  eapply (cmp_lt_le_trans cmp); [|exact Hle]. apply separator_lt. by eapply end_below_next.
Qed.

Lemma later_block i j d kv :
  (i < j)%nat -> ds !! j = Some d -> kv ∈ db_kvs d -> kv ∈ done_kvs (drop (S i) ds).
Proof.
  intros Hij Hd Hkv. unfold done_kvs.
  apply list_elem_of_In, in_concat. exists (db_kvs d). split; [|by apply list_elem_of_In].
  apply in_map, list_elem_of_In. apply list_elem_of_lookup. exists (j - S i)%nat.
  rewrite lookup_drop. by replace (S i + (j - S i))%nat with j by lia.
Qed.

Lemma idx_sorted : sorted_keys cmp (map fst idx).
Proof.
  assert (forall i j e1 e2, idx !! i = Some e1 -> idx !! j = Some e2 -> (i < j)%nat -> cmp (fst e1) (fst e2) = Lt) as H.
  { intros i j [s1 h1] [s2 h2] Hi Hj Hij. destruct (entry_block j s2 h2 Hj) as (d & Hd & _).
    destruct (end_key_in _ (block_nonempty j d Hd)) as (kv & Hkv & _).
    eapply (cmp_lt_le_trans cmp s1 (fst kv)).
    - eapply (sep_lower i s1 h1); [done|]. by eapply later_block.
    - by eapply (sep_upper j s2 h2 d). }
  revert H. clear. induction idx as [|e l IH]; intros H; [constructor|]. cbn. constructor.
  - apply IH. intros i j e1 e2 Hi Hj Hij. apply (H (S i) (S j)); [done|done|lia].
  - apply list.Forall_forall. intros x (e2 & -> & Hin)%list_elem_of_fmap.
    apply list_elem_of_lookup in Hin as [j Hj]. apply (H 0%nat (S j)); [done|done|lia].
Qed.
(** *** Handles *)

Lemma tbl_prefix : exists rest, tbl = done_bytes ds ++ rest.
Proof.
  destruct (tl_file _ _ _ _ _ _ _ Hlayout) as (FB & meta & mD & mT & iD & iT & E & _).
  cbn zeta in E. eauto.
Qed.

Lemma data_in_table j d :
  ds !! j = Some d -> exists post, tbl = done_bytes (take j ds) ++ stored extend (db_data d) (db_type d) ++ post.
Proof.
  intros Hj. destruct tbl_prefix as [rest E].
  assert (done_bytes ds = done_bytes (take j ds) ++ stored extend (db_data d) (db_type d) ++
    done_bytes (drop (S j) ds)) as Ed.
  { rewrite <- (take_drop_middle _ _ _ Hj) at 1. by rewrite done_bytes_app. }
  exists (done_bytes (drop (S j) ds) ++ rest). by rewrite E, Ed, <- !app_assoc.
Qed.

Lemma done_handle_ok j d : ds !! j = Some d -> handle_ok (done_handle ds j d) /\
  done_offset ds j + zlen (db_data d) + kBlockTrailerSize <= zlen tbl.
Proof.
  intros Hj. destruct (data_in_table j d Hj) as (post & E).
  assert (done_offset ds j + zlen (db_data d) + kBlockTrailerSize <= zlen tbl).
  { rewrite E, !length_app. unfold TableBuilder.done_offset.
    pose proof (stored_length extend (db_data d) (db_type d)). lia. }
  split; [|done]. unfold kBlockTrailerSize in *. unfold TableBuilder.done_offset in *. split; cbn; unfold TableBuilder.done_offset; lia.
Qed.

Lemma done_offset_lt i j d : (i < j)%nat -> ds !! j = Some d -> done_offset ds i < done_offset ds j.
Proof.
  intros Hij Hj. pose proof (lookup_lt_Some _ _ _ Hj) as Hlt.
  destruct (lookup_lt_is_Some_2 ds i ltac:(lia)) as [e He]. unfold TableBuilder.done_offset.
  rewrite <- (take_drop (S i) (take j ds)), take_take, Nat.min_l by lia.
  rewrite done_bytes_app, (take_S_r _ _ _ He), done_bytes_app, !length_app.
  assert (0 < zlen (done_bytes [e])); [|lia]. unfold TableBuilder.done_bytes. cbn. rewrite app_nil_r.
  rewrite stored_length. unfold kBlockTrailerSize. lia.
Qed.

Lemma handle_inj i j d1 d2 :
  ds !! i = Some d1 -> ds !! j = Some d2 ->
  BlockHandle_EncodeTo (done_handle ds i d1) [] = BlockHandle_EncodeTo (done_handle ds j d2) [] -> i = j.
Proof.
  intros Hi Hj E. destruct (done_handle_ok i d1 Hi) as [H1 _]. destruct (done_handle_ok j d2 Hj) as [H2 _].
  pose proof (BlockHandle_decode BlockHandle_new _ [] H1) as D1.
  pose proof (BlockHandle_decode BlockHandle_new _ [] H2) as D2. rewrite E, D2 in D1.
  injection D1 as E1 _. destruct (Nat.lt_total i j) as [H|[?|H]]; [|done|].
  - pose proof (done_offset_lt i j d2 H Hj). lia.
  - pose proof (done_offset_lt j i d1 H Hi). lia.
Qed.

(** The pairs of the block behind a handle of the index. *)
Definition contents_of (h : bytes) : list (bytes * bytes) :=
  match list_find (fun e : bytes * bytes => snd e = h) idx with
  | Some (j, _) => match ds !! j with Some d => db_kvs d | None => [] end
  | None => []
  end.

Lemma contents_of_entry j sep h d :
  idx !! j = Some (sep, h) -> ds !! j = Some d -> contents_of h = db_kvs d.
Proof.
  intros Hj Hd. unfold contents_of.
  destruct (list_find (fun e : bytes * bytes => snd e = h) idx) as [[j' [sep' h']]|] eqn:E.
  - apply list_find_Some in E as (Hj' & Eh & _). cbn in Eh. subst h'.
    destruct (entry_block j sep h Hj) as (d1 & Hd1 & E1 & _).
    destruct (entry_block j' sep' h Hj') as (d2 & Hd2 & E2 & _).
    rewrite E1 in E2. rewrite <- (handle_inj j j' d1 d2 Hd1 Hd2 E2). by rewrite Hd.
  - exfalso. apply list_find_None in E. rewrite Forall_lookup in E. by apply (E j (sep, h)).
Qed.

Lemma contents_kvs : concat (map (fun e => contents_of (snd e)) idx) = kvs.
Proof.
  rewrite <- (tl_kvs _ _ _ _ _ _ _ Hlayout). unfold done_kvs. f_equal.
  apply list_eq. intros j. rewrite !list_lookup_fmap.
  pose proof (tl_length _ _ _ _ _ _ _ Hlayout) as Hl.
  destruct (idx !! j) as [[sep h]|] eqn:E1, (ds !! j) as [d|] eqn:E2; cbn.
  - f_equal. by eapply contents_of_entry.
  - apply lookup_lt_Some in E1. apply lookup_ge_None in E2. lia.
  - apply lookup_ge_None in E1. apply lookup_lt_Some in E2. lia.
  - done.
Qed.

Lemma index_separates : separates cmp contents_of idx.
Proof.
  intros j sep h kv Hj Hkv. destruct (entry_block j sep h Hj) as (d & Hd & _).
  rewrite (contents_of_entry j sep h d Hj Hd) in Hkv. split; [by eapply sep_upper|].
  intros i sep' h' Hij Hi. eapply sep_lower; [exact Hi|]. by eapply later_block.
Qed.

(** *** Sizes *)

Lemma block_size_le j d : ds !! j = Some d -> pairs_size (db_kvs d) + 8 < 2 ^ 32.
Proof.
  intros Hj. pose proof (split_ds j d Hj) as E.
  pose proof (pairs_size_nonneg (done_kvs (take j ds))).
  pose proof (pairs_size_nonneg (done_kvs (drop (S j) ds))).
  rewrite E, !pairs_size_app in Hkvs. lia.
Qed.

Lemma entry_size j sep h d :
  idx !! j = Some (sep, h) -> ds !! j = Some d ->
  zlen sep + zlen h + 34 <= pairs_size (db_kvs d) + 20 * zlen (db_kvs d).
Proof.
  intros Hj Hd. destruct (entry_block j sep h Hj) as (d' & Hd' & -> & Es).
  assert (d' = d) as -> by congruence.
  pose proof (BlockHandle_length _ (proj1 (done_handle_ok j d Hd))) as Hh.
  assert (length sep <= length (end_key (db_kvs d)))%nat as Hs.
  { rewrite Es. destruct (done_kvs (drop (S j) ds)); [apply successor_shortens|apply separator_shortens]. }
  assert (zlen (end_key (db_kvs d)) + 34 <= pairs_size (db_kvs d) /\ 1 <= zlen (db_kvs d)); [|lia].
  pose proof (block_nonempty j d Hd) as Hne. revert Hne. clear. intros Hne.
  destruct (db_kvs d) as [|kv l _] using rev_ind; [done|]. rewrite end_key_snoc, pairs_size_app, length_app.
  pose proof (pairs_size_nonneg l). cbn. split; lia.
Qed.

Lemma index_size : pairs_size idx + 8 < 2 ^ 32.
Proof.
  assert (forall idx0 ds0, length idx0 = length ds0 ->
    (forall j sep h d, idx0 !! j = Some (sep, h) -> ds0 !! j = Some d ->
       zlen sep + zlen h + 34 <= pairs_size (db_kvs d) + 20 * zlen (db_kvs d)) ->
    pairs_size idx0 <= pairs_size (done_kvs ds0) + 20 * zlen (done_kvs ds0)) as H.
  { clear. induction idx0 as [|[sep h] idx0 IH]; intros [|d ds0] Hl He; try done.
    pose proof (He 0%nat sep h d eq_refl eq_refl) as H0.
    specialize (IH ds0 ltac:(cbn in Hl; lia) (fun j sep h d => He (S j) sep h d)).
    change (done_kvs (d :: ds0)) with (db_kvs d ++ done_kvs ds0). rewrite pairs_size_app, length_app.
    cbn [pairs_size foldr fst snd]. fold (pairs_size idx0). lia. }
  pose proof (H idx ds (tl_length _ _ _ _ _ _ _ Hlayout) entry_size) as H'.
  rewrite (tl_kvs _ _ _ _ _ _ _ Hlayout) in H'. lia.
Qed.
(** *** Opening *)

Context (file : RandomAccessFile) `{!ReliableRandomReads file tbl}.
Context (ok_keys : list bytes -> Prop).
Context (Hpolicy : forall p, filter_policy o = Some p ->
  FilterPolicyLaws ok_keys p /\ zlen (FilterPolicy_Name p) < 2 ^ 31).
Context (Hok : forall ks, (length ks <= length kvs)%nat -> ok_keys ks).

(** The opened table: the index block is that of [idx], and the filter reader
    never rejects a key of the block it is asked for. *)
Record opened (t : Table) : Prop := {
  op_options : t_options t = o;
  op_file : t_file t = file;
  op_index : t_index_block t = Block_new (build_block 1 idx);
  op_filter : match t_filter t with
    | None => True
    | Some (p, reader) => filter_policy o = Some p /\
        forall j d, ds !! j = Some d ->
          exists f, (forall key, FilterBlock_KeyMayMatch p reader (done_offset ds j) key =
              Some (KeyMayMatch p key f)) /\
            forall key, key ∈ map fst (db_kvs d) -> KeyMayMatch p key f = true
    end
}.

Lemma footer_read pre f :
  tbl = pre ++ Footer_EncodeTo f [] -> handle_ok (metaindex_handle_ f) -> handle_ok (index_handle_ f) ->
  zlen tbl <? kEncodedLength = false /\
  exists b, raf_Read file (zlen tbl - kEncodedLength) kEncodedLength =
    (Status_OK, Footer_EncodeTo f [], b) /\
  Footer_DecodeFrom Footer_new (Footer_EncodeTo f []) = (f, [], Status_OK).
Proof.
  intros E Hm Hi. destruct (Footer_decode f Footer_new [] Hm Hi) as [Hd Hl]. rewrite app_nil_r in Hd.
  assert (zlen tbl = zlen pre + kEncodedLength) as El by (rewrite E, length_app; lia).
  assert (0 <= kEncodedLength) as Hpos by (unfold kEncodedLength, kMaxEncodedLength; lia).
  split; [apply Z.ltb_ge; lia|].
  destruct (raf_read_ok (f:=file) (contents:=tbl) (zlen tbl - kEncodedLength) kEncodedLength) as [b Hb];
    [lia|lia|lia|]. exists b. split; [|done]. rewrite Hb. do 2 f_equal.
  replace (Z.to_nat (zlen tbl - kEncodedLength)) with (length pre) by lia.
  rewrite E, drop_app_length. apply take_ge. lia.
Qed.

Lemma ReadFilter_opened t p fb gs ks rest pre :
  opened (with_filter t None) -> filter_policy o = Some p ->
  let fc := snd (FilterBlock_Finish p fb) in
  let h := mkHandle (zlen pre) (zlen fc) in
  tbl = pre ++ stored extend fc kNoCompression ++ rest ->
  filter_inv p fb gs ks -> concat (gs ++ [ks]) = map fst kvs ->
  (forall j d, ds !! j = Some d -> grouped gs ks (done_offset ds j) (map fst (db_kvs d))) ->
  opened (ReadFilter extend z t p (BlockHandle_EncodeTo h [])).
Proof.
  intros Ht Hp fc h E Hfb Hc Hg. pose proof Ht as [T1 T2 T3 _].
  cbn [with_filter t_options t_file t_index_block] in T1, T2, T3.
  pose proof (stored_length extend fc kNoCompression) as Hsl. unfold kBlockTrailerSize in Hsl.
  assert (zlen pre + zlen fc + 5 <= zlen tbl) as Hlen.
  { rewrite E, !length_app. lia. }
  assert (handle_ok h) as Hh by (unfold handle_ok, h; cbn [offset_ size_]; lia).
  unfold ReadFilter. rewrite <- (app_nil_r (BlockHandle_EncodeTo h [])), BlockHandle_decode by done.
  cbn [ok Status_OK state_ negb]. rewrite T2. unfold h.
  destruct (ReadBlock_stored extend z file tbl (paranoid_checks (t_options t)) fc fc kNoCompression pre rest)
    as (cc & hh & ->); [done|done|constructor|unfold kBlockTrailerSize; lia|].
  cbn [ok Status_OK state_ negb bc_data].
  destruct (Hpolicy p Hp) as [Hlaws _].
  split; [done|done|done|]. cbn [with_filter t_filter]. split; [done|].
  intros j d Hj. destruct (Hg j d Hj) as (g & Hlook & Hsub).
  destruct (end_key_in _ (block_nonempty j d Hj)) as (kv & Hkv & _).
  assert (g <> []) as Hgne.
  { intros ->. assert (fst kv ∈ map fst (db_kvs d)) as Hk by (apply list_elem_of_fmap; by exists kv).
    apply Hsub in Hk. by apply elem_of_nil in Hk. }
  assert (final_groups gs ks !! Z.to_nat (done_offset ds j / kFilterBase) = Some g) as Hlook'.
  { unfold final_groups. destruct ks as [|k ks]; [|done]. rewrite lookup_app in Hlook.
    destruct (gs !! _); [done|]. apply list_lookup_singleton_Some in Hlook as [_ <-]. done. }
  assert (0 <= done_offset ds j) as Hpos by (unfold TableBuilder.done_offset; lia).
  exists (filter_of p g). split.
  - intros key. unfold fc. rewrite (Finish_block p ok_keys fb gs ks Hfb).
    apply (KeyMayMatch_group p (final_groups gs ks) (Z.to_nat (done_offset ds j / kFilterBase)) g);
      [|exact Hlook'|done|].
    + rewrite <- (Finish_block p ok_keys fb gs ks Hfb). fold fc. lia.
    + rewrite Z2Nat.id; [done|]. apply Z.div_pos; [done|reflexivity].
  - intros key Hkey. unfold filter_of. destruct g; [done|].
    apply (KeyMayMatch_complete (ok_keys:=ok_keys)).
    + apply Hok. rewrite <- (length_map fst kvs), <- Hc. apply concat_member_length.
      by eapply list_elem_of_lookup_2.
    + apply list_elem_of_In. by apply Hsub.
Qed.
(** The metaindex block leads to the filter. *)
Lemma meta_seek p h :
  zlen (FilterPolicy_Name p) < 2 ^ 31 -> handle_ok h ->
  let m := Block_new (build_block interval [(meta_key p, BlockHandle_EncodeTo h [])]) in
  exists s, it_Seek (Block_Iterator (Compare BytewiseComparator) m) (Block_NewIterator m) (meta_key p) = Some s /\
    it_Valid (Block_Iterator (Compare BytewiseComparator) m) s = true /\
    it_key (Block_Iterator (Compare BytewiseComparator) m) s = meta_key p /\
    it_value (Block_Iterator (Compare BytewiseComparator) m) s = BlockHandle_EncodeTo h [].
Proof.
  intros Hn Hh m. pose proof (BlockHandle_length h Hh) as Hl.
  set (kv := (meta_key p, BlockHandle_EncodeTo h [])).
  destruct (built_cursor (Compare BytewiseComparator) interval [kv]) as [C Hnew].
  { done. } { repeat constructor. }
  { cbn [pairs_size foldr fst snd kv]. unfold meta_key. rewrite length_app. cbn [length]. 
    change (length (str:"filter.")) with 7%nat. lia. }
  destruct (cur_seek (C:=C) _ _ (meta_key p) Hnew) as (s & Es & Hs).
  assert (seek_pos (Compare BytewiseComparator) (meta_key p) (map fst [kv]) = 0%nat) as E0.
  { cbn [map fst kv seek_pos]. by rewrite (cmp_refl (Compare BytewiseComparator)). }
  rewrite E0 in Hs. exists s. split; [exact Es|].
  split; [exact (cur_valid (CursorOn:=C) _ _ Hs)|]. exact (cur_entry (CursorOn:=C) _ _ kv Hs eq_refl).
Qed.

Lemma Table_Open_opened cache_id :
  exists t, Table_Open extend z o file (zlen tbl) cache_id = Some (Status_OK, Some t) /\ opened t.
Proof.
  destruct (tl_file _ _ _ _ _ _ _ Hlayout) as (FB & meta & mD & mT & iD & iT & E & Hm & Hi & Hf).
  cbn zeta in E. set (mh := mkHandle (zlen (done_bytes ds ++ FB)) (zlen mD)) in *.
  set (ih := mkHandle (zlen (done_bytes ds ++ FB ++ stored extend mD mT)) (zlen iD)) in *.
  set (foot := Footer_EncodeTo (mkFooter mh ih) []) in *.
  pose proof (stored_length extend mD mT) as Lm. pose proof (stored_length extend iD iT) as Li.
  unfold kBlockTrailerSize in Lm, Li.
  assert (zlen tbl = zlen (done_bytes ds) + zlen FB + zlen (stored extend mD mT) + zlen (stored extend iD iT) +
    zlen foot) as Ltbl by (rewrite E, !length_app; lia).
  assert (handle_ok mh) as Hmh by (unfold handle_ok, mh; cbn [offset_ size_]; rewrite length_app; lia).
  assert (handle_ok ih) as Hih by (unfold handle_ok, ih; cbn [offset_ size_]; rewrite !length_app; lia).
  destruct (footer_read (done_bytes ds ++ FB ++ stored extend mD mT ++ stored extend iD iT)
    (mkFooter mh ih)) as (Hsz & b & Hr & Hd); [by rewrite E, <- !app_assoc|done|done|].
  unfold Table_Open. rewrite Hsz, Hr. cbn [ok Status_OK state_ negb]. rewrite Hd.
  cbn [ok Status_OK state_ negb index_handle_ metaindex_handle_].
  destruct (ReadBlock_stored extend z file tbl (paranoid_checks o) (build_block 1 idx) iD iT
    (done_bytes ds ++ FB ++ stored extend mD mT) foot) as (c1 & c2 & Hri);
    [done|by rewrite E, <- !app_assoc|done|unfold kBlockTrailerSize; lia|].
  unfold ih. rewrite Hri. cbn [ok Status_OK state_ negb bc_data].
  set (t0 := mkTable o file cache_id None mh (Block_new (build_block 1 idx))).
  assert (opened t0) as Ht0 by by split.
  unfold ReadMeta. cbn [t0 t_options t_file metaindex_handle_].
  destruct (filter_policy o) as [p|] eqn:Ep in Hf |- *; [|by exists t0].
  destruct Hf as (fb & gs & ks & Hfb & Hc & Hg & EFB & Emeta).
  destruct (ReadBlock_stored extend z file tbl (paranoid_checks o) (build_block interval meta) mD mT
    (done_bytes ds ++ FB) (stored extend iD iT ++ foot)) as (c3 & c4 & Hrm);
    [done|by rewrite E, <- !app_assoc|done|unfold kBlockTrailerSize; lia|].
  unfold mh. rewrite Hrm. cbn [ok Status_OK state_ negb bc_data]. rewrite Emeta.
  destruct (Hpolicy p Ep) as [Hlaws Hname].
  assert (handle_ok (mkHandle (zlen (done_bytes ds)) (zlen (snd (FilterBlock_Finish p fb))))) as Hfh.
  { pose proof (stored_length extend (snd (FilterBlock_Finish p fb)) kNoCompression) as Lf.
    rewrite <- EFB in Lf. unfold kBlockTrailerSize in Lf. unfold handle_ok. cbn [offset_ size_]. lia. }
  destruct (meta_seek p _ Hname Hfh) as (s & E1 & E2 & E3 & E4). rewrite E1.
  cbn [mbind option_bind]. rewrite E2, E3, E4, bool_decide_eq_true_2 by done. cbn [andb mbind option_bind].
  eexists. split; [done|].
  apply (ReadFilter_opened t0 p fb gs ks (stored extend mD mT ++ stored extend iD iT ++ foot)); try done.
  by rewrite E, EFB.
Qed.

(** *** Reading *)

Context (t : Table) (Ht : opened t) (verify : bool).

Lemma t_cmp : t_compare t = cmp.
Proof. unfold t_compare. by rewrite (op_options _ Ht). Qed.

(** The block of an index entry can be read, with or without checksums. *)
Lemma index_block_read j sep h d : idx !! j = Some (sep, h) -> ds !! j = Some d ->
  exists handle rest, BlockHandle_DecodeFrom BlockHandle_new h = (handle, rest, Status_OK) /\ handle_ok handle /\ handle = done_handle ds j d /\
    forall v, exists c1 c2, ReadBlock extend z (t_file t) v handle = (mkContents (build_block interval (db_kvs d)) c1 c2, Status_OK).
Proof.
  intros Hj Hd. destruct (entry_block j sep h Hj) as (d' & Hd' & -> & _).
  assert (d' = d) as -> by congruence. destruct (done_handle_ok j d Hd) as [Hh Hlen].
  exists (done_handle ds j d), []. split; [by rewrite <- (app_nil_r (BlockHandle_EncodeTo _ [])), BlockHandle_decode|]. split; [done|]. split; [done|].
  intros v. rewrite (op_file _ Ht). destruct (data_in_table j d Hd) as (post & E).
  pose proof (tl_blocks _ _ _ _ _ _ _ Hlayout) as Hb. rewrite Forall_lookup in Hb. destruct (Hb _ _ Hd) as [_ Hst].
  destruct (ReadBlock_stored extend z file tbl v _ _ _ _ post ltac:(done) E Hst) as (c1 & c2 & Hr).
  { unfold TableBuilder.done_offset in Hlen. lia. }
  exists c1, c2. exact Hr.
Qed.

Lemma BlockReader_entry j sep h d :
  idx !! j = Some (sep, h) -> ds !! j = Some d ->
  BlockReader extend z t verify h = data_iterator t (Block_new (build_block interval (db_kvs d))).
Proof.
  intros Hj Hd. destruct (index_block_read j sep h d Hj Hd) as (handle & rest & E & _ & _ & Hr). destruct (Hr verify) as (c1 & c2 & Ec).
  unfold BlockReader. rewrite E. cbn [ok Status_OK state_ negb]. by rewrite Ec.
Qed.

(** What the data iterator of a handle stands on. *)
Definition data_pos (h : bytes) : IState (DataOps t) -> nat -> Prop :=
  dispatch_pos (Block_Iterator (t_compare t)) (Block_new (build_block interval (contents_of h)))
    (built_pos interval (contents_of h)).

Lemma data_blocks sep h :
  (sep, h) ∈ idx ->
  Cursor cmp (DataOps t) (contents_of h) (data_pos h) /\
  data_pos h (BlockReader extend z t verify h) (length (contents_of h)).
Proof.
  intros [j Hj]%list_elem_of_lookup. destruct (entry_block j sep h Hj) as (d & Hd & _).
  rewrite (BlockReader_entry j sep h d Hj Hd). unfold data_pos, DataOps, data_iterator.
  rewrite (contents_of_entry j sep h d Hj Hd), t_cmp.
  destruct (built_cursor cmp interval (db_kvs d) Hinterval (block_sorted j d Hd) (block_size_le j d Hd))
    as [C Hnew].
  split; [by apply dispatch_cursor|]. by eexists.
Qed.

Lemma index_cursor :
  Cursor cmp (IndexOps t) idx (built_pos 1 idx) /\
  built_pos 1 idx (Block_NewIterator (t_index_block t)) (length idx).
Proof.
  unfold IndexOps. rewrite (op_index _ Ht), t_cmp.
  apply (built_cursor cmp 1 idx); [lia|apply idx_sorted|apply index_size].
Qed.

Lemma index_fuel : (length idx < S (length (block_data (t_index_block t))))%nat.
Proof.
  rewrite (op_index _ Ht). unfold Block_new.
  assert (length idx <= length (build_block 1 idx))%nat as H.
  { unfold build_block.
    pose proof index_size as Hsz. pose proof (AddAll_size 1 BlockBuilder_new idx) as Hs.
    change (CurrentSizeEstimate BlockBuilder_new) with 8 in Hs.
    destruct (build_block_layout 1 idx ltac:(lia) ltac:(lia)) as (es & rs & E & _ & Ep).
    { apply list.Forall_forall. intros kv Hkv. pose proof (pairs_size_member idx kv Hkv). lia. }
    unfold build_block in E. rewrite E, <- Ep, length_map. unfold layout_bytes. rewrite length_app.
    pose proof (off_mono es 0 (length es) ltac:(lia) ltac:(lia)) as Hm. rewrite off_end, off_0 in Hm. lia. }
  repeat (case_match; cbn [block_data]); lia.
Qed.

Lemma table_cursor :
  exists pos, Cursor cmp (Table_Iterator extend z t verify) kvs pos /\
    pos (Table_NewIterator extend z t verify) (length kvs).
Proof.
  destruct index_cursor as [CI Hnew].
  destruct (two_level_correct cmp (IndexOps t) (DataOps t) (BlockReader extend z t verify)
    (S (length (block_data (t_index_block t)))) idx (built_pos 1 idx) contents_of data_pos CI
    data_blocks index_separates index_fuel) as (pos & C & Hp).
  rewrite contents_kvs in C, Hp. exists pos. split; [exact C|]. by apply Hp.
Qed.
(** *** Looking a key up *)

(** Which keys answer a lookup: [same k k'] when an entry [k'] may be the
    answer for [k]. *)
Context (same : bytes -> bytes -> Prop).
Context (Hgap : forall s l k, cmp s l = Lt -> cmp s k = Lt ->
  cmp k (FindShortestSeparator c s l) <> Gt -> ~ same k l).
Context (Hmatch : forall p, filter_policy o = Some p -> forall k k' f,
  same k k' -> KeyMayMatch p k f = KeyMayMatch p k' f).

Lemma done_kvs_elem ds0 kv : kv ∈ done_kvs ds0 -> exists j d, ds0 !! j = Some d /\ kv ∈ db_kvs d.
Proof.
  unfold done_kvs. intros H. apply list_elem_of_In, in_concat in H as (l & Hl & Hkv).
  apply in_map_iff in Hl as (d & <- & Hd). apply list_elem_of_In, list_elem_of_lookup in Hd as [j Hj].
  exists j, d. split; [done|]. by apply list_elem_of_In.
Qed.

(** Where a lookup lands, from the block its index entry names. *)
Lemma seek_block k j sep h d :
  seek_pos cmp k (map fst idx) = j -> idx !! j = Some (sep, h) -> ds !! j = Some d ->
  seek_pos cmp k (map fst kvs) =
  (length (done_kvs (take j ds)) + seek_pos cmp k (map fst (db_kvs d)))%nat.
Proof.
  intros Ej Hj Hd. rewrite (split_ds j d Hd), !map_app, seek_pos_app_below, length_map.
  - f_equal. apply seek_pos_app_above. apply list.Forall_forall. intros x (kv & -> & Hkv)%list_elem_of_fmap Hlt.
    pose proof (sep_lower j sep h kv Hj Hkv) as H1.
    apply (seek_pos_at cmp k (map fst idx) sep); [rewrite Ej, list_lookup_fmap, Hj; done|].
    by eapply (cmp_lt_trans cmp).
  - apply list.Forall_forall. intros x (kv & -> & Hkv)%list_elem_of_fmap.
    apply done_kvs_elem in Hkv as (i & d' & Hi & Hkv). apply lookup_take_Some in Hi as [Hi Hlt].
    pose proof (tl_length _ _ _ _ _ _ _ Hlayout) as Hl.
    destruct (lookup_lt_is_Some_2 idx i) as [[sep' h'] Hi']; [apply lookup_lt_Some in Hi; lia|].
    eapply (cmp_le_lt_trans cmp); [by eapply (sep_upper i sep' h' d')|].
    eapply (seek_pos_before cmp k (map fst idx) i); [lia|]. by rewrite list_lookup_fmap, Hi'.
Qed.

Lemma seek_past k :
  idx !! seek_pos cmp k (map fst idx) = None -> kvs !! seek_pos cmp k (map fst kvs) = None.
Proof.
  intros E. apply lookup_ge_None in E. apply lookup_ge_None.
  rewrite <- (app_nil_r (map fst kvs)), seek_pos_app_below, length_map; [lia|].
  apply list.Forall_forall. intros x (kv & -> & Hkv)%list_elem_of_fmap.
  rewrite <- (tl_kvs _ _ _ _ _ _ _ Hlayout) in Hkv.
  apply done_kvs_elem in Hkv as (i & d' & Hi & Hkv). pose proof (tl_length _ _ _ _ _ _ _ Hlayout) as Hl.
  destruct (lookup_lt_is_Some_2 idx i) as [[sep' h'] Hi']; [apply lookup_lt_Some in Hi; lia|].
  eapply (cmp_le_lt_trans cmp); [by eapply (sep_upper i sep' h' d')|].
  eapply (seek_pos_before cmp k (map fst idx) i); [apply lookup_lt_Some in Hi'; lia|].
  by rewrite list_lookup_fmap, Hi'.
Qed.

(** If the block holds no key from [k] on, no later key answers [k]. *)
Lemma gap_not_same k j sep h d kv :
  seek_pos cmp k (map fst idx) = j -> idx !! j = Some (sep, h) -> ds !! j = Some d ->
  seek_pos cmp k (map fst (db_kvs d)) = length (db_kvs d) ->
  kvs !! seek_pos cmp k (map fst kvs) = Some kv -> ~ same k (fst kv).
Proof.
  intros Ej Hj Hd Eq Hkv. rewrite (seek_block k j sep h d Ej Hj Hd), Eq in Hkv.
  rewrite (split_ds j d Hd), app_assoc, lookup_app_r in Hkv by (rewrite length_app; lia).
  rewrite length_app, Nat.sub_diag in Hkv.
  destruct (entry_block j sep h Hj) as (d' & Hd' & _ & Es). assert (d' = d) as -> by congruence.
  destruct (done_kvs (drop (S j) ds)) as [|kv' rest] eqn:E; [done|]. injection Hkv as ->.
  destruct (end_key_in _ (block_nonempty j d Hd)) as (e & He & Ee).
  eapply (Hgap (end_key (db_kvs d))).
  - by eapply end_below_next.
  - rewrite Ee. apply list_elem_of_lookup in He as [i Hi].
    eapply (seek_pos_before cmp k (map fst (db_kvs d)) i); [apply lookup_lt_Some in Hi; lia|].
    by rewrite list_lookup_fmap, Hi.
  - rewrite <- Es. apply (cmp_le_ge cmp). apply (seek_pos_at cmp k (map fst idx)).
    by rewrite Ej, list_lookup_fmap, Hj.
Qed.

(** The filter's answer for the block of an index entry. *)
Lemma filter_answer k j sep h d :
  idx !! j = Some (sep, h) -> ds !! j = Some d ->
  exists b, (match t_filter t with
     | None => Some true
     | Some (p, reader) =>
         let '(handle, _, s) := BlockHandle_DecodeFrom BlockHandle_new h in
         if ok s then FilterBlock_KeyMayMatch p reader (offset_ handle) k else Some true
     end) = Some b /\
    forall kv, kv ∈ db_kvs d -> same k (fst kv) -> b = true.
Proof.
  intros Hj Hd. pose proof (op_filter _ Ht) as Hf. destruct (t_filter t) as [[p reader]|]; [|eauto].
  destruct Hf as [Hp Hf]. destruct (Hf j d Hd) as (f & Ef & Hall).
  destruct (entry_block j sep h Hj) as (d' & Hd' & -> & _). assert (d' = d) as -> by congruence.
  rewrite <- (app_nil_r (BlockHandle_EncodeTo _ [])), BlockHandle_decode by by apply done_handle_ok.
  cbn [ok Status_OK state_]. change (offset_ (done_handle ds j d)) with (done_offset ds j).
  rewrite Ef. eexists. split; [done|]. intros kv Hkv Hs. rewrite (Hmatch p Hp _ _ _ Hs).
  apply Hall, list_elem_of_fmap. by exists kv.
Qed.

Lemma InternalGet_spec k :
  exists r, InternalGet extend z t verify k = Some (Status_OK, r) /\
    (r = None \/ r = kvs !! seek_pos cmp k (map fst kvs)) /\
    forall kv, kvs !! seek_pos cmp k (map fst kvs) = Some kv -> same k (fst kv) -> r = Some kv.
Proof.
  destruct index_cursor as [CI Hnew].
  destruct (cur_seek (C:=CI) _ _ k Hnew) as (ii & Eii & Hii).
  unfold InternalGet. rewrite Eii. cbn [mbind option_bind].
  rewrite (cur_valid (CursorOn:=CI) _ _ Hii), (cur_status (CursorOn:=CI) _ _ Hii).
  set (j := seek_pos cmp k (map fst idx)) in *.
  destruct (idx !! j) as [[sep h]|] eqn:Hj.
  2:{ rewrite (proj2 (Nat.ltb_ge _ _)) by by apply lookup_ge_None in Hj.
      cbn. exists None. split; [done|]. split; [by left|]. intros kv Hkv.
      by rewrite (seek_past k Hj) in Hkv. }
  rewrite (proj2 (Nat.ltb_lt _ _)) by by apply lookup_lt_Some in Hj.
  destruct (cur_entry (CursorOn:=CI) _ _ _ Hii Hj) as [_ ->]. cbn [snd].
  destruct (entry_block j sep h Hj) as (d & Hd & _).
  destruct (filter_answer k j sep h d Hj Hd) as (b & -> & Hb). cbn [mbind option_bind].
  destruct (data_blocks sep h ltac:(by eapply list_elem_of_lookup_2)) as [CD HD].
  destruct (cur_seek (C:=CD) _ _ k HD) as (bi & Ebi & Hbi).
  pose proof (contents_of_entry j sep h d Hj Hd) as Ec. set (q := seek_pos cmp k (map fst (db_kvs d))).
  pose proof (seek_block k j sep h d eq_refl Hj Hd) as Hpos. fold q in Hpos.
  assert (q <= length (db_kvs d))%nat as Hq by (unfold q; etrans; [apply seek_pos_le|]; by rewrite length_map).
  assert ((q < length (db_kvs d))%nat -> kvs !! seek_pos cmp k (map fst kvs) = db_kvs d !! q) as Hin.
  { intros Hlt. rewrite Hpos, (split_ds j d Hd) at 1. rewrite lookup_app_r by lia.
    replace (_ + q - _)%nat with q by lia. by rewrite lookup_app_l. }
  assert ((length (db_kvs d) <= q)%nat -> forall kv, kvs !! seek_pos cmp k (map fst kvs) = Some kv ->
    ~ same k (fst kv)) as Hout.
  { intros Hge kv Hkv. eapply (gap_not_same k j sep h d); [done|done|done| |done]. fold q. lia. }
  destruct b; cbn [negb].
  - rewrite Ebi. cbn [mbind option_bind]. rewrite (cur_status (CursorOn:=CD) _ _ Hbi), (cur_valid (CursorOn:=CD) _ _ Hbi).
    rewrite Ec in Hbi |- *. fold q in Hbi |- *. cbn [ok Status_OK state_ mbind option_bind].
    eexists. split; [done|]. destruct (q <? length (db_kvs d))%nat eqn:Elt.
    + apply Nat.ltb_lt in Elt. destruct (lookup_lt_is_Some_2 (db_kvs d) q Elt) as [kv Hkv].
      rewrite Ec in CD. destruct (cur_entry (CursorOn:=CD) _ _ _ Hbi Hkv) as [-> ->].
      rewrite (Hin Elt), Hkv. rewrite <- surjective_pairing. split; [by right|]. by intros kv' [= ->].
    + apply Nat.ltb_ge in Elt. split; [by left|]. intros kv Hkv Hs. by destruct (Hout Elt kv Hkv).
  - cbn. exists None. split; [done|]. split; [by left|]. intros kv Hkv Hs. exfalso.
    destruct (decide (q < length (db_kvs d))%nat) as [Hlt|Hge].
    + rewrite (Hin Hlt) in Hkv. assert (false = true); [|done]. eapply Hb; [|exact Hs].
      by eapply list_elem_of_lookup_2.
    + by apply (Hout ltac:(lia) kv Hkv).
Qed.
End Correct.

(** ** Properties *)

(** Building a table of [kvs] in an empty file. *)
Definition build_table (extend : Z -> bytes -> Z) (z : Compression) {W : WritableFile} (o : Options)
    (f : WFile W) (kvs : list (bytes * bytes)) : Rep W * Status :=
  TableBuilder_Finish extend z (TableBuilder_AddAll extend z (TableBuilder_new o f) kvs).

Section Roundtrip.
Context (extend : Z -> bytes -> Z) `{!CrcLaws extend} (z : Compression) `{!CompressionLaws z}.
Context (W : WritableFile) (contents : WFile W -> bytes) `{!ReliableWrites W contents}.

(** What the options and the pairs must satisfy: a restart interval, sizes
    within the 32 bits of block offsets, and a filter policy that answers for
    the keys there are. *)
Record table_input (o : Options) (ok_keys : list bytes -> Prop) (kvs : list (bytes * bytes)) : Prop := {
  ti_interval : 1 <= block_restart_interval o;
  ti_sorted : sorted_keys (Compare (comparator o)) (map fst kvs);
  ti_size : pairs_size kvs + 20 * zlen kvs + 8 < 2 ^ 32;
  ti_policy : forall p, filter_policy o = Some p ->
    FilterPolicyLaws ok_keys p /\ zlen (FilterPolicy_Name p) < 2 ^ 31;
  ti_keys : forall ks, (length ks <= length kvs)%nat -> ok_keys ks
}.

Lemma build_layout o ok_keys kvs f :
  table_input o ok_keys kvs -> contents f = [] ->
  let r := build_table extend z o f kvs in
  zlen (contents (file (fst r))) < 2 ^ 32 ->
  snd r = Status_OK /\
  exists ds idx, table_layout extend z o kvs (contents (file (fst r))) ds idx.
Proof.
  intros Hin Hf r Hlen. unfold r, build_table in *.
  set (r1 := TableBuilder_AddAll extend z (TableBuilder_new o f) kvs) in *.
  assert (forall p, filter_policy o = Some p -> FilterPolicyLaws ok_keys p) as Hpol
    by (intros p Hp; by apply (ti_policy _ _ _ Hin)).
  pose proof (Flush_grows extend z W contents r1) as H1.
  pose proof (Finish_grows extend z W contents r1) as H2.
  destruct (AddAll_building extend z W contents o ok_keys Hpol (TableBuilder_new o f) [] [] kvs)
    as (ds0 & cur & Hb & E).
  { by apply building_new. } { fold r1. lia. }
  change (done_kvs [] ++ [] ++ kvs) with kvs in E. cbn in E. fold r1 in Hb.
  destruct (Finish_table extend z W contents o ok_keys Hpol r1 ds0 cur Hb) as (Hs & ds & idx & Hl); [lia|].
  rewrite E in Hl. split; [done|]. by exists ds, idx.
Qed.

(** C8: Tables give back what was put into them.  Adding any pairs in
    increasing key order to a [TableBuilder] over an empty file succeeds, for
    every comparator that keeps its contract, every block size, restart
    interval, compression and filter policy.  The file opens, with or without
    checksum verification; the table's iterator is a cursor over exactly these
    pairs, in both directions; and a lookup of a key that was added finds its
    pair, whatever the filter, while any other lookup finds the next pair or
    nothing. *)
Theorem table_roundtrip (o : Options) `{!ComparatorLaws (comparator o)} `{!Shortening (comparator o)}
    (ok_keys : list bytes -> Prop) (kvs : list (bytes * bytes)) (f : WFile W) (rf : RandomAccessFile)
    (cache_id : Z) :
  table_input o ok_keys kvs -> contents f = [] ->
  let r := build_table extend z o f kvs in
  let tbl := contents (file (fst r)) in
  zlen tbl < 2 ^ 32 -> ReliableRandomReads rf tbl ->
  snd r = Status_OK /\
  exists t, Table_Open extend z o rf (zlen tbl) cache_id = Some (Status_OK, Some t) /\
    forall verify,
      (exists pos, Cursor (Compare (comparator o)) (Table_Iterator extend z t verify) kvs pos /\
         pos (Table_NewIterator extend z t verify) (length kvs)) /\
      forall k, exists res, InternalGet extend z t verify k = Some (Status_OK, res) /\
        (res = None \/ res = kvs !! seek_pos (Compare (comparator o)) k (map fst kvs)) /\
        forall v, (k, v) ∈ kvs -> res = Some (k, v).
Proof.
  intros Hin Hf r tbl Hlen Hrf. destruct (build_layout o ok_keys kvs f Hin Hf Hlen) as (Hs & ds & idx & Hl).
  split; [done|]. fold r tbl in Hl. destruct Hin as [Hi Hsort Hsz Hpol Hok].
  destruct (Table_Open_opened extend z o Hi kvs tbl ds idx Hl Hlen rf ok_keys Hpol Hok cache_id)
    as (t & Ht & Hop).
  exists t. split; [exact Ht|]. intros verify. split.
  - eapply (table_cursor extend z o Hi kvs tbl ds idx); eassumption.
  - intros k.
    destruct (InternalGet_spec extend z o Hi kvs tbl ds idx Hl Hsort Hsz Hlen rf t Hop verify eq) with (k := k)
      as (res & E & H1 & H2).
    { intros s l x Hsl Hsx Hx ->. pose proof (separator_lt s l Hsl) as Hlt.
      apply (cmp_lt_gt (Compare (comparator o))) in Hlt. done. }
    { by intros p _ x y g ->. }
    exists res. split; [exact E|]. split; [exact H1|]. intros v Hv. apply H2; [|done].
    apply list_elem_of_lookup in Hv as [i Hi'].
    assert (seek_pos (Compare (comparator o)) k (map fst kvs) = i) as ->; [|done].
    apply seek_pos_eq.
    + rewrite length_map. apply lookup_lt_Some in Hi'. lia.
    + intros j x Hj Hx. eapply (sorted_lookup _ _ j i x k Hsort Hx); [|done].
      by rewrite list_lookup_fmap, Hi'.
    + intros x Hx. rewrite list_lookup_fmap, Hi' in Hx. injection Hx as <-.
      by rewrite (cmp_refl (Compare (comparator o))).
Qed.

(** Point lookups in a table of internal keys.  For a table of internal
    keys, a lookup of [(u, seq)] finds the newest entry of user key [u] that is
    not newer than [seq], if the table holds one: neither the shortened
    separators of the index nor a filter over user keys hides it. *)
Theorem table_internal_lookup (o : Options) (ucmp : Comparator) `{!ComparatorLaws ucmp}
    (policy : option FilterPolicy) (ok_keys : list bytes -> Prop) (kvs : list (bytes * bytes))
    (f : WFile W) (rf : RandomAccessFile) (cache_id : Z) :
  comparator o = InternalKeyComparator.make ucmp ->
  filter_policy o = InternalFilterPolicy <$> policy ->
  table_input o ok_keys kvs -> contents f = [] ->
  let tbl := contents (file (fst (build_table extend z o f kvs))) in
  zlen tbl < 2 ^ 32 -> ReliableRandomReads rf tbl ->
  exists t, Table_Open extend z o rf (zlen tbl) cache_id = Some (Status_OK, Some t) /\
    forall verify u seq, exists res,
      InternalGet extend z t verify (InternalKey u seq kValueTypeForSeek) = Some (Status_OK, res) /\
      forall kv, kvs !! seek_pos (InternalKeyComparator.Compare ucmp)
          (InternalKey u seq kValueTypeForSeek) (map fst kvs) = Some kv ->
        ExtractUserKey (fst kv) = u -> res = Some kv.
Proof.
  intros Hc Hp Hin Hf tbl Hlen Hrf. destruct (build_layout o ok_keys kvs f Hin Hf Hlen) as (_ & ds & idx & Hl).
  fold tbl in Hl. destruct Hin as [Hi Hsort Hsz Hpol Hok].
  assert (ComparatorLaws (comparator o)) as HL by (rewrite Hc; apply _).
  assert (Shortening (comparator o)) as HS by (rewrite Hc; apply _).
  destruct (Table_Open_opened extend z o Hi kvs tbl ds idx Hl Hlen rf ok_keys Hpol Hok cache_id)
    as (t & Ht & Hop).
  exists t. split; [exact Ht|]. intros verify u seq.
  destruct (InternalGet_spec extend z o Hi kvs tbl ds idx Hl Hsort Hsz Hlen rf t Hop verify
    (fun k k' => ExtractUserKey k = ExtractUserKey k')) with (k := InternalKey u seq kValueTypeForSeek)
    as (res & E & H1 & H2).
  - intros s l x Hsl Hsx Hx Hu. rewrite Hc in Hsl, Hsx, Hx.
    apply (internal_separator_gap ucmp s l x Hsl Hsx Hx). rewrite Hu. apply (cmp_refl (Compare ucmp)).
  - intros p Hp' x y g Hxy. rewrite Hp in Hp'. destruct policy as [q|]; [|done].
    injection Hp' as <-. cbn. by rewrite Hxy.
  - exists res. split; [exact E|]. intros kv Hkv Hu. apply H2.
    + rewrite Hc. exact Hkv.
    + by rewrite ExtractUserKey_InternalKey.
Qed.
End Roundtrip.

(** Six pairs in blocks of two or three, with a Bloom filter. *)
Definition sample_options : Options :=
  mkOptions BytewiseComparator true 40 2 kSnappyCompression 1 (Some (NewBloomFilterPolicy 10)).
Definition sample_table_pairs : list (bytes * bytes) :=
  [(str:"apple", str:"red"); (str:"apricot", str:"orange"); (str:"banana", str:"yellow");
   (str:"cherry", str:"dark red"); (str:"fig", str:"purple"); (str:"grape", [])].

Abbreviation sample_build :=
  (build_table Extend_ref no_compression sample_options (W:=MemWritable) [] sample_table_pairs).

Lemma sample_input : table_input sample_options bloom_ok_keys sample_table_pairs.
Proof.
  split; [cbn; lia|repeat constructor|vm_compute; reflexivity| |].
  - intros p [= <-]. split; [apply bloom_laws; lia|vm_compute; reflexivity].
  - intros ks Hks. unfold bloom_ok_keys. cbn in Hks. lia.
Qed.

Lemma table_roundtrip_witness :
  exists t, Table_Open Extend_ref no_compression sample_options
      (MemRandomAccess (file (fst sample_build))) (zlen (file (fst sample_build))) 7 =
      Some (Status_OK, Some t) /\
    InternalGet Extend_ref no_compression t true (str:"cherry") =
      Some (Status_OK, Some (str:"cherry", str:"dark red")).
Proof.
  destruct (table_roundtrip Extend_ref no_compression MemWritable (fun f => f) sample_options bloom_ok_keys
    sample_table_pairs [] (MemRandomAccess (file (fst sample_build))) 7 sample_input eq_refl
    ltac:(vm_compute; reflexivity) (mem_random_reads _)) as (_ & t & Ht & H).
  exists t. split; [exact Ht|]. destruct (H true) as [_ Hget].
  destruct (Hget (str:"cherry")) as (res & E & _ & Hres). rewrite E. do 2 f_equal.
  apply Hres. apply list_elem_of_lookup. by exists 3%nat.
Defined.

(** Two user keys, one of them with three versions. *)
Definition sample_internal_options : Options :=
  mkOptions (InternalKeyComparator.make BytewiseComparator) true 40 2 kNoCompression 1
    (Some (InternalFilterPolicy (NewBloomFilterPolicy 10))).
Definition sample_internal_pairs : list (bytes * bytes) :=
  [(InternalKey (str:"k1") 9 kTypeValue, str:"c"); (InternalKey (str:"k1") 5 kTypeDeletion, []);
   (InternalKey (str:"k1") 2 kTypeValue, str:"a"); (InternalKey (str:"k2") 4 kTypeValue, str:"b")].
Abbreviation sample_internal_build :=
  (build_table Extend_ref no_compression sample_internal_options (W:=MemWritable) [] sample_internal_pairs).

Lemma table_internal_lookup_witness :
  exists t, Table_Open Extend_ref no_compression sample_internal_options
      (MemRandomAccess (file (fst sample_internal_build))) (zlen (file (fst sample_internal_build))) 7 =
      Some (Status_OK, Some t) /\
    InternalGet Extend_ref no_compression t true (InternalKey (str:"k1") 7 kValueTypeForSeek) =
      Some (Status_OK, Some (InternalKey (str:"k1") 5 kTypeDeletion, [])).
Proof.
  destruct (table_internal_lookup Extend_ref no_compression MemWritable (fun f => f) sample_internal_options
    BytewiseComparator (Some (NewBloomFilterPolicy 10)) (fun ks => bloom_ok_keys (map ExtractUserKey ks))
    sample_internal_pairs [] (MemRandomAccess (file (fst sample_internal_build))) 7 eq_refl eq_refl)
    as (t & Ht & H).
  { split; [cbn; lia|repeat constructor|vm_compute; reflexivity| |].
    - intros p [= <-]. split; [apply internal_filter_laws, bloom_laws; lia|vm_compute; reflexivity].
    - intros ks Hks. unfold bloom_ok_keys. rewrite length_map. cbn in Hks. lia. }
  { reflexivity. } { vm_compute. reflexivity. } { apply mem_random_reads. }
  exists t. split; [exact Ht|]. destruct (H true (str:"k1") 7) as (res & E & Hres). rewrite E.
  rewrite (Hres (InternalKey (str:"k1") 5 kTypeDeletion, [])); [reflexivity|vm_compute; reflexivity|vm_compute; reflexivity].
Defined.
