(* ===== verification/BlockCache.v ===== *)
(** * Reading blocks through the block cache

    src/table/table.cc: [Table::BlockReader] and [Table::InternalGet] with a
    block cache, and the cleanup functions that the iterators run when they are
    deleted (src/table/iterator.cc).

    Table.v reads every block from the file.  Here the blocks of any number of
    tables share a cache that keeps the contract [CacheLaws], under keys made of a
    table's cache id and a block's offset.  The theorem compares the two: an
    iterator over a block is the same with the cache and without it, and its block
    stays in memory as long as the iterator exists. *)

From stdpp Require Import gmap sets.
From S2P Require Import Prelude Slice Coding Crc32c Comparator DbFormat Hash Cache LogFormat Iterator BlockBuilder Block TwoLevelIterator Format FilterBlock TableBuilder Table.

Section Operations.
Context (extend : Z -> bytes -> Z) (z : Compression) (C : CacheOps Block).

(** [DeleteBlock] and [ReleaseBlock], the cleanup functions of a block's iterator *)
Inductive BlockCleanup := DeleteBlock | ReleaseBlock (h : CHandle C).
Definition run_cleanup (cache : CState C) (c : BlockCleanup) : CState C :=
  match c with DeleteBlock => cache | ReleaseBlock h => cache_Release C cache h end.

(** The key of a block. *)
Definition block_key (t : Table) (offset : Z) : bytes := EncodeFixed64 (t_cache_id t) ++ EncodeFixed64 offset.

(** [Table::BlockReader] with a block cache; [verify_checksums] and [fill_cache]
    are the read options. *)
Definition BlockReader_cached (t : Table) (verify_checksums fill_cache : bool) (block_cache : CState C) (index_value : bytes)
    : option (CState C * IState (DataOps t) * list BlockCleanup) :=
  let '(handle, _, s) := BlockHandle_DecodeFrom BlockHandle_new index_value in
  if negb (ok s) then Some (block_cache, error_iterator t s, [])
  else
    let key := block_key t (offset_ handle) in
    match cache_Lookup C block_cache key with
    | (block_cache, Some cache_handle) =>
        block ← cache_Value C block_cache cache_handle;
        Some (block_cache, data_iterator t block, RegisterCleanup [] (ReleaseBlock cache_handle))
    | (block_cache, None) =>
        let '(contents, s) := ReadBlock extend z (t_file t) verify_checksums handle in
        if ok s then
          let block := Block_new (bc_data contents) in
          if cachable contents && fill_cache then
            let '(block_cache, cache_handle) := cache_Insert C block_cache key block (Block.block_size block) in
            Some (block_cache, data_iterator t block, RegisterCleanup [] (ReleaseBlock cache_handle))
          else Some (block_cache, data_iterator t block, RegisterCleanup [] DeleteBlock)
        else Some (block_cache, error_iterator t s, [])
    end.

(** [Table::InternalGet] with a block cache *)
Definition InternalGet_cached (t : Table) (verify_checksums fill_cache : bool) (block_cache : CState C) (k : bytes)
    : option (CState C * Status * option (bytes * bytes)) :=
  iiter ← it_Seek (IndexOps t) (Block_NewIterator (t_index_block t)) k;
  '(block_cache, s, result) ←
    (if it_Valid (IndexOps t) iiter then
       let handle_value := it_value (IndexOps t) iiter in
       may_match ← (match t_filter t with
         | None => Some true
         | Some (p, reader) =>
             let '(handle, _, s) := BlockHandle_DecodeFrom BlockHandle_new handle_value in
             if ok s then FilterBlock_KeyMayMatch p reader (offset_ handle) k else Some true
         end);
       if negb may_match then Some (block_cache, Status_OK, None)
       else
         '(block_cache, block_iter, cleanups) ← BlockReader_cached t verify_checksums fill_cache block_cache handle_value;
         block_iter ← it_Seek (DataOps t) block_iter k;
         Some (Iterator_delete run_cleanup block_cache cleanups, it_status (DataOps t) block_iter,
               if it_Valid (DataOps t) block_iter
               then Some (it_key (DataOps t) block_iter, it_value (DataOps t) block_iter) else None)
     else Some (block_cache, Status_OK, None));
  Some (block_cache, if ok s then it_status (IndexOps t) iiter else s, result).

(** What clients do with the cache: read a block, look a key up, delete an
    iterator. *)
Inductive BlockOp :=
  | ReadOp (t : Table) (verify_checksums fill_cache : bool) (index_value : bytes)
  | GetOp (t : Table) (verify_checksums fill_cache : bool) (k : bytes)
  | DeleteOp (i : nat).

(** The answers. *)
Inductive BlockAnswer :=
  | Iter (t : Table) (it : IState (DataOps t))
  | Found (s : Status) (result : option (bytes * bytes))
  | Done.

(** The iterators that exist, with the blocks they read and their cleanups. *)
Abbreviation Live := (list (Block * list BlockCleanup)).

Definition run_op (cache : CState C) (live : Live) (op : BlockOp) : option (CState C * Live * BlockAnswer) :=
  match op with
  | ReadOp t verify fill iv =>
      '(cache, it, cleanups) ← BlockReader_cached t verify fill cache iv;
      Some (cache, (projT1 it, cleanups) :: live, Iter t it)
  | GetOp t verify fill k => '(cache, s, result) ← InternalGet_cached t verify fill cache k; Some (cache, live, Found s result)
  | DeleteOp i =>
      match live !! i with
      | Some (_, cleanups) => Some (Iterator_delete run_cleanup cache cleanups, delete i live, Done)
      | None => Some (cache, live, Done)
      end
  end.
Fixpoint run_ops (cache : CState C) (live : Live) (ops : list BlockOp) : option (CState C * Live * list BlockAnswer) :=
  match ops with
  | [] => Some (cache, live, [])
  | op :: ops =>
      '(cache, live, a) ← run_op cache live op;
      '(cache, live, answers) ← run_ops cache live ops;
      Some (cache, live, a :: answers)
  end.

(** The answers without a cache. *)
Definition plain_answer (op : BlockOp) : option BlockAnswer :=
  match op with
  | ReadOp t verify _ iv => Some (Iter t (BlockReader extend z t verify iv))
  | GetOp t verify _ k => '(s, result) ← InternalGet extend z t verify k; Some (Found s result)
  | DeleteOp _ => Some Done
  end.
End Operations.
Arguments DeleteBlock {C}.
Arguments ReleaseBlock {C}.

(** ** Tables that can be read *)

Section Steady.
Context (extend : Z -> bytes -> Z) (z : Compression).

(** The blocks of a table: index values with the offset and the contents of the
    block.  Reading one succeeds, with checksums and without, and what a seek in
    the index finds is one of them. *)
Record steady (t : Table) (blocks : list (bytes * (Z * bytes))) : Prop := {
  sd_id : 0 <= t_cache_id t < 2 ^ 64;
  sd_read : forall iv off data, (iv, (off, data)) ∈ blocks ->
    exists handle rest, BlockHandle_DecodeFrom BlockHandle_new iv = (handle, rest, Status_OK) /\ offset_ handle = off /\ 0 <= off < 2 ^ 64 /\
      forall verify, exists c1 c2, ReadBlock extend z (t_file t) verify handle = (mkContents data c1 c2, Status_OK);
  sd_size : forall iv off data, (iv, (off, data)) ∈ blocks -> 1 <= Block.block_size (Block_new data) < 2 ^ 32;
  sd_offset : forall iv iv' off data data', (iv, (off, data)) ∈ blocks -> (iv', (off, data')) ∈ blocks -> data = data';
  sd_index : forall k iter, it_Seek (IndexOps t) (Block_NewIterator (t_index_block t)) k = Some iter -> it_Valid (IndexOps t) iter = true ->
    it_value (IndexOps t) iter ∈ map fst blocks }.

Lemma steady_reader t blocks iv off data verify : steady t blocks -> (iv, (off, data)) ∈ blocks ->
  BlockReader extend z t verify iv = data_iterator t (Block_new data).
Proof.
  intros Hs Hb. destruct (sd_read _ _ Hs iv off data Hb) as (h & rest & E & _ & _ & Hr). destruct (Hr verify) as (c1 & c2 & Ec).
  unfold BlockReader. rewrite E. cbn [ok Status_OK state_ negb]. by rewrite Ec.
Qed.
End Steady.

(** A table that was built and opened can be read. *)
Section Built.
Context (extend : Z -> bytes -> Z) `{!CrcLaws extend} (z : Compression) `{!CompressionLaws z}.
Context (o : Options) `{!ComparatorLaws (comparator o)} `{!Shortening (comparator o)}.
Context (kvs : list (bytes * bytes)) (tbl : bytes) (ds : list DoneBlock) (idx : list (bytes * bytes)).
Context (Hlayout : table_layout extend z o kvs tbl ds idx) (Hinterval : 1 <= block_restart_interval o).
Context (Hsorted : sorted_keys (Compare (comparator o)) (map fst kvs)) (Hkvs : pairs_size kvs + 20 * zlen kvs + 8 < 2 ^ 32) (Htbl : zlen tbl < 2 ^ 32).
Context (file : RandomAccessFile) `{!ReliableRandomReads file tbl} (t : Table) (Ht : opened extend o ds idx file t).

Definition built_blocks : list (bytes * (Z * bytes)) :=
  imap (fun j d => (default [] (snd <$> idx !! j), (done_offset extend ds j, build_block (block_restart_interval o) (db_kvs d)))) ds.

Lemma built_blocks_elem iv off data : (iv, (off, data)) ∈ built_blocks ->
  exists j sep d, idx !! j = Some (sep, iv) /\ ds !! j = Some d /\ off = done_offset extend ds j /\ data = build_block (block_restart_interval o) (db_kvs d).
Proof using Hlayout.
  intros (j & d & E & Hd)%elem_of_lookup_imap. destruct (lookup_lt_is_Some_2 idx j) as [[sep h] Hj].
  { rewrite (tl_length _ _ _ _ _ _ _ Hlayout). by eapply lookup_lt_Some. }
  rewrite Hj in E. cbn in E. injection E as -> -> ->. by exists j, sep, d.
Qed.

Lemma built_steady : 0 <= t_cache_id t < 2 ^ 64 -> steady extend z t built_blocks.
Proof using All.
  intros Hid. split; [done|..].
  - intros iv off data (j & sep & d & Hj & Hd & -> & ->)%built_blocks_elem.
    destruct (index_block_read extend z o kvs tbl ds idx Hlayout Htbl file t Ht j sep iv d Hj Hd) as (h & rest & E & Hh & -> & Hr).
    exists (done_handle extend ds j d), rest. split; [done|]. split; [done|]. split; [|done]. destruct Hh as [Hh _]. exact Hh.
  - intros iv off data (j & sep & d & Hj & Hd & -> & ->)%built_blocks_elem. apply built_block_size; [done|]. by eapply block_size_le.
  - intros iv iv' off data data' (j & sep & d & _ & Hd & -> & ->)%built_blocks_elem (j' & sep' & d' & _ & Hd' & E & ->)%built_blocks_elem.
    destruct (Nat.lt_total j j') as [H|[<-|H]]; [| |].
    + pose proof (done_offset_lt extend kvs tbl ds j j' d' H Hd'). lia.
    + by replace d' with d by congruence.
    + pose proof (done_offset_lt extend kvs tbl ds j' j d H Hd). lia.
  - intros k iter Es Ev. destruct (index_cursor extend z o kvs tbl ds idx Hlayout Hsorted Hkvs Htbl file t Ht) as [CI Hnew].
    destruct (cur_seek (C:=CI) _ _ k Hnew) as (it & E & Hit). rewrite E in Es. injection Es as <-.
    rewrite (cur_valid (CursorOn:=CI) _ _ Hit) in Ev. apply Nat.ltb_lt in Ev. destruct (lookup_lt_is_Some_2 idx _ Ev) as [[sep h] Hj].
    destruct (cur_entry (CursorOn:=CI) _ _ _ Hit Hj) as [_ ->]. cbn [snd]. set (j := seek_pos _ _ _) in *.
    destruct (lookup_lt_is_Some_2 ds j) as [d Hd]; [by rewrite <- (tl_length _ _ _ _ _ _ _ Hlayout)|].
    apply list_elem_of_fmap. exists (h, (done_offset extend ds j, build_block (block_restart_interval o) (db_kvs d))). split; [done|].
    apply elem_of_lookup_imap. exists j, d. by rewrite Hj.
Qed.
End Built.

(** ** The cache is not noticed *)

Section Transparent.
Context (extend : Z -> bytes -> Z) (z : Compression) (C : CacheOps Block) (limit : Z)
  (rep : CState C -> (bytes -> option Block) -> list (CHandle C * Block) -> Prop) `{!CacheLaws C limit rep}.
(** The tables that share the cache have different ids. *)
Context (tables : list (Table * list (bytes * (Z * bytes)))).
Context (Hsteady : forall t blocks, (t, blocks) ∈ tables -> steady extend z t blocks).
Context (Hids : forall t t' blocks blocks', (t, blocks) ∈ tables -> (t', blocks') ∈ tables -> t_cache_id t = t_cache_id t' -> (t, blocks) = (t', blocks')).

(** The cache holds blocks of the tables under their keys. *)
Definition coherent (m : bytes -> option Block) : Prop :=
  forall t blocks iv off data b, (t, blocks) ∈ tables -> (iv, (off, data)) ∈ blocks -> m (block_key t off) = Some b -> b = Block_new data.

Lemma block_key_inj t t' off off' : 0 <= t_cache_id t < 2 ^ 64 -> 0 <= t_cache_id t' < 2 ^ 64 -> 0 <= off < 2 ^ 64 -> 0 <= off' < 2 ^ 64 ->
  block_key t off = block_key t' off' -> t_cache_id t = t_cache_id t' /\ off = off'.
Proof using Type.
  intros H1 H2 H3 H4 E. apply app_inj_1 in E as [E1 E2]; [|by rewrite !length_EncodeFixed64].
  split; [rewrite <- (Fixed64_roundtrip (t_cache_id t) [] H1), <- (Fixed64_roundtrip (t_cache_id t') [] H2); by rewrite E1|].
  rewrite <- (Fixed64_roundtrip off [] H3), <- (Fixed64_roundtrip off' [] H4). by rewrite E2.
Qed.

(** The handles that an iterator's cleanups will release. *)
Definition live_handles (p : Block * list (BlockCleanup C)) : list (CHandle C * Block) :=
  omap (fun c => match c with ReleaseBlock h => Some (h, fst p) | DeleteBlock => None end) (snd p).

Lemma BlockReader_cached_spec t blocks iv verify fill cache m hs :
  (t, blocks) ∈ tables -> iv ∈ map fst blocks -> rep cache m hs -> coherent m -> zlen hs < limit ->
  exists cache' m' cls b, BlockReader_cached extend z C t verify fill cache iv = Some (cache', BlockReader extend z t verify iv, cls) /\
    BlockReader extend z t verify iv = data_iterator t b /\ rep cache' m' (live_handles (b, cls) ++ hs) /\ coherent m' /\ (length cls <= 1)%nat.
Proof using All.
  intros Ht Hiv Hr Hm Hl. pose proof (Hsteady t blocks Ht) as Hs. apply list_elem_of_fmap in Hiv as ([iv' [off data]] & -> & Hb). cbn [fst].
  destruct (sd_read _ _ _ _ Hs _ _ _ Hb) as (h & rest & E & Eo & Hoff & Hread). destruct (Hread verify) as (c1 & c2 & Ec).
  rewrite (steady_reader extend z t blocks iv' off data verify Hs Hb). unfold BlockReader_cached. rewrite E. cbn [ok Status_OK state_ negb]. rewrite Eo.
  pose proof (cache_lookup cache m hs (block_key t off) Hr) as HL. destruct (cache_Lookup C cache (block_key t off)) as [cache1 [ch|]].
  - destruct HL as (v & Hv & Hr1). rewrite (Hm _ _ _ _ _ _ Ht Hb Hv) in *. rewrite (cache_value cache1 m _ ch _ Hr1) by (by left). cbn [mbind option_bind].
    exists cache1, m, [ReleaseBlock ch], (Block_new data). auto.
  - destruct HL as [_ Hr1]. rewrite Ec. cbn [ok Status_OK state_ bc_data cachable]. destruct (c1 && fill).
    + pose proof (cache_insert cache1 m hs (block_key t off) (Block_new data) (Block.block_size (Block_new data)) Hr1 (sd_size _ _ _ _ Hs _ _ _ Hb) Hl) as HI.
      destruct (cache_Insert C cache1 (block_key t off) (Block_new data) (Block.block_size (Block_new data))) as [cache2 ch]. destruct HI as (m' & Hr2 & Hm').
      exists cache2, m', [ReleaseBlock ch], (Block_new data). split; [done|]. split; [done|]. split; [done|]. split; [|done].
      intros t1 bl1 iv1 off1 data1 b Ht1 Hb1 Hv. destruct (Hm' _ _ Hv) as [[Ek ->]|[_ Hv']]; [|by eapply Hm].
      pose proof (Hsteady _ _ Ht1) as Hs1. destruct (sd_read _ _ _ _ Hs1 _ _ _ Hb1) as (_ & _ & _ & _ & Hoff1 & _).
      apply block_key_inj in Ek as [Ei ->]; [|apply Hs1|apply Hs|done|done].
      injection (Hids _ _ _ _ Ht1 Ht Ei) as -> ->. by rewrite (sd_offset _ _ _ _ Hs _ _ _ _ _ Hb1 Hb).
    + exists cache1, m, [DeleteBlock], (Block_new data). auto.
Qed.

Lemma cleanups_spec b cls : forall cache m hs hs', rep cache m hs -> hs ≡ₚ live_handles (b, cls) ++ hs' ->
  exists hs2, rep (Iterator_delete (run_cleanup C) cache cls) m hs2 /\ hs2 ≡ₚ hs'.
Proof using All.
  induction cls as [|c cls IH]; intros cache m hs hs' Hr Hp; [by exists hs|]. unfold Iterator_delete in *. cbn [fold_left].
  destruct c as [|h]; cbn [run_cleanup]; [by apply (IH cache m hs)|].
  change (live_handles (b, ReleaseBlock h :: cls)) with ((h, b) :: live_handles (b, cls)) in Hp.
  apply (IH (cache_Release C cache h) m (live_handles (b, cls) ++ hs')); [|done]. by eapply cache_release.
Qed.

(** The state of the clients: room for [n] more iterators. *)
Definition clients_ok (n : nat) (cache : CState C) (live : list (Block * list (BlockCleanup C))) : Prop :=
  exists m hs, rep cache m hs /\ coherent m /\ hs ≡ₚ concat (map live_handles live) /\ zlen hs + Z.of_nat n <= limit.

Lemma InternalGet_cached_spec t blocks verify fill k n cache live : (t, blocks) ∈ tables -> clients_ok (S n) cache live ->
  match InternalGet extend z t verify k with
  | None => InternalGet_cached extend z C t verify fill cache k = None
  | Some (s, result) => exists cache', InternalGet_cached extend z C t verify fill cache k = Some (cache', s, result) /\ clients_ok n cache' live
  end.
Proof using All.
  intros Ht (m & hs & Hr & Hm & Hp & Hl). unfold InternalGet, InternalGet_cached.
  assert (clients_ok n cache live) as Hsame by (exists m, hs; repeat (split; [done|]); lia).
  destruct (it_Seek (IndexOps t) (Block_NewIterator (t_index_block t)) k) as [iiter|] eqn:Ei; cbn [mbind option_bind]; [|done].
  destruct (it_Valid (IndexOps t) iiter) eqn:Ev; cbn [mbind option_bind]; [|by exists cache].
  pose proof (sd_index _ _ _ _ (Hsteady t blocks Ht) k iiter Ei Ev) as Hiv. set (iv := it_value (IndexOps t) iiter) in *.
  destruct (match t_filter t with None => Some true | Some _ => _ end) as [[|]|]; cbn [mbind option_bind negb]; [|by exists cache|done].
  destruct (BlockReader_cached_spec t blocks iv verify fill cache m hs Ht Hiv Hr Hm ltac:(lia)) as (cache1 & m' & cls & b & -> & _ & Hr1 & Hm1 & _). cbn [mbind option_bind].
  destruct (it_Seek (DataOps t) (BlockReader extend z t verify iv) k) as [bi|]; cbn [mbind option_bind]; [|done].
  destruct (cleanups_spec b cls cache1 m' _ hs Hr1 ltac:(done)) as (hs2 & Hr2 & Hp2).
  eexists. split; [done|]. exists m', hs2. split; [done|]. split; [done|]. split; [by rewrite Hp2|]. apply Permutation_length in Hp2. lia.
Qed.

(** What the clients may ask for. *)
Definition op_ok (op : BlockOp) : Prop :=
  match op with
  | ReadOp t _ _ iv => exists blocks, (t, blocks) ∈ tables /\ iv ∈ map fst blocks
  | GetOp t _ _ _ => exists blocks, (t, blocks) ∈ tables
  | DeleteOp _ => True
  end.

Lemma run_op_spec n cache live op : op_ok op -> clients_ok (S n) cache live ->
  match plain_answer extend z op with
  | None => run_op extend z C cache live op = None
  | Some a => exists cache' live', run_op extend z C cache live op = Some (cache', live', a) /\ clients_ok n cache' live'
  end.
Proof using All.
  intros Hop Hc. destruct op as [t verify fill iv|t verify fill k|i]; cbn [plain_answer run_op op_ok] in *.
  - destruct Hop as (blocks & Ht & Hiv), Hc as (m & hs & Hr & Hm & Hp & Hl).
    destruct (BlockReader_cached_spec t blocks iv verify fill cache m hs Ht Hiv Hr Hm ltac:(lia)) as (cache1 & m' & cls & b & -> & Eb & Hr1 & Hm1 & Hcls). cbn [mbind option_bind].
    eexists _, _. split; [done|]. rewrite Eb. cbn [data_iterator projT1]. exists m', (live_handles (b, cls) ++ hs). split; [done|]. split; [done|].
    split; [cbn [map concat]; by rewrite Hp|]. rewrite length_app. assert (length (live_handles (b, cls)) <= 1)%nat; [|lia].
    destruct cls as [|c [|]]; [cbn; lia|destruct c; cbn; lia|cbn in Hcls; lia].
  - destruct Hop as (blocks & Ht). pose proof (InternalGet_cached_spec t blocks verify fill k n cache live Ht Hc) as H.
    destruct (InternalGet extend z t verify k) as [[s result]|]; cbn [mbind option_bind]; [|by rewrite H].
    destruct H as (cache' & -> & Hc'). cbn [mbind option_bind]. by eexists _, _.
  - destruct Hc as (m & hs & Hr & Hm & Hp & Hl). destruct (live !! i) as [[b cls]|] eqn:Ei; (eexists _, _; split; [done|]).
    2:{ exists m, hs. repeat (split; [done|]). lia. }
    pose proof (delete_Permutation live i (b, cls) Ei) as Hd.
    assert (hs ≡ₚ live_handles (b, cls) ++ concat (map live_handles (delete i live))) as Hp1 by (rewrite Hp, Hd at 1; done).
    destruct (cleanups_spec b cls cache m hs _ Hr Hp1) as (hs2 & Hr2 & Hp2). exists m, hs2. split; [done|]. split; [done|]. split; [done|].
    apply Permutation_length in Hp2, Hp1. rewrite length_app in Hp1. lia.
Qed.

Lemma run_ops_spec ops : forall cache live, Forall op_ok ops -> clients_ok (length ops) cache live ->
  match mapM (plain_answer extend z) ops with
  | None => run_ops extend z C cache live ops = None
  | Some answers => exists cache' live', run_ops extend z C cache live ops = Some (cache', live', answers) /\ clients_ok 0 cache' live'
  end.
Proof using All.
  induction ops as [|op ops IH]; intros cache live Hops Hc; cbn [mapM run_ops]; [by exists cache, live|].
  apply list.Forall_cons in Hops as [Hop Hops]. pose proof (run_op_spec (length ops) cache live op Hop Hc) as H.
  destruct (plain_answer extend z op) as [a|]; cbn [mbind option_bind]; [|by rewrite H].
  destruct H as (cache1 & live1 & -> & Hc1). cbn [mbind option_bind]. specialize (IH cache1 live1 Hops Hc1).
  destruct (mapM (plain_answer extend z) ops) as [answers|]; cbn [mbind option_bind]; [|by rewrite IH].
  destruct IH as (cache' & live' & -> & Hc'). cbn [mbind option_bind]. by exists cache', live'.
Qed.
End Transparent.

(** ** Properties *)

(** C26: the block cache changes nothing but speed.  Any number of tables that can
    be read, each with its own cache id, share a cache that keeps its contract.
    Whatever sequence of block reads, lookups and deletions of iterators the
    clients run, with any read options, each answer is the one that reading from
    the file gives; and as long as an iterator over a cached block exists, the
    cache still has exactly that block for it, so nothing is used after it was
    freed. *)
Theorem block_cache_transparent (extend : Z -> bytes -> Z) (z : Compression) (C : CacheOps Block) (limit : Z) rep
    (tables : list (Table * list (bytes * (Z * bytes)))) (cache : CState C) (ops : list BlockOp) :
  CacheLaws C limit rep ->
  (forall t blocks, (t, blocks) ∈ tables -> steady extend z t blocks) ->
  (forall t t' blocks blocks', (t, blocks) ∈ tables -> (t', blocks') ∈ tables -> t_cache_id t = t_cache_id t' -> (t, blocks) = (t', blocks')) ->
  rep cache (fun _ => None) [] -> Forall (op_ok tables) ops -> zlen ops <= limit ->
  match mapM (plain_answer extend z) ops with
  | None => run_ops extend z C cache [] ops = None
  | Some answers => exists cache' live', run_ops extend z C cache [] ops = Some (cache', live', answers) /\
      forall b cleanups h, (b, cleanups) ∈ live' -> ReleaseBlock h ∈ cleanups -> cache_Value C cache' h = Some b
  end.
Proof.
  intros HC Hsteady Hids Hrep Hops Hlen.
  assert (clients_ok C limit rep tables (length ops) cache []) as Hc.
  { exists (fun _ => None), []. split; [done|]. split; [|split; [done|cbn; lia]]. intros t blocks iv off data b _ _ H. discriminate H. }
  pose proof (run_ops_spec extend z C limit rep tables Hsteady Hids ops cache [] Hops Hc) as H.
  destruct (mapM (plain_answer extend z) ops) as [answers|]; [|done]. destruct H as (cache' & live' & Er & m & hs & Hr & _ & Hp & _).
  exists cache', live'. split; [done|]. intros b cls h Hb Hh. apply (cache_value cache' m hs h b Hr). rewrite Hp.
  apply list_elem_of_In, in_concat. exists (live_handles C (b, cls)). split; apply list_elem_of_In.
  - apply list_elem_of_fmap. by exists (b, cls).
  - apply list_elem_of_omap. by exists (ReleaseBlock h).
Qed.

(** The table of [sample_table_pairs], opened with the cache id 7. *)
Definition sample_opened : Table :=
  match Table_Open Extend_ref no_compression sample_options (MemRandomAccess (file (fst sample_build))) (zlen (file (fst sample_build))) 7 with
  | Some (_, Some t) => t
  | _ => mkTable sample_options (MemRandomAccess []) 0 None BlockHandle_new (Block_new [])
  end.

Lemma sample_opened_id : 0 <= t_cache_id sample_opened < 2 ^ 64.
Proof. assert (t_cache_id sample_opened = 7) as -> by (vm_compute; reflexivity). lia. Qed.

Lemma sample_opened_steady : exists blocks, steady Extend_ref no_compression sample_opened blocks.
Proof.
  destruct sample_input as [Hi Hs Hsz Hpol Hok]. assert (zlen (file (fst sample_build)) < 2 ^ 32) as Hlen by (vm_compute; reflexivity).
  destruct (build_layout Extend_ref no_compression MemWritable (fun f => f) sample_options bloom_ok_keys sample_table_pairs [] sample_input eq_refl Hlen) as (_ & ds & idx & Hl).
  destruct (Table_Open_opened Extend_ref no_compression sample_options Hi sample_table_pairs _ ds idx Hl Hlen (MemRandomAccess (file (fst sample_build))) bloom_ok_keys Hpol Hok 7)
    as (t & Et & Ht).
  assert (sample_opened = t) as Eo by (unfold sample_opened; by rewrite Et).
  exists (built_blocks Extend_ref sample_options ds idx). rewrite Eo.
  apply (built_steady Extend_ref no_compression sample_options sample_table_pairs _ ds idx Hl Hi Hs Hsz Hlen (MemRandomAccess (file (fst sample_build))) t Ht).
  rewrite <- Eo. exact sample_opened_id.
Qed.

Lemma one_table_steady extend z t blocks : steady extend z t blocks -> forall t' blocks', (t', blocks') ∈ [(t, blocks)] -> steady extend z t' blocks'.
Proof. intros H t' bl Ht. by apply list_elem_of_singleton in Ht as [= -> ->]. Qed.

Lemma one_table_ids (p : Table * list (bytes * (Z * bytes))) t t' blocks blocks' :
  (t, blocks) ∈ [p] -> (t', blocks') ∈ [p] -> t_cache_id t = t_cache_id t' -> (t, blocks) = (t', blocks').
Proof. intros Ht Ht' _. apply list_elem_of_singleton in Ht as ->. by apply list_elem_of_singleton in Ht' as ->. Qed.

Lemma one_table_op t blocks verify fill k : op_ok [(t, blocks)] (GetOp t verify fill k).
Proof. exists blocks. by apply list_elem_of_singleton. Qed.

Lemma block_cache_transparent_witness :
  exists cache' live', run_ops Extend_ref no_compression NewLRUCache (SharedLRUCache_new 990) []
    [GetOp sample_opened true true (str:"cherry"); GetOp sample_opened false true (str:"cherry")] =
    Some (cache', live', [Found Status_OK (Some (str:"cherry", str:"dark red")); Found Status_OK (Some (str:"cherry", str:"dark red"))]).
Proof.
  destruct sample_opened_steady as [blocks Hs]. assert (1000 < 2 ^ 31 - 1) as Hlim by lia.
  pose proof (block_cache_transparent Extend_ref no_compression NewLRUCache 1000 (shared_rep 1000) [(sample_opened, blocks)] (SharedLRUCache_new 990)
    [GetOp sample_opened true true (str:"cherry"); GetOp sample_opened false true (str:"cherry")] (shared_cache_laws 1000 Hlim)) as H.
  assert (mapM (plain_answer Extend_ref no_compression) [GetOp sample_opened true true (str:"cherry"); GetOp sample_opened false true (str:"cherry")] =
    Some [Found Status_OK (Some (str:"cherry", str:"dark red")); Found Status_OK (Some (str:"cherry", str:"dark red"))]) as Em by (vm_compute; reflexivity).
  rewrite Em in H. destruct H as (cache' & live' & Er & _).
  - apply one_table_steady. exact Hs.
  - apply one_table_ids.
  - apply shared_new_rep; [exact Hlim|lia].
  - apply list.Forall_cons. split; [apply one_table_op|]. apply Forall_singleton. apply one_table_op.
  - cbn. lia.
  - exists cache', live'. exact Er.
Defined.
