(* ===== verification/VersionEdit.v ===== *)
(** * Version edits

    src/db/version_edit.h and src/db/version_edit.cc: the record of a change to
    the set of table files, as the MANIFEST stores it.

    [Clear], and with it the constructor and [DecodeFrom], resets
    [has_last_sequence_] twice and never [has_next_file_number_]: a fresh edit
    has whatever value the memory had.  The model keeps the flag, and the
    round trip says exactly what it does to a decoded edit. *)

From stdpp Require Import sets sorting.
From S2P Require Import Prelude Slice Coding DbFormat.

(** [struct FileMetaData] *)
Record FileMetaData := mkFile {
  refs : Z; allowed_seeks : Z; number : Z; file_size : Z; smallest : bytes; largest : bytes }.

(** [FileMetaData()] with the fields [AddFile] and [DecodeFrom] fill in. *)
Definition FileMetaData_new (number file_size : Z) (smallest largest : bytes) : FileMetaData :=
  mkFile 0 (Z.shiftl 1 30) number file_size smallest largest.

(** [class VersionEdit]; [deleted_files_] is a [std::set] and is kept in the
    order in which it is traversed. *)
Record VersionEdit := mkEdit {
  comparator_ : bytes; log_number_ : Z; prev_log_number_ : Z; next_file_number_ : Z; last_sequence_ : Z;
  has_comparator_ : bool; has_log_number_ : bool; has_prev_log_number_ : bool;
  has_next_file_number_ : bool; has_last_sequence_ : bool;
  compact_pointers_ : list (Z * bytes);
  deleted_files_ : list (Z * Z);
  new_files_ : list (Z * FileMetaData) }.

(** [VersionEdit::Clear] *)
Definition Clear (e : VersionEdit) : VersionEdit :=
  mkEdit [] 0 0 0 0 false false false (has_next_file_number_ e) false [] [] [].

(** [VersionEdit::VersionEdit] over memory that holds [garbage] in
    [has_next_file_number_]. *)
Definition VersionEdit_new (garbage : bool) : VersionEdit :=
  Clear (mkEdit [] 0 0 0 0 false false false garbage false [] [] []).

(** The setters. *)
Definition SetComparatorName (e : VersionEdit) (name : bytes) : VersionEdit :=
  mkEdit name (log_number_ e) (prev_log_number_ e) (next_file_number_ e) (last_sequence_ e)
    true (has_log_number_ e) (has_prev_log_number_ e) (has_next_file_number_ e) (has_last_sequence_ e)
    (compact_pointers_ e) (deleted_files_ e) (new_files_ e).
Definition SetLogNumber (e : VersionEdit) (num : Z) : VersionEdit :=
  mkEdit (comparator_ e) num (prev_log_number_ e) (next_file_number_ e) (last_sequence_ e)
    (has_comparator_ e) true (has_prev_log_number_ e) (has_next_file_number_ e) (has_last_sequence_ e)
    (compact_pointers_ e) (deleted_files_ e) (new_files_ e).
Definition SetPrevLogNumber (e : VersionEdit) (num : Z) : VersionEdit :=
  mkEdit (comparator_ e) (log_number_ e) num (next_file_number_ e) (last_sequence_ e)
    (has_comparator_ e) (has_log_number_ e) true (has_next_file_number_ e) (has_last_sequence_ e)
    (compact_pointers_ e) (deleted_files_ e) (new_files_ e).
Definition SetNextFile (e : VersionEdit) (num : Z) : VersionEdit :=
  mkEdit (comparator_ e) (log_number_ e) (prev_log_number_ e) num (last_sequence_ e)
    (has_comparator_ e) (has_log_number_ e) (has_prev_log_number_ e) true (has_last_sequence_ e)
    (compact_pointers_ e) (deleted_files_ e) (new_files_ e).
Definition SetLastSequence (e : VersionEdit) (seq : Z) : VersionEdit :=
  mkEdit (comparator_ e) (log_number_ e) (prev_log_number_ e) (next_file_number_ e) seq
    (has_comparator_ e) (has_log_number_ e) (has_prev_log_number_ e) (has_next_file_number_ e) true
    (compact_pointers_ e) (deleted_files_ e) (new_files_ e).
Definition SetCompectorPointer (e : VersionEdit) (level : Z) (key : bytes) : VersionEdit :=
  mkEdit (comparator_ e) (log_number_ e) (prev_log_number_ e) (next_file_number_ e) (last_sequence_ e)
    (has_comparator_ e) (has_log_number_ e) (has_prev_log_number_ e) (has_next_file_number_ e)
    (has_last_sequence_ e) (compact_pointers_ e ++ [(level, key)]) (deleted_files_ e) (new_files_ e).
Definition push_new_file (e : VersionEdit) (level : Z) (f : FileMetaData) : VersionEdit :=
  mkEdit (comparator_ e) (log_number_ e) (prev_log_number_ e) (next_file_number_ e) (last_sequence_ e)
    (has_comparator_ e) (has_log_number_ e) (has_prev_log_number_ e) (has_next_file_number_ e)
    (has_last_sequence_ e) (compact_pointers_ e) (deleted_files_ e) (new_files_ e ++ [(level, f)]).
Definition AddFile (e : VersionEdit) (level file file_size : Z) (smallest largest : bytes) : VersionEdit :=
  push_new_file e level (FileMetaData_new file file_size smallest largest).

(** [std::pair]'s order and [std::set::insert]. *)
Definition pair_compare (a b : Z * Z) : comparison :=
  match fst a ?= fst b with Eq => snd a ?= snd b | r => r end.

Fixpoint set_insert (x : Z * Z) (l : list (Z * Z)) : list (Z * Z) :=
  match l with
  | [] => [x]
  | y :: l' =>
      match pair_compare x y with Lt => x :: l | Eq => l | Gt => y :: set_insert x l' end
  end.

Definition RemoveFile (e : VersionEdit) (level file : Z) : VersionEdit :=
  mkEdit (comparator_ e) (log_number_ e) (prev_log_number_ e) (next_file_number_ e) (last_sequence_ e)
    (has_comparator_ e) (has_log_number_ e) (has_prev_log_number_ e) (has_next_file_number_ e)
    (has_last_sequence_ e) (compact_pointers_ e) (set_insert (level, file) (deleted_files_ e)) (new_files_ e).

(** [enum Tag] *)
Definition kComparator : Z := 1.
Definition kLogNumber : Z := 2.
Definition kNextFileNumber : Z := 3.
Definition kLastSequence : Z := 4.
Definition kCompactPointer : Z := 5.
Definition kDeleteFile : Z := 6.
Definition kNewFile : Z := 7.
Definition kPrevLogNumber : Z := 9.

(** [VersionEdit::EncodeTo] *)
Definition VersionEdit_EncodeTo (e : VersionEdit) (dst : bytes) : bytes :=
  let dst := if has_comparator_ e
    then PutLengthPrefixedSlice (PutVarint32 dst kComparator) (comparator_ e) else dst in
  let dst := if has_log_number_ e
    then PutVarint64 (PutVarint32 dst kLogNumber) (log_number_ e) else dst in
  let dst := if has_prev_log_number_ e
    then PutVarint64 (PutVarint32 dst kPrevLogNumber) (prev_log_number_ e) else dst in
  let dst := if has_next_file_number_ e
    then PutVarint64 (PutVarint32 dst kNextFileNumber) (next_file_number_ e) else dst in
  let dst := if has_last_sequence_ e
    then PutVarint64 (PutVarint32 dst kLastSequence) (last_sequence_ e) else dst in
  let dst := fold_left (fun dst p =>
    PutLengthPrefixedSlice (PutVarint32 (PutVarint32 dst kCompactPointer) (fst p)) (snd p))
    (compact_pointers_ e) dst in
  let dst := fold_left (fun dst p =>
    PutVarint64 (PutVarint32 (PutVarint32 dst kDeleteFile) (fst p)) (snd p)) (deleted_files_ e) dst in
  fold_left (fun dst p =>
    let f := snd p in
    let dst := PutVarint32 (PutVarint32 dst kNewFile) (fst p) in
    let dst := PutVarint64 (PutVarint64 dst (number f)) (file_size f) in
    PutLengthPrefixedSlice (PutLengthPrefixedSlice dst (smallest f)) (largest f)) (new_files_ e) dst.

(** [GetLevel] and [GetInternalKey] *)
Definition GetLevel (input : bytes) : option (Z * bytes) :=
  '(v, input) ← GetVarint32 input;
  if v <? Z.of_nat kNumLevels then Some (v, input) else None.

Definition GetInternalKey (input : bytes) : option (bytes * bytes) :=
  '(str, input) ← GetLengthPrefixedSlice input;
  let '(key, good) := InternalKey_DecodeFrom str in
  if good then Some (key, input) else None.

(** One round of the loop of [DecodeFrom]: the edit and what is left of the
    input, or the message. *)
Definition decode_field (e : VersionEdit) (tag : Z) (input : bytes) : (VersionEdit * bytes) + bytes :=
  let orelse {A} (o : option A) (msg : bytes) (f : A -> VersionEdit * bytes) :=
    match o with Some x => inl (f x) | None => inr msg end in
  if tag =? kComparator then
    orelse (GetLengthPrefixedSlice input) (str:"comparator name")
      (fun '(s, input) => (SetComparatorName e s, input))
  else if tag =? kLogNumber then
    orelse (GetVarint64 input) (str:"log number") (fun '(n, input) => (SetLogNumber e n, input))
  else if tag =? kPrevLogNumber then
    orelse (GetVarint64 input) (str:"prev log number") (fun '(n, input) => (SetPrevLogNumber e n, input))
  else if tag =? kNextFileNumber then
    orelse (GetVarint64 input) (str:"next file number") (fun '(n, input) => (SetNextFile e n, input))
  else if tag =? kLastSequence then
    orelse (GetVarint64 input) (str:"last sequence") (fun '(n, input) => (SetLastSequence e n, input))
  else if tag =? kCompactPointer then
    orelse ('(level, input) ← GetLevel input; '(key, input) ← GetInternalKey input; Some (level, key, input))
      (str:"compaction pointer") (fun '(level, key, input) => (SetCompectorPointer e level key, input))
  else if tag =? kDeleteFile then
    orelse ('(level, input) ← GetLevel input; '(n, input) ← GetVarint64 input; Some (level, n, input))
      (str:"delete file") (fun '(level, n, input) => (RemoveFile e level n, input))
  else if tag =? kNewFile then
    orelse ('(level, input) ← GetLevel input; '(n, input) ← GetVarint64 input;
            '(sz, input) ← GetVarint64 input; '(small, input) ← GetInternalKey input;
            '(large, input) ← GetInternalKey input; Some (level, n, sz, small, large, input))
      (str:"new-file entry")
      (fun '(level, n, sz, small, large, input) => (AddFile e level n sz small large, input))
  else inr (str:"unknow tag").

(** The loop; each round takes at least the byte of its tag. *)
Fixpoint DecodeFrom_loop (fuel : nat) (e : VersionEdit) (input : bytes) : VersionEdit * bytes * option bytes :=
  match fuel with
  | O => (e, input, None)
  | S fuel =>
      match GetVarint32 input with
      | None => (e, input, None)
      | Some (tag, input) =>
          match decode_field e tag input with
          | inl (e, input) => DecodeFrom_loop fuel e input
          | inr msg => (e, input, Some msg)
          end
      end
  end.

(** [VersionEdit::DecodeFrom]: the edit and the status. *)
Definition VersionEdit_DecodeFrom (e : VersionEdit) (src : bytes) : VersionEdit * Status :=
  let '(e, input, msg) := DecodeFrom_loop (S (length src)) (Clear e) src in
  let msg := match msg, input with
             | None, _ :: _ => Some (str:"invalid tag")
             | _, _ => msg
             end in
  (e, match msg with Some m => Corruption2 (str:"VersionEdit") m | None => Status_OK end).

(** ** Proofs *)

(** The fields of an edit, one by one. *)
Inductive Field :=
  | FComparator (name : bytes) | FLogNumber (n : Z) | FPrevLogNumber (n : Z) | FNextFile (n : Z)
  | FLastSequence (n : Z) | FCompactPointer (p : Z * bytes) | FDelete (p : Z * Z)
  | FNew (p : Z * FileMetaData).

Definition field_bytes (x : Field) : bytes :=
  match x with
  | FComparator name => PutVarint32 [] kComparator ++ PutLengthPrefixedSlice [] name
  | FLogNumber n => PutVarint32 [] kLogNumber ++ PutVarint64 [] n
  | FPrevLogNumber n => PutVarint32 [] kPrevLogNumber ++ PutVarint64 [] n
  | FNextFile n => PutVarint32 [] kNextFileNumber ++ PutVarint64 [] n
  | FLastSequence n => PutVarint32 [] kLastSequence ++ PutVarint64 [] n
  | FCompactPointer p =>
      PutVarint32 [] kCompactPointer ++ PutVarint32 [] (fst p) ++ PutLengthPrefixedSlice [] (snd p)
  | FDelete p => PutVarint32 [] kDeleteFile ++ PutVarint32 [] (fst p) ++ PutVarint64 [] (snd p)
  | FNew p =>
      PutVarint32 [] kNewFile ++ PutVarint32 [] (fst p) ++ PutVarint64 [] (number (snd p)) ++
      PutVarint64 [] (file_size (snd p)) ++ PutLengthPrefixedSlice [] (smallest (snd p)) ++
      PutLengthPrefixedSlice [] (largest (snd p))
  end.

Definition apply_field (e : VersionEdit) (x : Field) : VersionEdit :=
  match x with
  | FComparator name => SetComparatorName e name
  | FLogNumber n => SetLogNumber e n
  | FPrevLogNumber n => SetPrevLogNumber e n
  | FNextFile n => SetNextFile e n
  | FLastSequence n => SetLastSequence e n
  | FCompactPointer p => SetCompectorPointer e (fst p) (snd p)
  | FDelete p => RemoveFile e (fst p) (snd p)
  | FNew p => push_new_file e (fst p) (snd p)
  end.

Definition level_ok (l : Z) : Prop := 0 <= l < Z.of_nat kNumLevels.
Definition u64_ok (n : Z) : Prop := 0 <= n < 2 ^ 64.
Definition key_ok (k : bytes) : Prop := k <> [] /\ zlen k < 2 ^ 32.

Definition field_ok (x : Field) : Prop :=
  match x with
  | FComparator name => zlen name < 2 ^ 32
  | FLogNumber n | FPrevLogNumber n | FNextFile n | FLastSequence n => u64_ok n
  | FCompactPointer p => level_ok (fst p) /\ key_ok (snd p)
  | FDelete p => level_ok (fst p) /\ u64_ok (snd p)
  | FNew p => level_ok (fst p) /\ u64_ok (number (snd p)) /\ u64_ok (file_size (snd p)) /\
      key_ok (smallest (snd p)) /\ key_ok (largest (snd p)) /\
      refs (snd p) = 0 /\ allowed_seeks (snd p) = Z.shiftl 1 30
  end.

Definition opt (b : bool) (x : Field) : list Field := if b then [x] else [].

Definition fields (e : VersionEdit) : list Field :=
  opt (has_comparator_ e) (FComparator (comparator_ e)) ++
  opt (has_log_number_ e) (FLogNumber (log_number_ e)) ++
  opt (has_prev_log_number_ e) (FPrevLogNumber (prev_log_number_ e)) ++
  opt (has_next_file_number_ e) (FNextFile (next_file_number_ e)) ++
  opt (has_last_sequence_ e) (FLastSequence (last_sequence_ e)) ++
  map FCompactPointer (compact_pointers_ e) ++ map FDelete (deleted_files_ e) ++
  map FNew (new_files_ e).

(** Encoding is the fields one after the other. *)
Lemma fold_put {A} (f : bytes -> A -> bytes) (g : A -> Field) l dst :
  (forall dst x, f dst x = dst ++ field_bytes (g x)) ->
  fold_left f l dst = dst ++ concat (map field_bytes (map g l)).
Proof.
  intros H. revert dst. induction l as [|x l IH]; intros dst; cbn; [by rewrite app_nil_r|].
  by rewrite IH, H, <- app_assoc.
Qed.

Lemma EncodeTo_fields e dst :
  VersionEdit_EncodeTo e dst = dst ++ concat (map field_bytes (fields e)).
Proof.
  unfold VersionEdit_EncodeTo, fields.
  rewrite (fold_put _ FNew), (fold_put _ FDelete), (fold_put _ FCompactPointer).
  2-4: intros d x; cbn [field_bytes]; unfold PutLengthPrefixedSlice, PutVarint64, PutVarint32;
    rewrite <- ?app_assoc; reflexivity.
  rewrite !map_app, !concat_app, !app_assoc. do 3 f_equal.
  destruct (has_comparator_ e), (has_log_number_ e), (has_prev_log_number_ e), (has_next_file_number_ e),
    (has_last_sequence_ e); cbn [opt map concat field_bytes]; rewrite ?app_nil_r;
    unfold PutLengthPrefixedSlice, PutVarint64, PutVarint32; rewrite <- ?app_assoc; reflexivity.
Qed.

(** Reading a field back. *)
Lemma GetLevel_put l rest : level_ok l -> GetLevel (PutVarint32 [] l ++ rest) = Some (l, rest).
Proof.
  intros Hl. unfold level_ok in Hl. change (Z.of_nat kNumLevels) with 7 in *. unfold GetLevel. rewrite (get_put (A:=Z)) by lia.
  cbn [mbind option_bind]. rewrite (proj2 (Z.ltb_lt _ _)); [done|]. change (Z.of_nat kNumLevels) with 7. lia.
Qed.

Lemma GetInternalKey_put k rest :
  key_ok k -> GetInternalKey (PutLengthPrefixedSlice [] k ++ rest) = Some (k, rest).
Proof.
  intros [Hne Hl]. unfold GetInternalKey. rewrite (get_put (A:=bytes)) by done.
  cbn [mbind option_bind]. unfold InternalKey_DecodeFrom. by destruct k.
Qed.

(** The tag in front of a field and the rest of it. *)
Definition tag_of (x : Field) : Z :=
  match x with
  | FComparator _ => kComparator | FLogNumber _ => kLogNumber | FPrevLogNumber _ => kPrevLogNumber
  | FNextFile _ => kNextFileNumber | FLastSequence _ => kLastSequence
  | FCompactPointer _ => kCompactPointer | FDelete _ => kDeleteFile | FNew _ => kNewFile
  end.

Lemma decode_field_put e x rest :
  field_ok x ->
  exists body, field_bytes x = PutVarint32 [] (tag_of x) ++ body /\
    decode_field e (tag_of x) (body ++ rest) = inl (apply_field e x, rest).
Proof.
  intros H. destruct x as [s|n|n|n|n|[l k]|[l n]|[l f]]; cbn [field_bytes tag_of]; eexists;
    (split; [reflexivity|]); rewrite <- ?app_assoc; unfold decode_field; cbn [kComparator kLogNumber
    kPrevLogNumber kNextFileNumber kLastSequence kCompactPointer kDeleteFile kNewFile Z.eqb Pos.eqb];
    cbn [field_ok fst snd] in H.
  - by rewrite (get_put (A:=bytes)).
  - by rewrite (get_put (A:=Z)).
  - by rewrite (get_put (A:=Z)).
  - by rewrite (get_put (A:=Z)).
  - by rewrite (get_put (A:=Z)).
  - destruct H as [H1 H2]. rewrite GetLevel_put by done. cbn [mbind option_bind fst snd].
    by rewrite GetInternalKey_put.
  - destruct H as [H1 H2]. rewrite GetLevel_put by done. cbn [mbind option_bind fst snd].
    by rewrite (get_put (A:=Z)).
  - destruct H as (H1 & H2 & H3 & H4 & H5 & H6 & H7).
    rewrite GetLevel_put by done. cbn [mbind option_bind fst snd].
    rewrite (get_put (A:=Z)) by done. cbn [mbind option_bind fst snd].
    rewrite (get_put (A:=Z)) by done. cbn [mbind option_bind fst snd].
    rewrite GetInternalKey_put by done. cbn [mbind option_bind fst snd].
    rewrite GetInternalKey_put by done. cbn [mbind option_bind fst snd].
    unfold AddFile, FileMetaData_new, apply_field. cbn [fst snd].
    destruct f as [r a n sz sm la]; cbn in *. by rewrite H6, H7.
Qed.

Lemma tag_range x : 0 <= tag_of x < 2 ^ 32.
Proof. destruct x; cbn; unfold kComparator, kLogNumber, kPrevLogNumber, kNextFileNumber, kLastSequence,
  kCompactPointer, kDeleteFile, kNewFile; lia. Qed.

Lemma decode_fields xs fuel e :
  Forall field_ok xs -> (length (concat (map field_bytes xs)) < fuel)%nat ->
  DecodeFrom_loop fuel e (concat (map field_bytes xs)) = (fold_left apply_field xs e, [], None).
Proof.
  intros Hok. revert fuel e. induction Hok as [|x xs Hx _ IH]; intros [|fuel] e Hf; try (cbn in Hf; lia).
  - reflexivity.
  - cbn [map concat fold_left] in *. set (more := concat (map field_bytes xs)) in *.
    destruct (decode_field_put e x more Hx) as (body & E & Hd).
    rewrite E, <- app_assoc in Hf |- *. cbn [DecodeFrom_loop].
    rewrite (get_put (A:=Z)) by apply tag_range. rewrite Hd. apply IH.
    rewrite !length_app in Hf. pose proof (EncodeVarint32_length (u32 (tag_of x))).
    unfold PutVarint32 in Hf. cbn [app] in Hf. lia.
Qed.

(** The fields of an edit that are not set have their cleared values, and the
    set of deleted files is in order. *)
Record edit_ok (e : VersionEdit) : Prop := {
  eo_fields : Forall field_ok (fields e);
  eo_deleted : StronglySorted (fun a b => pair_compare a b = Lt) (deleted_files_ e);
  eo_comparator : has_comparator_ e = false -> comparator_ e = [];
  eo_log : has_log_number_ e = false -> log_number_ e = 0;
  eo_prev : has_prev_log_number_ e = false -> prev_log_number_ e = 0;
  eo_next : has_next_file_number_ e = false -> next_file_number_ e = 0;
  eo_last : has_last_sequence_ e = false -> last_sequence_ e = 0
}.

Lemma pair_compare_antisym a b : pair_compare b a = CompOpp (pair_compare a b).
Proof.
  unfold pair_compare. rewrite (Z.compare_antisym (fst a)), (Z.compare_antisym (snd a)).
  by destruct (fst a ?= fst b).
Qed.

Lemma set_insert_last x l :
  Forall (fun y => pair_compare y x = Lt) l -> set_insert x l = l ++ [x].
Proof.
  induction 1 as [|y l Hy _ IH]; cbn; [done|].
  rewrite (pair_compare_antisym y x), Hy. cbn. by rewrite IH.
Qed.

Lemma fold_new e l :
  fold_left apply_field (map FNew l) e =
  mkEdit (comparator_ e) (log_number_ e) (prev_log_number_ e) (next_file_number_ e) (last_sequence_ e)
    (has_comparator_ e) (has_log_number_ e) (has_prev_log_number_ e) (has_next_file_number_ e)
    (has_last_sequence_ e) (compact_pointers_ e) (deleted_files_ e) (new_files_ e ++ l).
Proof.
  revert e. induction l as [|[lv f] l IH]; intros e; cbn; [rewrite app_nil_r; by destruct e|].
  rewrite IH. cbn. by rewrite <- app_assoc.
Qed.

Lemma fold_compact e l :
  fold_left apply_field (map FCompactPointer l) e =
  mkEdit (comparator_ e) (log_number_ e) (prev_log_number_ e) (next_file_number_ e) (last_sequence_ e)
    (has_comparator_ e) (has_log_number_ e) (has_prev_log_number_ e) (has_next_file_number_ e)
    (has_last_sequence_ e) (compact_pointers_ e ++ l) (deleted_files_ e) (new_files_ e).
Proof.
  revert e. induction l as [|[lv k] l IH]; intros e; cbn; [rewrite app_nil_r; by destruct e|].
  rewrite IH. cbn. by rewrite <- app_assoc.
Qed.

Lemma fold_delete e l :
  StronglySorted (fun a b => pair_compare a b = Lt) (deleted_files_ e ++ l) ->
  fold_left apply_field (map FDelete l) e =
  mkEdit (comparator_ e) (log_number_ e) (prev_log_number_ e) (next_file_number_ e) (last_sequence_ e)
    (has_comparator_ e) (has_log_number_ e) (has_prev_log_number_ e) (has_next_file_number_ e)
    (has_last_sequence_ e) (compact_pointers_ e) (deleted_files_ e ++ l) (new_files_ e).
Proof.
  revert e. induction l as [|[lv n] l IH]; intros e Hs; cbn; [rewrite app_nil_r; by destruct e|].
  assert (set_insert (lv, n) (deleted_files_ e) = deleted_files_ e ++ [(lv, n)]) as Ei.
  { apply set_insert_last, list.Forall_forall. intros y Hy.
    apply StronglySorted_app in Hs as [Hs _]. apply Hs; [done|by left]. }
  rewrite IH; unfold RemoveFile; cbn [deleted_files_]; rewrite Ei, <- app_assoc; [done|]. exact Hs.
Qed.

(** What decoding makes of an edit in an object whose flag was [stale]. *)
Definition decoded (stale : bool) (e : VersionEdit) : VersionEdit :=
  mkEdit (comparator_ e) (log_number_ e) (prev_log_number_ e) (next_file_number_ e) (last_sequence_ e)
    (has_comparator_ e) (has_log_number_ e) (has_prev_log_number_ e) (has_next_file_number_ e || stale)
    (has_last_sequence_ e) (compact_pointers_ e) (deleted_files_ e) (new_files_ e).

Lemma apply_fields e e0 :
  edit_ok e -> fold_left apply_field (fields e) (Clear e0) = decoded (has_next_file_number_ e0) e.
Proof.
  intros [_ Hd H1 H2 H3 H4 H5]. unfold fields. rewrite !fold_left_app, fold_new, fold_delete, fold_compact.
  - destruct e as [cn ln pn nf ls hc hl hp hn hs cp df nw], e0 as [? ? ? ? ? ? ? ? h0 ? ? ? ?].
    unfold decoded. cbn in *.
    destruct hc, hl, hp, hn, hs, h0; cbn; rewrite ?H1, ?H2, ?H3, ?H4, ?H5 by done; reflexivity.
  - rewrite fold_compact. destruct (has_comparator_ e), (has_log_number_ e), (has_prev_log_number_ e),
      (has_next_file_number_ e), (has_last_sequence_ e); exact Hd.
Qed.

Lemma decode_encode (e e0 : VersionEdit) :
  edit_ok e -> VersionEdit_DecodeFrom e0 (VersionEdit_EncodeTo e []) = (decoded (has_next_file_number_ e0) e, Status_OK).
Proof.
  intros H. unfold VersionEdit_DecodeFrom. rewrite EncodeTo_fields. cbn [app].
  rewrite decode_fields; [|apply H|lia]. by rewrite apply_fields.
Qed.

(** ** Properties *)

(** C31: What [EncodeTo] writes, [DecodeFrom] reads back: any well-formed edit
    decodes without error to the same numbers, compaction pointers, deleted and
    new files, whatever the receiving object held before.  The one exception is
    [has_next_file_number_], which [Clear] forgets to reset: it is set after
    decoding if the edit set it or if it was set in the receiving object. *)
Theorem version_edit_roundtrip (e e0 : VersionEdit) :
  edit_ok e ->
  VersionEdit_DecodeFrom e0 (VersionEdit_EncodeTo e []) =
  (decoded (has_next_file_number_ e0) e, Status_OK).
Proof. apply decode_encode. Qed.

Definition sample_edit : VersionEdit :=
  AddFile (RemoveFile (RemoveFile (SetCompectorPointer (SetLastSequence (SetNextFile (SetLogNumber
    (SetComparatorName (VersionEdit_new false) (str:"cmp")) 12) 300) 77) 2
    (InternalKey (str:"m") 5 kTypeValue)) 3 20) 1 9) 1 21 4096
    (InternalKey (str:"a") 70 kTypeValue) (InternalKey (str:"z") 71 kTypeDeletion).

Lemma version_edit_roundtrip_witness :
  VersionEdit_DecodeFrom (VersionEdit_new true) (VersionEdit_EncodeTo sample_edit []) =
  (sample_edit, Status_OK).
Proof.
  etransitivity; [apply (version_edit_roundtrip sample_edit (VersionEdit_new true))|vm_compute; reflexivity].
  split; try done.
  - repeat (constructor; [vm_compute; repeat split; congruence|]). constructor.
  - vm_compute. repeat constructor.
Defined.

(** A fresh edit over memory with the flag set claims a next file number of 0. *)
Lemma VersionEdit_new_garbage :
  VersionEdit_EncodeTo (VersionEdit_new true) [] = [Byte.x03; Byte.x00].
Proof. reflexivity. Qed.
