(* ===== verification/VersionFiles.v ===== *)
(** * The files of a version

    The parts of src/db/version_set.cc that look at lists of table files:
    finding a file by key, overlap tests, collecting overlapping inputs, ranges,
    boundary files and sizes, and the iterator over the files of a level.

    A level above 0 is a list of files with increasing, disjoint key ranges
    ([disjoint_files]); level 0 is any list. *)

From stdpp Require Import sets sorting.
From S2P Require Import Prelude Slice Coding Comparator DbFormat Iterator VersionEdit.

Section Operations.
(** [icmp.user_comparator()]; the internal comparator is built on it. *)
Context (ucmp : Comparator).
Abbreviation ucompare := (Compare ucmp).
Abbreviation icompare := (InternalKeyComparator.Compare ucmp).

Definition small_user (f : FileMetaData) : bytes := ExtractUserKey (smallest f).
Definition large_user (f : FileMetaData) : bytes := ExtractUserKey (largest f).

(** [TotalFileSize]: the sum is an [int]. *)
Definition TotalFileSize (files : list FileMetaData) : Z :=
  fold_left (fun sum f => s32 (sum + file_size f)) files 0.

(** [FindFile]: the binary search, on 32-bit indices; [None] when the bound on
    the rounds is reached. *)
Fixpoint FindFile_loop (fuel : nat) (files : list FileMetaData) (key : bytes) (lo hi : Z) : option Z :=
  match fuel with
  | O => None
  | S fuel =>
      if lo <? hi then
        let mid := u32 (lo + hi) / 2 in
        f ← files !! Z.to_nat mid;
        match icompare (largest f) key with
        | Lt => FindFile_loop fuel files key (mid + 1) hi
        | _ => FindFile_loop fuel files key lo mid
        end
      else Some hi
  end.

Definition FindFile (files : list FileMetaData) (key : bytes) : option Z :=
  FindFile_loop (S (length files)) files key 0 (u32 (zlen files)).

(** [AfterFile] and [BeforeFile]; a null key is [None]. *)
Definition AfterFile (user_key : option bytes) (f : FileMetaData) : bool :=
  match user_key with
  | Some k => match ucompare k (large_user f) with Gt => true | _ => false end
  | None => false
  end.

Definition BeforeFile (user_key : option bytes) (f : FileMetaData) : bool :=
  match user_key with
  | Some k => match ucompare k (small_user f) with Lt => true | _ => false end
  | None => false
  end.

(** [SomeFileOverlapsRange] *)
Fixpoint overlaps_loop (files : list FileMetaData) (lo hi : option bytes) : bool :=
  match files with
  | [] => false
  | f :: rest => if AfterFile lo f || BeforeFile hi f then overlaps_loop rest lo hi else true
  end.

Definition SomeFileOverlapsRange (disjoint_sorted_file : bool) (files : list FileMetaData)
    (smallest_user_key largest_user_key : option bytes) : option bool :=
  if negb disjoint_sorted_file then Some (overlaps_loop files smallest_user_key largest_user_key)
  else
    index ← (match smallest_user_key with
      | Some k => FindFile files (InternalKey k kMaxSequenceNumber kValueTypeForSeek)
      | None => Some 0
      end);
    if index >=? zlen files then Some false
    else
      f ← files !! Z.to_nat index;
      Some (negb (BeforeFile largest_user_key f)).

(** [Version::GetOverlappingInputs] on the files of [level]: the scan from [i]
    on, which starts over when a file of level 0 widens the range. *)
Definition user_lt (a b : bytes) : bool := match ucompare a b with Lt => true | _ => false end.
Definition user_gt (a b : bytes) : bool := match ucompare a b with Gt => true | _ => false end.

Fixpoint GetOverlapping_scan (level0 : bool) (rest : list FileMetaData) (lo hi : option bytes)
    (inputs : list FileMetaData) : list FileMetaData + (option bytes * option bytes) :=
  match rest with
  | [] => inl inputs
  | f :: rest =>
      let file_start := small_user f in
      let file_limit := large_user f in
      if match lo with Some b => user_lt file_limit b | None => false end
      then GetOverlapping_scan level0 rest lo hi inputs
      else if match hi with Some e => user_gt file_start e | None => false end
      then GetOverlapping_scan level0 rest lo hi inputs
      else if level0 && match lo with Some b => user_lt file_start b | None => false end
      then inr (Some file_start, hi)
      else if level0 && match hi with Some e => user_gt file_limit e | None => false end
      then inr (lo, Some file_limit)
      else GetOverlapping_scan level0 rest lo hi (inputs ++ [f])
  end.

Fixpoint GetOverlapping_rounds (fuel : nat) (level0 : bool) (files : list FileMetaData)
    (lo hi : option bytes) : option (list FileMetaData) :=
  match fuel with
  | O => None
  | S fuel =>
      match GetOverlapping_scan level0 files lo hi [] with
      | inl inputs => Some inputs
      | inr (lo, hi) => GetOverlapping_rounds fuel level0 files lo hi
      end
  end.

(** Each round but the last moves an end of the range to an end of a file. *)
Definition GetOverlappingInputs (level : nat) (files : list FileMetaData)
    (begin_ end_ : option bytes) : option (list FileMetaData) :=
  GetOverlapping_rounds (S (2 * length files)) (bool_decide (level = 0%nat)) files
    (ExtractUserKey <$> begin_) (ExtractUserKey <$> end_).

(** [VersionSet::GetRange] and [GetRange2], which assert that there are inputs *)
Definition key_range (inputs : list FileMetaData) : bytes * bytes :=
  match inputs with
  | [] => ([], [])
  | f :: rest =>
      fold_left (fun r f =>
        (match icompare (smallest f) (fst r) with Lt => smallest f | _ => fst r end,
         match icompare (largest f) (snd r) with Gt => largest f | _ => snd r end))
        rest (smallest f, largest f)
  end.

Definition GetRange (inputs : list FileMetaData) : option (bytes * bytes) :=
  match inputs with [] => None | _ => Some (key_range inputs) end.
Definition GetRange2 (inputs1 inputs2 : list FileMetaData) : option (bytes * bytes) := GetRange (inputs1 ++ inputs2).

(** [FindLargestKey] *)
Definition FindLargestKey (files : list FileMetaData) : option bytes :=
  match files with
  | [] => None
  | f :: _ =>
      Some (fold_left (fun k f => match icompare (largest f) k with Gt => largest f | _ => k end)
              files (largest f))
  end.

(** [FindSmallestBoundaryFile] *)
Definition is_boundary (largest_key : bytes) (f : FileMetaData) : bool :=
  match icompare (smallest f) largest_key with
  | Gt => match ucompare (small_user f) (ExtractUserKey largest_key) with Eq => true | _ => false end
  | _ => false
  end.

Definition FindSmallestBoundaryFile (level_files : list FileMetaData) (largest_key : bytes)
    : option FileMetaData :=
  fold_left (fun best f =>
    if is_boundary largest_key f then
      match best with
      | None => Some f
      | Some b => match icompare (smallest f) (smallest b) with Lt => Some f | _ => best end
      end
    else best) level_files None.

(** [AddBoundaryInputs]: the search starts from the largest key of
    [level_files]. *)
Fixpoint AddBoundary_loop (fuel : nat) (level_files : list FileMetaData) (largest_key : bytes)
    (compaction_files : list FileMetaData) : option (list FileMetaData) :=
  match fuel with
  | O => None
  | S fuel =>
      match FindSmallestBoundaryFile level_files largest_key with
      | Some f => AddBoundary_loop fuel level_files (largest f) (compaction_files ++ [f])
      | None => Some compaction_files
      end
  end.

Definition AddBoundaryInputs (level_files compaction_files : list FileMetaData)
    : option (list FileMetaData) :=
  match FindLargestKey level_files with
  | None => Some compaction_files
  | Some largest_key => AddBoundary_loop (S (length level_files)) level_files largest_key compaction_files
  end.

(** [Version::LevelFileNumIterator]: its state is [index_]. *)
Definition file_value (f : FileMetaData) : bytes := EncodeFixed64 (number f) ++ EncodeFixed64 (file_size f).

Definition LevelFileNumIterator (flist : list FileMetaData) : IteratorOps :=
  mkIteratorOps Z
    (fun i => i <? zlen flist)
    (fun i => match flist !! Z.to_nat i with Some f => largest f | None => [] end)
    (fun i => match flist !! Z.to_nat i with Some f => file_value f | None => [] end)
    (fun _ => Status_OK)
    (fun _ => Some 0)
    (fun _ => Some (match flist with [] => 0 | _ => u32 (zlen flist - 1) end))
    (fun _ target => FindFile flist target)
    (fun i => Some (u32 (i + 1)))
    (fun i => Some (if i =? 0 then u32 (zlen flist) else i - 1)).

Definition LevelFileNumIterator_new (flist : list FileMetaData) : IState (LevelFileNumIterator flist) :=
  u32 (zlen flist).
End Operations.

(** ** Proofs *)

Section Correct.
Context (ucmp : Comparator) `{!ComparatorLaws ucmp}.
Abbreviation ucompare := (Compare ucmp).
Abbreviation icompare := (InternalKeyComparator.Compare ucmp).

(** A file's keys are in order. *)
Definition file_ok (f : FileMetaData) : Prop := icompare (smallest f) (largest f) <> Gt.

(** The files of a level above 0. *)
Record disjoint_files (files : list FileMetaData) : Prop := {
  df_ok : Forall file_ok files;
  df_sorted : StronglySorted (fun f g => icompare (largest f) (smallest g) = Lt) files
}.

(** *** Binary search *)

Lemma FindFile_loop_spec fuel files key lo hi :
  StronglySorted (fun f g => icompare (largest f) (largest g) = Lt) files ->
  zlen files < 2 ^ 31 -> 0 <= lo <= hi -> hi <= zlen files -> (Z.to_nat (hi - lo) < fuel)%nat ->
  (forall i f, (i < Z.to_nat lo)%nat -> files !! i = Some f -> icompare (largest f) key = Lt) ->
  (forall i f, (Z.to_nat hi <= i)%nat -> files !! i = Some f -> icompare (largest f) key <> Lt) ->
  FindFile_loop ucmp fuel files key lo hi = Some (Z.of_nat (seek_pos icompare key (map largest files))).
Proof.
  intros Hs Hlen. revert lo hi. induction fuel as [|fuel IH]; intros lo hi Hle Hhi Hf Hlo Hge; [lia|].
  cbn [FindFile_loop]. destruct (lo <? hi) eqn:E; [apply Z.ltb_lt in E|apply Z.ltb_ge in E].
  - rewrite u32_small by lia. set (mid := (lo + hi) / 2).
    assert (lo <= mid < hi) as Hmid.
    { unfold mid. split; [apply Z.div_le_lower_bound; lia|apply Z.div_lt_upper_bound; lia]. }
    destruct (lookup_lt_is_Some_2 files (Z.to_nat mid) ltac:(lia)) as [f Hfm]. rewrite Hfm.
    cbn [mbind option_bind]. destruct (icompare (largest f) key) eqn:Ec.
    2:{ apply IH; try lia; [|done]. intros i g Hi Hg.
        destruct (decide (i = Z.to_nat mid)) as [->|Hne]; [congruence|].
        eapply (cmp_lt_trans icompare); [|exact Ec]. apply (sorted_lookup _ _ _ _ _ _ Hs Hg Hfm). lia. }
    all: apply IH; try lia; [done|]; intros i g Hi Hg Hlt;
      (destruct (decide (i = Z.to_nat mid)) as [->|Hne]; [congruence|]);
      assert (icompare (largest f) (largest g) = Lt) as Hfg
        by (apply (sorted_lookup _ _ _ _ _ _ Hs Hfm Hg); lia);
      pose proof (cmp_lt_trans icompare _ _ _ Hfg Hlt); congruence.
  - f_equal. rewrite (seek_pos_eq icompare key (map largest files) (Z.to_nat hi)); [lia| | |].
    + rewrite length_map. lia.
    + intros j x Hj Hx. rewrite list_lookup_fmap in Hx. destruct (files !! j) as [f|] eqn:Ej; [|done].
      injection Hx as <-. apply (Hlo j); [lia|done].
    + intros x Hx. rewrite list_lookup_fmap in Hx. destruct (files !! Z.to_nat hi) as [f|] eqn:Ej; [|done].
      injection Hx as <-. by apply (Hge (Z.to_nat hi)).
Qed.

Lemma disjoint_largest files :
  disjoint_files files -> StronglySorted (fun f g => icompare (largest f) (largest g) = Lt) files.
Proof.
  intros [Hok Hs]. induction Hs as [|f files Hs IH Hf]; [constructor|].
  inversion Hok as [|? ? Hf0 Hok0]; subst. constructor; [by apply IH|].
  rewrite list.Forall_forall in Hf, Hok0 |- *. intros g Hg.
  eapply (cmp_lt_le_trans icompare); [by apply Hf|by apply Hok0].
Qed.

Lemma FindFile_spec files key :
  disjoint_files files -> zlen files < 2 ^ 31 ->
  FindFile ucmp files key = Some (Z.of_nat (seek_pos icompare key (map largest files))).
Proof.
  intros Hd Hlen. unfold FindFile. rewrite u32_small by lia.
  apply FindFile_loop_spec; try lia; [by apply disjoint_largest|].
  intros i f Hi Hf. apply lookup_lt_Some in Hf. lia.
Qed.

(** *** The iterator over a level's files *)

Definition file_pairs (files : list FileMetaData) : list (bytes * bytes) :=
  map (fun f => (largest f, file_value f)) files.

Lemma file_pairs_keys files : map fst (file_pairs files) = map largest files.
Proof. unfold file_pairs. by rewrite map_map. Qed.

Lemma level_file_cursor files :
  disjoint_files files -> zlen files < 2 ^ 31 ->
  Cursor icompare (LevelFileNumIterator ucmp files) (file_pairs files)
    (fun s i => s = Z.of_nat i /\ (i <= length files)%nat).
Proof.
  intros Hd Hlen. unfold file_pairs.
  split; cbn [LevelFileNumIterator it_Valid it_key it_value it_status it_SeekToFirst it_SeekToLast
    it_Seek it_Next it_Prev]; rewrite ?length_map.
  - intros s i [-> Hi]. done.
  - intros s i [-> Hi]. destruct (i <? length files)%nat eqn:E;
      [apply Nat.ltb_lt in E; apply Z.ltb_lt; lia|apply Nat.ltb_ge in E; apply Z.ltb_ge; lia].
  - intros s i kv [-> Hi] Hkv. rewrite Nat2Z.id. rewrite list_lookup_fmap in Hkv.
    destruct (files !! i) as [f|]; [|done]. by injection Hkv as <-.
  - done.
  - intros s i _. exists 0. split; [done|]. split; [done|lia].
  - intros s i _. eexists. split; [done|]. destruct files as [|f files]; [done|].
    cbn [length] in *. rewrite u32_small by lia. split; lia.
  - intros s i t _. rewrite FindFile_spec by done. eexists. split; [done|]. split.
    + do 2 f_equal. by rewrite map_map.
    + etrans; [apply seek_pos_le|]. by rewrite map_map, length_map.
  - intros s i [-> Hi] Hlt. eexists. split; [done|]. rewrite u32_small by lia. split; lia.
  - intros s i [-> Hi] Hlt. eexists. split; [done|]. destruct i as [|i].
    + change (Z.of_nat 0 =? 0) with true. cbn iota. rewrite u32_small by lia. split; lia.
    + rewrite (proj2 (Z.eqb_neq _ _)) by lia. split; lia.
Qed.

(** *** Overlap *)

(** A file has keys in the range between two user keys. *)
Definition overlaps (lo hi : option bytes) (f : FileMetaData) : Prop :=
  match lo with Some k => ucompare k (large_user f) <> Gt | None => True end /\
  match hi with Some k => ucompare (small_user f) k <> Gt | None => True end.

Lemma overlaps_tests lo hi f :
  AfterFile ucmp lo f || BeforeFile ucmp hi f = false <-> overlaps lo hi f.
Proof.
  unfold AfterFile, BeforeFile, overlaps. rewrite orb_false_iff.
  assert (forall k, match ucompare k (large_user f) with Gt => true | _ => false end = false <->
    ucompare k (large_user f) <> Gt) as H1 by (intros k; by destruct (ucompare k (large_user f))).
  assert (forall k, match ucompare k (small_user f) with Lt => true | _ => false end = false <->
    ucompare (small_user f) k <> Gt) as H2.
  { intros k. rewrite (cmp_antisym ucompare k (small_user f)). by destruct (ucompare k (small_user f)). }
  destruct lo, hi; rewrite ?H1, ?H2; naive_solver.
Qed.

Lemma overlaps_loop_spec files lo hi :
  overlaps_loop ucmp files lo hi = true <-> exists f, f ∈ files /\ overlaps lo hi f.
Proof.
  induction files as [|f files IH]; cbn; [split; [done|by intros (f & ?%elem_of_nil & _)]|].
  destruct (AfterFile ucmp lo f || BeforeFile ucmp hi f) eqn:E.
  - rewrite IH. split; intros (g & Hg & Ho); exists g; (split; [|done]); [by right|].
    apply elem_of_cons in Hg as [->|Hg]; [|done]. apply overlaps_tests in Ho. congruence.
  - split; [intros _|done]. exists f. split; [left|by apply overlaps_tests].
Qed.
#[global] Instance overlaps_dec lo hi f : Decision (overlaps lo hi f).
Proof. unfold overlaps. destruct lo, hi; solve_decision. Defined.

(** Keys as the database makes them. *)
Definition key_wf (k : bytes) : Prop :=
  exists u s t, k = InternalKey u s t /\ 0 <= s <= kMaxSequenceNumber.

(** The seek key of a user key is before all its entries. *)
Lemma before_seek_key k u :
  key_wf k ->
  icompare k (InternalKey u kMaxSequenceNumber kValueTypeForSeek) = Lt <->
  ucompare (ExtractUserKey k) u = Lt.
Proof.
  intros (u' & s & t & -> & Hs). rewrite icmp_unfold, !ExtractUserKey_InternalKey.
  assert (0 <= kMaxSequenceNumber <= kMaxSequenceNumber) as Hm by (split; [vm_compute; discriminate|done]).
  destruct (ucompare u' u); try done. rewrite !ExtractTag_InternalKey, !Pack_value by done.
  unfold tag_compare, kValueTypeForSeek. split; [|done]. rewrite Z.compare_lt_iff.
  destruct t; cbn; lia.
Qed.

Lemma disjoint_small_user files i j f g :
  disjoint_files files -> files !! i = Some f -> files !! j = Some g -> (i <= j)%nat ->
  ucompare (small_user f) (small_user g) <> Gt.
Proof.
  intros [Hok Hs] Hi Hj Hij. destruct (decide (i = j)) as [->|Hne].
  - assert (f = g) as -> by congruence. by rewrite (cmp_refl ucompare).
  - pose proof (sorted_lookup _ _ _ _ _ _ Hs Hi Hj ltac:(lia)) as Hlt. cbn in Hlt.
    rewrite Forall_lookup in Hok. pose proof (Hok _ _ Hi) as Hf. unfold file_ok in Hf.
    pose proof (cmp_le_lt_trans icompare _ _ _ Hf Hlt) as H. by apply icmp_lt_user in H.
Qed.

Lemma SomeFileOverlapsRange_spec (disjoint : bool) files lo hi :
  (disjoint = true -> disjoint_files files /\ Forall (fun f => key_wf (largest f)) files) ->
  zlen files < 2 ^ 31 ->
  exists b, SomeFileOverlapsRange ucmp disjoint files lo hi = Some b /\
    (b = true <-> exists f, f ∈ files /\ overlaps lo hi f).
Proof.
  intros Hd Hlen. unfold SomeFileOverlapsRange. destruct disjoint; cbn [negb].
  2:{ eexists. split; [done|]. apply overlaps_loop_spec. }
  destruct (Hd eq_refl) as [Hdf Hwf]. clear Hd.
  assert (exists i, (match lo with
      | Some k => FindFile ucmp files (InternalKey k kMaxSequenceNumber kValueTypeForSeek)
      | None => Some 0 end) = Some (Z.of_nat i) /\
    (forall j f, (j < i)%nat -> files !! j = Some f -> ~ overlaps lo None f) /\
    (forall f, files !! i = Some f -> overlaps lo None f)) as (i & -> & Hbef & Hat).
  { destruct lo as [k|]; [|by exists 0%nat; split; [done|]; split; [lia|]].
    rewrite FindFile_spec by done. eexists. split; [done|]. rewrite Forall_lookup in Hwf. split.
    - intros j f Hj Hf [Ho _]. apply Ho. apply (cmp_lt_gt ucompare). apply before_seek_key; [by eapply Hwf|].
      eapply seek_pos_before; [exact Hj|]. by rewrite list_lookup_fmap, Hf.
    - intros f Hf. split; [|done]. apply (cmp_le_ge ucompare). intros Hlt.
      apply before_seek_key in Hlt; [|by eapply Hwf].
      eapply (seek_pos_at icompare _ (map largest files)); [|exact Hlt]. by rewrite list_lookup_fmap, Hf. }
  cbn [mbind option_bind]. rewrite Z.geb_leb. destruct (zlen files <=? Z.of_nat i) eqn:E.
  - apply Z.leb_le in E. eexists. split; [done|]. split; [done|].
    intros (f & [j Hj]%list_elem_of_lookup & [Ho _]). exfalso.
    apply (Hbef j f); [apply lookup_lt_Some in Hj; lia|done|done].
  - apply Z.leb_gt in E. rewrite Nat2Z.id.
    destruct (lookup_lt_is_Some_2 files i ltac:(lia)) as [f Hf]. rewrite Hf. cbn [mbind option_bind].
    eexists. split; [done|]. destruct (Hat f Hf) as [Hlo _].
    assert (negb (BeforeFile ucmp hi f) = true <-> overlaps None hi f) as ->.
    { rewrite negb_true_iff, <- overlaps_tests. done. }
    split.
    + intros [_ Hhi]. exists f. split; [by eapply list_elem_of_lookup_2|done].
    + intros (g & [j Hj]%list_elem_of_lookup & [Hglo Hghi]). split; [done|].
      destruct hi as [e|]; [|done]. eapply (cmp_le_trans ucompare); [|exact Hghi].
      eapply (disjoint_small_user files i j); [done|done|done|].
      destruct (decide (i <= j)%nat); [done|]. exfalso. apply (Hbef j g); [lia|done|done].
Qed.

(** *** Overlapping inputs *)

(** A range contains another one, and a file. *)
Definition wider (lo hi lo' hi' : option bytes) : Prop :=
  match lo, lo' with Some a, Some b => ucompare b a <> Gt | None, None => True | _, _ => False end /\
  match hi, hi' with Some a, Some b => ucompare a b <> Gt | None, None => True | _, _ => False end.

Definition holds_file (lo hi : option bytes) (f : FileMetaData) : Prop :=
  match lo with Some b => ucompare b (small_user f) <> Gt | None => True end /\
  match hi with Some e => ucompare (large_user f) e <> Gt | None => True end.

(** No file sticks out of the range. *)
Definition closed_range (files : list FileMetaData) (lo hi : option bytes) : Prop :=
  forall f, f ∈ files -> overlaps lo hi f -> holds_file lo hi f.

Lemma user_lt_spec a b : user_lt ucmp a b = true <-> ucompare a b = Lt.
Proof. unfold user_lt. by destruct (ucompare a b). Qed.
Lemma user_gt_spec a b : user_gt ucmp a b = true <-> ucompare b a = Lt.
Proof. unfold user_gt. rewrite (cmp_antisym ucompare b a). by destruct (ucompare b a). Qed.

(** One round of the scan. *)
Lemma overlapping_scan_spec level0 rest lo hi inputs :
  match GetOverlapping_scan ucmp level0 rest lo hi inputs with
  | inl out => out = inputs ++ filter (overlaps lo hi) rest /\
      (level0 = true -> closed_range rest lo hi)
  | inr (lo', hi') => level0 = true /\ exists f, f ∈ rest /\ overlaps lo hi f /\
      ((exists b, lo = Some b /\ lo' = Some (small_user f) /\ hi' = hi /\ ucompare (small_user f) b = Lt) \/
       (exists e, hi = Some e /\ hi' = Some (large_user f) /\ lo' = lo /\ ucompare e (large_user f) = Lt))
  end.
Proof.
  revert inputs. induction rest as [|f rest IH]; intros inputs; cbn [GetOverlapping_scan].
  { rewrite app_nil_r. split; [done|]. by intros _ f ?%elem_of_nil. }
  set (skip1 := match lo with Some b => user_lt ucmp (large_user f) b | None => false end).
  set (skip2 := match hi with Some e => user_gt ucmp (small_user f) e | None => false end).
  assert (overlaps lo hi f <-> skip1 = false /\ skip2 = false) as Hov.
  { unfold overlaps, skip1, skip2, user_lt, user_gt.
    assert (forall b, ucompare b (large_user f) <> Gt <->
      match ucompare (large_user f) b with Lt => true | _ => false end = false) as H1.
    { intros b. rewrite (cmp_antisym ucompare (large_user f) b). by destruct (ucompare (large_user f) b). }
    assert (forall e, ucompare (small_user f) e <> Gt <->
      match ucompare (small_user f) e with Gt => true | _ => false end = false) as H2.
    { intros e. by destruct (ucompare (small_user f) e). }
    destruct lo, hi; rewrite ?H1, ?H2; naive_solver. }
  assert (skip1 = true \/ skip2 = true -> ~ overlaps lo hi f) as Hskip by (rewrite Hov; intuition congruence).
  assert (forall inputs, match GetOverlapping_scan ucmp level0 rest lo hi inputs with
      | inl out => True
      | inr (lo', hi') => level0 = true /\ exists f0, f0 ∈ f :: rest /\ overlaps lo hi f0 /\
          ((exists b, lo = Some b /\ lo' = Some (small_user f0) /\ hi' = hi /\ ucompare (small_user f0) b = Lt) \/
           (exists e, hi = Some e /\ hi' = Some (large_user f0) /\ lo' = lo /\ ucompare e (large_user f0) = Lt))
      end) as Hr.
  { intros inp. specialize (IH inp). destruct (GetOverlapping_scan _ _ _ _ _ _) as [|[lo' hi']]; [done|].
    destruct IH as (Hl & g & Hg & H). split; [done|]. exists g. split; [by right|done]. }
  destruct skip1 eqn:E1; [|destruct skip2 eqn:E2].
  1,2: specialize (IH inputs); specialize (Hr inputs);
    destruct (GetOverlapping_scan ucmp level0 rest lo hi inputs) as [out|[lo' hi']] eqn:Es; [|exact Hr];
    destruct IH as [-> Hc]; rewrite filter_cons_False by auto; split; [done|];
    intros Hl g [->|Hg]%elem_of_cons Ho; [by destruct (Hskip ltac:(auto))|by apply Hc].
  assert (overlaps lo hi f) as Ho by by apply Hov.
  destruct (level0 && match lo with Some b => user_lt ucmp (small_user f) b | None => false end) eqn:E3.
  { apply andb_true_iff in E3 as [-> E3]. split; [done|]. exists f. split; [left|]. split; [done|]. left.
    destruct lo as [b|]; [|done]. exists b. by apply user_lt_spec in E3. }
  destruct (level0 && match hi with Some e => user_gt ucmp (large_user f) e | None => false end) eqn:E4.
  { apply andb_true_iff in E4 as [-> E4]. split; [done|]. exists f. split; [left|]. split; [done|]. right.
    destruct hi as [e|]; [|done]. exists e. by apply user_gt_spec in E4. }
  specialize (IH (inputs ++ [f])). specialize (Hr (inputs ++ [f])).
  destruct (GetOverlapping_scan ucmp level0 rest lo hi (inputs ++ [f])) as [out|[lo' hi']] eqn:Es; [|exact Hr].
  destruct IH as [-> Hc]. rewrite filter_cons_True by done. rewrite <- app_assoc. split; [done|].
  intros -> g [->|Hg]%elem_of_cons Ho'; [|by apply Hc]. cbn [andb] in E3, E4. split.
  - destruct lo as [b|]; [|done]. apply (cmp_le_ge ucompare). intros H. apply user_lt_spec in H. congruence.
  - destruct hi as [e|]; [|done]. apply (cmp_le_ge ucompare). intros H. apply user_gt_spec in H. congruence.
Qed.
(** How many files stick out of a range on either side. *)
Definition below_range (lo : option bytes) (f : FileMetaData) : Prop :=
  match lo with Some b => ucompare (small_user f) b = Lt | None => False end.
Definition above_range (hi : option bytes) (f : FileMetaData) : Prop :=
  match hi with Some e => ucompare e (large_user f) = Lt | None => False end.
#[global] Instance below_range_dec lo f : Decision (below_range lo f).
Proof. unfold below_range. destruct lo; solve_decision. Defined.
#[global] Instance above_range_dec hi f : Decision (above_range hi f).
Proof. unfold above_range. destruct hi; solve_decision. Defined.

Definition sticking (files : list FileMetaData) (lo hi : option bytes) : nat :=
  length (filter (below_range lo) files) + length (filter (above_range hi) files).

Lemma filter_length_lt {A} (P Q : A -> Prop) `{!forall x, Decision (P x)} `{!forall x, Decision (Q x)}
    (l : list A) x :
  (forall y, P y -> Q y) -> x ∈ l -> Q x -> ~ P x -> (length (filter P l) < length (filter Q l))%nat.
Proof.
  intros HPQ Hx HQ HP. assert (forall l', (length (filter P l') <= length (filter Q l'))%nat) as Hle.
  { induction l' as [|y l' IH]; [done|]. rewrite !filter_cons.
    destruct (decide (P y)) as [Hp|Hp]; [rewrite decide_True by auto; cbn; lia|].
    destruct (decide (Q y)); cbn; lia. }
  induction l as [|y l IH]; [by apply elem_of_nil in Hx|]. rewrite !filter_cons.
  apply elem_of_cons in Hx as [->|Hx].
  - rewrite decide_False, decide_True by done. cbn. specialize (Hle l). lia.
  - specialize (IH Hx). destruct (decide (P y)) as [Hp|Hp]; [rewrite decide_True by auto; cbn; lia|].
    destruct (decide (Q y)); cbn; lia.
Qed.

Lemma wider_refl lo hi : wider lo hi lo hi.
Proof. unfold wider. destruct lo, hi; rewrite ?(cmp_refl ucompare); done. Qed.

Lemma wider_trans lo1 hi1 lo2 hi2 lo3 hi3 :
  wider lo1 hi1 lo2 hi2 -> wider lo2 hi2 lo3 hi3 -> wider lo1 hi1 lo3 hi3.
Proof.
  unfold wider. intros [H1 H2] [H3 H4].
  destruct lo1, lo2, lo3, hi1, hi2, hi3; try done; split; try done;
    eapply (cmp_le_trans ucompare); eassumption.
Qed.

Lemma overlaps_wider lo hi lo' hi' f : wider lo hi lo' hi' -> overlaps lo hi f -> overlaps lo' hi' f.
Proof.
  unfold wider, overlaps. intros [H1 H2] [H3 H4].
  destruct lo, lo', hi, hi'; try done; split; try done; eapply (cmp_le_trans ucompare); eassumption.
Qed.

Lemma rounds_spec fuel level0 files lo hi :
  (sticking files lo hi < fuel)%nat ->
  exists out lo' hi', GetOverlapping_rounds ucmp fuel level0 files lo hi = Some out /\
    out = filter (overlaps lo' hi') files /\ wider lo hi lo' hi' /\
    if level0 then closed_range files lo' hi' /\
      forall lo2 hi2, wider lo hi lo2 hi2 -> closed_range files lo2 hi2 -> wider lo' hi' lo2 hi2
    else lo' = lo /\ hi' = hi.
Proof.
  revert lo hi. induction fuel as [|fuel IH]; intros lo hi Hm; [lia|]. cbn [GetOverlapping_rounds].
  pose proof (overlapping_scan_spec level0 files lo hi []) as Hs.
  destruct (GetOverlapping_scan ucmp level0 files lo hi []) as [out|[lo1 hi1]].
  - destruct Hs as [-> Hc]. exists (filter (overlaps lo hi) files), lo, hi. split; [done|]. split; [done|].
    split; [apply wider_refl|]. destruct level0; [|done]. split; [by apply Hc|done].
  - destruct Hs as (-> & f & Hf & Ho & Hmove).
    assert (wider lo hi lo1 hi1 /\ (sticking files lo1 hi1 < sticking files lo hi)%nat /\
      forall lo2 hi2, wider lo hi lo2 hi2 -> closed_range files lo2 hi2 -> wider lo1 hi1 lo2 hi2)
      as (Hw & Hlt & Hleast).
    { destruct Hmove as [(b & -> & -> & -> & Hb)|(e & -> & -> & -> & He)].
      - split; [|split].
        + split; [congruence|]. destruct hi; [|done]. by rewrite (cmp_refl ucompare).
        + unfold sticking. apply Nat.add_lt_mono_r. eapply (filter_length_lt _ _ files f); [|done|done|].
          * cbn. intros y Hy. by eapply (cmp_lt_trans ucompare).
          * cbn. by rewrite (cmp_refl ucompare).
        + intros lo2 hi2 Hw2 Hc2. destruct (Hc2 f Hf (overlaps_wider _ _ _ _ f Hw2 Ho)) as [Hl2 _].
          destruct Hw2 as [H1 H2]. by destruct lo2; split.
      - split; [|split].
        + split; [|congruence]. destruct lo; [|done]. by rewrite (cmp_refl ucompare).
        + unfold sticking. apply Nat.add_lt_mono_l. eapply (filter_length_lt _ _ files f); [|done|done|].
          * cbn. intros y Hy. by eapply (cmp_lt_trans ucompare).
          * cbn. by rewrite (cmp_refl ucompare).
        + intros lo2 hi2 Hw2 Hc2. destruct (Hc2 f Hf (overlaps_wider _ _ _ _ f Hw2 Ho)) as [_ Hh2].
          destruct Hw2 as [H1 H2]. by destruct hi2; split. }
    destruct (IH lo1 hi1 ltac:(lia)) as (out & lo' & hi' & E & Eo & Hw' & Hc' & Hl').
    exists out, lo', hi'. split; [done|]. split; [done|]. split; [by eapply wider_trans|].
    split; [done|]. intros lo2 hi2 Hw2 Hc2. apply Hl'; [by apply Hleast|done].
Qed.

Lemma GetOverlappingInputs_spec level files begin_ end_ :
  let lo := ExtractUserKey <$> begin_ in
  let hi := ExtractUserKey <$> end_ in
  exists out lo' hi', GetOverlappingInputs ucmp level files begin_ end_ = Some out /\
    out = filter (overlaps lo' hi') files /\ wider lo hi lo' hi' /\
    if decide (level = 0%nat) then closed_range files lo' hi' /\
      forall lo2 hi2, wider lo hi lo2 hi2 -> closed_range files lo2 hi2 -> wider lo' hi' lo2 hi2
    else lo' = lo /\ hi' = hi.
Proof.
  intros lo hi. unfold GetOverlappingInputs.
  destruct (rounds_spec (S (2 * length files)) (bool_decide (level = 0%nat)) files lo hi)
    as (out & lo' & hi' & E & Eo & Hw & H).
  { unfold sticking. pose proof (length_filter (below_range lo) files).
    pose proof (length_filter (above_range hi) files). lia. }
  exists out, lo', hi'. split; [exact E|]. split; [done|]. split; [done|].
  destruct (decide (level = 0%nat)) as [Hl|Hl].
  - by rewrite bool_decide_eq_true_2 in H.
  - by rewrite bool_decide_eq_false_2 in H.
Qed.

(** *** Boundary files *)

Lemma fold_largest (files : list FileMetaData) (k : bytes) :
  icompare k (fold_left (fun k f => match icompare (largest f) k with Gt => largest f | _ => k end) files k) <> Gt /\
  forall f, f ∈ files ->
    icompare (largest f)
      (fold_left (fun k f => match icompare (largest f) k with Gt => largest f | _ => k end) files k) <> Gt.
Proof.
  revert k. induction files as [|f files IH]; intros k; cbn.
  { rewrite (cmp_refl icompare). split; [done|]. by intros ? ?%elem_of_nil. }
  destruct (icompare (largest f) k) eqn:E.
  1,2: destruct (IH k) as [H1 H2]; split; [done|]; intros g [->|Hg]%elem_of_cons; [|by apply H2];
    eapply (cmp_le_trans icompare); [|exact H1]; congruence.
  destruct (IH (largest f)) as [H1 H2]. split.
  - eapply (cmp_le_trans icompare); [|exact H1]. apply (cmp_lt_gt icompare) in E. congruence.
  - intros g [->|Hg]%elem_of_cons; [done|by apply H2].
Qed.

(** No file of a level starts behind the largest key of the level. *)
Lemma no_boundary files k :
  Forall file_ok files -> FindLargestKey ucmp files = Some k ->
  FindSmallestBoundaryFile ucmp files k = None.
Proof.
  intros Hok Hk. assert (forall f, f ∈ files -> is_boundary ucmp k f = false) as Hb.
  { intros f Hf. unfold is_boundary. destruct files as [|f0 files]; [done|].
    unfold FindLargestKey in Hk. injection Hk as Hk.
    destruct (fold_largest (f0 :: files) (largest f0)) as [_ H]. specialize (H f Hf).
    change (icompare (largest f) (fold_left (fun k f => match icompare (largest f) k with
      Gt => largest f | _ => k end) (f0 :: files) (largest f0)) <> Gt) in H. cbn [fold_left] in H, Hk.
    rewrite Hk in H.
    rewrite list.Forall_forall in Hok. specialize (Hok f Hf). unfold file_ok in Hok.
    pose proof (cmp_le_trans icompare _ _ _ Hok H) as Hle.
    by destruct (icompare (smallest f) k). }
  unfold FindSmallestBoundaryFile. revert Hb. generalize files. clear.
  induction files as [|f files IH]; intros Hb; [done|]. cbn. rewrite (Hb f) by left.
  apply IH. intros g Hg. apply Hb. by right.
Qed.

Lemma AddBoundaryInputs_id level_files compaction_files :
  Forall file_ok level_files -> AddBoundaryInputs ucmp level_files compaction_files = Some compaction_files.
Proof.
  intros Hok. unfold AddBoundaryInputs. destruct (FindLargestKey ucmp level_files) as [k|] eqn:E; [|done].
  cbn [AddBoundary_loop]. by rewrite (no_boundary level_files k Hok E).
Qed.
End Correct.

(** ** Properties *)

(** The iterator over the files of a level is a cursor over their largest
    keys, and with it [FindFile]: on a level of disjoint files the binary search
    ends and lands on the first file whose largest key is not below the target,
    the one file of the level that can hold it. *)
Theorem level_iterator_refines ucmp `{!ComparatorLaws ucmp} (files : list FileMetaData) :
  disjoint_files ucmp files -> zlen files < 2 ^ 31 ->
  (forall key, FindFile ucmp files key =
     Some (Z.of_nat (seek_pos (InternalKeyComparator.Compare ucmp) key (map largest files)))) /\
  exists pos, Cursor (InternalKeyComparator.Compare ucmp) (LevelFileNumIterator ucmp files)
      (map (fun f => (largest f, file_value f)) files) pos /\
    pos (LevelFileNumIterator_new ucmp files) (length files).
Proof.
  intros Hd Hlen. split; [intros key; by apply FindFile_spec|].
  eexists. split; [by apply level_file_cursor|]. unfold LevelFileNumIterator_new.
  rewrite u32_small by lia. done.
Qed.

Definition sample_file (n : Z) (a b : bytes) : FileMetaData :=
  FileMetaData_new n 1000 (InternalKey a 9 kTypeValue) (InternalKey b 3 kTypeValue).
(** Three disjoint files, and three that overlap like those of level 0. *)
Definition sample_level : list FileMetaData :=
  [sample_file 4 (str:"a") (str:"c"); sample_file 5 (str:"f") (str:"h"); sample_file 6 (str:"m") (str:"p")].
Definition sample_level0 : list FileMetaData :=
  [sample_file 7 (str:"e") (str:"g"); sample_file 8 (str:"f") (str:"k"); sample_file 9 (str:"x") (str:"z")].

Lemma sample_disjoint : disjoint_files BytewiseComparator sample_level.
Proof. split; repeat constructor; vm_compute; congruence. Qed.

Lemma level_iterator_refines_witness :
  FindFile BytewiseComparator sample_level (InternalKey (str:"d") 5 kTypeValue) = Some 1.
Proof.
  destruct (level_iterator_refines BytewiseComparator sample_level sample_disjoint
    ltac:(vm_compute; reflexivity)) as [H _].
  rewrite H. vm_compute. reflexivity.
Defined.

(** The overlap test is exact: [SomeFileOverlapsRange] answers true just
    when a file of the list has keys between the two user keys (a missing key
    being unbounded), by scanning at level 0 and by one binary search in a level
    of disjoint files. *)
Theorem overlap_test_correct ucmp `{!ComparatorLaws ucmp} (disjoint : bool) (files : list FileMetaData)
    (lo hi : option bytes) :
  (disjoint = true -> disjoint_files ucmp files /\ Forall (fun f => key_wf (largest f)) files) ->
  zlen files < 2 ^ 31 ->
  exists b, SomeFileOverlapsRange ucmp disjoint files lo hi = Some b /\
    (b = true <-> exists f, f ∈ files /\ overlaps ucmp lo hi f).
Proof. by apply SomeFileOverlapsRange_spec. Qed.

Lemma overlap_test_correct_witness :
  exists b, SomeFileOverlapsRange BytewiseComparator true sample_level (Some (str:"d")) (Some (str:"e")) = Some b /\
    (b = true <-> exists f, f ∈ sample_level /\ overlaps BytewiseComparator (Some (str:"d")) (Some (str:"e")) f).
Proof.
  apply (overlap_test_correct BytewiseComparator true sample_level); [|vm_compute; reflexivity].
  intros _. split; [exact sample_disjoint|].
  repeat (constructor; [do 3 eexists; split; [reflexivity|split; vm_compute; discriminate]|]). constructor.
Defined.

(** The inputs of a compaction are complete.  [GetOverlappingInputs] always
    returns.  Above level 0 it returns exactly the files that overlap the range.
    At level 0 it returns the files that overlap the least range that contains
    the given one and out of which no file sticks: the range its restarts grow
    to is closed, and contained in every closed range around the given one. *)
Theorem overlapping_inputs_least ucmp `{!ComparatorLaws ucmp} (level : nat) (files : list FileMetaData)
    (begin_ end_ : option bytes) :
  let lo := ExtractUserKey <$> begin_ in
  let hi := ExtractUserKey <$> end_ in
  exists out lo' hi', GetOverlappingInputs ucmp level files begin_ end_ = Some out /\
    out = filter (overlaps ucmp lo' hi') files /\ wider ucmp lo hi lo' hi' /\
    if decide (level = 0%nat) then closed_range ucmp files lo' hi' /\
      forall lo2 hi2, wider ucmp lo hi lo2 hi2 -> closed_range ucmp files lo2 hi2 ->
        wider ucmp lo' hi' lo2 hi2
    else lo' = lo /\ hi' = hi.
Proof. by apply GetOverlappingInputs_spec. Qed.

Lemma overlapping_inputs_least_witness :
  exists out lo hi,
    GetOverlappingInputs BytewiseComparator 0 sample_level0
      (Some (InternalKey (str:"h") 5 kTypeValue)) (Some (InternalKey (str:"i") 5 kTypeValue)) = Some out /\
    out = filter (overlaps BytewiseComparator lo hi) sample_level0 /\ length out = 2%nat /\
    closed_range BytewiseComparator sample_level0 lo hi.
Proof.
  destruct (overlapping_inputs_least BytewiseComparator 0 sample_level0
    (Some (InternalKey (str:"h") 5 kTypeValue)) (Some (InternalKey (str:"i") 5 kTypeValue)))
    as (out & lo & hi & E & Eo & _ & Hc & _).
  exists out, lo, hi. split; [exact E|]. split; [exact Eo|]. split; [|exact Hc].
  vm_compute in E. injection E as <-. reflexivity.
Defined.

(** [AddBoundaryInputs] never adds a file: it starts from the largest key of
    the whole level instead of the largest key of the compaction's files, and
    no file of the level starts behind that. *)
Theorem boundary_inputs_never_added ucmp `{!ComparatorLaws ucmp} (level_files compaction_files : list FileMetaData) :
  Forall (file_ok ucmp) level_files ->
  AddBoundaryInputs ucmp level_files compaction_files = Some compaction_files.
Proof. by apply AddBoundaryInputs_id. Qed.

(** Two files that share the user key "k": the older version of "k" is behind. *)
Definition boundary_files : list FileMetaData :=
  [FileMetaData_new 4 1000 (InternalKey (str:"a") 9 kTypeValue) (InternalKey (str:"k") 8 kTypeValue);
   FileMetaData_new 5 1000 (InternalKey (str:"k") 3 kTypeValue) (InternalKey (str:"z") 2 kTypeValue)].

Lemma boundary_inputs_never_added_witness :
  AddBoundaryInputs BytewiseComparator boundary_files (take 1 boundary_files) = Some (take 1 boundary_files) /\
  (exists f, f ∈ boundary_files /\
    is_boundary BytewiseComparator (InternalKey (str:"k") 8 kTypeValue) f = true).
Proof.
  split.
  - apply (boundary_inputs_never_added BytewiseComparator boundary_files).
    repeat constructor; vm_compute; congruence.
  - eexists. split; [right; left|vm_compute; reflexivity].
Defined.

(** [TotalFileSize] is right only below 2 GB: it is the sum of the sizes
    when that fits an [int]; beyond, the 32-bit sum wraps. *)
Theorem total_file_size_bound (files : list FileMetaData) :
  Forall (fun f => 0 <= file_size f) files ->
  foldr (fun f n => file_size f + n) 0 files < 2 ^ 31 ->
  TotalFileSize files = foldr (fun f n => file_size f + n) 0 files.
Proof.
  intros Hf Hsum. unfold TotalFileSize.
  assert (forall acc, 0 <= acc -> acc + foldr (fun f n => file_size f + n) 0 files < 2 ^ 31 ->
    fold_left (fun sum f => s32 (sum + file_size f)) files acc =
    acc + foldr (fun f n => file_size f + n) 0 files) as H; [|rewrite H; lia].
  clear Hsum. induction Hf as [|f files H0 Hf IH]; intros acc Ha Hs; cbn in *; [lia|].
  assert (0 <= foldr (fun f n => file_size f + n) 0 files).
  { clear -Hf. induction Hf; cbn; lia. }
  rewrite s32_small by lia. rewrite IH; lia.
Qed.

Lemma total_file_size_bound_witness :
  TotalFileSize sample_level = 3000 /\
  TotalFileSize [FileMetaData_new 1 1500000000 [] []; FileMetaData_new 2 1500000000 [] []] < 0.
Proof.
  split; [|vm_compute; reflexivity].
  rewrite (total_file_size_bound sample_level); [reflexivity| |vm_compute; reflexivity].
  repeat constructor; vm_compute; congruence.
Defined.
