(* ===== verification/VersionBuilder.v ===== *)
(** * Versions and their builder

    src/db/version_set.h ([Version]) and src/db/version_set.cc
    ([VersionSet::Builder]): a version is the list of table files of each level;
    the builder makes a new version out of an old one and a sequence of edits.

    [FileMetaData*] is the file's record: files are told apart by their number.
    A [double] is IEEE binary64 ([SpecFloat]). *)

From Stdlib Require Import SpecFloat.
From stdpp Require Import gmap sets sorting.
From S2P Require Import Prelude Slice Coding Comparator DbFormat Iterator VersionEdit VersionFiles.

(** A loop that may fail. *)
Fixpoint fold_opt {A B} (f : A -> B -> option A) (l : list B) (a : A) : option A :=
  match l with
  | [] => Some a
  | b :: l => a ← f a b; fold_opt f l a
  end.

(** ** Versions *)

(** [class Version], without its place in the list of versions and its
    reference count. *)
Record Version := mkVersion {
  files_ : list (list FileMetaData);
  file_to_compact_ : option FileMetaData; file_to_compact_level : Z;
  compaction_score_ : spec_float; compaction_level_ : Z }.

Definition level_files (v : Version) (level : nat) : list FileMetaData := default [] (files_ v !! level).

(** A [double]. *)
Definition double_of (n : Z) : spec_float := binary_normalize 53 1024 n 0 false.
Definition double_div : spec_float -> spec_float -> spec_float := SFdiv 53 1024.
Definition double_mul : spec_float -> spec_float -> spec_float := SFmul 53 1024.

(** [Version::Version] *)
Definition Version_new : Version :=
  mkVersion (replicate kNumLevels []) None (-1) (double_of (-1)) (-1).

Section Operations.
Context (ucmp : Comparator).
Abbreviation ucompare := (Compare ucmp).
Abbreviation icompare := (InternalKeyComparator.Compare ucmp).
(** ** The builder *)

(** [struct LevelState]; [added_files] is a set in the order of
    [BySmallestKey]. *)
Record LevelState := mkLevelState { deleted_files : gset Z; added_files : list FileMetaData }.

(** [BySmallestKey] *)
Definition by_smallest (f1 f2 : FileMetaData) : comparison :=
  match icompare (smallest f1) (smallest f2) with
  | Eq => number f1 ?= number f2
  | r => r
  end.

Fixpoint file_insert (f : FileMetaData) (l : list FileMetaData) : list FileMetaData :=
  match l with
  | [] => [f]
  | g :: l' =>
      match by_smallest f g with Lt => f :: l | Eq => l | Gt => g :: file_insert f l' end
  end.

(** [class VersionSet::Builder]: the base's files and the level states. *)
Record Builder := mkBuilder { base_ : list (list FileMetaData); level_ : list LevelState }.

Definition Builder_new (base : Version) : Builder :=
  mkBuilder (files_ base) (replicate kNumLevels (mkLevelState ∅ [])).

(** The file a builder adds: references and allowed seeks are set. *)
Definition prepare_file (f : FileMetaData) : FileMetaData :=
  let seeks := s32 (file_size f / 16384) in
  mkFile 1 (if seeks <? 100 then 100 else seeks) (number f) (file_size f) (smallest f) (largest f).

Definition on_level (l : list LevelState) (level : Z) (f : LevelState -> LevelState) : list LevelState :=
  alter f (Z.to_nat level) l.

(** [Builder::Apply]: the compaction pointers of the version set and the
    builder. *)
Definition Apply (compact_pointer : list bytes) (b : Builder) (edit : VersionEdit) : list bytes * Builder :=
  let compact_pointer :=
    fold_left (fun cp p => <[Z.to_nat (fst p) := snd p]> cp) (compact_pointers_ edit) compact_pointer in
  let level := fold_left (fun l p =>
      on_level l (fst p) (fun s => mkLevelState ({[snd p]} ∪ deleted_files s) (added_files s)))
    (deleted_files_ edit) (level_ b) in
  let level := fold_left (fun l p =>
      let f := prepare_file (snd p) in
      on_level l (fst p) (fun s =>
        mkLevelState (deleted_files s ∖ {[number f]}) (file_insert f (added_files s))))
    (new_files_ edit) level in
  (compact_pointer, mkBuilder (base_ b) level).

(** [MaybeAddFile], without the count of references: in the levels above 0 it
    asserts that a file comes after the one before it. *)
Definition comes_after (prev f : FileMetaData) : bool :=
  match icompare (largest prev) (smallest f) with Lt => true | _ => false end.
Definition MaybeAddFile (level : nat) (s : LevelState) (files : list FileMetaData) (f : FileMetaData) : option (list FileMetaData) :=
  if decide (number f ∈ deleted_files s) then Some files
  else if match level, list.last files with S _, Some prev => comes_after prev f | _, _ => true end then Some (files ++ [f])
  else None.

(** [std::upper_bound]: how many files come before the first that is after
    [f]. *)
Fixpoint upper_bound (base : list FileMetaData) (f : FileMetaData) : nat :=
  match base with
  | [] => 0
  | g :: base => match by_smallest f g with Lt => 0 | _ => S (upper_bound base f) end
  end.

(** [Builder::SaveTo] for one level: the merge, and the test for overlaps that
    aborts. *)
Fixpoint SaveTo_level (level : nat) (s : LevelState) (added base files : list FileMetaData) : option (list FileMetaData) :=
  match added with
  | [] => fold_opt (MaybeAddFile level s) base files
  | f :: added =>
      let n := upper_bound base f in
      files ← fold_opt (MaybeAddFile level s) (take n base) files;
      files ← MaybeAddFile level s files f;
      SaveTo_level level s added (drop n base) files
  end.

Fixpoint no_overlap (files : list FileMetaData) : bool :=
  match files with
  | prev :: (f :: _) as rest => comes_after prev f && no_overlap rest
  | _ => true
  end.

Fixpoint SaveTo_levels (level : nat) (ls : list LevelState) (base : list (list FileMetaData)) : option (list (list FileMetaData)) :=
  match ls, base with
  | s :: ls, b :: base =>
      files ← SaveTo_level level s (added_files s) b [];
      if (0 <? level)%nat && negb (no_overlap files) then None
      else
        rest ← SaveTo_levels (S level) ls base;
        Some (files :: rest)
  | _, _ => Some []
  end.

Definition SaveTo (b : Builder) : option (list (list FileMetaData)) := SaveTo_levels 0 (level_ b) (base_ b).

(** What [SaveTo] makes when nothing overlaps. *)
Definition add_live (s : LevelState) (files : list FileMetaData) (f : FileMetaData) : list FileMetaData :=
  if decide (number f ∈ deleted_files s) then files else files ++ [f].

Fixpoint merge_level (s : LevelState) (added base files : list FileMetaData) : list FileMetaData :=
  match added with
  | [] => fold_left (add_live s) base files
  | f :: added =>
      let n := upper_bound base f in
      let files := fold_left (add_live s) (take n base) files in
      merge_level s added (drop n base) (add_live s files f)
  end.

Definition merge_levels (b : Builder) : list (list FileMetaData) :=
  map (fun sb => merge_level (fst sb) (added_files (fst sb)) (snd sb) []) (zip (level_ b) (base_ b)).
End Operations.

(** ** Proofs *)

Section Correct.
Context (ucmp : Comparator) `{!ComparatorLaws ucmp}.
Abbreviation icompare := (InternalKeyComparator.Compare ucmp).
Abbreviation by_smallest := (by_smallest ucmp).

Lemma by_smallest_eq f g : by_smallest f g = Eq -> number f = number g.
Proof.
  unfold VersionBuilder.by_smallest. destruct (icompare _ _); try done. by intros H%Z.compare_eq.
Qed.

#[export] Instance by_smallest_laws : OrderLaws by_smallest.
Proof.
  split; unfold VersionBuilder.by_smallest.
  - intros f g. rewrite (cmp_antisym icompare (smallest f) (smallest g)).
    destruct (icompare _ _); cbn; try done. apply Z.compare_antisym.
  - intros f g h H1 H2.
    destruct (icompare (smallest f) (smallest g)) eqn:E1; [| |done].
    + rewrite (cmp_eq_l icompare _ _ (smallest h) E1).
      destruct (icompare (smallest g) (smallest h)); try done.
      rewrite Z.compare_ngt_iff in *. lia.
    + destruct (icompare (smallest g) (smallest h)) eqn:E2; [| |done].
      * by rewrite <- (cmp_eq_r icompare _ _ (smallest f) E2), E1.
      * by rewrite (cmp_lt_trans icompare _ _ _ E1 E2).
Qed.

(** The order of a level's files. *)
Definition files_sorted : list FileMetaData -> Prop := StronglySorted (fun f g => by_smallest f g = Lt).

Definition lower (s : LevelState) (f : FileMetaData) : Prop := number f ∉ deleted_files s.
#[export] Instance lower_dec s f : Decision (lower s f).
Proof. unfold lower. apply _. Defined.

(** *** Merging two sorted lists of files *)

Fixpoint merge_files (added base : list FileMetaData) : list FileMetaData :=
  match added with
  | [] => base
  | f :: added =>
      let n := upper_bound ucmp base f in take n base ++ f :: merge_files added (drop n base)
  end.

Lemma add_live_fold s l files : fold_left (add_live s) l files = files ++ filter (lower s) l.
Proof.
  revert files. induction l as [|f l IH]; intros files; cbn [fold_left]; [by rewrite app_nil_r|].
  rewrite IH. unfold add_live. rewrite filter_cons. unfold lower at 2.
  destruct (decide (number f ∈ deleted_files s)) as [Hd|Hd]; destruct (decide _); try done.
  by rewrite <- app_assoc.
Qed.

Lemma merge_level_merge s added base files :
  merge_level ucmp s added base files = files ++ filter (lower s) (merge_files added base).
Proof.
  revert base files. induction added as [|f added IH]; intros base files; cbn [merge_level merge_files].
  - apply add_live_fold.
  - rewrite IH. cbn zeta. rewrite add_live_fold, list.filter_app, filter_cons.
    unfold add_live, lower at 3.
    destruct (decide (number f ∈ deleted_files s)); destruct (decide _); try done; by rewrite <- !app_assoc.
Qed.

Lemma merge_files_elem added base g : g ∈ merge_files added base <-> g ∈ added \/ g ∈ base.
Proof.
  revert base. induction added as [|f added IH]; intros base; cbn [merge_files]; [set_solver|].
  cbn zeta. rewrite elem_of_app, elem_of_cons, IH, elem_of_cons.
  assert (g ∈ base <-> g ∈ take (upper_bound ucmp base f) base \/ g ∈ drop (upper_bound ucmp base f) base).
  { by rewrite <- elem_of_app, take_drop. }
  tauto.
Qed.

Lemma upper_bound_split base f :
  files_sorted base -> (forall g, g ∈ base -> by_smallest f g <> Eq) ->
  Forall (fun g => by_smallest g f = Lt) (take (upper_bound ucmp base f) base) /\
  Forall (fun g => by_smallest f g = Lt) (drop (upper_bound ucmp base f) base).
Proof.
  induction 1 as [|g base Hs IH Hg]; intros Hne; cbn [upper_bound]; [by split|].
  destruct (by_smallest f g) eqn:E; cbn [take drop].
  - exfalso. apply (Hne g); [by left|done].
  - split; [constructor|]. constructor; [done|]. eapply list.Forall_impl; [exact Hg|].
    intros h Hh. by apply (cmp_lt_trans by_smallest _ g).
  - destruct IH as [IH1 IH2]; [set_solver|]. split; [|done]. constructor; [|done].
    by apply (cmp_lt_gt by_smallest).
Qed.

Lemma merge_files_sorted added base :
  files_sorted added -> files_sorted base ->
  (forall f g, f ∈ added -> g ∈ base -> by_smallest f g <> Eq) ->
  files_sorted (merge_files added base).
Proof.
  intros Ha. revert base. induction Ha as [|f added Ha IH Hf]; intros base Hb Hne; cbn [merge_files]; [done|].
  cbn zeta. set (n := upper_bound ucmp base f).
  destruct (upper_bound_split base f Hb) as [Ht Hd]; [intros g Hg; apply Hne; [by left|done]|].
  fold n in Ht, Hd.
  assert (files_sorted (take n base) /\ files_sorted (drop n base)) as [Hst Hsd].
  { rewrite <- (take_drop n base) in Hb. unfold files_sorted in *. apply StronglySorted_app in Hb. tauto. }
  assert (Forall (fun g => by_smallest f g = Lt) (merge_files added (drop n base))) as Hm.
  { apply list.Forall_forall. intros g [Hg|Hg]%merge_files_elem; [by eapply (proj1 (list.Forall_forall _ _) Hf)|].
    by eapply (proj1 (list.Forall_forall _ _) Hd). }
  apply StronglySorted_app. split; [|split; [done|]].
  - intros x y Hx [->|Hy]%elem_of_cons; [by eapply (proj1 (list.Forall_forall _ _) Ht)|].
    eapply (cmp_lt_trans by_smallest); [by eapply (proj1 (list.Forall_forall _ _) Ht)|].
    by eapply (proj1 (list.Forall_forall _ _) Hm).
  - constructor; [|done]. apply IH; [done|]. intros x y Hx Hy. apply Hne; [by right|].
    rewrite <- (take_drop n base). apply elem_of_app. by right.
Qed.

Lemma filter_sorted (P : FileMetaData -> Prop) `{!forall f, Decision (P f)} l :
  files_sorted l -> files_sorted (filter P l).
Proof.
  induction 1 as [|f l Hs IH Hf]; [constructor|]. rewrite filter_cons. destruct (decide _); [|done].
  constructor; [done|]. apply list.Forall_forall. intros g [_ Hg]%list_elem_of_filter.
  by eapply (proj1 (list.Forall_forall _ _) Hf).
Qed.

Lemma file_insert_perm f l :
  (forall h, h ∈ l -> by_smallest f h <> Eq) -> file_insert ucmp f l ≡ₚ f :: l.
Proof.
  induction l as [|h l IH]; intros Hne; cbn [file_insert]; [done|].
  destruct (by_smallest f h) eqn:E; [by destruct (Hne h); [left|]|done|].
  rewrite IH by set_solver. apply Permutation_swap.
Qed.

Lemma file_insert_elem f l g :
  (forall h, h ∈ l -> by_smallest f h <> Eq) -> g ∈ file_insert ucmp f l <-> g = f \/ g ∈ l.
Proof. intros Hne. by rewrite file_insert_perm, elem_of_cons. Qed.

Lemma file_insert_sorted f l :
  files_sorted l -> (forall h, h ∈ l -> by_smallest f h <> Eq) -> files_sorted (file_insert ucmp f l).
Proof.
  induction 1 as [|h l Hs IH Hh]; intros Hne; cbn [file_insert]; [repeat constructor|].
  destruct (by_smallest f h) eqn:E; [by destruct (Hne h); [left|]| |].
  - constructor; [by constructor|]. constructor; [done|]. eapply list.Forall_impl; [exact Hh|].
    intros g Hg. by apply (cmp_lt_trans by_smallest _ h).
  - constructor; [apply IH; set_solver|]. apply list.Forall_forall.
    intros g [->|Hg]%file_insert_elem; [by apply (cmp_lt_gt by_smallest)| |set_solver].
    by eapply (proj1 (list.Forall_forall _ _) Hh).
Qed.
(** *** Applying edits *)

(** What an edit adds to a level and deletes from it. *)
Definition edit_new (level : nat) (e : VersionEdit) : list FileMetaData :=
  map (fun p => prepare_file (snd p)) (filter (fun p => Z.to_nat (fst p) = level) (new_files_ e)).
Definition edit_deleted (level : nat) (e : VersionEdit) : list Z :=
  map snd (filter (fun p => Z.to_nat (fst p) = level) (deleted_files_ e)).

(** The effect of an edit on a level, as a bag of files. *)
Definition edited (level : nat) (files : list FileMetaData) (e : VersionEdit) : list FileMetaData :=
  filter (fun f => number f ∉ edit_deleted level e) files ++ edit_new level e.

(** The files added to the level are new ones. *)
Definition fresh_files (level : nat) (base : list FileMetaData) (es : list VersionEdit) : Prop :=
  NoDup (map number (base ++ concat (map (edit_new level) es))).

Lemma fold_on_level {X} (lv : X -> Z) (g : X -> LevelState -> LevelState) xs ls l :
  fold_left (fun ls x => on_level ls (lv x) (g x)) xs ls !! l =
  (fun s => fold_left (fun s x => g x s) (filter (fun x => Z.to_nat (lv x) = l) xs) s) <$> ls !! l.
Proof.
  revert ls. induction xs as [|x xs IH]; intros ls; cbn [fold_left]; [by destruct (ls !! l)|].
  rewrite IH, filter_cons. unfold on_level. destruct (decide _) as [<-|Hne].
  - rewrite list_lookup_alter_eq. by destruct (ls !! _).
  - by rewrite list_lookup_alter_ne.
Qed.

Lemma fold_delete_files ns s :
  fold_left (fun s (p : Z * Z) => mkLevelState ({[snd p]} ∪ deleted_files s) (added_files s)) ns s =
  mkLevelState (list_to_set (map snd ns) ∪ deleted_files s) (added_files s).
Proof.
  revert s. induction ns as [|p ns IH]; intros s; cbn [fold_left map list_to_set].
  - destruct s as [d a]. cbn [deleted_files added_files]. f_equal. set_solver.
  - rewrite IH. cbn [deleted_files added_files]. f_equal. set_solver.
Qed.

(** A level state after new files. *)
Definition add_new (s : LevelState) (f : FileMetaData) : LevelState :=
  mkLevelState (deleted_files s ∖ {[number f]}) (file_insert ucmp f (added_files s)).

Lemma add_new_spec fs s :
  files_sorted (added_files s) -> NoDup (map number fs) ->
  (forall h, h ∈ added_files s -> number h ∉ map number fs) ->
  let s' := fold_left add_new fs s in
  deleted_files s' = deleted_files s ∖ list_to_set (map number fs) /\
  files_sorted (added_files s') /\
  forall g, g ∈ added_files s' <-> g ∈ added_files s \/ g ∈ fs.
Proof.
  cbn zeta. revert s. induction fs as [|f fs IH]; intros s Hs Hn Hd; cbn [fold_left].
  { cbn. split; [set_solver|]. split; [done|]. set_solver. }
  cbn [map] in Hn, Hd. apply list.NoDup_cons in Hn as [Hnf Hn].
  assert (forall h, h ∈ added_files s -> by_smallest f h <> Eq) as Hne.
  { intros h Hh He%by_smallest_eq. apply (Hd h Hh). rewrite He. by left. }
  destruct (IH (add_new s f)) as (Ed & Hs' & He); cbn [add_new deleted_files added_files] in *.
  - by apply file_insert_sorted.
  - done.
  - intros h [->|Hh]%file_insert_elem; [done| |done]. specialize (Hd h Hh). set_solver.
  - split; [rewrite Ed; cbn [map list_to_set]; set_solver|]. split; [done|].
    intros g. rewrite He, file_insert_elem by done. set_solver.
Qed.

Definition Apply_all (cb : list bytes * Builder) (es : list VersionEdit) : list bytes * Builder :=
  fold_left (fun cb e => Apply ucmp (fst cb) (snd cb) e) es cb.

Lemma Apply_all_pointers cp cp' b es : snd (Apply_all (cp, b) es) = snd (Apply_all (cp', b) es).
Proof.
  unfold Apply_all. revert cp cp' b. induction es as [|e es IH]; intros cp cp' b; cbn [fold_left fst snd]; [done|]. apply IH.
Qed.

Lemma fold_add_new (fs : list (Z * FileMetaData)) s :
  fold_left (fun s p => mkLevelState (deleted_files s ∖ {[number (prepare_file (snd p))]})
    (file_insert ucmp (prepare_file (snd p)) (added_files s))) fs s =
  fold_left add_new (map (fun p => prepare_file (snd p)) fs) s.
Proof. revert s. induction fs as [|p fs IH]; intros s; cbn [fold_left map]; [done|]. by rewrite IH. Qed.

Lemma Apply_level cp b e l :
  level_ (snd (Apply ucmp cp b e)) !! l =
  (fun s => fold_left add_new (edit_new l e)
     (mkLevelState (list_to_set (edit_deleted l e) ∪ deleted_files s) (added_files s))) <$> level_ b !! l.
Proof.
  unfold Apply. cbn [snd level_]. rewrite !fold_on_level.
  destruct (level_ b !! l) as [s|]; [|done]. cbn [fmap option_fmap option_map]. f_equal.
  by rewrite fold_delete_files, fold_add_new.
Qed.

Lemma fresh_snoc l base es e :
  fresh_files l base (es ++ [e]) ->
  fresh_files l base es /\ NoDup (map number (edit_new l e)) /\
  forall f, f ∈ base ++ concat (map (edit_new l) es) -> number f ∉ map number (edit_new l e).
Proof.
  unfold fresh_files. rewrite (map_app (edit_new l) es [e]), List.concat_app. cbn [map concat]. rewrite app_nil_r, app_assoc, map_app.
  intros (H1 & H2 & H3)%list.NoDup_app.
  split; [done|]. split; [done|]. intros f Hf. apply H2. by apply list_elem_of_fmap_2.
Qed.

Lemma edited_elem l es base f :
  f ∈ fold_left (edited l) es base -> f ∈ base ++ concat (map (edit_new l) es).
Proof.
  revert base. induction es as [|e es IH]; intros base; cbn [fold_left map concat]; [by rewrite app_nil_r|].
  intros [Hf|Hf]%IH%elem_of_app; [|set_solver]. unfold edited in Hf.
  apply elem_of_app in Hf as [[_ Hf]%list_elem_of_filter|Hf]; set_solver.
Qed.

Lemma NoDup_numbers_filter (P : FileMetaData -> Prop) `{!forall f, Decision (P f)} fs :
  NoDup (map number fs) -> NoDup (map number (filter P fs)).
Proof.
  induction fs as [|f fs IH]; [done|]. cbn [map]. intros [Hf Hn]%list.NoDup_cons.
  rewrite filter_cons. destruct (decide _); [|by apply IH]. cbn [map]. apply list.NoDup_cons.
  split; [|by apply IH]. intros (g & E & [_ Hg]%list_elem_of_filter)%list_elem_of_fmap.
  apply Hf. rewrite E. by apply list_elem_of_fmap_2.
Qed.

Lemma edited_NoDup l es base :
  fresh_files l base es -> NoDup (map number (fold_left (edited l) es base)).
Proof.
  induction es as [|e es IH] using rev_ind; intros Hf.
  - unfold fresh_files in Hf. cbn [map concat] in Hf. by rewrite app_nil_r in Hf.
  - apply fresh_snoc in Hf as (Hf & Hn & Hd). rewrite fold_left_app. cbn [fold_left edited].
    unfold edited. rewrite map_app. apply list.NoDup_app.
    split; [by apply NoDup_numbers_filter, IH|]. split; [|done].
    intros n (f & -> & [_ Hx%edited_elem]%list_elem_of_filter)%list_elem_of_fmap. by apply Hd.
Qed.

(** The state of a level after a sequence of edits. *)
Record level_replayed (l : nat) (base : list FileMetaData) (es : list VersionEdit) (s : LevelState) : Prop := {
  lr_sorted : files_sorted (added_files s);
  lr_added : forall f, f ∈ added_files s <-> f ∈ concat (map (edit_new l) es);
  lr_live : forall f, f ∈ base ++ concat (map (edit_new l) es) ->
    (lower s f <-> f ∈ fold_left (edited l) es base) }.

Lemma replay_level l base es cp b :
  level_ b !! l = Some (mkLevelState ∅ []) -> fresh_files l base es ->
  exists s, level_ (snd (Apply_all (cp, b) es)) !! l = Some s /\ level_replayed l base es s.
Proof.
  intros Hb. induction es as [|e es IH] using rev_ind; intros Hf.
  { exists (mkLevelState ∅ []). split; [done|]. split; cbn; [constructor|set_solver|].
    intros f. unfold lower. set_solver. }
  apply fresh_snoc in Hf as (Hf & Hn & Hd). destruct (IH Hf) as (s & Hs & [Hss Hsa Hsl]).
  unfold Apply_all in *. rewrite fold_left_app. cbn [fold_left]. rewrite Apply_level, Hs.
  cbn [fmap option_fmap option_map]. eexists. split; [done|].
  set (s0 := mkLevelState _ _).
  destruct (add_new_spec (edit_new l e) s0) as (Ed & Es & Ea).
  { exact Hss. }
  { exact Hn. }
  { intros h Hh. apply Hd. apply elem_of_app. right. by apply Hsa. }
  split; [exact Es| |].
  - intros f. rewrite Ea, map_app, List.concat_app. cbn [s0 added_files map concat].
    rewrite Hsa, app_nil_r. set_solver.
  - intros f. rewrite map_app, List.concat_app, fold_left_app. cbn [map concat fold_left].
    rewrite app_nil_r, app_assoc. unfold lower, edited. rewrite Ed. cbn [s0 deleted_files].
    intros [Hf0|Hf0]%elem_of_app.
    + pose proof (Hd f Hf0) as Hnf. pose proof (Hsl f Hf0) as Hl. unfold lower in Hl.
      rewrite elem_of_app, list_elem_of_filter, <- Hl.
      assert (f ∉ edit_new l e) by (intros Hx; by apply Hnf, list_elem_of_fmap_2).
      rewrite elem_of_difference, elem_of_union, !elem_of_list_to_set. tauto.
    + assert (number f ∈ map number (edit_new l e)) by by apply list_elem_of_fmap_2.
      rewrite elem_of_app, elem_of_difference, !elem_of_list_to_set. tauto.
Qed.
(** *** Saving *)

Lemma files_sorted_NoDup fs : files_sorted fs -> NoDup fs.
Proof.
  induction 1 as [|f fs Hs IH Hf]; constructor; [|done]. intros Hx.
  pose proof (proj1 (list.Forall_forall _ _) Hf _ Hx) as E. cbn beta in E. by rewrite (cmp_refl by_smallest) in E.
Qed.

Lemma files_sorted_unique fs gs : files_sorted fs -> files_sorted gs -> fs ≡ₚ gs -> fs = gs.
Proof.
  intros Hf Hg. apply StronglySorted_unique_strong with (fun f g => by_smallest f g = Lt); [|done|done].
  intros x y _ _ H1%(cmp_lt_gt by_smallest) H2. congruence.
Qed.

Lemma merge_levels_lookup b l s base :
  level_ b !! l = Some s -> base_ b !! l = Some base ->
  merge_levels ucmp b !! l = Some (filter (lower s) (merge_files (added_files s) base)).
Proof.
  intros Hs Hb. unfold merge_levels. rewrite list_lookup_fmap.
  rewrite (proj2 (lookup_zip_with_Some _ _ _ l (s, base))) by eauto. cbn [fmap option_fmap option_map fst snd].
  by rewrite merge_level_merge.
Qed.

Lemma base_Apply_all cb es : base_ (snd (Apply_all cb es)) = base_ (snd cb).
Proof. revert cb. induction es as [|e es IH]; intros cb; cbn [Apply_all fold_left]; [done|].
  etrans; [apply IH|]. done. Qed.

Lemma replayed_files l base es s :
  files_sorted base -> fresh_files l base es -> level_replayed l base es s ->
  let files := filter (lower s) (merge_files (added_files s) base) in
  files_sorted files /\ files ≡ₚ fold_left (edited l) es base.
Proof.
  intros Hb Hf [Hs Ha Hl]. cbn zeta.
  assert (files_sorted (filter (lower s) (merge_files (added_files s) base))) as Hsorted.
  { apply filter_sorted, merge_files_sorted; [done|done|].
    intros f g Hx%Ha Hg E%by_smallest_eq. unfold fresh_files in Hf. rewrite map_app in Hf.
    apply list.NoDup_app in Hf as (_ & Hd & _). apply (Hd (number g)); [by apply list_elem_of_fmap_2|].
    rewrite <- E. by apply list_elem_of_fmap_2. }
  split; [done|]. apply NoDup_Permutation; [by apply files_sorted_NoDup| |].
  - by eapply NoDup_fmap_1, edited_NoDup.
  - intros f. rewrite list_elem_of_filter, merge_files_elem, Ha. split.
    + intros [Hlow Hin]. apply Hl; [|done]. apply elem_of_app. tauto.
    + intros Hin. pose proof (edited_elem _ _ _ _ Hin) as Hx. split; [by apply Hl|].
      apply elem_of_app in Hx. tauto.
Qed.

(** A version whose levels are in order. *)
Definition version_sorted (files : list (list FileMetaData)) : Prop :=
  length files = kNumLevels /\ Forall files_sorted files.

(** The edits add new files only. *)
Definition fresh_edits (files : list (list FileMetaData)) (es : list VersionEdit) : Prop :=
  forall l base, files !! l = Some base -> fresh_files l base es.

(** The files of the next version. *)
Definition saved (cp : list bytes) (v : list (list FileMetaData)) (es : list VersionEdit) :=
  merge_levels ucmp (snd (Apply_all (cp, mkBuilder v (replicate kNumLevels (mkLevelState ∅ []))) es)).

Lemma length_on_level_fold {X} (lv : X -> Z) (g : X -> LevelState -> LevelState) xs ls :
  length (fold_left (fun ls x => on_level ls (lv x) (g x)) xs ls) = length ls.
Proof.
  revert ls. induction xs as [|x xs IH]; intros ls; cbn [fold_left]; [done|].
  rewrite IH. apply length_alter.
Qed.

Lemma length_Apply_all cb es : length (level_ (snd (Apply_all cb es))) = length (level_ (snd cb)).
Proof.
  revert cb. induction es as [|e es IH]; intros cb; cbn [Apply_all fold_left]; [done|].
  etrans; [apply IH|]. unfold Apply. cbn [snd level_]. by rewrite !length_on_level_fold.
Qed.

Lemma length_saved cp v es : length v = kNumLevels -> length (saved cp v es) = kNumLevels.
Proof.
  intros Hv. unfold saved, merge_levels. rewrite length_map, length_zip_with_l; rewrite length_Apply_all.
  - done.
  - rewrite base_Apply_all. cbn [snd base_ level_]. by rewrite length_replicate, Hv.
Qed.

Lemma saved_lookup cp v es l base :
  version_sorted v -> fresh_edits v es -> v !! l = Some base ->
  exists files, saved cp v es !! l = Some files /\
    files_sorted files /\ files ≡ₚ fold_left (edited l) es base.
Proof.
  intros [Hlen Hv] Hf Hb. unfold saved. set (b := mkBuilder _ _).
  destruct (replay_level l base es cp b) as (s & Hs & Hr).
  { apply lookup_replicate. split; [done|]. apply lookup_lt_Some in Hb. lia. }
  { by apply Hf. }
  rewrite (merge_levels_lookup _ _ s base); [|exact Hs|by rewrite base_Apply_all].
  eexists. split; [done|]. apply replayed_files; [|by apply Hf|done]. by eapply Forall_lookup_1.
Qed.

Lemma saved_sorted cp v es : version_sorted v -> fresh_edits v es -> version_sorted (saved cp v es).
Proof.
  intros Hv Hf. split; [by apply length_saved, Hv|]. apply Forall_lookup. intros l files Hl.
  assert (l < length v)%nat as Hlt.
  { apply lookup_lt_Some in Hl. rewrite length_saved in Hl by apply Hv. destruct Hv as [-> _]. done. }
  destruct (lookup_lt_is_Some_2 v l Hlt) as [base Hb].
  destruct (saved_lookup cp v es l base) as (files' & E & Hs & _); [done..|]. congruence.
Qed.

Lemma saved_snoc cp cp' v es e :
  version_sorted v -> fresh_edits v (es ++ [e]) ->
  saved cp v (es ++ [e]) = saved cp' (saved cp v es) [e].
Proof.
  intros Hv Hf.
  assert (fresh_edits v es) as Hf1 by (intros l base Hb; by apply (fresh_snoc _ _ _ _ (Hf l base Hb))).
  pose proof (saved_sorted cp v es Hv Hf1) as Hv'.
  assert (fresh_edits (saved cp v es) [e]) as Hf2.
  { intros l files Hl.
    assert (is_Some (v !! l)) as [base Hb].
    { apply lookup_lt_is_Some_2. apply lookup_lt_Some in Hl. destruct Hv as [-> _].
      by destruct Hv' as [<- _]. }
    destruct (saved_lookup cp v es l base) as (files' & E & _ & Hp); [done..|].
    assert (files' = files) as -> by congruence. clear E.
    destruct (fresh_snoc _ _ _ _ (Hf l base Hb)) as (_ & Hn & Hd).
    unfold fresh_files. cbn [map concat]. rewrite app_nil_r, map_app. apply list.NoDup_app.
    split; [rewrite Hp; by apply edited_NoDup, Hf1|]. split; [|done].
    intros n (f & -> & Hx)%list_elem_of_fmap. rewrite Hp in Hx. by apply Hd, edited_elem. }
  apply list_eq_same_length with kNumLevels; [by apply length_saved, Hv'|by apply length_saved, Hv|].
  intros l f1 f2 Hlt H1 H2.
  destruct (lookup_lt_is_Some_2 v l) as [base Hb]; [destruct Hv as [-> _]; done|].
  destruct (saved_lookup cp v es l base) as (fs & E & _ & Hp); [done..|].
  destruct (saved_lookup cp v (es ++ [e]) l base) as (g1 & E1 & Hs1 & Hp1); [done..|].
  destruct (saved_lookup cp' (saved cp v es) [e] l fs) as (g2 & E2 & Hs2 & Hp2); [done..|].
  assert (g1 = f1) as -> by congruence. assert (g2 = f2) as -> by congruence.
  apply files_sorted_unique; [done..|]. rewrite Hp1, Hp2, fold_left_app. cbn [fold_left].
  unfold edited at 1 3. by rewrite Hp.
Qed.
Lemma saved_fold cp v es :
  version_sorted v -> fresh_edits v es ->
  saved cp v es = fold_left (fun files e => saved cp files [e]) es v.
Proof.
  intros Hv. induction es as [|e es IH] using rev_ind; intros Hf.
  - apply list_eq_same_length with kNumLevels; [apply Hv|by apply length_saved, Hv|].
    intros l f1 f2 _ H1 H2. destruct (saved_lookup cp v [] l f2) as (fs & E & Hs & Hp); [done..|].
    assert (fs = f1) as -> by congruence. cbn [fold_left] in Hp.
    apply files_sorted_unique; [done| |done]. eapply Forall_lookup_1; [apply Hv|done].
  - rewrite fold_left_app. cbn [fold_left]. rewrite (saved_snoc cp cp v es e), IH; [done| |done|done].
    intros l base Hb. by apply (fresh_snoc _ _ _ _ (Hf l base Hb)).
Qed.

(** *** Files as the builder makes them

    What a version's files are on the disk: not how often they may still be
    sought. *)
Definition prepared (files : list (list FileMetaData)) : list (list FileMetaData) := map (map prepare_file) files.

Lemma prepare_file_idem f : prepare_file (prepare_file f) = prepare_file f.
Proof. done. Qed.

Lemma prepared_idem files : prepared (prepared files) = prepared files.
Proof.
  unfold prepared. rewrite map_map. apply map_ext. intros fs. rewrite map_map. by apply map_ext.
Qed.

Lemma add_live_prepared s base files :
  map prepare_file (fold_left (add_live s) base files) = fold_left (add_live s) (map prepare_file base) (map prepare_file files).
Proof.
  revert files. induction base as [|f base IH]; intros files; cbn [fold_left map]; [done|]. rewrite IH. f_equal.
  unfold add_live. change (number (prepare_file f)) with (number f). destruct (decide _); [done|]. by rewrite map_app.
Qed.

Lemma merge_level_prepared s added base files :
  map prepare_file (merge_level ucmp s added base files) =
  merge_level ucmp s (map prepare_file added) (map prepare_file base) (map prepare_file files).
Proof using Type.
  revert base files. induction added as [|f added IH]; intros base files; cbn [merge_level map]; [apply add_live_prepared|].
  assert (upper_bound ucmp (map prepare_file base) (prepare_file f) = upper_bound ucmp base f) as ->.
  { induction base as [|g base IHb]; cbn [upper_bound map]; [done|]. by rewrite IHb. }
  rewrite IH, skipn_map, firstn_map, <- add_live_prepared. f_equal.
  unfold add_live. change (number (prepare_file f)) with (number f). destruct (decide _); [done|]. by rewrite map_app.
Qed.

Lemma add_new_prepared fs s :
  Forall (fun f => prepare_file f = f) fs -> Forall (fun f => prepare_file f = f) (added_files s) ->
  Forall (fun f => prepare_file f = f) (added_files (fold_left add_new fs s)).
Proof using Type.
  intros Hfs. revert s. induction Hfs as [|f fs Hf _ IH]; intros s Hs; cbn [fold_left]; [done|]. apply IH.
  cbn [add_new added_files]. induction Hs as [|g gs Hg Hgs IHg]; cbn [file_insert]; [by repeat constructor|].
  destruct (VersionBuilder.by_smallest ucmp f g); by repeat constructor.
Qed.

Lemma saved_prepared cp v e : prepared (saved cp v [e]) = saved cp (prepared v) [e].
Proof.
  unfold saved, merge_levels, prepared, Apply_all. cbn [fold_left fst snd]. set (L := level_ (snd (Apply ucmp cp (mkBuilder v _) e))).
  change (level_ (snd (Apply ucmp cp (mkBuilder (map (map prepare_file) v) _) e))) with L.
  change (base_ (snd (Apply ucmp cp (mkBuilder v _) e))) with v.
  change (base_ (snd (Apply ucmp cp (mkBuilder (map (map prepare_file) v) _) e))) with (map (map prepare_file) v).
  assert (Forall (fun s => Forall (fun f => prepare_file f = f) (added_files s)) L) as HL.
  { apply Forall_lookup. intros l s Hs. unfold L in Hs. rewrite Apply_level in Hs.
    apply fmap_Some in Hs as (s0 & [-> _]%lookup_replicate & ->). apply add_new_prepared; [|constructor].
    unfold edit_new. apply list.Forall_forall. intros f (p & -> & _)%list_elem_of_fmap. done. }
  clearbody L. rewrite map_map. revert v. induction HL as [|s L Hs _ IH]; intros [|fs v]; cbn [zip zip_with map]; [done..|].
  f_equal; [|apply IH]. cbn [fst snd]. rewrite merge_level_prepared. f_equal. rewrite <- (map_id (added_files s)) at 2.
  apply map_ext_Forall. exact Hs.
Qed.

(** *** What the assertions demand

    [SaveTo] gives the merged levels when no level above 0 has two neighbours
    that overlap, and aborts otherwise. *)
Definition level_ok (level : nat) (files : list FileMetaData) : bool := (level =? 0)%nat || no_overlap ucmp files.
Fixpoint levels_ok (level : nat) (fss : list (list FileMetaData)) : bool :=
  match fss with [] => true | fs :: fss => level_ok level fs && levels_ok (S level) fss end.

Lemma no_overlap_snoc files f :
  no_overlap ucmp (files ++ [f]) = no_overlap ucmp files && match list.last files with Some prev => comes_after ucmp prev f | None => true end.
Proof using Type.
  induction files as [|g files IH]; [done|]. destruct files as [|h files]; [cbn; by rewrite andb_true_r|].
  change (no_overlap ucmp ((g :: h :: files) ++ [f])) with (comes_after ucmp g h && no_overlap ucmp ((h :: files) ++ [f])).
  change (no_overlap ucmp (g :: h :: files)) with (comes_after ucmp g h && no_overlap ucmp (h :: files)).
  change (list.last (g :: h :: files)) with (list.last (h :: files)). by rewrite IH, andb_assoc.
Qed.

Lemma level_ok_prefix level fs gs : level_ok level (fs ++ gs) = true -> level_ok level fs = true.
Proof using Type.
  unfold level_ok. destruct (level =? 0)%nat; [done|]. cbn [orb]. induction gs as [|g gs IH] using rev_ind; [by rewrite app_nil_r|].
  rewrite app_assoc, no_overlap_snoc. intros [H _]%andb_true_iff. by apply IH.
Qed.

Lemma MaybeAddFile_spec level s files f :
  level_ok level files = true ->
  MaybeAddFile ucmp level s files f = if level_ok level (add_live s files f) then Some (add_live s files f) else None.
Proof using Type.
  unfold MaybeAddFile, add_live. intros Hf. destruct (decide _); [by rewrite Hf|]. unfold level_ok in *.
  destruct level as [|level]; [done|]. cbn [Nat.eqb orb] in *. by rewrite no_overlap_snoc, Hf.
Qed.

Lemma fold_MaybeAddFile level s l files :
  level_ok level files = true ->
  fold_opt (MaybeAddFile ucmp level s) l files =
  if level_ok level (fold_left (add_live s) l files) then Some (fold_left (add_live s) l files) else None.
Proof using Type.
  revert files. induction l as [|f l IH]; intros files Hf; cbn [fold_opt fold_left]; [by rewrite Hf|].
  rewrite MaybeAddFile_spec by done. destruct (level_ok level (add_live s files f)) eqn:E; cbn [mbind option_bind]; [by apply IH|].
  destruct (level_ok level (fold_left _ _ _)) eqn:E2; [|done]. rewrite add_live_fold in E2. apply level_ok_prefix in E2. congruence.
Qed.

Lemma merge_level_prefix s added base files : exists more, merge_level ucmp s added base files = files ++ more.
Proof using Type. eexists. apply merge_level_merge. Qed.

Lemma SaveTo_level_spec level s added base files :
  level_ok level files = true ->
  SaveTo_level ucmp level s added base files =
  if level_ok level (merge_level ucmp s added base files) then Some (merge_level ucmp s added base files) else None.
Proof using Type.
  revert base files. induction added as [|f added IH]; intros base files Hf; cbn [SaveTo_level merge_level]; [by apply fold_MaybeAddFile|].
  cbn zeta. set (n := upper_bound ucmp base f). rewrite fold_MaybeAddFile by done. set (fs := fold_left _ _ files).
  destruct (merge_level_prefix s added (drop n base) (add_live s fs f)) as [more Em].
  destruct (level_ok level fs) eqn:E1; cbn [mbind option_bind].
  - rewrite MaybeAddFile_spec by done. destruct (level_ok level (add_live s fs f)) eqn:E2; cbn [mbind option_bind]; [by apply IH|].
    rewrite Em. destruct (level_ok level (_ ++ more)) eqn:E3; [|done]. apply level_ok_prefix in E3. congruence.
  - rewrite Em. destruct (level_ok level (_ ++ more)) eqn:E3; [|done]. apply level_ok_prefix in E3. unfold add_live in E3.
    destruct (decide _); [congruence|]. apply level_ok_prefix in E3. congruence.
Qed.

Lemma SaveTo_levels_spec level ls base :
  let fss := map (fun sb => merge_level ucmp (fst sb) (added_files (fst sb)) (snd sb) []) (zip ls base) in
  SaveTo_levels ucmp level ls base = if levels_ok level fss then Some fss else None.
Proof using Type.
  cbn zeta. revert level base. induction ls as [|s ls IH]; intros level [|b base]; cbn [SaveTo_levels zip zip_with map levels_ok fst snd]; try done.
  rewrite SaveTo_level_spec by (unfold level_ok; by destruct (level =? 0)%nat). set (fs := merge_level _ _ _ _ _).
  destruct (level_ok level fs) eqn:Ef; cbn [mbind option_bind andb]; [|done].
  replace ((0 <? level)%nat && negb (no_overlap ucmp fs)) with false.
  - rewrite IH. destruct (levels_ok (S level) _); done.
  - unfold level_ok in Ef. destruct level as [|level]; [done|]. cbn in Ef. by rewrite Ef.
Qed.

Lemma SaveTo_spec b :
  SaveTo ucmp b = if levels_ok 0 (merge_levels ucmp b) then Some (merge_levels ucmp b) else None.
Proof using Type. apply SaveTo_levels_spec. Qed.

(** Files that do not overlap, as a condition on the bag of files. *)
Definition files_disjoint (files : list FileMetaData) : Prop :=
  forall f g, f ∈ files -> g ∈ files ->
    f = g \/ icompare (largest f) (smallest g) = Lt \/ icompare (largest g) (smallest f) = Lt.

#[export] Instance files_disjoint_proper : Proper ((≡ₚ) ==> iff) files_disjoint.
Proof using Type. intros fs gs Hp. unfold files_disjoint. by setoid_rewrite Hp. Qed.

Lemma no_overlap_sorted files :
  Forall (file_ok ucmp) files -> no_overlap ucmp files = true <-> StronglySorted (fun f g => icompare (largest f) (smallest g) = Lt) files.
Proof.
  induction 1 as [|f files Hf Hok IH]; [split; [constructor|done]|]. destruct files as [|g files].
  { split; [repeat constructor|done]. }
  change (no_overlap ucmp (f :: g :: files)) with (comes_after ucmp f g && no_overlap ucmp (g :: files)).
  rewrite andb_true_iff, IH. unfold comes_after. split.
  - intros [Hfg Hs]. destruct (icompare (largest f) (smallest g)) eqn:E; [done| |done]. constructor; [done|]. constructor; [done|].
    apply StronglySorted_inv in Hs as [_ Hs]. eapply list.Forall_impl; [exact Hs|]. cbn. intros h Hh.
    apply (cmp_lt_trans icompare _ (smallest g)); [done|]. apply list.Forall_cons in Hok as [Hg _].
    by apply (cmp_le_lt_trans icompare _ (largest g)).
  - intros [Hs Hfg]%StronglySorted_inv. split; [|done]. apply list.Forall_cons in Hfg as [Hfg _]. by rewrite Hfg.
Qed.

(** Files in order that do not overlap pairwise are a level that can be
    searched. *)
Lemma sorted_disjoint files :
  files_sorted files -> Forall (file_ok ucmp) files -> files_disjoint files -> disjoint_files ucmp files.
Proof.
  intros Hs Hok Hd. split; [done|].
  induction Hs as [|f files Hs IH Hf]; [constructor|]. inversion_clear Hok as [|? ? Hokf Hok'].
  constructor; [apply IH; [done|]; intros x y Hx Hy; apply Hd; by right|].
  apply list.Forall_forall. intros g Hg.
  pose proof (proj1 (list.Forall_forall _ _) Hf g Hg) as Hlt. cbn beta in Hlt.
  destruct (Hd f g) as [->|[H|H]]; [by left|by right| |done|].
  - by rewrite (cmp_refl by_smallest) in Hlt.
  - exfalso. pose proof (proj1 (list.Forall_forall _ _) Hok' g Hg) as Hg'. unfold file_ok in Hg'.
    pose proof (cmp_le_lt_trans icompare _ _ _ Hg' H) as H'. revert Hlt.
    unfold VersionBuilder.by_smallest. apply (cmp_lt_gt icompare) in H'. by rewrite H'.
Qed.

Lemma disjoint_files_disjoint files : disjoint_files ucmp files -> files_disjoint files.
Proof.
  intros [_ Hs] f g Hf Hg. induction Hs as [|h files Hs IH Hh]; [by apply not_elem_of_nil in Hf|]. rewrite list.Forall_forall in Hh.
  apply elem_of_cons in Hf as [->|Hf], Hg as [->|Hg]; auto.
Qed.

Lemma levels_ok_lookup n fss : levels_ok n fss = true <-> forall l fs, fss !! l = Some fs -> level_ok (n + l) fs = true.
Proof using Type.
  revert n. induction fss as [|fs fss IH]; intros n; cbn [levels_ok]; [done|]. rewrite andb_true_iff, IH. split.
  - intros [H1 H2] [|l] gs; cbn; [intros [= <-]; by rewrite Nat.add_0_r|]. rewrite <- Nat.add_succ_comm. apply H2.
  - intros H. split; [rewrite <- (Nat.add_0_r n); by apply (H 0%nat)|]. intros l gs Hl. rewrite Nat.add_succ_comm. by apply (H (S l)).
Qed.

(** The files that the edits leave in the levels above 0 do not overlap. *)
Definition edits_disjoint (files : list (list FileMetaData)) (es : list VersionEdit) : Prop :=
  forall l base, files !! S l = Some base -> files_disjoint (fold_left (edited (S l)) es base).

(** Their ranges are not empty. *)
Definition edits_ranges (files : list (list FileMetaData)) (es : list VersionEdit) : Prop :=
  forall l base, files !! S l = Some base -> Forall (file_ok ucmp) (fold_left (edited (S l)) es base).

Lemma level_ok_disjoint l files :
  files_sorted files -> Forall (file_ok ucmp) files -> level_ok (S l) files = true <-> files_disjoint files.
Proof.
  intros Hs Hok. unfold level_ok. cbn [Nat.eqb orb]. rewrite no_overlap_sorted by done. split.
  - intros Hd. by apply disjoint_files_disjoint.
  - intros Hd. by apply sorted_disjoint.
Qed.

Lemma saved_levels_ok cp v es :
  version_sorted v -> fresh_edits v es -> edits_ranges v es -> levels_ok 0 (saved cp v es) = true <-> edits_disjoint v es.
Proof.
  intros Hv Hf Hok. rewrite levels_ok_lookup. split.
  - intros H l base Hb. destruct (saved_lookup cp v es (S l) base) as (files & E & Hs & Hp); [done..|].
    rewrite <- Hp. apply (level_ok_disjoint l); [done|rewrite Hp; by apply Hok|]. by apply (H (S l)).
  - intros Hd [|l] files E; [done|]. assert (is_Some (v !! S l)) as [base Hb].
    { apply lookup_lt_is_Some_2. apply lookup_lt_Some in E. by rewrite length_saved, <- (proj1 Hv) in E by apply Hv. }
    destruct (saved_lookup cp v es (S l) base) as (files' & E' & Hs & Hp); [done..|]. assert (files' = files) as -> by congruence.
    apply level_ok_disjoint; [done|rewrite Hp; by apply Hok|]. rewrite Hp. by apply Hd.
Qed.

Lemma levels_ok_prepared n fss : levels_ok n (prepared fss) = levels_ok n fss.
Proof using Type.
  assert (forall fs, no_overlap ucmp (map prepare_file fs) = no_overlap ucmp fs) as H.
  { intros fs. induction fs as [|f [|g fs] IH]; try done. cbn [map no_overlap] in *. by rewrite IH. }
  revert n. induction fss as [|fs fss IH]; intros n; cbn [prepared map levels_ok]; [done|]. unfold level_ok. by rewrite IH, H.
Qed.

Lemma disjoint_levels_ok fss : (forall l fs, fss !! S l = Some fs -> disjoint_files ucmp fs) -> levels_ok 0 fss = true.
Proof.
  intros H. apply levels_ok_lookup. intros [|l] fs Hl; [done|]. destruct (H l fs Hl) as [Hok Hs].
  unfold level_ok. cbn [Nat.add Nat.eqb orb]. by apply no_overlap_sorted.
Qed.

(** Saving the edits. *)
Lemma SaveTo_saved cp v es :
  version_sorted v -> fresh_edits v es -> edits_ranges v es -> edits_disjoint v es ->
  SaveTo ucmp (snd (Apply_all (cp, mkBuilder v (replicate kNumLevels (mkLevelState ∅ []))) es)) = Some (saved cp v es).
Proof.
  intros Hv Hf Hok Hd. rewrite SaveTo_spec. change (merge_levels ucmp _) with (saved cp v es).
  by rewrite (proj2 (saved_levels_ok cp v es Hv Hf Hok) Hd).
Qed.
End Correct.

(** ** Properties *)

Definition init_builder (files : list (list FileMetaData)) : Builder :=
  mkBuilder files (replicate kNumLevels (mkLevelState ∅ [])).

(** C18: The builder implements the meaning of edits.  A version is a bag of
    files for each level; an edit takes the deleted file numbers out of a
    level and adds its new files ([edited]).  Take any sequence of edits that
    add new files, whose ranges are not empty.  When the files that this meaning
    leaves do not overlap in any level above 0, [SaveTo] gives for every level
    exactly these files, in strictly increasing order of smallest key and
    number; when two of them overlap, it aborts. *)
Theorem builder_saves_edits ucmp `{!ComparatorLaws ucmp} (v : Version) (cp : list bytes) (es : list VersionEdit) :
  version_sorted ucmp (files_ v) -> fresh_edits (files_ v) es -> edits_ranges ucmp (files_ v) es ->
  let b := snd (Apply_all ucmp (cp, Builder_new v) es) in
  (edits_disjoint ucmp (files_ v) es ->
   exists levels, SaveTo ucmp b = Some levels /\ length levels = kNumLevels /\
     forall l base, files_ v !! l = Some base ->
       exists files, levels !! l = Some files /\ files_sorted ucmp files /\ files ≡ₚ fold_left (edited l) es base) /\
  (~ edits_disjoint ucmp (files_ v) es -> SaveTo ucmp b = None).
Proof.
  intros Hv Hf Hok b. pose proof (saved_levels_ok ucmp cp (files_ v) es Hv Hf Hok) as Hd. split.
  - intros H. exists (saved ucmp cp (files_ v) es). split; [by apply SaveTo_saved|]. split; [by apply length_saved, Hv|].
    intros l base Hb. by apply saved_lookup.
  - intros H. unfold b. rewrite SaveTo_spec. change (merge_levels ucmp _) with (saved ucmp cp (files_ v) es).
    destruct (levels_ok ucmp 0 _); [|done]. destruct H. by apply Hd.
Qed.

(** Recovery rebuilds what the running database had.  Merging all edits of
    a manifest into one builder gives the same levels, file by file, as merging
    every single edit into the levels before it, which is what [LogAndApply] did
    when the edits were written. *)
Theorem builder_replay ucmp `{!ComparatorLaws ucmp} (v : Version) (cp : list bytes) (es : list VersionEdit) :
  version_sorted ucmp (files_ v) -> fresh_edits (files_ v) es ->
  merge_levels ucmp (snd (Apply_all ucmp (cp, Builder_new v) es)) =
  fold_left (fun files e => merge_levels ucmp (snd (Apply ucmp cp (init_builder files) e))) es (files_ v).
Proof. intros. by apply saved_fold. Qed.

(** A version with one file, and two edits: the first adds two files, the second
    moves one of them down and deletes the first file. *)
Definition sample_version : Version :=
  mkVersion ([sample_file 3 (str:"a") (str:"c")] :: replicate 6 []) None (-1) (double_of (-1)) (-1).
Definition sample_edits : list VersionEdit :=
  [ AddFile (AddFile (VersionEdit_new false) 0 7 100 (InternalKey (str:"b") 9 kTypeValue) (InternalKey (str:"d") 4 kTypeValue))
      1 5 100 (InternalKey (str:"k") 3 kTypeValue) (InternalKey (str:"p") 2 kTypeValue);
    AddFile (RemoveFile (RemoveFile (VersionEdit_new false) 0 7) 0 3) 1 7 100
      (InternalKey (str:"b") 9 kTypeValue) (InternalKey (str:"d") 4 kTypeValue) ].

Lemma sample_fresh : fresh_edits (files_ sample_version) sample_edits.
Proof.
  intros l base Hb. unfold fresh_files.
  do 7 (destruct l as [|l]; [injection Hb as <-; vm_compute; repeat (constructor; [set_solver|]); constructor|]).
  done.
Qed.

Lemma sample_version_sorted : version_sorted BytewiseComparator (files_ sample_version).
Proof. split; [done|]. repeat constructor. Qed.

Lemma sample_edits_ranges : edits_ranges BytewiseComparator (files_ sample_version) sample_edits.
Proof.
  intros l base Hb. do 6 (destruct l as [|l]; [injection Hb as <-;
    match goal with |- Forall _ ?x => let y := eval vm_compute in x in change x with y end;
    repeat (apply list.Forall_cons; split; [vm_compute; discriminate|]); constructor|]). done.
Qed.

Lemma sample_edits_disjoint : edits_disjoint BytewiseComparator (files_ sample_version) sample_edits.
Proof.
  apply (saved_levels_ok BytewiseComparator []); [exact sample_version_sorted|exact sample_fresh|exact sample_edits_ranges|].
  vm_compute. reflexivity.
Qed.

Lemma builder_saves_edits_witness :
  exists levels files, SaveTo BytewiseComparator (snd (Apply_all BytewiseComparator ([], Builder_new sample_version) sample_edits)) = Some levels /\
    levels !! 1%nat = Some files /\ map number files = [7; 5] /\ files ≡ₚ fold_left (edited 1) sample_edits [].
Proof.
  destruct (builder_saves_edits BytewiseComparator sample_version [] sample_edits) as [H _];
    [exact sample_version_sorted|exact sample_fresh|exact sample_edits_ranges|].
  destruct H as (levels & E & _ & H).
  - exact sample_edits_disjoint.
  - destruct (H 1%nat [] eq_refl) as (files & El & _ & Hp). exists levels, files. split; [exact E|]. split; [exact El|]. split; [|exact Hp].
    vm_compute in E. injection E as <-. injection El as <-. reflexivity.
Defined.

Lemma builder_replay_witness :
  merge_levels BytewiseComparator (snd (Apply_all BytewiseComparator ([], Builder_new sample_version) sample_edits)) =
  fold_left (fun files e => merge_levels BytewiseComparator (snd (Apply BytewiseComparator [] (init_builder files) e)))
    sample_edits (files_ sample_version).
Proof. apply (builder_replay BytewiseComparator sample_version []); [exact sample_version_sorted|exact sample_fresh]. Defined.
