(* ===== verification/FileRefs.v ===== *)
(** * Reference counts of versions and of their files

    src/db/version_set.cc: [Version] and [FileMetaData] as objects on a shared
    heap.  Versions share the records of their files; a record counts the versions
    and the builders that point to it and is deleted with the last of them.  A
    version counts its users: the version set, builders, readers, compactions.

    The other files keep a version as a value.  Here a pointer is a number, an
    object that was deleted is not in the heap, its address may be used again, and
    [None] is a failed assertion or the use of a deleted object.  The last part
    shows, for callers that interleave in any order, that none of these happens,
    that nothing is leaked, and that a version is what VersionBuilder.v says it is
    from the time it is built until it is deleted. *)

From stdpp Require Import gmap gmultiset sets sorting.
From S2P Require Import Prelude Slice Coding Comparator DbFormat VersionEdit VersionFiles VersionBuilder.

(** ** The heap *)

(** [FileMetaData] objects by address. *)
Notation FileHeap := (gmap nat FileMetaData).

(** [class Version]: pointers to files and the count of references. *)
Record PVersion := mkPVersion { pv_files : list (list nat); pv_refs : Z }.

(** The versions on the heap and the fields of [VersionSet] that point to them;
    [vm_linked] is the list that starts at [dummy_versions_]. *)
Record VMem := mkVMem {
  vm_files : FileHeap; vm_versions : gmap nat PVersion; vm_linked : list nat; vm_current : option nat;
  vm_compact_pointer : list bytes }.

Definition set_files (vm : VMem) (m : FileHeap) : VMem :=
  mkVMem m (vm_versions vm) (vm_linked vm) (vm_current vm) (vm_compact_pointer vm).
Definition put_version (vm : VMem) (v : nat) (pv : PVersion) : VMem :=
  mkVMem (vm_files vm) (<[v := pv]> (vm_versions vm)) (vm_linked vm) (vm_current vm) (vm_compact_pointer vm).

Definition with_refs (f : FileMetaData) (n : Z) : FileMetaData :=
  mkFile n (allowed_seeks f) (number f) (file_size f) (smallest f) (largest f).

(** ** Versions *)

(** [f->refs--; if (f->refs <= 0) delete f;] *)
Definition unref_file (m : FileHeap) (p : nat) : option FileHeap :=
  f ← m !! p;
  let f := with_refs f (refs f - 1) in
  Some (if refs f <=? 0 then delete p m else <[p := f]> m).

(** The loop of [Version::~Version], with its assertion. *)
Definition drop_file (m : FileHeap) (p : nat) : option FileHeap :=
  f ← m !! p; if 0 <? refs f then unref_file m p else None.

(** [Version::~Version] *)
Definition Version_delete (vm : VMem) (v : nat) : option VMem :=
  pv ← vm_versions vm !! v;
  if pv_refs pv =? 0 then
    m ← fold_opt drop_file (concat (pv_files pv)) (vm_files vm);
    Some (mkVMem m (delete v (vm_versions vm)) (List.filter (fun w => negb (w =? v)%nat) (vm_linked vm)) (vm_current vm)
      (vm_compact_pointer vm))
  else None.

(** [Version::Ref] *)
Definition Version_incref (vm : VMem) (v : nat) : option VMem :=
  pv ← vm_versions vm !! v; Some (put_version vm v (mkPVersion (pv_files pv) (pv_refs pv + 1))).

(** [Version::Unref] *)
Definition Version_decref (vm : VMem) (v : nat) : option VMem :=
  pv ← vm_versions vm !! v;
  if 1 <=? pv_refs pv then
    let vm := put_version vm v (mkPVersion (pv_files pv) (pv_refs pv - 1)) in
    if pv_refs pv - 1 =? 0 then Version_delete vm v else Some vm
  else None.

(** [new Version(this)] *)
Definition new_Version (vm : VMem) : VMem * nat :=
  let v := fresh (dom (vm_versions vm)) in
  (put_version vm v (mkPVersion (replicate kNumLevels []) 0), v).

(** [VersionSet::AppendVersion] *)
Definition append_Version (vm : VMem) (v : nat) : option VMem :=
  pv ← vm_versions vm !! v;
  if (pv_refs pv =? 0) && bool_decide (vm_current vm <> Some v) then
    vm ← match vm_current vm with Some c => Version_decref vm c | None => Some vm end;
    vm ← Version_incref (mkVMem (vm_files vm) (vm_versions vm) (vm_linked vm) (Some v) (vm_compact_pointer vm)) v;
    Some (mkVMem (vm_files vm) (vm_versions vm) (vm_linked vm ++ [v]) (vm_current vm) (vm_compact_pointer vm))
  else None.

(** [VersionSet::VersionSet] *)
Definition VersionSet_init : option VMem :=
  let '(vm, v) := new_Version (mkVMem ∅ ∅ [] None (replicate kNumLevels [])) in append_Version vm v.

(** [VersionSet::~VersionSet] *)
Definition VersionSet_delete (vm : VMem) : option VMem :=
  vm ← match vm_current vm with Some c => Version_decref vm c | None => Some vm end;
  match vm_linked vm with [] => Some vm | _ :: _ => None end.

(** ** The builder *)

Section Operations.
Context (ucmp : Comparator).
Abbreviation icompare := (InternalKeyComparator.Compare ucmp).
Abbreviation by_smallest := (by_smallest ucmp).

(** [struct LevelState]; [added_files] is a set of pointers in the order of
    [BySmallestKey]. *)
Record PLevel := mkPLevel { pl_deleted : gset Z; pl_added : list nat }.

(** [class VersionSet::Builder] *)
Record PBuilder := mkPBuilder { pb_base : nat; pb_level : list PLevel }.

(** [Builder::Builder] *)
Definition PBuilder_new (vm : VMem) (base : nat) : option (VMem * PBuilder) :=
  vm ← Version_incref vm base;
  Some (vm, mkPBuilder base (replicate kNumLevels (mkPLevel ∅ []))).

(** [FileSet::insert] *)
Fixpoint pointer_insert (m : FileHeap) (p : nat) (f : FileMetaData) (l : list nat) : option (list nat) :=
  match l with
  | [] => Some [p]
  | q :: l' =>
      g ← m !! q;
      match by_smallest f g with
      | Lt => Some (p :: l)
      | Eq => Some l
      | Gt => l'' ← pointer_insert m p f l'; Some (q :: l'')
      end
  end.

(** The three loops of [Builder::Apply]. *)
Definition apply_pointer (cp : list bytes) (e : Z * bytes) : option (list bytes) :=
  _ ← cp !! Z.to_nat (fst e); Some (<[Z.to_nat (fst e) := snd e]> cp).
Definition apply_deleted (ls : list PLevel) (e : Z * Z) : option (list PLevel) :=
  s ← ls !! Z.to_nat (fst e);
  Some (<[Z.to_nat (fst e) := mkPLevel ({[snd e]} ∪ pl_deleted s) (pl_added s)]> ls).
Definition apply_new (st : FileHeap * list PLevel) (e : Z * FileMetaData) : option (FileHeap * list PLevel) :=
  let '(m, ls) := st in
  let p := fresh (dom m) in
  let f := prepare_file (snd e) in
  let m := <[p := f]> m in
  s ← ls !! Z.to_nat (fst e);
  added ← pointer_insert m p f (pl_added s);
  Some (m, <[Z.to_nat (fst e) := mkPLevel (pl_deleted s ∖ {[number f]}) added]> ls).

(** [Builder::Apply] *)
Definition PBuilder_Apply (vm : VMem) (b : PBuilder) (edit : VersionEdit) : option (VMem * PBuilder) :=
  cp ← fold_opt apply_pointer (compact_pointers_ edit) (vm_compact_pointer vm);
  ls ← fold_opt apply_deleted (deleted_files_ edit) (pb_level b);
  '(m, ls) ← fold_opt apply_new (new_files_ edit) (vm_files vm, ls);
  Some (mkVMem m (vm_versions vm) (vm_linked vm) (vm_current vm) cp, mkPBuilder (pb_base b) ls).

(** [Builder::MaybeAddFile] on the files of a level; above level 0 it asserts
    that the file comes after the last one. *)
Definition PMaybeAddFile (level : nat) (s : PLevel) (st : FileHeap * list nat) (p : nat) : option (FileHeap * list nat) :=
  let '(m, files) := st in
  f ← m !! p;
  if decide (number f ∈ pl_deleted s) then Some (m, files)
  else
    after ← match level, list.last files with
      | S _, Some q => g ← m !! q; Some (match icompare (largest g) (smallest f) with Lt => true | _ => false end)
      | _, _ => Some true
      end;
    if (after : bool) then Some (<[p := with_refs f (refs f + 1)]> m, files ++ [p]) else None.

(** [std::upper_bound] *)
Fixpoint pupper_bound (m : FileHeap) (base : list nat) (f : FileMetaData) : option nat :=
  match base with
  | [] => Some 0%nat
  | q :: base =>
      g ← m !! q;
      match by_smallest f g with Lt => Some 0%nat | _ => n ← pupper_bound m base f; Some (S n) end
  end.

(** [Builder::SaveTo] for one level.  The test that follows the loop without
    NDEBUG is the assertion of [MaybeAddFile] once more. *)
Fixpoint PSaveTo_level (level : nat) (s : PLevel) (added base : list nat) (st : FileHeap * list nat) :
    option (FileHeap * list nat) :=
  match added with
  | [] => fold_opt (PMaybeAddFile level s) base st
  | p :: added =>
      f ← fst st !! p;
      n ← pupper_bound (fst st) base f;
      st ← fold_opt (PMaybeAddFile level s) (take n base) st;
      st ← PMaybeAddFile level s st p;
      PSaveTo_level level s added (drop n base) st
  end.

Fixpoint PSaveTo_levels (level : nat) (ls : list PLevel) (base files : list (list nat)) (m : FileHeap) :
    option (FileHeap * list (list nat)) :=
  match ls, base, files with
  | s :: ls, b :: base, fs :: files =>
      '(m, fs) ← PSaveTo_level level s (pl_added s) b (m, fs);
      '(m, files) ← PSaveTo_levels (S level) ls base files m;
      Some (m, fs :: files)
  | _, _, _ => Some (m, [])
  end.

(** [Builder::SaveTo] *)
Definition PBuilder_SaveTo (vm : VMem) (b : PBuilder) (v : nat) : option VMem :=
  base ← vm_versions vm !! pb_base b;
  pv ← vm_versions vm !! v;
  '(m, files) ← PSaveTo_levels 0 (pb_level b) (pv_files base) (pv_files pv) (vm_files vm);
  Some (put_version (set_files vm m) v (mkPVersion files (pv_refs pv))).

(** [Builder::~Builder] *)
Definition PBuilder_delete (vm : VMem) (b : PBuilder) : option VMem :=
  m ← fold_opt (fun m s => fold_opt unref_file (pl_added s) m) (pb_level b) (vm_files vm);
  Version_decref (set_files vm m) (pb_base b).
(** ** The callers *)

(** [VersionSet::LogAndApply] until the manifest is written: the new version is
    built while the lock is held.  [Finalize] computes a score from the files and
    leaves the references as they are. *)
Definition build_version (vm : VMem) (edit : VersionEdit) : option (VMem * nat) :=
  let '(vm, v) := new_Version vm in
  c ← vm_current vm;
  '(vm, b) ← PBuilder_new vm c;
  '(vm, b) ← PBuilder_Apply vm b edit;
  vm ← PBuilder_SaveTo vm b v;
  vm ← PBuilder_delete vm b;
  Some (vm, v).

(** The builder of [VersionSet::Recover]: the edits of the manifest, then, if all
    went well ([ok]), the new version, which becomes the current one. *)
Definition recover_version (vm : VMem) (edits : list VersionEdit) (ok : bool) : option VMem :=
  c ← vm_current vm;
  '(vm, b) ← PBuilder_new vm c;
  '(vm, b) ← fold_opt (fun st edit => PBuilder_Apply (fst st) (snd st) edit) edits (vm, b);
  vm ← (if ok then
      let '(vm, v) := new_Version vm in
      vm ← PBuilder_SaveTo vm b v;
      append_Version vm v
    else Some vm);
  PBuilder_delete vm b.

(** The assignment to [allowed_seeks] of [Version::UpdateStats]. *)
Definition charge_seek (vm : VMem) (p : nat) : option VMem :=
  f ← vm_files vm !! p;
  Some (set_files vm (<[p := mkFile (refs f) (s32 (allowed_seeks f - 1)) (number f) (file_size f) (smallest f) (largest f)]>
    (vm_files vm))).

(** The heap with what its callers hold: [vc_loose], versions that
    [LogAndApply] has built and not yet installed or deleted, and [vc_held], one
    entry for each reference that a reader, an iterator or a compaction owns. *)
Record VCallers := mkVCallers { vc_mem : VMem; vc_loose : list nat; vc_held : list nat }.

(** What callers do, each under the lock. *)
Inductive event :=
  | EvBuild (edit : VersionEdit)
  | EvInstall (v : nat)
  | EvDiscard (v : nat)
  | EvRecover (edits : list VersionEdit) (ok : bool)
  | EvRef
  | EvUnref (v : nat)
  | EvSeek (p : nat).

Definition remove_one (v : nat) (l : list nat) : list nat :=
  match list_find (eq v) l with Some (i, _) => delete i l | None => l end.

Definition run_event (st : VCallers) (ev : event) : option VCallers :=
  let '(mkVCallers vm loose held) := st in
  match ev with
  | EvBuild edit => '(vm, v) ← build_version vm edit; Some (mkVCallers vm (v :: loose) held)
  | EvInstall v => vm ← append_Version vm v; Some (mkVCallers vm (remove_one v loose) held)
  | EvDiscard v => vm ← Version_delete vm v; Some (mkVCallers vm (remove_one v loose) held)
  | EvRecover edits ok => vm ← recover_version vm edits ok; Some (mkVCallers vm loose held)
  | EvRef => c ← vm_current vm; vm ← Version_incref vm c; Some (mkVCallers vm loose (c :: held))
  | EvUnref v => vm ← Version_decref vm v; Some (mkVCallers vm loose (remove_one v held))
  | EvSeek p => vm ← charge_seek vm p; Some (mkVCallers vm loose held)
  end.
End Operations.

(** ** Counting references *)

Notation bag := (list_to_set_disj (C := gmultiset nat)).

(** What a count of [n] references is: an object without references does not
    exist. *)
Definition positive (n : nat) : option Z := match n with O => None | S _ => Some (Z.of_nat n) end.

(** Every file on the heap counts the pointers to it. *)
Definition counted (m : FileHeap) (H : gmultiset nat) : Prop := forall p, refs <$> m !! p = positive (multiplicity p H).

(** A file without its counters: what does not change. *)
Definition meta (f : FileMetaData) : FileMetaData := mkFile 0 0 (number f) (file_size f) (smallest f) (largest f).

(** The files at pointers in [H] are the same in two heaps. *)
Definition same_on (H : gmultiset nat) (m m' : FileHeap) : Prop := forall p, p ∈ H -> meta <$> m' !! p = meta <$> m !! p.

(** The files at a list of pointers. *)
Definition deref (m : FileHeap) (ps : list nat) : option (list FileMetaData) := mapM (fun p => meta <$> m !! p) ps.

Lemma positive_some n : (0 < n)%nat -> positive n = Some (Z.of_nat n).
Proof. destruct n; [lia|done]. Qed.

Lemma counted_elem m H p : counted m H -> p ∈ H -> exists f, m !! p = Some f /\ refs f = Z.of_nat (multiplicity p H).
Proof.
  intros Hc Hp. specialize (Hc p). rewrite positive_some in Hc by by apply elem_of_multiplicity.
  apply fmap_Some in Hc as (f & Hf & E). eauto.
Qed.

Lemma counted_dom m H p : counted m H -> is_Some (m !! p) <-> p ∈ H.
Proof.
  intros Hc. split.
  - intros [f Hf]. specialize (Hc p). rewrite Hf in Hc. apply elem_of_multiplicity. destruct (multiplicity p H) as [|n]; [done|apply Nat.lt_0_succ].
  - intros Hp. destruct (counted_elem m H p Hc Hp) as (f & Hf & _). eauto.
Qed.

Lemma counted_fresh m H p : counted m H -> m !! p = None -> p ∉ H.
Proof. intros Hc Hp Hin%(counted_dom m H p Hc). rewrite Hp in Hin. by destruct Hin. Qed.

Lemma same_on_refl H m : same_on H m m.
Proof. done. Qed.

Lemma same_on_trans H H' m1 m2 m3 : H ⊆ H' -> same_on H' m1 m2 -> same_on H m2 m3 -> same_on H m1 m3.
Proof. intros Hs H1 H2 p Hp. rewrite H2, H1; [done| |done]. multiset_solver. Qed.

Lemma same_on_sub H H' m m' : H ⊆ H' -> same_on H' m m' -> same_on H m m'.
Proof. intros Hs H1 p Hp. apply H1. multiset_solver. Qed.

Lemma counted_alloc m H p f :
  counted m H -> m !! p = None -> refs f = 1 -> counted (<[p := f]> m) ({[+ p +]} ⊎ H) /\ same_on H m (<[p := f]> m).
Proof.
  intros Hc Hp Hf. pose proof (counted_fresh m H p Hc Hp) as Hn. split.
  - intros q. rewrite multiplicity_disj_union. destruct (decide (q = p)) as [->|Hne].
    + rewrite lookup_insert_eq, multiplicity_singleton_eq. apply not_elem_of_multiplicity in Hn. rewrite Hn. cbn. by rewrite Hf.
    + rewrite lookup_insert_ne, multiplicity_singleton_ne by done. apply Hc.
  - intros q Hq. rewrite lookup_insert_ne; [done|]. by intros ->.
Qed.

Lemma counted_incref m H p f :
  counted m H -> p ∈ H -> m !! p = Some f ->
  counted (<[p := with_refs f (refs f + 1)]> m) ({[+ p +]} ⊎ H) /\ meta <$> <[p := with_refs f (refs f + 1)]> m = meta <$> m.
Proof.
  intros Hc Hp Hf. destruct (counted_elem m H p Hc Hp) as (f' & Hf' & E). rewrite Hf in Hf'. injection Hf' as <-. split.
  - intros q. rewrite multiplicity_disj_union. destruct (decide (q = p)) as [->|Hne].
    + rewrite lookup_insert_eq, multiplicity_singleton_eq. cbn [fmap option_fmap option_map with_refs refs].
      rewrite positive_some by lia. f_equal. lia.
    + rewrite lookup_insert_ne, multiplicity_singleton_ne by done. apply Hc.
  - rewrite fmap_insert. apply insert_id. by rewrite lookup_fmap, Hf.
Qed.

Lemma counted_decref m H p :
  counted m ({[+ p +]} ⊎ H) ->
  exists m', unref_file m p = Some m' /\ drop_file m p = Some m' /\ counted m' H /\ same_on H m m'.
Proof.
  intros Hc. destruct (counted_elem m _ p Hc) as (f & Hf & E); [multiset_solver|].
  rewrite multiplicity_disj_union, multiplicity_singleton_eq in E.
  assert (drop_file m p = unref_file m p) as ->.
  { unfold drop_file. rewrite Hf. cbn [mbind option_bind]. by rewrite (proj2 (Z.ltb_lt 0 (refs f))) by lia. }
  unfold unref_file. rewrite Hf. cbn [mbind option_bind with_refs refs]. eexists. split; [done|]. split; [done|].
  assert (forall q, q <> p -> refs <$> m !! q = positive (multiplicity q H)) as Hq.
  { intros q Hne. rewrite (Hc q), multiplicity_disj_union, multiplicity_singleton_ne by done. done. }
  destruct (Z.leb_spec (refs f - 1) 0) as [Hle|Hgt]; split.
  - intros q. destruct (decide (q = p)) as [->|Hne]; [|by rewrite lookup_delete_ne, Hq].
    rewrite lookup_delete_eq. replace (multiplicity p H) with 0%nat by lia. done.
  - intros q Hin. rewrite lookup_delete_ne; [done|]. intros ->. rewrite elem_of_multiplicity in Hin. lia.
  - intros q. destruct (decide (q = p)) as [->|Hne]; [|by rewrite lookup_insert_ne, Hq].
    rewrite lookup_insert_eq, positive_some by lia. cbn. f_equal. lia.
  - intros q Hin. destruct (decide (q = p)) as [->|Hne]; [|by rewrite lookup_insert_ne].
    by rewrite lookup_insert_eq, Hf.
Qed.

Lemma decref_all ps m H :
  counted m (bag ps ⊎ H) ->
  exists m', fold_opt unref_file ps m = Some m' /\ fold_opt drop_file ps m = Some m' /\ counted m' H /\ same_on H m m'.
Proof.
  revert m. induction ps as [|p ps IH]; intros m Hc; cbn [fold_opt].
  - exists m. split; [done|]. split; [done|]. split; [|done]. by rewrite gmultiset_disj_union_left_id in Hc.
  - rewrite list_to_set_disj_cons, <- (assoc_L (⊎)) in Hc. destruct (counted_decref _ _ _ Hc) as (m1 & -> & -> & Hc1 & Hs1).
    cbn [mbind option_bind]. destruct (IH m1 Hc1) as (m2 & -> & -> & Hc2 & Hs2). exists m2.
    split; [done|]. split; [done|]. split; [done|]. eapply same_on_trans; [|exact Hs1|exact Hs2]. multiset_solver.
Qed.

Lemma deref_same H m m' ps : same_on H m m' -> Forall (fun p => p ∈ H) ps -> deref m' ps = deref m ps.
Proof.
  intros Hs Hp. unfold deref. induction Hp as [|p ps Hp _ IH]; cbn [mapM]; [done|]. by rewrite IH, (Hs p Hp).
Qed.

Lemma deref_meta m m' ps : meta <$> m' = meta <$> m -> deref m' ps = deref m ps.
Proof.
  intros E. unfold deref. induction ps as [|p ps IH]; cbn [mapM]; [done|].
  assert (meta <$> m' !! p = meta <$> m !! p) as ->; [|by rewrite IH]. by rewrite <- !lookup_fmap, E.
Qed.

Lemma deref_app m ps qs : deref m (ps ++ qs) = (fs ← deref m ps; gs ← deref m qs; Some (fs ++ gs)).
Proof.
  unfold deref. induction ps as [|p ps IH]; cbn [mapM app]; [by destruct (mapM _ qs)|].
  destruct (m !! p); cbn [fmap option_fmap option_map mbind option_bind]; [|done]. rewrite IH.
  destruct (mapM _ ps); cbn [mbind option_bind]; [|done]. destruct (mapM _ qs); done.
Qed.

Lemma deref_some m H ps : counted m H -> Forall (fun p => p ∈ H) ps -> is_Some (deref m ps).
Proof.
  intros Hc Hp. apply mapM_is_Some. eapply list.Forall_impl; [exact Hp|]. intros p Hin%(counted_dom m H p Hc).
  destruct Hin as [f Hf]. exists (meta f). by rewrite Hf.
Qed.

(** ** The invariant of the heap *)

(** The pointers to files in all versions. *)
Definition all_files (vs : gmap nat PVersion) : list nat := concat (map (fun vp => concat (pv_files (snd vp))) (map_to_list vs)).

(** The heap with users [U] of versions (one entry for each reference), versions
    [L] that have no user yet, and further pointers [X] to files. *)
Record heap_ok (vm : VMem) (U : gmultiset nat) (L : gset nat) (X : gmultiset nat) : Prop := {
  hk_files : counted (vm_files vm) (bag (all_files (vm_versions vm)) ⊎ X);
  hk_users : forall v, pv_refs <$> vm_versions vm !! v = if decide (v ∈ L) then Some 0 else positive (multiplicity v U);
  hk_loose : forall v, v ∈ L -> v ∉ U;
  hk_linked : forall v, v ∉ L -> v ∈ vm_linked vm <-> v ∈ U;
  hk_levels : map_Forall (fun _ pv => length (pv_files pv) = kNumLevels) (vm_versions vm);
  hk_pointers : length (vm_compact_pointer vm) = kNumLevels }.

(** The files of a version. *)
Definition contents (vm : VMem) (v : nat) : option (list (list FileMetaData)) :=
  pv ← vm_versions vm !! v; mapM (deref (vm_files vm)) (pv_files pv).

(** The versions of [vm'] were in [vm] with the same files. *)
Definition survives (vm vm' : VMem) : Prop :=
  forall v, is_Some (vm_versions vm' !! v) -> is_Some (vm_versions vm !! v) /\ contents vm' v = contents vm v.

Lemma survives_refl vm : survives vm vm.
Proof. done. Qed.

Lemma survives_trans vm1 vm2 vm3 : survives vm1 vm2 -> survives vm2 vm3 -> survives vm1 vm3.
Proof. intros H1 H2 v Hv. destruct (H2 v Hv) as [Hv2 ->]. by apply H1. Qed.

Lemma all_files_insert vs v pv : vs !! v = None -> all_files (<[v := pv]> vs) ≡ₚ concat (pv_files pv) ++ all_files vs.
Proof. intros Hv. unfold all_files. by rewrite map_to_list_insert by done. Qed.

Lemma all_files_delete vs v pv : vs !! v = Some pv -> all_files vs ≡ₚ concat (pv_files pv) ++ all_files (delete v vs).
Proof.
  intros Hv. rewrite <- (insert_id vs v pv Hv) at 1. rewrite <- insert_delete_eq. apply all_files_insert. apply lookup_delete_eq.
Qed.

Lemma all_files_update vs v pv pv' :
  vs !! v = Some pv -> all_files (<[v := pv']> vs) ≡ₚ concat (pv_files pv') ++ all_files (delete v vs).
Proof. intros Hv. rewrite <- insert_delete_eq. apply all_files_insert, lookup_delete_eq. Qed.

Lemma all_files_elem vs v pv : vs !! v = Some pv -> Forall (fun ps => Forall (fun p => p ∈ all_files vs) ps) (pv_files pv).
Proof.
  intros Hv. apply list.Forall_forall. intros ps Hps. apply list.Forall_forall. intros p Hp.
  rewrite (all_files_delete vs v pv Hv). apply elem_of_app. left. rewrite list_elem_of_In, in_concat.
  exists ps. by rewrite <- !list_elem_of_In.
Qed.

Lemma mapM_deref_same H m m' pss :
  same_on H m m' -> Forall (Forall (fun p => p ∈ H)) pss -> mapM (deref m') pss = mapM (deref m) pss.
Proof.
  intros Hs Hp. induction Hp as [|ps pss Hps _ IH]; cbn [mapM]; [done|]. by rewrite IH, (deref_same H m m' ps Hs Hps).
Qed.

Lemma contents_same H vm vm' v pv :
  same_on H (vm_files vm) (vm_files vm') -> Forall (Forall (fun p => p ∈ H)) (pv_files pv) ->
  vm_versions vm !! v = Some pv -> pv_files <$> vm_versions vm' !! v = Some (pv_files pv) -> contents vm' v = contents vm v.
Proof.
  intros Hs Hp Hv (pv' & Hv' & E)%fmap_Some. unfold contents. rewrite Hv, Hv'. cbn [mbind option_bind]. rewrite <- E.
  by apply mapM_deref_same with H.
Qed.

Lemma heap_files_in vm U L X v pv :
  heap_ok vm U L X -> vm_versions vm !! v = Some pv ->
  Forall (Forall (fun p => p ∈ bag (all_files (vm_versions vm)) ⊎ X)) (pv_files pv).
Proof.
  intros Hk Hv. eapply list.Forall_impl; [by apply all_files_elem with (v := v)|]. intros ps Hps. eapply list.Forall_impl; [exact Hps|].
  intros p Hp. apply gmultiset_elem_of_disj_union. left. by apply elem_of_list_to_set_disj.
Qed.

(** Every version on the heap has its files. *)
Lemma contents_some vm U L X v : heap_ok vm U L X -> is_Some (vm_versions vm !! v) -> is_Some (contents vm v).
Proof.
  intros Hk [pv Hv]. unfold contents. rewrite Hv. cbn [mbind option_bind]. apply mapM_is_Some.
  eapply list.Forall_impl; [by apply (heap_files_in vm U L X v pv Hk)|]. intros ps Hps. eapply deref_some; [apply Hk|exact Hps].
Qed.

Lemma heap_live vm U L X v : heap_ok vm U L X -> is_Some (vm_versions vm !! v) <-> v ∈ L \/ v ∈ U.
Proof.
  intros Hk. pose proof (hk_users _ _ _ _ Hk v) as E. rewrite elem_of_multiplicity. destruct (decide (v ∈ L)) as [Hl|Hl].
  - apply fmap_Some in E as (pv & -> & _). split; [by left|done].
  - destruct (vm_versions vm !! v) as [pv|]; destruct (multiplicity v U); cbn in E; try done.
    + split; [|done]. intros _. right. lia.
    + split; [by intros []|]. intros [?|?]; [done|lia].
Qed.

(** *** Deleting a version *)

Lemma Version_delete_ok vm U L X v :
  heap_ok vm U ({[v]} ∪ L) X -> v ∉ L ->
  exists vm', Version_delete vm v = Some vm' /\ heap_ok vm' U L X /\ survives vm vm' /\
    same_on X (vm_files vm) (vm_files vm') /\ vm_current vm' = vm_current vm.
Proof.
  intros Hk Hv. pose proof (hk_users _ _ _ _ Hk v) as E. rewrite decide_True in E by set_solver.
  apply fmap_Some in E as (pv & Hpv & E). unfold Version_delete. rewrite Hpv. cbn [mbind option_bind].
  rewrite <- E. cbn [Z.eqb]. pose proof (hk_files _ _ _ _ Hk) as Hc.
  rewrite (all_files_delete _ _ _ Hpv), list_to_set_disj_app, <- (assoc_L (⊎)) in Hc.
  destruct (decref_all _ _ _ Hc) as (m' & _ & -> & Hc' & Hs). cbn [mbind option_bind]. eexists. split; [done|].
  assert (v ∉ U) as Hvu by (apply (hk_loose _ _ _ _ Hk); set_solver).
  split; [split; cbn [vm_files vm_versions vm_linked vm_compact_pointer]|].
  - exact Hc'.
  - intros w. destruct (decide (w = v)) as [->|Hne].
    + rewrite lookup_delete_eq, decide_False by done. apply not_elem_of_multiplicity in Hvu. by rewrite Hvu.
    + rewrite lookup_delete_ne, (hk_users _ _ _ _ Hk w) by done. destruct (decide (w ∈ L)); [by rewrite decide_True by set_solver|].
      by rewrite decide_False by set_solver.
  - intros w Hw. apply (hk_loose _ _ _ _ Hk). set_solver.
  - intros w Hw. rewrite list_elem_of_In, filter_In, <- list_elem_of_In. destruct (Nat.eqb_spec w v) as [->|Hne]; cbn [negb].
    + split; [by intros [_ ?]|]. intros ?. done.
    + rewrite (hk_linked _ _ _ _ Hk w) by set_solver. tauto.
  - apply map_Forall_delete, Hk.
  - apply Hk.
  - split; [|split; [|done]]; cbn [vm_files].
    + intros w [pw Hw]. cbn [vm_versions] in Hw. apply lookup_delete_Some in Hw as [Hne Hw]. split; [by rewrite Hw|].
      apply contents_same with (H := bag (all_files (delete v (vm_versions vm))) ⊎ X) (pv := pw); cbn [vm_files vm_versions]; try done.
      * eapply list.Forall_impl; [apply (all_files_elem (delete v (vm_versions vm)) w pw); by rewrite lookup_delete_ne|].
        intros ps Hps. eapply list.Forall_impl; [exact Hps|]. intros p Hp. apply gmultiset_elem_of_disj_union. left.
        by apply elem_of_list_to_set_disj.
      * by rewrite lookup_delete_ne, Hw by done.
    + eapply same_on_sub; [|exact Hs]. multiset_solver.
Qed.

(** *** References to versions *)

(** A version whose count changes and whose files do not. *)
Lemma put_refs_ok vm U U' L L' X v pv n :
  heap_ok vm U L X -> vm_versions vm !! v = Some pv ->
  (Some n = if decide (v ∈ L') then Some 0 else positive (multiplicity v U')) ->
  (forall w, w <> v -> (w ∈ L' <-> w ∈ L) /\ multiplicity w U' = multiplicity w U) ->
  (v ∈ L' -> v ∉ U') -> (v ∉ L' -> v ∈ vm_linked vm <-> v ∈ U') ->
  heap_ok (put_version vm v (mkPVersion (pv_files pv) n)) U' L' X /\ survives vm (put_version vm v (mkPVersion (pv_files pv) n)).
Proof.
  intros Hk Hv Hn Ho Hl Hi.
  assert (forall w, w <> v -> w ∈ U' <-> w ∈ U) as Hu by (intros w Hw; by rewrite !elem_of_multiplicity, (proj2 (Ho w Hw))).
  split; [split; cbn [put_version vm_files vm_versions vm_linked vm_compact_pointer]|].
  - rewrite (all_files_update _ _ _ _ Hv). cbn [pv_files]. rewrite <- (all_files_delete _ _ _ Hv). apply Hk.
  - intros w. destruct (decide (w = v)) as [->|Hne]; [by rewrite lookup_insert_eq|].
    rewrite lookup_insert_ne, (hk_users _ _ _ _ Hk w), (proj2 (Ho w Hne)) by done.
    destruct (decide (w ∈ L)) as [Hw|Hw]; [by rewrite decide_True by by apply (Ho w Hne)|].
    rewrite decide_False; [done|]. by rewrite (proj1 (Ho w Hne)).
  - intros w Hw. destruct (decide (w = v)) as [->|Hne]; [by apply Hl|]. rewrite Hu by done. apply (hk_loose _ _ _ _ Hk).
    by apply (Ho w Hne).
  - intros w Hw. destruct (decide (w = v)) as [->|Hne]; [by apply Hi|]. rewrite Hu by done. apply (hk_linked _ _ _ _ Hk).
    by rewrite <- (proj1 (Ho w Hne)).
  - apply map_Forall_insert_2; [|apply Hk]. cbn [pv_files]. exact (hk_levels _ _ _ _ Hk v pv Hv).
  - apply Hk.
  - intros w Hw. cbn [put_version vm_versions] in Hw. unfold contents. cbn [put_version vm_versions vm_files].
    destruct (decide (w = v)) as [->|Hne]; [by rewrite lookup_insert_eq, Hv|]. rewrite lookup_insert_ne in Hw |- * by done. done.
Qed.

Lemma Version_incref_ok vm U L X v :
  heap_ok vm U L X -> v ∈ U ->
  exists vm', Version_incref vm v = Some vm' /\ heap_ok vm' ({[+ v +]} ⊎ U) L X /\ survives vm vm' /\
    vm_files vm' = vm_files vm /\ vm_current vm' = vm_current vm /\ (forall w, w <> v -> vm_versions vm' !! w = vm_versions vm !! w).
Proof.
  intros Hk Hv. pose proof (hk_users _ _ _ _ Hk v) as E.
  assert (v ∉ L) as Hl by (intros Hl; by apply (hk_loose _ _ _ _ Hk v Hl)).
  rewrite decide_False, positive_some in E; [|by apply elem_of_multiplicity|done].
  apply fmap_Some in E as (pv & Hpv & E). unfold Version_incref. rewrite Hpv. cbn [mbind option_bind].
  destruct (put_refs_ok vm U ({[+ v +]} ⊎ U) L L X v pv (pv_refs pv + 1)) as [H1 H2]; try done.
  - rewrite decide_False, multiplicity_disj_union, multiplicity_singleton_eq, positive_some by (done || lia). f_equal. lia.
  - intros w Hw. by rewrite multiplicity_disj_union, multiplicity_singleton_ne by done.
  - intros Hlk. rewrite (hk_linked _ _ _ _ Hk v Hl). multiset_solver.
  - eexists. do 5 (split; [done|]). intros w Hw. cbn [put_version vm_versions]. by rewrite lookup_insert_ne.
Qed.

Lemma Version_decref_ok vm U L X v :
  heap_ok vm ({[+ v +]} ⊎ U) L X ->
  exists vm', Version_decref vm v = Some vm' /\ heap_ok vm' U L X /\ survives vm vm' /\
    same_on X (vm_files vm) (vm_files vm') /\ vm_current vm' = vm_current vm.
Proof.
  intros Hk. pose proof (hk_users _ _ _ _ Hk v) as E.
  assert (v ∉ L) as Hl by (intros Hl; apply (hk_loose _ _ _ _ Hk v Hl); multiset_solver).
  rewrite decide_False, multiplicity_disj_union, multiplicity_singleton_eq, positive_some in E by (done || lia).
  apply fmap_Some in E as (pv & Hpv & E). unfold Version_decref. rewrite Hpv. cbn [mbind option_bind].
  rewrite (proj2 (Z.leb_le 1 (pv_refs pv))) by lia.
  assert (forall w, w <> v -> multiplicity w U = multiplicity w ({[+ v +]} ⊎ U)) as Hne
    by (intros w Hw; by rewrite multiplicity_disj_union, multiplicity_singleton_ne).
  destruct (Z.eqb_spec (pv_refs pv - 1) 0) as [Hz|Hz].
  - rewrite Hz. destruct (put_refs_ok vm ({[+ v +]} ⊎ U) U L ({[v]} ∪ L) X v pv 0) as [H1 H2]; try done.
    + by rewrite decide_True by set_solver.
    + intros w Hw. split; [set_solver|by apply Hne].
    + intros _. apply not_elem_of_multiplicity. lia.
    + set_solver.
    + destruct (Version_delete_ok _ U L X v H1 Hl) as (vm' & -> & Hk' & Hs & Hx & Hcur). exists vm'. split; [done|].
      split; [done|]. split; [by eapply survives_trans|]. by split.
  - destruct (put_refs_ok vm ({[+ v +]} ⊎ U) U L L X v pv (pv_refs pv - 1)) as [H1 H2]; try done.
    + rewrite decide_False, positive_some by (done || lia). f_equal. lia.
    + intros w Hw. split; [done|by apply Hne].
    + intros _. rewrite (hk_linked _ _ _ _ Hk v Hl), !elem_of_multiplicity, multiplicity_disj_union. lia.
    + eexists. split; [done|]. split; [done|]. split; [done|]. done.
Qed.

(** *** Installing a version *)

Lemma link_ok vm U L X v :
  heap_ok vm U ({[v]} ∪ L) X -> v ∉ L ->
  exists vm', Version_incref (mkVMem (vm_files vm) (vm_versions vm) (vm_linked vm) (Some v) (vm_compact_pointer vm)) v = Some vm' /\
    let vm2 := mkVMem (vm_files vm') (vm_versions vm') (vm_linked vm' ++ [v]) (vm_current vm') (vm_compact_pointer vm') in
    heap_ok vm2 ({[+ v +]} ⊎ U) L X /\ survives vm vm2 /\ vm_files vm' = vm_files vm /\ vm_current vm' = Some v /\
    is_Some (vm_versions vm' !! v).
Proof.
  intros Hk Hv. pose proof (hk_users _ _ _ _ Hk v) as E. rewrite decide_True in E by set_solver.
  apply fmap_Some in E as (pv & Hpv & E). unfold Version_incref. cbn [vm_versions]. rewrite Hpv. cbn [mbind option_bind].
  eexists. split; [done|]. cbn zeta.
  assert (v ∉ U) as Hvu%not_elem_of_multiplicity by (apply (hk_loose _ _ _ _ Hk); set_solver).
  destruct (put_refs_ok (mkVMem (vm_files vm) (vm_versions vm) (vm_linked vm ++ [v]) (Some v) (vm_compact_pointer vm))
    U ({[+ v +]} ⊎ U) ({[v]} ∪ L) L X v pv (pv_refs pv + 1)) as [H1 H2].
  - split; cbn [vm_files vm_versions vm_linked vm_compact_pointer]; try apply Hk.
    intros w Hw. rewrite elem_of_app, (hk_linked _ _ _ _ Hk w Hw). set_solver.
  - done.
  - rewrite decide_False, multiplicity_disj_union, multiplicity_singleton_eq, Hvu by done. cbn. f_equal. lia.
  - intros w Hw. split; [set_solver|]. by rewrite multiplicity_disj_union, multiplicity_singleton_ne.
  - done.
  - intros _. cbn [vm_linked]. rewrite elem_of_app. split; [multiset_solver|]. intros _. right. by left.
  - split; [exact H1|]. split; [exact H2|]. split; [done|]. split; [done|]. cbn [put_version vm_versions]. by rewrite lookup_insert_eq.
Qed.

Lemma append_Version_ok vm U L X v c :
  heap_ok vm ({[+ c +]} ⊎ U) ({[v]} ∪ L) X -> v ∉ L -> vm_current vm = Some c ->
  exists vm', append_Version vm v = Some vm' /\ heap_ok vm' ({[+ v +]} ⊎ U) L X /\ survives vm vm' /\
    same_on X (vm_files vm) (vm_files vm') /\ vm_current vm' = Some v /\ is_Some (vm_versions vm' !! v).
Proof.
  intros Hk Hv Hc. pose proof (hk_users _ _ _ _ Hk v) as E. rewrite decide_True in E by set_solver.
  apply fmap_Some in E as (pv & Hpv & E). unfold append_Version. rewrite Hpv, Hc. cbn [mbind option_bind].
  assert (c <> v) as Hne by (intros ->; apply (hk_loose _ _ _ _ Hk v); [set_solver|multiset_solver]).
  rewrite <- E, bool_decide_true by congruence. cbn [Z.eqb andb].
  destruct (Version_decref_ok _ _ _ _ _ Hk) as (vm1 & -> & Hk1 & Hs1 & Hx1 & Hc1). cbn [mbind option_bind].
  destruct (link_ok _ _ _ _ _ Hk1 Hv) as (vm2 & -> & Hk2 & Hs2 & Hf2 & Hc2 & Hl2). cbn [mbind option_bind]. eexists. split; [done|].
  split; [done|]. split; [by eapply survives_trans|]. cbn [vm_files vm_current vm_versions]. rewrite Hf2. done.
Qed.

Lemma new_Version_ok vm U L X :
  heap_ok vm U L X ->
  exists v, new_Version vm = (put_version vm v (mkPVersion (replicate kNumLevels []) 0), v) /\ v ∉ L /\ v ∉ U /\
    vm_versions vm !! v = None /\ heap_ok (put_version vm v (mkPVersion (replicate kNumLevels []) 0)) U ({[v]} ∪ L) X.
Proof.
  intros Hk. unfold new_Version. set (v := fresh _). exists v.
  assert (vm_versions vm !! v = None) as Hv by (apply not_elem_of_dom; apply is_fresh).
  assert (~ (v ∈ L \/ v ∈ U)) as Hlu by (rewrite <- (heap_live _ _ _ _ v Hk), Hv; by intros []).
  split; [done|]. split; [tauto|]. split; [tauto|]. split; [done|].
  split; cbn [put_version vm_files vm_versions vm_linked vm_compact_pointer].
  - rewrite (all_files_insert _ _ _ Hv). cbn [pv_files]. assert (concat (replicate kNumLevels ([] : list nat)) = []) as -> by done. apply Hk.
  - intros w. destruct (decide (w = v)) as [->|Hne].
    + by rewrite lookup_insert_eq, decide_True by set_solver.
    + rewrite lookup_insert_ne, (hk_users _ _ _ _ Hk w) by done. destruct (decide (w ∈ L)); [by rewrite decide_True by set_solver|].
      by rewrite decide_False by set_solver.
  - intros w [->%elem_of_singleton|Hw]%elem_of_union; [tauto|by apply (hk_loose _ _ _ _ Hk)].
  - intros w Hw. apply (hk_linked _ _ _ _ Hk). set_solver.
  - apply map_Forall_insert_2; [done|apply Hk].
  - apply Hk.
Qed.

(** ** The builder on the heap *)

Section BuilderRefs.
Context (ucmp : Comparator) `{!ComparatorLaws ucmp}.
Abbreviation icompare := (InternalKeyComparator.Compare ucmp).
Abbreviation by_smallest := (by_smallest ucmp).

(** The pointers of a builder, and the value that a level of it stands for. *)
Definition added_bag (ls : list PLevel) : gmultiset nat := bag (concat (map pl_added ls)).
Definition level_rel (m : FileHeap) (s : PLevel) (t : LevelState) : Prop :=
  pl_deleted s = deleted_files t /\ deref m (pl_added s) = Some (map meta (added_files t)).

Lemma by_smallest_meta f g : by_smallest (meta f) (meta g) = by_smallest f g.
Proof. done. Qed.

Lemma deref_cons m p ps fs :
  deref m (p :: ps) = Some fs <-> exists f gs, m !! p = Some f /\ deref m ps = Some gs /\ fs = meta f :: gs.
Proof.
  unfold deref. cbn [mapM]. destruct (m !! p) as [f|] eqn:Ep; cbn [fmap option_fmap option_map mbind option_bind].
  - destruct (mapM _ ps) as [gs|]; cbn [mbind option_bind].
    + split; [intros [= <-]; eauto 6|]. by intros (f' & gs' & [= <-] & [= <-] & ->).
    + split; [done|]. by intros (f' & gs' & _ & ? & _).
  - split; [done|]. by intros (f' & gs' & ? & _).
Qed.

Lemma by_smallest_of f g h : meta g = meta h -> by_smallest f g = by_smallest f h.
Proof. unfold VersionBuilder.by_smallest. destruct g, h. cbn. by intros [= -> -> -> ->]. Qed.

Lemma pointer_insert_ok m p f fp l fs :
  deref m l = Some (map meta fs) -> m !! p = Some fp -> meta fp = meta f -> (forall h, h ∈ fs -> by_smallest f h <> Eq) ->
  exists l', pointer_insert ucmp m p f l = Some l' /\ l' ≡ₚ p :: l /\ deref m l' = Some (map meta (file_insert ucmp f fs)).
Proof.
  intros Hl Hp Ef. revert fs Hl. induction l as [|q l IH]; intros fs Hl Hne; cbn [pointer_insert].
  - destruct fs; [|done]. exists [p]. split; [done|]. split; [done|]. apply deref_cons. exists fp, []. by rewrite Ef.
  - apply deref_cons in Hl as (g & gs & Hg & Hl & E). destruct fs as [|h fs]; [done|]. cbn [map] in E. apply (inj2 cons) in E as [E <-].
    rewrite Hg. cbn [mbind option_bind file_insert]. rewrite (by_smallest_of f g h) by done.
    destruct (by_smallest f h) eqn:Eb; [by destruct (Hne h); [left|]| |].
    + exists (p :: q :: l). split; [done|]. split; [done|]. apply deref_cons. exists fp, (map meta (h :: fs)).
      split; [done|]. split; [|by rewrite Ef]. apply deref_cons. exists g, (map meta fs). cbn [map]. by rewrite E.
    + destruct (IH fs) as (l' & -> & Hperm & Hd); [done|set_solver|]. cbn [mbind option_bind]. exists (q :: l').
      split; [done|]. split; [rewrite Hperm; apply Permutation_swap|]. apply deref_cons. exists g, (map meta (file_insert ucmp f fs)).
      split; [done|]. split; [done|]. cbn [map]. by rewrite E.
Qed.

Lemma added_bag_insert ls i s s' p :
  ls !! i = Some s -> pl_added s' ≡ₚ p :: pl_added s -> added_bag (<[i := s']> ls) = {[+ p +]} ⊎ added_bag ls.
Proof.
  intros Hs Hp. unfold added_bag. rewrite <- list_to_set_disj_cons. apply list_to_set_disj_perm.
  revert i Hs. induction ls as [|t ls IH]; intros [|i] Hs; try done; cbn in Hs |- *.
  - injection Hs as ->. by rewrite Hp.
  - rewrite (IH i Hs). by rewrite Permutation_middle.
Qed.

Lemma added_bag_same ls i s s' : ls !! i = Some s -> pl_added s' = pl_added s -> added_bag (<[i := s']> ls) = added_bag ls.
Proof.
  intros Hs Hp. unfold added_bag. do 2 f_equal. change (map pl_added) with (fmap (M := list) pl_added).
  rewrite list_fmap_insert. apply list_insert_id. by rewrite list_lookup_fmap, Hs, Hp.
Qed.

Lemma added_in ls s : s ∈ ls -> Forall (fun p => p ∈ added_bag ls) (pl_added s).
Proof.
  intros Hs. apply list.Forall_forall. intros p Hp. apply elem_of_list_to_set_disj. rewrite list_elem_of_In, in_concat.
  exists (pl_added s). rewrite <- !list_elem_of_In. split; [|done]. by apply list_elem_of_fmap_2.
Qed.

Lemma levels_same H m m' ls vl :
  same_on (H ⊎ added_bag ls) m m' -> Forall2 (level_rel m) ls vl -> Forall2 (level_rel m') ls vl.
Proof.
  intros Hs Hr. apply Forall2_same_length_lookup. split; [by eapply Forall2_length|].
  intros i s t Hi Ht. destruct (Forall2_lookup_lr _ _ _ _ _ _ Hr Hi Ht) as [Hd Ha]. split; [done|].
  rewrite <- Ha. apply deref_same with (added_bag ls); [|by apply added_in, list_elem_of_lookup_2 with i].
  eapply same_on_sub; [|exact Hs]. multiset_solver.
Qed.

(** The numbers that a list of new files adds to a level. *)
Definition numbers_at (l : nat) (nf : list (Z * FileMetaData)) : list Z :=
  map (fun e => number (snd e)) (filter (fun e => Z.to_nat (fst e) = l) nf).
Definition numbers_fresh (vl : list LevelState) (nf : list (Z * FileMetaData)) : Prop :=
  forall l t, vl !! l = Some t -> NoDup (map number (added_files t) ++ numbers_at l nf).

(** The third loop of [Apply] on values. *)
Definition value_new (vl : list LevelState) (e : Z * FileMetaData) : list LevelState :=
  on_level vl (fst e) (fun t => add_new ucmp t (prepare_file (snd e))).

Lemma numbers_fresh_cons vl e nf t :
  numbers_fresh vl (e :: nf) -> vl !! Z.to_nat (fst e) = Some t ->
  (forall h, h ∈ added_files t -> by_smallest (prepare_file (snd e)) h <> Eq) /\ numbers_fresh (value_new vl e) nf.
Proof.
  intros Hn Ht.
  assert (forall h, h ∈ added_files t -> by_smallest (prepare_file (snd e)) h <> Eq) as Hne.
  { intros h Hh Eb%by_smallest_eq. specialize (Hn _ _ Ht). unfold numbers_at in Hn. rewrite filter_cons, decide_True in Hn by done.
    apply list.NoDup_app in Hn as (_ & Hd & _). apply (Hd (number h)); [by apply list_elem_of_fmap_2|]. rewrite <- Eb. by left. }
  split; [done|]. intros l t' Hl. unfold value_new, on_level in Hl. destruct (decide (Z.to_nat (fst e) = l)) as [<-|Hl'].
  - rewrite list_lookup_alter_eq, Ht in Hl. injection Hl as <-. cbn [add_new added_files].
    specialize (Hn _ _ Ht). unfold numbers_at in Hn. rewrite filter_cons, decide_True in Hn by done. cbn [map] in Hn.
    rewrite (file_insert_perm ucmp _ _ Hne). cbn [map app]. by rewrite Permutation_middle.
  - rewrite list_lookup_alter_ne in Hl by done. specialize (Hn _ _ Hl). unfold numbers_at in Hn.
    by rewrite filter_cons, decide_False in Hn by done.
Qed.

Lemma Forall2_on_level m ls vl i s' t g :
  Forall2 (level_rel m) ls vl -> vl !! i = Some t -> level_rel m s' (g t) ->
  Forall2 (level_rel m) (<[i := s']> ls) (alter g i vl).
Proof.
  intros Hr Ht Hs. assert (alter g i vl = <[i := g t]> vl) as ->; [|by apply Forall2_insert].
  apply list_eq. intros j. destruct (decide (j = i)) as [->|Hne].
  - rewrite list_lookup_alter_eq, Ht. cbn. rewrite list_lookup_insert_eq; [done|]. by eapply lookup_lt_Some.
  - by rewrite list_lookup_alter_ne, list_lookup_insert_ne by done.
Qed.

Lemma apply_new_ok m ls vl H e nf :
  counted m (H ⊎ added_bag ls) -> Forall2 (level_rel m) ls vl -> (Z.to_nat (fst e) < length ls)%nat -> numbers_fresh vl (e :: nf) ->
  exists m' ls', apply_new ucmp (m, ls) e = Some (m', ls') /\ counted m' (H ⊎ added_bag ls') /\
    Forall2 (level_rel m') ls' (value_new vl e) /\ same_on H m m' /\ length ls' = length ls.
Proof.
  intros Hc Hr Hi Hn. destruct (lookup_lt_is_Some_2 _ _ Hi) as [s Hs].
  destruct (Forall2_lookup_l _ _ _ _ _ Hr Hs) as (t & Ht & Hd & Ha).
  destruct (numbers_fresh_cons _ _ _ _ Hn Ht) as [Hne _].
  unfold apply_new. rewrite Hs. cbn [mbind option_bind]. set (f := prepare_file (snd e)) in *. set (p := fresh (dom m)).
  assert (m !! p = None) as Hp by (apply not_elem_of_dom, is_fresh).
  destruct (counted_alloc m _ p f Hc Hp) as [Hc' Hs']; [done|]. set (m' := <[p := f]> m) in *.
  pose proof (levels_same _ _ _ _ _ Hs' Hr) as Hr'.
  destruct (pointer_insert_ok m' p f f (pl_added s) (added_files t)) as (l' & -> & Hperm & Hl'); try done.
  { by destruct (Forall2_lookup_lr _ _ _ _ _ _ Hr' Hs Ht). }
  { unfold m'. by rewrite lookup_insert_eq. }
  cbn [mbind option_bind]. eexists _, _. split; [done|]. split; [|split; [|split]].
  - rewrite (added_bag_insert _ _ _ _ p Hs) by done. replace (H ⊎ ({[+ p +]} ⊎ added_bag ls)) with ({[+ p +]} ⊎ (H ⊎ added_bag ls)); [done|].
    multiset_solver.
  - apply Forall2_on_level with t; [done|done|]. split; [|done]. cbn [pl_deleted add_new deleted_files]. by rewrite Hd.
  - eapply same_on_sub; [|exact Hs']. multiset_solver.
  - apply length_insert.
Qed.

Lemma apply_all_new_ok nf rest m ls vl H :
  counted m (H ⊎ added_bag ls) -> Forall2 (level_rel m) ls vl ->
  Forall (fun e => (Z.to_nat (fst e) < length ls)%nat) nf -> numbers_fresh vl (nf ++ rest) ->
  exists m' ls', fold_opt (apply_new ucmp) nf (m, ls) = Some (m', ls') /\ counted m' (H ⊎ added_bag ls') /\
    Forall2 (level_rel m') ls' (fold_left value_new nf vl) /\ same_on H m m' /\ length ls' = length ls /\
    numbers_fresh (fold_left value_new nf vl) rest.
Proof.
  revert m ls vl. induction nf as [|e nf IH]; intros m ls vl Hc Hr Hi Hn; cbn [fold_opt fold_left].
  { exists m, ls. do 5 (split; [done|]). done. }
  apply list.Forall_cons in Hi as [He Hi]. cbn [app] in Hn.
  destruct (apply_new_ok m ls vl H e (nf ++ rest)) as (m1 & ls1 & -> & Hc1 & Hr1 & Hs1 & Hl1); try done. cbn [mbind option_bind].
  destruct (lookup_lt_is_Some_2 _ _ He) as [s Hs]. destruct (Forall2_lookup_l _ _ _ _ _ Hr Hs) as (t & Ht & _).
  destruct (IH m1 ls1 (value_new vl e)) as (m2 & ls2 & -> & Hc2 & Hr2 & Hs2 & Hl2 & Hn2); try done.
  { by rewrite Hl1. }
  { by eapply numbers_fresh_cons. }
  exists m2, ls2. split; [done|]. split; [done|]. split; [done|]. split; [by eapply same_on_trans; [|exact Hs1|exact Hs2]|].
  split; [lia|done].
Qed.

(** The second loop of [Apply] on values. *)
Definition value_deleted (vl : list LevelState) (e : Z * Z) : list LevelState :=
  on_level vl (fst e) (fun t => mkLevelState ({[snd e]} ∪ deleted_files t) (added_files t)).

Lemma apply_all_deleted_ok df m ls vl :
  Forall2 (level_rel m) ls vl -> Forall (fun e => (Z.to_nat (fst e) < length ls)%nat) df ->
  exists ls', fold_opt apply_deleted df ls = Some ls' /\ Forall2 (level_rel m) ls' (fold_left value_deleted df vl) /\
    added_bag ls' = added_bag ls /\ length ls' = length ls.
Proof.
  revert ls vl. induction df as [|e df IH]; intros ls vl Hr Hi; cbn [fold_opt fold_left]; [eauto|].
  apply list.Forall_cons in Hi as [He Hi]. destruct (lookup_lt_is_Some_2 _ _ He) as [s Hs].
  destruct (Forall2_lookup_l _ _ _ _ _ Hr Hs) as (t & Ht & Hd & Ha). unfold apply_deleted at 2. rewrite Hs. cbn [mbind option_bind].
  set (ls1 := <[_ := _]> ls). destruct (IH ls1 (value_deleted vl e)) as (ls2 & -> & Hr2 & Hb2 & Hl2).
  - apply Forall2_on_level with t; [done|done|]. split; [|done]. cbn [pl_deleted deleted_files]. by rewrite Hd.
  - unfold ls1. by rewrite length_insert.
  - exists ls2. split; [done|]. split; [done|]. unfold ls1 in Hb2, Hl2. rewrite Hb2, Hl2, length_insert. split; [|done].
    by apply added_bag_same with s.
Qed.

Lemma value_deleted_fresh df vl nf : numbers_fresh vl nf -> numbers_fresh (fold_left value_deleted df vl) nf.
Proof.
  intros Hn l t Hl. unfold value_deleted in Hl.
  rewrite (fold_on_level fst (fun e t => mkLevelState ({[snd e]} ∪ deleted_files t) (added_files t))) in Hl.
  apply fmap_Some in Hl as (t0 & Ht0 & ->). rewrite (fold_delete_files ucmp). cbn [added_files]. by apply Hn.
Qed.

(** The levels of an edit are levels of a version, which is what [DecodeFrom]
    checks. *)
Definition level_ok (l : Z) : Prop := 0 <= l < Z.of_nat kNumLevels.
Record edit_levels_ok (edit : VersionEdit) : Prop := {
  el_pointers : Forall (fun e => level_ok (fst e)) (compact_pointers_ edit);
  el_deleted : Forall (fun e => level_ok (fst e)) (deleted_files_ edit);
  el_new : Forall (fun e => level_ok (fst e)) (new_files_ edit) }.

Lemma in_levels {A} (l : list (Z * A)) n : n = kNumLevels -> Forall (fun e => level_ok (fst e)) l -> Forall (fun e => (Z.to_nat (fst e) < n)%nat) l.
Proof. intros -> Hl. eapply list.Forall_impl; [exact Hl|]. unfold level_ok. intros x ?. lia. Qed.

Lemma apply_pointers_ok es cp :
  length cp = kNumLevels -> Forall (fun e => level_ok (fst e)) es ->
  exists cp', fold_opt apply_pointer es cp = Some cp' /\ length cp' = kNumLevels.
Proof.
  revert cp. induction es as [|e es IH]; intros cp Hc He; cbn [fold_opt]; [eauto|]. apply list.Forall_cons in He as [He Hes].
  unfold apply_pointer at 2. destruct (lookup_lt_is_Some_2 cp (Z.to_nat (fst e))) as [x ->]; [unfold level_ok in He; lia|].
  cbn [mbind option_bind]. apply IH; [|done]. by rewrite length_insert.
Qed.

(** A builder on the heap and the builder of VersionBuilder.v. *)
Record builder_rel (vm : VMem) (b : PBuilder) (vb : Builder) : Prop := {
  br_levels : Forall2 (level_rel (vm_files vm)) (pb_level b) (level_ vb);
  br_count : length (pb_level b) = kNumLevels;
  br_base : contents vm (pb_base b) = Some (base_ vb) }.

Lemma contents_versions vm vm' v :
  vm_versions vm' = vm_versions vm -> same_on (bag (all_files (vm_versions vm))) (vm_files vm) (vm_files vm') ->
  contents vm' v = contents vm v.
Proof.
  intros Ev Hs. destruct (vm_versions vm !! v) as [pv|] eqn:Hv; [|unfold contents; by rewrite Ev, Hv].
  eapply contents_same; [exact Hs| |exact Hv|by rewrite Ev, Hv].
  eapply list.Forall_impl; [by apply all_files_elem with (v := v)|]. intros ps Hps.
  eapply list.Forall_impl; [exact Hps|]. intros p. by apply elem_of_list_to_set_disj.
Qed.

Lemma PBuilder_Apply_ok vm U L b vb edit rest cp :
  heap_ok vm U L (added_bag (pb_level b)) -> builder_rel vm b vb -> edit_levels_ok edit ->
  numbers_fresh (level_ vb) (new_files_ edit ++ rest) ->
  let vb' := snd (Apply ucmp cp vb edit) in
  exists vm' b', PBuilder_Apply ucmp vm b edit = Some (vm', b') /\ heap_ok vm' U L (added_bag (pb_level b')) /\
    builder_rel vm' b' vb' /\ numbers_fresh (level_ vb') rest /\ pb_base b' = pb_base b /\
    vm_versions vm' = vm_versions vm /\ (forall v, contents vm' v = contents vm v) /\ vm_current vm' = vm_current vm.
Proof.
  intros Hk [Hr Hl Hb] [Ep Ed En] Hn vb'. unfold PBuilder_Apply.
  destruct (apply_pointers_ok _ _ (hk_pointers _ _ _ _ Hk) Ep) as (cp' & -> & Hcp). cbn [mbind option_bind].
  destruct (apply_all_deleted_ok (deleted_files_ edit) _ _ _ Hr (in_levels _ _ Hl Ed)) as (ls1 & -> & Hr1 & Hb1 & Hl1). cbn [mbind option_bind].
  pose proof (value_deleted_fresh (deleted_files_ edit) _ _ Hn) as Hn1.
  destruct (apply_all_new_ok (new_files_ edit) rest (vm_files vm) ls1 _ (bag (all_files (vm_versions vm)))
    ltac:(by rewrite Hb1; apply Hk) Hr1 ltac:(by apply in_levels; [rewrite Hl1|]) Hn1) as (m2 & ls2 & -> & Hc2 & Hr2 & Hs2 & Hl2 & Hn2).
  cbn [mbind option_bind].
  assert (level_ vb' = fold_left value_new (new_files_ edit) (fold_left value_deleted (deleted_files_ edit) (level_ vb))) as Ev by done.
  rewrite Ev. eexists _, _. split; [done|]. cbn [pb_level pb_base vm_versions vm_current].
  assert (forall v, contents (mkVMem m2 (vm_versions vm) (vm_linked vm) (vm_current vm) cp') v = contents vm v) as Hct
    by (intros v; by apply contents_versions).
  split; [|split].
  - split; cbn [vm_files vm_versions vm_linked vm_compact_pointer]; try apply Hk; done.
  - split; cbn [vm_files pb_level pb_base]; [by rewrite Ev|lia|]. by rewrite Hct.
  - done.
Qed.

(** *** Saving *)

(** What [MaybeAddFile] asserts of the files of a level. *)
Definition level_ordered (level : nat) (fs : list FileMetaData) : Prop :=
  (0 < level)%nat -> StronglySorted (fun f g => icompare (largest f) (smallest g) = Lt) fs.

Lemma level_ordered_prefix level fs gs : level_ordered level (fs ++ gs) -> level_ordered level fs.
Proof. intros Ho Hl. apply (StronglySorted_app _ fs gs). by apply Ho. Qed.

Lemma level_ordered_last level fs f g :
  level_ordered (S level) (fs ++ [f]) -> list.last fs = Some g -> icompare (largest g) (smallest f) = Lt.
Proof.
  intros Ho Hg. specialize (Ho ltac:(lia)). apply StronglySorted_app in Ho as (Hx & _). apply Hx; [|by left].
  by apply list.last_Some_elem_of.
Qed.

Lemma deref_Forall2 m ps fs : deref m ps = Some fs <-> Forall2 (fun p f => meta <$> m !! p = Some f) ps fs.
Proof. apply mapM_Some. Qed.

Lemma deref_last m ps fs q : deref m ps = Some fs -> list.last ps = Some q -> exists g, m !! q = Some g /\ list.last fs = Some (meta g).
Proof.
  intros Hd (ps' & ->)%list.last_Some. rewrite deref_app in Hd. destruct (deref m ps') as [fs1|]; [|done]. cbn [mbind option_bind] in Hd.
  destruct (deref m [q]) as [fs2|] eqn:E2; [|done]. injection Hd as <-. apply deref_cons in E2 as (g & gs & Hg & [= <-] & ->).
  exists g. split; [done|]. apply list.last_snoc.
Qed.

Lemma PMaybeAddFile_ok level s t m files vfs H p f :
  counted m H -> p ∈ H -> m !! p = Some f -> pl_deleted s = deleted_files t -> deref m files = Some vfs ->
  level_ordered level (add_live t vfs (meta f)) ->
  exists m' new, PMaybeAddFile ucmp level s (m, files) p = Some (m', files ++ new) /\ counted m' (bag new ⊎ H) /\
    meta <$> m' = meta <$> m /\ deref m (files ++ new) = Some (add_live t vfs (meta f)).
Proof.
  intros Hc Hp Hf Hd Hfs Ho. unfold PMaybeAddFile. rewrite Hf. cbn [mbind option_bind]. unfold add_live in *.
  change (number (meta f)) with (number f) in *. rewrite Hd. destruct (decide (number f ∈ deleted_files t)) as [Hin|Hin].
  { exists m, []. rewrite app_nil_r. split; [done|]. split; [|done]. by rewrite gmultiset_disj_union_left_id. }
  destruct (counted_incref m H p f Hc Hp Hf) as [Hc' Hm'].
  assert (match level, list.last files with
      | S _, Some q => g ← m !! q; Some (match icompare (largest g) (smallest f) with Lt => true | _ => false end)
      | _, _ => Some true
      end = Some true) as ->.
  { destruct level as [|level]; [done|]. destruct (list.last files) as [q|] eqn:Eq; [|done].
    destruct (deref_last _ _ _ _ Hfs Eq) as (g & -> & Hg). cbn [mbind option_bind].
    by rewrite (level_ordered_last level vfs (meta f) (meta g) Ho Hg : icompare (largest g) (smallest f) = Lt). }
  cbn [mbind option_bind]. eexists _, [p]. split; [done|]. split; [by rewrite list_to_set_disj_cons, list_to_set_disj_nil, gmultiset_disj_union_right_id|].
  split; [done|]. rewrite deref_app, Hfs. cbn [mbind option_bind]. assert (deref m [p] = Some [meta f]) as ->; [|done].
  apply deref_cons. by exists f, [].
Qed.

(** The postcondition of the loops of [SaveTo]: pointers were added, and the
    files are those of the loop on values. *)
Definition saved (m : FileHeap) (files : list nat) (H : gmultiset nat) (r : option (FileHeap * list nat)) (vfs : list FileMetaData) : Prop :=
  exists m' new, r = Some (m', files ++ new) /\ counted m' (bag new ⊎ H) /\ meta <$> m' = meta <$> m /\ deref m (files ++ new) = Some vfs.

Lemma saved_bind m files H r vfs k vfs' :
  saved m files H r vfs ->
  (forall m' new, counted m' (bag new ⊎ H) -> meta <$> m' = meta <$> m -> deref m' (files ++ new) = Some vfs ->
    saved m' (files ++ new) (bag new ⊎ H) (k (m', files ++ new)) vfs') ->
  saved m files H (r ≫= k) vfs'.
Proof.
  intros (m1 & new1 & -> & Hc1 & Hm1 & Hd1) Hk. cbn [mbind option_bind].
  destruct (Hk m1 new1 Hc1 Hm1) as (m2 & new2 & E & Hc2 & Hm2 & Hd2); [by rewrite (deref_meta m m1)|].
  exists m2, (new1 ++ new2). rewrite app_assoc. split; [done|]. split; [|split].
  - rewrite list_to_set_disj_app. replace (bag new1 ⊎ bag new2 ⊎ H) with (bag new2 ⊎ (bag new1 ⊎ H)); [done|]. multiset_solver.
  - by rewrite Hm2.
  - by rewrite <- (deref_meta m m1) by done.
Qed.

Lemma fold_saved level s t ps m files gs vfs H :
  counted m H -> Forall (fun p => p ∈ H) ps -> deref m ps = Some gs -> pl_deleted s = deleted_files t ->
  deref m files = Some vfs -> level_ordered level (fold_left (add_live t) gs vfs) ->
  saved m files H (fold_opt (PMaybeAddFile ucmp level s) ps (m, files)) (fold_left (add_live t) gs vfs).
Proof.
  revert m files gs vfs H. induction ps as [|p ps IH]; intros m files gs vfs H Hc Hp Hps Hd Hfs Ho; cbn [fold_opt].
  - injection Hps as <-. cbn [fold_left]. exists m, []. rewrite app_nil_r. split; [done|]. split; [|done].
    by rewrite gmultiset_disj_union_left_id.
  - apply list.Forall_cons in Hp as [Hp Hps']. apply deref_cons in Hps as (f & gs' & Hf & Hps & ->). cbn [fold_left] in Ho |- *.
    eapply saved_bind.
    + eapply PMaybeAddFile_ok; try done. rewrite add_live_fold in Ho. by apply level_ordered_prefix in Ho.
    + intros m' new Hc' Hm' Hd'. apply IH; try done; [|by rewrite (deref_meta m m')].
      eapply list.Forall_impl; [exact Hps'|]. intros q. multiset_solver.
Qed.

Lemma pupper_bound_ok m base gs f : deref m base = Some gs -> pupper_bound ucmp m base f = Some (upper_bound ucmp gs (meta f)).
Proof.
  revert gs. induction base as [|q base IH]; intros gs Hb; cbn [pupper_bound].
  - by injection Hb as <-.
  - apply deref_cons in Hb as (g & gs' & Hg & Hb & ->). rewrite Hg, (IH gs' Hb). cbn [mbind option_bind upper_bound].
    rewrite by_smallest_meta. by destruct (by_smallest f g).
Qed.

Lemma deref_take m ps fs n : deref m ps = Some fs -> deref m (take n ps) = Some (take n fs).
Proof. rewrite !deref_Forall2. apply Forall2_take. Qed.
Lemma deref_drop m ps fs n : deref m ps = Some fs -> deref m (drop n ps) = Some (drop n fs).
Proof. rewrite !deref_Forall2. apply Forall2_drop. Qed.

Lemma PSaveTo_level_ok level s t added base m files vadded vbase vfs H :
  counted m H -> Forall (fun p => p ∈ H) added -> Forall (fun p => p ∈ H) base ->
  deref m added = Some vadded -> deref m base = Some vbase -> deref m files = Some vfs -> pl_deleted s = deleted_files t ->
  level_ordered level (merge_level ucmp t vadded vbase vfs) ->
  saved m files H (PSaveTo_level ucmp level s added base (m, files)) (merge_level ucmp t vadded vbase vfs).
Proof.
  revert base m files vadded vbase vfs H. induction added as [|p added IH]; intros base m files vadded vbase vfs H Hc Ha Hb Va Vb Vf Hd Ho;
    cbn [PSaveTo_level].
  - injection Va as <-. cbn [merge_level] in Ho |- *. by apply fold_saved.
  - apply list.Forall_cons in Ha as [Hp Ha]. apply deref_cons in Va as (f & va & Hf & Va & ->). cbn [fst merge_level] in Ho |- *.
    rewrite Hf. cbn [mbind option_bind]. rewrite (pupper_bound_ok m base vbase f Vb). cbn [mbind option_bind].
    set (n := upper_bound ucmp vbase (meta f)) in *. rewrite (merge_level_merge ucmp) in Ho. apply level_ordered_prefix in Ho as Ho1.
    eapply saved_bind.
    { apply fold_saved with (gs := take n vbase) (t := t) (vfs := vfs); try done; [by apply Forall_take|by apply deref_take|].
      unfold add_live at 1 in Ho1. destruct (decide _); [exact Ho1|by apply level_ordered_prefix in Ho1]. }
    intros m1 new1 Hc1 Hm1 Hd1. assert (m1 !! p = None -> False) as Hp1.
    { intros Hn. assert (meta <$> m1 !! p = meta <$> m !! p) as E by by rewrite <- !lookup_fmap, Hm1. by rewrite Hn, Hf in E. }
    destruct (m1 !! p) as [f1|] eqn:Hf1; [|by destruct Hp1]. clear Hp1.
    assert (meta f1 = meta f) as Ef.
    { assert (meta <$> m1 !! p = meta <$> m !! p) as E by by rewrite <- !lookup_fmap, Hm1. rewrite Hf1, Hf in E.
      by apply (inj Some) in E. }
    eapply saved_bind.
    { eapply PMaybeAddFile_ok; try done; [multiset_solver|]. by rewrite Ef. }
    rewrite Ef. intros m2 new2 Hc2 Hm2 Hd2. apply IH; try done.
    + eapply list.Forall_impl; [exact Ha|]. intros q. multiset_solver.
    + apply Forall_drop. eapply list.Forall_impl; [exact Hb|]. intros q. multiset_solver.
    + by rewrite (deref_meta m1 m2), (deref_meta m m1).
    + rewrite (deref_meta m1 m2), (deref_meta m m1) by done. by apply deref_drop.
    + by rewrite (merge_level_merge ucmp).
Qed.

(** [SaveTo] looks only at what [meta] keeps. *)
Lemma upper_bound_meta base f : upper_bound ucmp (map meta base) (meta f) = upper_bound ucmp base f.
Proof. induction base as [|g base IH]; cbn [map upper_bound]; [done|]. by rewrite by_smallest_meta, IH. Qed.

Lemma add_live_meta t fs f : map meta (add_live t fs f) = add_live t (map meta fs) (meta f).
Proof. unfold add_live. change (number (meta f)) with (number f). destruct (decide _); [done|]. by rewrite map_app. Qed.

Lemma fold_MaybeAddFile_meta t gs fs : map meta (fold_left (add_live t) gs fs) = fold_left (add_live t) (map meta gs) (map meta fs).
Proof. revert fs. induction gs as [|g gs IH]; intros fs; cbn [map fold_left]; [done|]. by rewrite IH, add_live_meta. Qed.

Lemma merge_level_meta t added base fs :
  map meta (merge_level ucmp t added base fs) = merge_level ucmp t (map meta added) (map meta base) (map meta fs).
Proof.
  revert base fs. induction added as [|f added IH]; intros base fs; cbn [map merge_level]; [apply fold_MaybeAddFile_meta|].
  rewrite IH, upper_bound_meta, add_live_meta, fold_MaybeAddFile_meta. do 2 f_equal; [|do 2 f_equal].
  - symmetry. apply skipn_map.
  - symmetry. apply firstn_map.
Qed.

(** What [SaveTo] makes of a builder, without the counters. *)
Definition saved_levels (vl : list LevelState) (vbase : list (list FileMetaData)) : list (list FileMetaData) :=
  map (map meta) (merge_levels ucmp (mkBuilder vbase vl)).
Definition levels_ordered (level : nat) (fss : list (list FileMetaData)) : Prop :=
  forall i fs, fss !! i = Some fs -> level_ordered (level + i) fs.

Lemma saved_levels_cons t vl b vbase :
  saved_levels (t :: vl) (b :: vbase) = merge_level ucmp t (map meta (added_files t)) (map meta b) [] :: saved_levels vl vbase.
Proof. unfold saved_levels, merge_levels. cbn [level_ base_ zip zip_with map fst snd]. by rewrite merge_level_meta. Qed.

Lemma deref_metas m ps fs : deref m ps = Some fs -> map meta fs = fs.
Proof.
  revert fs. induction ps as [|p ps IH]; intros fs; [by intros [= <-]|]. intros (f & gs & _ & Hd & ->)%deref_cons.
  cbn [map]. by rewrite (IH gs Hd).
Qed.

Lemma PSaveTo_levels_ok ls level vl base vbase m H :
  counted m H -> Forall2 (level_rel m) ls vl -> Forall (fun s => Forall (fun p => p ∈ H) (pl_added s)) ls ->
  Forall (Forall (fun p => p ∈ H)) base -> Forall2 (fun b vb => deref m b = Some vb) base vbase -> length base = length ls ->
  levels_ordered level (saved_levels vl vbase) ->
  exists m' files, PSaveTo_levels ucmp level ls base (replicate (length ls) []) m = Some (m', files) /\
    counted m' (bag (concat files) ⊎ H) /\ meta <$> m' = meta <$> m /\ mapM (deref m) files = Some (saved_levels vl vbase) /\
    length files = length ls.
Proof.
  revert level vl base vbase m H. induction ls as [|s ls IH]; intros level vl base vbase m H Hc Hr Ha Hb Vb El Ho; cbn [length replicate PSaveTo_levels].
  { apply Forall2_nil_inv_l in Hr as ->. exists m, []. split; [done|]. split; [|done]. by rewrite gmultiset_disj_union_left_id. }
  destruct base as [|b base]; [done|]. apply Forall2_cons_inv_l in Hr as (t & vl' & [Hd Hs] & Hr & ->).
  apply Forall2_cons_inv_l in Vb as (vb & vbase' & Vb1 & Vb & ->). apply list.Forall_cons in Ha as [Ha1 Ha], Hb as [Hb1 Hb].
  rewrite saved_levels_cons in Ho |- *. rewrite (deref_metas _ _ _ Vb1) in Ho |- *.
  destruct (PSaveTo_level_ok level s t (pl_added s) b m [] _ _ [] H Hc Ha1 Hb1 Hs Vb1) as (m1 & fs & -> & Hc1 & Hm1 & Hd1); [done|done| |].
  { specialize (Ho 0%nat). rewrite Nat.add_0_r in Ho. by apply Ho. }
  cbn [mbind option_bind app]. cbn [app] in Hd1.
  destruct (IH (S level) vl' base vbase' m1 (bag fs ⊎ H)) as (m2 & files & -> & Hc2 & Hm2 & Hd2 & Hl2); try done.
  - eapply list.Forall2_impl; [exact Hr|]. intros s' t' [? ?]. split; [done|]. by rewrite (deref_meta m m1).
  - eapply list.Forall_impl; [exact Ha|]. intros s' Hs'. eapply list.Forall_impl; [exact Hs'|]. intros q. multiset_solver.
  - eapply list.Forall_impl; [exact Hb|]. intros b' Hb'. eapply list.Forall_impl; [exact Hb'|]. intros q. multiset_solver.
  - eapply list.Forall2_impl; [exact Vb|]. intros b' vb' ?. by rewrite (deref_meta m m1).
  - by injection El.
  - intros i gs Hi. specialize (Ho (S i) gs Hi). by rewrite <- Nat.add_succ_comm in Ho.
  - cbn [mbind option_bind]. eexists _, _. split; [done|]. cbn [concat mapM length]. rewrite list_to_set_disj_app. split; [|split; [|split]].
    + replace (bag fs ⊎ bag (concat files) ⊎ H) with (bag (concat files) ⊎ (bag fs ⊎ H)); [done|]. multiset_solver.
    + by rewrite Hm2.
    + rewrite Hd1. cbn [mbind option_bind]. assert (mapM (deref m) files = mapM (deref m1) files) as ->; [|by rewrite Hd2].
      clear - Hm1. induction files as [|f files IH]; cbn [mapM]; [done|]. by rewrite IH, (deref_meta m m1).
    + by rewrite Hl2.
Qed.

Lemma contents_Forall2 vm v pv c :
  vm_versions vm !! v = Some pv -> contents vm v = Some c -> Forall2 (fun b vb => deref (vm_files vm) b = Some vb) (pv_files pv) c.
Proof. intros Hv. unfold contents. rewrite Hv. cbn [mbind option_bind]. by rewrite mapM_Some. Qed.

Lemma PBuilder_SaveTo_ok vm U L b vb v :
  heap_ok vm U ({[v]} ∪ L) (added_bag (pb_level b)) -> builder_rel vm b vb -> pb_base b <> v ->
  vm_versions vm !! v = Some (mkPVersion (replicate kNumLevels []) 0) -> levels_ordered 0 (saved_levels (level_ vb) (base_ vb)) ->
  exists vm', PBuilder_SaveTo ucmp vm b v = Some vm' /\ heap_ok vm' U ({[v]} ∪ L) (added_bag (pb_level b)) /\
    contents vm' v = Some (saved_levels (level_ vb) (base_ vb)) /\ (forall w, w <> v -> contents vm' w = contents vm w) /\
    vm_current vm' = vm_current vm /\ dom (vm_versions vm') = dom (vm_versions vm).
Proof.
  intros Hk [Hr Hl Hb] Hne Hv Ho. unfold PBuilder_SaveTo.
  destruct (vm_versions vm !! pb_base b) as [base|] eqn:Hbase; [|unfold contents in Hb; by rewrite Hbase in Hb].
  rewrite Hv. cbn [mbind option_bind pv_files pv_refs]. rewrite <- Hl.
  destruct (PSaveTo_levels_ok (pb_level b) 0 (level_ vb) (pv_files base) (base_ vb) (vm_files vm) _ (hk_files _ _ _ _ Hk) Hr)
    as (m' & files & -> & Hc & Hm & Hd & Hlen); try done.
  - apply list.Forall_forall. intros s Hs. eapply list.Forall_impl; [by apply added_in|]. intros q. multiset_solver.
  - by eapply heap_files_in.
  - by eapply contents_Forall2.
  - rewrite Hl. by apply (hk_levels _ _ _ _ Hk (pb_base b)).
  - cbn [mbind option_bind]. eexists. split; [done|].
    assert (forall pss, mapM (deref m') pss = mapM (deref (vm_files vm)) pss) as Hmm.
    { intros pss. induction pss as [|ps pss IH]; cbn [mapM]; [done|]. by rewrite IH, (deref_meta (vm_files vm) m'). }
    split; [split; cbn [put_version set_files vm_files vm_versions vm_linked vm_compact_pointer]|split; [|split; [|split; [done|]]]].
    + rewrite (all_files_update _ _ _ _ Hv), list_to_set_disj_app, <- (assoc_L (⊎)). cbn [pv_files].
      rewrite (all_files_delete _ _ _ Hv) in Hc. cbn [pv_files] in Hc.
      by assert (concat (replicate kNumLevels ([] : list nat)) = []) as E by done; rewrite E in Hc.
    + intros w. rewrite <- (hk_users _ _ _ _ Hk w). destruct (decide (w = v)) as [->|Hw]; [|by rewrite lookup_insert_ne].
      by rewrite lookup_insert_eq, Hv.
    + apply Hk.
    + apply Hk.
    + apply map_Forall_insert_2; [cbn [pv_files]; lia|apply Hk].
    + apply Hk.
    + unfold contents. cbn [put_version set_files vm_files vm_versions]. rewrite lookup_insert_eq. cbn [mbind option_bind pv_files]. by rewrite Hmm.
    + intros w Hw. unfold contents. cbn [put_version set_files vm_files vm_versions]. rewrite lookup_insert_ne by done.
      destruct (vm_versions vm !! w); [|done]. cbn [mbind option_bind]. by rewrite Hmm.
    + cbn [put_version set_files vm_versions]. apply dom_insert_lookup_L. by rewrite Hv.
Qed.

Lemma fold_opt_app {A B} (f : A -> B -> option A) l1 l2 a : fold_opt f (l1 ++ l2) a = (fold_opt f l1 a ≫= fold_opt f l2).
Proof. revert a. induction l1 as [|b l1 IH]; intros a; cbn [app fold_opt]; [done|]. destruct (f a b); [apply IH|done]. Qed.

Lemma unref_levels ls m : fold_opt (fun m s => fold_opt unref_file (pl_added s) m) ls m = fold_opt unref_file (concat (map pl_added ls)) m.
Proof.
  revert m. induction ls as [|s ls IH]; intros m; cbn [map concat fold_opt]; [done|]. rewrite fold_opt_app.
  destruct (fold_opt unref_file (pl_added s) m); [apply IH|done].
Qed.

Lemma PBuilder_delete_ok vm U L b :
  heap_ok vm ({[+ pb_base b +]} ⊎ U) L (added_bag (pb_level b)) ->
  exists vm', PBuilder_delete vm b = Some vm' /\ heap_ok vm' U L ∅ /\ survives vm vm' /\ vm_current vm' = vm_current vm.
Proof.
  intros Hk. unfold PBuilder_delete. rewrite unref_levels. pose proof (hk_files _ _ _ _ Hk) as Hc.
  rewrite (comm_L (⊎)) in Hc. destruct (decref_all _ _ _ Hc) as (m' & -> & _ & Hc' & Hs). cbn [mbind option_bind].
  assert (heap_ok (set_files vm m') ({[+ pb_base b +]} ⊎ U) L ∅) as Hk'.
  { split; cbn [set_files vm_files vm_versions vm_linked vm_compact_pointer]; try apply Hk. by rewrite gmultiset_disj_union_right_id. }
  destruct (Version_decref_ok _ _ _ _ _ Hk') as (vm' & -> & Hk2 & Hs2 & _ & Hcur). exists vm'. split; [done|]. split; [done|]. split; [|done].
  eapply survives_trans; [|exact Hs2]. intros w Hw. split; [done|]. by apply contents_versions.
Qed.

(** ** The callers *)

(** The files of the version that [edits] make of a version. *)
Definition new_builder (c : list (list FileMetaData)) : Builder := mkBuilder c (replicate kNumLevels (mkLevelState ∅ [])).
Definition next_contents (c : list (list FileMetaData)) (edits : list VersionEdit) : list (list FileMetaData) :=
  saved_levels (level_ (snd (Apply_all ucmp ([], new_builder c) edits))) c.

(** A version live before and after has the same files. *)
Definition frame (vm vm' : VMem) : Prop :=
  forall v, is_Some (vm_versions vm !! v) -> is_Some (vm_versions vm' !! v) -> contents vm' v = contents vm v.

Lemma added_bag_new : added_bag (replicate kNumLevels (mkPLevel ∅ [])) = ∅.
Proof. done. Qed.

Lemma PBuilder_new_ok vm U L c cont :
  heap_ok vm U L ∅ -> c ∈ U -> contents vm c = Some cont ->
  exists vm' b, PBuilder_new vm c = Some (vm', b) /\ heap_ok vm' ({[+ c +]} ⊎ U) L (added_bag (pb_level b)) /\
    builder_rel vm' b (new_builder cont) /\ pb_base b = c /\ survives vm vm' /\ vm_current vm' = vm_current vm /\
    (forall w, w <> c -> vm_versions vm' !! w = vm_versions vm !! w).
Proof.
  intros Hk Hc Hcont. unfold PBuilder_new. destruct (Version_incref_ok _ _ _ _ _ Hk Hc) as (vm' & -> & Hk' & Hs & _ & Hcur & Hdom).
  cbn [mbind option_bind]. eexists _, _. split; [done|]. cbn [pb_level pb_base]. rewrite added_bag_new. split; [done|]. split; [|done].
  split; cbn [pb_level pb_base new_builder level_ base_].
  - repeat constructor; done.
  - done.
  - destruct (Hs c) as [_ ->]; [|done]. apply (heap_live _ _ _ _ c Hk'). right. multiset_solver.
Qed.

Lemma Apply_all_ok edits vm U L b vb :
  heap_ok vm U L (added_bag (pb_level b)) -> builder_rel vm b vb -> Forall edit_levels_ok edits ->
  numbers_fresh (level_ vb) (concat (map new_files_ edits)) ->
  let vb' := snd (Apply_all ucmp ([], vb) edits) in
  exists vm' b', fold_opt (fun st edit => PBuilder_Apply ucmp (fst st) (snd st) edit) edits (vm, b) = Some (vm', b') /\
    heap_ok vm' U L (added_bag (pb_level b')) /\ builder_rel vm' b' vb' /\ pb_base b' = pb_base b /\
    vm_versions vm' = vm_versions vm /\ (forall v, contents vm' v = contents vm v) /\ vm_current vm' = vm_current vm.
Proof.
  cbn zeta. revert vm b vb. induction edits as [|edit edits IH]; intros vm b vb Hk Hb He Hn; cbn [fold_opt].
  { exists vm, b. do 6 (split; [done|]). done. }
  apply list.Forall_cons in He as [He Hes]. cbn [map concat] in Hn.
  destruct (PBuilder_Apply_ok vm U L b vb edit _ [] Hk Hb He Hn) as (vm1 & b1 & E1 & Hk1 & Hb1 & Hn1 & Eb1 & Ev1 & Ec1 & Ecur1).
  cbn [fst snd]. rewrite E1. cbn [mbind option_bind].
  destruct (IH vm1 b1 _ Hk1 Hb1 Hes Hn1) as (vm2 & b2 & -> & Hk2 & Hb2 & Eb2 & Ev2 & Ec2 & Ecur2). exists vm2, b2. split; [done|].
  split; [done|]. split.
  { unfold Apply_all in Hb2 |- *. cbn [fold_left fst snd]. rewrite (surjective_pairing (Apply ucmp [] vb edit)).
    by rewrite (Apply_all_pointers ucmp _ [] (snd (Apply ucmp [] vb edit)) edits : snd (fold_left _ edits _) = _). }
  split; [congruence|]. split; [congruence|]. split; [|congruence]. intros v. by rewrite Ec2.
Qed.

Lemma numbers_fresh_new c nf : (forall l, NoDup (numbers_at l nf)) -> numbers_fresh (level_ (new_builder c)) nf.
Proof.
  intros Hn l t Ht. cbn [new_builder level_] in Ht. apply lookup_replicate in Ht as [-> _]. cbn [added_files map app]. apply Hn.
Qed.

Lemma Apply_all_base cb es : base_ (snd (Apply_all ucmp cb es)) = base_ (snd cb).
Proof. unfold Apply_all. revert cb. induction es as [|e es IH]; intros cb; cbn [fold_left]; [done|]. by rewrite IH. Qed.

(** Building a version next to others: the new version has the files that the
    edits make of [cont], the others keep theirs. *)
Lemma save_new_ok vm U L b vb v c cont vm0 edits :
  heap_ok vm ({[+ c +]} ⊎ U) ({[v]} ∪ L) (added_bag (pb_level b)) -> builder_rel vm b vb -> pb_base b = c -> v <> c ->
  vm_versions vm !! v = Some (mkPVersion (replicate kNumLevels []) 0) -> levels_ordered 0 (next_contents cont edits) ->
  vb = snd (Apply_all ucmp ([], new_builder cont) edits) ->
  vm_versions vm0 !! v = None -> (forall w, w <> v -> is_Some (vm_versions vm !! w) -> is_Some (vm_versions vm0 !! w) /\ contents vm w = contents vm0 w) ->
  exists vm', PBuilder_SaveTo ucmp vm b v = Some vm' /\ heap_ok vm' ({[+ c +]} ⊎ U) ({[v]} ∪ L) (added_bag (pb_level b)) /\
    contents vm' v = Some (next_contents cont edits) /\
    (forall w, w <> v -> is_Some (vm_versions vm' !! w) -> is_Some (vm_versions vm0 !! w) /\ contents vm' w = contents vm0 w) /\
    vm_current vm' = vm_current vm.
Proof.
  intros Hk Hb Eb Hvc Hv Ho -> Hv0 Hw. assert (base_ (snd (Apply_all ucmp ([], new_builder cont) edits)) = cont) as Ec by by rewrite Apply_all_base.
  destruct (PBuilder_SaveTo_ok vm ({[+ c +]} ⊎ U) L b _ v Hk Hb) as (vm' & -> & Hk' & Hcv & Hco & Hcur & Hdom); [congruence|done|by rewrite Ec|].
  exists vm'. split; [done|]. split; [done|]. split; [by rewrite Hcv, Ec|]. split; [|done].
  intros w Hne Hlive. rewrite Hco by done. apply Hw; [done|]. apply elem_of_dom. rewrite <- Hdom. by apply elem_of_dom.
Qed.

Lemma build_version_ok vm U L c cont edit :
  heap_ok vm U L ∅ -> vm_current vm = Some c -> c ∈ U -> contents vm c = Some cont -> edit_levels_ok edit ->
  (forall l, NoDup (numbers_at l (new_files_ edit))) -> levels_ordered 0 (next_contents cont [edit]) ->
  exists vm' v, build_version ucmp vm edit = Some (vm', v) /\ v ∉ L /\ heap_ok vm' U ({[v]} ∪ L) ∅ /\ frame vm vm' /\
    contents vm' v = Some (next_contents cont [edit]) /\ vm_current vm' = Some c.
Proof.
  intros Hk Hcur Hc Hcont He Hn Ho. unfold build_version.
  destruct (new_Version_ok _ _ _ _ Hk) as (v & -> & HvL & HvU & Hv & Hk1). set (vm1 := put_version vm v _) in *.
  assert (vm_current vm1 = Some c) as -> by done. cbn [mbind option_bind].
  assert (v <> c) as Hvc by by intros ->.
  assert (forall w, w <> v -> vm_versions vm1 !! w = vm_versions vm !! w) as Hv1
    by (intros w Hw; unfold vm1; cbn [put_version vm_versions]; by rewrite lookup_insert_ne).
  assert (forall w, w <> v -> contents vm1 w = contents vm w) as Hc1 by (intros w Hw; unfold contents; by rewrite Hv1).
  destruct (PBuilder_new_ok vm1 U _ c cont Hk1 Hc) as (vm2 & b & -> & Hk2 & Hb2 & Eb2 & Hs2 & Hcur2 & Hv2); [by rewrite Hc1 by done|].
  cbn [mbind option_bind].
  destruct (Apply_all_ok [edit] vm2 _ _ b (new_builder cont) Hk2 Hb2) as (vm3 & b3 & E3 & Hk3 & Hb3 & Eb3 & Ev3 & Ec3 & Hcur3).
  { by constructor. }
  { apply numbers_fresh_new. cbn [map concat]. by rewrite app_nil_r. }
  cbn [fold_opt fst snd] in E3. destruct (PBuilder_Apply ucmp vm2 b edit) as [[vm3' b3']|]; [|done]. cbn [mbind option_bind] in E3 |- *.
  injection E3 as -> ->.
  destruct (save_new_ok vm3 U L b3 _ v c cont vm [edit] Hk3 Hb3) as (vm4 & -> & Hk4 & Hcv4 & Hco4 & Hcur4); try done.
  { congruence. }
  { rewrite Ev3, Hv2 by done. unfold vm1. cbn [put_version vm_versions]. by rewrite lookup_insert_eq. }
  { intros w Hw Hlive. rewrite Ec3. rewrite Ev3 in Hlive. destruct (Hs2 w Hlive) as [Hl2 ->]. rewrite Hv1 in Hl2 by done. by rewrite Hc1. }
  cbn [mbind option_bind]. rewrite <- Eb2, <- Eb3 in Hk4.
  destruct (PBuilder_delete_ok vm4 U _ b3 Hk4) as (vm5 & -> & Hk5 & Hs5 & Hcur5). cbn [mbind option_bind].
  exists vm5, v. split; [done|]. split; [done|]. split; [done|].
  assert (is_Some (vm_versions vm5 !! v)) as Hlv by (apply (heap_live _ _ _ _ v Hk5); set_solver).
  split; [|split].
  - intros w Hw Hw5. assert (w <> v) as Hne by (intros ->; rewrite Hv in Hw; by destruct Hw).
    destruct (Hs5 w Hw5) as [Hw4 ->]. by apply Hco4.
  - by rewrite (proj2 (Hs5 v Hlv)).
  - rewrite Hcur5, Hcur4, Hcur3, Hcur2. done.
Qed.

Lemma recover_version_ok vm V L c cont edits (good : bool) :
  heap_ok vm ({[+ c +]} ⊎ V) L ∅ -> vm_current vm = Some c -> contents vm c = Some cont -> Forall edit_levels_ok edits ->
  (forall l, NoDup (numbers_at l (concat (map new_files_ edits)))) -> (good = true -> levels_ordered 0 (next_contents cont edits)) ->
  exists vm' c', recover_version ucmp vm edits good = Some vm' /\ heap_ok vm' ({[+ c' +]} ⊎ V) L ∅ /\ frame vm vm' /\
    vm_current vm' = Some c' /\ (if good then contents vm' c' = Some (next_contents cont edits) else c' = c).
Proof.
  intros Hk Hcur Hcont He Hn Ho. unfold recover_version. rewrite Hcur. cbn [mbind option_bind].
  destruct (PBuilder_new_ok vm _ L c cont Hk) as (vm1 & b & -> & Hk1 & Hb1 & Eb1 & Hs1 & Hcur1 & Hv1); [multiset_solver|done|]. cbn [mbind option_bind].
  destruct (Apply_all_ok edits vm1 _ L b (new_builder cont) Hk1 Hb1 He) as (vm2 & b2 & -> & Hk2 & Hb2 & Eb2 & Ev2 & Ec2 & Hcur2); [by apply numbers_fresh_new|].
  cbn [mbind option_bind].
  assert (forall w, is_Some (vm_versions vm2 !! w) -> is_Some (vm_versions vm !! w) /\ contents vm2 w = contents vm w) as Hs2
    by (intros w Hw; rewrite Ev2 in Hw; rewrite Ec2; by apply Hs1).
  destruct good.
  - destruct (new_Version_ok _ _ _ _ Hk2) as (v & -> & HvL & HvU & Hv & Hk3). set (vm3 := put_version vm2 v _) in *.
    assert (v <> c) as Hvc by (intros ->; multiset_solver).
    assert (forall w, w <> v -> vm_versions vm3 !! w = vm_versions vm2 !! w) as Hv3
      by (intros w Hw; unfold vm3; cbn [put_version vm_versions]; by rewrite lookup_insert_ne).
    assert (forall w, w <> v -> contents vm3 w = contents vm2 w) as Hc3 by (intros w Hw; unfold contents; by rewrite Hv3).
    assert (vm_versions vm !! v = None) as Hv0.
    { rewrite Ev2, Hv1 in Hv by done. done. }
    assert (builder_rel vm3 b2 (snd (Apply_all ucmp ([], new_builder cont) edits))) as Hb3
      by (destruct Hb2 as [A1 A2 A3]; split; [exact A1|exact A2|]; rewrite Hc3 by congruence; exact A3).
    destruct (save_new_ok vm3 ({[+ c +]} ⊎ V) L b2 _ v c cont vm edits Hk3 Hb3) as (vm4 & -> & Hk4 & Hcv4 & Hco4 & Hcur4); try done.
    { congruence. }
    { unfold vm3. cbn [put_version vm_versions]. by rewrite lookup_insert_eq. }
    { by apply Ho. }
    { intros w Hw Hlive. rewrite Hv3 in Hlive by done. rewrite Hc3 by done. by apply Hs2. }
    cbn [mbind option_bind].
    destruct (append_Version_ok vm4 _ L _ v c Hk4 HvL) as (vm5 & -> & Hk5 & Hs5 & _ & Hcur5 & Hlv); [unfold vm3 in Hcur4; cbn [put_version vm_current] in Hcur4; congruence|].
    cbn [mbind option_bind].
    destruct (PBuilder_delete_ok vm5 ({[+ v +]} ⊎ V) L b2) as (vm6 & -> & Hk6 & Hs6 & Hcur6).
    { rewrite Eb2, Eb1. replace ({[+ c +]} ⊎ ({[+ v +]} ⊎ V)) with ({[+ v +]} ⊎ ({[+ c +]} ⊎ V)); [done|]. multiset_solver. }
    exists vm6, v. split; [done|]. split; [done|]. pose proof (survives_trans _ _ _ Hs5 Hs6) as Hs.
    split; [|split; [by rewrite Hcur6|]].
    + intros w Hw Hw6. assert (w <> v) as Hne by (intros ->; rewrite Hv0 in Hw; by destruct Hw).
      destruct (Hs w Hw6) as [Hw4 ->]. by apply Hco4.
    + destruct (Hs v) as [_ ->]; [|done]. apply (heap_live _ _ _ _ v Hk6). right. multiset_solver.
  - cbn [mbind option_bind].
    destruct (PBuilder_delete_ok vm2 ({[+ c +]} ⊎ V) L b2) as (vm3 & -> & Hk3 & Hs3 & Hcur3); [by rewrite Eb2, Eb1|]. exists vm3, c. split; [done|].
    split; [done|]. split; [|split; [congruence|done]]. intros w _ Hw3. destruct (Hs3 w Hw3) as [Hw2 ->]. by apply Hs2.
Qed.

Lemma charge_seek_ok vm U L p :
  heap_ok vm U L ∅ -> p ∈ all_files (vm_versions vm) ->
  exists vm', charge_seek vm p = Some vm' /\ heap_ok vm' U L ∅ /\ vm_versions vm' = vm_versions vm /\
    (forall v, contents vm' v = contents vm v) /\ vm_current vm' = vm_current vm.
Proof.
  intros Hk Hp. unfold charge_seek. destruct (counted_elem _ _ p (hk_files _ _ _ _ Hk)) as (f & Hf & _).
  { apply gmultiset_elem_of_disj_union. left. by apply elem_of_list_to_set_disj. }
  rewrite Hf. cbn [mbind option_bind]. eexists. split; [done|].
  assert (forall g, refs g = refs f -> counted (<[p := g]> (vm_files vm)) (bag (all_files (vm_versions vm)) ⊎ ∅)) as Hc.
  { intros g Eg q. rewrite <- (hk_files _ _ _ _ Hk q). destruct (decide (q = p)) as [->|Hne]; [|by rewrite lookup_insert_ne].
    rewrite lookup_insert_eq, Hf. cbn. by rewrite Eg. }
  split; [split; cbn [set_files vm_files vm_versions vm_linked vm_compact_pointer]; try apply Hk; by apply Hc|].
  split; [done|]. split; [|done]. intros v. apply contents_versions; [done|]. intros q _. cbn [set_files vm_files].
  destruct (decide (q = p)) as [->|Hne]; [|by rewrite lookup_insert_ne]. by rewrite lookup_insert_eq, Hf.
Qed.

(** When a caller may do what it does.  The edits are those of [LogAndApply] and
    of a manifest: levels exist, a file is added to a level once, and the files
    of the new version's levels above 0 do not overlap.  A caller gives back only
    what it holds, and charges a seek to a file of a version that it holds. *)
Definition edits_allowed (vm : VMem) (edits : list VersionEdit) (good : bool) : Prop :=
  Forall edit_levels_ok edits /\ (forall l, NoDup (numbers_at l (concat (map new_files_ edits)))) /\
  (good = true -> forall c cont, vm_current vm = Some c -> contents vm c = Some cont -> levels_ordered 0 (next_contents cont edits)).

Definition allowed (st : VCallers) (ev : event) : Prop :=
  match ev with
  | EvBuild edit => edits_allowed (vc_mem st) [edit] true
  | EvInstall v | EvDiscard v => v ∈ vc_loose st
  | EvRecover edits good => edits_allowed (vc_mem st) edits good
  | EvRef => True
  | EvUnref v => v ∈ vc_held st
  | EvSeek p => exists v pv, v ∈ vc_held st /\ vm_versions (vc_mem st) !! v = Some pv /\ p ∈ concat (pv_files pv)
  end.

(** The states of the version set and its callers. *)
Inductive reached : VCallers -> Prop :=
  | reached_init vm : VersionSet_init = Some vm -> reached (mkVCallers vm [] [])
  | reached_event st ev st' : reached st -> allowed st ev -> run_event ucmp st ev = Some st' -> reached st'.

(** What an event does to the versions. *)
Definition effect (st : VCallers) (ev : event) (st' : VCallers) : Prop :=
  let cur st := vm_current (vc_mem st) in
  let files st v := contents (vc_mem st) v in
  frame (vc_mem st) (vc_mem st') /\
  exists c cont, cur st = Some c /\ files st c = Some cont /\
  match ev with
  | EvBuild edit => exists v, vc_loose st' = v :: vc_loose st /\ files st' v = Some (next_contents cont [edit]) /\ cur st' = cur st
  | EvInstall v => cur st' = Some v /\ is_Some (files st v) /\ files st' v = files st v
  | EvRecover edits true => exists v, cur st' = Some v /\ files st' v = Some (next_contents cont edits)
  | _ => cur st' = cur st
  end.

Definition callers_ok (st : VCallers) : Prop :=
  NoDup (vc_loose st) /\ exists c, vm_current (vc_mem st) = Some c /\
    heap_ok (vc_mem st) ({[+ c +]} ⊎ bag (vc_held st)) (list_to_set (vc_loose st)) ∅.

Lemma remove_one_perm v l : v ∈ l -> l ≡ₚ v :: remove_one v l.
Proof.
  intros Hv. unfold remove_one. destruct (list_find_elem_of (eq v) l v Hv eq_refl) as [[i w] E]. rewrite E.
  apply list_find_Some in E as (Hi & <- & _). by apply delete_Permutation.
Qed.

Lemma remove_loose v loose :
  NoDup loose -> v ∈ loose ->
  NoDup (remove_one v loose) /\ (list_to_set loose : gset nat) = {[v]} ∪ list_to_set (remove_one v loose) /\
  v ∉ (list_to_set (remove_one v loose) : gset nat).
Proof.
  intros Hn Hv. pose proof (remove_one_perm v loose Hv) as Hp. rewrite Hp in Hn. apply list.NoDup_cons in Hn as [Hni Hn].
  split; [done|]. split; [|by rewrite elem_of_list_to_set]. rewrite <- list_to_set_cons. by apply list_to_set_perm_L.
Qed.

Lemma survives_frame vm vm' : survives vm vm' -> frame vm vm'.
Proof. intros Hs v _ Hv. by apply Hs. Qed.

Lemma callers_init vm : VersionSet_init = Some vm -> callers_ok (mkVCallers vm [] []).
Proof.
  assert (heap_ok (mkVMem ∅ ∅ [] None (replicate kNumLevels [])) ∅ ∅ ∅) as Hk.
  { split; cbn [vm_files vm_versions vm_linked vm_compact_pointer]; [|done|done| |apply map_Forall_empty|done].
    - intros p. assert (all_files ∅ = []) as -> by done. rewrite list_to_set_disj_nil, gmultiset_disj_union_left_id, multiplicity_empty. done.
    - intros v _. multiset_solver. }
  unfold VersionSet_init. destruct (new_Version_ok _ _ _ _ Hk) as (v & -> & HvL & HvU & Hv & Hk1). unfold append_Version.
  cbn [put_version vm_versions vm_current]. rewrite lookup_insert_eq. cbn [mbind option_bind pv_refs Z.eqb andb].
  rewrite bool_decide_true by done. destruct (link_ok _ _ _ _ _ Hk1 HvL) as (vm2 & E & Hk2 & _ & _ & Hcur & _).
  cbn [put_version vm_files vm_versions vm_linked vm_compact_pointer] in E.
  cbn [put_version vm_files vm_versions vm_linked vm_current vm_compact_pointer mbind option_bind]. rewrite E. cbn [mbind option_bind]. intros [= <-].
  split; [constructor|]. exists v. cbn [vc_mem vm_current vc_held vc_loose]. split; [done|]. by rewrite list_to_set_disj_nil.
Qed.

Lemma event_ok st ev :
  callers_ok st -> allowed st ev -> exists st', run_event ucmp st ev = Some st' /\ callers_ok st' /\ effect st ev st'.
Proof.
  destruct st as [vm loose held]. intros (Hn & c & Hcur & Hk) Ha. cbn [vc_mem vc_loose vc_held] in *.
  destruct (contents_some _ _ _ _ c Hk) as [cont Hcont]; [apply (heap_live _ _ _ _ c Hk); right; multiset_solver|].
  assert (forall v, v ∈ loose -> is_Some (contents vm v)) as Hloose
    by (intros v Hv; apply (contents_some _ _ _ _ v Hk), (heap_live _ _ _ _ v Hk); left; set_solver).
  unfold effect, callers_ok. destruct ev as [edit|v|v|edits good| |v|p]; cbn [run_event allowed vc_mem vc_loose vc_held] in *.
  - destruct Ha as (He & Hnum & Ho). destruct (build_version_ok vm _ _ c cont edit Hk Hcur) as (vm' & v & -> & Hv & Hk' & Hf & Hc' & Hcur'); try done.
    { multiset_solver. }
    { by apply list.Forall_cons in He as [He _]. }
    { cbn [map concat] in Hnum. by rewrite app_nil_r in Hnum. }
    { by apply (Ho eq_refl) with c. }
    cbn [mbind option_bind]. eexists. split; [done|]. cbn [vc_mem vc_loose vc_held]. rewrite Hcur'. split; [|split; [done|by eauto 10]].
    split; [constructor; [|done]; by rewrite elem_of_list_to_set in Hv|]. exists c. split; [done|]. by rewrite list_to_set_cons.
  - destruct (remove_loose v loose Hn Ha) as (Hn' & El & Hv). rewrite El in Hk.
    destruct (append_Version_ok vm _ _ _ v c Hk Hv Hcur) as (vm' & -> & Hk' & Hs & _ & Hcur' & Hlv). cbn [mbind option_bind].
    eexists. split; [done|]. cbn [vc_mem vc_loose vc_held]. split; [by eauto|]. split; [by apply survives_frame|].
    exists c, cont. split; [done|]. split; [done|]. split; [done|]. split; [by apply Hloose|]. by apply Hs.
  - destruct (remove_loose v loose Hn Ha) as (Hn' & El & Hv). rewrite El in Hk.
    destruct (Version_delete_ok vm _ _ _ v Hk Hv) as (vm' & -> & Hk' & Hs & _ & Hcur'). cbn [mbind option_bind].
    eexists. split; [done|]. cbn [vc_mem vc_loose vc_held]. rewrite Hcur', Hcur. split; [by eauto|]. split; [by apply survives_frame|by eauto].
  - destruct Ha as (He & Hnum & Ho).
    destruct (recover_version_ok vm _ _ c cont edits good Hk Hcur Hcont He Hnum) as (vm' & c' & -> & Hk' & Hf & Hcur' & Hg); [intros Hg; by apply (Ho Hg) with c|].
    cbn [mbind option_bind]. eexists. split; [done|]. cbn [vc_mem vc_loose vc_held]. split; [by eauto|]. split; [done|].
    exists c, cont. split; [done|]. split; [done|]. destruct good; [by eauto|]. congruence.
  - rewrite Hcur. cbn [mbind option_bind]. destruct (Version_incref_ok vm _ _ _ c Hk) as (vm' & -> & Hk' & Hs & _ & Hcur' & _); [multiset_solver|].
    cbn [mbind option_bind]. eexists. split; [done|]. cbn [vc_mem vc_loose vc_held]. rewrite Hcur', Hcur. split; [|split; [by apply survives_frame|by eauto]].
    split; [done|]. exists c. split; [done|]. by rewrite list_to_set_disj_cons.
  - rewrite (remove_one_perm v held Ha), list_to_set_disj_cons in Hk.
    destruct (Version_decref_ok vm ({[+ c +]} ⊎ bag (remove_one v held)) (list_to_set loose) ∅ v) as (vm' & -> & Hk' & Hs & _ & Hcur').
    { replace ({[+ v +]} ⊎ ({[+ c +]} ⊎ bag (remove_one v held))) with ({[+ c +]} ⊎ ({[+ v +]} ⊎ bag (remove_one v held))); [done|]. multiset_solver. }
    cbn [mbind option_bind]. eexists. split; [done|]. cbn [vc_mem vc_loose vc_held]. rewrite Hcur', Hcur.
    split; [by eauto|]. split; [by apply survives_frame|by eauto].
  - destruct Ha as (v & pv & Hv & Hpv & Hp). destruct (charge_seek_ok vm _ _ p Hk) as (vm' & -> & Hk' & Ev & Ec & Hcur').
    { rewrite (all_files_delete _ _ _ Hpv). apply elem_of_app. by left. }
    cbn [mbind option_bind]. eexists. split; [done|]. cbn [vc_mem vc_loose vc_held]. rewrite Hcur', Hcur. split; [by eauto|].
    split; [by intros w _ _|by eauto].
Qed.

Lemma reached_ok st : reached st -> callers_ok st.
Proof.
  induction 1 as [vm E|st ev st' _ IH Ha E]; [by apply callers_init|].
  destruct (event_ok st ev IH Ha) as (st2 & E2 & Hk & _). congruence.
Qed.

Lemma heap_empty vm : heap_ok vm ∅ ∅ ∅ -> vm_linked vm = [] /\ vm_versions vm = ∅ /\ vm_files vm = ∅.
Proof.
  intros Hk. assert (vm_versions vm = ∅) as Ev.
  { apply map_empty. intros v. pose proof (hk_users _ _ _ _ Hk v) as E. rewrite decide_False, multiplicity_empty in E by set_solver.
    by destruct (vm_versions vm !! v). }
  split; [|split; [done|]].
  - apply elem_of_nil_inv. intros v Hv. apply (hk_linked _ _ _ _ Hk) in Hv; [multiset_solver|set_solver].
  - apply map_empty. intros p. pose proof (hk_files _ _ _ _ Hk p) as E. rewrite Ev in E.
    assert (all_files ∅ = []) as Ea by done. rewrite Ea, list_to_set_disj_nil, gmultiset_disj_union_left_id, multiplicity_empty in E.
    by destruct (vm_files vm !! p).
Qed.

Lemma close_ok st :
  callers_ok st -> vc_loose st = [] -> vc_held st = [] ->
  exists vm, VersionSet_delete (vc_mem st) = Some vm /\ vm_versions vm = ∅ /\ vm_files vm = ∅.
Proof.
  intros (_ & c & Hcur & Hk) El Eh. rewrite El, Eh in Hk. unfold VersionSet_delete. rewrite Hcur.
  destruct (Version_decref_ok _ _ _ _ _ Hk) as (vm & -> & Hk' & _). cbn [mbind option_bind].
  destruct (heap_empty vm Hk') as (-> & Hv & Hf). eauto.
Qed.

(** C21: However callers interleave (versions built from edits, installed or
    discarded, recovered from a manifest, taken and given back by readers and
    compactions), no assertion on reference counts fails and no deleted object is
    used; a version keeps its files, which are those that the builder's edits make
    of the current version, until it is deleted; the versions on the heap are
    those that somebody holds and the files those that a version points to; and
    when the version set is closed nothing is left. *)
Theorem versions_never_dangle st :
  reached st ->
  (forall ev, allowed st ev -> exists st', run_event ucmp st ev = Some st' /\ effect st ev st') /\
  (forall v, is_Some (vm_versions (vc_mem st) !! v) <-> vm_current (vc_mem st) = Some v \/ v ∈ vc_held st \/ v ∈ vc_loose st) /\
  (forall v, is_Some (vm_versions (vc_mem st) !! v) -> is_Some (contents (vc_mem st) v)) /\
  (forall p, is_Some (vm_files (vc_mem st) !! p) <-> p ∈ all_files (vm_versions (vc_mem st))) /\
  (vc_loose st = [] -> vc_held st = [] ->
    exists vm, VersionSet_delete (vc_mem st) = Some vm /\ vm_versions vm = ∅ /\ vm_files vm = ∅).
Proof.
  intros Hst%reached_ok. split; [|split; [|split; [|split]]].
  - intros ev Ha. destruct (event_ok st ev Hst Ha) as (st' & E & _ & He). eauto.
  - destruct Hst as (_ & c & Hcur & Hk). intros v. rewrite (heap_live _ _ _ _ v Hk), Hcur, elem_of_list_to_set,
      gmultiset_elem_of_disj_union, gmultiset_elem_of_singleton, elem_of_list_to_set_disj. naive_solver.
  - destruct Hst as (_ & c & Hcur & Hk). intros v. apply (contents_some _ _ _ _ v Hk).
  - destruct Hst as (_ & c & Hcur & Hk). intros p. rewrite (counted_dom _ _ p (hk_files _ _ _ _ Hk)).
    by rewrite gmultiset_disj_union_right_id, elem_of_list_to_set_disj.
  - by apply close_ok.
Qed.
End BuilderRefs.

(** A session: two tables are added while readers hold the versions before; the
    first table is shared by two versions when a reader charges a seek to it. *)
Module Session.
Definition edit (level n : Z) : VersionEdit :=
  mkEdit [] 0 0 0 0 false false false false false [(0, [])] []
    [(level, FileMetaData_new n 100 (InternalKey (str:"a") 9 kTypeValue) (InternalKey (str:"k") 3 kTypeValue))].
Definition events : list event :=
  [EvRef; EvBuild (edit 0 4); EvInstall 1; EvRef; EvBuild (edit 1 5); EvInstall 2; EvSeek 0; EvUnref 0].
Definition start : VCallers := default (mkVCallers (mkVMem ∅ ∅ [] None []) [] []) ((fun vm => mkVCallers vm [] []) <$> VersionSet_init).
Definition state (n : nat) : VCallers := default start (fold_opt (run_event BytewiseComparator) (take n events) start).

(** Levels with one file each are in order. *)
Lemma sparse_ordered fss : Forall (fun fs : list FileMetaData => (length fs <= 1)%nat) fss -> levels_ordered BytewiseComparator 0 fss.
Proof.
  intros Hf i fs Hi _. apply (Forall_lookup_1 _ _ _ _ Hf) in Hi. destruct fs as [|f [|g fs]]; cbn in Hi; [constructor| |lia].
  repeat constructor.
Qed.

Lemma edit_allowed st level n c cont :
  level_ok level -> vm_current (vc_mem st) = Some c -> contents (vc_mem st) c = Some cont ->
  Forall (fun fs => (length fs <= 1)%nat) (next_contents BytewiseComparator cont [edit level n]) ->
  allowed BytewiseComparator st (EvBuild (edit level n)).
Proof.
  intros Hl Hcur Hcont Hs. split; [|split].
  - constructor; [|done]. split; cbn [edit compact_pointers_ deleted_files_ new_files_]; repeat constructor; cbn [fst]; try apply Hl; done.
  - intros l. unfold numbers_at. cbn [map concat edit new_files_ app]. rewrite filter_cons.
    destruct (decide _); cbn [map]; repeat constructor. apply not_elem_of_nil.
  - intros _ c' cont' Hc' Hcont'. rewrite Hcur in Hc'. injection Hc' as <-. rewrite Hcont in Hcont'. injection Hcont' as <-. by apply sparse_ordered.
Qed.

Lemma session_step n ev :
  reached BytewiseComparator (state n) -> allowed BytewiseComparator (state n) ev ->
  run_event BytewiseComparator (state n) ev = Some (state (S n)) -> reached BytewiseComparator (state (S n)).
Proof. apply reached_event. Qed.
End Session.

Lemma versions_never_dangle_witness :
  reached BytewiseComparator (Session.state 8) /\
  (forall v, is_Some (vm_versions (vc_mem (Session.state 8)) !! v) <->
    vm_current (vc_mem (Session.state 8)) = Some v \/ v ∈ vc_held (Session.state 8) \/ v ∈ vc_loose (Session.state 8)).
Proof.
  assert (reached BytewiseComparator (Session.state 8)) as Hst.
  { apply (Session.session_step 7 (EvUnref 0)); [|vm_compute; right; left|vm_compute; reflexivity].
    apply (Session.session_step 6 (EvSeek 0)).
    2: { exists 1%nat. eexists. split; [vm_compute; left|]. split; [vm_compute; reflexivity|]. vm_compute. left. }
    2: { vm_compute. reflexivity. }
    apply (Session.session_step 5 (EvInstall 2)); [|vm_compute; left|vm_compute; reflexivity].
    apply (Session.session_step 4 (EvBuild (Session.edit 1 5))); [| |vm_compute; reflexivity].
    2: { eapply Session.edit_allowed; [split; vm_compute; congruence|vm_compute; reflexivity|vm_compute; reflexivity|vm_compute; repeat constructor]. }
    apply (Session.session_step 3 EvRef); [|exact I|vm_compute; reflexivity].
    apply (Session.session_step 2 (EvInstall 1)); [|vm_compute; left|vm_compute; reflexivity].
    apply (Session.session_step 1 (EvBuild (Session.edit 0 4))); [| |vm_compute; reflexivity].
    2: { eapply Session.edit_allowed; [split; vm_compute; congruence|vm_compute; reflexivity|vm_compute; reflexivity|vm_compute; repeat constructor]. }
    apply (Session.session_step 0 EvRef); [|exact I|vm_compute; reflexivity].
    apply reached_init. vm_compute. reflexivity. }
  split; [exact Hst|]. apply (versions_never_dangle BytewiseComparator (Session.state 8) Hst).
Defined.
