(* ===== verification/DebugText.v ===== *)
(** * Descriptions for people

    The [DebugString] functions of src/db/dbformat.cc, src/db/version_edit.cc and
    src/db/version_set.cc. *)

From stdpp Require Import gmap.
From S2P Require Import Prelude Slice Comparator DbFormat Filename VersionEdit VersionFiles VersionBuilder.

(** [ParsedInternalKey::DebugString] *)
Definition ParsedInternalKey_DebugString (k : ParsedInternalKey) : bytes :=
  str:"'" ++ EscapeString (user_key k) ++ str:"' @ " ++ decimal (sequence k) ++ str:" : " ++ decimal (type_to_Z (type k)).

(** [InternalKey::DebugString] *)
Definition InternalKey_DebugString (rep_ : bytes) : bytes :=
  match ParseInternalKey rep_ with
  | Some parsed => ParsedInternalKey_DebugString parsed
  | None => str:"(bad)" ++ EscapeString rep_
  end.

(** [VersionEdit::DebugString] *)
Definition VersionEdit_DebugString (e : VersionEdit) : bytes :=
  let r := str:"VersionEdit {" in
  let r := if has_comparator_ e then r ++ [Byte.x0a] ++ str:" Comparator: " ++ comparator_ e else r in
  let r := if has_log_number_ e then AppendNumberTo (r ++ [Byte.x0a] ++ str:" LogNumber: ") (log_number_ e) else r in
  let r := if has_prev_log_number_ e then AppendNumberTo (r ++ [Byte.x0a] ++ str:" PrevLogNumber: ") (prev_log_number_ e) else r in
  let r := if has_next_file_number_ e then AppendNumberTo (r ++ [Byte.x0a] ++ str:" NextFileNumber: ") (next_file_number_ e) else r in
  let r := if has_last_sequence_ e then AppendNumberTo (r ++ [Byte.x0a] ++ str:" LastSeq: ") (last_sequence_ e) else r in
  let r := fold_left (fun r p =>
      AppendNumberTo (r ++ [Byte.x0a] ++ str:" CompactPointer: ") (fst p) ++ str:" " ++ InternalKey_DebugString (snd p))
    (compact_pointers_ e) r in
  let r := fold_left (fun r p => AppendNumberTo (AppendNumberTo (r ++ [Byte.x0a] ++ str:" RemoveFile: ") (fst p) ++ str:" ") (snd p))
    (deleted_files_ e) r in
  let r := fold_left (fun r p =>
      let f := snd p in
      let r := AppendNumberTo (r ++ [Byte.x0a] ++ str:" AddFile: ") (fst p) ++ str:" " in
      let r := AppendNumberTo r (number f) ++ str:" " in
      let r := AppendNumberTo r (file_size f) ++ str:" " in
      r ++ InternalKey_DebugString (smallest f) ++ str:" " ++ InternalKey_DebugString (largest f))
    (new_files_ e) r in
  r ++ [Byte.x0a] ++ str:"}" ++ [Byte.x0a].

(** [Version::DebugString] *)
Definition Version_DebugString (v : Version) : bytes :=
  fold_left (fun r level =>
    let r := AppendNumberTo (r ++ str:"--- level") (Z.of_nat level) ++ str:" ---" ++ [Byte.x0a] in
    fold_left (fun r f =>
      let r := AppendNumberTo (r ++ str:" ") (number f) ++ str:":" in
      let r := AppendNumberTo r (file_size f) ++ str:"[" in
      r ++ InternalKey_DebugString (smallest f) ++ str:" .. " ++ InternalKey_DebugString (largest f) ++ str:"]" ++ [Byte.x0a])
      (level_files v level) r) (seq 0 kNumLevels) [].

Example debug_string_sample :
  InternalKey_DebugString (InternalKey (str:"k") 7 kTypeValue) = str:"'k' @ 7 : 1" /\
  take 10 (Version_DebugString Version_new) = str:"--- level0".
Proof. split; reflexivity. Qed.
