(* ===== verification/Compaction.v ===== *)
(** * Compactions

    src/db/version_set.h and src/db/version_set.cc: the score of a version, the
    choice of the next level to compact, the inputs of a compaction and the
    questions a running compaction asks ([IsBaseLevelForKey],
    [ShouldStopBefore]), and the placement of a flushed memtable. *)

From Stdlib Require Import SpecFloat.
From stdpp Require Import gmap sets sorting.
From S2P Require Import Prelude Slice Coding Comparator DbFormat Iterator VersionEdit VersionFiles VersionBuilder.

Section Operations.
Context (ucmp : Comparator).
Abbreviation ucompare := (Compare ucmp).
Abbreviation icompare := (InternalKeyComparator.Compare ucmp).
(** [options->max_file_size] *)
Context (max_file_size : Z).

Definition TargetFileSize : Z := max_file_size.
Definition MaxGrandParentOverlapBytes : Z := 10 * TargetFileSize.
Definition ExpandedCompactionByteSizeLimit : Z := 25 * TargetFileSize.
Definition MaxFileSizeForLevel (level : nat) : Z := TargetFileSize.

Fixpoint MaxBytesForLevel (level : nat) : spec_float :=
  match level with
  | S (S _ as level') => double_mul (MaxBytesForLevel level') (double_of 10)
  | _ => double_mul (double_of 10) (double_of 1048576)
  end.

(** ** Scores *)

(** The score of a level. *)
Definition level_score (v : Version) (level : nat) : spec_float :=
  match level with
  | O => double_div (double_of (zlen (level_files v 0))) (double_of kL0_CompactionTrigger)
  | _ => double_div (double_of (u64 (TotalFileSize (level_files v level)))) (MaxBytesForLevel level)
  end.

(** [VersionSet::Finalize] *)
Definition Finalize (v : Version) : Version :=
  let '(best_level, best_score) :=
    fold_left (fun best level =>
      let score := level_score v level in
      if SFltb (snd best) score then (Z.of_nat level, score) else best)
      (seq 0 (kNumLevels - 1)) (-1, double_of (-1)) in
  mkVersion (files_ v) (file_to_compact_ v) (file_to_compact_level v) best_score best_level.

(** [VersionSet::NeedsCompaction]: [score >= 1] of doubles. *)
Definition score_reached (score : spec_float) : bool := SFleb (double_of 1) score.

Definition NeedsCompaction (v : Version) : bool :=
  score_reached (compaction_score_ v) || match file_to_compact_ v with Some _ => true | None => false end.

(** ** Overlap with a level *)

(** [Version::OverlapInLevel] *)
Definition OverlapInLevel (v : Version) (level : nat) (lo hi : option bytes) : option bool :=
  SomeFileOverlapsRange ucmp (0 <? level)%nat (level_files v level) lo hi.

(** [Version::PickLevelForMemTableOutput] *)
Fixpoint PickLevel_loop (fuel : nat) (v : Version) (lo hi : bytes) (level : nat) : option nat :=
  match fuel with
  | O => Some level
  | S fuel =>
      if (level <? kMaxMemCompactLevel)%nat then
        over ← OverlapInLevel v (level + 1) (Some lo) (Some hi);
        if (over : bool) then Some level
        else if (level + 2 <? kNumLevels)%nat then
          overlaps ← GetOverlappingInputs ucmp (level + 2) (level_files v (level + 2))
            (Some (InternalKey lo kMaxSequenceNumber kValueTypeForSeek))
            (Some (InternalKey hi 0 kTypeDeletion));
          if TotalFileSize overlaps >? MaxGrandParentOverlapBytes then Some level
          else PickLevel_loop fuel v lo hi (S level)
        else PickLevel_loop fuel v lo hi (S level)
      else Some level
  end.

Definition PickLevelForMemTableOutput (v : Version) (smallest_user_key largest_user_key : bytes) : option nat :=
  over ← OverlapInLevel v 0 (Some smallest_user_key) (Some largest_user_key);
  if (over : bool) then Some 0%nat
  else PickLevel_loop (S kMaxMemCompactLevel) v smallest_user_key largest_user_key 0.

(** ** Compactions *)

(** [class Compaction] *)
Record Compaction := mkCompaction {
  c_level : nat; max_output_file_size_ : Z; input_version_ : Version; edit_ : VersionEdit;
  inputs0 : list FileMetaData; inputs1 : list FileMetaData; grandparents_ : list FileMetaData;
  grandparent_index_ : nat; seen_key_ : bool; overlapped_bytes_ : Z; level_ptrs_ : list nat }.

(** [Compaction::Compaction] on the current version with the first inputs; its
    edit is a fresh one. *)
Definition Compaction_new (level : nat) (v : Version) (garbage : bool) (inputs : list FileMetaData) : Compaction :=
  mkCompaction level (MaxFileSizeForLevel level) v (VersionEdit_new garbage) inputs [] [] 0 false 0
    (replicate kNumLevels 0%nat).

(** [VersionSet::SetupOtherInputs]: the compaction and the key that becomes the
    compaction pointer of the level. *)
Definition SetupOtherInputs (v : Version) (c : Compaction) : option (Compaction * bytes) :=
  let level := c_level c in
  in0 ← AddBoundaryInputs ucmp (level_files v level) (inputs0 c);
  '(smallest, largest) ← GetRange ucmp in0;
  in1 ← GetOverlappingInputs ucmp (level + 1) (level_files v (level + 1)) (Some smallest) (Some largest);
  in1 ← AddBoundaryInputs ucmp (level_files v (level + 1)) in1;
  '(all_start, all_limit) ← GetRange2 ucmp in0 in1;
  '(in0, in1, largest, all_start, all_limit) ←
    (match in1 with
     | [] => Some (in0, in1, largest, all_start, all_limit)
     | _ =>
         expanded0 ← GetOverlappingInputs ucmp level (level_files v level) (Some all_start) (Some all_limit);
         expanded0 ← AddBoundaryInputs ucmp (level_files v level) expanded0;
         if (zlen expanded0 >? zlen in0) &&
            (TotalFileSize in1 + TotalFileSize expanded0 <? ExpandedCompactionByteSizeLimit) then
           '(new_start, new_limit) ← GetRange ucmp expanded0;
           expanded1 ← GetOverlappingInputs ucmp (level + 1) (level_files v (level + 1))
             (Some new_start) (Some new_limit);
           expanded1 ← AddBoundaryInputs ucmp (level_files v (level + 1)) expanded1;
           if zlen expanded1 =? zlen in1 then
             '(all_start, all_limit) ← GetRange2 ucmp expanded0 expanded1;
             Some (expanded0, expanded1, new_limit, all_start, all_limit)
           else Some (in0, in1, largest, all_start, all_limit)
         else Some (in0, in1, largest, all_start, all_limit)
     end);
  grand ← (if (level + 2 <? kNumLevels)%nat
    then GetOverlappingInputs ucmp (level + 2) (level_files v (level + 2)) (Some all_start) (Some all_limit)
    else Some (grandparents_ c));
  Some (mkCompaction level (max_output_file_size_ c) (input_version_ c)
          (SetCompectorPointer (edit_ c) (Z.of_nat level) largest) in0 in1 grand
          (grandparent_index_ c) (seen_key_ c) (overlapped_bytes_ c) (level_ptrs_ c), largest).

(** The first file behind the compaction pointer. *)
Definition pick_file (files : list FileMetaData) (pointer : bytes) : list FileMetaData :=
  match find (fun f => match pointer with [] => true | _ =>
      match icompare (largest f) pointer with Gt => true | _ => false end end) files with
  | Some f => [f]
  | None => []
  end.

(** [VersionSet::PickCompaction]: a compaction and the compaction pointers. *)
Definition PickCompaction (v : Version) (compact_pointer : list bytes) (garbage : bool)
    : option (option (Compaction * list bytes)) :=
  let size_compaction := score_reached (compaction_score_ v) in
  start ← (if size_compaction then
      if negb ((0 <=? compaction_level_ v) && (compaction_level_ v + 1 <? Z.of_nat kNumLevels)) then None else
      let level := Z.to_nat (compaction_level_ v) in
      let files := level_files v level in
      inputs ← (match pick_file files (default [] (compact_pointer !! level)) with
        | [] => f ← files !! 0%nat; Some [f]
        | l => Some l
        end);
      Some (Some (level, inputs))
    else match file_to_compact_ v with
      | Some f => Some (Some (Z.to_nat (file_to_compact_level v), [f]))
      | None => Some None
      end);
  match start with
  | None => Some None
  | Some (level, inputs) =>
      inputs ← (if decide (level = 0%nat) then
          '(smallest, largest) ← GetRange ucmp inputs;
          inputs ← GetOverlappingInputs ucmp 0 (level_files v 0) (Some smallest) (Some largest);
          match inputs with [] => None | _ => Some inputs end
        else Some inputs);
      '(c, pointer) ← SetupOtherInputs v (Compaction_new level v garbage inputs);
      Some (Some (c, <[level := pointer]> compact_pointer))
  end.

(** [VersionSet::CompactRange] *)
Fixpoint limit_inputs (limit total : Z) (inputs : list FileMetaData) : list FileMetaData :=
  match inputs with
  | [] => []
  | f :: rest =>
      let total := u64 (total + file_size f) in
      if total >=? limit then [f] else f :: limit_inputs limit total rest
  end.

Definition CompactRange (v : Version) (compact_pointer : list bytes) (garbage : bool) (level : nat)
    (begin_ end_ : option bytes) : option (option (Compaction * list bytes)) :=
  inputs ← GetOverlappingInputs ucmp level (level_files v level) begin_ end_;
  match inputs with
  | [] => Some None
  | _ =>
      let inputs := if (0 <? level)%nat then limit_inputs (MaxFileSizeForLevel level) 0 inputs else inputs in
      '(c, pointer) ← SetupOtherInputs v (Compaction_new level v garbage inputs);
      Some (Some (c, <[level := pointer]> compact_pointer))
  end.

(** [Compaction::IsTrivialMove] *)
Definition IsTrivialMove (c : Compaction) : bool :=
  (zlen (inputs0 c) =? 1) && (zlen (inputs1 c) =? 0) &&
  (TotalFileSize (grandparents_ c) <=? MaxGrandParentOverlapBytes).

(** [Compaction::AddInputDeletions] *)
Definition AddInputDeletions (c : Compaction) (edit : VersionEdit) : VersionEdit :=
  let remove level edit f := RemoveFile edit level (number f) in
  fold_left (remove (Z.of_nat (c_level c) + 1)) (inputs1 c)
    (fold_left (remove (Z.of_nat (c_level c))) (inputs0 c) edit).

(** [Compaction::IsBaseLevelForKey]: the pointer of one level, and whether the
    file it ends at holds the key. *)
Fixpoint advance_ptr (files : list FileMetaData) (user_key : bytes) (ptr : nat) : nat * bool :=
  match files with
  | [] => (ptr, false)
  | f :: rest =>
      match ucompare user_key (large_user f) with
      | Gt => advance_ptr rest user_key (S ptr)
      | _ => (ptr, match ucompare user_key (small_user f) with Lt => false | _ => true end)
      end
  end.

Fixpoint IsBaseLevel_loop (v : Version) (user_key : bytes) (levels : list nat) (ptrs : list nat)
    : list nat * bool :=
  match levels with
  | [] => (ptrs, true)
  | level :: levels =>
      let ptr := default 0%nat (ptrs !! level) in
      let '(ptr, held) := advance_ptr (drop ptr (level_files v level)) user_key ptr in
      let ptrs := <[level := ptr]> ptrs in
      if (held : bool) then (ptrs, false) else IsBaseLevel_loop v user_key levels ptrs
  end.

Definition set_ptrs (c : Compaction) (ptrs : list nat) : Compaction :=
  mkCompaction (c_level c) (max_output_file_size_ c) (input_version_ c) (edit_ c) (inputs0 c) (inputs1 c)
    (grandparents_ c) (grandparent_index_ c) (seen_key_ c) (overlapped_bytes_ c) ptrs.

Definition IsBaseLevelForKey (c : Compaction) (user_key : bytes) : Compaction * bool :=
  let '(ptrs, r) := IsBaseLevel_loop (input_version_ c) user_key
    (seq (c_level c + 2) (kNumLevels - (c_level c + 2))) (level_ptrs_ c) in
  (set_ptrs c ptrs, r).

(** [Compaction::ShouldStopBefore] *)
Fixpoint advance_grandparent (files : list FileMetaData) (internal_key : bytes) (seen : bool)
    (index : nat) (bytes_ : Z) : nat * Z :=
  match files with
  | [] => (index, bytes_)
  | f :: rest =>
      match icompare internal_key (largest f) with
      | Gt => advance_grandparent rest internal_key seen (S index)
                (if seen then bytes_ + file_size f else bytes_)
      | _ => (index, bytes_)
      end
  end.

Definition ShouldStopBefore (c : Compaction) (internal_key : bytes) : Compaction * bool :=
  let '(index, overlapped) := advance_grandparent (drop (grandparent_index_ c) (grandparents_ c))
    internal_key (seen_key_ c) (grandparent_index_ c) (overlapped_bytes_ c) in
  let stop := overlapped >? MaxGrandParentOverlapBytes in
  (mkCompaction (c_level c) (max_output_file_size_ c) (input_version_ c) (edit_ c) (inputs0 c) (inputs1 c)
     (grandparents_ c) index true (if stop then 0 else overlapped) (level_ptrs_ c), stop).
End Operations.

(** ** Proofs *)

(** *** Scores *)

Lemma SFltb_trans a b c : SFltb a b = true -> SFltb b c = true -> SFltb a c = true.
Proof.
  unfold SFltb. destruct a as [sa|sa| |sa ma ea], b as [sb|sb| |sb mb eb], c as [sc|sc| |sc mc ec]; cbn;
  repeat match goal with s : bool |- _ => destruct s end; try done; cbn;
  destruct (Z.compare_spec ea eb), (Z.compare_spec eb ec), (Z.compare_spec ea ec); try done; try lia; subst;
  change (Pos.compare_cont Eq) with Pos.compare;
  destruct (Pos.compare_spec ma mb), (Pos.compare_spec mb mc), (Pos.compare_spec ma mc); try done; lia.
Qed.

Lemma SFleb_not_less a b c : SFleb a b = true -> c <> S754_nan -> SFltb c b = false -> SFleb a c = true.
Proof.
  unfold SFltb, SFleb. destruct a as [sa|sa| |sa ma ea], b as [sb|sb| |sb mb eb], c as [sc|sc| |sc mc ec]; cbn;
  repeat match goal with s : bool |- _ => destruct s end; try done; cbn;
  destruct (Z.compare_spec ea eb), (Z.compare_spec ec eb), (Z.compare_spec ea ec); try done; try lia; subst;
  change (Pos.compare_cont Eq) with Pos.compare;
  destruct (Pos.compare_spec ma mb), (Pos.compare_spec mc mb), (Pos.compare_spec ma mc); try done; lia.
Qed.

Lemma SFltb_not_nan a b : SFltb a b = true -> b <> S754_nan.
Proof. intros H ->. by destruct a. Qed.

(** The fold of [Finalize]: the best so far is the score of a level seen, and
    no level seen has a better one. *)
Record best_of (v : Version) (levels : list nat) (best : Z * spec_float) : Prop := {
  bo_number : snd best <> S754_nan;
  bo_max : forall l, l ∈ levels -> SFltb (snd best) (level_score v l) = false;
  bo_level : best = (-1, double_of (-1)) \/
    exists l, l ∈ levels /\ best = (Z.of_nat l, level_score v l) }.

Lemma best_of_fold v levels :
  best_of v levels (fold_left (fun best level =>
    let score := level_score v level in
    if SFltb (snd best) score then (Z.of_nat level, score) else best) levels (-1, double_of (-1))).
Proof.
  induction levels as [|l levels IH] using rev_ind.
  { split; [vm_compute; discriminate|by intros l ?%elem_of_nil|by left]. }
  rewrite fold_left_app. cbn [fold_left]. set (best := fold_left _ _ _) in *. cbn zeta.
  destruct IH as [Hn Hm Hl]. destruct (SFltb (snd best) (level_score v l)) eqn:E.
  - split; cbn [snd].
    + by eapply SFltb_not_nan.
    + intros l' [Hl'|Hl'%list_elem_of_singleton]%elem_of_app; [|subst l'].
      * apply not_true_iff_false. intros H. specialize (Hm l' Hl').
        by rewrite (SFltb_trans _ _ _ E H) in Hm.
      * by destruct (level_score v l) as [[]|[]| |[] m e]; cbn; rewrite ?Z.compare_refl, ?Pos.compare_cont_refl.
    + right. exists l. split; [set_solver|done].
  - split; [done| |].
    + intros l' [Hl'|Hl'%list_elem_of_singleton]%elem_of_app; [by apply Hm|by subst l'].
    + destruct Hl as [Hl|(l' & Hl' & E')]; [by left|]. right. exists l'. split; [set_solver|done].
Qed.

Lemma Finalize_spec v :
  let best := (compaction_level_ (Finalize v), compaction_score_ (Finalize v)) in
  files_ (Finalize v) = files_ v /\ best_of v (seq 0 (kNumLevels - 1)) best.
Proof.
  cbn zeta. pose proof (best_of_fold v (seq 0 (kNumLevels - 1))) as H. revert H.
  unfold Finalize. cbn zeta. by destruct (fold_left _ _ _) as [l s].
Qed.

Lemma level_files_Finalize v l : level_files (Finalize v) l = level_files v l.
Proof. unfold level_files. by rewrite (proj1 (Finalize_spec v)). Qed.

Section Correct.
Context (ucmp : Comparator) `{!ComparatorLaws ucmp}.
Context (max_file_size : Z).
Abbreviation ucompare := (Compare ucmp).
Abbreviation icompare := (InternalKeyComparator.Compare ucmp).

(** The files of a version: every file has its keys in order, and the files of
    a level above 0 are disjoint. *)
Record version_ok (v : Version) : Prop := {
  vo_levels : length (files_ v) = kNumLevels;
  vo_files : forall l, Forall (fun f => file_ok ucmp f /\ key_wf (largest f)) (level_files v l);
  vo_disjoint : forall l, (0 < l)%nat -> disjoint_files ucmp (level_files v l);
  vo_count : forall l, zlen (level_files v l) < 2 ^ 31 }.

Lemma vo_file_ok v l : version_ok v -> Forall (file_ok ucmp) (level_files v l).
Proof. intros Hv. eapply list.Forall_impl; [apply (vo_files v Hv l)|]. by intros f []. Qed.

(** *** The level of a flushed memtable *)

(** A level has keys in the range. *)
Definition level_overlaps (v : Version) (lo hi : bytes) (l : nat) : Prop :=
  exists f, f ∈ level_files v l /\ overlaps ucmp (Some lo) (Some hi) f.

Lemma OverlapInLevel_spec v l lo hi :
  version_ok v ->
  exists b, OverlapInLevel ucmp v l (Some lo) (Some hi) = Some b /\ (b = true <-> level_overlaps v lo hi l).
Proof.
  intros Hv. unfold OverlapInLevel. apply SomeFileOverlapsRange_spec; [done| |apply Hv].
  intros E%Nat.ltb_lt. split; [by apply Hv|]. eapply list.Forall_impl; [apply (vo_files v Hv l)|]. by intros f [].
Qed.

Lemma PickLevel_loop_spec fuel v lo hi level :
  version_ok v -> (kMaxMemCompactLevel < fuel + level)%nat -> (level <= kMaxMemCompactLevel)%nat ->
  (forall l, (l <= level)%nat -> ~ level_overlaps v lo hi l) ->
  exists r, PickLevel_loop ucmp max_file_size fuel v lo hi level = Some r /\
    (r <= kMaxMemCompactLevel)%nat /\ forall l, (l <= r)%nat -> ~ level_overlaps v lo hi l.
Proof.
  intros Hv. revert level. induction fuel as [|fuel IH]; intros level Hfuel Hlevel Hno; [lia|].
  cbn [PickLevel_loop]. case_test; [|by exists level].
  destruct (OverlapInLevel_spec v (level + 1) lo hi Hv) as (b & -> & Hb). cbn [mbind option_bind].
  destruct b; [by exists level|].
  assert (forall l, (l <= S level)%nat -> ~ level_overlaps v lo hi l) as Hno'.
  { intros l Hl. destruct (decide (l = S level)) as [->|]; [|apply Hno; lia].
    rewrite Nat.add_1_r in Hb. intros H%Hb. done. }
  assert (forall x, x = PickLevel_loop ucmp max_file_size fuel v lo hi (S level) -> exists r, x = Some r /\
    (r <= kMaxMemCompactLevel)%nat /\ forall l, (l <= r)%nat -> ~ level_overlaps v lo hi l) as Hrec.
  { intros x ->. apply IH; [lia|lia|done]. }
  case_test; [|by apply Hrec].
  destruct (GetOverlappingInputs_spec ucmp (level + 2) (level_files v (level + 2))
    (Some (InternalKey lo kMaxSequenceNumber kValueTypeForSeek)) (Some (InternalKey hi 0 kTypeDeletion)))
    as (out & ? & ? & -> & _). cbn [mbind option_bind].
  case_test; [by exists level|by apply Hrec].
Qed.

Lemma PickLevel_spec v lo hi :
  version_ok v ->
  exists r, PickLevelForMemTableOutput ucmp max_file_size v lo hi = Some r /\
    (r <= kMaxMemCompactLevel)%nat /\
    ((0 < r)%nat -> forall l, (l <= r)%nat -> ~ level_overlaps v lo hi l).
Proof.
  intros Hv. unfold PickLevelForMemTableOutput.
  destruct (OverlapInLevel_spec v 0 lo hi Hv) as (b & -> & Hb). cbn [mbind option_bind].
  destruct b; [exists 0%nat; split; [done|]; split; lia|].
  destruct (PickLevel_loop_spec (S kMaxMemCompactLevel) v lo hi 0 Hv) as (r & E & Hr & Hno); [lia|lia| |].
  { intros l Hl. assert (l = 0%nat) as -> by lia. intros H%Hb. done. }
  exists r. split; [exact E|]. split; [done|]. by intros _.
Qed.

(** *** The inputs of a compaction *)

Lemma GetRange_fold fs r :
  let r' := fold_left (fun r f =>
    (match icompare (smallest f) (fst r) with Lt => smallest f | _ => fst r end,
     match icompare (largest f) (snd r) with Gt => largest f | _ => snd r end)) fs r in
  icompare (fst r') (fst r) <> Gt /\ icompare (snd r) (snd r') <> Gt /\
  forall f, f ∈ fs -> icompare (fst r') (smallest f) <> Gt /\ icompare (largest f) (snd r') <> Gt.
Proof.
  cbn zeta. revert r. induction fs as [|f fs IH]; intros r; cbn [fold_left].
  { rewrite !(cmp_refl icompare). split; [done|]. split; [done|]. by intros f ?%elem_of_nil. }
  set (r1 := (_, _)). destruct (IH r1) as (H1 & H2 & H3).
  assert (icompare (fst r1) (smallest f) <> Gt /\ icompare (fst r1) (fst r) <> Gt) as [Ha Hb].
  { cbn [r1 fst]. destruct (icompare (smallest f) (fst r)) eqn:E; rewrite ?(cmp_refl icompare); [| |].
    - rewrite (cmp_antisym icompare (smallest f)), E. done.
    - by rewrite E.
    - split; [|done]. rewrite (cmp_antisym icompare (smallest f)), E. done. }
  assert (icompare (largest f) (snd r1) <> Gt /\ icompare (snd r) (snd r1) <> Gt) as [Hc Hd].
  { cbn [r1 snd]. destruct (icompare (largest f) (snd r)) eqn:E; rewrite ?(cmp_refl icompare), ?E; [done|done|].
    split; [done|]. rewrite (cmp_antisym icompare (largest f)), E. done. }
  split; [by eapply (cmp_le_trans icompare)|]. split; [by eapply (cmp_le_trans icompare)|].
  intros g [->|Hg]%elem_of_cons; [|by apply H3]. split; by eapply (cmp_le_trans icompare).
Qed.

(** [key_range] covers all its files. *)
Lemma GetRange_covers fs f :
  f ∈ fs -> icompare (fst (key_range ucmp fs)) (smallest f) <> Gt /\ icompare (largest f) (snd (key_range ucmp fs)) <> Gt.
Proof.
  destruct fs as [|f0 fs]; [by intros ?%elem_of_nil|]. cbn [key_range].
  destruct (GetRange_fold fs (smallest f0, largest f0)) as (H1 & H2 & H3). cbn [fst snd] in *.
  by intros [->|Hf]%elem_of_cons; [|apply H3].
Qed.
Lemma file_user_ok f : file_ok ucmp f -> ucompare (small_user f) (large_user f) <> Gt.
Proof. by apply (icmp_le_user ucmp). Qed.

(** A file lies in a range of internal keys that covers it. *)
Lemma covered_overlaps f lo hi :
  file_ok ucmp f -> icompare lo (smallest f) <> Gt -> icompare (largest f) hi <> Gt ->
  overlaps ucmp (Some (ExtractUserKey lo)) (Some (ExtractUserKey hi)) f.
Proof.
  intros Hf Hlo%(icmp_le_user ucmp) Hhi%(icmp_le_user ucmp). pose proof (file_user_ok f Hf) as Hu.
  split; by eapply (cmp_le_trans ucompare).
Qed.

(** The ends of [key_range] are keys of its files. *)
Lemma GetRange_attained fs :
  fs <> [] -> (exists f, f ∈ fs /\ fst (key_range ucmp fs) = smallest f) /\
    (exists f, f ∈ fs /\ snd (key_range ucmp fs) = largest f).
Proof.
  destruct fs as [|f0 fs]; [done|]. intros _. cbn [key_range].
  enough (forall r, (exists f, f ∈ f0 :: fs /\ fst r = smallest f) /\ (exists f, f ∈ f0 :: fs /\ snd r = largest f) ->
    forall gs, gs ⊆ f0 :: fs -> let r' := fold_left (fun r f =>
      (match icompare (smallest f) (fst r) with Lt => smallest f | _ => fst r end,
       match icompare (largest f) (snd r) with Gt => largest f | _ => snd r end)) gs r in
    (exists f, f ∈ f0 :: fs /\ fst r' = smallest f) /\ (exists f, f ∈ f0 :: fs /\ snd r' = largest f)) as H.
  { apply (H (smallest f0, largest f0)); [|set_solver]. split; exists f0; (split; [left|done]). }
  intros r Hr gs. revert r Hr. induction gs as [|g gs IH]; intros r Hr Hgs; [done|].
  cbn [fold_left]. apply IH; [|set_solver]. destruct Hr as [Hr1 Hr2]. cbn [fst snd].
  assert (g ∈ f0 :: fs) as Hg by (apply Hgs; left).
  split; [destruct (icompare (smallest g) (fst r)); eauto|destruct (icompare (largest g) (snd r)); eauto].
Qed.

(** The user keys of a list of files. *)
Definition user_range (fs : list FileMetaData) : option bytes * option bytes :=
  (Some (ExtractUserKey (fst (key_range ucmp fs))), Some (ExtractUserKey (snd (key_range ucmp fs)))).

(** All files of level 0 that share user keys with the inputs are inputs. *)
Definition level0_closed (v : Version) (fs : list FileMetaData) : Prop :=
  forall f, f ∈ level_files v 0 -> overlaps ucmp (fst (user_range fs)) (snd (user_range fs)) f -> f ∈ fs.

Lemma closed_range_inputs v lo hi :
  closed_range ucmp (level_files v 0) (Some lo) (Some hi) ->
  let out := filter (overlaps ucmp (Some lo) (Some hi)) (level_files v 0) in
  out <> [] -> level0_closed v out.
Proof.
  intros Hc out Hne f Hf Ho. apply list_elem_of_filter. split; [|done].
  destruct (GetRange_attained out Hne) as [(g1 & [Ho1 Hg1]%list_elem_of_filter & E1) (g2 & [Ho2 Hg2]%list_elem_of_filter & E2)].
  eapply (overlaps_wider ucmp); [|exact Ho]. unfold user_range. cbn [fst snd]. rewrite E1, E2.
  destruct (Hc g1 Hg1 Ho1) as [Ha _]. destruct (Hc g2 Hg2 Ho2) as [_ Hb]. by split.
Qed.

(** What [GetOverlappingInputs] finds around a range that covers files of the
    level. *)
Lemma overlapping_inputs_cover v l lo hi :
  version_ok v ->
  exists out, GetOverlappingInputs ucmp l (level_files v l) (Some lo) (Some hi) = Some out /\
    out ⊆ level_files v l /\
    (forall f, f ∈ level_files v l -> icompare lo (smallest f) <> Gt -> icompare (largest f) hi <> Gt -> f ∈ out) /\
    ((0 < l)%nat -> out = filter (overlaps ucmp (Some (ExtractUserKey lo)) (Some (ExtractUserKey hi))) (level_files v l)) /\
    (l = 0%nat -> out <> [] -> level0_closed v out).
Proof.
  intros Hv. destruct (GetOverlappingInputs_spec ucmp l (level_files v l) (Some lo) (Some hi))
    as (out & lo' & hi' & E & Eo & Hw & Hl).
  exists out. split; [exact E|]. subst out. split; [|split; [|split]].
  - intros f [_ Hf]%list_elem_of_filter. done.
  - intros f Hf H1 H2. apply list_elem_of_filter. split; [|done].
    eapply (overlaps_wider ucmp); [exact Hw|]. apply covered_overlaps; [|done|done].
    by eapply (proj1 (list.Forall_forall _ _) (vo_file_ok v l Hv)).
  - intros Hpos. destruct (decide _); [lia|]. by destruct Hl as [-> ->].
  - intros -> Hne. destruct (decide _); [|done]. destruct Hl as [Hc _]. unfold wider in Hw.
    
    destruct lo' as [lo'|], hi' as [hi'|]; cbn [fmap option_fmap option_map] in Hw; [|by destruct Hw..].
    by apply closed_range_inputs.
Qed.

(** The compaction that [SetupOtherInputs] makes out of the first inputs. *)
Record setup_ok (v : Version) (c c' : Compaction) (ptr : bytes) : Prop := {
  su_level : c_level c' = c_level c;
  su_keeps : inputs0 c ⊆ inputs0 c';
  su_inputs0 : inputs0 c' ⊆ level_files v (c_level c);
  su_closed : c_level c = 0%nat -> level0_closed v (inputs0 c) -> level0_closed v (inputs0 c');
  su_inputs1 : inputs1 c' = filter (overlaps ucmp (fst (user_range (inputs0 c'))) (snd (user_range (inputs0 c'))))
    (level_files v (c_level c + 1));
  su_pointer : ptr = snd (key_range ucmp (inputs0 c'));
  su_edit : edit_ c' = SetCompectorPointer (edit_ c) (Z.of_nat (c_level c)) ptr;
  su_grand : grandparents_ c' =
    if decide (c_level c + 2 < kNumLevels)%nat
    then filter (overlaps ucmp (fst (user_range (inputs0 c' ++ inputs1 c'))) (snd (user_range (inputs0 c' ++ inputs1 c'))))
      (level_files v (c_level c + 2))
    else grandparents_ c }.

(** The choice between the first inputs and the grown ones: both pairs have the
    files of the next level that their range needs. *)
Definition inputs_choice (v : Version) (level : nat) (first : list FileMetaData)
    (r : list FileMetaData * list FileMetaData * bytes * bytes * bytes) : Prop :=
  let '(r0, r1, largest, all_start, all_limit) := r in
  first ⊆ r0 /\ r0 ⊆ level_files v level /\ largest = snd (key_range ucmp r0) /\
  (level = 0%nat -> level0_closed v first -> level0_closed v r0) /\
  r1 = filter (overlaps ucmp (fst (user_range r0)) (snd (user_range r0))) (level_files v (level + 1)) /\
  (all_start, all_limit) = key_range ucmp (r0 ++ r1).

Lemma GetRange_some fs : fs <> [] -> GetRange ucmp fs = Some (key_range ucmp fs).
Proof. by destruct fs. Qed.

Lemma SetupOtherInputs_spec v c :
  version_ok v -> inputs0 c ⊆ level_files v (c_level c) -> inputs0 c <> [] ->
  exists c' ptr, SetupOtherInputs ucmp max_file_size v c = Some (c', ptr) /\ setup_ok v c c' ptr.
Proof.
  intros Hv Hin Hne. unfold SetupOtherInputs. cbn zeta. set (level := c_level c) in *.
  rewrite (AddBoundaryInputs_id ucmp (level_files v level)) by by apply vo_file_ok. cbn [mbind option_bind].
  rewrite GetRange_some by done. destruct (key_range ucmp (inputs0 c)) as [sm la] eqn:Er. cbn [mbind option_bind].
  destruct (overlapping_inputs_cover v (level + 1) sm la Hv) as (in1 & -> & _ & _ & Hin1 & _).
  specialize (Hin1 ltac:(lia)). cbn [mbind option_bind].
  rewrite (AddBoundaryInputs_id ucmp (level_files v (level + 1))) by by apply vo_file_ok. cbn [mbind option_bind].
  unfold GetRange2. rewrite (GetRange_some (inputs0 c ++ in1)) by (by intros [? _]%app_nil). destruct (key_range ucmp (inputs0 c ++ in1)) as [as_ al] eqn:E2. cbn [mbind option_bind].
  match goal with |- context [match in1 with [] => ?a | _ :: _ => ?b end] =>
    set (choice := match in1 with [] => a | _ :: _ => b end) end.
  assert (exists r, choice = Some r /\ inputs_choice v level (inputs0 c) r) as (r & -> & Hr).
  { assert (inputs_choice v level (inputs0 c) (inputs0 c, in1, la, as_, al)) as Hkeep.
    { unfold inputs_choice, user_range. rewrite Er, E2. cbn [fst snd]. done. }
    unfold choice. destruct in1 as [|g in1]; [by eexists|]. clear choice. set (ins1 := g :: in1) in *.
    destruct (overlapping_inputs_cover v level as_ al Hv) as (ex0 & -> & Hex0 & Hcov & _ & Hcl0). cbn [mbind option_bind].
    rewrite (AddBoundaryInputs_id ucmp (level_files v level)) by by apply vo_file_ok. cbn [mbind option_bind].
    case_test; [|by eexists].
    assert (ex0 <> []) as Hex by (intros ->; rewrite Z.gtb_lt in *; cbn [length] in *; lia).
    rewrite GetRange_some by done. destruct (key_range ucmp ex0) as [ns nl] eqn:En. cbn [mbind option_bind].
    destruct (overlapping_inputs_cover v (level + 1) ns nl Hv) as (ex1 & -> & _ & _ & Hex1 & _). cbn [mbind option_bind].
    rewrite (AddBoundaryInputs_id ucmp (level_files v (level + 1))) by by apply vo_file_ok. cbn [mbind option_bind].
    case_test; [|by eexists].
    rewrite (GetRange_some (ex0 ++ ex1)) by (by intros [? _]%app_nil). destruct (key_range ucmp (ex0 ++ ex1)) as [as2 al2] eqn:E3. cbn [mbind option_bind]. eexists. split; [done|].
    unfold inputs_choice, user_range. rewrite En, E3. cbn [fst snd].
    split; [|split; [done|split; [done|split; [|split; [by apply Hex1; lia|done]]]]].
    2:{ intros Hl0 _. apply Hcl0; [done|]. intros ->. rewrite Z.gtb_lt in *. cbn [length] in *. lia. }
    intros f Hf. destruct (GetRange_covers (inputs0 c ++ ins1) f) as [Ha Hb]; [apply elem_of_app; by left|].
    rewrite E2 in Ha, Hb. apply Hcov; [by apply Hin|done|done]. }
  cbn [mbind option_bind]. destruct r as [[[[r0 r1] largest_] as2] al2]. unfold inputs_choice in Hr.
  destruct Hr as (Hk & Hsub & -> & Hcl & Hr1 & Hall).
  assert (exists grand, (if (level + 2 <? kNumLevels)%nat
    then GetOverlappingInputs ucmp (level + 2) (level_files v (level + 2)) (Some as2) (Some al2)
    else Some (grandparents_ c)) = Some grand /\
    grand = (if decide (level + 2 < kNumLevels)%nat
      then filter (overlaps ucmp (Some (ExtractUserKey as2)) (Some (ExtractUserKey al2))) (level_files v (level + 2))
      else grandparents_ c)) as (grand & -> & Hg).
  { case_test; [|eexists; split; [done|]; by rewrite decide_False by lia].
    destruct (overlapping_inputs_cover v (level + 2) as2 al2 Hv) as (out & -> & _ & _ & Ho & _).
    exists out. split; [done|]. rewrite decide_True by lia. apply Ho. lia. }
  cbn [mbind option_bind]. do 2 eexists. split; [done|].
  split; cbn [c_level inputs0 inputs1 edit_ grandparents_]; try done.
  unfold user_range. rewrite <- Hall. cbn [fst snd]. exact Hg.
Qed.
(** *** The choice of a compaction *)

Lemma empty_level_score v l :
  (l < kNumLevels - 1)%nat -> level_files v l = [] -> score_reached (level_score v l) = false.
Proof.
  intros Hl E. unfold level_score.
  do 6 (destruct l as [|l]; [rewrite E; vm_compute; reflexivity|]). cbn in Hl. lia.
Qed.

Lemma pick_file_sub files pointer : pick_file ucmp files pointer ⊆ files.
Proof.
  unfold pick_file. destruct (find _ files) as [f|] eqn:E; [|set_solver].
  apply find_some in E as [Hf%list_elem_of_In _]. set_solver.
Qed.

(** What a compaction has to satisfy. *)
Record compaction_ok (v : Version) (c : Compaction) : Prop := {
  co_level : (c_level c + 1 < kNumLevels)%nat;
  co_nonempty : inputs0 c <> [];
  co_inputs0 : inputs0 c ⊆ level_files v (c_level c);
  co_closed : c_level c = 0%nat -> level0_closed v (inputs0 c);
  co_inputs1 : inputs1 c = filter (overlaps ucmp (fst (user_range (inputs0 c))) (snd (user_range (inputs0 c))))
    (level_files v (c_level c + 1));
  co_grand : grandparents_ c =
    if decide (c_level c + 2 < kNumLevels)%nat
    then filter (overlaps ucmp (fst (user_range (inputs0 c ++ inputs1 c))) (snd (user_range (inputs0 c ++ inputs1 c))))
      (level_files v (c_level c + 2))
    else [] }.

(** A file chosen by seeks is a file of its level, and not of the last level. *)
Definition seek_file_ok (v : Version) : Prop :=
  forall f, file_to_compact_ v = Some f -> exists l, file_to_compact_level v = Z.of_nat l /\
    (l + 1 < kNumLevels)%nat /\ f ∈ level_files v l.

(** The level and first inputs of [PickCompaction]. *)
Definition pick_start (v : Version) (compact_pointer : list bytes) : option (option (nat * list FileMetaData)) :=
  if score_reached (compaction_score_ v) then
    if negb ((0 <=? compaction_level_ v) && (compaction_level_ v + 1 <? Z.of_nat kNumLevels)) then None else
    let level := Z.to_nat (compaction_level_ v) in
    let files := level_files v level in
    inputs ← (match pick_file ucmp files (default [] (compact_pointer !! level)) with
      | [] => f ← files !! 0%nat; Some [f]
      | l => Some l
      end);
    Some (Some (level, inputs))
  else match file_to_compact_ v with
    | Some f => Some (Some (Z.to_nat (file_to_compact_level v), [f]))
    | None => Some None
    end.

Lemma pick_start_spec v0 cp :
  let v := Finalize v0 in
  seek_file_ok v -> if NeedsCompaction v
  then exists l inputs, pick_start v cp = Some (Some (l, inputs)) /\ (l + 1 < kNumLevels)%nat /\
    inputs <> [] /\ inputs ⊆ level_files v l
  else pick_start v cp = Some None.
Proof.
  intros v Hseek. unfold NeedsCompaction, pick_start.
  destruct (Finalize_spec v0) as [Efiles [_ _ Hlevel]]. fold v in Efiles, Hlevel.
  destruct (score_reached (compaction_score_ v)) eqn:Es; cbn [orb].
  - destruct Hlevel as [E|(l & Hl & E)].
    { exfalso. apply (f_equal snd) in E. cbn [snd] in E. rewrite E in Es. vm_compute in Es. discriminate. }
    pose proof (f_equal fst E) as E1. pose proof (f_equal snd E) as E2. cbn [fst snd] in E1, E2. rewrite E1, Nat2Z.id. apply elem_of_seq in Hl.
    rewrite (proj2 (Z.leb_le 0 (Z.of_nat l))), (proj2 (Z.ltb_lt _ _)) by (unfold kNumLevels in *; lia). cbn [andb negb].
    assert (level_files v l = level_files v0 l) as Ev by (unfold level_files; by rewrite Efiles).
    destruct (level_files v l) as [|f0 fs] eqn:Ef.
    { rewrite E2, empty_level_score in Es; [done|cbn in *; lia|congruence]. }
    pose proof (pick_file_sub (f0 :: fs) (default [] (cp !! l))) as Hsub.
    destruct (pick_file _ _ _) as [|f ins] eqn:Ep; cbn [mbind option_bind lookup list_lookup];
      do 2 eexists; (split; [done|]); (split; [unfold kNumLevels in *; lia|]); (split; [done|]); rewrite Ef; [|exact Hsub].
    intros x Hx%list_elem_of_singleton. subst x. left.
  - destruct (file_to_compact_ v) as [f|] eqn:Ef; [|done].
    destruct (Hseek f Ef) as (l & El & Hl & Hf). rewrite El, Nat2Z.id. do 2 eexists. split; [done|].
    split; [done|]. split; [done|]. intros x Hx%list_elem_of_singleton. by subst x.
Qed.

Lemma PickCompaction_start v (cp : list bytes) garbage :
  PickCompaction ucmp max_file_size v cp garbage =
  start ← pick_start v cp;
  match start with
  | None => Some None
  | Some (level, inputs) =>
      inputs ← (if decide (level = 0%nat) then
          '(smallest, largest) ← GetRange ucmp inputs;
          inputs ← GetOverlappingInputs ucmp 0 (level_files v 0) (Some smallest) (Some largest);
          match inputs with [] => None | _ => Some inputs end
        else Some inputs);
      '(c, pointer) ← SetupOtherInputs ucmp max_file_size v (Compaction_new max_file_size level v garbage inputs);
      Some (Some (c, <[level := pointer]> cp))
  end.
Proof. reflexivity. Qed.

Lemma setup_compaction_ok v level garbage inputs (cp : list bytes) :
  version_ok v -> (level + 1 < kNumLevels)%nat -> inputs <> [] -> inputs ⊆ level_files v level ->
  (level = 0%nat -> level0_closed v inputs) ->
  exists c, ('(c, pointer) ← SetupOtherInputs ucmp max_file_size v (Compaction_new max_file_size level v garbage inputs);
      Some (Some (c, <[level := pointer]> cp))) =
      Some (Some (c, <[level := snd (key_range ucmp (inputs0 c))]> cp)) /\
    c_level c = level /\ compaction_ok v c.
Proof.
  intros Hv Hl Hne Hin Hcl.
  destruct (SetupOtherInputs_spec v (Compaction_new max_file_size level v garbage inputs) Hv Hin Hne)
    as (c & ptr & -> & [El Hk H0 Hc H1 Hp _ Hg]). cbn [mbind option_bind].
  cbn [Compaction_new c_level inputs0] in *. subst ptr. exists c. split; [done|]. split; [done|].
  split; rewrite ?El; [done| |done|auto|done|done].
  destruct inputs as [|f ins]; [done|]. intros E. rewrite E in Hk.
  by apply (not_elem_of_nil f), Hk; left.
Qed.

Lemma PickCompaction_spec v0 (cp : list bytes) garbage :
  let v := Finalize v0 in
  version_ok v -> seek_file_ok v ->
  if NeedsCompaction v
  then exists c, PickCompaction ucmp max_file_size v cp garbage =
      Some (Some (c, <[c_level c := snd (key_range ucmp (inputs0 c))]> cp)) /\ compaction_ok v c
  else PickCompaction ucmp max_file_size v cp garbage = Some None.
Proof.
  intros v Hv Hseek. rewrite PickCompaction_start. pose proof (pick_start_spec v0 cp Hseek) as Hs. fold v in Hs.
  destruct (NeedsCompaction v); [|by rewrite Hs].
  destruct Hs as (l & ins & -> & Hl & Hne & Hin). cbn [mbind option_bind].
  assert (exists ins', (if decide (l = 0%nat) then
      '(smallest, largest) ← GetRange ucmp ins;
      inputs ← GetOverlappingInputs ucmp 0 (level_files v 0) (Some smallest) (Some largest);
      match inputs with [] => None | _ => Some inputs end else Some ins) = Some ins' /\
    ins' <> [] /\ ins' ⊆ level_files v l /\ (l = 0%nat -> level0_closed v ins')) as (ins' & -> & Hne' & Hin' & Hcl).
  { destruct (decide (l = 0%nat)) as [->|]; [|exists ins; split; [done|split; [done|split; [done|lia]]]].
    rewrite GetRange_some by done. destruct (key_range ucmp ins) as [sm la] eqn:Er. cbn [mbind option_bind].
    destruct (overlapping_inputs_cover v 0 sm la Hv) as (out & -> & Hsub & Hcov & _ & Hclo).
    cbn [mbind option_bind]. exists out. assert (out <> []) as Hno.
    { destruct ins as [|f ins]; [done|]. destruct (GetRange_covers (f :: ins) f) as [H1 H2]; [left|].
      rewrite Er in H1, H2. intros ->.
      apply (not_elem_of_nil f), Hcov; [apply Hin; left|done|done]. }
    split; [by destruct out|]. split; [done|]. split; [done|]. intros _. by apply Hclo. }
  cbn [mbind option_bind].
  destruct (setup_compaction_ok v l garbage ins' cp Hv Hl Hne' Hin' Hcl) as (c & -> & El & Hc).
  exists c. by rewrite El.
Qed.
(** *** Is this the lowest level with the key? *)

(** A file holds a user key in its range. *)
Definition holds_key (k : bytes) (f : FileMetaData) : Prop :=
  ucompare (small_user f) k <> Gt /\ ucompare k (large_user f) <> Gt.

(** The pointer of a level has only passed files before the key. *)
Definition ptr_ok (files : list FileMetaData) (k : bytes) (ptr : nat) : Prop :=
  forall i f, (i < ptr)%nat -> files !! i = Some f -> ucompare (large_user f) k = Lt.

Lemma disjoint_user_order files i j f g :
  disjoint_files ucmp files -> files !! i = Some f -> files !! j = Some g -> (i < j)%nat ->
  ucompare (large_user f) (small_user g) <> Gt.
Proof.
  intros [_ Hs] Hi Hj Hij. pose proof (sorted_lookup _ _ _ _ _ _ Hs Hi Hj Hij) as H. cbn beta in H.
  by apply (icmp_lt_user ucmp).
Qed.

Lemma advance_ptr_spec files k rest ptr :
  disjoint_files ucmp files -> rest = drop ptr files -> ptr_ok files k ptr ->
  let '(ptr', held) := advance_ptr ucmp rest k ptr in
  ptr_ok files k ptr' /\ (held = true <-> exists f, f ∈ files /\ holds_key k f).
Proof.
  intros Hd. revert ptr. induction rest as [|f rest IH]; intros ptr Er Hp; cbn [advance_ptr].
  - split; [done|]. split; [done|]. intros (f & Hf & Hh1 & Hh2).
    apply list_elem_of_lookup in Hf as [i Hi].
    assert (ptr <= i \/ i < ptr)%nat as [Hge|Hlt] by lia.
    + pose proof (f_equal length Er) as E. rewrite length_drop in E. cbn [length] in E.
      apply lookup_lt_Some in Hi. lia.
    + pose proof (Hp i f Hlt Hi) as H. apply (cmp_lt_gt ucompare) in H. congruence.
  - assert (files !! ptr = Some f) as Hf.
    { rewrite <- (Nat.add_0_r ptr), <- lookup_drop, <- Er. done. }
    assert (rest = drop (S ptr) files) as Er'.
    { replace (S ptr) with (ptr + 1)%nat by lia. by rewrite <- drop_drop, <- Er. }
    destruct (ucompare k (large_user f)) eqn:E.
    3:{ apply IH; [done|]. intros i g Hi Hg. destruct (decide (i = ptr)) as [->|]; [|apply (Hp i); [lia|done]].
        assert (g = f) as -> by congruence. by apply (cmp_lt_gt ucompare). }
    all: split; [done|]; rewrite (cmp_antisym ucompare (small_user f) k);
      (destruct (ucompare (small_user f) k) eqn:Es; cbn [CompOpp]);
      (split; [intros Hh|intros (g & [i Hi]%list_elem_of_lookup & Hg1 & Hg2)]; try done);
      try (exists f; split; [by eapply list_elem_of_lookup_2|split; congruence]).
    all: exfalso; assert (i < ptr \/ i = ptr \/ ptr < i)%nat as [Hlt|[->|Hgt]] by lia;
      [pose proof (Hp i g Hlt Hi) as H; apply (cmp_lt_gt ucompare) in H; congruence
      |assert (g = f) as -> by congruence; congruence|].
    all: pose proof (disjoint_user_order _ _ _ _ _ Hd Hf Hi Hgt) as Hfg;
      assert (ucompare (small_user f) (large_user f) <> Gt) as Hfo
        by (apply file_user_ok; eapply Forall_lookup_1; [apply (df_ok _ _ Hd)|exact Hf]);
      assert (ucompare (small_user f) k <> Gt) by
        (eapply (cmp_le_trans ucompare); [exact Hfo|]; eapply (cmp_le_trans ucompare); eassumption);
      congruence.
Qed.
Definition ptrs_ok (v : Version) (k : bytes) (ptrs : list nat) : Prop :=
  length ptrs = kNumLevels /\ forall l, ptr_ok (level_files v l) k (default 0%nat (ptrs !! l)).

Lemma ptrs_ok_mono v k k' ptrs : ucompare k k' <> Gt -> ptrs_ok v k ptrs -> ptrs_ok v k' ptrs.
Proof.
  intros Hk [Hl Hp]. split; [done|]. intros l i f Hi Hf.
  eapply (cmp_lt_le_trans ucompare); [by eapply Hp|done].
Qed.

Lemma IsBaseLevel_loop_spec v k levels ptrs :
  version_ok v -> Forall (fun l => (0 < l < kNumLevels)%nat) levels -> ptrs_ok v k ptrs ->
  let '(ptrs', r) := IsBaseLevel_loop ucmp v k levels ptrs in
  ptrs_ok v k ptrs' /\ (r = true <-> forall l f, l ∈ levels -> f ∈ level_files v l -> ~ holds_key k f).
Proof.
  intros Hv Hlev. revert ptrs. induction Hlev as [|l levels Hl Hlev IH]; intros ptrs [Hlen Hp]; cbn [IsBaseLevel_loop].
  { split; [done|]. split; [|done]. intros _ l f Hx. by apply not_elem_of_nil in Hx. }
  pose proof (advance_ptr_spec (level_files v l) k _ _ (vo_disjoint v Hv l ltac:(lia)) eq_refl (Hp l)) as Ha.
  destruct (advance_ptr _ _ _ _) as [ptr held]. destruct Ha as [Hptr Hheld].
  assert (ptrs_ok v k (<[l:=ptr]> ptrs)) as Hp'.
  { split; [by rewrite length_insert|]. intros l'. destruct (decide (l = l')) as [<-|Hne].
    - by rewrite list_lookup_insert_eq by lia.
    - by rewrite list_lookup_insert_ne by done. }
  destruct held.
  - split; [done|]. split; [done|]. intros H. destruct (proj1 Hheld eq_refl) as (f & Hf & Hh).
    by destruct (H l f ltac:(left) Hf).
  - specialize (IH _ Hp'). destruct (IsBaseLevel_loop _ _ _ _ _) as [ptrs' r]. destruct IH as [IH1 IH2].
    split; [done|]. rewrite IH2. split.
    + intros H l' f [->|Hl']%elem_of_cons Hf Hh; [|by apply (H l' f)].
      assert (false = true) by (apply Hheld; eauto). done.
    + intros H l' f Hl'. apply H. by right.
Qed.

(** The answers for a sequence of keys. *)
Fixpoint base_level_answers (c : Compaction) (keys : list bytes) : list bool :=
  match keys with
  | [] => []
  | k :: keys => let '(c, r) := IsBaseLevelForKey ucmp c k in r :: base_level_answers c keys
  end.

(** No file below the output level holds the key. *)
Definition base_level (c : Compaction) (k : bytes) : Prop :=
  forall l f, (c_level c + 2 <= l < kNumLevels)%nat -> f ∈ level_files (input_version_ c) l -> ~ holds_key k f.

Lemma base_level_answers_spec c keys :
  version_ok (input_version_ c) ->
  (forall k, head keys = Some k -> ptrs_ok (input_version_ c) k (level_ptrs_ c)) ->
  StronglySorted (fun a b => ucompare a b <> Gt) keys ->
  Forall2 (fun k r => r = true <-> base_level c k) keys (base_level_answers c keys).
Proof.
  intros Hv. revert c Hv. induction keys as [|k keys IH]; intros c Hv Hp Hs; cbn [base_level_answers]; [constructor|].
  inversion Hs as [|? ? Hs' Hk]; subst. unfold IsBaseLevelForKey.
  pose proof (IsBaseLevel_loop_spec (input_version_ c) k (seq (c_level c + 2) (kNumLevels - (c_level c + 2)))
    (level_ptrs_ c) Hv) as Hl.
  destruct (IsBaseLevel_loop _ _ _ _ _) as [ptrs r]. destruct Hl as [Hp' Hr].
  { apply list.Forall_forall. intros l Hl%elem_of_seq. lia. }
  { by apply Hp. }
  constructor.
  - rewrite Hr. unfold base_level. split; intros H l f Hl; apply H.
    + apply elem_of_seq. lia.
    + apply elem_of_seq in Hl. lia.
  - apply (IH (set_ptrs c ptrs)); [done| |done]. intros k' Hk'. cbn [set_ptrs input_version_ level_ptrs_].
    eapply ptrs_ok_mono; [|exact Hp']. destruct keys as [|k0 keys]; [done|]. injection Hk' as ->.
    by inversion Hk.
Qed.

(** *** Stopping an output file *)

Lemma ShouldStopBefore_bound c k :
  let '(c', stop) := ShouldStopBefore ucmp max_file_size c k in
  0 <= max_file_size -> overlapped_bytes_ c' <= MaxGrandParentOverlapBytes max_file_size.
Proof.
  unfold ShouldStopBefore. destruct (advance_grandparent _ _ _ _ _ _) as [i o]. cbn [overlapped_bytes_].
  intros H. destruct (o >? _) eqn:E; [unfold MaxGrandParentOverlapBytes, TargetFileSize; lia|].
  rewrite Z.gtb_ltb in E. boolprop. done.
Qed.
End Correct.

(** ** Properties *)

(** The compaction score is the right one.  [Finalize] keeps the files and
    records the score of a level that no other level exceeds, so a size
    compaction is due exactly when some level has reached its limit, and then
    the recorded level is one that has a next level. *)
Theorem finalize_maximal (v : Version) :
  let v' := Finalize v in
  files_ v' = files_ v /\
  (forall l, (l < kNumLevels - 1)%nat -> SFltb (compaction_score_ v') (level_score v l) = false) /\
  (score_reached (compaction_score_ v') = true <->
     exists l, (l < kNumLevels - 1)%nat /\ score_reached (level_score v l) = true) /\
  (score_reached (compaction_score_ v') = true ->
     exists l, (l < kNumLevels - 1)%nat /\ compaction_level_ v' = Z.of_nat l /\
       compaction_score_ v' = level_score v l).
Proof.
  cbn zeta. destruct (Finalize_spec v) as [Hf [Hn Hm Hl]]. cbn [snd] in Hn, Hm.
  assert (forall l, (l < kNumLevels - 1)%nat -> SFltb (compaction_score_ (Finalize v)) (level_score v l) = false) as Hmax
    by (intros l Hx; apply Hm, elem_of_seq; lia).
  assert (score_reached (compaction_score_ (Finalize v)) = true ->
     exists l, (l < kNumLevels - 1)%nat /\ compaction_level_ (Finalize v) = Z.of_nat l /\
       compaction_score_ (Finalize v) = level_score v l) as Hreal.
  { intros Hs. destruct Hl as [E|(l & Hx%elem_of_seq & E)].
    - apply (f_equal snd) in E. cbn [snd] in E. rewrite E in Hs. vm_compute in Hs. discriminate.
    - exists l. split; [lia|]. pose proof (f_equal fst E). by pose proof (f_equal snd E). }
  split; [done|]. split; [done|]. split; [|done]. split.
  - intros Hs. destruct (Hreal Hs) as (l & Hx & _ & E). exists l. split; [done|]. by rewrite <- E.
  - intros (l & Hx & Hs). eapply SFleb_not_less; [exact Hs|exact Hn|by apply Hmax].
Qed.

(** A flushed memtable goes where its data cannot be hidden.
    [PickLevelForMemTableOutput] always gives a level up to
    [kMaxMemCompactLevel]; when it is not level 0, no file of that level or of
    a level above it has keys in the memtable's range, so the new, newer entries
    are found before all older ones. *)
Theorem flush_level_safe ucmp `{!ComparatorLaws ucmp} (max_file_size : Z) (v : Version) (lo hi : bytes) :
  version_ok ucmp v ->
  exists r, PickLevelForMemTableOutput ucmp max_file_size v lo hi = Some r /\
    (r <= kMaxMemCompactLevel)%nat /\
    ((0 < r)%nat -> forall l, (l <= r)%nat -> ~ level_overlaps ucmp v lo hi l).
Proof. by apply PickLevel_spec. Qed.

(** C19: The inputs of a compaction are complete.  On a finalized version
    [PickCompaction] returns a compaction exactly when one is needed.  Its
    first inputs are files of its level, at level 0 every file that shares
    user keys with them is among them, its second inputs are exactly the files
    of the next level that overlap their range, and its grandparents are exactly
    the files of the level after that, if there is one, that overlap the range
    of all inputs; the compaction pointer is the end of the first inputs'
    range. *)
Theorem pick_compaction_complete ucmp `{!ComparatorLaws ucmp} (max_file_size : Z) (v0 : Version)
    (cp : list bytes) (garbage : bool) :
  let v := Finalize v0 in
  version_ok ucmp v -> seek_file_ok v ->
  if NeedsCompaction v
  then exists c, PickCompaction ucmp max_file_size v cp garbage =
      Some (Some (c, <[c_level c := snd (key_range ucmp (inputs0 c))]> cp)) /\ compaction_ok ucmp v c
  else PickCompaction ucmp max_file_size v cp garbage = Some None.
Proof. cbn zeta. by apply PickCompaction_spec. Qed.

(** [IsBaseLevelForKey] is exact for the increasing keys of a compaction,
    although it never looks back: with its level pointers at the start, the
    answer for every key of an ascending sequence is true just when no file
    two or more levels below the compaction holds the key in its range. *)
Theorem base_level_correct ucmp `{!ComparatorLaws ucmp} (c : Compaction) (keys : list bytes) :
  version_ok ucmp (input_version_ c) -> level_ptrs_ c = replicate kNumLevels 0%nat ->
  StronglySorted (fun a b => Compare ucmp a b <> Gt) keys ->
  Forall2 (fun k r => r = true <-> base_level ucmp c k) keys (base_level_answers ucmp c keys).
Proof.
  intros Hv Hp Hs. apply base_level_answers_spec; [done|done| |done]. intros k _. rewrite Hp.
  split; [done|]. intros l i f Hi. destruct (replicate kNumLevels 0%nat !! l) as [n|] eqn:E; [|cbn in Hi; lia].
  apply lookup_replicate in E as [-> _]. cbn in Hi. lia.
Qed.

(** A version with four files in level 0 and three in levels 1 and 3. *)
Definition sample_levels : Version :=
  mkVersion [sample_level0 ++ [sample_file 11 (str:"f") (str:"g")]; sample_level; [sample_file 12 (str:"f") (str:"g")]; sample_level; []; []; []]
    None (-1) (double_of (-1)) (-1).

Lemma sample_levels_ok : version_ok BytewiseComparator (Finalize sample_levels).
Proof.
  assert (forall n a b, Compare BytewiseComparator a b = Lt ->
    file_ok BytewiseComparator (sample_file n a b) /\ key_wf (largest (sample_file n a b))) as Hf.
  { intros n a b H. split; [|do 3 eexists; split; [reflexivity|split; vm_compute; discriminate]].
    unfold file_ok, sample_file. cbn [smallest largest FileMetaData_new].
    rewrite icmp_unfold, !ExtractUserKey_InternalKey, H. discriminate. }
  assert (disjoint_files BytewiseComparator []) as Hnil by (split; constructor).
  assert (disjoint_files BytewiseComparator [sample_file 12 (str:"f") (str:"g")]) as Hone.
  { split; [constructor; [by apply Hf|constructor]|repeat constructor]. }
  split.
  - by rewrite (proj1 (Finalize_spec sample_levels)).
  - intros l. rewrite level_files_Finalize. do 7 (destruct l as [|l]; [repeat (constructor; [apply Hf; vm_compute; reflexivity|]); constructor|]).
    constructor.
  - intros l Hl. rewrite level_files_Finalize. do 7 (destruct l as [|l]; [first [lia|exact sample_disjoint|exact Hone|exact Hnil]|]). exact Hnil.
  - intros l. rewrite level_files_Finalize.
    do 7 (destruct l as [|l]; [vm_compute; reflexivity|]). vm_compute. reflexivity.
Qed.

Lemma flush_level_safe_witness :
  exists r, PickLevelForMemTableOutput BytewiseComparator 2097152 (Finalize sample_levels) (str:"q") (str:"r") = Some r /\
    r = 2%nat /\ forall l, (l <= r)%nat -> ~ level_overlaps BytewiseComparator (Finalize sample_levels) (str:"q") (str:"r") l.
Proof.
  destruct (flush_level_safe BytewiseComparator 2097152 (Finalize sample_levels) (str:"q") (str:"r") sample_levels_ok)
    as (r & E & _ & H).
  exists r. assert (r = 2%nat) as -> by (vm_compute in E; congruence).
  split; [exact E|]. split; [reflexivity|]. apply H. lia.
Defined.

Lemma pick_compaction_complete_witness :
  NeedsCompaction (Finalize sample_levels) = true /\
  exists c cp, PickCompaction BytewiseComparator 2097152 (Finalize sample_levels) (replicate kNumLevels []) false =
      Some (Some (c, cp)) /\ map number (inputs0 c) = [7; 8; 11] /\ map number (inputs1 c) = [5] /\
    map number (grandparents_ c) = [12] /\
    compaction_ok BytewiseComparator (Finalize sample_levels) c.
Proof.
  split; [vm_compute; reflexivity|].
  pose proof (pick_compaction_complete BytewiseComparator 2097152 sample_levels (replicate kNumLevels []) false) as H.
  cbn zeta in H. specialize (H sample_levels_ok ltac:(intros f Hf; vm_compute in Hf; discriminate Hf)).
  replace (NeedsCompaction (Finalize sample_levels)) with true in H by (vm_compute; reflexivity).
  destruct H as (c & E & Hc). exists c. eexists. split; [exact E|].
  assert ((fun r => (map number (inputs0 (fst r)), map number (inputs1 (fst r)), map number (grandparents_ (fst r)))) <$>
    mjoin (PickCompaction BytewiseComparator 2097152 (Finalize sample_levels) (replicate kNumLevels []) false) =
    Some ([7; 8; 11], [5], [12])) as En by (vm_compute; reflexivity).
  rewrite E in En. cbn [mjoin option_join fmap option_fmap option_map fst] in En.
  split; [congruence|]. split; [congruence|]. split; [congruence|exact Hc].
Defined.

Lemma base_level_correct_witness :
  let c := Compaction_new 2097152 1 (Finalize sample_levels) false sample_level in
  base_level_answers BytewiseComparator c [str:"b"; str:"d"; str:"g"; str:"q"] = [false; true; false; true] /\
  Forall2 (fun k r => r = true <-> base_level BytewiseComparator c k) [str:"b"; str:"d"; str:"g"; str:"q"]
    (base_level_answers BytewiseComparator c [str:"b"; str:"d"; str:"g"; str:"q"]).
Proof.
  split; [vm_compute; reflexivity|].
  apply (base_level_correct BytewiseComparator); [exact sample_levels_ok|reflexivity|].
  repeat constructor; vm_compute; discriminate.
Defined.
