(* ===== verification/VersionGet.v ===== *)
(** * Reading from a version

    src/db/version_set.cc: [Version::Get] with [ForEachOverlapping] and
    [SaveValue], and the statistics that turn useless reads into compactions
    ([UpdateStats], [RecordReadSample]).

    The table cache is a parameter: [tc_Get] is [TableCache::Get] on a state of
    the cache.  What a version asks of it is the class [TableReads]. *)

From stdpp Require Import gmap sets sorting.
From S2P Require Import Prelude Slice Coding Comparator DbFormat WriteBatch Iterator SkipList MemTable Entries.
From S2P Require Import VersionEdit VersionFiles VersionBuilder.

(** [enum SaverState] *)
Module SaverState.
Inductive t := kNotFound | kFound | kDeleted | kCorrupt.
#[global] Instance eq_dec : EqDecision t.
Proof. solve_decision. Defined.
End SaverState.

(** [struct Saver]: [sv_value] is what was assigned to [*value]. *)
Record Saver := mkSaver { sv_state : SaverState.t; sv_user_key : bytes; sv_value : option bytes }.

(** [Version::GetStats] *)
Record GetStats := mkStats { seek_file : option FileMetaData; seek_file_level : Z }.

(** [std::sort] with [NewestFirst]: no file is followed by one with a larger
    number. *)
Definition NewestFirst (a b : FileMetaData) : Prop := number b <= number a.
#[export] Instance NewestFirst_dec : RelDecision NewestFirst.
Proof. intros a b. unfold NewestFirst. apply _. Defined.
Definition sort_newest (files : list FileMetaData) : list FileMetaData := merge_sort NewestFirst files.

Section Operations.
Context (ucmp : Comparator).
Abbreviation ucompare := (Compare ucmp).

(** [SaveValue] *)
Definition SaveValue (s : Saver) (ikey v : bytes) : Saver :=
  match ParseInternalKey ikey with
  | None => mkSaver SaverState.kCorrupt (sv_user_key s) (sv_value s)
  | Some parsed =>
      match ucompare (user_key parsed) (sv_user_key s) with
      | Eq => match type parsed with
              | kTypeValue => mkSaver SaverState.kFound (sv_user_key s) (Some v)
              | kTypeDeletion => mkSaver SaverState.kDeleted (sv_user_key s) (sv_value s)
              end
      | _ => s
      end
  end.

(** [Version::ForEachOverlapping]: [func] on a state [A]; its boolean result
    says whether to go on. *)
Section ForEach.
Context {A : Type} (func : A -> nat -> FileMetaData -> option (A * bool)).

(** The loop over the files of level 0. *)
Fixpoint each_file (files : list FileMetaData) (a : A) : option (A * bool) :=
  match files with
  | [] => Some (a, true)
  | f :: files => '(a, go) ← func a 0%nat f; if (go : bool) then each_file files a else Some (a, false)
  end.

(** The files of level 0 that may hold the user key. *)
Definition may_hold (ukey : bytes) (f : FileMetaData) : bool :=
  match ucompare ukey (small_user f) with
  | Lt => false
  | _ => match ucompare ukey (large_user f) with Gt => false | _ => true end
  end.

(** The loop over the other levels. *)
Fixpoint each_level (v : Version) (levels : list nat) (ukey ikey : bytes) (a : A) : option A :=
  match levels with
  | [] => Some a
  | level :: levels =>
      let files := level_files v level in
      if (length files =? 0)%nat then each_level v levels ukey ikey a
      else
        index ← FindFile ucmp files ikey;
        if index <? zlen files then
          f ← files !! Z.to_nat index;
          match ucompare ukey (small_user f) with
          | Lt => each_level v levels ukey ikey a
          | _ => '(a, go) ← func a level f;
                 if (go : bool) then each_level v levels ukey ikey a else Some a
          end
        else each_level v levels ukey ikey a
  end.

Definition ForEachOverlapping (v : Version) (ukey ikey : bytes) (a : A) : option A :=
  let tmp := List.filter (may_hold ukey) (level_files v 0) in
  '(a, go) ← each_file (sort_newest tmp) a;
  if (go : bool) then each_level v (seq 1 (kNumLevels - 1)) ukey ikey a else Some a.
End ForEach.

(** [TableCache::Get]: the cache, the status and the entry handed to the
    callback, if any. *)
Context {TC : Type} (tc_Get : TC -> Z -> Z -> bytes -> option (TC * Status * option (bytes * bytes))).

(** [State] of [Version::Get] *)
Record GetState := mkGetState {
  gs_tc : TC; gs_saver : Saver; gs_ikey : bytes; gs_stats : GetStats;
  last_file_read : option FileMetaData; last_file_read_level : Z; gs_s : Status; gs_found : bool }.

(** [State::Match] *)
Definition Match (st : GetState) (level : nat) (f : FileMetaData) : option (GetState * bool) :=
  let stats :=
    match seek_file (gs_stats st), last_file_read st with
    | None, Some g => mkStats (Some g) (last_file_read_level st)
    | _, _ => gs_stats st
    end in
  '(tc, s, res) ← tc_Get (gs_tc st) (number f) (file_size f) (gs_ikey st);
  let saver := match res with Some kv => SaveValue (gs_saver st) (fst kv) (snd kv) | None => gs_saver st end in
  let next s found := mkGetState tc saver (gs_ikey st) stats (Some f) (Z.of_nat level) s found in
  if negb (ok s) then Some (next s true, false)
  else match sv_state saver with
       | SaverState.kNotFound => Some (next s (gs_found st), true)
       | SaverState.kFound => Some (next s true, false)
       | SaverState.kDeleted => Some (next s (gs_found st), false)
       | SaverState.kCorrupt =>
           Some (next (Corruption2 (str:"corrupted key for ") (sv_user_key saver)) true, false)
       end.

(** [Version::Get]: the cache, the status, the value assigned and the
    statistics. *)
Definition Version_Get (v : Version) (tc : TC) (k : LookupKey)
    : option (TC * Status * option bytes * GetStats) :=
  let saver := mkSaver SaverState.kNotFound (lk_user_key k) None in
  let st := mkGetState tc saver (lk_internal_key k) (mkStats None (-1)) None (-1) Status_OK false in
  st ← ForEachOverlapping Match v (lk_user_key k) (lk_internal_key k) st;
  Some (gs_tc st, if gs_found st then gs_s st else NotFound [], sv_value (gs_saver st), gs_stats st).

(** The [allowed_seeks] of the files, which all versions share: a file that is
    not in the map has those of its record. *)
Definition Seeks := gmap Z Z.
Definition seeks_of (seeks : Seeks) (f : FileMetaData) : Z := default (allowed_seeks f) (seeks !! number f).

(** [Version::UpdateStats] *)
Definition UpdateStats (v : Version) (seeks : Seeks) (stats : GetStats) : Version * Seeks * bool :=
  match seek_file stats with
  | None => (v, seeks, false)
  | Some f =>
      let n := s32 (seeks_of seeks f - 1) in
      let seeks := <[number f := n]> seeks in
      match n <=? 0, file_to_compact_ v with
      | true, None =>
          (mkVersion (files_ v) (Some f) (seek_file_level stats) (compaction_score_ v) (compaction_level_ v),
           seeks, true)
      | _, _ => (v, seeks, false)
      end
  end.

(** [State::Match] of [RecordReadSample]: the count and the first file. *)
Definition sample_match (st : GetStats * Z) (level : nat) (f : FileMetaData) : option (GetStats * Z * bool) :=
  let matches := snd st + 1 in
  let stats := if matches =? 1 then mkStats (Some f) (Z.of_nat level) else fst st in
  Some (stats, matches, matches <? 2).

(** [Version::RecordReadSample] *)
Definition RecordReadSample (v : Version) (seeks : Seeks) (internal_key : bytes) : option (Version * Seeks * bool) :=
  match ParseInternalKey internal_key with
  | None => Some (v, seeks, false)
  | Some ikey =>
      '(stats, matches) ← ForEachOverlapping sample_match v (user_key ikey) internal_key (mkStats None 0, 0);
      Some (if matches >=? 2 then UpdateStats v seeks stats else (v, seeks, false))
  end.
End Operations.

(** ** Proofs *)

(** Keys that compare equal are equal, as for [BytewiseComparator]. *)
Class ExactComparator (c : Comparator) : Prop := exact_compare : forall a b, Compare c a b = Eq -> a = b.

#[export] Instance bytewise_exact : ExactComparator BytewiseComparator.
Proof. intros a b. apply Slice_compare_eq. Qed.

(** What [Version::Get] asks of the table cache: for a table file it hands over
    the first entry that is not before the lookup key, or nothing; it does hand
    it over when the entry is one of the user key. *)
Class TableReads (ucmp : Comparator) {TC : Type}
    (tc_Get : TC -> Z -> Z -> bytes -> option (TC * Status * option (bytes * bytes)))
    (tc_ok : TC -> Prop) (is_table : FileMetaData -> Prop) (contents : Z -> list Entry) : Prop :=
  table_get : forall tc f u s, tc_ok tc -> is_table f ->
    exists tc' res, tc_Get tc (number f) (file_size f) (seek_key u s) = Some (tc', Status_OK, res) /\ tc_ok tc' /\
      (res = None \/ res = entry_kv <$> seek_entry_pos ucmp (contents (number f)) u s) /\
      (forall e, seek_entry_pos ucmp (contents (number f)) u s = Some e -> e_key e = u -> res = Some (entry_kv e)).

Section Correct.
Context (ucmp : Comparator) `{!ComparatorLaws ucmp} `{!ExactComparator ucmp}.
Abbreviation ucompare := (Compare ucmp).
Abbreviation icompare := (InternalKeyComparator.Compare ucmp).
Context {TC : Type} (tc_Get : TC -> Z -> Z -> bytes -> option (TC * Status * option (bytes * bytes))).
Context (tc_ok : TC -> Prop) (is_table : FileMetaData -> Prop) (contents : Z -> list Entry).
Context `{!TableReads ucmp tc_Get tc_ok is_table contents}.

Definition file_entries (f : FileMetaData) : list Entry := contents (number f).

(** A file holds entries between its smallest and its largest key. *)
Record file_holds (f : FileMetaData) : Prop := {
  fh_table : is_table f;
  fh_ok : Forall entry_ok (file_entries f);
  fh_sorted : es_sorted ucmp (file_entries f);
  fh_distinct : NoDup (map e_seq (file_entries f));
  fh_range : forall e, e ∈ file_entries f ->
    icompare (smallest f) (entry_ikey e) <> Gt /\ icompare (entry_ikey e) (largest f) <> Gt;
  fh_largest : exists e, e ∈ file_entries f /\ largest f = entry_ikey e }.

Context (u : bytes) (s : Z) (Hs : 0 <= s <= kMaxSequenceNumber).
Abbreviation newest es := (newest ucmp es u s).
Abbreviation GetState := (@GetState TC).

(** *** One file *)

(** The state of a read whose sources so far gave [r]. *)
Definition answered (st : GetState) (r : option Entry) : Prop :=
  tc_ok (gs_tc st) /\
  match r with
  | None => gs_saver st = mkSaver SaverState.kNotFound u None /\ gs_ikey st = seek_key u s /\ gs_found st = false
  | Some e =>
      match e_type e with
      | kTypeValue => gs_found st = true /\ gs_s st = Status_OK /\ sv_value (gs_saver st) = Some (e_value e)
      | kTypeDeletion => gs_found st = false /\ sv_value (gs_saver st) = None
      end
  end.

Lemma Match_spec st level f :
  answered st None -> file_holds f ->
  exists st' go, Match ucmp tc_Get st level f = Some (st', go) /\ answered st' (newest (file_entries f)) /\
    go = match newest (file_entries f) with None => true | Some _ => false end.
Proof.
  intros (Hok & Hsv & Hik & Hfound) Hf. unfold Match. rewrite Hik.
  destruct (table_get _ f u s Hok (fh_table f Hf)) as (tc' & res & -> & Hok' & Hres & Hhit).
  fold (file_entries f) in Hres, Hhit. cbn [mbind option_bind]. change (ok Status_OK) with true. cbn [negb].
  rewrite (source_lookup ucmp (file_entries f) u s) by (apply Hf || done). rewrite Hsv.
  pose proof (list.Forall_forall entry_ok (file_entries f)) as [Hall _]. specialize (Hall (fh_ok f Hf)).
  destruct (seek_entry_pos ucmp (file_entries f) u s) as [e|] eqn:E; cbn [fmap option_fmap option_map] in Hres.
  2:{ destruct Hres as [->| ->]; do 2 eexists; by repeat split. }
  assert (e ∈ file_entries f) as He by (by eapply list_elem_of_lookup_2).
  assert (0 <= e_seq e <= kMaxSequenceNumber) as Hseq by apply (Hall e He).
  destruct (ucompare (e_key e) u) eqn:Eu.
  - rewrite (Hhit e eq_refl (exact_compare _ _ Eu)). unfold SaveValue. cbn [entry_kv fst snd sv_user_key].
    rewrite (ParseInternalKey_entry e Hseq). cbn [user_key type]. rewrite Eu.
    destruct (e_type e) eqn:Et; cbn [sv_state]; do 2 eexists; (split; [done|]); (split; [|done]);
      (split; [done|]); rewrite Et; by cbn.
  - destruct Hres as [->| ->]; [do 2 eexists; by repeat split|]. unfold SaveValue. cbn [entry_kv fst snd sv_user_key].
    rewrite (ParseInternalKey_entry e Hseq). cbn [user_key]. rewrite Eu. do 2 eexists; by repeat split.
  - destruct Hres as [->| ->]; [do 2 eexists; by repeat split|]. unfold SaveValue. cbn [entry_kv fst snd sv_user_key].
    rewrite (ParseInternalKey_entry e Hseq). cbn [user_key]. rewrite Eu. do 2 eexists; by repeat split.
Qed.

(** *** Level 0 *)

Lemma each_file_spec fs st :
  answered st None -> Forall file_holds fs ->
  let r := read_sources ucmp (map file_entries fs) u s in
  exists st', each_file (Match ucmp tc_Get) fs st = Some (st', match r with None => true | Some _ => false end) /\
    answered st' r.
Proof.
  intros Ha Hfs. revert st Ha. induction Hfs as [|f fs Hf Hfs IH]; intros st Ha; cbn [each_file map read_sources].
  { by exists st. }
  destruct (Match_spec st 0 f Ha Hf) as (st1 & go & -> & Ha1 & ->). cbn [mbind option_bind].
  destruct (newest (file_entries f)) as [e|]; [by exists st1|]. by apply IH.
Qed.

(** A file whose range does not hold the user key has nothing visible. *)
Lemma not_may_hold f : file_holds f -> may_hold ucmp u f = false -> newest (file_entries f) = None.
Proof.
  intros Hf Hm. apply newest_none, list.Forall_forall. intros e He. apply not_true_iff_false.
  intros [Hu _]%(visible_spec ucmp).
  destruct (fh_range f Hf e He) as [H1%(icmp_le_user ucmp) H2%(icmp_le_user ucmp)].
  rewrite ExtractUserKey_entry in H1, H2. rewrite (cmp_eq_r ucompare _ _ _ Hu) in H1.
  rewrite (cmp_eq_l ucompare _ _ _ Hu) in H2. unfold may_hold in Hm.
  unfold small_user, large_user in Hm.
  apply (cmp_le_ge ucompare) in H1. destruct (ucompare u (ExtractUserKey (smallest f))); try done;
    by destruct (ucompare u (ExtractUserKey (largest f))).
Qed.

Lemma read_sources_filter fs :
  Forall file_holds fs ->
  read_sources ucmp (map file_entries (filter (fun f => may_hold ucmp u f = true) fs)) u s =
  read_sources ucmp (map file_entries fs) u s.
Proof.
  induction 1 as [|f fs Hf Hfs IH]; [done|]. rewrite filter_cons. cbn [map read_sources].
  destruct (decide _) as [Hm|Hm]; cbn [map read_sources]; [by rewrite IH|].
  apply not_true_iff_false in Hm. by rewrite (not_may_hold f Hf Hm), IH.
Qed.
Lemma list_filter_bool {A} (p : A -> bool) l : List.filter p l = filter (fun x => p x = true) l.
Proof.
  induction l as [|x l IH]; cbn [List.filter]; [done|]. rewrite filter_cons, IH.
  destruct (p x); by destruct (decide _).
Qed.

Lemma sort_newest_perm fs : sort_newest fs ≡ₚ fs.
Proof. apply merge_sort_Permutation. Qed.

Lemma sort_newest_sorted fs : StronglySorted NewestFirst (sort_newest fs).
Proof.
  apply StronglySorted_merge_sort.
  - intros a b c. unfold NewestFirst. lia.
  - intros a b. unfold NewestFirst. lia.
Qed.

Lemma StronglySorted_filter {A} (R : A -> A -> Prop) (P : A -> Prop) `{!forall x, Decision (P x)} l :
  StronglySorted R l -> StronglySorted R (filter P l).
Proof.
  induction 1 as [|x l Hsort IH Hx]; [constructor|]. rewrite filter_cons. destruct (decide _); [|done].
  constructor; [done|]. apply list.Forall_forall. intros y [_ Hy]%list_elem_of_filter.
  by eapply (proj1 (list.Forall_forall _ _) Hx).
Qed.

Lemma NoDup_numbers_inj fs f g : NoDup (map number fs) -> f ∈ fs -> g ∈ fs -> number f = number g -> f = g.
Proof.
  intros Hnd [i Hi]%list_elem_of_lookup [j Hj]%list_elem_of_lookup E.
  assert (i = j) as ->; [|congruence].
  eapply NoDup_lookup; [exact Hnd| |]; rewrite list_lookup_fmap; [by rewrite Hi|]. rewrite Hj. cbn. by rewrite E.
Qed.

(** Sorting the files that may hold the key is filtering the sorted files. *)
Lemma sort_newest_filter (P : FileMetaData -> Prop) `{!forall x, Decision (P x)} fs :
  NoDup (map number fs) -> sort_newest (filter P fs) = filter P (sort_newest fs).
Proof.
  intros Hnd. apply StronglySorted_unique_strong with NewestFirst.
  - intros x y Hx Hy H1 H2. rewrite sort_newest_perm in Hx.
    apply list_elem_of_filter in Hx as [_ Hx]. apply list_elem_of_filter in Hy as [_ Hy].
    rewrite sort_newest_perm in Hy. apply (NoDup_numbers_inj fs); [done..|]. unfold NewestFirst in *. lia.
  - apply sort_newest_sorted.
  - apply StronglySorted_filter, sort_newest_sorted.
  - by rewrite sort_newest_perm, sort_newest_perm.
Qed.

(** *** A level of disjoint files *)

Definition level_entries (files : list FileMetaData) : list Entry := concat (map file_entries files).

Lemma level_entries_elem files e : e ∈ level_entries files <-> exists f, f ∈ files /\ e ∈ file_entries f.
Proof.
  unfold level_entries. etrans; [apply list_elem_of_In|]. rewrite in_concat. split.
  - intros (es & (f & <- & Hf)%in_map_iff & He). exists f. split; by apply list_elem_of_In.
  - intros (f & Hf%list_elem_of_In & He%list_elem_of_In). exists (file_entries f). split; [by apply in_map|done].
Qed.

Lemma level_entries_sorted files :
  disjoint_files ucmp files -> Forall file_holds files -> es_sorted ucmp (level_entries files).
Proof.
  intros [_ Hd] Hf. induction Hd as [|f files Hd IH Hfd]; cbn; [constructor|].
  inversion_clear Hf as [|? ? Hff Hfs]. unfold level_entries. cbn [map concat].
  apply StronglySorted_app. split; [|split; [apply Hff|by apply IH]].
  intros e1 e2 H1 H2. apply level_entries_elem in H2 as (g & Hg & H2).
  pose proof (proj1 (list.Forall_forall _ _) Hfd g Hg) as Hlt. cbn beta in Hlt.
  destruct (fh_range f Hff e1 H1) as [_ Hle1].
  destruct (fh_range g (proj1 (list.Forall_forall _ _) Hfs g Hg) e2 H2) as [Hle2 _].
  eapply (cmp_lt_le_trans icompare); [|exact Hle2]. by eapply (cmp_le_lt_trans icompare).
Qed.

(** The file that [FindFile] gives has the first entry that is not before the
    lookup key. *)
Lemma level_seek files :
  Forall file_holds files ->
  seek_entry_pos ucmp (level_entries files) u s =
  f ← files !! seek_pos icompare (seek_key u s) (map largest files);
  seek_entry_pos ucmp (file_entries f) u s.
Proof.
  unfold seek_entry_pos. induction 1 as [|f files Hf Hfs IH]; [done|].
  unfold level_entries. cbn [map concat seek_pos]. fold (level_entries files). rewrite map_app.
  destruct (icompare (largest f) (seek_key u s)) eqn:E.
  2:{ rewrite seek_pos_app_below; [|].
      - rewrite length_map. rewrite lookup_app_r by lia.
        replace (_ + _ - _)%nat with (seek_pos icompare (seek_key u s) (map entry_ikey (level_entries files))) by lia.
        rewrite IH. done.
      - apply list.Forall_fmap, list.Forall_forall. intros e He. cbn.
        eapply (cmp_le_lt_trans icompare); [by apply (fh_range f Hf)|done]. }
  all: assert (seek_pos icompare (seek_key u s) (map entry_ikey (file_entries f)) < length (file_entries f))%nat as Hlt
    by (destruct (fh_largest f Hf) as (e & [i Hi]%list_elem_of_lookup & El);
        rewrite <- (length_map entry_ikey);
        destruct (decide (seek_pos icompare (seek_key u s) (map entry_ikey (file_entries f)) <= i)%nat) as [Hle|Hgt];
        [apply lookup_lt_Some in Hi; rewrite length_map; lia|];
        exfalso; pose proof (seek_pos_before icompare (seek_key u s) (map entry_ikey (file_entries f)) i (entry_ikey e)
          ltac:(lia) ltac:(by rewrite list_lookup_fmap, Hi)) as Hb; rewrite <- El in Hb; congruence).
  all: cbn [lookup list_lookup mbind option_bind];
    replace (seek_pos icompare (seek_key u s) (map entry_ikey (file_entries f) ++ map entry_ikey (level_entries files)))
      with (seek_pos icompare (seek_key u s) (map entry_ikey (file_entries f)));
    [by rewrite lookup_app_l|]; symmetry; apply seek_pos_eq;
    [rewrite length_app, !length_map; lia|intros j x Hj Hx; rewrite lookup_app_l in Hx by (rewrite length_map; lia); by eapply seek_pos_before
    |intros x Hx; rewrite lookup_app_l in Hx by (rewrite length_map; lia); by eapply seek_pos_at].
Qed.
(** The sources of a version in the order in which they are asked. *)
Definition version_sources (v : Version) : list (list Entry) :=
  map file_entries (sort_newest (level_files v 0)) ++
  map (fun l => level_entries (level_files v l)) (seq 1 (kNumLevels - 1)).

(** A version that a read can trust: the files hold entries, the files of a
    level above 0 are disjoint, and what is asked first is newer. *)
Record version_holds (v : Version) : Prop := {
  vh_files : forall l, Forall file_holds (level_files v l);
  vh_numbers : NoDup (map number (level_files v 0));
  vh_disjoint : forall l, (0 < l)%nat -> disjoint_files ucmp (level_files v l) /\ zlen (level_files v l) < 2 ^ 31;
  vh_ordered : sources_ordered ucmp (version_sources v) }.

Lemma NoDup_source (srcs : list (list Entry)) es :
  NoDup (map e_seq (concat srcs)) -> es ∈ srcs -> NoDup (map e_seq es).
Proof.
  induction srcs as [|x srcs IH]; [set_solver|]. cbn [concat]. rewrite map_app. intros (H1 & _ & H2)%list.NoDup_app.
  intros [->|Hes]%elem_of_cons; auto.
Qed.

Lemma level_newest v l :
  version_holds v -> (0 < l < kNumLevels)%nat ->
  newest (level_entries (level_files v l)) =
  f ← level_files v l !! seek_pos icompare (seek_key u s) (map largest (level_files v l)); newest (file_entries f).
Proof.
  intros Hv Hl. destruct (vh_disjoint v Hv l ltac:(lia)) as [Hd Hlen].
  pose proof (vh_files v Hv l) as Hf.
  rewrite (source_lookup ucmp (level_entries (level_files v l)) u s); [|by apply level_entries_sorted| | |done].
  2:{ apply list.Forall_forall. intros e (f & Hff & He)%level_entries_elem.
      pose proof (proj1 (list.Forall_forall _ _) Hf f Hff) as Hfh.
      by apply (proj1 (list.Forall_forall _ _) (fh_ok f Hfh)). }
  2:{ eapply NoDup_source; [apply (vh_ordered v Hv)|]. apply elem_of_app. right.
      apply list_elem_of_fmap. exists l. split; [done|]. apply elem_of_seq. lia. }
  rewrite level_seek by done. destruct (_ !! _) as [f|] eqn:E; cbn [mbind option_bind]; [|done].
  pose proof (proj1 (Forall_lookup _ _) Hf _ _ E) as Hfh.
  by rewrite (source_lookup ucmp (file_entries f) u s) by (apply Hfh || done).
Qed.

Lemma each_level_spec v levels st :
  version_holds v -> Forall (fun l => (0 < l < kNumLevels)%nat) levels -> answered st None ->
  exists st', each_level ucmp (Match ucmp tc_Get) v levels u (seek_key u s) st = Some st' /\
    answered st' (read_sources ucmp (map (fun l => level_entries (level_files v l)) levels) u s).
Proof.
  intros Hv Hl. revert st. induction Hl as [|l levels Hl Hls IH]; intros st Ha; cbn [each_level map read_sources].
  { by exists st. }
  rewrite (level_newest v l Hv Hl).
  destruct (vh_disjoint v Hv l ltac:(lia)) as [Hd Hlen]. pose proof (vh_files v Hv l) as Hf.
  destruct (length (level_files v l) =? 0)%nat eqn:E0.
  { apply Nat.eqb_eq, length_zero_iff_nil in E0. rewrite E0. cbn. by apply IH. }
  rewrite FindFile_spec by done. cbn [mbind option_bind]. rewrite Nat2Z.id.
  destruct (level_files v l !! _) as [f|] eqn:E; cbn [mbind option_bind].
  2:{ apply lookup_ge_None in E. rewrite (proj2 (Z.ltb_ge _ _)) by lia. by apply IH. }
  rewrite (proj2 (Z.ltb_lt _ _)) by (apply lookup_lt_Some in E; lia).
  pose proof (proj1 (Forall_lookup _ _) Hf _ _ E) as Hfh.
  destruct (ucompare u (small_user f)) eqn:Eu.
  2:{ rewrite (not_may_hold f Hfh); [by apply IH|]. unfold may_hold. by rewrite Eu. }
  all: destruct (Match_spec st l f Ha Hfh) as (st1 & go & -> & Ha1 & ->); cbn [mbind option_bind];
    destruct (newest (file_entries f)) as [e|]; [by exists st1|by apply IH].
Qed.

Lemma ForEachOverlapping_spec v st :
  version_holds v -> answered st None ->
  exists st', ForEachOverlapping ucmp (Match ucmp tc_Get) v u (seek_key u s) st = Some st' /\
    answered st' (newest (concat (version_sources v))).
Proof.
  intros Hv Ha. rewrite <- (read_sources_newest ucmp) by apply Hv. unfold version_sources. rewrite read_sources_app.
  unfold ForEachOverlapping. rewrite list_filter_bool, sort_newest_filter by apply Hv.
  assert (Forall file_holds (sort_newest (level_files v 0))) as Hf0.
  { apply list.Forall_forall. intros f Hf. rewrite sort_newest_perm in Hf.
    by eapply (proj1 (list.Forall_forall _ _) (vh_files v Hv 0)). }
  destruct (each_file_spec (filter (fun f => may_hold ucmp u f = true) (sort_newest (level_files v 0))) st Ha)
    as (st1 & -> & Ha1).
  { apply list.Forall_forall. intros f [_ Hf]%list_elem_of_filter. by eapply (proj1 (list.Forall_forall _ _) Hf0). }
  cbn [mbind option_bind]. rewrite read_sources_filter in Ha1 |- * by done.
  destruct (read_sources ucmp (map file_entries _) u s) as [e|]; [by exists st1|].
  apply each_level_spec; [done| |done]. apply list.Forall_forall. intros l Hl%elem_of_seq. unfold kNumLevels in *. lia.
Qed.

Lemma Version_Get_spec v tc :
  version_holds v -> tc_ok tc ->
  exists tc' stats, tc_ok tc' /\ Version_Get ucmp tc_Get v tc (LookupKey_new u s) =
    Some match newest (concat (version_sources v)) with
         | Some e => match e_type e with
                     | kTypeValue => (tc', Status_OK, Some (e_value e), stats)
                     | kTypeDeletion => (tc', NotFound [], None, stats)
                     end
         | None => (tc', NotFound [], None, stats)
         end.
Proof.
  intros Hv Htc. unfold Version_Get. rewrite lk_user_key_new, lk_internal_key_new.
  destruct (ForEachOverlapping_spec v (mkGetState tc (mkSaver SaverState.kNotFound u None) (seek_key u s)
    (mkStats None (-1)) None (-1) Status_OK false) Hv) as (st' & E & Hok & Hans); [done|].
  fold (seek_key u s). rewrite E. cbn [mbind option_bind]. exists (gs_tc st'), (gs_stats st'). split; [done|].
  destruct (newest _) as [e|].
  - destruct (e_type e); [destruct Hans as (-> & ->)|destruct Hans as (-> & -> & ->)]; done.
  - destruct Hans as (-> & _ & ->). done.
Qed.
End Correct.
