(* ===== verification/CompactedVersion.v ===== *)
(** * A version after a compaction

    What replacing the input files of a compaction by its outputs does to a
    version: the specification that [DoCompactionWork] (src/db/db_impl.cc) and the
    edit of [InstallCompactionResults] meet.  [Compacted] relates the versions
    before and after; [compacted_holds] says that the new one can be trusted, and
    [compacted_reads] that no reader from the oldest snapshot on finds another
    value in it. *)

From stdpp Require Import gmap sets sorting.
From S2P Require Import Prelude Slice Coding Comparator DbFormat WriteBatch Iterator SkipList MemTable Entries View Prune.
From S2P Require Import VersionEdit VersionFiles VersionBuilder Compaction VersionGet.

(** ** Levels as sources *)

Section Sources.
Context (ucmp : Comparator) `{!ComparatorLaws ucmp} (contents : Z -> list Entry).
Abbreviation ucompare := (Compare ucmp).
Abbreviation file_entries := (file_entries contents).
Abbreviation level_entries := (level_entries contents).
Implicit Types (v : Version) (f g : FileMetaData) (l : nat).

(** What is asked first is newer, file by file. *)
Record files_ordered v : Prop := {
  fo_level0 : forall f g, f ∈ level_files v 0 -> g ∈ level_files v 0 -> number g < number f -> newer ucmp (file_entries f) (file_entries g);
  fo_levels : forall l l' f g, (l < l' < kNumLevels)%nat -> f ∈ level_files v l -> g ∈ level_files v l' ->
    newer ucmp (file_entries f) (file_entries g) }.

(** All the entries, level by level. *)
Definition all_entries v : list Entry := concat (map (fun l => level_entries (level_files v l)) (seq 0 kNumLevels)).

Lemma level_entries_perm fs fs' : fs ≡ₚ fs' -> level_entries fs ≡ₚ level_entries fs'.
Proof using Type. unfold VersionGet.level_entries. intros H. by rewrite H. Qed.

Lemma version_sources_entries v : concat (version_sources contents v) ≡ₚ all_entries v.
Proof using Type.
  unfold version_sources, all_entries. rewrite List.concat_app. change (seq 0 kNumLevels) with (0%nat :: seq 1 (kNumLevels - 1)).
  cbn [map concat]. f_equiv. apply level_entries_perm, sort_newest_perm.
Qed.

Lemma all_entries_elem v e : e ∈ all_entries v <-> exists l f, (l < kNumLevels)%nat /\ f ∈ level_files v l /\ e ∈ file_entries f.
Proof using Type.
  unfold all_entries. etrans; [apply list_elem_of_In|]. rewrite in_concat. split.
  - intros (es & (l & <- & Hl%list_elem_of_In%elem_of_seq)%in_map_iff & (f & Hf & He)%list_elem_of_In%level_entries_elem).
    exists l, f. split; [lia|done].
  - intros (l & f & Hl & Hf & He). exists (level_entries (level_files v l)). split.
    + apply in_map_iff. exists l. split; [done|]. apply list_elem_of_In, elem_of_seq. lia.
    + apply list_elem_of_In, level_entries_elem. by exists f.
Qed.

Lemma newer_level es fs : newer ucmp es (level_entries fs) <-> forall f, f ∈ fs -> newer ucmp es (file_entries f).
Proof using Type.
  split; intros H.
  - intros f Hf e1 e2 H1 H2. apply H; [done|]. apply level_entries_elem. by exists f.
  - intros e1 e2 H1 (f & Hf & H2)%level_entries_elem. by apply (H f).
Qed.

Lemma level_newer fs es : newer ucmp (level_entries fs) es <-> forall f, f ∈ fs -> newer ucmp (file_entries f) es.
Proof using Type.
  split; intros H.
  - intros f Hf e1 e2 H1 H2. apply H; [|done]. apply level_entries_elem. by exists f.
  - intros e1 e2 (f & Hf & H1)%level_entries_elem H2. by apply (H f).
Qed.

(** Two elements of a strongly sorted list. *)
Lemma StronglySorted_elem {A} (R : A -> A -> Prop) (xs : list A) x y :
  StronglySorted R xs -> x ∈ xs -> y ∈ xs -> x = y \/ R x y \/ R y x.
Proof using Type.
  induction 1 as [|a xs Hs IH Ha]; [by intros ?%not_elem_of_nil|]. rewrite list.Forall_forall in Ha.
  intros [->|Hx]%elem_of_cons [->|Hy]%elem_of_cons; eauto.
Qed.

Lemma StronglySorted_map {A B} (R : B -> B -> Prop) (h : A -> B) xs :
  StronglySorted R (map h xs) <-> StronglySorted (fun x y => R (h x) (h y)) xs.
Proof using Type.
  induction xs as [|x xs IH]; cbn [map]; [split; constructor|].
  split; intros [Hs Hx]%StronglySorted_inv; constructor; try by apply IH.
  - exact (proj1 (list.Forall_fmap h (R (h x)) xs) Hx).
  - exact (proj2 (list.Forall_fmap h (R (h x)) xs) Hx).
Qed.

Lemma StronglySorted_impl_elem {A} (R R' : A -> A -> Prop) xs :
  (forall x y, x ∈ xs -> y ∈ xs -> R x y -> R' x y) -> StronglySorted R xs -> StronglySorted R' xs.
Proof using Type.
  intros H. induction 1 as [|x xs Hs IH Hx]; constructor.
  - apply IH. intros a b Ha Hb. apply H; by right.
  - rewrite list.Forall_forall in Hx |- *. intros y Hy. apply H; [by left|by right|by apply Hx].
Qed.

Lemma seq_sorted_lt a n : StronglySorted lt (seq a n).
Proof using Type.
  revert a. induction n as [|n IH]; intros a; cbn [seq]; constructor; [apply IH|].
  apply list.Forall_forall. intros x Hx%elem_of_seq. lia.
Qed.

Lemma files_ordered_sources v :
  NoDup (map number (level_files v 0)) -> files_ordered v <-> StronglySorted (newer ucmp) (version_sources contents v).
Proof using Type.
  intros Hnd. unfold version_sources. rewrite StronglySorted_app. split.
  - intros [H0 Hl]. split; [|split].
    + intros es1 es2 (f & -> & Hf)%list_elem_of_fmap (l & -> & Hx%elem_of_seq)%list_elem_of_fmap.
      rewrite sort_newest_perm in Hf. apply newer_level. intros g Hg. apply (Hl 0%nat l); [lia|done|done].
    + apply StronglySorted_map. assert (NoDup (map number (sort_newest (level_files v 0)))) as Hnd' by (by rewrite sort_newest_perm).
      assert (forall f, f ∈ sort_newest (level_files v 0) -> f ∈ level_files v 0) as Hin by (intros f; by rewrite sort_newest_perm).
      pose proof (sort_newest_sorted (level_files v 0)) as Hs. revert Hnd' Hin. induction Hs as [|f fs Hs IH Hf]; intros Hnd' Hin; constructor.
      * apply IH; [cbn in Hnd'; by apply list.NoDup_cons in Hnd' as [_ ?]|]. intros g Hg. apply Hin. by right.
      * rewrite list.Forall_forall in Hf |- *. intros g Hg. apply H0; [apply Hin; by left|apply Hin; by right|].
        specialize (Hf g Hg). unfold NewestFirst in Hf. cbn in Hnd'. apply list.NoDup_cons in Hnd' as [Hn _].
        assert (number f <> number g); [|lia]. intros Eq. apply Hn. rewrite Eq. by apply list_elem_of_fmap_2.
    + apply StronglySorted_map. eapply StronglySorted_impl_elem; [|apply seq_sorted_lt].
      intros l l' Hx%elem_of_seq Hx'%elem_of_seq Hlt. apply level_newer. intros f Hf. apply newer_level. intros g Hg.
      apply (Hl l l'); [lia|done|done].
  - intros (H1 & H2 & H3). split.
    + intros f g Hf Hg Hlt. apply (proj1 (StronglySorted_map (newer ucmp) file_entries _)) in H2.
      rewrite <- sort_newest_perm in Hf, Hg.
      pose proof (sort_newest_sorted (level_files v 0)) as Hs.
      assert (StronglySorted (fun x y => newer ucmp (file_entries x) (file_entries y) /\ NewestFirst x y) (sort_newest (level_files v 0))) as Hb.
      { revert H2. clear -Hs. induction Hs as [|x xs Hs IH Hx]; intros H2; constructor.
        - apply IH. by apply StronglySorted_inv in H2 as [? _].
        - apply StronglySorted_inv in H2 as [_ H2]. rewrite list.Forall_forall in H2, Hx |- *. auto. }
      destruct (StronglySorted_elem _ _ f g Hb Hf Hg) as [->|[[Hn _]|[_ Hn]]]; [lia|done|]. unfold NewestFirst in Hn. lia.
    + intros l l' f g Hl Hf Hg. destruct l as [|l].
      * assert (newer ucmp (file_entries f) (level_entries (level_files v l'))) as Hn; [|by apply newer_level with (fs := level_files v l')].
        apply H1; [apply list_elem_of_fmap_2; by rewrite sort_newest_perm|].
        apply (list_elem_of_fmap_2 (fun l => level_entries (level_files v l))), elem_of_seq. lia.
      * apply (proj1 (StronglySorted_map (newer ucmp) (fun l => level_entries (level_files v l)) _)) in H3.
        assert (StronglySorted (fun x y => newer ucmp (level_entries (level_files v x)) (level_entries (level_files v y)) /\ (x < y)%nat)
          (seq 1 (kNumLevels - 1))) as Hb.
        { pose proof (seq_sorted_lt 1 (kNumLevels - 1)) as Hs. revert H3. clear -Hs. induction Hs as [|x xs Hs IH Hx]; intros H3; constructor.
          - apply IH. by apply StronglySorted_inv in H3 as [? _].
          - apply StronglySorted_inv in H3 as [_ H3]. rewrite list.Forall_forall in H3, Hx |- *. auto. }
        destruct (StronglySorted_elem _ _ (S l) l' Hb) as [|[[Hn _]|[_ Hn]]]; [apply elem_of_seq; lia|apply elem_of_seq; lia|lia| |lia].
        apply newer_level with (fs := level_files v l'); [|done]. by apply level_newer with (fs := level_files v (S l)).
Qed.
End Sources.

(** *** Splitting levels *)

Lemma split_files (fs ks : list FileMetaData) :
  NoDup (map number fs) -> NoDup ks -> ks ⊆ fs -> fs ≡ₚ ks ++ filter (fun f => number f ∉ map number ks) fs.
Proof.
  intros Hn Hk Hsub. assert (NoDup fs) as Hf by (by eapply NoDup_fmap_1).
  apply NoDup_Permutation; [done| |].
  - apply list.NoDup_app. split; [done|]. split; [|by apply list.NoDup_filter].
    intros f Hx [Hy _]%list_elem_of_filter. apply Hy. by apply list_elem_of_fmap_2.
  - intros f. rewrite elem_of_app, list_elem_of_filter. split; [|intros [Hx|[_ Hx]]; [by apply Hsub|done]].
    intros Hx. destruct (decide (number f ∈ map number ks)) as [(g & Hg & Hgk)%list_elem_of_fmap|Hne]; [|by right].
    left. by rewrite (NoDup_numbers_inj fs f g Hn Hx (Hsub g Hgk) Hg).
Qed.

Lemma concat_map_app {A B} (F G : A -> list B) xs :
  concat (map (fun x => F x ++ G x) xs) ≡ₚ concat (map F xs) ++ concat (map G xs).
Proof. induction xs as [|x xs IH]; cbn [map concat]; [done|]. rewrite IH. solve_Permutation. Qed.

Lemma concat_map_nil {A B} (F : A -> list B) xs : (forall x, x ∈ xs -> F x = []) -> concat (map F xs) = [].
Proof.
  induction xs as [|x xs IH]; intros H; cbn [map concat]; [done|]. rewrite (H x) by (by left). apply IH. intros y Hy. apply H. by right.
Qed.

Lemma concat_map_two {B} (F : nat -> list B) a n :
  (S a < n)%nat -> (forall l, l <> a -> l <> S a -> F l = []) -> concat (map F (seq 0 n)) = F a ++ F (S a).
Proof.
  intros Hn HF. replace n with (a + S (S (n - a - 2)))%nat by lia. rewrite seq_app. cbn [seq Nat.add].
  rewrite map_app, List.concat_app. cbn [map concat]. rewrite !concat_map_nil.
  - by rewrite app_nil_r.
  - intros l Hl%elem_of_seq. apply HF; lia.
  - intros l Hl%elem_of_seq. apply HF; lia.
Qed.

Lemma concat_map_perm {A B} (F G : A -> list B) xs : (forall x, x ∈ xs -> F x ≡ₚ G x) -> concat (map F xs) ≡ₚ concat (map G xs).
Proof.
  induction xs as [|x xs IH]; intros H; cbn [map concat]; [done|]. rewrite (H x) by (by left). rewrite IH; [done|].
  intros y Hy. apply H. by right.
Qed.

Lemma level_entries_app contents fs gs : level_entries contents (fs ++ gs) = level_entries contents fs ++ level_entries contents gs.
Proof. unfold level_entries. by rewrite map_app, List.concat_app. Qed.

(** ** The version after a compaction *)

(** No file below the output level has the key in its range. *)
Definition below ucmp (c : Compaction) (k : bytes) : bool :=
  forallb (fun l => forallb (fun f => negb (bool_decide (holds_key ucmp k f))) (level_files (input_version_ c) l))
    (seq (c_level c + 2) (kNumLevels - (c_level c + 2))).

Lemma below_spec ucmp c k : below ucmp c k = true <-> base_level ucmp c k.
Proof.
  unfold below, base_level. rewrite forallb_forall. split.
  - intros H l f Hl Hf Hk. specialize (H l). rewrite forallb_forall in H.
    assert (negb (bool_decide (holds_key ucmp k f)) = true) as Hn; [|by rewrite bool_decide_true in Hn].
    apply H; [apply list_elem_of_In, elem_of_seq; lia|by apply list_elem_of_In].
  - intros H l Hl%list_elem_of_In%elem_of_seq. apply forallb_forall. intros f Hf%list_elem_of_In.
    apply negb_true_iff, bool_decide_eq_false. apply (H l); [lia|done].
Qed.

Section Compacted.
Context (ucmp : Comparator) `{!ComparatorLaws ucmp} (T T' : FileMetaData -> Prop) (contents contents' : Z -> list Entry).
Context (v v' : Version) (c : Compaction) (snap : Z) (outs : list FileMetaData) (es : list Entry).
Abbreviation ucompare := (Compare ucmp).
Abbreviation icompare := (InternalKeyComparator.Compare ucmp).
Abbreviation level := (c_level c).
Abbreviation lo := (ExtractUserKey (fst (key_range ucmp (inputs0 c)))).
Abbreviation hi := (ExtractUserKey (snd (key_range ucmp (inputs0 c)))).
Implicit Types (f g : FileMetaData) (l : nat) (e r : Entry).

Definition inputs_at l : list FileMetaData :=
  if decide (l = level) then inputs0 c else if decide (l = S level) then inputs1 c else [].
Definition outputs_at l : list FileMetaData := if decide (l = S level) then outs else [].

(** The files that stay. *)
Definition rest_at l : list FileMetaData := filter (fun f => number f ∉ map number (inputs_at l)) (level_files v l).

Lemma inputs_in (Hc : compaction_ok ucmp v c) l f : f ∈ inputs_at l -> f ∈ level_files v l.
Proof using Type.
  unfold inputs_at. destruct (decide (l = level)) as [->|]; [apply (co_inputs0 _ _ _ Hc)|].
  destruct (decide (l = S level)) as [->|]; [|by intros ?%not_elem_of_nil]. rewrite (co_inputs1 _ _ _ Hc), Nat.add_1_r.
  by intros [_ ?]%list_elem_of_filter.
Qed.

Definition others : list Entry := concat (map (fun l => level_entries contents (rest_at l)) (seq 0 kNumLevels)).

(** The entries of the inputs and the others. *)
Lemma inputs_and_others :
  compaction_ok ucmp v c -> NoDup (inputs0 c) -> (forall l, NoDup (map number (level_files v l))) ->
  all_entries contents v ≡ₚ (level_entries contents (inputs0 c) ++ level_entries contents (inputs1 c)) ++ others.
Proof using Type.
  intros Hc Hn0 Hnum.
  assert (forall l, level_files v l ≡ₚ inputs_at l ++ rest_at l) as Hsplit.
  { intros l. apply split_files; [apply Hnum| |intros f; by apply inputs_in].
    unfold inputs_at. destruct (decide _); [done|]. destruct (decide _); [|constructor].
    rewrite (co_inputs1 _ _ _ Hc). apply list.NoDup_filter. eapply NoDup_fmap_1. apply Hnum. }
  unfold all_entries, others. rewrite (concat_map_perm _ (fun l => level_entries contents (inputs_at l) ++ level_entries contents (rest_at l))).
  2:{ intros l _. rewrite <- level_entries_app. apply level_entries_perm, Hsplit. }
  rewrite concat_map_app, (concat_map_two _ level).
  - unfold inputs_at. rewrite decide_True, decide_False, decide_True by lia. done.
  - pose proof (co_level _ _ _ Hc). lia.
  - intros l H1 H2. unfold inputs_at. by rewrite !decide_False.
Qed.

Abbreviation kept := (survivors ucmp snap (below ucmp c) None es).

(** The files after are those before, without the inputs and with the outputs,
    which hold the surviving entries of the inputs. *)
Record Compacted : Prop := {
  cp_version : input_version_ c = v;
  cp_inputs : NoDup (inputs0 c);
  cp_numbers : forall l, NoDup (map number (level_files v l));
  cp_levels : forall l, level_files v' l ≡ₚ rest_at l ++ outputs_at l;
  cp_sorted : forall l, (0 < l)%nat -> files_sorted ucmp (level_files v' l);
  cp_count : forall l, zlen (level_files v' l) < 2 ^ 31;
  cp_old : forall l f, f ∈ level_files v l -> contents' (number f) = contents (number f) /\ (T f -> T' f);
  cp_es : es ≡ₚ level_entries contents (inputs0 c) ++ level_entries contents (inputs1 c);
  cp_es_sorted : es_sorted ucmp es;
  cp_outs : forall f, f ∈ outs -> file_holds ucmp T' contents' f /\ exists e, e ∈ file_entries contents' f /\ smallest f = entry_ikey e;
  cp_outs_sorted : StronglySorted (fun f g => icompare (largest f) (smallest g) = Lt) outs;
  cp_kept : level_entries contents' outs = kept }.

(** No other file of a level has a user key of an input of that level, which is
    what [AddBoundaryInputs] is for. *)
Definition boundaries_respected : Prop :=
  forall l f r e, (0 < l)%nat -> f ∈ rest_at l -> r ∈ file_entries contents f -> e ∈ level_entries contents (inputs_at l) ->
    ucompare (e_key r) (e_key e) <> Eq.

Context (Hold : version_holds ucmp T contents v) (Hc : compaction_ok ucmp v c) (HC : Compacted) (Hb : boundaries_respected).

Lemma file_in l f : f ∈ level_files v l -> file_holds ucmp T contents f.
Proof using Hold. intros Hf. pose proof (vh_files _ _ _ _ Hold l) as H. rewrite list.Forall_forall in H. by apply H. Qed.

Lemma rest_in l f : f ∈ rest_at l -> f ∈ level_files v l /\ f ∉ inputs_at l.
Proof using Type. intros [Hn Hf]%list_elem_of_filter. split; [done|]. intros Hi. apply Hn. by apply list_elem_of_fmap_2. Qed.

Lemma holds_user (t : FileMetaData -> Prop) (cont : Z -> list Entry) f e :
  file_holds ucmp t cont f -> e ∈ file_entries cont f -> ucompare (small_user f) (e_key e) <> Gt /\ ucompare (e_key e) (large_user f) <> Gt.
Proof using All.
  intros Hf He. destruct (fh_range _ _ _ _ Hf e He) as [H1 H2]. apply (icmp_le_user ucmp) in H1, H2.
  by rewrite ExtractUserKey_entry in H1, H2.
Qed.

(** Every input entry is in a file of one of the two levels. *)
Lemma es_elem e : e ∈ es -> exists l g, (l = level \/ l = S level) /\ g ∈ inputs_at l /\ e ∈ file_entries contents g.
Proof using HC.
  rewrite (cp_es HC). intros [(g & Hg & He)%level_entries_elem|(g & Hg & He)%level_entries_elem]%elem_of_app.
  - exists level, g. unfold inputs_at. rewrite decide_True by done. auto.
  - exists (S level), g. unfold inputs_at. rewrite decide_False, decide_True by lia. auto.
Qed.

(** The range of the first inputs. *)
Lemma inputs0_range g : g ∈ inputs_at level -> ucompare lo (small_user g) <> Gt /\ ucompare (large_user g) hi <> Gt.
Proof using ComparatorLaws0.
  unfold inputs_at. rewrite decide_True by done. intros Hg. destruct (GetRange_covers ucmp (inputs0 c) g Hg) as [H1 H2].
  by apply (icmp_le_user ucmp) in H1, H2.
Qed.

Lemma rest_outside l f : l = S level \/ l = 0%nat /\ level = 0%nat -> f ∈ rest_at l ->
  ucompare (large_user f) lo = Lt \/ ucompare hi (small_user f) = Lt.
Proof using All.
  intros Hl [Hf Hn]%rest_in. assert (~ overlaps ucmp (Some lo) (Some hi) f) as Ho.
  { intros Ho. apply Hn. unfold inputs_at. destruct Hl as [->|[-> Hl]].
    - rewrite decide_False, decide_True by lia. rewrite (co_inputs1 _ _ _ Hc), Nat.add_1_r. by apply list_elem_of_filter.
    - rewrite decide_True by lia. by apply (co_closed _ _ _ Hc Hl). }
  unfold overlaps in Ho. destruct (ucompare lo (large_user f)) eqn:E1; destruct (ucompare (small_user f) hi) eqn:E2;
    try (exfalso; apply Ho; done); [right|right|left..]; by apply (cmp_lt_gt ucompare).
Qed.

(** *** Order *)

(** A file that stays next to the first inputs shares no user key with them. *)
Lemma outside_key l f g r e :
  l = S level \/ l = 0%nat /\ level = 0%nat -> f ∈ rest_at l -> g ∈ inputs_at level ->
  r ∈ file_entries contents f -> e ∈ file_entries contents g -> ucompare (e_key r) (e_key e) <> Eq.
Proof using All.
  intros Hl Hf Hg Hr He Heq. destruct (inputs0_range g Hg) as [L1 L2].
  pose proof (holds_user _ _ f r (file_in l f (proj1 (rest_in l f Hf))) Hr) as [R1 R2].
  pose proof (holds_user _ _ g e (file_in level g (inputs_in Hc level g Hg)) He) as [G1 G2].
  destruct (rest_outside l f Hl Hf) as [Hx|Hx]; apply (cmp_lt_gt ucompare) in Hx.
  - rewrite (cmp_eq_l ucompare _ _ _ Heq) in R2. assert (ucompare lo (large_user f) <> Gt); [|congruence].
    eapply (cmp_le_trans ucompare); [exact L1|]. by eapply (cmp_le_trans ucompare).
  - rewrite (cmp_eq_r ucompare _ _ _ Heq) in R1. assert (ucompare (small_user f) hi <> Gt); [|congruence].
    eapply (cmp_le_trans ucompare); [exact R1|]. by eapply (cmp_le_trans ucompare).
Qed.

Lemma old_ordered : files_ordered ucmp contents v.
Proof using Hold. apply files_ordered_sources; apply Hold. Qed.

(** An entry that stays is newer than an input entry of its key, or far below. *)
Lemma input_order l f r e :
  (l < kNumLevels)%nat -> f ∈ rest_at l -> r ∈ file_entries contents f -> e ∈ es -> ucompare (e_key r) (e_key e) = Eq ->
  e_seq e < e_seq r \/ (level + 2 <= l)%nat.
Proof using All.
  intros Hl Hf Hr He Heq. destruct (es_elem e He) as (le & g & Hle & Hg & Heg).
  destruct (rest_in l f Hf) as [Hfl _]. pose proof (inputs_in Hc le g Hg) as Hgl.
  assert (le < kNumLevels)%nat as Hlk by (pose proof (co_level _ _ _ Hc); lia).
  assert (l < le \/ l = le \/ le < l)%nat as [Hlt|[->|Hgt]] by lia.
  - left. by apply (fo_levels _ _ _ old_ordered l le f g ltac:(lia) Hfl Hgl).
  - exfalso. destruct (decide (le = 0%nat)) as [->|Hne].
    + replace 0%nat with level in Hg by lia. by apply (outside_key 0 f g r e); [right; lia|..].
    + apply (Hb le f r e); [lia|done|done| |done]. apply level_entries_elem. by exists g.
  - destruct Hle as [->| ->]; [|right; lia]. destruct (decide (l = S level)) as [->|]; [|right; lia].
    exfalso. by apply (outside_key (S level) f g r e); [left|..].
Qed.

Lemma kept_es e : e ∈ kept -> e ∈ es.
Proof using Type. apply survivors_elem. Qed.

Lemma outs_entries f e : f ∈ outs -> e ∈ file_entries contents' f -> e ∈ kept.
Proof using HC. intros Hf He. rewrite <- (cp_kept HC). apply level_entries_elem. by exists f. Qed.

Lemma level_elem l f : f ∈ level_files v' l -> f ∈ rest_at l \/ l = S level /\ f ∈ outs.
Proof using HC.
  rewrite (cp_levels HC l), elem_of_app. unfold outputs_at. intros [H|H]; [by left|]. destruct (decide (l = S level)); [by right|].
  by apply not_elem_of_nil in H.
Qed.

Lemma rest_entries l f : f ∈ rest_at l -> file_entries contents' f = file_entries contents f.
Proof using HC. intros [Hf _]%rest_in. apply (cp_old HC l f Hf). Qed.

Lemma new_ordered : files_ordered ucmp contents' v'.
Proof using All.
  split.
  - intros f g [Hf|[Hx _]]%level_elem [Hg|[Hy _]]%level_elem Hlt; [|lia..]. rewrite (rest_entries 0 f Hf), (rest_entries 0 g Hg).
    apply (fo_level0 _ _ _ old_ordered); [by apply rest_in|by apply rest_in|done].
  - intros l l' f g Hl [Hf|[-> Hf]]%level_elem [Hg|[-> Hg]]%level_elem.
    + rewrite (rest_entries l f Hf), (rest_entries l' g Hg). apply (fo_levels _ _ _ old_ordered l l'); [done|by apply rest_in|by apply rest_in].
    + rewrite (rest_entries l f Hf). intros r e Hr He%(outs_entries g e Hg)%kept_es Heq.
      destruct (input_order l f r e) as [Ho|Ho]; [lia|done|done|done|done|done|lia].
    + rewrite (rest_entries l' g Hg). intros e r He%(outs_entries f e Hf)%kept_es Hr Heq.
      destruct (es_elem e He) as (le & h & Hle & Hh & Heh).
      apply (fo_levels _ _ _ old_ordered le l' h g); [lia|by apply (inputs_in Hc)|by apply rest_in|done|done|done].
    + lia.
Qed.

(** *** Entries *)

Lemma others_elem r : r ∈ others -> exists l f, (l < kNumLevels)%nat /\ f ∈ rest_at l /\ r ∈ file_entries contents f.
Proof using Type.
  unfold others. intros (x & (l & <- & Hl%list_elem_of_In%elem_of_seq)%in_map_iff & (f & Hf & Hr)%list_elem_of_In%level_entries_elem)%list_elem_of_In%in_concat.
  exists l, f. split; [lia|done].
Qed.

Lemma old_entries : all_entries contents v ≡ₚ es ++ others.
Proof using Hc HC. rewrite (inputs_and_others Hc (cp_inputs HC) (cp_numbers HC)), (cp_es HC). done. Qed.

Lemma new_entries : all_entries contents' v' ≡ₚ kept ++ others.
Proof using Hc HC.
  unfold all_entries, others. rewrite (concat_map_perm _ (fun l => level_entries contents' (outputs_at l) ++ level_entries contents (rest_at l))).
  2:{ intros l _. replace (level_entries contents (rest_at l)) with (level_entries contents' (rest_at l)).
      - rewrite <- level_entries_app. apply level_entries_perm. rewrite (cp_levels HC l). solve_Permutation.
      - unfold level_entries. f_equal. apply list_fmap_ext. intros i f Hf. apply (rest_entries l). by eapply list_elem_of_lookup_2. }
  rewrite concat_map_app, (concat_map_two _ level).
  - unfold outputs_at. rewrite decide_False, decide_True by lia. by rewrite (cp_kept HC).
  - pose proof (co_level _ _ _ Hc). lia.
  - intros l H1 H2. unfold outputs_at. by rewrite decide_False.
Qed.

Lemma es_ok : Forall entry_ok es.
Proof using Hold Hc HC.
  apply list.Forall_forall. intros e He. destruct (es_elem e He) as (l & g & _ & Hg & Heg).
  pose proof (fh_ok _ _ _ _ (file_in l g (inputs_in Hc l g Hg))) as H. rewrite list.Forall_forall in H. by apply H.
Qed.

Lemma old_distinct : NoDup (map e_seq (es ++ others)).
Proof using Hold Hc HC.
  destruct (vh_ordered _ _ _ _ Hold) as [Hnd _]. by rewrite version_sources_entries, old_entries in Hnd.
Qed.

Lemma new_distinct : NoDup (map e_seq (kept ++ others)).
Proof using Hold Hc HC.
  eapply sublist_NoDup; [apply old_distinct|]. apply sublist_map, sublist_app; [apply survivors_sublist|done].
Qed.

(** Readers from the oldest snapshot on find the same values; the entries of
    [front], of the memtables, are asked before. *)
Lemma compacted_reads front u s :
  NoDup (map e_seq (front ++ all_entries contents v)) -> newer ucmp front (all_entries contents v) -> snap <= s ->
  lookup_entry ucmp (front ++ all_entries contents' v') u s = lookup_entry ucmp (front ++ all_entries contents v) u s.
Proof using All.
  intros Hnd Hf Hs.
  assert (front ++ all_entries contents v ≡ₚ es ++ (front ++ others)) as E1 by (rewrite old_entries; solve_Permutation).
  assert (front ++ all_entries contents' v' ≡ₚ kept ++ (front ++ others)) as E2 by (rewrite new_entries; solve_Permutation).
  assert (NoDup (map e_seq (es ++ (front ++ others)))) as Hnd1 by (by rewrite <- E1).
  assert (NoDup (map e_seq (kept ++ (front ++ others)))) as Hnd2.
  { eapply sublist_NoDup; [exact Hnd1|]. apply sublist_map, sublist_app; [apply survivors_sublist|done]. }
  unfold lookup_entry. rewrite (newest_permutation ucmp _ _ u s Hnd E1).
  rewrite (newest_permutation ucmp (front ++ all_entries contents' v') _ u s) by (done || by rewrite E2).
  apply (survivors_reads ucmp); [done|apply HC|apply es_ok|done|].
  intros e r He [Hr|Hr]%elem_of_app Heq.
  - left. apply (Hf r e); [done| |done]. rewrite old_entries. apply elem_of_app. by left.
  - destruct (others_elem r Hr) as (l & f & Hl & Hfr & Hrf). destruct (input_order l f r e) as [Ho|Ho]; [done..|by left|].
    right. apply not_true_iff_false. intros Hbase%below_spec. destruct (rest_in l f Hfr) as [Hfl _].
    apply (Hbase l f); [lia|by rewrite (cp_version HC)|]. destruct (holds_user _ _ f r (file_in l f Hfl) Hrf) as [H1 H2].
    rewrite (cmp_eq_r ucompare _ _ _ Heq) in H1. by rewrite (cmp_eq_l ucompare _ _ _ Heq) in H2.
Qed.

(** *** Disjoint levels *)

Abbreviation before f g := (icompare (largest f) (smallest g) = Lt).

Lemma holds_file_ok (t : FileMetaData -> Prop) (cont : Z -> list Entry) f : file_holds ucmp t cont f -> file_ok ucmp f.
Proof using ComparatorLaws0.
  intros Hf. destruct (fh_largest _ _ _ _ Hf) as (e & He & _). destruct (fh_range _ _ _ _ Hf e He) as [H1 H2].
  by eapply (cmp_le_trans icompare).
Qed.

(** A file that stays in the output level is before or after all input entries. *)
Lemma rest_beside f : f ∈ rest_at (S level) ->
  (forall e, e ∈ es -> icompare (largest f) (entry_ikey e) = Lt) \/ (forall e, e ∈ es -> icompare (entry_ikey e) (smallest f) = Lt).
Proof using All.
  intros Hf. destruct (rest_in _ f Hf) as [Hfl Hfn]. pose proof (file_in _ f Hfl) as Hfh. pose proof (file_user_ok ucmp f (holds_file_ok _ _ f Hfh)) as Hfu.
  assert (forall g, g ∈ inputs_at (S level) -> ucompare lo (large_user g) <> Gt /\ ucompare (small_user g) hi <> Gt /\ (before f g \/ before g f)) as H1.
  { intros g Hg. pose proof (inputs_in Hc _ g Hg) as Hgl.
    assert (overlaps ucmp (Some lo) (Some hi) g) as [O1 O2].
    { unfold inputs_at in Hg. rewrite decide_False, decide_True in Hg by lia. rewrite (co_inputs1 _ _ _ Hc) in Hg. by apply list_elem_of_filter in Hg as [? _]. }
    split; [done|]. split; [done|]. destruct (vh_disjoint _ _ _ _ Hold (S level) ltac:(lia)) as [[_ Hs] _].
    destruct (StronglySorted_elem _ _ f g Hs Hfl Hgl) as [->|[?|?]]; [done|by left|by right]. }
  destruct (rest_outside (S level) f (or_introl eq_refl) Hf) as [Hx|Hx]; [left|right]; intros e He;
    destruct (es_elem e He) as (l & g & Hl & Hg & Heg); pose proof (file_in l g (inputs_in Hc l g Hg)) as Hgh;
    destruct (holds_user _ _ g e Hgh Heg) as [G1 G2]; destruct (fh_range _ _ _ _ Hgh e Heg) as [K1 K2]; destruct Hl as [->| ->].
  - destruct (inputs0_range g Hg) as [L1 L2]. rewrite (icmp_unfold ucmp), ExtractUserKey_entry.
    change (ExtractUserKey (largest f)) with (large_user f). enough (ucompare (large_user f) (e_key e) = Lt) as -> by done.
    eapply (cmp_lt_le_trans ucompare); [exact Hx|]. by eapply (cmp_le_trans ucompare).
  - destruct (H1 g Hg) as (U1 & U2 & [Hd|Hd]); [by eapply (cmp_lt_le_trans icompare)|]. exfalso.
    assert (ucompare (large_user g) (small_user f) <> Gt) as Hu.
    { apply (icmp_le_user ucmp (largest g) (smallest f)). by rewrite Hd. }
    apply (cmp_lt_gt ucompare) in Hx. assert (ucompare lo (large_user f) <> Gt); [|congruence].
    eapply (cmp_le_trans ucompare); [exact U1|]. by eapply (cmp_le_trans ucompare).
  - destruct (inputs0_range g Hg) as [L1 L2]. rewrite (icmp_unfold ucmp), ExtractUserKey_entry.
    change (ExtractUserKey (smallest f)) with (small_user f). enough (ucompare (e_key e) (small_user f) = Lt) as -> by done.
    eapply (cmp_le_lt_trans ucompare); [|exact Hx]. by eapply (cmp_le_trans ucompare).
  - destruct (H1 g Hg) as (U1 & U2 & [Hd|Hd]); [|by eapply (cmp_le_lt_trans icompare)]. exfalso.
    assert (ucompare (large_user f) (small_user g) <> Gt) as Hu.
    { apply (icmp_le_user ucmp (largest f) (smallest g)). by rewrite Hd. }
    apply (cmp_lt_gt ucompare) in Hx. assert (ucompare (small_user f) hi <> Gt); [|congruence].
    eapply (cmp_le_trans ucompare); [exact Hfu|]. by eapply (cmp_le_trans ucompare).
Qed.

Lemma rest_outs f g : f ∈ rest_at (S level) -> g ∈ outs -> before f g \/ before g f.
Proof using All.
  intros Hf Hg. destruct (cp_outs HC g Hg) as [Hh (e & He & Es)]. destruct (fh_largest _ _ _ _ Hh) as (e' & He' & El).
  pose proof (kept_es e (outs_entries g e Hg He)) as Hk. pose proof (kept_es e' (outs_entries g e' Hg He')) as Hk'.
  destruct (rest_beside f Hf) as [H|H]; [left; rewrite Es; by apply H|right; rewrite El; by apply H].
Qed.

Lemma new_beside l f g : (0 < l)%nat -> f ∈ level_files v' l -> g ∈ level_files v' l -> f = g \/ before f g \/ before g f.
Proof using All.
  intros Hl [Hf|[-> Hf]]%level_elem Hgl; apply level_elem in Hgl as [Hg|[Hx Hg]].
  - destruct (vh_disjoint _ _ _ _ Hold l Hl) as [[_ Hs] _]. apply (StronglySorted_elem _ _ f g Hs); by apply rest_in.
  - subst l. right. by apply rest_outs.
  - right. destruct (rest_outs g f Hg Hf); auto.
  - apply (StronglySorted_elem _ _ f g (cp_outs_sorted HC)); done.
Qed.

Lemma new_files l f : f ∈ level_files v' l -> file_holds ucmp T' contents' f.
Proof using Hold HC.
  intros [Hf|[-> Hf]]%level_elem; [|by apply (cp_outs HC)]. pose proof (rest_entries l f Hf) as Ee.
  destruct (rest_in l f Hf) as [Hfl _]. destruct (file_in l f Hfl) as [H1 H2 H3 H4 H5 H6].
  split; rewrite ?Ee; try done. by apply (cp_old HC l f Hfl).
Qed.

(** The new version can be trusted as the old one. *)
Lemma compacted_holds : version_holds ucmp T' contents' v'.
Proof using All.
  assert (NoDup (map number (level_files v' 0))) as Hnd0.
  { rewrite (cp_levels HC 0). unfold outputs_at. rewrite decide_False, app_nil_r by lia. unfold rest_at.
    eapply sublist_NoDup; [apply (cp_numbers HC 0%nat)|]. apply sublist_map, sublist_filter. }
  split.
  - intros l. apply list.Forall_forall. apply new_files.
  - done.
  - intros l Hl. split; [|apply (cp_count HC)]. split.
    + apply list.Forall_forall. intros f Hf. eapply holds_file_ok. by eapply new_files.
    + eapply StronglySorted_impl_elem; [|apply (cp_sorted HC l Hl)]. intros f g Hf Hg Hlt.
      destruct (new_beside l f g Hl Hf Hg) as [->|[?|Hx]]; [|done|].
      * by rewrite (cmp_refl (by_smallest ucmp)) in Hlt.
      * exfalso. pose proof (holds_file_ok _ _ g (new_files l g Hg)) as Hok. unfold file_ok in Hok.
        assert (icompare (smallest f) (smallest g) <> Gt) as Hle by (unfold by_smallest in Hlt; by destruct (icompare (smallest f) (smallest g))).
        pose proof (cmp_le_lt_trans icompare _ _ _ Hok Hx) as H1. apply (cmp_lt_gt icompare) in H1. done.
  - split; [|apply files_ordered_sources; [done|apply new_ordered]].
    rewrite version_sources_entries, new_entries. apply new_distinct.
Qed.
End Compacted.
