(* ===== verification/FlushedVersion.v ===== *)
(** * A version after a flush

    What adding the table of a flushed memtable does to a version: the
    specification that [CompactMemTable] (src/db/db_impl.cc) and its edit meet.
    [Flushed] relates the versions before and after, with the level that
    [PickLevelForMemTableOutput] allows; [flushed_holds] says that the new version
    can be trusted, and [flushed_entries] that it has the entries of the table and
    all the old ones. *)

From stdpp Require Import gmap sets sorting.
From S2P Require Import Prelude Slice Coding Comparator DbFormat WriteBatch Iterator SkipList MemTable Entries View Prune.
From S2P Require Import VersionEdit VersionFiles VersionBuilder Compaction VersionGet CompactedVersion.

Section Flushed.
Context (ucmp : Comparator) `{!ComparatorLaws ucmp} (T T' : FileMetaData -> Prop) (contents contents' : Z -> list Entry).
Context (v v' : Version) (level : nat) (new : FileMetaData).
Abbreviation ucompare := (Compare ucmp).
Abbreviation icompare := (InternalKeyComparator.Compare ucmp).
Abbreviation before f g := (icompare (largest f) (smallest g) = Lt).
Implicit Types (f g : FileMetaData) (l : nat) (e r : Entry).

Definition new_at l : list FileMetaData := if decide (l = level) then [new] else [].

(** The files after are those before and the new one, at a level where no file of
    it or of a level above has keys of its range, or at level 0 as the newest. *)
Record Flushed : Prop := {
  fl_level : (level < kNumLevels)%nat;
  fl_levels : forall l, level_files v' l ≡ₚ level_files v l ++ new_at l;
  fl_sorted : forall l, (0 < l)%nat -> files_sorted ucmp (level_files v' l);
  fl_count : forall l, zlen (level_files v' l) < 2 ^ 31;
  fl_old : forall l f, f ∈ level_files v l -> contents' (number f) = contents (number f) /\ (T f -> T' f);
  fl_number : forall f, f ∈ level_files v 0 -> number f < number new;
  fl_new : file_holds ucmp T' contents' new;
  fl_clear : (0 < level)%nat -> forall l f, (l <= level)%nat -> f ∈ level_files v l -> ~ overlaps ucmp (Some (small_user new)) (Some (large_user new)) f }.

Context (Hold : version_holds ucmp T contents v) (HF : Flushed).
Abbreviation new_entries := (file_entries contents' new).
Context (Hnewer : newer ucmp new_entries (all_entries contents v)) (Hnd : NoDup (map e_seq (new_entries ++ all_entries contents v))).

Lemma flushed_elem l f : f ∈ level_files v' l -> f ∈ level_files v l \/ l = level /\ f = new.
Proof using HF.
  rewrite (fl_levels HF l). unfold new_at. intros [Hf|Hf]%elem_of_app; [by left|]. right.
  destruct (decide _); [by apply list_elem_of_singleton in Hf as ->|by apply not_elem_of_nil in Hf].
Qed.

Lemma kept_entries l f : f ∈ level_files v l -> file_entries contents' f = file_entries contents f.
Proof using HF. intros Hf. by apply (fl_old HF l f). Qed.

Lemma kept_file l f : f ∈ level_files v l -> file_holds ucmp T contents f.
Proof using Hold. intros Hf. pose proof (vh_files _ _ _ _ Hold l) as H. rewrite list.Forall_forall in H. by apply H. Qed.

Lemma flushed_file l f : f ∈ level_files v' l -> file_holds ucmp T' contents' f.
Proof using Hold HF.
  intros [Hf|[-> ->]]%flushed_elem; [|apply (fl_new HF)]. pose proof (kept_entries l f Hf) as Ee.
  destruct (kept_file l f Hf) as [H1 H2 H3 H4 H5 H6]. split; rewrite ?Ee; try done. by apply (fl_old HF l f Hf).
Qed.

(** The entries of the new file and the old ones. *)
Lemma flushed_entries : all_entries contents' v' ≡ₚ new_entries ++ all_entries contents v.
Proof using HF.
  unfold all_entries. rewrite (concat_map_perm _ (fun l => level_entries contents (level_files v l) ++ level_entries contents' (new_at l))).
  2:{ intros l _. rewrite (level_entries_perm contents' _ _ (fl_levels HF l)), level_entries_app. f_equiv.
      unfold level_entries. f_equal. erewrite list_fmap_ext; [done|]. intros i f Hf. apply (kept_entries l). by eapply list_elem_of_lookup_2. }
  rewrite concat_map_app, Permutation_app_comm. f_equiv. pose proof (fl_level HF).
  replace kNumLevels with (level + S (kNumLevels - level - 1))%nat by lia. rewrite seq_app. cbn [seq Nat.add].
  rewrite map_app, List.concat_app. cbn [map concat]. rewrite !concat_map_nil.
  - unfold new_at. rewrite decide_True by done. unfold level_entries. cbn [map concat app]. by rewrite !app_nil_r.
  - intros l Hl%elem_of_seq. unfold new_at. by rewrite decide_False by lia.
  - intros l Hl%elem_of_seq. unfold new_at. by rewrite decide_False by lia.
Qed.

(** A file beside the new one in its level or above shares no keys with it. *)
Lemma clear_beside l f : (0 < level)%nat -> (l <= level)%nat -> f ∈ level_files v l ->
  ucompare (large_user f) (small_user new) = Lt \/ ucompare (large_user new) (small_user f) = Lt.
Proof using ComparatorLaws0 HF.
  intros H0 Hl Hf. pose proof (fl_clear HF H0 l f Hl Hf) as Ho. unfold overlaps in Ho.
  destruct (ucompare (small_user new) (large_user f)) eqn:E1; destruct (ucompare (small_user f) (large_user new)) eqn:E2;
    try (exfalso; apply Ho; done); [right|right|left..]; by apply (cmp_lt_gt ucompare).
Qed.

Lemma file_user_range (t : FileMetaData -> Prop) (cont : Z -> list Entry) f e :
  file_holds ucmp t cont f -> e ∈ file_entries cont f -> ucompare (small_user f) (e_key e) <> Gt /\ ucompare (e_key e) (large_user f) <> Gt.
Proof using ComparatorLaws0.
  intros Hf He. destruct (fh_range _ _ _ _ Hf e He) as [H1 H2]. apply (icmp_le_user ucmp) in H1, H2.
  by rewrite ExtractUserKey_entry in H1, H2.
Qed.

Lemma clear_newer l f : (0 < level)%nat -> (l <= level)%nat -> f ∈ level_files v l -> newer ucmp (file_entries contents f) new_entries.
Proof using All.
  intros H0 Hl Hf r e Hr He Heq. exfalso. destruct (file_user_range _ _ f r (kept_file l f Hf) Hr) as [F1 F2].
  destruct (file_user_range _ _ new e (fl_new HF) He) as [N1 N2].
  rewrite (cmp_eq_l ucompare _ _ _ Heq) in F2. rewrite (cmp_eq_r ucompare _ _ _ Heq) in F1.
  destruct (clear_beside l f H0 Hl Hf) as [Hx|Hx]; apply (cmp_lt_gt ucompare) in Hx.
  - assert (ucompare (small_user new) (large_user f) <> Gt); [|congruence]. by eapply (cmp_le_trans ucompare).
  - assert (ucompare (small_user f) (large_user new) <> Gt); [|congruence]. by eapply (cmp_le_trans ucompare).
Qed.

Lemma entries_in l f e : (l < kNumLevels)%nat -> f ∈ level_files v l -> e ∈ file_entries contents f -> e ∈ all_entries contents v.
Proof using Type. intros Hl Hf He. apply all_entries_elem. by exists l, f. Qed.

Lemma new_newer l f : (l < kNumLevels)%nat -> f ∈ level_files v l -> newer ucmp new_entries (file_entries contents f).
Proof using Hnewer. intros Hl Hf e r He Hr. apply Hnewer; [done|by eapply entries_in]. Qed.

Lemma flushed_ordered : files_ordered ucmp contents' v'.
Proof using All.
  assert (files_ordered ucmp contents v) as [O1 O2] by (apply files_ordered_sources; apply Hold). split.
  - intros f g [Hf|[El ->]]%flushed_elem [Hg|[El' ->]]%flushed_elem Hlt.
    + rewrite (kept_entries 0 f Hf), (kept_entries 0 g Hg). by apply O1.
    + specialize (fl_number HF f Hf). lia.
    + rewrite (kept_entries 0 g Hg). apply (new_newer 0%nat); [unfold kNumLevels; lia|done].
    + lia.
  - intros l l' f g Hl [Hf|[El ->]]%flushed_elem [Hg|[El' ->]]%flushed_elem.
    + rewrite (kept_entries l f Hf), (kept_entries l' g Hg). by apply (O2 l l').
    + rewrite (kept_entries l f Hf). apply (clear_newer l); [lia|lia|done].
    + rewrite (kept_entries l' g Hg). apply (new_newer l'); [lia|done].
    + lia.
Qed.

Lemma user_before f g : ucompare (large_user f) (small_user g) = Lt -> before f g.
Proof using Type. intros H. rewrite (icmp_unfold ucmp). unfold large_user, small_user in H. by rewrite H. Qed.

Lemma flushed_beside l f g : (0 < l)%nat -> f ∈ level_files v' l -> g ∈ level_files v' l -> f = g \/ before f g \/ before g f.
Proof using ComparatorLaws0 Hold HF.
  intros Hl [Hf|[El ->]]%flushed_elem [Hg|[El' ->]]%flushed_elem.
  - destruct (vh_disjoint _ _ _ _ Hold l Hl) as [[_ Hs] _]. by apply (StronglySorted_elem _ _ f g Hs).
  - right. destruct (clear_beside l f) as [Hx|Hx]; [lia|lia|done|left|right]; by apply user_before.
  - right. destruct (clear_beside l g) as [Hx|Hx]; [lia|lia|done|right|left]; by apply user_before.
  - by left.
Qed.

(** The new version can be trusted as the old one. *)
Lemma flushed_holds : version_holds ucmp T' contents' v'.
Proof using All.
  assert (NoDup (map number (level_files v' 0))) as Hnd0.
  { rewrite (fl_levels HF 0), map_app. apply list.NoDup_app. split; [apply Hold|]. unfold new_at. destruct (decide _); cbn; [|split; [set_solver|constructor]].
    split; [|apply NoDup_singleton]. intros n (g & -> & Hg)%list_elem_of_fmap Hx%list_elem_of_singleton. specialize (fl_number HF g Hg). lia. }
  split.
  - intros l. apply list.Forall_forall. apply flushed_file.
  - done.
  - intros l Hl. split; [|apply (fl_count HF)]. split.
    + apply list.Forall_forall. intros f Hf. eapply (holds_file_ok ucmp). by eapply flushed_file.
    + eapply StronglySorted_impl_elem; [|apply (fl_sorted HF l Hl)]. intros f g Hf Hg Hlt.
      destruct (flushed_beside l f g Hl Hf Hg) as [->|[?|Hx]]; [|done|].
      * by rewrite (cmp_refl (by_smallest ucmp)) in Hlt.
      * exfalso. pose proof (holds_file_ok ucmp _ _ g (flushed_file l g Hg)) as Hok. unfold file_ok in Hok.
        assert (icompare (smallest f) (smallest g) <> Gt) as Hle by (unfold by_smallest in Hlt; by destruct (icompare (smallest f) (smallest g))).
        pose proof (cmp_le_lt_trans icompare _ _ _ Hok Hx) as H1. apply (cmp_lt_gt icompare) in H1. done.
  - split; [|apply files_ordered_sources; [done|apply flushed_ordered]].
    by rewrite version_sources_entries, flushed_entries.
Qed.
End Flushed.
