(* ===== verification/VersionIter.v ===== *)
(** * Iterators over versions

    src/db/version_set.cc: [GetFileIterator], [Version::NewConcatenatingIterator],
    [Version::AddIterators] and [VersionSet::MakeInputIterator]; and the merge
    that [DBImpl::NewInternalIterator] builds over the memtables and a version.

    Tables are opened through the table cache, the operation [tc_NewIterator];
    a concatenating iterator opens its files when it reaches them, in the cache
    as it was when the iterator was made: which table a file number stands for
    does not depend on what else is cached.  A child of a merge is a memtable's
    iterator, a table's or a level's. *)

From stdpp Require Import gmap sets sorting.
From S2P Require Import Prelude Slice Coding Comparator DbFormat WriteBatch Arena Iterator SkipList MemTable Entries MemIter.
From S2P Require Import Merger TwoLevelIterator VersionEdit VersionFiles VersionBuilder Compaction VersionGet.

Section Operations.
Context (ucmp : Comparator).
Abbreviation icompare := (InternalKeyComparator.Compare ucmp).
(** The table cache: its iterators, and its errors as iterators. *)
Context {TC : Type} (TI : IteratorOps) (error_iterator : Status -> IState TI)
  (tc_NewIterator : TC -> Z -> Z -> option (TC * IState TI)).

(** [GetFileIterator]; a fault of the cache shows as an error. *)
Definition GetFileIterator (tc : TC) (value : bytes) : IState TI :=
  if negb (zlen value =? 16) then error_iterator (Corruption (str:"FileReader invoked with unexpected value"))
  else
    match tc_NewIterator tc (DecodeFixed64 value) (DecodeFixed64 (drop 8 value)) with
    | Some (_, it) => it
    | None => error_iterator (Corruption (str:"fault"))
    end.

(** The iterators a merge may hold. *)
Inductive ChildKind := MemChild (m : MemTable) | TableChild | LevelChild (flist : list FileMetaData) (tc : TC).

Definition child_ops (k : ChildKind) : IteratorOps :=
  match k with
  | MemChild m => MemTableIterator ucmp m
  | TableChild => TI
  | LevelChild flist tc => TwoLevel (LevelFileNumIterator ucmp flist) TI (GetFileIterator tc) (S (length flist))
  end.
Definition ChildOps : IteratorOps := Dispatch child_ops.

Definition level_child (flist : list FileMetaData) (tc : TC) : IState ChildOps :=
  existT (LevelChild flist tc)
    (NewTwoLevelIterator (LevelFileNumIterator_new ucmp flist) : IState (child_ops (LevelChild flist tc))).

(** [Version::NewConcatenatingIterator] *)
Definition NewConcatenatingIterator (v : Version) (tc : TC) (level : nat) : IState ChildOps :=
  level_child (level_files v level) tc.

(** An iterator for each file. *)
Fixpoint open_files (tc : TC) (files : list FileMetaData) : option (TC * list (IState ChildOps)) :=
  match files with
  | [] => Some (tc, [])
  | f :: files =>
      '(tc, it) ← tc_NewIterator tc (number f) (file_size f);
      '(tc, its) ← open_files tc files;
      Some (tc, existT TableChild (it : IState (child_ops TableChild)) :: its)
  end.

(** [Version::AddIterators] *)
Definition AddIterators (v : Version) (tc : TC) (iters : list (IState ChildOps)) : option (TC * list (IState ChildOps)) :=
  '(tc, its) ← open_files tc (level_files v 0);
  Some (tc, iters ++ its ++
    map (NewConcatenatingIterator v tc)
      (List.filter (fun level => negb (length (level_files v level) =? 0)%nat) (seq 1 (kNumLevels - 1)))).

(** The children of [VersionSet::MakeInputIterator]; [which] is 0 and 1. *)
Definition input_children (tc : TC) (level : nat) (files : list FileMetaData) : option (TC * list (IState ChildOps)) :=
  if (length files =? 0)%nat then Some (tc, [])
  else if (level =? 0)%nat then open_files tc files
  else Some (tc, [level_child files tc]).

(** [VersionSet::MakeInputIterator] *)
Definition MakeInputIterator (tc : TC) (c : Compaction) : option (TC * IState (MergedOps icompare ChildOps)) :=
  '(tc, its0) ← input_children tc (c_level c) (inputs0 c);
  '(tc, its1) ← input_children tc (c_level c + 1) (inputs1 c);
  Some (tc, NewMergingIterator icompare ChildOps (its0 ++ its1)).

(** The iterators that [DBImpl::NewInternalIterator] collects and merges. *)
Definition mem_child (m : MemTable) : IState ChildOps :=
  existT (MemChild m) (MemTable_NewIterator ucmp m : IState (child_ops (MemChild m))).

Definition internal_children (mem : MemTable) (imm : option MemTable) (v : Version) (tc : TC)
    : option (TC * list (IState ChildOps)) :=
  AddIterators v tc (mem_child mem :: match imm with Some m => [mem_child m] | None => [] end).

Definition merge_internal (mem : MemTable) (imm : option MemTable) (v : Version) (tc : TC)
    : option (TC * IState (MergedOps icompare ChildOps)) :=
  '(tc, its) ← internal_children mem imm v tc;
  Some (tc, NewMergingIterator icompare ChildOps its).
End Operations.

(** ** Proofs *)

(** What the iterators rely on: an iterator of a file is a cursor over the
    file's entries.  [tc_ok n]: the cache works, and [n] more tables can be
    opened. *)
Class TableIters (ucmp : Comparator) {TC : Type} (TI : IteratorOps)
    (tc_NewIterator : TC -> Z -> Z -> option (TC * IState TI))
    (tc_ok : nat -> TC -> Prop) (is_table : FileMetaData -> Prop) (contents : Z -> list Entry) : Prop := {
  ti_open : forall n tc f, tc_ok (S n) tc -> is_table f ->
    exists tc' it, tc_NewIterator tc (number f) (file_size f) = Some (tc', it) /\ tc_ok n tc' /\
      cursor_at (fun _ => True) (InternalKeyComparator.Compare ucmp) TI (map entry_kv (contents (number f))) it
        (length (contents (number f)));
  ti_weaken : forall n tc, tc_ok (S n) tc -> tc_ok n tc;
  ti_range : forall f, is_table f -> 0 <= number f < 2 ^ 64 /\ 0 <= file_size f < 2 ^ 64 }.

Section Correct.
Context (ucmp : Comparator) `{!ComparatorLaws ucmp}.
Abbreviation icompare := (InternalKeyComparator.Compare ucmp).
Context {TC : Type} (TI : IteratorOps) (error_iterator : Status -> IState TI)
  (tc_NewIterator : TC -> Z -> Z -> option (TC * IState TI)).
Context (tc_ok : nat -> TC -> Prop) (is_table : FileMetaData -> Prop) (contents : Z -> list Entry)
  `{!TableIters ucmp TI tc_NewIterator tc_ok is_table contents}.
Abbreviation ChildOps := (ChildOps ucmp TI error_iterator tc_NewIterator).
Abbreviation child_ops := (child_ops ucmp TI error_iterator tc_NewIterator).
Abbreviation GetFileIterator := (GetFileIterator TI error_iterator tc_NewIterator).
Abbreviation file_holds := (file_holds ucmp is_table contents).
Abbreviation file_entries := (file_entries contents).
Abbreviation level_entries := (level_entries contents).
Implicit Types (files : list FileMetaData) (es : list Entry) (ess : list (list Entry)).

(** A new child over the entries [es]. *)
Definition child_of (it : IState ChildOps) es : Prop :=
  cursor_at fits icompare ChildOps (map entry_kv es) it (length es).

Lemma dispatch_child (k : ChildKind) (it : IState (child_ops k)) es :
  cursor_at fits icompare (child_ops k) (map entry_kv es) it (length es) -> child_of (existT k it) es.
Proof.
  intros (pos & C & H). exists (dispatch_pos child_ops k pos). split; [by apply dispatch_cursor|by exists it].
Qed.

Lemma mem_child_of m es : mem_list ucmp m es -> child_of (mem_child ucmp TI error_iterator tc_NewIterator m) es.
Proof. intros H. apply dispatch_child. by apply mem_cursor. Qed.

Lemma cursor_at_weaken (I : IteratorOps) kvs s i :
  cursor_at (fun _ => True) icompare I kvs s i -> cursor_at fits icompare I kvs s i.
Proof. intros (pos & C & H). exists pos. split; [by apply cursor_weaken|done]. Qed.

Lemma open_files_of n tc files :
  tc_ok (length files + n) tc -> Forall file_holds files ->
  exists tc' its, open_files ucmp TI error_iterator tc_NewIterator tc files = Some (tc', its) /\ tc_ok n tc' /\
    Forall2 child_of its (map file_entries files).
Proof.
  intros Htc Hf. revert tc Htc. induction Hf as [|f files Hf Hfs IH]; intros tc Htc; cbn [open_files length Nat.add] in *.
  { exists tc, []. split; [done|]. split; [done|constructor]. }
  destruct (ti_open _ tc f Htc (fh_table _ _ _ _ Hf)) as (tc1 & it & -> & Htc1 & Hit). cbn [mbind option_bind].
  destruct (IH tc1 Htc1) as (tc2 & its & -> & Htc2 & Hits). cbn [mbind option_bind]. eexists _, _. split; [done|]. split; [done|].
  constructor; [|done]. apply dispatch_child. by apply cursor_at_weaken.
Qed.

(** A file's value names the file. *)
Lemma GetFileIterator_of n tc f :
  tc_ok (S n) tc -> file_holds f ->
  cursor_at (fun _ => True) icompare TI (map entry_kv (file_entries f)) (GetFileIterator tc (file_value f)) (length (file_entries f)).
Proof.
  intros Htc Hf. destruct (ti_range f (fh_table _ _ _ _ Hf)) as [Hn Hs]. unfold VersionIter.GetFileIterator, file_value.
  rewrite length_app, !length_EncodeFixed64. cbn [negb Nat.add Z.of_nat Z.eqb].
  rewrite (Fixed64_roundtrip (number f)) by done. rewrite (drop_app_length' (EncodeFixed64 (number f))) by done.
  rewrite <- (app_nil_r (EncodeFixed64 (file_size f))), (Fixed64_roundtrip (file_size f)) by done.
  destruct (ti_open n tc f Htc (fh_table _ _ _ _ Hf)) as (tc1 & it & -> & _ & Hit). exact Hit.
Qed.

Lemma level_child_of n tc files :
  tc_ok (S n) tc -> Forall file_holds files -> disjoint_files ucmp files -> zlen files < 2 ^ 31 ->
  child_of (level_child ucmp TI error_iterator tc_NewIterator files tc) (level_entries files).
Proof.
  intros Htc Hf Hd Hlen. apply dispatch_child, cursor_at_weaken.
  set (cont := fun h => map entry_kv (contents (DecodeFixed64 h))).
  assert (forall f, f ∈ files -> cont (file_value f) = map entry_kv (file_entries f)) as Hcont.
  { intros f Hin. unfold cont, file_value. rewrite Fixed64_roundtrip; [done|].
    by apply ti_range, (fh_table _ _ _ _ (proj1 (list.Forall_forall _ _) Hf f Hin)). }
  destruct (two_level_correct icompare (LevelFileNumIterator ucmp files) TI (GetFileIterator tc) (S (length files))
    (file_pairs files) _ cont (fun h => cursor_at (fun _ => True) icompare TI (cont h)) (level_file_cursor ucmp files Hd Hlen))
    as (pos & C & Hp).
  - intros sep h (f & [= -> ->] & Hin)%list_elem_of_fmap. split; [apply _|]. rewrite (Hcont f Hin), length_map.
    eapply GetFileIterator_of; [exact Htc|]. by eapply (proj1 (list.Forall_forall _ _) Hf).
  - intros j sep h kv Hj Hkv. unfold file_pairs in Hj. change (map _ files) with ((fun f => (largest f, file_value f)) <$> files) in Hj.
    apply list_lookup_fmap_Some in Hj as (f & [= -> ->] & Hj).
    rewrite (Hcont f ltac:(by eapply list_elem_of_lookup_2)) in Hkv. apply list_elem_of_fmap in Hkv as (e & -> & He). cbn [fst entry_kv].
    pose proof (proj1 (Forall_lookup _ _) Hf _ _ Hj) as Hfh. destruct (fh_range _ _ _ _ Hfh e He) as [Hlo Hhi]. split; [done|].
    intros i sep' h' Hi Hi'. apply list_lookup_fmap_Some in Hi' as (g & [= -> ->] & Hg).
    eapply (cmp_lt_le_trans icompare); [|exact Hlo].
    exact (sorted_lookup _ files i j g f (df_sorted _ _ Hd) Hg Hj Hi).
  - unfold file_pairs. rewrite length_map. lia.
  - replace (map entry_kv (level_entries files)) with (concat (map (fun e => cont (snd e)) (file_pairs files))).
    + exists pos. split; [exact C|].
      replace (length (level_entries files)) with (length (concat (map (fun e => cont (snd e)) (file_pairs files)))).
      * apply Hp. unfold LevelFileNumIterator_new, file_pairs. rewrite length_map, u32_small by lia. done.
      * rewrite <- (length_map entry_kv). f_equal. clear -Hcont. unfold file_pairs, VersionGet.level_entries.
        rewrite concat_map, !map_map. f_equal. apply map_ext_in. intros f Hin%list_elem_of_In. by apply Hcont.
    + clear -Hcont. unfold file_pairs, VersionGet.level_entries.
      rewrite concat_map, !map_map. f_equal. apply map_ext_in. intros f Hin%list_elem_of_In. by apply Hcont.
Qed.

(** *** Merges *)

Lemma entries_fit es : Forall entry_ok es -> Forall (fun kv => fits (fst kv)) (map entry_kv es).
Proof.
  intros H. rewrite list.Forall_fmap. eapply list.Forall_impl; [exact H|]. intros e (_ & Hk & _).
  unfold fits. cbn [compose entry_kv fst]. unfold entry_ikey. rewrite length_InternalKey. lia.
Qed.

Lemma merged_of its ess es :
  Forall2 child_of its ess -> Forall (es_sorted ucmp) ess -> es_sorted ucmp es -> Forall entry_ok es -> es ≡ₚ concat ess ->
  cursor_at fits icompare (MergedOps icompare ChildOps) (map entry_kv es) (NewMergingIterator icompare ChildOps its) (length es).
Proof.
  intros Hc Hs Hes Hok HP.
  destruct (merged_correct fits icompare ChildOps its (map (map entry_kv) ess)
    (map (fun es => cursor_at fits icompare ChildOps (map entry_kv es)) ess) (map entry_kv es)) as (pos & C & Hp).
  - clear -Hc. induction Hc as [|it es its ess Hit Hc IH]; [constructor|]. cbn [map]. constructor; [|done].
    split; [apply _|]. rewrite length_map. exact Hit.
  - rewrite list.Forall_fmap. eapply list.Forall_impl; [exact Hs|]. intros x Hx. cbn. rewrite entry_kv_keys. by apply es_sorted_keys.
  - rewrite entry_kv_keys. by apply es_sorted_keys.
  - rewrite <- concat_map. by rewrite HP.
  - by apply entries_fit.
  - exists pos. split; [done|]. by rewrite length_map in Hp.
Qed.

(** The lists of a version's children. *)
Definition version_lists (v : Version) : list (list Entry) :=
  map file_entries (level_files v 0) ++ map (fun l => level_entries (level_files v l)) (seq 1 (kNumLevels - 1)).

Lemma version_lists_perm v : concat (version_lists v) ≡ₚ concat (version_sources contents v).
Proof.
  unfold version_lists, version_sources. rewrite !List.concat_app. f_equiv.
  by rewrite sort_newest_perm.
Qed.

Lemma AddIterators_of n v tc pre :
  tc_ok (length (level_files v 0) + S n) tc -> version_holds ucmp is_table contents v ->
  exists tc' its ess, AddIterators ucmp TI error_iterator tc_NewIterator v tc pre = Some (tc', pre ++ its) /\ tc_ok (S n) tc' /\
    Forall2 child_of its ess /\ Forall (es_sorted ucmp) ess /\ concat ess = concat (version_lists v).
Proof.
  intros Htc Hv. unfold AddIterators.
  destruct (open_files_of (S n) tc (level_files v 0) Htc (vh_files _ _ _ _ Hv 0)) as (tc1 & its & -> & Htc1 & Hits).
  cbn [mbind option_bind]. set (levels := List.filter _ (seq 1 _)).
  exists tc1. eexists _, (map file_entries (level_files v 0) ++ map (fun l => level_entries (level_files v l)) levels).
  split; [done|]. split; [done|].
  assert (forall l, l ∈ levels -> (0 < l)%nat) as Hl.
  { intros l Hl. unfold levels in Hl. apply list_elem_of_In, filter_In in Hl as [Hl _].
    apply list_elem_of_In, elem_of_seq in Hl. lia. }
  split; [|split].
  - apply Forall2_app; [done|]. apply Forall2_fmap. apply Forall_Forall2_diag, list.Forall_forall. intros l Hin. specialize (Hl l Hin).
    destruct (vh_disjoint _ _ _ _ Hv l Hl) as [Hd Hlen]. eapply level_child_of; [exact Htc1|by apply Hv|done|done].
  - apply Forall_app. split.
    + rewrite list.Forall_fmap. eapply list.Forall_impl; [apply (vh_files _ _ _ _ Hv 0)|]. intros f Hf. apply Hf.
    + rewrite list.Forall_fmap. apply list.Forall_forall. intros l Hin. specialize (Hl l Hin). cbn.
      eapply (level_entries_sorted ucmp is_table); [by apply (vh_disjoint _ _ _ _ Hv l Hl)|apply Hv].
  - unfold version_lists, levels. rewrite !List.concat_app. f_equal. clear. induction (seq 1 _) as [|l ls IH]; [done|].
    cbn [List.filter map concat]. destruct (length (level_files v l) =? 0)%nat eqn:E; cbn [negb map concat].
    + apply Nat.eqb_eq, length_zero_iff_nil in E. rewrite E. exact IH.
    + by rewrite IH.
Qed.
(** The input files of a compaction at [level], or at the level below it. *)
Definition inputs_ok (level : nat) files : Prop :=
  Forall file_holds files /\ zlen files < 2 ^ 31 /\ ((0 < level)%nat -> disjoint_files ucmp files).

Lemma input_children_of n tc level files :
  tc_ok (length files + S n) tc -> inputs_ok level files ->
  exists tc' its ess, input_children ucmp TI error_iterator tc_NewIterator tc level files = Some (tc', its) /\ tc_ok (S n) tc' /\
    Forall2 child_of its ess /\ Forall (es_sorted ucmp) ess /\ concat ess = level_entries files.
Proof.
  intros Htc (Hf & Hlen & Hd). unfold input_children.
  assert (forall k tc, tc_ok (k + S n) tc -> tc_ok (S n) tc) as Hweak.
  { intros k. induction k as [|k IH]; intros t Ht; [done|]. by apply IH, ti_weaken. }
  destruct (length files =? 0)%nat eqn:E0.
  { apply Nat.eqb_eq, length_zero_iff_nil in E0 as ->. exists tc, [], []. repeat split; try done; constructor. }
  destruct (level =? 0)%nat eqn:El.
  - destruct (open_files_of (S n) tc files Htc Hf) as (tc1 & its & -> & Htc1 & Hits).
    exists tc1, its, (map file_entries files). repeat split; try done.
    rewrite list.Forall_fmap. eapply list.Forall_impl; [exact Hf|]. intros f Hff. apply Hff.
  - apply Nat.eqb_neq in El. specialize (Hd ltac:(lia)).
    exists tc. eexists _, [level_entries files]. split; [done|]. split; [by eapply Hweak|]. split; [|split].
    + constructor; [|constructor]. by eapply level_child_of; [eapply Hweak|..].
    + constructor; [|constructor]. by apply (level_entries_sorted ucmp is_table).
    + apply app_nil_r.
Qed.

(** The input of a compaction is read in key order, each entry once. *)
Lemma MakeInputIterator_of n tc c es :
  tc_ok (length (inputs0 c) + (length (inputs1 c) + S n)) tc ->
  inputs_ok (c_level c) (inputs0 c) -> inputs_ok (c_level c + 1) (inputs1 c) ->
  es_sorted ucmp es -> Forall entry_ok es -> es ≡ₚ level_entries (inputs0 c) ++ level_entries (inputs1 c) ->
  exists tc' it, MakeInputIterator ucmp TI error_iterator tc_NewIterator tc c = Some (tc', it) /\ tc_ok (S n) tc' /\
    cursor_at fits icompare (MergedOps icompare ChildOps) (map entry_kv es) it (length es).
Proof.
  intros Htc H0 H1 Hs Hok HP. unfold MakeInputIterator. rewrite Nat.add_succ_r in Htc.
  destruct (input_children_of (length (inputs1 c) + n) tc _ _ Htc H0) as (tc1 & its0 & ess0 & -> & Htc1 & Hc0 & Hs0 & E0).
  cbn [mbind option_bind]. rewrite <- Nat.add_succ_r in Htc1.
  destruct (input_children_of n tc1 _ _ Htc1 H1) as (tc2 & its1 & ess1 & -> & Htc2 & Hc1 & Hs1 & E1).
  cbn [mbind option_bind]. eexists _, _. split; [done|]. split; [done|]. apply (merged_of _ (ess0 ++ ess1)); try done.
  - by apply Forall2_app.
  - by apply Forall_app.
  - rewrite HP, List.concat_app, E0, E1. done.
Qed.

(** The database's internal iterator goes over the memtables and the version. *)
Lemma merge_internal_of n tc mem mem_es imm imm_es v es :
  tc_ok (length (level_files v 0) + S n) tc -> version_holds ucmp is_table contents v ->
  mem_list ucmp mem mem_es -> match imm with Some m => mem_list ucmp m imm_es | None => imm_es = [] end ->
  es_sorted ucmp es -> Forall entry_ok es -> es ≡ₚ mem_es ++ imm_es ++ concat (version_sources contents v) ->
  exists tc' it, merge_internal ucmp TI error_iterator tc_NewIterator mem imm v tc = Some (tc', it) /\ tc_ok (S n) tc' /\
    cursor_at fits icompare (MergedOps icompare ChildOps) (map entry_kv es) it (length es).
Proof.
  intros Htc Hv Hmem Himm Hs Hok HP. unfold merge_internal, internal_children.
  set (pre := mem_child ucmp TI error_iterator tc_NewIterator mem :: _).
  destruct (AddIterators_of n v tc pre Htc Hv) as (tc1 & its & ess & -> & Htc1 & Hc & Hss & Ee). cbn [mbind option_bind].
  eexists _, _. split; [done|]. split; [done|].
  assert (exists pess, Forall2 child_of pre pess /\ Forall (es_sorted ucmp) pess /\ concat pess = mem_es ++ imm_es) as (pess & Hp1 & Hp2 & Hp3).
  { unfold pre. destruct imm as [m|].
    - exists [mem_es; imm_es]. split; [repeat constructor; by apply mem_child_of|]. split; [|cbn; by rewrite app_nil_r].
      repeat constructor; [apply Hmem|apply Himm].
    - exists [mem_es]. split; [repeat constructor; by apply mem_child_of|]. split; [repeat constructor; apply Hmem|]. by rewrite Himm. }
  apply (merged_of _ (pess ++ ess)); try done.
  - by apply Forall2_app.
  - by apply Forall_app.
  - rewrite HP, List.concat_app, Hp3, Ee, version_lists_perm, app_assoc. done.
Qed.
End Correct.
