(* ===== verification/TableCache.v ===== *)
(** * The table cache

    src/db/table_cache.cc: the open tables, kept in a cache under their file
    numbers.  The model works over any cache that keeps the contract
    [CacheLaws]; the environment is the function that opens a file for reading.
    The main facts are that a read through the cache is a read of the table file
    with that number, and that [Version::Get] over the table cache therefore
    answers with the newest visible entry of the version. *)

From Stdlib Require Import SpecFloat.
From stdpp Require Import gmap sets sorting.
From S2P Require Import Prelude Slice Coding Crc32c Comparator DbFormat Hash Cache WriteBatch LogFormat Filename Iterator.
From S2P Require Import SkipList MemTable Entries BlockBuilder Block TwoLevelIterator Format FilterBlock TableBuilder Table.
From S2P Require Import VersionEdit VersionFiles VersionBuilder VersionGet VersionIter.

(** [struct TableAndFile] *)
Record TableAndFile := mkTableAndFile { tf_file : RandomAccessFile; tf_table : Table }.

Section Operations.
Context (extend : Z -> bytes -> Z) (z : Compression) (C : CacheOps TableAndFile).

(** The constant fields of [class TableCache]; the environment is what opens a
    file for reading, and [cache_id] what the block cache gives a new table. *)
Context (dbname_ : bytes) (options_ : Options) (NewRandomAccessFile : bytes -> Status * option RandomAccessFile)
  (cache_id : Z).

(** [TableCache::FindTable] *)
Definition FindTable (cache_ : CState C) (file_number file_size : Z) : option (CState C * Status * option (CHandle C)) :=
  let key := EncodeFixed64 file_number in
  match cache_Lookup C cache_ key with
  | (cache_, Some handle) => Some (cache_, Status_OK, Some handle)
  | (cache_, None) =>
      fname ← TableFileName dbname_ file_number;
      let '(s, file) := NewRandomAccessFile fname in
      '(s, file) ← (if negb (ok s) then
          old_fname ← SSTTableFileName dbname_ file_number;
          let '(s', file') := NewRandomAccessFile old_fname in
          Some (if ok s' then (Status_OK, file') else (s, file))
        else Some (s, file));
      if negb (ok s) then Some (cache_, s, None)
      else
        file ← file;
        '(s, table) ← Table_Open extend z options_ file file_size cache_id;
        if negb (ok s) then Some (cache_, s, None)
        else
          table ← table;
          let '(cache_, handle) := cache_Insert C cache_ key (mkTableAndFile file table) 1 in
          Some (cache_, s, Some handle)
  end.

(** The iterators that [NewIterator] may return. *)
Inductive AnyIterator := TableIter (t : Table) (verify_checksums : bool) | NoIter.
Definition any_ops (i : AnyIterator) : IteratorOps :=
  match i with TableIter t verify => Table_Iterator extend z t verify | NoIter => EmptyIterator end.
Definition AnyOps : IteratorOps := Dispatch any_ops.
Definition table_iter (t : Table) (verify : bool) : IState AnyOps :=
  existT (TableIter t verify) (Table_NewIterator extend z t verify).
Definition error_iter (s : Status) : IState AnyOps := existT NoIter (NewErrorIterator s).

(** [TableCache::NewIterator]: the iterator with the handle that its cleanup
    releases, and the table. *)
Definition TableCache_NewIterator (verify_checksums : bool) (cache_ : CState C) (file_number file_size : Z)
    : option (CState C * IState AnyOps * option (CHandle C) * option Table) :=
  '(cache_, s, handle) ← FindTable cache_ file_number file_size;
  if negb (ok s) then Some (cache_, error_iter s, None, None)
  else
    handle ← handle;
    tf ← cache_Value C cache_ handle;
    Some (cache_, table_iter (tf_table tf) verify_checksums, Some handle, Some (tf_table tf)).

(** The same for a caller that does not ask for the table; the handle goes with
    the iterator. *)
Definition tc_NewIterator (verify_checksums : bool) (cache_ : CState C) (file_number file_size : Z)
    : option (CState C * IState AnyOps) :=
  '(cache_, it, _, _) ← TableCache_NewIterator verify_checksums cache_ file_number file_size; Some (cache_, it).

(** [UnrefEntry] *)
Definition UnrefEntry (cache_ : CState C) (handle : CHandle C) : CState C := cache_Release C cache_ handle.

(** [TableCache::Get]: the status and the pair handed to the callback. *)
Definition TableCache_Get (verify_checksums : bool) (cache_ : CState C) (file_number file_size : Z) (k : bytes)
    : option (CState C * Status * option (bytes * bytes)) :=
  '(cache_, s, handle) ← FindTable cache_ file_number file_size;
  if ok s then
    handle ← handle;
    tf ← cache_Value C cache_ handle;
    '(s, result) ← InternalGet extend z (tf_table tf) verify_checksums k;
    Some (cache_Release C cache_ handle, s, result)
  else Some (cache_, s, None).

(** [TableCache::Evict] *)
Definition Evict (cache_ : CState C) (file_number : Z) : CState C := cache_Erase C cache_ (EncodeFixed64 file_number).
End Operations.

(** ** Proofs *)

Section Correct.
Context (extend : Z -> bytes -> Z) `{!CrcLaws extend} (z : Compression) `{!CompressionLaws z}.
Context (ucmp : Comparator) `{!ComparatorLaws ucmp} (o : Options) (policy : option FilterPolicy).
Context (ok_keys : list bytes -> Prop).
Abbreviation icompare := (InternalKeyComparator.Compare ucmp).

(** The options a database gives its tables: the internal comparator, and the
    user's filter policy on user keys. *)
Class DbTableOptions : Prop := {
  dto_comparator : comparator o = InternalKeyComparator.make ucmp;
  dto_policy : filter_policy o = InternalFilterPolicy <$> policy;
  dto_interval : 1 <= block_restart_interval o;
  dto_filter : forall p, filter_policy o = Some p -> FilterPolicyLaws ok_keys p /\ zlen (FilterPolicy_Name p) < 2 ^ 31 }.
Context `{!DbTableOptions}.

#[local] Instance table_comparator_laws : ComparatorLaws (comparator o).
Proof using All. rewrite dto_comparator. apply _. Qed.
#[local] Instance table_shortening : Shortening (comparator o).
Proof using All. rewrite dto_comparator. apply _. Qed.

(** The bytes of a table that holds the entries [es]. *)
Record table_bytes (es : list Entry) (tbl : bytes) : Prop := {
  tby_layout : exists ds idx, table_layout extend z o (map entry_kv es) tbl ds idx;
  tby_sorted : es_sorted ucmp es;
  tby_size : pairs_size (map entry_kv es) + 20 * zlen es + 8 < 2 ^ 32;
  tby_keys : forall ks, (length ks <= length es)%nat -> ok_keys ks;
  tby_length : zlen tbl < 2 ^ 32 }.

(** An open table that answers for [es]. *)
Record table_holds (es : list Entry) (t : Table) : Prop := {
  th_cursor : forall verify, exists pos, Cursor icompare (Table_Iterator extend z t verify) (map entry_kv es) pos /\
    pos (Table_NewIterator extend z t verify) (length es);
  th_get : forall verify u s, exists res, InternalGet extend z t verify (seek_key u s) = Some (Status_OK, res) /\
    (res = None \/ res = entry_kv <$> seek_entry_pos ucmp es u s) /\
    (forall e, seek_entry_pos ucmp es u s = Some e -> e_key e = u -> res = Some (entry_kv e)) }.

Lemma table_bytes_open es tbl file cid :
  table_bytes es tbl -> ReliableRandomReads file tbl ->
  exists t, Table_Open extend z o file (zlen tbl) cid = Some (Status_OK, Some t) /\ table_holds es t.
Proof using All.
  intros [(ds & idx & Hl) Hs Hsz Hok Hlen] Hf. set (kvs := map entry_kv es) in *.
  assert (forall ks, (length ks <= length kvs)%nat -> ok_keys ks) as Hok' by (unfold kvs; by rewrite length_map).
  assert (Compare (comparator o) = icompare) as Ec by by rewrite dto_comparator.
  assert (sorted_keys (Compare (comparator o)) (map fst kvs)) as Hsort.
  { rewrite Ec. unfold kvs. rewrite entry_kv_keys. by apply es_sorted_keys. }
  assert (pairs_size kvs + 20 * zlen kvs + 8 < 2 ^ 32) as Hkv by (unfold kvs at 2; by rewrite length_map).
  destruct (Table_Open_opened extend z o dto_interval kvs tbl ds idx Hl Hlen file ok_keys dto_filter Hok' cid) as (t & Ht & Hop).
  exists t. split; [exact Ht|]. split.
  - intros verify. destruct (table_cursor extend z o dto_interval kvs tbl ds idx Hl Hsort Hkv Hlen file t Hop verify)
      as (pos & Hc & Hp). exists pos. rewrite Ec in Hc. split; [done|]. unfold kvs in Hp. by rewrite length_map in Hp.
  - intros verify u s.
    destruct (InternalGet_spec extend z o dto_interval kvs tbl ds idx Hl Hsort Hkv Hlen file t Hop verify
      (fun k k' => ExtractUserKey k = ExtractUserKey k')) with (k := seek_key u s) as (res & E & H1 & H2).
    + intros a l x Hsl Hsx Hx Hu. rewrite dto_comparator in Hsl, Hsx, Hx.
      apply (internal_separator_gap ucmp a l x Hsl Hsx Hx). rewrite Hu. apply (cmp_refl (Compare ucmp)).
    + intros p Hp x y g Hxy. rewrite dto_policy in Hp. destruct policy as [q|]; [|done].
      injection Hp as <-. cbn. by rewrite Hxy.
    + exists res. split; [exact E|]. rewrite Ec in H1, H2. unfold kvs in H1, H2. rewrite entry_kv_keys in H1, H2.
      change (map entry_kv es) with (entry_kv <$> es) in H1, H2. rewrite list_lookup_fmap in H1, H2.
      fold (seek_entry_pos ucmp es u s) in H1, H2. split; [exact H1|]. intros e He Hk. apply H2.
      * by rewrite He.
      * cbn [entry_kv fst]. rewrite ExtractUserKey_entry, <- Hk. apply ExtractUserKey_InternalKey.
Qed.

(** *** The cache of tables *)

Context (C : CacheOps TableAndFile) (limit : Z)
  (rep : CState C -> (bytes -> option TableAndFile) -> list (CHandle C * TableAndFile) -> Prop) `{!CacheLaws C limit rep}.
Context (dbname : bytes) (open_file : bytes -> Status * option RandomAccessFile) (cid : Z).
Context (contents : Z -> list Entry).

(** The file [n] is a table of [size] bytes, under its new or its old name; only
    a positive number has a name. *)
Definition table_on_disk (n size : Z) : Prop :=
  0 < n /\ exists file tbl, table_bytes (contents n) tbl /\ ReliableRandomReads file tbl /\ size = zlen tbl /\
    (open_file (table_name dbname n) = (Status_OK, Some file) \/
     ok (fst (open_file (table_name dbname n))) = false /\ open_file (sst_name dbname n) = (Status_OK, Some file)).

(** The cache knows tables by their numbers, and users hold [hs]. *)
Definition cache_tables (cache : CState C) (hs : list (CHandle C * TableAndFile)) : Prop :=
  exists m, rep cache m hs /\
    forall n tf, 0 <= n < 2 ^ 64 -> m (EncodeFixed64 n) = Some tf -> table_holds (contents n) (tf_table tf).

Lemma EncodeFixed64_inj a b : 0 <= a < 2 ^ 64 -> 0 <= b < 2 ^ 64 -> EncodeFixed64 a = EncodeFixed64 b -> a = b.
Proof.
  intros Ha Hb E. rewrite <- (Fixed64_roundtrip a [] Ha), <- (Fixed64_roundtrip b [] Hb). by rewrite E.
Qed.

Lemma FindTable_spec cache hs n size :
  cache_tables cache hs -> zlen hs < limit -> 0 <= n < 2 ^ 64 -> table_on_disk n size ->
  exists cache' h tf, FindTable extend z C dbname o open_file cid cache n size = Some (cache', Status_OK, Some h) /\
    cache_tables cache' ((h, tf) :: hs) /\ cache_Value C cache' h = Some tf /\ table_holds (contents n) (tf_table tf).
Proof using All.
  intros (m & Hr & Hm) Hlim Hn (Hpos & file & tbl & Htb & Hf & -> & Hopen). unfold FindTable.
  pose proof (cache_lookup cache m hs (EncodeFixed64 n) Hr) as HL.
  destruct (cache_Lookup C cache (EncodeFixed64 n)) as [cache1 [h|]].
  { destruct HL as (tf & Hk & Hr'). exists cache1, h, tf. split; [done|]. split; [by exists m|].
    split; [by eapply (cache_value cache1 m _ h tf Hr'); left|by apply Hm]. }
  destruct HL as [_ Hr1]. destruct (table_bytes_open (contents n) tbl file cid Htb Hf) as (t & Et & Ht).
  rewrite TableFileName_pos, SSTTableFileName_pos by done. cbn [mbind option_bind].
  assert ((let '(s, file) := open_file (table_name dbname n) in
    if negb (ok s) then let '(s', file') := open_file (sst_name dbname n) in
      Some (if ok s' then (Status_OK, file') else (s, file)) else Some (s, file)) = Some (Status_OK, Some file)) as Eo.
  { destruct Hopen as [-> |[Hf1 ->]]; [done|]. destruct (open_file (table_name dbname n)) as [s f0]. cbn [fst] in Hf1.
    by rewrite Hf1. }
  destruct (open_file (table_name dbname n)) as [s0 f0].
  destruct (if negb (ok s0) then _ else _) as [[s1 f1]|]; [|done]. injection Eo as -> ->.
  cbn [ok Status_OK state_ negb mbind option_bind]. rewrite Et. cbn [mbind option_bind ok Status_OK state_ negb].
  pose proof (cache_insert cache1 m hs (EncodeFixed64 n) (mkTableAndFile file t) 1 Hr1 ltac:(lia) Hlim) as HI.
  destruct (cache_Insert C cache1 (EncodeFixed64 n) (mkTableAndFile file t) 1) as [cache2 h].
  destruct HI as (m' & Hr2 & Hm'). exists cache2, h, (mkTableAndFile file t). split; [done|]. split.
  - exists m'. split; [done|]. intros n' tf Hn' [[E ->]|[_ Hk]]%Hm'; [|by apply Hm].
    by rewrite (EncodeFixed64_inj n' n Hn' Hn E).
  - split; [by eapply (cache_value cache2 m' _ h _ Hr2); left|done].
Qed.

Context (hs : list (CHandle C * TableAndFile)) (Hhs : zlen hs < limit).

(** Reading through the cache is reading the table file. *)
#[export] Instance table_cache_reads verify :
  TableReads ucmp (TableCache_Get extend z C dbname o open_file cid verify) (fun cache => cache_tables cache hs)
    (fun f => 0 <= number f < 2 ^ 64 /\ table_on_disk (number f) (file_size f)) contents.
Proof using All.
  intros cache f u s Hok [Hn Hdisk].
  destruct (FindTable_spec cache hs (number f) (file_size f) Hok Hhs Hn Hdisk) as (cache' & h & tf & E & Hok' & Hv & Ht).
  unfold TableCache_Get. rewrite E. cbn [mbind option_bind ok Status_OK state_]. rewrite Hv. cbn [mbind option_bind].
  destruct (th_get _ _ Ht verify u s) as (res & Eg & Hres & Hhit). rewrite Eg. cbn [mbind option_bind].
  exists (cache_Release C cache' h), res. split; [done|]. split; [|by split].
  destruct Hok' as (m & Hr & Hm). exists m. split; [by eapply (cache_release cache' m _ hs h tf)|done].
Qed.

(** An iterator of the cache is a cursor over the table's entries, and holds
    the table open. *)
Lemma TableCache_NewIterator_spec verify cache n size :
  cache_tables cache hs -> 0 <= n < 2 ^ 64 -> table_on_disk n size ->
  exists cache' it h tf t pos,
    TableCache_NewIterator extend z C dbname o open_file cid verify cache n size = Some (cache', it, Some h, Some t) /\
    cache_tables cache' ((h, tf) :: hs) /\
    Cursor icompare (AnyOps extend z) (map entry_kv (contents n)) pos /\ pos it (length (contents n)).
Proof using All.
  intros Hok Hn Hdisk.
  destruct (FindTable_spec cache hs n size Hok Hhs Hn Hdisk) as (cache' & h & tf & E & Hok' & Hv & Ht).
  unfold TableCache_NewIterator. rewrite E. cbn [mbind option_bind ok Status_OK state_ negb]. rewrite Hv. cbn [mbind option_bind].
  destruct (th_cursor _ _ Ht verify) as (pos & Hc & Hp).
  exists cache', (table_iter extend z (tf_table tf) verify), h, tf, (tf_table tf),
    (dispatch_pos (any_ops extend z) (TableIter (tf_table tf) verify) pos).
  split; [done|]. split; [done|]. split; [by apply dispatch_cursor|]. by exists (Table_NewIterator extend z (tf_table tf) verify).
Qed.

(** The cache's iterators, as a client of the cache uses them: [n] more handles
    fit the counters. *)
Definition cache_room (n : nat) (cache : CState C) : Prop :=
  exists hs, cache_tables cache hs /\ zlen hs + Z.of_nat n <= limit.

(** A file that is evicted is read again from the disk. *)
Lemma Evict_spec cache n :
  0 <= n < 2 ^ 64 -> cache_tables cache hs -> cache_tables (Evict C cache n) hs.
Proof using All.
  intros Hn (m & Hr & Hm). exists (fun k => if decide (k = EncodeFixed64 n) then None else m k).
  split; [by apply (cache_erase cache)|]. intros n' tf Hn'. destruct (decide _); [done|]. by apply Hm.
Qed.
End Correct.

#[export] Instance table_cache_iters extend `{!CrcLaws extend} z `{!CompressionLaws z} ucmp `{!ComparatorLaws ucmp} o policy
    ok_keys `{!DbTableOptions ucmp o policy ok_keys} C limit rep `{!CacheLaws C limit rep} dbname open_file cid contents verify :
  TableIters ucmp (AnyOps extend z) (tc_NewIterator extend z C dbname o open_file cid verify)
    (cache_room extend z ucmp C limit rep contents)
    (fun f => 0 <= number f < 2 ^ 64 /\ table_on_disk extend z ucmp o ok_keys dbname open_file contents (number f) (file_size f))
    contents.
Proof.
  split.
  - intros n cache f (hs & Hc & Hl) [Hn Hd].
    destruct (TableCache_NewIterator_spec extend z ucmp o policy ok_keys C limit rep dbname open_file cid contents hs
      ltac:(lia) verify cache (number f) (file_size f) Hc Hn Hd) as (cache' & it & h & tf & t & pos & E & Hc' & HC & Hp).
    exists cache', it. unfold tc_NewIterator. rewrite E. split; [done|]. split; [|by exists pos].
    exists ((h, tf) :: hs). split; [done|]. cbn [length]. lia.
  - intros n cache (hs & Hc & Hl). exists hs. split; [done|]. lia.
  - intros f [Hn (_ & file & tbl & Ht & _ & -> & _)]. split; [done|]. pose proof (tby_length _ _ _ _ _ _ _ Ht) as H.
    change (2 ^ 32) with 4294967296 in H. change (2 ^ 64) with 18446744073709551616. lia.
Qed.

(** A table that [TableBuilder] wrote. *)
Lemma build_table_bytes extend `{!CrcLaws extend} z `{!CompressionLaws z} W wcontents `{!ReliableWrites W wcontents}
    ucmp `{!ComparatorLaws ucmp} o policy ok_keys `{!DbTableOptions ucmp o policy ok_keys} es (f : WFile W) :
  es_sorted ucmp es -> pairs_size (map entry_kv es) + 20 * zlen es + 8 < 2 ^ 32 ->
  (forall ks, (length ks <= length es)%nat -> ok_keys ks) -> wcontents f = [] ->
  let r := build_table extend z o f (map entry_kv es) in
  zlen (wcontents (file (fst r))) < 2 ^ 32 ->
  snd r = Status_OK /\ table_bytes extend z ucmp o ok_keys es (wcontents (file (fst r))).
Proof.
  intros Hs Hsz Hok Hf r Hlen. assert (table_input o ok_keys (map entry_kv es)) as Hin.
  { split; [by eapply dto_interval| | |by eapply dto_filter|by rewrite length_map].
    - rewrite (dto_comparator ucmp o policy ok_keys), entry_kv_keys. by apply es_sorted_keys.
    - by rewrite length_map. }
  destruct (build_layout extend z W wcontents o ok_keys _ f Hin Hf Hlen) as (E & Hl).
  split; [done|]. by split.
Qed.

(** ** Properties *)

(** C16: [Version::Get] over the table cache answers with the newest entry of
    the user key that the sequence number may see, among all the files of the
    version: its value, or "not found" when it is a deletion or there is none;
    whatever the cache still holds of the tables, and for every cache that keeps
    its contract. *)
Theorem version_get_newest (extend : Z -> bytes -> Z) (z : Compression) (ucmp : Comparator) (o : Options)
    (policy : option FilterPolicy) (ok_keys : list bytes -> Prop) (C : CacheOps TableAndFile) (limit : Z) rep
    (dbname : bytes) (open_file : bytes -> Status * option RandomAccessFile) (cid : Z) (contents : Z -> list Entry)
    (verify : bool) (hs : list (CHandle C * TableAndFile)) (v : Version) (cache : CState C) (u : bytes) (s : Z) :
  CrcLaws extend -> CompressionLaws z -> ComparatorLaws ucmp -> ExactComparator ucmp ->
  DbTableOptions ucmp o policy ok_keys -> CacheLaws C limit rep -> zlen hs < limit ->
  version_holds ucmp
    (fun f => 0 <= number f < 2 ^ 64 /\ table_on_disk extend z ucmp o ok_keys dbname open_file contents (number f) (file_size f))
    contents v ->
  cache_tables extend z ucmp C rep contents cache hs -> 0 <= s <= kMaxSequenceNumber ->
  exists cache' stats, cache_tables extend z ucmp C rep contents cache' hs /\
    Version_Get ucmp (TableCache_Get extend z C dbname o open_file cid verify) v cache (LookupKey_new u s) =
    Some match newest ucmp (concat (version_sources contents v)) u s with
         | Some e => match e_type e with
                     | kTypeValue => (cache', Status_OK, Some (e_value e), stats)
                     | kTypeDeletion => (cache', NotFound [], None, stats)
                     end
         | None => (cache', NotFound [], None, stats)
         end.
Proof.
  intros ? ? ? ? ? ? Hl Hv Hc Hs.
  pose proof (table_cache_reads extend z ucmp o policy ok_keys C limit rep dbname open_file cid contents hs Hl verify) as HT.
  exact (Version_Get_spec ucmp _ _ _ contents u s Hs v cache Hv Hc).
Qed.

(** Two tables: a newer one in level 0, an older one in level 1. *)
Definition sample_policy := NewBloomFilterPolicy 10.
Definition sample_db_options : Options :=
  mkOptions (InternalKeyComparator.make BytewiseComparator) true 40 2 kNoCompression 1 (Some (InternalFilterPolicy sample_policy)).
Definition sample_ok_keys (ks : list bytes) : Prop := bloom_ok_keys (map ExtractUserKey ks).

#[export] Instance sample_db_table_options :
  DbTableOptions BytewiseComparator sample_db_options (Some sample_policy) sample_ok_keys.
Proof.
  split; [done|done|cbn; lia|]. intros p [= <-]. split; [apply internal_filter_laws, bloom_laws; lia|vm_compute; reflexivity].
Qed.

Definition sample_contents (n : Z) : list Entry :=
  if n =? 9 then [mkEntry 12 kTypeDeletion (str:"a") []; mkEntry 11 kTypeValue (str:"c") (str:"new")]
  else [mkEntry 3 kTypeValue (str:"a") (str:"x"); mkEntry 5 kTypeValue (str:"b") (str:"y"); mkEntry 4 kTypeValue (str:"c") (str:"old")].
Definition sample_file (n : Z) : bytes :=
  file (fst (build_table Extend_ref no_compression sample_db_options (W:=MemWritable) [] (map entry_kv (sample_contents n)))).
Definition sample_open (fname : bytes) : Status * option RandomAccessFile :=
  if bool_decide (fname = table_name (str:"db") 9) then (Status_OK, Some (MemRandomAccess (sample_file 9)))
  else if bool_decide (fname = sst_name (str:"db") 7) then (Status_OK, Some (MemRandomAccess (sample_file 7)))
  else (NotFound fname, None).
Definition sample_meta (n : Z) (small large : bytes) : FileMetaData := mkFile 1 100 n (zlen (sample_file n)) small large.
Definition sample_version : Version :=
  mkVersion [[sample_meta 9 (InternalKey (str:"a") 12 kTypeDeletion) (InternalKey (str:"c") 11 kTypeValue)];
             [sample_meta 7 (InternalKey (str:"a") 3 kTypeValue) (InternalKey (str:"c") 4 kTypeValue)]; []; []; []; []; []]
    None (-1) S754_nan 0.

(** Ways to open the two files. *)
Definition opens_sample (open : bytes -> Status * option RandomAccessFile) : Prop :=
  open (table_name (str:"db") 9) = (Status_OK, Some (MemRandomAccess (sample_file 9))) /\
  ok (fst (open (table_name (str:"db") 7))) = false /\
  open (sst_name (str:"db") 7) = (Status_OK, Some (MemRandomAccess (sample_file 7))).

Lemma sample_open_opens : opens_sample sample_open.
Proof. by repeat split. Qed.

Lemma sample_table_bytes n : n = 9 \/ n = 7 ->
  table_bytes Extend_ref no_compression BytewiseComparator sample_db_options sample_ok_keys (sample_contents n) (sample_file n).
Proof.
  intros Hn.
  destruct (build_table_bytes Extend_ref no_compression MemWritable (fun f => f) BytewiseComparator sample_db_options
    (Some sample_policy) sample_ok_keys (sample_contents n) []) as [_ Hb].
  - destruct Hn as [-> | ->]; repeat constructor.
  - destruct Hn as [-> | ->]; vm_compute; reflexivity.
  - intros ks Hk. unfold sample_ok_keys, bloom_ok_keys. rewrite length_map.
    assert (length (sample_contents n) <= 3)%nat by (destruct Hn as [-> | ->]; cbn; lia). lia.
  - done.
  - destruct Hn as [-> | ->]; vm_compute; reflexivity.
  - exact Hb.
Qed.

Lemma sample_on_disk open n : opens_sample open -> n = 9 \/ n = 7 ->
  table_on_disk Extend_ref no_compression BytewiseComparator sample_db_options sample_ok_keys (str:"db") open
    sample_contents n (zlen (sample_file n)).
Proof.
  intros (O1 & O2 & O3) Hn. split; [lia|]. exists (MemRandomAccess (sample_file n)), (sample_file n).
  split; [by apply sample_table_bytes|]. split; [apply mem_random_reads|]. split; [done|].
  destruct Hn as [-> | ->]; [by left|by right].
Qed.

Lemma sample_version_of (T : FileMetaData -> Prop) :
  (forall n a b, n = 9 \/ n = 7 -> T (sample_meta n a b)) -> version_holds BytewiseComparator T sample_contents sample_version.
Proof.
  intros HT.
  assert (forall n a b, n = 9 \/ n = 7 -> Forall entry_ok (sample_contents n) -> es_sorted BytewiseComparator (sample_contents n) ->
    NoDup (map e_seq (sample_contents n)) ->
    Forall (fun e => InternalKeyComparator.Compare BytewiseComparator a (entry_ikey e) <> Gt /\
      InternalKeyComparator.Compare BytewiseComparator (entry_ikey e) b <> Gt) (sample_contents n) ->
    (exists e, e ∈ sample_contents n /\ b = entry_ikey e) ->
    file_holds BytewiseComparator T sample_contents (sample_meta n a b)) as Hfile.
  { intros n a b Hn Hok Hs Hnd Hr Hl. split; try done; [by apply HT|]. intros e He. by apply (proj1 (list.Forall_forall _ _) Hr). }
  split.
  - intros [|[|l]].
    + constructor; [|constructor]. apply Hfile; [tauto|repeat constructor; cbv; congruence|repeat constructor
        |by apply (bool_decide_unpack _)|repeat constructor; vm_compute; discriminate|].
      exists (mkEntry 11 kTypeValue (str:"c") (str:"new")). split; [by right; left|done].
    + constructor; [|constructor]. apply Hfile; [tauto|repeat constructor; cbv; congruence|repeat constructor
        |by apply (bool_decide_unpack _)|repeat constructor; vm_compute; discriminate|].
      exists (mkEntry 4 kTypeValue (str:"c") (str:"old")). split; [by right; right; left|done].
    + do 5 (destruct l as [|l]; [constructor|]). constructor.
  - apply (bool_decide_unpack _). done.
  - intros l Hl. destruct l as [|l]; [lia|]. destruct l as [|l]; [|do 5 (destruct l as [|l]; [split; [split; constructor|done]|]); split; [split; constructor|done]].
    split; [|done]. split; [|repeat constructor]. repeat constructor; vm_compute; done.
  - split; [apply (bool_decide_unpack _); done|].
    assert (forall es1 es2, Forall (fun e1 => Forall (fun e2 => Slice_compare (e_key e1) (e_key e2) = Eq -> e_seq e2 < e_seq e1) es2) es1 ->
      newer BytewiseComparator es1 es2) as Hnew.
    { intros es1 es2 H e1 e2 H1 H2. rewrite list.Forall_forall in H. specialize (H e1 H1). rewrite list.Forall_forall in H.
      by apply H. }
    change (version_sources sample_contents sample_version) with
      [sample_contents 9; sample_contents 7 ++ []; []; []; []; []; []].
    repeat constructor; apply Hnew; repeat constructor; by vm_compute.
Qed.

Lemma sample_version_holds open : opens_sample open ->
  version_holds BytewiseComparator (fun f => 0 <= number f < 2 ^ 64 /\
    table_on_disk Extend_ref no_compression BytewiseComparator sample_db_options sample_ok_keys (str:"db") open
      sample_contents (number f) (file_size f)) sample_contents sample_version.
Proof.
  intros Hopen. apply sample_version_of. intros n a b Hn. split; [cbn [sample_meta number]; lia|by apply sample_on_disk].
Qed.

Lemma sample_cache_limit : 1000 < 2 ^ 31 - 1.
Proof. done. Qed.

Lemma version_get_newest_witness :
  exists cache' stats,
    Version_Get BytewiseComparator
      (TableCache_Get Extend_ref no_compression NewLRUCache (str:"db") sample_db_options sample_open 0 true)
      sample_version (SharedLRUCache_new 990) (LookupKey_new (str:"c") 8) =
    Some (cache', Status_OK, Some (str:"old"), stats).
Proof.
  destruct (version_get_newest Extend_ref no_compression BytewiseComparator sample_db_options (Some sample_policy) sample_ok_keys
    NewLRUCache 1000 (shared_rep 1000) (str:"db") sample_open 0 sample_contents true [] sample_version (SharedLRUCache_new 990)
    (str:"c") 8 _ _ _ _ _ (shared_cache_laws 1000 sample_cache_limit) ltac:(done) (sample_version_holds _ sample_open_opens))
    as (cache' & stats & _ & E).
  - exists (fun _ => None). split; [|done]. apply shared_new_rep; [done|lia].
  - done.
  - exists cache', stats. rewrite E. reflexivity.
Defined.
