(* ===== verification/Env.v ===== *)
(** * The environment

    include/env.h and src/util/env.cc: the interface through which the
    database reaches files, and the helpers built on it, with [SetCurrentFile]
    of src/db/filename.cc.

    [Env] is the interface as a record of operations on a world.  A file that
    is open for writing owns its bytes until it is deleted, which hands them to
    the world; nothing in the database reads a file by name while it writes it.
    [EnvLaws] is the behaviour of an environment in which no call fails: the
    world is a map from file names to contents.  [MemEnv] is such an
    environment. *)

From stdpp Require Import gmap sets.
From S2P Require Import Prelude Slice LogFormat Format Filename.

#[export] Instance byte_countable : Countable byte.
Proof.
  refine (inj_countable byte.unsigned (fun n => Some (byte.of_Z n)) _).
  intros b. by rewrite byte.of_Z_unsigned.
Defined.

(** ** The interface *)

Record Env := mkEnv {
  World : Type;
  env_W : WritableFile;
  env_F : SequentialFile;
  NewSequentialFile : World -> bytes -> Status * option (SFile env_F);
  NewRandomAccessFile : World -> bytes -> Status * option RandomAccessFile;
  NewWritableFile : World -> bytes -> World * Status * option (WFile env_W);
  NewAppendableFile : World -> bytes -> World * Status * option (WFile env_W);
  FileExists : World -> bytes -> bool;
  GetChildren : World -> bytes -> Status * list bytes;
  env_RemoveFile : World -> bytes -> World * Status;
  CreateDir : World -> bytes -> World * Status;
  RemoveDir : World -> bytes -> World * Status;
  GetFileSize : World -> bytes -> Status * Z;
  RenameFile : World -> bytes -> bytes -> World * Status;
  LockFile : World -> bytes -> World * Status;
  UnlockFile : World -> bytes -> World * Status;
  (** [WritableFile::Sync], [WritableFile::Close] and the destructor *)
  Sync : WFile env_W -> WFile env_W * Status;
  Close : WFile env_W -> WFile env_W * Status;
  delete_file : World -> WFile env_W -> World
}.

Section Operations.
Context (E : Env).

(** [DoWriteStringToFile] *)
Definition DoWriteStringToFile (w : World E) (data fname : bytes) (should_sync : bool) : option (World E * Status) :=
  let '(w, s, file) := NewWritableFile E w fname in
  if negb (ok s) then Some (w, s)
  else
    file ← file;
    let '(file, s) := Append (env_W E) file data in
    let '(file, s) := if ok s && should_sync then Sync E file else (file, s) in
    let '(file, s) := if ok s then Close E file else (file, s) in
    let w := delete_file E w file in
    Some (if negb (ok s) then (fst (env_RemoveFile E w fname), s) else (w, s)).

(** [WriteStringToFile] and [WriteStringToFileSync] *)
Definition WriteStringToFile (w : World E) (data fname : bytes) : option (World E * Status) :=
  DoWriteStringToFile w data fname false.
Definition WriteStringToFileSync (w : World E) (data fname : bytes) : option (World E * Status) :=
  DoWriteStringToFile w data fname true.

Definition kBufferSize : Z := 8192.

(** The loop of [ReadFileToString]. *)
Fixpoint ReadFile_loop (fuel : nat) (file : SFile (env_F E)) (data : bytes) : option (Status * bytes) :=
  match fuel with
  | O => None
  | S fuel =>
      let '(file, fragment, s) := Read (env_F E) file kBufferSize in
      if negb (ok s) then Some (s, data)
      else
        let data := data ++ fragment in
        if (length fragment =? 0)%nat then Some (s, data) else ReadFile_loop fuel file data
  end.

(** [ReadFileToString] *)
Definition ReadFileToString (fuel : nat) (w : World E) (fname : bytes) : option (Status * bytes) :=
  let '(s, file) := NewSequentialFile E w fname in
  if negb (ok s) then Some (s, []) else file ← file; ReadFile_loop fuel file [].

(** [SetCurrentFile] *)
Definition SetCurrentFile (w : World E) (dbname : bytes) (descriptor_number : Z) : option (World E * Status) :=
  manifest ← DescriptorFileName dbname descriptor_number;
  contents ← remove_prefix (length dbname + 1) manifest;
  tmp ← TempFileName dbname descriptor_number;
  '(w, s) ← WriteStringToFileSync w (contents ++ [Byte.x0a]) tmp;
  let '(w, s) := if ok s then RenameFile E w tmp (CurrentFileName dbname) else (w, s) in
  Some (if negb (ok s) then (fst (env_RemoveFile E w tmp), s) else (w, s)).
End Operations.

(** ** An environment in which nothing fails *)

Class EnvLaws (E : Env) (files : World E -> gmap bytes bytes) (contents : WFile (env_W E) -> bytes)
    (fname : WFile (env_W E) -> bytes) (rest : SFile (env_F E) -> bytes) : Prop := {
  env_writes : ReliableWrites (env_W E) contents;
  env_reads : ReliableReads (env_F E) rest;
  Append_fname : forall f b, fname (fst (Append (env_W E) f b)) = fname f;
  Flush_fname : forall f, fname (fst (Flush (env_W E) f)) = fname f;
  Sync_spec : forall f, exists f', Sync E f = (f', Status_OK) /\ contents f' = contents f /\ fname f' = fname f;
  Close_spec : forall f, exists f', Close E f = (f', Status_OK) /\ contents f' = contents f /\ fname f' = fname f;
  delete_spec : forall w f, files (delete_file E w f) = <[fname f := contents f]> (files w);
  writable_spec : forall w n, exists w' f, NewWritableFile E w n = (w', Status_OK, Some f) /\
    files w' = <[n := []]> (files w) /\ contents f = [] /\ fname f = n;
  appendable_spec : forall w n, exists w' f, NewAppendableFile E w n = (w', Status_OK, Some f) /\
    files w' = <[n := default [] (files w !! n)]> (files w) /\ contents f = default [] (files w !! n) /\ fname f = n;
  sequential_spec : forall w n data, files w !! n = Some data ->
    exists f, NewSequentialFile E w n = (Status_OK, Some f) /\ rest f = data;
  random_spec : forall w n data, files w !! n = Some data ->
    exists f, NewRandomAccessFile E w n = (Status_OK, Some f) /\ ReliableRandomReads f data;
  random_missing : forall w n, files w !! n = None -> ok (fst (NewRandomAccessFile E w n)) = false;
  exists_spec : forall w n, FileExists E w n = bool_decide (is_Some (files w !! n));
  children_spec : forall w dir, exists ns, GetChildren E w dir = (Status_OK, ns) /\
    forall n, n ∈ ns <-> Byte.x2f ∉ n /\ is_Some (files w !! (dir ++ str:"/" ++ n));
  size_spec : forall w n data, files w !! n = Some data -> GetFileSize E w n = (Status_OK, zlen data);
  remove_spec : forall w n, files (fst (env_RemoveFile E w n)) = delete n (files w);
  rename_spec : forall w n m data, files w !! n = Some data ->
    exists w', RenameFile E w n m = (w', Status_OK) /\ files w' = <[m := data]> (delete n (files w));
  create_dir_spec : forall w d, files (fst (CreateDir E w d)) = files w;
  lock_spec : forall w n, exists w', LockFile E w n = (w', Status_OK) /\
    forall m, m <> n -> files w' !! m = files w !! m }.

(** The environment of a map in memory. *)
Definition MemFile : WritableFile :=
  mkWritableFile (bytes * bytes) (fun f b => ((fst f, snd f ++ b), Status_OK)) (fun f => (f, Status_OK)).

Definition mem_children (w : gmap bytes bytes) (dir : bytes) : list bytes :=
  filter (fun n => Byte.x2f ∉ n)
    (omap (fun p => if starts_with (fst p) (dir ++ str:"/") then Some (drop (length dir + 1) (fst p)) else None)
      (map_to_list w)).

Definition mem_missing (n : bytes) : Status := NotFound n.

Definition MemEnv : Env :=
  mkEnv (gmap bytes bytes) MemFile MemSequential
    (fun w n => match w !! n with Some d => (Status_OK, Some d) | None => (mem_missing n, None) end)
    (fun w n => match w !! n with Some d => (Status_OK, Some (MemRandomAccess d)) | None => (mem_missing n, None) end)
    (fun w n => (<[n := []]> w, Status_OK, Some (n, [])))
    (fun w n => let d := default [] (w !! n) in (<[n := d]> w, Status_OK, Some (n, d)))
    (fun w n => bool_decide (is_Some (w !! n)))
    (fun w dir => (Status_OK, mem_children w dir))
    (fun w n => (delete n w, if w !! n then Status_OK else mem_missing n))
    (fun w _ => (w, Status_OK)) (fun w _ => (w, Status_OK))
    (fun w n => match w !! n with Some d => (Status_OK, zlen d) | None => (mem_missing n, 0) end)
    (fun w n m => match w !! n with
                  | Some d => (<[m := d]> (delete n w), Status_OK) | None => (w, mem_missing n) end)
    (fun w n => (<[n := []]> w, Status_OK)) (fun w _ => (w, Status_OK))
    (fun f => (f, Status_OK)) (fun f => (f, Status_OK)) (fun w f => <[fst f := snd f]> w).

Lemma drop_dir (dir r : bytes) : drop (length dir + 1) ((dir ++ str:"/") ++ r) = r.
Proof.
  replace (length dir + 1)%nat with (length (dir ++ str:"/")) by (rewrite length_app; done). apply drop_app_length.
Qed.

Lemma mem_children_spec w dir n :
  n ∈ mem_children w dir <-> Byte.x2f ∉ n /\ is_Some (w !! (dir ++ str:"/" ++ n)).
Proof.
  unfold mem_children. rewrite list_elem_of_filter, list_elem_of_omap.
  apply and_iff_compat_l. split.
  - intros ([m d] & Hm%elem_of_map_to_list & E). cbn [fst] in E.
    destruct (starts_with m _) eqn:Es; [|done]. injection E as <-.
    apply starts_with_spec in Es as [r ->]. rewrite drop_dir. rewrite <- app_assoc in Hm. by exists d.
  - intros [d Hd]. exists (dir ++ str:"/" ++ n, d). split; [by apply elem_of_map_to_list|]. cbn [fst].
    rewrite app_assoc. rewrite (proj2 (starts_with_spec _ _)) by (by exists n). f_equal.
    apply drop_dir.
Qed.

#[export] Instance mem_env_laws : EnvLaws MemEnv (fun w => w) snd fst (fun r => r).
Proof.
  split; try done; try (intros; by eexists); try (intros; by eexists _, _).
  - exact mem_reads.
  - intros w n data H. exists data. cbn. by rewrite H.
  - intros w n data H. exists (MemRandomAccess data). cbn. rewrite H. split; [done|apply _].
  - intros w n H. cbn. by rewrite H.
  - intros w dir. exists (mem_children w dir). split; [done|]. apply mem_children_spec.
  - intros w n data H. cbn. by rewrite H.
  - intros w n m data H. eexists. cbn. by rewrite H.
  - intros w n. eexists. split; [done|]. intros m Hm. by rewrite lookup_insert_ne.
Qed.

(** ** Proofs *)

Section Correct.
Context (E : Env) (files : World E -> gmap bytes bytes) (contents : WFile (env_W E) -> bytes)
  (fname : WFile (env_W E) -> bytes) (rest : SFile (env_F E) -> bytes) `{!EnvLaws E files contents fname rest}.

(** Appending to an open file. *)
Lemma env_Append_eq f b : exists f', Append (env_W E) f b = (f', Status_OK) /\ contents f' = contents f ++ b /\ fname f' = fname f.
Proof using All.
  destruct (env_writes (E := E)) as [Hok Hc _ _]. specialize (Hok f b). specialize (Hc f b).
  pose proof (Append_fname f b) as Hn. destruct (Append (env_W E) f b) as [f' s]. cbn in *. subst s. by exists f'.
Qed.

(** A written file holds what was written. *)
Lemma DoWriteStringToFile_spec w data n sync :
  exists w', DoWriteStringToFile E w data n sync = Some (w', Status_OK) /\ files w' = <[n := data]> (files w).
Proof using All.
  unfold DoWriteStringToFile. destruct (writable_spec w n) as (w1 & f & -> & Hw & Hc & Hn). cbn [ok Status_OK state_ negb mbind option_bind].
  destruct (env_Append_eq f data) as (f1 & -> & Hc1 & Hn1). cbn [ok Status_OK state_ andb].
  destruct (Sync_spec f1) as (f2 & Es & Hc2 & Hn2). destruct (Close_spec f1) as (f3 & Ec & Hc3 & Hn3).
  assert (exists f4, (if sync then Sync E f1 else (f1, Status_OK)) = (f4, Status_OK) /\ contents f4 = data /\ fname f4 = n) as
    (f4 & -> & Hc4 & Hn4).
  { destruct sync; [exists f2|exists f1]; rewrite ?Es; (split; [done|]); split; try congruence;
      rewrite ?Hc2, ?Hc1, Hc; done. }
  cbn [ok Status_OK state_]. destruct (Close_spec f4) as (f5 & -> & Hc5 & Hn5). cbn [ok Status_OK state_ negb].
  eexists. split; [done|]. rewrite (delete_spec w1 f5), Hw, Hc5, Hn5, Hc4, Hn4. apply insert_insert_eq.
Qed.

Lemma ReadFile_loop_spec fuel file data :
  (length (rest file) < fuel)%nat -> ReadFile_loop E fuel file data = Some (Status_OK, data ++ rest file).
Proof using All.
  revert file data. induction fuel as [|fuel IH]; intros file data Hf; [lia|]. cbn [ReadFile_loop].
  destruct (Read_spec (ReliableReads := env_reads) file kBufferSize) as (f' & -> & Hr); [done|].
  cbn [ok Status_OK state_ negb]. destruct (length (take (Z.to_nat kBufferSize) (rest file)) =? 0)%nat eqn:El.
  - apply Nat.eqb_eq in El. rewrite length_take in El. assert (rest file = []) as -> by
      (apply length_zero_iff_nil; unfold kBufferSize in El; lia). done.
  - apply Nat.eqb_neq in El. rewrite IH.
    + by rewrite <- app_assoc, Hr, take_drop.
    + rewrite Hr, length_drop. rewrite length_take in El. unfold kBufferSize in *. lia.
Qed.

Lemma ReadFileToString_spec fuel w n data :
  files w !! n = Some data -> (length data < fuel)%nat -> ReadFileToString E fuel w n = Some (Status_OK, data).
Proof using All.
  intros Hd Hf. unfold ReadFileToString. destruct (sequential_spec w n data Hd) as (f & -> & Hr).
  cbn [ok Status_OK state_ negb mbind option_bind]. rewrite ReadFile_loop_spec by (by rewrite Hr). by rewrite Hr.
Qed.

(** What CURRENT holds, and what setting it changes: nothing else. *)
Definition current_contents (n : Z) : bytes := descriptor_base n ++ [Byte.x0a].

Lemma SetCurrentFile_spec w dbname n :
  0 < n -> exists w', SetCurrentFile E w dbname n = Some (w', Status_OK) /\
    files w' = <[CurrentFileName dbname := current_contents n]> (delete (temp_name dbname n) (files w)).
Proof using All.
  intros Hn. unfold SetCurrentFile. rewrite DescriptorFileName_pos, TempFileName_pos by done. cbn [mbind option_bind].
  unfold descriptor_name, remove_prefix. rewrite app_assoc.
  rewrite (proj2 (Nat.leb_le _ _)) by (rewrite !length_app; cbn; lia). rewrite drop_dir.
  cbn [mbind option_bind]. unfold WriteStringToFileSync.
  destruct (DoWriteStringToFile_spec w (descriptor_base n ++ [Byte.x0a]) (temp_name dbname n) true) as (w1 & -> & Hw1).
  cbn [mbind option_bind ok Status_OK state_ negb].
  destruct (rename_spec w1 (temp_name dbname n) (CurrentFileName dbname) (current_contents n)) as (w2 & -> & Hw2).
  { by rewrite Hw1, lookup_insert_eq. }
  cbn [ok Status_OK state_ negb]. eexists. split; [done|]. by rewrite Hw2, Hw1, delete_insert_eq.
Qed.
End Correct.
