(* ===== verification/PosixFiles.v ===== *)
(** * Files of the operating system

    src/util/env_posix.cc: the sequential, random-access, memory-mapped and
    buffered writable files over system calls.

    [Posix] is the operating system as a record of system calls on a state [Os];
    a call returns an error number or a result.  [errno] is part of the result.
    Loops that a signal may restart are bounded by fuel.  [WriteLaws] and
    [ReadLaws] are what POSIX says of [write] and [pread]: a write appends a
    non-empty part of its data or fails and appends nothing, and only finitely
    many calls are interrupted. *)

From stdpp Require Import gmap sets.
From S2P Require Import Prelude Slice LogFormat Format.

(** ** System calls *)

(** How a file is opened. *)
Inductive OpenMode := O_RdOnly | O_TruncCreate | O_AppendCreate | O_RdWrCreate.

Record Posix := mkPosix {
  Os : Type;
  sys_open : Os -> bytes -> OpenMode -> Os * (Z + Z);
  sys_close : Os -> Z -> Os * option Z;
  sys_read : Os -> Z -> Z -> Os * (Z + bytes);
  sys_pread : Os -> Z -> Z -> Z -> Z + bytes;
  sys_lseek : Os -> Z -> Z -> Os * option Z;
  sys_write : Os -> Z -> bytes -> Os * (Z + Z);
  sys_fsync : Os -> Z -> Os * option Z;
  sys_mmap : Os -> Z -> Z -> Os * (Z + Z);
  sys_munmap : Os -> Z -> Z -> Os;
  load : Os -> Z -> Z -> bytes;
  sys_access : Os -> bytes -> bool;
  sys_readdir : Os -> bytes -> Z + list bytes;
  sys_unlink : Os -> bytes -> Os * option Z;
  sys_mkdir : Os -> bytes -> Os * option Z;
  sys_rmdir : Os -> bytes -> Os * option Z;
  sys_stat : Os -> bytes -> Z + Z;
  sys_rename : Os -> bytes -> bytes -> Os * option Z;
  sys_setlk : Os -> Z -> bool -> Os * option Z;
  gettimeofday : Os -> Z * Z;
  getrlimit : Os -> option (option Z);
  strerror : Z -> bytes
}.

Definition ENOENT : Z := 2.
Definition EINTR : Z := 4.
Definition EINVAL : Z := 22.
Definition kWritableFileBufferSize : Z := 65536.

(** ** The limiter of open files and mappings *)

(** [class Limiter], used by one thread; [None] is a failed assertion. *)
Record Limiter := mkLimiter { max_acquires_ : Z; acquires_allowed_ : Z }.
Definition Limiter_new (max_acquires : Z) : Limiter := mkLimiter max_acquires max_acquires.
(** The atomic steps: [fetch_sub], and [fetch_add] with its assertion. *)
Definition take_one (l : Limiter) : Limiter * bool :=
  (mkLimiter (max_acquires_ l) (s32 (acquires_allowed_ l - 1)), acquires_allowed_ l >? 0).
Definition give_one (l : Limiter) : option Limiter :=
  if acquires_allowed_ l <? max_acquires_ l then Some (mkLimiter (max_acquires_ l) (s32 (acquires_allowed_ l + 1))) else None.
Definition Acquire (l : Limiter) : option (Limiter * bool) :=
  let '(l, got) := take_one l in
  if got then Some (l, true) else l ← give_one l; Some (l, false).
Definition Release (l : Limiter) : option Limiter := give_one l.

Section Files.
Context (P : Posix).
Implicit Types (os : Os P).

(** [PosixError] *)
Definition PosixError (context : bytes) (error_number : Z) : Status :=
  if error_number =? ENOENT then Status_make kNotFound context (strerror P error_number)
  else Status_make kIOError context (strerror P error_number).
Definition call_status (context : bytes) (r : option Z) : Status :=
  match r with Some e => PosixError context e | None => Status_OK end.

(** ** Reading *)

(** [class PosixSequentialFile]; after an error the result is left as the caller
    set it, empty. *)
Record PosixSequentialFile := mkSequential { sq_fd : Z; sq_filename : bytes }.
Fixpoint Sequential_Read (fuel : nat) os (f : PosixSequentialFile) (n : Z) : option (Os P * Status * bytes) :=
  match fuel with
  | O => None
  | S fuel =>
      match sys_read P os (sq_fd f) n with
      | (os, inl e) => if e =? EINTR then Sequential_Read fuel os f n else Some (os, PosixError (sq_filename f) e, [])
      | (os, inr data) => Some (os, Status_OK, data)
      end
  end.
Definition Sequential_Skip os (f : PosixSequentialFile) (n : Z) : Os P * Status :=
  let '(os, r) := sys_lseek P os (sq_fd f) n in (os, call_status (sq_filename f) r).
Definition Sequential_delete os (f : PosixSequentialFile) : Os P := fst (sys_close P os (sq_fd f)).

(** [class PosixRandomAccessFile] *)
Record PosixRandomAccessFile := mkRandomAccess { has_permanent_fd_ : bool; ra_fd : Z; ra_filename : bytes }.
Definition RandomAccess_new os (filename : bytes) (fd : Z) (fd_limiter : Limiter) : option (Os P * Limiter * PosixRandomAccessFile) :=
  '(l, permanent) ← Acquire fd_limiter;
  Some (if (permanent : bool) then os else fst (sys_close P os fd), l, mkRandomAccess permanent (if permanent then fd else -1) filename).
Definition RandomAccess_delete os (f : PosixRandomAccessFile) (fd_limiter : Limiter) : option (Os P * Limiter) :=
  if has_permanent_fd_ f then l ← Release fd_limiter; Some (fst (sys_close P os (ra_fd f)), l) else Some (os, fd_limiter).
Definition RandomAccess_Read os (f : PosixRandomAccessFile) (offset n : Z) : Os P * Status * bytes :=
  let '(os, fd) := if has_permanent_fd_ f then (os, inr (ra_fd f)) else sys_open P os (ra_filename f) O_RdOnly in
  match fd with
  | inl e => (os, PosixError (ra_filename f) e, [])
  | inr fd =>
      let '(status, result) := match sys_pread P os fd n (s64 offset) with
        | inl e => (PosixError (ra_filename f) e, [])
        | inr data => (Status_OK, data)
        end in
      (if has_permanent_fd_ f then os else fst (sys_close P os fd), status, result)
  end.

(** [class PosixMmapReadableFile] *)
Record PosixMmapReadableFile := mkMmap { mmap_base_ : Z; mm_length : Z; mm_filename : bytes }.
Definition Mmap_Read os (f : PosixMmapReadableFile) (offset n : Z) : Status * bytes :=
  if u64 (offset + n) >? mm_length f then (PosixError (mm_filename f) EINVAL, [])
  else (Status_OK, load P os (mmap_base_ f + offset) n).
Definition Mmap_delete os (f : PosixMmapReadableFile) (mmap_limiter : Limiter) : option (Os P * Limiter) :=
  l ← Release mmap_limiter; Some (sys_munmap P os (mmap_base_ f) (mm_length f), l).

(** ** Writing *)

(** [rfind('/')], [Dirname], [Basename] and [IsManifest] *)
Fixpoint rfind_slash (s : bytes) : option nat :=
  match s with
  | [] => None
  | b :: s => match rfind_slash s with
              | Some i => Some (S i)
              | None => if bool_decide (b = Byte.x2f) then Some O else None
              end
  end.
Definition Dirname (filename : bytes) : bytes := match rfind_slash filename with None => str:"." | Some i => take i filename end.
Definition Basename (filename : bytes) : bytes := match rfind_slash filename with None => filename | Some i => drop (S i) filename end.
Definition IsManifest (filename : bytes) : bool := starts_with (Basename filename) (str:"MANIFEST").

(** [class PosixWritableFile]; [buf_] is the part of the buffer before [pos_]. *)
Record PosixWritableFile := mkPosixWritable { buf_ : bytes; pw_fd : Z; is_manifest_ : bool; pw_filename : bytes; dirname_ : bytes }.
Definition PosixWritable_new (filename : bytes) (fd : Z) : PosixWritableFile :=
  mkPosixWritable [] fd (IsManifest filename) filename (Dirname filename).
Definition set_buf (f : PosixWritableFile) (b : bytes) : PosixWritableFile :=
  mkPosixWritable b (pw_fd f) (is_manifest_ f) (pw_filename f) (dirname_ f).

(** [WriteUnbuffered] *)
Fixpoint WriteUnbuffered (fuel : nat) os (f : PosixWritableFile) (data : bytes) : option (Os P * Status) :=
  match fuel with
  | O => None
  | S fuel =>
      if (length data =? 0)%nat then Some (os, Status_OK)
      else match sys_write P os (pw_fd f) data with
           | (os, inl e) => if e =? EINTR then WriteUnbuffered fuel os f data else Some (os, PosixError (pw_filename f) e)
           | (os, inr write_result) => WriteUnbuffered fuel os f (drop (Z.to_nat write_result) data)
           end
  end.

(** [FlushBuffer] and [Flush] *)
Definition FlushBuffer (fuel : nat) os (f : PosixWritableFile) : option (Os P * PosixWritableFile * Status) :=
  '(os, s) ← WriteUnbuffered fuel os f (buf_ f);
  Some (os, set_buf f [], s).
Definition Writable_Flush (fuel : nat) os (f : PosixWritableFile) : option (Os P * PosixWritableFile * Status) := FlushBuffer fuel os f.

(** [Append] *)
Definition Writable_Append (fuel : nat) os (f : PosixWritableFile) (data : bytes) : option (Os P * PosixWritableFile * Status) :=
  let copy_size := Nat.min (length data) (Z.to_nat kWritableFileBufferSize - length (buf_ f)) in
  let f := set_buf f (buf_ f ++ take copy_size data) in
  let data := drop copy_size data in
  if (length data =? 0)%nat then Some (os, f, Status_OK)
  else
    '(os, f, s) ← FlushBuffer fuel os f;
    if negb (ok s) then Some (os, f, s)
    else if zlen data <? kWritableFileBufferSize then Some (os, set_buf f data, Status_OK)
    else '(os, s) ← WriteUnbuffered fuel os f data; Some (os, f, s).

(** [SyncFd], of a build with [fdatasync] or [fsync], and [SyncDirIfManifest] *)
Definition SyncFd os (fd : Z) (fd_path : bytes) : Os P * Status :=
  let '(os, r) := sys_fsync P os fd in (os, call_status fd_path r).
Definition SyncDirIfManifest os (f : PosixWritableFile) : Os P * Status :=
  if negb (is_manifest_ f) then (os, Status_OK)
  else match sys_open P os (dirname_ f) O_RdOnly with
       | (os, inl e) => (os, PosixError (dirname_ f) e)
       | (os, inr fd) => let '(os, s) := SyncFd os fd (dirname_ f) in (fst (sys_close P os fd), s)
       end.

(** [Sync] *)
Definition Writable_Sync (fuel : nat) os (f : PosixWritableFile) : option (Os P * PosixWritableFile * Status) :=
  let '(os, s) := SyncDirIfManifest os f in
  if negb (ok s) then Some (os, f, s)
  else
    '(os, f, s) ← FlushBuffer fuel os f;
    if negb (ok s) then Some (os, f, s)
    else let '(os, s) := SyncFd os (pw_fd f) (pw_filename f) in Some (os, f, s).

(** [Close] and the destructor *)
Definition Writable_Close (fuel : nat) os (f : PosixWritableFile) : option (Os P * PosixWritableFile * Status) :=
  '(os, f, s) ← FlushBuffer fuel os f;
  let '(os, r) := sys_close P os (pw_fd f) in
  let s := match r with Some e => if ok s then PosixError (pw_filename f) e else s | None => s end in
  Some (os, mkPosixWritable (buf_ f) (-1) (is_manifest_ f) (pw_filename f) (dirname_ f), s).
Definition Writable_delete (fuel : nat) os (f : PosixWritableFile) : option (Os P) :=
  if 0 <=? pw_fd f then '(os, _, _) ← Writable_Close fuel os f; Some os else Some os.

(** Appending chunk by chunk, until an error. *)
Fixpoint Append_all (fuel : nat) os (f : PosixWritableFile) (chunks : list bytes) : option (Os P * PosixWritableFile * Status) :=
  match chunks with
  | [] => Some (os, f, Status_OK)
  | b :: chunks => '(os, f, s) ← Writable_Append fuel os f b; if ok s then Append_all fuel os f chunks else Some (os, f, s)
  end.
End Files.

(** ** What the system calls promise *)

(** [data_of os fd]: the bytes written through [fd]; [interrupts os]: how often a
    call will still be interrupted. *)
Class WriteLaws (P : Posix) (is_open : Os P -> Z -> Prop) (data_of : Os P -> Z -> bytes) (interrupts : Os P -> nat) : Prop := {
  write_spec : forall os fd b, is_open os fd -> b <> [] ->
    match sys_write P os fd b with
    | (os', inl e) => is_open os' fd /\ data_of os' fd = data_of os fd /\ (interrupts os' <= interrupts os)%nat /\
        (e = EINTR -> (interrupts os' < interrupts os)%nat)
    | (os', inr n) => is_open os' fd /\ 1 <= n <= zlen b /\ data_of os' fd = data_of os fd ++ take (Z.to_nat n) b /\
        (interrupts os' <= interrupts os)%nat
    end;
  fsync_spec : forall os fd, is_open os fd -> data_of (fst (sys_fsync P os fd)) fd = data_of os fd }.

Section Writing.
Context (P : Posix) (is_open : Os P -> Z -> Prop) (data_of : Os P -> Z -> bytes) (interrupts : Os P -> nat)
  `{!WriteLaws P is_open data_of interrupts}.
Implicit Types (os : Os P) (f : PosixWritableFile) (s : Status).
Abbreviation fd_data os f := (data_of os (pw_fd f)).

Lemma PosixError_not_ok context e : ok (PosixError P context e) = false.
Proof. unfold PosixError. by destruct (_ =? _). Qed.

(** [WriteUnbuffered] ends, writes a prefix, and everything unless it reports an
    error. *)
Lemma WriteUnbuffered_spec fuel : forall os f data,
  is_open os (pw_fd f) -> (length data + interrupts os < fuel)%nat ->
  exists os' s, WriteUnbuffered P fuel os f data = Some (os', s) /\ is_open os' (pw_fd f) /\ (interrupts os' <= interrupts os)%nat /\
    exists k, fd_data os' f = fd_data os f ++ take k data /\ (s = Status_OK /\ (length data <= k)%nat \/ ok s = false).
Proof using All.
  induction fuel as [|fuel IH]; intros os f data Ho Hf; [lia|]. cbn [WriteUnbuffered]. destruct data as [|b data].
  { exists os, Status_OK. split; [done|]. split; [done|]. split; [done|]. exists 0%nat. split; [by rewrite app_nil_r|by left]. }
  cbn [length Nat.eqb]. pose proof (write_spec os (pw_fd f) (b :: data) Ho ltac:(done)) as Hw.
  destruct (sys_write P os (pw_fd f) (b :: data)) as [os1 [e|n]].
  - destruct Hw as (Ho1 & Hd & Hi & Hint). destruct (Z.eqb_spec e EINTR) as [->|Hne].
    + specialize (Hint eq_refl). destruct (IH os1 f (b :: data) Ho1) as (os' & s & E & H1 & H2 & k & H3 & H4); [lia|].
      exists os', s. split; [done|]. split; [done|]. split; [lia|]. exists k. by rewrite <- Hd.
    + exists os1. eexists. split; [done|]. split; [done|]. split; [done|]. exists 0%nat.
      split; [by rewrite app_nil_r|]. right. apply PosixError_not_ok.
  - destruct Hw as (Ho1 & Hn & Hd & Hi). destruct (IH os1 f (drop (Z.to_nat n) (b :: data)) Ho1) as (os' & s & E & H1 & H2 & k & H3 & H4).
    { rewrite length_drop. cbn [length] in *. lia. }
    exists os', s. split; [done|]. split; [done|]. split; [lia|]. exists (Z.to_nat n + k)%nat. split.
    + rewrite H3, Hd, <- app_assoc. f_equal. by rewrite take_take_drop.
    + destruct H4 as [[-> Hk]|H4]; [left|by right]. split; [done|]. rewrite length_drop in Hk. cbn [length] in *. lia.
Qed.

(** A writable file between calls: the file and the buffer hold what was
    appended, and the buffer is not overfull. *)
Definition holds os f (data : bytes) : Prop :=
  is_open os (pw_fd f) /\ fd_data os f ++ buf_ f = data /\ zlen (buf_ f) <= kWritableFileBufferSize.

(** After an error the file holds a part from the beginning. *)
Definition holds_part os f (data : bytes) : Prop := is_open os (pw_fd f) /\ fd_data os f `prefix_of` data.

Definition after os f data s : Prop := if ok s then s = Status_OK /\ holds os f data else holds_part os f data.

Lemma FlushBuffer_spec fuel os f data :
  holds os f data -> (Z.to_nat kWritableFileBufferSize + interrupts os < fuel)%nat ->
  exists os' s, FlushBuffer P fuel os f = Some (os', set_buf f [], s) /\ (interrupts os' <= interrupts os)%nat /\
    after os' (set_buf f []) data s.
Proof using All.
  intros (Ho & Hd & Hl) Hf. unfold FlushBuffer.
  destruct (WriteUnbuffered_spec fuel os f (buf_ f) Ho) as (os' & s & -> & Ho' & Hi & k & Hk & Hs).
  { unfold kWritableFileBufferSize in *. lia. }
  cbn [mbind option_bind]. exists os', s. split; [done|]. split; [done|]. unfold after.
  destruct Hs as [[-> Hlen]|Hs].
  - cbn [ok Status_OK state_]. split; [done|]. split; [done|]. cbn [buf_ set_buf pw_fd]. rewrite app_nil_r, Hk, take_ge by lia. split; [done|].
    unfold kWritableFileBufferSize. cbn. lia.
  - rewrite Hs. split; [done|]. cbn [pw_fd set_buf]. rewrite Hk, <- Hd. apply prefix_app. exists (drop k (buf_ f)). by rewrite take_drop.
Qed.

Lemma set_buf_twice f a b : set_buf (set_buf f a) b = set_buf f b.
Proof. done. Qed.

Lemma Writable_Append_spec fuel os f data b :
  holds os f data -> (Z.to_nat kWritableFileBufferSize + length b + interrupts os < fuel)%nat ->
  exists os' f' s, Writable_Append P fuel os f b = Some (os', f', s) /\ pw_fd f' = pw_fd f /\ (interrupts os' <= interrupts os)%nat /\
    after os' f' (data ++ b) s.
Proof using All.
  intros (Ho & Hd & Hl) Hf. unfold Writable_Append. set (c := Nat.min _ _).
  set (f1 := set_buf f (buf_ f ++ take c b)).
  assert (holds os f1 (data ++ take c b)) as H1.
  { split; [done|]. cbn [f1 set_buf buf_ pw_fd]. rewrite app_assoc, Hd. split; [done|]. rewrite length_app, length_take. unfold c, kWritableFileBufferSize in *. lia. }
  destruct (length (drop c b) =? 0)%nat eqn:Ed.
  { apply Nat.eqb_eq in Ed. exists os, f1, Status_OK. split; [done|]. split; [done|]. split; [done|]. split; [done|].
    rewrite length_drop in Ed. rewrite take_ge in H1 by lia. done. }
  apply Nat.eqb_neq in Ed. destruct (FlushBuffer_spec fuel os f1 _ H1) as (os2 & s & -> & Hi2 & Ha); [lia|]. cbn [mbind option_bind].
  unfold after in Ha. destruct (ok s) eqn:Es.
  2:{ cbn [negb]. exists os2, (set_buf f1 []), s. split; [done|]. split; [done|]. split; [done|]. unfold after. rewrite Es.
      destruct Ha as [Ho2 Hp]. split; [done|]. etrans; [exact Hp|]. rewrite <- (take_drop c b) at 2. rewrite app_assoc. by apply prefix_app_r. }
  cbn [negb]. destruct Ha as (-> & Ho2 & Hd2 & _). cbn [set_buf buf_] in Hd2. rewrite app_nil_r in Hd2.
  destruct (zlen (drop c b) <? kWritableFileBufferSize) eqn:Esz; boolprop.
  - exists os2. eexists. exists Status_OK. split; [done|]. split; [done|]. split; [done|]. split; [done|]. split; [done|].
    cbn [set_buf buf_ pw_fd f1] in Hd2 |- *. split; [|lia]. rewrite Hd2, <- app_assoc. by rewrite take_drop.
  - destruct (WriteUnbuffered_spec fuel os2 (set_buf f1 []) (drop c b) Ho2) as (os3 & s3 & -> & Ho3 & Hi3 & k & Hk & Hs3).
    { rewrite length_drop. lia. }
    cbn [mbind option_bind]. exists os3, (set_buf f1 []), s3. split; [done|]. split; [done|]. split; [lia|]. unfold after.
    rewrite Hd2 in Hk. destruct Hs3 as [[-> Hlen]|Hs3].
    + cbn [ok Status_OK state_]. split; [done|]. split; [done|]. cbn [set_buf buf_ pw_fd] in *. rewrite app_nil_r, Hk.
      assert (take k (drop c b) = drop c b) as -> by (apply take_ge; lia). rewrite <- app_assoc, take_drop. split; [done|]. unfold kWritableFileBufferSize. cbn. lia.
    + rewrite Hs3. split; [done|]. rewrite Hk, <- app_assoc. apply prefix_app.
      exists (drop k (drop c b)). by rewrite <- app_assoc, !take_drop.
Qed.

Lemma Append_all_spec chunks : forall fuel os f data,
  holds os f data -> (Z.to_nat kWritableFileBufferSize + length (concat chunks) + interrupts os < fuel)%nat ->
  exists os' f' s, Append_all P fuel os f chunks = Some (os', f', s) /\ pw_fd f' = pw_fd f /\ (interrupts os' <= interrupts os)%nat /\
    after os' f' (data ++ concat chunks) s.
Proof using All.
  induction chunks as [|b chunks IH]; intros fuel os f data Hh Hf; cbn [Append_all concat].
  { exists os, f, Status_OK. rewrite app_nil_r. by repeat (split; [done|]). }
  cbn [concat] in Hf. rewrite length_app in Hf.
  destruct (Writable_Append_spec fuel os f data b Hh) as (os1 & f1 & s1 & -> & Hfd & Hi & Ha); [lia|]. cbn [mbind option_bind].
  unfold after in Ha. destruct (ok s1) eqn:Es.
  - destruct Ha as [_ Ha]. destruct (IH fuel os1 f1 (data ++ b) Ha) as (os2 & f2 & s2 & -> & Hfd2 & Hi2 & Ha2); [lia|].
    exists os2, f2, s2. split; [done|]. split; [congruence|]. split; [lia|]. by rewrite <- app_assoc in Ha2.
  - exists os1, f1, s1. split; [done|]. split; [done|]. split; [done|]. unfold after. rewrite Es. destruct Ha as [Ho Hp]. split; [done|].
    etrans; [exact Hp|]. rewrite app_assoc. by apply prefix_app_r.
Qed.
End Writing.

(** ** Reading *)

(** What [pread] and memory mappings promise of a file with contents [data]. *)
Class ReadLaws (P : Posix) (os : Os P) (filename data : bytes) (opened : Z -> Prop) : Prop := {
  open_read : exists os' fd, sys_open P os filename O_RdOnly = (os', inr fd) /\
    forall offset n, 0 <= offset -> 0 <= n -> offset + n <= zlen data ->
      sys_pread P os' fd n offset = inr (take (Z.to_nat n) (drop (Z.to_nat offset) data));
  pread_spec : forall fd offset n, opened fd -> 0 <= offset -> 0 <= n -> offset + n <= zlen data ->
    sys_pread P os fd n offset = inr (take (Z.to_nat n) (drop (Z.to_nat offset) data)) }.

Definition RandomAccess_file (P : Posix) (os : Os P) (f : PosixRandomAccessFile) : RandomAccessFile :=
  mkRandomAccessFile (fun offset n => let '(_, s, b) := RandomAccess_Read P os f offset n in (s, b, true)).
Definition Mmap_file (P : Posix) (os : Os P) (f : PosixMmapReadableFile) : RandomAccessFile :=
  mkRandomAccessFile (fun offset n => let '(s, b) := Mmap_Read P os f offset n in (s, b, false)).

Lemma s64_small x : 0 <= x < 2 ^ 63 -> s64 x = x.
Proof. intros H. unfold s64. rewrite Z.mod_small; lia. Qed.

(** A random-access file reads what is in the file, with a descriptor of its own
    or opening it each time. *)
Lemma random_access_reads P os filename data opened `{!ReadLaws P os filename data opened} f :
  ra_filename f = filename -> (has_permanent_fd_ f = true -> opened (ra_fd f)) -> zlen data < 2 ^ 63 ->
  ReliableRandomReads (RandomAccess_file P os f) data.
Proof.
  intros Hn Hfd Hl. split. intros offset n Ho Hn0 Hr. exists true. cbn [RandomAccess_file raf_Read]. unfold RandomAccess_Read.
  destruct (has_permanent_fd_ f); cbn [negb].
  - rewrite s64_small by lia. by rewrite (pread_spec _ _ _ (Hfd eq_refl)).
  - rewrite Hn. destruct open_read as (os' & fd & -> & Hread). rewrite s64_small by lia. by rewrite Hread.
Qed.

(** A mapped file reads what is mapped. *)
Lemma mmap_reads P os data f :
  mm_length f = zlen data -> zlen data < 2 ^ 63 ->
  (forall offset n, 0 <= offset -> 0 <= n -> offset + n <= zlen data ->
     load P os (mmap_base_ f + offset) n = take (Z.to_nat n) (drop (Z.to_nat offset) data)) ->
  ReliableRandomReads (Mmap_file P os f) data.
Proof.
  intros Hl Hs Hload. split. intros offset n Ho Hn Hr. exists false. cbn [Mmap_file raf_Read]. unfold Mmap_Read.
  rewrite u64_small by lia. rewrite Z.gtb_ltb, (proj2 (Z.ltb_ge _ _)) by lia. by rewrite Hload.
Qed.

(** The bound of a mapped file is tested modulo 2^64: a read far past the end is
    let through. *)
Lemma Mmap_Read_wraps P os f : 16 <= mm_length f ->
  fst (Mmap_Read P os f (2 ^ 64 - 8) 16) = Status_OK.
Proof.
  intros H. unfold Mmap_Read. change (u64 (2 ^ 64 - 8 + 16)) with 8. by rewrite Z.gtb_ltb, (proj2 (Z.ltb_ge _ _)) by lia.
Qed.

(** ** Properties *)

(** C13: the buffered file loses and reorders nothing.  Chunks of any sizes are
    appended to a new file through the 64 KiB buffer, by an operating system that
    writes any non-empty part of what it is given and may interrupt calls.  The
    appends end.  If all succeed, the file and the buffer together hold exactly
    the chunks in order, and [Flush] then ends and, unless it reports an error,
    puts all of it into the file.  If an append or the flush fails, the file holds
    a part of the chunks from the beginning. *)
Theorem posix_writable_refines (P : Posix) is_open data_of interrupts (fuel : nat) (os : Os P) (filename : bytes) (fd : Z) (chunks : list bytes) :
  WriteLaws P is_open data_of interrupts -> is_open os fd ->
  kWritableFileBufferSize + zlen (concat chunks) + Z.of_nat (interrupts os) < Z.of_nat fuel ->
  let all := data_of os fd ++ concat chunks in
  exists os1 f1 s1, Append_all P fuel os (PosixWritable_new filename fd) chunks = Some (os1, f1, s1) /\
    if ok s1 then
      data_of os1 fd ++ buf_ f1 = all /\ zlen (buf_ f1) <= kWritableFileBufferSize /\
      exists os2 s2, Writable_Flush P fuel os1 f1 = Some (os2, set_buf f1 [], s2) /\
        if ok s2 then data_of os2 fd = all else data_of os2 fd `prefix_of` all
    else data_of os1 fd `prefix_of` all.
Proof.
  intros HP Ho Hf all. set (f0 := PosixWritable_new filename fd).
  assert (holds P is_open data_of os f0 (data_of os fd)) as H0.
  { split; [done|]. cbn [f0 PosixWritable_new buf_ pw_fd]. rewrite app_nil_r. split; [done|]. unfold kWritableFileBufferSize. cbn. lia. }
  destruct (Append_all_spec P is_open data_of interrupts chunks fuel os f0 _ H0) as (os1 & f1 & s1 & E1 & Hfd & Hi & Ha); [unfold kWritableFileBufferSize in *; lia|].
  exists os1, f1, s1. split; [done|]. change (pw_fd f0) with fd in Hfd. unfold after in Ha. destruct (ok s1); [|destruct Ha as [_ Ha]; by rewrite Hfd in Ha].
  destruct Ha as [_ Hh]. pose proof Hh as (_ & Hd & Hl). rewrite Hfd in Hd. split; [done|]. split; [done|].
  destruct (FlushBuffer_spec P is_open data_of interrupts fuel os1 f1 _ Hh) as (os2 & s2 & E2 & _ & Ha2); [unfold kWritableFileBufferSize in *; lia|].
  exists os2, s2. split; [done|]. unfold after in Ha2. destruct (ok s2).
  - destruct Ha2 as (_ & _ & Hd2 & _). cbn [set_buf buf_ pw_fd] in Hd2. by rewrite app_nil_r, Hfd in Hd2.
  - destruct Ha2 as [_ Hp]. cbn [set_buf pw_fd] in Hp. by rewrite Hfd in Hp.
Qed.

(** A system with one file that is interrupted some times and writes three bytes
    at a time. *)
Definition SlowPosix : Posix :=
  mkPosix (bytes * nat) (fun os _ _ => (os, inr 3)) (fun os _ => (os, None)) (fun os _ _ => (os, inr [])) (fun os _ n off => inr (take (Z.to_nat n) (drop (Z.to_nat off) (fst os))))
    (fun os _ _ => (os, None))
    (fun os _ b => match snd os with S k => ((fst os, k), inl EINTR) | O => ((fst os ++ take 3 b, 0%nat), inr (Z.min 3 (zlen b))) end)
    (fun os _ => (os, None)) (fun os _ _ => (os, inr 0)) (fun os _ _ => os) (fun os a n => take (Z.to_nat n) (drop (Z.to_nat a) (fst os)))
    (fun _ _ => true) (fun _ _ => inr []) (fun os _ => (os, None)) (fun os _ => (os, None)) (fun os _ => (os, None)) (fun os _ => inr (zlen (fst os)))
    (fun os _ _ => (os, None)) (fun os _ _ => (os, None)) (fun _ => (0, 0)) (fun _ => Some (Some 100)) (fun _ => str:"error").

#[local] Instance slow_laws : WriteLaws SlowPosix (fun _ _ => True) (fun os _ => fst os) snd.
Proof.
  split; [|done]. intros [d [|k]] fd b _ Hb; cbn -[take].
  - split; [done|]. destruct b as [|x b]; [done|]. cbn [length]. split; [lia|]. split; [|done]. f_equal.
    destruct b as [|y [|w b]]; cbn; try done. by replace (Z.to_nat (Z.min 3 _)) with 3%nat by lia.
  - split; [done|]. split; [done|]. split; [lia|]. intros _. lia.
Qed.

Lemma posix_writable_refines_witness :
  exists os1 f1 s1, Append_all SlowPosix (Z.to_nat 70000) ([], 2%nat) (PosixWritable_new (str:"db/000003.log") 3) [str:"hello"; str:"world"] = Some (os1, f1, s1) /\
    if ok s1 then fst os1 ++ buf_ f1 = str:"helloworld" /\ zlen (buf_ f1) <= kWritableFileBufferSize /\
      exists os2 s2, Writable_Flush SlowPosix (Z.to_nat 70000) os1 f1 = Some (os2, set_buf f1 [], s2) /\
        if ok s2 then fst os2 = str:"helloworld" else fst os2 `prefix_of` str:"helloworld"
    else fst os1 `prefix_of` str:"helloworld".
Proof.
  apply (posix_writable_refines SlowPosix (fun _ _ => True) (fun os _ => fst os) snd (Z.to_nat 70000) ([], 2%nat) (str:"db/000003.log") 3
    [str:"hello"; str:"world"] slow_laws I).
  rewrite Z2Nat.id by lia. vm_compute. reflexivity.
Defined.
