(* ===== verification/PosixEnv.v ===== *)
(** * The environment of the operating system

    src/util/env_posix.cc: [PosixEnv] over the system calls of [Posix], with the
    table of file locks and the limiters of open files and mappings.  The
    operations are run by one thread; PosixThreads.v has the places where several
    threads meet. *)

From stdpp Require Import gmap sets.
From S2P Require Import Prelude Slice LogFormat Format Env PosixFiles.

Section Operations.
Context (P : Posix).

(** [class PosixFileLock] *)
Record PosixFileLock := mkFileLock { fl_fd : Z; fl_filename : bytes }.

(** [class PosixEnv], without the background thread *)
Record PosixEnv := mkPosixEnv { pe_os : Os P; locked_files_ : gset bytes; mmap_limiter_ : Limiter; fd_limiter_ : Limiter }.
Implicit Types (env : PosixEnv) (filename : bytes).

Definition set_os env (os : Os P) : PosixEnv := mkPosixEnv os (locked_files_ env) (mmap_limiter_ env) (fd_limiter_ env).
Definition set_locked env (l : gset bytes) : PosixEnv := mkPosixEnv (pe_os env) l (mmap_limiter_ env) (fd_limiter_ env).
Definition set_limiters env (m f : Limiter) : PosixEnv := mkPosixEnv (pe_os env) (locked_files_ env) m f.

(** [MaxMmaps] and [MaxOpenFiles], with [g_mmap_limit] and
    [g_open_read_only_file_limit] *)
Definition kDefaultMmapLimit : Z := 1000.
Definition MaxMmaps (g_mmap_limit : Z) : Z := g_mmap_limit.
Definition MaxOpenFiles (os : Os P) (g_open_read_only_file_limit : Z) : Z :=
  if 0 <=? g_open_read_only_file_limit then g_open_read_only_file_limit
  else match getrlimit P os with
       | None => 50
       | Some None => 2 ^ 31 - 1
       | Some (Some rlim_cur) => s32 (rlim_cur / 5)
       end.
Definition PosixEnv_new (os : Os P) (g_mmap_limit g_open_read_only_file_limit : Z) : PosixEnv :=
  mkPosixEnv os ∅ (Limiter_new (MaxMmaps g_mmap_limit)) (Limiter_new (MaxOpenFiles os g_open_read_only_file_limit)).

(** ** Opening files *)

Definition posix_NewSequentialFile env filename : PosixEnv * Status * option PosixSequentialFile :=
  match sys_open P (pe_os env) filename O_RdOnly with
  | (os, inl e) => (set_os env os, PosixError P filename e, None)
  | (os, inr fd) => (set_os env os, Status_OK, Some (mkSequential fd filename))
  end.

Definition posix_GetFileSize env filename : Status * Z :=
  match sys_stat P (pe_os env) filename with inl e => (PosixError P filename e, 0) | inr size => (Status_OK, size) end.

(** A file that is mapped, or read through a descriptor. *)
Definition posix_NewRandomAccessFile env filename
    : option (PosixEnv * Status * option (PosixRandomAccessFile + PosixMmapReadableFile)) :=
  match sys_open P (pe_os env) filename O_RdOnly with
  | (os, inl e) => Some (set_os env os, PosixError P filename e, None)
  | (os, inr fd) =>
      let env := set_os env os in
      '(mmap_limiter, acquired) ← Acquire (mmap_limiter_ env);
      if negb acquired then
        '(os, fd_limiter, file) ← RandomAccess_new P os filename fd (fd_limiter_ env);
        Some (set_os (set_limiters env mmap_limiter fd_limiter) os, Status_OK, Some (inl file))
      else
        let '(status, file_size) := posix_GetFileSize env filename in
        let '(os, status, result) :=
          if ok status then
            match sys_mmap P os file_size fd with
            | (os, inr mmap_base) => (os, status, Some (inr (mkMmap mmap_base file_size filename)))
            | (os, inl e) => (os, PosixError P filename e, None)
            end
          else (os, status, None) in
        let os := fst (sys_close P os fd) in
        mmap_limiter ← (if ok status then Some mmap_limiter else Release mmap_limiter);
        Some (set_os (set_limiters env mmap_limiter (fd_limiter_ env)) os, status, result)
  end.

Definition open_writable env filename (mode : OpenMode) : PosixEnv * Status * option PosixWritableFile :=
  match sys_open P (pe_os env) filename mode with
  | (os, inl e) => (set_os env os, PosixError P filename e, None)
  | (os, inr fd) => (set_os env os, Status_OK, Some (PosixWritable_new filename fd))
  end.
Definition posix_NewWritableFile env filename : PosixEnv * Status * option PosixWritableFile := open_writable env filename O_TruncCreate.
Definition posix_NewAppendableFile env filename : PosixEnv * Status * option PosixWritableFile := open_writable env filename O_AppendCreate.

(** ** Directories and names *)

Definition posix_FileExists env filename : bool := sys_access P (pe_os env) filename.
Definition posix_GetChildren env (directory_path : bytes) : Status * list bytes :=
  match sys_readdir P (pe_os env) directory_path with
  | inl e => (PosixError P directory_path e, [])
  | inr names => (Status_OK, names)
  end.
Definition posix_call env (context : bytes) (r : Os P * option Z) : PosixEnv * Status := (set_os env (fst r), call_status P context (snd r)).
Definition posix_RemoveFile env filename : PosixEnv * Status := posix_call env filename (sys_unlink P (pe_os env) filename).
Definition posix_CreateDir env (dirname : bytes) : PosixEnv * Status := posix_call env dirname (sys_mkdir P (pe_os env) dirname).
Definition posix_RemoveDir env (dirname : bytes) : PosixEnv * Status := posix_call env dirname (sys_rmdir P (pe_os env) dirname).
Definition posix_RenameFile env (from to : bytes) : PosixEnv * Status := posix_call env from (sys_rename P (pe_os env) from to).

(** ** Locks *)

(** [LockOrUnlock] and [class PosixLockTable] *)
Definition LockOrUnlock (os : Os P) (fd : Z) (lock : bool) : Os P * option Z := sys_setlk P os fd lock.
Definition LockTable_Insert env filename : PosixEnv * bool :=
  (set_locked env ({[filename]} ∪ locked_files_ env), bool_decide (filename ∉ locked_files_ env)).
Definition LockTable_Remove env filename : PosixEnv := set_locked env (locked_files_ env ∖ {[filename]}).

Definition posix_LockFile env filename : PosixEnv * Status * option PosixFileLock :=
  match sys_open P (pe_os env) filename O_RdWrCreate with
  | (os, inl e) => (set_os env os, PosixError P filename e, None)
  | (os, inr fd) =>
      let '(env, inserted) := LockTable_Insert (set_os env os) filename in
      if negb inserted then
        (set_os env (fst (sys_close P os fd)), Status_make kIOError (str:"lock " ++ filename) (str:"already held by process"), None)
      else match LockOrUnlock os fd true with
           | (os, Some lock_errno) =>
               (LockTable_Remove (set_os env (fst (sys_close P os fd))) filename, PosixError P (str:"lock " ++ filename) lock_errno, None)
           | (os, None) => (set_os env os, Status_OK, Some (mkFileLock fd filename))
           end
  end.

Definition posix_UnlockFile env (lock : PosixFileLock) : PosixEnv * Status :=
  match LockOrUnlock (pe_os env) (fl_fd lock) false with
  | (os, Some e) => (set_os env os, PosixError P (str:"unlock " ++ fl_filename lock) e)
  | (os, None) => (set_os (LockTable_Remove env (fl_filename lock)) (fst (sys_close P os (fl_fd lock))), Status_OK)
  end.

(** [NowMicros] *)
Definition posix_NowMicros env : Z :=
  let '(tv_sec, tv_usec) := gettimeofday P (pe_os env) in u64 (u64 tv_sec * 1000000 + tv_usec).

(** ** The locks of a process *)

(** What the process can do with locks: the locks it holds go along. *)
Inductive lock_step : PosixEnv * list PosixFileLock -> PosixEnv * list PosixFileLock -> Prop :=
  | step_lock env env' filename s l held : posix_LockFile env filename = (env', s, Some l) -> lock_step (env, held) (env', l :: held)
  | step_lock_fails env env' filename s held : posix_LockFile env filename = (env', s, None) -> lock_step (env, held) (env', held)
  | step_unlock env env' l s held held' : held ≡ₚ l :: held' -> posix_UnlockFile env l = (env', s) -> ok s = true -> lock_step (env, held) (env', held')
  | step_unlock_fails env env' l s held : l ∈ held -> posix_UnlockFile env l = (env', s) -> ok s = false -> lock_step (env, held) (env', held).

Definition locks_ok (st : PosixEnv * list PosixFileLock) : Prop :=
  NoDup (map fl_filename (snd st)) /\ forall n, n ∈ locked_files_ (fst st) <-> n ∈ map fl_filename (snd st).

Lemma LockFile_table env filename env' s r : posix_LockFile env filename = (env', s, r) ->
  match r with
  | Some l => fl_filename l = filename /\ filename ∉ locked_files_ env /\ locked_files_ env' = {[filename]} ∪ locked_files_ env /\ s = Status_OK
  | None => forall n, n ∈ locked_files_ env' <-> n ∈ locked_files_ env
  end.
Proof using Type.
  unfold posix_LockFile. destruct (sys_open P (pe_os env) filename O_RdWrCreate) as [os [e|fd]]; [by intros [= <- <- <-]|].
  cbn [LockTable_Insert set_os locked_files_]. destruct (decide (filename ∈ locked_files_ env)) as [Hin|Hout].
  - rewrite bool_decide_false by (intros H; by apply H). cbn [negb]. intros [= <- <- <-]. intros n. cbn [locked_files_ set_os set_locked]. set_solver.
  - rewrite bool_decide_true by done. cbn [negb]. destruct (LockOrUnlock os fd true) as [os' [e|]]; intros [= <- <- <-].
    + intros n. cbn [locked_files_ set_os set_locked LockTable_Remove]. set_solver.
    + by repeat split.
Qed.

Lemma UnlockFile_table env l env' s : posix_UnlockFile env l = (env', s) ->
  if ok s then locked_files_ env' = locked_files_ env ∖ {[fl_filename l]} else locked_files_ env' = locked_files_ env.
Proof using Type.
  unfold posix_UnlockFile. destruct (LockOrUnlock (pe_os env) (fl_fd l) false) as [os [e|]]; intros [= <- <-]; [|done].
  by rewrite PosixError_not_ok.
Qed.

Lemma lock_step_ok st st' : lock_step st st' -> locks_ok st -> locks_ok st'.
Proof using Type.
  intros Hstep [Hnd Hl]. destruct Hstep as [env env' n s l held E|env env' n s held E|env env' l s held held' Hp E Hs|env env' l s held Hin E Hs]; cbn [fst snd] in *.
  - apply LockFile_table in E as (E1 & E2 & E3 & _). split; cbn [fst snd map].
    + apply list.NoDup_cons. split; [|done]. rewrite E1, <- Hl. done.
    + intros x. rewrite E3, elem_of_union, elem_of_singleton, Hl, elem_of_cons, E1. done.
  - apply LockFile_table in E. split; [done|]. cbn [fst snd]. intros x. by rewrite E.
  - apply UnlockFile_table in E. rewrite Hs in E. rewrite Hp in Hnd. cbn [map] in Hnd. apply list.NoDup_cons in Hnd as [Hout Hnd].
    split; [done|]. cbn [fst snd]. intros x. rewrite E, elem_of_difference, elem_of_singleton, Hl.
    change (map fl_filename held) with (fl_filename <$> held). rewrite Hp. cbn. rewrite elem_of_cons. split.
    + by intros [[->|Hx] Hne].
    + intros Hx. split; [by right|]. intros ->. done.
  - apply UnlockFile_table in E. rewrite Hs in E. split; [done|]. cbn [fst snd]. by rewrite E.
Qed.
End Operations.
