(* ===== verification/PosixThreads.v ===== *)
(** * Threads at the limiter and at the work queue

    src/util/env_posix.cc: [Limiter] used by several threads at once, and
    [PosixEnv::Schedule] with [BackgroundThreadMain].  What a thread does under a
    lock, or in one atomic operation, is one step; the steps of the threads
    interleave in any order. *)

From stdpp Require Import gmap sets relations.
From S2P Require Import Prelude Slice LogFormat Format Env PosixFiles PosixEnv.

(** ** The limiter *)

(** Where a thread is: outside, between the two atomic operations of an [Acquire]
    that fails, or holding a resource. *)
Inductive ThreadState := Idle | Failing | Holding.

Inductive limiter_step : Limiter * list ThreadState -> Limiter * list ThreadState -> Prop :=
  | step_take l l' ts i : ts !! i = Some Idle -> take_one l = (l', true) -> limiter_step (l, ts) (l', <[i := Holding]> ts)
  | step_miss l l' ts i : ts !! i = Some Idle -> take_one l = (l', false) -> limiter_step (l, ts) (l', <[i := Failing]> ts)
  | step_undo l l' ts i : ts !! i = Some Failing -> give_one l = Some l' -> limiter_step (l, ts) (l', <[i := Idle]> ts)
  | step_release l l' ts i : ts !! i = Some Holding -> Release l = Some l' -> limiter_step (l, ts) (l', <[i := Idle]> ts).

Definition busy (t : ThreadState) : nat := match t with Idle => 0 | Failing | Holding => 1 end.
Definition holding (t : ThreadState) : nat := match t with Holding => 1 | Idle | Failing => 0 end.

Lemma total_insert (w : ThreadState -> nat) ts i a b :
  ts !! i = Some a -> (sum_list_with w (<[i := b]> ts) + w a = sum_list_with w ts + w b)%nat.
Proof.
  revert i. induction ts as [|t ts IH]; intros [|i] Hi; try done.
  - injection Hi as ->. cbn [insert list_insert sum_list_with]. lia.
  - specialize (IH i Hi). change (<[S i := b]> (t :: ts)) with (t :: <[i := b]> ts). cbn [sum_list_with]. lia.
Qed.

Lemma holding_busy ts : (sum_list_with holding ts <= sum_list_with busy ts <= length ts)%nat.
Proof. induction ts as [|[] ts IH]; cbn; lia. Qed.

Lemma busy_elem ts i t : ts !! i = Some t -> (busy t <= sum_list_with busy ts)%nat.
Proof. intros H. pose proof (total_insert busy ts i t Idle H). cbn in *. lia. Qed.

Section Limited.
Context (max : Z) (n : nat) (Hmax : 0 <= max < 2 ^ 31) (Hn : Z.of_nat n <= 2 ^ 31).

(** The counter is what the threads left of it, and no more hold a resource than
    are allowed. *)
Record limited (st : Limiter * list ThreadState) : Prop := {
  ld_max : max_acquires_ (fst st) = max;
  ld_threads : length (snd st) = n;
  ld_counter : acquires_allowed_ (fst st) = max - Z.of_nat (sum_list_with busy (snd st));
  ld_holding : Z.of_nat (sum_list_with holding (snd st)) <= max }.

Lemma limited_step st st' : limiter_step st st' -> limited st -> limited st'.
Proof using All.
  intros Hstep [H1 H2 H3 H4].
  assert (forall (ts : list ThreadState) i (a b : ThreadState), ts !! i = Some a -> length ts = n -> length (<[i := b]> ts) = n) as Hlen by (intros; by rewrite length_insert).
  destruct Hstep as [l l' ts i Hi E|l l' ts i Hi E|l l' ts i Hi E|l l' ts i Hi E]; cbn [fst snd] in *;
    pose proof (holding_busy ts) as Hb; unfold take_one, Release, give_one in E.
  - pose proof (total_insert busy ts i Idle Holding Hi). pose proof (total_insert holding ts i Idle Holding Hi).
    injection E as <- Eg. rewrite Z.gtb_ltb in Eg. boolprop. cbn [busy holding] in *.
    split; cbn [fst snd max_acquires_ acquires_allowed_]; [done|by eapply Hlen|rewrite s32_small by lia; lia|lia].
  - pose proof (total_insert busy ts i Idle Failing Hi). pose proof (total_insert holding ts i Idle Failing Hi).
    pose proof (holding_busy (<[i := Failing]> ts)) as Hb'. rewrite length_insert in Hb'.
    injection E as <- Eg. cbn [busy holding] in *.
    split; cbn [fst snd max_acquires_ acquires_allowed_]; [done|by eapply Hlen|rewrite s32_small by lia; lia|lia].
  - pose proof (total_insert busy ts i Failing Idle Hi). pose proof (total_insert holding ts i Failing Idle Hi).
    destruct (_ <? _); [|done]. injection E as <-. cbn [busy holding] in *.
    split; cbn [fst snd max_acquires_ acquires_allowed_]; [done|by eapply Hlen|rewrite s32_small by lia; lia|lia].
  - pose proof (total_insert busy ts i Holding Idle Hi). pose proof (total_insert holding ts i Holding Idle Hi).
    destruct (_ <? _); [|done]. injection E as <-. cbn [busy holding] in *.
    split; cbn [fst snd max_acquires_ acquires_allowed_]; [done|by eapply Hlen|rewrite s32_small by lia; lia|lia].
Qed.

Lemma limited_reachable st : rtc limiter_step (Limiter_new max, replicate n Idle) st -> limited st.
Proof using All.
  assert (sum_list_with busy (replicate n Idle) = 0 /\ sum_list_with holding (replicate n Idle) = 0)%nat as [B0 B1] by (clear; induction n; done).
  intros H. assert (limited (Limiter_new max, replicate n Idle)) as H0.
  { split; cbn [fst snd Limiter_new max_acquires_ acquires_allowed_]; [done|by rewrite length_replicate|rewrite B0; lia|rewrite B1; lia]. }
  revert H0. induction H as [st|st st1 st2 Hs _ IH]; intros H0; [done|]. apply IH. by eapply limited_step.
Qed.
End Limited.

(** ** The background thread *)

Section Background.
Context {Work : Type}.

(** The background thread: not started, about to take the lock, waiting for a
    signal, or running a function. *)
Inductive BackgroundThread := NotStarted | AtQueue | Waiting | Running (w : Work).

(** The queue and the thread; [scheduled] and [finished] are the history. *)
Record Background := mkBackground {
  background_work_queue_ : list Work; background_thread : BackgroundThread; scheduled : list Work; finished : list Work }.
Implicit Type b : Background.

(** [PosixEnv::Schedule]: the thread is started, or signalled if the queue was
    empty. *)
Definition posix_Schedule b (w : Work) : Background :=
  let t := match background_thread b, background_work_queue_ b with
           | NotStarted, _ => AtQueue
           | Waiting, [] => AtQueue
           | t, _ => t
           end in
  mkBackground (background_work_queue_ b ++ [w]) t (scheduled b ++ [w]) (finished b).

(** One round of [BackgroundThreadMain]: looking into the queue, and running what
    was taken. *)
Definition BackgroundThreadMain_step b : option Background :=
  match background_thread b with
  | AtQueue =>
      match background_work_queue_ b with
      | [] => Some (mkBackground [] Waiting (scheduled b) (finished b))
      | w :: queue => Some (mkBackground queue (Running w) (scheduled b) (finished b))
      end
  | Running w => Some (mkBackground (background_work_queue_ b) AtQueue (scheduled b) (finished b ++ [w]))
  | NotStarted | Waiting => None
  end.

(** A waiting thread may also wake up without a signal. *)
Inductive background_step : Background -> Background -> Prop :=
  | step_schedule b w : background_step b (posix_Schedule b w)
  | step_main b b' : BackgroundThreadMain_step b = Some b' -> background_step b b'
  | step_wake b : background_thread b = Waiting ->
      background_step b (mkBackground (background_work_queue_ b) AtQueue (scheduled b) (finished b)).

Definition Background_new : Background := mkBackground [] NotStarted [] [].

Definition running b : list Work := match background_thread b with Running w => [w] | _ => [] end.

(** Nothing is lost or reordered, and nobody waits while there is work. *)
Record background_ok b : Prop := {
  bg_order : scheduled b = finished b ++ running b ++ background_work_queue_ b;
  bg_waiting : background_thread b = Waiting -> background_work_queue_ b = [];
  bg_started : background_thread b = NotStarted -> scheduled b = [] /\ background_work_queue_ b = [] }.

Lemma background_step_ok b b' : background_step b b' -> background_ok b -> background_ok b'.
Proof using Type.
  intros Hs [H1 H2 H3]. destruct Hs as [b w|b b' E|b E]; destruct b as [q t sch fin]; unfold running in *; cbn in *.
  - split; unfold running; cbn in *.
    + rewrite H1, <- !app_assoc. f_equal. destruct t, q; cbn; try done.
    + destruct t, q; try done. by specialize (H2 eq_refl).
    + destruct t, q; done.
  - destruct t; try done; [destruct q as [|w q]|]; injection E as <-; split; unfold running; cbn in *; try done.
    by rewrite H1, <- app_assoc.
  - subst t. split; unfold running; cbn; done.
Qed.

Lemma background_reachable b : rtc background_step Background_new b -> background_ok b.
Proof using Type.
  intros H. assert (background_ok Background_new) as H0 by (by split). revert H0.
  induction H as [b|b b1 b2 Hs _ IH]; intros H0; [done|]. apply IH. by eapply background_step_ok.
Qed.

(** The thread works the queue off. *)
Lemma queue_drained queue : forall b, background_work_queue_ b = queue -> background_thread b = AtQueue ->
  exists b', rtc (fun b b' => BackgroundThreadMain_step b = Some b') b b' /\ finished b' = finished b ++ queue /\ scheduled b' = scheduled b.
Proof using Type.
  induction queue as [|w queue IH]; intros b Hq Ht.
  { exists b. split; [done|]. by rewrite app_nil_r. }
  set (b1 := mkBackground queue (Running w) (scheduled b) (finished b)). set (b2 := mkBackground queue AtQueue (scheduled b) (finished b ++ [w])).
  destruct (IH b2 eq_refl eq_refl) as (b' & Hr & Hf & Hs). exists b'. split; [|split; [by rewrite Hf; unfold b2; cbn [finished]; rewrite <- (app_assoc (finished b))|done]].
  apply (rtc_l _ b b1); [unfold BackgroundThreadMain_step; by rewrite Ht, Hq|]. by apply (rtc_l _ b1 b2).
Qed.
End Background.

(** ** Properties *)

(** C37: The limiter works under any interleaving.  Any number of threads acquire
    and release resources, each [Acquire] in two atomic operations when it fails.
    At every moment no more threads hold a resource than allowed, the counter is
    the limit minus the threads that hold one or are giving back, and the
    assertions of [Acquire] and [Release] hold. *)
Theorem limiter_never_exceeded (max : Z) (n : nat) (l : Limiter) (ts : list ThreadState) :
  0 <= max < 2 ^ 31 -> Z.of_nat n <= 2 ^ 31 -> rtc limiter_step (Limiter_new max, replicate n Idle) (l, ts) ->
  Z.of_nat (sum_list_with holding ts) <= max /\ acquires_allowed_ l = max - Z.of_nat (sum_list_with busy ts) /\
  (forall i, ts !! i = Some Failing -> is_Some (give_one l)) /\ (forall i, ts !! i = Some Holding -> is_Some (Release l)).
Proof.
  intros Hm Hn Hr. destruct (limited_reachable max n Hm Hn (l, ts) Hr) as [H1 H2 H3 H4]. cbn [fst snd] in *. split; [done|]. split; [done|].
  assert (forall i t, ts !! i = Some t -> busy t = 1%nat -> is_Some (give_one l)) as Hg.
  { intros i t Hi Hb. pose proof (busy_elem ts i t Hi). unfold give_one. rewrite (proj2 (Z.ltb_lt _ _)) by lia. by eexists. }
  split; intros i Hi; by eapply Hg.
Qed.

Lemma limiter_never_exceeded_witness :
  rtc limiter_step (Limiter_new 1, replicate 2 Idle) (mkLimiter 1 (-1), [Holding; Failing]) /\
  Z.of_nat (sum_list_with holding [Holding; Failing]) <= 1.
Proof.
  assert (rtc limiter_step (Limiter_new 1, replicate 2 Idle) (mkLimiter 1 (-1), [Holding; Failing])) as H.
  { eapply rtc_l; [exact (step_take (Limiter_new 1) (mkLimiter 1 0) [Idle; Idle] 0 eq_refl eq_refl)|].
    eapply rtc_l; [exact (step_miss (mkLimiter 1 0) (mkLimiter 1 (-1)) [Holding; Idle] 1 eq_refl eq_refl)|apply rtc_refl]. }
  split; [exact H|]. exact (proj1 (limiter_never_exceeded 1 2 (mkLimiter 1 (-1)) [Holding; Failing] ltac:(lia) ltac:(lia) H)).
Defined.

(** C29: scheduled work is done, once and in order.  Under any interleaving of
    [Schedule] with the background thread, spurious wake-ups included, the work
    that was run, the one that runs and the queue are together the work that was
    scheduled, in order; the thread never waits while there is work; and from
    every moment on, its steps alone finish all that was scheduled. *)
Theorem background_work_runs {Work : Type} (b : @Background Work) :
  rtc background_step Background_new b ->
  scheduled b = finished b ++ running b ++ background_work_queue_ b /\
  (background_thread b = Waiting -> finished b = scheduled b) /\
  exists b', rtc (fun b b' => BackgroundThreadMain_step b = Some b') b b' /\ finished b' = scheduled b.
Proof.
  intros Hr. destruct (background_reachable b Hr) as [H1 H2 H3]. split; [done|]. split.
  { intros Ht. rewrite H1. unfold running. by rewrite Ht, (H2 Ht), app_nil_r. }
  destruct (background_thread b) as [| | |w] eqn:Et; unfold running in H1; rewrite Et in H1; cbn [app] in H1.
  - destruct (H3 eq_refl) as [Hs Hq]. exists b. split; [apply rtc_refl|]. rewrite Hq, app_nil_r in H1. done.
  - destruct (queue_drained (background_work_queue_ b) b eq_refl Et) as (b' & Hr' & Hf & _). exists b'. split; [done|]. congruence.
  - exists b. split; [apply rtc_refl|]. by rewrite H1, (H2 eq_refl), app_nil_r.
  - set (b1 := mkBackground (background_work_queue_ b) AtQueue (scheduled b) (finished b ++ [w])).
    destruct (queue_drained (background_work_queue_ b) b1 eq_refl eq_refl) as (b' & Hr' & Hf & _). exists b'.
    split; [|by rewrite Hf, H1; unfold b1; cbn [finished]; rewrite <- (app_assoc (finished b))].
    eapply rtc_l; [|exact Hr']. unfold BackgroundThreadMain_step. by rewrite Et.
Qed.

Lemma background_work_runs_witness :
  let b := posix_Schedule (posix_Schedule Background_new 1) 2 in
  rtc background_step Background_new b /\ scheduled b = [1; 2] /\
  exists b', rtc (fun b b' => BackgroundThreadMain_step b = Some b') b b' /\ finished b' = [1; 2].
Proof.
  set (b := posix_Schedule (posix_Schedule Background_new 1) 2). cbv zeta.
  assert (rtc background_step Background_new b) as H by (eapply rtc_l; [apply step_schedule|]; eapply rtc_l; [apply step_schedule|apply rtc_refl]).
  split; [exact H|]. split; [reflexivity|]. exact (proj2 (proj2 (background_work_runs b H))).
Defined.

(** C30: a file is locked at most once.  Whatever the operating system answers, the
    locks that the process holds are for different files and the table of locks
    is exactly their names: a second [LockFile] of a name fails until the lock is
    given back by a successful [UnlockFile]. *)
Theorem file_locks_exclusive (P : Posix) (os : Os P) (m o : Z) (env : PosixEnv P) (held : list PosixFileLock) :
  rtc (lock_step P) (PosixEnv_new P os m o, []) (env, held) ->
  NoDup (map fl_filename held) /\ (forall n, n ∈ locked_files_ P env <-> n ∈ map fl_filename held) /\
  forall n env' s l, n ∈ map fl_filename held -> posix_LockFile P env n <> (env', s, Some l).
Proof.
  intros Hr. assert (locks_ok P (env, held)) as [H1 H2].
  { remember (PosixEnv_new P os m o, []) as st0 eqn:E0. assert (locks_ok P st0) as H0 by (subst; split; [constructor|]; cbn; set_solver).
    clear E0. induction Hr as [st|st st1 st2 Hs _ IH]; [done|]. apply IH. by eapply lock_step_ok. }
  split; [done|]. split; [done|]. intros n env' s l Hn E. apply LockFile_table in E as (_ & E & _). apply E. by apply H2.
Qed.

Lemma file_locks_exclusive_witness :
  exists env l, rtc (lock_step SlowPosix) (PosixEnv_new SlowPosix ([], 0%nat) 1000 (-1), []) (env, [l]) /\ NoDup (map fl_filename [l]).
Proof.
  exists (fst (fst (posix_LockFile SlowPosix (PosixEnv_new SlowPosix ([], 0%nat) 1000 (-1)) (str:"db/LOCK")))), (mkFileLock 3 (str:"db/LOCK")).
  assert (rtc (lock_step SlowPosix) (PosixEnv_new SlowPosix ([], 0%nat) 1000 (-1), [])
    (fst (fst (posix_LockFile SlowPosix (PosixEnv_new SlowPosix ([], 0%nat) 1000 (-1)) (str:"db/LOCK"))), [mkFileLock 3 (str:"db/LOCK")])) as H.
  { eapply rtc_l; [|apply rtc_refl]. eapply (step_lock SlowPosix _ _ (str:"db/LOCK") Status_OK). reflexivity. }
  split; [exact H|]. exact (proj1 (file_locks_exclusive SlowPosix ([], 0%nat) 1000 (-1) _ _ H)).
Defined.
