(* ===== verification/Snapshot.v ===== *)
(** * Snapshots

    src/db/snapshot.h: the live snapshots, a circular doubly linked list through
    [head_].  Nodes live in a heap of addresses; [New] allocates one and links
    it before the head, [Delete] unlinks and frees it.  A load through an
    address that is not allocated and a failed assertion are faults ([None]).

    The list refines a sequence of (address, sequence number) pairs; as sequence
    numbers never go down, [oldest] is the least one that a reader may use,
    which is what flushes and compactions rely on when they drop entries. *)

From stdpp Require Import gmap sets sorting infinite.
From S2P Require Import Prelude Slice.

(** [class SnapshotImpl] *)
Record SnapshotImpl := mkSnapshot { prev_ : Z; next_ : Z; sequence_number_ : Z }.

(** [class SnapshotList]: the heap; [head_] is at address 0. *)
Abbreviation SnapshotList := (gmap Z SnapshotImpl).
Definition head_ : Z := 0.

Definition set_next (h : SnapshotList) (a n : Z) : option SnapshotList :=
  x ← h !! a; Some (<[a := mkSnapshot (prev_ x) n (sequence_number_ x)]> h).
Definition set_prev (h : SnapshotList) (a p : Z) : option SnapshotList :=
  x ← h !! a; Some (<[a := mkSnapshot p (next_ x) (sequence_number_ x)]> h).

(** [SnapshotList::SnapshotList] *)
Definition SnapshotList_new : SnapshotList := {[ head_ := mkSnapshot head_ head_ 0 ]}.

(** [empty], [oldest] and [newest] *)
Definition empty (h : SnapshotList) : option bool := x ← h !! head_; Some (next_ x =? head_).
Definition oldest (h : SnapshotList) : option Z :=
  none ← empty h;
  if (none : bool) then None else x ← h !! head_; Some (next_ x).
Definition newest (h : SnapshotList) : option Z :=
  none ← empty h;
  if (none : bool) then None else x ← h !! head_; Some (prev_ x).
Definition sequence_number (h : SnapshotList) (a : Z) : option Z := x ← h !! a; Some (sequence_number_ x).

(** The assertion of [New]: [empty() || newest()->sequence_number_ <= s]. *)
Definition not_older (h : SnapshotList) (s : Z) : option bool :=
  none ← empty h;
  if (none : bool) then Some true else a ← newest h; last ← sequence_number h a; Some (last <=? s).

(** [SnapshotList::New] *)
Definition New (h : SnapshotList) (sequence_number : Z) : option (SnapshotList * Z) :=
  in_order ← not_older h sequence_number;
  if (in_order : bool) then
    let snapshot := fresh (dom h) in
    hd ← h !! head_;
    let h := <[snapshot := mkSnapshot (prev_ hd) head_ sequence_number]> h in
    h ← set_prev h head_ snapshot;
    h ← set_next h (prev_ hd) snapshot;
    Some (h, snapshot)
  else None.

(** [SnapshotList::Delete].  Every node but [head_] has this list as its
    [list_], which is what the assertion looks at. *)
Definition Delete (h : SnapshotList) (snapshot : Z) : option SnapshotList :=
  x ← h !! snapshot;
  if snapshot =? head_ then None else
  h ← set_next h (prev_ x) (next_ x);
  x ← h !! snapshot;
  h ← set_prev h (next_ x) (prev_ x);
  Some (delete snapshot h).

(** ** Proofs *)

Implicit Types (h : SnapshotList) (ss : list (Z * Z)).

(** A doubly linked segment from [x] to [e]; [p] is what comes before, [l] the
    last node. *)
Fixpoint dlseg h (p x : Z) ss (l e : Z) : Prop :=
  match ss with
  | [] => x = e /\ p = l
  | (a, s) :: ss => x = a /\ exists n, h !! a = Some (mkSnapshot p n s) /\ dlseg h a n ss l e
  end.

Record rep h ss : Prop := {
  rep_nodup : NoDup (head_ :: map fst ss);
  rep_dom : forall a, a ∈ dom h <-> a ∈ head_ :: map fst ss;
  rep_links : exists first last, h !! head_ = Some (mkSnapshot last first 0) /\ dlseg h head_ first ss last head_ }.

Lemma dlseg_frame h h' p x ss l e :
  (forall a, a ∈ map fst ss -> h' !! a = h !! a) -> dlseg h p x ss l e -> dlseg h' p x ss l e.
Proof.
  revert p x. induction ss as [|[a s] ss IH]; intros p x Hf; [done|]. intros (-> & n & Ha & Hs).
  split; [done|]. exists n. split; [by rewrite (Hf a) by left|]. apply IH; [|done]. intros b Hb. apply Hf. by right.
Qed.

Lemma dlseg_app h p x ss1 ss2 l e :
  dlseg h p x (ss1 ++ ss2) l e <-> exists m y, dlseg h p x ss1 m y /\ dlseg h m y ss2 l e.
Proof.
  revert p x. induction ss1 as [|[a s] ss1 IH]; intros p x; cbn [app dlseg].
  - split; [by exists p, x|]. by intros (m & y & (-> & ->) & H).
  - split.
    + intros (-> & n & Ha & (m & y & H1 & H2)%IH). exists m, y. split; [split; [done|by exists n]|done].
    + intros (m & y & (-> & n & Ha & H1) & H2). split; [done|]. exists n. split; [done|]. apply IH. by exists m, y.
Qed.

(** The last node of a segment, and what changing its next pointer does. *)
Lemma dlseg_last h p x ss a s l e :
  dlseg h p x (ss ++ [(a, s)]) l e <-> l = a /\ exists m, h !! a = Some (mkSnapshot m e s) /\ dlseg h p x ss m a.
Proof.
  rewrite dlseg_app. cbn [dlseg]. split.
  - intros (m & y & H & -> & n & Ha & -> & ->). split; [done|]. by exists m.
  - intros (-> & m & Ha & H). exists m, a. split; [done|]. split; [done|]. by exists e.
Qed.

Lemma dlseg_set_next h p x q sq ss l e e' :
  h !! p = Some (mkSnapshot q x sq) -> NoDup (p :: map fst ss) -> dlseg h p x ss l e ->
  exists h' x', set_next h l e' = Some h' /\ h' !! p = Some (mkSnapshot q x' sq) /\ dlseg h' p x' ss l e' /\
    dom h' = dom h /\ forall a, a ∉ p :: map fst ss -> h' !! a = h !! a.
Proof.
  intros Hp Hnd Hs. unfold set_next. destruct ss as [|[a s] ss _] using rev_ind.
  - destruct Hs as [-> <-]. rewrite Hp. eexists _, e'. split; [done|]. rewrite lookup_insert_eq. split; [done|].
    split; [done|]. split; [apply dom_insert_lookup_L; by rewrite Hp|]. intros a Ha. apply lookup_insert_ne.
    intros <-. apply Ha. by left.
  - apply dlseg_last in Hs as (-> & m & Ha & Hs). rewrite Ha.
    rewrite map_app in Hnd. cbn [map fst] in Hnd. assert (p <> a /\ a ∉ map fst ss) as [Hpa Hna].
    { apply list.NoDup_cons in Hnd as [H1 H2]. apply list.NoDup_app in H2 as (_ & H2 & _). split.
      - intros ->. apply H1, elem_of_app. right. by left.
      - intros H. apply (H2 a H). by left. }
    eexists _, x. split; [done|]. rewrite lookup_insert_ne by done. split; [done|]. split.
    + apply dlseg_last. split; [done|]. exists m. rewrite lookup_insert_eq. split; [done|].
      eapply dlseg_frame; [|exact Hs]. intros b Hb. apply lookup_insert_ne. by intros ->.
    + split; [apply dom_insert_lookup_L; by rewrite Ha|]. intros b Hb. apply lookup_insert_ne. intros <-. apply Hb. right.
      rewrite map_app. apply elem_of_app. right. by left.
Qed.

(** The first node of a segment, and what changing its prev pointer does; [e]
    is the head that closes the circle. *)
Lemma dlseg_set_prev h p x p' q sq ss l e :
  h !! e = Some (mkSnapshot l q sq) -> NoDup (e :: map fst ss) -> dlseg h p x ss l e ->
  exists h' l', set_prev h x p' = Some h' /\ h' !! e = Some (mkSnapshot l' q sq) /\ dlseg h' p' x ss l' e /\
    dom h' = dom h /\ forall a, a ∉ e :: map fst ss -> h' !! a = h !! a.
Proof.
  intros He Hnd Hs. unfold set_prev. destruct ss as [|[a s] ss].
  - destruct Hs as [-> <-]. rewrite He. eexists _, p'. split; [done|]. rewrite lookup_insert_eq. split; [done|].
    split; [done|]. split; [apply dom_insert_lookup_L; by rewrite He|]. intros a Ha. apply lookup_insert_ne.
    intros <-. apply Ha. by left.
  - destruct Hs as (-> & n & Ha & Hs). rewrite Ha. cbn [map fst] in Hnd.
    apply list.NoDup_cons in Hnd as [H1 [H2 _]%list.NoDup_cons]. assert (e <> a) as Hea by (intros ->; apply H1; by left).
    eexists _, l. split; [done|]. rewrite lookup_insert_ne by done. split; [done|]. split.
    + split; [done|]. exists n. rewrite lookup_insert_eq. split; [done|].
      eapply dlseg_frame; [|exact Hs]. intros b Hb. apply lookup_insert_ne. by intros ->.
    + split; [apply dom_insert_lookup_L; by rewrite Ha|]. intros b Hb. apply lookup_insert_ne. intros <-. apply Hb. right. by left.
Qed.

Lemma SnapshotList_new_rep : rep SnapshotList_new [].
Proof.
  split; [by apply NoDup_singleton| |by exists head_, head_].
  intros a. unfold SnapshotList_new. rewrite dom_singleton, elem_of_singleton, list_elem_of_singleton. done.
Qed.

(** What the accessors read. *)
Lemma rep_empty h ss : rep h ss -> empty h = Some (bool_decide (ss = [])).
Proof.
  intros [Hnd _ (first & last & Hh & Hs)]. unfold empty. rewrite Hh. cbn [mbind option_bind next_]. f_equal.
  destruct ss as [|[a s] ss].
  - destruct Hs as [-> _]. by rewrite Z.eqb_refl.
  - destruct Hs as (-> & _). apply Z.eqb_neq. intros ->. apply list.NoDup_cons in Hnd as [H _]. apply H. by left.
Qed.

Lemma rep_oldest h a s ss : rep h ((a, s) :: ss) -> oldest h = Some a /\ sequence_number h a = Some s.
Proof.
  intros Hr. unfold oldest. rewrite (rep_empty _ _ Hr). destruct Hr as [_ _ (first & last & Hh & -> & n & Ha & _)].
  unfold sequence_number. rewrite Hh, Ha. done.
Qed.

Lemma rep_newest h ss a s : rep h (ss ++ [(a, s)]) -> newest h = Some a /\ sequence_number h a = Some s.
Proof.
  intros Hr. unfold newest. rewrite (rep_empty _ _ Hr), bool_decide_eq_false_2 by (by destruct ss).
  destruct Hr as [_ _ (first & last & Hh & (-> & m & Ha & _)%dlseg_last)]. unfold sequence_number. rewrite Hh, Ha. done.
Qed.

(** The assertion of [New] holds exactly when the newest snapshot is not past
    the sequence number. *)
Definition newest_at_most ss (s : Z) : Prop := from_option (fun x => snd x <= s) True (list.last ss).

Lemma rep_not_older h ss s : rep h ss -> exists b, not_older h s = Some b /\ (b = true <-> newest_at_most ss s).
Proof.
  intros Hr. unfold not_older, newest_at_most. rewrite (rep_empty _ _ Hr). cbn [mbind option_bind].
  destruct ss as [|[a t] ss _] using rev_ind; [by exists true|]. rewrite bool_decide_eq_false_2 by (by destruct ss).
  destruct (rep_newest _ _ _ _ Hr) as [-> Hs]. cbn [mbind option_bind]. rewrite Hs, last_snoc. eexists.
  split; [done|]. apply Z.leb_le.
Qed.

Lemma snapshot_New_rep h ss s :
  rep h ss -> newest_at_most ss s ->
  exists h' a, New h s = Some (h', a) /\ a ∉ head_ :: map fst ss /\ rep h' (ss ++ [(a, s)]).
Proof.
  intros Hr Hle. unfold New. destruct (rep_not_older h ss s Hr) as (in_order & -> & Ho). rewrite (proj2 Ho Hle).
  cbn [mbind option_bind]. destruct Hr as [Hnd Hdom (first & last & Hh & Hs)]. set (a := fresh (dom h)).
  assert (a ∉ head_ :: map fst ss) as Hna by (rewrite <- Hdom; apply is_fresh).
  assert (head_ <> a) as Hha by (intros E; apply Hna; rewrite <- E; by left).
  rewrite Hh. cbn [mbind option_bind prev_]. set (h1 := <[a := _]> h). unfold set_prev at 1.
  assert (h1 !! head_ = h !! head_) as E1 by (unfold h1; by rewrite lookup_insert_ne).
  rewrite E1, Hh. cbn [mbind option_bind prev_ next_ sequence_number_]. set (h2 := <[head_ := _]> h1).
  assert (dlseg h2 head_ first ss last head_) as Hs2.
  { eapply dlseg_frame; [|exact Hs]. intros b Hb. unfold h2, h1. rewrite !lookup_insert_ne; [done| |].
    - intros ->. apply Hna. by right.
    - intros <-. apply list.NoDup_cons in Hnd as [H _]. done. }
  assert (h2 !! head_ = Some (mkSnapshot a first 0)) as Hh2 by apply lookup_insert_eq.
  destruct (dlseg_set_next h2 head_ first a 0 ss last head_ a Hh2 Hnd Hs2) as (h3 & x & -> & Hh3 & Hs3 & Hd3 & Hf3).
  cbn [mbind option_bind]. exists h3, a. split; [done|]. split; [done|]. split.
  - rewrite map_app. cbn [map fst]. rewrite app_comm_cons. apply list.NoDup_app. split; [done|]. split; [|by apply NoDup_singleton].
    intros b Hb ->%list_elem_of_singleton. done.
  - intros b. rewrite Hd3. unfold h2, h1. rewrite !dom_insert, !elem_of_union, !elem_of_singleton, Hdom, map_app, !elem_of_cons, elem_of_app.
    cbn [map fst]. rewrite list_elem_of_singleton. tauto.
  - exists x, a. split; [done|]. apply dlseg_last. split; [done|]. exists last. split; [|done].
    rewrite Hf3 by done. unfold h2. rewrite lookup_insert_ne by done. apply lookup_insert_eq.
Qed.

Lemma snapshot_New_aborts h ss s : rep h ss -> ~ newest_at_most ss s -> New h s = None.
Proof.
  intros Hr Hlt. unfold New. destruct (rep_not_older h ss s Hr) as ([|] & -> & Hb); [|done]. by destruct Hlt; apply Hb.
Qed.

Lemma snapshot_Delete_rep h ss1 a s ss2 :
  rep h (ss1 ++ (a, s) :: ss2) -> exists h', Delete h a = Some h' /\ rep h' (ss1 ++ ss2).
Proof.
  intros [Hnd Hdom (first & last & Hh & Hs)].
  apply dlseg_app in Hs as (m & y & H1 & -> & n & Ha & H2).
  rewrite map_app in Hnd, Hdom. cbn [map fst] in Hnd, Hdom.
  assert (NoDup (head_ :: map fst ss1) /\ NoDup (head_ :: map fst ss2) /\ a ∉ head_ :: map fst ss1 /\ a ∉ head_ :: map fst ss2 /\
    (forall b, b ∈ map fst ss1 -> b ∉ map fst ss2) /\ NoDup (head_ :: map fst ss1 ++ map fst ss2)) as (N1 & N2 & Na1 & Na2 & Ndis & N3).
  { apply list.NoDup_cons in Hnd as [Hh0 Hnd]. apply list.NoDup_app in Hnd as (Hn1 & Hd & Hn2).
    apply list.NoDup_cons in Hn2 as [Ha2 Hn2]. rewrite elem_of_app, elem_of_cons in Hh0.
    assert (forall b, b ∈ map fst ss1 -> b ∉ map fst ss2) as Hd' by (intros b Hb Hb2; apply (Hd b Hb); by right).
    repeat rewrite list.NoDup_cons. rewrite list.NoDup_app, elem_of_app, !elem_of_cons.
    split; [tauto|]. split; [tauto|]. split.
    { intros [->|Ha1]; [tauto|]. apply (Hd a Ha1). by left. }
    split; [|tauto]. intros [->|Ha1]; tauto. }
  unfold Delete. rewrite Ha. cbn [mbind option_bind prev_ next_].
  assert (head_ <> a) as Hha by (intros E; apply Na1; rewrite <- E; by left).
  replace (a =? head_) with false by (symmetry; by apply Z.eqb_neq).
  destruct (dlseg_set_next h head_ first last 0 ss1 m a n Hh N1 H1) as (h1 & x & -> & Hh1 & Hs1 & Hd1 & Hf1).
  cbn [mbind option_bind]. rewrite (Hf1 a Na1), Ha. cbn [mbind option_bind prev_ next_].
  assert (dlseg h1 a n ss2 last head_) as Hs2.
  { eapply dlseg_frame; [|exact H2]. intros b Hb. apply Hf1. intros [->|Hb1]%elem_of_cons; [|by eapply Ndis].
    by apply list.NoDup_cons in N2 as [? _]. }
  destruct (dlseg_set_prev h1 a n m x 0 ss2 last head_ Hh1 N2 Hs2) as (h2 & l' & -> & Hh2 & Hs2' & Hd2 & Hf2).
  cbn [mbind option_bind]. eexists. split; [done|]. split.
  - by rewrite map_app.
  - intros b. rewrite dom_delete, elem_of_difference, elem_of_singleton, Hd2, Hd1, Hdom, map_app.
    rewrite elem_of_cons in Na1, Na2. rewrite !elem_of_cons, !elem_of_app, elem_of_cons. split; [tauto|].
    intros Hb. split; [tauto|]. intros ->. tauto.
  - exists x, l'. rewrite lookup_delete_ne by done. split; [done|]. apply dlseg_app. exists m, n. split.
    + eapply dlseg_frame; [|exact Hs1]. intros b Hb. rewrite lookup_delete_ne.
      * apply Hf2. intros [->|Hb2]%elem_of_cons; [by apply list.NoDup_cons in N1 as [? _]|by eapply Ndis].
      * intros ->. apply Na1. by right.
    + eapply dlseg_frame; [|exact Hs2']. intros b Hb. rewrite lookup_delete_ne; [done|]. intros ->. apply Na2. by right.
Qed.

(** The states of a database's snapshot list: [DBImpl::GetSnapshot] takes the
    last sequence number, which never goes down, and a user releases each
    snapshot at most once. *)
Inductive snapshots_reach : SnapshotList -> list (Z * Z) -> Z -> Prop :=
  | reach_new : snapshots_reach SnapshotList_new [] 0
  | reach_get h ss last s h' a :
      snapshots_reach h ss last -> last <= s -> New h s = Some (h', a) -> snapshots_reach h' (ss ++ [(a, s)]) s
  | reach_release h ss1 a s ss2 last h' :
      snapshots_reach h (ss1 ++ (a, s) :: ss2) last -> Delete h a = Some h' -> snapshots_reach h' (ss1 ++ ss2) last.

Lemma bounded_newest ss (last s : Z) : Forall (fun x => snd x <= last) ss -> last <= s -> newest_at_most ss s.
Proof.
  intros Hl Hle. unfold newest_at_most. destruct ss as [|x ss _] using rev_ind; [done|]. rewrite last_snoc. cbn.
  apply Forall_app in Hl as [_ Hl]. apply list.Forall_cons in Hl as [Hl _]. lia.
Qed.

Lemma reach_rep h ss last :
  snapshots_reach h ss last -> rep h ss /\ StronglySorted Z.le (map snd ss) /\ Forall (fun x => snd x <= last) ss.
Proof.
  induction 1 as [|h ss last s h' a _ (Hr & Hs & Hl) Hle E|h ss1 a s ss2 last h' _ (Hr & Hs & Hl) E].
  - split; [apply SnapshotList_new_rep|]. split; constructor.
  - destruct (snapshot_New_rep h ss s Hr (bounded_newest _ _ _ Hl Hle)) as (h2 & a2 & E2 & _ & Hr2). rewrite E in E2. injection E2 as <- <-.
    split; [done|]. rewrite map_app. cbn [map snd]. split.
    + apply StronglySorted_app. split; [|split; [done|repeat constructor]].
      intros x y (p & -> & Hp)%list_elem_of_fmap ->%list_elem_of_singleton. rewrite list.Forall_forall in Hl. specialize (Hl p Hp). lia.
    + apply Forall_app. split; [|by repeat constructor]. eapply list.Forall_impl; [exact Hl|]. cbn. lia.
  - destruct (snapshot_Delete_rep h ss1 a s ss2 Hr) as (h2 & E2 & Hr2). rewrite E in E2. injection E2 as <-.
    split; [done|]. rewrite map_app in Hs |- *. cbn [map] in Hs. apply StronglySorted_app in Hs as (H1 & H2 & H3).
    apply StronglySorted_inv in H3 as [H3 _]. apply Forall_app in Hl as [L1 L2]. apply list.Forall_cons in L2 as [_ L2]. split.
    + apply StronglySorted_app. split; [|done]. intros x y Hx Hy. apply H1; [done|by right].
    + by apply Forall_app.
Qed.

(** C34: In every state of the snapshot list that a database reaches by taking
    and releasing snapshots, no access faults: [empty] tells whether a snapshot
    is live, [oldest] is a live snapshot whose sequence number is the least of
    all live ones and asserts when there is none, taking a further snapshot at a
    sequence number that is not below the newest one succeeds with a new address
    (in particular at the database's last sequence number and any later one)
    and below it the assertion of [New] fails, and releasing any live one
    succeeds and leaves exactly the others. *)
Theorem snapshot_list_invariant (h : SnapshotList) (ss : list (Z * Z)) (last : Z) :
  snapshots_reach h ss last ->
  empty h = Some (bool_decide (ss = [])) /\
  (ss = [] -> oldest h = None) /\
  (forall a s, (a, s) ∈ ss -> s <= last /\ sequence_number h a = Some s /\
     exists a0 s0, oldest h = Some a0 /\ sequence_number h a0 = Some s0 /\ (a0, s0) ∈ ss /\ s0 <= s) /\
  (forall s, Forall (fun x => snd x <= s) ss ->
     exists h' a, New h s = Some (h', a) /\ a ∉ map fst ss /\ rep h' (ss ++ [(a, s)])) /\
  (forall s x, x ∈ ss -> s < snd x -> New h s = None) /\
  (forall ss1 a s ss2, ss = ss1 ++ (a, s) :: ss2 -> exists h', Delete h a = Some h' /\ rep h' (ss1 ++ ss2)).
Proof.
  intros (Hr & Hs & Hl)%reach_rep. rewrite (rep_empty h ss Hr). split; [done|]. split.
  { intros ->. unfold oldest. by rewrite (rep_empty _ _ Hr). }
  split; [|split; [|split]].
  - intros a s Hin. split; [rewrite list.Forall_forall in Hl; by apply (Hl (a, s))|]. split.
    + destruct Hr as [_ _ (first & last' & _ & Hd)]. apply list_elem_of_split in Hin as (ss1 & ss2 & ->).
      apply dlseg_app in Hd as (m & y & _ & _ & n & Ha & _). unfold sequence_number. by rewrite Ha.
    + destruct ss as [|[a0 s0] ss]; [by apply not_elem_of_nil in Hin|]. destruct (rep_oldest _ _ _ _ Hr) as [Ho1 Ho2]. exists a0, s0.
      split; [done|]. split; [done|]. split; [by left|]. cbn [map snd] in Hs. apply StronglySorted_inv in Hs as [_ Hs].
      apply elem_of_cons in Hin as [[= -> ->]|Hin]; [lia|]. rewrite list.Forall_forall in Hs. apply Hs.
      by apply (list_elem_of_fmap_2 snd _ (a, s)).
  - intros s Hle. destruct (snapshot_New_rep h ss s Hr) as (h' & a & E & Hna & Hr').
    { eapply bounded_newest; [exact Hle|lia]. }
    exists h', a. split; [done|]. split; [|done]. intros Ha. apply Hna. by right.
  - intros s x Hx Hlt. eapply snapshot_New_aborts; [exact Hr|]. unfold newest_at_most.
    destruct ss as [|y ss _] using rev_ind; [by apply not_elem_of_nil in Hx|]. rewrite last_snoc. cbn. intros Hle.
    apply elem_of_app in Hx as [Hx| ->%list_elem_of_singleton]; [|lia]. rewrite map_app in Hs.
    apply StronglySorted_app in Hs as (Hs & _). specialize (Hs (snd x) (snd y)).
    assert (snd x <= snd y); [|lia]. apply Hs; [by apply (list_elem_of_fmap_2 snd)|by left].
  - intros ss1 a s ss2 ->. by eapply snapshot_Delete_rep.
Qed.

(** Three snapshots, the second released. *)
Definition sample_snapshots : SnapshotList :=
  default SnapshotList_new
    ('(h, _) ← New SnapshotList_new 5; '(h, b) ← New h 7; '(h, _) ← New h 7; Delete h b).

Lemma snapshot_list_invariant_witness :
  empty sample_snapshots = Some false /\ (exists a, oldest sample_snapshots = Some a /\ sequence_number sample_snapshots a = Some 5) /\
  (exists h' a, New sample_snapshots 9 = Some (h', a)) /\ New sample_snapshots 6 = None.
Proof.
  destruct (snapshot_list_invariant sample_snapshots [(1, 5); (3, 7)] 7) as (He & _ & Ho & Hn & Ha & _).
  - apply (reach_release (default SnapshotList_new
      ('(h, _) ← New SnapshotList_new 5; '(h, b) ← New h 7; '(h, _) ← New h 7; Some h)) [(1, 5)] 2 7 [(3, 7)]); [|by vm_compute].
    eapply (reach_get _ [(1, 5); (2, 7)]); [eapply (reach_get _ [(1, 5)]); [eapply (reach_get _ []); [apply reach_new|lia|]|lia|]|lia|];
      by vm_compute.
  - split; [exact He|]. split; [|split].
    + destruct (Ho 1 5) as (_ & H1 & _); [by left|]. exists 1. split; [by vm_compute|exact H1].
    + destruct (Hn 9) as (h' & a & E & _); [repeat constructor; cbn; lia|]. by exists h', a.
    + apply (Ha 6 (3, 7)); [right; by left|cbn; lia].
Defined.
