(* ===== verification/BuildTable.v ===== *)
(** * Building a table from an iterator

    src/db/builder.cc: [BuildTable] writes the entries of an iterator (a
    memtable's, as a rule) into a new table file.  With [FlushPruningOptions] it
    leaves out every entry that a newer entry of the same user key hides from
    all snapshots.

    The theorem is about the whole function: the file it leaves on the disk is a
    table of the kept entries, the metadata describe it, and no read at a
    sequence number from the oldest snapshot on can tell the kept entries from
    the iterator's. *)

From Stdlib Require Import SpecFloat.
From stdpp Require Import gmap sets sorting.
From S2P Require Import Prelude Slice Coding Crc32c Comparator DbFormat Hash Cache WriteBatch LogFormat Filename Iterator.
From S2P Require Import SkipList MemTable Entries View Prune BlockBuilder Block DbIter TwoLevelIterator Format FilterBlock TableBuilder Table.
From S2P Require Import VersionEdit VersionFiles VersionBuilder VersionGet VersionIter TableCache Env.

(** [struct FlushPruningOptions] *)
Record FlushPruningOptions := mkPruning { user_comparator : Comparator; smallest_snapshot : Z }.

(** The locals [current_user_key], [has_previous_key], [previous_sequence]. *)
Record PruneState := mkPrune { current_user_key : bytes; has_previous_key : bool; previous_sequence : Z }.
Definition PruneState_new : PruneState := mkPrune [] false 0.

(** One round's decision: the new locals and [drop]. *)
Definition prune_step (pruning : option FlushPruningOptions) (p : PruneState) (key : bytes) : PruneState * bool :=
  match pruning with
  | None => (p, false)
  | Some o =>
      match ParseInternalKey key with
      | None => (mkPrune [] false (previous_sequence p), false)
      | Some parsed =>
          if has_previous_key p && match Compare (user_comparator o) (user_key parsed) (current_user_key p) with
                                   | Eq => true | _ => false end
          then (mkPrune (current_user_key p) true (sequence parsed), previous_sequence p <=? smallest_snapshot o)
          else (mkPrune (user_key parsed) true (sequence parsed), false)
      end
  end.

Section Operations.
Context (E : Env) (extend : Z -> bytes -> Z) (z : Compression) (C : CacheOps TableAndFile).
Context (dbname : bytes) (options_ : Options) (cache_id : Z) (I : IteratorOps).
Abbreviation Builder := (Rep (env_W E)).

Definition with_range (m : FileMetaData) (small large : bytes) : FileMetaData :=
  mkFile (refs m) (allowed_seeks m) (number m) (file_size m) small large.
Definition with_size (m : FileMetaData) (n : Z) : FileMetaData :=
  mkFile (refs m) (allowed_seeks m) (number m) n (smallest m) (largest m).

(** The loop over the iterator. *)
Fixpoint build_loop (fuel : nat) (pruning : option FlushPruningOptions) (iter : IState I) (builder : Builder)
    (p : PruneState) (meta : FileMetaData) : option (IState I * Builder * FileMetaData) :=
  match fuel with
  | O => None
  | S fuel =>
      if negb (it_Valid I iter) then Some (iter, builder, meta)
      else
        let key := it_key I iter in
        let '(p, drop) := prune_step pruning p key in
        let '(builder, meta) :=
          if drop then (builder, meta)
          else
            let meta := with_range meta (if NumEntries _ builder =? 0 then key else smallest meta) key in
            (TableBuilder_Add extend z builder key (it_value I iter), meta) in
        iter ← it_Next I iter;
        build_loop fuel pruning iter builder p meta
  end.

(** Opening an iterator to see whether the table is usable, and deleting it. *)
Definition check_table (w : World E) (cache_ : CState C) (number size : Z) : option (CState C * Status) :=
  '(cache_, it, handle, _) ← TableCache_NewIterator extend z C dbname options_ (NewRandomAccessFile E w) cache_id false
    cache_ number size;
  let s := it_status (AnyOps extend z) it in
  Some (match handle with Some h => UnrefEntry C cache_ h | None => cache_ end, s).

(** The part of [BuildTable] for an iterator that is valid. *)
Definition build_file (fuel : nat) (pruning : option FlushPruningOptions) (w : World E) (cache_ : CState C)
    (iter : IState I) (meta : FileMetaData) (file : WFile (env_W E))
    : option (World E * CState C * IState I * FileMetaData * Status) :=
  '(iter, builder, meta) ← build_loop fuel pruning iter (TableBuilder_new options_ file) PruneState_new meta;
  let '(builder, s) := TableBuilder_Finish extend z builder in
  let meta := if ok s then with_size meta (FileSize _ builder) else meta in
  let file := TableBuilder.file builder in
  let '(file, s) := if ok s then Sync E file else (file, s) in
  let '(file, s) := if ok s then Close E file else (file, s) in
  let w := delete_file E w file in
  '(cache_, s) ← (if ok s then check_table w cache_ (number meta) (file_size meta) else Some (cache_, s));
  Some (w, cache_, iter, meta, s).

(** [BuildTable] *)
Definition BuildTable (fuel : nat) (w : World E) (cache_ : CState C) (iter : IState I) (meta : FileMetaData)
    (pruning : option FlushPruningOptions) : option (World E * CState C * FileMetaData * Status) :=
  let meta := with_size meta 0 in
  iter ← it_SeekToFirst I iter;
  fname ← TableFileName dbname (number meta);
  let finish w cache_ iter meta s :=
    let s := if negb (ok (it_status I iter)) then it_status I iter else s in
    let w := if ok s && (file_size meta >? 0) then w else fst (env_RemoveFile E w fname) in
    (w, cache_, meta, s) in
  if it_Valid I iter then
    let '(w, s, file) := NewWritableFile E w fname in
    if negb (ok s) then Some (w, cache_, meta, s)
    else
      file ← file;
      '(w, cache_, iter, meta, s) ← build_file fuel pruning w cache_ iter meta file;
      Some (finish w cache_ iter meta s)
  else Some (finish w cache_ iter meta Status_OK).
End Operations.

(** ** Which entries are kept *)

Section Kept.
Context (ucmp : Comparator) `{!ComparatorLaws ucmp}.
Abbreviation ucompare := (Compare ucmp).
Implicit Types (e x : Entry) (es : list Entry).

(** The entries that are not dropped. *)
Fixpoint kept (pruning : option FlushPruningOptions) (p : PruneState) es : list Entry :=
  match es with
  | [] => []
  | e :: es =>
      let '(p, drop) := prune_step pruning p (entry_ikey e) in
      if drop then kept pruning p es else e :: kept pruning p es
  end.

Lemma kept_sublist pruning p es : kept pruning p es `sublist_of` es.
Proof.
  revert p. induction es as [|e es IH]; intros p; cbn [kept]; [done|].
  destruct (prune_step pruning p (entry_ikey e)) as [p' [|]]; [by apply sublist_cons|by apply sublist_skip].
Qed.

Lemma kept_none p es : kept None p es = es.
Proof. revert p. induction es as [|e es IH]; intros p; cbn [kept prune_step]; [done|]. by rewrite IH. Qed.

(** The locals remember the previous entry. *)
Definition remembers (p : PruneState) (prev : option Entry) : Prop :=
  match prev with
  | Some x => has_previous_key p = true /\ ucompare (current_user_key p) (e_key x) = Eq /\ previous_sequence p = e_seq x
  | None => has_previous_key p = false
  end.

Lemma prune_step_spec snap p prev e :
  entry_ok e -> remembers p prev ->
  let '(p', drop) := prune_step (Some (mkPruning ucmp snap)) p (entry_ikey e) in
  drop = covered ucmp snap prev e /\ remembers p' (Some e).
Proof.
  intros (Hseq & _) Hr. unfold prune_step. rewrite (ParseInternalKey_entry e Hseq). cbn [user_key sequence user_comparator smallest_snapshot].
  destruct prev as [x|]; cbn [covered].
  - destruct Hr as (-> & Hk & ->). cbn [andb]. rewrite (cmp_eq_r ucompare _ _ _ Hk).
    destruct (ucompare (e_key e) (e_key x)) eqn:Ec; (split; [done|]); cbn; (split; [done|]); (split; [|done]);
      try apply (cmp_refl ucompare).
    by rewrite (cmp_eq_l ucompare _ _ _ Hk), (cmp_eq_sym ucompare _ _ Ec).
  - cbn in Hr. rewrite Hr. cbn [andb]. split; [done|]. cbn. by rewrite (cmp_refl ucompare).
Qed.

Abbreviation survivors snap := (survivors ucmp snap (fun _ => false)).

Lemma kept_survivors snap p prev es :
  Forall entry_ok es -> remembers p prev -> kept (Some (mkPruning ucmp snap)) p es = survivors snap prev es.
Proof.
  intros Hok. revert p prev. induction Hok as [|e es He Hok IH]; intros p prev Hr; cbn [kept Prune.survivors]; [done|].
  pose proof (prune_step_spec snap p prev e He Hr) as H. destruct (prune_step _ p _) as [p' drop]. destruct H as [-> Hr'].
  assert (obsolete snap (fun _ => false) e = false) as -> by (unfold obsolete; destruct (e_type e); [apply andb_false_r|done]).
  rewrite orb_false_r. destruct (covered ucmp snap prev e); [by apply IH|]. f_equal. by apply IH.
Qed.
End Kept.

(** ** Proofs *)

Section Correct.
Context (E : Env) (files : World E -> gmap bytes bytes) (wcontents : WFile (env_W E) -> bytes)
  (fname : WFile (env_W E) -> bytes) (rest : SFile (env_F E) -> bytes) `{!EnvLaws E files wcontents fname rest}.
Context (extend : Z -> bytes -> Z) `{!CrcLaws extend} (z : Compression) `{!CompressionLaws z}.
Context (ucmp : Comparator) `{!ComparatorLaws ucmp} (o : Options) (policy : option FilterPolicy)
  (ok_keys : list bytes -> Prop) `{!DbTableOptions ucmp o policy ok_keys}.
Context (C : CacheOps TableAndFile) (limit : Z)
  (rep : CState C -> (bytes -> option TableAndFile) -> list (CHandle C * TableAndFile) -> Prop) `{!CacheLaws C limit rep}.
Context (dbname : bytes) (cid : Z).
Context (I : IteratorOps) (okt : bytes -> Prop).
Abbreviation icompare := (InternalKeyComparator.Compare ucmp).
Implicit Types (es ks : list Entry) (meta : FileMetaData).

#[local] Instance builder_writes : ReliableWrites (env_W E) wcontents := env_writes.
Abbreviation tracks := (tracks (env_W E) wcontents fname).

(** The range of the entries that were added. *)
Definition range_of meta ks : FileMetaData :=
  match head ks, list.last ks with
  | Some a, Some b => with_range meta (entry_ikey a) (entry_ikey b)
  | _, _ => meta
  end.

Lemma range_snoc meta ks e :
  range_of meta (ks ++ [e]) =
  with_range (range_of meta ks) (if zlen ks =? 0 then entry_ikey e else smallest (range_of meta ks)) (entry_ikey e).
Proof.
  unfold range_of. rewrite list.last_snoc. destruct ks as [|a ks]; [done|]. cbn [app head].
  assert (exists b, list.last (a :: ks) = Some b) as [b ->].
  { destruct (list.last (a :: ks)) as [b|] eqn:Eb; [by exists b|]. by apply list.last_None in Eb. }
  rewrite (proj2 (Z.eqb_neq _ _)); [done|]. cbn [length]. lia.
Qed.

Lemma build_loop_spec fuel pruning es n f meta : forall iter i p ks,
  cursor_at okt icompare I (map entry_kv es) iter i -> (length es - i < fuel)%nat ->
  wcontents f = [] -> fname f = n ->
  exists iter', build_loop E extend z I fuel pruning iter
      (TableBuilder_AddAll extend z (TableBuilder_new o f) (map entry_kv ks)) p (range_of meta ks) =
    Some (iter', TableBuilder_AddAll extend z (TableBuilder_new o f) (map entry_kv (ks ++ kept pruning p (drop i es))),
      range_of meta (ks ++ kept pruning p (drop i es))) /\
    cursor_at okt icompare I (map entry_kv es) iter' (length es).
Proof using All.
  induction fuel as [|fuel IH]; intros iter i p ks Hi Hf Hc Hn; [lia|]. cbn [build_loop].
  rewrite (cur_valid _ _ Hi), length_map. destruct (i <? length es)%nat eqn:Ei; boolprop; cbn [negb].
  2:{ exists iter. rewrite drop_ge by lia. cbn [kept]. rewrite app_nil_r. split; [done|].
      pose proof (cur_bound _ _ Hi) as Hb. rewrite length_map in Hb. by replace (length es) with i by lia. }
  destruct (lookup_lt_is_Some_2 es i Ei) as [e He].
  destruct (cur_entry _ _ (entry_kv e) Hi) as [Ek Ev].
  { change (map entry_kv es) with (entry_kv <$> es). by rewrite list_lookup_fmap, He. }
  rewrite Ek, Ev. cbn [entry_kv fst snd]. rewrite (drop_S es e i He). cbn [kept].
  destruct (cur_next _ _ Hi) as (iter2 & En & Hi2); [by rewrite length_map|].
  destruct (prune_step pruning p (entry_ikey e)) as [p' [|]].
  - rewrite En. cbn [mbind option_bind]. apply IH; [done|lia|done|done].
  - set (b := TableBuilder_AddAll extend z (TableBuilder_new o f) (map entry_kv ks)).
    destruct (AddAll_tracks extend z (env_W E) wcontents fname Append_fname Flush_fname (fname f) (TableBuilder_new o f)
      (map entry_kv ks)) as [_ Hne]; [by apply TableBuilder_new_tracks|]. fold b in Hne. rewrite length_map in Hne.
    cbn [TableBuilder_new num_entries] in Hne. unfold NumEntries. rewrite Hne, Z.add_0_l, <- range_snoc, En. cbn [mbind option_bind].
    replace (TableBuilder_Add extend z b (entry_ikey e) (e_value e)) with
      (TableBuilder_AddAll extend z (TableBuilder_new o f) (map entry_kv (ks ++ [e]))).
    + destruct (IH iter2 (S i) p' (ks ++ [e])) as (iter' & Eq & Hi'); [done|lia|done|done|].
      exists iter'. rewrite Eq, <- app_assoc. done.
    + unfold b, TableBuilder_AddAll. by rewrite map_app, fold_left_app.
Qed.

(** The table file of [es] that replaces file [n]. *)
Definition holds_table (w w' : World E) (n : bytes) es (tbl : bytes) : Prop :=
  files w' = <[n := tbl]> (files w) /\ table_bytes extend z ucmp o ok_keys es tbl.

Context (contents : Z -> list Entry).
Abbreviation cache_tables := (cache_tables extend z ucmp C rep contents).

Lemma check_table_spec w cache hs n tbl :
  cache_tables cache hs -> zlen hs < limit -> 0 < n < 2 ^ 64 -> files w !! table_name dbname n = Some tbl ->
  table_bytes extend z ucmp o ok_keys (contents n) tbl ->
  exists cache', check_table E extend z C dbname o cid w cache n (zlen tbl) = Some (cache', Status_OK) /\ cache_tables cache' hs.
Proof using All.
  intros Hc Hl Hn Hw Ht. unfold check_table. destruct (random_spec w _ _ Hw) as (rf & Erf & Hrf).
  destruct (TableCache_NewIterator_spec extend z ucmp o policy ok_keys C limit rep dbname (NewRandomAccessFile E w) cid contents hs Hl
    false cache n (zlen tbl) Hc ltac:(lia)) as (cache' & it & h & tf & t & pos & Eq & Hc' & HC & Hp).
  { split; [lia|]. exists rf, tbl. split; [done|]. split; [done|]. split; [done|]. by left. }
  rewrite Eq. cbn [mbind option_bind]. rewrite (cur_status _ _ Hp). eexists. split; [done|].
  destruct Hc' as (m & Hr & Hm). exists m. split; [by eapply (cache_release cache' m _ hs h tf)|done].
Qed.

Lemma table_bytes_nonempty es tbl : table_bytes extend z ucmp o ok_keys es tbl -> 0 < zlen tbl.
Proof using Type.
  intros [(ds & idx & [_ _ _ _ (FB & meta & metaD & metaT & idxD & idxT & -> & _)]) _ _ _ _].
  pose proof (stored_length extend metaD metaT) as H. unfold kBlockTrailerSize in H. rewrite !length_app. lia.
Qed.

(** What can be written: the sizes that the table format and the filter policy
    allow, for whichever empty file it goes to. *)
Record table_fits ks : Prop := {
  tf_sorted : es_sorted ucmp ks;
  tf_size : pairs_size (map entry_kv ks) + 20 * zlen ks + 8 < 2 ^ 32;
  tf_keys : forall l, (length l <= length ks)%nat -> ok_keys l;
  tf_length : forall f : WFile (env_W E), wcontents f = [] ->
    zlen (wcontents (file (fst (build_table extend z o f (map entry_kv ks))))) < 2 ^ 32 }.

(** Finishing a table, syncing and closing its file and handing it back. *)
Lemma finish_table_file ks f n w :
  table_fits ks -> wcontents f = [] -> fname f = n ->
  let r := TableBuilder_Finish extend z (TableBuilder_AddAll extend z (TableBuilder_new o f) (map entry_kv ks)) in
  exists f1 f2 tbl, snd r = Status_OK /\ FileSize _ (fst r) = zlen tbl /\
    Sync E (file (fst r)) = (f1, Status_OK) /\ Close E f1 = (f2, Status_OK) /\
    files (delete_file E w f2) = <[n := tbl]> (files w) /\ table_bytes extend z ucmp o ok_keys ks tbl.
Proof using All.
  intros [Hs Hsz Hk Hl] Hf Hn r.
  destruct (build_table_bytes extend z (env_W E) wcontents ucmp o policy ok_keys ks f Hs Hsz Hk Hf (Hl f Hf)) as [Hok Ht].
  fold (build_table extend z o f (map entry_kv ks)) in r. fold r in Hok, Ht.
  assert (tracks n (fst r)) as [_ Ho Hn'].
  { apply (Finish_tracks extend z (env_W E) wcontents fname Append_fname Flush_fname).
    apply (AddAll_tracks extend z (env_W E) wcontents fname Append_fname Flush_fname).
    rewrite <- Hn. by apply TableBuilder_new_tracks. }
  destruct (Sync_spec (file (fst r))) as (f1 & E1 & C1 & N1). destruct (Close_spec f1) as (f2 & E2 & C2 & N2).
  exists f1, f2, (wcontents (file (fst r))). split; [done|]. split.
  { unfold FileSize. rewrite Ho. apply u64_small. pose proof (tby_length _ _ _ _ _ _ _ Ht) as H.
    change (2 ^ 32) with 4294967296 in H. change (2 ^ 64) with 18446744073709551616. lia. }
  split; [done|]. split; [done|]. split; [|done]. rewrite (delete_spec w f2), N2, N1, Hn', C2, C1. done.
Qed.

Lemma BuildTable_spec fuel pruning es iter i w cache hs meta :
  let n := table_name dbname (number meta) in
  let ks := kept pruning PruneState_new es in
  cursor_at okt icompare I (map entry_kv es) iter i -> (length es < fuel)%nat ->
  cache_tables cache hs -> zlen hs < limit -> 0 < number meta < 2 ^ 64 ->
  (es <> [] -> table_fits ks /\ contents (number meta) = ks) ->
  exists w' cache' meta', BuildTable E extend z C dbname o cid I fuel w cache iter meta pruning =
      Some (w', cache', meta', Status_OK) /\ cache_tables cache' hs /\
    match es with
    | [] => meta' = with_size meta 0 /\ files w' = delete n (files w)
    | _ => exists tbl, meta' = with_size (range_of meta ks) (zlen tbl) /\ holds_table w w' n ks tbl
    end.
Proof using All.
  intros n ks Hi Hf Hc Hl Hn Hes. unfold BuildTable.
  destruct (cur_first _ _ Hi) as (it0 & -> & Hit0). cbn [mbind option_bind].
  change (number (with_size meta 0)) with (number meta). rewrite TableFileName_pos by lia. cbn [mbind option_bind].
  rewrite (cur_valid _ _ Hit0), length_map. destruct es as [|e0 es0].
  { cbn [length Nat.ltb Nat.leb with_size file_size number]. rewrite (cur_status _ _ Hit0). cbn [ok Status_OK state_ negb andb Z.gtb Z.compare].
    eexists _, cache, _. split; [done|]. split; [done|]. split; [done|]. apply remove_spec. }
  set (es := e0 :: es0) in *. rewrite (proj2 (Nat.ltb_lt _ _)) by (cbn; lia).
  destruct (Hes ltac:(done)) as [Hfit Hcont]. cbn [number with_size]. fold n.
  destruct (writable_spec w n) as (w1 & f & -> & Hw1 & Hf0 & Hfn). cbn [ok Status_OK state_ negb mbind option_bind].
  unfold build_file. destruct (build_loop_spec fuel pruning es n f (with_size meta 0) it0 0 PruneState_new [] Hit0 ltac:(lia) Hf0 Hfn)
    as (it1 & El & Hit1). change (drop 0 es) with es in El. cbn [map TableBuilder_AddAll fold_left range_of head app drop] in El. rewrite El. fold ks. cbn [mbind option_bind].
  set (m0 := range_of (with_size meta 0) ks).
  fold (TableBuilder_AddAll extend z (TableBuilder_new o f) (map entry_kv ks)).
  destruct (finish_table_file ks f n w1 Hfit Hf0 Hfn) as (f1 & f2 & tbl & Es & Esz & Esy & Ecl & Hfiles & Ht).
  destruct (TableBuilder_Finish extend z _) as [b s]. cbn [fst snd] in Es, Esz, Esy. subst s. cbn [ok Status_OK state_].
  rewrite Esy. cbn [ok Status_OK state_]. rewrite Ecl. cbn [ok Status_OK state_]. rewrite Esz. cbn [with_size file_size number].
  assert (number m0 = number meta) as Enum.
  { unfold m0, range_of. destruct (head ks), (list.last ks); done. }
  rewrite Enum. destruct (check_table_spec (delete_file E w1 f2) cache hs (number meta) tbl Hc Hl Hn) as (cache' & -> & Hc').
  { rewrite Hfiles. apply lookup_insert_eq. } { by rewrite Hcont. }
  cbn [mbind option_bind]. rewrite (cur_status _ _ Hit1). cbn [ok Status_OK state_ negb andb file_size].
  pose proof (table_bytes_nonempty _ _ Ht) as Hpos. cbn [with_size file_size]. assert ((zlen tbl >? 0) = true) as -> by (apply Z.gtb_lt; lia).
  eexists _, cache', _. split; [done|]. split; [done|]. exists tbl. split.
  - unfold m0, range_of, with_size, with_range. destruct (head ks), (list.last ks); done.
  - split; [|done]. rewrite Hfiles, Hw1. apply insert_insert_eq.
Qed.
(** The file of a table that was just built, as versions and reads know it. *)
Definition is_table_in (w : World E) (f : FileMetaData) : Prop :=
  0 <= number f < 2 ^ 64 /\
  table_on_disk extend z ucmp o ok_keys dbname (NewRandomAccessFile E w) contents (number f) (file_size f).

Lemma range_holds meta ks e :
  es_sorted ucmp ks -> e ∈ ks ->
  icompare (smallest (range_of meta ks)) (entry_ikey e) <> Gt /\ icompare (entry_ikey e) (largest (range_of meta ks)) <> Gt /\
  exists b, b ∈ ks /\ largest (range_of meta ks) = entry_ikey b.
Proof using ComparatorLaws0.
  intros Hs He. unfold range_of. destruct ks as [|a ks]; [by apply not_elem_of_nil in He|]. cbn [head].
  destruct (list.last (a :: ks)) as [b|] eqn:Eb; [|by apply list.last_None in Eb].
  apply list.last_Some in Eb as [l El]. cbn [smallest largest with_range]. split; [|split].
  - apply elem_of_cons in He as [->|He]; [by rewrite (cmp_refl icompare)|].
    apply StronglySorted_inv in Hs as [_ Hs]. rewrite list.Forall_forall in Hs. by rewrite (Hs e He).
  - unfold es_sorted in Hs. rewrite El in He, Hs. apply StronglySorted_app in Hs as (H1 & _ & _).
    apply elem_of_app in He as [He|He]; [by rewrite (H1 e b He ltac:(by left))|].
    apply list_elem_of_singleton in He as ->. by rewrite (cmp_refl icompare).
  - exists b. split; [|done]. rewrite El. apply elem_of_app. right. by left.
Qed.

Lemma built_file_holds w n m ks tbl :
  files w !! table_name dbname n = Some tbl -> table_bytes extend z ucmp o ok_keys ks tbl ->
  contents n = ks -> 0 < n < 2 ^ 64 -> ks <> [] -> Forall entry_ok ks -> NoDup (map e_seq ks) ->
  number m = n -> file_size m = zlen tbl -> (forall e, e ∈ ks ->
    icompare (smallest m) (entry_ikey e) <> Gt /\ icompare (entry_ikey e) (largest m) <> Gt) ->
  (exists e, e ∈ ks /\ largest m = entry_ikey e) ->
  file_holds ucmp (is_table_in w) contents m.
Proof using All.
  intros Hw Ht Hc Hn Hne Hok Hnd En Esz Hr Hl. unfold is_table_in. split; unfold file_entries; rewrite ?En, ?Hc; try done.
  - split; [lia|]. split; [lia|]. destruct (random_spec w _ _ Hw) as (rf & Erf & Hrf).
    exists rf, tbl. rewrite ?En, ?Hc. split; [done|]. split; [done|]. split; [done|]. by left.
  - apply Ht.
Qed.
End Correct.

(** ** Properties *)

(** C17: flushing a memtable loses nothing that a reader may ask for.  In an
    environment whose files do not fail, [BuildTable] with the pruning options of
    a flush reads a sorted iterator to its end and succeeds.  The new file is a
    table on the disk, opened and checked through the table cache; the metadata
    name its number, its size and a range that holds all its keys; its entries
    are entries of the iterator; and at every sequence number from the oldest
    snapshot on, the newest visible entry of every user key is the one the
    iterator had. *)
Theorem flush_builds_table (E : Env) files wcontents fname rest (extend : Z -> bytes -> Z) (z : Compression) (ucmp : Comparator)
    (o : Options) (policy : option FilterPolicy) (ok_keys : list bytes -> Prop) (C : CacheOps TableAndFile) (limit : Z) rep
    (dbname : bytes) (cid : Z) (I : IteratorOps) (okt : bytes -> Prop) (contents : Z -> list Entry)
    (fuel : nat) (snap : Z) (es : list Entry) (iter : IState I) (i : nat) (w : World E) (cache : CState C) hs (meta : FileMetaData) :
  EnvLaws E files wcontents fname rest -> CrcLaws extend -> CompressionLaws z -> ComparatorLaws ucmp ->
  DbTableOptions ucmp o policy ok_keys -> CacheLaws C limit rep ->
  cursor_at okt (InternalKeyComparator.Compare ucmp) I (map entry_kv es) iter i -> (length es < fuel)%nat ->
  es <> [] -> es_sorted ucmp es -> Forall entry_ok es -> NoDup (map e_seq es) ->
  cache_tables extend z ucmp C rep contents cache hs -> zlen hs < limit -> 0 < number meta < 2 ^ 64 ->
  contents (number meta) = survivors ucmp snap (fun _ => false) None es ->
  table_fits E wcontents extend z ucmp o ok_keys (contents (number meta)) ->
  exists w' cache' meta',
    BuildTable E extend z C dbname o cid I fuel w cache iter meta (Some (mkPruning ucmp snap)) = Some (w', cache', meta', Status_OK) /\
    number meta' = number meta /\ cache_tables extend z ucmp C rep contents cache' hs /\
    file_holds ucmp (is_table_in E extend z ucmp o ok_keys dbname contents w') contents meta' /\
    (forall n, n <> table_name dbname (number meta) -> files w' !! n = files w !! n) /\
    (forall e, e ∈ contents (number meta) -> e ∈ es) /\
    (forall u s, snap <= s -> newest ucmp (contents (number meta)) u s = newest ucmp es u s).
Proof.
  intros HE Hcrc Hz Hcmp Hopt Hcache Hi Hf Hne Hs Hok Hnd Hc Hl Hn Hcont Hfit.
  assert (kept (Some (mkPruning ucmp snap)) PruneState_new es = contents (number meta)) as Ek.
  { rewrite Hcont. by apply kept_survivors. }
  destruct (BuildTable_spec E files wcontents fname rest extend z ucmp o policy ok_keys C limit rep dbname cid I okt contents fuel
    (Some (mkPruning ucmp snap)) es iter i w cache hs meta Hi Hf Hc Hl Hn) as (w' & cache' & meta' & Eb & Hc' & Hm).
  { intros _. by rewrite Ek. }
  destruct es as [|e0 es0]; [done|]. destruct Hm as (tbl & -> & Hw' & Ht). rewrite Ek in Eb, Ht. set (ks := contents (number meta)) in *.
  assert (number (with_size (range_of meta ks) (zlen tbl)) = number meta) as Enum.
  { unfold range_of, with_size. by destruct (head ks), (list.last ks). }
  exists w', cache', (with_size (range_of meta ks) (zlen tbl)). split; [done|]. split; [done|]. split; [done|]. split; [|split; [|split]].
  - assert (ks <> []) as Hks by (rewrite Hcont; cbn [survivors covered orb];
      unfold obsolete; destruct (e_type e0); rewrite ?andb_false_r; discriminate).
    assert (es_sorted ucmp ks) as Hsk by (apply Ht).
    apply (built_file_holds E files wcontents fname rest extend z ucmp o policy ok_keys C limit rep dbname cid I okt contents w' (number meta) _ ks tbl); try done.
    + rewrite Hw'. apply lookup_insert_eq.
    + rewrite Hcont. by apply survivors_Forall.
    + rewrite Hcont. by apply survivors_NoDup.
    + intros e He. destruct (range_holds ucmp meta ks e Hsk He) as (H1 & H2 & _). done.
    + destruct ks as [|a ks']; [done|]. destruct (range_holds ucmp meta (a :: ks') a Hsk ltac:(by left)) as (_ & _ & b & Hb & El). by exists b.
  - intros n Hne'. rewrite Hw'. by apply lookup_insert_ne.
  - intros e He. rewrite Hcont in He. by eapply survivors_elem.
  - intros u s Hs'. rewrite Hcont. by apply covered_newest.
Qed.

(** The six entries of [sample_entries], flushed while the oldest snapshot is 5:
    the entry of [a] at 2 is dropped. *)
Definition sample_kept (n : Z) : list Entry := survivors BytewiseComparator 5 (fun _ => false) None sample_entries.

Lemma sample_kept_fits :
  table_fits MemEnv snd Extend_ref no_compression BytewiseComparator sample_db_options sample_ok_keys (sample_kept 4).
Proof.
  split.
  - repeat constructor.
  - vm_compute. reflexivity.
  - intros l Hl. unfold sample_ok_keys, bloom_ok_keys. rewrite length_map.
    assert (length (sample_kept 4) = 5%nat) by reflexivity. lia.
  - intros [n d] Hd. cbn in Hd. subst d. vm_compute. reflexivity.
Qed.

Lemma flush_builds_table_witness :
  exists w' cache' meta',
    BuildTable MemEnv Extend_ref no_compression NewLRUCache (str:"db") sample_db_options 0 sample_internal 10 ∅
      (SharedLRUCache_new 990) (Block_NewIterator sample_internal_block) (FileMetaData_new 4 0 [] [])
      (Some (mkPruning BytewiseComparator 5)) = Some (w', cache', meta', Status_OK) /\
    newest BytewiseComparator (sample_kept 4) (str:"a") 5 = Some (mkEntry 5 kTypeValue (str:"a") (str:"a5")).
Proof.
  destruct (build_block_cursor (InternalKeyComparator.Compare BytewiseComparator) 2 (map entry_kv sample_entries)) as (ipos & HC & Hi).
  { lia. } { repeat constructor. } { vm_compute. reflexivity. } { repeat constructor; vm_compute; reflexivity. }
  destruct (flush_builds_table MemEnv (fun w => w) snd fst (fun r => r) Extend_ref no_compression BytewiseComparator sample_db_options
    (Some sample_policy) sample_ok_keys NewLRUCache 1000 (shared_rep 1000) (str:"db") 0 sample_internal (fun _ => True) sample_kept
    10 5 sample_entries (Block_NewIterator sample_internal_block) 6 ∅ (SharedLRUCache_new 990) [] (FileMetaData_new 4 0 [] [])
    _ _ _ _ _ (shared_cache_laws 1000 sample_cache_limit))
    as (w' & cache' & meta' & Eb & _ & _ & _ & _ & _ & Hn).
  - by exists ipos.
  - cbn. lia.
  - done.
  - repeat constructor.
  - repeat constructor; cbv; congruence.
  - by apply (bool_decide_unpack _).
  - exists (fun _ => None). split; [|done]. apply shared_new_rep; [done|lia].
  - done.
  - done.
  - done.
  - apply sample_kept_fits.
  - exists w', cache', meta'. split; [exact Eb|]. exact (Hn (str:"a") 5 ltac:(lia)).
Defined.
