(* ===== verification/DbOptions.v ===== *)
(** * The options of a database

    include/options.h ([Options], [ReadOptions], [WriteOptions]) and, from
    src/db/db_impl.cc, [ClipToRange], [SanitizeOptions] and [TableCacheSize].

    The info log and the block cache are handles of objects that the model does
    not look into; what matters here is whether they are given. *)

From S2P Require Import Prelude Slice Comparator DbFormat Hash Filename BlockBuilder Block Format FilterBlock TableBuilder Env.

(** [struct Options]: the part that tables read, and the rest. *)
Record DBOptions := mkDBOptions {
  table_options : Options;
  create_if_missing : bool;
  error_if_exists : bool;
  has_info_log : bool;
  write_buffer_size : Z;
  max_open_files : Z;
  block_cache : option Z;          (* the capacity of the given cache *)
  max_file_size : Z;
  reuse_logs : bool
}.

(** [Options::Options] *)
Definition DBOptions_default : DBOptions :=
  mkDBOptions Options_default false false false (4 * 1024 * 1024) 1000 None (2 * 1024 * 1024) false.

(** [struct ReadOptions]; a snapshot is the address of its node. *)
Record ReadOptions := mkReadOptions {
  verify_checksums : bool; fill_cache : bool; snapshot : option Z; max_sequential_skip_in_iterations : Z }.
Definition ReadOptions_default : ReadOptions := mkReadOptions false true None 0.

(** [struct WriteOptions] *)
Record WriteOptions := mkWriteOptions { wo_sync : bool }.

(** [ClipToRange<T, V>] with [V] = [int]: the comparison is on the value cast to
    [int]. *)
Definition ClipToRange (value minvalue maxvalue : Z) : Z :=
  let value := if s32 value >? maxvalue then maxvalue else value in
  if s32 value <? minvalue then minvalue else value.

Definition kNumNonTableCacheFiles : Z := 10.

(** [SanitizeOptions]: the environment may fail to make a logger, which leaves
    the database without one. *)
Definition SanitizeOptions (E : Env) (NewLogger : World E -> bytes -> World E * Status) (w : World E) (dbname : bytes)
    (icmp : Comparator) (ipolicy : FilterPolicy) (src : DBOptions) : World E * DBOptions :=
  let t := table_options src in
  let t := mkOptions icmp (paranoid_checks t) (ClipToRange (block_size t) (Z.shiftl 1 10) (Z.shiftl 4 20)) (block_restart_interval t)
    (compression t) (zstd_compression_level t) (match filter_policy t with Some _ => Some ipolicy | None => None end) in
  let '(w, has_log) :=
    if has_info_log src then (w, true)
    else
      let w := fst (CreateDir E w dbname) in
      let w := fst (RenameFile E w (InfoLogFileName dbname) (OldInfoLogFileName dbname)) in
      let '(w, s) := NewLogger w (InfoLogFileName dbname) in
      (w, ok s) in
  (w, mkDBOptions t (create_if_missing src) (error_if_exists src) has_log
        (ClipToRange (write_buffer_size src) (Z.shiftl 64 10) (Z.shiftl 1 30))
        (ClipToRange (max_open_files src) (64 + kNumNonTableCacheFiles) 50000)
        (Some (match block_cache src with Some c => c | None => Z.shiftl 8 20 end))
        (ClipToRange (max_file_size src) (Z.shiftl 1 20) (Z.shiftl 1 30)) (reuse_logs src)).

(** [TableCacheSize] *)
Definition TableCacheSize (sanitized_options : DBOptions) : Z := max_open_files sanitized_options - kNumNonTableCacheFiles.

(** ** Proofs *)

Ltac sizes :=
  change (Z.shiftl 64 10) with 65536 in *; change (Z.shiftl 1 30) with 1073741824 in *;
  change (Z.shiftl 1 20) with 1048576 in *; change (Z.shiftl 1 10) with 1024 in *;
  change (Z.shiftl 4 20) with 4194304 in *; unfold kNumNonTableCacheFiles in *.

Lemma ClipToRange_spec v lo hi :
  - 2 ^ 31 <= v < 2 ^ 31 -> - 2 ^ 31 <= lo -> lo <= hi < 2 ^ 31 ->
  ClipToRange v lo hi = Z.max lo (Z.min v hi).
Proof.
  intros Hv Hlo Hhi. unfold ClipToRange. rewrite (s32_small v) by lia.
  rewrite Z.gtb_ltb. destruct (hi <? v) eqn:E1; boolprop; rewrite s32_small by lia;
    destruct (_ <? lo) eqn:E2; boolprop; lia.
Qed.

(** A size beyond 32 bits escapes the clipping. *)
Lemma ClipToRange_wraps : ClipToRange (2 ^ 32 + Z.shiftl 1 20) (Z.shiftl 64 10) (Z.shiftl 1 30) = 2 ^ 32 + Z.shiftl 1 20.
Proof. reflexivity. Qed.

(** What [SanitizeOptions] promises. *)
Record options_ok (o : DBOptions) : Prop := {
  oo_write_buffer : Z.shiftl 64 10 <= write_buffer_size o <= Z.shiftl 1 30;
  oo_open_files : 64 + kNumNonTableCacheFiles <= max_open_files o <= 50000;
  oo_file_size : Z.shiftl 1 20 <= max_file_size o <= Z.shiftl 1 30;
  oo_block_size : Z.shiftl 1 10 <= block_size (table_options o) <= Z.shiftl 4 20;
  oo_cache : exists c, block_cache o = Some c;
  oo_table_cache : 64 <= TableCacheSize o <= 49990 }.

(** C36: the options a database works with are well formed.  Whatever a user
    passes, as long as each size fits the [int] that [ClipToRange] casts it to,
    the sanitized options have every size within its limits, a block cache, and
    a table cache of at least 64 files; sizes that were within their limits are
    left alone; and tables get the internal comparator, and the internal filter
    policy exactly when the user gave one. *)
Theorem options_sanitized (E : Env) NewLogger (w : World E) (dbname : bytes) (icmp : Comparator) (ipolicy : FilterPolicy)
    (src : DBOptions) :
  Forall (fun v => - 2 ^ 31 <= v < 2 ^ 31)
    [write_buffer_size src; max_open_files src; max_file_size src; block_size (table_options src)] ->
  let o := snd (SanitizeOptions E NewLogger w dbname icmp ipolicy src) in
  options_ok o /\
  comparator (table_options o) = icmp /\
  (filter_policy (table_options o) = Some ipolicy <-> filter_policy (table_options src) <> None) /\
  (options_ok src -> write_buffer_size o = write_buffer_size src /\ max_open_files o = max_open_files src /\
     max_file_size o = max_file_size src /\ block_size (table_options o) = block_size (table_options src)).
Proof.
  intros Hv o. repeat rewrite list.Forall_cons in Hv. destruct Hv as (H1 & H2 & H3 & H4 & _).
  unfold o, SanitizeOptions. destruct (if has_info_log src then _ else _) as [w' lg]. cbn [snd]. clear o.
  set (wb := ClipToRange (write_buffer_size src) _ _). set (mf := ClipToRange (max_open_files src) _ _).
  set (fs := ClipToRange (max_file_size src) _ _). set (bs := ClipToRange (block_size (table_options src)) _ _).
  assert (wb = Z.max (Z.shiftl 64 10) (Z.min (write_buffer_size src) (Z.shiftl 1 30))) as Ewb by (apply ClipToRange_spec; done).
  assert (mf = Z.max (64 + kNumNonTableCacheFiles) (Z.min (max_open_files src) 50000)) as Emf by (apply ClipToRange_spec; done).
  assert (fs = Z.max (Z.shiftl 1 20) (Z.min (max_file_size src) (Z.shiftl 1 30))) as Efs by (apply ClipToRange_spec; done).
  assert (bs = Z.max (Z.shiftl 1 10) (Z.min (block_size (table_options src)) (Z.shiftl 4 20))) as Ebs by (apply ClipToRange_spec; done).
  sizes. split; [|split; [done|split]].
  - split; unfold TableCacheSize; sizes; cbn; (by eexists) || lia.
  - cbn. destruct (filter_policy (table_options src)); split; done.
  - intros [K1 K2 K3 K4 _ _]. cbn.
    sizes. lia.
Qed.

Lemma options_sanitized_witness :
  options_ok (snd (SanitizeOptions MemEnv (fun w _ => (w, Status_OK)) ∅ (str:"db") (InternalKeyComparator.make BytewiseComparator)
    (InternalFilterPolicy (NewBloomFilterPolicy 10)) DBOptions_default)).
Proof.
  apply (options_sanitized MemEnv (fun w _ => (w, Status_OK)) ∅ (str:"db") (InternalKeyComparator.make BytewiseComparator)
    (InternalFilterPolicy (NewBloomFilterPolicy 10)) DBOptions_default).
  repeat constructor; cbn; lia.
Defined.
