(* ===== verification/VersionSet.v ===== *)
(** * The set of versions and its manifest

    src/db/version_set.cc and version_set.h ([VersionSet]): the versions that
    are alive, the numbers that are handed out, and the manifest, the log of
    edits from which a new process rebuilds them.

    A [Version*] is the identity of a node of the list of versions; a node has
    the version and its count of references and is removed when the count drops
    to 0.  The descriptor's writer owns the manifest file while it is open.

    The main fact is that [Recover] rebuilds from the disk what [LogAndApply] had
    installed. *)

From Stdlib Require Import SpecFloat.
From stdpp Require Import gmap sets sorting.
From S2P Require Import Prelude Slice Coding Crc32c Comparator DbFormat Hash Cache WriteBatch LogFormat LogWriter LogReader Filename.
From S2P Require Import Iterator BlockBuilder Block Format FilterBlock TableBuilder Table VersionEdit VersionFiles VersionBuilder.
From S2P Require Import Compaction TableCache Env.

(** A version in the list of versions. *)
Record VersionNode := mkNode { vn_id : nat; vn_version : Version; vn_refs : Z }.

Section Operations.
Context (E : Env) (extend : Z -> bytes -> Z) (ucmp : Comparator) (dbname_ : bytes) (max_file_size : Z) (reuse_logs : bool).
Abbreviation icompare := (InternalKeyComparator.Compare ucmp).

(** [class VersionSet]; the list is that of [dummy_versions_]. *)
Record VersionSet := mkVersionSet {
  vs_next_file_number : Z; vs_manifest_file_number : Z; vs_last_sequence : Z;
  vs_log_number : Z; vs_prev_log_number : Z;
  vs_descriptor : option (Writer (env_W E));
  vs_versions : list VersionNode; vs_next_id : nat; vs_current : nat;
  vs_compact_pointer : list bytes }.

Definition set_versions (vs : VersionSet) (l : list VersionNode) (next current : nat) : VersionSet :=
  mkVersionSet (vs_next_file_number vs) (vs_manifest_file_number vs) (vs_last_sequence vs) (vs_log_number vs)
    (vs_prev_log_number vs) (vs_descriptor vs) l next current (vs_compact_pointer vs).
Definition set_pointers (vs : VersionSet) (cp : list bytes) : VersionSet :=
  mkVersionSet (vs_next_file_number vs) (vs_manifest_file_number vs) (vs_last_sequence vs) (vs_log_number vs)
    (vs_prev_log_number vs) (vs_descriptor vs) (vs_versions vs) (vs_next_id vs) (vs_current vs) cp.
Definition set_descriptor (vs : VersionSet) (d : option (Writer (env_W E))) : VersionSet :=
  mkVersionSet (vs_next_file_number vs) (vs_manifest_file_number vs) (vs_last_sequence vs) (vs_log_number vs)
    (vs_prev_log_number vs) d (vs_versions vs) (vs_next_id vs) (vs_current vs) (vs_compact_pointer vs).
Definition set_numbers (vs : VersionSet) (next manifest last log prev : Z) : VersionSet :=
  mkVersionSet next manifest last log prev (vs_descriptor vs) (vs_versions vs) (vs_next_id vs) (vs_current vs)
    (vs_compact_pointer vs).

(** The node of a version, and changing a version in place. *)
Definition find_node (l : list VersionNode) (id : nat) : option VersionNode := find (fun n => (vn_id n =? id)%nat) l.
Definition version_of (vs : VersionSet) (id : nat) : option Version := vn_version <$> find_node (vs_versions vs) id.
Definition current (vs : VersionSet) : option Version := version_of vs (vs_current vs).
Definition on_node (l : list VersionNode) (id : nat) (f : VersionNode -> VersionNode) : list VersionNode :=
  map (fun n => if (vn_id n =? id)%nat then f n else n) l.
Definition set_version (vs : VersionSet) (id : nat) (v : Version) : VersionSet :=
  set_versions vs (on_node (vs_versions vs) id (fun n => mkNode (vn_id n) v (vn_refs n))) (vs_next_id vs) (vs_current vs).

(** [Version::Ref], [Version::Unref] with [Version::~Version] *)
Definition Version_Ref (vs : VersionSet) (id : nat) : VersionSet :=
  set_versions vs (on_node (vs_versions vs) id (fun n => mkNode (vn_id n) (vn_version n) (vn_refs n + 1)))
    (vs_next_id vs) (vs_current vs).
Definition Version_Unref (vs : VersionSet) (id : nat) : VersionSet :=
  let l := on_node (vs_versions vs) id (fun n => mkNode (vn_id n) (vn_version n) (vn_refs n - 1)) in
  set_versions vs (List.filter (fun n => negb ((vn_id n =? id)%nat && (vn_refs n =? 0))) l) (vs_next_id vs) (vs_current vs).

(** [VersionSet::AppendVersion] *)
Definition AppendVersion (vs : VersionSet) (v : Version) : VersionSet :=
  let vs := Version_Unref vs (vs_current vs) in
  let id := vs_next_id vs in
  set_versions vs (vs_versions vs ++ [mkNode id v 1]) (S id) id.

(** [VersionSet::VersionSet] *)
Definition VersionSet_new : VersionSet :=
  mkVersionSet 2 0 0 0 0 None [mkNode 0 Version_new 1] 1 0 (replicate kNumLevels []).

(** [NewFileNumber], [ReuseFileNumber], [MarkFileNumberUsed], [SetLastSequence] *)
Definition with_next (vs : VersionSet) (n : Z) : VersionSet :=
  set_numbers vs n (vs_manifest_file_number vs) (vs_last_sequence vs) (vs_log_number vs) (vs_prev_log_number vs).
Definition NewFileNumber (vs : VersionSet) : VersionSet * Z :=
  (with_next vs (u64 (vs_next_file_number vs + 1)), vs_next_file_number vs).
Definition ReuseFileNumber (vs : VersionSet) (file_number : Z) : VersionSet :=
  if vs_next_file_number vs =? u64 (file_number + 1) then with_next vs file_number else vs.
Definition MarkFileNumberUsed (vs : VersionSet) (number : Z) : VersionSet :=
  if vs_next_file_number vs <=? number then with_next vs (u64 (number + 1)) else vs.
Definition with_last (vs : VersionSet) (s : Z) : VersionSet :=
  set_numbers vs (vs_next_file_number vs) (vs_manifest_file_number vs) s (vs_log_number vs) (vs_prev_log_number vs).
Definition vs_SetLastSequence (vs : VersionSet) (s : Z) : option VersionSet :=
  if s >=? vs_last_sequence vs then Some (with_last vs s) else None.

(** [NumLevelFiles], [NumLevelBytes], [VersionSet::NeedsCompaction] *)
Definition NumLevelFiles (vs : VersionSet) (level : nat) : option Z := v ← current vs; Some (zlen (level_files v level)).
Definition NumLevelBytes (vs : VersionSet) (level : nat) : option Z := v ← current vs; Some (TotalFileSize (level_files v level)).
Definition vs_NeedsCompaction (vs : VersionSet) : option bool := v ← current vs; Some (NeedsCompaction v).

(** [VersionSet::AddLiveFiles] *)
Definition AddLiveFiles (vs : VersionSet) (live : gset Z) : gset Z :=
  fold_left (fun live n =>
    fold_left (fun live level => fold_left (fun live f => {[number f]} ∪ live) (level_files (vn_version n) level) live)
      (seq 0 kNumLevels) live) (vs_versions vs) live.

(** [VersionSet::MaxNextLevelOverlappingBytes] *)
Definition MaxNextLevelOverlappingBytes (vs : VersionSet) : option Z :=
  v ← current vs;
  fold_left (fun acc level =>
    fold_left (fun acc f =>
      result ← acc;
      overlaps ← GetOverlappingInputs ucmp level (level_files v level) (Some (smallest f)) (Some (largest f));
      let sum := TotalFileSize overlaps in
      Some (if sum >? result then sum else result)) (level_files v level) acc)
    (seq 1 (kNumLevels - 2)) (Some 0).

(** [VersionSet::LevelSummary] *)
Definition LevelSummary (vs : VersionSet) : option bytes :=
  v ← current vs;
  Some (str:"files[ " ++ concat (map (fun level => decimal (zlen (level_files v level)) ++ str:" ") (seq 0 kNumLevels)) ++ str:"]").

(** [VersionSet::PickCompaction], [VersionSet::CompactRange]: the compaction has
    a reference to its input version, which [Compaction::ReleaseInputs] drops. *)
Definition with_inputs (vs : VersionSet) (r : option (Compaction * list bytes)) : VersionSet * option (Compaction * nat) :=
  match r with
  | None => (vs, None)
  | Some (c, cp) => (set_pointers (Version_Ref vs (vs_current vs)) cp, Some (c, vs_current vs))
  end.
Definition vs_PickCompaction (vs : VersionSet) (garbage : bool) : option (VersionSet * option (Compaction * nat)) :=
  v ← current vs;
  r ← PickCompaction ucmp max_file_size v (vs_compact_pointer vs) garbage;
  Some (with_inputs vs r).
Definition vs_CompactRange (vs : VersionSet) (garbage : bool) (level : nat) (begin_ end_ : option bytes)
    : option (VersionSet * option (Compaction * nat)) :=
  v ← current vs;
  r ← CompactRange ucmp max_file_size v (vs_compact_pointer vs) garbage level begin_ end_;
  Some (with_inputs vs r).
Definition ReleaseInputs (vs : VersionSet) (input_version : nat) : VersionSet := Version_Unref vs input_version.

(** [VersionSet::ApproximateOffsetOf], with [TableCache::NewIterator] giving the
    table, which it does when the file can be opened. *)
Section ApproximateOffsetOf.
Context {TC : Type} (open_table : TC -> Z -> Z -> option (TC * option Table)).
Fixpoint offset_in_level (tc : TC) (level : nat) (files : list FileMetaData) (ikey : bytes) (result : Z) : option (TC * Z) :=
  match files with
  | [] => Some (tc, result)
  | f :: files =>
      match icompare (largest f) ikey, icompare (smallest f) ikey with
      | Lt, _ | Eq, _ => offset_in_level tc level files ikey (u64 (result + file_size f))
      | Gt, Gt => if (0 <? level)%nat then Some (tc, result) else offset_in_level tc level files ikey result
      | Gt, _ =>
          '(tc, table) ← open_table tc (number f) (file_size f);
          match table with
          | Some t => off ← Table.ApproximateOffsetOf t ikey; offset_in_level tc level files ikey (u64 (result + off))
          | None => offset_in_level tc level files ikey result
          end
      end
  end.
Definition vs_ApproximateOffsetOf (tc : TC) (v : Version) (ikey : bytes) : option (TC * Z) :=
  fold_left (fun acc level => '(tc, result) ← acc; offset_in_level tc level (level_files v level) ikey result)
    (seq 0 kNumLevels) (Some (tc, 0)).
End ApproximateOffsetOf.

(** [VersionSet::WriteSnapshot] *)
Definition snapshot_edit (vs : VersionSet) (v : Version) (garbage : bool) : VersionEdit :=
  let edit := SetComparatorName (VersionEdit_new garbage) (Comparator_Name ucmp) in
  let edit := fold_left (fun edit level =>
      match vs_compact_pointer vs !! level with
      | Some (_ :: _ as key) => SetCompectorPointer edit (Z.of_nat level) key
      | _ => edit
      end) (seq 0 kNumLevels) edit in
  fold_left (fun edit level =>
      fold_left (fun edit f => AddFile edit (Z.of_nat level) (number f) (file_size f) (smallest f) (largest f))
        (level_files v level) edit) (seq 0 kNumLevels) edit.
Definition WriteSnapshot (vs : VersionSet) (garbage : bool) (log : Writer (env_W E)) : option (Writer (env_W E) * Status) :=
  v ← current vs; Some (AddRecord extend log (VersionEdit_EncodeTo (snapshot_edit vs v garbage) [])).

(** What [LogAndApply] asserts of an edit with a log number. *)
Definition log_number_ok (vs : VersionSet) (edit : VersionEdit) : bool :=
  negb (has_log_number_ edit) ||
  (log_number_ edit >=? vs_log_number vs) && (log_number_ edit <? vs_next_file_number vs).

(** The edit of [LogAndApply] with the numbers filled in. *)
Definition complete_edit (vs : VersionSet) (edit : VersionEdit) : VersionEdit :=
  let edit := if has_log_number_ edit then edit else SetLogNumber edit (vs_log_number vs) in
  let edit := if has_prev_log_number_ edit then edit else SetPrevLogNumber edit (vs_prev_log_number vs) in
  SetLastSequence (SetNextFile edit (vs_next_file_number vs)) (vs_last_sequence vs).

(** Opening a new descriptor, when there is none: the file name is empty when
    there was one. *)
Definition open_descriptor (w : World E) (vs : VersionSet) (garbage : bool)
    : option (World E * VersionSet * option bytes * Status) :=
  match vs_descriptor vs with
  | Some _ => Some (w, vs, None, Status_OK)
  | None =>
      new_manifest_file ← DescriptorFileName dbname_ (vs_manifest_file_number vs);
      let '(w, s, file) := NewWritableFile E w new_manifest_file in
      if ok s then
        file ← file;
        '(log, s) ← WriteSnapshot vs garbage (Writer_new extend file);
        Some (w, set_descriptor vs (Some log), Some new_manifest_file, s)
      else Some (w, vs, Some new_manifest_file, s)
  end.

(** Writing the edit's record and syncing the descriptor. *)
Definition log_edit (vs : VersionSet) (edit : VersionEdit) (s : Status) : option (VersionSet * Status) :=
  if negb (ok s) then Some (vs, s)
  else
    log ← vs_descriptor vs;
    let '(log, s) := AddRecord extend log (VersionEdit_EncodeTo edit []) in
    let '(log, s) :=
      if ok s then let '(f, s) := Sync E (dest_ log) in (mkWriter f (block_offset_ log) (type_crc_ log), s) else (log, s) in
    Some (set_descriptor vs (Some log), s).

(** [VersionSet::LogAndApply] *)
Definition LogAndApply (w : World E) (vs : VersionSet) (edit : VersionEdit) (garbage : bool)
    : option (World E * VersionSet * Status) :=
  if negb (log_number_ok vs edit) then None else
  let edit := complete_edit vs edit in
  base ← current vs;
  let '(cp, builder) := Apply ucmp (vs_compact_pointer vs) (Builder_new base) edit in
  let vs := set_pointers vs cp in
  files ← SaveTo ucmp builder;
  let v := Finalize (mkVersion files None (-1) (double_of (-1)) (-1)) in
  '(w, vs, new_manifest_file, s) ← open_descriptor w vs garbage;
  '(vs, s) ← log_edit vs edit s;
  '(w, s) ← (match new_manifest_file with
             | Some _ => if ok s then SetCurrentFile E w dbname_ (vs_manifest_file_number vs) else Some (w, s)
             | None => Some (w, s)
             end);
  if ok s then
    let vs := AppendVersion vs v in
    Some (w, set_numbers vs (vs_next_file_number vs) (vs_manifest_file_number vs) (vs_last_sequence vs)
               (log_number_ edit) (prev_log_number_ edit), s)
  else
    match new_manifest_file with
    | Some name =>
        let w := match vs_descriptor vs with Some log => delete_file E w (dest_ log) | None => w end in
        Some (fst (env_RemoveFile E w name), set_descriptor vs None, s)
    | None => Some (w, vs, s)
    end.

(** The locals of [Recover]'s loop: the status, the builder with the compaction
    pointers, and the numbers that were found. *)
Record RecoverState := mkRecover {
  rc_status : Status; rc_pointers : list bytes; rc_builder : Builder;
  rc_log : option Z; rc_prev : option Z; rc_next : option Z; rc_last : option Z }.

Definition set_if (b : bool) (n : Z) (old : option Z) : option Z := if b then Some n else old.

(** [LogReporter::Corruption] *)
Definition recover_report (st : RecoverState) (s : Status) : RecoverState :=
  if ok (rc_status st) then mkRecover s (rc_pointers st) (rc_builder st) (rc_log st) (rc_prev st) (rc_next st) (rc_last st) else st.

(** The loop's body: it goes on whatever the status. *)
Definition recover_record (garbage : bool) (st : RecoverState) (record : bytes) : option (RecoverState * bool) :=
  let '(edit, s) := VersionEdit_DecodeFrom (VersionEdit_new garbage) record in
  let s :=
    if ok s && has_comparator_ edit && negb (Slice_eqb (comparator_ edit) (Comparator_Name ucmp))
    then Status_make kInvalidArgument (comparator_ edit ++ str:" does not match existing comparator ") (Comparator_Name ucmp)
    else s in
  let '(cp, b) := if ok s then Apply ucmp (rc_pointers st) (rc_builder st) edit else (rc_pointers st, rc_builder st) in
  Some (mkRecover s cp b
    (set_if (has_log_number_ edit) (log_number_ edit) (rc_log st))
    (set_if (has_prev_log_number_ edit) (prev_log_number_ edit) (rc_prev st))
    (set_if (has_next_file_number_ edit) (next_file_number_ edit) (rc_next st))
    (set_if (has_last_sequence_ edit) (last_sequence_ edit) (rc_last st)), true).

(** [VersionSet::ReuseManifest] *)
Definition ReuseManifest (w : World E) (vs : VersionSet) (dscname dscbase : bytes) : option (World E * VersionSet * bool) :=
  if negb reuse_logs then Some (w, vs, false)
  else
    match ParseFileName dscbase with
    | Some (manifest_number, kDescriptorFile) =>
        let '(s, manifest_size) := GetFileSize E w dscname in
        if negb (ok s) || (manifest_size >=? TargetFileSize max_file_size) then Some (w, vs, false)
        else if match vs_descriptor vs with Some _ => true | None => false end then None
        else
          let '(w, r, file) := NewAppendableFile E w dscname in
          if negb (ok r) then Some (w, vs, false)
          else
            file ← file;
            let vs := set_descriptor vs (Some (Writer_new_at extend file manifest_size)) in
            Some (w, set_numbers vs (vs_next_file_number vs) manifest_number (vs_last_sequence vs) (vs_log_number vs)
                       (vs_prev_log_number vs), true)
    | _ => Some (w, vs, false)
    end.

(** What [Recover] does with the numbers the loop found. *)
Definition install_recovered (w : World E) (vs : VersionSet) (st : RecoverState) (dsname current : bytes)
    : option (World E * VersionSet * Status * bool) :=
  let vs := set_pointers vs (rc_pointers st) in
  if negb (ok (rc_status st)) then Some (w, vs, rc_status st, false)
  else
    let s :=
      match rc_next st, rc_log st, rc_last st with
      | None, _, _ => Corruption (str:"no meta-nextfile entry in descriptor")
      | _, None, _ => Corruption (str:"no meta-lognumber entry in descriptor")
      | _, _, None => Corruption (str:"no last-sequence-number entry in descriptor")
      | _, _, _ => Status_OK
      end in
    let prev_log_number := default 0 (rc_prev st) in
    let log_number := default 0 (rc_log st) in
    let vs := MarkFileNumberUsed (MarkFileNumberUsed vs prev_log_number) log_number in
    if negb (ok s) then Some (w, vs, s, false)
    else
      let next_file := default 0 (rc_next st) in
      files ← SaveTo ucmp (rc_builder st);
      let v := Finalize (mkVersion files None (-1) (double_of (-1)) (-1)) in
      let vs := AppendVersion vs v in
      let vs := set_numbers vs (u64 (next_file + 1)) next_file (default 0 (rc_last st)) log_number prev_log_number in
      '(w, vs, reused) ← ReuseManifest w vs dsname current;
      Some (w, vs, s, negb reused).

(** [VersionSet::Recover]: the last component is what [*save_manifest] is set
    to, when it is. *)
Definition Recover (n fuel : nat) (w : World E) (vs : VersionSet) (garbage : bool)
    : option (World E * VersionSet * Status * bool) :=
  '(s, cur) ← ReadFileToString E fuel w (CurrentFileName dbname_);
  if negb (ok s) then Some (w, vs, s, false)
  else if match list.last cur with Some Byte.x0a => false | _ => true end
  then Some (w, vs, Corruption (str:"CURRENT file dose not end with newline"), false)
  else
    let cur := take (length cur - 1) cur in
    let dsname := dbname_ ++ str:"/" ++ cur in
    let '(s, file) := NewSequentialFile E w dsname in
    if negb (ok s) then
      Some (w, vs, if IsNotFound s then Corruption2 (str:"CURRENT points to  a non-existent file") (ToString s) else s, false)
    else
      file ← file;
      base ← current vs;
      '(_, st) ← read_loop extend recover_report (recover_record garbage) n fuel (Reader_new file true true 0)
        (mkRecover Status_OK (vs_compact_pointer vs) (Builder_new base) None None None None);
      install_recovered w vs st dsname cur.
End Operations.

(** ** Proofs *)

Arguments mkVersionSet {E}.
Arguments vs_next_file_number {E}.
Arguments vs_manifest_file_number {E}.
Arguments vs_last_sequence {E}.
Arguments vs_log_number {E}.
Arguments vs_prev_log_number {E}.
Arguments vs_descriptor {E}.
Arguments vs_versions {E}.
Arguments vs_next_id {E}.
Arguments vs_current {E}.
Arguments vs_compact_pointer {E}.
Arguments version_of {E}.
Arguments current {E}.

Lemma vs_SetLastSequence_spec {E : Env} (vs : VersionSet E) s :
  vs_last_sequence vs <= s -> vs_SetLastSequence E vs s = Some (with_last E vs s).
Proof. intros H. unfold vs_SetLastSequence. replace (s >=? vs_last_sequence vs) with true; [done|]. symmetry. apply Z.geb_le. lia. Qed.

(** *** The list of versions *)

Section Versions.
Context {E : Env}.
Implicit Type vs : VersionSet E.

(** The identities are distinct and below the next one, the current version is
    in the list, and every version in the list is referenced. *)
Record versions_ok (vs : VersionSet E) : Prop := {
  vo_fresh : Forall (fun n => (vn_id n < vs_next_id vs)%nat) (vs_versions vs);
  vo_distinct : NoDup (map vn_id (vs_versions vs));
  vo_refs : Forall (fun n => 1 <= vn_refs n) (vs_versions vs);
  vo_current : exists v, current vs = Some v }.

Lemma find_node_app l1 l2 id : find_node (l1 ++ l2) id = match find_node l1 id with Some n => Some n | None => find_node l2 id end.
Proof. unfold find_node. induction l1 as [|n l1 IH]; cbn; [done|]. by destruct (vn_id n =? id)%nat. Qed.

Lemma find_node_None l id : Forall (fun n => (vn_id n < id)%nat) l -> find_node l id = None.
Proof.
  unfold find_node. induction 1 as [|n l Hn _ IH]; cbn; [done|]. rewrite (proj2 (Nat.eqb_neq _ _)) by lia. done.
Qed.

Lemma find_node_Some l id n : NoDup (map vn_id l) -> find_node l id = Some n <-> n ∈ l /\ vn_id n = id.
Proof.
  unfold find_node. induction l as [|m l IH]; cbn [map find]; intros Hd.
  - split; [done|]. by intros [H%not_elem_of_nil _].
  - apply list.NoDup_cons in Hd as [Hm Hd]. rewrite elem_of_cons. destruct (Nat.eqb_spec (vn_id m) id) as [<-|Hne].
    + split; [intros [= <-]; by auto|]. intros [[->|Hn] Ei]; [done|]. exfalso. apply Hm. rewrite <- Ei. by apply list_elem_of_fmap_2.
    + rewrite IH by done. split; [by intuition|]. intros [[->|Hn] Ei]; [done|by auto].
Qed.

Lemma Unref_elem vs id n :
  n ∈ vs_versions (Version_Unref E vs id) <->
  exists m, m ∈ vs_versions vs /\ n = (if (vn_id m =? id)%nat then mkNode (vn_id m) (vn_version m) (vn_refs m - 1) else m) /\
    (vn_id m = id -> vn_refs m <> 1).
Proof.
  unfold Version_Unref, set_versions, on_node. cbn [vs_versions]. rewrite list_elem_of_In, filter_In, in_map_iff. split.
  - intros [(m & <- & Hm) Ht]. exists m. rewrite list_elem_of_In. split; [done|]. split; [done|]. intros Ei Er.
    rewrite Ei, Nat.eqb_refl in Ht. cbn [vn_id vn_refs] in Ht. rewrite Nat.eqb_refl, Er in Ht. done.
  - intros (m & Hm & -> & Hr). split; [exists m; by rewrite <- list_elem_of_In|].
    destruct (Nat.eqb_spec (vn_id m) id) as [Ei|Ei]; cbn [vn_id vn_refs].
    + rewrite (proj2 (Z.eqb_neq (vn_refs m - 1) 0)); [by rewrite andb_false_r|]. specialize (Hr Ei). lia.
    + by rewrite (proj2 (Nat.eqb_neq _ _) Ei).
Qed.

Lemma Unref_distinct vs id : NoDup (map vn_id (vs_versions vs)) -> NoDup (map vn_id (vs_versions (Version_Unref E vs id))).
Proof.
  unfold Version_Unref, set_versions, on_node. cbn [vs_versions]. intros Hd.
  assert (map vn_id (map (fun n => if (vn_id n =? id)%nat then mkNode (vn_id n) (vn_version n) (vn_refs n - 1) else n) (vs_versions vs))
          = map vn_id (vs_versions vs)) as Em.
  { rewrite map_map. apply map_ext. intros n. by destruct (_ =? _)%nat. }
  rewrite <- Em in Hd. revert Hd. generalize (map (fun n => if (vn_id n =? id)%nat then mkNode (vn_id n) (vn_version n) (vn_refs n - 1) else n) (vs_versions vs)).
  intros l. induction l as [|n l IH]; cbn [List.filter map]; [done|]. intros [Hn Hd]%list.NoDup_cons.
  destruct (negb _); [|by apply IH]. cbn [map]. apply list.NoDup_cons. split; [|by apply IH].
  intros (m & E' & Hm)%list_elem_of_fmap. apply Hn. rewrite E'. apply list_elem_of_fmap_2.
  apply list_elem_of_In, filter_In in Hm as [Hm _]. by apply list_elem_of_In.
Qed.

Lemma Unref_fresh vs id : Forall (fun n => (vn_id n < vs_next_id vs)%nat) (vs_versions vs) ->
  Forall (fun n => (vn_id n < vs_next_id vs)%nat) (vs_versions (Version_Unref E vs id)).
Proof.
  rewrite !list.Forall_forall. intros Hf n (m & Hm & -> & _)%Unref_elem. specialize (Hf m Hm). by destruct (_ =? _)%nat.
Qed.

Lemma current_AppendVersion vs v : versions_ok vs -> current (AppendVersion E vs v) = Some v.
Proof.
  intros [Hf _ _ _]. unfold current, version_of, AppendVersion, set_versions. cbn [vs_versions vs_current vs_next_id].
  change (vs_next_id (Version_Unref E vs (vs_current vs))) with (vs_next_id vs). rewrite find_node_app, find_node_None by (by apply Unref_fresh).
  unfold find_node. cbn. by rewrite Nat.eqb_refl.
Qed.

Lemma AppendVersion_ok vs v : versions_ok vs -> versions_ok (AppendVersion E vs v).
Proof.
  intros H. pose proof (current_AppendVersion vs v H) as Hc. destruct H as [Hf Hd Hr _].
  pose proof (Unref_fresh vs (vs_current vs) Hf) as Hf'. pose proof (Unref_distinct vs (vs_current vs) Hd) as Hd'.
  split; [| | |by exists v]; unfold AppendVersion, set_versions in *; cbn [vs_versions vs_next_id] in *;
    change (vs_next_id (Version_Unref E vs (vs_current vs))) with (vs_next_id vs) in *.
  - apply Forall_app. split; [|constructor; [cbn; lia|constructor]]. eapply list.Forall_impl; [exact Hf'|]. cbn. intros n Hn. lia.
  - rewrite map_app. apply list.NoDup_app. split; [done|]. split; [|apply NoDup_singleton].
    intros i (n & -> & Hn)%list_elem_of_fmap Hi. cbn in Hi. apply list_elem_of_singleton in Hi.
    rewrite list.Forall_forall in Hf'. specialize (Hf' n Hn). lia.
  - apply Forall_app. split; [|repeat constructor; done]. rewrite list.Forall_forall in Hr |- *.
    intros n (m & Hm & -> & Hne)%Unref_elem. specialize (Hr m Hm). destruct (Nat.eqb_spec (vn_id m) (vs_current vs)) as [Ei|Ei]; [|done].
    cbn [vn_refs]. specialize (Hne Ei). lia.
Qed.

Lemma VersionSet_new_ok : versions_ok (VersionSet_new E).
Proof. split; [repeat constructor|repeat constructor; set_solver|repeat constructor; cbn; lia|by eexists]. Qed.
Lemma find_on_node l id j f :
  (forall n, vn_id (f n) = vn_id n) ->
  find_node (on_node l id f) j = (fun n => if (vn_id n =? id)%nat then f n else n) <$> find_node l j.
Proof.
  intros Hf. unfold find_node, on_node. induction l as [|n l IH]; cbn; [done|].
  assert (vn_id (if (vn_id n =? id)%nat then f n else n) = vn_id n) as Hn by (destruct (_ =? id)%nat; [apply Hf|done]).
  rewrite Hn. destruct (vn_id n =? j)%nat; [done|]. apply IH.
Qed.

(** A change of a node's version or count keeps the list well formed. *)
Lemma on_node_ok vs id f :
  (forall n, vn_id (f n) = vn_id n) -> (forall n, 1 <= vn_refs n -> 1 <= vn_refs (f n)) -> versions_ok vs ->
  versions_ok (set_versions E vs (on_node (vs_versions vs) id f) (vs_next_id vs) (vs_current vs)).
Proof.
  intros Hid Hrefs [Hf Hd Hr (v & Hc)]. split; cbn [set_versions vs_versions vs_next_id].
  - rewrite list.Forall_forall in Hf |- *. intros n (m & -> & Hm)%list_elem_of_fmap. specialize (Hf m Hm). destruct (_ =? _)%nat; [by rewrite Hid|done].
  - unfold on_node. rewrite map_map. erewrite map_ext; [exact Hd|]. intros n. cbn. destruct (_ =? _)%nat; [apply Hid|done].
  - rewrite list.Forall_forall in Hr |- *. intros n (m & -> & Hm)%list_elem_of_fmap. specialize (Hr m Hm). destruct (_ =? _)%nat; [by apply Hrefs|done].
  - unfold current, version_of in *. cbn [set_versions vs_versions vs_current]. rewrite find_on_node by done.
    apply fmap_Some in Hc as (n & Hn & _). rewrite Hn. by eexists.
Qed.

Lemma Ref_ok vs id : versions_ok vs -> versions_ok (Version_Ref E vs id).
Proof. apply on_node_ok; [done|]. cbn. lia. Qed.
Lemma current_Ref vs id : current (Version_Ref E vs id) = current vs.
Proof.
  unfold current, version_of, Version_Ref. cbn [set_versions vs_versions vs_current]. rewrite find_on_node by done.
  destruct (find_node _ _) as [n|]; [|done]. cbn. by destruct (_ =? _)%nat.
Qed.

Lemma set_version_ok vs id v : versions_ok vs -> versions_ok (set_version E vs id v).
Proof. by apply on_node_ok. Qed.
Lemma current_set_version vs v : versions_ok vs -> current (set_version E vs (vs_current vs) v) = Some v.
Proof.
  intros [_ _ _ (v0 & Hc)]. unfold current, version_of, set_version in *. cbn [set_versions vs_versions vs_current]. rewrite find_on_node by done.
  apply fmap_Some in Hc as (n & Hn & _). rewrite Hn. cbn.
  apply find_some in Hn as [_ Hn]. by rewrite Hn.
Qed.

Lemma set_version_current vs v : versions_ok vs -> current vs = Some v -> set_version E vs (vs_current vs) v = vs.
Proof.
  intros Hvs Hc. unfold set_version, set_versions.
  assert (on_node (vs_versions vs) (vs_current vs) (fun n => mkNode (vn_id n) v (vn_refs n)) = vs_versions vs) as ->; [|by destruct vs].
  unfold on_node. rewrite <- (map_id (vs_versions vs)) at 2. apply map_ext_in. intros n Hn.
  destruct (Nat.eqb_spec (vn_id n) (vs_current vs)) as [Hi|]; [|done]. unfold current, version_of in Hc.
  rewrite (proj2 (find_node_Some _ (vs_current vs) n (vo_distinct _ Hvs))) in Hc; [|split; [by apply list_elem_of_In|done]].
  cbn in Hc. injection Hc as <-. by destruct n.
Qed.

(** Dropping a reference that is not the last one. *)
Lemma Unref_on_node vs id :
  Forall (fun n => vn_id n = id -> 2 <= vn_refs n) (vs_versions vs) ->
  Version_Unref E vs id = set_versions E vs (on_node (vs_versions vs) id (fun n => mkNode (vn_id n) (vn_version n) (vn_refs n - 1)))
    (vs_next_id vs) (vs_current vs).
Proof.
  intros H. unfold Version_Unref. f_equal. unfold on_node. induction H as [|n l Hn _ IH]; [done|]. cbn [map List.filter].
  destruct (Nat.eqb_spec (vn_id n) id) as [Hi|Hi]; cbn [vn_id vn_refs]; rewrite IH.
  - specialize (Hn Hi). rewrite (proj2 (Z.eqb_neq _ _)) by lia. by rewrite andb_false_r.
  - by rewrite (proj2 (Nat.eqb_neq _ _) Hi).
Qed.

Lemma current_on_node vs id f :
  (forall n, vn_id (f n) = vn_id n) -> (forall n, vn_version (f n) = vn_version n) ->
  current (set_versions E vs (on_node (vs_versions vs) id f) (vs_next_id vs) (vs_current vs)) = current vs.
Proof.
  intros Hi Hv. unfold current, version_of. cbn [set_versions vs_versions vs_current]. rewrite find_on_node by done.
  destruct (find_node _ _) as [n|]; [|done]. cbn. f_equal. destruct (_ =? _)%nat; [apply Hv|done].
Qed.

(** The current version survives a reference that is taken and dropped, with
    changes of the version in between. *)
Lemma Unref_Ref vs id f :
  (forall n, vn_id (f n) = vn_id n) -> (forall n, vn_refs (f n) = vn_refs n) -> versions_ok vs ->
  let vs1 := Version_Ref E vs id in
  let vs2 := set_versions E vs1 (on_node (vs_versions vs1) (vs_current vs1) f) (vs_next_id vs1) (vs_current vs1) in
  versions_ok (Version_Unref E vs2 id) /\ current (Version_Unref E vs2 id) = current vs2.
Proof.
  intros Hi Hr Hvs vs1 vs2. pose proof (Ref_ok vs id Hvs) as H1. fold vs1 in H1.
  assert (versions_ok vs2) as H2 by (apply on_node_ok; [done|intros n; by rewrite Hr|done]).
  assert (Forall (fun n => vn_id n = id -> 2 <= vn_refs n) (vs_versions vs2)) as Hn.
  { unfold vs2, vs1. cbn [set_versions vs_versions Version_Ref]. destruct Hvs as [_ _ Hrefs _]. rewrite list.Forall_forall in Hrefs |- *.
    intros n (m & -> & Hm)%list_elem_of_fmap Hid. apply list_elem_of_fmap in Hm as (p & -> & Hp). specialize (Hrefs p Hp). revert Hid.
    destruct (Nat.eqb_spec (vn_id p) id) as [Hpi|Hpi]; cbn [vn_id]; destruct (_ =? _)%nat; rewrite ?Hi, ?Hr; cbn [vn_refs vn_id]; lia. }
  rewrite (Unref_on_node vs2 id Hn). split; [|by apply current_on_node].
  destruct H2 as [A1 A2 A3 A4]. pose proof (current_on_node vs2 id (fun n => mkNode (vn_id n) (vn_version n) (vn_refs n - 1))
    (fun _ => eq_refl) (fun _ => eq_refl)) as Hc.
  split; cbn [set_versions vs_versions vs_next_id]; [| | |by rewrite Hc].
  - rewrite list.Forall_forall in A1 |- *. intros n (m & -> & Hm)%list_elem_of_fmap. specialize (A1 m Hm). by destruct (_ =? _)%nat.
  - unfold on_node. rewrite map_map. erewrite map_ext; [exact A2|]. intros n. cbn. by destruct (_ =? _)%nat.
  - rewrite list.Forall_forall in A3, Hn |- *. intros n (m & -> & Hm)%list_elem_of_fmap. specialize (A3 m Hm). specialize (Hn m Hm).
    destruct (Nat.eqb_spec (vn_id m) id) as [Hmi|Hmi]; cbn [vn_refs]; [specialize (Hn Hmi)|]; lia.
Qed.

Lemma Unref_Ref_id vs id : versions_ok vs -> Version_Unref E (Version_Ref E vs id) id = vs.
Proof.
  intros Hvs. rewrite Unref_on_node.
  - unfold Version_Ref, set_versions. cbn [vs_next_file_number vs_manifest_file_number vs_last_sequence vs_log_number vs_prev_log_number vs_descriptor vs_versions vs_next_id vs_current vs_compact_pointer]. unfold on_node. rewrite map_map.
    match goal with |- context [map ?f (vs_versions vs)] => assert (map f (vs_versions vs) = vs_versions vs) as -> end; [|by destruct vs].
    rewrite <- (map_id (vs_versions vs)) at 2. apply map_ext. intros n. destruct (vn_id n =? id)%nat eqn:En; cbn [vn_id]; rewrite En; [|done].
    destruct n. cbn. f_equal. lia.
  - destruct Hvs as [_ _ Hrefs _]. rewrite list.Forall_forall in Hrefs |- *. unfold Version_Ref. cbn [set_versions vs_versions].
    intros n (m & -> & Hm)%list_elem_of_fmap Hid. specialize (Hrefs m Hm). revert Hid. destruct (Nat.eqb_spec (vn_id m) id); cbn [vn_id vn_refs]; [lia|done].
Qed.
End Versions.

(** *** The manifest *)

Section Manifest.
Context (E : Env) (files : World E -> gmap bytes bytes) (wcontents : WFile (env_W E) -> bytes)
  (fname : WFile (env_W E) -> bytes) (rest : SFile (env_F E) -> bytes) `{!EnvLaws E files wcontents fname rest}.
Context (extend : Z -> bytes -> Z) `{!CrcLaws extend} (ucmp : Comparator) `{!ComparatorLaws ucmp}.
Context (dbname : bytes) (max_file_size : Z) (reuse_logs : bool).
Implicit Types (w : World E) (vs : VersionSet E) (v : Version) (es : list VersionEdit).
#[local] Existing Instance env_writes.
#[local] Existing Instance env_reads.

(** The bytes of a manifest. *)
Definition manifest_records es : list bytes := map (fun e => VersionEdit_EncodeTo e []) es.
Definition manifest_image es : bytes := fst (records_bytes extend 0 (manifest_records es)).

(** The open descriptor of manifest [n], with the edits written so far. *)
Record descriptor_at (n : Z) es (log : Writer (env_W E)) : Prop := {
  da_name : fname (dest_ log) = descriptor_name dbname n;
  da_writer : writer_ok extend (env_W E) log;
  da_contents : wcontents (dest_ log) = manifest_image es;
  da_offset : block_offset_ log = snd (records_bytes extend 0 (manifest_records es)) }.

(** The edits from which the files of a version are rebuilt. *)
Record history v es : Prop := {
  hi_edits : Forall edit_ok es;
  hi_names : Forall (fun e => has_comparator_ e = true -> comparator_ e = Comparator_Name ucmp) es;
  hi_fresh : fresh_edits (files_ Version_new) es;
  hi_files : prepared (files_ v) = saved ucmp [] (files_ Version_new) es }.

Lemma new_sorted : version_sorted ucmp (files_ Version_new).
Proof. split; [done|]. repeat constructor. Qed.

Lemma history_snoc v v' es e cp :
  history v es -> edit_ok e -> (has_comparator_ e = true -> comparator_ e = Comparator_Name ucmp) ->
  fresh_edits (files_ Version_new) (es ++ [e]) -> files_ v' = saved ucmp cp (files_ v) [e] -> history v' (es ++ [e]).
Proof using ComparatorLaws0.
  intros [H1 H2 H3 H4] He Hn Hf Hv'. split; [apply Forall_app_2; [done|by apply Forall_singleton]|apply Forall_app_2; [done|by apply Forall_singleton]|done|].
  rewrite Hv', (saved_prepared ucmp), H4. symmetry. apply (saved_snoc ucmp); [apply new_sorted|done].
Qed.

(** Writing an edit. *)
Lemma AddRecord_descriptor n es log e :
  descriptor_at n es log -> exists log', AddRecord extend log (VersionEdit_EncodeTo e []) = (log', Status_OK) /\ descriptor_at n (es ++ [e]) log'.
Proof using All.
  intros [Hn Hw Hc Ho].
  destruct (AddRecord_spec extend (env_W E) wcontents log (VersionEdit_EncodeTo e []) Hw) as (log' & Ea & Hw' & Hc' & Ho').
  pose proof (AddRecord_keeps extend (env_W E) fname log (VersionEdit_EncodeTo e []) Append_fname Flush_fname) as Hk.
  exists log'. split; [done|]. rewrite Ea in Hk. cbn [fst] in Hk.
  split; [congruence|done|..]; unfold manifest_image, manifest_records in *; rewrite map_app; cbn [map]; rewrite records_bytes_snoc; cbn [fst snd].
  - by rewrite Hc', Hc, Ho.
  - by rewrite Ho', Ho.
Qed.

Lemma log_edit_spec vs log n es e :
  vs_descriptor vs = Some log -> descriptor_at n es log ->
  exists log', log_edit E extend vs e Status_OK = Some (set_descriptor E vs (Some log'), Status_OK) /\ descriptor_at n (es ++ [e]) log'.
Proof using All.
  intros Hd Hat. unfold log_edit. cbn [ok Status_OK state_ negb]. rewrite Hd. cbn [mbind option_bind].
  destruct (AddRecord_descriptor n es log e Hat) as (log1 & -> & [H1 H2 H3 H4]). cbn [ok Status_OK state_].
  destruct (Sync_spec (dest_ log1)) as (f & -> & Hc & Hf). eexists. split; [done|].
  split; cbn [dest_ block_offset_ type_crc_]; [congruence|done|congruence|done].
Qed.

(** Starting a manifest with a snapshot. *)
Lemma open_descriptor_new w vs v garbage :
  vs_descriptor vs = None -> current vs = Some v -> 0 < vs_manifest_file_number vs ->
  exists w' log, open_descriptor E extend ucmp dbname w vs garbage =
      Some (w', set_descriptor E vs (Some log), Some (descriptor_name dbname (vs_manifest_file_number vs)), Status_OK) /\
    descriptor_at (vs_manifest_file_number vs) [snapshot_edit E ucmp vs v garbage] log.
Proof using All.
  intros Hd Hv Hpos. unfold open_descriptor. rewrite Hd, DescriptorFileName_pos by done. cbn [mbind option_bind]. set (name := descriptor_name _ _).
  destruct (writable_spec w name) as (w1 & f & -> & _ & Hc & Hn). cbn [ok Status_OK state_ mbind option_bind].
  unfold WriteSnapshot. rewrite Hv. cbn [mbind option_bind].
  destruct (AddRecord_descriptor (vs_manifest_file_number vs) [] (Writer_new extend f) (snapshot_edit E ucmp vs v garbage)) as (log & -> & Hl).
  { split; [done|split; [unfold kBlockSize; cbn; lia|done]|done|done]. }
  by exists w1, log.
Qed.
(** *** The snapshot of a version *)

Definition level_meta (level : nat) (f : FileMetaData) : Z * FileMetaData :=
  (Z.of_nat level, FileMetaData_new (number f) (file_size f) (smallest f) (largest f)).

Lemma AddFile_fold level fs e :
  fold_left (fun e f => AddFile e (Z.of_nat level) (number f) (file_size f) (smallest f) (largest f)) fs e =
  mkEdit (comparator_ e) (log_number_ e) (prev_log_number_ e) (next_file_number_ e) (last_sequence_ e)
    (has_comparator_ e) (has_log_number_ e) (has_prev_log_number_ e) (has_next_file_number_ e)
    (has_last_sequence_ e) (compact_pointers_ e) (deleted_files_ e) (new_files_ e ++ map (level_meta level) fs).
Proof.
  revert e. induction fs as [|f fs IH]; intros e; cbn [fold_left map]; [rewrite app_nil_r; by destruct e|].
  rewrite IH. cbn. by rewrite <- app_assoc.
Qed.

Lemma AddFiles_fold v levels e :
  fold_left (fun e level => fold_left (fun e f => AddFile e (Z.of_nat level) (number f) (file_size f) (smallest f) (largest f))
    (level_files v level) e) levels e =
  mkEdit (comparator_ e) (log_number_ e) (prev_log_number_ e) (next_file_number_ e) (last_sequence_ e)
    (has_comparator_ e) (has_log_number_ e) (has_prev_log_number_ e) (has_next_file_number_ e)
    (has_last_sequence_ e) (compact_pointers_ e) (deleted_files_ e)
    (new_files_ e ++ concat (map (fun level => map (level_meta level) (level_files v level)) levels)).
Proof.
  revert e. induction levels as [|l levels IH]; intros e; cbn [fold_left map concat]; [rewrite app_nil_r; by destruct e|].
  rewrite AddFile_fold, IH. cbn. by rewrite <- app_assoc.
Qed.

Lemma snapshot_fields vs v garbage :
  let e := snapshot_edit E ucmp vs v garbage in
  deleted_files_ e = [] /\ comparator_ e = Comparator_Name ucmp /\
  new_files_ e = concat (map (fun level => map (level_meta level) (level_files v level)) (seq 0 kNumLevels)).
Proof using Type.
  cbn zeta. unfold snapshot_edit. rewrite AddFiles_fold. cbn [deleted_files_ comparator_ new_files_].
  set (e0 := SetComparatorName _ _).
  assert (forall levels e, deleted_files_ e = [] -> comparator_ e = Comparator_Name ucmp -> new_files_ e = [] ->
    let e' := fold_left (fun edit level => match vs_compact_pointer vs !! level with
      | Some (_ :: _ as key) => SetCompectorPointer edit (Z.of_nat level) key | _ => edit end) levels e in
    deleted_files_ e' = [] /\ comparator_ e' = Comparator_Name ucmp /\ new_files_ e' = []) as H.
  { induction levels as [|l levels IH]; intros e H1 H2 H3; cbn [fold_left]; [done|].
    apply IH; by destruct (vs_compact_pointer vs !! l) as [[|]|]. }
  destruct (H (seq 0 kNumLevels) e0) as (-> & -> & ->); done.
Qed.

Lemma filter_levels (h : nat -> list FileMetaData) l ks :
  filter (fun p : Z * FileMetaData => Z.to_nat (fst p) = l) (concat (map (fun k => map (level_meta k) (h k)) ks)) =
  concat (map (fun k => if (k =? l)%nat then map (level_meta k) (h k) else []) ks).
Proof.
  induction ks as [|k ks IH]; cbn [map concat]; [done|]. rewrite list.filter_app, IH. f_equal.
  induction (h k) as [|f fs IHf]; cbn [map]; [by destruct (_ =? _)%nat|]. rewrite filter_cons. cbn [level_meta fst]. rewrite Nat2Z.id.
  destruct (Nat.eqb_spec k l) as [->|Hne]; [rewrite decide_True by done; by rewrite IHf|by rewrite decide_False].
Qed.

Lemma snapshot_new vs v garbage l :
  (l < kNumLevels)%nat -> edit_new l (snapshot_edit E ucmp vs v garbage) = map prepare_file (level_files v l).
Proof using Type.
  intros Hl. destruct (snapshot_fields vs v garbage) as (_ & _ & Hn). unfold edit_new. rewrite Hn, filter_levels.
  unfold kNumLevels in *. do 7 (destruct l as [|l]; [cbn; rewrite ?app_nil_r, map_map; by apply map_ext|]). lia.
Qed.

(** Distinct files at each level. *)
Definition distinct_files v : Prop := forall l base, files_ v !! l = Some base -> NoDup (map number base).

Lemma snapshot_history vs v garbage :
  version_sorted ucmp (files_ v) -> distinct_files v -> edit_ok (snapshot_edit E ucmp vs v garbage) ->
  history v [snapshot_edit E ucmp vs v garbage].
Proof using ComparatorLaws0.
  intros Hs Hd He. set (e := snapshot_edit E ucmp vs v garbage) in *. destruct (snapshot_fields vs v garbage) as (H1 & H2 & _).
  assert (forall l base, files_ v !! l = Some base -> edit_new l e = map prepare_file base) as Hnew.
  { intros l base Hb. unfold e. rewrite snapshot_new; [|apply lookup_lt_Some in Hb; by destruct Hs as [<- _]].
    unfold level_files. by rewrite Hb. }
  assert (fresh_edits (files_ Version_new) [e]) as Hf.
  { intros l base [-> Hl]%lookup_replicate. unfold fresh_files. cbn [map concat app]. rewrite app_nil_r.
    destruct (lookup_lt_is_Some_2 (files_ v) l) as [b Hb]; [by destruct Hs as [-> _]|].
    rewrite (Hnew l b Hb), map_map. by apply (Hd l). }
  split; [by apply Forall_singleton|by apply Forall_singleton|done|].
  apply list_eq_same_length with kNumLevels; [by apply (length_saved ucmp)|unfold prepared; rewrite length_map; apply Hs|].
  intros l f1 f2 Hl E1 E2. unfold prepared in E1. rewrite list_lookup_fmap in E1. apply fmap_Some in E1 as (base & Hb & ->).
  destruct (saved_lookup ucmp [] (files_ Version_new) [e] l []) as (fs & E3 & Hfs & Hp); [apply new_sorted|done|by apply lookup_replicate|].
  assert (fs = f2) as -> by congruence. apply (files_sorted_unique ucmp); [|done|].
  - destruct Hs as [_ Hs]. pose proof (Forall_lookup_1 _ _ _ _ Hs Hb) as H. unfold files_sorted in *.
    clear -H. induction H as [|f fs Hfs IH Hf]; cbn [map]; constructor; [done|]. apply Forall_fmap. exact Hf.
  - rewrite Hp. cbn [fold_left]. unfold edited. by rewrite (Hnew l base Hb).
Qed.
(** *** Logging an edit *)

(** What is on the disk and in the descriptor before an edit is logged: a
    manifest that is open, or none, when the edit starts one with a snapshot. *)
Definition ready w vs v es (edit : VersionEdit) (garbage : bool) : Prop :=
  versions_ok vs /\ current vs = Some v /\
  match vs_descriptor vs with
  | Some log => descriptor_at (vs_manifest_file_number vs) es log /\
      files w !! CurrentFileName dbname = Some (current_contents (vs_manifest_file_number vs)) /\ history v es
  | None =>
      let snap := snapshot_edit E ucmp (set_pointers E vs (fst (Apply ucmp (vs_compact_pointer vs) (Builder_new v) edit))) v garbage in
      es = [snap] /\ edit_ok snap /\ version_sorted ucmp (files_ v) /\ distinct_files v /\ 0 < vs_manifest_file_number vs
  end.

(** What holds once it is logged; [e] is the last edit. *)
Record logged w vs v es (e : VersionEdit) : Prop := {
  lg_versions : versions_ok vs;
  lg_current : current vs = Some v;
  lg_descriptor : exists log, vs_descriptor vs = Some log /\ descriptor_at (vs_manifest_file_number vs) (es ++ [e]) log;
  lg_file : files w !! CurrentFileName dbname = Some (current_contents (vs_manifest_file_number vs));
  lg_history : history v (es ++ [e]);
  lg_has : has_log_number_ e && has_prev_log_number_ e && has_next_file_number_ e && has_last_sequence_ e = true;
  lg_log : log_number_ e = vs_log_number vs;
  lg_prev : prev_log_number_ e = vs_prev_log_number vs;
  lg_next : next_file_number_ e = vs_next_file_number vs;
  lg_last : last_sequence_ e = vs_last_sequence vs }.

Lemma Apply_complete vs cp b edit : Apply ucmp cp b (complete_edit E vs edit) = Apply ucmp cp b edit.
Proof using Type. unfold complete_edit. by destruct (has_log_number_ edit), edit as [? ? ? ? ? ? ? [] ? ? ? ? ?]. Qed.

Lemma complete_fields vs edit :
  let e := complete_edit E vs edit in
  has_log_number_ e && has_prev_log_number_ e && has_next_file_number_ e && has_last_sequence_ e = true /\
  has_comparator_ e = has_comparator_ edit /\ comparator_ e = comparator_ edit /\
  next_file_number_ e = vs_next_file_number vs /\ last_sequence_ e = vs_last_sequence vs /\
  log_number_ e = (if has_log_number_ edit then log_number_ edit else vs_log_number vs) /\
  prev_log_number_ e = (if has_prev_log_number_ edit then prev_log_number_ edit else vs_prev_log_number vs).
Proof using Type.
  cbn zeta. unfold complete_edit. destruct edit as [? ? ? ? ? ? hl hp ? ? ? ? ?]. by destruct hl, hp.
Qed.

Lemma Finalize_files v : files_ (Finalize v) = files_ v.
Proof using Type. unfold Finalize. by destruct (fold_left _ _ _). Qed.

(** What [LogAndApply] asserts of the edit: the log number is a new one that was
    handed out, and the files do not overlap in the levels above 0. *)
Record applicable vs v (edit : VersionEdit) : Prop := {
  ap_log : has_log_number_ edit = true -> vs_log_number vs <= log_number_ edit < vs_next_file_number vs;
  ap_levels : levels_ok ucmp 0 (saved ucmp (vs_compact_pointer vs) (files_ v) [edit]) = true }.

Lemma log_number_ok_spec vs edit :
  (has_log_number_ edit = true -> vs_log_number vs <= log_number_ edit < vs_next_file_number vs) <-> log_number_ok E vs edit = true.
Proof using Type.
  unfold log_number_ok. destruct (has_log_number_ edit); cbn [negb orb]; [|done].
  rewrite andb_true_iff, Z.geb_le, Z.ltb_lt. split; [intros H; by apply H|done].
Qed.

Lemma SaveTo_applicable vs v edit cp b :
  applicable vs v edit -> Apply ucmp (vs_compact_pointer vs) (Builder_new v) edit = (cp, b) ->
  SaveTo ucmp b = Some (saved ucmp (vs_compact_pointer vs) (files_ v) [edit]).
Proof using Type.
  intros [_ Hl] Ea. assert (merge_levels ucmp b = saved ucmp (vs_compact_pointer vs) (files_ v) [edit]) as Em.
  { unfold saved, Apply_all. cbn [fold_left fst snd]. change (mkBuilder (files_ v) _) with (Builder_new v). by rewrite Ea. }
  by rewrite SaveTo_spec, Em, Hl.
Qed.

Lemma LogAndApply_spec w vs v es edit garbage :
  ready w vs v es edit garbage -> applicable vs v edit -> edit_ok (complete_edit E vs edit) ->
  (has_comparator_ edit = true -> comparator_ edit = Comparator_Name ucmp) ->
  fresh_edits (files_ Version_new) (es ++ [complete_edit E vs edit]) ->
  exists w' vs' v', LogAndApply E extend ucmp dbname w vs edit garbage = Some (w', vs', Status_OK) /\
    logged w' vs' v' es (complete_edit E vs edit) /\
    files_ v' = saved ucmp (vs_compact_pointer vs) (files_ v) [edit] /\
    vs_next_file_number vs' = vs_next_file_number vs /\ vs_last_sequence vs' = vs_last_sequence vs /\
    vs_manifest_file_number vs' = vs_manifest_file_number vs.
Proof using All.
  intros (Hvs & Hv & Hd) Hap He Hcn Hf. set (e := complete_edit E vs edit) in *.
  destruct (complete_fields vs edit) as (Hhas & Hc1 & Hc2 & Hnext & Hlast & _). fold e in Hhas, Hc1, Hc2, Hnext, Hlast.
  unfold LogAndApply. rewrite (proj1 (log_number_ok_spec vs edit) (ap_log _ _ _ Hap)). cbn [negb]. fold e.
  rewrite Hv. cbn [mbind option_bind]. unfold e at 1. rewrite Apply_complete.
  destruct (Apply ucmp (vs_compact_pointer vs) (Builder_new v) edit) as [cp b] eqn:Ea.
  rewrite (SaveTo_applicable vs v edit cp b Hap Ea). cbn [mbind option_bind].
  set (v' := Finalize _). set (vs1 := set_pointers E vs cp).
  assert (files_ v' = saved ucmp (vs_compact_pointer vs) (files_ v) [edit]) as Hv'.
  { apply Finalize_files. }
  assert (files_ v' = saved ucmp (vs_compact_pointer vs) (files_ v) [e]) as Hv2.
  { rewrite Hv'. unfold saved, Apply_all. cbn [fold_left fst snd]. unfold e. by rewrite Apply_complete. }
  assert (exists w1 log name, open_descriptor E extend ucmp dbname w vs1 garbage =
      Some (w1, set_descriptor E vs1 (Some log), name, Status_OK) /\
    descriptor_at (vs_manifest_file_number vs) es log /\ history v es /\
    (name = None -> files w1 !! CurrentFileName dbname = Some (current_contents (vs_manifest_file_number vs))) /\
    (is_Some name -> 0 < vs_manifest_file_number vs)) as
    (w1 & log & name & Eo & Hat & Hh & Hname & Hpos).
  { destruct (vs_descriptor vs) as [log|] eqn:Ed.
    - destruct Hd as (Hat & Hcur & Hh). exists w, log, None. unfold open_descriptor. change (vs_descriptor vs1) with (vs_descriptor vs).
      rewrite Ed. split; [|split; [done|split; [done|split; [done|by intros []]]]]. unfold set_descriptor, vs1, set_pointers. cbn. by rewrite <- Ed.
    - cbn [fst] in Hd. destruct Hd as (-> & Hok & Hs & Hdist & Hpos).
      destruct (open_descriptor_new w vs1 v garbage Ed Hv Hpos) as (w1 & log & Eo & Hat).
      exists w1, log, (Some (descriptor_name dbname (vs_manifest_file_number vs))). split; [done|]. split; [done|]. split; [by apply snapshot_history|done]. }
  rewrite Eo. cbn [mbind option_bind].
  destruct (log_edit_spec (set_descriptor E vs1 (Some log)) log _ es e eq_refl Hat) as (log' & -> & Hat'). cbn [mbind option_bind ok Status_OK state_].
  assert (exists w2, match name with Some _ => SetCurrentFile E w1 dbname (vs_manifest_file_number vs) | None => Some (w1, Status_OK) end
      = Some (w2, Status_OK) /\ files w2 !! CurrentFileName dbname = Some (current_contents (vs_manifest_file_number vs))) as (w2 & Es & Hcur).
  { destruct name; [|by eauto]. destruct (SetCurrentFile_spec E files wcontents fname rest w1 dbname (vs_manifest_file_number vs)) as (w2 & -> & Hw2); [eauto|].
    exists w2. split; [done|]. by rewrite Hw2, lookup_insert_eq. }
  cbn [set_descriptor vs_manifest_file_number vs1 set_pointers] in *. rewrite Es. cbn [mbind option_bind ok Status_OK state_].
  eexists _, _, v'. split; [done|]. set (vs2 := set_descriptor E _ (Some log')).
  assert (versions_ok vs2) as Hvs2 by (by destruct Hvs; split).
  split; [|done]. pose proof (AppendVersion_ok vs2 v' Hvs2) as [A1 A2 A3 _]. pose proof (current_AppendVersion vs2 v' Hvs2) as A4.
  split; try done.
  - split; try done. by exists v'.
  - by exists log'.
  - eapply history_snoc; try done. by rewrite Hc1, Hc2.
Qed.
(** With the manifest open, an edit touches no other file. *)
Lemma LogAndApply_open w vs v n es log edit garbage :
  versions_ok vs -> current vs = Some v -> vs_descriptor vs = Some log -> descriptor_at n es log -> applicable vs v edit ->
  exists vs' v' log', LogAndApply E extend ucmp dbname w vs edit garbage = Some (w, vs', Status_OK) /\
    versions_ok vs' /\ current vs' = Some v' /\ files_ v' = saved ucmp (vs_compact_pointer vs) (files_ v) [edit] /\
    vs_descriptor vs' = Some log' /\ descriptor_at n (es ++ [complete_edit E vs edit]) log' /\
    vs_next_file_number vs' = vs_next_file_number vs /\ vs_last_sequence vs' = vs_last_sequence vs /\
    vs_log_number vs' = log_number_ (complete_edit E vs edit) /\ vs_prev_log_number vs' = prev_log_number_ (complete_edit E vs edit).
Proof using All.
  intros Hvs Hv Hd Hat Hap. set (e := complete_edit E vs edit) in *. unfold LogAndApply.
  rewrite (proj1 (log_number_ok_spec vs edit) (ap_log _ _ _ Hap)). cbn [negb]. fold e. rewrite Hv. cbn [mbind option_bind].
  unfold e at 1. rewrite Apply_complete. destruct (Apply ucmp (vs_compact_pointer vs) (Builder_new v) edit) as [cp b] eqn:Ea.
  rewrite (SaveTo_applicable vs v edit cp b Hap Ea). cbn [mbind option_bind].
  set (v' := Finalize _). set (vs1 := set_pointers E vs cp).
  assert (files_ v' = saved ucmp (vs_compact_pointer vs) (files_ v) [edit]) as Hv'.
  { apply Finalize_files. }
  unfold open_descriptor. change (vs_descriptor vs1) with (vs_descriptor vs). rewrite Hd. cbn [mbind option_bind].
  destruct (log_edit_spec vs1 log n es e Hd Hat) as (log' & -> & Hat'). cbn [mbind option_bind ok Status_OK state_].
  eexists _, v', log'. split; [done|]. set (vs2 := set_descriptor E _ (Some log')).
  assert (versions_ok vs2) as Hvs2 by (by destruct Hvs; split).
  pose proof (AppendVersion_ok vs2 v' Hvs2) as [A1 A2 A3 _]. pose proof (current_AppendVersion vs2 v' Hvs2) as A4.
  split; [split; try done; by exists v'|]. done.
Qed.

(** *** Recovering *)

Lemma Apply_decoded stale cp b e : Apply ucmp cp b (decoded stale e) = Apply ucmp cp b e.
Proof using Type. done. Qed.

(** The numbers that an edit sets. *)
Definition numbers_of (st : RecoverState) (e : VersionEdit) : Prop :=
  (has_log_number_ e = true -> rc_log st = Some (log_number_ e)) /\ (has_prev_log_number_ e = true -> rc_prev st = Some (prev_log_number_ e)) /\
  (has_next_file_number_ e = true -> rc_next st = Some (next_file_number_ e)) /\ (has_last_sequence_ e = true -> rc_last st = Some (last_sequence_ e)).

Lemma recover_records garbage es st :
  Forall edit_ok es -> Forall (fun e => has_comparator_ e = true -> comparator_ e = Comparator_Name ucmp) es ->
  rc_status st = Status_OK ->
  exists st', feed (recover_record ucmp garbage) st (manifest_records es) = Some st' /\ rc_status st' = Status_OK /\
    (rc_pointers st', rc_builder st') = Apply_all ucmp (rc_pointers st, rc_builder st) es /\
    forall es0 e, es = es0 ++ [e] -> numbers_of st' e.
Proof using Type.
  intros Hok. revert st. induction Hok as [|a es Ha _ IH]; intros st Hn Hs.
  { exists st. split; [done|]. split; [done|]. split; [done|]. by intros [|] ? ?. }
  apply list.Forall_cons in Hn as [Hna Hn]. destruct (recover_record ucmp garbage st (VersionEdit_EncodeTo a [])) as [[st1' go]|] eqn:Er0; pose proof Er0 as Er; unfold recover_record in Er;
  rewrite (decode_encode a (VersionEdit_new garbage) Ha) in Er; set (g := has_next_file_number_ _) in Er; cbn [ok Status_OK state_ andb] in Er.
  2: { by destruct (if ok _ then _ else _) in Er. }
  change (has_comparator_ (decoded g a)) with (has_comparator_ a) in Er. change (comparator_ (decoded g a)) with (comparator_ a) in Er.
  assert (has_comparator_ a && negb (Slice_eqb (comparator_ a) (Comparator_Name ucmp)) = false) as Hcmp.
  { destruct (has_comparator_ a); [|done]. rewrite Hna by done. cbn [andb].
    rewrite (proj2 (Slice_eqb_eq _ _)); done. }
  rewrite Hcmp in Er. cbn [ok Status_OK state_] in Er. rewrite Apply_decoded in Er.
  destruct (Apply ucmp (rc_pointers st) (rc_builder st) a) as [cp b] eqn:Ea. injection Er as <- <-.
  cbn [manifest_records map feed]. rewrite Er0. cbn [mbind option_bind]. set (st1 := mkRecover _ _ _ _ _ _ _) in *.
  destruct (IH st1 Hn eq_refl) as (st' & Ef & Hs' & Hb & Hnum). exists st'. split; [exact Ef|]. split; [done|]. split.
  { rewrite Hb. unfold Apply_all. cbn [fold_left fst snd]. by rewrite Ea. }
  intros es0 e Ee. destruct es0 as [|x es0].
  - injection Ee as -> ->. cbn [map feed] in Ef. injection Ef as <-. unfold numbers_of, st1. cbn [rc_log rc_prev rc_next rc_last].
    cbn [decoded has_log_number_ has_prev_log_number_ has_next_file_number_ has_last_sequence_ log_number_ prev_log_number_ next_file_number_ last_sequence_].
    repeat split; by intros ->.
  - injection Ee as -> ->. by apply (Hnum es0).
Qed.

Lemma MarkFileNumberUsed_eq vs n : exists k, MarkFileNumberUsed E vs n = with_next E vs k.
Proof using Type.
  unfold MarkFileNumberUsed. destruct (_ <=? _); [by eexists|]. exists (vs_next_file_number vs). by destruct vs.
Qed.

Lemma ReuseManifest_spec w vs n data :
  files w !! descriptor_name dbname n = Some data -> vs_descriptor vs = None ->
  exists w' vs' reused, ReuseManifest E extend max_file_size reuse_logs w vs (descriptor_name dbname n) (descriptor_base n) = Some (w', vs', reused) /\
    current vs' = current vs /\ vs_next_file_number vs' = vs_next_file_number vs /\ vs_last_sequence vs' = vs_last_sequence vs /\
    vs_log_number vs' = vs_log_number vs /\ vs_prev_log_number vs' = vs_prev_log_number vs /\
    files w' = files w.
Proof using All.
  intros Hd Hnd. unfold ReuseManifest. rewrite Hnd. destruct reuse_logs; cbn [negb]; [|by do 3 eexists].
  destruct (ParseFileName (descriptor_base n)) as [[mn []]|]; try (by do 3 eexists).
  rewrite (size_spec w _ _ Hd). cbn [ok Status_OK state_ negb orb]. destruct (zlen data >=? _); [by do 3 eexists|].
  destruct (appendable_spec w (descriptor_name dbname n)) as (w' & f & -> & Hw & _). cbn [ok Status_OK state_ negb mbind option_bind].
  do 3 eexists. split; [done|]. repeat (split; [done|]). rewrite Hw, Hd. cbn [default]. by apply insert_id.
Qed.

(** Recovering from a manifest that says [st']. *)
Lemma Recover_image w m es garbage n fuel st' :
  files w !! CurrentFileName dbname = Some (current_contents m) -> files w !! descriptor_name dbname m = Some (manifest_image es) ->
  (length es < n)%nat -> (record_fuel (manifest_records es) <= fuel)%nat -> (length (current_contents m) < fuel)%nat ->
  feed (recover_record ucmp garbage) (mkRecover Status_OK (vs_compact_pointer (VersionSet_new E)) (Builder_new Version_new) None None None None)
    (manifest_records es) = Some st' ->
  rc_status st' = Status_OK -> is_Some (rc_next st') -> is_Some (rc_log st') -> is_Some (rc_last st') ->
  (rc_pointers st', rc_builder st') = Apply_all ucmp (vs_compact_pointer (VersionSet_new E), Builder_new Version_new) es ->
  levels_ok ucmp 0 (saved ucmp [] (files_ Version_new) es) = true ->
  exists w' vs' v' save, Recover E extend ucmp dbname max_file_size reuse_logs n fuel w (VersionSet_new E) garbage = Some (w', vs', Status_OK, save) /\
    current vs' = Some v' /\ files_ v' = saved ucmp [] (files_ Version_new) es /\ files w' = files w /\
    Some (vs_log_number vs') = rc_log st' /\ vs_prev_log_number vs' = default 0 (rc_prev st') /\
    Some (vs_last_sequence vs') = rc_last st' /\ vs_next_file_number vs' = u64 (default 0 (rc_next st') + 1).
Proof using All.
  intros Hw Hfile Hn Hfuel Hfuel2 Ef Hs' [a N3] [b N1] [c N4] Hb Hlv.
  unfold Recover. rewrite (ReadFileToString_spec E files wcontents fname rest fuel w _ _ Hw Hfuel2).
  cbn [mbind option_bind ok Status_OK state_ negb]. unfold current_contents. rewrite last_snoc.
  rewrite length_app. cbn [length]. rewrite Nat.add_sub, take_app_length.
  change (dbname ++ str:"/" ++ descriptor_base m) with (descriptor_name dbname m).
  destruct (sequential_spec w _ _ Hfile) as (f & -> & Hr). cbn [ok Status_OK state_ negb mbind option_bind].
  change (current (VersionSet_new E)) with (Some Version_new). cbn [mbind option_bind].
  set (st := mkRecover _ _ _ _ _ _ _) in *.
  destruct (read_log extend (env_F E) rest recover_report (recover_record ucmp garbage) f true (manifest_records es) fuel n st st' Hr Hfuel)
    as (r' & ->); [unfold manifest_records; by rewrite length_map|done|].
  cbn [mbind option_bind]. unfold install_recovered. rewrite Hs', N1, N3, N4. cbn [ok Status_OK state_ negb from_option id].
  destruct (MarkFileNumberUsed_eq (set_pointers E (VersionSet_new E) (rc_pointers st')) (default 0 (rc_prev st'))) as [k1 ->].
  match goal with |- context [MarkFileNumberUsed E ?a ?b] => destruct (MarkFileNumberUsed_eq a b) as [k2 ->] end.
  assert (merge_levels ucmp (rc_builder st') = saved ucmp [] (files_ Version_new) es) as Em.
  { unfold saved. f_equal. pose proof (f_equal snd Hb) as Eb. cbn [snd] in Eb. rewrite Eb. apply Apply_all_pointers. }
  rewrite SaveTo_spec, Em, Hlv. cbn [mbind option_bind]. set (v' := Finalize _). set (vs1 := with_next E _ k2). set (vs2 := set_numbers E (AppendVersion E vs1 v') _ _ _ _ _).
  assert (versions_ok vs1) as Hvs1 by (pose proof (VersionSet_new_ok (E:=E)) as [? ? ? ?]; by split).
  assert (current vs2 = Some v') as Hc2 by exact (current_AppendVersion vs1 v' Hvs1).
  destruct (ReuseManifest_spec w vs2 m _ Hfile eq_refl) as (w' & vs' & reused & -> & R1 & R2 & R3 & R4 & R5 & R6). cbn [mbind option_bind].
  exists w', vs', v', (negb reused). split; [done|]. split; [congruence|]. split.
  { unfold v'. by rewrite Finalize_files. }
  split; [done|]. rewrite R2, R3, R4, R5. cbn [vs2 set_numbers vs_log_number vs_prev_log_number vs_last_sequence vs_next_file_number]. done.
Qed.

Lemma Recover_spec w0 vs v es e garbage w n fuel log :
  logged w0 vs v es e -> levels_ok ucmp 0 (files_ v) = true -> vs_descriptor vs = Some log ->
  files w !! CurrentFileName dbname = files w0 !! CurrentFileName dbname ->
  files w !! descriptor_name dbname (vs_manifest_file_number vs) = Some (wcontents (dest_ log)) ->
  (S (length es) < n)%nat -> (record_fuel (manifest_records (es ++ [e])) <= fuel)%nat ->
  (length (current_contents (vs_manifest_file_number vs)) < fuel)%nat ->
  exists w' vs' v' save, Recover E extend ucmp dbname max_file_size reuse_logs n fuel w (VersionSet_new E) garbage = Some (w', vs', Status_OK, save) /\
    current vs' = Some v' /\ files_ v' = prepared (files_ v) /\ files w' = files w /\
    vs_log_number vs' = vs_log_number vs /\ vs_prev_log_number vs' = vs_prev_log_number vs /\
    vs_last_sequence vs' = vs_last_sequence vs /\ vs_next_file_number vs' = u64 (vs_next_file_number vs + 1).
Proof using All.
  intros [_ _ (log' & El & [Hname _ Hcont _]) Hcur [H1 H2 H3 H4] Hhas Hlog Hprev Hnext Hlast] Hlv El' Hw Hfile Hn Hfuel Hfuel2.
  assert (log' = log) as -> by congruence. rewrite Hcur in Hw. rewrite Hcont in Hfile.
  destruct (recover_records garbage (es ++ [e]) (mkRecover Status_OK (vs_compact_pointer (VersionSet_new E)) (Builder_new Version_new) None None None None)
    H1 H2 eq_refl) as (st' & Ef & Hs' & Hb & Hnum). destruct (Hnum es e eq_refl) as (N1 & N2 & N3 & N4).
  repeat rewrite andb_true_iff in Hhas. destruct Hhas as (((B1 & B2) & B3) & B4). specialize (N1 B1). specialize (N2 B2). specialize (N3 B3). specialize (N4 B4).
  destruct (Recover_image w (vs_manifest_file_number vs) (es ++ [e]) garbage n fuel st' Hw Hfile) as (w' & vs' & v' & save & R1 & R2 & R3 & R4 & R5 & R6 & R7 & R8);
    rewrite ?length_app, ?N1, ?N3, ?N4; try done; [cbn; lia|by rewrite <- H4, levels_ok_prepared|].
  exists w', vs', v', save. rewrite N1 in R5. rewrite N2 in R6. rewrite N4 in R7. rewrite N3 in R8. injection R5 as R5. injection R7 as R7.
  split; [done|]. split; [done|]. split; [by rewrite H4|]. split; [done|]. cbn [default from_option id] in R6, R8. split; [congruence|]. split; [congruence|]. split; [congruence|]. by rewrite R8, Hnext.
Qed.
(** After an edit is logged the manifest is open for the next one. *)
Lemma logged_ready w vs v es e edit garbage : logged w vs v es e -> ready w vs v (es ++ [e]) edit garbage.
Proof using Type. intros [H1 H2 (log & Hl & H3) H4 H5 _ _ _ _ _]. unfold ready. by rewrite Hl. Qed.
End Manifest.

(** ** Properties *)

(** C7: the manifest is a faithful log of the versions.  In an environment whose
    files do not fail, take an edit that passes the assertions of the code: its
    log number, if it has one, is not below the current one and was handed out,
    and the files it leaves do not overlap in the levels above 0.  [LogAndApply]
    succeeds, whether it appends to the open manifest or starts one with a
    snapshot of the current version, and installs the files that the edit makes
    of the current ones.  Whatever else happens to
    the disk afterwards, as long as CURRENT and the synced manifest keep their
    contents, [Recover] in a new process succeeds and rebuilds the same files at
    every level, with the log numbers and the last sequence number of the moment,
    and hands out only larger file numbers.  The manifest is then ready for the
    next edit, so this holds after any number of edits. *)
Theorem manifest_recovery (E : Env) files wcontents fname rest (extend : Z -> bytes -> Z) (ucmp : Comparator) (dbname : bytes)
    (max_file_size : Z) (reuse_logs : bool) (w : World E) (vs : VersionSet E) (v : Version) (es : list VersionEdit)
    (edit : VersionEdit) (garbage : bool) (n fuel : nat) :
  EnvLaws E files wcontents fname rest -> CrcLaws extend -> ComparatorLaws ucmp ->
  ready E files wcontents fname extend ucmp dbname w vs v es edit garbage -> applicable E ucmp vs v edit ->
  let e := complete_edit E vs edit in
  edit_ok e -> (has_comparator_ edit = true -> comparator_ edit = Comparator_Name ucmp) ->
  fresh_edits (files_ Version_new) (es ++ [e]) ->
  (S (length es) < n)%nat -> (record_fuel (manifest_records (es ++ [e])) <= fuel)%nat ->
  (length (current_contents (vs_manifest_file_number vs)) < fuel)%nat ->
  exists w' vs' v' log, LogAndApply E extend ucmp dbname w vs edit garbage = Some (w', vs', Status_OK) /\
    current vs' = Some v' /\ files_ v' = saved ucmp (vs_compact_pointer vs) (files_ v) [edit] /\
    (forall edit2 garbage2, ready E files wcontents fname extend ucmp dbname w' vs' v' (es ++ [e]) edit2 garbage2) /\
    vs_descriptor vs' = Some log /\ fname (dest_ log) = descriptor_name dbname (vs_manifest_file_number vs) /\
    forall w2 garbage2,
      files w2 !! CurrentFileName dbname = files w' !! CurrentFileName dbname ->
      files w2 !! fname (dest_ log) = Some (wcontents (dest_ log)) ->
      exists w3 vs3 v3 save,
        Recover E extend ucmp dbname max_file_size reuse_logs n fuel w2 (VersionSet_new E) garbage2 = Some (w3, vs3, Status_OK, save) /\
        current vs3 = Some v3 /\ files_ v3 = prepared (files_ v') /\
        vs_log_number vs3 = vs_log_number vs' /\ vs_prev_log_number vs3 = vs_prev_log_number vs' /\
        vs_last_sequence vs3 = vs_last_sequence vs' /\ vs_next_file_number vs3 = u64 (vs_next_file_number vs' + 1).
Proof.
  intros HE Hcrc Hcmp Hr Hap e He Hn Hf Hlen Hfuel Hfuel2.
  destruct (LogAndApply_spec E files wcontents fname rest extend ucmp dbname max_file_size reuse_logs w vs v es edit garbage Hr Hap He Hn Hf)
    as (w' & vs' & v' & El & Hlog & Hv' & _ & _ & Hm). assert (levels_ok ucmp 0 (files_ v') = true) as Hlv by (rewrite Hv'; apply Hap). pose proof Hlog as [_ Hc (log & Hd & Hat) _ _ _ _ _ _ _].
  exists w', vs', v', log. split; [done|]. split; [done|]. split; [done|]. split; [intros; by apply logged_ready|]. split; [done|].
  pose proof (da_name _ _ _ _ _ _ _ _ Hat) as Hname. split; [by rewrite Hname, Hm|].
  intros w2 garbage2 Hcur Hfile. rewrite Hname in Hfile.
  destruct (Recover_spec E files wcontents fname rest extend ucmp dbname max_file_size reuse_logs w' vs' v' es e garbage2 w2 n fuel log Hlog Hlv Hd Hcur Hfile Hlen Hfuel)
    as (w3 & vs3 & v3 & save & R1 & R2 & R3 & _ & R4); [by rewrite Hm|]. by exists w3, vs3, v3, save.
Qed.

(** A database with one table that gets a second one and drops the first. *)
Definition sample_meta_file (n : Z) : FileMetaData :=
  mkFile 1 100 n 4096 (InternalKey (str:"a") n kTypeValue) (InternalKey (str:"k") n kTypeValue).
Definition sample_set : VersionSet MemEnv :=
  mkVersionSet 9 2 50 3 0 None
    [mkNode 0 (mkVersion [[]; [sample_meta_file 5]; []; []; []; []; []] None (-1) (double_of (-1)) (-1)) 1] 1 0 (replicate kNumLevels []).
Definition sample_change : VersionEdit :=
  SetLogNumber (RemoveFile (AddFile (VersionEdit_new false) 2 8 9000 (InternalKey (str:"b") 40 kTypeValue) (InternalKey (str:"m") 2 kTypeDeletion)) 1 5) 7.

Ltac edit_checks := split; try done; [repeat (constructor; [vm_compute; repeat split; congruence|]); constructor|vm_compute; repeat constructor].

Lemma manifest_recovery_witness :
  exists w' vs' v' log, LogAndApply MemEnv Extend_ref BytewiseComparator (str:"db") ∅ sample_set sample_change true = Some (w', vs', Status_OK) /\
    current vs' = Some v' /\ map (map number) (files_ v') = [[]; []; [8]; []; []; []; []] /\ vs_descriptor vs' = Some log /\
    exists w3 vs3 v3 save,
      Recover MemEnv Extend_ref BytewiseComparator (str:"db") 1000 false 5 1000 (delete_file MemEnv w' (dest_ log)) (VersionSet_new MemEnv) true
        = Some (w3, vs3, Status_OK, save) /\
      current vs3 = Some v3 /\ files_ v3 = prepared (files_ v').
Proof.
  edestruct (manifest_recovery MemEnv (fun w => w) snd fst (fun r => r) Extend_ref BytewiseComparator (str:"db") 1000 false ∅ sample_set) with
    (edit := sample_change) (garbage := true) (n := 5%nat) (fuel := 1000%nat) as (w' & vs' & v' & log & H1 & H2 & H3 & _ & H4 & H5 & H6); try exact _.
  - split; [split; [by repeat constructor|by apply NoDup_singleton|by repeat constructor|by eexists]|]. split; [done|].
    cbn [vs_descriptor sample_set]. split; [reflexivity|]. split; [edit_checks|]. split.
    + split; [done|]. repeat (apply list.Forall_cons; split; [repeat constructor|]). constructor.
    + split; [|done]. intros l base Hb. do 7 (destruct l as [|l]; [injection Hb as <-; cbn; repeat constructor; set_solver|]). done.
  - split; [cbn; lia|vm_compute; reflexivity].
  - edit_checks.
  - done.
  - intros l base [-> Hl]%lookup_replicate. unfold kNumLevels in Hl.
    do 7 (destruct l as [|l]; [vm_compute; repeat constructor; set_solver|]). lia.
  - cbn; lia.
  - apply Nat.leb_le. vm_compute. reflexivity.
  - apply Nat.leb_le. vm_compute. reflexivity.
  - exists w', vs', v', log. split; [done|]. split; [done|]. split; [rewrite H3; vm_compute; reflexivity|]. split; [done|].
    change (delete_file MemEnv w' (dest_ log)) with (<[fst (dest_ log) := snd (dest_ log)]> w').
    destruct (H6 (<[fst (dest_ log) := snd (dest_ log)]> w') true) as (w3 & vs3 & v3 & save & R1 & R2 & R3 & _).
    + refine (lookup_insert_ne (M:=gmap bytes) w' _ _ _ _). rewrite H5. discriminate.
    + exact (lookup_insert_eq (M:=gmap bytes) w' _ _).
    + exists w3, vs3, v3, save. split; [exact R1|]. split; [exact R2|exact R3].
Defined.
