(* ===== verification/PerfCounters.v ===== *)
(** * Performance counters

    src/db/perf_counters.h: counters of flushes, compactions, moves and stalls,
    64 bits each.  An atomic operation is one step of the model; [AtomicMax]
    is its loop, with the values that other threads store between a load and
    the exchange as an argument. *)

From stdpp Require Import sorting.
From S2P Require Import Prelude DbFormat.

(** [AtomicMax]: the loop reads [current], and the exchange fails when another
    thread stored a value in between ([others], the stores in order; one failure
    per store) and then reads that value. *)
Fixpoint AtomicMax (target value : Z) (others : list Z) : Z :=
  if target <? value then
    match others with
    | [] => value
    | x :: others => AtomicMax x value others
    end
  else match others with [] => target | _ => List.last others target end.

(** [struct TimedEventSnapshot] and [class TimedEventCounter] *)
Record TimedEventCounter := mkTimed { count_ : Z; total_micros_ : Z; max_micros_ : Z }.
Definition TimedEventCounter_new : TimedEventCounter := mkTimed 0 0 0.
Definition TimedEvent_Record (t : TimedEventCounter) (micros : Z) : TimedEventCounter :=
  mkTimed (u64 (count_ t + 1)) (u64 (total_micros_ t + micros)) (AtomicMax (max_micros_ t) micros []).
Record TimedEventSnapshot := mkTimedSnapshot { ts_count : Z; ts_total_micros : Z; ts_max_micros : Z }.
Definition TimedEvent_Snapshot (t : TimedEventCounter) : TimedEventSnapshot := mkTimedSnapshot (count_ t) (total_micros_ t) (max_micros_ t).

(** [struct MajorCompactionCounters] *)
Record MajorCompactionCounters := mkMajor { mj_time : TimedEventCounter; mj_bytes_read : Z; mj_bytes_written : Z }.

(** [enum class WriteStallType] *)
Inductive WriteStallType := kImmutableMemtableWait | kL0Slowdown | kL0Stop.

(** [class DBPerfCounters] *)
Record DBPerfCounters := mkPerf {
  flush_ : TimedEventCounter; flush_bytes_written_ : Z; flush_count_by_output_level_ : list Z;
  major_compaction_ : list MajorCompactionCounters; trivial_move_count_ : list Z;
  immutable_memtable_wait_ : TimedEventCounter; l0_slowdown_ : TimedEventCounter; l0_stop_ : TimedEventCounter }.

Definition DBPerfCounters_new : DBPerfCounters :=
  mkPerf TimedEventCounter_new 0 (replicate kNumLevels 0) (replicate kNumLevels (mkMajor TimedEventCounter_new 0 0))
    (replicate kNumLevels 0) TimedEventCounter_new TimedEventCounter_new TimedEventCounter_new.

Definition fetch_add (n x : Z) : Z := u64 (x + n).

Definition RecordFlush (p : DBPerfCounters) (output_level : nat) (micros bytes_written : Z) : DBPerfCounters :=
  mkPerf (TimedEvent_Record (flush_ p) micros) (fetch_add bytes_written (flush_bytes_written_ p))
    (alter (fetch_add 1) output_level (flush_count_by_output_level_ p)) (major_compaction_ p) (trivial_move_count_ p)
    (immutable_memtable_wait_ p) (l0_slowdown_ p) (l0_stop_ p).

Definition RecordMajorCompaction (p : DBPerfCounters) (output_level : nat) (micros bytes_read bytes_written : Z) : DBPerfCounters :=
  mkPerf (flush_ p) (flush_bytes_written_ p) (flush_count_by_output_level_ p)
    (alter (fun c => mkMajor (TimedEvent_Record (mj_time c) micros) (fetch_add bytes_read (mj_bytes_read c))
                       (fetch_add bytes_written (mj_bytes_written c))) output_level (major_compaction_ p))
    (trivial_move_count_ p) (immutable_memtable_wait_ p) (l0_slowdown_ p) (l0_stop_ p).

Definition RecordTrivialMove (p : DBPerfCounters) (output_level : nat) : DBPerfCounters :=
  mkPerf (flush_ p) (flush_bytes_written_ p) (flush_count_by_output_level_ p) (major_compaction_ p)
    (alter (fetch_add 1) output_level (trivial_move_count_ p)) (immutable_memtable_wait_ p) (l0_slowdown_ p) (l0_stop_ p).

Definition RecordWriteStall (p : DBPerfCounters) (type : WriteStallType) (micros : Z) : DBPerfCounters :=
  let rest := mkPerf (flush_ p) (flush_bytes_written_ p) (flush_count_by_output_level_ p) (major_compaction_ p) (trivial_move_count_ p) in
  match type with
  | kImmutableMemtableWait => rest (TimedEvent_Record (immutable_memtable_wait_ p) micros) (l0_slowdown_ p) (l0_stop_ p)
  | kL0Slowdown => rest (immutable_memtable_wait_ p) (TimedEvent_Record (l0_slowdown_ p) micros) (l0_stop_ p)
  | kL0Stop => rest (immutable_memtable_wait_ p) (l0_slowdown_ p) (TimedEvent_Record (l0_stop_ p) micros)
  end.

Definition WriteStallCounter (p : DBPerfCounters) (type : WriteStallType) : TimedEventCounter :=
  match type with kImmutableMemtableWait => immutable_memtable_wait_ p | kL0Slowdown => l0_slowdown_ p | kL0Stop => l0_stop_ p end.
Definition WriteStallSnapshot (p : DBPerfCounters) (type : WriteStallType) : TimedEventSnapshot :=
  TimedEvent_Snapshot (WriteStallCounter p type).

(** [struct FlushStatsSnapshot], [struct MajorCompactionStatsSnapshot] and their readers *)
Record FlushStatsSnapshot := mkFlushSnapshot { fs_time : TimedEventSnapshot; fs_bytes_written : Z; fs_count_by_output_level : list Z }.
Definition FlushSnapshot (p : DBPerfCounters) : FlushStatsSnapshot :=
  mkFlushSnapshot (TimedEvent_Snapshot (flush_ p)) (flush_bytes_written_ p) (flush_count_by_output_level_ p).
Record MajorCompactionStatsSnapshot := mkMajorSnapshot { ms_time : TimedEventSnapshot; ms_bytes_read : Z; ms_bytes_written : Z }.
Definition MajorCompactionSnapshot (p : DBPerfCounters) (output_level : nat) : option MajorCompactionStatsSnapshot :=
  c ← major_compaction_ p !! output_level;
  Some (mkMajorSnapshot (TimedEvent_Snapshot (mj_time c)) (mj_bytes_read c) (mj_bytes_written c)).
Definition TrivialMoveCount (p : DBPerfCounters) (output_level : nat) : option Z := trivial_move_count_ p !! output_level.

(** A maximum never falls below a recorded value as long as the other threads
    record maxima too. *)
Lemma AtomicMax_spec target value others :
  StronglySorted Z.le (target :: others) ->
  List.last others target <= AtomicMax target value others /\ value <= AtomicMax target value others /\
  (AtomicMax target value others = value \/ AtomicMax target value others = List.last others target).
Proof.
  revert target. induction others as [|x others IH]; intros target Hs.
  - cbn. case_test; lia.
  - cbn [AtomicMax]. apply StronglySorted_inv in Hs as [Hs Hx]. destruct (IH x Hs) as (H1 & H2 & H3).
    assert (List.last (x :: others) target = List.last others x) as El.
    { clear. revert x. induction others as [|y others IH]; intros x; [done|]. cbn [List.last]. destruct others; [done|]. apply (IH x). }
    rewrite El. destruct (target <? value) eqn:Et; boolprop; [done|].
    assert (x <= List.last others x) as Hl.
    { apply list.Forall_cons in Hx as [_ Hx]. clear -Hs. apply StronglySorted_inv in Hs as [_ Hs].
      induction Hs as [|y others Hy Hs IH]; cbn [List.last]; [lia|]. destruct others; [done|]. etransitivity; [|apply IH]. done. }
    apply list.Forall_cons in Hx as [Hx _]. lia.
Qed.

(** The counters after a sequence of records. *)
Lemma TimedEvent_Record_all (ms : list Z) t :
  Forall (fun m => 0 <= m) ms ->
  let t' := fold_left TimedEvent_Record ms t in
  u64 (count_ t') = u64 (count_ t + zlen ms) /\ u64 (total_micros_ t') = u64 (total_micros_ t + fold_right Z.add 0 ms) /\
  max_micros_ t' = fold_left Z.max ms (max_micros_ t).
Proof.
  intros H. revert t. induction H as [|m ms Hm H IH]; intros t; cbn [fold_left fold_right length].
  - cbn. rewrite !Z.add_0_r. done.
  - cbn zeta in IH. destruct (IH (TimedEvent_Record t m)) as (-> & -> & ->). cbn [TimedEvent_Record count_ total_micros_ max_micros_ AtomicMax].
    unfold u64. rewrite !Zplus_mod_idemp_l. split; [f_equal; lia|]. split; [f_equal; lia|]. f_equal. case_test; lia.
Qed.
