(* ===== verification/DbState.v ===== *)
(** * The state of a database

    src/db/db_impl.h: the fields of [DBImpl], and the monad in which its
    operations are written, state passing with failure.  [None] is what the code
    must not reach: a null or dangling pointer, or a wait that nobody ends.

    The lock is not a field: an operation runs from one point where the lock is
    free to the next, and [Unlock]/[Lock] pairs inside are such points. The world
    of files is part of the state, and so is the queue of waiting writers. *)

From stdpp Require Import gmap sets.
From S2P Require Import Prelude Slice Coding Comparator DbFormat Cache WriteBatch LogFormat LogWriter Arena MemTable Format Table VersionEdit VersionFiles.
From S2P Require Import VersionBuilder VersionGet TableCache Env Snapshot VersionSet PerfCounters.

(** [struct DBImpl::Writer]: a writer that waits in the queue, with its identity;
    [done] and [status] are in [finished_]. *)
Record DbWriter := mkDbWriter { wr_id : nat; wr_batch : option bytes; wr_sync : bool }.

(** [struct ManualCompaction]; the keys are internal keys, and no key is the end
    of the key space. *)
Record ManualCompaction := mkManual { mc_level : nat; mc_done : bool; mc_begin : option bytes; mc_end : option bytes }.

(** [struct CompactionStats] *)
Record CompactionStats := mkCStats { micros : Z; bytes_read : Z; bytes_written : Z }.
Definition CompactionStats_new : CompactionStats := mkCStats 0 0 0.
Definition CompactionStats_Add (s c : CompactionStats) : CompactionStats :=
  mkCStats (s64 (micros s + micros c)) (s64 (bytes_read s + bytes_read c)) (s64 (bytes_written s + bytes_written c)).

(** [struct FlushResult] *)
Record FlushResult := mkFlushResult { output_level : nat; fr_bytes_written : Z; has_output : bool }.
Definition FlushResult_new : FlushResult := mkFlushResult 0 0 false.

Section State.
Context (E : Env) (C : CacheOps TableAndFile).

(** [class DBImpl]; [logfile_] is the file of [log_], [manual_] the object that
    [manual_compaction_] points to when it is not null, and [seeks_] the allowed
    seeks of the files, which the versions share. *)
Record DBImpl := mkDB {
  db_world : World E;
  table_cache_ : CState C;
  db_lock_ : bool;
  shutting_down_ : bool;
  mem_ : option MemTable;
  imm_ : option MemTable;
  has_imm_ : bool;
  log_ : option (LogWriter.Writer (env_W E));
  logfile_number_ : Z;
  seed_ : Z;
  writers_ : list DbWriter;
  finished_ : list (nat * Status);
  tmp_batch_ : bytes;
  snapshots_ : SnapshotList;
  pending_outputs_ : gset Z;
  background_compaction_scheduled_ : bool;
  manual_ : option ManualCompaction;
  manual_compaction_ : bool;
  versions_ : VersionSet E;
  seeks_ : Seeks;
  bg_error_ : Status;
  stats_ : list CompactionStats;
  perf_counters_ : DBPerfCounters }.

Definition set_db_world (x : World E) (db : DBImpl) : DBImpl :=
  mkDB x (table_cache_ db) (db_lock_ db) (shutting_down_ db) (mem_ db) (imm_ db) (has_imm_ db) (log_ db)
    (logfile_number_ db) (seed_ db) (writers_ db) (finished_ db) (tmp_batch_ db) (snapshots_ db) (pending_outputs_ db)
    (background_compaction_scheduled_ db) (manual_ db) (manual_compaction_ db) (versions_ db) (seeks_ db) (bg_error_ db)
    (stats_ db) (perf_counters_ db).
Definition set_table_cache (x : CState C) (db : DBImpl) : DBImpl :=
  mkDB (db_world db) x (db_lock_ db) (shutting_down_ db) (mem_ db) (imm_ db) (has_imm_ db) (log_ db) (logfile_number_
    db) (seed_ db) (writers_ db) (finished_ db) (tmp_batch_ db) (snapshots_ db) (pending_outputs_ db)
    (background_compaction_scheduled_ db) (manual_ db) (manual_compaction_ db) (versions_ db) (seeks_ db) (bg_error_ db)
    (stats_ db) (perf_counters_ db).
Definition set_db_lock (x : bool) (db : DBImpl) : DBImpl :=
  mkDB (db_world db) (table_cache_ db) x (shutting_down_ db) (mem_ db) (imm_ db) (has_imm_ db) (log_ db)
    (logfile_number_ db) (seed_ db) (writers_ db) (finished_ db) (tmp_batch_ db) (snapshots_ db) (pending_outputs_ db)
    (background_compaction_scheduled_ db) (manual_ db) (manual_compaction_ db) (versions_ db) (seeks_ db) (bg_error_ db)
    (stats_ db) (perf_counters_ db).
Definition set_shutting_down (x : bool) (db : DBImpl) : DBImpl :=
  mkDB (db_world db) (table_cache_ db) (db_lock_ db) x (mem_ db) (imm_ db) (has_imm_ db) (log_ db) (logfile_number_ db)
    (seed_ db) (writers_ db) (finished_ db) (tmp_batch_ db) (snapshots_ db) (pending_outputs_ db)
    (background_compaction_scheduled_ db) (manual_ db) (manual_compaction_ db) (versions_ db) (seeks_ db) (bg_error_ db)
    (stats_ db) (perf_counters_ db).
Definition set_mem (x : option MemTable) (db : DBImpl) : DBImpl :=
  mkDB (db_world db) (table_cache_ db) (db_lock_ db) (shutting_down_ db) x (imm_ db) (has_imm_ db) (log_ db)
    (logfile_number_ db) (seed_ db) (writers_ db) (finished_ db) (tmp_batch_ db) (snapshots_ db) (pending_outputs_ db)
    (background_compaction_scheduled_ db) (manual_ db) (manual_compaction_ db) (versions_ db) (seeks_ db) (bg_error_ db)
    (stats_ db) (perf_counters_ db).
Definition set_imm (x : option MemTable) (db : DBImpl) : DBImpl :=
  mkDB (db_world db) (table_cache_ db) (db_lock_ db) (shutting_down_ db) (mem_ db) x (has_imm_ db) (log_ db)
    (logfile_number_ db) (seed_ db) (writers_ db) (finished_ db) (tmp_batch_ db) (snapshots_ db) (pending_outputs_ db)
    (background_compaction_scheduled_ db) (manual_ db) (manual_compaction_ db) (versions_ db) (seeks_ db) (bg_error_ db)
    (stats_ db) (perf_counters_ db).
Definition set_has_imm (x : bool) (db : DBImpl) : DBImpl :=
  mkDB (db_world db) (table_cache_ db) (db_lock_ db) (shutting_down_ db) (mem_ db) (imm_ db) x (log_ db)
    (logfile_number_ db) (seed_ db) (writers_ db) (finished_ db) (tmp_batch_ db) (snapshots_ db) (pending_outputs_ db)
    (background_compaction_scheduled_ db) (manual_ db) (manual_compaction_ db) (versions_ db) (seeks_ db) (bg_error_ db)
    (stats_ db) (perf_counters_ db).
Definition set_log (x : option (LogWriter.Writer (env_W E))) (db : DBImpl) : DBImpl :=
  mkDB (db_world db) (table_cache_ db) (db_lock_ db) (shutting_down_ db) (mem_ db) (imm_ db) (has_imm_ db) x
    (logfile_number_ db) (seed_ db) (writers_ db) (finished_ db) (tmp_batch_ db) (snapshots_ db) (pending_outputs_ db)
    (background_compaction_scheduled_ db) (manual_ db) (manual_compaction_ db) (versions_ db) (seeks_ db) (bg_error_ db)
    (stats_ db) (perf_counters_ db).
Definition set_logfile_number (x : Z) (db : DBImpl) : DBImpl :=
  mkDB (db_world db) (table_cache_ db) (db_lock_ db) (shutting_down_ db) (mem_ db) (imm_ db) (has_imm_ db) (log_ db) x
    (seed_ db) (writers_ db) (finished_ db) (tmp_batch_ db) (snapshots_ db) (pending_outputs_ db)
    (background_compaction_scheduled_ db) (manual_ db) (manual_compaction_ db) (versions_ db) (seeks_ db) (bg_error_ db)
    (stats_ db) (perf_counters_ db).
Definition set_seed (x : Z) (db : DBImpl) : DBImpl :=
  mkDB (db_world db) (table_cache_ db) (db_lock_ db) (shutting_down_ db) (mem_ db) (imm_ db) (has_imm_ db) (log_ db)
    (logfile_number_ db) x (writers_ db) (finished_ db) (tmp_batch_ db) (snapshots_ db) (pending_outputs_ db)
    (background_compaction_scheduled_ db) (manual_ db) (manual_compaction_ db) (versions_ db) (seeks_ db) (bg_error_ db)
    (stats_ db) (perf_counters_ db).
Definition set_writers (x : list DbWriter) (db : DBImpl) : DBImpl :=
  mkDB (db_world db) (table_cache_ db) (db_lock_ db) (shutting_down_ db) (mem_ db) (imm_ db) (has_imm_ db) (log_ db)
    (logfile_number_ db) (seed_ db) x (finished_ db) (tmp_batch_ db) (snapshots_ db) (pending_outputs_ db)
    (background_compaction_scheduled_ db) (manual_ db) (manual_compaction_ db) (versions_ db) (seeks_ db) (bg_error_ db)
    (stats_ db) (perf_counters_ db).
Definition set_finished (x : list (nat * Status)) (db : DBImpl) : DBImpl :=
  mkDB (db_world db) (table_cache_ db) (db_lock_ db) (shutting_down_ db) (mem_ db) (imm_ db) (has_imm_ db) (log_ db)
    (logfile_number_ db) (seed_ db) (writers_ db) x (tmp_batch_ db) (snapshots_ db) (pending_outputs_ db)
    (background_compaction_scheduled_ db) (manual_ db) (manual_compaction_ db) (versions_ db) (seeks_ db) (bg_error_ db)
    (stats_ db) (perf_counters_ db).
Definition set_tmp_batch (x : bytes) (db : DBImpl) : DBImpl :=
  mkDB (db_world db) (table_cache_ db) (db_lock_ db) (shutting_down_ db) (mem_ db) (imm_ db) (has_imm_ db) (log_ db)
    (logfile_number_ db) (seed_ db) (writers_ db) (finished_ db) x (snapshots_ db) (pending_outputs_ db)
    (background_compaction_scheduled_ db) (manual_ db) (manual_compaction_ db) (versions_ db) (seeks_ db) (bg_error_ db)
    (stats_ db) (perf_counters_ db).
Definition set_snapshots (x : SnapshotList) (db : DBImpl) : DBImpl :=
  mkDB (db_world db) (table_cache_ db) (db_lock_ db) (shutting_down_ db) (mem_ db) (imm_ db) (has_imm_ db) (log_ db)
    (logfile_number_ db) (seed_ db) (writers_ db) (finished_ db) (tmp_batch_ db) x (pending_outputs_ db)
    (background_compaction_scheduled_ db) (manual_ db) (manual_compaction_ db) (versions_ db) (seeks_ db) (bg_error_ db)
    (stats_ db) (perf_counters_ db).
Definition set_pending_outputs (x : gset Z) (db : DBImpl) : DBImpl :=
  mkDB (db_world db) (table_cache_ db) (db_lock_ db) (shutting_down_ db) (mem_ db) (imm_ db) (has_imm_ db) (log_ db)
    (logfile_number_ db) (seed_ db) (writers_ db) (finished_ db) (tmp_batch_ db) (snapshots_ db) x
    (background_compaction_scheduled_ db) (manual_ db) (manual_compaction_ db) (versions_ db) (seeks_ db) (bg_error_ db)
    (stats_ db) (perf_counters_ db).
Definition set_background_compaction_scheduled (x : bool) (db : DBImpl) : DBImpl :=
  mkDB (db_world db) (table_cache_ db) (db_lock_ db) (shutting_down_ db) (mem_ db) (imm_ db) (has_imm_ db) (log_ db)
    (logfile_number_ db) (seed_ db) (writers_ db) (finished_ db) (tmp_batch_ db) (snapshots_ db) (pending_outputs_ db) x
    (manual_ db) (manual_compaction_ db) (versions_ db) (seeks_ db) (bg_error_ db) (stats_ db) (perf_counters_ db).
Definition set_manual (x : option ManualCompaction) (db : DBImpl) : DBImpl :=
  mkDB (db_world db) (table_cache_ db) (db_lock_ db) (shutting_down_ db) (mem_ db) (imm_ db) (has_imm_ db) (log_ db)
    (logfile_number_ db) (seed_ db) (writers_ db) (finished_ db) (tmp_batch_ db) (snapshots_ db) (pending_outputs_ db)
    (background_compaction_scheduled_ db) x (manual_compaction_ db) (versions_ db) (seeks_ db) (bg_error_ db) (stats_
    db) (perf_counters_ db).
Definition set_manual_compaction (x : bool) (db : DBImpl) : DBImpl :=
  mkDB (db_world db) (table_cache_ db) (db_lock_ db) (shutting_down_ db) (mem_ db) (imm_ db) (has_imm_ db) (log_ db)
    (logfile_number_ db) (seed_ db) (writers_ db) (finished_ db) (tmp_batch_ db) (snapshots_ db) (pending_outputs_ db)
    (background_compaction_scheduled_ db) (manual_ db) x (versions_ db) (seeks_ db) (bg_error_ db) (stats_ db)
    (perf_counters_ db).
Definition set_versions (x : VersionSet E) (db : DBImpl) : DBImpl :=
  mkDB (db_world db) (table_cache_ db) (db_lock_ db) (shutting_down_ db) (mem_ db) (imm_ db) (has_imm_ db) (log_ db)
    (logfile_number_ db) (seed_ db) (writers_ db) (finished_ db) (tmp_batch_ db) (snapshots_ db) (pending_outputs_ db)
    (background_compaction_scheduled_ db) (manual_ db) (manual_compaction_ db) x (seeks_ db) (bg_error_ db) (stats_ db)
    (perf_counters_ db).
Definition set_seeks (x : Seeks) (db : DBImpl) : DBImpl :=
  mkDB (db_world db) (table_cache_ db) (db_lock_ db) (shutting_down_ db) (mem_ db) (imm_ db) (has_imm_ db) (log_ db)
    (logfile_number_ db) (seed_ db) (writers_ db) (finished_ db) (tmp_batch_ db) (snapshots_ db) (pending_outputs_ db)
    (background_compaction_scheduled_ db) (manual_ db) (manual_compaction_ db) (versions_ db) x (bg_error_ db) (stats_
    db) (perf_counters_ db).
Definition set_bg_error (x : Status) (db : DBImpl) : DBImpl :=
  mkDB (db_world db) (table_cache_ db) (db_lock_ db) (shutting_down_ db) (mem_ db) (imm_ db) (has_imm_ db) (log_ db)
    (logfile_number_ db) (seed_ db) (writers_ db) (finished_ db) (tmp_batch_ db) (snapshots_ db) (pending_outputs_ db)
    (background_compaction_scheduled_ db) (manual_ db) (manual_compaction_ db) (versions_ db) (seeks_ db) x (stats_ db)
    (perf_counters_ db).
Definition set_stats (x : list CompactionStats) (db : DBImpl) : DBImpl :=
  mkDB (db_world db) (table_cache_ db) (db_lock_ db) (shutting_down_ db) (mem_ db) (imm_ db) (has_imm_ db) (log_ db)
    (logfile_number_ db) (seed_ db) (writers_ db) (finished_ db) (tmp_batch_ db) (snapshots_ db) (pending_outputs_ db)
    (background_compaction_scheduled_ db) (manual_ db) (manual_compaction_ db) (versions_ db) (seeks_ db) (bg_error_ db)
    x (perf_counters_ db).
Definition set_perf_counters (x : DBPerfCounters) (db : DBImpl) : DBImpl :=
  mkDB (db_world db) (table_cache_ db) (db_lock_ db) (shutting_down_ db) (mem_ db) (imm_ db) (has_imm_ db) (log_ db)
    (logfile_number_ db) (seed_ db) (writers_ db) (finished_ db) (tmp_batch_ db) (snapshots_ db) (pending_outputs_ db)
    (background_compaction_scheduled_ db) (manual_ db) (manual_compaction_ db) (versions_ db) (seeks_ db) (bg_error_ db)
    (stats_ db) x.

(** The monad of [DBImpl]'s operations. *)
Definition DBM (A : Type) : Type := DBImpl -> option (DBImpl * A).
Definition DBM_ret {A} (a : A) : DBM A := fun db => Some (db, a).
Definition DBM_bind {A B} (f : A -> DBM B) (m : DBM A) : DBM B := fun db => '(db, a) ← m db; f a db.
Definition get {A} (f : DBImpl -> A) : DBM A := fun db => Some (db, f db).
Definition modify (f : DBImpl -> DBImpl) : DBM () := fun db => Some (f db, ()).
Definition lift {A} (x : option A) : DBM A := fun db => a ← x; Some (db, a).
Definition assertion (b : bool) : DBM () := lift (if b then Some () else None).
Definition unless_ok (s : Status) (m : DBM Status) : DBM Status := if ok s then m else DBM_ret s.
End State.

Arguments db_world {E C}.
Arguments table_cache_ {E C}.
Arguments db_lock_ {E C}.
Arguments shutting_down_ {E C}.
Arguments mem_ {E C}.
Arguments imm_ {E C}.
Arguments has_imm_ {E C}.
Arguments log_ {E C}.
Arguments logfile_number_ {E C}.
Arguments seed_ {E C}.
Arguments writers_ {E C}.
Arguments finished_ {E C}.
Arguments tmp_batch_ {E C}.
Arguments snapshots_ {E C}.
Arguments pending_outputs_ {E C}.
Arguments background_compaction_scheduled_ {E C}.
Arguments manual_ {E C}.
Arguments manual_compaction_ {E C}.
Arguments versions_ {E C}.
Arguments seeks_ {E C}.
Arguments bg_error_ {E C}.
Arguments stats_ {E C}.
Arguments perf_counters_ {E C}.
Arguments set_db_world {E C}.
Arguments set_table_cache {E C}.
Arguments set_db_lock {E C}.
Arguments set_shutting_down {E C}.
Arguments set_mem {E C}.
Arguments set_imm {E C}.
Arguments set_has_imm {E C}.
Arguments set_log {E C}.
Arguments set_logfile_number {E C}.
Arguments set_seed {E C}.
Arguments set_writers {E C}.
Arguments set_finished {E C}.
Arguments set_tmp_batch {E C}.
Arguments set_snapshots {E C}.
Arguments set_pending_outputs {E C}.
Arguments set_background_compaction_scheduled {E C}.
Arguments set_manual {E C}.
Arguments set_manual_compaction {E C}.
Arguments set_versions {E C}.
Arguments set_seeks {E C}.
Arguments set_bg_error {E C}.
Arguments set_stats {E C}.
Arguments set_perf_counters {E C}.
Arguments mkDB {E C}.
Arguments DBM_ret {E C A}.
Arguments get {E C A}.
Arguments modify {E C}.
Arguments lift {E C A}.
Arguments unless_ok {E C}.

#[export] Instance DBM_MRet E C : MRet (DBM E C) := fun A => DBM_ret.
#[export] Instance DBM_MBind E C : MBind (DBM E C) := fun A B => DBM_bind E C (A:=A) (B:=B).

(** Running the steps of an operation. *)
Section Steps.
Context {E : Env} {C : CacheOps TableAndFile}.
Implicit Type db : DBImpl E C.

Lemma bind_step {A B} (m : DBM E C A) (f : A -> DBM E C B) db db' a : m db = Some (db', a) -> (m ≫= f) db = f a db'.
Proof. intros H. unfold mbind, DBM_MBind, DBM_bind. by rewrite H. Qed.
Lemma get_step {A B} (g : DBImpl E C -> A) (f : A -> DBM E C B) db : (get g ≫= f) db = f (g db) db.
Proof. done. Qed.
Lemma modify_step {B} g (f : () -> DBM E C B) db : (modify g ≫= f) db = f () (g db).
Proof. done. Qed.
Lemma ret_step {A B} (a : A) (f : A -> DBM E C B) db : (mret a ≫= f) db = f a db.
Proof. done. Qed.
Lemma lift_step {A B} (a : A) (f : A -> DBM E C B) db : (lift (Some a) ≫= f) db = f a db.
Proof. done. Qed.
Lemma assertion_step {B} (f : () -> DBM E C B) db : (assertion E C true ≫= f) db = f () db.
Proof. done. Qed.
Lemma bind_assoc {A B D} (m : DBM E C A) (f : A -> DBM E C B) (g : B -> DBM E C D) db :
  ((m ≫= f) ≫= g) db = (m ≫= (fun a => f a ≫= g)) db.
Proof. unfold mbind, DBM_MBind, DBM_bind. destruct (m db) as [[db' a]|]; done. Qed.
Lemma modify_run g db : modify (E:=E) (C:=C) g db = Some (g db, ()).
Proof. done. Qed.
Lemma ret_run {A} (a : A) db : (mret a : DBM E C A) db = Some (db, a).
Proof. done. Qed.
Lemma lift_run {A} (a : A) db : lift (Some a) db = Some (db, a).
Proof. done. Qed.
Lemma get_run {A} (g : DBImpl E C -> A) db : get g db = Some (db, g db).
Proof. done. Qed.
End Steps.

Ltac dbm := repeat (first [rewrite bind_assoc | rewrite get_step | rewrite modify_step | rewrite ret_step | rewrite lift_step
  | rewrite assertion_step
  | rewrite modify_run | rewrite ret_run | rewrite lift_run | rewrite get_run]; cbv beta).
