(* ===== verification/DbImpl.v ===== *)
(** * The database: background work

    src/db/db_impl.cc, the operations that a background thread runs: flushing the
    immutable memtable ([WriteLevel0Table], [CompactMemTable]), compacting
    ([OpenCompactionOutputFile], [FinishCompactionOutputFile], [DoCompactionWork],
    [InstallCompactionResults], [CleanupCompaction], [BackgroundCompaction]) and
    deleting files ([RemoveObsoleteFiles]).

    They are written in the monad of [DbState].  The clock is a parameter, the
    messages of the info log are left out. *)

From Stdlib Require Import SpecFloat.
From stdpp Require Import gmap sets sorting.
From S2P Require Import Prelude Slice Coding Crc32c Comparator DbFormat Hash Cache WriteBatch LogFormat LogWriter LogReader Filename.
From S2P Require Import Iterator SkipList Arena MemTable Entries MemIter BlockBuilder Block DbIter Merger Format FilterBlock TableBuilder Table.
From S2P Require Import VersionEdit VersionFiles VersionBuilder Compaction VersionGet VersionIter TableCache Env Snapshot BuildTable.
From S2P Require Import DbOptions VersionSet PerfCounters DbState.

(** [struct CompactionState::Output] *)
Record Output := mkOutput { out_number : Z; out_file_size : Z; out_smallest : bytes; out_largest : bytes }.

(** The locals of [DoCompactionWork]'s loop. *)
Record DropState := mkDrop { ds_current_user_key : bytes; ds_has_current_user_key : bool; ds_last_sequence_for_key : Z }.
Definition DropState_new : DropState := mkDrop [] false kMaxSequenceNumber.

Section Operations.
Context (E : Env) (NowMicros : World E -> Z) (extend : Z -> bytes -> Z) (z : Compression) (C : CacheOps TableAndFile).
Context (new_chars : list region -> Z -> Z) (ucmp : Comparator) (options_ : DBOptions) (dbname_ : bytes) (cache_id : Z).
Context (garbage : bool) (fuel : nat).
Abbreviation icompare := (InternalKeyComparator.Compare ucmp).
Abbreviation topts := (table_options options_).
Abbreviation DBImpl := (DBImpl E C).
Abbreviation DBM := (DBM E C).
Abbreviation MemTable_new := (MemTable_new new_chars).

(** [struct CompactionState]; [outfile] is the file of [builder]. *)
Record CompactionState := mkCompact {
  compaction : Compaction; cs_smallest_snapshot : Z; outputs : list Output; builder : option (Rep (env_W E)); total_bytes : Z }.
Definition CompactionState_new (c : Compaction) : CompactionState := mkCompact c 0 [] None 0.
Definition set_compaction (cs : CompactionState) (c : Compaction) : CompactionState :=
  mkCompact c (cs_smallest_snapshot cs) (outputs cs) (builder cs) (total_bytes cs).
Definition set_builder (cs : CompactionState) (b : option (Rep (env_W E))) : CompactionState :=
  mkCompact (compaction cs) (cs_smallest_snapshot cs) (outputs cs) b (total_bytes cs).
Definition set_outputs (cs : CompactionState) (outs : list Output) : CompactionState :=
  mkCompact (compaction cs) (cs_smallest_snapshot cs) outs (builder cs) (total_bytes cs).
Definition current_output (cs : CompactionState) (f : Output -> Output) : CompactionState :=
  set_outputs cs (alter f (length (outputs cs) - 1)%nat (outputs cs)).

(** Small steps. *)
Definition now : DBM Z := get (fun db => NowMicros (db_world db)).
Definition on_versions (f : VersionSet E -> VersionSet E) : DBM () := modify (fun db => set_versions (f (versions_ db)) db).
Definition try_versions (f : VersionSet E -> option (VersionSet E)) : DBM () :=
  vs ← get versions_; vs ← lift (f vs); modify (set_versions vs).
Definition new_file_number : DBM Z :=
  vs ← get versions_;
  let '(vs, n) := NewFileNumber E vs in
  modify (set_versions vs) ;; mret n.
Definition add_stats (level : nat) (s : CompactionStats) : DBM () :=
  modify (fun db => set_stats (alter (fun t => CompactionStats_Add t s) level (stats_ db)) db).

(** [VersionSet::LogAndApply] with the lock held around it *)
Definition log_and_apply (edit : VersionEdit) : DBM Status :=
  db ← get (fun db => db);
  '(w, vs, s) ← lift (LogAndApply E extend ucmp dbname_ (db_world db) (versions_ db) edit garbage);
  modify (fun db => set_db_world w (set_versions vs db)) ;; mret s.

(** [DBImpl::MaybeIgnoreError] *)
Definition MaybeIgnoreError (s : Status) : Status := if ok s || paranoid_checks topts then s else Status_OK.

(** [DBImpl::RecordBackgroundError] *)
Definition RecordBackgroundError (s : Status) : DBM () := modify (fun db => if ok (bg_error_ db) then set_bg_error s db else db).

(** [DBImpl::MaybeScheduleCompaction]: [Schedule] is the flag. *)
Definition MaybeScheduleCompaction : DBM () :=
  db ← get (fun db => db);
  if background_compaction_scheduled_ db then mret ()
  else if shutting_down_ db then mret ()
  else if negb (ok (bg_error_ db)) then mret ()
  else
    needs ← lift (vs_NeedsCompaction E (versions_ db));
    if match imm_ db with None => negb (manual_compaction_ db) && negb needs | Some _ => false end then mret ()
    else modify (set_background_compaction_scheduled true).

(** [DBImpl::RemoveObsoleteFiles]: whether a file of the directory is kept. *)
Definition keep_file (vs : VersionSet E) (live : gset Z) (number : Z) (type : FileType) : bool :=
  match type with
  | kLogFile => (vs_log_number vs <=? number) || (number =? vs_prev_log_number vs)
  | kDescriptorFile => vs_manifest_file_number vs <=? number
  | kTableFile | kTempFile => bool_decide (number ∈ live)
  | kCurrentFile | kDBLockFile | kInfoLogFile => true
  end.

Definition obsolete_files (vs : VersionSet E) (live : gset Z) (filenames : list bytes) : list (bytes * Z * FileType) :=
  omap (fun filename =>
    match ParseFileName filename with
    | Some (number, type) => if keep_file vs live number type then None else Some (filename, number, type)
    | None => None
    end) filenames.

Definition RemoveObsoleteFiles : DBM () :=
  db ← get (fun db => db);
  if negb (ok (bg_error_ db)) then mret ()
  else
    let live := AddLiveFiles E (versions_ db) (pending_outputs_ db) in
    let filenames := snd (GetChildren E (db_world db) dbname_) in
    let files_to_delete := obsolete_files (versions_ db) live filenames in
    let cache := fold_left (fun cache f =>
        match snd f with kTableFile => Evict C cache (snd (fst f)) | _ => cache end) files_to_delete (table_cache_ db) in
    let w := fold_left (fun w f => fst (env_RemoveFile E w (dbname_ ++ str:"/" ++ fst (fst f)))) files_to_delete (db_world db) in
    modify (fun db => set_db_world w (set_table_cache cache db)).

(** [DBImpl::WriteLevel0Table] *)
Definition WriteLevel0Table (mem : MemTable) (edit : VersionEdit) (base : option Version) (pruning : option FlushPruningOptions)
    : DBM (VersionEdit * FlushResult * Status) :=
  n ← new_file_number;
  modify (fun db => set_pending_outputs ({[n]} ∪ pending_outputs_ db) db) ;;
  db ← get (fun db => db);
  '(w, cache, meta, s) ← lift (BuildTable E extend z C dbname_ topts cache_id (MemTableIterator ucmp mem) fuel (db_world db)
    (table_cache_ db) (MemTable_NewIterator ucmp mem) (FileMetaData_new n 0 [] []) pruning);
  modify (fun db => set_db_world w (set_table_cache cache (set_pending_outputs (pending_outputs_ db ∖ {[n]}) db))) ;;
  if ok s && (file_size meta >? 0) then
    level ← lift (match base with
      | Some v => PickLevelForMemTableOutput ucmp (max_file_size options_) v (ExtractUserKey (smallest meta)) (ExtractUserKey (largest meta))
      | None => Some 0%nat
      end);
    mret (AddFile edit (Z.of_nat level) n (file_size meta) (smallest meta) (largest meta), mkFlushResult level (file_size meta) true, s)
  else mret (edit, FlushResult_new, s).

(** The oldest sequence number a reader may ask for. *)
Definition oldest_snapshot : DBM Z :=
  db ← get (fun db => db);
  none ← lift (Snapshot.empty (snapshots_ db));
  if (none : bool) then mret (vs_last_sequence (versions_ db))
  else lift (a ← oldest (snapshots_ db); sequence_number (snapshots_ db) a).

(** [DBImpl::CompactMemTable] *)
Definition CompactMemTable : DBM () :=
  start ← now;
  imm ← (db ← get (fun db => db); lift (imm_ db));
  id ← get (fun db => vs_current (versions_ db));
  base ← (db ← get (fun db => db); lift (current (versions_ db)));
  on_versions (fun vs => Version_Ref E vs id) ;;
  smallest_snapshot ← oldest_snapshot;
  '(edit, result, s) ← WriteLevel0Table imm (VersionEdit_new garbage) (Some base) (Some (mkPruning ucmp smallest_snapshot));
  on_versions (fun vs => Version_Unref E vs id) ;;
  down ← get shutting_down_;
  let s := if ok s && down then Status_make kIOError (str:"Deleting DB during memtable compaction") [] else s in
  logfile ← get logfile_number_;
  s ← unless_ok s (log_and_apply (SetLogNumber (SetPrevLogNumber edit 0) logfile));
  if ok s then
    finish ← now;
    let stats := mkCStats (s64 (finish - start)) 0 (s64 (fr_bytes_written result)) in
    add_stats (output_level result) stats ;;
    modify (fun db => if has_output result
      then set_perf_counters (RecordFlush (perf_counters_ db) (output_level result) (u64 (micros stats)) (fr_bytes_written result)) db else db) ;;
    modify (fun db => set_imm None (set_has_imm false db)) ;;
    RemoveObsoleteFiles
  else RecordBackgroundError s.
(** ** Compactions *)

(** [DBImpl::OpenCompactionOutputFile] *)
Definition OpenCompactionOutputFile (cs : CompactionState) : DBM (CompactionState * Status) :=
  assertion E C (match builder cs with None => true | Some _ => false end) ;;
  n ← new_file_number;
  modify (fun db => set_pending_outputs ({[n]} ∪ pending_outputs_ db) db) ;;
  let cs := set_outputs cs (outputs cs ++ [mkOutput n 0 [] []]) in
  w ← get db_world;
  fname ← lift (TableFileName dbname_ n);
  let '(w, s, file) := NewWritableFile E w fname in
  modify (set_db_world w) ;;
  if ok s then file ← lift file; mret (set_builder cs (Some (TableBuilder_new topts file)), s)
  else mret (cs, s).

(** Opening the new table through the table cache and closing it again. *)
Definition check_output (n size : Z) : DBM Status :=
  db ← get (fun db => db);
  '(cache, s) ← lift (check_table E extend z C dbname_ topts cache_id (db_world db) (table_cache_ db) n size);
  modify (set_table_cache cache) ;; mret s.

(** [DBImpl::FinishCompactionOutputFile], with the status of the input. *)
Definition FinishCompactionOutputFile (input_status : Status) (cs : CompactionState) : DBM (CompactionState * Status) :=
  b ← lift (builder cs);
  out ← lift (list.last (outputs cs));
  assertion E C (negb (out_number out =? 0)) ;;
  let current_entries := NumEntries _ b in
  let '(b, s) := if ok input_status then TableBuilder_Finish extend z b else (TableBuilder_Abandon _ b, input_status) in
  let current_bytes := FileSize _ b in
  let cs := current_output cs (fun out => mkOutput (out_number out) current_bytes (out_smallest out) (out_largest out)) in
  let cs := mkCompact (compaction cs) (cs_smallest_snapshot cs) (outputs cs) None (u64 (total_bytes cs + current_bytes)) in
  let f := TableBuilder.file b in
  let '(f, s) := if ok s then Sync E f else (f, s) in
  let '(f, s) := if ok s then Close E f else (f, s) in
  modify (fun db => set_db_world (delete_file E (db_world db) f) db) ;;
  s ← (if ok s && (current_entries >? 0) then check_output (out_number out) current_bytes else mret s);
  mret (cs, s).

(** [DBImpl::InstallCompactionResults] *)
Definition InstallCompactionResults (cs : CompactionState) : DBM Status :=
  let c := compaction cs in
  let edit := AddInputDeletions c (edit_ c) in
  let edit := fold_left (fun edit out =>
      AddFile edit (Z.of_nat (c_level c) + 1) (out_number out) (out_file_size out) (out_smallest out) (out_largest out)) (outputs cs) edit in
  log_and_apply edit.

(** [DBImpl::CleanupCompaction] *)
Definition CleanupCompaction (cs : CompactionState) : DBM () :=
  match builder cs with
  | Some b => modify (fun db => set_db_world (delete_file E (db_world db) (TableBuilder.file (TableBuilder_Abandon _ b))) db)
  | None => mret ()
  end ;;
  modify (fun db => set_pending_outputs (fold_left (fun p out => p ∖ {[out_number out]}) (outputs cs) (pending_outputs_ db)) db).

(** The decision to drop a key: the compaction, whose pointers move, the loop's
    locals, and [drop]. *)
Definition drop_step (c : Compaction) (smallest_snapshot : Z) (d : DropState) (key : bytes) : Compaction * DropState * bool :=
  match ParseInternalKey key with
  | None => (c, DropState_new, false)
  | Some ikey =>
      let same := ds_has_current_user_key d &&
        match Compare ucmp (user_key ikey) (ds_current_user_key d) with Eq => true | _ => false end in
      let d := if same then d else mkDrop (user_key ikey) true kMaxSequenceNumber in
      let next := mkDrop (ds_current_user_key d) (ds_has_current_user_key d) (sequence ikey) in
      if ds_last_sequence_for_key d <=? smallest_snapshot then (c, next, true)
      else if match type ikey with kTypeDeletion => sequence ikey <=? smallest_snapshot | kTypeValue => false end then
        let '(c, base) := IsBaseLevelForKey ucmp c (user_key ikey) in (c, next, base)
      else (c, next, false)
  end.

(** Adding a key that is not dropped to the output. *)
Definition add_output (key value : bytes) (input_status : Status) (cs : CompactionState) : DBM (CompactionState * Status) :=
  '(cs, s) ← (match builder cs with None => OpenCompactionOutputFile cs | Some _ => mret (cs, Status_OK) end);
  if negb (ok s) then mret (cs, s)
  else
    b ← lift (builder cs);
    let cs := current_output cs (fun out =>
      mkOutput (out_number out) (out_file_size out) (if NumEntries _ b =? 0 then key else out_smallest out) key) in
    let b := TableBuilder_Add extend z b key value in
    let cs := set_builder cs (Some b) in
    if FileSize _ b >=? max_output_file_size_ (compaction cs) then FinishCompactionOutputFile input_status cs
    else mret (cs, Status_OK).

(** The loop of [DoCompactionWork]. *)
Fixpoint compact_loop (I : IteratorOps) (n : nat) (input : IState I) (d : DropState) (imm_micros : Z) (cs : CompactionState)
    : DBM (IState I * Z * CompactionState * Status) :=
  match n with
  | O => lift None
  | S n =>
      down ← get shutting_down_;
      if negb (it_Valid I input && negb down) then mret (input, imm_micros, cs, Status_OK)
      else
        '(flush, imm) ← get (fun db => (has_imm_ db, imm_ db));
        imm_micros ← (if (flush : bool) then
            imm_start ← now;
            (match imm with Some _ => CompactMemTable | None => mret () end) ;;
            imm_end ← now;
            mret (s64 (imm_micros + (imm_end - imm_start)))
          else mret imm_micros);
        let key := it_key I input in
        let '(c, stop) := ShouldStopBefore ucmp (max_file_size options_) (compaction cs) key in
        let cs := set_compaction cs c in
        '(cs, s) ← (if stop && match builder cs with Some _ => true | None => false end
                    then FinishCompactionOutputFile (it_status I input) cs else mret (cs, Status_OK));
        if negb (ok s) then mret (input, imm_micros, cs, s)
        else
          let '(c, d, drop) := drop_step (compaction cs) (cs_smallest_snapshot cs) d key in
          let cs := set_compaction cs c in
          '(cs, s) ← (if drop then mret (cs, Status_OK) else add_output key (it_value I input) (it_status I input) cs);
          if negb (ok s) then mret (input, imm_micros, cs, s)
          else
            input ← lift (it_Next I input);
            compact_loop I n input d imm_micros cs
  end.

(** The part of [DoCompactionWork] that runs without the lock. *)
Definition compact_files (I : IteratorOps) (input : IState I) (cs : CompactionState) : DBM (CompactionState * Z * Status) :=
  input ← lift (it_SeekToFirst I input);
  '(input, imm_micros, cs, s) ← compact_loop I fuel input DropState_new 0 cs;
  down ← get shutting_down_;
  let s := if ok s && down then Status_make kIOError (str:"Delete DB during compaction") [] else s in
  '(cs, s) ← (if ok s && match builder cs with Some _ => true | None => false end
              then FinishCompactionOutputFile (it_status I input) cs else mret (cs, s));
  mret (cs, imm_micros, if ok s then it_status I input else s).

(** The input iterator of a compaction in the world of its start. *)
Definition input_ops (db : DBImpl) : IteratorOps :=
  MergedOps icompare (ChildOps ucmp (AnyOps extend z) (error_iter extend z)
    (tc_NewIterator extend z C dbname_ topts (NewRandomAccessFile E (db_world db)) cache_id (paranoid_checks topts))).

Definition make_input (db : DBImpl) (c : Compaction) : option (CState C * IState (input_ops db)) :=
  MakeInputIterator ucmp (AnyOps extend z) (error_iter extend z)
    (tc_NewIterator extend z C dbname_ topts (NewRandomAccessFile E (db_world db)) cache_id (paranoid_checks topts)) (table_cache_ db) c.

Definition sum_sizes (l : list Z) : Z := fold_left (fun a x => s64 (a + x)) l 0.

(** [DBImpl::DoCompactionWork] *)
Definition DoCompactionWork (cs : CompactionState) : DBM (CompactionState * Status) :=
  start ← now;
  files ← (db ← get (fun db => db); lift (NumLevelFiles E (versions_ db) (c_level (compaction cs))));
  assertion E C (files >? 0) ;;
  assertion E C (match builder cs with None => true | Some _ => false end) ;;
  smallest_snapshot ← oldest_snapshot;
  let cs := mkCompact (compaction cs) smallest_snapshot (outputs cs) (builder cs) (total_bytes cs) in
  '(cs, imm_micros, s) ← (fun db => '(cache, input) ← make_input db (compaction cs); compact_files (input_ops db) input cs (set_table_cache cache db));
  finish ← now;
  let c := compaction cs in
  let stats := mkCStats (s64 (finish - start - imm_micros)) (sum_sizes (map file_size (inputs0 c ++ inputs1 c))) (sum_sizes (map out_file_size (outputs cs))) in
  s ← unless_ok s (InstallCompactionResults cs);
  (if ok s then
     add_stats (c_level c + 1) stats ;;
     modify (fun db => set_perf_counters (RecordMajorCompaction (perf_counters_ db) (c_level c + 1) (u64 (micros stats))
       (u64 (bytes_read stats)) (u64 (bytes_written stats))) db)
   else RecordBackgroundError s) ;;
  mret (cs, s).

(** The file that a compaction moves to the next level. *)
Definition move_file (c : Compaction) : DBM Status :=
  assertion E C (length (inputs0 c) =? 1)%nat ;;
  f ← lift (inputs0 c !! 0%nat);
  let edit := RemoveFile (edit_ c) (Z.of_nat (c_level c)) (number f) in
  s ← log_and_apply (AddFile edit (Z.of_nat (c_level c) + 1) (number f) (file_size f) (smallest f) (largest f));
  (if ok s then modify (fun db => set_perf_counters (RecordTrivialMove (perf_counters_ db) (c_level c + 1)) db)
   else RecordBackgroundError s) ;;
  mret s.

(** What [BackgroundCompaction] does with the compaction it picked. *)
Definition run_compaction (is_manual : bool) (picked : option (Compaction * nat)) : DBM Status :=
  match picked with
  | None => mret Status_OK
  | Some (c, version) =>
      if negb is_manual && IsTrivialMove (max_file_size options_) c then
        s ← move_file c;
        on_versions (fun vs => ReleaseInputs E vs version) ;;
        mret s
      else
        '(cs, s) ← DoCompactionWork (CompactionState_new c);
        (if ok s then mret () else RecordBackgroundError s) ;;
        CleanupCompaction cs ;;
        on_versions (fun vs => ReleaseInputs E vs version) ;;
        RemoveObsoleteFiles ;;
        mret s
  end.

(** [DBImpl::BackgroundCompaction] *)
Definition BackgroundCompaction : DBM () :=
  db ← get (fun db => db);
  match imm_ db with
  | Some _ => CompactMemTable
  | None =>
      if manual_compaction_ db then
        m ← lift (manual_ db);
        '(vs, picked) ← lift (vs_CompactRange E ucmp (max_file_size options_) (versions_ db) garbage (mc_level m) (mc_begin m) (mc_end m));
        modify (set_versions vs) ;;
        let manual_end := match picked with Some (c, _) => largest <$> list.last (inputs0 c) | None => None end in
        s ← run_compaction true picked;
        let finished := match picked with None => true | Some _ => negb (ok s) end in
        modify (set_manual (Some (mkManual (mc_level m) finished (if finished then mc_begin m else manual_end) (mc_end m)))) ;;
        modify (set_manual_compaction false)
      else
        '(vs, picked) ← lift (vs_PickCompaction E ucmp (max_file_size options_) (versions_ db) garbage);
        modify (set_versions vs) ;;
        s ← run_compaction false picked;
        mret ()
  end.

(** [DBImpl::BackgroundCall], which [BGWork] runs once it is scheduled *)
Definition BackgroundCall : DBM () :=
  db ← get (fun db => db);
  (if shutting_down_ db then mret ()
   else if negb (ok (bg_error_ db)) then mret ()
   else BackgroundCompaction) ;;
  modify (set_background_compaction_scheduled false) ;;
  MaybeScheduleCompaction.
End Operations.
