(* ===== verification/DbClient.v ===== *)
(** * The database: its clients

    src/db/db_impl.cc, the operations a client calls: writing ([Write] with
    [MakeRoomForWrite] and [BuildBatchGroup], [Put], [Delete]), reading ([Get],
    [NewIterator], snapshots, approximate sizes), manual compactions and
    [GetProperty].

    A client that waits lets the background thread run: [Wait] is a
    [BackgroundCall] when one is scheduled.  The other writers of the queue are
    those of [writers_]; the leader's part of [Write] completes a group of them. *)

From Stdlib Require Import SpecFloat.
From stdpp Require Import gmap sets sorting.
From S2P Require Import Prelude Slice Coding Crc32c Comparator DbFormat Hash Cache WriteBatch LogFormat LogWriter LogReader Filename.
From S2P Require Import Iterator SkipList Arena MemTable Entries MemIter BlockBuilder Block DbIter Merger Format FilterBlock TableBuilder Table.
From S2P Require Import VersionEdit VersionFiles VersionBuilder DebugText Compaction VersionGet VersionIter TableCache Env Snapshot BuildTable.
From S2P Require Import DbOptions VersionSet PerfCounters DbState DbImpl.

Section Operations.
Context (E : Env) (NowMicros : World E -> Z) (extend : Z -> bytes -> Z) (z : Compression) (C : CacheOps TableAndFile).
Context (new_chars : list region -> Z -> Z) (ucmp : Comparator) (options_ : DBOptions) (dbname_ : bytes) (cache_id : Z).
Context (garbage : bool) (fuel : nat).
Abbreviation icompare := (InternalKeyComparator.Compare ucmp).
Abbreviation topts := (table_options options_).
Abbreviation DBImpl := (DBImpl E C).
Abbreviation DBM := (DBM E C).
Abbreviation MemTable_new := (MemTable_new new_chars).
Abbreviation MaybeScheduleCompaction := (MaybeScheduleCompaction E C).
Abbreviation RecordBackgroundError := (RecordBackgroundError E C).
Abbreviation BackgroundCall := (BackgroundCall E NowMicros extend z C ucmp options_ dbname_ cache_id garbage fuel).
Abbreviation now := (now E NowMicros C).

(** [background_work_finished_signal_.Wait()] *)
Definition Wait : DBM () :=
  scheduled ← get background_compaction_scheduled_;
  if (scheduled : bool) then BackgroundCall else lift None.

(** [while (condition) background_work_finished_signal_.Wait();] *)
Fixpoint wait_while (n : nat) (condition : DBImpl -> bool) : DBM () :=
  match n with
  | O => lift None
  | S n => go_on ← get condition; if (go_on : bool) then Wait ;; wait_while n condition else mret ()
  end.

(** ** Writing *)

(** [DBImpl::BuildBatchGroup]: the batch, whether it is [tmp_batch_], and the
    number of writers it is for. *)
Fixpoint group_loop (first : DbWriter) (max_size : Z) (queue : list DbWriter) (size : Z) (tmp_batch result : bytes) (is_tmp : bool)
    (count : nat) : option (bytes * bool * nat) :=
  match queue with
  | [] => Some (result, is_tmp, count)
  | w :: queue =>
      if wr_sync w && negb (wr_sync first) then Some (result, is_tmp, count)
      else
        match wr_batch w with
        | Some batch =>
            let size := u64 (size + zlen batch) in
            if size >? max_size then Some (result, is_tmp, count)
            else
              result ← (if is_tmp then Some result
                else if Count tmp_batch =? 0 then Some (WriteBatch_Append tmp_batch result) else None);
              group_loop first max_size queue size tmp_batch (WriteBatch_Append result batch) true (S count)
        | None => group_loop first max_size queue size tmp_batch result is_tmp (S count)
        end
  end.

Definition BuildBatchGroup (db : DBImpl) : option (bytes * bool * nat) :=
  match writers_ db with
  | first :: queue =>
      batch ← wr_batch first;
      let size := zlen batch in
      let max_size := if size <=? Z.shiftl 128 10 then u64 (size + Z.shiftl 128 10) else Z.shiftl 1 20 in
      group_loop first max_size queue size (tmp_batch_ db) batch false 1
  | [] => None
  end.

(** Switching to a new log and a new memtable; a status stops the loop. *)
Definition switch_memtable : DBM (option Status) :=
  prev ← get (fun db => vs_prev_log_number (versions_ db));
  assertion E C (prev =? 0) ;;
  n ← new_file_number E C;
  w ← get db_world;
  fname ← lift (LogFileName dbname_ n);
  let '(w, s, lfile) := NewWritableFile E w fname in
  modify (set_db_world w) ;;
  if negb (ok s) then on_versions E C (fun vs => ReuseFileNumber E vs n) ;; mret (Some s)
  else
    lfile ← lift lfile;
    old ← (db ← get (fun db => db); lift (log_ db));
    let '(f, s) := Close E (dest_ old) in
    (if ok s then mret () else RecordBackgroundError s) ;;
    modify (fun db => set_db_world (delete_file E (db_world db) f) db) ;;
    modify (fun db => set_logfile_number n (set_log (Some (Writer_new extend lfile)) db)) ;;
    modify (fun db => set_has_imm true (set_imm (mem_ db) db)) ;;
    modify (set_mem (Some MemTable_new)) ;;
    MaybeScheduleCompaction ;;
    mret None.

Definition stalled (type : WriteStallType) (m : DBM ()) : DBM () :=
  start ← now;
  m ;;
  finish ← now;
  modify (fun db => set_perf_counters (RecordWriteStall (perf_counters_ db) type (u64 (finish - start))) db).

(** [DBImpl::MakeRoomForWrite] *)
Fixpoint MakeRoom_loop (n : nat) (force allow_delay : bool) : DBM Status :=
  match n with
  | O => lift None
  | S n =>
      db ← get (fun db => db);
      if negb (ok (bg_error_ db)) then mret (bg_error_ db)
      else
      l0 ← lift (NumLevelFiles E (versions_ db) 0);
      mem ← lift (mem_ db);
      if allow_delay && (l0 >=? kL0_SlowdownWritesTrigger) then
        stalled kL0Slowdown (mret ()) ;; MakeRoom_loop n force false
      else if negb force && (ApproximateMemoeyUsage mem <=? write_buffer_size options_) then mret Status_OK
      else match imm_ db with
      | Some _ => stalled kImmutableMemtableWait Wait ;; MakeRoom_loop n force allow_delay
      | None =>
          if l0 >=? kL0_SlowdownWritesTrigger then
            stalled (if l0 >=? kL0_StopWritesTrigger then kL0Stop else kL0Slowdown) Wait ;; MakeRoom_loop n force allow_delay
          else
            r ← switch_memtable;
            match r with Some s => mret s | None => MakeRoom_loop n false allow_delay end
      end
  end.
Definition MakeRoomForWrite (force : bool) : DBM Status := MakeRoom_loop fuel force (negb force).

(** The log and the memtable get the group's batch. *)
Definition log_and_insert (batch : bytes) (sync : bool) : DBM Status :=
  log ← (db ← get (fun db => db); lift (log_ db));
  let '(log, s) := AddRecord extend log batch in
  let '(log, s, sync_error) :=
    if ok s && sync then
      let '(f, s) := Sync E (dest_ log) in (mkWriter f (block_offset_ log) (type_crc_ log), s, negb (ok s))
    else (log, s, false) in
  modify (set_log (Some log)) ;;
  s ← unless_ok s (
    mem ← (db ← get (fun db => db); lift (mem_ db));
    let '(mem, s) := InsertInto (add_to new_chars ucmp) batch (Some mem) in
    mem ← lift mem;
    modify (set_mem (Some mem)) ;; mret s);
  (if sync_error then RecordBackgroundError s else mret ()) ;;
  mret s.

(** The end of [Write]: the group leaves the queue with the leader's status. *)
Definition finish_group (count : nat) (s : Status) : DBM () :=
  modify (fun db => set_finished (finished_ db ++ map (fun w => (wr_id w, s)) (take count (writers_ db))) (set_writers (drop count (writers_ db)) db)).

(** [DBImpl::Write] once the writer is at the front of the queue. *)
Definition Write_leader : DBM Status :=
  w ← (db ← get (fun db => db); lift (writers_ db !! 0%nat));
  s ← MakeRoomForWrite (match wr_batch w with None => true | Some _ => false end);
  last_sequence ← get (fun db => vs_last_sequence (versions_ db));
  '(count, s) ← (match ok s, wr_batch w with
    | true, Some _ =>
        '(batch, is_tmp, count) ← (db ← get (fun db => db); lift (BuildBatchGroup db));
        let batch := SetSequence batch (u64 (last_sequence + 1)) in
        s ← log_and_insert batch (wr_sync w);
        modify (fun db => if (is_tmp : bool) then set_tmp_batch WriteBatch_Clear db else db) ;;
        try_versions E C (fun vs => vs_SetLastSequence E vs (u64 (last_sequence + Count batch))) ;;
        mret (count, s)
    | _, _ => mret (1%nat, s)
    end);
  finish_group count s ;;
  mret s.

(** [DBImpl::Write] of a client that finds the queue empty. *)
Definition Write (options : WriteOptions) (updates : option bytes) : DBM Status :=
  modify (fun db => set_writers (writers_ db ++ [mkDbWriter (length (finished_ db)) updates (wo_sync options)]) db) ;;
  Write_leader.

(** [DB::Put], [DB::Delete] *)
Definition Put (options : WriteOptions) (key value : bytes) : DBM Status := Write options (Some (WriteBatch_Put WriteBatch_Clear key value)).
Definition Delete (options : WriteOptions) (key : bytes) : DBM Status := Write options (Some (WriteBatch_Delete WriteBatch_Clear key)).
(** ** Reading *)

(** The sequence number of a read. *)
Definition read_sequence (options : ReadOptions) (db : DBImpl) : option Z :=
  match snapshot options with
  | Some a => sequence_number (snapshots_ db) a
  | None => Some (vs_last_sequence (versions_ db))
  end.

(** Looking a key up in the version, and counting the seek. *)
Definition get_from_version (options : ReadOptions) (lkey : LookupKey) : DBM (Status * option bytes) :=
  db ← get (fun db => db);
  v ← lift (current (versions_ db));
  '(cache, s, value, stats) ← lift (Version_Get ucmp
    (TableCache_Get extend z C dbname_ topts (NewRandomAccessFile E (db_world db)) cache_id (verify_checksums options))
    v (table_cache_ db) lkey);
  let '(v, seeks, schedule) := UpdateStats v (seeks_ db) stats in
  modify (fun db => set_table_cache cache (set_seeks seeks
    (set_versions (set_version E (versions_ db) (vs_current (versions_ db)) v) db))) ;;
  (if schedule then MaybeScheduleCompaction else mret ()) ;;
  mret (s, value).

(** [DBImpl::Get] *)
Definition Get (options : ReadOptions) (key : bytes) : DBM (Status * option bytes) :=
  db ← get (fun db => db);
  s ← lift (read_sequence options db);
  id ← get (fun db => vs_current (versions_ db));
  on_versions E C (fun vs => Version_Ref E vs id) ;;
  mem ← lift (mem_ db);
  let lkey := LookupKey_new key s in
  found ← lift (MemTable_Get ucmp mem lkey);
  found ← (match found, imm_ db with
           | GetAbsent, Some imm => lift (MemTable_Get ucmp imm lkey)
           | _, _ => mret found
           end);
  r ← (match found with
       | GetValue value => mret (Status_OK, Some value)
       | GetDeleted s => mret (s, None)
       | GetAbsent => get_from_version options lkey
       end);
  on_versions E C (fun vs => Version_Unref E vs id) ;;
  mret r.

(** [DBImpl::NewInternalIterator]: the iterator lives in the world of its
    creation; the identity of the version goes to [CleanupIteratorState]. *)
Definition internal_ops (verify : bool) (db : DBImpl) : IteratorOps :=
  MergedOps icompare (ChildOps ucmp (AnyOps extend z) (error_iter extend z)
    (tc_NewIterator extend z C dbname_ topts (NewRandomAccessFile E (db_world db)) cache_id verify)).

Definition NewInternalIterator (options : ReadOptions) (db : DBImpl)
    : option (DBImpl * IState (internal_ops (verify_checksums options) db) * nat * Z * Z) :=
  mem ← mem_ db;
  v ← current (versions_ db);
  '(cache, it) ← merge_internal ucmp (AnyOps extend z) (error_iter extend z)
    (tc_NewIterator extend z C dbname_ topts (NewRandomAccessFile E (db_world db)) cache_id (verify_checksums options))
    mem (imm_ db) v (table_cache_ db);
  let id := vs_current (versions_ db) in
  let seed := u32 (seed_ db + 1) in
  Some (set_table_cache cache (set_seed seed (set_versions (Version_Ref E (versions_ db) id) db)), it, id,
        vs_last_sequence (versions_ db), seed).

(** [CleanupIteratorState] *)
Definition CleanupIteratorState (version : nat) : DBM () := on_versions E C (fun vs => Version_Unref E vs version).

(** [DBImpl::NewIterator]: also the sequence number the iterator reads at. *)
Definition NewIterator (options : ReadOptions) (db : DBImpl)
    : option (DBImpl * DBIter (internal_ops (verify_checksums options) db) * nat * Z) :=
  '(db', it, version, latest_snapshot, seed) ← NewInternalIterator options db;
  s ← (match snapshot options with Some a => sequence_number (snapshots_ db) a | None => Some latest_snapshot end);
  Some (db', NewDBIterator (internal_ops (verify_checksums options) db) it seed, version, s).

(** [DBImpl::RecordReadSample] *)
Definition db_RecordReadSample (key : bytes) : DBM () :=
  db ← get (fun db => db);
  v ← lift (current (versions_ db));
  '(v, seeks, schedule) ← lift (RecordReadSample ucmp v (seeks_ db) key);
  modify (fun db => set_seeks seeks (set_versions (set_version E (versions_ db) (vs_current (versions_ db)) v) db)) ;;
  if (schedule : bool) then MaybeScheduleCompaction else mret ().

(** [DBImpl::GetSnapshot], [DBImpl::ReleaseSnapshot] *)
Definition GetSnapshot : DBM Z :=
  db ← get (fun db => db);
  '(h, a) ← lift (Snapshot.New (snapshots_ db) (vs_last_sequence (versions_ db)));
  modify (set_snapshots h) ;; mret a.
Definition ReleaseSnapshot (snapshot : Z) : DBM () :=
  db ← get (fun db => db);
  h ← lift (Snapshot.Delete (snapshots_ db) snapshot);
  modify (set_snapshots h).

(** [DBImpl::GetApproximateSizes], one range *)
Definition open_table (w : World E) (cache : CState C) (number size : Z) : option (CState C * option Table) :=
  '(cache, _, handle, t) ← TableCache_NewIterator extend z C dbname_ topts (NewRandomAccessFile E w) cache_id false cache number size;
  Some (match handle with Some h => UnrefEntry C cache h | None => cache end, t).
Definition GetApproximateSize (range : bytes * bytes) : DBM Z :=
  db ← get (fun db => db);
  v ← lift (current (versions_ db));
  let k1 := InternalKey (fst range) kMaxSequenceNumber kValueTypeForSeek in
  let k2 := InternalKey (snd range) kMaxSequenceNumber kValueTypeForSeek in
  '(cache, start) ← lift (vs_ApproximateOffsetOf ucmp (open_table (db_world db)) (table_cache_ db) v k1);
  '(cache, limit) ← lift (vs_ApproximateOffsetOf ucmp (open_table (db_world db)) cache v k2);
  modify (set_table_cache cache) ;;
  mret (if limit >? start then limit - start else 0).
Fixpoint GetApproximateSizes (ranges : list (bytes * bytes)) : DBM (list Z) :=
  match ranges with
  | [] => mret []
  | r :: ranges => n ← GetApproximateSize r; ns ← GetApproximateSizes ranges; mret (n :: ns)
  end.

(** ** Manual compactions *)

(** [DBImpl::TEST_CompactMemTable] *)
Definition TEST_CompactMemTable : DBM Status :=
  s ← Write (mkWriteOptions false) None;
  unless_ok s (
    wait_while fuel (fun db => match imm_ db with Some _ => ok (bg_error_ db) && negb (shutting_down_ db) | None => false end) ;;
    get (fun db => match imm_ db with Some _ => bg_error_ db | None => Status_OK end)).

(** The first loop of [DBImpl::TEST_CompactRange]. *)
Fixpoint manual_loop (n : nat) : DBM () :=
  match n with
  | O => lift None
  | S n =>
      db ← get (fun db => db);
      m ← lift (manual_ db);
      if negb (mc_done m) && negb (shutting_down_ db) && ok (bg_error_ db) then
        (if manual_compaction_ db then Wait else modify (set_manual_compaction true) ;; MaybeScheduleCompaction) ;;
        manual_loop n
      else mret ()
  end.

(** [DBImpl::TEST_CompactRange] *)
Definition TEST_CompactRange (level : nat) (begin_ end_ : option bytes) : DBM () :=
  let begin_ := (fun u => InternalKey u kMaxSequenceNumber kValueTypeForSeek) <$> begin_ in
  let end_ := (fun u => InternalKey u 0 kTypeDeletion) <$> end_ in
  modify (set_manual (Some (mkManual level false begin_ end_))) ;;
  manual_loop fuel ;;
  wait_while fuel background_compaction_scheduled_ ;;
  modify (set_manual_compaction false) ;;
  modify (set_manual None).

(** [DBImpl::CompactRange] *)
Fixpoint max_level (v : Version) (levels : list nat) (begin_ end_ : option bytes) (r : nat) : option nat :=
  match levels with
  | [] => Some r
  | level :: levels => overlap ← OverlapInLevel ucmp v level begin_ end_; max_level v levels begin_ end_ (if (overlap : bool) then level else r)
  end.
Fixpoint compact_levels (levels : list nat) (begin_ end_ : option bytes) : DBM () :=
  match levels with
  | [] => mret ()
  | level :: levels => TEST_CompactRange level begin_ end_ ;; compact_levels levels begin_ end_
  end.
Definition DB_CompactRange (begin_ end_ : option bytes) : DBM () :=
  db ← get (fun db => db);
  max_level_with_files ← lift (v ← current (versions_ db); max_level v (seq 1 (kNumLevels - 1)) begin_ end_ 1);
  s ← TEST_CompactMemTable;
  compact_levels (seq 0 max_level_with_files) begin_ end_.
(** ** Properties of the database *)

(** [AppendUint64Property], [AppendTimedEventProperties] *)
Definition AppendUint64Property (output key : bytes) (value : Z) : bytes := output ++ key ++ str:"=" ++ decimal value ++ [Byte.x0a].
Definition AppendTimedEventProperties (output prefix : bytes) (t : TimedEventSnapshot) : bytes :=
  let output := AppendUint64Property output (prefix ++ str:"_count") (ts_count t) in
  let output := AppendUint64Property output (prefix ++ str:"_total_micros") (ts_total_micros t) in
  AppendUint64Property output (prefix ++ str:"_max_micros") (ts_max_micros t).

(** The text of [rocketdb.perf-stats]. *)
Definition perf_stats (p : DBPerfCounters) : option bytes :=
  let value := AppendUint64Property [] (str:"version") 1 in
  let flush := FlushSnapshot p in
  let value := AppendUint64Property value (str:"flush_count") (ts_count (fs_time flush)) in
  let value := AppendUint64Property value (str:"flush_total_micros") (ts_total_micros (fs_time flush)) in
  let value := AppendUint64Property value (str:"flush_max_micros") (ts_max_micros (fs_time flush)) in
  let value := AppendUint64Property value (str:"flush_bytes_written") (fs_bytes_written flush) in
  value ← fold_left (fun acc level =>
    value ← acc;
    let key name := name ++ decimal (Z.of_nat level) in
    n ← fs_count_by_output_level flush !! level;
    let value := AppendUint64Property value (key (str:"flush_count_by_output_level.")) n in
    major ← MajorCompactionSnapshot p level;
    let value := AppendUint64Property value (key (str:"major_compaction_count.")) (ts_count (ms_time major)) in
    let value := AppendUint64Property value (key (str:"major_compaction_total_micros.")) (ts_total_micros (ms_time major)) in
    let value := AppendUint64Property value (key (str:"major_compaction_max_micros.")) (ts_max_micros (ms_time major)) in
    let value := AppendUint64Property value (key (str:"major_compaction_bytes_read.")) (ms_bytes_read major) in
    let value := AppendUint64Property value (key (str:"major_compaction_bytes_written.")) (ms_bytes_written major) in
    moves ← TrivialMoveCount p level;
    Some (AppendUint64Property value (key (str:"trivial_move_count.")) moves)) (seq 0 kNumLevels) (Some value);
  let value := AppendTimedEventProperties value (str:"immutable_memtable_wait") (WriteStallSnapshot p kImmutableMemtableWait) in
  let value := AppendTimedEventProperties value (str:"l0_slowdown") (WriteStallSnapshot p kL0Slowdown) in
  Some (AppendTimedEventProperties value (str:"l0_stop") (WriteStallSnapshot p kL0Stop)).

(** [DBImpl::GetProperty]: what it returns, and the value.  The table of
    [rocketdb.stats], which [printf] formats from doubles, and the block cache are
    parameters. *)
Definition GetProperty (stats_table : DBImpl -> bytes) (cache_stats : option (Z * Z)) (total_charge : Z) (property : bytes) (db : DBImpl)
    : option (bool * bytes) :=
  let prefix := str:"rocketdb." in
  if negb (starts_with property prefix) then Some (false, [])
  else
    in_ ← remove_prefix (length prefix) property;
    if starts_with in_ (str:"num-files-at-level") then
      in_ ← remove_prefix (length (str:"num-files-at-level")) in_;
      match ConsumeDecimalNumber in_ with
      | Some (level, []) =>
          if level >=? Z.of_nat kNumLevels then Some (false, [])
          else n ← NumLevelFiles E (versions_ db) (Z.to_nat level); Some (true, signed_decimal (s32 n))
      | _ => Some (false, [])
      end
    else if Slice_eqb in_ (str:"stats") then Some (true, stats_table db)
    else if Slice_eqb in_ (str:"perf-stats") then value ← perf_stats (perf_counters_ db); Some (true, value)
    else if Slice_eqb in_ (str:"block-cache-stats") then
      let value := AppendUint64Property [] (str:"version") 1 in
      Some (true, match cache_stats with
        | Some (hit, miss) =>
            let value := AppendUint64Property value (str:"supported") 1 in
            let value := AppendUint64Property value (str:"block_cache_hit") hit in
            AppendUint64Property value (str:"block_cache_miss") miss
        | None => AppendUint64Property value (str:"supported") 0
        end)
    else if Slice_eqb in_ (str:"sstables") then v ← current (versions_ db); Some (false, Version_DebugString v)
    else if Slice_eqb in_ (str:"approximate-memory-usage") then
      let usage m := match m with Some m => ApproximateMemoeyUsage m | None => 0 end in
      Some (true, decimal (u64 (total_charge + usage (mem_ db) + usage (imm_ db))))
    else Some (false, []).
End Operations.
