(* ===== verification/DbOpen.v ===== *)
(** * The database: opening, recovering, closing

    src/db/db_impl.cc: [NewDB], [RecoverLogFile], [Recover], [DB::Open],
    [DBImpl::~DBImpl] and [DestroyDB]. *)

From Stdlib Require Import SpecFloat.
From stdpp Require Import gmap sets sorting.
From S2P Require Import Prelude Slice Coding Crc32c Comparator DbFormat Hash Cache WriteBatch LogFormat LogWriter LogReader Filename.
From S2P Require Import Iterator SkipList Arena MemTable Entries MemIter BlockBuilder Block DbIter Merger Format FilterBlock TableBuilder Table.
From S2P Require Import VersionEdit VersionFiles VersionBuilder Compaction VersionGet VersionIter TableCache Env Snapshot BuildTable.
From S2P Require Import DbOptions VersionSet PerfCounters DbState DbImpl DbClient.

Section Operations.
Context (E : Env) (NowMicros : World E -> Z) (extend : Z -> bytes -> Z) (z : Compression) (C : CacheOps TableAndFile).
Context (new_chars : list region -> Z -> Z) (ucmp : Comparator) (options_ : DBOptions) (dbname_ : bytes) (cache_id : Z).
Context (garbage : bool) (fuel : nat).
Abbreviation topts := (table_options options_).
Abbreviation DBImpl := (DBImpl E C).
Abbreviation DBM := (DBM E C).
Abbreviation MemTable_new := (MemTable_new new_chars).
Abbreviation MaybeIgnoreError := (MaybeIgnoreError options_).
Abbreviation WriteLevel0Table := (WriteLevel0Table E extend z C ucmp options_ dbname_ cache_id fuel).

(** [DBImpl::DBImpl]: [log_] is not initialized, which is [None] here like a
    file that is not open; see [DBImpl_delete]. *)
Definition DBImpl_new (w : World E) (table_cache : CState C) : DBImpl :=
  mkDB w table_cache false false None None false None 0 0 [] [] WriteBatch_Clear SnapshotList_new ∅ false None false
    (VersionSet_new E) ∅ Status_OK (replicate kNumLevels CompactionStats_new) DBPerfCounters_new.

(** [DBImpl::NewDB] *)
Definition new_db_edit : VersionEdit :=
  SetLastSequence (SetNextFile (SetLogNumber (SetComparatorName (VersionEdit_new garbage) (Comparator_Name ucmp)) 0) 2) 0.
Definition NewDB (w : World E) : option (World E * Status) :=
  manifest ← DescriptorFileName dbname_ 1;
  let '(w, s, file) := NewWritableFile E w manifest in
  if negb (ok s) then Some (w, s)
  else
    file ← file;
    let '(log, s) := AddRecord extend (Writer_new extend file) (VersionEdit_EncodeTo new_db_edit []) in
    let '(file, s) := if ok s then Sync E (dest_ log) else (dest_ log, s) in
    let '(file, s) := if ok s then Close E file else (file, s) in
    let w := delete_file E w file in
    if ok s then SetCurrentFile E w dbname_ 1 else Some (fst (env_RemoveFile E w manifest), s).

(** The locals of [RecoverLogFile]'s loop, with the database. *)
Record LogRecovery := mkLogRecovery {
  lr_db : DBImpl; lr_status : Status; lr_mem : option MemTable; lr_compactions : Z; lr_save_manifest : bool;
  lr_edit : VersionEdit; lr_max_sequence : Z }.

(** [LogReporter::Corruption]: the status is a null pointer unless the checks are
    paranoid. *)
Definition log_report (st : LogRecovery) (s : Status) : LogRecovery :=
  if paranoid_checks topts && ok (lr_status st)
  then mkLogRecovery (lr_db st) s (lr_mem st) (lr_compactions st) (lr_save_manifest st) (lr_edit st) (lr_max_sequence st)
  else st.

(** Flushing the recovered memtable to level 0. *)
Definition flush_recovered (mem : MemTable) (edit : VersionEdit) : DBM (VersionEdit * Status) :=
  start ← now E NowMicros C;
  '(edit, result, s) ← WriteLevel0Table mem edit None None;
  finish ← now E NowMicros C;
  add_stats E C (output_level result) (mkCStats (s64 (finish - start)) 0 (s64 (fr_bytes_written result))) ;;
  mret (edit, s).

(** The loop's body; it is left on an error. *)
Definition recover_batch (st : LogRecovery) (record : bytes) : option (LogRecovery * bool) :=
  if negb (ok (lr_status st)) then Some (st, false)
  else if zlen record <? 12 then Some (log_report st (Corruption (str:"log record too small")), true)
  else
    batch ← SetContents record;
    let mem := match lr_mem st with Some mem => mem | None => MemTable_new end in
    let '(mem, s) := InsertInto (add_to new_chars ucmp) batch (Some mem) in
    mem ← mem;
    let s := MaybeIgnoreError s in
    if negb (ok s) then
      Some (mkLogRecovery (lr_db st) s (Some mem) (lr_compactions st) (lr_save_manifest st) (lr_edit st) (lr_max_sequence st), false)
    else
      let last_seq := u64 (Sequence batch + Count batch - 1) in
      let max_sequence := if last_seq >? lr_max_sequence st then last_seq else lr_max_sequence st in
      if ApproximateMemoeyUsage mem >? write_buffer_size options_ then
        '(db, (edit, s)) ← flush_recovered mem (lr_edit st) (lr_db st);
        Some (mkLogRecovery db s None (lr_compactions st + 1) true edit max_sequence, ok s)
      else Some (mkLogRecovery (lr_db st) s (Some mem) (lr_compactions st) (lr_save_manifest st) (lr_edit st) max_sequence, true).

(** Going on with the last log file, if that is asked for.  [logfile_] is the
    file of [log_], so two of the three assertions are one. *)
Definition reuse_log (log_number : Z) (fname : bytes) (last_log : bool) (st : LogRecovery) : option LogRecovery :=
  if ok (lr_status st) && reuse_logs options_ && last_log && (lr_compactions st =? 0) then
    let db := lr_db st in
    if match log_ db, mem_ db with None, None => false | _, _ => true end then None else
    let '(s, lfile_size) := GetFileSize E (db_world db) fname in
    if negb (ok s) then Some st
    else
      let '(w, s, file) := NewAppendableFile E (db_world db) fname in
      let db := set_db_world w db in
      if negb (ok s) then
        Some (mkLogRecovery db (lr_status st) (lr_mem st) (lr_compactions st) (lr_save_manifest st) (lr_edit st) (lr_max_sequence st))
      else
        file ← file;
        let db := set_log (Some (Writer_new_at extend file lfile_size)) (set_logfile_number log_number db) in
        let db := set_mem (Some (match lr_mem st with Some mem => mem | None => MemTable_new end)) db in
        Some (mkLogRecovery db (lr_status st) None (lr_compactions st) (lr_save_manifest st) (lr_edit st) (lr_max_sequence st))
  else Some st.

(** [DBImpl::RecoverLogFile] *)
Definition RecoverLogFile (log_number : Z) (last_log save_manifest : bool) (edit : VersionEdit) (max_sequence : Z)
    : DBM (bool * VersionEdit * Z * Status) := fun db =>
  fname ← LogFileName dbname_ log_number;
  let '(s, file) := NewSequentialFile E (db_world db) fname in
  if negb (ok s) then Some (db, (save_manifest, edit, max_sequence, MaybeIgnoreError s))
  else
    file ← file;
    '(_, st) ← read_loop extend log_report recover_batch fuel fuel (Reader_new file true true 0)
      (mkLogRecovery db Status_OK None 0 save_manifest edit max_sequence);
    st ← reuse_log log_number fname last_log st;
    match lr_mem st with
    | Some mem =>
        if ok (lr_status st) then
          '(db, (edit, s)) ← flush_recovered mem (lr_edit st) (lr_db st);
          Some (db, (true, edit, lr_max_sequence st, s))
        else Some (lr_db st, (lr_save_manifest st, lr_edit st, lr_max_sequence st, lr_status st))
    | None => Some (lr_db st, (lr_save_manifest st, lr_edit st, lr_max_sequence st, lr_status st))
    end.

(** The logs to recover, in order, and the table files that are missing. *)
Definition logs_to_recover (filenames : list bytes) (min_log prev_log : Z) : list Z :=
  merge_sort Z.le (omap (fun filename =>
    match ParseFileName filename with
    | Some (number, kLogFile) => if (min_log <=? number) || (number =? prev_log) then Some number else None
    | _ => None
    end) filenames).
Definition missing_files (filenames : list bytes) (expected : gset Z) : gset Z :=
  fold_left (fun expected filename =>
    match ParseFileName filename with Some (number, _) => expected ∖ {[number]} | None => expected end) filenames expected.

Fixpoint recover_logs (logs : list Z) (save_manifest : bool) (edit : VersionEdit) (max_sequence : Z)
    : DBM (bool * VersionEdit * Z * Status) :=
  match logs with
  | [] => mret (save_manifest, edit, max_sequence, Status_OK)
  | n :: logs =>
      '(save_manifest, edit, max_sequence, s) ← RecoverLogFile n (match logs with [] => true | _ => false end) save_manifest edit max_sequence;
      if negb (ok s) then mret (save_manifest, edit, max_sequence, s)
      else on_versions E C (fun vs => MarkFileNumberUsed E vs n) ;; recover_logs logs save_manifest edit max_sequence
  end.

(** The part of [DBImpl::Recover] after the version set is recovered. *)
Definition recover_from_logs (edit : VersionEdit) (save_manifest : bool) : DBM (VersionEdit * bool * Status) :=
  db ← get (fun db => db);
  let '(s, filenames) := GetChildren E (db_world db) dbname_ in
  if negb (ok s) then mret (edit, save_manifest, s)
  else
    let missing := missing_files filenames (AddLiveFiles E (versions_ db) ∅) in
    match merge_sort Z.le (elements missing) with
    | first :: _ as l =>
        name ← lift (TableFileName dbname_ first);
        mret (edit, save_manifest, Corruption2 (signed_decimal (s32 (zlen l)) ++ str:" missing files; e.g.") name)
    | [] =>
        let logs := logs_to_recover filenames (vs_log_number (versions_ db)) (vs_prev_log_number (versions_ db)) in
        '(save_manifest, edit, max_sequence, s) ← recover_logs logs save_manifest edit 0;
        if negb (ok s) then mret (edit, save_manifest, s)
        else
          try_versions E C (fun vs => if vs_last_sequence vs <? max_sequence then vs_SetLastSequence E vs max_sequence else Some vs) ;;
          mret (edit, save_manifest, Status_OK)
    end.

(** [DBImpl::Recover] *)
Definition DBImpl_Recover (edit : VersionEdit) : DBM (VersionEdit * bool * Status) :=
  w ← get db_world;
  let w := fst (CreateDir E w dbname_) in
  locked ← get db_lock_;
  assertion E C (negb locked) ;;
  let '(w, s) := LockFile E w (LockFileName dbname_) in
  modify (set_db_world w) ;;
  if negb (ok s) then mret (edit, false, s)
  else
    modify (set_db_lock true) ;;
    '(w, s) ← lift (if negb (FileExists E w (CurrentFileName dbname_)) then
        if create_if_missing options_ then NewDB w
        else Some (w, Status_make kInvalidArgument dbname_ (str:"dose not exist (create_if_missing is false)"))
      else if error_if_exists options_ then Some (w, Status_make kInvalidArgument dbname_ (str:"exists (error_if_exists is true)"))
      else Some (w, Status_OK));
    modify (set_db_world w) ;;
    if negb (ok s) then mret (edit, false, s)
    else
      vs ← get versions_;
      '(w, vs, s, save_manifest) ← lift (VersionSet.Recover E extend ucmp dbname_ (max_file_size options_) (reuse_logs options_)
        fuel fuel w vs garbage);
      modify (fun db => set_db_world w (set_versions vs db)) ;;
      if negb (ok s) then mret (edit, save_manifest, s) else recover_from_logs edit save_manifest.

(** A log and a memtable for a database that has none yet. *)
Definition open_log (edit : VersionEdit) : DBM (VersionEdit * Status) :=
  n ← new_file_number E C;
  w ← get db_world;
  fname ← lift (LogFileName dbname_ n);
  let '(w, s, lfile) := NewWritableFile E w fname in
  modify (set_db_world w) ;;
  if ok s then
    lfile ← lift lfile;
    modify (fun db => set_mem (Some MemTable_new) (set_log (Some (Writer_new extend lfile)) (set_logfile_number n db))) ;;
    mret (SetLogNumber edit n, s)
  else mret (edit, s).

(** [DB::Open], before an [impl] that failed is deleted *)
Definition open_impl : DBM Status :=
  '(edit, save_manifest, s) ← DBImpl_Recover (VersionEdit_new garbage);
  mem ← get mem_;
  '(edit, s) ← (match ok s, mem with true, None => open_log edit | _, _ => mret (edit, s) end);
  n ← get logfile_number_;
  s ← (if ok s && save_manifest then log_and_apply E extend C ucmp dbname_ garbage (SetLogNumber (SetPrevLogNumber edit 0) n) else mret s);
  (if ok s then RemoveObsoleteFiles E C dbname_ ;; MaybeScheduleCompaction E C else mret ()) ;;
  mem ← get mem_;
  assertion E C (negb (ok s) || match mem with Some _ => true | None => false end) ;;
  mret s.

(** [DBImpl::~DBImpl].  Deleting a [log_] that was never set is undefined. *)
Definition DBImpl_delete (db : DBImpl) : option (World E) :=
  '(db, _) ← wait_while E NowMicros extend z C ucmp options_ dbname_ cache_id garbage fuel fuel background_compaction_scheduled_
    (set_shutting_down true db);
  let w := if db_lock_ db then fst (UnlockFile E (db_world db) (LockFileName dbname_)) else db_world db in
  let w := match vs_descriptor (versions_ db) with Some log => delete_file E w (dest_ log) | None => w end in
  log ← log_ db;
  Some (delete_file E w (dest_ log)).

(** [DB::Open] *)
Definition Open (w : World E) (table_cache : CState C) : option (World E * Status * option DBImpl) :=
  '(db, s) ← open_impl (DBImpl_new w table_cache);
  if ok s then Some (db_world db, s, Some db)
  else w ← DBImpl_delete db; Some (w, s, None).

(** [DestroyDB] *)
Definition destroy_files (w : World E) (filenames : list bytes) : World E * Status :=
  fold_left (fun r filename =>
    let '(w, result) := r in
    match ParseFileName filename with
    | Some (_, kDBLockFile) | None => (w, result)
    | Some _ =>
        let '(w, del) := env_RemoveFile E w (dbname_ ++ str:"/" ++ filename) in
        (w, if ok result && negb (ok del) then del else result)
    end) filenames (w, Status_OK).
Definition DestroyDB (w : World E) : World E * Status :=
  let '(result, filenames) := GetChildren E w dbname_ in
  if negb (ok result) then (w, Status_OK)
  else
    let lockname := LockFileName dbname_ in
    let '(w, result) := LockFile E w lockname in
    if ok result then
      let '(w, result) := destroy_files w filenames in
      let w := fst (UnlockFile E w lockname) in
      let w := fst (env_RemoveFile E w lockname) in
      (fst (RemoveDir E w dbname_), result)
    else (w, result).
End Operations.
