(* ===== verification/DbFiles.v ===== *)
(** * Which files are deleted

    [RemoveObsoleteFiles] (src/db/db_impl.cc) against what the versions, the
    running compactions and the recovery need: every file of every version that
    is still referenced, the outputs that are being written, the logs and
    manifests from the current ones on, CURRENT and LOCK. *)

From stdpp Require Import gmap sets.
From S2P Require Import Prelude Slice Comparator DbFormat Cache LogFormat Filename Format Table VersionEdit VersionFiles VersionBuilder TableCache Env VersionSet DbState DbImpl DbOpen.

Section Live.
Context {E : Env}.
Implicit Type vs : VersionSet E.

(** A table file that some version in the list has. *)
Definition in_version vs (n : Z) : Prop :=
  exists node l f, node ∈ vs_versions vs /\ (l < kNumLevels)%nat /\ f ∈ level_files (vn_version node) l /\ number f = n.

Lemma insert_numbers (fs : list FileMetaData) (live : gset Z) n :
  n ∈ fold_left (fun live f => {[number f]} ∪ live) fs live <-> n ∈ live \/ exists f, f ∈ fs /\ number f = n.
Proof.
  revert live. induction fs as [|f fs IH]; intros live; cbn [fold_left].
  - split; [by left|]. intros [H|(f & H%not_elem_of_nil & _)]; done.
  - rewrite IH, elem_of_union, elem_of_singleton. split.
    + intros [[->|H]|(g & Hg & E')]; [right; exists f; by split; [left|]|by left|right; exists g; by split; [right|]].
    + intros [H|(g & [->|Hg]%elem_of_cons & E')]; [by left; right|by left; left|right; by exists g].
Qed.

Lemma insert_levels v ls (live : gset Z) n :
  n ∈ fold_left (fun live level => fold_left (fun live f => {[number f]} ∪ live) (level_files v level) live) ls live <->
  n ∈ live \/ exists l f, l ∈ ls /\ f ∈ level_files v l /\ number f = n.
Proof.
  revert live. induction ls as [|l ls IH]; intros live; cbn [fold_left].
  - split; [by left|]. intros [H|(l & f & H%not_elem_of_nil & _)]; done.
  - rewrite IH, insert_numbers. split.
    + intros [[H|(f & Hf & E')]|(l' & f & Hl & H)]; [by left|right; exists l, f; by split; [left|]|right; exists l', f; by split; [right|]].
    + intros [H|(l' & f & [->|Hl]%elem_of_cons & Hf & E')]; [by left; left|left; right; by exists f|right; by exists l', f].
Qed.

Lemma AddLiveFiles_spec vs (live : gset Z) n : n ∈ AddLiveFiles E vs live <-> n ∈ live \/ in_version vs n.
Proof.
  unfold AddLiveFiles, in_version. revert live. induction (vs_versions vs) as [|node nodes IH]; intros live; cbn [fold_left].
  - split; [by left|]. intros [H|(m & l & f & H%not_elem_of_nil & _)]; done.
  - rewrite IH, insert_levels. split.
    + intros [[H|(l & f & Hl%elem_of_seq & H)]|(m & l & f & Hm & H)]; [by left| |right; exists m, l, f; by split; [right|]].
      right. exists node, l, f. split; [by left|]. split; [lia|done].
    + intros [H|(m & l & f & [->|Hm]%elem_of_cons & Hl & H)]; [by left; left| |right; by exists m, l, f].
      left. right. exists l, f. split; [apply elem_of_seq; lia|done].
Qed.

(** What a file of the directory may still be needed for, by its number and its
    type: a log that recovery reads, the current manifest or one that is being
    written, a table of a version or of a running flush or compaction, and the
    files without a number. *)
Definition file_needed vs (pending : gset Z) (n : Z) (type : FileType) : Prop :=
  match type with
  | kLogFile => vs_log_number vs <= n \/ n = vs_prev_log_number vs
  | kDescriptorFile => vs_manifest_file_number vs <= n
  | kTableFile | kTempFile => n ∈ pending \/ in_version vs n
  | kCurrentFile | kDBLockFile | kInfoLogFile => True
  end.

Lemma keep_file_spec vs pending n type :
  keep_file E vs (AddLiveFiles E vs pending) n type = true <-> file_needed vs pending n type.
Proof.
  destruct type; cbn [keep_file file_needed]; rewrite ?bool_decide_eq_true, ?orb_true_iff, ?Z.leb_le, ?Z.eqb_eq, ?AddLiveFiles_spec; tauto.
Qed.

Lemma keep_file_false vs pending n type :
  keep_file E vs (AddLiveFiles E vs pending) n type = false <-> ~ file_needed vs pending n type.
Proof. rewrite <- keep_file_spec. by destruct (keep_file _ _ _ _ _). Qed.
End Live.

Section Correct.
Context (E : Env) (files : World E -> gmap bytes bytes) (wcontents : WFile (env_W E) -> bytes)
  (fname : WFile (env_W E) -> bytes) (rest : SFile (env_F E) -> bytes) `{!EnvLaws E files wcontents fname rest}.
Context (C : CacheOps TableAndFile) (dbname : bytes).
Implicit Types (vs : VersionSet E) (db : DBImpl E C).

(** A file of the directory that is to go. *)
Definition obsolete_name vs (live : gset Z) (x : bytes) : Prop :=
  exists n type, ParseFileName x = Some (n, type) /\ keep_file E vs live n type = false.

Lemma obsolete_files_elem vs live names x n type :
  (x, n, type) ∈ obsolete_files E vs live names <->
  x ∈ names /\ ParseFileName x = Some (n, type) /\ keep_file E vs live n type = false.
Proof using Type.
  unfold obsolete_files. rewrite list_elem_of_omap. split.
  - intros (y & Hy & H). destruct (ParseFileName y) as [[m t]|] eqn:Ep; [|done].
    destruct (keep_file E vs live m t) eqn:Ek; [done|]. by injection H as -> -> ->.
  - intros (Hx & Ep & Ek). exists x. split; [done|]. by rewrite Ep, Ek.
Qed.

Lemma remove_all (l : list (bytes * Z * FileType)) w p :
  files (fold_left (fun w f => fst (env_RemoveFile E w (dbname ++ str:"/" ++ fst (fst f)))) l w) !! p =
  if decide (p ∈ map (fun f => dbname ++ str:"/" ++ fst (fst f)) l) then None else files w !! p.
Proof using All.
  revert w. induction l as [|f l IH]; intros w; cbn [fold_left map]; [by rewrite decide_False by apply not_elem_of_nil|].
  rewrite IH, remove_spec. destruct (decide (p ∈ map _ l)) as [H|H]; [by rewrite decide_True by (by right)|].
  destruct (decide (dbname ++ str:"/" ++ fst (fst f) = p)) as [<-|Hne].
  - by rewrite lookup_delete_eq, decide_True by (by left).
  - rewrite lookup_delete_ne by done. rewrite decide_False; [done|]. intros [Hx|Hx]%elem_of_cons; done.
Qed.

(** The effect on the world: exactly the obsolete files of the directory go. *)
Lemma RemoveObsoleteFiles_spec db :
  ok (bg_error_ db) = true ->
  let live := AddLiveFiles E (versions_ db) (pending_outputs_ db) in
  exists db', RemoveObsoleteFiles E C dbname db = Some (db', ()) /\
    db' = set_db_world (db_world db') (set_table_cache (table_cache_ db') db) /\
    (forall x, Byte.x2f ∉ x -> obsolete_name (versions_ db) live x -> files (db_world db') !! (dbname ++ str:"/" ++ x) = None) /\
    (forall p, (forall x, p = dbname ++ str:"/" ++ x -> ~ obsolete_name (versions_ db) live x) ->
       files (db_world db') !! p = files (db_world db) !! p).
Proof using All.
  intros Hbg live. unfold RemoveObsoleteFiles. dbm. rewrite Hbg. cbn [negb].
  destruct (children_spec (db_world db) dbname) as (names & -> & Hnames). cbn [snd]. fold live.
  eexists. split; [done|]. cbn [db_world set_db_world table_cache_ set_table_cache]. split; [done|]. split.
  - intros x Hx (n & type & Ep & Ek). rewrite remove_all. destruct (decide _) as [|Hn]; [done|].
    destruct (files (db_world db) !! (dbname ++ str:"/" ++ x)) as [d|] eqn:Ef; [|done]. exfalso. apply Hn.
    apply (list_elem_of_fmap_2 (fun f : bytes * Z * FileType => dbname ++ str:"/" ++ fst (fst f)) _ (x, n, type)).
    apply obsolete_files_elem. split; [|done]. apply Hnames. by rewrite Ef.
  - intros p Hp. rewrite remove_all. apply decide_False. intros ([[x n] type] & -> & Hx)%list_elem_of_fmap.
    apply obsolete_files_elem in Hx as (_ & Ep & Ek). apply (Hp x eq_refl). by exists n, type.
Qed.

(** A name that is kept. *)
Lemma kept_name vs live y n type p :
  p = dbname ++ str:"/" ++ y -> ParseFileName y = Some (n, type) -> keep_file E vs live n type = true ->
  forall x, p = dbname ++ str:"/" ++ x -> ~ obsolete_name vs live x.
Proof using Type.
  intros -> Ep Ek x Hx (m & t & Em & Ek'). apply app_inv_head, app_inv_head in Hx as <-. congruence.
Qed.
End Correct.

(** ** Properties *)

(** C20: exactly the files that are not needed are deleted.  After
    [RemoveObsoleteFiles] every file of the directory that is still needed
    ([file_needed]) is on the disk as it was: every table file of every version
    that is in the list of versions, every output that is being written, the log
    files from the current log number on and the previous one, the manifests from
    the current one on, CURRENT, the lock and the info logs; so is every file that
    is not named like one of the database.  All the other database files of the
    directory are gone: logs below the current number, older manifests, and tables
    and temporary files that nothing refers to.  After a background error nothing
    is deleted.  Nothing of the database changes but the files and the table
    cache. *)
Theorem obsolete_files_deleted (E : Env) files wcontents fname rest (C : CacheOps TableAndFile) (dbname : bytes) (db : DBImpl E C) :
  EnvLaws E files wcontents fname rest ->
  exists db', RemoveObsoleteFiles E C dbname db = Some (db', ()) /\
    db' = set_db_world (db_world db') (set_table_cache (table_cache_ db') db) /\
    (ok (bg_error_ db) = false -> db' = db) /\
    let same p := files (db_world db') !! p = files (db_world db) !! p in
    let gone p := files (db_world db') !! p = None in
    (forall n, 0 <= n < 2 ^ 64 -> n ∈ pending_outputs_ db \/ in_version (versions_ db) n ->
       same (table_name dbname n) /\ same (sst_name dbname n)) /\
    (forall n, 0 <= n < 2 ^ 64 -> vs_log_number (versions_ db) <= n \/ n = vs_prev_log_number (versions_ db) -> same (log_name dbname n)) /\
    (forall n, vs_manifest_file_number (versions_ db) <= n -> 0 <= n < 2 ^ 64 -> same (descriptor_name dbname n)) /\
    same (CurrentFileName dbname) /\ same (LockFileName dbname) /\
    (forall x n type, ParseFileName x = Some (n, type) -> file_needed (versions_ db) (pending_outputs_ db) n type -> same (dbname ++ str:"/" ++ x)) /\
    (forall p, (forall x, p = dbname ++ str:"/" ++ x -> ParseFileName x = None) -> same p) /\
    (ok (bg_error_ db) = true -> forall x n type, Byte.x2f ∉ x -> ParseFileName x = Some (n, type) ->
       ~ file_needed (versions_ db) (pending_outputs_ db) n type -> gone (dbname ++ str:"/" ++ x)).
Proof.
  intros HE. destruct (ok (bg_error_ db)) eqn:Hbg.
  2:{ exists db. unfold RemoveObsoleteFiles. dbm. rewrite Hbg. split; [done|]. split; [by destruct db|]. by repeat split. }
  destruct (RemoveObsoleteFiles_spec E files wcontents fname rest C dbname db Hbg) as (db' & Er & Hdb & Hgone & Hsame).
  exists db'. split; [done|]. split; [done|]. split; [done|]. cbn zeta.
  assert (forall y n type, ParseFileName y = Some (n, type) -> file_needed (versions_ db) (pending_outputs_ db) n type ->
    files (db_world db') !! (dbname ++ str:"/" ++ y) = files (db_world db) !! (dbname ++ str:"/" ++ y)) as Hk.
  { intros y n type Ep Ek%keep_file_spec. apply Hsame. eapply kept_name; done. }
  split; [|split; [|split; [|split; [|split; [|split; [|split]]]]]].
  - intros n Hn Hl. split; [apply (Hk (file_base n (str:"ldb")) n kTableFile)|apply (Hk (file_base n (str:"sst")) n kTableFile)];
      try done; (apply ParseFileName_base; [done|set_solver]).
  - intros n Hn Hl. apply (Hk (file_base n (str:"log")) n kLogFile); [apply ParseFileName_base; [done|set_solver]|done].
  - intros n Hl Hn. apply (Hk (descriptor_base n) n kDescriptorFile); [by apply ParseFileName_descriptor|done].
  - by apply (Hk (str:"CURRENT") 0 kCurrentFile).
  - by apply (Hk (str:"LOCK") 0 kDBLockFile).
  - exact Hk.
  - intros p Hp. apply Hsame. intros y Ey (n & type & Ep & _). rewrite (Hp y Ey) in Ep. done.
  - intros _ x n type Hx Ep Ek%keep_file_false. apply Hgone; [done|]. by exists n, type.
Qed.

(** A directory with two tables, two logs and two manifests, of which one each is
    in use. *)
Definition sample_dir : gmap bytes bytes :=
  list_to_map [(table_name (str:"db") 5, str:"five"); (table_name (str:"db") 4, str:"four"); (log_name (str:"db") 3, str:"log");
    (log_name (str:"db") 1, str:"old"); (descriptor_name (str:"db") 2, str:"m"); (descriptor_name (str:"db") 1, str:"old");
    (CurrentFileName (str:"db"), current_contents 2)].
Definition sample_database : DBImpl MemEnv NewLRUCache :=
  set_versions sample_set (DBImpl_new MemEnv NewLRUCache sample_dir (SharedLRUCache_new 990)).

Lemma obsolete_files_deleted_witness :
  exists db', RemoveObsoleteFiles MemEnv NewLRUCache (str:"db") sample_database = Some (db', ()) /\
    (db_world db' : gmap bytes bytes) !! table_name (str:"db") 5 = Some (str:"five") /\
    (db_world db' : gmap bytes bytes) !! table_name (str:"db") 4 = None /\
    (db_world db' : gmap bytes bytes) !! log_name (str:"db") 1 = None /\
    (db_world db' : gmap bytes bytes) !! descriptor_name (str:"db") 1 = None.
Proof.
  destruct (obsolete_files_deleted MemEnv (fun w => w) snd fst (fun r => r) NewLRUCache (str:"db") sample_database _)
    as (db' & Er & _ & _ & Ht & _ & _ & _ & _ & _ & _ & Hgone).
  exists db'. split; [exact Er|]. split; [|split; [|split]].
  - etransitivity; [apply (Ht 5); [done|]|vm_compute; reflexivity]. right.
    eexists _, 1%nat, (sample_meta_file 5). split; [by left|]. split; [unfold kNumLevels; lia|]. split; [by left|done].
  - apply (Hgone eq_refl (file_base 4 (str:"ldb")) 4 kTableFile); [apply (bool_decide_unpack _); vm_compute; done|vm_compute; reflexivity|].
    apply keep_file_false. vm_compute. reflexivity.
  - apply (Hgone eq_refl (file_base 1 (str:"log")) 1 kLogFile); [apply (bool_decide_unpack _); vm_compute; done|vm_compute; reflexivity|].
    cbn. lia.
  - apply (Hgone eq_refl (descriptor_base 1) 1 kDescriptorFile); [apply (bool_decide_unpack _); vm_compute; done|vm_compute; reflexivity|].
    cbn. lia.
Defined.
