(* ===== verification/DbView.v ===== *)
(** * What a database holds

    The abstract contents of a database, [db_holds]: the entries of the memtable,
    of the immutable memtable and of the tables of the current version, what is
    asked first being newer.  [DBImpl::Get] and [DBImpl::NewIterator]
    (src/db/db_impl.cc) show exactly the newest visible entries of them. *)

From Stdlib Require Import SpecFloat.
From stdpp Require Import gmap sets sorting.
From S2P Require Import Snapshot Prelude Slice Coding Crc32c Comparator DbFormat Hash Cache WriteBatch LogFormat LogWriter Filename.
From S2P Require Import Iterator SkipList Arena MemTable Entries MemIter View Random ReadSampling BlockBuilder Block DbIter Merger Format FilterBlock TableBuilder Table.
From S2P Require Import VersionEdit VersionFiles VersionBuilder Compaction VersionGet VersionIter TableCache Env BuildTable.
From S2P Require Import DbOptions VersionSet PerfCounters DbState DbImpl DbClient DbOpen DbFiles.

Section Holds.
Context (E : Env) (extend : Z -> bytes -> Z) `{!CrcLaws extend} (z : Compression) `{!CompressionLaws z}.
Context (C : CacheOps TableAndFile) (limit : Z)
  (rep : CState C -> (bytes -> option TableAndFile) -> list (CHandle C * TableAndFile) -> Prop) `{!CacheLaws C limit rep}.
Context (ucmp : Comparator) `{!ComparatorLaws ucmp} `{!ExactComparator ucmp} (options_ : DBOptions) (policy : option FilterPolicy)
  (ok_keys : list bytes -> Prop) `{!DbTableOptions ucmp (table_options options_) policy ok_keys}.
Context (dbname : bytes) (cache_id : Z) (contents : Z -> list Entry).
Abbreviation icompare := (InternalKeyComparator.Compare ucmp).
Abbreviation DBImpl := (DBImpl E C).
Implicit Types (db : DBImpl) (es : list Entry) (v : Version) (hs : list (CHandle C * TableAndFile)).

(** The tables of the world [w]. *)
Definition is_table (w : World E) (f : FileMetaData) : Prop :=
  0 <= number f < 2 ^ 64 /\
  table_on_disk extend z ucmp (table_options options_) ok_keys dbname (NewRandomAccessFile E w) contents (number f) (file_size f).

Record db_holds db mem_es imm_es v hs : Prop := {
  dh_mem : exists m, mem_ db = Some m /\ mem_rep ucmp m mem_es;
  dh_imm : match imm_ db with Some m => mem_rep ucmp m imm_es | None => imm_es = [] end;
  dh_versions : versions_ok (versions_ db);
  dh_current : current (versions_ db) = Some v;
  dh_version : version_holds ucmp (is_table (db_world db)) contents v;
  dh_ordered : sources_ordered ucmp (mem_es :: imm_es :: version_sources contents v);
  dh_cache : cache_tables extend z ucmp C rep contents (table_cache_ db) hs;
  dh_limit : zlen hs < limit }.

(** All the entries. *)
Definition db_entries mem_es imm_es v : list Entry := concat (mem_es :: imm_es :: version_sources contents v).

(** A version is what its files are. *)
Lemma version_holds_files w v v' : files_ v' = files_ v -> version_holds ucmp (is_table w) contents v -> version_holds ucmp (is_table w) contents v'.
Proof using Type.
  intros Ef [H1 H2 H3 H4]. assert (forall l, level_files v' l = level_files v l) as El by (intros l; unfold level_files; by rewrite Ef).
  split; intros; unfold version_sources; rewrite ?El; auto.
  unfold version_sources in H4. erewrite (map_ext (fun l => level_entries contents (level_files v' l))); [exact H4|].
  intros l. cbn. by rewrite El.
Qed.

Lemma UpdateStats_files v seeks stats : files_ (fst (fst (UpdateStats v seeks stats))) = files_ v.
Proof using Type. unfold UpdateStats. destruct (seek_file stats) as [f|]; [|done]. by destruct (_ <=? 0), (file_to_compact_ v). Qed.

Lemma version_sources_files v v' : files_ v' = files_ v -> version_sources contents v' = version_sources contents v.
Proof using Type.
  intros Ef. unfold version_sources, level_files. by rewrite Ef.
Qed.

(** Scheduling changes one flag. *)
Lemma MaybeScheduleCompaction_run db :
  versions_ok (versions_ db) -> exists b, MaybeScheduleCompaction E C db = Some (set_background_compaction_scheduled b db, ()).
Proof using Type.
  intros [_ _ _ (v & Hv)]. unfold MaybeScheduleCompaction. dbm.
  assert (set_background_compaction_scheduled (background_compaction_scheduled_ db) db = db) as Hid by (by destruct db).
  destruct (background_compaction_scheduled_ db) eqn:Eb; [exists true; by rewrite Hid|].
  destruct (shutting_down_ db); [exists false; by rewrite Hid|]. destruct (negb _); [exists false; by rewrite Hid|].
  unfold vs_NeedsCompaction. rewrite Hv. cbn [mbind option_bind]. dbm.
  destruct (match imm_ db with Some _ => _ | None => _ end); [exists false; by rewrite Hid|by exists true].
Qed.

(** ** Point reads *)

(** What a read may change: the cache, the statistics of seeks, a flag and the
    counts of references. *)
Definition read_state db db' : Prop :=
  db_world db' = db_world db /\ mem_ db' = mem_ db /\ imm_ db' = imm_ db /\ log_ db' = log_ db /\ snapshots_ db' = snapshots_ db /\
  vs_last_sequence (versions_ db') = vs_last_sequence (versions_ db).

Lemma get_from_version_spec options db mem_es imm_es v hs u s :
  db_holds db mem_es imm_es v hs -> 0 <= s <= kMaxSequenceNumber ->
  exists db' v', get_from_version E extend z C ucmp options_ dbname cache_id options (LookupKey_new u s) db =
      Some (db', match lookup_entry ucmp (concat (version_sources contents v)) u s with
                 | Some value => (Status_OK, Some value) | None => (NotFound [], None) end) /\
    files_ v' = files_ v /\ read_state db db' /\ cache_tables extend z ucmp C rep contents (table_cache_ db') hs /\
    versions_ db' = set_version E (versions_ db) (vs_current (versions_ db)) v'.
Proof using All.
  intros [_ _ Hvs Hv Hver _ Hc Hl] Hs. unfold get_from_version. dbm. rewrite Hv. dbm.
  pose proof (table_cache_reads extend z ucmp (table_options options_) policy ok_keys C limit rep dbname (NewRandomAccessFile E (db_world db))
    cache_id contents hs Hl (verify_checksums options)) as HT.
  destruct (Version_Get_spec ucmp _ _ _ contents u s Hs v (table_cache_ db) Hver Hc) as (cache & stats & Hc' & ->). unfold lookup_entry.
  set (r := match newest ucmp _ u s with Some e => _ | None => _ end).
  assert (exists st val, r = (cache, st, val, stats) /\
    (st, val) = match newest ucmp (concat (version_sources contents v)) u s with
                | Some e => match e_type e with kTypeValue => (Status_OK, Some (e_value e)) | kTypeDeletion => (NotFound [], None) end
                | None => (NotFound [], None) end) as (st & val & -> & Er).
  { unfold r. destruct (newest _ _ _ _) as [e|]; [destruct (e_type e)|]; by do 2 eexists. }
  dbm. destruct (UpdateStats v (seeks_ db) stats) as [[v' seeks] schedule] eqn:Eu. dbm.
  pose proof (UpdateStats_files v (seeks_ db) stats) as Hf. rewrite Eu in Hf. cbn [fst] in Hf.
  set (db1 := set_table_cache cache _).
  assert (exists db', (if schedule then MaybeScheduleCompaction E C else mret ()) db1 = Some (db', ()) /\
    exists b, db' = set_background_compaction_scheduled b db1) as (db' & Es & b & ->).
  { destruct schedule; [|exists db1; split; [done|]; exists (background_compaction_scheduled_ db1); by destruct db1].
    destruct (MaybeScheduleCompaction_run db1) as (b & Eb); [by apply set_version_ok|]. eexists. split; [exact Eb|]. by exists b. }
  erewrite bind_step by exact Es. exists (set_background_compaction_scheduled b db1), v'. split.
  { rewrite ret_run. do 2 f_equal. rewrite Er. destruct (newest _ _ _ _) as [e|]; [destruct (e_type e)|]; done. }
  split; [done|]. by repeat split.
Qed.

(** The end of a read: the reference to the version is dropped. *)
Lemma release_version {A} db mem_es imm_es v hs db2 v' (r : A) :
  let id := vs_current (versions_ db) in
  let db1 := set_versions (Version_Ref E (versions_ db) id) db in
  db_holds db mem_es imm_es v hs ->
  versions_ db2 = set_version E (versions_ db1) id v' -> files_ v' = files_ v ->
  read_state db1 db2 -> cache_tables extend z ucmp C rep contents (table_cache_ db2) hs ->
  exists db' v'', ((modify (fun db => set_versions (Version_Unref E (versions_ db) id) db) ;; mret r) : DBM E C _) db2 = Some (db', r) /\
    files_ v'' = files_ v /\ db_holds db' mem_es imm_es v'' hs /\ read_state db db'.
Proof using Type.
  intros id db1 [(m & Hm & Hrep) Himm Hvs Hv Hver Hord Hc Hl] Hvs2 Hf (R1 & R2 & R3 & R4 & R5 & R6) Hc2. dbm.
  eexists _, v'. split; [done|]. split; [done|].
  destruct (Unref_Ref (versions_ db) id (fun n => mkNode (vn_id n) v' (vn_refs n)) (fun _ => eq_refl) (fun _ => eq_refl) Hvs) as [U1 U2].
  unfold db1 in *. cbn [set_versions versions_ db_world mem_ imm_ table_cache_ log_ snapshots_] in *. rewrite Hvs2. split; [|split; [|by repeat split]].
  - split; cbn [set_versions versions_ db_world mem_ imm_ table_cache_]; rewrite ?R1, ?R2, ?R3, ?Hvs2.
    + by exists m.
    + done.
    + exact U1.
    + etransitivity; [exact U2|]. apply (current_set_version (Version_Ref E (versions_ db) id) v'). by apply Ref_ok.
    + by apply (version_holds_files _ v).
    + by rewrite (version_sources_files v v' Hf).
    + done.
    + done.
  - done.
Qed.

Lemma Get_spec options db mem_es imm_es v hs u s :
  db_holds db mem_es imm_es v hs -> read_sequence E C options db = Some s -> 0 <= s <= kMaxSequenceNumber -> zlen u + 8 < 2 ^ 32 ->
  exists db' v', Get E extend z C ucmp options_ dbname cache_id options u db =
      Some (db', match lookup_entry ucmp (db_entries mem_es imm_es v) u s with
                 | Some value => (Status_OK, Some value) | None => (NotFound [], None) end) /\
    files_ v' = files_ v /\ db_holds db' mem_es imm_es v' hs /\ read_state db db'.
Proof using All.
  intros H Es Hs Hu. pose proof H as [(m & Hm & Hrep) Himm Hvs Hv Hver Hord Hc Hl].
  assert (lookup_entry ucmp (db_entries mem_es imm_es v) u s =
    match newest ucmp mem_es u s with
    | Some e => match e_type e with kTypeValue => Some (e_value e) | kTypeDeletion => None end
    | None => match newest ucmp imm_es u s with
              | Some e => match e_type e with kTypeValue => Some (e_value e) | kTypeDeletion => None end
              | None => lookup_entry ucmp (concat (version_sources contents v)) u s
              end
    end) as ->.
  { unfold lookup_entry, db_entries. rewrite <- (read_sources_newest ucmp) by done. cbn [read_sources].
    destruct (newest ucmp mem_es u s); [done|]. destruct (newest ucmp imm_es u s); [done|].
    rewrite (read_sources_newest ucmp) by apply Hver. done. }
  unfold Get. dbm. rewrite Es. dbm. unfold on_versions. dbm.
  set (id := vs_current (versions_ db)). set (db1 := set_versions (Version_Ref E (versions_ db) id) db).
  rewrite Hm. dbm. rewrite (MemTable_Get_rep ucmp m mem_es u s Hrep Hs Hu). dbm.
  assert (set_version E (versions_ db1) id v = versions_ db1) as Hsame.
  { apply (set_version_current (versions_ db1)); [by apply Ref_ok|by rewrite <- Hv, <- (current_Ref (versions_ db) id)]. }
  pose proof (fun db2 v' (r : Status * option bytes) => release_version db mem_es imm_es v hs db2 v' r H) as Hend. fold id in Hend. fold db1 in Hend.
  assert (db_holds db1 mem_es imm_es v hs) as H1.
  { split; cbn [db1 set_versions versions_ db_world mem_ imm_ table_cache_]; try done; [by exists m|by apply Ref_ok|by rewrite current_Ref]. }
  assert (forall db2 (r : Status * option bytes), db2 = db1 ->
    exists db' v'', ((modify (fun db => set_versions (Version_Unref E (versions_ db) id) db) ;; mret r) : DBM E C _) db2 = Some (db', r) /\
      files_ v'' = files_ v /\ db_holds db' mem_es imm_es v'' hs /\ read_state db db') as Hmem.
  { intros db2 r ->. by apply (Hend db1 v r); [rewrite Hsame| | |]. }
  destruct (newest ucmp mem_es u s) as [e|].
  { destruct (e_type e); dbm; by apply Hmem. }
  assert (forall mem', imm_ db = Some mem' -> MemTable_Get ucmp mem' (LookupKey_new u s) = Some match newest ucmp imm_es u s with
       | None => GetAbsent
       | Some e => match e_type e with kTypeValue => GetValue (e_value e) | kTypeDeletion => GetDeleted (NotFound []) end end) as Himm'.
  { intros mem' Ei. rewrite Ei in Himm. by apply MemTable_Get_rep. }
  assert (match imm_ db with None => newest ucmp imm_es u s = None | Some _ => True end) as Hnone.
  { destruct (imm_ db); [done|]. by rewrite Himm. }
  destruct (imm_ db) as [mem'|].
  - rewrite (Himm' mem' eq_refl). dbm. destruct (newest ucmp imm_es u s) as [e|].
    { destruct (e_type e); dbm; by apply Hmem. }
    destruct (get_from_version_spec options db1 mem_es imm_es v hs u s H1 Hs) as (db2 & v' & Eg & Hf & Hrs & Hc2 & Hvs2).
    erewrite bind_step by exact Eg. by apply (Hend db2 v').
  - dbm. rewrite Hnone.
    destruct (get_from_version_spec options db1 mem_es imm_es v hs u s H1 Hs) as (db2 & v' & Eg & Hf & Hrs & Hc2 & Hvs2).
    erewrite bind_step by exact Eg. by apply (Hend db2 v').
Qed.
(** ** Iterators *)

Lemma db_entries_ok db mem_es imm_es v hs :
  db_holds db mem_es imm_es v hs -> Forall entry_ok (db_entries mem_es imm_es v) /\ NoDup (map e_seq (db_entries mem_es imm_es v)).
Proof using Type.
  intros [(m & _ & Hm & _) Hi _ _ Hv [Hnd _] _ _]. split; [|done]. unfold db_entries. cbn [concat].
  apply Forall_app_2; [done|]. apply Forall_app_2.
  { destruct (imm_ db); [by destruct Hi|by subst]. }
  apply list.Forall_forall. intros e (es & Hes & He)%list_elem_of_In%in_concat. apply list_elem_of_In in He.
  assert (forall l f, f ∈ level_files v l -> Forall entry_ok (file_entries contents f)) as Hf.
  { intros l f Hf. apply (fh_ok ucmp (is_table (db_world db)) contents). pose proof (vh_files _ _ _ _ Hv l) as H.
    rewrite list.Forall_forall in H. by apply H. }
  unfold version_sources in Hes. apply in_app_or in Hes as [Hes|Hes]; apply in_map_iff in Hes as (x & <- & Hx).
  - apply list_elem_of_In in Hx. rewrite sort_newest_perm in Hx. specialize (Hf 0%nat x Hx). rewrite list.Forall_forall in Hf. by apply Hf.
  - apply level_entries_elem in He as (f & Hff & He). specialize (Hf x f Hff). rewrite list.Forall_forall in Hf. by apply Hf.
Qed.

Lemma NewInternalIterator_spec options db mem_es imm_es v hs es :
  db_holds db mem_es imm_es v hs -> zlen hs + zlen (level_files v 0) + 1 <= limit ->
  es_sorted ucmp es -> es ≡ₚ db_entries mem_es imm_es v ->
  exists db' it, NewInternalIterator E extend z C ucmp options_ dbname cache_id options db =
      Some (db', it, vs_current (versions_ db), vs_last_sequence (versions_ db), u32 (seed_ db + 1)) /\
    cursor_at fits icompare (internal_ops E extend z C ucmp options_ dbname cache_id (verify_checksums options) db) (map entry_kv es) it (length es) /\
    (exists hs', db_holds db' mem_es imm_es v hs') /\ read_state db db' /\
    versions_ db' = Version_Ref E (versions_ db) (vs_current (versions_ db)).
Proof using All.
  intros H Hlim Hs HP. pose proof H as [(m & Hm & Hrep) Himm Hvs Hv Hver Hord Hc Hl].
  destruct (db_entries_ok _ _ _ _ _ H) as [Hok Hnd].
  destruct (mem_rep_list ucmp m mem_es Hrep) as (mes & Hpm & Hml).
  assert (exists ies, ies ≡ₚ imm_es /\ match imm_ db with Some mm => mem_list ucmp mm ies | None => ies = [] end) as (ies & Hpi & Hil).
  { destruct (imm_ db) as [mm|]; [by apply mem_rep_list|exists []; by rewrite Himm]. }
  unfold NewInternalIterator. rewrite Hm. cbn [mbind option_bind]. rewrite Hv. cbn [mbind option_bind].
  destruct (merge_internal_of ucmp (AnyOps extend z) (error_iter extend z)
    (tc_NewIterator extend z C dbname (table_options options_) (NewRandomAccessFile E (db_world db)) cache_id (verify_checksums options))
    (cache_room extend z ucmp C limit rep contents) (is_table (db_world db)) contents 0 (table_cache_ db) m mes (imm_ db) ies v es)
    as (cache & it & Em & Hroom & Hcur).
  - exists hs. split; [done|]. lia.
  - done.
  - done.
  - done.
  - done.
  - by rewrite HP.
  - rewrite HP, Hpm, Hpi. unfold db_entries. cbn [concat]. done.
  - rewrite Em. cbn [mbind option_bind]. eexists _, it. split; [done|]. split; [exact Hcur|].
    destruct Hroom as (hs' & Hc' & Hl'). split; [|by repeat split].
    exists hs'. split; cbn [set_table_cache set_seed set_versions mem_ imm_ versions_ db_world table_cache_]; try done.
    + by exists m.
    + by apply Ref_ok.
    + by rewrite current_Ref.
    + lia.
Qed.

Lemma NewIterator_spec options db mem_es imm_es v hs s rounds :
  db_holds db mem_es imm_es v hs -> read_sequence E C options db = Some s -> 0 <= s <= kMaxSequenceNumber ->
  zlen hs + zlen (level_files v 0) + 1 <= limit -> 0 <= max_sequential_skip_in_iterations options ->
  free_seed (Random_new (u32 (seed_ db + 1))) -> (length (db_entries mem_es imm_es v) < rounds)%nat ->
  let I := internal_ops E extend z C ucmp options_ dbname cache_id (verify_checksums options) db in
  exists db' it pairs,
    NewIterator E extend z C ucmp options_ dbname cache_id options db = Some (db', it, vs_current (versions_ db), s) /\
    (exists pos, CursorOn (fun t => zlen t + 8 < 2 ^ 32) (Compare ucmp) (DBIterOps I ucmp s (max_sequential_skip_in_iterations options) rounds) pairs pos /\
       pos it (length pairs)) /\
    sorted_keys (Compare ucmp) (map fst pairs) /\
    (forall u value, (exists k, (k, value) ∈ pairs /\ Compare ucmp k u = Eq) <-> lookup_entry ucmp (db_entries mem_es imm_es v) u s = Some value) /\
    (exists hs', db_holds db' mem_es imm_es v hs') /\ read_state db db'.
Proof using All.
  intros H Es Hs Hlim Hskip Hseed Hr I. destruct (db_entries_ok _ _ _ _ _ H) as [Hok Hnd].
  destruct (sort_entries ucmp (db_entries mem_es imm_es v) Hok Hnd) as (es & HP & Hsort).
  assert (Forall entry_ok es) as Hok' by (by rewrite HP). assert (NoDup (map e_seq es)) as Hnd' by (by rewrite HP).
  destruct (NewInternalIterator_spec options db mem_es imm_es v hs es H Hlim Hsort HP) as (db' & it & Ei & (ipos & HC & Hi) & Hh & Hrs & _).
  exists db', (NewDBIterator I it (u32 (seed_ db + 1))), (view ucmp s es). split; [|split; [|split; [|split]]].
  - unfold NewIterator. rewrite Ei. cbn [mbind option_bind]. unfold read_sequence in Es.
    destruct (snapshot options) as [a|]; [by rewrite Es|injection Es as <-; done].
  - exists (dpos ucmp s es I ipos). split.
    + assert (forall u q t, stored_key ucmp es u -> fits (InternalKey u q t)) as Hfit.
      { intros u q t (e & He & Hu%exact_compare). subst u. rewrite list.Forall_forall in Hok'.
        destruct (Hok' e He) as (_ & Hlen & _). unfold fits. rewrite length_InternalKey. lia. }
      assert (length es < rounds)%nat as Hr' by (by rewrite HP).
      apply (cursor_on_mono (fun t => fits (seek_key t s))).
      { intros t Ht. unfold fits, seek_key. rewrite length_InternalKey. lia. }
      exact (db_iter_cursor ucmp s (max_sequential_skip_in_iterations options) Hs Hskip es Hsort Hok' fits I ipos Hfit rounds Hr').
    + eapply (NewDBIterator_dpos ucmp s es I ipos); done.
  - by apply view_from_sorted, es_sorted_key_sorted.
  - intros u value. rewrite (view_shows ucmp s es u value Hok' Hnd' Hsort). unfold shows, lookup_entry.
    rewrite (newest_permutation ucmp es _ u s Hnd' HP). destruct (newest ucmp _ u s) as [e|].
    + destruct (e_type e) eqn:Et; split; try (intros [= <-]; by exists e); try done; intros (e' & [= <-] & Ht & <-); [congruence|done].
    + split; [by intros (e & [=] & _)|done].
  - done.
Qed.
End Holds.

(** ** Properties *)

(** C1: a point read returns the newest visible value.  When the memtable, the
    immutable memtable and the tables of the current version hold the entries the
    database state says ([db_holds]), [DBImpl::Get] at the latest sequence number
    or at a snapshot returns the value of the newest entry of the key that is not
    newer than that number, over all the sources together, and NotFound when
    there is none or it is a deletion.  It never fails otherwise, and the state
    after it holds the same entries. *)
Theorem db_get_newest (E : Env) (extend : Z -> bytes -> Z) (z : Compression) (C : CacheOps TableAndFile) (limit : Z)
    (rep : CState C -> (bytes -> option TableAndFile) -> list (CHandle C * TableAndFile) -> Prop) (ucmp : Comparator)
    (options_ : DBOptions) (policy : option FilterPolicy) (ok_keys : list bytes -> Prop) (dbname : bytes) (cache_id : Z)
    (contents : Z -> list Entry) (options : ReadOptions) (db : DBImpl E C) (mem_es imm_es : list Entry) (v : Version)
    (hs : list (CHandle C * TableAndFile)) (u : bytes) (s : Z) :
  CrcLaws extend -> CompressionLaws z -> CacheLaws C limit rep -> ComparatorLaws ucmp -> ExactComparator ucmp ->
  DbTableOptions ucmp (table_options options_) policy ok_keys ->
  db_holds E extend z C limit rep ucmp options_ ok_keys dbname contents db mem_es imm_es v hs ->
  read_sequence E C options db = Some s -> 0 <= s <= kMaxSequenceNumber -> zlen u + 8 < 2 ^ 32 ->
  exists db' v', Get E extend z C ucmp options_ dbname cache_id options u db =
      Some (db', match lookup_entry ucmp (db_entries contents mem_es imm_es v) u s with
                 | Some value => (Status_OK, Some value) | None => (NotFound [], None) end) /\
    files_ v' = files_ v /\ db_holds E extend z C limit rep ucmp options_ ok_keys dbname contents db' mem_es imm_es v' hs /\
    read_state E C db db'.
Proof. intros. eapply Get_spec; eassumption. Qed.

(** C4: an iterator shows the database as it was at one sequence number.  The
    iterator [DBImpl::NewIterator] returns, over the merge of memtables and tables
    it builds, is a cursor over a list of user keys and values in increasing
    order of keys, and a key has a value in that list exactly when a point read
    at that sequence number finds that value. *)
Theorem db_iterator_shows_database (E : Env) (extend : Z -> bytes -> Z) (z : Compression) (C : CacheOps TableAndFile) (limit : Z)
    (rep : CState C -> (bytes -> option TableAndFile) -> list (CHandle C * TableAndFile) -> Prop) (ucmp : Comparator)
    (options_ : DBOptions) (policy : option FilterPolicy) (ok_keys : list bytes -> Prop) (dbname : bytes) (cache_id : Z)
    (contents : Z -> list Entry) (options : ReadOptions) (db : DBImpl E C) (mem_es imm_es : list Entry) (v : Version)
    (hs : list (CHandle C * TableAndFile)) (s : Z) (rounds : nat) :
  CrcLaws extend -> CompressionLaws z -> CacheLaws C limit rep -> ComparatorLaws ucmp -> ExactComparator ucmp ->
  DbTableOptions ucmp (table_options options_) policy ok_keys ->
  db_holds E extend z C limit rep ucmp options_ ok_keys dbname contents db mem_es imm_es v hs ->
  read_sequence E C options db = Some s -> 0 <= s <= kMaxSequenceNumber ->
  zlen hs + zlen (level_files v 0) + 1 <= limit -> 0 <= max_sequential_skip_in_iterations options ->
  free_seed (Random_new (u32 (seed_ db + 1))) -> (length (db_entries contents mem_es imm_es v) < rounds)%nat ->
  let I := internal_ops E extend z C ucmp options_ dbname cache_id (verify_checksums options) db in
  exists db' it pairs,
    NewIterator E extend z C ucmp options_ dbname cache_id options db = Some (db', it, vs_current (versions_ db), s) /\
    (exists pos, CursorOn (fun t => zlen t + 8 < 2 ^ 32) (Compare ucmp) (DBIterOps I ucmp s (max_sequential_skip_in_iterations options) rounds) pairs pos /\
       pos it (length pairs)) /\
    sorted_keys (Compare ucmp) (map fst pairs) /\
    (forall u value, (exists k, (k, value) ∈ pairs /\ Compare ucmp k u = Eq) <->
       lookup_entry ucmp (db_entries contents mem_es imm_es v) u s = Some value) /\
    (exists hs', db_holds E extend z C limit rep ucmp options_ ok_keys dbname contents db' mem_es imm_es v hs') /\ read_state E C db db'.
Proof. intros. eapply NewIterator_spec; eassumption. Qed.

(** A database with the two tables of [sample_version] and, in its memtable, a
    newer value of [b]. *)
Definition sample_mem_entries : list Entry := [mkEntry 20 kTypeValue (str:"b") (str:"mem")].
Definition sample_chars (_ : list region) (_ : Z) : Z := 4096.
Definition sample_mem : MemTable :=
  default (MemTable_new sample_chars) (MemTable_Add sample_chars BytewiseComparator 20 kTypeValue (str:"b") (str:"mem") (MemTable_new sample_chars)).
Definition sample_tables : gmap bytes bytes :=
  <[table_name (str:"db") 9 := sample_file 9]> (<[sst_name (str:"db") 7 := sample_file 7]> ∅).
Definition sample_versions : VersionSet MemEnv :=
  mkVersionSet 20 2 20 3 0 None [mkNode 0 sample_version 1] 1 0 (replicate kNumLevels []).
Definition sample_db : DBImpl MemEnv NewLRUCache :=
  set_seed 6 (set_versions sample_versions (set_mem (Some sample_mem) (DBImpl_new MemEnv NewLRUCache sample_tables (SharedLRUCache_new 990)))).
Definition sample_db_opts : DBOptions := mkDBOptions sample_db_options true false true 65536 1000 None (2 * 1024 * 1024) false.

Lemma sample_mem_rep : mem_rep BytewiseComparator sample_mem sample_mem_entries.
Proof.
  destruct (MemTable_Add_rep sample_chars BytewiseComparator 20 kTypeValue (str:"b") (str:"mem") (MemTable_new sample_chars) [])
    as (m & Em & Hm & _); [apply MemTable_new_rep|by repeat split|set_solver|].
  unfold sample_mem. by rewrite Em.
Qed.

Lemma sample_tables_open : opens_sample (NewRandomAccessFile MemEnv sample_tables).
Proof. split; [|split]; cbn [NewRandomAccessFile MemEnv]; unfold sample_tables; by simplify_map_eq. Qed.

Lemma sample_db_holds :
  db_holds MemEnv Extend_ref no_compression NewLRUCache 1000 (shared_rep 1000) BytewiseComparator sample_db_opts sample_ok_keys
    (str:"db") sample_contents sample_db sample_mem_entries [] sample_version [].
Proof.
  pose proof (sample_version_holds _ sample_tables_open) as Hv. split.
  - exists sample_mem. split; [done|apply sample_mem_rep].
  - done.
  - split; [by repeat constructor|by apply NoDup_singleton|by repeat constructor|by eexists].
  - done.
  - exact Hv.
  - destruct (vh_ordered _ _ _ _ Hv) as [Hnd Hs]. split; [apply (bool_decide_unpack _); vm_compute; exact I|].
    constructor; [constructor; [done|apply list.Forall_forall; intros es _ e1 e2 He _; by apply not_elem_of_nil in He]|].
    constructor; [intros e1 e2 _ He; by apply not_elem_of_nil in He|].
    apply list.Forall_forall. intros es Hes e1 e2 ->%list_elem_of_singleton He _.
    assert (e_seq e2 <= 12) as Hle; [|cbn; lia].
    assert (Forall (fun e => e_seq e <= 12) (concat (version_sources sample_contents sample_version))) as Hall
      by (repeat constructor; done).
    rewrite list.Forall_forall in Hall. apply Hall. apply list_elem_of_In, in_concat. exists es.
    by split; apply list_elem_of_In.
  - exists (fun _ => None). split; [|done]. apply shared_new_rep; [done|lia].
  - done.
Qed.

Lemma db_get_newest_witness :
  (exists db', Get MemEnv Extend_ref no_compression NewLRUCache BytewiseComparator sample_db_opts (str:"db") 0 ReadOptions_default
     (str:"b") sample_db = Some (db', (Status_OK, Some (str:"mem")))) /\
  (exists db', Get MemEnv Extend_ref no_compression NewLRUCache BytewiseComparator sample_db_opts (str:"db") 0 ReadOptions_default
     (str:"a") sample_db = Some (db', (NotFound [], None))).
Proof.
  pose proof (fun u => db_get_newest MemEnv Extend_ref no_compression NewLRUCache 1000 (shared_rep 1000) BytewiseComparator sample_db_opts
    (Some sample_policy) sample_ok_keys (str:"db") 0 sample_contents ReadOptions_default sample_db sample_mem_entries [] sample_version []
    u 20 _ _ (shared_cache_laws 1000 sample_cache_limit) _ _ _ sample_db_holds eq_refl ltac:(done)) as H.
  split.
  - destruct (H (str:"b") ltac:(done)) as (db' & _ & E & _). by exists db'.
  - destruct (H (str:"a") ltac:(done)) as (db' & _ & E & _). by exists db'.
Defined.

Lemma db_iterator_shows_database_witness :
  exists db' it pairs,
    NewIterator MemEnv Extend_ref no_compression NewLRUCache BytewiseComparator sample_db_opts (str:"db") 0 ReadOptions_default sample_db =
      Some (db', it, 0%nat, 20) /\
    sorted_keys Slice_compare (map fst pairs) /\ (exists k, (k, str:"new") ∈ pairs /\ Slice_compare k (str:"c") = Eq).
Proof.
  destruct (db_iterator_shows_database MemEnv Extend_ref no_compression NewLRUCache 1000 (shared_rep 1000) BytewiseComparator sample_db_opts
    (Some sample_policy) sample_ok_keys (str:"db") 0 sample_contents ReadOptions_default sample_db sample_mem_entries [] sample_version []
    20 10 _ _ (shared_cache_laws 1000 sample_cache_limit) _ _ _ sample_db_holds eq_refl ltac:(done) ltac:(done) ltac:(done)
    seed_7_free ltac:(cbn; lia)) as (db' & it & pairs & E & _ & Hs & Hl & _).
  exists db', it, pairs. split; [exact E|]. split; [exact Hs|]. by apply Hl.
Defined.
