(* ===== verification/DbCompact.v ===== *)
(** * What a compaction writes

    [DoCompactionWork] (src/db/db_impl.cc) and the specification of its effect.
    The loop reads its input in order and writes exactly the [survivors] of it
    into new tables, in consecutive non-empty chunks ([compact_files_spec]).
    Replacing the input files by those tables changes no answer to a reader
    ([compacted_holds]). *)

From Stdlib Require Import SpecFloat.
From stdpp Require Import gmap sets sorting.
From S2P Require Import Snapshot Prelude Slice Coding Crc32c Comparator DbFormat Hash Cache WriteBatch LogFormat LogWriter Filename.
From S2P Require Import Iterator SkipList Arena MemTable Entries MemIter View Prune BlockBuilder Block DbIter Merger TwoLevelIterator Format FilterBlock TableBuilder Table.
From S2P Require Import VersionEdit VersionFiles VersionBuilder Compaction VersionGet CompactedVersion VersionIter TableCache Env BuildTable.
From S2P Require Import DbOptions VersionSet PerfCounters DbState DbImpl.

(** ** The decision to drop a key *)

Section Drop.
Context (ucmp : Comparator) `{!ComparatorLaws ucmp}.
Abbreviation ucompare := (Compare ucmp).
Abbreviation below := (below ucmp).
Implicit Types (c : Compaction) (e x : Entry) (es : list Entry) (prev : option Entry).

(** The locals remember the entry before. *)
Definition drop_remembers (d : DropState) prev : Prop :=
  match prev with
  | Some x => ds_has_current_user_key d = true /\ ucompare (ds_current_user_key d) (e_key x) = Eq /\ ds_last_sequence_for_key d = e_seq x
  | None => ds_has_current_user_key d = false
  end.

(** The pointers have passed no file that the rest of the input needs. *)
Definition ptrs_upto c prev : Prop :=
  forall k, match prev with Some x => ucompare (e_key x) k <> Gt | None => True end -> ptrs_ok ucmp (input_version_ c) k (level_ptrs_ c).

Lemma IsBaseLevelForKey_spec c k :
  version_ok ucmp (input_version_ c) -> ptrs_ok ucmp (input_version_ c) k (level_ptrs_ c) ->
  exists ptrs, IsBaseLevelForKey ucmp c k = (set_ptrs c ptrs, below c k) /\ ptrs_ok ucmp (input_version_ c) k ptrs.
Proof using All.
  intros Hv Hp. unfold IsBaseLevelForKey.
  pose proof (IsBaseLevel_loop_spec ucmp (input_version_ c) k (seq (c_level c + 2) (kNumLevels - (c_level c + 2))) (level_ptrs_ c) Hv) as Hl.
  destruct (IsBaseLevel_loop _ _ _ _ _) as [ptrs r]. destruct Hl as [Hp' Hr]; [|done|].
  { apply list.Forall_forall. intros l Hl%elem_of_seq. lia. }
  exists ptrs. split; [|done]. f_equal. apply eq_true_iff_eq. rewrite Hr, below_spec. unfold base_level.
  split; intros H l f Hl; apply H; [apply elem_of_seq; lia|]. apply elem_of_seq in Hl. lia.
Qed.

Lemma set_ptrs_id c : set_ptrs c (level_ptrs_ c) = c.
Proof using Type. by destruct c. Qed.

(** One round of the loop decides as the specification says. *)
Lemma drop_step_spec c snap d prev e :
  snap < kMaxSequenceNumber -> version_ok ucmp (input_version_ c) -> entry_ok e -> drop_remembers d prev -> ptrs_upto c prev ->
  match prev with Some x => ucompare (e_key x) (e_key e) <> Gt | None => True end ->
  exists ptrs d', drop_step ucmp c snap d (entry_ikey e) =
      (set_ptrs c ptrs, d', covered ucmp snap prev e || obsolete snap (below c) e) /\
    drop_remembers d' (Some e) /\ ptrs_upto (set_ptrs c ptrs) (Some e).
Proof using All.
  intros Hsnap Hv (Hseq & Hlen & _) Hd Hp Hle. unfold drop_step, entry_ikey. rewrite ParseInternalKey_InternalKey by done.
  cbn [user_key sequence type]. set (same := ds_has_current_user_key d && _).
  assert (same = match prev with Some x => match ucompare (e_key e) (e_key x) with Eq => true | _ => false end | None => false end) as ->.
  { unfold same. destruct prev as [x|]; cbn in Hd; [|by rewrite Hd]. destruct Hd as (-> & Hk & _). cbn [andb].
    by rewrite (cmp_eq_r ucompare _ _ _ Hk). }
  set (d1 := if _ : bool then d else _).
  assert (ds_has_current_user_key d1 = true /\ ucompare (ds_current_user_key d1) (e_key e) = Eq /\
    (ds_last_sequence_for_key d1 <=? snap) = covered ucmp snap prev e) as (H1 & H2 & H3).
  { unfold d1, covered. destruct prev as [x|]; cbn in Hd.
    - destruct Hd as (Hh & Hk & Hl). destruct (ucompare (e_key e) (e_key x)) eqn:Ex; cbn; rewrite ?(cmp_refl ucompare).
      + split; [done|]. split; [by rewrite (cmp_eq_l ucompare _ _ _ Hk), (cmp_eq_sym ucompare _ _ Ex)|by rewrite Hl].
      + repeat split. by apply Z.leb_gt.
      + repeat split. by apply Z.leb_gt.
    - cbn. rewrite (cmp_refl ucompare). repeat split. by apply Z.leb_gt. }
  rewrite H3. assert (forall q, drop_remembers (mkDrop (ds_current_user_key d1) (ds_has_current_user_key d1) q) (Some e) <-> q = e_seq e) as Hrem.
  { intros q. cbn. tauto. }
  assert (ptrs_upto c (Some e)) as Hp1.
  { intros k Hk. apply (ptrs_ok_mono ucmp _ (e_key e)); [done|]. by apply Hp. }
  destruct (covered ucmp snap prev e); cbn [orb].
  { exists (level_ptrs_ c). rewrite set_ptrs_id. eexists. split; [done|]. split; [by apply Hrem|done]. }
  unfold obsolete. destruct (e_type e).
  2:{ exists (level_ptrs_ c). rewrite set_ptrs_id. eexists. split; [done|]. split; [by apply Hrem|done]. }
  destruct (e_seq e <=? snap); cbn [andb].
  2:{ exists (level_ptrs_ c). rewrite set_ptrs_id. eexists. split; [done|]. split; [by apply Hrem|done]. }
  destruct (IsBaseLevelForKey_spec c (e_key e) Hv) as (ptrs & -> & Hp'); [by apply Hp|].
  exists ptrs. eexists. split; [done|]. split; [by apply Hrem|].
  intros k Hk. by apply (ptrs_ok_mono ucmp _ (e_key e)).
Qed.
End Drop.

(** What a compaction does not change of itself. *)
Definition core (c : Compaction) :=
  (c_level c, max_output_file_size_ c, input_version_ c, edit_ c, inputs0 c, inputs1 c).

Lemma ShouldStopBefore_core ucmp max_file_size c k c' stop :
  ShouldStopBefore ucmp max_file_size c k = (c', stop) -> core c' = core c /\ level_ptrs_ c' = level_ptrs_ c.
Proof. unfold ShouldStopBefore. destruct (advance_grandparent _ _ _ _ _ _) as [a b]. by intros [= <- <-]. Qed.

(** ** The loop *)

Section Loop.
Context (E : Env) (files : World E -> gmap bytes bytes) (wcontents : WFile (env_W E) -> bytes)
  (fname : WFile (env_W E) -> bytes) (rest : SFile (env_F E) -> bytes) `{!EnvLaws E files wcontents fname rest}.
Context (NowMicros : World E -> Z) (extend : Z -> bytes -> Z) `{!CrcLaws extend} (z : Compression) `{!CompressionLaws z}.
Context (C : CacheOps TableAndFile) (limit : Z)
  (rep : CState C -> (bytes -> option TableAndFile) -> list (CHandle C * TableAndFile) -> Prop) `{!CacheLaws C limit rep}.
Context (ucmp : Comparator) `{!ComparatorLaws ucmp} (options_ : DBOptions) (policy : option FilterPolicy)
  (ok_keys : list bytes -> Prop) `{!DbTableOptions ucmp (table_options options_) policy ok_keys}.
Context (dbname : bytes) (cache_id : Z) (garbage : bool) (fuel : nat).
Context (I : IteratorOps) (okt : bytes -> Prop).
Abbreviation icompare := (InternalKeyComparator.Compare ucmp).
Abbreviation o := (table_options options_).
Abbreviation CompactionState := (CompactionState E).
Implicit Types (es ks cur : list Entry) (chunks : list (list Entry)) (cs : CompactionState).

#[local] Instance output_writes : ReliableWrites (env_W E) wcontents := env_writes.

(** An output that holds [ks]. *)
Definition out_of (n size : Z) ks : Output :=
  let m := range_of (FileMetaData_new n size [] []) ks in mkOutput n size (smallest m) (largest m).

Lemma out_of_snoc n size ks e :
  out_of n size (ks ++ [e]) =
  mkOutput n size (if zlen ks =? 0 then entry_ikey e else out_smallest (out_of n size ks)) (entry_ikey e).
Proof using Type. unfold out_of. rewrite range_snoc. by destruct (zlen ks =? 0). Qed.

Lemma out_of_size n size size' ks :
  out_of n size' ks = mkOutput (out_number (out_of n size ks)) size' (out_smallest (out_of n size ks)) (out_largest (out_of n size ks)).
Proof using Type. unfold out_of, range_of. by destruct (head ks), (list.last ks). Qed.

Context (db0 : DBImpl E C) (c0 : Compaction) (snap : Z) (contents : Z -> list Entry).
Abbreviation next0 := (vs_next_file_number (versions_ db0)).
Abbreviation number_of j := (next0 + Z.of_nat j).

(** The state of the database while the compaction runs: only the files, the
    cache, the pending outputs and the next file number change. *)
Definition running (w : World E) (cache : CState C) (pend : gset Z) (outs : nat) : DBImpl E C :=
  set_db_world w (set_table_cache cache (set_pending_outputs pend (DbState.set_versions (with_next E (versions_ db0) (number_of outs)) db0))).

(** The contents of the tables, old and new. *)
Definition extends chunks (contents' : Z -> list Entry) : Prop :=
  (forall n, n < next0 -> contents' n = contents n) /\ (forall j ks, chunks !! j = Some ks -> contents' (number_of j) = ks).

(** There are never more outputs than entries. *)
Lemma chunks_bound chunks : (forall j ks, chunks !! j = Some ks -> ks <> []) -> (length chunks <= length (concat chunks))%nat.
Proof using Type.
  induction chunks as [|ks chunks IH]; intros H; [done|]. cbn [length concat]. rewrite length_app.
  assert (ks <> []) as Hk by (by apply (H 0%nat)). destruct ks; [done|]. cbn [length].
  enough (length chunks <= length (concat chunks))%nat by lia. apply IH. intros j ks' Hj. by apply (H (S j)).
Qed.

(** What has been written: [chunks] in finished tables. *)
Record progress (w : World E) (cache : CState C) (pend : gset Z) cs chunks : Prop := {
  wr_core : core (compaction E cs) = core c0;
  wr_snap : cs_smallest_snapshot E cs = snap;
  wr_done : forall j ks, chunks !! j = Some ks -> ks <> [] /\ exists tbl,
    outputs E cs !! j = Some (out_of (number_of j) (zlen tbl) ks) /\
    files w !! table_name dbname (number_of j) = Some tbl /\ table_bytes extend z ucmp o ok_keys ks tbl;
  wr_files : forall p, (forall n, next0 <= n < 2 ^ 64 -> p <> table_name dbname n) -> files w !! p = files (db_world db0) !! p;
  wr_pending : pend = list_to_set (map out_number (outputs E cs)) ∪ pending_outputs_ db0;
  wr_cache : forall contents', extends chunks contents' -> cache_room extend z ucmp C limit rep contents' 1 cache }.

(** [cur] in the open one. *)
Definition opened cs chunks cur : Prop :=
  exists f, builder E cs = Some (TableBuilder_AddAll extend z (TableBuilder_new o f) (map entry_kv cur)) /\
    wcontents f = [] /\ fname f = table_name dbname (number_of (length chunks)) /\
    length (outputs E cs) = S (length chunks) /\ outputs E cs !! length chunks = Some (out_of (number_of (length chunks)) 0 cur).

Record written (total : list Entry) (w : World E) (cache : CState C) (pend : gset Z) cs chunks cur : Prop := {
  wr_progress : progress w cache pend cs chunks;
  wr_open : match cur with [] => builder E cs = None /\ length (outputs E cs) = length chunks | _ => opened cs chunks cur end;
  wr_total : exists more, concat chunks ++ cur ++ more = total }.

Context (total : list Entry).
Context (Hnext : 0 < next0) (Hbound : next0 + zlen total < 2 ^ 64).
Context (Hfits : forall a ks b, a ++ ks ++ b = total -> table_fits E wcontents extend z ucmp o ok_keys ks).
Abbreviation written_now := (written total).

Lemma written_room w cache pend cs chunks cur :
  written_now w cache pend cs chunks cur -> (length chunks + (if decide (cur = []) then 0 else 1) <= length total)%nat.
Proof using All.
  intros [[_ _ Hd _ _ _] _ (more & <-)]. rewrite !length_app.
  pose proof (chunks_bound chunks (fun j ks Hj => proj1 (Hd j ks Hj))). destruct (decide (cur = [])); [lia|].
  destruct cur; [done|]. cbn [length]. lia.
Qed.

Lemma extends_app chunks ks contents' : extends (chunks ++ [ks]) contents' -> extends chunks contents' /\ contents' (number_of (length chunks)) = ks.
Proof using Type.
  intros [H1 H2]. split; [split; [done|]|].
  - intros j l Hj. apply H2. by apply lookup_app_l_Some.
  - apply H2. by rewrite lookup_app_r, Nat.sub_diag.
Qed.

(** The contents of old tables and chunks. *)
Definition contents_with chunks (n : Z) : list Entry := if n <? next0 then contents n else default [] (chunks !! Z.to_nat (n - next0)).

Lemma contents_with_extends chunks : extends chunks (contents_with chunks).
Proof using Type.
  unfold extends, contents_with. split.
  - intros n Hn. by rewrite (proj2 (Z.ltb_lt _ _)).
  - intros j ks Hj. rewrite (proj2 (Z.ltb_ge _ _)) by (clear; lia). by rewrite Z.add_simpl_l, Nat2Z.id, Hj.
Qed.

Lemma number_of_ne j j' :
  (j < length total)%nat -> (j' < length total)%nat -> j <> j' -> table_name dbname (number_of j) <> table_name dbname (number_of j').
Proof using All. intros H1 H2 Hne Eq. apply table_name_inj in Eq; lia. Qed.

(** Finishing the open table. *)
Lemma Finish_spec w cache pend cs chunks cur :
  cur <> [] -> written_now w cache pend cs chunks cur ->
  exists w' cache' cs',
    FinishCompactionOutputFile E extend z C options_ dbname cache_id Status_OK cs (running w cache pend (length (outputs E cs))) =
      Some (running w' cache' pend (length (outputs E cs')), (cs', Status_OK)) /\
    compaction E cs' = compaction E cs /\ written_now w' cache' pend cs' (chunks ++ [cur]) [].
Proof using All.
  intros Hcur H. pose proof (written_room _ _ _ _ _ _ H) as Hroom. rewrite decide_False in Hroom by done.
  destruct H as [[H1 H2 H3 H5 H6 H7] H4 (more & H8)].
  assert (table_fits E wcontents extend z ucmp o ok_keys cur) as Hfit by (by eapply Hfits).
  destruct cur as [|e0 cur0]; [done|]. set (cur := e0 :: cur0) in *. destruct H4 as (f & Hb & Hf & Hn & Hlen & Hout).
  unfold FinishCompactionOutputFile. rewrite Hb. dbm.
  rewrite list.last_lookup, Hlen. cbn [pred]. rewrite Hout. dbm. cbn [out_of out_number].
  replace (number_of (length chunks) =? 0) with false by (symmetry; apply Z.eqb_neq; lia). cbn [negb]. dbm. cbn [ok Status_OK state_].
  destruct (finish_table_file E files wcontents fname rest extend z ucmp o policy ok_keys C limit rep dbname cache_id I okt contents cur f _ w Hfit Hf Hn)
    as (f1 & f2 & tbl & Es & Esz & Esy & Ecl & Hfiles & Ht).
  destruct (AddAll_tracks extend z (env_W E) wcontents fname Append_fname Flush_fname (fname f) (TableBuilder_new o f)
    (map entry_kv cur)) as [_ Hne]; [by apply TableBuilder_new_tracks|]. rewrite length_map in Hne. cbn [TableBuilder_new num_entries] in Hne.
  unfold NumEntries. rewrite Hne.
  destruct (TableBuilder_Finish extend z _) as [b st]. cbn [fst snd] in Es, Esz, Esy. subst st. cbn [ok Status_OK state_].
  rewrite Esy. cbn [ok Status_OK state_]. rewrite Ecl. cbn [ok Status_OK state_]. dbm.
  assert ((0 + zlen cur >? 0) = true) as -> by (apply Z.gtb_lt; cbn; lia). cbn [andb].
  unfold check_output. dbm. rewrite Esz. cbn [out_of out_number].
  set (n := number_of (length chunks)) in *. set (w' := delete_file E w f2) in *.
  assert (0 < n < 2 ^ 64) as Hrange by (unfold n; lia).
  assert (exists cache', check_table E extend z C dbname o cache_id w' cache n (zlen tbl) = Some (cache', Status_OK) /\
    forall contents', extends (chunks ++ [cur]) contents' -> cache_room extend z ucmp C limit rep contents' 1 cache') as (cache' & Ec & Hc').
  { assert (forall contents', extends (chunks ++ [cur]) contents' -> exists cache', check_table E extend z C dbname o cache_id w' cache n (zlen tbl) =
      Some (cache', Status_OK) /\ cache_room extend z ucmp C limit rep contents' 1 cache') as Hall.
    { intros contents' [Hx Hx']%extends_app. destruct (H7 contents' Hx) as (hs & Hc & Hl).
      destruct (check_table_spec E files wcontents fname rest extend z ucmp o policy ok_keys C limit rep dbname cache_id I okt contents'
        w' cache hs n tbl) as (cache' & Ec & Hc'); [done|lia|done|by rewrite Hfiles, lookup_insert_eq|unfold n; by rewrite Hx'|].
      exists cache'. split; [done|]. by exists hs. }
    destruct (Hall _ (contents_with_extends _)) as (cache' & Ec & _). exists cache'. split; [done|].
    intros contents' Hx. destruct (Hall _ Hx) as (cache2 & Ec2 & Hc2). by assert (cache2 = cache') as -> by congruence. }
  cbn [running db_world table_cache_ set_db_world set_table_cache].
  fold w'. rewrite Ec. dbm.
  set (fin := fun out => mkOutput (out_number out) (zlen tbl) (out_smallest out) (out_largest out)).
  assert (forall j, alter fin (length chunks) (outputs E cs) !! j = if decide (length chunks = j) then Some (out_of n (zlen tbl) cur)
    else outputs E cs !! j) as Hal by (intros j; rewrite list_lookup_alter, Hout, (out_of_size n 0 (zlen tbl)); done).
  match goal with |- context [Some (_, (mkCompact ?a ?b ?c ?d ?e ?f, Status_OK))] => exists w', cache', (mkCompact a b c d e f) end.
  split; [|split].
  - cbn [outputs current_output set_outputs]. rewrite length_alter, Hlen. done.
  - done.
  - split; [split|..]; cbn [compaction cs_smallest_snapshot outputs builder current_output set_outputs]; rewrite ?Hlen; cbn [Nat.sub]; rewrite ?Nat.sub_0_r; fold fin.
    + done.
    + done.
    + intros j ks [Hj|[Hj1 Hj2]]%lookup_app_Some.
      * destruct (H3 j ks Hj) as (Hne' & tbl' & Ho & Hw & Htb). split; [done|]. exists tbl'.
        apply lookup_lt_Some in Hj. rewrite Hal, decide_False by lia. split; [done|]. split; [|done].
        rewrite Hfiles, lookup_insert_ne; [done|]. apply number_of_ne; lia.
      * apply list_lookup_singleton_Some in Hj2 as [Hj <-]. assert (j = length chunks) as -> by lia.
        split; [done|]. exists tbl. rewrite Hal, decide_True by done. split; [done|]. split; [by rewrite Hfiles, lookup_insert_eq|done].
    + intros p Hp. rewrite Hfiles, lookup_insert_ne; [by apply H5|]. apply not_eq_sym, Hp. unfold n. lia.
    + rewrite H6. f_equal. f_equal. change (out_number <$> outputs E cs = out_number <$> alter fin (length chunks) (outputs E cs)).
      apply list_eq. intros j. rewrite !list_lookup_fmap, Hal. destruct (decide _) as [<-|]; [by rewrite Hout|done].
    + done.
    + split; [done|]. rewrite length_alter, length_app, Hlen. cbn. lia.
    + exists more. rewrite List.concat_app. cbn [concat]. rewrite app_nil_r, <- app_assoc. done.
Qed.

(** Opening a table. *)
Lemma Open_spec w cache pend cs chunks :
  (length chunks < length total)%nat -> progress w cache pend cs chunks -> builder E cs = None -> length (outputs E cs) = length chunks ->
  exists w' pend' cs',
    OpenCompactionOutputFile E C options_ dbname cs (running w cache pend (length (outputs E cs))) =
      Some (running w' cache pend' (length (outputs E cs')), (cs', Status_OK)) /\
    compaction E cs' = compaction E cs /\ progress w' cache pend' cs' chunks /\ opened cs' chunks [].
Proof using All.
  intros Hroom [H1 H2 H3 H5 H6 H7] Hb Hlen. unfold OpenCompactionOutputFile, new_file_number, NewFileNumber. rewrite Hb. dbm.
  cbn [running versions_ set_db_world set_table_cache set_pending_outputs DbState.set_versions vs_next_file_number with_next db_world]. dbm.
  cbn [running versions_ set_db_world set_table_cache set_pending_outputs DbState.set_versions vs_next_file_number with_next db_world].
  rewrite Hlen. set (n := number_of (length chunks)).
  change (vs_next_file_number (with_next E (versions_ db0) n)) with n.
  rewrite TableFileName_pos by (unfold n; lia). dbm.
  destruct (writable_spec w (table_name dbname n)) as (w1 & f & -> & Hw1 & Hf0 & Hfn). dbm. cbn [ok Status_OK state_]. dbm.
  rewrite u64_small by (change (2 ^ 64) with 18446744073709551616 in *; unfold n; lia).
  match goal with |- context [Some (_, (set_builder ?E ?a ?b, Status_OK))] => exists w1, ({[n]} ∪ pend), (set_builder E a b) end.
  assert (forall j ks, chunks !! j = Some ks -> (outputs E cs ++ [mkOutput n 0 [] []]) !! j = outputs E cs !! j) as Hold.
  { intros j ks Hj%lookup_lt_Some. rewrite lookup_app_l; [done|lia]. }
  split; [|split; [|split]].
  - unfold running, n. cbn [set_builder outputs set_outputs]. rewrite length_app, Hlen. cbn [length].
    replace (number_of (length chunks) + 1) with (number_of (length chunks + 1)) by lia. done.
  - done.
  - split; cbn [set_builder compaction set_outputs outputs cs_smallest_snapshot]; try done.
    + intros j ks Hj. destruct (H3 j ks Hj) as (Hne & tbl & Ho & Hw & Ht). split; [done|]. exists tbl. rewrite (Hold j ks Hj).
      split; [done|]. split; [|done]. rewrite Hw1, lookup_insert_ne; [done|]. apply lookup_lt_Some in Hj. apply number_of_ne; lia.
    + intros p Hp. rewrite Hw1, lookup_insert_ne; [by apply H5|]. apply not_eq_sym, Hp. unfold n. lia.
    + rewrite H6, map_app, list_to_set_app_L. cbn [map out_number list_to_set foldr]. set_solver.
  - exists f. cbn [set_builder builder set_outputs outputs map TableBuilder_AddAll fold_left]. split; [done|]. split; [done|].
    split; [done|]. split; [rewrite length_app, Hlen; cbn; lia|]. by rewrite lookup_app_r, Hlen, Nat.sub_diag by lia.
Qed.

(** Adding an entry. *)
Lemma add_output_spec w cache pend cs chunks cur e more :
  written_now w cache pend cs chunks cur -> concat chunks ++ cur ++ e :: more = total ->
  exists w' cache' pend' cs' chunks' cur',
    add_output E extend z C options_ dbname cache_id (entry_ikey e) (e_value e) Status_OK cs (running w cache pend (length (outputs E cs))) =
      Some (running w' cache' pend' (length (outputs E cs')), (cs', Status_OK)) /\
    compaction E cs' = compaction E cs /\ written_now w' cache' pend' cs' chunks' cur' /\
    concat chunks' ++ cur' = concat chunks ++ cur ++ [e].
Proof using All.
  intros [Hp Ho _] Htot. unfold add_output.
  assert (exists w1 pend1 cs1, (match builder E cs with None => OpenCompactionOutputFile E C options_ dbname cs | Some _ => mret (cs, Status_OK) end)
      (running w cache pend (length (outputs E cs))) = Some (running w1 cache pend1 (length (outputs E cs1)), (cs1, Status_OK)) /\
    compaction E cs1 = compaction E cs /\ progress w1 cache pend1 cs1 chunks /\ opened cs1 chunks cur) as (w1 & pend1 & cs1 & E1 & Ec1 & Hp1 & Ho1).
  { destruct cur as [|e0 cur].
    - destruct Ho as [Hb Hlen]. rewrite Hb. apply Open_spec; [|done|done|done]. rewrite <- Htot, !length_app. cbn [length].
      pose proof (chunks_bound chunks (fun j ks Hj => proj1 (wr_done _ _ _ _ _ Hp j ks Hj))). lia.
    - destruct Ho as (f & Hb & Ho). rewrite Hb. exists w, pend, cs. split; [done|]. split; [done|]. split; [done|]. by exists f. }
  erewrite bind_step by exact E1. cbn [ok Status_OK state_ negb].
  destruct Ho1 as (f & Hb & Hf & Hn & Hlen & Hout). rewrite Hb. dbm.
  destruct (AddAll_tracks extend z (env_W E) wcontents fname Append_fname Flush_fname (fname f) (TableBuilder_new o f)
    (map entry_kv cur)) as [_ Hne]; [by apply TableBuilder_new_tracks|]. rewrite length_map in Hne. cbn [TableBuilder_new num_entries] in Hne.
  unfold NumEntries. rewrite Hne, Z.add_0_l.
  replace (TableBuilder_Add extend z (TableBuilder_AddAll extend z (TableBuilder_new o f) (map entry_kv cur)) (entry_ikey e) (e_value e)) with
    (TableBuilder_AddAll extend z (TableBuilder_new o f) (map entry_kv (cur ++ [e]))) by (unfold TableBuilder_AddAll; by rewrite map_app, fold_left_app).
  set (add := fun out => mkOutput (out_number out) (out_file_size out) (if zlen cur =? 0 then entry_ikey e else out_smallest out) (entry_ikey e)).
  set (cs2 := set_builder E (current_output E cs1 add) (Some (TableBuilder_AddAll extend z (TableBuilder_new o f) (map entry_kv (cur ++ [e]))))).
  assert (outputs E cs2 = alter add (length chunks) (outputs E cs1)) as Eo2.
  { cbn [cs2 set_builder outputs current_output set_outputs]. by rewrite Hlen, Nat.sub_succ, Nat.sub_0_r. }
  assert (length (outputs E cs2) = length (outputs E cs1)) as Hl2 by (by rewrite Eo2, length_alter).
  assert (written_now w1 cache pend1 cs2 chunks (cur ++ [e])) as Hw2.
  { destruct Hp1 as [H1 H2 H3 H5 H6 H7]. split; [split; try done| |].
    - intros j ks Hj. destruct (H3 j ks Hj) as (Hne' & tbl & Ho' & Hw & Ht). split; [done|]. exists tbl. split; [|done].
      apply lookup_lt_Some in Hj. rewrite Eo2, list_lookup_alter_ne by lia. done.
    - rewrite H6, Eo2. f_equal. f_equal. change (out_number <$> outputs E cs1 = out_number <$> alter add (length chunks) (outputs E cs1)).
      apply list_eq. intros j. rewrite !list_lookup_fmap, list_lookup_alter. destruct (decide _) as [<-|]; [|done].
      by destruct (outputs E cs1 !! length chunks).
    - assert (opened cs2 chunks (cur ++ [e])) as Hop; [|by destruct cur].
      exists f. split; [done|]. split; [done|]. split; [done|]. split; [by rewrite Hl2|]. rewrite Eo2, list_lookup_alter_eq, Hout, out_of_snoc. done.
    - exists more. by rewrite <- app_assoc. }
  fold cs2. rewrite <- Hl2. destruct (_ >=? _).
  - destruct (Finish_spec w1 cache pend1 cs2 chunks (cur ++ [e])) as (w' & cache' & cs' & -> & Ec' & Hw'); [by destruct cur|done|].
    exists w', cache', pend1, cs', (chunks ++ [cur ++ [e]]), []. split; [done|]. split; [by rewrite Ec'|]. split; [done|].
    rewrite List.concat_app. cbn [concat]. by rewrite !app_nil_r.
  - dbm. exists w1, cache, pend1, cs2, chunks, (cur ++ [e]). split; [done|]. split; [done|]. split; [done|]. done.
Qed.

Lemma written_set_compaction w cache pend cs chunks cur c :
  core c = core (compaction E cs) -> written_now w cache pend cs chunks cur -> written_now w cache pend (set_compaction E cs c) chunks cur.
Proof using Type.
  intros Hc [[H1 H2 H3 H5 H6 H7] Ho Ht]. split; [split; try done|by destruct cur|done].
  cbn [set_compaction compaction]. by rewrite Hc.
Qed.

Lemma below_core c : core c = core c0 -> below ucmp c = below ucmp c0 /\ input_version_ c = input_version_ c0.
Proof using Type. unfold core. intros [= H1 H2 H3 H4 H5 H6]. unfold below. by rewrite H1, H3. Qed.

(** Stopping before a key, when a table is open. *)
Lemma stop_spec w cache pend cs chunks cur (stop : bool) :
  written_now w cache pend cs chunks cur ->
  exists w' cache' cs' chunks' cur',
    (if stop && match builder E cs with Some _ => true | None => false end
     then FinishCompactionOutputFile E extend z C options_ dbname cache_id Status_OK cs else mret (cs, Status_OK))
      (running w cache pend (length (outputs E cs))) = Some (running w' cache' pend (length (outputs E cs')), (cs', Status_OK)) /\
    compaction E cs' = compaction E cs /\ written_now w' cache' pend cs' chunks' cur' /\ concat chunks' ++ cur' = concat chunks ++ cur /\
    (stop = true -> cur' = []).
Proof using All.
  intros H. destruct cur as [|e0 cur].
  - destruct (wr_open _ _ _ _ _ _ _ H) as [-> _]. rewrite andb_false_r. dbm. by exists w, cache, cs, chunks, [].
  - pose proof (wr_open _ _ _ _ _ _ _ H) as (f & -> & _). rewrite andb_true_r. destruct stop.
    + destruct (Finish_spec w cache pend cs chunks (e0 :: cur)) as (w' & cache' & cs' & -> & Ec & H'); [done|done|].
      exists w', cache', cs', (chunks ++ [e0 :: cur]), []. split; [done|]. split; [done|]. split; [done|]. split; [|done].
      rewrite List.concat_app. cbn [concat]. by rewrite !app_nil_r.
    + dbm. by exists w, cache, cs, chunks, (e0 :: cur).
Qed.

Context (es : list Entry) (Hes : Forall entry_ok es) (Hver : version_ok ucmp (input_version_ c0)) (Hsnap : snap < kMaxSequenceNumber).
Context (Hdown : shutting_down_ db0 = false) (Himm : has_imm_ db0 = false).
Abbreviation kept_from := (survivors ucmp snap (below ucmp c0)).

Lemma compact_loop_spec : forall n input i d prev imm w cache pend cs chunks cur,
  cursor_at okt icompare I (map entry_kv es) input i -> (length es - i < n)%nat ->
  drop_remembers ucmp d prev -> ptrs_upto ucmp (compaction E cs) prev -> key_sorted ucmp (option_list prev ++ drop i es) ->
  written_now w cache pend cs chunks cur -> concat chunks ++ cur ++ kept_from prev (drop i es) = total ->
  exists w' cache' pend' cs' chunks' cur' input',
    compact_loop E NowMicros extend z C ucmp options_ dbname cache_id garbage fuel I n input d imm cs
        (running w cache pend (length (outputs E cs))) =
      Some (running w' cache' pend' (length (outputs E cs')), (input', imm, cs', Status_OK)) /\
    written_now w' cache' pend' cs' chunks' cur' /\ concat chunks' ++ cur' = total /\
    cursor_at okt icompare I (map entry_kv es) input' (length es).
Proof using All.
  induction n as [|n IH]; intros input i d prev imm w cache pend cs chunks cur Hi Hn Hd Hp Hs Hw Ht; [lia|]. cbn [compact_loop]. dbm.
  change (shutting_down_ (running w cache pend (length (outputs E cs)))) with (shutting_down_ db0). rewrite Hdown. cbn [negb].
  rewrite andb_true_r, (cur_valid _ _ Hi), length_map. destruct (i <? length es)%nat eqn:Ei; boolprop; cbn [negb].
  2:{ dbm. exists w, cache, pend, cs, chunks, cur, input. split; [done|]. split; [done|].
      pose proof (cur_bound _ _ Hi) as Hb. rewrite length_map in Hb. rewrite drop_ge in Ht by lia. cbn [Prune.survivors] in Ht.
      rewrite app_nil_r in Ht. split; [done|]. by replace (length es) with i by lia. }
  dbm. change (has_imm_ (running w cache pend (length (outputs E cs)))) with (has_imm_ db0). rewrite Himm. dbm.
  destruct (lookup_lt_is_Some_2 es i Ei) as [e He].
  destruct (cur_entry _ _ (entry_kv e) Hi) as [Ek Ev].
  { change (map entry_kv es) with (entry_kv <$> es). by rewrite list_lookup_fmap, He. }
  rewrite Ek, Ev. cbn [entry_kv fst snd]. rewrite (drop_S es e i He) in Hs, Ht.
  destruct (cur_next _ _ Hi) as (input2 & En & Hi2); [by rewrite length_map|].
  rewrite (cur_status _ _ Hi).
  destruct (ShouldStopBefore ucmp (max_file_size options_) (compaction E cs) (entry_ikey e)) as [c1 stop] eqn:Estop.
  destruct (ShouldStopBefore_core _ _ _ _ _ _ Estop) as [Hc1 Hptr1].
  pose proof (written_set_compaction _ _ _ _ _ _ c1 Hc1 Hw) as Hw1.
  destruct (stop_spec w cache pend (set_compaction E cs c1) chunks cur stop Hw1) as (w2 & cache2 & cs2 & chunks2 & cur2 & Eq2 & Ec2 & Hw2 & Et2 & _).
  change (outputs E (set_compaction E cs c1)) with (outputs E cs) in Eq2.
  erewrite bind_step by exact Eq2. cbn [ok Status_OK state_ negb]. cbn [set_compaction compaction] in Ec2.
  pose proof (wr_snap _ _ _ _ _ (wr_progress _ _ _ _ _ _ _ Hw2)) as Hsn.
  destruct (below_core (compaction E cs2) (wr_core _ _ _ _ _ (wr_progress _ _ _ _ _ _ _ Hw2))) as [Hbel Hiv].
  destruct (drop_step_spec ucmp (compaction E cs2) snap d prev e) as (ptrs & d' & Eds & Hd' & Hp').
  { done. } { by rewrite Hiv. } { rewrite list.Forall_forall in Hes. by eapply Hes, list_elem_of_lookup_2. } { done. }
  { intros k Hk. rewrite Ec2. unfold core in Hc1. injection Hc1 as _ _ Hiv1 _ _ _. rewrite Hiv1, Hptr1. by apply Hp. }
  { destruct prev as [x|]; [|done]. apply StronglySorted_inv in Hs as [_ Hs]. by apply list.Forall_cons in Hs as [Hs _]. }
  rewrite Hsn, Eds, Hbel. set (cs3 := set_compaction E cs2 (set_ptrs (compaction E cs2) ptrs)).
  assert (written_now w2 cache2 pend cs3 chunks2 cur2) as Hw3 by (by apply written_set_compaction).
  assert (key_sorted ucmp (option_list (Some e) ++ drop (S i) es)) as Hs'.
  { destruct prev as [x|]; [by apply StronglySorted_inv in Hs as [Hs _]|done]. }
  cbn [Prune.survivors] in Ht. destruct (covered ucmp snap prev e || obsolete snap (below ucmp c0) e).
  - dbm. cbn [ok Status_OK state_ negb]. rewrite En. dbm.
    change (outputs E cs2) with (outputs E cs3). apply (IH _ (S i) d' (Some e)) with (chunks := chunks2) (cur := cur2); try done; [lia|].
    rewrite app_assoc, Et2, <- app_assoc. exact Ht.
  - destruct (add_output_spec w2 cache2 pend cs3 chunks2 cur2 e (kept_from (Some e) (drop (S i) es)) Hw3)
      as (w4 & cache4 & pend4 & cs4 & chunks4 & cur4 & Eq4 & Ec4 & Hw4 & Et4); [by rewrite app_assoc, Et2, <- app_assoc|].
    change (outputs E cs3) with (outputs E cs2) in Eq4. erewrite bind_step by exact Eq4. cbn [ok Status_OK state_ negb]. rewrite En. dbm.
    apply (IH _ (S i) d' (Some e)) with (chunks := chunks4) (cur := cur4); try done; [lia|by rewrite Ec4|].
    rewrite app_assoc, Et4. rewrite <- Ht, (app_assoc (concat chunks)), <- Et2, <- !app_assoc. done.
Qed.

(** All of the work without the lock. *)
Lemma compact_files_spec input i w cache pend cs :
  cursor_at okt icompare I (map entry_kv es) input i -> (length es < fuel)%nat -> es_sorted ucmp es ->
  (forall k, ptrs_ok ucmp (input_version_ c0) k (level_ptrs_ (compaction E cs))) -> total = kept_from None es ->
  written_now w cache pend cs [] [] ->
  exists w' cache' pend' cs' chunks,
    compact_files E NowMicros extend z C ucmp options_ dbname cache_id garbage fuel I input cs (running w cache pend 0) =
      Some (running w' cache' pend' (length chunks), (cs', 0, Status_OK)) /\
    written_now w' cache' pend' cs' chunks [] /\ concat chunks = total.
Proof using All.
  intros Hi Hf Hsort Hp Htot Hw. unfold compact_files.
  destruct (cur_first _ _ Hi) as (it0 & -> & Hit0). dbm.
  pose proof (wr_open _ _ _ _ _ _ _ Hw) as [_ Hlen]. cbn [length] in Hlen.
  destruct (compact_loop_spec fuel it0 0 DropState_new None 0 w cache pend cs [] []) as (w1 & cache1 & pend1 & cs1 & chunks1 & cur1 & it1 & E1 & Hw1 & Ht1 & Hit1).
  { done. } { lia. } { done. }
  { intros k _. destruct (below_core (compaction E cs) (wr_core _ _ _ _ _ (wr_progress _ _ _ _ _ _ _ Hw))) as [_ ->]. apply Hp. }
  { by apply es_sorted_key_sorted. } { done. } { done. }
  rewrite Hlen in E1. erewrite bind_step by exact E1. cbn [fst]. dbm.
  change (shutting_down_ (running w1 cache1 pend1 (length (outputs E cs1)))) with (shutting_down_ db0). rewrite Hdown.
  cbn [ok Status_OK state_ andb]. rewrite (cur_status _ _ Hit1).
  destruct (stop_spec w1 cache1 pend1 cs1 chunks1 cur1 true Hw1) as (w2 & cache2 & cs2 & chunks2 & cur2 & Eq2 & _ & Hw2 & Et2 & Hend).
  rewrite (Hend eq_refl) in *. cbn [andb] in Eq2. erewrite bind_step by exact Eq2. dbm. cbn [ok Status_OK state_].
  pose proof (wr_open _ _ _ _ _ _ _ Hw2) as [_ ->].
  exists w2, cache2, pend1, cs2, chunks2. split; [done|]. split; [done|]. by rewrite <- Ht1, <- Et2, app_nil_r.
Qed.
End Loop.
