(* ===== verification/CompactionWork.v ===== *)
(** * A compaction, from its inputs to the new version

    [DBImpl::DoCompactionWork] as a whole (src/db/db_impl.cc): the input iterator,
    the loop that writes the outputs and the edit that replaces the inputs by them.
    After it the database holds the new version, and every reader from the oldest
    snapshot on finds the values it found before. *)

From Stdlib Require Import SpecFloat.
From stdpp Require Import gmap sets sorting.
From S2P Require Import Snapshot Prelude Slice Coding Crc32c Comparator DbFormat Hash Cache WriteBatch LogFormat LogWriter LogReader Filename.
From S2P Require Import Iterator SkipList Arena MemTable Entries MemIter View Prune BlockBuilder Block DbIter Merger TwoLevelIterator Format FilterBlock TableBuilder Table.
From S2P Require Import VersionEdit VersionFiles VersionBuilder Compaction VersionGet CompactedVersion VersionIter TableCache Env BuildTable.
From S2P Require Import DbOptions VersionSet PerfCounters DbState DbImpl DbClient DbOpen DbView DbCompact.

(** ** The edit *)

Lemma set_insert_elem x y l : x ∈ set_insert y l <-> x = y \/ x ∈ l.
Proof.
  induction l as [|a l IH]; cbn [set_insert]; [set_solver|].
  destruct (pair_compare y a) eqn:E; [|set_solver..].
  assert (y = a) as ->; [|set_solver]. destruct y as [y1 y2], a as [a1 a2]. unfold pair_compare in E. cbn [fst snd] in E.
  destruct (y1 ?= a1) eqn:E1; [|done..]. apply Z.compare_eq in E, E1. by subst.
Qed.

(** The edit of [InstallCompactionResults]. *)
Definition install_edit (c : Compaction) (outs : list Output) : VersionEdit :=
  fold_left (fun edit out => AddFile edit (Z.of_nat (c_level c) + 1) (out_number out) (out_file_size out) (out_smallest out) (out_largest out))
    outs (AddInputDeletions c (edit_ c)).

Definition meta_of (out : Output) : FileMetaData :=
  FileMetaData_new (out_number out) (out_file_size out) (out_smallest out) (out_largest out).

Lemma fold_AddFile outs level edit :
  new_files_ (fold_left (fun edit out => AddFile edit level (out_number out) (out_file_size out) (out_smallest out) (out_largest out)) outs edit) =
    new_files_ edit ++ map (fun out => (level, meta_of out)) outs /\
  deleted_files_ (fold_left (fun edit out => AddFile edit level (out_number out) (out_file_size out) (out_smallest out) (out_largest out)) outs edit) =
    deleted_files_ edit.
Proof.
  revert edit. induction outs as [|out outs IH]; intros edit; cbn [fold_left map]; [by rewrite app_nil_r|].
  destruct (IH (AddFile edit level (out_number out) (out_file_size out) (out_smallest out) (out_largest out))) as [-> ->].
  cbn [AddFile push_new_file new_files_ deleted_files_]. by rewrite <- app_assoc.
Qed.

Lemma fold_RemoveFile fs level edit :
  let edit' := fold_left (fun edit f => RemoveFile edit level (number f)) fs edit in
  new_files_ edit' = new_files_ edit /\
  forall p, p ∈ deleted_files_ edit' <-> p ∈ deleted_files_ edit \/ exists f, f ∈ fs /\ p = (level, number f).
Proof.
  revert edit. induction fs as [|f fs IH]; intros edit; cbn [fold_left]; [split; [done|]; set_solver|].
  destruct (IH (RemoveFile edit level (number f))) as [-> H]. split; [done|]. intros p. rewrite H.
  cbn [RemoveFile deleted_files_]. rewrite set_insert_elem. split.
  - intros [[->|Hp]|(g & Hg & ->)]; [right; exists f; split; [by left|done]|by left|right; exists g; split; [by right|done]].
  - intros [Hp|(g & [->|Hg]%elem_of_cons & ->)]; [by left; right|by left; left|right; by exists g].
Qed.

Lemma install_new c outs l :
  new_files_ (edit_ c) = [] -> edit_new l (install_edit c outs) = if decide (l = S (c_level c)) then map (fun out => prepare_file (meta_of out)) outs else [].
Proof.
  intros Hn. unfold edit_new, install_edit. destruct (fold_AddFile outs (Z.of_nat (c_level c) + 1) (AddInputDeletions c (edit_ c))) as [-> _].
  unfold AddInputDeletions.
  destruct (fold_RemoveFile (inputs1 c) (Z.of_nat (c_level c) + 1) (fold_left (fun edit f => RemoveFile edit (Z.of_nat (c_level c)) (number f)) (inputs0 c) (edit_ c))) as [-> _].
  destruct (fold_RemoveFile (inputs0 c) (Z.of_nat (c_level c)) (edit_ c)) as [-> _]. rewrite Hn. cbn [app].
  induction outs as [|out outs IH]; cbn [map]; [by destruct (decide _)|]. rewrite filter_cons. cbn [fst].
  destruct (decide (l = S (c_level c))) as [->|Hne].
  - rewrite decide_True by lia. cbn [map snd]. by rewrite IH.
  - by rewrite decide_False by lia.
Qed.

Lemma install_deleted c outs l n :
  deleted_files_ (edit_ c) = [] -> n ∈ edit_deleted l (install_edit c outs) <-> n ∈ map number (inputs_at c l).
Proof.
  intros Hd. unfold edit_deleted, install_edit. destruct (fold_AddFile outs (Z.of_nat (c_level c) + 1) (AddInputDeletions c (edit_ c))) as [_ ->].
  unfold AddInputDeletions.
  destruct (fold_RemoveFile (inputs1 c) (Z.of_nat (c_level c) + 1) (fold_left (fun edit f => RemoveFile edit (Z.of_nat (c_level c)) (number f)) (inputs0 c) (edit_ c))) as [_ H1].
  destruct (fold_RemoveFile (inputs0 c) (Z.of_nat (c_level c)) (edit_ c)) as [_ H0]. rewrite Hd in H0.
  change (map snd) with (fmap (M:=list) (snd (A:=Z) (B:=Z))). change (map number) with (fmap (M:=list) number).
  rewrite !list_elem_of_fmap. unfold inputs_at. split.
  - intros (p & -> & [Hp Hin]%list_elem_of_filter). apply H1 in Hin as [Hin|(f & Hf & ->)].
    + apply H0 in Hin as [Hin|(f & Hf & ->)]; [by apply not_elem_of_nil in Hin|]. cbn [fst] in Hp. rewrite Nat2Z.id in Hp.
      rewrite decide_True by done. by exists f.
    + cbn [fst] in Hp. exists f. rewrite decide_False by lia. rewrite decide_True by lia. done.
  - intros (f & -> & Hf). destruct (decide (l = c_level c)) as [->|Hne]; [|destruct (decide (l = S (c_level c))) as [->|]; [|by apply not_elem_of_nil in Hf]].
    + exists (Z.of_nat (c_level c), number f). split; [done|]. apply list_elem_of_filter. split; [cbn; by rewrite Nat2Z.id|].
      apply H1. left. apply H0. right. by exists f.
    + exists (Z.of_nat (c_level c) + 1, number f). split; [done|]. apply list_elem_of_filter. split; [cbn; lia|].
      apply H1. right. by exists f.
Qed.

(** ** The work *)

Section Work.
Context (E : Env) (files : World E -> gmap bytes bytes) (wcontents : WFile (env_W E) -> bytes)
  (fname : WFile (env_W E) -> bytes) (rest : SFile (env_F E) -> bytes) `{!EnvLaws E files wcontents fname rest}.
Context (NowMicros : World E -> Z) (extend : Z -> bytes -> Z) `{!CrcLaws extend} (z : Compression) `{!CompressionLaws z}.
Context (C : CacheOps TableAndFile) (limit : Z)
  (rep : CState C -> (bytes -> option TableAndFile) -> list (CHandle C * TableAndFile) -> Prop) `{!CacheLaws C limit rep}.
Context (ucmp : Comparator) `{!ComparatorLaws ucmp} (options_ : DBOptions) (policy : option FilterPolicy)
  (ok_keys : list bytes -> Prop) `{!DbTableOptions ucmp (table_options options_) policy ok_keys}.
Context (dbname : bytes) (cache_id : Z) (garbage : bool) (fuel : nat).
Abbreviation icompare := (InternalKeyComparator.Compare ucmp).
Abbreviation o := (table_options options_).
Abbreviation DBImpl := (DBImpl E C).
Abbreviation is_table := (is_table E extend z ucmp options_ ok_keys dbname).
Abbreviation db_holds := (db_holds E extend z C limit rep ucmp options_ ok_keys dbname).
Implicit Types (db : DBImpl) (es : list Entry) (f : FileMetaData) (c : Compaction) (contents : Z -> list Entry) (w : World E).

(** A table as bytes of the file system. *)
Definition stored w contents f : Prop :=
  0 < number f < 2 ^ 64 /\ exists tbl, table_bytes extend z ucmp o ok_keys (contents (number f)) tbl /\ file_size f = zlen tbl /\
    (files w !! table_name dbname (number f) = Some tbl \/
     files w !! table_name dbname (number f) = None /\ files w !! sst_name dbname (number f) = Some tbl).

Lemma stored_is_table w contents f : stored w contents f -> is_table contents w f.
Proof using EnvLaws0.
  intros (Hn & tbl & Ht & Hs & Hw). split; [lia|]. split; [lia|]. destruct Hw as [Hw|[Hw Hw2]].
  - destruct (random_spec w _ _ Hw) as (rf & Erf & Hrf). exists rf, tbl. rewrite Hs. auto.
  - destruct (random_spec w _ _ Hw2) as (rf & Erf & Hrf). exists rf, tbl. rewrite Hs. split; [done|]. split; [done|]. split; [done|].
    right. split; [|done]. by apply random_missing.
Qed.

Lemma file_holds_transport (T T' : FileMetaData -> Prop) contents contents' f :
  contents' (number f) = contents (number f) -> (T f -> T' f) -> file_holds ucmp T contents f -> file_holds ucmp T' contents' f.
Proof using Type. intros Hc HT [H1 H2 H3 H4 H5 H6]. split; unfold file_entries; rewrite ?Hc; auto. Qed.

Lemma version_holds_mono (T T' : FileMetaData -> Prop) contents v :
  (forall f, T f -> T' f) -> version_holds ucmp T contents v -> version_holds ucmp T' contents v.
Proof using Type.
  intros HT [H1 H2 H3 H4]. split; try done. intros l. eapply list.Forall_impl; [apply (H1 l)|]. intros f. apply file_holds_transport; [done|apply HT].
Qed.

Lemma stored_contents w contents contents' f : contents' (number f) = contents (number f) -> stored w contents f -> stored w contents' f.
Proof using Type. unfold stored. by intros ->. Qed.

(** A cache that knows only tables with numbers below [bound]. *)
Definition cache_below (bound : Z) contents (n : nat) (cache : CState C) : Prop :=
  forall contents', (forall k, k < bound -> contents' k = contents k) -> cache_room extend z ucmp C limit rep contents' n cache.

(** The input of the compaction. *)
Lemma make_input_spec db c contents v es bound :
  version_holds ucmp (stored (db_world db) contents) contents v -> compaction_ok ucmp v c ->
  (forall l, Forall (fun f => number f < bound) (level_files v l)) ->
  zlen (inputs0 c) < 2 ^ 31 -> ((0 < c_level c)%nat -> disjoint_files ucmp (inputs0 c)) ->
  cache_below bound contents (length (inputs0 c) + (length (inputs1 c) + 1)) (table_cache_ db) ->
  es_sorted ucmp es -> Forall entry_ok es -> es ≡ₚ level_entries contents (inputs0 c) ++ level_entries contents (inputs1 c) ->
  exists cache input, make_input E extend z C ucmp options_ dbname cache_id db c = Some (cache, input) /\
    cache_below bound contents 1 cache /\
    cursor_at fits icompare (input_ops E extend z C ucmp options_ dbname cache_id db) (map entry_kv es) input (length es).
Proof using All.
  intros Hv Hc Hnum Hlen0 Hd0 Hcache Hs Hok HP.
  assert (forall l fs, (l < kNumLevels)%nat -> fs ⊆ level_files v l -> forall contents', (forall k, k < bound -> contents' k = contents k) ->
    Forall (file_holds ucmp (is_table contents' (db_world db)) contents') fs /\ level_entries contents' fs = level_entries contents fs) as Htr.
  { intros l fs Hl Hsub contents' Heq. assert (forall f, f ∈ fs -> contents' (number f) = contents (number f)) as Hn.
    { intros f Hf. apply Heq. pose proof (Hnum l) as H. rewrite list.Forall_forall in H. by apply H, Hsub. }
    split.
    - apply list.Forall_forall. intros f Hf. pose proof (vh_files _ _ _ _ Hv l) as H. rewrite list.Forall_forall in H.
      eapply file_holds_transport; [by apply Hn| |by apply H, Hsub].
      intros Hst. apply stored_is_table. by apply (stored_contents _ contents), Hst; apply Hn.
    - unfold level_entries. f_equal. apply list_fmap_ext. intros i f Hf. apply Hn. by eapply list_elem_of_lookup_2. }
  pose proof (co_level _ _ _ Hc) as Hlev. pose proof (co_inputs0 _ _ _ Hc) as Hsub0.
  assert (inputs1 c ⊆ level_files v (c_level c + 1)) as Hsub1 by (rewrite (co_inputs1 _ _ _ Hc); intros f [_ ?]%list_elem_of_filter; done).
  destruct (vh_disjoint _ _ _ _ Hv (c_level c + 1)%nat ltac:(lia)) as [[Hdo Hds] Hcnt].
  assert (forall contents', (forall k, k < bound -> contents' k = contents k) ->
    exists cache input, make_input E extend z C ucmp options_ dbname cache_id db c = Some (cache, input) /\
      cache_room extend z ucmp C limit rep contents' 1 cache /\
      cursor_at fits icompare (input_ops E extend z C ucmp options_ dbname cache_id db) (map entry_kv es) input (length es)) as Hall.
  { intros contents' Heq. destruct (Htr (c_level c) (inputs0 c) ltac:(lia) Hsub0 contents' Heq) as [F0 E0].
    destruct (Htr (c_level c + 1)%nat (inputs1 c) ltac:(lia) Hsub1 contents' Heq) as [F1 E1].
    apply (MakeInputIterator_of ucmp (AnyOps extend z) (error_iter extend z)
      (tc_NewIterator extend z C dbname o (NewRandomAccessFile E (db_world db)) cache_id (paranoid_checks o))
      (cache_room extend z ucmp C limit rep contents') (is_table contents' (db_world db)) contents' 0 (table_cache_ db) c es).
    - by apply Hcache.
    - split; [done|]. split; [done|]. done.
    - split; [done|]. rewrite (co_inputs1 _ _ _ Hc). split.
      + pose proof (length_filter (overlaps ucmp (fst (user_range ucmp (inputs0 c))) (snd (user_range ucmp (inputs0 c)))) (level_files v (c_level c + 1))). lia.
      + intros _. split; [|by apply StronglySorted_filter]. apply list.Forall_forall. intros f [_ Hf]%list_elem_of_filter.
        rewrite list.Forall_forall in Hdo. by apply Hdo.
    - done.
    - done.
    - by rewrite E0, E1. }
  destruct (Hall contents (fun k _ => eq_refl)) as (cache & input & Em & _ & Hcur). exists cache, input. split; [done|]. split; [|done].
  intros contents' Heq. destruct (Hall contents' Heq) as (cache2 & input2 & Em2 & Hr & _). rewrite Em in Em2. by injection Em2 as <- <-.
Qed.

(** A version that holds its tables is in order. *)
Lemma version_holds_ok (T : FileMetaData -> Prop) contents v :
  length (files_ v) = kNumLevels -> (forall l, zlen (level_files v l) < 2 ^ 31) -> version_holds ucmp T contents v -> version_ok ucmp v.
Proof using ComparatorLaws0.
  intros Hlen Hcnt Hv. split; [done| |intros l Hl; by apply (vh_disjoint _ _ _ _ Hv)|done].
  intros l. eapply list.Forall_impl; [apply (vh_files _ _ _ _ Hv l)|]. intros f Hf. split; [by eapply holds_file_ok|].
  destruct (fh_largest _ _ _ _ Hf) as (e & He & ->). pose proof (fh_ok _ _ _ _ Hf) as Hok. rewrite list.Forall_forall in Hok.
  unfold entry_ikey. do 3 eexists. split; [done|]. apply (Hok e He).
Qed.

(** What a compaction object must be like to be run. *)
Record runnable v c : Prop := {
  rn_ok : compaction_ok ucmp v c;
  rn_version : input_version_ c = v;
  rn_nodup : NoDup (inputs0 c);
  rn_count : zlen (inputs0 c) < 2 ^ 31;
  rn_disjoint : (0 < c_level c)%nat -> disjoint_files ucmp (inputs0 c);
  rn_ptrs : level_ptrs_ c = replicate kNumLevels 0%nat;
  rn_new : new_files_ (edit_ c) = [];
  rn_log : has_log_number_ (edit_ c) = false;
  rn_deleted : deleted_files_ (edit_ c) = [] }.

Lemma start_ptrs v c k : runnable v c -> ptrs_ok ucmp (input_version_ c) k (level_ptrs_ c).
Proof using Type.
  intros H. rewrite (rn_ptrs _ _ H). split; [done|]. intros l i f Hi. destruct (replicate kNumLevels 0%nat !! l) as [n|] eqn:E0; [|cbn in Hi; lia].
  apply lookup_replicate in E0 as [-> _]. cbn in Hi. lia.
Qed.

(** Consecutive chunks of sorted entries. *)
Lemma chunks_order chunks : es_sorted ucmp (concat chunks) -> forall i j a b x y,
  (i < j)%nat -> chunks !! i = Some a -> chunks !! j = Some b -> x ∈ a -> y ∈ b -> icompare (entry_ikey x) (entry_ikey y) = Lt.
Proof using Type.
  induction chunks as [|ks chunks IH]; intros Hs i j a b x y Hij Ha Hb Hx Hy; [done|]. cbn [concat] in Hs. unfold es_sorted in Hs.
  apply StronglySorted_app in Hs as (H1 & _ & H2). destruct j as [|j]; [lia|]. destruct i as [|i]; cbn in Ha, Hb.
  - injection Ha as ->. apply H1; [done|]. apply list_elem_of_In, in_concat. exists b.
    split; apply list_elem_of_In; [by eapply list_elem_of_lookup_2|done].
  - apply (IH H2 i j a b); [lia|done..].
Qed.

Lemma StronglySorted_of_lookup {A} (R : A -> A -> Prop) (l : list A) :
  (forall i j x y, (i < j)%nat -> l !! i = Some x -> l !! j = Some y -> R x y) -> StronglySorted R l.
Proof using Type.
  induction l as [|x l IH]; intros H; constructor.
  - apply IH. intros i j a b Hij Ha Hb. apply (H (S i) (S j)); [lia|done|done].
  - apply list.Forall_forall. intros y [j Hj]%list_elem_of_lookup. apply (H 0%nat (S j)); [lia|done|done].
Qed.

Section Outputs.
Context db c (contents : Z -> list Entry) (v : Version) (es : list Entry) (snap : Z).
Abbreviation next := (vs_next_file_number (versions_ db)).
Abbreviation kept := (survivors ucmp snap (below ucmp c) None es).
Context (w' : World E) (cache' : CState C) (pend' : gset Z) (cs' : CompactionState E) (chunks : list (list Entry)).
Context (Hw : written E files wcontents fname extend z C limit rep ucmp options_ ok_keys dbname db c snap contents kept w' cache' pend' cs' chunks [])
  (Hch : concat chunks = kept).
Context (Hsort : es_sorted ucmp es) (Hok : Forall entry_ok es) (Hnd : NoDup (map e_seq es)).
Context (Hnext : 0 < next) (Hbound : next + zlen es < 2 ^ 64).
Abbreviation contents' := (contents_with E C db contents chunks).
Abbreviation metas := (map (fun out => prepare_file (meta_of out)) (outputs E cs')).

Lemma outputs_length : length (outputs E cs') = length chunks.
Proof using Hw. by destruct Hw as [_ [_ ?] _]. Qed.

Lemma chunks_length : (length chunks <= length es)%nat.
Proof using Hw Hch.
  pose proof (chunks_bound chunks) as H. rewrite Hch in H. etrans; [apply H|].
  - intros j ks Hj. destruct Hw as [[_ _ Hd _ _ _] _ _]. by apply (Hd j).
  - apply sublist_length, survivors_sublist.
Qed.

(** The [j]th output. *)
Lemma output_at j f : metas !! j = Some f -> exists ks tbl, chunks !! j = Some ks /\ ks <> [] /\
  f = prepare_file (meta_of (out_of (next + Z.of_nat j) (zlen tbl) ks)) /\
  files w' !! table_name dbname (next + Z.of_nat j) = Some tbl /\ table_bytes extend z ucmp o ok_keys ks tbl /\
  file_entries contents' f = ks.
Proof using All.
  change (map (fun out => prepare_file (meta_of out)) (outputs E cs')) with ((fun out => prepare_file (meta_of out)) <$> outputs E cs').
  rewrite list_lookup_fmap. intros Hj. destruct (outputs E cs' !! j) as [out|] eqn:Eo; [|done]. injection Hj as <-.
  pose proof (lookup_lt_Some _ _ _ Eo) as Hlt. rewrite outputs_length in Hlt. destruct (lookup_lt_is_Some_2 chunks j Hlt) as [ks Hks].
  destruct Hw as [[_ _ Hd _ _ _] _ _]. destruct (Hd j ks Hks) as (Hne & tbl & Ho & Hf & Ht).
  rewrite Eo in Ho. injection Ho as ->. exists ks, tbl. split; [done|]. split; [done|]. split; [done|]. split; [done|]. split; [done|].
  unfold file_entries. cbn [prepare_file meta_of FileMetaData_new number out_of out_number].
  by apply (proj2 (contents_with_extends E C db contents chunks)).
Qed.

Lemma output_range n size ks : ks <> [] -> exists a b, a ∈ ks /\ b ∈ ks /\
  smallest (prepare_file (meta_of (out_of n size ks))) = entry_ikey a /\ largest (prepare_file (meta_of (out_of n size ks))) = entry_ikey b /\
  forall e, es_sorted ucmp ks -> e ∈ ks -> icompare (entry_ikey a) (entry_ikey e) <> Gt /\ icompare (entry_ikey e) (entry_ikey b) <> Gt.
Proof using ComparatorLaws0.
  intros Hne. destruct ks as [|a ks]; [done|]. destruct (list.last (a :: ks)) as [b|] eqn:Eb; [|by apply list.last_None in Eb].
  exists a, b. split; [by left|]. split; [by apply list.last_Some_elem_of|].
  cbn [prepare_file meta_of FileMetaData_new smallest largest out_of out_smallest out_largest]. unfold range_of. cbn [head]. rewrite Eb.
  split; [done|]. split; [done|]. intros e Hs He.
  destruct (range_holds ucmp (FileMetaData_new n size [] []) (a :: ks) e Hs He) as (H1 & H2 & _).
  unfold range_of in H1, H2. cbn [head] in H1, H2. rewrite Eb in H1, H2. done.
Qed.

Lemma metas_entries : level_entries contents' metas = kept.
Proof using All.
  unfold level_entries. rewrite <- Hch. f_equal. apply list_eq. intros j.
  change (map (file_entries contents') metas) with (file_entries contents' <$> metas). rewrite list_lookup_fmap.
  destruct (metas !! j) as [f|] eqn:Ef; cbn [fmap option_fmap option_map].
  - destruct (output_at j f Ef) as (ks & tbl & -> & _ & _ & _ & _ & ->). done.
  - symmetry. apply lookup_ge_None. apply lookup_ge_None in Ef. rewrite length_map in Ef. by rewrite outputs_length in Ef.
Qed.

Lemma chunk_entries j ks e : chunks !! j = Some ks -> e ∈ ks -> e ∈ es.
Proof using Hch.
  intros Hj He. apply (survivors_elem ucmp snap (below ucmp c) None). rewrite <- Hch. apply list_elem_of_In, in_concat. exists ks.
  split; apply list_elem_of_In; [by eapply list_elem_of_lookup_2|done].
Qed.

Lemma metas_hold f : f ∈ metas -> file_holds ucmp (stored w' contents') contents' f /\ exists e, e ∈ file_entries contents' f /\ smallest f = entry_ikey e.
Proof using All.
  intros [j Hj]%list_elem_of_lookup. destruct (output_at j f Hj) as (ks & tbl & Hk & Hne & -> & Hf & Ht & Ee).
  destruct (output_range (next + Z.of_nat j) (zlen tbl) ks Hne) as (a & b & Ha & Hb & Es & El & Hr).
  assert (es_sorted ucmp ks) as Hks by (apply Ht). rewrite Ee, Es. split; [|by exists a].
  pose proof (lookup_lt_Some _ _ _ Hk) as Hjl. pose proof chunks_length as Hcl.
  assert (contents' (next + Z.of_nat j) = ks) as Ec by (by rewrite <- Ee).
  split; rewrite ?Ee, ?Es, ?El.
  - split; [cbn; lia|]. exists tbl. cbn [prepare_file meta_of FileMetaData_new number out_of out_number file_size out_file_size].
    rewrite Ec. split; [done|]. split; [done|]. by left.
  - apply list.Forall_forall. intros e He. rewrite list.Forall_forall in Hok. by eapply Hok, chunk_entries.
  - done.
  - assert (NoDup (map e_seq (concat chunks))) as Hndc by (rewrite Hch; by apply survivors_NoDup).
    apply list_elem_of_split_length in Hk as (l1 & l2 & -> & _). rewrite List.concat_app, map_app in Hndc. cbn [concat] in Hndc.
    rewrite map_app in Hndc. apply list.NoDup_app in Hndc as (_ & _ & Hndc). by apply list.NoDup_app in Hndc as (? & _ & _).
  - intros e He. by apply Hr.
  - by exists b.
Qed.

Lemma metas_sorted : StronglySorted (fun f g => icompare (largest f) (smallest g) = Lt) metas.
Proof using All.
  apply StronglySorted_of_lookup. intros i j f g Hij Hf Hg.
  destruct (output_at i f Hf) as (ks & tbl & Hk & Hne & -> & _). destruct (output_at j g Hg) as (ks2 & tbl2 & Hk2 & Hne2 & -> & _).
  destruct (output_range (next + Z.of_nat i) (zlen tbl) ks Hne) as (a & b & Ha & Hb & Es & El & _).
  destruct (output_range (next + Z.of_nat j) (zlen tbl2) ks2 Hne2) as (a2 & b2 & Ha2 & Hb2 & Es2 & El2 & _).
  rewrite El, Es2. apply (chunks_order chunks) with (i := i) (j := j) (a := ks) (b := ks2); [|done..].
  rewrite Hch. by apply survivors_sorted.
Qed.

(** The old tables are still there. *)
Lemma old_stored f : 0 <= number f < next -> stored (db_world db) contents f -> stored w' contents' f.
Proof using All.
  intros Hn (Hr & tbl & Ht & Hs & Hf). pose proof (proj1 (contents_with_extends E C db contents chunks) (number f) ltac:(lia)) as Ec.
  split; [done|]. exists tbl. rewrite Ec. split; [done|]. split; [done|]. destruct Hw as [[_ _ _ Hfiles _ _] _ _].
  assert (forall n, next <= n < 2 ^ 64 -> table_name dbname (number f) <> table_name dbname n) as N1.
  { intros n Hx Eq. apply table_name_inj in Eq; lia. }
  assert (forall n, next <= n < 2 ^ 64 -> sst_name dbname (number f) <> table_name dbname n) as N2.
  { intros n Hx Eq. apply sst_name_inj in Eq; lia. }
  rewrite (Hfiles _ N1), (Hfiles _ N2). done.
Qed.

Lemma install_fresh :
  new_files_ (edit_ c) = [] -> distinct_files v -> (forall l, Forall (fun f => number f < next) (level_files v l)) ->
  fresh_edits (files_ v) [install_edit c (outputs E cs')].
Proof using All.
  intros R7 Hdist Hnum. intros l base Hbase. unfold fresh_files. cbn [map concat]. rewrite app_nil_r, map_app. apply list.NoDup_app. split; [by apply (Hdist l)|].
  assert (level_files v l = base) as El by (unfold level_files; by rewrite Hbase).
  rewrite install_new by done. destruct (decide _); [|split; [intros x _; apply not_elem_of_nil|constructor]]. split.
  - intros n (f & -> & Hf)%list_elem_of_fmap (g & Hg & [j Hj]%list_elem_of_lookup)%list_elem_of_fmap.
    destruct (output_at j g Hj) as (ks & tbl & _ & _ & -> & _). cbn in Hg. specialize (Hnum l). rewrite El, list.Forall_forall in Hnum.
    specialize (Hnum f Hf). lia.
  - apply NoDup_alt. intros i j n Hi Hj. change (map number metas) with (number <$> metas) in Hi, Hj. rewrite list_lookup_fmap in Hi, Hj.
    destruct (metas !! i) as [f|] eqn:Ef; [|done]. destruct (metas !! j) as [g|] eqn:Eg; [|done].
    destruct (output_at i f Ef) as (? & ? & _ & _ & -> & _). destruct (output_at j g Eg) as (? & ? & _ & _ & -> & _).
    cbn in Hi, Hj. injection Hi as Hi. injection Hj as Hj. lia.
Qed.

Lemma install_sorted v' cp :
  new_files_ (edit_ c) = [] -> distinct_files v -> (forall l, Forall (fun f => number f < next) (level_files v l)) -> version_sorted ucmp (files_ v) ->
  files_ v' = saved ucmp cp (files_ v) [install_edit c (outputs E cs')] -> version_sorted ucmp (files_ v') /\ distinct_files v'.
Proof using All.
  intros R7 Hdist Hnum Hvs Hv'. pose proof (install_fresh R7 Hdist Hnum) as Hfresh. rewrite Hv'.
  split; [by apply saved_sorted|]. intros l fs Hl. rewrite Hv' in Hl.
  assert (is_Some (files_ v !! l)) as [base Hb].
  { apply lookup_lt_is_Some_2. apply lookup_lt_Some in Hl. rewrite length_saved in Hl by apply Hvs. by destruct Hvs as [-> _]. }
  destruct (saved_lookup ucmp cp (files_ v) [install_edit c (outputs E cs')] l base Hvs Hfresh Hb) as (fs' & Efs & _ & Hperm).
  assert (fs' = fs) as -> by congruence. rewrite Hperm. cbn [fold_left]. unfold edited.
  specialize (Hfresh l base Hb). unfold fresh_files in Hfresh. cbn [map concat] in Hfresh. rewrite app_nil_r in Hfresh.
  eapply sublist_NoDup; [exact Hfresh|]. apply sublist_map, sublist_app; [apply sublist_filter|done].
Qed.

(** The version that the edit makes. *)
Lemma installed_version v' cp :
  runnable v c -> version_holds ucmp (stored (db_world db) contents) contents v ->
  version_sorted ucmp (files_ v) -> distinct_files v -> (forall l, Forall (fun f => number f < next) (level_files v l)) ->
  (forall l, zlen (level_files v l) + zlen es < 2 ^ 31) ->
  es ≡ₚ level_entries contents (inputs0 c) ++ level_entries contents (inputs1 c) ->
  files_ v' = saved ucmp cp (files_ v) [install_edit c (outputs E cs')] ->
  Compacted ucmp (stored (db_world db) contents) (stored w' contents') contents contents' v v' c snap metas es.
Proof using All.
  intros [R1 R2 R3 R4 R5 R6 R7 _ R8] Hv Hvs Hdist Hnum Hcnt HP Hv'.
  assert (forall l, NoDup (map number (level_files v l))) as Hnums.
  { intros l. unfold level_files. destruct (files_ v !! l) as [base|] eqn:Eb; cbn; [by apply (Hdist l)|constructor]. }
  pose proof (install_fresh R7 Hdist Hnum) as Hfresh.
  assert (forall l, level_files v' l ≡ₚ rest_at v c l ++ outputs_at c metas l /\ files_sorted ucmp (level_files v' l)) as Hlev.
  { intros l. unfold level_files at 1 2. rewrite Hv'. destruct (files_ v !! l) as [base|] eqn:Eb.
    - destruct (saved_lookup ucmp cp (files_ v) [install_edit c (outputs E cs')] l base Hvs Hfresh Eb) as (fs & -> & Hs & Hperm).
      cbn [from_option default id]. split; [|done]. rewrite Hperm. cbn [fold_left]. unfold edited, rest_at, level_files. rewrite Eb. cbn [from_option default id].
      rewrite install_new by done. unfold outputs_at. f_equiv.
      rewrite (list_filter_iff (fun f => number f ∉ edit_deleted l (install_edit c (outputs E cs'))) (fun f => number f ∉ map number (inputs_at c l))); [done|].
      intros f. by rewrite install_deleted.
    - assert (length (files_ v) <= l)%nat as Hl by (by apply lookup_ge_None). destruct Hvs as [Hvl Hvs].
      assert (saved ucmp cp (files_ v) [install_edit c (outputs E cs')] !! l = None) as ->.
      { apply lookup_ge_None. by rewrite length_saved, <- Hvl. }
      cbn. split; [|constructor]. unfold rest_at, level_files, outputs_at. rewrite Eb. pose proof (co_level _ _ _ R1).
      rewrite decide_False by lia. done. }
  split; try done.
  - apply Hlev.
  - intros l _. apply Hlev.
  - intros l. rewrite (proj1 (Hlev l)), length_app. specialize (Hcnt l).
    assert (length (rest_at v c l) <= length (level_files v l))%nat as H1 by apply length_filter.
    assert (length (outputs_at c metas l) <= length es)%nat as H2.
    { unfold outputs_at. destruct (decide _); [|cbn; lia]. rewrite length_map, outputs_length. apply chunks_length. }
    lia.
  - intros l f Hf. specialize (Hnum l). rewrite list.Forall_forall in Hnum. specialize (Hnum f Hf).
    split; [by apply (contents_with_extends E C db contents chunks)|]. intros Hst. apply old_stored; [|done]. destruct Hst as [? _]. lia.
  - apply metas_hold.
  - apply metas_sorted.
  - apply metas_entries.
Qed.
End Outputs.

(** The state before and after: the tables of the current version are files, the
    cache knows no number that is still to come, and the manifest is open. *)
Record db_stored db contents (mem_es imm_es : list Entry) (v : Version) (room : nat) : Prop := {
  st_holds : exists hs, db_holds contents db mem_es imm_es v hs;
  st_tables : version_holds ucmp (stored (db_world db) contents) contents v;
  st_sorted : version_sorted ucmp (files_ v);
  st_distinct : distinct_files v;
  st_numbers : forall l, Forall (fun f => number f < vs_next_file_number (versions_ db)) (level_files v l);
  st_next : 0 < vs_next_file_number (versions_ db);
  st_cache : cache_below (vs_next_file_number (versions_ db)) contents room (table_cache_ db);
  st_manifest : exists n edits log, vs_descriptor (versions_ db) = Some log /\
    descriptor_at E wcontents fname extend dbname n edits log }.

(** The order of the memtables before a version. *)
Lemma front_newer contents mem_es imm_es v :
  sources_ordered ucmp (mem_es :: imm_es :: version_sources contents v) ->
  NoDup (map e_seq ((mem_es ++ imm_es) ++ all_entries contents v)) /\ newer ucmp (mem_es ++ imm_es) (all_entries contents v) /\
  newer ucmp mem_es imm_es.
Proof using Type.
  intros [Hnd Hs]. apply StronglySorted_inv in Hs as [Hs Hm]. apply StronglySorted_inv in Hs as [_ Hi].
  apply list.Forall_cons in Hm as [Hmi Hm]. rewrite list.Forall_forall in Hm, Hi. split; [|split; [|done]].
  - cbn [concat] in Hnd. by rewrite version_sources_entries, app_assoc in Hnd.
  - intros e1 e2 H1 H2. rewrite <- version_sources_entries in H2. apply list_elem_of_In, in_concat in H2 as (src & Hsrc & H2).
    apply list_elem_of_In in Hsrc, H2. apply elem_of_app in H1 as [H1|H1]; [by apply (Hm src)|by apply (Hi src)].
Qed.

Lemma lookup_db_entries contents mem_es imm_es v u s :
  NoDup (map e_seq ((mem_es ++ imm_es) ++ all_entries contents v)) ->
  lookup_entry ucmp (db_entries contents mem_es imm_es v) u s = lookup_entry ucmp ((mem_es ++ imm_es) ++ all_entries contents v) u s.
Proof using ComparatorLaws0.
  intros Hnd. unfold lookup_entry, db_entries. cbn [concat].
  rewrite (newest_permutation ucmp ((mem_es ++ imm_es) ++ all_entries contents v) (mem_es ++ imm_es ++ concat (version_sources contents v))); [done|done|].
  by rewrite version_sources_entries, app_assoc.
Qed.

(** The entries of the inputs. *)
Lemma inputs_entries_ok (T : FileMetaData -> Prop) contents v c es :
  version_holds ucmp T contents v -> distinct_files v -> runnable v c ->
  es ≡ₚ level_entries contents (inputs0 c) ++ level_entries contents (inputs1 c) -> Forall entry_ok es /\ NoDup (map e_seq es).
Proof using Type.
  intros Hv Hdist Hrun HP. pose proof (rn_ok _ _ Hrun) as Hc.
  assert (forall l, NoDup (map number (level_files v l))) as Hnums.
  { intros l. unfold level_files. destruct (files_ v !! l) as [base|] eqn:Eb; cbn; [by apply (Hdist l)|constructor]. }
  split.
  - rewrite HP. apply list.Forall_forall. intros e [(f & Hf & He)%level_entries_elem|(f & Hf & He)%level_entries_elem]%elem_of_app.
    + pose proof (vh_files _ _ _ _ Hv (c_level c)) as H. rewrite list.Forall_forall in H.
      pose proof (fh_ok _ _ _ _ (H f (co_inputs0 _ _ _ Hc f Hf))) as Hok. rewrite list.Forall_forall in Hok. by apply Hok.
    + pose proof (vh_files _ _ _ _ Hv (c_level c + 1)) as H. rewrite list.Forall_forall in H. rewrite (co_inputs1 _ _ _ Hc) in Hf.
      apply list_elem_of_filter in Hf as [_ Hf]. pose proof (fh_ok _ _ _ _ (H f Hf)) as Hok. rewrite list.Forall_forall in Hok. by apply Hok.
  - destruct (vh_ordered _ _ _ _ Hv) as [Hnd _]. rewrite version_sources_entries, (inputs_and_others ucmp contents v c Hc (rn_nodup _ _ Hrun) Hnums) in Hnd.
    rewrite map_app in Hnd. rewrite HP. by apply list.NoDup_app in Hnd as (? & _ & _).
Qed.

(** The memtables before a version. *)
Lemma front_sources contents mem_es imm_es v :
  newer ucmp (mem_es ++ imm_es) (all_entries contents v) -> newer ucmp mem_es imm_es -> StronglySorted (newer ucmp) (version_sources contents v) ->
  NoDup (map e_seq ((mem_es ++ imm_es) ++ all_entries contents v)) -> sources_ordered ucmp (mem_es :: imm_es :: version_sources contents v).
Proof using Type.
  intros Hfn Hmi Hs Hnd. split.
  { cbn [concat]. by rewrite version_sources_entries, app_assoc. }
  assert (forall front, (forall e, e ∈ front -> e ∈ mem_es ++ imm_es) -> Forall (newer ucmp front) (version_sources contents v)) as Hall.
  { intros front Hin. apply list.Forall_forall. intros src Hsrc e1 e2 H1 H2. apply (Hfn e1 e2); [by apply Hin|].
    rewrite <- version_sources_entries. apply list_elem_of_In, in_concat. exists src. by split; apply list_elem_of_In. }
  constructor; [constructor; [done|]|constructor; [done|]]; apply Hall; intros e He; apply elem_of_app; auto.
Qed.

(** ... whose entries are among the old ones. *)
Lemma front_ordered contents contents' mem_es imm_es v v' :
  sources_ordered ucmp (mem_es :: imm_es :: version_sources contents v) -> StronglySorted (newer ucmp) (version_sources contents' v') ->
  (forall e, e ∈ all_entries contents' v' -> e ∈ all_entries contents v) -> NoDup (map e_seq ((mem_es ++ imm_es) ++ all_entries contents' v')) ->
  sources_ordered ucmp (mem_es :: imm_es :: version_sources contents' v').
Proof using Type.
  intros Hord Hs Hsub Hnd. destruct (front_newer _ _ _ _ Hord) as (_ & Hfn & Hmi). apply front_sources; [|done..].
  intros e1 e2 H1 H2. apply Hfn; [done|by apply Hsub].
Qed.

Section Run.
Context db (contents : Z -> list Entry) (mem_es imm_es : list Entry) (v : Version) (c : Compaction) (snap : Z) (es : list Entry).
Abbreviation next := (vs_next_file_number (versions_ db)).
Abbreviation kept := (survivors ucmp snap (below ucmp c) None es).
Context (Hst : db_stored db contents mem_es imm_es v (length (inputs0 c) + (length (inputs1 c) + 1))).
Context (Hrun : runnable v c) (Hb : boundaries_respected ucmp contents v c).
Context (Hold : oldest_snapshot E C db = Some (db, snap)) (Hsnap : snap < kMaxSequenceNumber).
Context (Hdown : shutting_down_ db = false) (Himm : has_imm_ db = false).
Context (Hsort : es_sorted ucmp es) (HP : es ≡ₚ level_entries contents (inputs0 c) ++ level_entries contents (inputs1 c)) (Hfuel : (length es < fuel)%nat).
Context (Hbound : next + zlen es < 2 ^ 64) (Hcnt : forall l, zlen (level_files v l) + zlen es < 2 ^ 31).
Context (Hfits : forall a ks b, a ++ ks ++ b = kept -> table_fits E wcontents extend z ucmp o ok_keys ks).

(** The loop, from the state of the database. *)
Lemma work_written : exists cache input w' cache' pend' cs' chunks,
  let db0 := set_table_cache cache db in
  let I := input_ops E extend z C ucmp options_ dbname cache_id db in
  make_input E extend z C ucmp options_ dbname cache_id db c = Some (cache, input) /\
  compact_files E NowMicros extend z C ucmp options_ dbname cache_id garbage fuel I input (mkCompact E c snap [] None 0) db0 =
    Some (running E C db0 w' cache' pend' (length chunks), (cs', 0, Status_OK)) /\
  written E files wcontents fname extend z C limit rep ucmp options_ ok_keys dbname db0 c snap contents kept w' cache' pend' cs' chunks [] /\
  concat chunks = kept.
Proof using All.
  destruct Hst as [_ Htab Hvs Hdist Hnum Hnext Hcache _].
  destruct (inputs_entries_ok (stored (db_world db) contents) contents v c es Htab Hdist Hrun HP) as [Hok Hnde].
  destruct (make_input_spec db c contents v es _ Htab (rn_ok _ _ Hrun) Hnum (rn_count _ _ Hrun) (rn_disjoint _ _ Hrun) Hcache Hsort Hok HP)
    as (cache & input & Em & Hcache1 & Hcursor).
  set (db0 := set_table_cache cache db). set (cs0 := mkCompact E c snap [] None 0).
  assert (running E C db0 (db_world db) cache (pending_outputs_ db) 0 = db0) as Hrun0.
  { unfold running, db0. destruct db as [w0 c0 a1 a2 a3 a4 a5 a6 a7 a8 a9 a10 a11 a12 a13 a14 a15 a16 vs a18 a19 a20 a21]. destruct vs.
    unfold with_next, set_numbers. cbn. by rewrite Z.add_0_r. }
  destruct (compact_files_spec E files wcontents fname rest NowMicros extend z C limit rep ucmp options_ policy ok_keys dbname cache_id garbage fuel
    (input_ops E extend z C ucmp options_ dbname cache_id db) fits db0 c snap contents kept) with (es := es) (input := input) (i := length es)
    (w := db_world db) (cache := cache) (pend := pending_outputs_ db) (cs := cs0) as (w' & cache' & pend' & cs' & chunks & Ef & Hw & Hch); try done.
  - assert (length kept <= length es)%nat by apply sublist_length, survivors_sublist. unfold db0. cbn. lia.
  - rewrite (rn_version _ _ Hrun). eapply version_holds_ok; [apply Hvs| |exact Htab]. intros l. specialize (Hcnt l). lia.
  - intros k. by apply (start_ptrs v).
  - split; [split|done|by exists kept]; try done; [cbn; set_solver|]. intros contents2 [Hx _]. by apply Hcache1.
  - rewrite Hrun0 in Ef. by exists cache, input, w', cache', pend', cs', chunks.
Qed.

(** The whole operation is the loop and the edit. *)
Lemma work_runs cache input db1 cs' vs' w' :
  make_input E extend z C ucmp options_ dbname cache_id db c = Some (cache, input) ->
  compact_files E NowMicros extend z C ucmp options_ dbname cache_id garbage fuel (input_ops E extend z C ucmp options_ dbname cache_id db) input
    (mkCompact E c snap [] None 0) (set_table_cache cache db) = Some (db1, (cs', 0, Status_OK)) ->
  LogAndApply E extend ucmp dbname (db_world db1) (versions_ db1) (install_edit (compaction E cs') (outputs E cs')) garbage = Some (w', vs', Status_OK) ->
  exists db', DoCompactionWork E NowMicros extend z C ucmp options_ dbname cache_id garbage fuel (CompactionState_new E c) db = Some (db', (cs', Status_OK)) /\
    db_world db' = w' /\ table_cache_ db' = table_cache_ db1 /\ mem_ db' = mem_ db1 /\ imm_ db' = imm_ db1 /\ versions_ db' = vs'.
Proof using All.
  intros Em Ef El. destruct Hst as [(hs & [_ _ _ Hcur _ _ _ _]) _ _ _ _ _ _ _].
  unfold DoCompactionWork, now. dbm. cbn [CompactionState_new compaction builder]. unfold NumLevelFiles. rewrite Hcur. cbn [mbind option_bind]. dbm.
  assert ((zlen (level_files v (c_level c)) >? 0) = true) as ->.
  { apply Z.gtb_lt. pose proof (co_nonempty _ _ _ (rn_ok _ _ Hrun)) as Hne. pose proof (co_inputs0 _ _ _ (rn_ok _ _ Hrun)) as Hin.
    destruct (inputs0 c) as [|f fs]; [done|]. specialize (Hin f ltac:(by left)). destruct (level_files v (c_level c)); [by apply not_elem_of_nil in Hin|cbn; lia]. }
  dbm. erewrite bind_step by exact Hold. cbn [CompactionState_new compaction outputs builder total_bytes].
  erewrite bind_step; [|rewrite Em; cbn [mbind option_bind]; exact Ef]. cbn [fst snd]. dbm. cbn [unless_ok ok Status_OK state_].
  assert (InstallCompactionResults E extend C ucmp dbname garbage cs' db1 = Some (set_db_world w' (DbState.set_versions vs' db1), Status_OK)) as Ei.
  { unfold InstallCompactionResults. change (fold_left _ (outputs E cs') _) with (install_edit (compaction E cs') (outputs E cs')).
    unfold log_and_apply. dbm. rewrite El. by dbm. }
  erewrite bind_step by exact Ei. cbn [ok Status_OK state_]. unfold add_stats. dbm. eexists. split; [done|]. by repeat split.
Qed.

(** The state afterwards. *)
Lemma work_stored cache w' cache' pend' cs' chunks db' v' cp :
  let db0 := set_table_cache cache db in
  let contents' := contents_with E C db0 contents chunks in
  written E files wcontents fname extend z C limit rep ucmp options_ ok_keys dbname db0 c snap contents kept w' cache' pend' cs' chunks [] ->
  concat chunks = kept -> files_ v' = saved ucmp cp (files_ v) [install_edit c (outputs E cs')] ->
  db_world db' = w' -> table_cache_ db' = cache' -> mem_ db' = mem_ db -> imm_ db' = imm_ db -> versions_ok (versions_ db') ->
  current (versions_ db') = Some v' -> vs_next_file_number (versions_ db') = next + Z.of_nat (length chunks) ->
  (exists n edits log, vs_descriptor (versions_ db') = Some log /\ descriptor_at E wcontents fname extend dbname n edits log) ->
  db_stored db' contents' mem_es imm_es v' 1 /\
  (forall u s, snap <= s -> lookup_entry ucmp (db_entries contents' mem_es imm_es v') u s = lookup_entry ucmp (db_entries contents mem_es imm_es v) u s).
Proof using All.
  intros db0 contents' Hw Hch Hv' F1 F2 F3 F4 F5 F6 Hnext' Hman.
  destruct Hst as [(hs & H) Htab Hvs Hdist Hnum Hnext Hcache _]. pose proof H as [(m & Hm & Hrep) Hi _ _ _ Hord _ _]. pose proof (rn_ok _ _ Hrun) as Hcok.
  destruct (inputs_entries_ok (stored (db_world db) contents) contents v c es Htab Hdist Hrun HP) as [Hok Hnde].
  pose proof (installed_version db0 c contents v es snap w' cache' pend' cs' chunks Hw Hch Hsort Hok Hnde Hnext Hbound v' _ Hrun Htab Hvs Hdist Hnum Hcnt HP Hv') as HC.
  fold contents' in HC. destruct (front_newer _ _ _ _ Hord) as (Hnd & Hfn & Hmi).
  pose proof (compacted_holds ucmp _ _ contents contents' v v' c snap _ es Htab Hcok HC Hb) as Hholds.
  pose proof (new_entries ucmp _ _ contents contents' v v' c snap _ es Hcok HC) as En.
  pose proof (old_entries ucmp _ _ contents contents' v v' c snap _ es Hcok HC) as Eo.
  assert (NoDup (map e_seq ((mem_es ++ imm_es) ++ all_entries contents' v'))) as Hnd'.
  { rewrite En. rewrite Eo in Hnd. eapply sublist_NoDup; [exact Hnd|]. apply sublist_map, sublist_app; [done|]. apply sublist_app; [apply survivors_sublist|done]. }
  split.
  2:{ intros u s Hs. rewrite !lookup_db_entries by done. by apply (compacted_reads ucmp _ _ contents contents' v v' c snap _ es Htab Hcok HC Hb). }
  destruct (install_sorted db0 c contents v es snap w' cache' pend' cs' chunks Hw Hch Hsort Hok Hnde Hnext Hbound v' _ (rn_new _ _ Hrun) Hdist Hnum Hvs Hv') as [Hs' Hd'].
  pose proof Hw as [[_ _ _ _ _ P6] _ _]. pose proof (contents_with_extends E C db0 contents chunks) as Hext. fold contents' in Hext.
  destruct (P6 contents' Hext) as (hs' & Hc' & Hl').
  split; try done.
  - exists hs'. split; rewrite ?F1, ?F2, ?F3, ?F4; try done; [by exists m| | |lia].
    + eapply version_holds_mono; [|exact Hholds]. intros f Hf. by apply stored_is_table.
    + apply (front_ordered contents contents' mem_es imm_es v v'); [done|apply Hholds| |done].
      intros e. rewrite En, Eo, !elem_of_app. intros [He|He]; [left; by eapply survivors_elem|by right].
  - by rewrite F1.
  - intros l. apply list.Forall_forall. intros f Hf. rewrite Hnext'.
    apply (level_elem ucmp _ _ contents contents' v v' c snap _ es HC) in Hf as [[Hf _]%rest_in|[_ [j Hj]%list_elem_of_lookup]].
    + specialize (Hnum l). rewrite list.Forall_forall in Hnum. specialize (Hnum f Hf). lia.
    + destruct (output_at db0 c contents v es snap w' cache' pend' cs' chunks Hw Hch Hsort Hok Hnde Hnext Hbound j f Hj) as (ks & tbl & Hk & _ & -> & _).
      apply lookup_lt_Some in Hk. cbn. lia.
  - rewrite Hnext'. lia.
  - intros contents2 Heq. rewrite F2. apply P6. rewrite Hnext' in Heq. destruct Hext as [X1 X2]. split.
    + intros n Hn. rewrite Heq by (unfold db0 in Hn; cbn in Hn; lia). by apply X1.
    + intros j ks Hj. pose proof (lookup_lt_Some _ _ _ Hj). rewrite Heq by (unfold db0; cbn; lia). by apply X2.
Qed.

(** The edit passes the assertions of [LogAndApply]. *)
Lemma install_applicable vs cache w' cache' pend' cs' chunks :
  written E files wcontents fname extend z C limit rep ucmp options_ ok_keys dbname (set_table_cache cache db) c snap contents kept w' cache' pend' cs' chunks [] ->
  concat chunks = kept -> applicable E ucmp vs v (install_edit c (outputs E cs')).
Proof using All.
  intros Hw Hch. destruct Hst as [(hs & H) Htab Hvs Hdist Hnum Hnext Hcache _].
  destruct (inputs_entries_ok (stored (db_world db) contents) contents v c es Htab Hdist Hrun HP) as [Hok Hnde]. split.
  - assert (has_log_number_ (install_edit c (outputs E cs')) = has_log_number_ (edit_ c)) as ->; [|by rewrite (rn_log _ _ Hrun)].
    unfold install_edit, AddInputDeletions.
    assert (forall (A : Type) (g : VersionEdit -> A -> VersionEdit), (forall e x, has_log_number_ (g e x) = has_log_number_ e) ->
      forall l e, has_log_number_ (fold_left g l e) = has_log_number_ e) as Hfold.
    { intros A g Hg l. induction l as [|x l IH]; intros e; cbn [fold_left]; [done|]. by rewrite IH, Hg. }
    by rewrite !Hfold.
  - set (v1 := mkVersion (saved ucmp (vs_compact_pointer vs) (files_ v) [install_edit c (outputs E cs')]) None 0 (double_of 0) 0).
    pose proof (installed_version (set_table_cache cache db) c contents v es snap w' cache' pend' cs' chunks Hw Hch Hsort Hok Hnde Hnext Hbound
      v1 _ Hrun Htab Hvs Hdist Hnum Hcnt HP eq_refl) as HC.
    pose proof (compacted_holds ucmp _ _ contents _ v v1 c snap _ es Htab (rn_ok _ _ Hrun) HC Hb) as Hholds.
    apply disjoint_levels_ok; [done|]. intros l fs Hl. replace fs with (level_files v1 (S l)) by (unfold level_files; cbn [v1 files_]; by rewrite Hl).
    apply (vh_disjoint _ _ _ _ Hholds). lia.
Qed.

(** The numbers of the new tables. *)
Lemma output_numbers cache w' cache' pend' cs' chunks :
  written E files wcontents fname extend z C limit rep ucmp options_ ok_keys dbname (set_table_cache cache db) c snap contents kept w' cache' pend' cs' chunks [] ->
  map out_number (outputs E cs') = seqZ next (Z.of_nat (length (outputs E cs'))).
Proof using All.
  intros [[_ _ Hd _ _ _] [_ Hlen] _]. apply list_eq. intros j. change (map out_number) with (fmap (M:=list) out_number).
  rewrite list_lookup_fmap. destruct (outputs E cs' !! j) as [out|] eqn:Eo; cbn [fmap option_fmap option_map].
  - pose proof (lookup_lt_Some _ _ _ Eo) as Hj. symmetry. apply lookup_seqZ. split; [|lia].
    rewrite Hlen in Hj. destruct (lookup_lt_is_Some_2 chunks j Hj) as [ks Hks]. destruct (Hd j ks Hks) as (_ & tbl & Ho & _).
    rewrite Eo in Ho. injection Ho as ->. done.
  - symmetry. apply lookup_ge_None. rewrite length_seqZ. apply lookup_ge_None in Eo. lia.
Qed.

Lemma DoCompactionWork_spec mn edits log :
  vs_descriptor (versions_ db) = Some log -> descriptor_at E wcontents fname extend dbname mn edits log ->
  exists db' cs' v' contents' log',
  DoCompactionWork E NowMicros extend z C ucmp options_ dbname cache_id garbage fuel (CompactionState_new E c) db = Some (db', (cs', Status_OK)) /\
  (let outs := map (fun out => prepare_file (meta_of out)) (outputs E cs') in
   level_entries contents' outs = kept /\ map number outs = seqZ next (Z.of_nat (length outs)) /\
   forall l, level_files v' l ≡ₚ rest_at v c l ++ outputs_at c outs l) /\
  (forall n, n < next -> contents' n = contents n) /\
  vs_descriptor (versions_ db') = Some log' /\
  descriptor_at E wcontents fname extend dbname mn
    (edits ++ [complete_edit E (with_next E (versions_ db) (vs_next_file_number (versions_ db'))) (install_edit c (outputs E cs'))]) log' /\
  db_stored db' contents' mem_es imm_es v' 1 /\
  (forall u s, snap <= s -> lookup_entry ucmp (db_entries contents' mem_es imm_es v') u s = lookup_entry ucmp (db_entries contents mem_es imm_es v) u s).
Proof using All.
  intros Hlog Hat. destruct work_written as (cache & input & w' & cache' & pend' & cs' & chunks & Em & Ef & Hw & Hch).
  pose proof Hst as [(hs & [_ _ Hvok Hcur _ _ _ _]) Htab Hvs Hdist Hnum Hnext _ _].
  destruct (inputs_entries_ok (stored (db_world db) contents) contents v c es Htab Hdist Hrun HP) as [Hok Hnde].
  set (db0 := set_table_cache cache db) in *. set (db1 := running E C db0 w' cache' pend' (length chunks)) in *.
  assert (install_edit (compaction E cs') (outputs E cs') = install_edit c (outputs E cs')) as Hedit.
  { destruct Hw as [[Hcore _ _ _ _ _] _ _]. unfold core in Hcore. injection Hcore as C1 C2 C3 C4 C5 C6. unfold install_edit, AddInputDeletions.
    by rewrite C1, C4, C5, C6. }
  destruct (LogAndApply_open E files wcontents fname rest extend ucmp dbname (max_file_size options_) (reuse_logs options_) w' (versions_ db1) v mn edits log
    (install_edit c (outputs E cs')) garbage) as (vs' & v' & log' & El & Hvok' & Hcur' & Hv' & Hlog' & Hat' & Hnx & Hls & _).
  { unfold db1, db0. cbn. by destruct Hvok; split. } { done. } { done. } { done. }
  { by apply (install_applicable _ cache w' cache' pend' cs' chunks). }
  rewrite <- Hedit in El. destruct (work_runs cache input db1 cs' vs' w' Em Ef El) as (db' & Ed & F1 & F2 & F3 & F4 & F5).
  assert (vs_next_file_number (versions_ db') = next + Z.of_nat (length chunks)) as Hnext' by (by rewrite F5, Hnx).
  exists db', cs', v', (contents_with E C db0 contents chunks), log'. split; [done|]. split; [|split; [|split; [|split]]].
  { pose proof (installed_version db0 c contents v es snap w' cache' pend' cs' chunks Hw Hch Hsort Hok Hnde Hnext Hbound
      v' _ Hrun Htab Hvs Hdist Hnum Hcnt HP Hv') as HC.
    split; [apply (cp_kept _ _ _ _ _ _ _ _ _ _ _ HC)|]. split; [|apply (cp_levels _ _ _ _ _ _ _ _ _ _ _ HC)].
    rewrite length_map, map_map. by apply (output_numbers cache w' cache' pend' cs' chunks). }
  { apply (contents_with_extends E C db0 contents chunks). }
  { by rewrite F5. }
  { rewrite Hnext'. exact Hat'. }
  destruct (work_stored cache w' cache' pend' cs' chunks db' v' _ Hw Hch Hv' F1 F2 F3 F4) as [Hstored Hreads].
  { by rewrite F5. } { by rewrite F5. } { done. }
  { rewrite F5. eauto. }
  done.
Qed.
End Run.
End Work.

(** ** Properties *)

(** C3: a compaction replaces its inputs by the entries that matter and loses
    nothing that a reader may ask for.
    [DoCompactionWork], in an environment whose files do not fail and while no
    immutable memtable waits, reads its inputs to the end and succeeds.  The new
    tables have the next file numbers and hold together exactly the surviving
    entries of the inputs ([survivors], in order); no other table changes.  The
    manifest gets one record, the edit that deletes the inputs and adds the new
    tables, and in the new current version every level has the files it had
    without the inputs, and level + 1 also the new tables.  This version can be
    trusted like the old one: its tables are on the disk and in order, the levels
    above 0 are disjoint, newer entries are found first; and with the memtables in
    front of it, every read at a sequence number from the oldest snapshot on
    returns the value it returned before.  This needs that no file of a level
    outside the inputs shares a user key with an input of its level
    ([boundaries_respected]), which the code does not ensure above level 0 because
    [AddBoundaryInputs] never adds a file. *)
Theorem compaction_preserves_reads (E : Env) files wcontents fname rest (NowMicros : World E -> Z) (extend : Z -> bytes -> Z) (z : Compression)
    (C : CacheOps TableAndFile) (limit : Z) rep (ucmp : Comparator) (options_ : DBOptions) (policy : option FilterPolicy)
    (ok_keys : list bytes -> Prop) (dbname : bytes) (cache_id : Z) (garbage : bool) (fuel : nat)
    (db : DBImpl E C) (contents : Z -> list Entry) (mem_es imm_es : list Entry) (v : Version) (c : Compaction) (snap : Z) (es : list Entry)
    (manifest : Z) (edits : list VersionEdit) (log : LogWriter.Writer (env_W E)) :
  EnvLaws E files wcontents fname rest -> CrcLaws extend -> CompressionLaws z -> CacheLaws C limit rep -> ComparatorLaws ucmp ->
  DbTableOptions ucmp (table_options options_) policy ok_keys ->
  db_stored E files wcontents fname extend z C limit rep ucmp options_ ok_keys dbname db contents mem_es imm_es v
    (length (inputs0 c) + (length (inputs1 c) + 1)) ->
  vs_descriptor (versions_ db) = Some log -> descriptor_at E wcontents fname extend dbname manifest edits log ->
  runnable ucmp v c -> boundaries_respected ucmp contents v c ->
  oldest_snapshot E C db = Some (db, snap) -> snap < kMaxSequenceNumber -> shutting_down_ db = false -> has_imm_ db = false ->
  es_sorted ucmp es -> es ≡ₚ level_entries contents (inputs0 c) ++ level_entries contents (inputs1 c) -> (length es < fuel)%nat ->
  vs_next_file_number (versions_ db) + zlen es < 2 ^ 64 -> (forall l, zlen (level_files v l) + zlen es < 2 ^ 31) ->
  (forall a ks b, a ++ ks ++ b = survivors ucmp snap (below ucmp c) None es ->
     table_fits E wcontents extend z ucmp (table_options options_) ok_keys ks) ->
  exists db' cs' v' contents' log',
    DoCompactionWork E NowMicros extend z C ucmp options_ dbname cache_id garbage fuel (CompactionState_new E c) db = Some (db', (cs', Status_OK)) /\
    (let outs := map (fun out => prepare_file (meta_of out)) (outputs E cs') in
     level_entries contents' outs = survivors ucmp snap (below ucmp c) None es /\
     map number outs = seqZ (vs_next_file_number (versions_ db)) (Z.of_nat (length outs)) /\
     forall l, level_files v' l ≡ₚ
       filter (fun f => number f ∉ map number (inputs_at c l)) (level_files v l) ++ (if decide (l = S (c_level c)) then outs else [])) /\
    (forall n, n < vs_next_file_number (versions_ db) -> contents' n = contents n) /\
    vs_descriptor (versions_ db') = Some log' /\
    descriptor_at E wcontents fname extend dbname manifest
      (edits ++ [complete_edit E (with_next E (versions_ db) (vs_next_file_number (versions_ db'))) (install_edit c (outputs E cs'))]) log' /\
    db_stored E files wcontents fname extend z C limit rep ucmp options_ ok_keys dbname db' contents' mem_es imm_es v' 1 /\
    (forall u s, snap <= s ->
       lookup_entry ucmp (db_entries contents' mem_es imm_es v') u s = lookup_entry ucmp (db_entries contents mem_es imm_es v) u s).
Proof. intros. eapply DoCompactionWork_spec; eassumption. Qed.

(** The database of [sample_db] with an open manifest, and the compaction of its
    level 0 into level 1: the deletion of [a] goes, and so do the old values. *)
Definition sample_manifest : LogWriter.Writer (env_W MemEnv) := Writer_new Extend_ref ((descriptor_name (str:"db") 2, []) : WFile (env_W MemEnv)).
Definition sample_open_db : DBImpl MemEnv NewLRUCache :=
  DbState.set_versions (set_descriptor MemEnv sample_versions (Some sample_manifest)) sample_db.
Definition sample_newer := sample_meta 9 (InternalKey (str:"a") 12 kTypeDeletion) (InternalKey (str:"c") 11 kTypeValue).
Definition sample_older := sample_meta 7 (InternalKey (str:"a") 3 kTypeValue) (InternalKey (str:"c") 4 kTypeValue).
Definition sample_compaction : Compaction :=
  mkCompaction 0 (MaxFileSizeForLevel 0 0) sample_version (VersionEdit_new false) [sample_newer] [sample_older] [] 0 false 0 (replicate kNumLevels 0%nat).
Definition sample_input : list Entry :=
  [mkEntry 12 kTypeDeletion (str:"a") []; mkEntry 3 kTypeValue (str:"a") (str:"x"); mkEntry 5 kTypeValue (str:"b") (str:"y");
   mkEntry 11 kTypeValue (str:"c") (str:"new"); mkEntry 4 kTypeValue (str:"c") (str:"old")].
Definition sample_output : list Entry := survivors BytewiseComparator 20 (below BytewiseComparator sample_compaction) None sample_input.

Lemma sample_output_value : sample_output = [mkEntry 5 kTypeValue (str:"b") (str:"y"); mkEntry 11 kTypeValue (str:"c") (str:"new")].
Proof. vm_compute. reflexivity. Qed.

Lemma sample_runnable : runnable BytewiseComparator sample_version sample_compaction.
Proof.
  split; try done.
  - split; [by apply Nat.ltb_lt|done| | | |done].
    + intros f ->%list_elem_of_singleton. by left.
    + intros _ f ->%list_elem_of_singleton _. by left.
    + cbn [sample_compaction c_level inputs1 level_files sample_version files_ lookup list_lookup from_option default id Nat.add].
      rewrite filter_cons_True; [done|]. split; vm_compute; discriminate.
  - apply NoDup_singleton.
  - by intros H%Nat.lt_irrefl.
Qed.

Lemma sample_stored n a b : n = 9 \/ n = 7 ->
  stored MemEnv (fun w => w) Extend_ref no_compression BytewiseComparator sample_db_opts sample_ok_keys (str:"db") sample_tables sample_contents (sample_meta n a b).
Proof.
  intros Hn. split; [cbn; lia|]. exists (sample_file n). split; [by apply sample_table_bytes|]. split; [done|].
  destruct Hn as [-> | ->]; [left; exact (lookup_insert_eq (M:=gmap bytes) _ _ _)|right].
  assert (table_name (str:"db") 9 <> table_name (str:"db") 7) as N1 by (vm_compute; discriminate).
  assert (sst_name (str:"db") 7 <> table_name (str:"db") 7) as N2 by (vm_compute; discriminate).
  assert (table_name (str:"db") 9 <> sst_name (str:"db") 7) as N3 by (vm_compute; discriminate). split.
  - exact (eq_trans (lookup_insert_ne (M:=gmap bytes) _ _ _ _ N1) (eq_trans (lookup_insert_ne (M:=gmap bytes) _ _ _ _ N2) (lookup_empty (M:=gmap bytes) _))).
  - exact (eq_trans (lookup_insert_ne (M:=gmap bytes) _ _ _ _ N3) (lookup_insert_eq (M:=gmap bytes) _ _ _)).
Qed.

Lemma sample_db_stored :
  db_stored MemEnv (fun w => w) snd fst Extend_ref no_compression NewLRUCache 1000 (shared_rep 1000) BytewiseComparator sample_db_opts sample_ok_keys
    (str:"db") sample_open_db sample_contents sample_mem_entries [] sample_version 3.
Proof.
  split.
  - exists []. destruct sample_db_holds as [H1 H2 H3 H4 H5 H6 H7 H8]. split; [exact H1|exact H2|destruct H3 as [A1 A2 A3 A4]; split; [exact A1|exact A2|exact A3|exact A4]|exact H4|exact H5|exact H6|exact H7|exact H8].
  - apply sample_version_of, sample_stored.
  - split; [done|]. repeat (apply list.Forall_cons; split; [repeat constructor|]). constructor.
  - intros l base Hb. do 7 (destruct l as [|l]; [injection Hb as <-; apply (bool_decide_unpack _); done|]). done.
  - intros l. do 7 (destruct l as [|l]; [repeat constructor; done|]). constructor.
  - done.
  - intros contents' _. exists []. split; [|done]. exists (fun _ => None). split; [|done]. apply shared_new_rep; [done|lia].
  - exists 2, [], sample_manifest. split; [done|]. split; [done|split; [unfold kBlockSize; cbn; lia|done]|done|done].
Qed.

Lemma sample_fits a ks b : a ++ ks ++ b = sample_output ->
  table_fits MemEnv snd Extend_ref no_compression BytewiseComparator sample_db_options sample_ok_keys ks.
Proof.
  rewrite sample_output_value. intros Hk.
  assert (ks ∈ [[]; [mkEntry 5 kTypeValue (str:"b") (str:"y")]; [mkEntry 11 kTypeValue (str:"c") (str:"new")];
    [mkEntry 5 kTypeValue (str:"b") (str:"y"); mkEntry 11 kTypeValue (str:"c") (str:"new")]]) as Hks.
  { destruct a as [|x [|y [|t a]]], ks as [|p [|q [|r ks]]]; cbn in Hk; simplify_eq; repeat (first [by left|right]); try done;
      by apply (f_equal length) in Hk; rewrite ?length_app in Hk; cbn in Hk; lia. }
  split.
  - repeat (apply elem_of_cons in Hks as [->|Hks]; [repeat constructor|]). by apply not_elem_of_nil in Hks.
  - repeat (apply elem_of_cons in Hks as [->|Hks]; [vm_compute; reflexivity|]). by apply not_elem_of_nil in Hks.
  - intros l Hl. unfold sample_ok_keys, bloom_ok_keys. rewrite length_map. assert (length ks <= 2)%nat; [|lia].
    repeat (apply elem_of_cons in Hks as [->|Hks]; [cbn; lia|]). by apply not_elem_of_nil in Hks.
  - intros [n d] Hd. cbn in Hd. subst d.
    repeat (apply elem_of_cons in Hks as [->|Hks]; [vm_compute; reflexivity|]). by apply not_elem_of_nil in Hks.
Qed.

Lemma compaction_preserves_reads_witness :
  exists db' cs' v' contents',
    DoCompactionWork MemEnv (fun _ => 0) Extend_ref no_compression NewLRUCache BytewiseComparator sample_db_opts (str:"db") 0 false 6
      (CompactionState_new MemEnv sample_compaction) sample_open_db = Some (db', (cs', Status_OK)) /\
    level_entries contents' (map (fun out => prepare_file (meta_of out)) (outputs MemEnv cs')) =
      [mkEntry 5 kTypeValue (str:"b") (str:"y"); mkEntry 11 kTypeValue (str:"c") (str:"new")] /\
    level_files v' 0 ≡ₚ [] /\ level_files v' 1 ≡ₚ map (fun out => prepare_file (meta_of out)) (outputs MemEnv cs') /\
    lookup_entry BytewiseComparator (db_entries contents' sample_mem_entries [] v') (str:"c") 20 = Some (str:"new") /\
    lookup_entry BytewiseComparator (db_entries contents' sample_mem_entries [] v') (str:"a") 20 = None.
Proof.
  destruct (compaction_preserves_reads MemEnv (fun w => w) snd fst (fun r => r) (fun _ => 0) Extend_ref no_compression NewLRUCache 1000 (shared_rep 1000)
    BytewiseComparator sample_db_opts (Some sample_policy) sample_ok_keys (str:"db") 0 false 6 sample_open_db sample_contents sample_mem_entries []
    sample_version sample_compaction 20 sample_input 2 [] sample_manifest _ _ _ (shared_cache_laws 1000 sample_cache_limit) _ _ sample_db_stored)
    as (db' & cs' & v' & contents' & log' & Ed & (Hk & _ & Hl) & _ & _ & _ & _ & Hr).
  - done.
  - split; [done|split; [unfold kBlockSize; cbn; lia|done]|done|done].
  - exact sample_runnable.
  - intros l f r e Hl Hf Hr He. destruct l as [|[|l]]; [lia|by apply not_elem_of_nil in Hf|by apply not_elem_of_nil in He].
  - done.
  - done.
  - done.
  - done.
  - repeat constructor.
  - change (sample_input ≡ₚ sample_contents 9 ++ sample_contents 7). cbn. solve_Permutation.
  - cbn. lia.
  - done.
  - intros l. do 7 (destruct l as [|l]; [vm_compute; reflexivity|]). vm_compute. reflexivity.
  - exact sample_fits.
  - exists db', cs', v', contents'. split; [exact Ed|]. split; [rewrite Hk; exact sample_output_value|].
    split; [exact (Hl 0%nat)|]. split; [exact (Hl 1%nat)|]. split; rewrite Hr by lia; vm_compute; reflexivity.
Defined.
