(* ===== verification/DbWrite.v ===== *)
(** * Writing to a database

    [DBImpl::Write] (src/db/db_impl.cc) against what a client expects: the
    database is a map from user keys to values, a write applies its operations in
    order, all writers of a group get the group's status, and the log has one more
    record.  And the way errors stop it: after a background error no write, no
    background work and no deletion of files changes anything. *)

From Stdlib Require Import SpecFloat.
From stdpp Require Import gmap sets sorting.
From S2P Require Import Snapshot Prelude Slice Coding Crc32c Comparator DbFormat Hash Cache WriteBatch LogFormat LogWriter LogReader Filename.
From S2P Require Import Iterator SkipList Arena MemTable Entries MemIter View BlockBuilder Block DbIter Merger Format FilterBlock TableBuilder Table.
From S2P Require Import VersionEdit VersionFiles VersionBuilder Compaction VersionGet VersionIter TableCache Env BuildTable.
From S2P Require Import DbOptions VersionSet PerfCounters DbState DbImpl DbClient DbOpen DbView.

(** ** The map *)

Section Map.
Context (ucmp : Comparator) `{!ComparatorLaws ucmp}.
Abbreviation ucompare := (Compare ucmp).

(** What an operation does to a map. *)
Definition apply_op (values : bytes -> option bytes) (op : BatchOp) : bytes -> option bytes := fun u =>
  match op with
  | OpPut key value => match ucompare key u with Eq => Some value | _ => values u end
  | OpDelete key => match ucompare key u with Eq => None | _ => values u end
  end.

Definition op_entry (s : Z) (op : BatchOp) : Entry :=
  match op with OpPut key value => mkEntry s kTypeValue key value | OpDelete key => mkEntry s kTypeDeletion key [] end.

(** One newest entry in front. *)
Lemma lookup_newer e es u s :
  NoDup (map e_seq (e :: es)) -> Forall (fun x => e_seq x < e_seq e) es ->
  lookup_entry ucmp (e :: es) u s =
  if visible ucmp u s e then match e_type e with kTypeValue => Some (e_value e) | kTypeDeletion => None end else lookup_entry ucmp es u s.
Proof using All.
  intros Hnd Hes. unfold lookup_entry. change (e :: es) with ([e] ++ es) in *. rewrite (newest_app ucmp); [|done|].
  - unfold newest. cbn [fold_left]. destruct (visible ucmp u s e); done.
  - intros e1 e2 ->%list_elem_of_singleton H2 _. rewrite list.Forall_forall in Hes. by apply Hes.
Qed.

Lemma batch_entries_seqs ops s : Forall (fun e => s <= e_seq e < s + zlen ops) (batch_entries s ops).
Proof using Type.
  revert s. induction ops as [|op ops IH]; intros s; cbn [batch_entries]; [constructor|]. apply Forall_app_2.
  - eapply list.Forall_impl; [apply IH|]. intros e He. cbn in He. cbn [length]. lia.
  - apply Forall_singleton. cbn [length]. destruct op; cbn; lia.
Qed.

Lemma batch_entries_fresh ops s es :
  NoDup (map e_seq es) -> Forall (fun e => e_seq e < s) es -> NoDup (map e_seq (batch_entries s ops ++ es)).
Proof using Type.
  revert s es. induction ops as [|op ops IH]; intros s es Hnd Hes; cbn [batch_entries]; [done|]. rewrite <- app_assoc. apply IH.
  - cbn. apply list.NoDup_cons. split; [|done]. intros (e & He & Hin)%list_elem_of_fmap. rewrite list.Forall_forall in Hes.
    specialize (Hes e Hin). destruct op; cbn in He; lia.
  - cbn. constructor; [destruct op; cbn; lia|]. eapply list.Forall_impl; [exact Hes|]. intros e He. cbn in He. lia.
Qed.

Lemma fold_apply_ext ops f g : (forall x, f x = g x) -> forall x, fold_left apply_op ops f x = fold_left apply_op ops g x.
Proof using Type.
  revert f g. induction ops as [|a l IHl]; intros f g Hfg x; cbn [fold_left]; [done|]. apply IHl. intros y. destruct a; cbn; by rewrite Hfg.
Qed.

(** The entries of a batch change the map as its operations do, and nothing for
    readers before it. *)
Lemma batch_lookup ops s es u t :
  NoDup (map e_seq es) -> Forall (fun e => e_seq e < s) es -> s + zlen ops <= t + 1 ->
  lookup_entry ucmp (batch_entries s ops ++ es) u t = fold_left apply_op ops (fun u => lookup_entry ucmp es u t) u.
Proof using All.
  revert s es. induction ops as [|op ops IH]; intros s es Hnd Hes Ht; cbn [batch_entries fold_left]; [done|].
  rewrite <- app_assoc. cbn [app length] in *.
  change (match op with OpPut key value => mkEntry s kTypeValue key value | OpDelete key => mkEntry s kTypeDeletion key [] end) with (op_entry s op).
  assert (e_seq (op_entry s op) = s) as Es by (by destruct op).
  assert (NoDup (map e_seq (op_entry s op :: es))) as Hnd'.
  { cbn. apply list.NoDup_cons. split; [|done]. intros (e & He & Hin)%list_elem_of_fmap. rewrite list.Forall_forall in Hes.
    specialize (Hes e Hin). lia. }
  rewrite IH; [|done| |lia].
  2:{ constructor; [lia|]. eapply list.Forall_impl; [exact Hes|]. intros e He. cbn in He. lia. }
  assert (forall u, lookup_entry ucmp (op_entry s op :: es) u t = apply_op (fun u => lookup_entry ucmp es u t) op u) as Hop.
  { intros x. rewrite lookup_newer; [|done|by rewrite Es]. unfold visible. rewrite Es, (proj2 (Z.leb_le s t)) by lia.
    destruct op as [k val|k]; cbn; by destruct (ucompare k x). }
  by apply fold_apply_ext.
Qed.

Lemma batch_lookup_before ops s es u t :
  NoDup (map e_seq es) -> Forall (fun e => e_seq e < s) es -> t < s ->
  lookup_entry ucmp (batch_entries s ops ++ es) u t = lookup_entry ucmp es u t.
Proof using All.
  intros Hnd Hes Ht. unfold lookup_entry. rewrite (newest_merge ucmp) by (by apply batch_entries_fresh).
  assert (newest ucmp (batch_entries s ops) u t = None) as ->; [|done].
  apply newest_none. eapply list.Forall_impl; [apply batch_entries_seqs|]. intros e He. cbn in He. unfold visible.
  destruct (ucompare _ _); try done. apply Z.leb_gt. lia.
Qed.
End Map.

(** Reading later than the last write is reading at it. *)
Lemma lookup_after ucmp es u s t : Forall (fun e => e_seq e <= s) es -> s <= t -> lookup_entry ucmp es u t = lookup_entry ucmp es u s.
Proof.
  intros Hes Hst. unfold lookup_entry. assert (newest ucmp es u t = newest ucmp es u s) as ->; [|done].
  induction Hes as [|e es He Hes IH]; cbn [newest]; [done|]. rewrite IH.
  assert (visible ucmp u t e = visible ucmp u s e) as ->; [|done].
  unfold visible. destruct (Comparator.Compare _ _ _); try done. by rewrite !(proj2 (Z.leb_le _ _)) by lia.
Qed.

(** ** The path of a write *)

Section Path.
Context (E : Env) (files : World E -> gmap bytes bytes) (wcontents : WFile (env_W E) -> bytes)
  (fname : WFile (env_W E) -> bytes) (rest : SFile (env_F E) -> bytes) `{!EnvLaws E files wcontents fname rest}.
Context (NowMicros : World E -> Z) (extend : Z -> bytes -> Z) `{!CrcLaws extend} (z : Compression) (C : CacheOps TableAndFile).
Context (new_chars : list region -> Z -> Z) (ucmp : Comparator) `{!ComparatorLaws ucmp} (options_ : DBOptions) (dbname : bytes) (cache_id : Z)
  (garbage : bool) (fuel : nat).
Abbreviation DBImpl := (DBImpl E C).
Implicit Types (db : DBImpl) (ops : list BatchOp) (w : DbWriter).

#[local] Instance log_writes : ReliableWrites (env_W E) wcontents := env_writes.

(** The log file holds exactly the records [recs]. *)
Record log_at (recs : list bytes) (log : LogWriter.Writer (env_W E)) : Prop := {
  la_ok : writer_ok extend (env_W E) log;
  la_contents : wcontents (dest_ log) = fst (records_bytes extend 0 recs);
  la_offset : block_offset_ log = snd (records_bytes extend 0 recs) }.

Lemma AddRecord_log recs log r : log_at recs log -> exists log', AddRecord extend log r = (log', Status_OK) /\ log_at (recs ++ [r]) log'.
Proof using EnvLaws0 CrcLaws0.
  intros [H1 H2 H3]. destruct (AddRecord_spec extend (env_W E) wcontents log r H1) as (log' & Ea & Hw & Hc & Ho).
  exists log'. split; [done|]. split; [done|..]; rewrite (records_bytes_snoc extend); cbn [fst snd].
  - by rewrite Hc, H2, H3.
  - by rewrite Ho, H3.
Qed.

(** A state in which a write can go ahead at once. *)
Record writable db (recs : list bytes) (mem_es : list Entry) : Prop := {
  wb_error : ok (bg_error_ db) = true;
  wb_level0 : exists v, current (versions_ db) = Some v /\ zlen (level_files v 0) < kL0_SlowdownWritesTrigger;
  wb_mem : exists m, mem_ db = Some m /\ mem_rep ucmp m mem_es /\ ApproximateMemoeyUsage m <= write_buffer_size options_;
  wb_log : exists log, log_ db = Some log /\ log_at recs log;
  wb_tmp : tmp_batch_ db = WriteBatch_Clear }.

Abbreviation log_and_insert := (log_and_insert E extend C new_chars ucmp).
Abbreviation Write_leader := (Write_leader E NowMicros extend z C new_chars ucmp options_ dbname cache_id garbage fuel).

Lemma MakeRoom_ready db recs mem_es :
  (0 < fuel)%nat -> writable db recs mem_es ->
  MakeRoomForWrite E NowMicros extend z C new_chars ucmp options_ dbname cache_id garbage fuel false db = Some (db, Status_OK).
Proof using Type.
  intros Hf [He (v & Hv & Hl) (m & Hm & _ & Hu) _ _]. unfold MakeRoomForWrite. destruct fuel as [|n]; [lia|]. cbn [MakeRoom_loop negb]. dbm. rewrite He. cbn [negb].
  unfold NumLevelFiles. rewrite Hv. cbn [mbind option_bind]. dbm. rewrite Hm. dbm. cbn [negb andb].
  rewrite Z.geb_leb, (proj2 (Z.leb_gt _ _)) by lia. cbn [andb]. rewrite (proj2 (Z.leb_le _ _)) by lia. by dbm.
Qed.

Lemma log_and_insert_spec db recs mem_es seq ops sync :
  writable db recs mem_es -> Forall op_fits ops -> zlen ops < 2 ^ 31 -> 0 <= seq -> seq + zlen ops <= kMaxSequenceNumber + 1 ->
  Forall (fun e => e_seq e < seq) mem_es ->
  exists log m, log_and_insert (batch_rep seq ops) sync db = Some (set_mem (Some m) (set_log (Some log) db), Status_OK) /\
    log_at (recs ++ [batch_rep seq ops]) log /\ mem_rep ucmp m (batch_entries seq ops ++ mem_es).
Proof using All.
  intros [_ _ (m & Hm & Hrep & _) (log & Hlog & Hat) _] Hops Hlen Hseq Hmax Hes. unfold DbClient.log_and_insert. dbm. rewrite Hlog. dbm.
  destruct (AddRecord_log recs log (batch_rep seq ops) Hat) as (log1 & -> & Hat1). cbn [ok Status_OK state_ andb].
  assert (exists log2, (if sync then let '(f, s) := Sync E (dest_ log1) in (mkWriter f (block_offset_ log1) (type_crc_ log1), s, negb (ok s))
    else (log1, Status_OK, false)) = (log2, Status_OK, false) /\ log_at (recs ++ [batch_rep seq ops]) log2) as (log2 & -> & Hat2).
  { destruct sync; [|by exists log1]. destruct (Sync_spec (dest_ log1)) as (f & -> & Hc & _). eexists. split; [done|].
    destruct Hat1 as [A1 A2 A3]. split; cbn [dest_ block_offset_ type_crc_]; [exact A1|congruence|done]. }
  dbm. cbn [unless_ok ok Status_OK state_]. dbm. cbn [mem_ set_log]. rewrite Hm. dbm.
  destruct (InsertInto_mem new_chars ucmp m mem_es seq ops) as (m' & -> & Hm'); try done. dbm. by exists log2, m'.
Qed.

(** *** Groups *)

(** The operations of a waiting writer. *)
Definition writer_ops w ops : Prop := match wr_batch w with Some b => exists s, b = batch_rep s ops | None => ops = [] end.

Lemma group_loop_spec first max_size queue opss : Forall2 writer_ops queue opss -> forall size seq ops is_tmp count,
  zlen ops + zlen (concat opss) < 2 ^ 31 ->
  exists k seq' is_tmp', group_loop first max_size queue size WriteBatch_Clear (batch_rep seq ops) is_tmp count =
      Some (batch_rep seq' (ops ++ concat (take k opss)), is_tmp', (count + k)%nat) /\ (k <= length queue)%nat /\
    Forall (fun w => wr_sync w = true -> wr_sync first = true) (take k queue).
Proof using Type.
  induction 1 as [|w ops1 queue opss Hw Hq IH]; intros size seq ops is_tmp count Hlen; cbn [group_loop].
  { exists 0%nat, seq, is_tmp. cbn. rewrite app_nil_r, Nat.add_0_r. done. }
  assert (exists k seq' is_tmp', Some (batch_rep seq ops, is_tmp, count) = Some (batch_rep seq' (ops ++ concat (take k (ops1 :: opss))), is_tmp', (count + k)%nat) /\
    (k <= S (length queue))%nat /\ Forall (fun w => wr_sync w = true -> wr_sync first = true) (take k (w :: queue))) as Hstop.
  { exists 0%nat, seq, is_tmp. cbn. rewrite app_nil_r, Nat.add_0_r. split; [done|]. split; [lia|done]. }
  destruct (wr_sync w && negb (wr_sync first)) eqn:Es; [done|].
  assert (wr_sync w = true -> wr_sync first = true) as Hsync.
  { intros Hs. rewrite Hs in Es. by destruct (wr_sync first). }
  unfold writer_ops in Hw. destruct (wr_batch w) as [b|].
  - destruct Hw as [s0 ->]. destruct (_ >? max_size); [done|]. cbn [concat] in Hlen. rewrite length_app in Hlen.
    change (Count WriteBatch_Clear =? 0) with true. cbv iota.
    replace (if is_tmp then Some (batch_rep seq ops) else Some (WriteBatch_Append WriteBatch_Clear (batch_rep seq ops))) with
      (Some (if is_tmp then batch_rep seq ops else WriteBatch_Append WriteBatch_Clear (batch_rep seq ops))) by (by destruct is_tmp).
    cbn [mbind option_bind].
    assert (exists s1, WriteBatch_Append (if is_tmp then batch_rep seq ops else WriteBatch_Append WriteBatch_Clear (batch_rep seq ops)) (batch_rep s0 ops1) =
      batch_rep s1 (ops ++ ops1)) as [s1 ->].
    { destruct is_tmp; [exists seq; apply Append_rep; lia|]. exists 0. rewrite Clear_rep. rewrite Append_rep by (cbn; lia). cbn [app]. apply Append_rep. lia. }
    destruct (IH (u64 (size + zlen (batch_rep s0 ops1))) s1 (ops ++ ops1) true (S count)) as (k & seq' & t' & -> & Hk & Hf); [rewrite length_app; lia|].
    exists (S k), seq', t'. split; [cbn [take concat]; by rewrite <- app_assoc, Nat.add_succ_r|]. split; [cbn [length]; lia|]. cbn [take]. by constructor.
  - subst ops1. destruct (IH size seq ops is_tmp (S count)) as (k & seq' & t' & -> & Hk & Hf); [done|].
    exists (S k), seq', t'. split; [cbn [take concat app]; by rewrite Nat.add_succ_r|]. split; [cbn [length]; lia|]. cbn [take]. by constructor.
Qed.

(** A group: its leader logs and applies all its operations. *)
Lemma Write_leader_spec db recs mem_es first queue ops0 opss :
  let last := vs_last_sequence (versions_ db) in
  (0 < fuel)%nat -> writable db recs mem_es -> writers_ db = first :: queue -> Forall2 writer_ops (first :: queue) (ops0 :: opss) ->
  wr_batch first <> None -> Forall op_fits (ops0 ++ concat opss) -> zlen (ops0 ++ concat opss) < 2 ^ 31 ->
  0 <= last -> last + zlen (ops0 ++ concat opss) <= kMaxSequenceNumber -> Forall (fun e => e_seq e <= last) mem_es ->
  exists k, (k <= length queue)%nat /\
    let ops := ops0 ++ concat (take k opss) in
    exists db' log m, Write_leader db = Some (db', Status_OK) /\
      mem_ db' = Some m /\ mem_rep ucmp m (batch_entries (last + 1) ops ++ mem_es) /\
      log_ db' = Some log /\ log_at (recs ++ [batch_rep (last + 1) ops]) log /\
      versions_ db' = with_last E (versions_ db) (last + zlen ops) /\
      writers_ db' = drop k queue /\ finished_ db' = finished_ db ++ map (fun w => (wr_id w, Status_OK)) (first :: take k queue) /\
      Forall (fun w => wr_sync w = true -> wr_sync first = true) (take k queue) /\
      db_world db' = db_world db /\ imm_ db' = imm_ db /\ table_cache_ db' = table_cache_ db /\ snapshots_ db' = snapshots_ db /\
      bg_error_ db' = bg_error_ db /\ tmp_batch_ db' = WriteBatch_Clear.
Proof using All.
  intros last Hf Hw Eq Hops Hne Hfit Hlen Hlast Hmax Hes. unfold last in *. clear last. inversion Hops as [|? ? ? ? Hfirst Hqueue]; subst. unfold DbClient.Write_leader. dbm.
  rewrite Eq. cbn [lookup list_lookup]. dbm. unfold writer_ops in Hfirst. destruct (wr_batch first) as [b|] eqn:Eb; [|done]. destruct Hfirst as [s0 ->].
  erewrite bind_step by (by eapply MakeRoom_ready). dbm. cbn [ok Status_OK state_]. dbm.
  unfold BuildBatchGroup. rewrite Eq, Eb. cbn [mbind option_bind]. rewrite (wb_tmp _ _ _ Hw).
  rewrite length_app in Hlen, Hmax.
  edestruct (group_loop_spec first) as (k & seq' & t' & -> & Hk & Hsync); [exact Hqueue|lia|]. exists k. split; [done|].
  set (ops := ops0 ++ concat (take k opss)).
  dbm. cbn [fst snd]. dbm. fold ops. rewrite SetSequence_rep.
  assert (zlen (concat (take k opss)) <= zlen (concat opss)) as Hkl.
  { rewrite <- (take_drop k opss) at 2. rewrite List.concat_app, length_app. lia. }
  assert (zlen ops < 2 ^ 31 /\ vs_last_sequence (versions_ db) + zlen ops <= kMaxSequenceNumber) as [Hl1 Hl2] by (unfold ops; rewrite length_app; lia).
  rewrite (u64_small (vs_last_sequence (versions_ db) + 1)) by (change (2 ^ 64) with 18446744073709551616; change kMaxSequenceNumber with 72057594037927935 in *; lia).
  destruct (log_and_insert_spec db recs mem_es (vs_last_sequence (versions_ db) + 1) ops (wr_sync first) Hw) as (log & m & El & Hlog & Hm); [| |lia|lia| |].
  { apply Forall_app in Hfit as [Hf1 Hf2]. apply Forall_app_2; [done|].
    rewrite <- (take_drop k opss), List.concat_app in Hf2. by apply Forall_app in Hf2 as [? _]. }
  { done. }
  { eapply list.Forall_impl; [exact Hes|]. intros e He. cbn in He. lia. }
  erewrite bind_step by exact El. dbm. unfold try_versions. dbm. rewrite Count_rep by done.
  rewrite u64_small by (change (2 ^ 64) with 18446744073709551616; change kMaxSequenceNumber with 72057594037927935 in *; lia).
  match goal with |- context [vs_SetLastSequence E ?vs _] => replace vs with (versions_ db) by (by destruct t') end.
  rewrite vs_SetLastSequence_spec by lia. dbm.
  unfold finish_group. dbm. eexists _, log, m. split; [done|].
  destruct t'; cbn [finished_ writers_ set_finished set_writers DbState.set_versions set_tmp_batch set_mem set_log mem_ log_ versions_ db_world imm_
    table_cache_ snapshots_ bg_error_ tmp_batch_]; rewrite Eq; repeat (split; [done|]); (done || apply Hw).
Qed.
End Path.

(** The new entries in front of the old ones. *)
Lemma write_holds {E : Env} (extend : Z -> bytes -> Z) (z : Compression) {C : CacheOps TableAndFile} (limit : Z) rep {ucmp : Comparator} (options_ : DBOptions)
    (ok_keys : list bytes -> Prop) (dbname : bytes) (contents : Z -> list Entry) (db db' : DBImpl E C) mem_es imm_es v hs ops m last' :
  let last := vs_last_sequence (versions_ db) in
  db_holds E extend z C limit rep ucmp options_ ok_keys dbname contents db mem_es imm_es v hs ->
  Forall (fun e => e_seq e < last + 1) (db_entries contents mem_es imm_es v) ->
  mem_ db' = Some m -> mem_rep ucmp m (batch_entries (last + 1) ops ++ mem_es) -> versions_ db' = with_last E (versions_ db) last' ->
  db_world db' = db_world db -> imm_ db' = imm_ db -> table_cache_ db' = table_cache_ db ->
  db_holds E extend z C limit rep ucmp options_ ok_keys dbname contents db' (batch_entries (last + 1) ops ++ mem_es) imm_es v hs.
Proof.
  intros last [H1 H2 H3 H4 H5 [Hnd Hs] H7 H8] Hlt Hm Hrep Hvs Hw Hi Hc. split; rewrite ?Hvs, ?Hw, ?Hi, ?Hc; try done.
  - by exists m.
  - by destruct H3; split.
  - split.
    + cbn [concat] in *. rewrite <- app_assoc. by apply batch_entries_fresh.
    + apply StronglySorted_inv in Hs as [Hs Hf]. constructor; [done|]. rewrite list.Forall_forall in Hf |- *.
      intros src Hsrc e1 e2 [H|H]%elem_of_app He2 Heq; [|by apply (Hf src Hsrc)].
      pose proof (batch_entries_seqs ops (last + 1)) as Hb. rewrite list.Forall_forall in Hb, Hlt. specialize (Hb e1 H).
      enough (e_seq e2 < last + 1) by lia. apply Hlt. unfold db_entries. apply list_elem_of_In, in_concat. exists src.
      split; apply list_elem_of_In; [by right|done].
Qed.

(** ** Errors *)

Section Errors.
Context (E : Env) (NowMicros : World E -> Z) (extend : Z -> bytes -> Z) (z : Compression) (C : CacheOps TableAndFile).
Context (new_chars : list region -> Z -> Z) (ucmp : Comparator) (options_ : DBOptions) (dbname : bytes) (cache_id : Z)
  (garbage : bool) (fuel : nat).
Abbreviation DBImpl := (DBImpl E C).
Implicit Types (db : DBImpl).
Abbreviation Write := (Write E NowMicros extend z C new_chars ucmp options_ dbname cache_id garbage fuel).

(** A writer that finds an error is told it, and leaves. *)
Lemma Write_error db wo updates :
  (0 < fuel)%nat -> ok (bg_error_ db) = false -> writers_ db = [] ->
  Write wo updates db = Some (set_finished (finished_ db ++ [(length (finished_ db), bg_error_ db)]) db, bg_error_ db).
Proof using Type.
  intros Hf He Hq. unfold DbClient.Write, Write_leader. dbm. cbn [writers_ set_writers]. rewrite Hq. cbn [app lookup list_lookup]. dbm. cbn [wr_batch].
  unfold MakeRoomForWrite. destruct fuel as [|n]; [lia|]. cbn [MakeRoom_loop]. dbm. cbn [bg_error_ set_writers]. rewrite He. cbn [negb]. dbm.
  rewrite He. dbm. unfold finish_group. dbm. cbn [writers_ finished_ set_writers take drop map wr_id]. f_equal. f_equal. destruct db; cbn in *; by subst.
Qed.

(** Nor does anything else change files. *)
Lemma background_error_idle db : ok (bg_error_ db) = false ->
  (forall s, RecordBackgroundError E C s db = Some (db, ())) /\
  MaybeScheduleCompaction E C db = Some (db, ()) /\
  RemoveObsoleteFiles E C dbname db = Some (db, ()) /\
  BackgroundCall E NowMicros extend z C ucmp options_ dbname cache_id garbage fuel db = Some (set_background_compaction_scheduled false db, ()).
Proof using Type.
  intros He. unfold RecordBackgroundError, MaybeScheduleCompaction, RemoveObsoleteFiles, BackgroundCall. split; [|split; [|split]].
  - intros s. dbm. by rewrite He.
  - dbm. rewrite He. by repeat case_match.
  - dbm. by rewrite He.
  - dbm. rewrite He. cbn [negb]. assert ((if shutting_down_ db then mret () else mret ()) = (mret () : DBM E C ())) as -> by (by case_match). dbm.
    unfold MaybeScheduleCompaction. dbm. cbn [bg_error_ set_background_compaction_scheduled background_compaction_scheduled_]. rewrite He.
    by repeat case_match.
Qed.
End Errors.

(** ** Properties *)

(** C2: writing is applying operations to a map.  When the memtable has room and
    no error is pending, the writer at the front of the queue takes a group of the
    waiting writers with it, from the front and with no synchronous write behind an
    asynchronous leader.  The log gets one record, the batch of all their
    operations; every writer of the group leaves the queue with status OK; the
    latest value of every key is what applying the operations in queue order to
    the values before gives; and readers at earlier sequence numbers see no
    change. *)
Theorem write_applies_group (E : Env) files wcontents fname rest (NowMicros : World E -> Z) (extend : Z -> bytes -> Z) (z : Compression)
    (C : CacheOps TableAndFile) (limit : Z) rep (new_chars : list region -> Z -> Z) (ucmp : Comparator) (options_ : DBOptions)
    (ok_keys : list bytes -> Prop) (dbname : bytes) (cache_id : Z) (garbage : bool) (fuel : nat) (contents : Z -> list Entry)
    (db : DBImpl E C) (mem_es imm_es : list Entry) (v : Version) hs (recs : list bytes)
    (first : DbWriter) (queue : list DbWriter) (ops0 : list BatchOp) (opss : list (list BatchOp)) :
  EnvLaws E files wcontents fname rest -> CrcLaws extend -> ComparatorLaws ucmp ->
  let last := vs_last_sequence (versions_ db) in
  db_holds E extend z C limit rep ucmp options_ ok_keys dbname contents db mem_es imm_es v hs ->
  writable E wcontents extend C ucmp options_ db recs mem_es -> (0 < fuel)%nat ->
  Forall (fun e => e_seq e <= last) (db_entries contents mem_es imm_es v) ->
  writers_ db = first :: queue -> Forall2 writer_ops (first :: queue) (ops0 :: opss) -> wr_batch first <> None ->
  Forall op_fits (ops0 ++ concat opss) -> zlen (ops0 ++ concat opss) < 2 ^ 31 ->
  0 <= last -> last + zlen (ops0 ++ concat opss) <= kMaxSequenceNumber ->
  exists db' k, Write_leader E NowMicros extend z C new_chars ucmp options_ dbname cache_id garbage fuel db = Some (db', Status_OK) /\
    (k <= length queue)%nat /\ Forall (fun w => wr_sync w = true -> wr_sync first = true) (take k queue) /\
    writers_ db' = drop k queue /\ finished_ db' = finished_ db ++ map (fun w => (wr_id w, Status_OK)) (first :: take k queue) /\
    let ops := ops0 ++ concat (take k opss) in
    let mem_es' := batch_entries (last + 1) ops ++ mem_es in
    vs_last_sequence (versions_ db') = last + zlen ops /\
    (exists log, log_ db' = Some log /\ log_at E wcontents extend (recs ++ [batch_rep (last + 1) ops]) log) /\
    db_holds E extend z C limit rep ucmp options_ ok_keys dbname contents db' mem_es' imm_es v hs /\
    Forall (fun e => e_seq e <= last + zlen ops) (db_entries contents mem_es' imm_es v) /\
    (forall u, lookup_entry ucmp (db_entries contents mem_es' imm_es v) u (last + zlen ops) =
       fold_left (apply_op ucmp) ops (fun u => lookup_entry ucmp (db_entries contents mem_es imm_es v) u last) u) /\
    (forall u s, s <= last -> lookup_entry ucmp (db_entries contents mem_es' imm_es v) u s = lookup_entry ucmp (db_entries contents mem_es imm_es v) u s).
Proof.
  intros HE Hcrc Hcmp last Hh Hw Hf Hes Eq Hops Hne Hfit Hlen Hlast Hmax.
  assert (Forall (fun e => e_seq e <= last) mem_es) as Hmes.
  { unfold db_entries in Hes. cbn [concat] in Hes. by apply Forall_app in Hes as [? _]. }
  destruct (Write_leader_spec E files wcontents fname rest NowMicros extend z C new_chars ucmp options_ dbname cache_id garbage fuel db recs mem_es first
    queue ops0 opss Hf Hw Eq Hops Hne Hfit Hlen Hlast Hmax Hmes) as (k & Hk & db' & log & m & Ew & W1 & W2 & W3 & W4 & W5 & W6 & W7 & W8 & W9 & W10 & W11 & _).
  fold last in W2, W4, W5. set (ops := ops0 ++ concat (take k opss)) in *.
  exists db', k. split; [done|]. split; [done|]. split; [done|]. split; [done|]. split; [done|]. cbv zeta. fold ops.
  assert (db_entries contents (batch_entries (last + 1) ops ++ mem_es) imm_es v = batch_entries (last + 1) ops ++ db_entries contents mem_es imm_es v) as Ee.
  { unfold db_entries. cbn [concat]. by rewrite <- app_assoc. }
  assert (Forall (fun e => e_seq e < last + 1) (db_entries contents mem_es imm_es v)) as Hlt.
  { eapply list.Forall_impl; [exact Hes|]. intros e He. cbn in He. lia. }
  assert (NoDup (map e_seq (db_entries contents mem_es imm_es v))) as Hnd by apply Hh.
  split; [by rewrite W5|]. split; [by exists log|]. split; [|split; [|split]].
  - by apply (write_holds extend z limit rep options_ ok_keys dbname contents db db' mem_es imm_es v hs ops m (last + zlen ops)).
  - rewrite Ee. apply Forall_app_2.
    + eapply list.Forall_impl; [apply batch_entries_seqs|]. intros e He. cbn in He. lia.
    + eapply list.Forall_impl; [exact Hes|]. intros e He. cbn in He. lia.
  - intros u. rewrite Ee, batch_lookup by (done || lia). apply fold_apply_ext. intros x. apply lookup_after; [done|lia].
  - intros u s Hs. rewrite Ee. apply batch_lookup_before; (done || lia).
Qed.

Definition sample_queue : list DbWriter :=
  [mkDbWriter 1 (Some (batch_rep 0 [OpPut (str:"a") (str:"one")])) true; mkDbWriter 2 (Some (batch_rep 0 [OpDelete (str:"b")])) false].
Definition sample_writing : DBImpl MemEnv NewLRUCache :=
  set_log (Some (@Writer_new Extend_ref (env_W MemEnv) (log_name (str:"db") 3, []))) (set_writers sample_queue sample_db).

Lemma sample_writable : writable MemEnv snd Extend_ref NewLRUCache BytewiseComparator sample_db_opts sample_writing [] sample_mem_entries.
Proof.
  split.
  - done.
  - by exists sample_version.
  - exists sample_mem. split; [done|]. split; [apply sample_mem_rep|]. vm_compute. done.
  - eexists. split; [exact eq_refl|]. by split.
  - done.
Qed.

Lemma write_applies_group_witness :
  exists db', Write_leader MemEnv (fun _ => 0) Extend_ref no_compression NewLRUCache sample_chars BytewiseComparator sample_db_opts (str:"db") 0 false 1
    sample_writing = Some (db', Status_OK).
Proof.
  assert (db_holds MemEnv Extend_ref no_compression NewLRUCache 1000 (shared_rep 1000) BytewiseComparator sample_db_opts sample_ok_keys
    (str:"db") sample_contents sample_writing sample_mem_entries [] sample_version []) as Hh.
  { destruct sample_db_holds as [H1 H2 H3 H4 H5 H6 H7 H8]. by split. }
  destruct (write_applies_group MemEnv (fun w => w) snd fst (fun r => r) (fun _ => 0) Extend_ref no_compression NewLRUCache 1000 (shared_rep 1000) sample_chars
    BytewiseComparator sample_db_opts sample_ok_keys (str:"db") 0 false 1 sample_contents sample_writing sample_mem_entries [] sample_version [] []
    (mkDbWriter 1 (Some (batch_rep 0 [OpPut (str:"a") (str:"one")])) true) [mkDbWriter 2 (Some (batch_rep 0 [OpDelete (str:"b")])) false]
    [OpPut (str:"a") (str:"one")] [[OpDelete (str:"b")]] _ _ _ Hh sample_writable) as (db' & k & Ew & _).
  - lia.
  - repeat constructor; done.
  - done.
  - repeat constructor; by exists 0.
  - done.
  - repeat constructor; done.
  - done.
  - done.
  - done.
  - by exists db'.
Defined.

(** C11: a failed sync makes the database read-only, for good.  When the log cannot
    be synced for a batch with a count that is not negative (as [SetLastSequence]
    asserts), the writer is told so and the memtable is not touched; the error
    stays, so that every later write is told the same error and changes neither
    log nor memtable nor files, no later error replaces it, and background work
    and the deletion of files stop. *)
Theorem failed_sync_stops_writes (E : Env) (NowMicros : World E -> Z) (extend : Z -> bytes -> Z) (z : Compression) (C : CacheOps TableAndFile)
    (new_chars : list region -> Z -> Z) (ucmp : Comparator) (options_ : DBOptions) (dbname : bytes) (cache_id : Z) (garbage : bool) (fuel : nat)
    (db : DBImpl E C) (v : Version) (m : MemTable) (log log' : LogWriter.Writer (env_W E)) (batch : bytes) f s :
  let Write := Write E NowMicros extend z C new_chars ucmp options_ dbname cache_id garbage fuel in
  (0 < fuel)%nat -> writers_ db = [] -> ok (bg_error_ db) = true -> current (versions_ db) = Some v ->
  0 <= vs_last_sequence (versions_ db) <= kMaxSequenceNumber ->
  0 <= Count (SetSequence batch (u64 (vs_last_sequence (versions_ db) + 1))) ->
  zlen (level_files v 0) < kL0_SlowdownWritesTrigger -> mem_ db = Some m -> ApproximateMemoeyUsage m <= write_buffer_size options_ ->
  log_ db = Some log -> AddRecord extend log (SetSequence batch (u64 (vs_last_sequence (versions_ db) + 1))) = (log', Status_OK) ->
  Sync E (dest_ log') = (f, s) -> ok s = false ->
  exists db', Write (mkWriteOptions true) (Some batch) db = Some (db', s) /\
    mem_ db' = mem_ db /\ imm_ db' = imm_ db /\ db_world db' = db_world db /\ bg_error_ db' = s /\
    (forall wo updates, Write wo updates db' = Some (set_finished (finished_ db' ++ [(length (finished_ db'), s)]) db', s)) /\
    (forall s', RecordBackgroundError E C s' db' = Some (db', ())) /\
    MaybeScheduleCompaction E C db' = Some (db', ()) /\
    RemoveObsoleteFiles E C dbname db' = Some (db', ()) /\
    BackgroundCall E NowMicros extend z C ucmp options_ dbname cache_id garbage fuel db' = Some (set_background_compaction_scheduled false db', ()).
Proof.
  intros Write Hf Hq He Hv Hseq Hcount Hl Hm Hu Hlog Ea Es Hs.
  assert (exists db', Write (mkWriteOptions true) (Some batch) db = Some (db', s) /\ mem_ db' = mem_ db /\ imm_ db' = imm_ db /\
    db_world db' = db_world db /\ bg_error_ db' = s /\ writers_ db' = []) as (db' & E1 & E2 & E3 & E4 & E5 & E6).
  { unfold Write, DbClient.Write, Write_leader. dbm. cbn [writers_ set_writers]. rewrite Hq. cbn [app lookup list_lookup]. dbm. cbn [wr_batch wr_sync].
    assert (forall x, MakeRoomForWrite E NowMicros extend z C new_chars ucmp options_ dbname cache_id garbage fuel false (set_writers x db) =
      Some (set_writers x db, Status_OK)) as Er.
    { intros x. unfold MakeRoomForWrite. destruct fuel as [|n]; [lia|]. cbn [MakeRoom_loop negb]. dbm.
      cbn [bg_error_ set_writers versions_ mem_]. rewrite He. cbn [negb].
      unfold NumLevelFiles. rewrite Hv. cbn [mbind option_bind]. dbm. rewrite Hm. dbm. cbn [negb andb].
      rewrite Z.geb_leb, (proj2 (Z.leb_gt _ _)) by lia. cbn [andb]. rewrite (proj2 (Z.leb_le _ _)) by lia. by dbm. }
    erewrite bind_step by apply Er. dbm. cbn [ok Status_OK state_]. dbm.
    unfold BuildBatchGroup. cbn [writers_ set_writers wr_batch mbind option_bind group_loop]. dbm. cbn [fst snd]. dbm.
    unfold log_and_insert. dbm. cbn [log_ set_writers versions_]. rewrite Hlog. dbm. rewrite Ea. cbn [ok Status_OK state_ andb wo_sync]. rewrite Es, Hs. cbn [negb]. dbm.
    unfold unless_ok. rewrite Hs. dbm. unfold RecordBackgroundError. dbm. unfold try_versions. dbm.
    erewrite bind_step by reflexivity. dbm. cbn [bg_error_ set_log set_writers]. rewrite He. cbn [versions_ set_log set_writers set_bg_error].
    rewrite vs_SetLastSequence_spec.
    2:{ set (n := Count _) in Hcount |- *. assert (n < 2 ^ 31) by apply s32_range. rewrite u64_small; [lia|].
        change (2 ^ 64) with 18446744073709551616. change kMaxSequenceNumber with 72057594037927935 in *.
        change (2 ^ 31) with 2147483648 in *. lia. }
    dbm. unfold finish_group. dbm.
    eexists. split; [done|].
    by cbn [mem_ imm_ db_world bg_error_ writers_ set_finished set_writers DbState.set_versions set_bg_error set_log drop]. }
  exists db'. repeat (split; [done|]). split.
  - intros wo updates. unfold Write. rewrite Write_error by congruence. by rewrite E5.
  - destruct (background_error_idle E NowMicros extend z C ucmp options_ dbname cache_id garbage fuel db') as (B1 & B2 & B3 & B4); [congruence|done].
Qed.

(** An environment whose disk is full. *)
Definition FullEnv : Env :=
  mkEnv (World MemEnv) (env_W MemEnv) (env_F MemEnv) (NewSequentialFile MemEnv) (NewRandomAccessFile MemEnv) (NewWritableFile MemEnv)
    (NewAppendableFile MemEnv) (FileExists MemEnv) (GetChildren MemEnv) (env_RemoveFile MemEnv) (CreateDir MemEnv) (RemoveDir MemEnv)
    (GetFileSize MemEnv) (RenameFile MemEnv) (LockFile MemEnv) (UnlockFile MemEnv) (fun f => (f, Status_make kIOError (str:"no space") [])) (Close MemEnv)
    (delete_file MemEnv).
Definition full_versions : VersionSet FullEnv := mkVersionSet 20 2 20 3 0 None [mkNode 0 sample_version 1] 1 0 (replicate kNumLevels []).
Definition full_db : DBImpl FullEnv NewLRUCache :=
  set_log (Some (@Writer_new Extend_ref (env_W FullEnv) (log_name (str:"db") 3, [])))
    (set_versions full_versions (set_mem (Some sample_mem) (DBImpl_new FullEnv NewLRUCache sample_tables (SharedLRUCache_new 990)))).

Lemma failed_sync_stops_writes_witness :
  exists db', Write FullEnv (fun _ => 0) Extend_ref no_compression NewLRUCache sample_chars BytewiseComparator sample_db_opts (str:"db") 0 false 1
    (mkWriteOptions true) (Some (batch_rep 0 [OpDelete (str:"b")])) full_db = Some (db', Status_make kIOError (str:"no space") []) /\ mem_ db' = Some sample_mem.
Proof.
  destruct (failed_sync_stops_writes FullEnv (fun _ => 0) Extend_ref no_compression NewLRUCache sample_chars BytewiseComparator sample_db_opts
    (str:"db") 0 false 1 full_db sample_version sample_mem (@Writer_new Extend_ref (env_W FullEnv) (log_name (str:"db") 3, []))
    (fst (AddRecord Extend_ref (@Writer_new Extend_ref (env_W FullEnv) (log_name (str:"db") 3, [])) (batch_rep 21 [OpDelete (str:"b")])))
    (batch_rep 0 [OpDelete (str:"b")]) (log_name (str:"db") 3, snd (dest_ (fst (AddRecord Extend_ref
      (@Writer_new Extend_ref (env_W FullEnv) (log_name (str:"db") 3, [])) (batch_rep 21 [OpDelete (str:"b")])))))
    (Status_make kIOError (str:"no space") [])) as (db' & E1 & E2 & _).
  - lia.
  - exact eq_refl.
  - exact eq_refl.
  - exact eq_refl.
  - split; vm_compute; discriminate.
  - vm_compute. discriminate.
  - reflexivity.
  - exact eq_refl.
  - vm_compute. discriminate.
  - exact eq_refl.
  - vm_compute. reflexivity.
  - vm_compute. reflexivity.
  - exact eq_refl.
  - by exists db'.
Defined.
