(* ===== verification/DbFlush.v ===== *)
(** * A flush, from the memtable to the new version

    [DBImpl::CompactMemTable] as a whole (src/db/db_impl.cc): the table that
    [WriteLevel0Table] builds from the immutable memtable, the level it goes to,
    the edit, and the obsolete files that are deleted at the end.  After it the
    immutable memtable is gone and every reader from the oldest snapshot on finds
    the values it found before. *)

From Stdlib Require Import SpecFloat.
From stdpp Require Import gmap sets sorting.
From S2P Require Import Snapshot Prelude Slice Coding Crc32c Comparator DbFormat Hash Cache WriteBatch LogFormat LogWriter LogReader Filename.
From S2P Require Import Iterator SkipList Arena MemTable Entries MemIter View Prune BlockBuilder Block DbIter Merger TwoLevelIterator Format FilterBlock TableBuilder Table.
From S2P Require Import VersionEdit VersionFiles VersionBuilder Compaction VersionGet CompactedVersion FlushedVersion VersionIter TableCache Env BuildTable.
From S2P Require Import DbOptions VersionSet PerfCounters DbState DbImpl DbClient DbOpen DbFiles DbView DbCompact CompactionWork.

Section Flush.
Context (E : Env) (files : World E -> gmap bytes bytes) (wcontents : WFile (env_W E) -> bytes)
  (fname : WFile (env_W E) -> bytes) (rest : SFile (env_F E) -> bytes) `{!EnvLaws E files wcontents fname rest}.
Context (NowMicros : World E -> Z) (extend : Z -> bytes -> Z) `{!CrcLaws extend} (z : Compression) `{!CompressionLaws z}.
Context (C : CacheOps TableAndFile) (limit : Z)
  (rep : CState C -> (bytes -> option TableAndFile) -> list (CHandle C * TableAndFile) -> Prop) `{!CacheLaws C limit rep}.
Context (ucmp : Comparator) `{!ComparatorLaws ucmp} (options_ : DBOptions) (policy : option FilterPolicy)
  (ok_keys : list bytes -> Prop) `{!DbTableOptions ucmp (table_options options_) policy ok_keys}.
Context (dbname : bytes) (cache_id : Z) (garbage : bool) (fuel : nat).
Abbreviation icompare := (InternalKeyComparator.Compare ucmp).
Abbreviation o := (table_options options_).
Abbreviation DBImpl := (DBImpl E C).
Abbreviation stored := (stored E files extend z ucmp options_ ok_keys dbname).
Abbreviation db_stored := (db_stored E files wcontents fname extend z C limit rep ucmp options_ ok_keys dbname).
Abbreviation cache_below := (cache_below extend z C limit rep ucmp).
Implicit Types (db : DBImpl) (es ks : list Entry) (f : FileMetaData) (contents : Z -> list Entry) (w : World E) (v : Version).

(** The memtable becomes the immutable one. *)
Lemma switch_stored db contents mem_es v room m m' :
  mem_ db = Some m -> mem_rep ucmp m' [] -> db_stored db contents mem_es [] v room ->
  db_stored (set_imm (Some m) (set_mem (Some m') db)) contents [] mem_es v room.
Proof using Type.
  intros Hm Hm' [(hs & [(m0 & Hm0 & Hrep) H2 H3 H4 H5 H6 H7 H8]) S2 S3 S4 S5 S6 S7 S8].
  assert (m0 = m) as -> by congruence. split; try done. exists hs. split; try done; [by exists m'|].
  destruct (front_newer ucmp contents mem_es [] v H6) as (Hnd & Hfn & _). rewrite app_nil_r in Hnd, Hfn.
  apply front_sources; [exact Hfn|intros e1 e2 He; by apply not_elem_of_nil in He|apply H5|exact Hnd].
Qed.

(** ** Deleting obsolete files *)

Lemma Evict_below bound contents room cache n : cache_below bound contents room cache -> cache_below bound contents room (Evict C cache n).
Proof using All.
  intros H contents' Heq. destruct (H contents' Heq) as (hs & (m & Hr & Hm) & Hl). exists hs. split; [|done].
  exists (fun k => if decide (k = EncodeFixed64 n) then None else m k).
  split; [by apply (cache_erase cache)|]. intros n' tf Hn'. destruct (decide _); [done|]. by apply Hm.
Qed.

Lemma Evict_all_below bound contents room (l : list (bytes * Z * FileType)) cache : cache_below bound contents room cache ->
  cache_below bound contents room (fold_left (fun cache (f : bytes * Z * FileType) => match snd f with kTableFile => Evict C cache (snd (fst f)) | _ => cache end) l cache).
Proof using All.
  revert cache. induction l as [|[[x n] t] l IH]; intros cache H; cbn [fold_left]; [done|]. apply IH. cbn [fst snd].
  destruct t; try done. by apply Evict_below.
Qed.

Lemma current_in_version (vs : VersionSet E) v l f :
  current vs = Some v -> (l < kNumLevels)%nat -> f ∈ level_files v l -> in_version vs (number f).
Proof using Type.
  unfold current, version_of. intros (node & Hn & ->)%fmap_Some Hl Hf. apply find_some in Hn as [Hn _].
  exists node, l, f. split; [by apply list_elem_of_In|done].
Qed.

(** The files that are not needed are gone, the others are as they were. *)
Definition deleted db db' : Prop :=
  (forall x n type, Byte.x2f ∉ x -> ParseFileName x = Some (n, type) -> ~ file_needed (versions_ db') (pending_outputs_ db') n type ->
     files (db_world db') !! (dbname ++ str:"/" ++ x) = None) /\
  (forall x n type, ParseFileName x = Some (n, type) -> file_needed (versions_ db') (pending_outputs_ db') n type ->
     files (db_world db') !! (dbname ++ str:"/" ++ x) = files (db_world db) !! (dbname ++ str:"/" ++ x)).

(** The tables of the current version stay. *)
Lemma RemoveObsoleteFiles_stored db contents mem_es imm_es v room :
  ok (bg_error_ db) = true -> db_stored db contents mem_es imm_es v room -> (1 <= room)%nat ->
  exists db', RemoveObsoleteFiles E C dbname db = Some (db', ()) /\ db_stored db' contents mem_es imm_es v room /\
    imm_ db' = imm_ db /\ versions_ db' = versions_ db /\ pending_outputs_ db' = pending_outputs_ db /\
    deleted db db'.
Proof using All.
  intros Hbg [(hs & [H1 H2 H3 H4 H5 H6 H7 H8]) Htab Hvs Hdist Hnum Hnext Hcache Hman] Hroom.
  destruct (RemoveObsoleteFiles_spec E files wcontents fname rest C dbname db Hbg) as (db' & Er & Hdb & Hgone & Hsame).
  assert (table_cache_ db' = fold_left (fun cache (f : bytes * Z * FileType) => match snd f with kTableFile => Evict C cache (snd (fst f)) | _ => cache end)
    (obsolete_files E (versions_ db) (AddLiveFiles E (versions_ db) (pending_outputs_ db)) (snd (GetChildren E (db_world db) dbname))) (table_cache_ db)) as Ec.
  { unfold RemoveObsoleteFiles in Er. revert Er. dbm. rewrite Hbg. cbn [negb]. dbm. by intros [= <-]. }
  assert (cache_below (vs_next_file_number (versions_ db)) contents room (table_cache_ db')) as Hcache' by (rewrite Ec; by apply Evict_all_below).
  set (live := AddLiveFiles E _ _) in *. exists db'. split; [done|].
  assert (mem_ db' = mem_ db /\ imm_ db' = imm_ db /\ versions_ db' = versions_ db /\ pending_outputs_ db' = pending_outputs_ db) as
    (M1 & M2 & M3 & M4) by (rewrite Hdb; done).
  split; [|split; [done|split; [done|split; [done|]]]].
  2:{ unfold deleted. rewrite M3, M4. split.
      - intros x n type Hx Ep Hn%keep_file_false. apply Hgone; [done|]. by exists n, type.
      - intros x n type Ep Hn%keep_file_spec. apply Hsame. by eapply kept_name. }
  assert (forall l f, (l < kNumLevels)%nat -> f ∈ level_files v l -> stored (db_world db) contents f -> stored (db_world db') contents f) as Hst.
  { intros l f Hl Hf (Hr & tbl & Ht & Hs & Hw). split; [done|]. exists tbl. split; [done|]. split; [done|].
    assert (forall ext, ext ∈ [str:"ldb"; str:"sst"] -> files (db_world db') !! (dbname ++ str:"/" ++ file_base (number f) ext) =
      files (db_world db) !! (dbname ++ str:"/" ++ file_base (number f) ext)) as Hk.
    { intros ext Hext. apply Hsame. eapply (kept_name E dbname _ live (file_base (number f) ext) (number f) kTableFile); [done| |].
      - apply list_elem_of_lookup in Hext as [i Hi]. destruct i as [|[|i]]; [injection Hi as <-|injection Hi as <-|done]; (apply ParseFileName_base; [lia|set_solver]).
      - apply bool_decide_eq_true, AddLiveFiles_spec. right. by eapply current_in_version. }
    pose proof (Hk (str:"ldb") ltac:(by left)) as K1. pose proof (Hk (str:"sst") ltac:(by right; left)) as K2.
    change (dbname ++ str:"/" ++ file_base (number f) (str:"ldb")) with (table_name dbname (number f)) in K1.
    change (dbname ++ str:"/" ++ file_base (number f) (str:"sst")) with (sst_name dbname (number f)) in K2. by rewrite K1, K2. }
  assert (version_holds ucmp (stored (db_world db') contents) contents v) as Htab'.
  { destruct Htab as [T1 T2 T3 T4]. split; try done. intros l. specialize (T1 l). rewrite list.Forall_forall in T1 |- *. intros f Hf.
    eapply file_holds_transport; [done| |by apply T1]. intros Hx. destruct (decide (l < kNumLevels)%nat) as [Hl|Hl]; [by apply (Hst l)|].
    exfalso. unfold level_files in Hf. destruct (files_ v !! l) as [fs|] eqn:Ef; [|by apply not_elem_of_nil in Hf].
    apply lookup_lt_Some in Ef. destruct Hvs as [Hlen _]. lia. }
  split; rewrite ?M3; try done. destruct (Hcache' contents ltac:(done)) as (hs' & Ht' & Hl').
  exists hs'. split; rewrite ?M1, ?M2, ?M3; try done; [|lia]. eapply version_holds_mono; [|exact Htab'].
  intros f Hf. by eapply (stored_is_table E files wcontents fname rest).
Qed.

(** ** The table *)

Definition contents_with_table contents (n : Z) ks (k : Z) : list Entry := if k =? n then ks else contents k.

Lemma contents_with_old contents n ks k : k <> n -> contents_with_table contents n ks k = contents k.
Proof using Type. intros H. unfold contents_with_table. by rewrite (proj2 (Z.eqb_neq _ _)). Qed.

Lemma contents_with_new contents n ks : contents_with_table contents n ks n = ks.
Proof using Type. unfold contents_with_table. by rewrite Z.eqb_refl. Qed.

Abbreviation new_meta n := (FileMetaData_new n 0 [] []).

(** [WriteLevel0Table] builds the table of the memtable and takes a number. *)
Lemma WriteLevel0Table_spec db imm es contents edit base pruning level room :
  let n := vs_next_file_number (versions_ db) in
  let ks := kept pruning PruneState_new es in
  let m := range_of (new_meta n) ks in
  mem_list ucmp imm es -> es <> [] -> (length es < fuel)%nat -> 0 < n -> n + 1 < 2 ^ 64 ->
  table_fits E wcontents extend z ucmp o ok_keys ks -> cache_below n contents room (table_cache_ db) -> (1 <= room)%nat ->
  match base with
  | Some v => PickLevelForMemTableOutput ucmp (max_file_size options_) v (small_user m) (large_user m) = Some level
  | None => level = 0%nat
  end ->
  exists w' cache' tbl, let pend' := ({[n]} ∪ pending_outputs_ db) ∖ {[n]} in
    WriteLevel0Table E extend z C ucmp options_ dbname cache_id fuel imm edit base pruning db =
      Some (set_db_world w' (set_table_cache cache' (set_pending_outputs pend' (DbState.set_versions (with_next E (versions_ db) (n + 1)) db))),
        (AddFile edit (Z.of_nat level) n (zlen tbl) (smallest m) (largest m), mkFlushResult level (zlen tbl) true, Status_OK)) /\
    files w' = <[table_name dbname n := tbl]> (files (db_world db)) /\ table_bytes extend z ucmp o ok_keys ks tbl /\
    cache_below (n + 1) (contents_with_table contents n ks) room cache'.
Proof using All.
  intros n ks m Hmem Hne Hf Hn Hn1 Hfit Hcache Hroom Hlevel. destruct (mem_cursor ucmp imm es Hmem) as (pos & Hpos & Hp).
  assert (cursor_at fits icompare (MemTableIterator ucmp imm) (map entry_kv es) (MemTable_NewIterator ucmp imm) (length es)) as Hcur by (by exists pos).
  assert (forall contents', (forall k, k < n + 1 -> contents' k = contents_with_table contents n ks k) ->
    exists w' cache' tbl, BuildTable E extend z C dbname o cache_id (MemTableIterator ucmp imm) fuel (db_world db) (table_cache_ db)
        (MemTable_NewIterator ucmp imm) (new_meta n) pruning = Some (w', cache', with_size m (zlen tbl), Status_OK) /\
      cache_room extend z ucmp C limit rep contents' room cache' /\
      holds_table E files extend z ucmp o ok_keys (db_world db) w' (table_name dbname n) ks tbl) as Hbuild.
  { intros contents' Heq. destruct (Hcache contents') as (hs & Hhs & Hl).
    { intros k Hk. rewrite Heq by lia. apply contents_with_old. lia. }
    destruct (BuildTable_spec E files wcontents fname rest extend z ucmp o policy ok_keys C limit rep dbname cache_id (MemTableIterator ucmp imm) fits contents'
      fuel pruning es (MemTable_NewIterator ucmp imm) (length es) (db_world db) (table_cache_ db) hs (new_meta n) Hcur Hf Hhs) as (w' & cache' & meta' & Eb & Hc' & Hm);
      [lia|cbn; lia| |].
    - intros _. split; [done|]. cbn [number FileMetaData_new]. rewrite Heq by lia. apply contents_with_new.
    - destruct es as [|e0 es0]; [done|]. destruct Hm as (tbl & -> & Ht). exists w', cache', tbl. split; [done|]. split; [by exists hs|done]. }
  destruct (Hbuild (contents_with_table contents n ks) ltac:(done)) as (w' & cache' & tbl & Eb & _ & Hw' & Ht).
  assert (0 < zlen tbl) as Hpos0 by (by eapply table_bytes_nonempty).
  exists w', cache', tbl. unfold WriteLevel0Table, new_file_number, NewFileNumber. dbm. fold n.
  cbn [db_world table_cache_ set_pending_outputs DbState.set_versions]. rewrite Eb. dbm. cbn [fst snd ok Status_OK state_ andb]. dbm.
  cbn [ok Status_OK state_ andb with_size file_size smallest largest]. rewrite (proj2 (Z.gtb_lt _ _)) by lia.
  assert (match base with Some v => PickLevelForMemTableOutput ucmp (max_file_size options_) v (ExtractUserKey (smallest m)) (ExtractUserKey (largest m))
    | None => Some 0%nat end = Some level) as -> by (destruct base; [done|by rewrite Hlevel]).
  dbm. rewrite (u64_small (n + 1)) by lia. split; [done|]. split; [done|]. split; [done|].
  intros contents' Heq. destruct (Hbuild contents' Heq) as (w2 & cache2 & tbl2 & Eb2 & Hr & _). rewrite Eb in Eb2. by injection Eb2 as <- <- _.
Qed.

(** An empty memtable makes no table. *)
Lemma WriteLevel0Table_empty db imm contents edit base pruning room :
  let n := vs_next_file_number (versions_ db) in
  mem_list ucmp imm [] -> (0 < fuel)%nat -> 0 < n -> n + 1 < 2 ^ 64 -> cache_below n contents room (table_cache_ db) -> (1 <= room)%nat ->
  exists w' cache', let pend' := ({[n]} ∪ pending_outputs_ db) ∖ {[n]} in
    WriteLevel0Table E extend z C ucmp options_ dbname cache_id fuel imm edit base pruning db =
      Some (set_db_world w' (set_table_cache cache' (set_pending_outputs pend' (DbState.set_versions (with_next E (versions_ db) (n + 1)) db))),
        (edit, FlushResult_new, Status_OK)) /\
    files w' = delete (table_name dbname n) (files (db_world db)) /\ cache_below n contents room cache'.
Proof using All.
  intros n Hmem Hf Hn Hn1 Hcache Hroom. destruct (mem_cursor ucmp imm [] Hmem) as (pos & Hpos & Hp).
  assert (cursor_at fits icompare (MemTableIterator ucmp imm) (map entry_kv []) (MemTable_NewIterator ucmp imm) 0) as Hcur by (by exists pos).
  assert (forall contents', (forall k, k < n -> contents' k = contents k) ->
    exists w' cache', BuildTable E extend z C dbname o cache_id (MemTableIterator ucmp imm) fuel (db_world db) (table_cache_ db)
        (MemTable_NewIterator ucmp imm) (new_meta n) pruning = Some (w', cache', with_size (new_meta n) 0, Status_OK) /\
      cache_room extend z ucmp C limit rep contents' room cache' /\ files w' = delete (table_name dbname n) (files (db_world db))) as Hbuild.
  { intros contents' Heq. destruct (Hcache contents' Heq) as (hs & Hhs & Hl).
    destruct (BuildTable_spec E files wcontents fname rest extend z ucmp o policy ok_keys C limit rep dbname cache_id (MemTableIterator ucmp imm) fits contents'
      fuel pruning [] (MemTable_NewIterator ucmp imm) 0 (db_world db) (table_cache_ db) hs (new_meta n) Hcur Hf Hhs) as (w' & cache' & meta' & Eb & Hc' & -> & Hw');
      [lia|cbn; lia|done|]. exists w', cache'. split; [done|]. split; [by exists hs|done]. }
  destruct (Hbuild contents ltac:(done)) as (w' & cache' & Eb & _ & Hw').
  exists w', cache'. unfold WriteLevel0Table, new_file_number, NewFileNumber. dbm. fold n.
  cbn [db_world table_cache_ set_pending_outputs DbState.set_versions]. rewrite Eb. dbm. cbn [fst snd ok Status_OK state_ andb]. dbm.
  cbn [ok Status_OK state_ andb with_size file_size Z.gtb Z.compare]. dbm. rewrite (u64_small (n + 1)) by lia. split; [done|]. split; [done|].
  intros contents' Heq. destruct (Hbuild contents' Heq) as (w2 & cache2 & Eb2 & Hr & _). rewrite Eb in Eb2. by injection Eb2 as <- <-.
Qed.

(** ** The edit *)

Definition flush_edit (level : nat) (n size : Z) (small large : bytes) (logfile : Z) : VersionEdit :=
  SetLogNumber (SetPrevLogNumber (AddFile (VersionEdit_new garbage) (Z.of_nat level) n size small large) 0) logfile.

Lemma flush_edit_new level n size small large logfile l :
  edit_new l (flush_edit level n size small large logfile) = if decide (l = level) then [prepare_file (FileMetaData_new n size small large)] else [].
Proof using Type.
  unfold edit_new. change (new_files_ (flush_edit level n size small large logfile)) with [(Z.of_nat level, FileMetaData_new n size small large)].
  rewrite filter_cons. cbn [fst]. rewrite Nat2Z.id. destruct (decide (level = l)) as [->|Hne]; [by rewrite decide_True by done|by rewrite decide_False by done].
Qed.

Lemma flush_edit_deleted level n size small large logfile l : edit_deleted l (flush_edit level n size small large logfile) = [].
Proof using Type. done. Qed.

Lemma filter_nothing (fs : list FileMetaData) : filter (fun f => number f ∉ ([] : list Z)) fs = fs.
Proof using Type. induction fs as [|f fs IH]; [done|]. rewrite filter_cons_True by apply not_elem_of_nil. by rewrite IH. Qed.

Section Table.
Context contents (w w' : World E) v (level : nat) (n : Z) ks (tbl : bytes) (logfile : Z).
Abbreviation m := (range_of (new_meta n) ks).
Abbreviation edit := (flush_edit level n (zlen tbl) (smallest m) (largest m) logfile).
Abbreviation new := (prepare_file (FileMetaData_new n (zlen tbl) (smallest m) (largest m))).
Abbreviation contents' := (contents_with_table contents n ks).
Context (Hfiles : files w' = <[table_name dbname n := tbl]> (files w)) (Ht : table_bytes extend z ucmp o ok_keys ks tbl).
Context (Hne : ks <> []) (Hok : Forall entry_ok ks) (Hnd : NoDup (map e_seq ks)) (Hn : 0 < n < 2 ^ 64).
Context (Hv : version_holds ucmp (stored w contents) contents v) (Hvs : version_sorted ucmp (files_ v)) (Hdist : distinct_files v)
  (Hnum : forall l, Forall (fun f => number f < n) (level_files v l)) (Hcnt : forall l, zlen (level_files v l) + 1 < 2 ^ 31).
Context (Hlevel : (level <= kMaxMemCompactLevel)%nat)
  (Hclear : (0 < level)%nat -> forall l, (l <= level)%nat -> ~ level_overlaps ucmp v (small_user m) (large_user m) l).

Lemma flush_new_holds : file_holds ucmp (stored w' contents') contents' new.
Proof using All.
  destruct ks as [|a ks'] eqn:Ek; [done|]. rewrite <- Ek in *. assert (es_sorted ucmp ks) as Hs by (apply Ht).
  split; unfold file_entries; cbn [prepare_file FileMetaData_new number smallest largest]; rewrite ?contents_with_new; try done.
  - split; [done|]. exists tbl. cbn [prepare_file FileMetaData_new number file_size]. rewrite contents_with_new. split; [done|]. split; [done|]. left.
    by rewrite Hfiles, lookup_insert_eq.
  - intros e He. by destruct (range_holds ucmp (new_meta n) ks e Hs He) as (H1 & H2 & _).
  - destruct (range_holds ucmp (new_meta n) ks a Hs) as (_ & _ & b & Hb & El); [rewrite Ek; by left|]. by exists b.
Qed.

Lemma flush_fresh : fresh_edits (files_ v) [edit].
Proof using All.
  intros l base Hb. unfold fresh_files. cbn [map concat]. rewrite app_nil_r, map_app, flush_edit_new. apply list.NoDup_app. split; [by apply (Hdist l)|].
  assert (level_files v l = base) as El by (unfold level_files; by rewrite Hb).
  destruct (decide _); cbn [map]; [|split; [intros x _; apply not_elem_of_nil|constructor]]. split; [|apply NoDup_singleton].
  intros k (f & -> & Hf)%list_elem_of_fmap Hx%list_elem_of_singleton. specialize (Hnum l). rewrite El, list.Forall_forall in Hnum.
  specialize (Hnum f Hf). cbn in Hx. lia.
Qed.

Lemma flush_levels v' cp l : files_ v' = saved ucmp cp (files_ v) [edit] ->
  level_files v' l ≡ₚ level_files v l ++ new_at level new l /\ files_sorted ucmp (level_files v' l).
Proof using All.
  intros Hv'. unfold level_files. rewrite Hv'. destruct (files_ v !! l) as [base|] eqn:Eb.
  - destruct (saved_lookup ucmp cp (files_ v) [edit] l base Hvs flush_fresh Eb) as (fs & -> & Hs & Hperm).
    cbn [from_option default id]. split; [|done]. rewrite Hperm. cbn [fold_left]. unfold edited. rewrite flush_edit_new, flush_edit_deleted. unfold new_at.
    by rewrite filter_nothing.
  - assert (length (files_ v) <= l)%nat as Hl by (by apply lookup_ge_None). destruct Hvs as [Hvl _].
    assert (saved ucmp cp (files_ v) [edit] !! l = None) as -> by (apply lookup_ge_None; by rewrite length_saved, <- Hvl).
    cbn. split; [|constructor]. unfold new_at. rewrite decide_False; [done|]. unfold kMaxMemCompactLevel, kNumLevels in *. lia.
Qed.

Lemma flush_stored f : number f < n -> stored w contents f -> stored w' contents' f.
Proof using All.
  intros Hlt (Hr & t & H1 & H2 & H3). split; [done|]. exists t. rewrite contents_with_old by lia. split; [done|]. split; [done|].
  rewrite Hfiles, !lookup_insert_ne; [done| |]; intros Eq.
  - symmetry in Eq. apply sst_name_inj in Eq; lia.
  - apply table_name_inj in Eq; lia.
Qed.

Lemma flush_Flushed v' cp : files_ v' = saved ucmp cp (files_ v) [edit] ->
  Flushed ucmp (stored w contents) (stored w' contents') contents contents' v v' level new.
Proof using All.
  intros Hv'. pose proof (fun l => flush_levels v' cp l Hv') as Hlev. split.
  - unfold kMaxMemCompactLevel, kNumLevels in *. lia.
  - apply Hlev.
  - intros l _. apply Hlev.
  - intros l. rewrite (proj1 (Hlev l)), length_app. pose proof (Hcnt l). unfold new_at. destruct (decide _); cbn; lia.
  - intros l f Hf. pose proof (Hnum l) as Hx. rewrite list.Forall_forall in Hx. specialize (Hx f Hf).
    split; [apply contents_with_old; lia|by apply flush_stored].
  - intros f Hf. pose proof (Hnum 0%nat) as Hx. rewrite list.Forall_forall in Hx. by apply Hx.
  - apply flush_new_holds.
  - intros H0 l f Hl Hf Ho. apply (Hclear H0 l Hl). by exists f.
Qed.

Lemma flush_sorted v' cp : files_ v' = saved ucmp cp (files_ v) [edit] -> version_sorted ucmp (files_ v') /\ distinct_files v'.
Proof using All.
  intros Hv'. pose proof flush_fresh as Hfresh. split; [rewrite Hv'; by apply saved_sorted|]. intros l fs Hl. rewrite Hv' in Hl.
  assert (is_Some (files_ v !! l)) as [base Hb].
  { apply lookup_lt_is_Some_2. apply lookup_lt_Some in Hl. rewrite length_saved in Hl by apply Hvs. by destruct Hvs as [-> _]. }
  destruct (saved_lookup ucmp cp (files_ v) [edit] l base Hvs Hfresh Hb) as (fs' & Efs & _ & Hperm).
  assert (fs' = fs) as -> by congruence. rewrite Hperm. cbn [fold_left]. unfold edited.
  specialize (Hfresh l base Hb). unfold fresh_files in Hfresh. cbn [map concat] in Hfresh. rewrite app_nil_r in Hfresh.
  eapply sublist_NoDup; [exact Hfresh|]. apply sublist_map, sublist_app; [apply sublist_filter|done].
Qed.
End Table.

(** ** The whole operation *)

Lemma oldest_snapshot_same db db1 snap :
  snapshots_ db1 = snapshots_ db -> vs_last_sequence (versions_ db1) = vs_last_sequence (versions_ db) ->
  oldest_snapshot E C db = Some (db, snap) -> oldest_snapshot E C db1 = Some (db1, snap).
Proof using Type.
  intros Hs Hl. unfold oldest_snapshot. dbm. rewrite Hs, Hl. destruct (Snapshot.empty (snapshots_ db)) as [[|]|]; [..|done]; dbm.
  - by intros [= <-].
  - unfold lift. destruct (oldest (snapshots_ db) ≫= _) as [x|]; [|done]. by intros [= <-].
Qed.

Section Run.
Context db contents (mem_es imm_es : list Entry) v (imm : MemTable) (snap : Z) (room : nat).
Abbreviation next := (vs_next_file_number (versions_ db)).
Context (Hst : db_stored db contents mem_es imm_es v room) (Hroom : (1 <= room)%nat) (Himm : imm_ db = Some imm) (Hne : imm_es <> []).
Context (Hold : oldest_snapshot E C db = Some (db, snap)) (Hdown : shutting_down_ db = false) (Hbg : ok (bg_error_ db) = true).
Context (Hfuel : (length imm_es < fuel)%nat) (Hbound : next + 1 < 2 ^ 64) (Hcnt : forall l, zlen (level_files v l) + 1 < 2 ^ 31).
Context (Hfits : forall es, es ≡ₚ imm_es -> es_sorted ucmp es ->
  table_fits E wcontents extend z ucmp o ok_keys (survivors ucmp snap (fun _ => false) None es)).

(** The state after the edit: what the new version and the memtable hold. *)
Lemma flush_db_stored es level tbl w' logfile db' v' cp :
  let ks := survivors ucmp snap (fun _ => false) None es in
  let m := range_of (new_meta next) ks in
  let contents' := contents_with_table contents next ks in
  es ≡ₚ imm_es -> es_sorted ucmp es -> ks <> [] ->
  files w' = <[table_name dbname next := tbl]> (files (db_world db)) -> table_bytes extend z ucmp o ok_keys ks tbl ->
  (level <= kMaxMemCompactLevel)%nat -> ((0 < level)%nat -> forall l, (l <= level)%nat -> ~ level_overlaps ucmp v (small_user m) (large_user m) l) ->
  files_ v' = saved ucmp cp (files_ v) [flush_edit level next (zlen tbl) (smallest m) (largest m) logfile] ->
  db_world db' = w' -> mem_ db' = mem_ db -> imm_ db' = None -> versions_ok (versions_ db') -> current (versions_ db') = Some v' ->
  vs_next_file_number (versions_ db') = next + 1 -> cache_below (next + 1) contents' room (table_cache_ db') ->
  (exists n edits log, vs_descriptor (versions_ db') = Some log /\ descriptor_at E wcontents fname extend dbname n edits log) ->
  db_stored db' contents' mem_es [] v' room /\
  (forall u s, snap <= s -> lookup_entry ucmp (db_entries contents' mem_es [] v') u s = lookup_entry ucmp (db_entries contents mem_es imm_es v) u s).
Proof using All.
  intros ks m contents' HP Hs Hks Hfiles Ht Hlev Hclear Hv' F1 F2 F3 F4 F5 Hnext' Hcache' Hman'.
  destruct Hst as [(hs & H) Htab Hvs Hdist Hnum Hnext _ _]. pose proof H as [(mm & Hmm & Hrep) Hi _ _ _ Hord _ _]. rewrite Himm in Hi.
  destruct Hi as (Hoki & Hndi & _). assert (Forall entry_ok es /\ NoDup (map e_seq es)) as [Hoke Hnde] by (by rewrite HP).
  assert (Forall entry_ok ks) as Hok by (by apply survivors_Forall). assert (NoDup (map e_seq ks)) as Hnd by (by apply survivors_NoDup).
  destruct (front_newer ucmp contents mem_es imm_es v Hord) as (Hnda & Hfn & Hmi).
  assert (forall e, e ∈ ks -> e ∈ imm_es) as Hin by (intros e He; rewrite <- HP; by eapply survivors_elem).
  pose proof (flush_Flushed contents (db_world db) w' v level next ks tbl logfile Hfiles Ht Hks Hok Hnd ltac:(lia) Htab Hvs Hdist Hnum Hcnt Hlev Hclear v' cp Hv') as HF.
  destruct (flush_sorted contents (db_world db) w' v level next ks tbl logfile Hfiles Ht Hks Hok Hnd ltac:(lia) Htab Hvs Hdist Hnum Hcnt Hlev Hclear v' cp Hv') as [Hs' Hd'].
  pose proof (flushed_entries ucmp _ _ contents contents' v v' level _ HF) as En. unfold file_entries in En.
  cbn [prepare_file FileMetaData_new number] in En. unfold contents' in En. rewrite contents_with_new in En. fold contents' in En.
  assert (NoDup (map e_seq (es ++ (mem_es ++ all_entries contents v)))) as Hnd1.
  { rewrite HP. assert (imm_es ++ (mem_es ++ all_entries contents v) ≡ₚ (mem_es ++ imm_es) ++ all_entries contents v) as -> by solve_Permutation. done. }
  assert (NoDup (map e_seq (ks ++ (mem_es ++ all_entries contents v)))) as Hnd2.
  { eapply sublist_NoDup; [exact Hnd1|]. apply sublist_map, sublist_app; [apply survivors_sublist|done]. }
  assert ((mem_es ++ []) ++ all_entries contents' v' ≡ₚ ks ++ (mem_es ++ all_entries contents v)) as E2 by (rewrite app_nil_r, En; solve_Permutation).
  assert ((mem_es ++ imm_es) ++ all_entries contents v ≡ₚ es ++ (mem_es ++ all_entries contents v)) as E1 by (rewrite HP; solve_Permutation).
  assert (version_holds ucmp (stored w' contents') contents' v') as Hholds.
  { apply (flushed_holds ucmp _ _ contents contents' v v' level _ Htab HF).
    - unfold file_entries. cbn [prepare_file FileMetaData_new number]. unfold contents'. rewrite contents_with_new.
      intros e1 e2 H1 H2. apply Hfn; [|done]. apply elem_of_app. right. by apply Hin.
    - unfold file_entries. cbn [prepare_file FileMetaData_new number]. unfold contents'. rewrite contents_with_new.
      eapply sublist_NoDup; [exact Hnd2|]. apply sublist_map, sublist_app; [done|]. by apply sublist_inserts_l. }
  split.
  - split; try done.
    + destruct (Hcache' contents' ltac:(done)) as (hs' & Hc' & Hl'). exists hs'. split; rewrite ?F1, ?F2, ?F3; try done; [by exists mm| | |lia].
      * eapply version_holds_mono; [|exact Hholds]. intros f Hf. by eapply (stored_is_table E files wcontents fname rest).
      * apply front_sources; [|intros e1 e2 _ Hx; by apply not_elem_of_nil in Hx|apply Hholds|by rewrite E2].
        rewrite app_nil_r. intros e1 e2 H1 H2. rewrite En in H2. apply elem_of_app in H2 as [H2|H2]; [apply Hmi; auto|].
        apply Hfn; [apply elem_of_app; by left|done].
    + by rewrite F1.
    + intros l. apply list.Forall_forall. intros f Hf. rewrite Hnext'. apply (flushed_elem ucmp _ _ contents contents' v v' level _ HF) in Hf as [Hf|[_ ->]].
      * pose proof (Hnum l) as Hx. rewrite list.Forall_forall in Hx. specialize (Hx f Hf). lia.
      * cbn. lia.
    + lia.
    + by rewrite Hnext'.
  - intros u s Hsn. rewrite !(lookup_db_entries ucmp) by (done || by rewrite E2). unfold lookup_entry.
    rewrite (newest_permutation ucmp _ _ u s Hnda E1). rewrite (newest_permutation ucmp ((mem_es ++ []) ++ _) _ u s) by (done || by rewrite E2).
    apply (survivors_reads ucmp); [done..|]. intros e r _ _ _. by right.
Qed.

(** The version with the new table has no overlaps. *)
Lemma flush_applicable vs es level tbl w' logfile :
  let ks := survivors ucmp snap (fun _ => false) None es in
  let m := range_of (new_meta next) ks in
  es ≡ₚ imm_es -> es_sorted ucmp es -> ks <> [] ->
  files w' = <[table_name dbname next := tbl]> (files (db_world db)) -> table_bytes extend z ucmp o ok_keys ks tbl ->
  (level <= kMaxMemCompactLevel)%nat -> ((0 < level)%nat -> forall l, (l <= level)%nat -> ~ level_overlaps ucmp v (small_user m) (large_user m) l) ->
  vs_log_number vs <= logfile < vs_next_file_number vs ->
  applicable E ucmp vs v (flush_edit level next (zlen tbl) (smallest m) (largest m) logfile).
Proof using All.
  intros ks m HP Hs Hks Hfiles Ht Hlev Hclear Hlog. split; [done|].
  destruct Hst as [(hs & H) Htab Hvs Hdist Hnum Hnext _ _]. pose proof H as [_ Hi _ _ _ Hord _ _]. rewrite Himm in Hi.
  destruct Hi as (Hoki & Hndi & _). assert (Forall entry_ok es /\ NoDup (map e_seq es)) as [Hoke Hnde] by (by rewrite HP).
  set (v1 := mkVersion (saved ucmp (vs_compact_pointer vs) (files_ v) [flush_edit level next (zlen tbl) (smallest m) (largest m) logfile]) None 0 (double_of 0) 0).
  pose proof (flush_Flushed contents (db_world db) w' v level next ks tbl logfile Hfiles Ht Hks ltac:(by apply survivors_Forall)
    ltac:(by apply survivors_NoDup) ltac:(lia) Htab Hvs Hdist Hnum Hcnt Hlev Hclear v1 _ eq_refl) as HF.
  apply disjoint_levels_ok; [done|]. intros l fs Hl.
  assert (level_files v1 (S l) = fs) as <- by (unfold level_files; cbn [v1 files_]; by rewrite Hl).
  apply sorted_disjoint; [done|apply (fl_sorted _ _ _ _ _ _ _ _ _ HF); lia| |].
  - apply list.Forall_forall. intros f Hf. eapply holds_file_ok; [done|]. by eapply (flushed_file ucmp _ _ _ _ _ _ _ _ Htab HF).
  - intros f g Hf Hg. eapply (flushed_beside ucmp _ _ _ _ _ _ _ _ Htab HF); [apply Nat.lt_0_succ|exact Hf|exact Hg].
Qed.

Lemma CompactMemTable_spec mn edits log :
  vs_descriptor (versions_ db) = Some log -> descriptor_at E wcontents fname extend dbname mn edits log ->
  vs_log_number (versions_ db) <= logfile_number_ db < next ->
  exists db' v' contents' es level new log',
    CompactMemTable E NowMicros extend z C ucmp options_ dbname cache_id garbage fuel db = Some (db', ()) /\ imm_ db' = None /\
    (es ≡ₚ imm_es /\ es_sorted ucmp es /\ contents' next = survivors ucmp snap (fun _ => false) None es) /\
    (forall k, k <> next -> contents' k = contents k) /\
    (number new = next /\ (level <= kMaxMemCompactLevel)%nat /\ forall l, level_files v' l ≡ₚ level_files v l ++ (if decide (l = level) then [new] else [])) /\
    (vs_descriptor (versions_ db') = Some log' /\
     descriptor_at E wcontents fname extend dbname mn
       (edits ++ [complete_edit E (with_next E (versions_ db) (next + 1))
          (flush_edit level next (file_size new) (smallest new) (largest new) (logfile_number_ db))]) log') /\
    (vs_log_number (versions_ db') = logfile_number_ db /\ vs_prev_log_number (versions_ db') = 0 /\
     vs_next_file_number (versions_ db') = next + 1 /\ pending_outputs_ db' = pending_outputs_ db ∖ {[next]}) /\
    (forall x n type, Byte.x2f ∉ x -> ParseFileName x = Some (n, type) -> ~ file_needed (versions_ db') (pending_outputs_ db') n type ->
       files (db_world db') !! (dbname ++ str:"/" ++ x) = None) /\
    db_stored db' contents' mem_es [] v' room /\
    (forall u s, snap <= s -> lookup_entry ucmp (db_entries contents' mem_es [] v') u s = lookup_entry ucmp (db_entries contents mem_es imm_es v) u s).
Proof using All.
  intros Hlog Hat Hlogno. pose proof Hst as [(hs & [_ Hi Hvok Hcur _ _ _ _]) Htab Hvs Hdist Hnum Hnext Hcache _]. rewrite Himm in Hi.
  assert (0 < next < 2 ^ 64) as Hrange by lia.
  destruct (mem_rep_list ucmp imm imm_es Hi) as (es & HP & Hmem). pose proof Hmem as (Hok & Hsort & _).
  set (ks := survivors ucmp snap (fun _ => false) None es). set (vs := versions_ db) in *. set (id := vs_current vs).
  assert (kept (Some (mkPruning ucmp snap)) PruneState_new es = ks) as Ek by (by apply kept_survivors).
  assert (es <> []) as Hes by (intros ->; by apply Permutation_nil_l in HP).
  assert (ks <> []) as Hks.
  { unfold ks. destruct es as [|e0 es0]; [done|]. cbn [survivors covered orb]. unfold obsolete. destruct (e_type e0); rewrite ?andb_false_r; discriminate. }
  set (m := range_of (new_meta next) ks).
  destruct (PickLevel_spec ucmp (max_file_size options_) v (small_user m) (large_user m)) as (level & Epick & Hlev & Hclear).
  { eapply (version_holds_ok ucmp); [apply Hvs| |exact Htab]. intros l. pose proof (Hcnt l). lia. }
  set (db1 := DbState.set_versions (Version_Ref E vs id) db).
  destruct (WriteLevel0Table_spec db1 imm es contents (VersionEdit_new garbage) (Some v) (Some (mkPruning ucmp snap)) level room) as
    (w' & cache' & tbl & Ew & Hw' & Ht & Hc'); try (by rewrite ?Ek); try done.
  { apply Permutation_length in HP. lia. } { rewrite Ek. by apply Hfits. }
  rewrite Ek in Ew, Ht, Hc'. change (vs_next_file_number (versions_ db1)) with next in *. fold m in Ew.
  change (pending_outputs_ db1) with (pending_outputs_ db) in Ew. set (pend' := ({[next]} ∪ pending_outputs_ db) ∖ {[next]}) in Ew.
  set (edit := flush_edit level next (zlen tbl) (smallest m) (largest m) (logfile_number_ db)).
  destruct (LogAndApply_open E files wcontents fname rest extend ucmp dbname (max_file_size options_) (reuse_logs options_) w' (with_next E vs (next + 1)) v mn edits log
    edit garbage) as (vs' & v' & log' & El & Hvok' & Hcur' & Hv' & Hlog' & Hat' & Hnx & Hls & Hln & Hpl).
  { by destruct Hvok; split. } { done. } { done. } { done. }
  { apply (flush_applicable _ es level tbl w'); try done. change (vs_log_number vs <= logfile_number_ db < vs_next_file_number vs + 1). lia. }
  assert (exists db3, CompactMemTable E NowMicros extend z C ucmp options_ dbname cache_id garbage fuel db = RemoveObsoleteFiles E C dbname db3 /\
    db_world db3 = w' /\ mem_ db3 = mem_ db /\ imm_ db3 = None /\ versions_ db3 = vs' /\ table_cache_ db3 = cache' /\ bg_error_ db3 = bg_error_ db /\
    pending_outputs_ db3 = pend') as (db3 & Erun & G1 & G2 & G3 & G4 & G5 & G6 & G7).
  { unfold CompactMemTable, now, on_versions. dbm. rewrite Himm. dbm. fold vs. rewrite Hcur. dbm. fold vs id. fold db1.
    erewrite bind_step by (apply (oldest_snapshot_same db); [done|done|exact Hold]).
    erewrite bind_step by exact Ew. cbn [fst snd]. dbm.
    cbn [versions_ set_db_world set_table_cache set_pending_outputs DbState.set_versions shutting_down_ db1 logfile_number_]. rewrite Hdown. cbn [ok Status_OK state_ andb unless_ok].
    unfold log_and_apply. dbm. cbn [versions_ set_db_world set_table_cache set_pending_outputs DbState.set_versions db_world].
    assert (Version_Unref E (with_next E (Version_Ref E vs id) (next + 1)) id = with_next E vs (next + 1)) as ->.
    { change (Version_Unref E (with_next E (Version_Ref E vs id) (next + 1)) id) with (with_next E (Version_Unref E (Version_Ref E vs id) id) (next + 1)).
      by rewrite Unref_Ref_id. }
    change (SetLogNumber _ _) with edit. rewrite El. dbm. cbn [fst snd]. dbm. cbn [ok Status_OK state_ has_output]. unfold add_stats. dbm.
    eexists. split; [done|]. by repeat split. }
  destruct (flush_db_stored es level tbl w' (logfile_number_ db) db3 v' (vs_compact_pointer vs) HP Hsort Hks Hw' Ht Hlev Hclear Hv' G1 G2 G3) as [Hstored Hreads].
  { by rewrite G4. } { by rewrite G4. } { by rewrite G4, Hnx. } { by rewrite G5. } { rewrite G4. eauto. }
  destruct (RemoveObsoleteFiles_stored db3 _ mem_es [] v' room ltac:(by rewrite G6) Hstored Hroom) as (db' & Er & Hst' & Hi' & Hv3 & Hp3 & Hdel & _).
  rewrite G4 in Hv3. rewrite G7 in Hp3.
  exists db', v', (contents_with_table contents next ks), es, level, (prepare_file (FileMetaData_new next (zlen tbl) (smallest m) (largest m))), log'.
  split; [by rewrite Erun|]. split; [by rewrite Hi'|]. split; [split; [done|]; split; [done|]; apply contents_with_new|].
  split; [intros k Hk; by apply contents_with_old|]. split.
  { split; [done|]. split; [done|]. intros l. destruct Hi as (Hoki & Hndi & _). assert (NoDup (map e_seq es)) as Hnde by (by rewrite HP).
    apply (flush_levels contents (db_world db) w' v level next ks tbl (logfile_number_ db) Hw' Ht Hks ltac:(by apply survivors_Forall)
      ltac:(by apply survivors_NoDup) Hrange Htab Hvs Hdist Hnum Hcnt Hlev Hclear v' _ l Hv'). }
  rewrite Hv3. split; [done|]. split; [split; [done|]; split; [done|]; split; [done|]; rewrite Hp3; unfold pend'; set_solver|].
  split; [|done]. rewrite <- Hv3. exact Hdel.
Qed.
End Run.
End Flush.

(** ** Properties *)

(** C6: a flush loses nothing that a reader may ask for.  [CompactMemTable], in an
    environment whose files do not fail, writes the immutable memtable to one new
    table with the next file number: the memtable's entries in order, without those
    that a newer one hides from every snapshot.  It adds the table at a level where
    nothing newer is below it and changes no other file of the version; the
    manifest gets one record, the edit with the new table and with the number of
    the current log as the first one that recovery has to read; the memtable is
    dropped; and every file of the directory that is then obsolete, in particular
    the memtable's log, is deleted.  The new current version can be trusted like
    the old one, all its tables are still on the disk, and every read at a sequence
    number from the oldest snapshot on returns the value it returned before.  The
    number of the current log must not be below the version set's, as
    [LogAndApply] asserts. *)
Theorem flush_preserves_reads (E : Env) files wcontents fname rest (NowMicros : World E -> Z) (extend : Z -> bytes -> Z) (z : Compression)
    (C : CacheOps TableAndFile) (limit : Z) rep (ucmp : Comparator) (options_ : DBOptions) (policy : option FilterPolicy)
    (ok_keys : list bytes -> Prop) (dbname : bytes) (cache_id : Z) (garbage : bool) (fuel : nat)
    (db : DBImpl E C) (contents : Z -> list Entry) (mem_es imm_es : list Entry) (v : Version) (imm : MemTable) (snap : Z) (room : nat)
    (manifest : Z) (edits : list VersionEdit) (log : LogWriter.Writer (env_W E)) :
  let next := vs_next_file_number (versions_ db) in
  EnvLaws E files wcontents fname rest -> CrcLaws extend -> CompressionLaws z -> CacheLaws C limit rep -> ComparatorLaws ucmp ->
  DbTableOptions ucmp (table_options options_) policy ok_keys ->
  db_stored E files wcontents fname extend z C limit rep ucmp options_ ok_keys dbname db contents mem_es imm_es v room -> (1 <= room)%nat ->
  vs_descriptor (versions_ db) = Some log -> descriptor_at E wcontents fname extend dbname manifest edits log ->
  vs_log_number (versions_ db) <= logfile_number_ db < next ->
  imm_ db = Some imm -> imm_es <> [] ->
  oldest_snapshot E C db = Some (db, snap) -> shutting_down_ db = false -> ok (bg_error_ db) = true ->
  (length imm_es < fuel)%nat -> next + 1 < 2 ^ 64 -> (forall l, zlen (level_files v l) + 1 < 2 ^ 31) ->
  (forall es, es ≡ₚ imm_es -> es_sorted ucmp es ->
     table_fits E wcontents extend z ucmp (table_options options_) ok_keys (survivors ucmp snap (fun _ => false) None es)) ->
  exists db' v' contents' es level new log',
    CompactMemTable E NowMicros extend z C ucmp options_ dbname cache_id garbage fuel db = Some (db', ()) /\ imm_ db' = None /\
    (es ≡ₚ imm_es /\ es_sorted ucmp es /\ contents' next = survivors ucmp snap (fun _ => false) None es) /\
    (forall k, k <> next -> contents' k = contents k) /\
    (number new = next /\ (level <= kMaxMemCompactLevel)%nat /\
     forall l, level_files v' l ≡ₚ level_files v l ++ (if decide (l = level) then [new] else [])) /\
    (vs_descriptor (versions_ db') = Some log' /\
     descriptor_at E wcontents fname extend dbname manifest
       (edits ++ [complete_edit E (with_next E (versions_ db) (next + 1))
          (flush_edit garbage level next (file_size new) (smallest new) (largest new) (logfile_number_ db))]) log') /\
    (vs_log_number (versions_ db') = logfile_number_ db /\ vs_prev_log_number (versions_ db') = 0 /\
     vs_next_file_number (versions_ db') = next + 1 /\ pending_outputs_ db' = pending_outputs_ db ∖ {[next]}) /\
    (forall x n type, Byte.x2f ∉ x -> ParseFileName x = Some (n, type) -> ~ file_needed (versions_ db') (pending_outputs_ db') n type ->
       files (db_world db') !! (dbname ++ str:"/" ++ x) = None) /\
    db_stored E files wcontents fname extend z C limit rep ucmp options_ ok_keys dbname db' contents' mem_es [] v' room /\
    (forall u s, snap <= s ->
       lookup_entry ucmp (db_entries contents' mem_es [] v') u s = lookup_entry ucmp (db_entries contents mem_es imm_es v) u s).
Proof. intros next. intros. eapply CompactMemTable_spec; eassumption. Qed.

(** The database of [sample_open_db] with its memtable turned immutable, the log
    of the new memtable being number 12. *)
Definition sample_full_db : DBImpl MemEnv NewLRUCache :=
  set_logfile_number 12 (set_imm (Some sample_mem) (set_mem (Some (MemTable_new sample_chars)) sample_open_db)).

Lemma sample_full_stored :
  db_stored MemEnv (fun w => w) snd fst Extend_ref no_compression NewLRUCache 1000 (shared_rep 1000) BytewiseComparator sample_db_opts sample_ok_keys
    (str:"db") sample_full_db sample_contents [] sample_mem_entries sample_version 3.
Proof.
  destruct (switch_stored MemEnv (fun w => w) snd fst Extend_ref no_compression NewLRUCache 1000 (shared_rep 1000) BytewiseComparator sample_db_opts sample_ok_keys
    (str:"db") sample_open_db sample_contents sample_mem_entries sample_version 3 sample_mem (MemTable_new sample_chars) eq_refl
    (MemTable_new_rep sample_chars BytewiseComparator) sample_db_stored) as [(hs & [H1 H2 H3 H4 H5 H6 H7 H8]) S2 S3 S4 S5 S6 S7 S8].
  split; [|exact S2|exact S3|exact S4|exact S5|exact S6|exact S7|exact S8].
  exists hs. split; [exact H1|exact H2|exact H3|exact H4|exact H5|exact H6|exact H7|exact H8].
Qed.

Lemma sample_mem_fits :
  table_fits MemEnv snd Extend_ref no_compression BytewiseComparator sample_db_options sample_ok_keys sample_mem_entries.
Proof.
  split.
  - repeat constructor.
  - vm_compute. reflexivity.
  - intros l Hl. unfold sample_ok_keys, bloom_ok_keys. rewrite length_map. cbn in Hl. lia.
  - intros [n d] Hd. cbn in Hd. subst d. vm_compute. reflexivity.
Qed.

Lemma flush_preserves_reads_witness :
  exists db' v' contents' level new,
    CompactMemTable MemEnv (fun _ => 0) Extend_ref no_compression NewLRUCache BytewiseComparator sample_db_opts (str:"db") 0 false 6 sample_full_db = Some (db', ()) /\
    vs_log_number (versions_ db') = 12 /\ number new = 20 /\
    (forall l, level_files v' l ≡ₚ level_files sample_version l ++ (if decide (l = level) then [new] else [])) /\
    (db_world db' : gmap bytes bytes) !! log_name (str:"db") 11 = None /\
    lookup_entry BytewiseComparator (db_entries contents' [] [] v') (str:"b") 20 = Some (str:"mem") /\
    lookup_entry BytewiseComparator (db_entries contents' [] [] v') (str:"c") 20 = Some (str:"new").
Proof.
  destruct (flush_preserves_reads MemEnv (fun w => w) snd fst (fun r => r) (fun _ => 0) Extend_ref no_compression NewLRUCache 1000 (shared_rep 1000)
    BytewiseComparator sample_db_opts (Some sample_policy) sample_ok_keys (str:"db") 0 false 6 sample_full_db sample_contents [] sample_mem_entries
    sample_version sample_mem 20 3 2 [] sample_manifest _ _ _ (shared_cache_laws 1000 sample_cache_limit) _ _ sample_full_stored)
    as (db' & v' & contents' & es & level & new & log' & Ed & _ & _ & _ & (Hn & _ & Hl) & _ & (Hln & Hpl & _ & _) & Hgone & _ & Hr).
  - lia.
  - exact eq_refl.
  - split; [exact eq_refl|split; [unfold kBlockSize; cbn; lia|exact eq_refl]|exact eq_refl|exact eq_refl].
  - split; vm_compute; [discriminate|reflexivity].
  - exact eq_refl.
  - discriminate.
  - exact eq_refl.
  - exact eq_refl.
  - exact eq_refl.
  - cbn. lia.
  - reflexivity.
  - intros l. do 7 (destruct l as [|l]; [vm_compute; reflexivity|]). vm_compute. reflexivity.
  - intros es HP _. apply Permutation_singleton_r in HP as ->. exact sample_mem_fits.
  - exists db', v', contents', level, new. split; [exact Ed|]. split; [exact Hln|]. split; [exact Hn|]. split; [exact Hl|]. split.
    + apply (Hgone (file_base 11 (str:"log")) 11 kLogFile); [apply (bool_decide_unpack _); vm_compute; reflexivity|vm_compute; reflexivity|].
      cbn [file_needed]. rewrite Hln, Hpl. cbn [logfile_number_ sample_full_db set_logfile_number]. lia.
    + split; rewrite Hr by lia; vm_compute; reflexivity.
Defined.
