(* ===== verification/DbRecover.v ===== *)
(** * Recovering a log

    [DBImpl::RecoverLogFile] (src/db/db_impl.cc) on the log of a database that
    stopped at an arbitrary moment: the file holds the first bytes of the records
    that [Write] logged.  The batches that are complete are applied again, in
    order, and end up in the memtable or, by default, in a table of level 0. *)

From Stdlib Require Import SpecFloat.
From stdpp Require Import gmap sets sorting.
From S2P Require Import Snapshot Prelude Slice Coding Crc32c Comparator DbFormat Hash Cache WriteBatch LogFormat LogWriter LogReader Filename.
From S2P Require Import Iterator SkipList Arena MemTable Entries MemIter View Prune BlockBuilder Block DbIter Merger TwoLevelIterator Format FilterBlock TableBuilder Table.
From S2P Require Import VersionEdit VersionFiles VersionBuilder Compaction VersionGet CompactedVersion FlushedVersion VersionIter TableCache Env BuildTable.
From S2P Require Import DbOptions VersionSet PerfCounters DbState DbImpl DbClient DbOpen DbFiles DbView DbCompact CompactionWork DbWrite DbFlush.

(** ** Groups of writes *)

(** A group: the sequence number of its first operation, and its operations. *)
Abbreviation Group := (Z * list BatchOp)%type.
Definition group_record (g : Group) : bytes := batch_rep (fst g) (snd g).
Definition group_last (g : Group) : Z := fst g + zlen (snd g) - 1.
Definition groups_entries (gs : list Group) : list Entry := fold_left (fun es g => batch_entries (fst g) (snd g) ++ es) gs [].

(** Each group starts after the one before, as [Write] numbers them. *)
Fixpoint groups_ok (last : Z) (gs : list Group) : Prop :=
  match gs with
  | [] => True
  | g :: gs => last < fst g /\ Forall op_fits (snd g) /\ zlen (snd g) < 2 ^ 31 /\ group_last g <= kMaxSequenceNumber /\ groups_ok (group_last g) gs
  end.

Section Groups.
Context (ucmp : Comparator) `{!ComparatorLaws ucmp}.

Lemma groups_ok_take last gs k : groups_ok last gs -> groups_ok last (take k gs).
Proof.
  revert last k. induction gs as [|g gs IH]; intros last [|k] H; cbn [take groups_ok] in *; try done.
  destruct H as (H1 & H2 & H3 & H4 & H5). repeat (split; [done|]). by apply IH.
Qed.

Lemma groups_entries_take gs k : (length (groups_entries (take k gs)) <= length (groups_entries gs))%nat.
Proof.
  unfold groups_entries. rewrite <- (take_drop k gs) at 2. rewrite fold_left_app. generalize (fold_left (fun es g => batch_entries (fst g) (snd g) ++ es) (take k gs) []).
  intros es. revert es. induction (drop k gs) as [|g l IH]; intros es; cbn [fold_left]; [done|]. etrans; [|apply IH]. rewrite length_app. lia.
Qed.

(** The entries of the groups are the map that their operations make. *)
Lemma groups_lookup gs : forall last es u t,
  groups_ok last gs -> NoDup (map e_seq es) -> Forall (fun e => e_seq e <= last) es -> fold_left (fun m g => Z.max m (group_last g)) gs last <= t ->
  lookup_entry ucmp (fold_left (fun es g => batch_entries (fst g) (snd g) ++ es) gs es) u t =
  fold_left (apply_op ucmp) (concat (map snd gs)) (fun u => lookup_entry ucmp es u t) u.
Proof using All.
  assert (forall gs last, last <= fold_left (fun m g => Z.max m (group_last g)) gs last) as Hmono.
  { intros l. induction l as [|g l IH]; intros last; cbn [fold_left]; [lia|]. etrans; [|apply IH]. lia. }
  induction gs as [|g gs IH]; intros last es u t H Hnd Hes Ht; cbn [fold_left map concat]; [done|].
  destruct H as (H1 & H2 & H3 & H4 & H5). rewrite fold_left_app. unfold group_last in *.
  assert (Forall (fun e => e_seq e < fst g) es) as Hlt by (eapply list.Forall_impl; [exact Hes|]; intros e He; cbn in He; lia).
  cbn [fold_left] in Ht. assert (fst g + zlen (snd g) - 1 <= t) as Hgt.
  { etrans; [|exact Ht]. etrans; [|apply Hmono]. lia. }
  rewrite (IH (fst g + zlen (snd g) - 1)); [|done|by apply batch_entries_fresh| |].
  - apply (fold_apply_ext ucmp). intros x. by apply (batch_lookup ucmp); [| |lia].
  - apply Forall_app_2.
    + eapply list.Forall_impl; [apply batch_entries_seqs|]. intros e He. cbn in He. lia.
    + eapply list.Forall_impl; [exact Hes|]. intros e He. cbn in He. lia.
  - replace (Z.max last (fst g + zlen (snd g) - 1)) with (fst g + zlen (snd g) - 1) in Ht by lia. done.
Qed.
End Groups.

(** ** Applying the batches again *)

Section Recover.
Context (E : Env) (files : World E -> gmap bytes bytes) (wcontents : WFile (env_W E) -> bytes)
  (fname : WFile (env_W E) -> bytes) (rest : SFile (env_F E) -> bytes) `{!EnvLaws E files wcontents fname rest}.
Context (NowMicros : World E -> Z) (extend : Z -> bytes -> Z) `{!CrcLaws extend} (z : Compression) `{!CompressionLaws z}.
Context (C : CacheOps TableAndFile) (limit : Z)
  (rep : CState C -> (bytes -> option TableAndFile) -> list (CHandle C * TableAndFile) -> Prop) `{!CacheLaws C limit rep}.
Context (new_chars : list region -> Z -> Z) (ucmp : Comparator) `{!ComparatorLaws ucmp} (options_ : DBOptions) (policy : option FilterPolicy)
  (ok_keys : list bytes -> Prop) `{!DbTableOptions ucmp (table_options options_) policy ok_keys}.
Context (dbname : bytes) (cache_id : Z) (fuel : nat).
Abbreviation o := (table_options options_).
Abbreviation DBImpl := (DBImpl E C).
Abbreviation cache_below := (cache_below extend z C limit rep ucmp).
Abbreviation recover_batch := (recover_batch E NowMicros extend z C new_chars ucmp options_ dbname cache_id fuel).
Abbreviation RecoverLogFile := (RecoverLogFile E NowMicros extend z C new_chars ucmp options_ dbname cache_id fuel).
Implicit Types (db : DBImpl) (gs : list Group) (st : LogRecovery E C).

#[local] Instance log_reads : ReliableReads (env_F E) rest := env_reads.

(** How the groups fall into memtables: one is written out as soon as its usage
    is over the write buffer; the groups of the last one come second. *)
Fixpoint memtables (mem : MemTable) (cur gs : list Group) : list (list Group) * list Group :=
  match gs with
  | [] => ([], cur)
  | g :: gs =>
      match fst (InsertInto (add_to new_chars ucmp) (group_record g) (Some mem)) with
      | Some m =>
          if ApproximateMemoeyUsage m >? write_buffer_size options_
          then let '(full, tail) := memtables (MemTable_new new_chars) [] gs in ((cur ++ [g]) :: full, tail)
          else memtables m (cur ++ [g]) gs
      | None => ([], [])
      end
  end.

Lemma memtables_length gs : forall mem cur full tail, memtables mem cur gs = (full, tail) -> (length full <= length gs)%nat.
Proof using Type.
  induction gs as [|g gs IH]; intros mem cur full tail; cbn [memtables]; [by intros [= <- _]|].
  destruct (fst _) as [m|]; [|intros [= <- _]; cbn; lia]. case_match.
  - destruct (memtables _ [] gs) as [full' tail'] eqn:Eb. intros [= <- _]. apply IH in Eb. cbn. lia.
  - intros H'%IH. cbn. lia.
Qed.

(** The table of a memtable's groups: its sorted entries and its bytes.  A
    memtable without entries makes no table, but takes a file number. *)
Abbreviation RTable := (list Entry * bytes)%type.
Definition table_of (gs : list Group) (t : RTable) : Prop :=
  fst t ≡ₚ groups_entries gs /\ es_sorted ucmp (fst t) /\ (fst t <> [] -> table_bytes extend z ucmp o ok_keys (fst t) (snd t)).
Fixpoint tables_edit (n : Z) (ts : list RTable) (edit : VersionEdit) : VersionEdit :=
  match ts with
  | [] => edit
  | t :: ts =>
      let m := range_of (FileMetaData_new n 0 [] []) (fst t) in
      tables_edit (n + 1) ts (match fst t with [] => edit | _ => AddFile edit 0 n (zlen (snd t)) (smallest m) (largest m) end)
  end.
Fixpoint tables_files (n : Z) (ts : list RTable) (fs : gmap bytes bytes) : gmap bytes bytes :=
  match ts with
  | [] => fs
  | t :: ts => tables_files (n + 1) ts (match fst t with [] => delete (table_name dbname n) fs | _ => <[table_name dbname n := snd t]> fs end)
  end.

Lemma tables_edit_app n ts ts' edit : tables_edit n (ts ++ ts') edit = tables_edit (n + zlen ts) ts' (tables_edit n ts edit).
Proof using Type.
  revert n edit. induction ts as [|t ts IH]; intros n edit; cbn [app tables_edit]; [by rewrite Z.add_0_r|].
  rewrite IH. f_equal. cbn [length]. lia.
Qed.

Lemma tables_files_app n ts ts' fs : tables_files n (ts ++ ts') fs = tables_files (n + zlen ts) ts' (tables_files n ts fs).
Proof using Type.
  revert n fs. induction ts as [|t ts IH]; intros n fs; cbn [app tables_files]; [by rewrite Z.add_0_r|].
  rewrite IH. f_equal. cbn [length]. lia.
Qed.

Definition mem_or_new (mo : option MemTable) : MemTable := match mo with Some mem => mem | None => MemTable_new new_chars end.
Abbreviation next db := (vs_next_file_number (versions_ db)).
Abbreviation new_meta n := (FileMetaData_new n 0 [] []).

(** The database after tables were written: only these are new. *)
Record tables_written db (ts : list RTable) (room : nat) db' : Prop := {
  tw_files : files (db_world db') = tables_files (next db) ts (files (db_world db));
  tw_versions : versions_ db' = with_next E (versions_ db) (next db + zlen ts);
  tw_mem : mem_ db' = mem_ db;
  tw_log : log_ db' = log_ db;
  tw_cache : exists contents, cache_below (next db') contents room (table_cache_ db') }.

Lemma tables_written_nil db contents room : cache_below (next db) contents room (table_cache_ db) -> tables_written db [] room db.
Proof using Type. intros H. split; try done; [|by exists contents]. rewrite Z.add_0_r. by destruct db as [? ? ? ? ? ? ? ? ? ? ? ? ? ? ? ? ? ? []]. Qed.

Lemma tables_written_app db ts db1 ts' db2 room : tables_written db ts room db1 -> tables_written db1 ts' room db2 -> tables_written db (ts ++ ts') room db2.
Proof using Type.
  intros [F V M L _] [F' V' M' L' H]. split; [| |congruence|congruence|done].
  - by rewrite F', F, V, tables_files_app.
  - rewrite V', V, length_app. unfold with_next, set_numbers. cbn. f_equal. lia.
Qed.

(** Writing a recovered memtable to level 0. *)
Lemma flush_recovered_spec db mem chunk contents edit room :
  mem_rep ucmp mem (groups_entries chunk) -> (length (groups_entries chunk) < fuel)%nat -> 0 < next db -> next db + 1 < 2 ^ 64 ->
  (forall es, es ≡ₚ groups_entries chunk -> es_sorted ucmp es -> table_fits E wcontents extend z ucmp o ok_keys es) ->
  cache_below (next db) contents room (table_cache_ db) -> (1 <= room)%nat ->
  exists db' t, flush_recovered E NowMicros extend z C ucmp options_ dbname cache_id fuel mem edit db =
      Some (db', (tables_edit (next db) [t] edit, Status_OK)) /\
    table_of chunk t /\ tables_written db [t] room db'.
Proof using All.
  intros Hrep Hf Hn Hn1 Hfit Hc Hroom. destruct (mem_rep_list ucmp mem _ Hrep) as (es & HP & Hmem).
  assert (length es < fuel)%nat as Hlen by (apply Permutation_length in HP; lia).
  unfold flush_recovered, now. dbm. destruct (decide (es = [])) as [->|He].
  - destruct (WriteLevel0Table_empty E files wcontents fname rest NowMicros extend z C limit rep ucmp options_ policy ok_keys dbname cache_id false fuel
      db mem contents edit None None room) as (w' & cache' & Ew & Hw' & Hc'); try done.
    erewrite bind_step by exact Ew. cbn [fst snd]. dbm. unfold add_stats. dbm.
    eexists. exists ([], []). split; [done|]. split; [by split; [|split; [apply Hmem|]]|]. split; try done.
    exists contents. intros contents' Heq. apply Hc'. intros k Hk. apply Heq. cbn. lia.
  - destruct (WriteLevel0Table_spec E files wcontents fname rest NowMicros extend z C limit rep ucmp options_ policy ok_keys dbname cache_id false fuel
      db mem es contents edit None None 0 room) as (w' & cache' & tbl & Ew & Hw' & Ht & Hc'); try done; try (by rewrite kept_none).
    { rewrite kept_none. apply Hfit; [done|apply Hmem]. }
    rewrite kept_none in Ew, Ht, Hc'. erewrite bind_step by exact Ew. cbn [fst snd]. dbm. unfold add_stats. dbm.
    eexists. exists (es, tbl). split; [cbn [tables_edit fst snd]; by destruct es|]. split; [by split; [|split; [apply Hmem|]]|].
    split; try done; [|by exists (contents_with_table contents (next db) es)].
    cbn [tables_files fst snd]. cbn [db_world set_stats set_db_world]. rewrite Hw'. by destruct es.
Qed.

(** ** The loop over the records *)

Lemma groups_entries_snoc gs g : groups_entries (gs ++ [g]) = batch_entries (fst g) (snd g) ++ groups_entries gs.
Proof using Type. unfold groups_entries. by rewrite fold_left_app. Qed.

Lemma groups_entries_perm gs gs' : groups_entries (gs ++ gs') ≡ₚ groups_entries gs ++ groups_entries gs'.
Proof using Type.
  revert gs. induction gs' as [|g gs' IH] using rev_ind; intros gs; [by rewrite !app_nil_r|].
  rewrite app_assoc, !groups_entries_snoc, IH. solve_Permutation.
Qed.

Lemma groups_entries_app gs gs' : length (groups_entries (gs ++ gs')) = (length (groups_entries gs) + length (groups_entries gs'))%nat.
Proof using Type. by rewrite groups_entries_perm, length_app. Qed.

(** One record: the batch is applied, and the memtable is written out if it is
    over the write buffer. *)
Lemma recover_batch_spec st last cur g mo :
  let mem := mem_or_new (lr_mem _ _ st) in
  lr_status _ _ st = Status_OK -> last < fst g -> Forall op_fits (snd g) -> zlen (snd g) < 2 ^ 31 -> group_last g <= kMaxSequenceNumber ->
  0 <= last -> mem_rep ucmp mem (groups_entries cur) -> Forall (fun e => e_seq e <= last) (groups_entries cur) ->
  fst (InsertInto (add_to new_chars ucmp) (group_record g) (Some mem)) = mo ->
  exists m, mo = Some m /\ mem_rep ucmp m (groups_entries (cur ++ [g])) /\
    Forall (fun e => e_seq e <= group_last g) (groups_entries (cur ++ [g])) /\ last <= group_last g /\
    let max := Z.max (lr_max_sequence _ _ st) (group_last g) in
    recover_batch st (group_record g) =
      if ApproximateMemoeyUsage m >? write_buffer_size options_ then
        '(db, (edit, s)) ← flush_recovered E NowMicros extend z C ucmp options_ dbname cache_id fuel m (lr_edit _ _ st) (lr_db _ _ st);
        Some (mkLogRecovery E C db s None (lr_compactions _ _ st + 1) true edit max, ok s)
      else Some (mkLogRecovery E C (lr_db _ _ st) Status_OK (Some m) (lr_compactions _ _ st) (lr_save_manifest _ _ st) (lr_edit _ _ st) max, true).
Proof using All.
  intros mem Hs G1 G2 G3 G4 Hl Hm Hes Hmo. unfold group_last in *.
  destruct (InsertInto_mem new_chars ucmp mem (groups_entries cur) (fst g) (snd g) Hm G2 G3) as (m & Ei & Hm'); [lia|lia| |].
  { eapply list.Forall_impl; [exact Hes|]. intros e He. cbn in He. lia. }
  exists m. rewrite groups_entries_snoc. unfold group_record in *. rewrite Ei in Hmo. split; [by rewrite <- Hmo|]. split; [done|]. split.
  { apply Forall_app_2.
    + eapply list.Forall_impl; [apply batch_entries_seqs|]. intros e He. cbn in He. lia.
    + eapply list.Forall_impl; [exact Hes|]. intros e He. cbn in He. lia. }
  split; [lia|]. cbv zeta. unfold DbOpen.recover_batch. rewrite Hs. cbn [ok Status_OK state_ negb]. rewrite length_batch_rep, (proj2 (Z.ltb_ge _ _)) by lia.
  unfold SetContents. rewrite (proj2 (Nat.leb_le _ _)) by (rewrite length_batch_rep; unfold kHeader; lia). cbn [mbind option_bind].
  fold (mem_or_new (lr_mem _ _ st)). fold mem. rewrite Ei. cbn [mbind option_bind]. unfold MaybeIgnoreError. cbn [ok Status_OK state_ orb negb].
  change kMaxSequenceNumber with 72057594037927935 in *.
  rewrite Sequence_rep, Count_rep by (change (2 ^ 64) with 18446744073709551616; lia || done).
  rewrite u64_small by (change (2 ^ 64) with 18446744073709551616; lia).
  assert ((if fst g + zlen (snd g) - 1 >? lr_max_sequence E C st then fst g + zlen (snd g) - 1 else lr_max_sequence E C st) =
    Z.max (lr_max_sequence E C st) (fst g + zlen (snd g) - 1)) as ->; [|done].
  rewrite Z.gtb_ltb. destruct (Z.ltb_spec (lr_max_sequence _ _ st) (fst g + zlen (snd g) - 1)); lia.
Qed.

Definition chunks_fit gs : Prop := forall l1 l2 l3 es,
  gs = l1 ++ l2 ++ l3 -> es ≡ₚ groups_entries l2 -> es_sorted ucmp es -> table_fits E wcontents extend z ucmp o ok_keys es.

(** The complete records of a log of groups are those of the first groups. *)
Lemma complete_groups cut gs : exists k, complete_records extend 0 cut (map group_record gs) = map group_record (take k gs).
Proof using Type.
  pose proof (complete_records_prefix extend 0 (map group_record gs) cut) as Hp. revert Hp. generalize (complete_records extend 0 cut (map group_record gs)).
  intros c [l Hl]. exists (length c). by rewrite <- firstn_map, Hl, take_app_length.
Qed.

(** The whole loop. *)
Lemma recover_batches gs room : (1 <= room)%nat -> forall st last cur full tail,
  memtables (mem_or_new (lr_mem _ _ st)) cur gs = (full, tail) ->
  lr_status _ _ st = Status_OK -> groups_ok last gs -> 0 <= last -> mem_rep ucmp (mem_or_new (lr_mem _ _ st)) (groups_entries cur) ->
  (lr_mem _ _ st = None <-> cur = []) -> Forall (fun e => e_seq e <= last) (groups_entries cur) ->
  (length (groups_entries (cur ++ gs)) < fuel)%nat -> 0 < next (lr_db _ _ st) -> next (lr_db _ _ st) + zlen gs < 2 ^ 64 ->
  (exists contents, cache_below (next (lr_db _ _ st)) contents room (table_cache_ (lr_db _ _ st))) -> chunks_fit (cur ++ gs) ->
  cur ++ gs = concat full ++ tail /\
  exists db' mo ts, feed recover_batch st (map group_record gs) =
      Some (mkLogRecovery E C db' Status_OK mo (lr_compactions _ _ st + zlen full)
        (lr_save_manifest _ _ st || match full with [] => false | _ => true end) (tables_edit (next (lr_db _ _ st)) ts (lr_edit _ _ st))
        (fold_left (fun m g => Z.max m (group_last g)) gs (lr_max_sequence _ _ st))) /\
    Forall2 table_of full ts /\ tables_written (lr_db _ _ st) ts room db' /\ mem_rep ucmp (mem_or_new mo) (groups_entries tail) /\ (mo = None <-> tail = []).
Proof using All.
  intros Hroom. induction gs as [|g gs IH]; intros st last cur full tail Hb Hs Hg Hl Hm Hcur Hes Hf Hn Hn1 [contents Hc] Hfit; cbn [map feed fold_left].
  { injection Hb as <- <-. split; [by rewrite app_nil_r|]. exists (lr_db _ _ st), (lr_mem _ _ st), []. rewrite Z.add_0_r, orb_false_r.
    split; [rewrite <- Hs; by destruct st|]. split; [done|]. split; [by apply tables_written_nil with contents|done]. }
  destruct Hg as (G1 & G2 & G3 & G4 & G5). cbn [memtables] in Hb.
  destruct (recover_batch_spec st last cur g _ Hs G1 G2 G3 G4 Hl Hm Hes eq_refl) as (m & Em & Hm' & Hes' & Hle & Er). rewrite Em in Hb. rewrite Er. clear Em Er.
  assert (cur ++ g :: gs = (cur ++ [g]) ++ gs) as Hass by (by rewrite <- app_assoc). rewrite Hass in *. cbn [length] in Hn1.
  destruct (ApproximateMemoeyUsage m >? write_buffer_size options_).
  - destruct (memtables (MemTable_new new_chars) [] gs) as [full' tail'] eqn:Eb. injection Hb as <- <-.
    destruct (flush_recovered_spec (lr_db _ _ st) m (cur ++ [g]) contents (lr_edit _ _ st) room Hm') as (db1 & t & -> & Ht & Htw); try done;
      [rewrite groups_entries_app in Hf; lia|lia|intros es; apply (Hfit [] (cur ++ [g]) gs); done|].
    cbn [mbind option_bind ok Status_OK state_]. pose proof (tw_versions _ _ _ _ Htw) as Hv. cbn [length] in Hv.
    assert (next db1 = next (lr_db _ _ st) + 1) as Hnx by (by rewrite Hv).
    destruct (IH (mkLogRecovery E C db1 Status_OK None (lr_compactions _ _ st + 1) true (tables_edit (next (lr_db _ _ st)) [t] (lr_edit _ _ st))
      (Z.max (lr_max_sequence _ _ st) (group_last g))) (group_last g) [] full' tail' Eb) as (Hcat & db' & mo & ts & Ef & Ht' & Htw' & Hmo);
      try done; cbn [lr_db]; try (rewrite Hnx; lia); [lia|apply MemTable_new_rep|rewrite groups_entries_app in Hf; cbn [app]; lia|apply (tw_cache _ _ _ _ Htw)| |].
    { intros l1 l2 l3 es Hl'. cbn [app] in Hl'. subst gs. apply (Hfit ((cur ++ [g]) ++ l1) l2 l3). by rewrite <- !app_assoc. }
    cbn [app] in Hcat. split; [cbn [concat]; by rewrite <- (app_assoc (cur ++ [g])), <- Hcat|]. exists db', mo, (t :: ts).
    cbn [lr_db lr_compactions lr_save_manifest lr_edit lr_max_sequence] in *. rewrite Ef. split.
    { rewrite orb_true_r. cbn [tables_edit length]. rewrite Hnx. do 2 f_equal. lia. }
    split; [by constructor|]. split; [|done]. by apply (tables_written_app _ [t] db1).
  - destruct (IH (mkLogRecovery E C (lr_db _ _ st) Status_OK (Some m) (lr_compactions _ _ st) (lr_save_manifest _ _ st) (lr_edit _ _ st)
      (Z.max (lr_max_sequence _ _ st) (group_last g))) (group_last g) (cur ++ [g]) full tail Hb) as (Hcat & db' & mo & ts & Ef & Ht' & Htw' & Hmo);
      try done; cbn [lr_db]; [lia|split; [done|by intros [_ ?]%app_nil]|lia|by exists contents|].
    split; [done|]. exists db', mo, ts. done.
Qed.

Abbreviation log_bytes gs := (fst (records_bytes extend 0 (map group_record gs))).

(** A log that is kept as the current one. *)
Lemma reuse_log_spec db n data mo save edit max :
  reuse_logs options_ = true -> files (db_world db) !! log_name dbname n = Some data -> log_ db = None -> mem_ db = None ->
  exists db' f, reuse_log E extend C new_chars options_ n (log_name dbname n) true (mkLogRecovery E C db Status_OK mo 0 save edit max) =
      Some (mkLogRecovery E C db' Status_OK None 0 save edit max) /\
    mem_ db' = Some (mem_or_new mo) /\ log_ db' = Some (Writer_new_at extend f (zlen data)) /\ wcontents f = data /\ fname f = log_name dbname n /\
    logfile_number_ db' = n /\ files (db_world db') = files (db_world db) /\ versions_ db' = versions_ db.
Proof using All.
  intros Hr Hd Hlog Hmem. unfold reuse_log. cbn [lr_status lr_compactions lr_db lr_mem lr_save_manifest lr_edit lr_max_sequence]. rewrite Hr. cbn [ok Status_OK state_ andb Z.eqb].
  rewrite Hlog, Hmem, (size_spec _ _ _ Hd). cbn [ok Status_OK state_ negb].
  destruct (appendable_spec (db_world db) (log_name dbname n)) as (w' & f & -> & Hw & Hc & Hn). cbn [ok Status_OK state_ negb mbind option_bind].
  rewrite Hd in Hw, Hc. cbn [default] in Hw, Hc. eexists _, f. split; [done|].
  cbn [mem_ log_ logfile_number_ db_world versions_ table_cache_ set_mem set_log set_logfile_number set_db_world]. repeat (split; [done|]).
  rewrite Hw. split; [|done]. by apply insert_id.
Qed.

(** Every memtable of the log, the last one included. *)
Definition all_chunks (full : list (list Group)) (tail : list Group) : list (list Group) :=
  full ++ match tail with [] => [] | _ => [tail] end.

Lemma all_chunks_entries full tail : groups_entries (concat full ++ tail) ≡ₚ concat (map groups_entries (all_chunks full tail)).
Proof using Type.
  unfold all_chunks. rewrite map_app, concat_app, groups_entries_perm. f_equiv; [|destruct tail; cbn; by rewrite ?app_nil_r].
  induction full as [|c full IH]; cbn [concat map]; [done|]. by rewrite groups_entries_perm, IH.
Qed.

(** What recovery leaves behind: the last memtable as the current one, or a
    table for each memtable. *)
Definition log_recovered db (n : Z) (last_log : bool) (data : bytes) save edit gs (full : list (list Group)) (tail : list Group) db' save' edit' : Prop :=
  concat full ++ tail = gs /\
  if reuse_logs options_ && last_log && match full with [] => true | _ => false end then
    save' = save /\ edit' = edit /\ files (db_world db') = files (db_world db) /\ versions_ db' = versions_ db /\ logfile_number_ db' = n /\
    exists m f, mem_ db' = Some m /\ mem_rep ucmp m (groups_entries gs) /\ log_ db' = Some (Writer_new_at extend f (zlen data)) /\
      wcontents f = data /\ fname f = log_name dbname n
  else exists ts, Forall2 table_of (all_chunks full tail) ts /\
    save' = (save || match ts with [] => false | _ => true end) /\ edit' = tables_edit (next db) ts edit /\
    files (db_world db') = tables_files (next db) ts (files (db_world db)) /\
    versions_ db' = with_next E (versions_ db) (next db + zlen ts) /\ mem_ db' = mem_ db /\ log_ db' = log_ db.

Lemma RecoverLogFile_spec db n last_log save edit max gs cut contents room :
  files (db_world db) !! log_name dbname n = Some (take cut (log_bytes gs)) -> 0 < n ->
  groups_ok 0 gs -> (record_fuel (map group_record gs) <= fuel)%nat -> (length gs < fuel)%nat -> (length (groups_entries gs) < fuel)%nat ->
  0 < next db -> next db + zlen gs + 1 < 2 ^ 64 -> cache_below (next db) contents room (table_cache_ db) -> (1 <= room)%nat ->
  log_ db = None -> mem_ db = None -> chunks_fit gs ->
  exists k full tail db' save' edit', complete_records extend 0 cut (map group_record gs) = map group_record (take k gs) /\
    memtables (MemTable_new new_chars) [] (take k gs) = (full, tail) /\
    RecoverLogFile n last_log save edit max db = Some (db', (save', edit', fold_left (fun m g => Z.max m (group_last g)) (take k gs) max, Status_OK)) /\
    log_recovered db n last_log (take cut (log_bytes gs)) save edit (take k gs) full tail db' save' edit'.
Proof using All.
  intros Hfile Hn0 Hg Hf1 Hf2 Hf3 Hn Hn1 Hc Hroom Hlog Hmem Hfit. destruct (complete_groups cut gs) as [k Ek]. set (rs := take k gs).
  destruct (memtables (MemTable_new new_chars) [] rs) as [full tail] eqn:Eb.
  assert (chunks_fit rs) as Hfit'.
  { intros l1 l2 l3 es Hl. apply (Hfit l1 l2 (l3 ++ drop k gs)). rewrite <- (take_drop k gs) at 1. fold rs. by rewrite Hl, <- !app_assoc. }
  assert (length (groups_entries rs) < fuel)%nat as Hlen by (pose proof (groups_entries_take gs k); unfold rs; lia).
  assert (length rs <= length gs)%nat as Hlr by (unfold rs; rewrite length_take; lia).
  set (st := mkLogRecovery E C db Status_OK None 0 save edit max).
  destruct (recover_batches rs room Hroom st 0 [] full tail Eb eq_refl) as (Hcat & db1 & mo & ts & Ef & Hts & Htw & Hmo & Hnone); try done;
    [by apply groups_ok_take|apply MemTable_new_rep|cbn [st lr_db]; lia|by exists contents|].
  destruct (sequential_spec _ _ _ Hfile) as (f & Es & Hr).
  cbn [st lr_db lr_compactions lr_save_manifest lr_edit lr_max_sequence] in Ef, Htw. set (mx := fold_left (fun m g => Z.max m (group_last g)) rs max) in *.
  lazymatch type of Ef with _ = Some ?st' =>
    destruct (read_cut_log extend (env_F E) rest (log_report E C options_) recover_batch f true true (map group_record gs) cut fuel fuel st st' Hr Hf1) as (r' & El) end;
     [by rewrite length_map|rewrite Ek; exact Ef|].
  exists k, full, tail. unfold DbOpen.RecoverLogFile. rewrite (LogFileName_pos _ _ Hn0). cbn [mbind option_bind]. rewrite Es. cbn [ok Status_OK state_ negb mbind option_bind].
  fold st. rewrite El. cbn [mbind option_bind]. clear El Ef Es. unfold log_recovered. fold rs.
  destruct (reuse_logs options_ && last_log && match full with [] => true | _ => false end) eqn:Ereuse.
  { apply andb_prop in Ereuse as [[Er ->]%andb_prop Hfull]. destruct full; [|done]. apply Forall2_nil_inv_l in Hts as ->.
    pose proof (tw_files _ _ _ _ Htw) as Hw1. cbn [tables_files] in Hw1. rewrite <- Hw1 in Hfile.
    destruct (reuse_log_spec db1 n _ mo (save || false) edit mx Er Hfile) as (db' & lf & Hreuse & R1 & R2 & R3 & R4 & R5 & R6 & R7);
      [by rewrite (tw_log _ _ _ _ Htw)|by rewrite (tw_mem _ _ _ _ Htw)|].
    lazymatch goal with |- context[reuse_log _ _ _ _ _ _ _ _ ?x] => change x with (mkLogRecovery E C db1 Status_OK mo 0 (save || false) edit mx) end.
    rewrite Hreuse. cbn [mbind option_bind lr_mem lr_status lr_db lr_save_manifest lr_edit lr_max_sequence].
    exists db', (save || false), edit. split; [done|]. split; [done|]. split; [done|]. split; [done|]. rewrite orb_false_r.
    split; [done|]. split; [done|]. split; [congruence|]. split; [rewrite R7, (tw_versions _ _ _ _ Htw), Z.add_0_r; by destruct db as [? ? ? ? ? ? ? ? ? ? ? ? ? ? ? ? ? ? []]|].
    split; [done|]. exists (mem_or_new mo), lf. cbn [concat app] in Hcat. by rewrite Hcat. }
  assert (reuse_log E extend C new_chars options_ n (log_name dbname n) last_log (mkLogRecovery E C db1 Status_OK mo (0 + zlen full)
    (save || match full with [] => false | _ => true end) (tables_edit (next db) ts edit) mx) = Some (mkLogRecovery E C db1 Status_OK mo (0 + zlen full)
    (save || match full with [] => false | _ => true end) (tables_edit (next db) ts edit) mx)) as ->.
  { unfold reuse_log. cbn [lr_status lr_compactions ok Status_OK state_ andb].
    destruct (reuse_logs options_ && last_log); [|done]. destruct full; [done|]. cbn [length]. by rewrite (proj2 (Z.eqb_neq _ _)) by lia. }
  cbn [mbind option_bind lr_mem lr_status lr_db lr_save_manifest lr_edit lr_max_sequence]. unfold all_chunks.
  destruct mo as [mem|].
  2:{ rewrite (proj1 Hnone eq_refl) in *. eexists db1, _, _. split; [done|]. split; [done|]. split; [done|]. split; [done|]. rewrite app_nil_r. exists ts.
      destruct Htw. split; [done|]. split; [|done]. by destruct Hts. }
  pose proof (tw_versions _ _ _ _ Htw) as Hv. assert (next db1 = next db + zlen ts) as Hnx by (by rewrite Hv).
  pose proof (Forall2_length Hts) as Hl.
  assert (length full <= length rs)%nat as Hfl by (by eapply memtables_length).
  destruct (tw_cache _ _ _ _ Htw) as [contents1 Hc1].
  destruct (flush_recovered_spec db1 mem tail contents1 (tables_edit (next db) ts edit) room Hmo) as (db' & t & Hfl' & Ht & Htw'); try done;
    [change (rs = concat full ++ tail) in Hcat; rewrite Hcat, groups_entries_app in Hlen; lia|lia|lia|intros es; apply (Hfit' (concat full) tail []); rewrite app_nil_r; exact Hcat|].
  rewrite Hfl'. cbn [ok Status_OK state_ mbind option_bind]. eexists db', true, _. split; [done|]. split; [done|]. split; [done|]. split; [done|].
  exists (ts ++ [t]). destruct (tables_written_app _ _ _ _ _ _ Htw Htw').
  assert (tail <> []) as Htail by (intros Ht0; discriminate (proj2 Hnone Ht0)).
  split; [apply Forall2_app; [done|]; destruct tail; [done|constructor; [exact Ht|constructor]]|]. split; [by destruct ts; rewrite orb_true_r|].
  split; [by rewrite tables_edit_app, Hnx|done].
Qed.
End Recover.

(** ** Properties *)

(** C5: what was logged survives a crash.  Let the log file of a database hold the
    first [cut] bytes of the records of some groups of writes, numbered as [Write]
    numbers them.  [RecoverLogFile], called as [Recover] calls it before the
    database has a log or a memtable, succeeds and recovers exactly the groups
    whose records are complete, a prefix of all groups, whatever the cut, and finds
    their largest sequence number.  The groups fill one memtable after another, each
    written to a table of its own as soon as it is over the write buffer
    ([memtables], [log_recovered]); no group is lost or split.  When the log is to
    be reused and none of them was written out, the memtable becomes the current
    one and the log goes on at the end of the file; otherwise the last memtable
    also becomes a table, and the edit adds the tables at level 0 under consecutive
    new numbers.  The recovered entries are the map that the operations of these
    groups make. *)
Theorem recovered_log_restores_writes (E : Env) files wcontents fname rest (NowMicros : World E -> Z) (extend : Z -> bytes -> Z) (z : Compression)
    (C : CacheOps TableAndFile) (limit : Z) rep (new_chars : list region -> Z -> Z) (ucmp : Comparator) (options_ : DBOptions)
    (policy : option FilterPolicy) (ok_keys : list bytes -> Prop) (dbname : bytes) (cache_id : Z) (fuel : nat)
    (db : DBImpl E C) (n : Z) (last_log save : bool) (edit : VersionEdit) (max : Z) (groups : list Group) (cut : nat) (contents : Z -> list Entry) (room : nat) :
  EnvLaws E files wcontents fname rest -> CrcLaws extend -> CompressionLaws z -> CacheLaws C limit rep -> ComparatorLaws ucmp ->
  DbTableOptions ucmp (table_options options_) policy ok_keys ->
  let next := vs_next_file_number (versions_ db) in
  let image := fst (records_bytes extend 0 (map group_record groups)) in
  files (db_world db) !! log_name dbname n = Some (take cut image) -> 0 < n ->
  groups_ok 0 groups ->
  (record_fuel (map group_record groups) <= fuel)%nat -> (length groups < fuel)%nat -> (length (groups_entries groups) < fuel)%nat ->
  0 < next -> next + zlen groups + 1 < 2 ^ 64 -> cache_below extend z C limit rep ucmp next contents room (table_cache_ db) -> (1 <= room)%nat ->
  log_ db = None -> mem_ db = None -> chunks_fit E wcontents extend z ucmp options_ ok_keys groups ->
  exists k full tail db' save' edit',
    complete_records extend 0 cut (map group_record groups) = map group_record (take k groups) /\
    memtables new_chars ucmp options_ (MemTable_new new_chars) [] (take k groups) = (full, tail) /\
    let es := groups_entries (take k groups) in
    let last m := fold_left (fun m g => Z.max m (group_last g)) (take k groups) m in
    RecoverLogFile E NowMicros extend z C new_chars ucmp options_ dbname cache_id fuel n last_log save edit max db =
      Some (db', (save', edit', last max, Status_OK)) /\
    (forall u t, last 0 <= t -> lookup_entry ucmp es u t = fold_left (apply_op ucmp) (concat (map snd (take k groups))) (fun _ => None) u) /\
    es ≡ₚ concat (map groups_entries (all_chunks full tail)) /\
    log_recovered E files wcontents fname extend z C ucmp options_ ok_keys dbname db n last_log (take cut image) save edit
      (take k groups) full tail db' save' edit'.
Proof.
  intros HE Hcrc Hz HC Hcmp Ho next image Hfile Hn0 Hg H1 H2 H3 H4 H5 H6 H7 Hlog Hmem H8.
  destruct (RecoverLogFile_spec E files wcontents fname rest NowMicros extend z C limit rep new_chars ucmp options_ policy ok_keys dbname cache_id fuel
    db n last_log save edit max groups cut contents room Hfile Hn0 Hg H1 H2 H3 H4 H5 H6 H7 Hlog Hmem H8) as (k & full & tail & db' & save' & edit' & Ek & Eb & Er & Hres).
  exists k, full, tail, db', save', edit'. split; [done|]. split; [done|]. cbv zeta. split; [done|]. split; [|split; [|done]].
  - intros u t Ht. unfold groups_entries. rewrite (groups_lookup ucmp (take k groups) 0 []); [done|by apply groups_ok_take|constructor|constructor|done].
  - destruct Hres as [Hcat _]. rewrite <- Hcat. apply all_chunks_entries.
Qed.

(** Two writes, and a log that was cut in the middle of the second record. *)
Definition sample_groups : list Group := [(1, [OpPut (str:"a") (str:"one")]); (2, [OpDelete (str:"a"); OpPut (str:"b") (str:"two")])].
Definition sample_image : bytes := fst (records_bytes Extend_ref 0 (map group_record sample_groups)).
Definition sample_crashed (cut : nat) : DBImpl MemEnv NewLRUCache :=
  set_versions sample_versions (DBImpl_new MemEnv NewLRUCache (<[log_name (str:"db") 3 := take cut sample_image]> ∅) (SharedLRUCache_new 990)).
(** The same database with a write buffer of one block, and reuse of the log. *)
Definition sample_small_opts : DBOptions := mkDBOptions sample_db_options true false true 4096 1000 None (2 * 1024 * 1024) true.

Lemma es_sorted_unique ucmp `{!ComparatorLaws ucmp} es es' : es_sorted ucmp es -> es_sorted ucmp es' -> es ≡ₚ es' -> es = es'.
Proof.
  intros H H'. apply StronglySorted_unique_strong with (fun x y => InternalKeyComparator.Compare ucmp (entry_ikey x) (entry_ikey y) = Lt); [|done|done].
  intros x y _ _ Hx Hy. apply (cmp_lt_gt (InternalKeyComparator.Compare ucmp)) in Hx. congruence.
Qed.

Definition sample_tables_of : list (list Entry) :=
  [[]; [mkEntry 1 kTypeValue (str:"a") (str:"one")]; [mkEntry 2 kTypeDeletion (str:"a") []; mkEntry 3 kTypeValue (str:"b") (str:"two")];
   [mkEntry 2 kTypeDeletion (str:"a") []; mkEntry 1 kTypeValue (str:"a") (str:"one"); mkEntry 3 kTypeValue (str:"b") (str:"two")]].

Lemma sample_groups_entries l1 l2 l3 : sample_groups = l1 ++ l2 ++ l3 -> exists es, es ∈ sample_tables_of /\ groups_entries l2 ≡ₚ es.
Proof.
  intros H. assert (l2 ∈ [[]; [(1, [OpPut (str:"a") (str:"one")])]; [(2, [OpDelete (str:"a"); OpPut (str:"b") (str:"two")])]; sample_groups]) as Hl.
  { unfold sample_groups in *. destruct l1 as [|a [|b [|? ?]]]; simplify_eq/=; destruct l2 as [|c [|d [|? ?]]]; simplify_eq/=; set_solver. }
  unfold sample_tables_of. apply elem_of_cons in Hl as [->|Hl]; [eexists; split; [by left|done]|].
  apply elem_of_cons in Hl as [->|Hl]; [eexists; split; [right; by left|done]|].
  apply elem_of_cons in Hl as [->|Hl]; [eexists; split; [right; right; by left|cbn; solve_Permutation]|].
  apply elem_of_cons in Hl as [->|Hl]; [|by apply not_elem_of_nil in Hl]. eexists; split; [right; right; right; by left|cbn; solve_Permutation].
Qed.

Lemma sample_groups_fit opts : table_options opts = sample_db_options ->
  chunks_fit MemEnv snd Extend_ref no_compression BytewiseComparator opts sample_ok_keys sample_groups.
Proof.
  intros Ho l1 l2 l3 es Hl HP Hs. rewrite Ho. destruct (sample_groups_entries l1 l2 l3 Hl) as (es0 & Hes & HP0).
  assert (es = es0) as ->.
  { apply (es_sorted_unique BytewiseComparator); [done| |by rewrite HP, HP0].
    clear HP HP0. unfold sample_tables_of in Hes. repeat (apply elem_of_cons in Hes as [->|Hes]; [repeat constructor|]). by apply not_elem_of_nil in Hes. }
  clear HP HP0 Hs Hl. unfold sample_tables_of in Hes. split.
  - repeat (apply elem_of_cons in Hes as [->|Hes]; [repeat constructor|]). by apply not_elem_of_nil in Hes.
  - repeat (apply elem_of_cons in Hes as [->|Hes]; [vm_compute; reflexivity|]). by apply not_elem_of_nil in Hes.
  - intros l Hl. unfold sample_ok_keys, bloom_ok_keys. rewrite length_map. assert (length es0 <= 3)%nat; [|lia].
    repeat (apply elem_of_cons in Hes as [->|Hes]; [cbn; lia|]). by apply not_elem_of_nil in Hes.
  - intros [n d] Hd. cbn in Hd. subst d.
    repeat (apply elem_of_cons in Hes as [->|Hes]; [vm_compute; reflexivity|]). by apply not_elem_of_nil in Hes.
Qed.

(** The cut log gives the first write; the whole log, with the small buffer, gives
    two tables. *)
Lemma recovered_log_restores_writes_witness :
  (exists db' edit', RecoverLogFile MemEnv (fun _ => 0) Extend_ref no_compression NewLRUCache sample_chars BytewiseComparator sample_db_opts (str:"db") 0 100
    3 true false (VersionEdit_new false) 0 (sample_crashed 40) = Some (db', (true, edit', 1, Status_OK))) /\
  exists db' edit' f1 f2, RecoverLogFile MemEnv (fun _ => 0) Extend_ref no_compression NewLRUCache sample_chars BytewiseComparator sample_small_opts (str:"db") 0 100
    3 true false (VersionEdit_new false) 0 (sample_crashed 1000) = Some (db', (true, edit', 3, Status_OK)) /\
    new_files_ edit' = [(0, f1); (0, f2)] /\ number f1 = 20 /\ number f2 = 21 /\
    mem_ db' = None /\ vs_next_file_number (versions_ db') = 22.
Proof.
  assert (groups_ok 0 sample_groups) as Hg by (repeat split; try lia; repeat constructor; vm_compute; congruence).
  assert (cache_below Extend_ref no_compression NewLRUCache 1000 (shared_rep 1000) BytewiseComparator 20 (fun _ => []) 1 (SharedLRUCache_new 990)) as Hc.
  { intros contents' _. exists []. split; [|done]. exists (fun _ => None). split; [|done]. apply shared_new_rep; [done|lia]. }
  assert (record_fuel (map group_record sample_groups) <= 100)%nat as Hf by (vm_compute; lia).
  split.
  - destruct (recovered_log_restores_writes MemEnv (fun w => w) snd fst (fun r => r) (fun _ => 0) Extend_ref no_compression NewLRUCache 1000 (shared_rep 1000)
      sample_chars BytewiseComparator sample_db_opts (Some sample_policy) sample_ok_keys (str:"db") 0 100 (sample_crashed 40) 3 true false (VersionEdit_new false) 0
      sample_groups 40 (fun _ => []) 1 _ _ _ (shared_cache_laws 1000 sample_cache_limit) _ _) as (k & full & tail & db' & save' & edit' & Ek & Eb & Er & _ & _ & Hres);
      [exact (lookup_insert_eq (M:=gmap bytes) _ _ _)|lia|exact Hg|exact Hf|cbn; lia|cbn; lia|reflexivity|reflexivity|exact Hc|lia|reflexivity|reflexivity|by apply sample_groups_fit|].
    assert (k = 1%nat) as ->.
    { assert (length (complete_records Extend_ref 0 40 (map group_record sample_groups)) = 1%nat) as Hl by (vm_compute; reflexivity).
      rewrite Ek, length_map, length_take in Hl. cbn in Hl. lia. }
    assert (memtables sample_chars BytewiseComparator sample_db_opts (MemTable_new sample_chars) [] (take 1 sample_groups) = ([], take 1 sample_groups)) as Eb'
      by (vm_compute; reflexivity).
    rewrite Eb' in Eb. injection Eb as <- <-. destruct Hres as (_ & ts & Hts & Hsave & _). inversion Hts; subst. exists db', edit'. exact Er.
  - destruct (recovered_log_restores_writes MemEnv (fun w => w) snd fst (fun r => r) (fun _ => 0) Extend_ref no_compression NewLRUCache 1000 (shared_rep 1000)
      sample_chars BytewiseComparator sample_small_opts (Some sample_policy) sample_ok_keys (str:"db") 0 100 (sample_crashed 1000) 3 true false (VersionEdit_new false) 0
      sample_groups 1000 (fun _ => []) 1 _ _ _ (shared_cache_laws 1000 sample_cache_limit) _ _) as (k & full & tail & db' & save' & edit' & Ek & Eb & Er & _ & _ & Hres);
      [exact (lookup_insert_eq (M:=gmap bytes) _ _ _)|lia|exact Hg|exact Hf|cbn; lia|cbn; lia|reflexivity|reflexivity|exact Hc|lia|reflexivity|reflexivity|by apply sample_groups_fit|].
    assert (take k sample_groups = sample_groups) as Hk.
    { assert (length (complete_records Extend_ref 0 1000 (map group_record sample_groups)) = 2%nat) as Hl by (vm_compute; reflexivity).
      rewrite Ek, length_map, length_take in Hl. cbn in Hl. apply take_ge. cbn. lia. }
    rewrite Hk in Eb, Er, Hres.
    assert (memtables sample_chars BytewiseComparator sample_small_opts (MemTable_new sample_chars) [] sample_groups = ([take 1 sample_groups; drop 1 sample_groups], [])) as Eb'
      by (vm_compute; reflexivity).
    rewrite Eb' in Eb. injection Eb as <- <-. destruct Hres as (_ & ts & Hts & Hsave & Hedit & _ & Hv & Hm & _).
    inversion Hts as [|? t1 ? ts' H1 Hts']; subst. inversion Hts' as [|? t2 ? ts'' H2 Hts'']; subst. inversion Hts''; subst.
    destruct t1 as [[|e1 es1] b1]; [by destruct H1 as [?%Permutation_nil_l _]|]. destruct t2 as [[|e2 es2] b2]; [by destruct H2 as [?%Permutation_nil_l _]|].
    eexists db', _, _, _. split; [exact Er|]. split; [reflexivity|]. split; [reflexivity|]. split; [reflexivity|]. split; [exact Hm|]. by rewrite Hv.
Defined.
