(* ===== verification/Repair.v ===== *)
(** * Repairing a database

    src/db/repair.cc: [RepairDB] builds a manifest from the files that are left
    in the directory of a database.  [Repairer] converts every log into a table,
    reads every table to find its range of keys and its largest sequence number,
    copies what can be read of a damaged table, and writes a manifest that puts
    all tables at level 0.  What it does not use any more goes to a directory
    named lost.

    The info log is not modelled; [None] is what the code must not reach. *)

From Stdlib Require Import SpecFloat.
From stdpp Require Import gmap sets sorting.
From S2P Require Import Prelude Slice Coding Crc32c Comparator DbFormat Hash Cache WriteBatch LogFormat LogWriter LogReader Filename.
From S2P Require Import Iterator SkipList Arena MemTable Entries MemIter BlockBuilder Block Format FilterBlock TableBuilder Table.
From S2P Require Import VersionEdit VersionFiles VersionBuilder VersionIter TableCache Env PosixFiles BuildTable DbOptions.

(** [struct TableInfo] *)
Record TableInfo := mkTableInfo { ti_meta : FileMetaData; ti_max_sequence : Z }.

Section Operations.
Context (E : Env) (extend : Z -> bytes -> Z) (z : Compression) (C : CacheOps TableAndFile).
Context (new_chars : list region -> Z -> Z) (ucmp : Comparator) (options_ : DBOptions) (dbname_ : bytes) (cache_id : Z).
Context (garbage : bool) (fuel : nat).
Abbreviation topts := (table_options options_).

(** [class Repairer], with the world of files; [edit_] is a local of
    [WriteDescriptor], which alone uses it. *)
Record Repairer := mkRepairer {
  rp_world : World E; rp_cache : CState C; manifests_ : list bytes; table_numbers_ : list Z; logs_ : list Z;
  tables_ : list TableInfo; rp_next_file_number : Z }.
Implicit Type r : Repairer.

Definition set_rp_world r (w : World E) : Repairer :=
  mkRepairer w (rp_cache r) (manifests_ r) (table_numbers_ r) (logs_ r) (tables_ r) (rp_next_file_number r).
Definition set_rp_cache r (c : CState C) : Repairer :=
  mkRepairer (rp_world r) c (manifests_ r) (table_numbers_ r) (logs_ r) (tables_ r) (rp_next_file_number r).
Definition push_table_number r (n : Z) : Repairer :=
  mkRepairer (rp_world r) (rp_cache r) (manifests_ r) (table_numbers_ r ++ [n]) (logs_ r) (tables_ r) (rp_next_file_number r).
Definition push_table r (t : TableInfo) : Repairer :=
  mkRepairer (rp_world r) (rp_cache r) (manifests_ r) (table_numbers_ r) (logs_ r) (tables_ r ++ [t]) (rp_next_file_number r).
(** [next_file_number_++] *)
Definition take_file_number r : Repairer * Z :=
  (mkRepairer (rp_world r) (rp_cache r) (manifests_ r) (table_numbers_ r) (logs_ r) (tables_ r) (u64 (rp_next_file_number r + 1)),
   rp_next_file_number r).

Definition Repairer_new (w : World E) (table_cache : CState C) : Repairer := mkRepairer w table_cache [] [] [] [] 1.

(** [ArchiveFile] *)
Definition archive_name (fname : bytes) : bytes :=
  match rfind_slash fname with
  | Some i => take i fname ++ str:"/lost" ++ str:"/" ++ drop (S i) fname
  | None => str:"/lost" ++ str:"/" ++ fname
  end.
Definition archive_dir (fname : bytes) : bytes :=
  match rfind_slash fname with Some i => take i fname | None => [] end ++ str:"/lost".
Definition ArchiveFile r (fname : bytes) : Repairer :=
  let w := fst (CreateDir E (rp_world r) (archive_dir fname)) in
  set_rp_world r (fst (RenameFile E w fname (archive_name fname))).

(** [FindFiles] *)
Definition find_file r (filename : bytes) : Repairer :=
  match ParseFileName filename with
  | None => r
  | Some (_, kDescriptorFile) =>
      mkRepairer (rp_world r) (rp_cache r) (manifests_ r ++ [filename]) (table_numbers_ r) (logs_ r) (tables_ r) (rp_next_file_number r)
  | Some (number, type) =>
      let next := if u64 (number + 1) >? rp_next_file_number r then u64 (number + 1) else rp_next_file_number r in
      mkRepairer (rp_world r) (rp_cache r) (manifests_ r)
        (match type with kTableFile => table_numbers_ r ++ [number] | _ => table_numbers_ r end)
        (match type with kLogFile => logs_ r ++ [number] | _ => logs_ r end) (tables_ r) next
  end.
Definition FindFiles r : Repairer * Status :=
  let '(status, filenames) := GetChildren E (rp_world r) dbname_ in
  if negb (ok status) then (r, status)
  else match filenames with
       | [] => (r, Status_make kIOError dbname_ (str:"repair found no files"))
       | _ => (fold_left find_file filenames r, status)
       end.

(** The loop body of [ConverLogToTable]: a batch that cannot be applied is left
    where it failed. *)
Definition convert_record (mem : MemTable) (record : bytes) : option (MemTable * bool) :=
  if zlen record <? 12 then Some (mem, true)
  else
    batch ← SetContents record;
    let '(mem, _) := InsertInto (add_to new_chars ucmp) batch (Some mem) in
    mem ← mem;
    Some (mem, true).

(** [ConverLogToTable] *)
Definition ConverLogToTable r (log : Z) : option (Repairer * Status) :=
  logname ← LogFileName dbname_ log;
  let '(status, lfile) := NewSequentialFile E (rp_world r) logname in
  if negb (ok status) then Some (r, status)
  else
    lfile ← lfile;
    '(_, mem) ← read_loop extend (fun mem _ => mem) convert_record fuel fuel (Reader_new lfile true false 0) (MemTable_new new_chars);
    let '(r, n) := take_file_number r in
    '(w, cache, meta, status) ← BuildTable E extend z C dbname_ topts cache_id (MemTableIterator ucmp mem) fuel (rp_world r) (rp_cache r)
      (MemTable_NewIterator ucmp mem) (FileMetaData_new n 0 [] []) None;
    let r := set_rp_cache (set_rp_world r w) cache in
    Some (if ok status && (file_size meta >? 0) then push_table_number r (number meta) else r, status).

(** [ConverLogFilesToTables] *)
Fixpoint convert_logs r (logs : list Z) : option Repairer :=
  match logs with
  | [] => Some r
  | log :: logs =>
      logname ← LogFileName dbname_ log;
      '(r, _) ← ConverLogToTable r log;
      convert_logs (ArchiveFile r logname) logs
  end.
Definition ConverLogFilesToTables r : option Repairer := convert_logs r (logs_ r).

(** [NewTableIterator], and the deletion of the iterator *)
Definition NewTableIterator r (meta : FileMetaData) : option (CState C * IState (AnyOps extend z) * option (CHandle C) * option Table) :=
  TableCache_NewIterator extend z C dbname_ topts (NewRandomAccessFile E (rp_world r)) cache_id (paranoid_checks topts) (rp_cache r)
    (number meta) (file_size meta).
Definition delete_iterator (cache : CState C) (handle : option (CHandle C)) : CState C :=
  match handle with Some h => UnrefEntry C cache h | None => cache end.

(** The loop of [RepairTable] *)
Fixpoint copy_loop (n : nat) (iter : IState (AnyOps extend z)) (builder : Rep (env_W E)) (counter : Z) : option (Rep (env_W E) * Z) :=
  match n with
  | O => None
  | S n =>
      if negb (it_Valid (AnyOps extend z) iter) then Some (builder, counter)
      else
        let builder := TableBuilder_Add extend z builder (it_key (AnyOps extend z) iter) (it_value (AnyOps extend z) iter) in
        iter ← it_Next (AnyOps extend z) iter;
        copy_loop n iter builder (s32 (counter + 1))
  end.

(** [RepairTable] *)
Definition RepairTable r (src : bytes) (t : TableInfo) : option Repairer :=
  let '(r, n) := take_file_number r in
  copy ← TableFileName dbname_ n;
  let '(w, s, file) := NewWritableFile E (rp_world r) copy in
  let r := set_rp_world r w in
  if negb (ok s) then Some r
  else
    file ← file;
    '(cache, iter, handle, _) ← NewTableIterator r (ti_meta t);
    iter ← it_SeekToFirst (AnyOps extend z) iter;
    '(builder, counter) ← copy_loop fuel iter (TableBuilder_new topts file) 0;
    let r := set_rp_cache r (delete_iterator cache handle) in
    let r := ArchiveFile r src in
    let '(builder, s) := if counter =? 0 then (TableBuilder_Abandon _ builder, s) else TableBuilder_Finish extend z builder in
    let meta := if negb (counter =? 0) && ok s then with_size (ti_meta t) (FileSize _ builder) else ti_meta t in
    let file := TableBuilder.file builder in
    let '(file, s) := if ok s then Close E file else (file, s) in
    let r := set_rp_world r (delete_file E (rp_world r) file) in
    '(r, s) ← (if (counter >? 0) && ok s then
        orig ← TableFileName dbname_ (number meta);
        let '(w, s) := RenameFile E (rp_world r) copy orig in
        let r := set_rp_world r w in
        Some (if ok s then push_table r (mkTableInfo meta (ti_max_sequence t)) else r, s)
      else Some (r, s));
    Some (if negb (ok s) then set_rp_world r (fst (env_RemoveFile E (rp_world r) copy)) else r).

(** The loop of [ScanTable] *)
Fixpoint scan_loop (n : nat) (iter : IState (AnyOps extend z)) (t : TableInfo) (empty : bool) : option (IState (AnyOps extend z) * TableInfo) :=
  match n with
  | O => None
  | S n =>
      if negb (it_Valid (AnyOps extend z) iter) then Some (iter, t)
      else
        let key := it_key (AnyOps extend z) iter in
        let '(t, empty) :=
          match ParseInternalKey key with
          | None => (t, empty)
          | Some parsed =>
              (mkTableInfo (with_range (ti_meta t) (if (empty : bool) then key else smallest (ti_meta t)) key)
                (if sequence parsed >? ti_max_sequence t then sequence parsed else ti_max_sequence t), false)
          end in
        iter ← it_Next (AnyOps extend z) iter;
        scan_loop n iter t empty
  end.

(** [ScanTable] *)
Definition ScanTable r (number : Z) : option Repairer :=
  fname ← TableFileName dbname_ number;
  let '(status, size) := GetFileSize E (rp_world r) fname in
  '(status, size, fname) ← (if negb (ok status) then
      fname ← SSTTableFileName fname number;
      let '(s2, size) := GetFileSize E (rp_world r) fname in
      Some (if ok s2 then Status_OK else status, size, fname)
    else Some (status, size, fname));
  if negb (ok status) then
    ldb ← TableFileName dbname_ number;
    sst ← SSTTableFileName dbname_ number;
    Some (ArchiveFile (ArchiveFile r ldb) sst)
  else
    let meta := FileMetaData_new number size [] [] in
    '(cache, iter, handle, _) ← NewTableIterator r meta;
    iter ← it_SeekToFirst (AnyOps extend z) iter;
    '(iter, t) ← scan_loop fuel iter (mkTableInfo meta 0) true;
    let status := if negb (ok (it_status (AnyOps extend z) iter)) then it_status (AnyOps extend z) iter else status in
    let r := set_rp_cache r (delete_iterator cache handle) in
    if ok status then Some (push_table r t) else RepairTable r fname t.

(** [ExtracMetaData] *)
Fixpoint scan_tables r (numbers : list Z) : option Repairer :=
  match numbers with
  | [] => Some r
  | n :: numbers => r ← ScanTable r n; scan_tables r numbers
  end.
Definition ExtracMetaData r : option Repairer := scan_tables r (table_numbers_ r).

(** The edit of [WriteDescriptor] *)
Definition max_sequence_of (tables : list TableInfo) : Z :=
  fold_left (fun m t => if m <? ti_max_sequence t then ti_max_sequence t else m) tables 0.
Definition repair_edit r : VersionEdit :=
  fold_left (fun e t => AddFile e 0 (number (ti_meta t)) (file_size (ti_meta t)) (smallest (ti_meta t)) (largest (ti_meta t))) (tables_ r)
    (SetLastSequence (SetNextFile (SetLogNumber (SetComparatorName (VersionEdit_new garbage) (Comparator_Name ucmp)) 0) (rp_next_file_number r))
      (max_sequence_of (tables_ r))).

(** [WriteDescriptor] *)
Definition WriteDescriptor r : option (Repairer * Status) :=
  tmp ← TempFileName dbname_ 1;
  let '(w, status, file) := NewWritableFile E (rp_world r) tmp in
  let r := set_rp_world r w in
  if negb (ok status) then Some (r, status)
  else
    file ← file;
    let '(log, status) := AddRecord extend (Writer_new extend file) (VersionEdit_EncodeTo (repair_edit r) []) in
    let file := dest_ log in
    let '(file, status) := if ok status then Close E file else (file, status) in
    let r := set_rp_world r (delete_file E (rp_world r) file) in
    if negb (ok status) then Some (set_rp_world r (fst (env_RemoveFile E (rp_world r) tmp)), status)
    else
      let r := fold_left (fun r m => ArchiveFile r (dbname_ ++ str:"/" ++ m)) (manifests_ r) r in
      manifest ← DescriptorFileName dbname_ 1;
      let '(w, status) := RenameFile E (rp_world r) tmp manifest in
      let r := set_rp_world r w in
      if ok status then
        '(w, status) ← SetCurrentFile E (rp_world r) dbname_ 1;
        Some (set_rp_world r w, status)
      else Some (set_rp_world r (fst (env_RemoveFile E (rp_world r) tmp)), status).

(** [Run] *)
Definition Run r : option (Repairer * Status) :=
  let '(r, status) := FindFiles r in
  if ok status then
    r ← ConverLogFilesToTables r;
    r ← ExtracMetaData r;
    WriteDescriptor r
  else Some (r, status).
End Operations.

(** [RepairDB]: the constructor of [Repairer] sanitizes the options.  [ipolicy] is
    the user's filter policy on internal keys, and [table_cache] a new cache. *)
Definition RepairDB (E : Env) (NewLogger : World E -> bytes -> World E * Status) (extend : Z -> bytes -> Z) (z : Compression)
    (C : CacheOps TableAndFile) (new_chars : list region -> Z -> Z) (ucmp : Comparator) (ipolicy : FilterPolicy) (cache_id : Z)
    (garbage : bool) (fuel : nat) (table_cache : CState C) (w : World E) (dbname : bytes) (options : DBOptions) : option (World E * Status) :=
  let '(w, options_) := SanitizeOptions E NewLogger w dbname (InternalKeyComparator.make ucmp) ipolicy options in
  '(r, status) ← Run E extend z C new_chars ucmp options_ dbname cache_id garbage fuel (Repairer_new E C w table_cache);
  Some (rp_world E C r, status).
