(* ===== verification/RepairedDb.v ===== *)
(** * A repaired database

    src/db/repair.cc: [Run] on a directory whose tables and logs can be read, in
    an environment whose files do not fail.  Logs may end at any byte, and
    manifests may be missing or hold anything.  Every entry of every table and of
    every complete record of a log is in the database that opens from the new
    manifest, and nothing else is. *)

From Stdlib Require Import SpecFloat.
From stdpp Require Import gmap sets sorting.
From S2P Require Import Snapshot Prelude Slice Coding Crc32c Comparator DbFormat Hash Cache WriteBatch LogFormat LogWriter LogReader Filename.
From S2P Require Import Iterator SkipList Arena MemTable Entries MemIter View Prune BlockBuilder Block DbIter Merger TwoLevelIterator Format FilterBlock TableBuilder Table.
From S2P Require Import VersionEdit VersionFiles VersionBuilder Compaction VersionGet CompactedVersion FlushedVersion VersionIter TableCache Env PosixFiles BuildTable.
From S2P Require Import DbOptions VersionSet PerfCounters DbState DbImpl DbClient DbOpen DbFiles DbView DbCompact CompactionWork DbWrite DbFlush DbRecover Repair.

(** ** Names *)

Lemma in_directory_ne (dir a b : bytes) : ParseFileName a <> ParseFileName b -> dir ++ str:"/" ++ a <> dir ++ str:"/" ++ b.
Proof. intros H E. apply H. apply app_inv_head, app_inv_head in E. by subst. Qed.

Lemma rfind_slash_none b : Byte.x2f ∉ b -> rfind_slash b = None.
Proof.
  induction b as [|x b IH]; intros H; cbn [rfind_slash]; [done|]. rewrite not_elem_of_cons in H. destruct H as [Hx Hb].
  rewrite (IH Hb), bool_decide_false; done.
Qed.

Lemma rfind_slash_dir dir b : Byte.x2f ∉ b -> rfind_slash (dir ++ str:"/" ++ b) = Some (length dir).
Proof.
  intros H. induction dir as [|x dir IH]; cbn [app rfind_slash length]; [|by rewrite IH].
  change (str:"/" ++ b) with (Byte.x2f :: b). cbn [rfind_slash]. by rewrite rfind_slash_none, bool_decide_true.
Qed.

Lemma archive_name_dir dir b : Byte.x2f ∉ b -> archive_name (dir ++ str:"/" ++ b) = dir ++ str:"/" ++ str:"lost/" ++ b.
Proof.
  intros H. unfold archive_name. rewrite rfind_slash_dir by done. rewrite take_app_length. f_equal.
  replace (S (length dir)) with (length (dir ++ str:"/")) by (rewrite length_app; cbn; lia).
  rewrite (app_assoc dir), drop_app_length. reflexivity.
Qed.

Lemma parse_lost b : ParseFileName (str:"lost/" ++ b) = None.
Proof.
  unfold ParseFileName.
  assert (forall s, match s with [] => True | x :: _ => x <> Byte.x6c end -> Slice_eqb (str:"lost/" ++ b) s = false) as Hs.
  { intros s Hx. apply not_true_iff_false. rewrite Slice_eqb_eq. intros <-. by apply Hx. }
  rewrite !Hs by (cbv; done). cbn [orb].
  assert (starts_with (str:"lost/" ++ b) (str:"MANIFEST-") = false) as ->; [|done].
  apply not_true_iff_false. rewrite starts_with_spec. intros [r Hr]. discriminate.
Qed.

Lemma digits_no_slash ds : Forall (fun c => is_digit c = true) ds -> Byte.x2f ∉ ds.
Proof. rewrite list.Forall_forall. intros H Hin. specialize (H _ Hin). by vm_compute in H. Qed.

Lemma file_base_no_slash n suffix : 0 <= n -> Byte.x2f ∉ suffix -> Byte.x2f ∉ file_base n suffix.
Proof.
  intros Hn Hs. destruct (padded_spec n Hn) as (_ & Hd & _). unfold file_base. rewrite !elem_of_app. intros [H|[H|H]].
  - by apply (digits_no_slash _ Hd).
  - apply list_elem_of_singleton in H. discriminate.
  - done.
Qed.

Lemma parse_log n : 0 <= n < 2 ^ 64 -> ParseFileName (file_base n (str:"log")) = Some (n, kLogFile).
Proof. intros H. apply ParseFileName_base; [done|set_solver]. Qed.
Lemma parse_table n : 0 <= n < 2 ^ 64 -> ParseFileName (file_base n (str:"ldb")) = Some (n, kTableFile).
Proof. intros H. apply ParseFileName_base; [done|set_solver]. Qed.
Lemma parse_temp n : 0 <= n < 2 ^ 64 -> ParseFileName (file_base n (str:"dbtmp")) = Some (n, kTempFile).
Proof. intros H. apply ParseFileName_base; [done|set_solver]. Qed.

Lemma consume_digits_range s : forall v n v' rest n', 0 <= v < 2 ^ 64 -> consume_digits s v n = Some (v', rest, n') -> 0 <= v' < 2 ^ 64.
Proof.
  induction s as [|c s IH]; intros v n v' rest n' Hv; cbn [consume_digits]; [by intros [= <- _ _]|].
  destruct (negb (is_digit c)); [by intros [= <- _ _]|]. destruct (_ || _); [done|]. apply IH. apply u64_range.
Qed.

Lemma ParseFileName_range f n type : ParseFileName f = Some (n, type) -> 0 <= n < 2 ^ 64.
Proof.
  assert (forall s m rest, ConsumeDecimalNumber s = Some (m, rest) -> 0 <= m < 2 ^ 64) as Hc.
  { intros s m rest. unfold ConsumeDecimalNumber. destruct (consume_digits s 0 0) as [[[v r] k]|] eqn:E; [|done]. destruct (k =? 0)%nat; [done|].
    intros [= <- _]. by eapply consume_digits_range; [|exact E]. }
  unfold ParseFileName. destruct (Slice_eqb f _); [by intros [= <- _]|]. destruct (Slice_eqb f _); [by intros [= <- _]|]. destruct (_ || _); [by intros [= <- _]|].
  destruct (starts_with f _); (destruct (ConsumeDecimalNumber _) as [[m rest]|] eqn:E; [|done]); apply Hc in E.
  - destruct rest; [|done]. by intros [= <- _].
  - destruct (Slice_eqb rest _); [by intros [= <- _]|]. destruct (_ || _); [by intros [= <- _]|]. destruct (Slice_eqb rest _); [by intros [= <- _]|done].
Qed.

(** What [FindFiles] sorts the names into. *)
Definition tables_in (names : list bytes) : list Z := omap (fun f => match ParseFileName f with Some (n, kTableFile) => Some n | _ => None end) names.
Definition logs_in (names : list bytes) : list Z := omap (fun f => match ParseFileName f with Some (n, kLogFile) => Some n | _ => None end) names.
Definition manifests_in (names : list bytes) : list bytes :=
  filter (fun f => snd <$> ParseFileName f = Some kDescriptorFile) names.
Lemma logs_in_length names : (length (logs_in names) <= length names)%nat.
Proof.
  induction names as [|f names IH]; [done|]. unfold logs_in in *. cbn in *. destruct (match ParseFileName f with Some (n, kLogFile) => Some n | _ => None end); cbn; lia.
Qed.
Definition bump (k : Z) (f : bytes) : Z :=
  match ParseFileName f with
  | None | Some (_, kDescriptorFile) => k
  | Some (n, _) => if u64 (n + 1) >? k then u64 (n + 1) else k
  end.
Definition next_number (names : list bytes) (k : Z) : Z := fold_left bump names k.

Lemma next_number_spec names k : Forall (fun f => forall n type, ParseFileName f = Some (n, type) -> n < 2 ^ 62) names -> 1 <= k <= 2 ^ 62 ->
  k <= next_number names k <= 2 ^ 62 /\ forall f n type, f ∈ names -> ParseFileName f = Some (n, type) -> type <> kDescriptorFile -> n < next_number names k.
Proof.
  intros Hn. revert k. induction Hn as [|f names Hf _ IH]; intros k Hk; [split; [cbn; lia|]; intros f n type H; by apply not_elem_of_nil in H|].
  unfold next_number in *. cbn [fold_left]. set (k1 := bump k f).
  assert (k <= k1 <= 2 ^ 62 /\ forall n type, ParseFileName f = Some (n, type) -> type <> kDescriptorFile -> n < k1) as [Hk1 Hlt].
  { unfold k1, bump. destruct (ParseFileName f) as [[m t]|] eqn:E; [|split; [lia|done]]. pose proof (Hf m t eq_refl). pose proof (ParseFileName_range f m t E).
    assert (k <= (if u64 (m + 1) >? k then u64 (m + 1) else k) <= 2 ^ 62 /\ m < (if u64 (m + 1) >? k then u64 (m + 1) else k)) as [H1 H2].
    { rewrite u64_small by lia. rewrite Z.gtb_ltb. destruct (Z.ltb_spec k (m + 1)); lia. }
    destruct t; split; try lia; intros n type [= <- <-] ?; done || lia. }
  destruct (IH k1 ltac:(lia)) as [H1 H2]. split; [lia|]. intros g n type [->|Hg]%elem_of_cons Hp Ht; [|by eapply H2].
  specialize (Hlt n type Hp Ht). lia.
Qed.

Section Repair.
Context (E : Env) (files : World E -> gmap bytes bytes) (wcontents : WFile (env_W E) -> bytes)
  (fname : WFile (env_W E) -> bytes) (rest : SFile (env_F E) -> bytes) `{!EnvLaws E files wcontents fname rest}.
Context (extend : Z -> bytes -> Z) `{!CrcLaws extend} (z : Compression) `{!CompressionLaws z}.
Context (C : CacheOps TableAndFile) (limit : Z)
  (rep : CState C -> (bytes -> option TableAndFile) -> list (CHandle C * TableAndFile) -> Prop) `{!CacheLaws C limit rep}.
Context (new_chars : list region -> Z -> Z) (ucmp : Comparator) `{!ComparatorLaws ucmp} (options_ : DBOptions) (policy : option FilterPolicy)
  (ok_keys : list bytes -> Prop) `{!DbTableOptions ucmp (table_options options_) policy ok_keys}.
Context (dbname : bytes) (cache_id : Z) (garbage : bool) (fuel : nat).
Abbreviation o := (table_options options_).
Abbreviation Repairer := (Repairer E C).
Abbreviation cache_below := (cache_below extend z C limit rep ucmp).
Abbreviation new_meta n := (FileMetaData_new n 0 [] []).
Abbreviation log_bytes gs := (fst (records_bytes extend 0 (map group_record gs))).
Abbreviation in_dir b := (dbname ++ str:"/" ++ b).
Implicit Types (r : Repairer) (contents : Z -> list Entry) (gs : list Group).

#[local] Instance repair_reads : ReliableReads (env_F E) rest := env_reads.
#[local] Instance repair_writes : ReliableWrites (env_W E) wcontents := env_writes.

(** ** Archiving *)

Lemma ArchiveFile_spec r b data : Byte.x2f ∉ b -> files (rp_world E C r) !! in_dir b = Some data ->
  exists w', ArchiveFile E C r (in_dir b) = set_rp_world E C r w' /\ files w' = <[in_dir (str:"lost/" ++ b) := data]> (delete (in_dir b) (files (rp_world E C r))).
Proof using All.
  intros Hb Hd. unfold ArchiveFile. rewrite archive_name_dir by done.
  destruct (rename_spec (fst (CreateDir E (rp_world E C r) (archive_dir (in_dir b)))) (in_dir b) (in_dir (str:"lost/" ++ b)) data) as (w' & -> & Hw).
  { by rewrite create_dir_spec. }
  exists w'. split; [done|]. by rewrite Hw, create_dir_spec.
Qed.

(** ** Finding the files *)

Lemma find_files_spec names : forall r, fold_left (find_file E C) names r =
  mkRepairer E C (rp_world E C r) (rp_cache E C r) (manifests_ E C r ++ manifests_in names) (table_numbers_ E C r ++ tables_in names)
    (logs_ E C r ++ logs_in names) (tables_ E C r) (next_number names (rp_next_file_number E C r)).
Proof using Type.
  unfold manifests_in, tables_in, logs_in, next_number.
  induction names as [|f names IH]; intros r; cbn [fold_left omap list_omap]; [by rewrite !app_nil_r; destruct r|]. rewrite IH, filter_cons. unfold find_file, bump.
  destruct (decide (snd <$> ParseFileName f = Some kDescriptorFile)) as [Hd|Hd]; destruct (ParseFileName f) as [[n []]|];
    try discriminate Hd; try (by destruct Hd); cbn [rp_world rp_cache manifests_ table_numbers_ logs_ tables_ rp_next_file_number];
    rewrite <- ?app_assoc; reflexivity.
Qed.

(** ** Converting logs *)

Lemma convert_batches gs : forall mem last es,
  groups_ok last gs -> 0 <= last -> mem_rep ucmp mem es -> Forall (fun e => e_seq e <= last) es ->
  exists mem', feed (convert_record new_chars ucmp) mem (map group_record gs) = Some mem' /\
    mem_rep ucmp mem' (fold_left (fun es g => batch_entries (fst g) (snd g) ++ es) gs es).
Proof using All.
  induction gs as [|g gs IH]; intros mem last es Hg Hl Hm Hes; cbn [map feed fold_left]; [by exists mem|].
  destruct Hg as (G1 & G2 & G3 & G4 & G5). unfold group_last in *.
  destruct (InsertInto_mem new_chars ucmp mem es (fst g) (snd g) Hm G2 G3) as (m' & Ei & Hm'); [lia|lia| |].
  { eapply list.Forall_impl; [exact Hes|]. intros e He. cbn in He. lia. }
  assert (convert_record new_chars ucmp mem (group_record g) = Some (m', true)) as ->.
  { unfold convert_record, group_record. rewrite length_batch_rep, (proj2 (Z.ltb_ge _ _)) by lia.
    unfold SetContents. rewrite (proj2 (Nat.leb_le _ _)) by (rewrite length_batch_rep; unfold kHeader; lia). cbn [mbind option_bind]. by rewrite Ei. }
  cbn [mbind option_bind]. apply (IH m' (fst g + zlen (snd g) - 1)); [done|lia|done|].
  apply Forall_app_2.
  - eapply list.Forall_impl; [apply batch_entries_seqs|]. intros e He. cbn in He. lia.
  - eapply list.Forall_impl; [exact Hes|]. intros e He. cbn in He. lia.
Qed.

(** The entries of the complete records of a log that was cut. *)
Definition complete_count (cut : nat) gs : nat := length (complete_records extend 0 cut (map group_record gs)).
Definition cut_entries (cut : nat) gs : list Entry := groups_entries (take (complete_count cut gs) gs).

Lemma complete_groups_count cut gs : complete_records extend 0 cut (map group_record gs) = map group_record (take (complete_count cut gs) gs).
Proof using Type.
  unfold complete_count. destruct (complete_records_prefix extend 0 (map group_record gs) cut) as [l Hl]. rewrite <- firstn_map.
  set (c := complete_records extend 0 cut (map group_record gs)) in *. by rewrite Hl, take_app_length.
Qed.

(** A table that can be read, and what a log must keep to. *)
Record table_held (w : World E) contents (n : Z) : Prop := {
  hd_range : 0 < n < 2 ^ 64;
  hd_file : exists tbl, files w !! table_name dbname n = Some tbl /\ table_bytes extend z ucmp o ok_keys (contents n) tbl;
  hd_nonempty : contents n <> [];
  hd_ok : Forall entry_ok (contents n);
  hd_distinct : NoDup (map e_seq (contents n));
  hd_fuel : (length (contents n) < fuel)%nat }.

Record log_fits gs : Prop := {
  lf_groups : groups_ok 0 gs;
  lf_records : (record_fuel (map group_record gs) <= fuel)%nat;
  lf_length : (length gs < fuel)%nat;
  lf_entries : (length (groups_entries gs) < fuel)%nat;
  lf_table : forall k es, es ≡ₚ groups_entries (take k gs) -> es_sorted ucmp es -> table_fits E wcontents extend z ucmp o ok_keys es }.
(** The entries of a memtable in order. *)
Record mem_sorted (es : list Entry) : Prop := {
  ms_ok : Forall entry_ok es; ms_distinct : NoDup (map e_seq es); ms_sorted : es_sorted ucmp es }.

(** Building the table of a memtable that a log was read into. *)
Lemma build_recovered r mem es contents room :
  let n := rp_next_file_number E C r in
  mem_list ucmp mem es -> (length es < fuel)%nat -> 0 < n -> n + 1 < 2 ^ 64 ->
  (es <> [] -> table_fits E wcontents extend z ucmp o ok_keys es) -> cache_below n contents room (rp_cache E C r) -> (1 <= room)%nat ->
  exists w' cache' meta, BuildTable E extend z C dbname o cache_id (MemTableIterator ucmp mem) fuel (rp_world E C r) (rp_cache E C r)
      (MemTable_NewIterator ucmp mem) (new_meta n) None = Some (w', cache', meta, Status_OK) /\
    cache_below (n + 1) (contents_with_table contents n es) room cache' /\
    match es with
    | [] => meta = with_size (new_meta n) 0 /\ files w' = delete (table_name dbname n) (files (rp_world E C r))
    | _ => exists tbl, meta = with_size (range_of (new_meta n) es) (zlen tbl) /\
        holds_table E files extend z ucmp o ok_keys (rp_world E C r) w' (table_name dbname n) es tbl
    end.
Proof using All.
  intros n Hmem Hf Hn Hn1 Hfit Hc Hroom. destruct (mem_cursor ucmp mem es Hmem) as (pos & Hpos & Hp).
  assert (cursor_at fits (InternalKeyComparator.Compare ucmp) (MemTableIterator ucmp mem) (map entry_kv es) (MemTable_NewIterator ucmp mem) (length es)) as Hcur by (by exists pos).
  assert (forall contents', (forall k, k < n + 1 -> contents' k = contents_with_table contents n es k) ->
    exists w' cache' meta, BuildTable E extend z C dbname o cache_id (MemTableIterator ucmp mem) fuel (rp_world E C r) (rp_cache E C r)
        (MemTable_NewIterator ucmp mem) (new_meta n) None = Some (w', cache', meta, Status_OK) /\
      cache_room extend z ucmp C limit rep contents' room cache' /\
      match es with
      | [] => meta = with_size (new_meta n) 0 /\ files w' = delete (table_name dbname n) (files (rp_world E C r))
      | _ => exists tbl, meta = with_size (range_of (new_meta n) es) (zlen tbl) /\
          holds_table E files extend z ucmp o ok_keys (rp_world E C r) w' (table_name dbname n) es tbl
      end) as Hbuild.
  { intros contents' Heq. destruct (Hc contents') as (hs & Hhs & Hl).
    { intros k Hk. rewrite Heq by lia. apply contents_with_old. lia. }
    destruct (BuildTable_spec E files wcontents fname rest extend z ucmp o policy ok_keys C limit rep dbname cache_id (MemTableIterator ucmp mem) fits contents'
      fuel None es (MemTable_NewIterator ucmp mem) (length es) (rp_world E C r) (rp_cache E C r) hs (new_meta n) Hcur Hf Hhs) as (w' & cache' & meta & Eb & Hc' & Hm);
      rewrite ?kept_none; [lia|cbn; lia| |].
    - intros He. split; [by apply Hfit|]. cbn [number FileMetaData_new]. rewrite Heq by lia. apply contents_with_new.
    - exists w', cache', meta. rewrite kept_none in Hm. split; [done|]. split; [by exists hs|done]. }
  destruct (Hbuild (contents_with_table contents n es) ltac:(done)) as (w' & cache' & meta & Eb & _ & Hm). exists w', cache', meta.
  split; [done|]. split; [|done]. intros contents' Heq. destruct (Hbuild contents' Heq) as (w2 & cache2 & m2 & Eb2 & Hr & _). rewrite Eb in Eb2. by injection Eb2 as <- <- _.
Qed.

Lemma ConverLogToTable_spec r log gs cut contents room :
  let n := rp_next_file_number E C r in
  files (rp_world E C r) !! log_name dbname log = Some (take cut (log_bytes gs)) -> 0 < log -> log_fits gs ->
  0 < n -> n + 1 < 2 ^ 64 -> cache_below n contents room (rp_cache E C r) -> (1 <= room)%nat ->
  exists w' cache' es, es ≡ₚ cut_entries cut gs /\ mem_sorted es /\
    cache_below (n + 1) (contents_with_table contents n es) room cache' /\
    ConverLogToTable E extend z C new_chars ucmp options_ dbname cache_id fuel r log =
      Some (mkRepairer E C w' cache' (manifests_ E C r) (table_numbers_ E C r ++ if es then [] else [n]) (logs_ E C r) (tables_ E C r) (n + 1), Status_OK) /\
    match es with
    | [] => files w' = delete (table_name dbname n) (files (rp_world E C r))
    | _ => exists tbl, files w' = <[table_name dbname n := tbl]> (files (rp_world E C r)) /\ table_bytes extend z ucmp o ok_keys es tbl
    end.
Proof using All.
  intros n Hfile Hlog [L1 L2 L3 L4 L5] Hn Hn1 Hc Hroom. set (k := complete_count cut gs).
  destruct (convert_batches (take k gs) (MemTable_new new_chars) 0 []) as (mem & Ef & Hm); [by apply groups_ok_take|lia|apply MemTable_new_rep|done|].
  fold (groups_entries (take k gs)) in Hm. pose proof Hm as (_ & Hnd & _). destruct (mem_rep_list ucmp mem _ Hm) as (es & HP & Hmem).
  destruct (sequential_spec _ _ _ Hfile) as (f & Es & Hr).
  destruct (read_cut_log extend (env_F E) rest (fun mem _ => mem) (convert_record new_chars ucmp) f true false (map group_record gs) cut fuel fuel (MemTable_new new_chars) mem Hr L2)
    as (r' & El); [by rewrite length_map|by rewrite complete_groups_count|].
  destruct (build_recovered r mem es contents room Hmem) as (w' & cache' & meta & Eb & Hc' & Hm'); try done.
  { apply Permutation_length in HP. pose proof (groups_entries_take gs k). lia. } { intros _. apply (L5 k); [done|apply Hmem]. }
  exists w', cache', es. split; [done|]. split; [split; [apply Hmem|by rewrite HP|apply Hmem]|]. split; [done|].
  unfold ConverLogToTable. rewrite (LogFileName_pos _ _ Hlog). cbn [mbind option_bind]. rewrite Es. cbn [ok Status_OK state_ negb mbind option_bind]. rewrite El. cbn [mbind option_bind take_file_number].
  cbn [rp_world rp_cache]. fold n in Eb, Hc', Hm' |- *. rewrite Eb. cbn [mbind option_bind ok Status_OK state_ andb]. rewrite (u64_small (n + 1)) by lia.
  destruct es as [|e es].
  - destruct Hm' as (-> & Hw'). cbn [with_size file_size Z.gtb Z.compare]. unfold set_rp_cache, set_rp_world.
    cbn [rp_world rp_cache manifests_ table_numbers_ logs_ tables_ rp_next_file_number]. by rewrite app_nil_r.
  - destruct Hm' as (tbl & -> & Hw' & Ht). assert (0 < zlen tbl) as Hpos by (by eapply table_bytes_nonempty).
    cbn [with_size file_size number]. rewrite (proj2 (Z.gtb_lt _ _)) by lia.
    assert (number (range_of (new_meta n) (e :: es)) = n) as -> by (unfold range_of; cbn [head]; by destruct (list.last _)).
    split; [done|]. by exists tbl.
Qed.
(** The logs of the directory: which writes they hold, and where they end. *)
Context (groups : Z -> list Group) (cut : Z -> nat).
Definition log_entries (n : Z) : list Entry := cut_entries (cut n) (groups n).
Record log_held (w : World E) (n : Z) : Prop := {
  lh_range : 0 < n < 2 ^ 64;
  lh_file : files w !! log_name dbname n = Some (take (cut n) (log_bytes (groups n)));
  lh_fits : log_fits (groups n) }.

(** Nothing but certain files of the directory changes. *)
Definition changes_only (changed : Z * FileType -> Prop) (w w' : World E) : Prop :=
  forall b p, ParseFileName b = Some p -> ~ changed p -> files w' !! in_dir b = files w !! in_dir b.

Lemma changes_trans P w1 w2 w3 : changes_only P w1 w2 -> changes_only P w2 w3 -> changes_only P w1 w3.
Proof using Type. intros H1 H2 b p Hb Hp. by rewrite (H2 b p Hb Hp), (H1 b p Hb Hp). Qed.

Lemma changes_impl (P Q : Z * FileType -> Prop) w w' : (forall p, P p -> Q p) -> changes_only P w w' -> changes_only Q w w'.
Proof using Type. intros HPQ H b p Hb Hp. apply (H b p Hb). intros HP. by apply Hp, HPQ. Qed.

Lemma table_held_frame w w' contents contents' P n :
  changes_only P w w' -> ~ P (n, kTableFile) -> contents' n = contents n -> table_held w contents n -> table_held w' contents' n.
Proof using Type.
  intros Hw Hn Ec [H1 (tbl & H2 & H2') H3 H4 H5 H6]. split; rewrite ?Ec; try done. exists tbl. split; [|done].
  unfold table_name, MakeFileName in *. by rewrite (Hw _ _ (parse_table n ltac:(lia)) Hn).
Qed.

Lemma log_held_frame w w' P n : changes_only P w w' -> ~ P (n, kLogFile) -> log_held w n -> log_held w' n.
Proof using Type.
  intros Hw Hn [H1 H2 H3]. split; try done. unfold log_name, MakeFileName in *. by rewrite (Hw _ _ (parse_log n ltac:(lia)) Hn).
Qed.

(** A log becomes a table and goes to the lost files. *)
Lemma convert_log r log contents room :
  let n := rp_next_file_number E C r in
  log_held (rp_world E C r) log -> 0 < n -> n + 1 < 2 ^ 64 -> cache_below n contents room (rp_cache E C r) -> (1 <= room)%nat ->
  exists w' cache' es r1, es ≡ₚ log_entries log /\ cache_below (n + 1) (contents_with_table contents n es) room cache' /\
    ConverLogToTable E extend z C new_chars ucmp options_ dbname cache_id fuel r log = Some (r1, Status_OK) /\
    ArchiveFile E C r1 (log_name dbname log) =
      mkRepairer E C w' cache' (manifests_ E C r) (table_numbers_ E C r ++ if es then [] else [n]) (logs_ E C r) (tables_ E C r) (n + 1) /\
    changes_only (fun p => p = (n, kTableFile) \/ p = (log, kLogFile)) (rp_world E C r) w' /\
    (es <> [] -> table_held w' (contents_with_table contents n es) n).
Proof using All.
  intros n [H1 H2 H3] Hn Hn1 Hc Hroom.
  destruct (ConverLogToTable_spec r log (groups log) (cut log) contents room H2 (proj1 H1) H3 Hn Hn1 Hc Hroom) as (w1 & cache' & es & HP & Hm & Hc' & Ec & Hw1).
  fold n in Hc', Ec, Hw1. set (r1 := mkRepairer E C w1 cache' _ _ _ _ _) in Ec.
  assert (changes_only (fun p => p = (n, kTableFile)) (rp_world E C r) w1) as Hch.
  { intros b p Hb Hp. assert (in_dir b <> table_name dbname n) as Hne.
    { apply in_directory_ne. rewrite Hb, parse_table by lia. congruence. }
    destruct es; [rewrite Hw1; by apply lookup_delete_ne|destruct Hw1 as (tbl & -> & _); by apply lookup_insert_ne]. }
  destruct (ArchiveFile_spec r1 (file_base log (str:"log")) (take (cut log) (log_bytes (groups log)))) as (w' & Ea & Hw').
  { apply file_base_no_slash; [lia|]. by apply (bool_decide_unpack _). } { cbn [r1 rp_world]. rewrite (Hch _ _ (parse_log log ltac:(lia))) by congruence. done. }
  assert (changes_only (fun p => p = (log, kLogFile)) w1 w') as Hch'.
  { intros b p Hb Hp. cbn [r1 rp_world] in Hw'. rewrite Hw'. rewrite lookup_insert_ne, lookup_delete_ne; [done| |]; apply not_eq_sym, in_directory_ne.
    - rewrite Hb, parse_log by lia. congruence. - by rewrite Hb, parse_lost. }
  exists w', cache', es, r1. split; [done|]. split; [done|]. split; [done|]. split; [done|]. split.
  - eapply changes_trans; (eapply changes_impl; [|eassumption]); cbn; tauto.
  - intros He. eapply (table_held_frame w1 w' (contents_with_table contents n es)); [done|congruence|done|].
    split; rewrite ?contents_with_new; [lia| |done|apply Hm|apply Hm|].
    + destruct es; [done|]. destruct Hw1 as (tbl & -> & Ht). exists tbl. split; [apply lookup_insert_eq|done].
    + apply Permutation_length in HP. pose proof (groups_entries_take (groups log) (complete_count (cut log) (groups log))) as Hl.
      destruct H3 as [_ _ _ L4 _]. unfold cut_entries in HP. lia.
Qed.
(** The state between the conversions: the tables so far are below the next
    number and can be read. *)
Record tables_held (w : World E) contents (next : Z) (numbers : list Z) : Prop := {
  th_next : 0 < next;
  th_below : Forall (fun k => k < next) numbers;
  th_distinct : NoDup numbers;
  th_held : Forall (table_held w contents) numbers }.

(** A step that takes a number for at most one new table. *)
Lemma tables_held_step w w' contents n numbers es log :
  tables_held w contents n numbers -> changes_only (fun p => p = (n, kTableFile) \/ p = (log, kLogFile)) w w' ->
  (es <> [] -> table_held w' (contents_with_table contents n es) n) ->
  tables_held w' (contents_with_table contents n es) (n + 1) (numbers ++ if es then [] else [n]).
Proof using Type.
  intros [H0 Hb Hd Hh] Hch Hnew. rewrite list.Forall_forall in Hb, Hh.
  assert (Forall (table_held w' (contents_with_table contents n es)) numbers) as Hold.
  { apply list.Forall_forall. intros k Hk. specialize (Hb k Hk). eapply table_held_frame; [exact Hch| |apply contents_with_old; lia|by apply Hh].
    intros [[= ->]|[=]]. lia. }
  split; [lia| | |].
  - apply Forall_app_2; [apply list.Forall_forall; intros k Hk; specialize (Hb k Hk); lia|]. destruct es; [constructor|apply Forall_singleton; lia].
  - apply list.NoDup_app. split; [done|]. split; [|destruct es; [constructor|apply NoDup_singleton]].
    intros k Hk Hk'. specialize (Hb k Hk). destruct es; [by apply not_elem_of_nil in Hk'|]. apply list_elem_of_singleton in Hk'. lia.
  - apply Forall_app_2; [done|]. destruct es; [constructor|apply Forall_singleton; by apply Hnew].
Qed.

Definition only_tables_and_logs (p : Z * FileType) : Prop := snd p = kTableFile \/ snd p = kLogFile.

Lemma convert_logs_spec logs : forall r contents room,
  let n := rp_next_file_number E C r in
  NoDup logs -> Forall (log_held (rp_world E C r)) logs -> n + zlen logs < 2 ^ 64 ->
  cache_below n contents room (rp_cache E C r) -> (1 <= room)%nat -> tables_held (rp_world E C r) contents n (table_numbers_ E C r) ->
  exists w' cache' contents' added,
    convert_logs E extend z C new_chars ucmp options_ dbname cache_id fuel r logs =
      Some (mkRepairer E C w' cache' (manifests_ E C r) (table_numbers_ E C r ++ added) (logs_ E C r) (tables_ E C r) (n + zlen logs)) /\
    cache_below (n + zlen logs) contents' room cache' /\ tables_held w' contents' (n + zlen logs) (table_numbers_ E C r ++ added) /\
    (forall k, k < n -> contents' k = contents k) /\ changes_only only_tables_and_logs (rp_world E C r) w' /\
    (forall e, (exists k, k ∈ added /\ e ∈ contents' k) <-> exists log, log ∈ logs /\ e ∈ log_entries log).
Proof using All.
  induction logs as [|log logs IH]; intros r contents room n Hnd Hlogs Hbound Hc Hroom Ht; cbn [convert_logs].
  { exists (rp_world E C r), (rp_cache E C r), contents, []. rewrite app_nil_r, Z.add_0_r. split; [by destruct r|]. split; [done|]. split; [done|]. split; [done|].
    split; [by intros ? ? _ _|]. intros e. split; intros (x & Hx & _); by apply not_elem_of_nil in Hx. }
  apply list.NoDup_cons in Hnd as [Hlog Hnd]. apply list.Forall_cons in Hlogs as [Hl Hlogs]. cbn [length] in Hbound.
  pose proof (th_next _ _ _ _ Ht) as Hn. fold n in Hn.
  destruct (convert_log r log contents room Hl Hn ltac:(fold n; lia) Hc Hroom) as (w1 & cache1 & es & r1 & HP & Hc1 & -> & Ea & Hch & Hnew).
  rewrite (LogFileName_pos _ _ (proj1 (lh_range _ _ Hl))). fold n in Hc1, Ea, Hch, Hnew. cbn [mbind option_bind]. rewrite Ea.
  pose proof (tables_held_step _ _ _ _ _ _ _ Ht Hch Hnew) as Ht1.
  destruct (IH (mkRepairer E C w1 cache1 (manifests_ E C r) (table_numbers_ E C r ++ if es then [] else [n]) (logs_ E C r) (tables_ E C r) (n + 1))
    (contents_with_table contents n es) room Hnd) as (w' & cache' & contents' & added & Eq & Hc' & Ht' & Hold & Hch' & Hent);
    cbn [rp_world rp_cache rp_next_file_number table_numbers_ manifests_ logs_ tables_] in *; [|lia|done|done|done|].
  { rewrite list.Forall_forall in Hlogs |- *. intros k Hk. eapply log_held_frame; [exact Hch| |by apply Hlogs]. intros [[=]|[= ->]]. done. }
  replace (n + 1 + zlen logs) with (n + zlen (log :: logs)) in * by (cbn [length]; lia). rewrite <- app_assoc in Eq, Ht'.
  exists w', cache', contents', ((if es then [] else [n]) ++ added). split; [done|]. split; [done|]. split; [done|]. split; [|split].
  - intros k Hk. rewrite Hold by lia. apply contents_with_old. lia.
  - eapply changes_trans; [|exact Hch']. eapply changes_impl; [|exact Hch]. intros p [-> | ->]; [by left|by right].
  - intros e. assert (contents' n = es) as En by (rewrite Hold by lia; apply contents_with_new). split.
    + intros (k & [Hk|Hk]%elem_of_app & He).
      * destruct es; [by apply not_elem_of_nil in Hk|]. apply list_elem_of_singleton in Hk as ->. exists log. split; [by left|]. by rewrite <- HP, <- En.
      * destruct (proj1 (Hent e) (ex_intro _ k (conj Hk He))) as (l & Hl' & He'). exists l. split; [by right|done].
    + intros (l & [->|Hl']%elem_of_cons & He).
      * rewrite <- HP in He. exists n. split; [|by rewrite En]. apply elem_of_app. left. destruct es; [by apply not_elem_of_nil in He|by left].
      * destruct (proj2 (Hent e) (ex_intro _ l (conj Hl' He))) as (k & Hk & He'). exists k. split; [apply elem_of_app; by right|done].
Qed.
(** ** Scanning tables *)

(** What a scan finds out about a table. *)
Definition max_seq (es : list Entry) : Z := fold_left Z.max (map e_seq es) 0.
Definition scanned (meta : FileMetaData) (es : list Entry) : TableInfo := mkTableInfo (range_of meta es) (max_seq es).

Lemma scanned_snoc meta es e : entry_ok e ->
  scanned meta (es ++ [e]) = mkTableInfo (with_range (ti_meta (scanned meta es)) (if (length es =? 0)%nat then entry_ikey e else smallest (ti_meta (scanned meta es))) (entry_ikey e))
    (if e_seq e >? ti_max_sequence (scanned meta es) then e_seq e else ti_max_sequence (scanned meta es)).
Proof using Type.
  intros (Hs & _). unfold scanned. cbn [ti_meta ti_max_sequence]. rewrite range_snoc. unfold max_seq. rewrite map_app, fold_left_app. cbn [map fold_left]. f_equal.
  - f_equal. destruct es; [done|]. cbn [length Nat.eqb]. rewrite (proj2 (Z.eqb_neq _ _)); [done|]. lia.
  - rewrite Z.gtb_ltb. destruct (Z.ltb_spec (fold_left Z.max (map e_seq es) 0) (e_seq e)); lia.
Qed.

Lemma scan_loop_spec es meta pos `{!Cursor (InternalKeyComparator.Compare ucmp) (AnyOps extend z) (map entry_kv es) pos} : Forall entry_ok es ->
  forall n iter i, pos iter i -> (length es - i < n)%nat ->
  exists iter', scan_loop extend z n iter (scanned meta (take i es)) (i =? 0)%nat = Some (iter', scanned meta es) /\ pos iter' (length es).
Proof using Type.
  intros Hok. induction n as [|n IH]; intros iter i Hi Hn; [lia|]. cbn [scan_loop].
  pose proof (cur_bound _ _ Hi) as Hb. rewrite (cur_valid _ _ Hi), length_map in *. destruct (i <? length es)%nat eqn:Ei; boolprop; cbn [negb].
  2:{ exists iter. replace i with (length es) in * by lia. by rewrite firstn_all. }
  destruct (lookup_lt_is_Some_2 es i Ei) as [e He]. pose proof (Forall_lookup_1 _ _ _ _ Hok He) as Heok.
  destruct (cur_entry _ _ (entry_kv e) Hi) as [Ek _].
  { change (map entry_kv es) with (entry_kv <$> es). by rewrite list_lookup_fmap, He. }
  rewrite Ek. cbn [entry_kv fst]. rewrite (ParseInternalKey_entry e) by apply Heok. cbn [sequence].
  destruct (cur_next _ _ Hi) as (iter2 & -> & Hi2); [by rewrite length_map|]. cbn [mbind option_bind].
  destruct (IH iter2 (S i) Hi2 ltac:(lia)) as (iter' & Eq & Hi'). exists iter'. split; [|done].
  rewrite <- Eq. rewrite (take_S_r es i e He), scanned_snoc by done. rewrite length_take.
  replace (i `min` length es =? 0)%nat with (i =? 0)%nat; [done|]. f_equal. lia.
Qed.

Lemma ScanTable_spec r n contents hs : cache_tables extend z ucmp C rep contents (rp_cache E C r) hs -> zlen hs < limit ->
  table_held (rp_world E C r) contents n ->
  exists cache' tbl, files (rp_world E C r) !! table_name dbname n = Some tbl /\ table_bytes extend z ucmp o ok_keys (contents n) tbl /\
    ScanTable E extend z C options_ dbname cache_id fuel r n =
      Some (push_table E C (set_rp_cache E C r cache') (scanned (FileMetaData_new n (zlen tbl) [] []) (contents n))) /\
    cache_tables extend z ucmp C rep contents cache' hs.
Proof using All.
  intros Hc Hl [H1 (tbl & H2 & H2') _ H4 _ H6]. unfold ScanTable. rewrite (TableFileName_pos _ _ (proj1 H1)). cbn [mbind option_bind]. rewrite (size_spec _ _ _ H2). cbn [ok Status_OK state_ negb mbind option_bind].
  destruct (random_spec (rp_world E C r) _ _ H2) as (rf & Erf & Hrf). unfold NewTableIterator. cbn [number file_size FileMetaData_new].
  destruct (TableCache_NewIterator_spec extend z ucmp o policy ok_keys C limit rep dbname (NewRandomAccessFile E (rp_world E C r)) cache_id contents hs Hl
    (paranoid_checks o) (rp_cache E C r) n (zlen tbl) Hc ltac:(lia)) as (cache1 & it & h & tf & t & pos & Eq & Hc' & HC & Hp).
  { split; [lia|]. exists rf, tbl. split; [done|]. split; [done|]. split; [done|]. by left. }
  rewrite Eq. cbn [mbind option_bind]. destruct (cur_first _ _ Hp) as (it0 & -> & Hit0). cbn [mbind option_bind].
  set (meta := FileMetaData_new n (zlen tbl) [] []).
  destruct (scan_loop_spec (contents n) meta pos H4 fuel it0 0 Hit0 ltac:(lia)) as (it1 & El & Hit1).
  change (mkTableInfo meta 0) with (scanned meta (take 0 (contents n))). change true with (0 =? 0)%nat at 1. rewrite El. cbn [mbind option_bind].
  rewrite (cur_status _ _ Hit1). cbn [ok Status_OK state_ negb delete_iterator]. eexists _, tbl. split; [done|]. split; [done|]. split; [done|].
  destruct Hc' as (m & Hr & Hm). exists m. split; [by eapply (cache_release cache1 m _ hs h tf)|done].
Qed.
Definition info_of (w : World E) contents (n : Z) (t : TableInfo) : Prop :=
  exists tbl, files w !! table_name dbname n = Some tbl /\ table_bytes extend z ucmp o ok_keys (contents n) tbl /\
    t = scanned (FileMetaData_new n (zlen tbl) [] []) (contents n).

Lemma scan_tables_spec numbers : forall r contents hs,
  cache_tables extend z ucmp C rep contents (rp_cache E C r) hs -> zlen hs < limit -> Forall (table_held (rp_world E C r) contents) numbers ->
  exists cache' infos, scan_tables E extend z C options_ dbname cache_id fuel r numbers =
      Some (mkRepairer E C (rp_world E C r) cache' (manifests_ E C r) (table_numbers_ E C r) (logs_ E C r) (tables_ E C r ++ infos) (rp_next_file_number E C r)) /\
    Forall2 (info_of (rp_world E C r) contents) numbers infos.
Proof using All.
  induction numbers as [|n numbers IH]; intros r contents hs Hc Hl Hh; cbn [scan_tables].
  { exists (rp_cache E C r), []. rewrite app_nil_r. split; [by destruct r|constructor]. }
  apply list.Forall_cons in Hh as [Hn Hh]. destruct (ScanTable_spec r n contents hs Hc Hl Hn) as (cache1 & tbl & Ht & Hb & -> & Hc1). cbn [mbind option_bind].
  destruct (IH (push_table E C (set_rp_cache E C r cache1) (scanned (FileMetaData_new n (zlen tbl) [] []) (contents n))) contents hs Hc1 Hl Hh) as (cache' & infos & -> & Hi).
  exists cache'. eexists. split; [cbn [push_table set_rp_cache rp_world manifests_ table_numbers_ logs_ tables_ rp_next_file_number]; by rewrite <- app_assoc|].
  constructor; [by exists tbl|done].
Qed.

(** ** The new manifest *)

Lemma archive_all ms : forall r, NoDup ms -> Forall (fun m => Byte.x2f ∉ m /\ is_Some (files (rp_world E C r) !! in_dir m)) ms ->
  exists w', fold_left (fun r m => ArchiveFile E C r (in_dir m)) ms r = set_rp_world E C r w' /\
    forall b, is_Some (ParseFileName b) -> b ∉ ms -> files w' !! in_dir b = files (rp_world E C r) !! in_dir b.
Proof using All.
  induction ms as [|m ms IH]; intros r Hnd Hms; cbn [fold_left]; [exists (rp_world E C r); split; [by destruct r|done]|].
  apply list.NoDup_cons in Hnd as [Hm Hnd]. apply list.Forall_cons in Hms as [[Hs [d Hd]] Hms].
  destruct (ArchiveFile_spec r m d Hs Hd) as (w1 & -> & Hw1).
  assert (forall b, ~ str:"lost/" `prefix_of` b -> b <> m -> files w1 !! in_dir b = files (rp_world E C r) !! in_dir b) as Hframe.
  { intros b Hb Hbm. rewrite Hw1, lookup_insert_ne, lookup_delete_ne; [done| |].
    - intros Eq. apply Hbm. apply app_inv_head, app_inv_head in Eq. done.
    - intros Eq. apply app_inv_head, app_inv_head in Eq. apply Hb. by exists m. }
  destruct (IH (set_rp_world E C r w1) Hnd) as (w' & -> & Hw').
  { rewrite list.Forall_forall in Hms |- *. intros x Hx. destruct (Hms x Hx) as [Hx1 Hx2]. split; [done|]. cbn [set_rp_world rp_world]. rewrite Hframe; [done| |congruence].
    intros [l ->]. apply Hx1. apply elem_of_app. left. apply (bool_decide_unpack _). done. }
  exists w'. split; [done|]. intros b [p Hb] Hbm. apply not_elem_of_cons in Hbm as [Hbm Hbms]. rewrite (Hw' b (mk_is_Some _ _ Hb) Hbms). apply Hframe; [|done].
  intros [l ->]. rewrite parse_lost in Hb. discriminate.
Qed.

(** The file that [WriteDescriptor] writes. *)
Lemma write_manifest_file w e : exists w1 f log f', NewWritableFile E w (temp_name dbname 1) = (w1, Status_OK, Some f) /\
  AddRecord extend (Writer_new extend f) (VersionEdit_EncodeTo e []) = (log, Status_OK) /\ Close E (dest_ log) = (f', Status_OK) /\
  files (delete_file E w1 f') = <[temp_name dbname 1 := manifest_image extend [e]]> (files w).
Proof using All.
  destruct (writable_spec w (temp_name dbname 1)) as (w1 & f & E1 & Hw1 & Hf & Hn).
  destruct (AddRecord_spec extend (env_W E) wcontents (Writer_new extend f) (VersionEdit_EncodeTo e [])) as (log & E2 & _ & Hc & _).
  { split; [unfold kBlockSize; cbn; lia|done]. }
  pose proof (AddRecord_keeps extend (env_W E) fname (Writer_new extend f) (VersionEdit_EncodeTo e []) Append_fname Flush_fname) as Hk. rewrite E2 in Hk. cbn [fst Writer_new dest_] in Hk.
  destruct (Close_spec (dest_ log)) as (f' & E3 & Hc' & Hn'). exists w1, f, log, f'. split; [done|]. split; [done|]. split; [done|].
  rewrite (delete_spec w1 f'), Hn', Hk, Hn, Hc', Hc, Hw1, insert_insert_eq. f_equal. cbn [Writer_new dest_ block_offset_]. rewrite Hf.
  unfold manifest_image, manifest_records. cbn [map]. rewrite records_bytes_cons. cbn [records_bytes fst]. by rewrite app_nil_r.
Qed.
Lemma WriteDescriptor_spec r :
  NoDup (manifests_ E C r) ->
  Forall (fun m => Byte.x2f ∉ m /\ is_Some (files (rp_world E C r) !! in_dir m) /\ exists n, ParseFileName m = Some (n, kDescriptorFile)) (manifests_ E C r) ->
  exists w', WriteDescriptor E extend C ucmp dbname garbage r = Some (set_rp_world E C r w', Status_OK) /\
    files w' !! CurrentFileName dbname = Some (current_contents 1) /\
    files w' !! descriptor_name dbname 1 = Some (manifest_image extend [repair_edit E C ucmp garbage r]) /\
    forall n, 0 <= n < 2 ^ 64 -> files w' !! table_name dbname n = files (rp_world E C r) !! table_name dbname n.
Proof using All.
  intros Hnd Hms. destruct (write_manifest_file (rp_world E C r) (repair_edit E C ucmp garbage r)) as (w1 & f & log & f' & E1 & E2 & E3 & Hw1).
  unfold WriteDescriptor. rewrite TempFileName_pos, DescriptorFileName_pos by lia. cbn [mbind option_bind]. rewrite E1. cbn [ok Status_OK state_ negb mbind option_bind].
  change (repair_edit E C ucmp garbage (set_rp_world E C r w1)) with (repair_edit E C ucmp garbage r). rewrite E2. cbn [ok Status_OK state_]. rewrite E3. cbn [ok Status_OK state_ negb].
  change (set_rp_world E C (set_rp_world E C r w1)) with (set_rp_world E C r). cbn [set_rp_world rp_world manifests_].
  set (w2 := delete_file E w1 f') in *. set (tmp := temp_name dbname 1) in *. set (image := manifest_image extend _) in *.
  assert (tmp = in_dir (file_base 1 (str:"dbtmp"))) as Etmp by done. pose proof (parse_temp 1 ltac:(lia)) as Ptmp.
  assert (forall b, ParseFileName b <> Some (1, kTempFile) -> in_dir b <> tmp) as Hne.
  { intros b Hb. rewrite Etmp. apply in_directory_ne. by rewrite Ptmp. }
  destruct (archive_all (manifests_ E C r) (set_rp_world E C r w2) Hnd) as (w3 & -> & Hw3).
  { eapply list.Forall_impl; [exact Hms|]. intros m (Hm1 & Hm2 & n & Hm3). split; [done|]. cbn [set_rp_world rp_world]. rewrite Hw1, lookup_insert_ne; [done|].
    apply not_eq_sym, Hne. rewrite Hm3. congruence. }
  cbn [set_rp_world rp_world] in Hw3 |- *.
  assert (forall b p, ParseFileName b = Some p -> snd p <> kDescriptorFile -> b ∉ manifests_ E C r) as Hout.
  { intros b p Hb Hp Hin. rewrite list.Forall_forall in Hms. destruct (Hms b Hin) as (_ & _ & n & Hn). rewrite Hn in Hb. injection Hb as <-. done. }
  destruct (rename_spec w3 tmp (descriptor_name dbname 1) image) as (w4 & -> & Hw4).
  { rewrite Etmp. rewrite Hw3; [|by rewrite Ptmp|by eapply Hout]. rewrite Hw1, Etmp. apply lookup_insert_eq. }
  cbn [ok Status_OK state_]. destruct (SetCurrentFile_spec E files wcontents fname rest w4 dbname 1) as (w5 & -> & Hw5); [lia|]. cbn [mbind option_bind].
  exists w5. split; [done|]. rewrite Hw5. split; [apply lookup_insert_eq|]. fold tmp.
  change (CurrentFileName dbname) with (in_dir (str:"CURRENT")). unfold descriptor_name in *.
  pose proof (ParseFileName_descriptor 1 ltac:(lia)) as Pd. split.
  - rewrite lookup_insert_ne, lookup_delete_ne, Hw4; [apply lookup_insert_eq| |].
    + apply not_eq_sym, Hne. rewrite Pd. congruence. + apply in_directory_ne. rewrite Pd. done.
  - intros n Hn. unfold table_name, MakeFileName. pose proof (parse_table n Hn) as Pt. assert (in_dir (file_base n (str:"ldb")) <> tmp) as Ht by (apply Hne; rewrite Pt; congruence).
    rewrite lookup_insert_ne by (apply in_directory_ne; rewrite Pt; done). rewrite lookup_delete_ne by done.
    rewrite Hw4, lookup_insert_ne by (apply in_directory_ne; rewrite Pt, Pd; congruence). rewrite lookup_delete_ne by done.
    rewrite Hw3; [|by rewrite Pt|by eapply Hout]. rewrite Hw1. by apply lookup_insert_ne.
Qed.
(** ** Opening the repaired database *)

Lemma repair_edit_eq r : repair_edit E C ucmp garbage r =
  mkEdit (Comparator_Name ucmp) 0 0 (rp_next_file_number E C r) (max_sequence_of (tables_ E C r)) true true false true true [] []
    (map (level_meta 0) (map ti_meta (tables_ E C r))).
Proof using Type.
  unfold repair_edit. set (e0 := SetLastSequence _ _).
  replace (fold_left _ (tables_ E C r) e0) with (fold_left (fun e f => AddFile e (Z.of_nat 0) (number f) (file_size f) (smallest f) (largest f)) (map ti_meta (tables_ E C r)) e0).
  - by rewrite AddFile_fold.
  - generalize e0. induction (tables_ E C r) as [|t ts IH]; intros e; cbn [map fold_left]; [done|]. apply IH.
Qed.

Lemma max_sequence_spec ts : Forall (fun t => 0 <= ti_max_sequence t <= kMaxSequenceNumber) ts ->
  0 <= max_sequence_of ts <= kMaxSequenceNumber /\ Forall (fun t => ti_max_sequence t <= max_sequence_of ts) ts.
Proof using Type.
  intros Hts. unfold max_sequence_of. set (step := fun m t => if m <? ti_max_sequence t then ti_max_sequence t else m).
  assert (forall m, 0 <= m <= kMaxSequenceNumber -> m <= fold_left step ts m <= kMaxSequenceNumber /\ Forall (fun t => ti_max_sequence t <= fold_left step ts m) ts) as H.
  { induction Hts as [|t ts Ht _ IH]; intros m Hm; cbn [fold_left]; [split; [lia|done]|].
    assert (m <= step m t <= kMaxSequenceNumber /\ ti_max_sequence t <= step m t) as [Hs1 Hs2] by (unfold step; destruct (Z.ltb_spec m (ti_max_sequence t)); lia).
    destruct (IH (step m t) ltac:(lia)) as [H1 H2]. split; [lia|]. constructor; [lia|done]. }
  destruct (H 0 ltac:(done)) as [H1 H2]. split; [lia|done].
Qed.

Lemma max_seq_spec es : Forall entry_ok es -> 0 <= max_seq es <= kMaxSequenceNumber /\ Forall (fun e => e_seq e <= max_seq es) es.
Proof using Type.
  intros Hes. unfold max_seq.
  assert (forall m, 0 <= m <= kMaxSequenceNumber -> m <= fold_left Z.max (map e_seq es) m <= kMaxSequenceNumber /\ Forall (fun e => e_seq e <= fold_left Z.max (map e_seq es) m) es) as H.
  { induction Hes as [|e es (He & _) _ IH]; intros m Hm; cbn [map fold_left]; [split; [lia|done]|].
    destruct (IH (Z.max m (e_seq e)) ltac:(lia)) as [H1 H2]. split; [lia|]. constructor; [lia|done]. }
  destruct (H 0 ltac:(done)) as [H1 H2]. split; [lia|done].
Qed.

Lemma ikey_ok e : entry_ok e -> key_ok (entry_ikey e).
Proof using Type.
  intros (_ & H & _). pose proof (length_InternalKey (e_key e) (e_seq e) (e_type e)) as Hl. unfold entry_ikey. split; [intros E0; rewrite E0 in Hl; cbn in Hl; lia|]. lia.
Qed.

(** The file that a version gets for a scanned table. *)
Definition repaired_file (t : TableInfo) : FileMetaData := prepare_file (snd (level_meta 0 (ti_meta t))).

Lemma info_of_spec w contents n t : info_of w contents n t -> table_held w contents n ->
  number (ti_meta t) = n /\ 0 <= ti_max_sequence t <= kMaxSequenceNumber /\ Forall (fun e => e_seq e <= ti_max_sequence t) (contents n) /\
  field_ok (FNew (level_meta 0 (ti_meta t))) /\
  file_holds ucmp (is_table_in E extend z ucmp o ok_keys dbname contents w) contents (repaired_file t).
Proof using All.
  intros (tbl & Hf & Ht & ->) [H1 _ H3 H4 H5 _]. set (meta := FileMetaData_new n (zlen tbl) [] []). unfold repaired_file, scanned. cbn [ti_meta ti_max_sequence].
  pose proof (tby_sorted _ _ _ _ _ _ _ Ht) as Hs. pose proof (tby_length _ _ _ _ _ _ _ Ht) as Hlen. destruct (max_seq_spec (contents n) H4) as [Hm1 Hm2].
  assert (exists a b, a ∈ contents n /\ b ∈ contents n /\ range_of meta (contents n) = with_range meta (entry_ikey a) (entry_ikey b)) as (a & b & Ha & Hb & Er).
  { unfold range_of. destruct (contents n) as [|a l]; [done|]. cbn [head]. destruct (list.last (a :: l)) as [b|] eqn:Eb; [|by apply list.last_None in Eb].
    exists a, b. split; [by left|]. split; [|done]. apply list.last_Some in Eb as [l' ->]. apply elem_of_app. right. by left. }
  assert (forall e, e ∈ contents n -> InternalKeyComparator.Compare ucmp (entry_ikey a) (entry_ikey e) <> Gt /\ InternalKeyComparator.Compare ucmp (entry_ikey e) (entry_ikey b) <> Gt) as Hr.
  { intros e He. destruct (range_holds ucmp meta (contents n) e Hs He) as (R1 & R2 & _). rewrite Er in R1, R2. done. }
  rewrite list.Forall_forall in H4. rewrite Er. split; [done|]. split; [done|]. split; [done|]. split.
  - cbn [level_meta field_ok fst snd number file_size smallest largest refs allowed_seeks FileMetaData_new with_range]. split; [by vm_compute|].
    split; [change (0 <= n < 2 ^ 64); lia|]. split; [change (0 <= zlen tbl < 2 ^ 64); lia|]. split; [by apply ikey_ok, H4|]. split; [by apply ikey_ok, H4|]. done.
  - apply (built_file_holds E files wcontents fname rest extend z ucmp o policy ok_keys C limit rep dbname cache_id (AnyOps extend z) (fun _ => True) contents w n _ (contents n) tbl); try done.
    + by apply list.Forall_forall.
    + exists b. done.
Qed.
Lemma repair_edit_ok r contents numbers : zlen (Comparator_Name ucmp) < 2 ^ 32 -> 0 <= rp_next_file_number E C r < 2 ^ 64 ->
  Forall2 (info_of (rp_world E C r) contents) numbers (tables_ E C r) -> Forall (table_held (rp_world E C r) contents) numbers ->
  edit_ok (repair_edit E C ucmp garbage r).
Proof using All.
  intros Hname Hnext Hinfo Hheld. rewrite repair_edit_eq.
  assert (Forall (fun t => 0 <= ti_max_sequence t <= kMaxSequenceNumber /\ field_ok (FNew (level_meta 0 (ti_meta t)))) (tables_ E C r)) as Hts.
  { rewrite list.Forall_forall in Hheld. clear Hnext. induction Hinfo as [|n t ns ts Ht _ IH]; [constructor|].
    destruct (info_of_spec _ _ _ _ Ht (Hheld n ltac:(by left))) as (_ & H1 & _ & H2 & _). constructor; [done|]. apply IH. intros k Hk. apply Hheld. by right. }
  destruct (max_sequence_spec (tables_ E C r)) as [Hm _]; [eapply list.Forall_impl; [exact Hts|]; by intros t [? _]|].
  change kMaxSequenceNumber with 72057594037927935 in Hm.
  split; try done; [|constructor]. unfold fields. cbn [has_comparator_ has_log_number_ has_prev_log_number_ has_next_file_number_ has_last_sequence_ opt comparator_ log_number_ next_file_number_ last_sequence_
    compact_pointers_ deleted_files_ new_files_ map app].
  repeat (constructor; [first [done|change (2 ^ 64) with 18446744073709551616 in *; cbn [field_ok]; unfold u64_ok; lia]|]).
  rewrite !map_map. apply list.Forall_fmap. eapply list.Forall_impl; [exact Hts|]. intros t [_ H]. exact H.
Qed.

Lemma Recover_repaired r w max_file_size reuse n fuel2 garbage2 :
  edit_ok (repair_edit E C ucmp garbage r) -> NoDup (map (fun t => number (ti_meta t)) (tables_ E C r)) ->
  files w !! CurrentFileName dbname = Some (current_contents 1) ->
  files w !! descriptor_name dbname 1 = Some (manifest_image extend [repair_edit E C ucmp garbage r]) ->
  (1 < n)%nat -> (record_fuel (manifest_records [repair_edit E C ucmp garbage r]) <= fuel2)%nat -> (length (current_contents 1) < fuel2)%nat ->
  exists w' vs v save, Recover E extend ucmp dbname max_file_size reuse n fuel2 w (VersionSet_new E) garbage2 = Some (w', vs, Status_OK, save) /\
    current vs = Some v /\ files w' = files w /\ level_files v 0 ≡ₚ map repaired_file (tables_ E C r) /\ (forall l, (0 < l)%nat -> level_files v l = []) /\
    vs_last_sequence vs = max_sequence_of (tables_ E C r) /\ vs_next_file_number vs = u64 (rp_next_file_number E C r + 1).
Proof using All.
  intros Hok Hnd Hcur Hman Hn Hf1 Hf2. set (e := repair_edit E C ucmp garbage r) in *. assert (e = _) as Ee by apply repair_edit_eq.
  destruct (recover_records ucmp garbage2 [e] (mkRecover Status_OK (vs_compact_pointer (VersionSet_new E)) (Builder_new Version_new) None None None None)) as (st' & Ef & Hs & Hb & Hnum);
    [by apply Forall_singleton|apply Forall_singleton; by rewrite Ee|done|].
  destruct (Hnum [] e eq_refl) as (N1 & _ & N3 & N4). rewrite Ee in N1, N3, N4. specialize (N1 eq_refl). specialize (N3 eq_refl). specialize (N4 eq_refl).
  cbn [log_number_ next_file_number_ last_sequence_] in N1, N3, N4.
  assert (forall l, edit_new l e = if (l =? 0)%nat then map repaired_file (tables_ E C r) else []) as Hnew.
  { intros l. rewrite Ee. unfold edit_new. cbn [new_files_].
    assert (forall metas, filter (fun p : Z * FileMetaData => Z.to_nat (fst p) = l) (map (level_meta 0) metas) = if (l =? 0)%nat then map (level_meta 0) metas else []) as ->.
    { induction metas as [|m ms IH]; cbn [map]; [by destruct (l =? 0)%nat|]. rewrite filter_cons, IH. cbn [level_meta fst Z.of_nat Z.to_nat].
      destruct (Nat.eqb_spec l 0) as [->|Hl]; [by rewrite decide_True|by rewrite decide_False by lia]. }
    destruct (l =? 0)%nat; [by rewrite !map_map|done]. }
  assert (fresh_edits (files_ Version_new) [e]) as Hfresh.
  { intros l base [-> Hl]%lookup_replicate. unfold fresh_files. cbn [map concat app]. rewrite app_nil_r, Hnew. destruct (l =? 0)%nat; [|constructor]. by rewrite map_map. }
  assert (forall l, (l < kNumLevels)%nat -> exists fs, saved ucmp [] (files_ Version_new) [e] !! l = Some fs /\ fs ≡ₚ edit_new l e) as Hsaved.
  { intros l Hl. destruct (saved_lookup ucmp [] (files_ Version_new) [e] l []) as (fs & E3 & _ & Hp); [apply new_sorted|done|by apply lookup_replicate|]. by exists fs. }
  assert (levels_ok ucmp 0 (saved ucmp [] (files_ Version_new) [e]) = true) as Hlv.
  { apply levels_ok_lookup. intros [|l] fs Hl; [done|]. destruct (Hsaved (S l)) as (fs' & E3 & Hp).
    { apply lookup_lt_Some in Hl. by rewrite (length_saved ucmp) in Hl. }
    rewrite Hl in E3. injection E3 as <-. rewrite Hnew in Hp. by apply Permutation_nil_r in Hp as ->. }
  destruct (Recover_image E files wcontents fname rest extend ucmp dbname max_file_size reuse w 1 [e] garbage2 n fuel2 st' Hcur Hman Hn Hf1 Hf2 Ef Hs) as
    (w' & vs & v & save & R1 & R2 & R3 & R4 & _ & _ & R7 & R8); [by rewrite N3|by rewrite N1|by rewrite N4|done|done|].
  rewrite N4 in R7. injection R7 as R7. rewrite N3 in R8. cbn [default from_option id] in R8.
  assert (forall l, (l < kNumLevels)%nat -> level_files v l ≡ₚ edit_new l e) as Hlev.
  { intros l Hl. destruct (Hsaved l Hl) as (fs & E3 & Hp). unfold level_files. by rewrite R3, E3. }
  exists w', vs, v, save. split; [done|]. split; [done|]. split; [done|]. split; [rewrite (Hlev 0%nat) by (by apply Nat.ltb_lt); by rewrite Hnew|]. split; [|done].
  intros l Hl. destruct (decide (l < kNumLevels)%nat) as [Hlt|Hge].
  - apply Permutation_nil_r. rewrite Hlev by done. rewrite Hnew. by rewrite (proj2 (Nat.eqb_neq _ _)) by lia.
  - unfold level_files. rewrite R3, lookup_ge_None_2; [done|]. rewrite (length_saved ucmp) by done. lia.
Qed.
(** ** The whole run *)

(** A directory that can be repaired without a loss. *)
Record repairable (w : World E) (names : list bytes) contents : Prop := {
  ra_children : GetChildren E w dbname = (Status_OK, names);
  ra_names : names <> [] /\ NoDup names /\ zlen names < 2 ^ 62;
  ra_numbers : Forall (fun f => forall n type, ParseFileName f = Some (n, type) -> n < 2 ^ 62) names;
  ra_logs : NoDup (logs_in names) /\ Forall (log_held w) (logs_in names);
  ra_tables : NoDup (tables_in names) /\ Forall (table_held w contents) (tables_in names) }.

(** The state that the last part of the run starts from. *)
Record run_tables (w : World E) (names : list bytes) contents r contents' : Prop := {
  rt_next : 0 <= rp_next_file_number E C r /\ rp_next_file_number E C r + 1 < 2 ^ 64;
  rt_held : tables_held (rp_world E C r) contents' (rp_next_file_number E C r) (table_numbers_ E C r);
  rt_infos : Forall2 (info_of (rp_world E C r) contents') (table_numbers_ E C r) (tables_ E C r);
  rt_manifests : manifests_ E C r = manifests_in names;
  rt_changes : changes_only only_tables_and_logs w (rp_world E C r);
  rt_entries : forall e, (exists k, k ∈ table_numbers_ E C r /\ e ∈ contents' k) <->
    (exists k, k ∈ tables_in names /\ e ∈ contents k) \/ (exists log, log ∈ logs_in names /\ e ∈ log_entries log) }.

Lemma Run_tables w names contents cache : repairable w names contents -> rep cache (fun _ => None) [] -> 1 <= limit ->
  exists r contents', run_tables w names contents r contents' /\
    Run E extend z C new_chars ucmp options_ dbname cache_id garbage fuel (Repairer_new E C w cache) = WriteDescriptor E extend C ucmp dbname garbage r.
Proof using All.
  intros [H1 (H2 & H2' & H2'') H3 (H4 & H4') (H5 & H5')] Hrep Hlim. unfold Run, FindFiles. cbn [Repairer_new rp_world]. rewrite H1. cbn [ok Status_OK state_ negb].
  destruct names as [|f0 names0]; [done|]. set (names := f0 :: names0) in *. rewrite find_files_spec. cbn [Repairer_new rp_world rp_cache manifests_ table_numbers_ logs_ tables_ rp_next_file_number app].
  destruct (next_number_spec names 1 H3 ltac:(lia)) as [Hb Hlt]. set (next := next_number names 1) in *. cbn [ok Status_OK state_].
  assert (length (logs_in names) <= length names)%nat as Hll by apply logs_in_length.
  assert (cache_below next contents 1 cache) as Hc.
  { intros contents' _. exists []. split; [|cbn; lia]. exists (fun _ => None). split; [done|]. intros n tf _ Hx. discriminate Hx. }
  assert (tables_held w contents next (tables_in names)) as Ht.
  { split; [lia| |done|done]. apply list.Forall_forall. intros k (f & Hf & Hk)%list_elem_of_omap. destruct (ParseFileName f) as [[n []]|] eqn:Ef; try discriminate. injection Hk as ->.
    by eapply Hlt. }
  unfold ConverLogFilesToTables. cbn [logs_].
  destruct (convert_logs_spec (logs_in names) (mkRepairer E C w cache (manifests_in names) (tables_in names) (logs_in names) [] next) contents 1 H4 H4')
    as (w1 & cache1 & contents' & added & Ec & Hc1 & Ht1 & Hold & Hch & Hent); cbn [rp_world rp_cache rp_next_file_number manifests_ table_numbers_ logs_ tables_] in *; [lia|done|lia|done|].
  rewrite Ec. cbn [mbind option_bind]. unfold ExtracMetaData. cbn [table_numbers_].
  destruct (Hc1 contents' ltac:(done)) as (hs & Hhs & Hl).
  destruct (scan_tables_spec (tables_in names ++ added) (mkRepairer E C w1 cache1 (manifests_in names) (tables_in names ++ added) (logs_in names) [] (next + zlen (logs_in names)))
    contents' hs Hhs ltac:(lia) (th_held _ _ _ _ Ht1)) as (cache2 & infos & -> & Hi). cbn [mbind option_bind rp_world manifests_ table_numbers_ logs_ tables_ rp_next_file_number app] in Hi |- *.
  eexists _, contents'. split; [|reflexivity]. split; cbn [rp_world rp_next_file_number table_numbers_ tables_ manifests_]; try done; [lia|].
  assert (forall k, k ∈ tables_in names -> contents' k = contents k) as Hsame.
  { intros k Hk. apply Hold. pose proof (th_below _ _ _ _ Ht) as Hx. rewrite list.Forall_forall in Hx. by apply Hx. }
  intros e. split.
  - intros (k & [Hk|Hk]%elem_of_app & He); [left; exists k; by rewrite <- Hsame|]. right. apply Hent. by exists k.
  - intros [(k & Hk & He)|He]; [exists k; rewrite Hsame by done; split; [apply elem_of_app; by left|done]|].
    apply Hent in He as (k & Hk & He). exists k. split; [apply elem_of_app; by right|done].
Qed.
Lemma info_number w contents n t : info_of w contents n t -> number (ti_meta t) = n.
Proof using Type.
  intros (tbl & _ & _ & ->). unfold scanned, range_of. cbn [ti_meta]. destruct (contents n) as [|a l]; [done|]. cbn [head]. by destruct (list.last (a :: l)).
Qed.

Lemma held_same w w' contents n t : (forall k, 0 <= k < 2 ^ 64 -> files w' !! table_name dbname k = files w !! table_name dbname k) ->
  table_held w contents n -> info_of w contents n t -> table_held w' contents n /\ info_of w' contents n t.
Proof using Type.
  intros Hw [H1 (tbl & H2 & H2') H3 H4 H5 H6] (tbl' & Ht & Hb & ->). split; [split; try done; exists tbl; rewrite Hw by lia; done|]. exists tbl'. rewrite Hw by lia. done.
Qed.

Lemma run_manifest w names contents r contents' : repairable w names contents -> run_tables w names contents r contents' ->
  exists w', WriteDescriptor E extend C ucmp dbname garbage r = Some (set_rp_world E C r w', Status_OK) /\
    files w' !! CurrentFileName dbname = Some (current_contents 1) /\
    files w' !! descriptor_name dbname 1 = Some (manifest_image extend [repair_edit E C ucmp garbage r]) /\
    forall n, 0 <= n < 2 ^ 64 -> files w' !! table_name dbname n = files (rp_world E C r) !! table_name dbname n.
Proof using All.
  intros [H1 (_ & H2 & _) _ _ _] [_ _ _ Hm Hch _]. apply WriteDescriptor_spec; rewrite Hm; [by apply list.NoDup_filter|].
  destruct (children_spec w dbname) as (ns & En & Hns). assert (ns = names) as -> by (rewrite H1 in En; by injection En).
  apply list.Forall_forall. intros m [Hp Hin]%list_elem_of_filter. apply Hns in Hin as [Hs Hex]. destruct (ParseFileName m) as [[n type]|] eqn:Ep; [|discriminate].
  injection Hp as ->. split; [done|]. split; [|by exists n]. rewrite (Hch m _ Ep); [done|]. by intros [?|?].
Qed.

Lemma Run_spec w names contents cache : zlen (Comparator_Name ucmp) < 2 ^ 32 -> repairable w names contents -> rep cache (fun _ => None) [] -> 1 <= limit ->
  exists r contents', Run E extend z C new_chars ucmp options_ dbname cache_id garbage fuel (Repairer_new E C w cache) = Some (r, Status_OK) /\
    forall max_file_size reuse n fuel2 garbage2,
    (1 < n)%nat -> (record_fuel (manifest_records [repair_edit E C ucmp garbage r]) <= fuel2)%nat -> (length (current_contents 1) < fuel2)%nat ->
    exists w3 vs v save, Recover E extend ucmp dbname max_file_size reuse n fuel2 (rp_world E C r) (VersionSet_new E) garbage2 = Some (w3, vs, Status_OK, save) /\
      current vs = Some v /\ (forall l, (0 < l)%nat -> level_files v l = []) /\ NoDup (map number (level_files v 0)) /\
      (forall f, f ∈ level_files v 0 -> file_holds ucmp (is_table_in E extend z ucmp o ok_keys dbname contents' w3) contents' f /\
        number f < vs_next_file_number vs /\ Forall (fun e => e_seq e <= vs_last_sequence vs) (contents' (number f))) /\
      (forall e, (exists f, f ∈ level_files v 0 /\ e ∈ contents' (number f)) <->
        (exists k, k ∈ tables_in names /\ e ∈ contents k) \/ (exists log, log ∈ logs_in names /\ e ∈ log_entries log)).
Proof using All.
  intros Hname Hra Hrep Hlim. destruct (Run_tables w names contents cache Hra Hrep Hlim) as (r & contents' & Hrt & ->).
  destruct (run_manifest w names contents r contents' Hra Hrt) as (w2 & Ew & Hcur & Hman & Hsame). destruct Hrt as [[Hx0 Hx1] [_ Hbelow Hnd Hheld] Hinfo _ _ Hent].
  exists (set_rp_world E C r w2), contents'. split; [done|]. intros max_file_size reuse n fuel2 garbage2 Hn Hf1 Hf2.
  change (repair_edit E C ucmp garbage (set_rp_world E C r w2)) with (repair_edit E C ucmp garbage r) in Hf1. cbn [set_rp_world rp_world].
  assert (forall k, k ∈ table_numbers_ E C r -> table_held (rp_world E C r) contents' k /\ k < rp_next_file_number E C r) as Hall.
  { rewrite list.Forall_forall in Hheld, Hbelow. intros k Hk. split; [by apply Hheld|by apply Hbelow]. }
  assert (map (fun t => number (ti_meta t)) (tables_ E C r) = table_numbers_ E C r) as Enum.
  { clear -Hinfo. induction Hinfo as [|k t ks ts Ht _ IH]; [done|]. cbn [map]. by rewrite IH, (info_number _ _ _ _ Ht). }
  assert (edit_ok (repair_edit E C ucmp garbage r)) as Hok by (apply (repair_edit_ok r contents' (table_numbers_ E C r)); [done|lia|done|done]).
  destruct (Recover_repaired r w2 max_file_size reuse n fuel2 garbage2 Hok) as (w3 & vs & v & save & R1 & R2 & R3 & R4 & R5 & R6 & R7); [by rewrite Enum|done..|].
  assert (Forall2 (fun k t => table_held w3 contents' k /\ info_of w3 contents' k t) (table_numbers_ E C r) (tables_ E C r)) as Hboth.
  { clear -Hinfo Hall Hsame R3. induction Hinfo as [|k t ks ts Ht _ IH]; constructor; [|apply IH; intros x Hx; apply Hall; by right].
    apply (held_same (rp_world E C r)); [intros x Hx; rewrite R3; by apply Hsame|apply Hall; by left|done]. }
  assert (Forall2 (fun k t => number (repaired_file t) = k /\ 0 <= ti_max_sequence t <= kMaxSequenceNumber /\ Forall (fun e => e_seq e <= ti_max_sequence t) (contents' k) /\
    file_holds ucmp (is_table_in E extend z ucmp o ok_keys dbname contents' w3) contents' (repaired_file t)) (table_numbers_ E C r) (tables_ E C r)) as Hfiles.
  { eapply list.Forall2_impl; [exact Hboth|]. intros k t [Hk Ht]. destruct (info_of_spec w3 contents' k t Ht Hk) as (F1 & F2 & F3 & _ & F5). done. }
  destruct (max_sequence_spec (tables_ E C r)) as [_ Hmax].
  { apply list.Forall_forall. intros t (i & Hi)%list_elem_of_lookup. destruct (Forall2_lookup_r _ _ _ _ _ Hfiles Hi) as (k & _ & _ & H & _). exact H. }
  rewrite list.Forall_forall in Hmax.
  exists w3, vs, v, save. split; [done|]. split; [done|]. split; [done|]. split; [|split].
  - rewrite R4, map_map. rewrite <- Enum in Hnd. exact Hnd.
  - intros f. rewrite R4. intros (t & -> & Ht)%list_elem_of_fmap. pose proof (Hmax t Ht) as Hle. apply list_elem_of_lookup in Ht as (i & Hi).
    destruct (Forall2_lookup_r _ _ _ _ _ Hfiles Hi) as (k & Hk & F1 & F2 & F3 & F4). rewrite F1, R6, R7, u64_small by lia. split; [done|]. split.
    + apply list_elem_of_lookup_2 in Hk. destruct (Hall k Hk) as [_ Hlt]. lia.
    + eapply list.Forall_impl; [exact F3|]. intros e He. cbn in He. lia.
  - intros e. rewrite <- Hent. split.
    + intros (f & Hf & He). rewrite R4 in Hf. apply list_elem_of_fmap in Hf as (t & -> & (i & Hi)%list_elem_of_lookup).
      destruct (Forall2_lookup_r _ _ _ _ _ Hfiles Hi) as (k & Hk & F1 & _). rewrite F1 in He. exists k. split; [by eapply list_elem_of_lookup_2|done].
    + intros (k & (i & Hi)%list_elem_of_lookup & He). destruct (Forall2_lookup_l _ _ _ _ _ Hfiles Hi) as (t & Ht & F1 & _). exists (repaired_file t).
      rewrite F1. split; [|done]. rewrite R4. apply list_elem_of_fmap. exists t. split; [done|by eapply list_elem_of_lookup_2].
Qed.
End Repair.

(** A table that only has the old suffix is not found: the name it is looked up
    under contains the table's own file name as directory. *)
Lemma ScanTable_loses_sst (E : Env) extend z C options_ dbname cache_id fuel r n : 0 < n ->
  ok (fst (GetFileSize E (rp_world E C r) (table_name dbname n))) = false ->
  ok (fst (GetFileSize E (rp_world E C r) (table_name dbname n ++ str:"/" ++ file_base n (str:"sst")))) = false ->
  ScanTable E extend z C options_ dbname cache_id fuel r n =
    Some (ArchiveFile E C (ArchiveFile E C r (table_name dbname n)) (sst_name dbname n)).
Proof.
  intros Hn. unfold ScanTable. rewrite TableFileName_pos by done. cbn [mbind option_bind].
  change (table_name dbname n ++ str:"/" ++ file_base n (str:"sst")) with (sst_name (table_name dbname n) n).
  destruct (GetFileSize E (rp_world E C r) (table_name dbname n)) as [s size]. cbn [fst]. intros Hs. rewrite Hs. cbn [negb].
  rewrite (SSTTableFileName_pos (table_name dbname n)) by done. cbn [mbind option_bind].
  destruct (GetFileSize E (rp_world E C r) (sst_name (table_name dbname n) n)) as [s2 size2]. cbn [fst]. intros ->. cbn [mbind option_bind]. rewrite Hs. cbn [negb].
  by rewrite SSTTableFileName_pos.
Qed.

(** ** Properties *)

(** C12: repairing loses nothing that can be read.  In an environment whose files
    do not fail, let the directory hold intact tables under their .ldb names, logs
    of writes that may end at any byte, all with positive numbers as [NewFileNumber]
    gives them, and manifests of any contents ([repairable]).  A table under the old
    .sst name is not covered: [ScanTable] loses it ([ScanTable_loses_sst]).  Then [Repairer::Run] succeeds,
    and [VersionSet::Recover] opens what it leaves behind: a version with all
    tables at level 0, each file with the metadata of the table it names, its
    number below the next file number and its sequence numbers at most the last
    one.  The entries of these tables are the entries of the tables that were
    found and those of the complete records of the logs, and no others. *)
Theorem repair_keeps_everything (E : Env) files wcontents fname rest (extend : Z -> bytes -> Z) (z : Compression)
    (C : CacheOps TableAndFile) (limit : Z) rep (new_chars : list region -> Z -> Z) (ucmp : Comparator) (options_ : DBOptions)
    (policy : option FilterPolicy) (ok_keys : list bytes -> Prop) (dbname : bytes) (cache_id : Z) (garbage : bool) (fuel : nat)
    (groups : Z -> list Group) (cut : Z -> nat) (w : World E) (names : list bytes) (contents : Z -> list Entry) (cache : CState C) :
  EnvLaws E files wcontents fname rest -> CrcLaws extend -> CompressionLaws z -> CacheLaws C limit rep -> ComparatorLaws ucmp ->
  DbTableOptions ucmp (table_options options_) policy ok_keys -> zlen (Comparator_Name ucmp) < 2 ^ 32 ->
  repairable E files wcontents extend z ucmp options_ ok_keys dbname fuel groups cut w names contents ->
  rep cache (fun _ => None) [] -> 1 <= limit ->
  exists r contents', Run E extend z C new_chars ucmp options_ dbname cache_id garbage fuel (Repairer_new E C w cache) = Some (r, Status_OK) /\
    forall max_file_size reuse n fuel2 garbage2,
    (1 < n)%nat -> (record_fuel (manifest_records [repair_edit E C ucmp garbage r]) <= fuel2)%nat -> (length (current_contents 1) < fuel2)%nat ->
    exists w3 vs v save, Recover E extend ucmp dbname max_file_size reuse n fuel2 (rp_world E C r) (VersionSet_new E) garbage2 = Some (w3, vs, Status_OK, save) /\
      current vs = Some v /\ (forall l, (0 < l)%nat -> level_files v l = []) /\ NoDup (map number (level_files v 0)) /\
      (forall f, f ∈ level_files v 0 -> file_holds ucmp (is_table_in E extend z ucmp (table_options options_) ok_keys dbname contents' w3) contents' f /\
        number f < vs_next_file_number vs /\ Forall (fun e => e_seq e <= vs_last_sequence vs) (contents' (number f))) /\
      (forall e, (exists f, f ∈ level_files v 0 /\ e ∈ contents' (number f)) <->
        (exists k, k ∈ tables_in names /\ e ∈ contents k) \/ (exists log, log ∈ logs_in names /\ e ∈ log_entries extend groups cut log)).
Proof. intros HE Hcrc Hz HC Hcmp Ho Hname Hra Hrep Hlim. by eapply (Run_spec E files wcontents fname rest extend z C limit rep new_chars ucmp options_ policy ok_keys). Qed.

(** Two tables, a log that was cut in the middle of its second record, and a
    manifest that is of no use. *)
Definition sample_ruin : gmap bytes bytes :=
  <[log_name (str:"db") 11 := take 40 sample_image]> (<[descriptor_name (str:"db") 2 := str:"garbage"]>
    (<[table_name (str:"db") 9 := sample_file 9]> (<[table_name (str:"db") 7 := sample_file 7]> ∅))).

Lemma sample_repairable :
  repairable MemEnv (fun w => w) snd Extend_ref no_compression BytewiseComparator sample_db_opts sample_ok_keys (str:"db") 100
    (fun _ => sample_groups) (fun _ => 40%nat) sample_ruin (mem_children sample_ruin (str:"db")) sample_contents.
Proof.
  assert (logs_in (mem_children sample_ruin (str:"db")) = [11]) as El by (vm_compute; reflexivity).
  assert (tables_in (mem_children sample_ruin (str:"db")) ≡ₚ [7; 9]) as Et by (apply (bool_decide_unpack _); vm_compute; reflexivity).
  split.
  - reflexivity.
  - split; [|split]; [vm_compute; discriminate|apply (bool_decide_unpack _); vm_compute; reflexivity|vm_compute; reflexivity].
  - apply list.Forall_forall. intros f Hf n type Hp.
    assert (forallb (fun f => match ParseFileName f with Some (n, _) => n <? 2 ^ 62 | None => true end) (mem_children sample_ruin (str:"db")) = true) as H by (vm_compute; reflexivity).
    rewrite forallb_forall in H. specialize (H f (proj1 (list_elem_of_In _ _) Hf)). rewrite Hp in H. by apply Z.ltb_lt.
  - rewrite El. split; [apply NoDup_singleton|]. apply Forall_singleton. split; [lia|apply (lookup_insert_eq (M:=gmap bytes))|].
    split; [repeat split; try lia; repeat constructor; vm_compute; congruence|vm_compute; lia|cbn; lia|cbn; lia|].
    intros k es. apply (sample_groups_fit sample_db_opts eq_refl [] (take k sample_groups) (drop k sample_groups)). by rewrite app_nil_l, take_drop.
  - rewrite Et. split; [apply (bool_decide_unpack _); vm_compute; reflexivity|].
    apply list.Forall_forall. intros n Hn. assert (n = 9 \/ n = 7) as Hn' by (apply elem_of_cons in Hn as [->|Hn]; [by right|apply list_elem_of_singleton in Hn as ->; by left]). split.
    + lia.
    + exists (sample_file n). split; [destruct Hn' as [-> | ->]; vm_compute; reflexivity|by apply sample_table_bytes].
    + destruct Hn' as [-> | ->]; discriminate.
    + destruct Hn' as [-> | ->]; repeat constructor; vm_compute; congruence.
    + destruct Hn' as [-> | ->]; apply (bool_decide_unpack _); vm_compute; reflexivity.
    + destruct Hn' as [-> | ->]; cbn; lia.
Qed.

Lemma repair_keeps_everything_witness :
  exists r, Run MemEnv Extend_ref no_compression NewLRUCache sample_chars BytewiseComparator sample_db_opts (str:"db") 0 false 100
    (Repairer_new MemEnv NewLRUCache sample_ruin (SharedLRUCache_new 990)) = Some (r, Status_OK).
Proof.
  destruct (repair_keeps_everything MemEnv (fun w => w) snd fst (fun r => r) Extend_ref no_compression NewLRUCache 1000 (shared_rep 1000)
    sample_chars BytewiseComparator sample_db_opts (Some sample_policy) sample_ok_keys (str:"db") 0 false 100 (fun _ => sample_groups) (fun _ => 40%nat)
    sample_ruin (mem_children sample_ruin (str:"db")) sample_contents (SharedLRUCache_new 990) _ _ _ (shared_cache_laws 1000 sample_cache_limit) _ _) as (r & _ & Er & _).
  - vm_compute. reflexivity.
  - exact sample_repairable.
  - apply shared_new_rep; [done|lia].
  - lia.
  - exists r. exact Er.
Defined.
