(* ===== verification/Dump.v ===== *)
(** * Dumping files as text

    src/db/dumpfile.cc: [DumpFile] prints a log, a manifest or a table, for
    people.  Logs and manifests are read record by record, tables with their
    iterator.

    The theorem [dump_file_complete]: what such a file holds is printed, all of it
    and in order, each record with its position in the file.  A table is opened
    with default options, that is, with another comparator than it was built
    with; the iterator is only moved forwards, which compares nothing. *)

From stdpp Require Import gmap sets.
From S2P Require Import Prelude Slice Coding Crc32c Comparator DbFormat Hash WriteBatch LogFormat LogWriter LogReader Filename.
From S2P Require Import Iterator BlockBuilder Block Format FilterBlock TwoLevelIterator TableBuilder Table VersionEdit VersionBuilder DebugText Env PosixFiles.

Definition newline : bytes := [Byte.x0a].

Section Operations.
Context (E : Env) (extend : Z -> bytes -> Z) (z : Compression) (W : WritableFile).
(** The value of a flag that the constructor of [VersionEdit] leaves unset, and
    the bound of the loops. *)
Context (garbage : bool) (fuel : nat).

(** [dst->Append(r)]; the status is not looked at. *)
Definition say (dst : WFile W) (r : bytes) : WFile W := fst (Append W dst r).

(** [GuessType] *)
Definition GuessType (fname : bytes) : option FileType :=
  let basename := match rfind_slash fname with None => fname | Some pos => drop (S pos) fname end in
  snd <$> ParseFileName basename.

(** [CorruptionReporter::Corruption] *)
Definition report_corruption (dst : WFile W) (report : Z * Status) : WFile W :=
  say dst (AppendNumberTo (str:"corruption: ") (fst report) ++ str:" bytes; " ++ ToString (snd report) ++ newline).

(** The loop of [PrintLogContents]; the reporter prints while [ReadRecord] runs. *)
Fixpoint print_loop (func : Z -> bytes -> WFile W -> option (WFile W)) (n : nat) (r : Reader (env_F E)) (dst : WFile W) : option (WFile W) :=
  match n with
  | O => None
  | S n =>
      '(r', record) ← ReadRecord extend fuel r;
      let dst := fold_left report_corruption (drop (length (reports r)) (reports r')) dst in
      match record with
      | None => Some dst
      | Some record => dst ← func (last_record_offset_ r') record dst; print_loop func n r' dst
      end
  end.

(** [PrintLogContents] *)
Definition PrintLogContents (w : World E) (fname : bytes) (func : Z -> bytes -> WFile W -> option (WFile W)) (dst : WFile W) :
    option (WFile W * Status) :=
  let '(s, file) := NewSequentialFile E w fname in
  if negb (ok s) then Some (dst, s)
  else
    file ← file;
    dst ← print_loop func fuel (Reader_new file true true 0) dst;
    Some (dst, Status_OK).

(** [WriteBatchItemPrinter::Put], [WriteBatchItemPrinter::Delete] *)
Definition item_text (op : BatchOp) : bytes :=
  match op with
  | OpPut key value =>
      AppendEscapedStringTo (AppendEscapedStringTo (str:"  put '") key ++ str:"' '") value ++ str:"'" ++ newline
  | OpDelete key => AppendEscapedStringTo (str:"  del '") key ++ str:"'" ++ newline
  end.

(** [WriteBatchPrinter] *)
Definition WriteBatchPrinter (pos : Z) (record : bytes) (dst : WFile W) : option (WFile W) :=
  let r := AppendNumberTo (str:"--- offset ") pos ++ str:"; " in
  if zlen record <? 12 then
    Some (say dst (AppendNumberTo (r ++ str:"log record length ") (zlen record) ++ str:" is too small" ++ newline))
  else
    batch ← SetContents record;
    let dst := say dst (AppendNumberTo (r ++ str:"sequence ") (Sequence batch) ++ newline) in
    let '(ops, s) := Iterate batch in
    let dst := fold_left (fun dst op => say dst (item_text op)) ops dst in
    Some (if negb (ok s) then say dst (str:"  error: " ++ ToString s ++ newline) else dst).

(** [DumpLog] *)
Definition DumpLog (w : World E) (fname : bytes) (dst : WFile W) : option (WFile W * Status) :=
  PrintLogContents w fname WriteBatchPrinter dst.

(** [VersionEditPrinter] *)
Definition VersionEditPrinter (pos : Z) (record : bytes) (dst : WFile W) : option (WFile W) :=
  let r := AppendNumberTo (str:"--- offset ") pos ++ str:"; " in
  let '(edit, s) := VersionEdit_DecodeFrom (VersionEdit_new garbage) record in
  Some (say dst (if negb (ok s) then r ++ ToString s ++ newline else r ++ VersionEdit_DebugString edit)).

(** [DumpDescriptor] *)
Definition DumpDescriptor (w : World E) (fname : bytes) (dst : WFile W) : option (WFile W * Status) :=
  PrintLogContents w fname VersionEditPrinter dst.

(** The text of an entry of a table; [ParseInternalKey] lets no other type pass. *)
Definition entry_text (key value : bytes) : bytes :=
  match ParseInternalKey key with
  | None => AppendEscapedStringTo (AppendEscapedStringTo (str:"badkey '") key ++ str:"' => '") value ++ str:"'" ++ newline
  | Some k =>
      let r := AppendNumberTo (AppendEscapedStringTo (str:"'") (user_key k) ++ str:"' @ ") (sequence k) ++ str:" : " in
      let r := r ++ match type k with kTypeDeletion => str:"del" | kTypeValue => str:"val" end in
      AppendEscapedStringTo (r ++ str:" => '") value ++ str:"'" ++ newline
  end.

(** The loop of [DumpTable] *)
Fixpoint table_loop (I : IteratorOps) (n : nat) (iter : IState I) (dst : WFile W) : option (IState I * WFile W) :=
  match n with
  | O => None
  | S n =>
      if negb (it_Valid I iter) then Some (iter, dst)
      else
        let dst := say dst (entry_text (it_key I iter) (it_value I iter)) in
        iter ← it_Next I iter;
        table_loop I n iter dst
  end.

(** [DumpTable] *)
Definition DumpTable (w : World E) (fname : bytes) (dst : WFile W) : option (WFile W * Status) :=
  let '(s, file_size) := GetFileSize E w fname in
  let '(s, file) := if ok s then NewRandomAccessFile E w fname else (s, None) in
  '(s, table) ← (if ok s then file ← file; Table_Open extend z Options_default file file_size 0 else Some (s, None));
  if negb (ok s) then Some (dst, s)
  else
    table ← table;
    let I := Table_Iterator extend z table false in
    iter ← it_SeekToFirst I (Table_NewIterator extend z table false);
    '(iter, dst) ← table_loop I fuel iter dst;
    let s := it_status I iter in
    let dst := if negb (ok s) then say dst (str:"iterator error: " ++ ToString s ++ newline) else dst in
    Some (dst, Status_OK).

(** [DumpFile] *)
Definition DumpFile (w : World E) (fname : bytes) (dst : WFile W) : option (WFile W * Status) :=
  match GuessType fname with
  | None => Some (dst, InvalidArgument (fname ++ str:": unknown file type"))
  | Some kLogFile => DumpLog w fname dst
  | Some kDescriptorFile => DumpDescriptor w fname dst
  | Some kTableFile => DumpTable w fname dst
  | Some _ => Some (dst, InvalidArgument (fname ++ str:": not a dump-able file type"))
  end.
End Operations.

(** ** Moving forwards compares nothing *)

(** [c] maps the states of an iterator to those of another one that does the
    same as long as it is only moved forwards. *)
Class ForwardSim (I1 I2 : IteratorOps) (c : IState I1 -> IState I2) : Prop := {
  fs_valid : forall s, it_Valid I2 (c s) = it_Valid I1 s;
  fs_key : forall s, it_key I2 (c s) = it_key I1 s;
  fs_value : forall s, it_value I2 (c s) = it_value I1 s;
  fs_status : forall s, it_status I2 (c s) = it_status I1 s;
  fs_first : forall s, it_SeekToFirst I2 (c s) = c <$> it_SeekToFirst I1 s;
  fs_next : forall s, it_Next I2 (c s) = c <$> it_Next I1 s }.

Section TwoLevelSim.
Context (I1 I2 D1 D2 : IteratorOps) (ci : IState I1 -> IState I2) (cd : IState D1 -> IState D2).
Context `{!ForwardSim I1 I2 ci} `{!ForwardSim D1 D2 cd}.
Context (f1 : bytes -> IState D1) (f2 : bytes -> IState D2) (Hf : forall h, f2 h = cd (f1 h)) (fuel : nat).

Definition two_level_map (t : TwoLevelIterator I1 D1) : TwoLevelIterator I2 D2 :=
  mkTwoLevel (status_ t) (ci (index_iter_ t)) (cd <$> data_iter_ t) (data_block_handle_ t).
Abbreviation c := two_level_map.

Lemma map_Valid t : TwoLevel_Valid I2 D2 (c t) = TwoLevel_Valid I1 D1 t.
Proof using Type*. unfold TwoLevel_Valid, two_level_map. cbn [data_iter_]. destruct (data_iter_ t) as [d|]; cbn; [apply fs_valid|done]. Qed.

Lemma map_SetDataIterator t d : SetDataIterator I2 D2 (c t) (cd <$> d) = c (SetDataIterator I1 D1 t d).
Proof using Type*.
  unfold SetDataIterator. cbn [two_level_map data_iter_]. destruct (data_iter_ t) as [e|]; cbn [fmap option_fmap option_map].
  - rewrite fs_status. unfold SaveError. cbn [two_level_map status_]. destruct (_ && _); done.
  - done.
Qed.

Lemma map_InitDataBlock t : InitDataBlock I2 D2 f2 (c t) = c (InitDataBlock I1 D1 f1 t).
Proof using Type*.
  unfold InitDataBlock. cbn [two_level_map index_iter_ data_iter_ data_block_handle_ status_]. rewrite fs_valid, fs_value, Hf.
  destruct (negb _); [exact (map_SetDataIterator t None)|].
  assert (match cd <$> data_iter_ t with Some _ => true | None => false end = match data_iter_ t with Some _ => true | None => false end) as ->
    by by destruct (data_iter_ t).
  destruct (_ && _); [done|]. exact (map_SetDataIterator (mkTwoLevel (status_ t) (index_iter_ t) (data_iter_ t) (it_value I1 (index_iter_ t)))
    (Some (f1 (it_value I1 (index_iter_ t))))).
Qed.

Lemma map_first_data t : move_data I2 D2 (it_SeekToFirst D2) (c t) = c <$> move_data I1 D1 (it_SeekToFirst D1) t.
Proof using Type*.
  unfold move_data. cbn [two_level_map data_iter_]. destruct (data_iter_ t) as [d|]; cbn [fmap option_fmap option_map]; [|done].
  rewrite fs_first. by destruct (it_SeekToFirst D1 d).
Qed.

(** Standing on another index entry. *)
Lemma map_enter t i :
  move_data I2 D2 (it_SeekToFirst D2) (InitDataBlock I2 D2 f2 (with_index I2 D2 (c t) (ci i))) =
  c <$> move_data I1 D1 (it_SeekToFirst D1) (InitDataBlock I1 D1 f1 (with_index I1 D1 t i)).
Proof using Type*. rewrite <- map_first_data, <- map_InitDataBlock. done. Qed.

Lemma map_Skip n t : SkipEmptyDataBlocksForward I2 D2 f2 n (c t) = c <$> SkipEmptyDataBlocksForward I1 D1 f1 n t.
Proof using Type*.
  revert t. induction n as [|n IH]; intros t; cbn [SkipEmptyDataBlocksForward]; [done|]. rewrite map_Valid.
  destruct (TwoLevel_Valid I1 D1 t); [done|]. cbn [two_level_map index_iter_]. rewrite fs_valid.
  destruct (negb _); [cbn; by rewrite <- (map_SetDataIterator t None)|]. rewrite fs_next.
  destruct (it_Next I1 (index_iter_ t)) as [i|]; [|done]. cbn [fmap option_fmap option_map mbind option_bind].
  rewrite map_enter. destruct (move_data I1 D1 _ _) as [t'|]; [|done]. cbn [fmap option_fmap option_map mbind option_bind]. apply IH.
Qed.

#[export] Instance two_level_sim : ForwardSim (TwoLevel I1 D1 f1 fuel) (TwoLevel I2 D2 f2 fuel) two_level_map.
Proof using Type*.
  split; cbn [TwoLevel it_Valid it_key it_value it_status it_SeekToFirst it_Next].
  - apply map_Valid.
  - intros t. unfold TwoLevel_key. cbn [two_level_map data_iter_]. destruct (data_iter_ t); cbn; [apply fs_key|done].
  - intros t. unfold TwoLevel_value. cbn [two_level_map data_iter_]. destruct (data_iter_ t); cbn; [apply fs_value|done].
  - intros t. unfold TwoLevel_status. cbn [two_level_map data_iter_ index_iter_ status_]. rewrite fs_status.
    destruct (data_iter_ t); cbn; [by rewrite fs_status|done].
  - intros t. unfold TwoLevel_SeekToFirst. cbn [two_level_map index_iter_]. rewrite fs_first.
    destruct (it_SeekToFirst I1 (index_iter_ t)) as [i|]; [|done]. cbn [fmap option_fmap option_map mbind option_bind].
    rewrite map_enter. destruct (move_data I1 D1 _ _) as [t'|]; [|done]. cbn [fmap option_fmap option_map mbind option_bind]. apply map_Skip.
  - intros t. unfold TwoLevel_Next. cbn [two_level_map data_iter_]. destruct (data_iter_ t) as [d|]; [|done].
    cbn [fmap option_fmap option_map mbind option_bind]. rewrite fs_next. destruct (it_Next D1 d) as [d'|]; [|done].
    cbn [fmap option_fmap option_map mbind option_bind]. apply (map_Skip fuel (with_data I1 D1 t d')).
Qed.
End TwoLevelSim.

(** Blocks, with any two comparators. *)
Lemma fmap_same {A} (x : option A) : (fun s => s) <$> x = x.
Proof. by destruct x. Qed.

#[export] Instance block_sim cmp1 cmp2 b : ForwardSim (Block_Iterator cmp1 b) (Block_Iterator cmp2 b) (fun s => s).
Proof.
  split; try done; intros s.
  - exact (eq_sym (fmap_same (it_SeekToFirst (Block_Iterator cmp1 b) s))).
  - exact (eq_sym (fmap_same (it_Next (Block_Iterator cmp1 b) s))).
Qed.

Section OtherOptions.
Context (extend : Z -> bytes -> Z) (z : Compression).

(** The same file opened with other options. *)
Definition reopened (t : Table) (o : Options) : Table := mkTable o (t_file t) 0 None (t_metaindex_handle t) (t_index_block t).

(** The iterators over the data blocks of the two tables have the same states. *)
Definition data_map (t : Table) (o : Options) (s : IState (DataOps t)) : IState (DataOps (reopened t o)) := existT (projT1 s) (projT2 s).

#[export] Instance data_sim t o : ForwardSim (DataOps t) (DataOps (reopened t o)) (data_map t o).
Proof.
  split; try done; intros [b s]; cbn [DataOps Dispatch it_SeekToFirst it_Next]; unfold dispatch_move, data_map; cbn [projT1 projT2].
  - change (it_SeekToFirst (Block_Iterator (t_compare (reopened t o)) b) s) with (it_SeekToFirst (Block_Iterator (t_compare t) b) s).
    by destruct (it_SeekToFirst (Block_Iterator (t_compare t) b) s).
  - change (it_Next (Block_Iterator (t_compare (reopened t o)) b) s) with (it_Next (Block_Iterator (t_compare t) b) s).
    by destruct (it_Next (Block_Iterator (t_compare t) b) s).
Qed.

Definition table_map (t : Table) (o : Options) (verify : bool) :
    IState (Table_Iterator extend z t verify) -> IState (Table_Iterator extend z (reopened t o) verify) :=
  two_level_map (IndexOps t) (IndexOps (reopened t o)) (DataOps t) (DataOps (reopened t o)) (fun s => s) (data_map t o).

#[export] Instance table_sim t o verify :
  ForwardSim (Table_Iterator extend z t verify) (Table_Iterator extend z (reopened t o) verify) (table_map t o verify).
Proof.
  apply (two_level_sim (IndexOps t) (IndexOps (reopened t o)) (DataOps t) (DataOps (reopened t o)) (fun s => s) (data_map t o)).
  intros h. unfold BlockReader. cbn [reopened t_file]. destruct (BlockHandle_DecodeFrom BlockHandle_new h) as [[handle rest] s].
  destruct (negb (ok s)); [done|]. destruct (ReadBlock extend z (t_file t) verify handle) as [c s']. by destruct (ok s').
Qed.

(** A block that passes the check of its checksum is read without it. *)
Lemma ReadBlock_unchecked file verify h c s : ReadBlock extend z file verify h = (c, s) -> ok s = true -> ReadBlock extend z file false h = (c, s).
Proof.
  unfold ReadBlock. destruct (raf_Read file (offset_ h) (u64 (size_ h + kBlockTrailerSize))) as [[s0 contents] in_buf].
  destruct (negb (ok s0)); [done|]. destruct (negb _); [done|]. destruct (verify && _); cbn [andb]; [|done]. by intros [= <- <-].
Qed.

Lemma ReadMeta_keeps t footer t' :
  ReadMeta extend z t footer = Some t' ->
  t_file t' = t_file t /\ t_metaindex_handle t' = t_metaindex_handle t /\ t_index_block t' = t_index_block t.
Proof.
  unfold ReadMeta. destruct (filter_policy (t_options t)) as [p|]; [|by intros [= <-]].
  destruct (ReadBlock _ _ (t_file t) _ (metaindex_handle_ footer)) as [c3 s3]. destruct (negb (ok s3)); [by intros [= <-]|].
  destruct (it_Seek _ _ _) as [it|]; [|done].
  cbn [mbind option_bind]. destruct (_ && _); intros [= <-]; [|done]. unfold ReadFilter.
  destruct (BlockHandle_DecodeFrom _ _) as [[h r] s4]. destruct (negb (ok s4)); [done|].
  destruct (ReadBlock _ _ (t_file t) _ h) as [c4 s5]. by destruct (negb (ok s5)).
Qed.

(** A table that opens also opens with default options. *)
Lemma Table_Open_default o file size cid t :
  Table_Open extend z o file size cid = Some (Status_OK, Some t) ->
  Table_Open extend z Options_default file size 0 = Some (Status_OK, Some (reopened t Options_default)).
Proof.
  unfold Table_Open. destruct (size <? kEncodedLength); [done|]. destruct (raf_Read file (size - kEncodedLength) kEncodedLength) as [[s input] b].
  destruct (ok s) eqn:Es; cbn [negb]; [|by intros [= -> <-]]. destruct (Footer_DecodeFrom Footer_new input) as [[footer rest] s1].
  destruct (ok s1) eqn:Es1; cbn [negb]; [|by intros [= -> <-]].
  destruct (ReadBlock extend z file (paranoid_checks o) (index_handle_ footer)) as [c s2] eqn:Er.
  destruct (ok s2) eqn:Es2; cbn [negb]; [|by intros [= -> <-]].
  change (paranoid_checks Options_default) with false. rewrite (ReadBlock_unchecked _ _ _ _ _ Er Es2), Es2. cbn [negb].
  cbn [ReadMeta Options_default t_options filter_policy mbind option_bind].
  destruct (ReadMeta extend z _ footer) as [t'|] eqn:Em; cbn [mbind option_bind]; [|done]. intros [= -> ->]. do 3 f_equal.
  apply ReadMeta_keeps in Em as (E1 & E2 & E3). cbn [t_file t_metaindex_handle t_index_block] in E1, E2, E3.
  unfold reopened. by rewrite E1, E2, E3.
Qed.
End OtherOptions.

(** ** Logs and manifests *)

Section Logs.
Context (extend : Z -> bytes -> Z) `{!CrcLaws extend} (E : Env) (rest : SFile (env_F E) -> bytes) `{!ReliableReads (env_F E) rest}.
Context (W : WritableFile) (contents : WFile W -> bytes) `{!ReliableWrites W contents}.

(** Where the records of a log begin, from position [pos] at block offset [o]. *)
Fixpoint starts (pos o : Z) (slices : list bytes) : list Z :=
  match slices with
  | [] => []
  | s :: slices => (pos + zlen (filler o)) :: starts (pos + zlen (fst (record_bytes extend o s))) (snd (record_bytes extend o s)) slices
  end.

(** A printer's text. *)
Fixpoint feed_at (func : Z -> bytes -> WFile W -> option (WFile W)) (dst : WFile W) (items : list (Z * bytes)) : option (WFile W) :=
  match items with
  | [] => Some dst
  | (pos, s) :: items => dst ← func pos s dst; feed_at func dst items
  end.

Lemma print_loop_prefix func slices o r m fuel n dst dst' total :
  at_offset (env_F E) rest r o (take m (fst (records_bytes extend o slices))) -> in_file (env_F E) rest total r ->
  (record_fuel slices <= fuel)%nat -> (length slices < n)%nat ->
  feed_at func dst (zip (starts (total - zlen (take m (fst (records_bytes extend o slices)))) o slices) (complete_records extend o m slices)) = Some dst' ->
  print_loop E extend W fuel func n r dst = Some dst'.
Proof using Type*.
  revert o r m n dst. induction slices as [|s slices IH]; intros o r m n dst H Ht Hf Hn Hfeed;
    (destruct n as [|n]; [cbn in Hn; lia|]); cbn [print_loop]; erewrite ReadRecord_at by exact H; pose proof (ao_range _ _ _ _ _ H) as Hr.
  - cbn [records_bytes fst] in H. rewrite take_nil in H.
    destruct (read_cut extend (env_F E) rest r o kFullType [] [] 0 H) as (r1 & E1 & Hrep & Hs); [done| | |].
    + pose proof (length_phys extend kFullType []). rewrite length_app. unfold kHeaderSize in *; lia.
    + pose proof (start_offset_range o Hr). cbn [length Z.of_nat]. lia.
    + destruct fuel as [|fuel]; [unfold record_fuel in Hf; lia|].
      rewrite (ReadRecord_eof extend (env_F E) fuel r r1) by done. cbn [mbind option_bind]. by rewrite Hrep, drop_all.
  - rewrite records_bytes_cons in H, Hfeed. cbn [fst complete_records starts] in *. pose proof (record_rounds o s Hr) as Hok.
    destruct (record_fuel_cons s slices) as [Hf1 Hf2]. cbn [length] in Hn.
    destruct (length (fst (record_bytes extend o s)) <=? m)%nat eqn:Em.
    + apply Nat.leb_le in Em. rewrite take_app_ge in H, Hfeed by done.
      destruct (read_record extend (env_F E) rest _ fuel _ _ _ r [] _ 0 Hok ltac:(lia) (fun _ => eq_refl) ltac:(lia) H) as (r1 & E1 & H1 & Hrep & Hpos).
      destruct (Hpos total Ht) as [Ht1 Hlast]. cbn [negb app] in E1. rewrite E1. cbn [mbind option_bind].
      rewrite Hrep, drop_all. cbn [fold_left]. fold (record_bytes extend o s) in Hlast, H1. cbn [zip zip_with feed_at] in Hfeed.
      rewrite <- Hlast in Hfeed. destruct (func (last_record_offset_ r1) s dst) as [dst1|]; [|done]. cbn [mbind option_bind] in Hfeed |- *.
      apply (IH (snd (record_bytes extend o s)) r1 (m - length (fst (record_bytes extend o s)))%nat n dst1 H1 Ht1 ltac:(lia) ltac:(lia)). rewrite <- Hfeed. do 3 f_equal. rewrite length_app. lia.
    + apply Nat.leb_gt in Em. rewrite take_app_le in H by lia.
      destruct (read_record_cut extend (env_F E) rest _ fuel _ _ _ r [] 0 m Hok) as (r1 & E1 & Hrep); [lia|done|lia|exact Em|exact H|].
      cbn [negb] in E1. rewrite E1. cbn [mbind option_bind]. by rewrite Hrep, drop_all.
Qed.

(** Reading a log from its start, cut at [m]. *)
Lemma print_cut_log func (g : SFile (env_F E)) slices m fuel n dst dst' :
  rest g = take m (fst (records_bytes extend 0 slices)) -> zlen (rest g) < 2 ^ 64 ->
  (record_fuel slices <= fuel)%nat -> (length slices < n)%nat ->
  feed_at func dst (zip (starts 0 0 slices) (complete_records extend 0 m slices)) = Some dst' ->
  print_loop E extend W fuel func n (Reader_new g true true 0) dst = Some dst'.
Proof using Type*.
  intros Hg Hlen Hf Hn Hfeed. pose proof (Reader_new_at (env_F E) rest g true true) as H.
  assert (in_file (env_F E) rest (zlen (rest g)) (Reader_new g true true 0)) as Ht by (split; cbn; lia).
  rewrite Hg, <- records_bytes_boundary in H, Ht.
  apply (print_loop_prefix func slices _ _ m fuel n dst dst' _ H Ht Hf Hn). rewrite Z.sub_diag. rewrite <- Hfeed.
  by destruct slices.
Qed.

Lemma say_contents dst r : contents (say W dst r) = contents dst ++ r.
Proof using Type*. apply Append_contents. Qed.

Lemma say_all {A} (text : A -> bytes) (l : list A) dst :
  contents (fold_left (fun dst x => say W dst (text x)) l dst) = contents dst ++ concat (map text l).
Proof using Type*.
  revert dst. induction l as [|x l IH]; intros dst; cbn [fold_left map concat]; [by rewrite app_nil_r|]. by rewrite IH, say_contents, <- app_assoc.
Qed.

(** A printer that prints [text] for the records that stand for good values. *)
Lemma feed_at_text {A} func (good : A -> Prop) (record : A -> bytes) (text : Z -> A -> bytes) ps xs dst :
  (forall pos x dst, good x -> exists dst', func pos (record x) dst = Some dst' /\ contents dst' = contents dst ++ text pos x) ->
  Forall good xs ->
  exists dst', feed_at func dst (zip ps (map record xs)) = Some dst' /\ contents dst' = contents dst ++ concat (zip_with text ps xs).
Proof using Type*.
  intros Hfunc. revert ps dst. induction xs as [|x xs IH]; intros [|p ps] dst Hg; cbn [map zip zip_with feed_at concat].
  1-3: exists dst; by rewrite app_nil_r.
  apply list.Forall_cons in Hg as [Hx Hg]. destruct (Hfunc p x dst Hx) as (d1 & -> & E1). cbn [mbind option_bind].
  destruct (IH ps d1 Hg) as (d2 & -> & E2). exists d2. split; [done|]. by rewrite E2, E1, <- app_assoc.
Qed.

Lemma prefix_take {A} (l k : list A) : l `prefix_of` k -> l = take (length l) k.
Proof using Type. intros [r ->]. by rewrite take_app_length. Qed.

Lemma PrintLogContents_text {A} func (good : A -> Prop) (record : A -> bytes) (text : Z -> A -> bytes) w fname g xs m fuel dst :
  (forall pos x dst, good x -> exists dst', func pos (record x) dst = Some dst' /\ contents dst' = contents dst ++ text pos x) ->
  Forall good xs -> NewSequentialFile E w fname = (Status_OK, Some g) ->
  rest g = take m (fst (records_bytes extend 0 (map record xs))) -> zlen (rest g) < 2 ^ 64 ->
  (record_fuel (map record xs) <= fuel)%nat -> (length xs < fuel)%nat ->
  exists dst', PrintLogContents E extend W fuel w fname func dst = Some (dst', Status_OK) /\
    contents dst' = contents dst ++
      concat (zip_with text (starts 0 0 (map record xs)) (take (length (complete_records extend 0 m (map record xs))) xs)).
Proof using Type*.
  intros Hfunc Hg Hopen Hrest Hlen Hf Hn. unfold PrintLogContents. rewrite Hopen. cbn [ok Status_OK state_ negb mbind option_bind].
  assert (complete_records extend 0 m (map record xs) = map record (take (length (complete_records extend 0 m (map record xs))) xs)) as Ec.
  { rewrite <- firstn_map. by apply prefix_take, complete_records_prefix. }
  destruct (feed_at_text func good record text (starts 0 0 (map record xs)) (take (length (complete_records extend 0 m (map record xs))) xs) dst Hfunc)
    as (dst' & Efeed & Et); [by apply Forall_take|]. rewrite <- Ec in Efeed.
  rewrite (print_cut_log func g (map record xs) m fuel fuel dst dst' Hrest Hlen Hf ltac:(by rewrite length_map) Efeed). eauto.
Qed.
End Logs.

(** ** What the printers print *)

(** A batch and an edit in a log, at a position. *)
Definition batch_ok (b : Z * list BatchOp) : Prop := 0 <= fst b < 2 ^ 64 /\ Forall op_ok (snd b) /\ zlen (snd b) < 2 ^ 31.
Definition batch_record (b : Z * list BatchOp) : bytes := batch_rep (fst b) (snd b).
Definition batch_text (pos : Z) (b : Z * list BatchOp) : bytes :=
  str:"--- offset " ++ decimal pos ++ str:"; sequence " ++ decimal (fst b) ++ newline ++ concat (map item_text (snd b)).
Definition edit_record (e : VersionEdit) : bytes := VersionEdit_EncodeTo e [].
Definition edit_text (garbage : bool) (pos : Z) (e : VersionEdit) : bytes :=
  str:"--- offset " ++ decimal pos ++ str:"; " ++ VersionEdit_DebugString (decoded garbage e).

Section Printers.
Context (W : WritableFile) (contents : WFile W -> bytes) `{!ReliableWrites W contents}.

Lemma WriteBatchPrinter_text pos b dst :
  batch_ok b -> exists dst', WriteBatchPrinter W pos (batch_record b) dst = Some dst' /\ contents dst' = contents dst ++ batch_text pos b.
Proof using Type*.
  intros (Hs & Hops & Hn). unfold WriteBatchPrinter, batch_record. pose proof (length_batch_rep (fst b) (snd b)) as Hl.
  rewrite (proj2 (Z.ltb_ge _ _)) by lia. unfold SetContents. rewrite (proj2 (Nat.leb_le _ _)) by (unfold kHeader; lia). cbn [mbind option_bind].
  rewrite Iterate_rep, Sequence_rep by done. cbn [ok Status_OK state_ negb]. eexists. split; [done|].
  rewrite (say_all W contents item_text), (say_contents W contents). unfold batch_text, AppendNumberTo. by rewrite <- !app_assoc.
Qed.

Lemma VersionEditPrinter_text garbage pos e dst :
  edit_ok e ->
  exists dst', VersionEditPrinter W garbage pos (edit_record e) dst = Some dst' /\ contents dst' = contents dst ++ edit_text garbage pos e.
Proof using Type*.
  intros He. unfold VersionEditPrinter, edit_record. rewrite decode_encode by done. cbn [ok Status_OK state_ negb]. eexists. split; [done|].
  rewrite (say_contents W contents). unfold edit_text, AppendNumberTo. by rewrite <- !app_assoc.
Qed.

(** The loop over a table, on an iterator that does what a cursor does. *)
Lemma table_loop_text I1 I2 (c : IState I1 -> IState I2) `{!ForwardSim I1 I2 c} okt cmp kvs pos `{!CursorOn okt cmp I1 kvs pos} n i s dst :
  pos s i -> (length kvs - i < n)%nat ->
  exists s' dst', table_loop W I2 n (c s) dst = Some (c s', dst') /\ pos s' (length kvs) /\
    contents dst' = contents dst ++ concat (map (fun kv => entry_text (fst kv) (snd kv)) (drop i kvs)).
Proof using Type*.
  revert i s dst. induction n as [|n IH]; intros i s dst Hp Hn; [lia|]. cbn [table_loop]. rewrite fs_valid, (cur_valid s i Hp).
  pose proof (cur_bound s i Hp) as Hb. destruct (Nat.ltb_spec i (length kvs)) as [Hi|Hi]; cbn [negb].
  - destruct (lookup_lt_is_Some_2 _ _ Hi) as [kv Hkv]. destruct (cur_entry s i kv Hp Hkv) as [Ek Ev]. rewrite fs_key, fs_value, fs_next, Ek, Ev.
    destruct (cur_next s i Hp Hi) as (s1 & -> & Hp1). cbn [fmap option_fmap option_map mbind option_bind].
    destruct (IH (S i) s1 (say W dst (entry_text (fst kv) (snd kv))) Hp1) as (s2 & d2 & -> & Hp2 & E2); [lia|]. exists s2, d2.
    split; [done|]. split; [done|]. rewrite E2, (say_contents W contents), <- app_assoc, (drop_S kvs kv i Hkv). done.
  - assert (i = length kvs) as -> by lia. exists s, dst. split; [done|]. split; [done|]. rewrite drop_all. by rewrite app_nil_r.
Qed.
End Printers.

(** ** Files *)

Section Files.
Context (extend : Z -> bytes -> Z) `{!CrcLaws extend} (z : Compression) `{!CompressionLaws z}.
Context (E : Env) (files : World E -> gmap bytes bytes) (fcontents : WFile (env_W E) -> bytes) (fname : WFile (env_W E) -> bytes)
  (rest : SFile (env_F E) -> bytes) `{!EnvLaws E files fcontents fname rest}.
Context (W : WritableFile) (contents : WFile W -> bytes) `{!ReliableWrites W contents}.
Context (garbage : bool) (fuel : nat).

(** The files that can be dumped, with their text and the rounds that the loops
    need: a log of batches and a manifest of edits, cut at any byte, and a table
    of any pairs, built with any options. *)
Inductive file_text : FileType -> bytes -> bytes -> nat -> Prop :=
  | text_log batches m :
      Forall batch_ok batches ->
      let records := map batch_record batches in
      file_text kLogFile (take m (fst (records_bytes extend 0 records)))
        (concat (zip_with batch_text (starts extend 0 0 records) (take (length (complete_records extend 0 m records)) batches)))
        (record_fuel records + length records)
  | text_manifest edits m :
      Forall edit_ok edits ->
      let records := map edit_record edits in
      file_text kDescriptorFile (take m (fst (records_bytes extend 0 records)))
        (concat (zip_with (edit_text garbage) (starts extend 0 0 records) (take (length (complete_records extend 0 m records)) edits)))
        (record_fuel records + length records)
  | text_table o ok_keys kvs f :
      ComparatorLaws (comparator o) -> Shortening (comparator o) -> table_input o ok_keys kvs -> fcontents f = [] ->
      let data := fcontents (file (fst (build_table extend z o f kvs))) in
      zlen data < 2 ^ 32 ->
      file_text kTableFile data (concat (map (fun kv => entry_text (fst kv) (snd kv)) kvs)) (S (length kvs)).

Lemma built_table_opens o ok_keys kvs f rf `{!ComparatorLaws (comparator o)} `{!Shortening (comparator o)} :
  table_input o ok_keys kvs -> fcontents f = [] ->
  let tbl := fcontents (file (fst (build_table extend z o f kvs))) in
  zlen tbl < 2 ^ 32 -> ReliableRandomReads rf tbl ->
  exists t pos, Table_Open extend z o rf (zlen tbl) 0 = Some (Status_OK, Some t) /\
    Cursor (Compare (comparator o)) (Table_Iterator extend z t false) kvs pos /\ pos (Table_NewIterator extend z t false) (length kvs).
Proof using Type*.
  intros Hin Hf tbl Hlen Hrf. pose proof env_writes as HW.
  destruct (build_layout extend z (env_W E) fcontents o ok_keys kvs f Hin Hf Hlen) as (_ & ds & idx & Hl).
  destruct Hin as [Hi Hsort Hsz Hpol Hok].
  destruct (Table_Open_opened extend z o Hi kvs tbl ds idx Hl Hlen rf ok_keys Hpol Hok 0) as (t & Ht & Hop).
  destruct (table_cursor extend z o Hi kvs tbl ds idx Hl Hsort Hsz Hlen rf t Hop false) as (pos & Hc & Hp). eauto.
Qed.

Lemma DumpTable_text o ok_keys kvs f w n dst `{!ComparatorLaws (comparator o)} `{!Shortening (comparator o)} :
  table_input o ok_keys kvs -> fcontents f = [] ->
  let tbl := fcontents (file (fst (build_table extend z o f kvs))) in
  zlen tbl < 2 ^ 32 -> files w !! n = Some tbl -> (length kvs < fuel)%nat ->
  exists dst', DumpTable E extend z W fuel w n dst = Some (dst', Status_OK) /\
    contents dst' = contents dst ++ concat (map (fun kv => entry_text (fst kv) (snd kv)) kvs).
Proof using Type*.
  intros Hin Hf tbl Hlen Hw Hfuel. unfold DumpTable. rewrite (size_spec w n tbl Hw). cbn [ok Status_OK state_].
  destruct (random_spec w n tbl Hw) as (rf & -> & Hrf). cbn [ok Status_OK state_ mbind option_bind].
  destruct (built_table_opens o ok_keys kvs f rf Hin Hf Hlen Hrf) as (t & pos & Ht & Hc & Hp).
  fold tbl in Ht. rewrite (Table_Open_default extend z o rf _ 0 t Ht). cbn [mbind option_bind ok Status_OK state_ negb].
  change (Table_NewIterator extend z (reopened t Options_default) false) with (table_map extend z t Options_default false (Table_NewIterator extend z t false)).
  rewrite fs_first. destruct (cur_first _ _ Hp) as (s0 & -> & Hp0). cbn [fmap option_fmap option_map mbind option_bind].
  destruct (table_loop_text W contents _ _ (table_map extend z t Options_default false) _ _ kvs pos fuel 0 s0 dst Hp0) as (s1 & d1 & -> & Hp1 & Ed); [lia|].
  cbn [mbind option_bind]. rewrite fs_status, (cur_status _ _ Hp1). cbn [ok Status_OK state_ negb]. exists d1. split; [done|]. by rewrite Ed, drop_0.
Qed.

(** C38: Dumping a file prints all of it: for a log or a manifest, also one that
    was cut at any byte, every complete record in order with the position at which
    it begins in the file; for a table every entry in order, although the table is
    opened with another comparator than it was built with.  The text is appended
    to what the destination holds, and the status is OK. *)
Theorem dump_file_complete w n dst kind data text need :
  GuessType n = Some kind -> files w !! n = Some data -> zlen data < 2 ^ 64 ->
  file_text kind data text need -> (need <= fuel)%nat ->
  exists dst', DumpFile E extend z W garbage fuel w n dst = Some (dst', Status_OK) /\ contents dst' = contents dst ++ text.
Proof using Type*.
  intros Hkind Hw Hlen Htext Hfuel. unfold DumpFile. rewrite Hkind. pose proof env_reads as HR.
  destruct Htext as [batches m Hb records|edits m He records|o ok_keys kvs f Hc Hs Hin Hf tbl Htbl].
  - destruct (sequential_spec w n _ Hw) as (g & Hopen & Hg). rewrite <- Hg in Hlen.
    apply (PrintLogContents_text extend E rest W contents (WriteBatchPrinter W) batch_ok batch_record batch_text w n g batches m fuel dst); try done.
    + intros pos b d. by apply WriteBatchPrinter_text.
    + unfold records in *. lia.
    + unfold records, record_fuel in *. rewrite length_map in Hfuel. lia.
  - destruct (sequential_spec w n _ Hw) as (g & Hopen & Hg). rewrite <- Hg in Hlen.
    apply (PrintLogContents_text extend E rest W contents (VersionEditPrinter W garbage) edit_ok edit_record (edit_text garbage) w n g edits m fuel dst); try done.
    + intros pos e d. by apply VersionEditPrinter_text.
    + unfold records in *. lia.
    + unfold records, record_fuel in *. rewrite length_map in Hfuel. lia.
  - by apply (DumpTable_text o ok_keys kvs f w n dst Hin Hf Htbl Hw ltac:(lia)).
Qed.
End Files.

(** A log of two batches that was cut in the third record. *)
Definition sample_batches : list (Z * list BatchOp) :=
  [(7, [OpPut (str:"k") (str:"v"); OpDelete (str:"x")]); (9, [OpPut (str:"k") [Byte.x00]]); (10, [OpDelete (str:"k")])].
Definition sample_file : bytes := take 60 (fst (records_bytes Extend_ref 0 (map batch_record sample_batches))).
Definition sample_world : World MemEnv := {[str:"/db/000005.log" := sample_file]}.

Lemma dump_file_complete_witness :
  exists dst, DumpFile MemEnv Extend_ref no_compression MemWritable false 30 sample_world (str:"/db/000005.log") [] = Some (dst, Status_OK) /\
    dst = str:"--- offset 0; sequence 7" ++ newline ++ str:"  put 'k' 'v'" ++ newline ++ str:"  del 'x'" ++ newline ++
      str:"--- offset 27; sequence 9" ++ newline ++ str:"  put 'k' '\x00'" ++ newline.
Proof.
  assert (Forall batch_ok sample_batches) as Hb by (repeat constructor; vm_compute; congruence).
  pose proof (text_log Extend_ref no_compression MemEnv snd false sample_batches 60 Hb) as Ht. cbn zeta in Ht.
  destruct (dump_file_complete Extend_ref no_compression MemEnv (fun w => w) snd fst (fun r => r) MemWritable (fun f => f) false 30
    sample_world (str:"/db/000005.log") [] kLogFile sample_file _ _ ltac:(vm_compute; reflexivity) ltac:(vm_compute; reflexivity)
    ltac:(vm_compute; reflexivity) Ht ltac:(vm_compute; repeat constructor)) as (dst & Ed & Et).
  exists dst. split; [exact Ed|]. rewrite Et. vm_compute. reflexivity.
Defined.
